(* ===== verification/_CoqProject ===== *)
-Q . S2P
Prelude.v
OrderedMap.v
Bt.v
Bencode.v
Crypto.v
ConfigData.v
ConfigDiff.v
ConfigMessage.v
ConfigCodec.v
ConfigMerge.v
ConfigReplay.v
ConfigReconcile.v
ConfigEdit.v
Encrypt.v
State.v
Util.v
ConfigBase.v
ConfigState.v
ConfigParts.v
ConfigLifecycle.v
ConfigSync.v
ConfigFields.v
Text.v
Ids.v
Community.v
Records.v
Contacts.v
BlindedContacts.v
UserProfile.v
UserGroups.v
ConvoInfo.v
MultiEncrypt.v
GroupMembers.v
GroupInfo.v
GroupKeys.v
GroupKeyMessages.v
GroupKeyState.v
GroupKeyDelivery.v
GroupKeyHistory.v
StableSort.v
Wire.v
Swarm.v
MasterNode.v
NodeMerge.v
MnodePool.v
MnodePoolState.v
MnodePoolUse.v
MnodeStrikes.v
RequestQueue.v
Attachment.v
AttachmentSize.v
AttachmentCodec.v
AttachmentStream.v
HopEncryption.v
OnionRequest.v
OnionDelivery.v
OnionUse.v
MessageEncrypt.v
MessageDelivery.v
Blinding.v
Curve25519.v
BlindedDelivery.v
Subaccount.v
LocalSettings.v
Protocol.v
ProtocolDelivery.v
Protos.v
ProBackend.v
ProBackendUse.v
