(* ===== verification/Prelude.v ===== *)
(** * Verification of libbchat-util

    libbchat-util keeps a user's settings (profile, contacts, groups, what has
    been read) in sync between devices that never talk to each other directly:
    each device edits its own copy, pushes it encrypted to a storage server and
    merges whatever the other devices have pushed.  It encrypts the messages and
    attachments users send each other, and the requests that carry them in
    layers to the servers, the master nodes of a network, of which it keeps a
    cache.  This development models the configuration subsystem, the messages
    and attachments, the onion requests and the node cache, and proves that
    they work correctly.

    ** The program's parts

    A _config message_ ([src/config.cpp], [include/bchat/config.hpp]) is a tree
    of data with a sequence number, a hash, the diff it made and the diffs of
    its last few ancestors.  Several messages with a common ancestor are merged
    by replaying their diffs in the order of seqno and hash.  A _config object_
    ([src/config/base.cpp], [base.hpp]) keeps the current message, its state
    (clean, dirty, waiting), encryption and signing keys, the server's hashes
    of the messages it answers for, and the parts of multipart messages; it
    encrypts with [src/config/encrypt.cpp] and compresses with the wrappers of
    [src/util.cpp].  The _typed configs_ ([src/config/contacts.cpp],
    [user_profile.cpp], [user_groups.cpp], [convo_info_volatile.cpp]) read and
    write fields of the data through [DictFieldProxy] of [base.hpp] and the
    helpers of [src/config/internal.cpp], with ids, URLs and texts checked by
    [internal.cpp], [community.cpp] and [util.cpp].  A _group_
    ([src/config/groups]) has an info and a members config and a keys object,
    which issues, hands on and loads the generations of the group's encryption
    key in messages encrypted for several recipients
    ([src/multi_encrypt.cpp]) and installs the keys in the other two; it also
    makes the _subaccounts_ with which members sign requests to the group's
    swarm.  The _local settings_ ([src/config/local.cpp]) are a config that is
    never pushed.

    A _message_ is protobuf content that [src/bchat_protocol.cpp] pads and puts
    in an envelope, for a user, a group, a community or a user of a community,
    with a signature of the sender's Pro key if there is one; what is received
    is taken apart, and the standing of the sender's Pro subscription evaluated
    from the proof in it, which the Pro backend issues
    ([src/pro_backend.cpp]).  It is encrypted by [src/bchat_encrypt.cpp] for an
    id, for a _blinded_ id ([src/blinding.cpp], with the signatures of
    [src/xed25519.cpp]) or with the key of a group.  Configs are wrapped as
    such messages by [src/config/protos.cpp] for old clients.  _Attachments_
    ([src/attachments.cpp]) are padded and encrypted as a stream of chunks,
    from memory or files, in one go or piece by piece.

    The _node pool_ ([src/network/mnode_pool.cpp]) keeps the list of master
    nodes, refreshes it from seed nodes or from several cached nodes whose
    answers it combines, counts the failures (strikes) of each node, keeps both
    in files, and hands out nodes and swarms: the nodes that store the messages
    of one account ([src/network/swarm.cpp]).  Node records are read and written
    by [src/network/master_node.cpp].  An _onion request_ ([src/onionreq]) is
    encrypted in layers, one for each node on the way, with
    [hop_encryption.cpp], and its reply is decrypted by
    [response_parser.cpp].  Requests that cannot be sent yet wait in the
    _request queue_ ([src/network/request_queue.cpp]) until they are taken or
    expire.

    ** Files

    - Prelude: bytes, exceptions and the result monad, machine integers.
    - OrderedMap: [std::map] and [std::set] as sorted sequences.
    - Bt, Bencode: [oxenc::bt_value], what the code uses of the oxenc library as
      the class [BtLib] with laws [BtLaws], the merging of [bt_merge.cpp], and an
      executable bencoding that satisfies the laws.
    - Crypto: libsodium's hash, AEAD and signatures and zstd as classes with
      their laws, and executable instances.
    - ConfigData, ConfigDiff: the data tree, [prune_], [diff_impl], [load_diff],
      [apply_diff] of [config.cpp].
    - ConfigMessage: [ConfigMessage] and [MutableConfigMessage]: parsing,
      serializing, signing, incrementing, merging.  ConfigCodec, ConfigMerge,
      ConfigReplay, ConfigReconcile (two concurrent edits) and ConfigEdit hold
      the theorems about them.
    - Encrypt: [encrypt.cpp].  State: the state and exception monad of the
      object's operations.  Util: the zstd wrappers.
    - ConfigBase: the fields of [ConfigBase] as a record and every operation of
      [base.cpp] as a state transformer.  ConfigState (the invariant), ConfigParts
      (multipart messages), ConfigLifecycle (push, confirm, hashes, keys) and
      ConfigSync (two devices) hold the theorems.
    - ConfigFields: [DictFieldProxy] and the field helpers of [internal.cpp].
      Records: how records of fields are written and read back.
    - Text, Ids, Community: [util.cpp] and [util.hpp], ids and encoded keys of
      [internal.cpp], [community.cpp].
    - Contacts, BlindedContacts, UserProfile, UserGroups, ConvoInfo: the typed
      configs.
    - MultiEncrypt: [multi_encrypt.cpp].
    - GroupMembers, GroupInfo: [groups/members.cpp], [groups/info.cpp].
    - GroupKeys: the state of [groups/keys.cpp], the key list, expiry and dumps;
      GroupKeyMessages: its constructor and the messages it makes and loads.
      GroupKeyState (every reachable state), GroupKeyDelivery (new keys reach
      admins and members) and GroupKeyHistory (orders of arrival, the whole
      history) hold the theorems.
    - StableSort: [std::stable_sort], [std::stable_partition] and
      [std::lower_bound].  Wire: integers in memory order and the [consume]
      helper of the files.
    - Swarm: [network/swarm.cpp] and the node record.  MasterNode: the text,
      binary and JSON forms of nodes and the cache file.  NodeMerge: the merge
      of several node lists in [MnodePool::_on_refresh_complete], over any
      priority queue.
    - MnodePool: the strikes file, retry delays, the state of the pool and every
      operation of [network/mnode_pool.cpp].  MnodePoolState (reachable states),
      MnodePoolUse (what callers get) and MnodeStrikes (the strikes) hold the
      theorems.
    - RequestQueue: [network/request_queue.cpp] with its timers.
    - Attachment: [attachments.cpp], its loops over chunks and files and the
      [Decryptor].  AttachmentSize (padding and sizes), AttachmentCodec (what is
      encrypted is decrypted) and AttachmentStream (the decryptor) hold the
      theorems.
    - HopEncryption, OnionRequest: [onionreq].  OnionDelivery (requests and
      replies arrive) and OnionUse (contents and limits) hold the theorems.
    - MessageEncrypt: [bchat_encrypt.cpp] but for blinded ids; Blinding:
      [blinding.cpp], [xed25519.cpp] and messages between blinded ids.
      Curve25519: the laws of the curve and its field, the conversion of keys
      between its two forms, and a small curve that satisfies the laws.
      MessageDelivery, with the messages of [groups/keys.cpp], and
      BlindedDelivery hold the theorems.
    - Subaccount: the subaccounts of [groups/keys.cpp].  LocalSettings:
      [config/local.cpp].
    - Protocol: [bchat_protocol.cpp], from padding and Pro proofs to
      [encode_for_destination], [decode_envelope] and [decode_for_community];
      ProtocolDelivery holds the theorems.  Protos: [config/protos.cpp], shown to
      be what ConfigBase assumes of the class [ProtoWrap].
    - ProBackend: [pro_backend.cpp], its requests and the parsers of its
      responses; ProBackendUse holds the theorems.

    C++ objects are records and their methods functions of the same name on
    them: a method that only reads is a function of the data, a method that
    writes is a computation in the monad of State, whose state is the
    [ConfigBase] record.  Exceptions are the constructors of [exn], and code the
    C++ standard gives no meaning throws [undefined_behaviour].  Integers are
    [Z] with the ranges and the wrap-around of their C++ types written out
    where they matter.  The clock is a parameter, and so are the random bytes and
    the key pairs a function draws, as functions of the purpose they are drawn
    for.  Files can be opened, do not change while they are read, and writing
    them does not fail.

    What the pool leaves to the event loop is part of its state: jobs for the
    disk thread, delayed calls and requests whose answers are outstanding are
    lists of pending items, and a step takes any of them at any time, so that
    the theorems hold for every order and delay.  A request may be answered with
    anything.  The callbacks users give to the pool are recorded with their
    arguments when they run; they do not call the pool themselves, and a request
    is not answered before the call that makes it returns.

    ** What is proved

    - Messages: the merge does not depend on the order of arrival
      ([merge_order_independent]), reconciles concurrent edits at every place of
      the tree that older diffs leave alone ([concurrent_edits],
      [last_writer_wins]), always gives a result ([merge_resolves]) that
      supersedes its inputs ([merge_absorbs]); an edit supersedes its parent
      ([edit_supersedes]); parsing undoes serializing, accepts only well-formed
      messages and never bypasses a verifier ([serialize_parse_roundtrip],
      [parse_message_ok], [parse_message_verified], [sign_verify_roundtrip]);
      diffs reproduce the data ([diff_apply_roundtrip]); pruning is exact
      ([prune_correct]).
    - The object: an invariant of every object that was constructed, restarted
      from a dump and used in any way, but for making a dirty object read-only,
      which breaks it ([reachable_invariant], [dirty_made_readonly]); no message on the server is forgotten before it
      is reported obsolete ([obsolete_hashes_accounted]); push and confirm
      ([publish_cycle]); the key list ([key_list_semantics]); multipart messages
      ([multipart_reassembly]); encryption and padding
      ([encrypt_decrypt_roundtrip], [padding_correct]); and end to end, what one
      device edits and pushes the other has after merging ([device_sync]).
    - Fields: [assign_field], [bitset_roundtrip], [set_members].
    - Typed configs: contacts refine an abstract map ([contacts_refine_map]),
      records read back as they were stored ([contact_roundtrip],
      [group_roundtrip], [legacy_group_roundtrip], [pro_config_roundtrip],
      [profile_name], [blinded_stored_found], [read_marker]), communities are
      found under every spelling ([community_lifecycle]), and pruning removes
      exactly the stale conversations ([prune_stale_exact]).
    - Groups: the keys object has an invariant in every reachable state
      ([keys_reachable_inv]), loses no key that is needed ([insert_key_exact]),
      survives a restart ([keys_restart_roundtrip]) and loads a message
      completely or not at all ([load_key_message_atomic]); a new key reaches
      every admin and member ([rekey_delivers]), a new member gets the whole
      history ([supplement_delivers]), and the order of arrival does not matter
      when later generations are not earlier in time, or none are far apart
      ([key_order_independent], [key_order_matters]); the info object refines a record of attributes
      ([info_refines_view]); a member's status is what the last transition says
      ([member_status]); recipients decode their copies ([multi_roundtrip]).
    - Nodes: an account's swarm is the one closest on the ring of ids
      ([account_swarm]); the merge of node lists keeps exactly the nodes that
      enough lists have ([combine_counts]); node records, the cache file and
      the strikes file read back as written ([node_list_roundtrip],
      [cache_file_roundtrip], [strikes_file_roundtrip]).
    - The pool: a refresh is never stuck ([refresh_never_stuck]); its swarms are
      those of its nodes in every reachable state ([swarms_current]); waiting
      callers are answered once, in order ([refresh_answers]); lookups and the
      choice of nodes respect strikes, exclusions and subnets ([swarm_given],
      [unused_nodes]).
    - The request queue is a list in order of arrival with nothing lost or
      doubled ([queue_refines_list]), and no request outlives its deadline once
      the timer ran ([deadline_kept]).
    - Attachments: all ways of encrypting and decrypting invert each other
      ([attachment_roundtrip]), padding and sizes are bounded
      ([attachment_sizes]), decryption in one go never leaves a buffer of
      [decrypted_max_size] ([decrypt_safe]), and the decryptor does the same however
      its input is cut and agrees with decryption in one go on inputs with all
      their padding ([stream_agrees], [stream_roundtrip_any_split]).
    - Onion requests: the destination gets what was sent through every path
      ([onion_delivery]), the reply comes back ([onion_reply]), and a server
      reads the request out of the payload ([server_request_read]).
    - Messages: to a user ([message_roundtrip]), with a group's key
      ([group_message_roundtrip], [group_keys_message_roundtrip]) and between
      blinded ids ([blinded_message_roundtrip]) they are delivered with the
      sender's id, and only signed messages are accepted
      ([incoming_authentic]); the conversion of an X25519 key finds the Ed25519
      key up to its sign ([xed25519_pubkey_point]), so that a blinded id is the
      same however it is computed ([blinded_ids_agree]), and signatures with blinded keys verify
      ([blinded_signatures_verify]).  A subaccount has the permissions it was
      given and no more ([subaccount_permissions]).
    - The protocol: what is encoded for a user, a group or a community is
      decoded to the same content, with the sender and the standing of the Pro
      subscription ([user_delivery], [group_delivery], [community_delivery], for
      a community with a Pro key if the content is in the form protobuf writes),
      and the envelope that is decoded was signed by the sender it is ascribed to
      ([decoded_authentic]); wrapped configs are
      unwrapped ([code_protos_ok]).
    - The Pro backend: requests carry signatures over the payment or the times
      they are about ([requests_signed], which says what is left unsigned), an issued proof is read as it is and valid until it
      expires ([issued_proof_valid]), every response is parsed
      ([responses_parsed]), and what is reported of it is in range and the
      first of the payments it lists ([details_checked]).
    - The local settings refine a record of values ([local_refines_settings]).
    - Texts: truncation to whole code points ([utf8_truncate_whole],
      [utf16_truncate_reference]), ids ([ids_correct]), URLs
      ([full_url_roundtrip], [canonical_idempotent]), splitting
      ([split_correct]), the iteration over communities
      ([community_iteration]).
    - Behaviour the code does not intend, proved of the model:
      [load_diff_integer_diverges], [dirty_made_readonly], [merge_without_lag],
      [retain_diff_reports_everything], [into_bchat_id_wrong],
      [contacts_iterator_throws], [reupload_not_reported],
      [clearing_no_name_dirties], [group_key_case_sensitive],
      [ed25519_default_nonce_throws], [pending_case_sensitive],
      [delay_overflows], [empty_refresh_undefined], [expired_still_out],
      [routed_when_insufficient], [unlock_height_unset],
      [logged_entry_counts], [trailing_bytes_overflow], [wrong_key_to_file],
      [finalize_before_header], [update_after_finalize],
      [padding_only_accepted], [encrypt_file_unchecked], [padding_underflows],
      [padding_of_a_million], [short_response_undefined],
      [short_response_throws], [c_builder_never_builds],
      [retargeted_keeps_server], [empty_group_message],
      [fallback_flips_wrong_byte], [short_blinded_id_undefined],
      [disabled_reads_unset], [reserialized_not_verified],
      [inner_signature_asserted], [source_forms], [seed_refund_undefined],
      [version_not_signed], [rangeproof_not_named], [status_wraps],
      [success_with_errors], [float_status_undefined],
      [report_message_shows_status].

    ** Fuel and bounds

    Recursion is structural wherever the code walks a container.  Loops whose
    bound is not structural take fuel, and the theorems give an amount that is
    enough: [comm_all] one step per room and one more, [split] the length of the
    text, [load_diff] the size of the diff (for a diff with an integer in it no
    amount is enough, [load_diff_integer_diverges]), [load_lines] and [bin_loop]
    the length of their input and one more, [merge_lists] the number of nodes in
    all lists and one more, the loops over the chunks of an attachment the
    number of chunks and one or two more, [update_cache] two: running the
    callbacks that waited for a refresh asks for another refresh at most, which
    ends before it updates the cache.
    Running out throws [out_of_fuel], which no theorem
    excludes by assumption.

    ** Not modelled

    - Code outside the repository: oxenc, libsodium, zstd, simdutf and protobuf
      are classes ([BtLib], [Hash], [Aead], [Ed25519], [Zstd], [Oxenc],
      [Simdutf], [ProtoWrap], [SeedKeypair], [X25519],
      [DeterministicRandom], [Quic], [JsonLib], [Csrng],
      [PriorityQueue], [SecretStream], [Hmac], [AesGcm], [JsonText],
      [BtListConsumer], [Box], [SecretBox], [Ed25519Core], [Fe25519],
      [Protobuf], [Validate], [PersonalHash], [JsonValues]) whose laws are what their
      documentation promises and the code relies on; each has an instance.
    - The C API: conversions of the modelled classes to C structs.
    - [src/network] other than the files named above: the session, the routers
      and the transports drive sockets and an event loop of other libraries.
    - The limits of what is assumed: onion requests are shorter than 2^32
      bytes, attachments have at most 2^62 bytes and a padded size other than
      39 * 2^35 (see [attachment_sizes]), a padded content does not
      parse as an envelope, an encrypted config does not parse as a websocket
      message. *)

From Stdlib Require Import ZArith String Ascii Sorting.Sorted Lia.
From stdpp Require Import base option list strings numbers sorting.

#[global] Open Scope string_scope.
#[global] Open Scope list_scope.
#[global] Open Scope Z_scope.

(** ** Bytes

    A [std::string], a [std::string_view] and a [std::vector<unsigned char>]
    are all sequences of octets, for which [String.string] is used: its
    characters are exactly the 256 octets and its comparison is the
    lexicographic comparison of unsigned bytes that [std::string] uses. *)
Abbreviation bytes := string (only parsing).

#[global] Arguments String.append : simpl nomatch.

Definition size (s : bytes) : Z := Z.of_nat (String.length s).

Fixpoint zeros (n : nat) : bytes :=
  match n with O => "" | S n => String "000"%char (zeros n) end.

(** ** Exceptions and the result monad

    Every exception type the modelled code throws or that a library it calls
    throws into it, with [undefined_behaviour] for an execution that the C++
    standard leaves undefined (dereferencing an empty [std::optional], signed
    overflow, an out-of-range write). *)
Inductive exn :=
  | config_error | signature_error | missing_signature
  | config_parse_error | config_value_error
  | bt_deserialize_invalid | overflow_error
  | decrypt_error
  | invalid_argument | runtime_error | logic_error | length_error | out_of_range
  | bad_variant_access | bad_function_call
  | json_error
  | out_of_fuel
  | undefined_behaviour.

#[global] Instance exn_eq_dec : EqDecision exn.
Proof. solve_decision. Defined.

Inductive result (A : Type) := Ok (a : A) | Throw (e : exn).
Arguments Ok {A} a.
Arguments Throw {A} e.

#[global] Instance result_ret : MRet result := λ _ a, Ok a.
#[global] Instance result_bind : MBind result := λ A B f r,
  match r with Ok a => f a | Throw e => Throw e end.
#[global] Instance result_fmap : FMap result := λ A B f r,
  match r with Ok a => Ok (f a) | Throw e => Throw e end.

(** [require b e]: continue when [b] holds, else throw [e]. *)
Definition require (b : bool) (e : exn) : result () := if b then Ok tt else Throw e.

Definition from_option_or {A} (e : exn) (o : option A) : result A :=
  match o with Some a => Ok a | None => Throw e end.

Definition is_ok {A} (r : result A) : bool :=
  match r with Ok _ => true | Throw _ => false end.

Lemma is_ok_inv {A} (r : result A) : is_ok r = true → ∃ a, r = Ok a.
Proof. destruct r; [eauto|done]. Qed.

Fixpoint mapR {A B} (f : A → result B) (l : list A) : result (list B) :=
  match l with
  | [] => Ok []
  | a :: l => b ← f a; bs ← mapR f l; Ok (b :: bs)
  end.

Fixpoint foldR {A B} (f : B → A → result B) (acc : B) (l : list A) : result B :=
  match l with
  | [] => Ok acc
  | a :: l => acc' ← f acc a; foldR f acc' l
  end.

Lemma bind_Ok {A B} (f : A → result B) (r : result A) (b : B) :
  (a ← r; f a) = Ok b ↔ ∃ a, r = Ok a ∧ f a = Ok b.
Proof.
  destruct r as [a|e]; simpl; [|by split; [|intros (? & ? & ?)]].
  split; [eauto|]. by intros (? & [= ->] & ?).
Qed.

Lemma bind_ret {A B} (f : A → result B) (a : A) : (x ← Ok a; f x) = f a.
Proof. done. Qed.

Lemma require_Ok b e u : require b e = Ok u ↔ b = true.
Proof. by destruct b, u. Qed.

(** Inverts every successful bind and guard in the context. *)
Ltac inv_result :=
  repeat match goal with
  | H : Ok _ = Ok _ |- _ => injection H as H; try subst
  | H : Throw _ = Ok _ |- _ => discriminate H
  | H : Ok _ = Throw _ |- _ => discriminate H
  | H : require _ _ = Ok _ |- _ => apply require_Ok in H
  | H : mbind _ ?r = Ok _ |- _ =>
      let a := fresh "a" in let Ha := fresh "E" in
      apply bind_Ok in H as (a & Ha & H)
  | u : unit |- _ => destruct u
  end.

(** The same for binds that destructure a pair. *)
Ltac inv_pairs :=
  repeat (inv_result;
    match goal with
    | H : (let '(_, _) := ?p in _) = Ok _ |- _ => destruct p
    end); inv_result.

Lemma foldR_app {A B} (f : B → A → result B) acc l1 l2 :
  foldR f acc (l1 ++ l2) = (acc' ← foldR f acc l1; foldR f acc' l2).
Proof.
  revert acc; induction l1 as [|a l1 IH]; intros acc; simpl; [done|].
  destruct (f acc a); simpl; auto.
Qed.

Lemma size_nonneg s : 0 ≤ size s.
Proof. unfold size. lia. Qed.

(** ** Machine integers *)
Definition int64_min : Z := - 2 ^ 63.
Definition int64_max : Z := 2 ^ 63 - 1.
Definition uint64_max : Z := 2 ^ 64 - 1.
Definition in_int64 (z : Z) : bool := (int64_min <=? z) && (z <=? int64_max).
Definition in_uint64 (z : Z) : bool := (0 <=? z) && (z <=? uint64_max).

(** Signed 64-bit addition: overflow is undefined. *)
Definition add_i64 (a b : Z) : result Z :=
  if in_int64 (a + b) then Ok (a + b) else Throw undefined_behaviour.
Definition sub_i64 (a b : Z) : result Z :=
  if in_int64 (a - b) then Ok (a - b) else Throw undefined_behaviour.

(** [size_t] arithmetic wraps modulo 2^64. *)
Definition wrap64 (z : Z) : Z := z mod 2 ^ 64.

Lemma in_int64_spec z : in_int64 z = true ↔ int64_min ≤ z ≤ int64_max.
Proof. unfold in_int64. rewrite andb_true_iff, !Z.leb_le. lia. Qed.

Lemma wrap64_small z : 0 ≤ z < 2 ^ 64 → wrap64 z = z.
Proof. apply Z.mod_small. Qed.
