(* ===== verification/OrderedMap.v ===== *)
(** * Ordered containers

    [std::map] and [std::set] iterate in key order and the code relies on it
    (two-iterator walks, [rbegin], sorted serialization).  A map is modelled
    as its in-order sequence of pairs, a set as its in-order sequence of
    elements; the type class [OrdKey] states the total order of the keys.
    A sequence that is not sorted is a value no container can have; the
    invariant [msorted] is decidable and preserved by every operation. *)

From Stdlib Require Import OrdersEx.
From S2P Require Import Prelude.
From Stdlib Require Import ZArith String Sorting.Sorted Lia.
From stdpp Require Import base option list strings numbers sorting sets.

(** ** Totally ordered keys *)
Class OrdKey (K : Type) := {
  kcmp : K → K → comparison;
  kcmp_eq : ∀ a b, kcmp a b = Eq ↔ a = b;
  kcmp_opp : ∀ a b, kcmp b a = CompOpp (kcmp a b);
  kcmp_trans : ∀ a b c, kcmp a b = Lt → kcmp b c = Lt → kcmp a c = Lt;
}.

Declare Scope ord_scope.
Delimit Scope ord_scope with ord.
Notation "a ≺ b" := (kcmp a b = Lt) (at level 70) : ord_scope.
#[global] Open Scope ord_scope.

Definition klt `{OrdKey K} (a b : K) : bool :=
  match kcmp a b with Lt => true | _ => false end.
Definition kle `{OrdKey K} (a b : K) : bool :=
  match kcmp a b with Gt => false | _ => true end.
Definition keqb `{OrdKey K} (a b : K) : bool :=
  match kcmp a b with Eq => true | _ => false end.

Section ord_facts.
Context `{OrdKey K}.
Implicit Types a b c : K.

Lemma kcmp_refl a : kcmp a a = Eq.
Proof. by apply kcmp_eq. Qed.

Lemma kcmp_gt_lt a b : kcmp a b = Gt ↔ b ≺ a.
Proof. rewrite (kcmp_opp a b). destruct (kcmp a b); simpl; naive_solver. Qed.

Lemma klt_irrefl a : ¬ a ≺ a.
Proof. by rewrite kcmp_refl. Qed.

Lemma klt_neq a b : a ≺ b → a ≠ b.
Proof. intros Hlt ->. by apply klt_irrefl in Hlt. Qed.

Lemma klt_asym a b : a ≺ b → ¬ b ≺ a.
Proof. intros H1 H2. by apply (klt_irrefl a), (kcmp_trans a b a). Qed.

Lemma keqb_spec a b : keqb a b = true ↔ a = b.
Proof. unfold keqb. rewrite <-kcmp_eq. destruct (kcmp a b); naive_solver. Qed.

Lemma klt_spec a b : klt a b = true ↔ a ≺ b.
Proof. unfold klt. destruct (kcmp a b); naive_solver. Qed.

Lemma kle_spec a b : kle a b = true ↔ a ≺ b ∨ a = b.
Proof. unfold kle. rewrite <-kcmp_eq. destruct (kcmp a b); intuition congruence. Qed.

Lemma klt_negb_kle a b : klt a b = negb (kle b a).
Proof. unfold klt, kle. rewrite (kcmp_opp a b). by destruct (kcmp a b). Qed.

#[export] Instance ordkey_eq_dec : EqDecision K.
Proof.
  intros a b. destruct (kcmp a b) eqn:E;
    [left; by apply kcmp_eq | right | right]; intros ->;
    by rewrite kcmp_refl in E.
Defined.
End ord_facts.

(** Case analysis on how two keys compare, with the order facts rewritten. *)
Ltac kcases a b :=
  let E := fresh "Ecmp" in
  destruct (kcmp a b) eqn:E;
  [ apply kcmp_eq in E; try subst | | apply kcmp_gt_lt in E ].

(** ** The key types of the program *)
#[global] Program Instance ord_Z : OrdKey Z := {| kcmp := Z.compare |}.
Next Obligation. intros. apply Z.compare_eq_iff. Qed.
Next Obligation. intros. apply Z.compare_antisym. Qed.
Next Obligation. intros a b c. rewrite !Z.compare_lt_iff. lia. Qed.

#[global] Program Instance ord_string : OrdKey string := {| kcmp := String.compare |}.
Next Obligation.
  intros a b. split; [apply String.compare_eq_iff|intros <-].
  pose proof (String.compare_antisym a a) as E.
  by destruct (String.compare a a).
Qed.
Next Obligation. intros. apply String.compare_antisym. Qed.
Next Obligation.
  intros a b c. apply (StrictOrder_Transitive (R := String_as_OT.lt)).
Qed.

Definition pair_cmp `{OrdKey A, OrdKey B} (p q : A * B) : comparison :=
  match kcmp p.1 q.1 with Eq => kcmp p.2 q.2 | c => c end.

#[global] Program Instance ord_pair `{OrdKey A, OrdKey B} : OrdKey (A * B) :=
  {| kcmp := pair_cmp |}.
Next Obligation.
  intros A HA B HB [a b] [a' b']; unfold pair_cmp; simpl. kcases a a'; rewrite ?kcmp_eq.
  - naive_solver.
  - split; [done|]. intros [= -> ->]. by apply klt_irrefl in Ecmp.
  - split; [done|]. intros [= -> ->]. by apply klt_irrefl in Ecmp.
Qed.
Next Obligation.
  intros A HA B HB [a b] [a' b']; unfold pair_cmp; simpl. rewrite (kcmp_opp a a').
  destruct (kcmp a a'); simpl; auto using kcmp_opp.
Qed.
Next Obligation.
  intros A HA B HB [a1 b1] [a2 b2] [a3 b3]; unfold pair_cmp; simpl.
  kcases a1 a2; kcases a2 a3; try done; rewrite ?kcmp_refl; eauto using kcmp_trans.
  - by rewrite Ecmp.
  - by rewrite (kcmp_trans _ _ _ Ecmp Ecmp0).
Qed.

(** [std::variant] compares by alternative index first. *)
Definition sum_cmp `{OrdKey A, OrdKey B} (p q : A + B) : comparison :=
  match p, q with
  | inl a, inl b => kcmp a b
  | inl _, inr _ => Lt
  | inr _, inl _ => Gt
  | inr a, inr b => kcmp a b
  end.

#[global] Program Instance ord_sum `{OrdKey A, OrdKey B} : OrdKey (A + B) :=
  {| kcmp := sum_cmp |}.
Next Obligation. intros A HA B HB [] []; simpl; rewrite ?kcmp_eq; naive_solver. Qed.
Next Obligation. intros A HA B HB [] []; simpl; auto using kcmp_opp. Qed.
Next Obligation.
  intros A HA B HB [] [] []; simpl; try done; eauto using kcmp_trans.
Qed.

(** ** Maps *)
Section omap.
Context `{OrdKey K} {V : Type}.
Implicit Types (m : list (K * V)) (k : K) (v : V).

Fixpoint mfind (k : K) (m : list (K * V)) : option V :=
  match m with
  | [] => None
  | (k', v) :: m => if keqb k k' then Some v else mfind k m
  end.

(** [m[k] = v], [m.insert_or_assign(k, v)] *)
Fixpoint minsert (k : K) (v : V) (m : list (K * V)) : list (K * V) :=
  match m with
  | [] => [(k, v)]
  | (k', v') :: m' =>
      match kcmp k k' with
      | Lt => (k, v) :: m
      | Eq => (k, v) :: m'
      | Gt => (k', v') :: minsert k v m'
      end
  end.

(** [m.emplace(k, v)]: an existing entry is kept. *)
Definition memplace (k : K) (v : V) (m : list (K * V)) : list (K * V) :=
  match mfind k m with Some _ => m | None => minsert k v m end.

(** [m.erase(k)] *)
Definition merase (k : K) (m : list (K * V)) : list (K * V) :=
  List.filter (λ p, negb (keqb k p.1)) m.

(** [m.rbegin()->first] *)
Definition mlast (m : list (K * V)) : option K := fst <$> last m.

Fixpoint msorted (m : list (K * V)) : bool :=
  match m with
  | [] => true
  | (k, _) :: m' =>
      match m' with [] => true | (k', _) :: _ => klt k k' end && msorted m'
  end.

Definition key_below (k : K) (p : K * V) : Prop := k ≺ p.1.

Lemma msorted_cons k v m :
  msorted ((k, v) :: m) = true ↔ Forall (key_below k) m ∧ msorted m = true.
Proof.
  revert k v; induction m as [|[k' v'] m IH]; intros k v.
  - simpl. naive_solver.
  - change (msorted ((k, v) :: (k', v') :: m))
      with (klt k k' && msorted ((k', v') :: m)).
    rewrite andb_true_iff, klt_spec, Forall_cons, IH.
    split; [|tauto]. intros (Hk & Hf & Hs). unfold key_below at 1; simpl.
    split_and!; auto. eapply Forall_impl; [exact Hf|]; simpl.
    intros [k2 v2]; unfold key_below; simpl. by apply kcmp_trans.
Qed.

Lemma msorted_tail p m : msorted (p :: m) = true → msorted m = true.
Proof. destruct p. rewrite msorted_cons. naive_solver. Qed.

Lemma mfind_below k m : Forall (key_below k) m → mfind k m = None.
Proof.
  induction 1 as [|[k' v'] m Hk _ IH]; simpl; [done|].
  unfold key_below in Hk; simpl in Hk. unfold keqb. by rewrite Hk.
Qed.

Lemma mfind_Some_In k v m : mfind k m = Some v → (k, v) ∈ m.
Proof.
  induction m as [|[k' v'] m IH]; simpl; [done|].
  destruct (keqb k k') eqn:E; [|rewrite elem_of_cons; auto].
  apply keqb_spec in E as ->. intros [= ->]. apply elem_of_cons; auto.
Qed.

Lemma mfind_In k v m : msorted m = true → (k, v) ∈ m → mfind k m = Some v.
Proof.
  induction m as [|[k' v'] m IH]; intros Hs Hin; [by apply not_elem_of_nil in Hin|].
  apply msorted_cons in Hs as [Hf Hs]. simpl.
  apply elem_of_cons in Hin as [[= -> ->]|Hin].
  - unfold keqb. by rewrite kcmp_refl.
  - rewrite Forall_forall in Hf. specialize (Hf _ Hin).
    unfold key_below in Hf; simpl in Hf. apply kcmp_gt_lt in Hf.
    unfold keqb. rewrite Hf. auto.
Qed.

Lemma mfind_insert k j v m :
  mfind j (minsert k v m) = if keqb j k then Some v else mfind j m.
Proof.
  induction m as [|[k' v'] m IH]; simpl; [done|].
  kcases k k'; simpl.
  - by destruct (keqb j k').
  - by destruct (keqb j k).
  - rewrite IH. destruct (keqb j k') eqn:E1, (keqb j k) eqn:E2; try done.
    apply keqb_spec in E1, E2. subst. by apply klt_irrefl in Ecmp.
Qed.

Lemma mfind_insert_eq k v m : mfind k (minsert k v m) = Some v.
Proof. rewrite mfind_insert. unfold keqb. by rewrite kcmp_refl. Qed.

Lemma mfind_insert_ne k j v m : j ≠ k → mfind j (minsert k v m) = mfind j m.
Proof.
  intros Hne. rewrite mfind_insert. destruct (keqb j k) eqn:E; [|done].
  by apply keqb_spec in E.
Qed.

Lemma mfind_erase k j m :
  mfind j (merase k m) = if keqb j k then None else mfind j m.
Proof.
  induction m as [|[k' v'] m IH]; simpl; [by destruct (keqb j k)|].
  destruct (keqb k k') eqn:E1; simpl.
  - apply keqb_spec in E1; subst. rewrite IH. by destruct (keqb j k').
  - rewrite IH. destruct (keqb j k') eqn:E2, (keqb j k) eqn:E3; try done.
    apply keqb_spec in E2, E3. subst. by rewrite (proj2 (keqb_spec k' k')) in E1.
Qed.

Lemma mfind_erase_eq k m : mfind k (merase k m) = None.
Proof. rewrite mfind_erase. unfold keqb. by rewrite kcmp_refl. Qed.

Lemma mfind_erase_ne k j m : j ≠ k → mfind j (merase k m) = mfind j m.
Proof.
  intros Hne. rewrite mfind_erase. destruct (keqb j k) eqn:E; [|done].
  by apply keqb_spec in E.
Qed.

Lemma key_below_insert k k' v m :
  k ≺ k' → Forall (key_below k) m → Forall (key_below k) (minsert k' v m).
Proof.
  intros Hlt. induction 1 as [|[k2 v2] m Hk2 Hf IH]; simpl.
  - constructor; [done|constructor].
  - destruct (kcmp k' k2); constructor; auto; by constructor.
Qed.

Lemma msorted_insert k v m : msorted m = true → msorted (minsert k v m) = true.
Proof.
  induction m as [|[k' v'] m IH]; intros Hs; [done|].
  pose proof Hs as Hs'. apply msorted_cons in Hs as [Hf Hs].
  simpl minsert. kcases k k'; apply msorted_cons; auto.
  - split; [|done]. constructor; [done|].
    eapply Forall_impl; [exact Hf|]. intros [k2 v2]; unfold key_below; simpl.
    by apply kcmp_trans.
  - split; [|auto]. by apply key_below_insert.
Qed.

Lemma msorted_filter (f : K * V → bool) m :
  msorted m = true → msorted (List.filter f m) = true.
Proof.
  induction m as [|[k' v'] m IH]; simpl List.filter; intros Hs; [done|].
  apply msorted_cons in Hs as [Hf Hs]. destruct (f (k', v')); auto.
  apply msorted_cons. split; auto. rewrite Forall_forall in Hf |- *.
  intros p Hp. apply Hf. apply list_elem_of_In, filter_In in Hp as [Hp _].
  by apply list_elem_of_In.
Qed.

Lemma mfind_app k (m1 m2 : list (K * V)) :
  mfind k (m1 ++ m2) = match mfind k m1 with Some v => Some v | None => mfind k m2 end.
Proof.
  induction m1 as [|[k' v'] m1 IH]; simpl; [done|]. by destruct (keqb k k').
Qed.

Lemma mfind_filter (f : K * V → bool) m k :
  msorted m = true →
  mfind k (List.filter f m) =
    match mfind k m with Some v => if f (k, v) then Some v else None | None => None end.
Proof.
  induction m as [|[k' v'] m IH]; intros Hs; [done|].
  apply msorted_cons in Hs as [Hf Hs]. simpl. destruct (keqb k k') eqn:E.
  - apply keqb_spec in E as ->. destruct (f (k', v')) eqn:Ef; simpl.
    + unfold keqb. by rewrite kcmp_refl.
    + rewrite IH by done. by rewrite mfind_below.
  - destruct (f (k', v')); simpl; [rewrite E|]; by apply IH.
Qed.

Lemma msorted_erase k m : msorted m = true → msorted (merase k m) = true.
Proof. apply msorted_filter. Qed.

Lemma msorted_emplace k v m : msorted m = true → msorted (memplace k v m) = true.
Proof. unfold memplace. destruct (mfind k m); auto using msorted_insert. Qed.

Lemma mfind_emplace k j v m :
  mfind j (memplace k v m) =
    match mfind j m with Some w => Some w | None => if keqb j k then Some v else None end.
Proof.
  unfold memplace. destruct (mfind k m) eqn:E.
  - destruct (mfind j m) eqn:E2; [done|]. destruct (keqb j k) eqn:E3; [|done].
    apply keqb_spec in E3 as ->. congruence.
  - rewrite mfind_insert. destruct (keqb j k) eqn:E3; [|by destruct (mfind j m)].
    apply keqb_spec in E3 as ->. by rewrite E.
Qed.

(** Containers are extensional: sorted sequences with the same lookups are
    the same container. *)
Lemma msorted_ext m1 m2 :
  msorted m1 = true → msorted m2 = true →
  (∀ k, mfind k m1 = mfind k m2) → m1 = m2.
Proof.
  revert m2; induction m1 as [|[k1 v1] m1 IH]; intros [|[k2 v2] m2] H1 H2 Heq.
  - done.
  - specialize (Heq k2). simpl in Heq. unfold keqb in Heq. by rewrite kcmp_refl in Heq.
  - specialize (Heq k1). simpl in Heq. unfold keqb in Heq. by rewrite kcmp_refl in Heq.
  - apply msorted_cons in H1 as [Hf1 Hs1], H2 as [Hf2 Hs2].
    assert (k1 = k2) as ->.
    { kcases k1 k2; [done| |].
      - pose proof (Heq k1) as E. simpl in E. unfold keqb in E.
        rewrite kcmp_refl, Ecmp in E. rewrite mfind_below in E; [done|].
        eapply Forall_impl; [exact Hf2|]. intros [k3 v3].
        unfold key_below; simpl. by apply kcmp_trans.
      - pose proof (Heq k2) as E. simpl in E. unfold keqb in E.
        rewrite kcmp_refl, Ecmp in E. rewrite mfind_below in E; [done|].
        eapply Forall_impl; [exact Hf1|]. intros [k3 v3].
        unfold key_below; simpl. by apply kcmp_trans. }
    pose proof (Heq k2) as E. simpl in E. unfold keqb in E.
    rewrite kcmp_refl in E. injection E as ->. f_equal.
    apply IH; auto. intros k. specialize (Heq k). simpl in Heq.
    destruct (keqb k k2) eqn:E; [|done]. apply keqb_spec in E as ->.
    by rewrite !mfind_below.
Qed.
End omap.

(** Inserting and erasing commute on distinct keys; used to reorder updates. *)
Lemma minsert_comm `{OrdKey K} {V} (k1 k2 : K) (v1 v2 : V) m :
  msorted m = true → k1 ≠ k2 →
  minsert k1 v1 (minsert k2 v2 m) = minsert k2 v2 (minsert k1 v1 m).
Proof.
  intros Hs Hne. apply msorted_ext; auto using msorted_insert.
  intros k. rewrite !mfind_insert.
  destruct (keqb k k1) eqn:E1, (keqb k k2) eqn:E2; try done.
  apply keqb_spec in E1, E2. congruence.
Qed.

(** Appending a key greater than all others, as [emplace_hint(end(), ...)]. *)
Lemma minsert_end `{OrdKey K} {V} (k : K) (v : V) m :
  Forall (λ p, p.1 ≺ k) m → minsert k v m = m ++ [(k, v)].
Proof.
  induction 1 as [|[k' v'] m Hk Hf IH]; simpl in *; [done|].
  apply kcmp_gt_lt in Hk as ->. by rewrite IH.
Qed.

Lemma msorted_snoc `{OrdKey K} {V} (k : K) (v : V) m :
  msorted (m ++ [(k, v)]) = true ↔ msorted m = true ∧ Forall (λ p, p.1 ≺ k) m.
Proof.
  induction m as [|[k' v'] m IH].
  - simpl. naive_solver.
  - change (((k', v') :: m) ++ [(k, v)]) with ((k', v') :: (m ++ [(k, v)])).
    rewrite !msorted_cons, Forall_app, IH, !Forall_cons. unfold key_below; simpl.
    split; [naive_solver|]. intros [[? ?] [? ?]]. split_and!; auto.
Qed.

(** ** The two-iterator walk

    The loop of [diff_impl] and [bt::merge]: advance over two ordered maps in
    parallel, handling keys of the first only, of the second only, and of
    both.  A handler may produce an output entry, none, or throw. *)
Section walk2.
Context `{OrdKey K} {A B C : Type}.
Context (on_old : K → A → result (option C))
        (on_new : K → B → result (option C))
        (on_both : K → A → B → result (option C)).

Definition emit (k : K) (oc : option C) (rest : list (K * C)) : list (K * C) :=
  match oc with Some c => (k, c) :: rest | None => rest end.

Fixpoint walk2 (old : list (K * A)) : list (K * B) → result (list (K * C)) :=
  fix go (new : list (K * B)) : result (list (K * C)) :=
    match old, new with
    | [], [] => Ok []
    | [], (kn, b) :: new' =>
        c ← on_new kn b; rest ← go new'; Ok (emit kn c rest)
    | (ko, a) :: old', [] =>
        c ← on_old ko a; rest ← walk2 old' []; Ok (emit ko c rest)
    | (ko, a) :: old', (kn, b) :: new' =>
        match kcmp kn ko with
        | Lt => c ← on_new kn b; rest ← go new'; Ok (emit kn c rest)
        | Gt => c ← on_old ko a; rest ← walk2 old' new; Ok (emit ko c rest)
        | Eq => c ← on_both kn a b; rest ← walk2 old' new'; Ok (emit kn c rest)
        end
    end.

(** One iteration of the loop. *)
Lemma walk2_step old new :
  walk2 old new =
    match old, new with
    | [], [] => Ok []
    | [], (kn, b) :: new' =>
        c ← on_new kn b; rest ← walk2 [] new'; Ok (emit kn c rest)
    | (ko, a) :: old', [] =>
        c ← on_old ko a; rest ← walk2 old' []; Ok (emit ko c rest)
    | (ko, a) :: old', (kn, b) :: new' =>
        match kcmp kn ko with
        | Lt => c ← on_new kn b; rest ← walk2 old new'; Ok (emit kn c rest)
        | Gt => c ← on_old ko a; rest ← walk2 old' new; Ok (emit ko c rest)
        | Eq => c ← on_both kn a b; rest ← walk2 old' new'; Ok (emit kn c rest)
        end
    end.
Proof. by destruct old as [|[]], new as [|[]]. Qed.

(** What the walk does at one key. *)
Definition at_key (k : K) (oa : option A) (ob : option B) : result (option C) :=
  match oa, ob with
  | None, None => Ok None
  | Some a, None => on_old k a
  | None, Some b => on_new k b
  | Some a, Some b => on_both k a b
  end.

Local Lemma emit_below k k' oc rest :
  k ≺ k' → Forall (key_below k) rest → Forall (key_below k) (emit k' oc rest).
Proof. destruct oc; simpl; [by constructor|done]. Qed.

Lemma walk2_below k old new r :
  Forall (key_below k) old → Forall (key_below k) new →
  walk2 old new = Ok r → Forall (key_below k) r.
Proof.
  revert new r; induction old as [|[ko a] old IHo]; intros new;
    induction new as [|[kn b] new IHn]; intros r Ho Hn Hw; simpl in Hw; inv_result.
  - constructor.
  - apply Forall_cons in Hn as [? Hn]. apply emit_below; eauto.
  - apply Forall_cons in Ho as [? Ho]. apply emit_below; eauto.
  - pose proof Ho as Ho'. pose proof Hn as Hn'.
    apply Forall_cons in Ho as [? Ho], Hn as [? Hn].
    destruct (kcmp kn ko); inv_result; apply emit_below; eauto.
Qed.

Local Lemma emit_sorted k oc rest :
  Forall (key_below k) rest → msorted rest = true → msorted (emit k oc rest) = true.
Proof. destruct oc; simpl emit; [rewrite msorted_cons|]; auto. Qed.

Local Lemma mfind_emit k k' oc rest :
  Forall (key_below k') rest →
  mfind k (emit k' oc rest) = if keqb k k' then oc else mfind k rest.
Proof.
  intros Hf. destruct oc; simpl; [done|]. destruct (keqb k k') eqn:E; [|done].
  apply keqb_spec in E as ->. by apply mfind_below.
Qed.

Lemma key_below_trans {V} k k' (m : list (K * V)) :
  k ≺ k' → Forall (key_below k') m → Forall (key_below k) m.
Proof.
  intros Hlt Hf. eapply Forall_impl; [exact Hf|].
  intros [k2 v2]; unfold key_below; simpl. by apply kcmp_trans.
Qed.

Lemma keqb_refl k : keqb k k = true.
Proof. by apply keqb_spec. Qed.

(** The walk computes [at_key] at every key, and its output is ordered. *)
Lemma walk2_spec old new r :
  msorted old = true → msorted new = true → walk2 old new = Ok r →
  msorted r = true ∧
  ∀ k, at_key k (mfind k old) (mfind k new) = Ok (mfind k r).
Proof.
  revert new r; induction old as [|[ko a] old IHo]; intros new;
    induction new as [|[kn b] new IHn]; intros r Ho Hn Hw; simpl in Hw; inv_result.
  - done.
  - apply msorted_cons in Hn as [Hf Hn]. destruct (IHn _ Ho Hn E0) as [Hs Hk].
    assert (Forall (key_below kn) a0) by (eapply walk2_below; eauto).
    split; [by apply emit_sorted|]. intros k. rewrite mfind_emit by done. simpl.
    destruct (keqb k kn) eqn:Ek; [|apply Hk]. by apply keqb_spec in Ek as ->.
  - pose proof Ho as Ho'. apply msorted_cons in Ho as [Hf Ho].
    destruct (IHo _ _ Ho Hn E0) as [Hs Hk].
    assert (Forall (key_below ko) a1) by (eapply walk2_below; eauto).
    split; [by apply emit_sorted|]. intros k. rewrite mfind_emit by done. simpl.
    destruct (keqb k ko) eqn:Ek; [|apply Hk]. by apply keqb_spec in Ek as ->.
  - pose proof Ho as Ho'. pose proof Hn as Hn'.
    apply msorted_cons in Ho as [Hfo Ho], Hn as [Hfn Hn].
    kcases kn ko; inv_result.
    + destruct (IHo _ _ Ho Hn E0) as [Hs Hk].
      assert (Forall (key_below ko) a1) by (eapply walk2_below; eauto).
      split; [by apply emit_sorted|]. intros k. rewrite mfind_emit by done. simpl.
      destruct (keqb k ko) eqn:Ek; [|apply Hk]. by apply keqb_spec in Ek as ->.
    + destruct (IHn _ Ho' Hn E0) as [Hs Hk].
      assert (Forall (key_below kn) ((ko, a) :: old)) as Hb.
      { constructor; [done|]. by eapply key_below_trans. }
      assert (Forall (key_below kn) a1) by (eapply walk2_below; eauto).
      split; [by apply emit_sorted|]. intros k. rewrite mfind_emit by done.
      destruct (keqb k kn) eqn:Ek.
      * apply keqb_spec in Ek as ->. rewrite (mfind_below kn) by done.
        simpl. by rewrite keqb_refl.
      * simpl mfind at 2. rewrite Ek. apply Hk.
    + destruct (IHo _ _ Ho Hn' E0) as [Hs Hk].
      assert (Forall (key_below ko) ((kn, b) :: new)) as Hb.
      { constructor; [done|]. by eapply key_below_trans. }
      assert (Forall (key_below ko) a1) by (eapply walk2_below; eauto).
      split; [by apply emit_sorted|]. intros k. rewrite mfind_emit by done.
      destruct (keqb k ko) eqn:Ek.
      * apply keqb_spec in Ek as ->. rewrite (mfind_below ko (_ :: new)) by done.
        simpl. by rewrite keqb_refl.
      * simpl mfind at 1. rewrite Ek. apply Hk.
Qed.

(** The walk throws only if some handler throws on an entry of the inputs. *)
Lemma walk2_total old new :
  (∀ k a, (k, a) ∈ old → is_ok (on_old k a) = true) →
  (∀ k b, (k, b) ∈ new → is_ok (on_new k b) = true) →
  (∀ k a b, (k, a) ∈ old → (k, b) ∈ new → is_ok (on_both k a b) = true) →
  ∃ r, walk2 old new = Ok r.
Proof.
  revert new; induction old as [|[ko a] old IHo]; intros new;
    induction new as [|[kn b] new IHn]; intros Ho Hn Hb; simpl.
  - eauto.
  - destruct IHn as [r Hr]; [set_solver..|]. simpl in Hr.
    destruct (is_ok_inv (on_new kn b)) as [c ->]; [set_solver|].
    simpl. rewrite Hr. simpl. eauto.
  - destruct (IHo []) as [r Hr]; [set_solver..|].
    destruct (is_ok_inv (on_old ko a)) as [c ->]; [set_solver|].
    simpl. rewrite Hr. simpl. eauto.
  - kcases kn ko.
    + destruct (IHo new) as [r Hr]; [set_solver..|].
      destruct (is_ok_inv (on_both ko a b)) as [c ->]; [set_solver|].
      simpl. rewrite Hr. simpl. eauto.
    + destruct IHn as [r Hr]; [set_solver..|]. simpl in Hr.
      destruct (is_ok_inv (on_new kn b)) as [c ->]; [set_solver|].
      simpl. rewrite Hr. simpl. eauto.
    + destruct (IHo ((kn, b) :: new)) as [r Hr]; [set_solver..|].
      destruct (is_ok_inv (on_old ko a)) as [c ->]; [set_solver|].
      simpl. rewrite Hr. simpl. eauto.
Qed.
End walk2.

(** ** Sets *)
Section oset.
Context `{OrdKey K}.
Implicit Types (x y : K) (s : list K).

Definition as_map (s : list K) : list (K * ()) := (λ x, (x, tt)) <$> s.

Definition smem (x : K) (s : list K) : bool := existsb (keqb x) s.

(** [s.insert(x)] *)
Fixpoint sinsert (x : K) (s : list K) : list K :=
  match s with
  | [] => [x]
  | y :: s' => match kcmp x y with
               | Lt => x :: s
               | Eq => s
               | Gt => y :: sinsert x s'
               end
  end.

(** [s.erase(x)] *)
Definition serase (x : K) (s : list K) : list K :=
  List.filter (λ y, negb (keqb x y)) s.

Definition ssorted (s : list K) : bool := msorted (as_map s).

Lemma as_map_insert x s : as_map (sinsert x s) = minsert x tt (as_map s).
Proof.
  induction s as [|y s IH]; simpl; [done|].
  kcases x y; simpl; [done..|]. by rewrite <-IH.
Qed.

Lemma as_map_erase x s : as_map (serase x s) = merase x (as_map s).
Proof.
  induction s as [|y s IH]; simpl; [done|].
  destruct (keqb x y); simpl; [apply IH|]. f_equal. apply IH.
Qed.

Lemma smem_find x s :
  smem x s = match mfind x (as_map s) with Some _ => true | None => false end.
Proof.
  induction s as [|y s IH]; simpl; [done|]. rewrite IH. by destruct (keqb x y).
Qed.

Lemma as_map_inj s1 s2 : as_map s1 = as_map s2 → s1 = s2.
Proof.
  revert s2; induction s1 as [|x s1 IH]; intros [|y s2]; try done.
  simpl. intros [= -> ?]. f_equal. by apply IH.
Qed.

Lemma ssorted_ext s1 s2 :
  ssorted s1 = true → ssorted s2 = true →
  (∀ x, smem x s1 = smem x s2) → s1 = s2.
Proof.
  intros H1 H2 Heq. apply as_map_inj, msorted_ext; auto.
  intros x. specialize (Heq x). rewrite !smem_find in Heq.
  by destruct (mfind x (as_map s1)) as [[]|], (mfind x (as_map s2)) as [[]|].
Qed.

Lemma smem_insert x y s : smem y (sinsert x s) = keqb y x || smem y s.
Proof.
  rewrite !smem_find, as_map_insert, mfind_insert.
  by destruct (keqb y x).
Qed.

Lemma smem_erase x y s : smem y (serase x s) = negb (keqb y x) && smem y s.
Proof.
  rewrite !smem_find, as_map_erase, mfind_erase.
  by destruct (keqb y x).
Qed.

Lemma ssorted_insert x s : ssorted s = true → ssorted (sinsert x s) = true.
Proof. unfold ssorted. rewrite as_map_insert. apply msorted_insert. Qed.

Lemma ssorted_erase x s : ssorted s = true → ssorted (serase x s) = true.
Proof. unfold ssorted. rewrite as_map_erase. apply msorted_erase. Qed.

Lemma smem_In x s : smem x s = true ↔ x ∈ s.
Proof.
  unfold smem. rewrite existsb_exists. split.
  - intros (y & Hin & ->%keqb_spec). by apply list_elem_of_In.
  - intros Hin. exists x. split; [by apply list_elem_of_In|by apply keqb_spec].
Qed.

Lemma sfold_insert xs s y :
  smem y (fold_left (λ s x, sinsert x s) xs s) = smem y xs || smem y s.
Proof.
  revert s; induction xs as [|x xs IH]; intros s; simpl; [done|].
  rewrite IH, smem_insert. destruct (keqb y x), (smem y xs); done.
Qed.

Lemma sfold_erase xs s y :
  smem y (fold_left (λ s x, serase x s) xs s) = negb (smem y xs) && smem y s.
Proof.
  revert s; induction xs as [|x xs IH]; intros s; simpl; [done|].
  rewrite IH, smem_erase. destruct (keqb y x), (smem y xs); done.
Qed.

Lemma sfold_insert_sorted xs s :
  ssorted s = true → ssorted (fold_left (λ s x, sinsert x s) xs s) = true.
Proof. revert s; induction xs; simpl; auto using ssorted_insert. Qed.

Lemma sfold_erase_sorted xs s :
  ssorted s = true → ssorted (fold_left (λ s x, serase x s) xs s) = true.
Proof. revert s; induction xs; simpl; auto using ssorted_erase. Qed.

Lemma ssorted_cons x s : ssorted (x :: s) = true ↔ Forall (λ y, x ≺ y) s ∧ ssorted s = true.
Proof. unfold ssorted, as_map. rewrite fmap_cons, msorted_cons, Forall_fmap. done. Qed.

Lemma ssorted_app s1 s2 :
  ssorted (s1 ++ s2) = true ↔ ssorted s1 = true ∧ ssorted s2 = true ∧ ∀ x y, x ∈ s1 → y ∈ s2 → x ≺ y.
Proof.
  induction s1 as [|a s1 IH]; simpl.
  - split; [|by intros (_ & ? & _)]. intros H2. split_and!; [done..|]. intros x y Hx. by apply elem_of_nil in Hx.
  - rewrite !ssorted_cons, Forall_app, IH, !Forall_forall. setoid_rewrite elem_of_cons. naive_solver.
Qed.
End oset.

(** The facts that close the routine container side conditions. *)
#[global] Arguments msorted : simpl never.

Create HintDb ordmap.
Create Rewrite HintDb ordmap.
#[export] Hint Resolve msorted_insert msorted_erase msorted_emplace msorted_filter
  ssorted_insert ssorted_erase sfold_insert_sorted sfold_erase_sorted : ordmap.
#[export] Hint Rewrite @mfind_insert_eq @mfind_erase_eq @keqb_refl : ordmap.
