(* ===== verification/Bt.v ===== *)
(** * Bencoded values

    [oxenc::bt_value] as the code sees it, the operations of the oxenc
    library the code calls as the class [BtLib] with the documented laws the
    code relies on as [BtLaws], and the bt-dict and bt-list merging of
    [src/bt_merge.cpp] and [include/bchat/bt_merge.hpp]. *)

From Stdlib Require Import ZArith String Sorting.Sorted Sorting.Permutation Lia.
From stdpp Require Import base option list strings numbers sorting sets.
From S2P Require Import Prelude OrderedMap.

(** A bencoded value.  Dictionaries are the sequence of their pairs: in wire
    order when read through a consumer, in key order when held in a
    [bt_dict] (a [std::map]). *)
Inductive bt_value :=
  | BtStr (s : bytes)
  | BtInt (z : Z)
  | BtList (l : list bt_value)
  | BtDict (d : list (bytes * bt_value)).

Abbreviation bt_list := (list bt_value).
Abbreviation bt_dict := (list (bytes * bt_value)).

(** Structural induction that reaches inside lists and dictionaries. *)
Section bt_ind.
Context (P : bt_value → Prop).
Context (HStr : ∀ s, P (BtStr s)) (HInt : ∀ z, P (BtInt z))
        (HList : ∀ l, Forall P l → P (BtList l))
        (HDict : ∀ d, Forall (λ p, P p.2) d → P (BtDict d)).

Fixpoint bt_value_ind' (v : bt_value) : P v :=
  match v with
  | BtStr s => HStr s
  | BtInt z => HInt z
  | BtList l => HList l ((fix go l : Forall P l :=
      match l with
      | [] => Forall_nil_2 P
      | v :: l => Forall_cons_2 P v l (bt_value_ind' v) (go l)
      end) l)
  | BtDict d => HDict d ((fix go (d : bt_dict) : Forall (λ p, P p.2) d :=
      match d with
      | [] => Forall_nil_2 _
      | p :: d => Forall_cons_2 (λ p, P p.2) p d (bt_value_ind' p.2) (go d)
      end) d)
  end.
End bt_ind.

(** What a [bt_value] held in memory can be: integers of 64 bits (signed or
    unsigned), dictionaries with strictly increasing keys. *)
Fixpoint bt_canon (v : bt_value) : bool :=
  match v with
  | BtStr _ => true
  | BtInt z => in_int64 z || in_uint64 z
  | BtList l => forallb bt_canon l
  | BtDict d => msorted d && forallb (λ p, bt_canon p.2) d
  end.

(** ** The oxenc library

    [bt_open] is the constructor of [bt_dict_consumer], which may refuse a
    buffer; [bt_load] is the sequence of pairs the consumer then yields, [bt_body] what a [bt_dict_producer] has written before its
    closing ["e"]; [bt_signed] is the prefix of a buffer that
    [consume_signature] hands to its callback.  The integer conversions may
    refuse an integer that does not fit the requested type. *)
Class BtLib := {
  bt_open : bytes → result ();
  bt_load : bytes → result bt_dict;
  bt_load_list : bytes → result bt_list;
  bt_body : bt_dict → bytes;
  bt_list_dump : bt_list → bytes;
  bt_signed : bytes → bytes;
  consume_int64 : Z → result Z;
  consume_uint64 : Z → result Z;
  get_int64 : Z → result Z;
  consume_value : bt_value → result bt_value;
}.

Definition bt_dump `{BtLib} (d : bt_dict) : bytes := bt_body d +:+ "e".

Class BtLaws `{BtLib} := {
  bt_open_dump : ∀ d, bt_open (bt_dump d) = Ok tt;
  bt_dump_head : ∀ d, ∃ r, bt_dump d = "d" +:+ r;
  bt_load_dump : ∀ d, bt_canon (BtDict d) = true → bt_load (bt_dump d) = Ok d;
  bt_load_list_dump : ∀ l pad, bt_canon (BtList l) = true →
    bt_load_list (bt_list_dump l +:+ pad) = Ok l;
  bt_signed_dump : ∀ d sig, bt_canon (BtDict (d ++ [("~", BtStr sig)])) = true →
    bt_signed (bt_dump (d ++ [("~", BtStr sig)])) = bt_body d;
  consume_int64_fits : ∀ z, in_int64 z = true → consume_int64 z = Ok z;
  consume_uint64_fits : ∀ z, in_uint64 z = true → consume_uint64 z = Ok z;
  consume_int64_range : ∀ z z', consume_int64 z = Ok z' → in_int64 z' = true;
  get_int64_fits : ∀ z, in_int64 z = true → get_int64 z = Ok z;
  consume_value_canon : ∀ v, bt_canon v = true → consume_value v = Ok v;
}.

(** ** Merging ([bchat::bt]) *)
Module BtMerge.

(** [bt_dict merge(const bt_dict& a, const bt_dict& b)] *)
Fixpoint merge (a : bt_dict) : bt_dict → bt_dict :=
  fix go (b : bt_dict) : bt_dict :=
    match a, b with
    | [], [] => []
    | pa :: a', [] => pa :: merge a' []
    | [], pb :: b' => pb :: go b'
    | pa :: a', pb :: b' =>
        match kcmp pa.1 pb.1 with
        | Lt => pa :: merge a' b
        | Eq => pa :: merge a' b'
        | Gt => pb :: go b'
        end
    end.

(** [bt_list merge_sorted(a, b, cmp, duplicates)] *)
Section merge_sorted.
Context (cmp : bt_value → bt_value → bool).

Fixpoint merge_sorted_dups (a : bt_list) : bt_list → bt_list :=
  fix go (b : bt_list) : bt_list :=
    match a, b with
    | [], _ => b
    | _, [] => a
    | x :: a', y :: b' =>
        if negb (cmp x y) then y :: go b' else x :: merge_sorted_dups a' b
    end.

Fixpoint merge_sorted_nodups (a : bt_list) : bt_list → bt_list :=
  fix go (b : bt_list) : bt_list :=
    match a, b with
    | [], _ => b
    | _, [] => a
    | x :: a', y :: b' =>
        if cmp y x then y :: go b'
        else if cmp x y then x :: merge_sorted_nodups a' b
        else go b'
    end.

Definition merge_sorted (a b : bt_list) (duplicates : bool) : bt_list :=
  if duplicates then merge_sorted_dups a b else merge_sorted_nodups a b.
End merge_sorted.

(** The merge is the two-iterator walk that prefers the first dictionary. *)
Lemma merge_walk2 a b :
  walk2 (λ _ v, Ok (Some v)) (λ _ v, Ok (Some v)) (λ _ v _, Ok (Some v)) a b
    = Ok (merge a b).
Proof.
  revert b; induction a as [|[ka va] a IHa]; intros b;
    induction b as [|[kb vb] b IHb]; rewrite walk2_step.
  - done.
  - by rewrite IHb.
  - by rewrite IHa.
  - simpl merge. change (String.compare ka kb) with (kcmp ka kb).
    rewrite (kcmp_opp ka kb). kcases ka kb; cbn [CompOpp]; rewrite bind_ret.
    + by rewrite IHa.
    + by rewrite IHa.
    + by rewrite IHb.
Qed.

Lemma merge_sorted_dups_perm cmp a b :
  Permutation (merge_sorted_dups cmp a b) (a ++ b).
Proof.
  revert b; induction a as [|x a IHa]; intros b; [by destruct b|].
  induction b as [|y b IHb]; simpl; [by rewrite app_nil_r|].
  destruct (cmp x y); simpl.
  - constructor. apply IHa.
  - etransitivity; [constructor; apply IHb|]. apply Permutation_middle.
Qed.

(** Every element of the deduplicating merge comes from an input, and every
    element of the first list is kept. *)
Lemma merge_sorted_nodups_sub cmp a b :
  (∀ x, x ∈ a → x ∈ merge_sorted_nodups cmp a b) ∧
  (∀ x, x ∈ merge_sorted_nodups cmp a b → x ∈ a ∨ x ∈ b).
Proof.
  revert b; induction a as [|x a IHa]; intros b; [destruct b; set_solver|].
  induction b as [|y b IHb]; simpl; [set_solver|].
  destruct (cmp y x); [set_solver|]. destruct (cmp x y); [|set_solver].
  destruct (IHa (y :: b)). set_solver.
Qed.

Section merge_sorted_order.
Context (cmp : bt_value → bt_value → bool).
Context (cmp_irrefl : ∀ x, cmp x x = false).
Context (cmp_trans : ∀ x y z, cmp x y = true → cmp y z = true → cmp x z = true).
Context (cmp_total : ∀ x y, cmp x y = false → cmp y x = false → x = y).

Lemma merge_sorted_nodups_below z a b :
  Forall (λ x, cmp z x = true) a → Forall (λ x, cmp z x = true) b →
  Forall (λ x, cmp z x = true) (merge_sorted_nodups cmp a b).
Proof.
  intros Ha Hb. apply Forall_forall. intros x Hx.
  apply merge_sorted_nodups_sub in Hx as [Hx|Hx].
  - by eapply Forall_forall in Ha.
  - by eapply Forall_forall in Hb.
Qed.

Lemma Forall_cmp_trans z y l :
  cmp z y = true → Forall (λ x, cmp y x = true) l → Forall (λ x, cmp z x = true) l.
Proof. intros Hz Hf. eapply Forall_impl; [exact Hf|]. simpl. eauto. Qed.

Lemma merge_sorted_nodups_sorted a b :
  StronglySorted (λ x y, cmp x y = true) a →
  StronglySorted (λ x y, cmp x y = true) b →
  StronglySorted (λ x y, cmp x y = true) (merge_sorted_nodups cmp a b).
Proof.
  intros Ha; revert b; induction Ha as [|x a Ha IHa Hxa]; intros b Hb;
    [by destruct b|].
  induction Hb as [|y b Hb IHb Hyb]; simpl; [by constructor|].
  destruct (cmp y x) eqn:Eyx; [|destruct (cmp x y) eqn:Exy].
  - constructor; [exact IHb|]. apply (merge_sorted_nodups_below y (x :: a) b); auto.
    constructor; eauto using Forall_cmp_trans.
  - constructor; [apply IHa; by constructor|].
    apply merge_sorted_nodups_below; auto. constructor; eauto using Forall_cmp_trans.
  - exact IHb.
Qed.
End merge_sorted_order.

End BtMerge.
