(* ===== verification/Bencode.v ===== *)
(** * A concrete bencoding

    The bencoding format the oxenc library documents (["<len>:<bytes>"],
    ["i<decimal>e"], ["l...e"], ["d...e"]), as an executable instance of
    [BtLib] that satisfies [BtLaws]: the hypotheses on the library are
    consistent, and the witnesses of the properties run on it. *)

From Stdlib Require Import DecimalString DecimalN DecimalZ ZArith String Ascii Lia.
From stdpp Require Import base option list strings numbers.
From S2P Require Import Prelude OrderedMap Bt.

Definition print_N (n : N) : string := NilZero.string_of_uint (N.to_uint n).
Definition print_Z (z : Z) : string := NilZero.string_of_int (Z.to_int z).
Definition read_N (s : string) : option N := N.of_uint <$> NilZero.uint_of_string s.
Definition read_Z (s : string) : option Z := Z.of_int <$> NilZero.int_of_string s.

Definition encode_string (s : string) : string :=
  print_N (N.of_nat (String.length s)) +:+ String ":" s.

Fixpoint encode (v : bt_value) : string :=
  match v with
  | BtStr s => encode_string s
  | BtInt z => String "i" (print_Z z +:+ "e")
  | BtList l => String "l" ((fix go (l : bt_list) : string :=
      match l with [] => "" | v :: l => encode v +:+ go l end) l +:+ "e")
  | BtDict d => String "d" ((fix go (d : bt_dict) : string :=
      match d with [] => "" | (k, v) :: d => encode_string k +:+ encode v +:+ go d end) d +:+ "e")
  end.

Fixpoint encode_list (l : bt_list) : string :=
  match l with [] => "" | v :: l => encode v +:+ encode_list l end.

Fixpoint encode_pairs (d : bt_dict) : string :=
  match d with [] => "" | (k, v) :: d => encode_string k +:+ encode v +:+ encode_pairs d end.

(** The part of [s] before the first [c], and the part after it. *)
Fixpoint take_until (c : ascii) (s : string) : option (string * string) :=
  match s with
  | "" => None
  | String c' s => if Ascii.eqb c' c then Some ("", s)
                   else '(a, r) ← take_until c s; Some (String c' a, r)
  end.

(** The first [n] bytes and the rest. *)
Fixpoint take_n (n : nat) (s : string) : option (string * string) :=
  match n, s with
  | O, _ => Some ("", s)
  | S n, String c s => '(a, r) ← take_n n s; Some (String c a, r)
  | S _, "" => None
  end.

Definition parse_string (s : string) : option (string * string) :=
  '(ds, rest) ← take_until ":" s; n ← read_N ds; take_n (N.to_nat n) rest.

(** The rest of a buffer whose next byte closes a list or dictionary. *)
Definition strip_e (s : string) : option string :=
  match s with
  | "" => None
  | String c rest => if Ascii.eqb c "e" then Some rest else None
  end.

Fixpoint parse (fuel : nat) (s : string) : option (bt_value * string) :=
  match fuel with
  | O => None
  | S fuel =>
      match s with
      | "" => None
      | String c s' =>
          if Ascii.eqb c "i" then
            '(ds, rest) ← take_until "e" s'; z ← read_Z ds; Some (BtInt z, rest)
          else if Ascii.eqb c "l" then
            '(l, rest) ← parse_list fuel s'; Some (BtList l, rest)
          else if Ascii.eqb c "d" then
            '(d, rest) ← parse_pairs fuel s'; Some (BtDict d, rest)
          else '(x, rest) ← parse_string s; Some (BtStr x, rest)
      end
  end
with parse_list (fuel : nat) (s : string) : option (bt_list * string) :=
  match fuel with
  | O => None
  | S fuel =>
      match strip_e s with
      | Some rest => Some ([], rest)
      | None => '(v, rest) ← parse fuel s; '(l, rest) ← parse_list fuel rest; Some (v :: l, rest)
      end
  end
with parse_pairs (fuel : nat) (s : string) : option (bt_dict * string) :=
  match fuel with
  | O => None
  | S fuel =>
      match strip_e s with
      | Some rest => Some ([], rest)
      | None => '(k, rest) ← parse_string s; '(v, rest) ← parse fuel rest;
             '(d, rest) ← parse_pairs fuel rest; Some ((k, v) :: d, rest)
      end
  end.

Definition load_dict (s : string) : result bt_dict :=
  match parse (S (String.length s)) s with
  | Some (BtDict d, _) => Ok d
  | _ => Throw bt_deserialize_invalid
  end.

Definition load_list (s : string) : result bt_list :=
  match parse (S (String.length s)) s with
  | Some (BtList l, _) => Ok l
  | _ => Throw bt_deserialize_invalid
  end.

(** The encoding of all pairs but the last, which carries the signature. *)
Definition signed_part (s : string) : string :=
  match load_dict s with
  | Ok d => String "d" (encode_pairs (take (length d - 1) d))
  | Throw _ => ""
  end.

#[global] Instance bencode : BtLib := {|
  bt_open s := match s with String "d" _ => Ok tt | _ => Throw runtime_error end;
  bt_load := load_dict;
  bt_load_list := load_list;
  bt_body d := String "d" (encode_pairs d);
  bt_list_dump l := encode (BtList l);
  bt_signed := signed_part;
  consume_int64 z := if in_int64 z then Ok z else Throw bt_deserialize_invalid;
  consume_uint64 z := if in_uint64 z then Ok z else Throw bt_deserialize_invalid;
  get_int64 z := if in_int64 z then Ok z else Throw overflow_error;
  consume_value v := Ok v;
|}.

(** ** Round trip *)
Lemma uint_nil_dec (d : Decimal.uint) : d = Decimal.Nil ∨ d ≠ Decimal.Nil.
Proof. destruct d; [by left|by right..]. Qed.

Lemma read_print_N n : read_N (print_N n) = Some n.
Proof.
  unfold read_N, print_N.
  destruct (uint_nil_dec (N.to_uint n)) as [E|E].
  - rewrite E. pose proof (DecimalN.Unsigned.of_to n) as H. rewrite E in H. by rewrite <-H.
  - rewrite NilZero.usu by done. simpl. by rewrite DecimalN.Unsigned.of_to.
Qed.

Lemma read_print_Z z : read_Z (print_Z z) = Some z.
Proof.
  unfold read_Z, print_Z. pose proof (DecimalZ.of_to z) as H.
  destruct (Z.to_int z) as [d|d]; destruct (uint_nil_dec d) as [->|E].
  1, 3: by rewrite <-H.
  all: rewrite NilZero.isi by congruence; by rewrite <-H.
Qed.

Fixpoint lacks (c : ascii) (s : string) : bool :=
  match s with "" => true | String c' s => negb (Ascii.eqb c' c) && lacks c s end.

Lemma take_until_app c a rest :
  lacks c a = true → take_until c (a +:+ String c rest) = Some (a, rest).
Proof.
  induction a as [|c' a IH]; simpl; intros Hl.
  - by rewrite Ascii.eqb_refl.
  - apply andb_true_iff in Hl as [Hc Hl]. destruct (Ascii.eqb c' c); [done|].
    by rewrite (IH Hl).
Qed.

Lemma take_n_app s rest : take_n (String.length s) (s +:+ rest) = Some (s, rest).
Proof. induction s as [|c s IH]; simpl; [done|by rewrite IH]. Qed.

Lemma uint_lacks c d :
  (c = ":"%char ∨ c = "e"%char) → lacks c (NilZero.string_of_uint d) = true.
Proof.
  intros Hc. unfold NilZero.string_of_uint.
  assert (∀ d, lacks c (NilEmpty.string_of_uint d) = true) as Hall.
  { clear d. intros d; induction d; simpl; [done|..]; rewrite IHd; by destruct Hc as [-> | ->]. }
  destruct d; [by destruct Hc as [-> | ->]|apply (Hall (_ d))..].
Qed.

Lemma print_N_lacks n : lacks ":" (print_N n) = true.
Proof. apply uint_lacks. by left. Qed.

Lemma print_Z_lacks z : lacks "e" (print_Z z) = true.
Proof.
  unfold print_Z. destruct (Z.to_int z); simpl; apply uint_lacks; by right.
Qed.

Lemma append_assoc (a b c : string) : (a +:+ b) +:+ c = a +:+ (b +:+ c).
Proof. induction a as [|x a IH]; simpl; [done|by rewrite IH]. Qed.

Lemma parse_encode_string s rest :
  parse_string (encode_string s +:+ rest) = Some (s, rest).
Proof.
  unfold parse_string, encode_string. rewrite append_assoc. simpl.
  rewrite take_until_app by apply print_N_lacks. simpl.
  rewrite read_print_N. simpl. rewrite Nat2N.id. apply take_n_app.
Qed.

(** The first byte of an encoded string is a decimal digit. *)
Definition is_digit (c : ascii) : bool :=
  let n := nat_of_ascii c in (48 <=? n)%nat && (n <=? 57)%nat.

Lemma encode_string_head s : ∃ c r, encode_string s = String c r ∧ is_digit c = true.
Proof.
  unfold encode_string, print_N, NilZero.string_of_uint.
  destruct (N.to_uint _); simpl; eauto.
Qed.

Lemma string_length_app (a b : string) :
  String.length (a +:+ b) = (String.length a + String.length b)%nat.
Proof. induction a; simpl; auto. Qed.

Lemma strip_e_string s rest : strip_e (encode_string s +:+ rest) = None.
Proof.
  destruct (encode_string_head s) as (c & r & -> & Hd). simpl.
  by destruct (Ascii.eqb_spec c "e") as [->|].
Qed.

Lemma strip_e_encode v rest : strip_e (encode v +:+ rest) = None.
Proof. destruct v; [apply strip_e_string|done..]. Qed.

Lemma encode_length v : (1 ≤ String.length (encode v))%nat.
Proof.
  destruct v; cbn [encode]; [|simpl; lia..].
  destruct (encode_string_head s) as (c & r & -> & _). simpl. lia.
Qed.

Definition parses (v : bt_value) : Prop :=
  ∀ fuel rest, (String.length (encode v) ≤ fuel)%nat →
    parse fuel (encode v +:+ rest) = Some (v, rest).

Lemma parse_list_encode l fuel rest :
  Forall parses l → (String.length (encode_list l) < fuel)%nat →
  parse_list fuel (encode_list l +:+ String "e" rest) = Some (l, rest).
Proof.
  intros Hl; revert fuel; induction Hl as [|v l Hv Hl IH]; intros [|fuel] Hf;
    [lia|done|lia|].
  cbn [encode_list] in *. rewrite string_length_app in Hf.
  pose proof (encode_length v). rewrite append_assoc. cbn [parse_list].
  rewrite strip_e_encode, Hv by lia. simpl. by rewrite IH by lia.
Qed.

Lemma parse_pairs_encode d fuel rest :
  Forall (λ p, parses p.2) d → (String.length (encode_pairs d) < fuel)%nat →
  parse_pairs fuel (encode_pairs d +:+ String "e" rest) = Some (d, rest).
Proof.
  intros Hd; revert fuel; induction Hd as [|[k v] d Hv Hd IH]; intros [|fuel] Hf;
    [lia|done|lia|].
  cbn [encode_pairs] in *. rewrite !string_length_app in Hf.
  pose proof (encode_length v). rewrite !append_assoc. cbn [parse_pairs].
  rewrite strip_e_string, parse_encode_string. simpl. simpl in Hv.
  rewrite Hv by lia. simpl. by rewrite IH by lia.
Qed.

Lemma parse_encode v : parses v.
Proof.
  induction v as [s|z|l IH|d IH] using bt_value_ind'; intros [|fuel] rest Hf;
    try (pose proof (encode_length (BtStr s)); lia);
    try (simpl in Hf; lia).
  - destruct (encode_string_head s) as (c & r & Hs & Hd).
    pose proof (parse_encode_string s rest) as Hp. cbn [encode]. rewrite Hs in *.
    cbn [parse String.append] in *.
    destruct (Ascii.eqb_spec c "i") as [->|_]; [done|].
    destruct (Ascii.eqb_spec c "l") as [->|_]; [done|].
    destruct (Ascii.eqb_spec c "d") as [->|_]; [done|]. by rewrite Hp.
  - cbn [encode]. simpl. rewrite append_assoc. simpl.
    rewrite take_until_app by apply print_Z_lacks. simpl. by rewrite read_print_Z.
  - change (encode (BtList l)) with (String "l" (encode_list l +:+ "e")) in *.
    cbn [String.length] in Hf. rewrite string_length_app in Hf.
    cbn [String.append]. rewrite append_assoc. simpl.
    rewrite parse_list_encode by (done || simpl in Hf; lia). done.
  - change (encode (BtDict d)) with (String "d" (encode_pairs d +:+ "e")) in *.
    cbn [String.length] in Hf. rewrite string_length_app in Hf.
    cbn [String.append]. rewrite append_assoc. simpl.
    rewrite parse_pairs_encode by (done || simpl in Hf; lia). done.
Qed.

Lemma string_app_empty_r (s : string) : s +:+ "" = s.
Proof. induction s as [|x s IH]; simpl; [done|by rewrite IH]. Qed.

Lemma load_dict_dump d : load_dict (bt_dump d) = Ok d.
Proof.
  unfold load_dict. pose proof (parse_encode (BtDict d)) as Hp.
  specialize (Hp (S (String.length (bt_dump d))) "").
  change (encode (BtDict d)) with (bt_dump d) in Hp.
  replace (bt_dump d +:+ "") with (bt_dump d) in Hp by (by rewrite string_app_empty_r).
  rewrite Hp by lia. done.
Qed.

#[global] Instance bencode_laws : BtLaws.
Proof.
  split.
  - done.
  - intros d. by eexists.
  - intros d _. apply load_dict_dump.
  - intros l pad _. unfold bt_load_list, bt_list_dump, bencode, load_list.
    by rewrite (parse_encode (BtList l)) by (rewrite string_length_app; lia).
  - intros d sig _. simpl bt_signed. unfold signed_part. rewrite load_dict_dump.
    rewrite length_app. simpl. replace (_ + 1 - 1)%nat with (length d) by lia.
    by rewrite take_app_length.
  - simpl. by intros z ->.
  - simpl. by intros z ->.
  - simpl. intros z z'. destruct (in_int64 z) eqn:E; [by intros [= <-]|done].
  - simpl. by intros z ->.
  - done.
Qed.
