(* ===== verification/Crypto.v ===== *)
(** * The cryptographic and compression libraries

    The primitives of libsodium and zstd the code calls, as classes with the
    documented laws the code relies on, and executable instances that satisfy
    the laws (they are checksums, not cryptography) so that the properties
    have concrete witnesses. *)

From Stdlib Require Import ZArith String Ascii Lia.
From stdpp Require Import base option list strings numbers.
From S2P Require Import Prelude.

(** [crypto_generichash_blake2b(out, outlen, msg, key)] *)
Class Hash := generichash : Z → bytes → bytes → bytes.
Class HashLaws `{Hash} := generichash_size :
  ∀ len key msg, 0 ≤ len → size (generichash len key msg) = len.

(** The unkeyed 32-byte hash the config code uses. *)
Definition blake2b `{Hash} (msg : bytes) : bytes := generichash 32 "" msg.

(** [crypto_aead_xchacha20poly1305_ietf_{encrypt,decrypt}] with no
    additional data *)
Class Aead := {
  aead_encrypt : bytes → bytes → bytes → bytes;          (* key, nonce, message *)
  aead_decrypt : bytes → bytes → bytes → option bytes;   (* key, nonce, ciphertext *)
}.
Definition ABYTES : Z := 16.
Definition NPUBBYTES : Z := 24.
Class AeadLaws `{Aead} := {
  aead_roundtrip : ∀ k n m, aead_decrypt k n (aead_encrypt k n m) = Some m;
  aead_size : ∀ k n m, size (aead_encrypt k n m) = size m + ABYTES;
}.

(** [ZSTD_compress] at a level, [ZSTD_decompressStream] to the end *)
Class Zstd := {
  ZSTD_compress : Z → bytes → result bytes;
  ZSTD_decompress : bytes → option bytes;
}.
Class ZstdLaws `{Zstd} := {
  zstd_roundtrip : ∀ level m c, ZSTD_compress level m = Ok c → ZSTD_decompress c = Some m;
}.

(** [crypto_sign_ed25519_seed_keypair]: the public and the secret key, the
    documented form of the latter being the seed followed by the former *)
Class SeedKeypair := seed_keypair : bytes → bytes * bytes.
Class SeedKeypairLaws `{SeedKeypair} := seed_keypair_form :
  ∀ seed, size (seed_keypair seed).1 = 32 ∧ (seed_keypair seed).2 = seed +:+ (seed_keypair seed).1.

(** ** Concrete instances *)
Fixpoint checksum (acc : N) (s : string) : N :=
  match s with
  | "" => acc
  | String c s => checksum (N.land (acc * 257 + N_of_ascii c + 1) (2 ^ 128 - 1))%N s
  end.

Fixpoint spread (n : nat) (acc : N) : string :=
  match n with O => "" | S n => String (ascii_of_N (acc mod 256)) (spread n (acc / 251 + 3)%N) end.

#[global] Instance checksum_hash : Hash :=
  λ len key msg, spread (Z.to_nat len) (checksum (checksum 7 key) msg).

Lemma spread_length n acc : String.length (spread n acc) = n.
Proof. revert acc; induction n as [|n IH]; intros acc; simpl; [done|by rewrite IH]. Qed.

#[global] Instance checksum_hash_laws : HashLaws.
Proof.
  intros len key msg Hlen. unfold size, generichash, checksum_hash.
  rewrite spread_length. lia.
Qed.

Definition tag (k n m : string) : string := spread 16 (checksum (checksum (checksum 7 k) n) m).

(** The first [n] bytes and the rest ([take]/[drop] on byte strings). *)
Fixpoint stake (n : nat) (s : string) : string :=
  match n, s with S n, String c s => String c (stake n s) | _, _ => "" end.
Fixpoint sdrop (n : nat) (s : string) : string :=
  match n, s with S n, String _ s => sdrop n s | _, _ => s end.

#[global] Instance checksum_aead : Aead := {|
  aead_encrypt k n m := m +:+ tag k n m;
  aead_decrypt k n c :=
    if (String.length c <? 16)%nat then None else
    let m := stake (String.length c - 16) c in
    if String.eqb (sdrop (String.length c - 16) c) (tag k n m) then Some m else None;
|}.

Lemma length_sapp (a b : string) :
  String.length (a +:+ b) = (String.length a + String.length b)%nat.
Proof. induction a as [|c a IH]; simpl; [done|by rewrite IH]. Qed.

Lemma stake_app a b : stake (String.length a) (a +:+ b) = a.
Proof. induction a as [|c a IH]; simpl; [by destruct b|by rewrite IH]. Qed.

Lemma sdrop_app a b : sdrop (String.length a) (a +:+ b) = b.
Proof. induction a as [|c a IH]; simpl; [by destruct b|done]. Qed.

Lemma stake_sdrop n s : stake n s +:+ sdrop n s = s.
Proof. revert s; induction n as [|n IH]; intros [|c s]; simpl; [done..|by rewrite IH]. Qed.

Lemma stake_all n s : (String.length s ≤ n)%nat → stake n s = s.
Proof.
  revert s; induction n as [|n IH]; intros [|c s] Hn; simpl in *; [done|lia|done|].
  by rewrite IH by lia.
Qed.

Lemma length_stake n s : String.length (stake n s) = Nat.min n (String.length s).
Proof. revert s; induction n as [|n IH]; intros [|c s]; simpl; [done..|by rewrite IH]. Qed.

Lemma length_sdrop n s : String.length (sdrop n s) = (String.length s - n)%nat.
Proof. revert s; induction n as [|n IH]; intros [|c s]; simpl; auto. Qed.

#[global] Instance checksum_aead_laws : AeadLaws.
Proof.
  split.
  - intros k n m. simpl.
    assert (String.length (m +:+ tag k n m) = (String.length m + 16)%nat) as ->
      by (rewrite length_sapp; unfold tag; by rewrite spread_length).
    destruct (Nat.ltb_spec (String.length m + 16) 16) as [Hlt|_]; [lia|].
    replace (String.length m + 16 - 16)%nat with (String.length m) by lia.
    rewrite sdrop_app, stake_app. by rewrite String.eqb_refl.
  - intros k n m. simpl. unfold size. rewrite length_sapp. unfold tag.
    rewrite spread_length. unfold ABYTES. lia.
Qed.

#[global] Instance plain_zstd : Zstd := {|
  ZSTD_compress _ m := Ok (String "Z" m);
  ZSTD_decompress c := match c with String "Z" m => Some m | _ => None end;
|}.

#[global] Instance plain_zstd_laws : ZstdLaws.
Proof. split. intros level m c Hc. simpl in Hc. by simplify_eq. Qed.

(** A key pair that has the documented form *)
#[global] Instance checksum_keypair : SeedKeypair := λ seed,
  let pk := generichash 32 "pk" seed in (pk, seed +:+ pk).
#[global] Instance checksum_keypair_laws : SeedKeypairLaws.
Proof. intros seed. split; [by apply generichash_size|done]. Qed.
