(* ===== verification/ConfigData.v ===== *)
(** * Config data

    The application data of a config message ([include/bchat/config.hpp]):
    scalars, sets of scalars and nested dictionaries, and the pruning of empty
    containers ([prune_] of [src/config.cpp]). *)

From Stdlib Require Import ZArith String Lia.
From stdpp Require Import base option list strings numbers sorting sets.
From S2P Require Import Prelude OrderedMap.

(** [std::variant<int64_t, std::string>] *)
Abbreviation scalar := (Z + bytes)%type.
Definition SInt (z : Z) : scalar := inl z.
Definition SStr (s : bytes) : scalar := inr s.

(** [std::variant<dict, set, scalar>], with [dict = std::map<std::string,
    dict_value>] and [set = std::set<scalar>] *)
Inductive dict_value :=
  | DDict (d : list (bytes * dict_value))
  | DSet (s : list scalar)
  | DScalar (x : scalar).

Abbreviation dict := (list (bytes * dict_value)).
Abbreviation config_set := (list scalar).

(** [dict_variant::index()] *)
Definition dv_index (v : dict_value) : nat :=
  match v with DDict _ => 0 | DSet _ => 1 | DScalar _ => 2 end.

Section dict_value_ind.
Context (P : dict_value → Prop).
Context (HDict : ∀ d, Forall (λ p, P p.2) d → P (DDict d))
        (HSet : ∀ s, P (DSet s)) (HScalar : ∀ x, P (DScalar x)).

Fixpoint dict_value_ind' (v : dict_value) : P v :=
  match v with
  | DDict d => HDict d ((fix go (d : dict) : Forall (λ p, P p.2) d :=
      match d with
      | [] => Forall_nil_2 _
      | p :: d => Forall_cons_2 (λ p, P p.2) p d (dict_value_ind' p.2) (go d)
      end) d)
  | DSet s => HSet s
  | DScalar x => HScalar x
  end.
End dict_value_ind.

(** The same induction at the level of dictionaries. *)
Lemma dict_ind' (P : dict → Prop) :
  (∀ d, Forall (λ p, ∀ d', p.2 = DDict d' → P d') d → P d) → ∀ d, P d.
Proof.
  intros HP d. apply HP.
  assert (∀ v d', v = DDict d' → P d') as Hv.
  { intros v; induction v as [d2 IH| |] using dict_value_ind'; [|done..].
    intros d' [= <-]. by apply HP. }
  apply Forall_forall. intros [k v] _ d'. apply Hv.
Qed.

(** ** Well-formed data: ordered containers of in-range integers *)
Definition scalar_ok (x : scalar) : bool :=
  match x with inl z => in_int64 z | inr _ => true end.

Definition set_ok (s : config_set) : bool := ssorted s && forallb scalar_ok s.

Fixpoint value_ok (v : dict_value) : bool :=
  match v with
  | DDict d => msorted d && forallb (λ p, value_ok p.2) d
  | DSet s => set_ok s
  | DScalar x => scalar_ok x
  end.

Definition dict_ok (d : dict) : bool := value_ok (DDict d).

(** No empty dictionary or set below the top level. *)
Definition is_nil {A} (l : list A) : bool := match l with [] => true | _ => false end.

Fixpoint value_pruned (v : dict_value) : bool :=
  match v with
  | DDict d => negb (is_nil d) && forallb (λ p, value_pruned p.2) d
  | DSet s => negb (is_nil s)
  | DScalar _ => true
  end.

Definition dict_pruned (d : dict) : bool := forallb (λ p, value_pruned p.2) d.

(** Nesting depth, the measure of the recursive comparisons. *)
Fixpoint vdepth (v : dict_value) : nat :=
  match v with
  | DDict d => S ((fix go (d : dict) : nat :=
                     match d with [] => O | p :: d => Nat.max (vdepth p.2) (go d) end) d)
  | _ => O
  end.

Definition ddepth (d : dict) : nat := vdepth (DDict d).

(** ** Pruning *)

(** [prune_]: the pruned value with the pair [{should_remove,
    removed_subkeys}] the code returns. *)
Fixpoint prune_value (v : dict_value) : dict_value * (bool * bool) :=
  match v with
  | DDict d =>
      let '(d', removed_subkeys) :=
        (fix go (d : dict) : dict * bool :=
           match d with
           | [] => ([], false)
           | (k, x) :: d =>
               let '(x', (rm_key, rm_subkeys)) := prune_value x in
               let '(d', removed) := go d in
               (if rm_key then d' else (k, x') :: d', rm_key || rm_subkeys || removed)
           end) d in
      (DDict d', (is_nil d', removed_subkeys))
  | DSet s => (v, (is_nil s, false))
  | DScalar _ => (v, (false, false))
  end.

Fixpoint prune_entries (d : dict) : dict * bool :=
  match d with
  | [] => ([], false)
  | (k, x) :: d =>
      let '(x', (rm_key, rm_subkeys)) := prune_value x in
      let '(d', removed) := prune_entries d in
      (if rm_key then d' else (k, x') :: d', rm_key || rm_subkeys || removed)
  end.

(** [prune_(dict& d)] *)
Definition prune_ (d : dict) : dict * (bool * bool) :=
  let '(d', removed_subkeys) := prune_entries d in (d', (is_nil d', removed_subkeys)).

Definition prune (d : dict) : dict := (prune_ d).1.

(** ** Facts *)

Lemma prune_value_dict d :
  prune_value (DDict d) =
    let '(d', removed) := prune_entries d in (DDict d', (is_nil d', removed)).
Proof. done. Qed.

Lemma prune_fst d : prune d = (prune_entries d).1.
Proof. unfold prune, prune_. by destruct (prune_entries d). Qed.

Lemma dict_ok_cons k v d :
  dict_ok ((k, v) :: d) = true ↔
    Forall (key_below k) d ∧ value_ok v = true ∧ dict_ok d = true.
Proof.
  unfold dict_ok. cbn [value_ok]. rewrite !andb_true_iff, msorted_cons.
  simpl forallb. rewrite andb_true_iff. tauto.
Qed.

Lemma dict_ok_sorted d : dict_ok d = true → msorted d = true.
Proof. unfold dict_ok. cbn [value_ok]. rewrite andb_true_iff. tauto. Qed.

Lemma dict_ok_spec d :
  dict_ok d = true ↔ msorted d = true ∧ ∀ k v, (k, v) ∈ d → value_ok v = true.
Proof.
  unfold dict_ok. cbn [value_ok]. rewrite andb_true_iff, forallb_forall.
  setoid_rewrite <-list_elem_of_In. split; intros [Hs Hf]; split; auto.
  - intros k v Hin. by apply (Hf (k, v)).
  - intros [k v] Hin. by apply (Hf k v).
Qed.

Lemma dict_ok_find d k v : dict_ok d = true → mfind k d = Some v → value_ok v = true.
Proof. intros [_ Hv]%dict_ok_spec Hf. by eapply Hv, mfind_Some_In. Qed.

Lemma dict_pruned_spec d :
  dict_pruned d = true ↔ ∀ k v, (k, v) ∈ d → value_pruned v = true.
Proof.
  unfold dict_pruned. rewrite forallb_forall. setoid_rewrite <-list_elem_of_In.
  split; [intros Hf k v; apply (Hf (k, v))|intros Hf [k v]; apply Hf].
Qed.

Lemma dict_pruned_find d k v :
  dict_pruned d = true → mfind k d = Some v → value_pruned v = true.
Proof. rewrite dict_pruned_spec. intros Hp Hf%mfind_Some_In. eauto. Qed.

Lemma dict_pruned_cons k v d :
  dict_pruned ((k, v) :: d) = true ↔ value_pruned v = true ∧ dict_pruned d = true.
Proof. unfold dict_pruned. simpl. by rewrite andb_true_iff. Qed.

Lemma value_pruned_dict d :
  value_pruned (DDict d) = true ↔ d ≠ [] ∧ dict_pruned d = true.
Proof.
  simpl. rewrite andb_true_iff. unfold dict_pruned.
  destruct d; simpl; intuition congruence.
Qed.

Lemma dict_ok_insert k v d :
  dict_ok d = true → value_ok v = true → dict_ok (minsert k v d) = true.
Proof.
  intros [Hs Hv]%dict_ok_spec Hok. apply dict_ok_spec. split; [auto with ordmap|].
  intros k' v' Hin. apply mfind_In in Hin; [|auto with ordmap].
  rewrite mfind_insert in Hin. destruct (keqb k' k); [by simplify_eq|].
  by eapply Hv, mfind_Some_In.
Qed.

Lemma dict_ok_erase k d : dict_ok d = true → dict_ok (merase k d) = true.
Proof.
  intros [Hs Hv]%dict_ok_spec. apply dict_ok_spec. split; [auto with ordmap|].
  intros k' v' Hin. apply mfind_In in Hin; [|auto with ordmap].
  rewrite mfind_erase in Hin. destruct (keqb k' k); [done|].
  by eapply Hv, mfind_Some_In.
Qed.

Lemma vdepth_entry d k v : (k, v) ∈ d → (vdepth v < ddepth d)%nat.
Proof.
  unfold ddepth. induction d as [|p d IH]; [by intros ?%not_elem_of_nil|].
  rewrite elem_of_cons. simpl in *. intros [<-|Hin]; simpl; [lia|].
  specialize (IH Hin). lia.
Qed.

Lemma vdepth_find d k v : mfind k d = Some v → (vdepth v < ddepth d)%nat.
Proof. intros Hf. by eapply vdepth_entry, mfind_Some_In. Qed.

#[export] Hint Resolve dict_ok_sorted dict_ok_insert dict_ok_erase dict_ok_find
  dict_pruned_find : ordmap.

(** Pruning keeps keys, so it keeps the order. *)
Lemma prune_entries_below k d :
  Forall (key_below k) d → Forall (key_below k) (prune_entries d).1.
Proof.
  induction 1 as [|[k' v] d Hk Hf IH]; simpl; [constructor|].
  destruct (prune_value v) as [v' [rm sub]], (prune_entries d) as [d' r]; simpl in *.
  destruct rm; [done|by constructor].
Qed.

Lemma prune_entries_props d :
  dict_ok d = true →
  dict_ok (prune_entries d).1 = true ∧ dict_pruned (prune_entries d).1 = true.
Proof.
  induction d as [d IH] using dict_ind'. intros Hok.
  induction d as [|[k v] d IHd]; [done|].
  apply Forall_cons in IH as [IHv IH].
  apply dict_ok_cons in Hok as (Hb & Hv & Hok). specialize (IHd IH Hok).
  assert (∀ v' sub, prune_value v = (v', (false, sub)) →
            value_ok v' = true ∧ value_pruned v' = true) as Hval.
  { intros v' sub Hp. destruct v as [d2|s|x].
    - specialize (IHv d2 eq_refl Hv). rewrite prune_value_dict in Hp.
      destruct (prune_entries d2) as [d2' r] eqn:E; simpl in *.
      simplify_eq. rewrite value_pruned_dict. destruct IHv. by destruct d2'.
    - simpl in Hp. simplify_eq. by destruct s.
    - simpl in Hp. by simplify_eq. }
  simpl. pose proof (prune_entries_below k d Hb) as Hb'.
  destruct (prune_value v) as [v' [rm sub]] eqn:Ev, (prune_entries d) as [d' r];
    simpl in *. destruct rm; [done|]. destruct (Hval _ _ eq_refl).
  rewrite dict_ok_cons, dict_pruned_cons. tauto.
Qed.

Lemma prune_entries_pruned d :
  dict_pruned d = true → prune_entries d = (d, false).
Proof.
  induction d as [d IH] using dict_ind'. intros Hp.
  induction d as [|[k v] d IHd]; [done|].
  apply Forall_cons in IH as [IHv IH].
  apply dict_pruned_cons in Hp as [Hv Hp]. simpl.
  assert (prune_value v = (v, (false, false))) as ->.
  { destruct v as [d2|s|x]; [|by destruct s|done].
    apply value_pruned_dict in Hv as [Hne Hd2].
    rewrite prune_value_dict, (IHv d2 eq_refl Hd2). by destruct d2. }
  by rewrite IHd.
Qed.

Lemma prune_value_pruned v : value_pruned v = true → prune_value v = (v, (false, false)).
Proof.
  destruct v as [d|s|x]; [|by destruct s|done]. intros [Hne Hd]%value_pruned_dict.
  rewrite prune_value_dict, prune_entries_pruned by done. by destruct d.
Qed.

(** The flag is exact: it is set iff something was removed. *)
Lemma prune_entries_flag d : (prune_entries d).2 = false → (prune_entries d).1 = d.
Proof.
  induction d as [d IH] using dict_ind'.
  induction d as [|[k v] d IHd]; [done|].
  apply Forall_cons in IH as [IHv IH]. specialize (IHd IH). simpl.
  assert (∀ v', prune_value v = (v', (false, false)) → v' = v) as Hval.
  { intros v' Hp. destruct v as [d2|s|x]; [|simpl in Hp; by simplify_eq..].
    specialize (IHv d2 eq_refl). rewrite prune_value_dict in Hp.
    destruct (prune_entries d2) as [d2' r]; simpl in *. simplify_eq. by rewrite IHv. }
  destruct (prune_value v) as [v' [rm sub]], (prune_entries d) as [d' r]; simpl in *.
  destruct rm, sub, r; simpl; intros; try done. by rewrite (Hval v'), IHd.
Qed.

(** ** What pruning may not change: the data reachable by a path *)
Inductive leaf := LScalar (x : scalar) | LElem (x : scalar).

(** [has_leaf path l d]: following [path] from [d] reaches the scalar, or a
    set containing the element. *)
Fixpoint has_leaf (path : list bytes) (l : leaf) (d : dict) : bool :=
  match path with
  | [] => false
  | k :: path' =>
      match mfind k d, path', l with
      | Some (DScalar x), [], LScalar y => keqb x y
      | Some (DSet s), [], LElem y => smem y s
      | Some (DDict d'), _, _ => has_leaf path' l d'
      | _, _, _ => false
      end
  end.

Lemma mfind_prune_entries k d :
  dict_ok d = true →
  mfind k (prune_entries d).1 =
    match mfind k d with
    | Some v => let '(v', (rm, _)) := prune_value v in if rm then None else Some v'
    | None => None
    end.
Proof.
  induction d as [|[k' v] d IH]; intros Hok; [done|].
  apply dict_ok_cons in Hok as (Hb & _ & Hok). specialize (IH Hok). simpl.
  destruct (prune_value v) as [v' [rm sub]] eqn:Ev, (prune_entries d) as [d' r];
    simpl in *. destruct rm; simpl; destruct (keqb k k') eqn:E; rewrite ?Ev; auto.
  apply keqb_spec in E as ->. rewrite IH, mfind_below; done.
Qed.

(** Pruning keeps every value that has nothing to prune. *)
Lemma mfind_prune_pruned k d :
  dict_ok d = true → match mfind k d with Some v => value_pruned v | None => true end = true →
  mfind k (prune d) = mfind k d.
Proof.
  intros Hok Hp. rewrite prune_fst, mfind_prune_entries by done.
  destruct (mfind k d) as [v|]; [|done]. by rewrite prune_value_pruned.
Qed.

Lemma has_leaf_nil path l : has_leaf path l [] = false.
Proof. by destruct path. Qed.

Lemma prune_entries_leaf path l d :
  dict_ok d = true → has_leaf path l (prune_entries d).1 = has_leaf path l d.
Proof.
  revert d; induction path as [|k path IH]; intros d Hok; [done|]. simpl.
  rewrite mfind_prune_entries by done. destruct (mfind k d) as [v|] eqn:E; [|done].
  assert (value_ok v = true) as Hv by eauto with ordmap.
  destruct v as [d2|s|x]; [| |by simpl].
  - specialize (IH d2 Hv). rewrite prune_value_dict.
    destruct (prune_entries d2) as [[|p d2'] r]; simpl in *; [|done].
    by rewrite has_leaf_nil in IH.
  - destruct s; simpl; [|done]. by destruct path, l.
Qed.

(** (pruning): on well-formed data [prune_] yields well-formed data with no
    empty container below the top, reports [removed_subkeys] exactly when it
    changed something, and keeps every scalar and every set element that was
    reachable, adding none. *)
Theorem prune_correct d :
  dict_ok d = true →
  dict_ok (prune d) = true ∧ dict_pruned (prune d) = true ∧
  ((prune_ d).2.2 = false ↔ prune d = d) ∧
  (∀ path l, has_leaf path l (prune d) = has_leaf path l d).
Proof.
  intros Hok. destruct (prune_entries_props d Hok) as [Hok' Hp].
  rewrite prune_fst. split_and!; [done..| |by intros; apply prune_entries_leaf].
  replace (prune_ d).2.2 with (prune_entries d).2
    by (unfold prune_; by destruct (prune_entries d)).
  split; [apply prune_entries_flag|].
  intros Heq. rewrite Heq in Hp. by rewrite prune_entries_pruned.
Qed.

Lemma prune_correct_witness :
  let d := [("a", DDict [("e", DSet [])]); ("b", DSet [SInt 1; SStr "x"])] in
  prune d = [("b", DSet [SInt 1; SStr "x"])] ∧ has_leaf ["b"] (LElem (SInt 1)) (prune d) = true.
Proof.
  split; [reflexivity|].
  rewrite (proj2 (proj2 (proj2 (prune_correct
    [("a", DDict [("e", DSet [])]); ("b", DSet [SInt 1; SStr "x"])] eq_refl)))).
  reflexivity.
Defined.
