(* ===== verification/ConfigDiff.v ===== *)
(** * Config diffs

    Computing, loading and applying the diffs carried by config messages
    ([diff_impl], [load_diff], [apply_diff] of [src/config.cpp]).

    A diff is a [bt_dict] shaped like the data: at a key it holds [""] for an
    assigned scalar, ["-"] for a removed one, a pair of lists (added, removed)
    for a set, or a nested diff for a dictionary. *)

From Stdlib Require Import ZArith String Lia.
From stdpp Require Import base option list strings numbers sorting sets.
From S2P Require Import Prelude OrderedMap Bt Bencode ConfigData.

(** ** Computing a diff *)

Definition bt_of_scalar (x : scalar) : bt_value :=
  match x with inl z => BtInt z | inr s => BtStr s end.

(** The loop of [diff_impl(const set&, const set&)]: [(added, removed)] *)
Fixpoint set_walk (old : config_set) : config_set → config_set * config_set :=
  fix go (new_ : config_set) : config_set * config_set :=
    match old, new_ with
    | [], [] => ([], [])
    | [], n :: new' => let '(a, r) := go new' in (n :: a, r)
    | o :: old', [] => let '(a, r) := set_walk old' [] in (a, o :: r)
    | o :: old', n :: new' =>
        if klt n o then let '(a, r) := go new' in (n :: a, r)
        else if klt o n then let '(a, r) := set_walk old' new_ in (a, o :: r)
        else set_walk old' new'
    end.

Definition diff_set (old new_ : config_set) : option bt_list :=
  let '(added, removed) := set_walk old new_ in
  if is_nil added && is_nil removed then None
  else Some [BtList (bt_of_scalar <$> added); BtList (bt_of_scalar <$> removed)].

(** Dereferencing an empty [std::optional] is undefined. *)
Definition deref {A} (o : option A) : result A := from_option_or undefined_behaviour o.

(** The branches of [diff_impl(const dict&, const dict&)] at one key: the
    value was removed, was added (or changed its fundamental type), or is in
    both; [rec] is the recursive call. *)
Section diff_branches.
Context (rec : dict → dict → result (option bt_dict)).

Definition diff_removed (o : dict_value) : result (option bt_value) :=
  match o with
  | DDict d => sub ← rec d []; sub ← deref sub; Ok (Some (BtDict sub))
  | DSet s => sub ← deref (diff_set s []); Ok (Some (BtList sub))
  | DScalar _ => Ok (Some (BtStr "-"))
  end.

Definition diff_added (n : dict_value) : result (option bt_value) :=
  match n with
  | DDict d => sub ← rec [] d; sub ← deref sub; Ok (Some (BtDict sub))
  | DSet s => sub ← deref (diff_set [] s); Ok (Some (BtList sub))
  | DScalar _ => Ok (Some (BtStr ""))
  end.

Definition diff_both (o n : dict_value) : result (option bt_value) :=
  match o, n with
  | DScalar ov, DScalar nv => Ok (if keqb ov nv then None else Some (BtStr ""))
  | DDict dv, DDict nv => sub ← rec dv nv; Ok (option_map BtDict sub)
  | DSet sv, DSet nv => Ok (option_map BtList (diff_set sv nv))
  | _, _ => diff_added n
  end.
End diff_branches.

(** [diff_impl(const dict&, const dict&)], with the nesting depth as fuel *)
Fixpoint diff_dict (fuel : nat) (old new_ : dict) : result (option bt_dict) :=
  match fuel with
  | O => Throw out_of_fuel
  | S fuel =>
      df ← walk2 (λ _, diff_removed (diff_dict fuel)) (λ _, diff_added (diff_dict fuel))
                 (λ _, diff_both (diff_dict fuel)) old new_;
      Ok (if is_nil df then None else Some df)
  end.

Definition diff_impl (old new_ : dict) : result (option bt_dict) :=
  diff_dict (Nat.max (ddepth old) (ddepth new_)) old new_.

(** ** Loading a diff *)
Section load.
Context `{BtLib}.

Definition get_bt_int (v : bt_value) : result (option Z) :=
  match v with BtInt z => Some <$> get_int64 z | _ => Ok None end.

Definition get_bt_str (v : bt_value) : option bytes :=
  match v with BtStr s => Some s | _ => None end.

Definition get_bt_scalar (v : bt_value) : result (option scalar) :=
  i ← get_bt_int v;
  match i, get_bt_str v with
  | Some z, _ => Ok (Some (SInt z))
  | None, Some s => Ok (Some (SStr s))
  | None, None => Ok None
  end.

Definition check_scalar_order (a b : bt_value) : result () :=
  a_int ← get_bt_int a; b_int ← get_bt_int b;
  match a_int, get_bt_str a, b_int, get_bt_str b with
  | Some x, _, Some y, _ => require (x <? y) config_parse_error
  | Some _, _, None, Some _ => Ok tt
  | None, Some _, Some _, _ => Throw config_parse_error
  | None, Some s, None, Some t => require (klt s t) config_parse_error
  | _, _, _, _ => Throw config_parse_error
  end.

(** The loop over adjacent elements that calls [check_scalar_order]. *)
Fixpoint check_sorted (elems : bt_list) : result () :=
  match elems with
  | i :: (j :: _) as rest => _ ← check_scalar_order i j; check_sorted rest
  | _ => Ok tt
  end.

Definition check_sublist (sublist : bt_value) : result () :=
  match sublist with
  | BtList elems => check_sorted elems
  | _ => Throw config_parse_error
  end.

Definition check_set_diff (changed : bt_value) : result () :=
  match changed with
  | BtList [a; r] => _ ← check_sublist a; check_sublist r
  | _ => Throw config_parse_error
  end.

(** The loop of [load_diff]: an integer value matches none of its branches,
    so nothing is consumed and the loop goes around again. *)
Fixpoint load_diff_loop (fuel : nat) (in_ : bt_dict) (acc : bt_dict) : result bt_dict :=
  match fuel with
  | O => Throw out_of_fuel
  | S fuel =>
      match in_ with
      | [] => Ok acc
      | (key, v) :: rest =>
          _ ← require (match mlast acc with
                       | Some k => negb (kle key k) | None => true end)
                      bt_deserialize_invalid;
          match v with
          | BtStr mode =>
              _ ← require (keqb mode "" || keqb mode "-") config_parse_error;
              load_diff_loop fuel rest (acc ++ [(key, BtStr mode)])
          | BtList _ =>
              changed ← consume_value v;
              _ ← check_set_diff changed;
              load_diff_loop fuel rest (acc ++ [(key, changed)])
          | BtDict sub =>
              sub' ← load_diff_loop fuel sub [];
              load_diff_loop fuel rest (acc ++ [(key, BtDict sub')])
          | BtInt _ => load_diff_loop fuel in_ acc
          end
      end
  end.

Fixpoint bt_size (v : bt_value) : nat :=
  match v with
  | BtDict d => S ((fix go (d : bt_dict) : nat :=
                      match d with [] => O | p :: d => S (bt_size p.2 + go d) end) d)
  | _ => 1
  end.

Definition load_diff (in_ : bt_dict) : result bt_dict :=
  load_diff_loop (bt_size (BtDict in_)) in_ [].

(** ** Applying a diff *)

(** [std::get<bt_list>] *)
Definition get_list (v : bt_value) : result bt_list :=
  match v with BtList l => Ok l | _ => Throw bad_variant_access end.

Definition set_add (s : config_set) (v : bt_value) : result config_set :=
  x ← get_bt_scalar v;
  match x with Some x => Ok (sinsert x s) | None => Throw config_error end.

Definition set_remove (s : config_set) (v : bt_value) : result config_set :=
  x ← get_bt_scalar v;
  match x with Some x => Ok (serase x s) | None => Throw config_error end.

Definition apply_set_diff (set_diff : bt_list) (subset : config_set) : result config_set :=
  a ← deref (set_diff !! 0%nat); added ← get_list a;
  subset ← foldR set_add subset added;
  r ← deref (set_diff !! 1%nat); removed ← get_list r;
  foldR set_remove subset removed.

(** The body of the loop of [apply_diff] at one key: [cur] is the entry of
    [data], [src] that of [source]; the result is the new entry of [data]
    ([None] for [data.erase(k)]). *)
Fixpoint apply_value (v : bt_value) (cur src : option dict_value)
  : result (option dict_value) :=
  match src, v with
  | None, _ => Ok None
  | Some (DScalar x), BtStr mode =>
      if keqb mode "-" then Ok None
      else if keqb mode "" then Ok (Some (DScalar x))
      else Throw config_error
  | Some (DDict source), BtDict diff =>
      let subdict := match cur with Some (DDict d) => d | _ => [] end in
      r ← (fix go (diff : bt_dict) (data : dict) : result dict :=
             match diff with
             | [] => Ok data
             | (k, v) :: diff =>
                 new ← apply_value v (mfind k data) (mfind k source);
                 go diff (match new with
                          | Some x => minsert k x data
                          | None => merase k data
                          end)
             end) diff subdict;
      Ok (Some (DDict r))
  | Some (DSet _), BtList set_diff =>
      let subset := match cur with Some (DSet s) => s | _ => [] end in
      r ← apply_set_diff set_diff subset;
      Ok (Some (DSet r))
  | Some _, BtInt _ => Throw config_error
  | Some _, _ => Ok None
  end.

(** [data[k] = x] or [data.erase(k)] *)
Definition mupdate (k : bytes) (new : option dict_value) (data : dict) : dict :=
  match new with Some x => minsert k x data | None => merase k data end.

(** [apply_diff(dict& data, const bt_dict& diff, const dict& source)] *)
Fixpoint apply_diff (data : dict) (diff : bt_dict) (source : dict) : result dict :=
  match diff with
  | [] => Ok data
  | (k, v) :: diff =>
      new ← apply_value v (mfind k data) (mfind k source);
      apply_diff (mupdate k new data) diff source
  end.
End load.

(** ** What a well-formed diff looks like *)
Definition scalar_of_bt (v : bt_value) : option scalar :=
  match v with BtInt z => Some (inl z) | BtStr s => Some (inr s) | _ => None end.

Definition elems_ok (l : bt_list) : bool :=
  match mapM scalar_of_bt l with Some xs => set_ok xs | None => false end.

Fixpoint diff_ok (v : bt_value) : bool :=
  match v with
  | BtStr mode => keqb mode "" || keqb mode "-"
  | BtList [BtList a; BtList r] => elems_ok a && elems_ok r
  | BtDict d => msorted d && forallb (λ p, diff_ok p.2) d
  | _ => false
  end.

(** ** Sets *)
Lemma smem_below (x : scalar) s : Forall (λ y, x ≺ y) s → smem x s = false.
Proof.
  intros Hf. destruct (smem x s) eqn:E; [|done]. apply smem_In in E.
  rewrite Forall_forall in Hf. by apply Hf, klt_irrefl in E.
Qed.

Lemma Forall_lt_trans (x y : scalar) s :
  x ≺ y → Forall (λ z, y ≺ z) s → Forall (λ z, x ≺ z) s.
Proof. intros Hlt Hf. eapply Forall_impl; [exact Hf|]. intros z. by apply kcmp_trans. Qed.

Definition minus (s t : config_set) : config_set := List.filter (λ x, negb (smem x t)) s.

Lemma minus_skip (x : scalar) s t :
  Forall (λ y, x ≺ y) s → minus s (x :: t) = minus s t.
Proof.
  intros Hf. apply List.filter_ext_in. intros y Hy%list_elem_of_In. simpl.
  rewrite Forall_forall in Hf. specialize (Hf _ Hy).
  unfold keqb. apply kcmp_gt_lt in Hf. by rewrite Hf.
Qed.

Lemma minus_same (x : scalar) s t :
  Forall (λ y, x ≺ y) s → minus (x :: s) (x :: t) = minus s t.
Proof.
  intros Hf. rewrite <-(minus_skip x s t Hf). unfold minus at 1. cbn [List.filter].
  cbn [smem existsb]. by rewrite keqb_refl.
Qed.

Lemma minus_new (x : scalar) s t :
  Forall (λ y, x ≺ y) t → minus (x :: s) t = x :: minus s t.
Proof. intros Hf. unfold minus at 1. cbn [List.filter]. by rewrite smem_below. Qed.

Lemma minus_nil s : minus s [] = s.
Proof. unfold minus. induction s; simpl; [done|by f_equal]. Qed.

(** The set walk computes the two differences. *)
Lemma set_walk_spec old new_ :
  ssorted old = true → ssorted new_ = true →
  set_walk old new_ = (minus new_ old, minus old new_).
Proof.
  revert new_; induction old as [|o old IHo]; intros new_;
    induction new_ as [|n new_ IHn]; intros Ho Hn; [done|..].
  - apply ssorted_cons in Hn as [Hf Hn]. simpl in *. by rewrite IHn.
  - apply ssorted_cons in Ho as [Hf Ho]. simpl. rewrite IHo by done.
    by rewrite minus_nil.
  - pose proof Ho as Ho'. pose proof Hn as Hn'.
    apply ssorted_cons in Ho as [Hfo Ho], Hn as [Hfn Hn]. cbn [set_walk].
    unfold klt. rewrite (kcmp_opp n o). kcases n o; cbn [CompOpp].
    + rewrite IHo by done. by rewrite (minus_same o new_ old), (minus_same o old new_).
    + change ((fix go (n0 : config_set) := _) new_) with (set_walk (o :: old) new_).
      assert (Forall (λ y, n ≺ y) (o :: old))
        by (constructor; eauto using Forall_lt_trans).
      by rewrite IHn, (minus_new n new_), (minus_skip n (o :: old)).
    + assert (Forall (λ y, o ≺ y) (n :: new_))
        by (constructor; eauto using Forall_lt_trans).
      by rewrite IHo, (minus_new o old), (minus_skip o (n :: new_)).
Qed.

Lemma smem_minus x s t : smem x (minus s t) = smem x s && negb (smem x t).
Proof.
  induction s as [|y s IH]; [done|]. unfold minus in *. simpl.
  destruct (smem y t) eqn:Ey; simpl; rewrite IH; destruct (keqb x y) eqn:E; try done;
    apply keqb_spec in E as ->; rewrite Ey; by destruct (smem y s).
Qed.

Lemma set_ok_spec s : set_ok s = true ↔ ssorted s = true ∧ Forall (λ x, scalar_ok x = true) s.
Proof.
  unfold set_ok. rewrite andb_true_iff, forallb_forall, Forall_forall.
  by setoid_rewrite list_elem_of_In.
Qed.

Lemma as_map_minus s t :
  as_map (minus s t) = List.filter (λ p, negb (smem p.1 t)) (as_map s).
Proof.
  induction s as [|x s IH]; [done|]. unfold minus in *. simpl.
  destruct (smem x t); simpl; [apply IH|]. f_equal. apply IH.
Qed.

Lemma set_ok_minus s t : set_ok s = true → set_ok (minus s t) = true.
Proof.
  rewrite !set_ok_spec. intros [Hs Hf]. split.
  - unfold ssorted in *. rewrite as_map_minus. by apply msorted_filter.
  - rewrite Forall_forall in Hf |- *. intros x Hx. apply Hf.
    apply smem_In. apply smem_In in Hx. rewrite smem_minus in Hx. by destruct (smem x s).
Qed.

Lemma minus_empty s t : minus s t = [] → ∀ x, smem x s = true → smem x t = true.
Proof.
  intros He x Hx. pose proof (smem_minus x s t) as E. rewrite He, Hx in E.
  by destruct (smem x t).
Qed.

(** [diff_set] finds no difference only between equal sets. *)
Lemma diff_set_None old new_ :
  set_ok old = true → set_ok new_ = true → diff_set old new_ = None ↔ old = new_.
Proof.
  rewrite !set_ok_spec. intros [Ho _] [Hn _]. unfold diff_set.
  rewrite set_walk_spec by done. split.
  - destruct (minus new_ old) eqn:E1, (minus old new_) eqn:E2; simpl; try done.
    intros _. apply ssorted_ext; auto. intros x.
    pose proof (minus_empty _ _ E1 x). pose proof (minus_empty _ _ E2 x).
    destruct (smem x old), (smem x new_); naive_solver.
  - intros ->. replace (minus new_ new_) with (@nil scalar); [done|].
    unfold minus. rewrite (List.filter_ext_in _ (λ _, false)); [by rewrite List.filter_false|].
    intros x Hx%list_elem_of_In%smem_In. by rewrite Hx.
Qed.

Lemma diff_set_Some old new_ l :
  ssorted old = true → ssorted new_ = true → diff_set old new_ = Some l →
  l = [BtList (bt_of_scalar <$> minus new_ old); BtList (bt_of_scalar <$> minus old new_)].
Proof.
  intros Ho Hn. unfold diff_set. rewrite set_walk_spec by done.
  destruct (is_nil _ && is_nil _); naive_solver.
Qed.

Lemma mapM_scalar_of_bt xs : mapM scalar_of_bt (bt_of_scalar <$> xs) = Some xs.
Proof.
  apply mapM_Some_2. apply Forall2_fmap_l. induction xs as [|[z|s] xs IH]; by constructor.
Qed.

Lemma diff_set_ok old new_ l :
  set_ok old = true → set_ok new_ = true → diff_set old new_ = Some l →
  diff_ok (BtList l) = true.
Proof.
  intros Ho Hn Hd. pose proof Ho as [Hso _]%set_ok_spec. pose proof Hn as [Hsn _]%set_ok_spec.
  apply diff_set_Some in Hd as ->; [|done..]. simpl. unfold elems_ok.
  rewrite !mapM_scalar_of_bt, !set_ok_minus; done.
Qed.

Section apply_facts.
Context `{BtLib, !BtLaws}.

Lemma get_bt_scalar_of x :
  scalar_ok x = true → get_bt_scalar (bt_of_scalar x) = Ok (Some x).
Proof.
  destruct x as [z|s]; simpl; intros Hok; [|done].
  unfold get_bt_scalar. simpl. by rewrite get_int64_fits.
Qed.

Lemma set_add_of x s :
  scalar_ok x = true → set_add s (bt_of_scalar x) = Ok (sinsert x s).
Proof. intros Hx. unfold set_add. by rewrite get_bt_scalar_of. Qed.

Lemma foldR_set_add xs s :
  Forall (λ x, scalar_ok x = true) xs →
  foldR set_add s (bt_of_scalar <$> xs) = Ok (fold_left (λ s x, sinsert x s) xs s).
Proof.
  intros Hf; revert s; induction Hf as [|x xs Hx Hf IH]; intros s; [done|].
  rewrite fmap_cons. cbn [foldR]. rewrite set_add_of by done. apply IH.
Qed.

Lemma set_remove_of x s :
  scalar_ok x = true → set_remove s (bt_of_scalar x) = Ok (serase x s).
Proof. intros Hx. unfold set_remove. by rewrite get_bt_scalar_of. Qed.

Lemma foldR_set_remove xs s :
  Forall (λ x, scalar_ok x = true) xs →
  foldR set_remove s (bt_of_scalar <$> xs) = Ok (fold_left (λ s x, serase x s) xs s).
Proof.
  intros Hf; revert s; induction Hf as [|x xs Hx Hf IH]; intros s; [done|].
  rewrite fmap_cons. cbn [foldR]. rewrite set_remove_of by done. apply IH.
Qed.

(** A set diff turns the old set into the new one, and keeps the new one. *)
Lemma apply_set_diff_round old new_ l cur :
  set_ok old = true → set_ok new_ = true → diff_set old new_ = Some l →
  cur = old ∨ cur = new_ → apply_set_diff l cur = Ok new_.
Proof.
  intros Ho Hn Hd Hcur.
  pose proof (set_ok_minus new_ old Hn) as [_ Ha]%set_ok_spec.
  pose proof (set_ok_minus old new_ Ho) as [_ Hr]%set_ok_spec.
  apply set_ok_spec in Ho as [Ho _]. apply set_ok_spec in Hn as [Hn _].
  apply diff_set_Some in Hd as ->; [|done..]. unfold apply_set_diff. simpl.
  rewrite foldR_set_add by done. simpl. rewrite foldR_set_remove by done.
  assert (ssorted cur = true) by by destruct Hcur as [->| ->].
  f_equal. apply ssorted_ext; auto with ordmap.
  intros x. rewrite sfold_erase, sfold_insert, !smem_minus.
  destruct Hcur as [->| ->]; by destruct (smem x old), (smem x new_).
Qed.

(** ** The loop of [apply_diff], key by key *)
Lemma mfind_mupdate k j new data :
  mfind j (mupdate k new data) = if keqb j k then new else mfind j data.
Proof. destruct new; simpl; [apply mfind_insert|apply mfind_erase]. Qed.

Lemma msorted_mupdate k new data :
  msorted data = true → msorted (mupdate k new data) = true.
Proof. destruct new; simpl; auto with ordmap. Qed.

Lemma apply_value_gone v cur : apply_value v cur None = Ok None.
Proof. by destruct v. Qed.

Lemma apply_value_dict diff cur source :
  apply_value (BtDict diff) cur (Some (DDict source)) =
    (r ← apply_diff (match cur with Some (DDict d) => d | _ => [] end) diff source;
     Ok (Some (DDict r))).
Proof.
  simpl. f_equal. generalize (match cur with Some (DDict d) => d | _ => [] end).
  induction diff as [|[k v] diff IH]; intros data; simpl; [done|].
  destruct (apply_value v _ _); simpl; [apply IH|done].
Qed.

Lemma apply_diff_spec data diff source (f : bytes → option dict_value) :
  msorted data = true → msorted diff = true →
  (∀ k v, mfind k diff = Some v →
     apply_value v (mfind k data) (mfind k source) = Ok (f k)) →
  ∃ r, apply_diff data diff source = Ok r ∧ msorted r = true ∧
    ∀ k, mfind k r = match mfind k diff with Some _ => f k | None => mfind k data end.
Proof.
  revert data; induction diff as [|[k v] diff IH]; intros data Hs Hd Hf; simpl.
  - eauto.
  - apply msorted_cons in Hd as [Hb Hd].
    pose proof (Hf k v) as Hk. simpl in Hk. rewrite keqb_refl in Hk.
    rewrite (Hk eq_refl). simpl.
    destruct (IH (mupdate k (f k) data)) as (r & Hr & Hrs & Hrf);
      [by apply msorted_mupdate|done| |].
    + intros j w Hj. assert (j ≠ k).
      { intros ->. by rewrite mfind_below in Hj. }
      specialize (Hf j w). simpl in Hf. rewrite mfind_mupdate.
      destruct (keqb j k) eqn:E; [by apply keqb_spec in E|auto].
    + exists r. split_and!; [done..|]. intros j. rewrite Hrf, mfind_mupdate.
      destruct (keqb j k) eqn:E; [|done]. apply keqb_spec in E as ->.
      by rewrite mfind_below.
Qed.
End apply_facts.

(** ** Diff then apply *)
Section round.
Context `{BtLib, !BtLaws}.

Definition round_ok (rec : dict → dict → result (option bt_dict)) (n : nat) : Prop :=
  ∀ old new_, dict_ok old = true → dict_ok new_ = true →
    dict_pruned old = true → dict_pruned new_ = true →
    (ddepth old ≤ n)%nat → (ddepth new_ ≤ n)%nat →
    ∃ od, rec old new_ = Ok od ∧ (od = None ↔ old = new_) ∧
      diff_ok (BtDict (default [] od)) = true ∧
      apply_diff old (default [] od) new_ = Ok new_ ∧
      apply_diff new_ (default [] od) new_ = Ok new_.

Context (rec : dict → dict → result (option bt_dict)) (n : nat).
Context (Hrec : round_ok rec n).

Definition entry_ok (v : dict_value) : Prop :=
  value_ok v = true ∧ value_pruned v = true ∧ (vdepth v ≤ n)%nat.

Lemma empty_depth v : entry_ok (DDict v) → (ddepth [] ≤ n)%nat.
Proof. intros (_ & _ & Hd). simpl in Hd. unfold ddepth. simpl. lia. Qed.

Lemma diff_removed_round v :
  entry_ok v → ∃ w, diff_removed rec v = Ok (Some w) ∧ diff_ok w = true.
Proof.
  intros Hv. destruct v as [d|s|x]; simpl; [| |eauto].
  - pose proof (empty_depth _ Hv). destruct Hv as (Hok & [Hne Hp]%value_pruned_dict & Hd).
    destruct (Hrec d []) as ([df|] & -> & Heq & Hdf & _); try done; simpl; [eauto|].
    destruct Heq as [Heq _]. by specialize (Heq eq_refl).
  - destruct Hv as (Hok & Hp & _).
    destruct (diff_set s []) as [l|] eqn:E; simpl.
    + exists (BtList l). split; [done|]. by apply (diff_set_ok s []).
    + apply diff_set_None in E as ->; done.
Qed.

(** An added value is taken from the source whatever the data held, unless
    that was another value of the same kind. *)
Lemma diff_added_round v :
  entry_ok v →
  ∃ w, diff_added rec v = Ok (Some w) ∧ diff_ok w = true ∧
    ∀ cur, (∀ c, cur = Some c → dv_index c ≠ dv_index v ∨ c = v) →
      apply_value w cur (Some v) = Ok (Some v).
Proof.
  intros Hv. destruct v as [d|s|x]; cbn [diff_added].
  - pose proof (empty_depth _ Hv). destruct Hv as (Hok & [Hne Hp]%value_pruned_dict & Hd).
    destruct (Hrec [] d) as ([df|] & -> & Heq & Hdf & Ha & Ha'); try done; simpl in *.
    + eexists; split_and!; [done..|]. intros cur Hcur. rewrite (apply_value_dict df cur d).
      destruct cur as [[d'| |]|]; try by rewrite Ha.
      destruct (Hcur _ eq_refl) as [|[= ->]]; [done|by rewrite Ha'].
    + destruct Heq as [Heq _]. by specialize (Heq eq_refl).
  - destruct Hv as (Hok & Hp & _).
    destruct (diff_set [] s) as [l|] eqn:E; simpl.
    + exists (BtList l). split_and!; [done|by apply (diff_set_ok [] s)|]. simpl.
      intros cur Hcur. rewrite (apply_set_diff_round [] s); try done.
      destruct cur as [[|s'|]|]; auto. destruct (Hcur _ eq_refl) as [|[= ->]]; [done|auto].
    + apply diff_set_None in E as <-; done.
  - exists (BtStr ""). by split_and!.
Qed.

Lemma diff_both_round o v :
  entry_ok o → entry_ok v →
  ∃ oc, diff_both rec o v = Ok oc ∧ (oc = None ↔ o = v) ∧
    ∀ w, oc = Some w → diff_ok w = true ∧
      ∀ cur, cur = o ∨ cur = v → apply_value w (Some cur) (Some v) = Ok (Some v).
Proof.
  intros Ho Hv. destruct (decide (dv_index o = dv_index v)) as [Hi|Hi].
  - destruct o as [d|s|x], v as [d'|s'|x']; try done; cbn [diff_both].
    + destruct Ho as (Hok & [_ Hp]%value_pruned_dict & Hd),
        Hv as (Hok' & [_ Hp']%value_pruned_dict & Hd').
      destruct (Hrec d d') as (od & -> & Heq & Hdf & Ha & Ha'); try done; simpl.
      exists (option_map BtDict od). split; [done|]. split.
      * split; [destruct od; naive_solver|]. intros [= ->].
        destruct od; [|done]. by destruct Heq as [_ ->].
      * intros w Hw. destruct od as [df|]; [|done]. injection Hw as <-. split; [done|].
        intros cur Hcur. rewrite (apply_value_dict df (Some cur) d').
        simpl in Ha, Ha'. by destruct Hcur as [->| ->]; [rewrite Ha|rewrite Ha'].
    + destruct Ho as (Hok & _ & _), Hv as (Hok' & _ & _).
      exists (option_map BtList (diff_set s s')). split; [done|].
      pose proof (diff_set_None s s' Hok Hok') as Heq. split.
      * destruct (diff_set s s'); simpl; naive_solver.
      * intros w Hw. destruct (diff_set s s') as [l|] eqn:E; [|done]. injection Hw as <-.
        split; [by apply (diff_set_ok s s')|]. intros cur Hcur. simpl.
        rewrite (apply_set_diff_round s s'); try done. by destruct Hcur as [->| ->]; auto.
    + destruct (keqb x x') eqn:E; eexists; split; try done.
      * apply keqb_spec in E as ->. naive_solver.
      * split; [split; [done|]|naive_solver]. intros [= ->]. by rewrite keqb_refl in E.
  - destruct (diff_added_round v Hv) as (w & Hw & Hwok & Ha).
    exists (Some w). split; [destruct o, v; try done; by rewrite <-Hw|].
    split; [split; [done|by intros ->]|]. intros ? [= <-]. split; [done|].
    intros cur Hcur. apply Ha. intros c [= <-]. destruct Hcur as [->| ->]; auto.
Qed.
End round.

(** The value the walk compares at a key, from the two dictionaries. *)
Lemma dict_entry_ok n d k v :
  dict_ok d = true → dict_pruned d = true → (ddepth d ≤ S n)%nat →
  mfind k d = Some v → entry_ok n v.
Proof.
  intros Hok Hp Hd Hf. split_and!; eauto with ordmap.
  pose proof (vdepth_find _ _ _ Hf). lia.
Qed.

Lemma diff_ok_dict d :
  diff_ok (BtDict d) = true ↔ msorted d = true ∧ ∀ k v, (k, v) ∈ d → diff_ok v = true.
Proof.
  simpl. rewrite andb_true_iff, forallb_forall. setoid_rewrite <-list_elem_of_In.
  split; intros [Hs Hf]; split; auto.
  - intros k v. apply (Hf (k, v)).
  - intros [k v]. apply Hf.
Qed.

Section round_trip.
Context `{BtLib, !BtLaws}.

(** The per-key facts of the walk that make up the round trip. *)
Lemma walk_round rec n old new_ df :
  round_ok rec n → dict_ok old = true → dict_ok new_ = true →
  dict_pruned old = true → dict_pruned new_ = true →
  (ddepth old ≤ S n)%nat → (ddepth new_ ≤ S n)%nat →
  walk2 (λ _, diff_removed rec) (λ _, diff_added rec) (λ _, diff_both rec) old new_ = Ok df →
  msorted df = true ∧
  ∀ k, match mfind k df with
       | Some w => diff_ok w = true ∧ mfind k old ≠ mfind k new_ ∧
                   ∀ cur, cur = mfind k old ∨ cur = mfind k new_ →
                     apply_value w cur (mfind k new_) = Ok (mfind k new_)
       | None => mfind k old = mfind k new_
       end.
Proof.
  intros Hrec Ho Hn Hpo Hpn Hdo Hdn Hw.
  apply walk2_spec in Hw as [Hs Hk]; [|by apply dict_ok_sorted..].
  split; [done|]. intros k. specialize (Hk k).
  destruct (mfind k old) as [o|] eqn:Eo, (mfind k new_) as [v|] eqn:En; simpl in Hk.
  - destruct (diff_both_round rec n Hrec o v) as (oc & Hoc & Heq & Hw);
      [by apply (dict_entry_ok n old k)|by apply (dict_entry_ok n new_ k)|]. rewrite Hoc in Hk. inv_result.
    destruct (mfind k df) as [w|]; [|by rewrite (proj1 Heq eq_refl)].
    destruct (Hw w eq_refl) as [Hwok Ha]. split_and!; auto.
    + intros [= ->]. by pose proof (proj2 Heq eq_refl).
    + intros cur [->| ->]; auto.
  - destruct (diff_removed_round rec n Hrec o) as (w & Hw & Hok);
      [by apply (dict_entry_ok n old k)|]. rewrite Hw in Hk. injection Hk as <-.
    split_and!; [done..|]. intros cur _. by rewrite apply_value_gone.
  - destruct (diff_added_round rec n Hrec v) as (w & Hw & Hok & Ha);
      [by apply (dict_entry_ok n new_ k)|]. rewrite Hw in Hk. injection Hk as <-.
    split_and!; [done..|]. intros cur Hcur. apply Ha. intros c ->.
    right. by destruct Hcur as [|[= ->]].
  - injection Hk as <-. done.
Qed.

Lemma apply_diff_walk old new_ df data :
  msorted df = true → msorted data = true → msorted new_ = true →
  (∀ k, match mfind k df with
        | Some w => diff_ok w = true ∧ mfind k old ≠ mfind k new_ ∧
                    ∀ cur, cur = mfind k old ∨ cur = mfind k new_ →
                      apply_value w cur (mfind k new_) = Ok (mfind k new_)
        | None => mfind k old = mfind k new_
        end) →
  data = old ∨ data = new_ → apply_diff data df new_ = Ok new_.
Proof.
  intros Hs Hd Hn Hk Hdata.
  destruct (apply_diff_spec data df new_ (λ k, mfind k new_)) as (r & Hr & Hrs & Hrf);
    [done..| |].
  - intros k w Hf. specialize (Hk k). rewrite Hf in Hk.
    destruct Hk as (_ & _ & Hk), Hdata as [->| ->]; auto.
  - rewrite Hr. f_equal. apply msorted_ext; auto.
    intros k. rewrite Hrf. specialize (Hk k).
    destruct (mfind k df), Hdata as [->| ->]; naive_solver.
Qed.

Lemma diff_dict_round n : round_ok (diff_dict n) n.
Proof.
  induction n as [|n IH]; intros old new_ Ho Hn Hpo Hpn Hdo Hdn.
  { unfold ddepth in Hdo. simpl in Hdo. lia. }
  cbn [diff_dict].
  destruct (walk2_total (λ _, diff_removed (diff_dict n)) (λ _, diff_added (diff_dict n))
              (λ _, diff_both (diff_dict n)) old new_) as [df Hdf].
  { intros k o Hin. destruct (diff_removed_round _ n IH o) as (w & -> & _); [|done].
    apply (dict_entry_ok n old k); auto. apply mfind_In; auto with ordmap. }
  { intros k v Hin. destruct (diff_added_round _ n IH v) as (w & -> & _); [|done].
    apply (dict_entry_ok n new_ k); auto. apply mfind_In; auto with ordmap. }
  { intros k o v Hino Hinv. destruct (diff_both_round _ n IH o v) as (w & -> & _); [..|done].
    - apply (dict_entry_ok n old k); auto. apply mfind_In; auto with ordmap.
    - apply (dict_entry_ok n new_ k); auto. apply mfind_In; auto with ordmap. }
  rewrite Hdf. simpl mbind.
  destruct (walk_round _ n _ _ _ IH Ho Hn Hpo Hpn Hdo Hdn Hdf) as [Hs Hk].
  exists (if is_nil df then None else Some df).
  assert (default [] (if is_nil df then None else Some df) = df) as -> by by destruct df.
  split; [done|]. split_and!.
  - split; intros Heq.
    + destruct df; [|done]. apply msorted_ext; auto using dict_ok_sorted.
    + subst. destruct df as [|[k w] df]; [done|]. specialize (Hk k). simpl in Hk.
      rewrite keqb_refl in Hk. naive_solver.
  - apply diff_ok_dict. split; [done|]. intros k v Hin.
    apply mfind_In in Hin; [|done]. specialize (Hk k). rewrite Hin in Hk. naive_solver.
  - apply (apply_diff_walk old new_ df); auto using dict_ok_sorted.
  - apply (apply_diff_walk old new_ df); auto using dict_ok_sorted.
Qed.

Lemma diff_impl_round old new_ :
  dict_ok old = true → dict_ok new_ = true →
  dict_pruned old = true → dict_pruned new_ = true →
  ∃ od, diff_impl old new_ = Ok od ∧ (od = None ↔ old = new_) ∧
    diff_ok (BtDict (default [] od)) = true ∧
    apply_diff old (default [] od) new_ = Ok new_ ∧
    apply_diff new_ (default [] od) new_ = Ok new_.
Proof. intros. apply diff_dict_round; auto; lia. Qed.

(** The diff key by key: a key is mentioned iff its value changed, and what
    is recorded for it turns the old value into the new one. *)
Lemma diff_impl_keys old new_ :
  dict_ok old = true → dict_ok new_ = true →
  dict_pruned old = true → dict_pruned new_ = true →
  ∃ od, diff_impl old new_ = Ok od ∧ diff_ok (BtDict (default [] od)) = true ∧
    ∀ k, match mfind k (default [] od) with
         | Some w => diff_ok w = true ∧ mfind k old ≠ mfind k new_ ∧
                     ∀ cur, cur = mfind k old ∨ cur = mfind k new_ →
                       apply_value w cur (mfind k new_) = Ok (mfind k new_)
         | None => mfind k old = mfind k new_
         end.
Proof.
  intros Ho Hn Hpo Hpn. unfold diff_impl.
  destruct (Nat.max (ddepth old) (ddepth new_)) as [|n] eqn:En.
  { unfold ddepth in En. simpl in En. lia. }
  destruct (diff_dict_round (S n) old new_) as (od & Hd & _ & Hok & _); try done; try lia.
  exists od. split_and!; [done..|]. cbn [diff_dict] in Hd. inv_result.
  apply (walk_round _ n) in E as [_ Hk]; [by destruct a|..]; try done; try lia.
  apply diff_dict_round.
Qed.
End round_trip.

(** ** Loading well-formed diffs *)
Lemma elems_ok_inv l : elems_ok l = true → ∃ xs, l = bt_of_scalar <$> xs ∧ set_ok xs = true.
Proof.
  unfold elems_ok. destruct (mapM scalar_of_bt l) as [xs|] eqn:E; [|done].
  intros Hok. exists xs. split; [|done]. clear Hok.
  apply mapM_Some_1 in E. induction E as [|v x l xs Hv _ IH]; [done|].
  rewrite fmap_cons, <-IH. f_equal. destruct v; naive_solver.
Qed.

Lemma diff_ok_list_inv l :
  diff_ok (BtList l) = true →
  ∃ a r, l = [BtList (bt_of_scalar <$> a); BtList (bt_of_scalar <$> r)] ∧
         set_ok a = true ∧ set_ok r = true.
Proof.
  simpl. repeat case_match; try done. intros [Ha Hr]%andb_true_iff.
  apply elems_ok_inv in Ha as (a & -> & Ha), Hr as (r & -> & Hr). eauto 6.
Qed.

Lemma bt_canon_scalars xs :
  set_ok xs = true → bt_canon (BtList (bt_of_scalar <$> xs)) = true.
Proof.
  intros [_ Hf]%set_ok_spec. simpl. apply forallb_forall. intros v Hv%list_elem_of_In.
  apply list_elem_of_fmap in Hv as (x & -> & Hx). rewrite Forall_forall in Hf.
  specialize (Hf x Hx). destruct x; simpl in *; [|done]. by rewrite Hf.
Qed.

Section load_facts.
Context `{BtLib, !BtLaws}.

Lemma get_bt_int_of x :
  scalar_ok x = true →
  get_bt_int (bt_of_scalar x) = Ok (match x with inl z => Some z | inr _ => None end).
Proof. destruct x; simpl; [|done]. intros Hx. by rewrite get_int64_fits. Qed.

Lemma check_scalar_order_lt x y :
  scalar_ok x = true → scalar_ok y = true → x ≺ y →
  check_scalar_order (bt_of_scalar x) (bt_of_scalar y) = Ok tt.
Proof.
  intros Hx Hy Hlt. unfold check_scalar_order. rewrite !get_bt_int_of by done.
  destruct x as [z|s], y as [z'|s']; simpl in *; try done.
  - apply Z.compare_lt_iff, Z.ltb_lt in Hlt. by rewrite Hlt.
  - unfold klt. simpl. by rewrite Hlt.
Qed.

Lemma check_sorted_ok xs : set_ok xs = true → check_sorted (bt_of_scalar <$> xs) = Ok tt.
Proof.
  intros [Hs Hf]%set_ok_spec. induction xs as [|x xs IH]; [done|].
  apply ssorted_cons in Hs as [Hlt Hs]. apply Forall_cons in Hf as [Hx Hf].
  destruct xs as [|y xs]; [done|]. apply Forall_cons in Hlt as [Hxy _].
  rewrite !fmap_cons in *. cbn [check_sorted].
  rewrite check_scalar_order_lt; [|done|by apply Forall_cons in Hf as [? _]|done].
  by apply IH.
Qed.

Lemma mlast_app (acc : bt_dict) k v : mlast (acc ++ [(k, v)]) = Some k.
Proof. unfold mlast. by rewrite last_snoc. Qed.

Lemma mlast_below (acc d : bt_dict) k v :
  msorted (acc ++ (k, v) :: d) = true →
  match mlast acc with Some k' => negb (kle k k') | None => true end = true.
Proof.
  intros Hs. destruct acc as [|[k' v'] acc _] using rev_ind; [done|].
  rewrite mlast_app. rewrite <-app_assoc in Hs. simpl in Hs.
  assert (k' ≺ k) as Hlt.
  { clear -Hs. induction acc as [|p acc IH]; simpl in Hs.
    - apply msorted_cons in Hs as [Hf _]. by apply Forall_cons in Hf as [? _].
    - destruct p. apply IH. by apply msorted_tail in Hs. }
  rewrite <-klt_negb_kle. by apply klt_spec.
Qed.

(** One turn of the loop at a well-formed entry in order *)
Lemma load_diff_step n k v rest tl acc :
  diff_ok v = true → msorted (acc ++ (k, v) :: tl) = true →
  load_diff_loop (S n) ((k, v) :: rest) acc =
    match v with
    | BtDict sub =>
        sub' ← load_diff_loop n sub []; load_diff_loop n rest (acc ++ [(k, BtDict sub')])
    | _ => load_diff_loop n rest (acc ++ [(k, v)])
    end.
Proof.
  intros Hv Hs. cbn [load_diff_loop]. rewrite (mlast_below acc tl k v Hs).
  cbn [require mbind result_bind]. destruct v as [mode|z|l|sub]; [|done| |done].
  - cbn [diff_ok] in Hv. by rewrite Hv.
  - apply diff_ok_list_inv in Hv as (a & r & -> & Ha & Hr). rewrite consume_value_canon.
    + cbn [mbind result_bind check_set_diff check_sublist]. by rewrite !check_sorted_ok.
    + cbn [bt_canon forallb]. rewrite !andb_true_iff. split_and!; try done;
        by apply bt_canon_scalars.
Qed.

Lemma msorted_rekey (acc : bt_dict) k v w tl :
  msorted (acc ++ (k, v) :: tl) = true → msorted ((acc ++ [(k, w)]) ++ tl) = true.
Proof.
  rewrite <-app_assoc. simpl. induction acc as [|[k' v'] acc IH]; simpl app;
    rewrite !msorted_cons; [done|].
  intros [Hf Hs]. split; [|auto]. apply Forall_app in Hf as [? Hf].
  apply Forall_cons in Hf as [? ?]. apply Forall_app. by split; [|constructor].
Qed.

Lemma diff_ok_cons k v d :
  diff_ok (BtDict ((k, v) :: d)) = true → diff_ok v = true ∧ diff_ok (BtDict d) = true.
Proof.
  rewrite !diff_ok_dict. intros [Hs Hok]. split; [apply (Hok k), elem_of_cons; by left|].
  split; [by eapply msorted_tail|]. intros k' v' Hin. apply (Hok k'), elem_of_cons. by right.
Qed.

(** A well-formed prefix is read entry by entry, as far as the fuel goes. *)
Lemma load_diff_loop_wf n pre tl rest acc :
  diff_ok (BtDict pre) = true → msorted (acc ++ pre ++ tl) = true →
  (∃ n', (n' ≤ n)%nat ∧ load_diff_loop n (pre ++ rest) acc = load_diff_loop n' rest (acc ++ pre) ∧
     ((bt_size (BtDict pre) ≤ n)%nat → rest = [] → (0 < n')%nat)) ∨
  (load_diff_loop n (pre ++ rest) acc = Throw out_of_fuel ∧ (n < bt_size (BtDict pre))%nat).
Proof.
  revert pre tl rest acc; induction n as [|n IH]; intros pre tl rest acc Hok Hs.
  { right. split; [done|simpl; lia]. }
  destruct pre as [|[k v] pre].
  { left. exists (S n). rewrite app_nil_r. split_and!; [lia|done|lia]. }
  apply diff_ok_cons in Hok as [Hv Hok].
  change (((k, v) :: pre) ++ rest) with ((k, v) :: (pre ++ rest)).
  rewrite (load_diff_step n k v _ (pre ++ tl) acc) by done.
  assert (∀ w, w = v →
    (∃ n', (n' ≤ S n)%nat ∧
       load_diff_loop n (pre ++ rest) (acc ++ [(k, w)]) = load_diff_loop n' rest (acc ++ (k, v) :: pre) ∧
       ((bt_size (BtDict ((k, v) :: pre)) ≤ S n)%nat → rest = [] → (0 < n')%nat)) ∨
    (load_diff_loop n (pre ++ rest) (acc ++ [(k, w)]) = Throw out_of_fuel ∧
       (S n < bt_size (BtDict ((k, v) :: pre)))%nat)) as Hrest.
  { intros w ->. destruct (IH pre tl rest (acc ++ [(k, v)]) Hok) as [(n' & Hn & -> & Hf)|[-> Hf]].
    - by eapply (msorted_rekey _ _ _ v).
    - left. exists n'. rewrite <-app_assoc. split_and!; [lia|done|].
      intros Hsz. apply Hf. simpl in *; lia.
    - right. split; [done|]. simpl in *; lia. }
  destruct v as [mode|z|l|sub]; [by apply Hrest|done|by apply Hrest|].
  destruct (IH sub [] [] [] Hv) as [(n' & Hn & E & Hf)|[E Hf]].
  { rewrite app_nil_r. by apply diff_ok_dict in Hv as [? _]. }
  - rewrite app_nil_r in E. rewrite E. destruct n' as [|n']; [|by apply Hrest].
    cbn [load_diff_loop mbind result_bind]. right. split; [done|].
    destruct (decide (bt_size (BtDict sub) ≤ n)%nat) as [Hsz|]; [|simpl in *; lia].
    specialize (Hf Hsz eq_refl). lia.
  - rewrite app_nil_r in E. rewrite E. right. split; [done|]. simpl in *; lia.
Qed.

Lemma load_diff_loop_ok n d acc :
  (bt_size (BtDict d) ≤ n)%nat → diff_ok (BtDict d) = true →
  msorted (acc ++ d) = true → load_diff_loop n d acc = Ok (acc ++ d).
Proof.
  intros Hn Hok Hs. destruct (load_diff_loop_wf n d [] [] acc Hok) as [(n' & _ & E & Hf)|[_ ?]].
  - by rewrite app_nil_r.
  - rewrite app_nil_r in E. rewrite E. specialize (Hf Hn eq_refl). by destruct n'; [lia|].
  - lia.
Qed.

Lemma load_diff_ok d : diff_ok (BtDict d) = true → load_diff d = Ok d.
Proof.
  intros Hok. unfold load_diff. rewrite load_diff_loop_ok; [done..|].
  by apply diff_ok_dict in Hok as [? _].
Qed.

(** (diff and apply): for well-formed, pruned data the diff is computed
    without undefined behaviour and within the depth fuel; it is empty
    exactly when nothing changed; the loader accepts it unchanged; and
    applying it to the old data, with the new data as source, reproduces
    the new data, and applying it to the new data changes nothing. *)
Theorem diff_apply_roundtrip old new_ :
  dict_ok old = true → dict_ok new_ = true →
  dict_pruned old = true → dict_pruned new_ = true →
  ∃ od, diff_impl old new_ = Ok od ∧
    (od = None ↔ old = new_) ∧
    load_diff (default [] od) = Ok (default [] od) ∧
    apply_diff old (default [] od) new_ = Ok new_ ∧
    apply_diff new_ (default [] od) new_ = Ok new_.
Proof.
  intros Ho Hn Hpo Hpn.
  destruct (diff_impl_round old new_ Ho Hn Hpo Hpn) as (od & Hd & Heq & Hok & Ha & Ha').
  exists od. split_and!; auto using load_diff_ok.
Qed.
End load_facts.

Lemma diff_apply_roundtrip_witness :
  let old := [("a", DScalar (SInt 1)); ("s", DSet [SInt 1; SInt 2]); ("x", DDict [("y", DScalar (SStr "q"))])] in
  let new_ := [("s", DSet [SInt 2; SStr "z"]); ("x", DScalar (SInt 7))] in
  ∃ od, diff_impl old new_ = Ok od ∧ (od = None ↔ old = new_) ∧
    load_diff (default [] od) = Ok (default [] od) ∧
    apply_diff old (default [] od) new_ = Ok new_ ∧
    apply_diff new_ (default [] od) new_ = Ok new_.
Proof.
  apply (diff_apply_roundtrip
    [("a", DScalar (SInt 1)); ("s", DSet [SInt 1; SInt 2]); ("x", DDict [("y", DScalar (SStr "q"))])]
    [("s", DSet [SInt 2; SStr "z"]); ("x", DScalar (SInt 7))]); reflexivity.
Defined.

(** ** Integers in a diff

    [load_diff] has no branch for an integer: it consumes nothing and goes
    around again. [has_integer] finds one anywhere in the diff;
    [stuck_at_integer] says in addition that what comes before it is
    well-formed, so that no exception is thrown first. *)
Fixpoint value_has_integer (v : bt_value) : bool :=
  match v with
  | BtInt _ => true
  | BtDict d => existsb (λ p, value_has_integer p.2) d
  | _ => false
  end.

Definition has_integer (d : bt_dict) : bool := existsb (λ p, value_has_integer p.2) d.

Inductive stuck_at_integer : bt_dict → Prop :=
  | stuck_here pre k z rest :
      diff_ok (BtDict pre) = true → msorted (pre ++ [(k, BtInt z)]) = true →
      stuck_at_integer (pre ++ (k, BtInt z) :: rest)
  | stuck_inside pre k sub rest :
      diff_ok (BtDict pre) = true → msorted (pre ++ [(k, BtDict sub)]) = true →
      stuck_at_integer sub → stuck_at_integer (pre ++ (k, BtDict sub) :: rest).

Section integers.
Context `{BtLib, !BtLaws}.

Lemma load_diff_loop_integer fuel d acc r :
  has_integer d = true → load_diff_loop fuel d acc ≠ Ok r.
Proof.
  revert d acc r; induction fuel as [|fuel IH]; intros d acc r Hi; [done|].
  destruct d as [|[k v] d]; [done|]. cbn [load_diff_loop].
  destruct (require _ _) as [[]|]; [|done]. cbn [mbind result_bind].
  unfold has_integer in Hi. cbn [existsb snd] in Hi. apply orb_true_iff in Hi.
  destruct v as [mode|z|l|sub].
  - destruct Hi as [|Hi]; [done|]. destruct (require _ _) as [[]|]; [|done]. by apply IH.
  - by apply IH.
  - destruct Hi as [|Hi]; [done|]. destruct (consume_value _) as [c|]; [|done].
    cbn [mbind result_bind]. destruct (check_set_diff c) as [[]|]; [|done]. by apply IH.
  - destruct (load_diff_loop fuel sub []) as [sub'|] eqn:E; [|done].
    destruct Hi as [Hi|Hi]; [by apply IH in E|]. by apply IH.
Qed.

Lemma load_diff_loop_at_integer n k z rest acc :
  msorted (acc ++ [(k, BtInt z)]) = true →
  load_diff_loop n ((k, BtInt z) :: rest) acc = Throw out_of_fuel.
Proof.
  intros Hs. induction n as [|n IH]; [done|]. cbn [load_diff_loop].
  by rewrite (mlast_below acc [] k (BtInt z) Hs).
Qed.

Lemma load_diff_loop_stuck fuel d :
  stuck_at_integer d → load_diff_loop fuel d [] = Throw out_of_fuel.
Proof.
  intros Hst. revert fuel.
  induction Hst as [pre k z rest Hok Hs|pre k sub rest Hok Hs Hsub IH]; intros fuel;
    [destruct (load_diff_loop_wf fuel pre [(k, BtInt z)] ((k, BtInt z) :: rest) [] Hok Hs)
       as [(n' & _ & -> & _)|[-> _]]
    |destruct (load_diff_loop_wf fuel pre [(k, BtDict sub)] ((k, BtDict sub) :: rest) [] Hok Hs)
       as [(n' & _ & -> & _)|[-> _]]]; [|done| |done].
  - by apply load_diff_loop_at_integer.
  - destruct n' as [|n']; [done|]. cbn [load_diff_loop app]. rewrite (mlast_below pre [] k _ Hs).
    cbn [require mbind result_bind]. by rewrite IH.
Qed.

(** Without an integer the fuel of [load_diff] is all the loop needs. *)
Lemma load_diff_loop_enough n m d acc :
  has_integer d = false → (bt_size (BtDict d) ≤ n)%nat → (n ≤ m)%nat →
  load_diff_loop m d acc = load_diff_loop n d acc.
Proof.
  revert m d acc; induction n as [|n IH]; intros m d acc Hi Hn Hm; [simpl in Hn; lia|].
  destruct m as [|m]; [lia|]. destruct d as [|[k v] d]; [done|]. cbn [load_diff_loop].
  destruct (require _ _) as [[]|]; [|done]. cbn [mbind result_bind].
  unfold has_integer in Hi. cbn [existsb snd] in Hi. apply orb_false_iff in Hi as [Hv Hd].
  assert (∀ acc, load_diff_loop m d acc = load_diff_loop n d acc) as Hrest.
  { intros acc'. apply IH; [done|simpl in *; lia..]. }
  destruct v as [mode|z|l|sub]; [|done| |].
  - destruct (require _ _) as [[]|]; [|done]. apply Hrest.
  - destruct (consume_value _) as [c|]; [|done]. cbn [mbind result_bind].
    destruct (check_set_diff c) as [[]|]; [|done]. apply Hrest.
  - rewrite (IH m sub []); [|done|simpl in *; lia..].
    destruct (load_diff_loop n sub []); [apply Hrest|done].
Qed.

End integers.

