(* ===== verification/ConfigMessage.v ===== *)
(** * Config messages

    [ConfigMessage] and [MutableConfigMessage] of [include/bchat/config.hpp]
    and [src/config.cpp]: parsing, serialization, signatures, incrementing and
    the conflict-resolving merge of several messages. *)

From Stdlib Require Import ZArith String Lia.
From stdpp Require Import base option list strings numbers sorting sets.
From S2P Require Import Prelude OrderedMap Bt Bencode Crypto ConfigData ConfigDiff.

(** [seqno_hash_t], compared lexicographically *)
Abbreviation seqno_hash_t := (Z * bytes)%type.

Abbreviation verify_callable := (option (bytes → bytes → bool)).
Abbreviation sign_callable := (option (bytes → result bytes)).

Record ConfigMessage := mkConfigMessage {
  data_ : dict;
  diff_ : bt_dict;
  lagged_diffs_ : list (seqno_hash_t * bt_dict);
  unknown_ : bt_dict;
  seqno_hash_ : seqno_hash_t;
  verified_signature_ : option bytes;
  unmerged_ : option nat;
  verifier : verify_callable;
  signer : sign_callable;
  lag : Z;
}.

Record MutableConfigMessage := mkMutable {
  base : ConfigMessage;
  orig_data_ : dict;
}.

(** What a [std::unique_ptr<ConfigMessage>] points to. *)
Inductive AnyMessage :=
  | Immutable (m : ConfigMessage)
  | Mutable (m : MutableConfigMessage).

Definition as_base (a : AnyMessage) : ConfigMessage :=
  match a with Immutable m => m | Mutable m => base m end.

Definition DEFAULT_DIFF_LAGS : Z := 5.

Definition seqno (m : ConfigMessage) : Z := (seqno_hash_ m).1.

(** [merged()]: no index of a single used config *)
Definition merged (m : ConfigMessage) : bool :=
  match unmerged_ m with Some _ => false | None => true end.

(** Field updates *)
Definition with_data (d : dict) (m : ConfigMessage) : ConfigMessage :=
  mkConfigMessage d (diff_ m) (lagged_diffs_ m) (unknown_ m) (seqno_hash_ m)
    (verified_signature_ m) (unmerged_ m) (verifier m) (signer m) (lag m).
Definition with_diff (d : bt_dict) (m : ConfigMessage) : ConfigMessage :=
  mkConfigMessage (data_ m) d (lagged_diffs_ m) (unknown_ m) (seqno_hash_ m)
    (verified_signature_ m) (unmerged_ m) (verifier m) (signer m) (lag m).
Definition with_lagged (l : list (seqno_hash_t * bt_dict)) (m : ConfigMessage) : ConfigMessage :=
  mkConfigMessage (data_ m) (diff_ m) l (unknown_ m) (seqno_hash_ m)
    (verified_signature_ m) (unmerged_ m) (verifier m) (signer m) (lag m).
Definition with_seqno_hash (sh : seqno_hash_t) (m : ConfigMessage) : ConfigMessage :=
  mkConfigMessage (data_ m) (diff_ m) (lagged_diffs_ m) (unknown_ m) sh
    (verified_signature_ m) (unmerged_ m) (verifier m) (signer m) (lag m).
Definition with_verified (s : option bytes) (m : ConfigMessage) : ConfigMessage :=
  mkConfigMessage (data_ m) (diff_ m) (lagged_diffs_ m) (unknown_ m) (seqno_hash_ m)
    s (unmerged_ m) (verifier m) (signer m) (lag m).
Definition with_unmerged (u : option nat) (m : ConfigMessage) : ConfigMessage :=
  mkConfigMessage (data_ m) (diff_ m) (lagged_diffs_ m) (unknown_ m) (seqno_hash_ m)
    (verified_signature_ m) u (verifier m) (signer m) (lag m).
Definition with_keys (v : verify_callable) (s : sign_callable) (m : ConfigMessage) : ConfigMessage :=
  mkConfigMessage (data_ m) (diff_ m) (lagged_diffs_ m) (unknown_ m) (seqno_hash_ m)
    (verified_signature_ m) (unmerged_ m) v s (lag m).

Definition is_some {A} (o : option A) : bool :=
  match o with Some _ => true | None => false end.

(** The zero-initialised hash *)
Definition zero_hash : bytes := zeros 32.

Section message.
Context `{BtLib, Hash}.

(** ** Parsing *)

(** [parse_data(set&, bt_list_consumer)]: the loop, [s] accumulated so far *)
Fixpoint parse_set_loop (in_ : bt_list) (s : config_set) : result config_set :=
  match in_ with
  | [] => Ok s
  | v :: rest =>
      val ← match v with
            | BtInt z => z ← consume_int64 z; Ok (SInt z)
            | BtStr x => Ok (SStr x)
            | _ => Throw config_parse_error
            end;
      _ ← require (match last s with Some l => negb (keqb val l) | None => true end)
                  config_parse_error;
      _ ← require (match last s with Some l => negb (klt val l) | None => true end)
                  config_parse_error;
      parse_set_loop rest (s ++ [val])
  end.

Definition parse_set (in_ : bt_list) : result config_set :=
  if is_nil in_ then Throw bt_deserialize_invalid else parse_set_loop in_ [].

(** [parse_data(dict&, bt_dict_consumer, top_level)] on one value *)
Fixpoint parse_value (v : bt_value) : result dict_value :=
  match v with
  | BtStr s => Ok (DScalar (SStr s))
  | BtInt z => z ← consume_int64 z; Ok (DScalar (SInt z))
  | BtDict in_ =>
      if is_nil in_ then Throw bt_deserialize_invalid else
      d ← (fix go (in_ : bt_dict) (d : dict) : result dict :=
             match in_ with
             | [] => Ok d
             | (key, v) :: rest =>
                 _ ← require (match mlast d with
                              | Some k => negb (kle key k) | None => true end)
                             bt_deserialize_invalid;
                 x ← parse_value v;
                 go rest (d ++ [(key, x)])
             end) in_ [];
      Ok (DDict d)
  | BtList in_ => s ← parse_set in_; Ok (DSet s)
  end.

Fixpoint parse_dict_loop (in_ : bt_dict) (d : dict) : result dict :=
  match in_ with
  | [] => Ok d
  | (key, v) :: rest =>
      _ ← require (match mlast d with Some k => negb (kle key k) | None => true end)
                  bt_deserialize_invalid;
      x ← parse_value v;
      parse_dict_loop rest (d ++ [(key, x)])
  end.

(** [parse_data(data_, ..., top_level = true)] *)
Definition parse_data (in_ : bt_dict) : result dict := parse_dict_loop in_ [].

(** [parse_lagged_diffs] *)
Fixpoint parse_lagged_diffs (lagged : list (seqno_hash_t * bt_dict)) (in_ : bt_list)
    (curr_seqno lag : Z) : result (list (seqno_hash_t * bt_dict)) :=
  match in_ with
  | [] => Ok lagged
  | BtList sublist :: rest =>
      match sublist with
      | BtInt z :: sublist =>
          s ← consume_int64 z;
          if curr_seqno <=? s then Throw config_parse_error else
          oldest ← sub_i64 curr_seqno lag;
          if s <=? oldest then parse_lagged_diffs lagged rest curr_seqno lag else
          match sublist with
          | BtStr hash :: sublist =>
              _ ← require (size hash =? 32) config_parse_error;
              _ ← require (match mlast lagged with
                           | Some k => negb (kle (s, hash) k) | None => true end)
                          config_parse_error;
              match sublist with
              | BtDict d :: sublist =>
                  diff ← load_diff d;
                  _ ← require (is_nil sublist) config_parse_error;
                  parse_lagged_diffs (lagged ++ [((s, hash), diff)]) rest curr_seqno lag
              | _ => Throw bt_deserialize_invalid
              end
          | _ => Throw bt_deserialize_invalid
          end
      | _ => Throw bt_deserialize_invalid
      end
  | _ :: _ => Throw bt_deserialize_invalid
  end.

(** [load_unknowns] (src/config/internal.cpp): the unknown keys collected so
    far and the remaining input *)
Fixpoint load_unknowns (unknown in_ : bt_dict) (previous until : bytes)
    : result (bt_dict * bt_dict) :=
  match in_ with
  | [] => Ok (unknown, in_)
  | (key, v) :: rest =>
      if negb (klt key until) then Ok (unknown, in_) else
      _ ← require (negb (kle key previous) &&
                   match mlast unknown with Some k => negb (kle key k) | None => true end)
                  bt_deserialize_invalid;
      x ← match v with
          | BtStr _ => Ok v
          | BtInt z => if z <? 0 then z ← consume_int64 z; Ok (BtInt z)
                       else z ← consume_uint64 z; Ok (BtInt z)
          | BtList _ | BtDict _ => consume_value v
          end;
      load_unknowns (unknown ++ [(key, x)]) rest previous until
  end.

(** [bt_dict_consumer::skip_until]: drop the keys before [find]; whether
    [find] is then the next key *)
Fixpoint skip_until (in_ : bt_dict) (find : bytes) : bt_dict * bool :=
  match in_ with
  | [] => ([], false)
  | (key, v) :: rest =>
      if klt key find then skip_until rest find else (in_, keqb key find)
  end.

(** [verify_config_sig]: [raw] is the whole buffer, [in_] the consumer
    positioned in it; returns the signature to remember, if any *)
Definition verify_config_sig (raw : bytes) (in_ : bt_dict) (verifier : verify_callable)
    (trust_signature : bool) : result (option bytes) :=
  let '(in_, found) := skip_until in_ "~" in
  '(sig, in_) ←
    (if found then
       match in_ with
       | (_, BtStr sig) :: rest =>
           _ ← require (size sig =? 64) signature_error;
           _ ← require (match verifier with Some f => f (bt_signed raw) sig | None => true end)
                       signature_error;
           Ok (if is_some verifier || trust_signature then Some sig else None, rest)
       | _ => Throw bt_deserialize_invalid
       end
     else if is_some verifier then Throw missing_signature
     else Ok (None, in_));
  _ ← require (is_nil in_) config_parse_error;
  Ok sig.

(** [dict.key()]: throws at the end of the dict *)
Definition next_key (in_ : bt_dict) : result bytes :=
  match in_ with [] => Throw bt_deserialize_invalid | (k, _) :: _ => Ok k end.

(** The steps of the parsing constructor: the seqno, ... *)
Definition take_seqno (in_ : bt_dict) : result (Z * bt_dict) :=
  match in_ with
  | (k, BtInt z) :: rest =>
      z ← consume_int64 z;
      if keqb k "#" then Ok (z, rest) else Throw config_parse_error
  | _ => Throw bt_deserialize_invalid
  end.

(** ... the data, ... *)
Definition take_data (in_ : bt_dict) : result (dict * bt_dict) :=
  match in_ with
  | (k, BtDict d) :: rest =>
      if keqb k "&" then data ← parse_data d; Ok (data, rest)
      else Throw config_parse_error
  | _ => Throw bt_deserialize_invalid
  end.

(** ... the lagged diffs, if the next key holds them, ... *)
Definition take_lagged (in_ : bt_dict) (s lag : Z)
    : result (list (seqno_hash_t * bt_dict) * bt_dict) :=
  k ← next_key in_;
  if keqb k "<" then
    match in_ with
    | (_, BtList l) :: rest => lagged ← parse_lagged_diffs [] l s lag; Ok (lagged, rest)
    | _ => Throw bt_deserialize_invalid
    end
  else Ok ([], in_).

(** ... and the diff, if the next key holds it. *)
Definition take_diff (in_ : bt_dict) : result (bt_dict * bt_dict) :=
  k ← next_key in_;
  if keqb k "=" then
    match in_ with
    | (_, BtDict d) :: rest => diff ← load_diff d; Ok (diff, rest)
    | _ => Throw bt_deserialize_invalid
    end
  else Ok ([], in_).

(** The body of the [try] block of the parsing constructor *)
Definition parse_body (serialized : bytes) (in_ : bt_dict) (verifier : verify_callable)
    (signer : sign_callable) (lag : Z) (trust_signature : bool) : result ConfigMessage :=
  let hash := blake2b serialized in
  '(s, in_) ← take_seqno in_;
  '(unknown, in_) ← load_unknowns [] in_ "#" "&";
  '(data, in_) ← take_data in_;
  '(unknown, in_) ← load_unknowns unknown in_ "&" "<";
  '(lagged, in_) ← take_lagged in_ s lag;
  '(unknown, in_) ← load_unknowns unknown in_ "<" "=";
  '(diff, in_) ← take_diff in_;
  '(unknown, in_) ← load_unknowns unknown in_ "=" "~";
  sig ← verify_config_sig serialized in_ verifier trust_signature;
  Ok (mkConfigMessage data diff lagged unknown (s, hash) sig None verifier signer lag).

(** The parsing constructor [ConfigMessage(serialized, verifier, signer, lag,
    trust_signature)] *)
Definition parse_message (serialized : bytes) (verifier : verify_callable)
    (signer : sign_callable) (lag : Z) (trust_signature : bool) : result ConfigMessage :=
  _ ← bt_open serialized;
  match (in_ ← bt_load serialized;
         parse_body serialized in_ verifier signer lag trust_signature) with
  | Throw bt_deserialize_invalid => Throw config_parse_error
  | r => r
  end.

(** ** Serialization *)

(** [serialize_data] *)
Fixpoint bt_of_value (v : dict_value) : bt_value :=
  match v with
  | DDict d => BtDict ((fix go (d : dict) : bt_dict :=
      match d with [] => [] | (k, v) :: d => (k, bt_of_value v) :: go d end) d)
  | DSet s => BtList (bt_of_scalar <$> s)
  | DScalar x => bt_of_scalar x
  end.

Definition bt_of_dict (d : dict) : bt_dict := (λ p, (p.1, bt_of_value p.2)) <$> d.

(** [append_unknown] (src/config/internal.cpp): the pairs written and those left *)
Fixpoint append_unknown (it : bt_dict) (until : bytes) : bt_dict * bt_dict :=
  match it with
  | [] => ([], [])
  | (k, v) :: it' =>
      if klt k until then let '(out, rest) := append_unknown it' until in ((k, v) :: out, rest)
      else ([], it)
  end.

Definition lag_entry (e : seqno_hash_t * bt_dict) : bt_value :=
  BtList [BtInt e.1.1; BtStr e.1.2; BtDict e.2].

Definition in_lag (m : ConfigMessage) (oldest : Z) (e : seqno_hash_t * bt_dict) : bool :=
  negb ((e.1.1 <=? oldest) || (seqno m <=? e.1.1)).

(** The lagged diffs [serialize_impl] writes *)
Definition live_lags (m : ConfigMessage) : result (list (seqno_hash_t * bt_dict)) :=
  oldest ← (if is_nil (lagged_diffs_ m) then Ok 0 else sub_i64 (seqno m) (lag m));
  Ok (List.filter (in_lag m oldest) (lagged_diffs_ m)).

(** Everything [serialize_impl] writes before the signature *)
Definition serialize_pairs (m : ConfigMessage) (curr_diff : bt_dict) : result bt_dict :=
  let '(u1, it) := append_unknown (unknown_ m) "&" in
  let '(u2, it) := append_unknown it "<" in
  let '(u3, it) := append_unknown it "=" in
  let '(u4, _) := append_unknown it "~" in
  lags ← live_lags m;
  Ok (("#", BtInt (seqno m)) :: u1 ++
      ("&", BtDict (bt_of_dict (data_ m))) :: u2 ++
      ("<", BtList (lag_entry <$> lags)) :: u3 ++
      ("=", BtDict curr_diff) :: u4).

(** [serialize_impl] *)
Definition serialize_impl (m : ConfigMessage) (curr_diff : bt_dict) (enable_signing : bool)
    : result bytes :=
  pairs ← serialize_pairs m curr_diff;
  match verified_signature_ m, signer m, enable_signing with
  | Some sig, _, _ => Ok (bt_dump (pairs ++ [("~", BtStr sig)]))
  | None, Some sign, true =>
      sig ← sign (bt_body pairs);
      _ ← require (size sig =? 64) logic_error;
      Ok (bt_dump (pairs ++ [("~", BtStr sig)]))
  | None, _, _ => Ok (bt_dump pairs)
  end.

(** [MutableConfigMessage::diff()]: forgets the signature, prunes the data
    and recomputes the diff *)
Definition mutable_diff (m : MutableConfigMessage) : result MutableConfigMessage :=
  let b := with_verified None (base m) in
  let data := prune (data_ b) in
  df ← diff_impl (orig_data_ m) data;
  Ok (mkMutable (with_diff (default [] df) (with_data data b)) (orig_data_ m)).

(** [serialize(enable_signing)], virtual in [diff()]: the bytes and the
    message as the call leaves it *)
Definition serialize (a : AnyMessage) (enable_signing : bool) : result (bytes * AnyMessage) :=
  match a with
  | Immutable m => s ← serialize_impl m (diff_ m) enable_signing; Ok (s, a)
  | Mutable m =>
      m ← mutable_diff m;
      s ← serialize_impl (base m) (diff_ (base m)) enable_signing;
      Ok (s, Mutable m)
  end.

(** [MutableConfigMessage::hash()] *)
Definition mutable_hash (m : MutableConfigMessage) : result MutableConfigMessage :=
  m ← mutable_diff m;
  s ← serialize_impl (base m) (diff_ (base m)) true;
  Ok (mkMutable (with_seqno_hash (seqno (base m), blake2b s) (base m)) (orig_data_ m)).

(** ** Constructors *)
Definition no_message (v : verify_callable) (s : sign_callable) (lag : Z) : ConfigMessage :=
  mkConfigMessage [] [] [] [] (0, zero_hash) None None v s lag.

(** [ConfigMessage()] *)
Definition default_message : result ConfigMessage :=
  let m := no_message None None DEFAULT_DIFF_LAGS in
  s ← serialize_impl m (diff_ m) true;
  Ok (with_seqno_hash (0, blake2b s) m).

(** [MutableConfigMessage(seqno, lag, signer)] *)
Definition new_mutable (s : Z) (lag : Z) (sign : sign_callable) : result MutableConfigMessage :=
  d ← default_message;
  Ok (mkMutable (mkConfigMessage (data_ d) (diff_ d) (lagged_diffs_ d) (unknown_ d)
                   (s, (seqno_hash_ d).2) (verified_signature_ d) (unmerged_ d) None sign lag)
                []).

(** ** Incrementing *)
Fixpoint drop_while_old (oldest : Z) (lags : list (seqno_hash_t * bt_dict))
    : list (seqno_hash_t * bt_dict) :=
  match lags with
  | [] => []
  | e :: lags' => if e.1.1 <=? oldest then drop_while_old oldest lags' else lags
  end.

(** [increment_impl].  The loop that removes trailing entries with a seqno
    not below ours erases through [rit.base()] and keeps using [rit], whose
    base iterator the erasure invalidated: its first round is undefined. *)
Definition increment_impl (m : ConfigMessage) : result MutableConfigMessage :=
  oldest ← (if is_nil (lagged_diffs_ m) then Ok 0 else sub_i64 (seqno m) (lag m));
  let lags := drop_while_old oldest (lagged_diffs_ m) in
  _ ← require (match last lags with Some e => e.1.1 <? seqno m | None => true end)
              undefined_behaviour;
  let lags := memplace (seqno_hash_ m) (diff_ m) lags in
  s ← add_i64 (seqno m) 1;
  Ok (mkMutable (with_diff [] (with_seqno_hash (s, zero_hash) (with_lagged lags m))) (data_ m)).

(** [MutableConfigMessage(const ConfigMessage&, increment_seqno)] *)
Definition increment (a : AnyMessage) : result MutableConfigMessage :=
  match a with
  | Mutable m => m ← mutable_hash m; increment_impl (base m)
  | Immutable m => increment_impl m
  end.

(** [MutableConfigMessage(ConfigMessage&&, retain_seqno)]: the member
    initialiser [orig_data_{data_}] runs before the base is assigned, on the
    default-constructed (empty) data *)
Definition retain (a : AnyMessage) : MutableConfigMessage :=
  match a with
  | Mutable m => m
  | Immutable m => mkMutable m []
  end.

(** ** Merging *)

(** The messages that parse, with the errors handed to [error_handler];
    an error it rethrows, or one that is no [config_error], propagates *)
Definition is_config_error (e : exn) : bool :=
  match e with
  | config_error | signature_error | missing_signature
  | config_parse_error | config_value_error => true
  | _ => false
  end.

Fixpoint load_all (i : nat) (confs : list bytes) (v : verify_callable) (s : sign_callable)
    (lag : Z) (rethrow : bool) : result (list ConfigMessage * list nat) :=
  match confs with
  | [] => Ok ([], [])
  | c :: confs =>
      match parse_message c v s lag false with
      | Ok m => '(ms, bad) ← load_all (S i) confs v s lag rethrow; Ok (m :: ms, bad)
      | Throw e =>
          if is_config_error e && negb rethrow then
            '(ms, bad) ← load_all (S i) confs v s lag rethrow; Ok (ms, i :: bad)
          else Throw e
      end
  end.

(** [int64_t max_seqno = std::numeric_limits<int64_t>::min()], then the maximum *)
Definition max_seqno (configs : list ConfigMessage) : Z :=
  foldr (λ m acc, Z.max (seqno m) acc) int64_min configs.

(** Whether some other message includes the message at index [i], or an
    earlier one is the same *)
Fixpoint included (i j : nat) (sh : seqno_hash_t) (configs : list ConfigMessage) : bool :=
  match configs with
  | [] => false
  | conf2 :: rest =>
      (negb (i =? j)%nat &&
       (is_some (mfind sh (lagged_diffs_ conf2)) ||
        ((j <? i)%nat && keqb (seqno_hash_ conf2) sh)))
      || included i (S j) sh rest
  end.

(** The [redundant] flag of every message *)
Fixpoint mark_redundant (i : nat) (all rest : list ConfigMessage) (lag max : Z)
    : result (list (ConfigMessage * bool)) :=
  match rest with
  | [] => Ok []
  | m :: rest =>
      newest ← add_i64 (seqno m) lag;
      marked ← mark_redundant (S i) all rest lag max;
      Ok ((m, included i 0 (seqno_hash_ m) all || (newest <=? max)) :: marked)
  end.

(** Index and message of the first non-redundant entry *)
Fixpoint first_kept (i : nat) (configs : list (ConfigMessage * bool))
    : option (nat * ConfigMessage) :=
  match configs with
  | [] => None
  | (m, redundant) :: configs =>
      if redundant then first_kept (S i) configs else Some (i, m)
  end.

(** [std::max_element] with the comparison of the code *)
Definition worse (a b : ConfigMessage * bool) : bool :=
  if Bool.eqb a.2 b.2 then klt (seqno_hash_ a.1) (seqno_hash_ b.1) else a.2.

Fixpoint max_element (i : nat) (best : nat * (ConfigMessage * bool))
    (configs : list (ConfigMessage * bool)) : nat * (ConfigMessage * bool) :=
  match configs with
  | [] => best
  | c :: configs => max_element (S i) (if worse best.2 c then (i, c) else best) configs
  end.

(** [std::sort] by seqno and hash, descending *)
Fixpoint insert_desc (m : ConfigMessage) (l : list ConfigMessage) : list ConfigMessage :=
  match l with
  | [] => [m]
  | m' :: l' => if klt (seqno_hash_ m') (seqno_hash_ m) then m :: l else m' :: insert_desc m l'
  end.
Definition sort_desc (l : list ConfigMessage) : list ConfigMessage := foldr insert_desc [] l.

(** The [replay] map: for every seqno and hash, the data and the diff that
    were first found for it *)
Definition replay_t := list (seqno_hash_t * (dict * bt_dict)).

Definition add_replay (r : replay_t) (m : ConfigMessage) : replay_t :=
  fold_left (λ r e, memplace e.1 (data_ m, e.2) r) (lagged_diffs_ m)
    (memplace (seqno_hash_ m) (data_ m, diff_ m) r).

Definition make_replay (configs : list ConfigMessage) : replay_t :=
  fold_left add_replay configs [].

Definition apply_replay (data : dict) (r : replay_t) : result dict :=
  foldR (λ data e, apply_diff data e.2.2 e.2.1) data r.

(** From the sorted non-redundant messages to the merged one *)
Definition merge_configs (configs : list ConfigMessage) (v : verify_callable)
    (s : sign_callable) (lag max : Z) : result ConfigMessage :=
  match sort_desc configs with
  | [] => Throw undefined_behaviour
  | (front :: _) as configs =>
      n ← add_i64 max 1;
      let replay := make_replay configs in
      data ← apply_replay (data_ front) replay;
      let lagged := (λ e, (e.1, e.2.2)) <$> replay in
      let m := mkConfigMessage (prune data) [] lagged [] (n, zero_hash) None None v s lag in
      ser ← serialize_impl m [] true;
      Ok (with_seqno_hash (n, blake2b ser) m)
  end.

(** The part of the merging constructor after loading *)
Definition merge_loaded (configs : list ConfigMessage) (v : verify_callable)
    (s : sign_callable) (lag : Z) : result ConfigMessage :=
  if is_nil configs then Throw config_error else
  let max := max_seqno configs in
  marked ← mark_redundant 0 configs configs lag max;
  match List.filter (λ c, negb c.2) marked, first_kept 0 marked, marked with
  | [_], Some (i, m), _ => Ok (with_unmerged (Some i) m)
  | kept, _, c :: rest =>
      if is_some v && negb (is_some s) then
        let '(i, (m, _)) := max_element 1 (0%nat, c) rest in
        Ok (with_unmerged (Some i) m)
      else merge_configs (fst <$> kept) v s lag max
  | _, _, [] => Throw config_error
  end.

(** [ConfigMessage(serialized_confs, verifier, signer, lag, error_handler)]:
    the message and the indices reported to the handler *)
Definition merge_messages (confs : list bytes) (v : verify_callable) (s : sign_callable)
    (lag : Z) (rethrow : bool) : result (ConfigMessage * list nat) :=
  '(configs, bad) ← load_all 0 confs v s lag rethrow;
  m ← merge_loaded configs v s lag;
  Ok (m, bad).

(** [MutableConfigMessage(serialized_confs, ...)] *)
Definition merge_mutable (confs : list bytes) (v : verify_callable) (s : sign_callable)
    (lag : Z) (rethrow : bool) : result (MutableConfigMessage * list nat) :=
  '(m, bad) ← merge_messages confs v s lag rethrow;
  if merged m then Ok (mkMutable m (data_ m), bad)
  else mm ← increment_impl m; Ok (mm, bad).

(** [MutableConfigMessage(config, verifier, signer, lag)] *)
Definition load_mutable (conf : bytes) (v : verify_callable) (s : sign_callable) (lag : Z)
    : result MutableConfigMessage :=
  '(m, _) ← merge_mutable [conf] v s lag true; Ok m.
End message.
