(* ===== verification/ConfigCodec.v ===== *)
(** * Parsing and serializing config messages

    What the parsing constructor guarantees of a message it accepts, that a
    configured verifier is never bypassed, and that parsing what
    [serialize_impl] wrote gives the message back. *)

From Stdlib Require Import ZArith String Lia.
From stdpp Require Import base option list strings numbers sorting sets.
From S2P Require Import Prelude OrderedMap Bt Bencode Crypto ConfigData ConfigDiff ConfigMessage.

(** ** The invariant of a loaded message *)

(** Lagged diffs are ordered and lie in the window [(seqno - lag, seqno)]. *)
Definition lags_ok (m : ConfigMessage) : bool :=
  msorted (lagged_diffs_ m) &&
  forallb (λ e, (seqno m - lag m <? e.1.1) && (e.1.1 <? seqno m) && (size e.1.2 =? 32))
    (lagged_diffs_ m).

Definition message_ok (m : ConfigMessage) : bool :=
  dict_ok (data_ m) && dict_pruned (data_ m) && in_int64 (seqno m) && lags_ok m.

Lemma lags_ok_spec m :
  lags_ok m = true ↔
    msorted (lagged_diffs_ m) = true ∧
    ∀ sh d, (sh, d) ∈ lagged_diffs_ m →
      seqno m - lag m < sh.1 < seqno m ∧ size sh.2 = 32.
Proof.
  unfold lags_ok. rewrite andb_true_iff, forallb_forall. setoid_rewrite <-list_elem_of_In.
  split; intros [Hs Hf]; split; auto.
  - intros sh d Hin. specialize (Hf _ Hin). simpl in Hf. lia.
  - intros [sh d] Hin. specialize (Hf _ _ Hin). simpl. lia.
Qed.

Lemma message_ok_spec m :
  message_ok m = true ↔
    dict_ok (data_ m) = true ∧ dict_pruned (data_ m) = true ∧
    in_int64 (seqno m) = true ∧ lags_ok m = true.
Proof. unfold message_ok. rewrite !andb_true_iff. tauto. Qed.

(** Appending above the last key keeps a map ordered. *)
Lemma msorted_snoc_last `{OrdKey K} {V} (m : list (K * V)) k v :
  msorted m = true →
  match mlast m with Some k' => negb (kle k k') | None => true end = true →
  msorted (m ++ [(k, v)]) = true.
Proof.
  intros Hs Hl. apply msorted_snoc. split; [done|].
  destruct m as [|[k' v'] m _] using rev_ind; [constructor|].
  unfold mlast in Hl. rewrite last_snoc in Hl. simpl in Hl.
  rewrite <-klt_negb_kle in Hl. apply klt_spec in Hl.
  apply msorted_snoc in Hs as [_ Hf]. apply Forall_app. split; [|by constructor].
  eapply Forall_impl; [exact Hf|]. intros p Hp. simpl in *. eauto using kcmp_trans.
Qed.

Lemma ssorted_snoc_last (s : config_set) x :
  ssorted s = true →
  match last s with Some l => negb (keqb x l) | None => true end = true →
  match last s with Some l => negb (klt x l) | None => true end = true →
  ssorted (s ++ [x]) = true.
Proof.
  intros Hs H1 H2. unfold ssorted, as_map in *. rewrite fmap_app. simpl.
  apply msorted_snoc_last; [done|]. unfold mlast. rewrite fmap_last.
  destruct (last s) as [l|]; simpl; [|done].
  unfold keqb, klt, kle in *. simpl in *. by destruct (sum_cmp x l).
Qed.

Section parse_facts.
Context `{BtLib, !BtLaws, Hash}.

Lemma parse_set_loop_ok in_ s r :
  set_ok s = true → parse_set_loop in_ s = Ok r →
  set_ok r = true ∧ (length s + length in_ = length r)%nat.
Proof.
  revert s; induction in_ as [|v in_ IH]; intros s Hs Hp; simpl in Hp.
  - injection Hp as <-. simpl. split; [done|lia].
  - inv_result. apply IH in Hp as [Hr Hl].
    + split; [done|]. rewrite length_app in Hl. simpl in *. lia.
    + apply set_ok_spec in Hs as [Hs Hf]. apply set_ok_spec. split.
      * by apply ssorted_snoc_last.
      * apply Forall_app. split; [done|]. constructor; [|done].
        destruct v; try discriminate E; inv_result; simpl; [done|].
        by eapply consume_int64_range.
Qed.

Lemma parse_set_ok in_ r :
  parse_set in_ = Ok r → set_ok r = true ∧ r ≠ [].
Proof.
  unfold parse_set. destruct in_ as [|v in_]; [done|]. simpl is_nil. cbn iota.
  intros Hp. apply parse_set_loop_ok in Hp as [Hr Hl]; [|done].
  split; [done|]. by destruct r.
Qed.

Lemma parse_value_dict in_ :
  parse_value (BtDict in_) =
    if is_nil in_ then Throw bt_deserialize_invalid
    else d ← parse_dict_loop in_ []; Ok (DDict d).
Proof. done. Qed.

Lemma parse_dict_loop_ok in_ d r :
  Forall (λ p, ∀ x, parse_value p.2 = Ok x → value_ok x = true ∧ value_pruned x = true) in_ →
  dict_ok d = true → dict_pruned d = true → parse_dict_loop in_ d = Ok r →
  dict_ok r = true ∧ dict_pruned r = true ∧ (length d + length in_ = length r)%nat.
Proof.
  intros Hin; revert d; induction Hin as [|[k v] in_ Hv Hin IH]; intros d Hok Hp Hr;
    simpl in Hr.
  - injection Hr as <-. simpl. split_and!; [done..|lia].
  - inv_result. apply Hv in E0 as [Hx Hpx]. apply IH in Hr as (? & ? & Hl).
    + split_and!; [done..|]. rewrite length_app in Hl. simpl in *. lia.
    + apply dict_ok_spec in Hok as [Hs Hok]. apply dict_ok_spec. split.
      * by apply msorted_snoc_last.
      * intros k' x' [Hi|Hi]%elem_of_app; [eauto|].
        apply list_elem_of_singleton in Hi. by simplify_eq.
    + rewrite dict_pruned_spec in Hp |- *. intros k' x' [Hi|Hi]%elem_of_app; [eauto|].
      apply list_elem_of_singleton in Hi. by simplify_eq.
Qed.

Lemma parse_value_ok v x :
  parse_value v = Ok x → value_ok x = true ∧ value_pruned x = true.
Proof.
  revert x; induction v as [s|z|l IH|d IH] using bt_value_ind'; intros x Hx.
  - injection Hx as <-. done.
  - simpl in Hx. inv_result. split; [|done]. simpl. by eapply consume_int64_range.
  - simpl in Hx. inv_result. apply parse_set_ok in E as [Hs Hne]. by destruct a.
  - rewrite parse_value_dict in Hx. destruct d as [|p d]; [done|]. simpl is_nil in Hx.
    cbn iota in Hx. inv_result.
    apply parse_dict_loop_ok in E as (Hok & Hp & Hl); [|done..].
    rewrite value_pruned_dict. split; [done|]. split; [|done]. by destruct a.
Qed.

Lemma parse_data_ok in_ d :
  parse_data in_ = Ok d → dict_ok d = true ∧ dict_pruned d = true.
Proof.
  intros Hp. apply parse_dict_loop_ok in Hp as (? & ? & _); [done| |done..].
  apply Forall_forall. intros p _ x. apply parse_value_ok.
Qed.

Lemma parse_lagged_diffs_ok lagged in_ curr lg r :
  msorted lagged = true →
  (∀ sh d, (sh, d) ∈ lagged → curr - lg < sh.1 < curr ∧ size sh.2 = 32) →
  parse_lagged_diffs lagged in_ curr lg = Ok r →
  msorted r = true ∧ ∀ sh d, (sh, d) ∈ r → curr - lg < sh.1 < curr ∧ size sh.2 = 32.
Proof.
  revert lagged; induction in_ as [|v in_ IH]; intros lagged Hs Hw Hp; simpl in Hp.
  - injection Hp as <-. done.
  - destruct v as [| |[|[|z| |] sub]|]; try discriminate Hp. inv_result.
    destruct (curr <=? a) eqn:Ec; [done|]. inv_result.
    assert (a0 = curr - lg) as ->
      by (unfold sub_i64 in E0; destruct (in_int64 _); by simplify_eq).
    destruct (a <=? curr - lg) eqn:Eo; [by eapply IH|].
    destruct sub as [|[hash| | |] [|[| | |d] sub]]; try discriminate Hp; inv_result.
    eapply IH; [| |exact Hp].
    + by apply msorted_snoc_last.
    + intros sh d' [Hi|Hi]%elem_of_app; [eauto|].
      apply list_elem_of_singleton in Hi. simplify_eq/=. lia.
Qed.
End parse_facts.

Section verify.
Context `{BtLib, !BtLaws, Hash}.

Lemma verify_config_sig_ok raw in_ v trust sig :
  verify_config_sig raw in_ v trust = Ok sig →
  match v with
  | Some f => ∃ s, sig = Some s ∧ size s = 64 ∧ f (bt_signed raw) s = true
  | None => ∀ s, sig = Some s → trust = true ∧ size s = 64
  end.
Proof.
  unfold verify_config_sig. destruct (skip_until in_ "~") as [in' found].
  intros Hv. inv_pairs. destruct found.
  - destruct in' as [|[k [s| | |]] rest]; try discriminate E. inv_result.
    apply Z.eqb_eq in E1. destruct v as [f|]; simplify_eq/=; [eauto|].
    intros s' Hs. destruct trust; by simplify_eq.
  - destruct v as [f|]; simpl in E; [done|]. inv_result. intros s Hs. by simplify_eq.
Qed.

Lemma take_seqno_ok in_ s rest : take_seqno in_ = Ok (s, rest) → in_int64 s = true.
Proof.
  unfold take_seqno. destruct in_ as [|[k [|z| |]] rest']; try done.
  intros Ht. inv_result. destruct (keqb k "#"); inv_result. simplify_eq.
  by eapply consume_int64_range.
Qed.

Lemma take_data_ok in_ d rest :
  take_data in_ = Ok (d, rest) → dict_ok d = true ∧ dict_pruned d = true.
Proof.
  unfold take_data. destruct in_ as [|[k [| | |d']] rest']; try done.
  destruct (keqb k "&"); [|done]. intros Ht. inv_result. simplify_eq.
  by eapply parse_data_ok.
Qed.

Lemma take_lagged_ok in_ s lg r rest :
  take_lagged in_ s lg = Ok (r, rest) →
  msorted r = true ∧ ∀ sh d, (sh, d) ∈ r → s - lg < sh.1 < s ∧ size sh.2 = 32.
Proof.
  unfold take_lagged. intros Ht. inv_result. destruct (keqb a "<").
  - destruct in_ as [|[k [| |l|]] rest']; try done. inv_result. simplify_eq.
    eapply parse_lagged_diffs_ok; [| |done]; [done|by intros ? ? ?%not_elem_of_nil].
  - inv_result. simplify_eq. split; [done|by intros ? ? ?%not_elem_of_nil].
Qed.

Lemma parse_body_ok raw in_ v s lg trust m :
  parse_body raw in_ v s lg trust = Ok m →
  message_ok m = true ∧ seqno_hash_ m = (seqno m, blake2b raw) ∧
  verifier m = v ∧ signer m = s ∧ lag m = lg ∧ unmerged_ m = None ∧
  match v with
  | Some f => ∃ sg, verified_signature_ m = Some sg ∧ size sg = 64 ∧ f (bt_signed raw) sg = true
  | None => ∀ sg, verified_signature_ m = Some sg → trust = true ∧ size sg = 64
  end.
Proof.
  unfold parse_body. intros Hp. inv_pairs. simpl.
  split_and!; try done; [|by eapply verify_config_sig_ok].
  apply message_ok_spec. rewrite lags_ok_spec. unfold seqno. simpl.
  split_and!.
  - by eapply take_data_ok.
  - by eapply take_data_ok.
  - by eapply take_seqno_ok.
  - by eapply take_lagged_ok.
  - by eapply take_lagged_ok.
Qed.

Lemma parse_message_inv raw v s lg trust m :
  parse_message raw v s lg trust = Ok m →
  ∃ in_, bt_load raw = Ok in_ ∧ parse_body raw in_ v s lg trust = Ok m.
Proof.
  unfold parse_message. destruct (bt_open raw); [|done]. rewrite bind_ret.
  destruct (bt_load raw) as [in_|e]; simpl; [|by destruct e].
  intros Hp. exists in_. split; [done|]. by destruct (parse_body _ _ _ _ _ _) as [|[]].
Qed.

(** C39 (what a loaded message satisfies): a message the parsing constructor
    accepts has ordered, pruned, in-range data, lagged diffs ordered and
    inside the lag window below its seqno, and the hash of the bytes it was
    parsed from. *)
Theorem parse_message_ok raw v s lg trust m :
  parse_message raw v s lg trust = Ok m →
  message_ok m = true ∧ seqno_hash_ m = (seqno m, blake2b raw) ∧ lag m = lg ∧
  unmerged_ m = None.
Proof.
  intros (in_ & _ & Hp)%parse_message_inv. apply parse_body_ok in Hp. naive_solver.
Qed.

(** C37 (signatures are not bypassed): with a verifier configured, a message
    is only accepted if it carries a 64-byte signature that the verifier
    accepted for the signed part of the buffer; without one, a signature is
    only recorded when the caller chose to trust it. *)
Theorem parse_message_verified raw v s lg trust m :
  parse_message raw v s lg trust = Ok m →
  match v with
  | Some f => ∃ sg, verified_signature_ m = Some sg ∧ size sg = 64 ∧
                    f (bt_signed raw) sg = true
  | None => ∀ sg, verified_signature_ m = Some sg → trust = true ∧ size sg = 64
  end.
Proof.
  intros (in_ & _ & Hp)%parse_message_inv. apply parse_body_ok in Hp. naive_solver.
Qed.
End verify.

(** ** Round trip *)

Lemma msorted_app `{OrdKey K} {V} (a b : list (K * V)) :
  msorted (a ++ b) = true ↔
    msorted a = true ∧ msorted b = true ∧ Forall (λ p, Forall (key_below p.1) b) a.
Proof.
  induction a as [|[k v] a IH]; simpl app.
  - split; [|tauto]. intros Hs. split_and!; [done..|constructor].
  - rewrite !msorted_cons, Forall_app, Forall_cons, IH. simpl. tauto.
Qed.

(** The unknown top-level keys a message may carry. *)
Definition unknown_ok (u : bt_dict) : bool :=
  msorted u &&
  forallb (λ p, klt "#" p.1 && klt p.1 "~" && negb (keqb p.1 "&") && negb (keqb p.1 "<") &&
                negb (keqb p.1 "=") && bt_canon p.2) u.

(** The full invariant of a message this library wrote: on top of
    [message_ok], its own and the lagged diffs are well-formed. *)
Definition message_wf (m : ConfigMessage) : bool :=
  message_ok m && diff_ok (BtDict (diff_ m)) &&
  forallb (λ e, diff_ok (BtDict e.2)) (lagged_diffs_ m) && unknown_ok (unknown_ m) &&
  match verified_signature_ m with Some s => size s =? 64 | None => true end &&
  in_int64 (seqno m - lag m).

Definition between (lo hi : bytes) (p : bytes * bt_value) : Prop :=
  lo ≺ p.1 ∧ p.1 ≺ hi ∧ bt_canon p.2 = true.

Lemma key_trichotomy `{OrdKey K} (a b : K) : a ≠ b → ¬ a ≺ b → b ≺ a.
Proof. intros Hne Hn. destruct (kcmp a b) eqn:E; [by apply kcmp_eq in E|done|by apply kcmp_gt_lt]. Qed.

(** [append_unknown] cuts an ordered sequence at a key it does not contain. *)
Lemma append_unknown_cut u lo until hi :
  msorted u = true → Forall (between lo hi) u → Forall (λ p, p.1 ≠ until) u →
  ∃ out rest, append_unknown u until = (out, rest) ∧ u = out ++ rest ∧
    Forall (between lo until) out ∧ Forall (between until hi) rest.
Proof.
  induction u as [|[k v] u IH]; intros Hs Hb Hne.
  - exists [], []. repeat constructor.
  - pose proof Hs as Hs'. apply msorted_cons in Hs as [Hf Hs].
    apply Forall_cons in Hb as [(Hlo & Hhi & Hc) Hb].
    apply Forall_cons in Hne as [Hk Hne]. simpl. destruct (klt k until) eqn:E.
    + apply klt_spec in E. destruct (IH Hs Hb Hne) as (out & rest & -> & -> & Ho & Hr).
      exists ((k, v) :: out), rest. split_and!; [done..| |done]. constructor; [|done].
      split_and!; done.
    + exists [], ((k, v) :: u). split_and!; [done..|constructor|].
      assert (until ≺ k) as Hlt.
      { apply key_trichotomy; [done|]. by rewrite <-klt_spec, E. }
      constructor; [split_and!; done|]. rewrite Forall_forall in Hb, Hf |- *.
      intros p Hp. destruct (Hb p Hp) as (_ & ? & ?). split_and!; [|done..].
      eapply kcmp_trans; [exact Hlt|]. by apply Hf.
Qed.

(** The four runs of unknown keys a message is written with. *)
Lemma unknown_runs u :
  unknown_ok u = true →
  ∃ u1 u2 u3 u4 r1 r2 r3,
    append_unknown u "&" = (u1, r1) ∧ append_unknown r1 "<" = (u2, r2) ∧
    append_unknown r2 "=" = (u3, r3) ∧ append_unknown r3 "~" = (u4, []) ∧
    u = u1 ++ u2 ++ u3 ++ u4 ∧
    Forall (between "#" "&") u1 ∧ Forall (between "&" "<") u2 ∧
    Forall (between "<" "=") u3 ∧ Forall (between "=" "~") u4.
Proof.
  unfold unknown_ok. intros [Hs Hf]%andb_true_iff.
  assert (Forall (λ p, between "#" "~" p ∧ p.1 ≠ "&" ∧ p.1 ≠ "<" ∧ p.1 ≠ "=") u) as Hall.
  { apply Forall_forall. intros p Hp. rewrite forallb_forall in Hf.
    specialize (Hf p (proj1 (list_elem_of_In _ _) Hp)).
    rewrite !andb_true_iff, !negb_true_iff, !klt_spec in Hf.
    destruct Hf as (((((H1 & H2) & H3) & H4) & H5) & H6).
    split_and!; [done| | |]; intros E; rewrite E in *; done. }
  clear Hf.
  assert (Forall (between "#" "~") u ∧ Forall (λ p, p.1 ≠ "&") u ∧
          Forall (λ p, p.1 ≠ "<") u ∧ Forall (λ p, p.1 ≠ "=") u) as (Hb & N1 & N2 & N3).
  { split_and!; eapply Forall_impl; try exact Hall; naive_solver. }
  destruct (append_unknown_cut u "#" "&" "~" Hs Hb N1) as (u1 & r1 & A1 & -> & B1 & Hr1).
  apply msorted_app in Hs as (_ & Hs & _). apply Forall_app in N2 as [_ N2], N3 as [_ N3].
  destruct (append_unknown_cut r1 "&" "<" "~" Hs Hr1 N2) as (u2 & r2 & A2 & -> & B2 & Hr2).
  apply msorted_app in Hs as (_ & Hs & _). apply Forall_app in N3 as [_ N3].
  destruct (append_unknown_cut r2 "<" "=" "~" Hs Hr2 N3) as (u3 & r3 & A3 & -> & B3 & Hr3).
  exists u1, u2, u3, r3, (u2 ++ u3 ++ r3), (u3 ++ r3), r3.
  split_and!; try done. clear -Hr3.
  induction Hr3 as [|[k v] r3 (Hlo & Hhi & _) _ IH]; [done|]. simpl in *.
  rewrite (proj2 (klt_spec k "~")) by done. by rewrite IH.
Qed.

Section codec.
Context `{BtLib, !BtLaws, Hash}.

(** [load_unknowns] reads back one run. *)
Lemma load_unknowns_run acc u tail prev until :
  msorted (acc ++ u) = true → Forall (between prev until) u →
  match tail with [] => True | (k, _) :: _ => ¬ k ≺ until end →
  load_unknowns acc (u ++ tail) prev until = Ok (acc ++ u, tail).
Proof.
  revert acc; induction u as [|[k v] u IH]; intros acc Hs Hb Ht; simpl app.
  - rewrite app_nil_r. destruct tail as [|[k v] tail]; [done|]. cbn [load_unknowns].
    destruct (klt k until) eqn:E; [by apply klt_spec in E|done].
  - apply Forall_cons in Hb as [(Hlo & Hhi & Hc) Hb]. simpl in *. cbn [load_unknowns].
    rewrite (proj2 (klt_spec k until)) by done. cbn [negb].
    rewrite (mlast_below acc u k v Hs).
    rewrite <-(klt_negb_kle prev k), (proj2 (klt_spec prev k)) by done.
    cbn [andb require mbind result_bind].
    assert (match v with
            | BtStr _ => Ok v
            | BtInt z => if z <? 0 then z ← consume_int64 z; Ok (BtInt z)
                         else z ← consume_uint64 z; Ok (BtInt z)
            | BtList _ | BtDict _ => consume_value v
            end = Ok v) as Hv.
    { destruct v as [|z| |]; [done| |by apply consume_value_canon..].
      simpl in Hc. unfold in_int64, in_uint64 in Hc.
      destruct (z <? 0) eqn:Ez.
      - rewrite consume_int64_fits; [done|]. unfold in_int64. lia.
      - rewrite consume_uint64_fits; [done|]. unfold in_uint64, int64_max, uint64_max in *. lia. }
    rewrite Hv. cbn [mbind result_bind].
    rewrite IH; [by rewrite <-app_assoc|by rewrite <-app_assoc|done..].
Qed.

Lemma parse_set_loop_round s acc :
  set_ok (acc ++ s) = true → parse_set_loop (bt_of_scalar <$> s) acc = Ok (acc ++ s).
Proof.
  revert acc; induction s as [|x s IH]; intros acc Hs; [by rewrite app_nil_r|].
  rewrite fmap_cons. cbn [parse_set_loop].
  assert ((match bt_of_scalar x with
           | BtInt z => z ← consume_int64 z; Ok (SInt z)
           | BtStr x => Ok (SStr x)
           | _ => Throw config_parse_error
           end : result scalar) = Ok x) as ->.
  { apply set_ok_spec in Hs as [_ Hf]. apply Forall_app in Hf as [_ Hf].
    apply Forall_cons in Hf as [Hx _]. destruct x; [|done]. simpl in *.
    by rewrite consume_int64_fits. }
  cbn [mbind result_bind].
  assert (match last acc with Some l => l ≺ x | None => True end) as Hl.
  { destruct (last acc) as [l|] eqn:El; [|done].
    apply last_Some in El as [acc' ->].
    apply set_ok_spec in Hs as [Hs _]. unfold ssorted, as_map in Hs.
    rewrite !fmap_app, msorted_app in Hs. destruct Hs as (_ & _ & Hf).
    rewrite Forall_app in Hf. destruct Hf as [_ Hf]. simpl in Hf.
    apply Forall_cons in Hf as [Hf _]. by apply Forall_cons in Hf as [? _]. }
  destruct (last acc) as [l|].
  - unfold keqb, klt. rewrite (kcmp_opp l x), Hl. simpl.
    rewrite IH; by rewrite <-app_assoc.
  - simpl. rewrite IH; by rewrite <-app_assoc.
Qed.

Lemma bt_of_value_dict d : bt_of_value (DDict d) = BtDict (bt_of_dict d).
Proof.
  simpl. f_equal. induction d as [|[k v] d IH]; [done|]. simpl. by f_equal.
Qed.

Lemma parse_dict_loop_round d acc :
  Forall (λ p, parse_value (bt_of_value p.2) = Ok p.2) d → msorted (acc ++ d) = true →
  parse_dict_loop (bt_of_dict d) acc = Ok (acc ++ d).
Proof.
  intros Hd; revert acc; induction Hd as [|[k v] d Hv Hd IH]; intros acc Hs;
    [by rewrite app_nil_r|].
  cbn [bt_of_dict fmap list_fmap parse_dict_loop fst snd] in *.
  assert (match mlast acc with Some k' => negb (kle k k') | None => true end = true) as ->.
  { destruct acc as [|[k' v'] acc _] using rev_ind; [done|].
    unfold mlast. rewrite last_snoc. simpl. rewrite <-klt_negb_kle. apply klt_spec.
    rewrite <-app_assoc in Hs. apply msorted_app in Hs as (_ & Hs & _). simpl in Hs.
    apply msorted_cons in Hs as [Hf _]. by apply Forall_cons in Hf as [? _]. }
  cbn [require mbind result_bind]. rewrite Hv. cbn [mbind result_bind].
  unfold bt_of_dict in IH. rewrite IH; by rewrite <-app_assoc.
Qed.

Lemma parse_value_round v :
  value_ok v = true → value_pruned v = true → parse_value (bt_of_value v) = Ok v.
Proof.
  induction v as [d IH|s|x] using dict_value_ind'; intros Hok Hp.
  - rewrite bt_of_value_dict, parse_value_dict.
    apply value_pruned_dict in Hp as [Hne Hp].
    replace (is_nil (bt_of_dict d)) with false by (by destruct d).
    rewrite (parse_dict_loop_round d []); [done| |by apply dict_ok_sorted].
    rewrite Forall_forall in IH |- *. intros [k v] Hin.
    apply dict_ok_spec in Hok as [_ Hok]. rewrite dict_pruned_spec in Hp.
    apply (IH (k, v)); eauto.
  - simpl. unfold parse_set. destruct s as [|x s]; [done|].
    simpl is_nil. cbn iota. by rewrite (parse_set_loop_round (x :: s) []).
  - destruct x; [|done]. simpl in *. by rewrite consume_int64_fits.
Qed.

Lemma parse_data_round d :
  dict_ok d = true → dict_pruned d = true → parse_data (bt_of_dict d) = Ok d.
Proof.
  intros Hok Hp. unfold parse_data. rewrite (parse_dict_loop_round d []); [done| |].
  - apply Forall_forall. intros [k v] Hin. apply dict_ok_spec in Hok as [_ Hok].
    rewrite dict_pruned_spec in Hp. apply parse_value_round; eauto.
  - by apply dict_ok_sorted.
Qed.
End codec.

(** ** What is written is canonical *)
Lemma bt_canon_dict d :
  bt_canon (BtDict d) = true ↔ msorted d = true ∧ ∀ k v, (k, v) ∈ d → bt_canon v = true.
Proof.
  simpl. rewrite andb_true_iff, forallb_forall. setoid_rewrite <-list_elem_of_In.
  split; intros [Hs Hf]; split; auto.
  - intros k v. apply (Hf (k, v)).
  - intros [k v]. apply Hf.
Qed.

Lemma diff_ok_canon v : diff_ok v = true → bt_canon v = true.
Proof.
  induction v as [s|z|l IH|d IH] using bt_value_ind'; intros Hok; [done..| |].
  - apply diff_ok_list_inv in Hok as (a & r & -> & Ha & Hr).
    cbn [bt_canon forallb]. rewrite !andb_true_iff.
    split_and!; try done; by apply bt_canon_scalars.
  - apply diff_ok_dict in Hok as [Hs Hok]. apply bt_canon_dict. split; [done|].
    intros k v Hin. rewrite Forall_forall in IH. apply (IH (k, v)); eauto.
Qed.

Lemma msorted_bt_of_dict d : msorted (bt_of_dict d) = msorted d.
Proof.
  induction d as [|[k v] d IH]; [done|]. unfold msorted in *; simpl in *. rewrite IH.
  by destruct d as [|[] ?].
Qed.

Lemma bt_of_value_canon v : value_ok v = true → bt_canon (bt_of_value v) = true.
Proof.
  induction v as [d IH|s|x] using dict_value_ind'; intros Hok.
  - rewrite bt_of_value_dict. apply bt_canon_dict.
    rewrite msorted_bt_of_dict. apply dict_ok_spec in Hok as [Hs Hok]. split; [done|].
    intros k w Hin. apply list_elem_of_fmap in Hin as ([k' v'] & [= -> ->] & Hin).
    rewrite Forall_forall in IH. apply (IH (k', v')); eauto.
  - by apply bt_canon_scalars.
  - destruct x; simpl in *; [|done]. by rewrite Hok.
Qed.

Lemma lag_entry_canon e :
  in_int64 e.1.1 = true → diff_ok (BtDict e.2) = true → bt_canon (lag_entry e) = true.
Proof.
  intros Hi Hd. unfold lag_entry. cbn [bt_canon forallb].
  apply diff_ok_canon in Hd. cbn [bt_canon] in Hd. by rewrite Hi, Hd.
Qed.

Lemma message_wf_spec m :
  message_wf m = true →
    message_ok m = true ∧ diff_ok (BtDict (diff_ m)) = true ∧
    (∀ e, e ∈ lagged_diffs_ m → diff_ok (BtDict e.2) = true) ∧
    unknown_ok (unknown_ m) = true ∧
    (∀ s, verified_signature_ m = Some s → size s = 64) ∧
    in_int64 (seqno m - lag m) = true.
Proof.
  unfold message_wf. rewrite !andb_true_iff. intros (((((H1 & H2) & H3) & H4) & H5) & H6).
  split_and!; try done.
  - intros e He. rewrite forallb_forall in H3. by apply H3, list_elem_of_In.
  - intros s Hs. rewrite Hs in H5. lia.
Qed.

(** A run of unknown keys between two known ones keeps the whole ordered. *)
Lemma msorted_run lo hi x y u rest :
  lo ≺ hi → msorted u = true → Forall (between lo hi) u → msorted ((hi, y) :: rest) = true →
  msorted ((lo, x) :: u ++ (hi, y) :: rest) = true.
Proof.
  intros Hlt Hs Hb Hr. pose proof Hr as [Hf _]%msorted_cons.
  apply msorted_cons. rewrite Forall_app, Forall_cons, msorted_app.
  split_and!; try done.
  - eapply Forall_impl; [exact Hb|]. by intros p (? & _).
  - by eapply key_below_trans.
  - eapply Forall_impl; [exact Hb|]. intros p (_ & Hp & _).
    constructor; [done|]. by eapply key_below_trans.
Qed.

Lemma between_canon lo hi u k v :
  Forall (between lo hi) u → (k, v) ∈ u → bt_canon v = true.
Proof. intros Hb Hin. rewrite Forall_forall in Hb. by destruct (Hb _ Hin) as (_ & _ & ?). Qed.

Section codec_message.
Context `{BtLib, !BtLaws, Hash}.

(** Whatever a loaded seqno in the window is, it is a 64-bit integer. *)
Lemma lag_seqno_int64 m sh d :
  message_ok m = true → in_int64 (seqno m - lag m) = true →
  (sh, d) ∈ lagged_diffs_ m → in_int64 sh.1 = true.
Proof.
  intros (_ & _ & Hi & [_ Hl]%lags_ok_spec)%message_ok_spec Hlo Hin.
  apply Hl in Hin as [Hw _]. rewrite in_int64_spec in *. lia.
Qed.

Lemma parse_lagged_round lags acc s lg :
  in_int64 (s - lg) = true → msorted (acc ++ lags) = true →
  (∀ e, e ∈ lags → s - lg < e.1.1 < s ∧ size e.1.2 = 32 ∧ in_int64 e.1.1 = true ∧
                   diff_ok (BtDict e.2) = true) →
  parse_lagged_diffs acc (lag_entry <$> lags) s lg = Ok (acc ++ lags).
Proof.
  intros Hlo; revert acc; induction lags as [|[[sq hash] df] lags IH]; intros acc Hs Hl.
  - by rewrite app_nil_r.
  - rewrite fmap_cons. unfold lag_entry at 1. cbn [parse_lagged_diffs fst snd].
    destruct (Hl ((sq, hash), df)) as (Hw & Hsz & Hi & Hd); [set_solver|].
    simpl in Hw, Hsz, Hi, Hd. rewrite consume_int64_fits by done. cbn [mbind result_bind].
    destruct (s <=? sq) eqn:E1; [lia|]. unfold sub_i64. rewrite Hlo. cbn [mbind result_bind].
    destruct (sq <=? s - lg) eqn:E2; [lia|]. rewrite Hsz. cbn [Z.eqb Pos.eqb require mbind result_bind].
    assert (match mlast acc with Some k => negb (kle (sq, hash) k) | None => true end = true) as ->.
    { destruct acc as [|[k' v'] acc _] using rev_ind; [done|].
      unfold mlast. rewrite last_snoc. cbn [fmap option_fmap option_map fst].
      rewrite <-klt_negb_kle. apply klt_spec.
      rewrite <-app_assoc in Hs. apply msorted_app in Hs as (_ & Hs & _). simpl app in Hs.
      apply msorted_cons in Hs as [Hf _]. by apply Forall_cons in Hf as [? _]. }
    cbn [require mbind result_bind]. rewrite load_diff_ok by done.
    cbn [mbind result_bind is_nil require].
    rewrite IH; [by rewrite <-app_assoc|by rewrite <-app_assoc|set_solver].
Qed.

Lemma in_lag_all m :
  message_ok m = true →
  List.filter (in_lag m (seqno m - lag m)) (lagged_diffs_ m) = lagged_diffs_ m.
Proof.
  intros (_ & _ & _ & [_ Hl]%lags_ok_spec)%message_ok_spec.
  rewrite (List.filter_ext_in _ (λ _, true)); [apply List.filter_true|].
  intros [sh d] Hin%list_elem_of_In. apply Hl in Hin as [Hw _]. unfold in_lag. simpl. lia.
Qed.

Lemma live_lags_all m :
  message_ok m = true → in_int64 (seqno m - lag m) = true →
  live_lags m = Ok (lagged_diffs_ m).
Proof.
  intros Hok Hlo. unfold live_lags, sub_i64. rewrite Hlo.
  destruct (is_nil (lagged_diffs_ m)) eqn:E; simpl.
  - by destruct (lagged_diffs_ m).
  - by rewrite in_lag_all.
Qed.

(** What [serialize_impl] writes, given the runs of unknown keys. *)
Definition layout (m : ConfigMessage) (u1 u2 u3 u4 tail : bt_dict) : bt_dict :=
  ("#", BtInt (seqno m)) :: u1 ++
  ("&", BtDict (bt_of_dict (data_ m))) :: u2 ++
  ("<", BtList (lag_entry <$> lagged_diffs_ m)) :: u3 ++
  ("=", BtDict (diff_ m)) :: u4 ++ tail.

Lemma layout_app m u1 u2 u3 u4 tail :
  layout m u1 u2 u3 u4 [] ++ tail = layout m u1 u2 u3 u4 tail.
Proof.
  unfold layout. rewrite app_nil_r.
  by repeat first [rewrite <-app_comm_cons | rewrite <-app_assoc].
Qed.

Section runs.
Context (m : ConfigMessage) (u1 u2 u3 u4 : bt_dict).
Context (Hwf : message_wf m = true) (Hue : unknown_ m = u1 ++ u2 ++ u3 ++ u4).
Context (B1 : Forall (between "#" "&") u1) (B2 : Forall (between "&" "<") u2)
        (B3 : Forall (between "<" "=") u3) (B4 : Forall (between "=" "~") u4).

Lemma runs_sorted : msorted (u1 ++ u2 ++ u3 ++ u4) = true.
Proof.
  apply message_wf_spec in Hwf as (_ & _ & _ & Hu & _). rewrite Hue in Hu.
  unfold unknown_ok in Hu. by apply andb_true_iff in Hu as [? _].
Qed.

Lemma layout_canon tail :
  (tail = [] ∨ ∃ sig, tail = [("~", BtStr sig)]) →
  bt_canon (BtDict (layout m u1 u2 u3 u4 tail)) = true.
Proof.
  intros Ht. pose proof Hwf as (Hok & Hd & Hld & _ & _ & Hlo)%message_wf_spec.
  pose proof Hok as (Hdat & _ & Hsq & _)%message_ok_spec.
  pose proof runs_sorted as Hs. rewrite !msorted_app in Hs.
  destruct Hs as (Hs1 & (Hs2 & (Hs3 & Hs4 & _) & _) & _).
  apply bt_canon_dict. split.
  - unfold layout. apply msorted_run; [done..|]. apply msorted_run; [done..|].
    apply msorted_run; [done..|]. apply msorted_cons.
    destruct Ht as [->|[sig ->]].
    + rewrite app_nil_r. split; [|done]. eapply Forall_impl; [exact B4|]. by intros p (? & _).
    + rewrite msorted_app, Forall_app. split_and!; try done.
      * eapply Forall_impl; [exact B4|]. by intros p (? & _).
      * by repeat constructor.
      * eapply Forall_impl; [exact B4|]. intros p (_ & ? & _). by repeat constructor.
  - intros k v Hin. unfold layout in Hin.
    repeat (apply elem_of_cons in Hin as [[= -> ->]|Hin] ||
            (apply elem_of_app in Hin as [Hin|Hin]; [eapply between_canon; [|exact Hin]; eassumption|])).
    + cbn. by rewrite Hsq.
    + rewrite <-bt_of_value_dict. by apply bt_of_value_canon.
    + simpl. apply forallb_forall. intros w Hw%list_elem_of_In.
      apply list_elem_of_fmap in Hw as ([sh df] & -> & He).
      apply lag_entry_canon; [by eapply lag_seqno_int64|by apply (Hld (sh, df))].
    + by apply diff_ok_canon.
    + destruct Ht as [->|[sig ->]]; [by apply not_elem_of_nil in Hin|].
      apply list_elem_of_singleton in Hin. by simplify_eq.
Qed.

Lemma layout_parse raw tail v s trust :
  (tail = [] ∨ ∃ sig, tail = [("~", BtStr sig)]) →
  parse_body raw (layout m u1 u2 u3 u4 tail) v s (lag m) trust =
    (sig ← verify_config_sig raw tail v trust;
     Ok (mkConfigMessage (data_ m) (diff_ m) (lagged_diffs_ m) (unknown_ m)
           (seqno m, blake2b raw) sig None v s (lag m))).
Proof.
  intros Ht. pose proof Hwf as (Hok & Hd & Hld & _ & _ & Hlo)%message_wf_spec.
  pose proof Hok as (Hdat & Hpr & Hsq & Hl)%message_ok_spec.
  pose proof runs_sorted as Hs.
  assert (msorted (u1 ++ u2) = true) as Hs2.
  { rewrite (app_assoc u1 u2) in Hs. by apply msorted_app in Hs as (? & _). }
  assert (msorted ((u1 ++ u2) ++ u3) = true) as Hs3.
  { rewrite (app_assoc u1 u2), (app_assoc _ u3) in Hs. by apply msorted_app in Hs as (? & _). }
  unfold parse_body, layout.
  unfold take_seqno at 1. rewrite consume_int64_fits by done. simpl mbind.
  rewrite (load_unknowns_run []); [|by apply msorted_app in Hs as (? & _)|done..].
  cbn [mbind result_bind app]. unfold take_data at 1. cbn [keqb].
  rewrite keqb_refl, parse_data_round by done. cbn [mbind result_bind].
  rewrite (load_unknowns_run u1) by done.
  cbn [mbind result_bind]. unfold take_lagged at 1. cbn [next_key mbind result_bind].
  rewrite keqb_refl, (parse_lagged_round _ []); [|done|by apply lags_ok_spec in Hl as [? _]|].
  2: { intros [sh df] He. apply lags_ok_spec in Hl as [_ Hl].
       destruct (Hl _ _ He). split_and!; try tauto; [by eapply lag_seqno_int64|].
       by apply (Hld (sh, df)). }
  cbn [mbind result_bind app].
  rewrite (load_unknowns_run (u1 ++ u2)) by done.
  cbn [mbind result_bind]. unfold take_diff at 1. cbn [next_key mbind result_bind].
  rewrite keqb_refl, load_diff_ok by done. cbn [mbind result_bind].
  rewrite (load_unknowns_run ((u1 ++ u2) ++ u3)); [|by rewrite <-!app_assoc|done|].
  - cbn [mbind result_bind]. by rewrite Hue, <-!app_assoc.
  - destruct Ht as [->|[sig ->]]; done.
Qed.
End runs.

(** The message a reader gets: the same content with the hash of the bytes. *)
Definition reread (m : ConfigMessage) (ser : bytes) (sig : option bytes)
    (v : verify_callable) (s : sign_callable) : ConfigMessage :=
  mkConfigMessage (data_ m) (diff_ m) (lagged_diffs_ m) (unknown_ m)
    (seqno m, blake2b ser) sig None v s (lag m).

Lemma serialize_pairs_layout m :
  message_wf m = true →
  ∃ u1 u2 u3 u4,
    serialize_pairs m (diff_ m) = Ok (layout m u1 u2 u3 u4 []) ∧
    unknown_ m = u1 ++ u2 ++ u3 ++ u4 ∧
    Forall (between "#" "&") u1 ∧ Forall (between "&" "<") u2 ∧
    Forall (between "<" "=") u3 ∧ Forall (between "=" "~") u4.
Proof.
  intros (Hok & _ & _ & Hu & _ & Hlo)%message_wf_spec.
  destruct (unknown_runs _ Hu) as
    (u1 & u2 & u3 & u4 & r1 & r2 & r3 & A1 & A2 & A3 & A4 & Hue & Hb).
  exists u1, u2, u3, u4. split; [|done].
  unfold serialize_pairs. rewrite A1, A2, A3, A4, live_lags_all by done.
  unfold layout. by rewrite app_nil_r.
Qed.

(** Writing a well-formed message and reading it back, up to the signature. *)
Lemma write_read m tail v s trust :
  message_wf m = true → (tail = [] ∨ ∃ sig, tail = [("~", BtStr sig)]) →
  ∃ pairs, serialize_pairs m (diff_ m) = Ok pairs ∧
    bt_canon (BtDict (pairs ++ tail)) = true ∧
    parse_message (bt_dump (pairs ++ tail)) v s (lag m) trust =
      match verify_config_sig (bt_dump (pairs ++ tail)) tail v trust with
      | Ok sig => Ok (reread m (bt_dump (pairs ++ tail)) sig v s)
      | Throw bt_deserialize_invalid => Throw config_parse_error
      | Throw e => Throw e
      end.
Proof.
  intros Hwf Ht.
  destruct (serialize_pairs_layout m Hwf) as (u1 & u2 & u3 & u4 & Hp & Hue & B1 & B2 & B3 & B4).
  exists (layout m u1 u2 u3 u4 []). rewrite layout_app.
  pose proof (layout_canon m u1 u2 u3 u4 Hwf Hue B1 B2 B3 B4 tail Ht) as Hc.
  split_and!; [done..|]. unfold parse_message.
  rewrite bt_open_dump, bt_load_dump by done. simpl mbind.
  rewrite layout_parse by done.
  by destruct (verify_config_sig _ _ _ _) as [|[]].
Qed.

(** C8 (write then read): a well-formed message can be serialized (unsigned,
    as for a local dump) and parsing the bytes gives the message back: data,
    diff, lagged diffs, the unknown keys it carried and its signature. *)
Theorem serialize_parse_roundtrip m :
  message_wf m = true →
  ∃ ser, serialize_impl m (diff_ m) false = Ok ser ∧
    parse_message ser None None (lag m) true =
      Ok (reread m ser (verified_signature_ m) None None).
Proof.
  intros Hwf. pose proof Hwf as (_ & _ & _ & _ & Hsig & _)%message_wf_spec.
  destruct (verified_signature_ m) as [sg|] eqn:Es.
  - destruct (write_read m [("~", BtStr sg)] None None true Hwf) as (pairs & Hp & _ & Hr); [eauto|].
    exists (bt_dump (pairs ++ [("~", BtStr sg)])). unfold serialize_impl. rewrite Hp, Es.
    split; [done|]. rewrite Hr. unfold verify_config_sig. simpl skip_until. cbn iota.
    by rewrite Hsig.
  - destruct (write_read m [] None None true Hwf) as (pairs & Hp & _ & Hr); [eauto|].
    exists (bt_dump pairs). rewrite app_nil_r in Hr. unfold serialize_impl. rewrite Hp, Es.
    split; [by destruct (signer m)|]. by rewrite Hr.
Qed.

(** (sign then verify): a well-formed message without a recorded signature
    that is signed by a signer whose signatures the verifier accepts is
    accepted by every reader with that verifier, which records the
    signature. *)
Theorem sign_verify_roundtrip m sign f s trust :
  message_wf m = true → verified_signature_ m = None → signer m = Some sign →
  (∀ msg, ∃ sig, sign msg = Ok sig ∧ size sig = 64 ∧ f msg sig = true) →
  ∃ ser sig, serialize_impl m (diff_ m) true = Ok ser ∧
    parse_message ser (Some f) s (lag m) trust = Ok (reread m ser (Some sig) (Some f) s).
Proof.
  intros Hwf Hnone Hs Hsound.
  destruct (write_read m [] (Some f) s trust Hwf) as (pairs & Hp & _ & _); [eauto|].
  destruct (Hsound (bt_body pairs)) as (sig & Hsig & Hsz & Hf).
  destruct (write_read m [("~", BtStr sig)] (Some f) s trust Hwf) as (pairs' & Hp' & Hc & Hr);
    [eauto|]. rewrite Hp in Hp'. injection Hp' as <-.
  exists (bt_dump (pairs ++ [("~", BtStr sig)])), sig.
  unfold serialize_impl. rewrite Hp, Hnone, Hs. simpl mbind. rewrite Hsig. simpl mbind.
  rewrite Hsz. split; [done|]. rewrite Hr. unfold verify_config_sig. simpl skip_until.
  cbn iota. rewrite Hsz, bt_signed_dump, Hf by done. done.
Qed.
End codec_message.

(** ** Witnesses *)

Definition sample_message : ConfigMessage :=
  mkConfigMessage
    [("a", DScalar (SInt 1)); ("s", DSet [SInt 2; SStr "z"])]
    [("a", BtStr "")]
    [((6, blake2b "x"), [("s", BtList [BtList [BtInt 2]; BtList []])])]
    [("%", BtInt 3); ("@", BtList [BtStr "later"])]
    (7, blake2b "y") None None None
    (Some (λ msg, Ok (generichash 64 "" msg))) 5.

Definition sample_verify (msg sig : bytes) : bool := keqb sig (generichash 64 "" msg).

Lemma serialize_parse_roundtrip_witness :
  ∃ ser, serialize_impl sample_message (diff_ sample_message) false = Ok ser ∧
    parse_message ser None None 5 true = Ok (reread sample_message ser None None None).
Proof. apply (serialize_parse_roundtrip sample_message). reflexivity. Defined.

Lemma sign_verify_roundtrip_witness :
  ∃ ser sig, serialize_impl sample_message (diff_ sample_message) true = Ok ser ∧
    parse_message ser (Some sample_verify) None 5 false =
      Ok (reread sample_message ser (Some sig) (Some sample_verify) None).
Proof.
  apply (sign_verify_roundtrip sample_message (λ msg, Ok (generichash 64 "" msg))
           sample_verify None false); [reflexivity..|].
  intros msg. exists (generichash 64 "" msg). split; [reflexivity|].
  split; [apply generichash_size; lia|]. unfold sample_verify. apply keqb_refl.
Defined.

Definition sample_bytes : bytes :=
  match serialize_impl sample_message (diff_ sample_message) true with
  | Ok ser => ser
  | Throw _ => ""
  end.

Definition sample_parsed : ConfigMessage :=
  match parse_message sample_bytes (Some sample_verify) None 5 false with
  | Ok m => m
  | Throw _ => sample_message
  end.

Lemma parse_message_ok_witness :
  parse_message sample_bytes (Some sample_verify) None 5 false = Ok sample_parsed ∧
  message_ok sample_parsed = true ∧
  seqno_hash_ sample_parsed = (seqno sample_parsed, blake2b sample_bytes) ∧
  lag sample_parsed = 5 ∧ unmerged_ sample_parsed = None.
Proof.
  assert (parse_message sample_bytes (Some sample_verify) None 5 false = Ok sample_parsed) as Hp
    by (vm_compute; reflexivity).
  split; [exact Hp|].
  apply (parse_message_ok sample_bytes (Some sample_verify) None 5 false sample_parsed Hp).
Defined.

Lemma parse_message_verified_witness :
  parse_message sample_bytes (Some sample_verify) None 5 false = Ok sample_parsed ∧
  ∃ sg, verified_signature_ sample_parsed = Some sg ∧ size sg = 64 ∧
        sample_verify (bt_signed sample_bytes) sg = true.
Proof.
  assert (parse_message sample_bytes (Some sample_verify) None 5 false = Ok sample_parsed) as Hp
    by (vm_compute; reflexivity).
  split; [exact Hp|].
  apply (parse_message_verified sample_bytes (Some sample_verify) None 5 false sample_parsed Hp).
Defined.
