(* ===== verification/ConfigMerge.v ===== *)
(** * Merging config messages

    The conflict resolution of the merging constructor of [ConfigMessage]
    ([merge_loaded] of ConfigMessage.v): which messages take part, that the
    outcome does not depend on the order in which the messages arrive, how the
    seqno advances, and what the merged data is. *)

From Stdlib Require Import ZArith String Lia Sorting.Sorted.
From stdpp Require Import base option list strings numbers sorting sets.
From S2P Require Import Prelude OrderedMap Bt Bencode Crypto ConfigData ConfigDiff ConfigMessage ConfigCodec.

Definition sh (m : ConfigMessage) : seqno_hash_t := seqno_hash_ m.

(** ** The redundancy flags *)
Definition flag (all : list ConfigMessage) (lg max : Z) (i : nat) (m : ConfigMessage) : bool :=
  included i 0 (sh m) all || (seqno m + lg <=? max).

Definition marks (all : list ConfigMessage) (lg max : Z) : list (ConfigMessage * bool) :=
  imap (λ i m, (m, flag all lg max i m)) all.

(** The messages that take part in the merge. *)
Definition kept (all : list ConfigMessage) (lg : Z) : list ConfigMessage :=
  fst <$> List.filter (λ c, negb c.2) (marks all lg (max_seqno all)).

(** No addition of the lag to a seqno overflows. *)
Definition lag_fits (lg : Z) (all : list ConfigMessage) : bool :=
  forallb (λ m, in_int64 (seqno m + lg)) all.

Lemma mark_redundant_imap i all rest lg max :
  lag_fits lg rest = true →
  mark_redundant i all rest lg max =
    Ok (imap (λ p m, (m, flag all lg max (i + p)%nat m)) rest).
Proof.
  revert i; induction rest as [|m rest IH]; intros i Hf; [done|].
  unfold lag_fits in Hf. simpl in Hf. apply andb_true_iff in Hf as [Hm Hf].
  cbn [mark_redundant]. unfold add_i64. rewrite Hm. simpl mbind.
  rewrite IH by done. simpl mbind. rewrite imap_cons, Nat.add_0_r.
  f_equal. f_equal. apply imap_ext. intros p x _. simpl. by rewrite Nat.add_succ_r.
Qed.

Lemma mark_redundant_marks all lg :
  lag_fits lg all = true →
  mark_redundant 0 all all lg (max_seqno all) = Ok (marks all lg (max_seqno all)).
Proof. intros Hf. by rewrite mark_redundant_imap. Qed.

Lemma included_spec i j x cs :
  included i j x cs = true ↔
    ∃ q c, cs !! q = Some c ∧ i ≠ (j + q)%nat ∧
      (is_some (mfind x (lagged_diffs_ c)) = true ∨ ((j + q < i)%nat ∧ sh c = x)).
Proof.
  revert j; induction cs as [|c cs IH]; intros j; simpl.
  - split; [done|]. by intros (q & c & Hq & _).
  - rewrite orb_true_iff, andb_true_iff, orb_true_iff, andb_true_iff, IH,
      negb_true_iff, Nat.eqb_neq, Nat.ltb_lt, keqb_spec. split.
    + intros [[Hne Hc]|(q & c' & Hq & Hne & Hc)].
      * exists 0%nat, c. rewrite Nat.add_0_r. done.
      * exists (S q), c'. rewrite Nat.add_succ_r. done.
    + intros (q & c' & Hq & Hne & Hc). destruct q as [|q].
      * rewrite Nat.add_0_r in *. simplify_eq/=. by left.
      * rewrite Nat.add_succ_r in *. right. by exists q, c'.
Qed.

Lemma elem_kept all lg m :
  m ∈ kept all lg ↔ ∃ p, all !! p = Some m ∧ flag all lg (max_seqno all) p m = false.
Proof.
  unfold kept. rewrite list_elem_of_fmap. split.
  - intros ([m' b] & -> & Hin). apply list_elem_of_In, filter_In in Hin as [Hin Hb].
    apply list_elem_of_In, elem_of_lookup_imap_1 in Hin as (p & y & Heq & Hp).
    simplify_eq/=. exists p. by apply negb_true_iff in Hb.
  - intros (p & Hp & Hf). exists (m, false). split; [done|].
    apply list_elem_of_In, filter_In. split; [|done]. apply list_elem_of_In.
    rewrite <-Hf. by apply (elem_of_lookup_imap_2 (λ i m, (m, flag all lg (max_seqno all) i m))).
Qed.

(** ** The hypotheses on a family of messages *)

(** Two messages with the same seqno and hash are the same message (the hash
    does not collide on them), and lagged diffs are older than their message
    (guaranteed by [parse_message_ok]). *)
Record coherent (all : list ConfigMessage) : Prop := {
  co_same : ∀ a b, a ∈ all → b ∈ all → sh a = sh b → a = b;
  co_lags : ∀ m x d, m ∈ all → (x, d) ∈ lagged_diffs_ m → x.1 < seqno m;
}.

Lemma coherent_perm all all' : all ≡ₚ all' → coherent all → coherent all'.
Proof.
  intros Hp [H1 H2]. split.
  - intros a b Ha Hb. apply H1; by rewrite Hp.
  - intros m x d Hm. apply H2. by rewrite Hp.
Qed.

Section coherent.
Context (all : list ConfigMessage) (lg : Z) (Hco : coherent all).

Lemma own_hash_not_lagged m : m ∈ all → mfind (sh m) (lagged_diffs_ m) = None.
Proof.
  intros Hm. destruct (mfind (sh m) (lagged_diffs_ m)) as [d|] eqn:E; [|done].
  apply mfind_Some_In in E. apply (co_lags _ Hco m (sh m) d) in E; [|done].
  unfold sh, seqno in E. lia.
Qed.

(** The first occurrence of a message. *)
Lemma first_occurrence m :
  m ∈ all → ∃ p, all !! p = Some m ∧ ∀ q c, (q < p)%nat → all !! q = Some c → sh c ≠ sh m.
Proof.
  intros Hm. apply list_elem_of_lookup in Hm as [p Hp].
  induction p as [p IH] using lt_wf_ind.
  destruct (existsb (λ c, keqb (sh c) (sh m)) (take p all)) eqn:E.
  - apply existsb_exists in E as (c & Hc & Hsh%keqb_spec).
    apply list_elem_of_In, list_elem_of_lookup in Hc as [q Hq].
    apply lookup_take_Some in Hq as [Hq Hlt].
    assert (c = m) as -> by (apply (co_same _ Hco); eauto using list_elem_of_lookup_2).
    eauto.
  - exists p. split; [done|]. intros q c Hlt Hq Hsh.
    enough (existsb (λ c, keqb (sh c) (sh m)) (take p all) = true) by congruence.
    apply existsb_exists. exists c. split; [|by apply keqb_spec].
    apply list_elem_of_In, list_elem_of_lookup. exists q. by apply lookup_take_Some.
Qed.

(** A message takes part iff no message includes it and it is recent enough. *)
Lemma kept_spec m :
  m ∈ kept all lg ↔
    m ∈ all ∧ (∀ c, c ∈ all → mfind (sh m) (lagged_diffs_ c) = None) ∧
    max_seqno all < seqno m + lg.
Proof.
  rewrite elem_kept. unfold flag. setoid_rewrite orb_false_iff.
  setoid_rewrite Z.leb_gt. split.
  - intros (p & Hp & Hinc & Hold). pose proof (list_elem_of_lookup_2 _ _ _ Hp) as Hm.
    split_and!; [done| |done]. intros c Hc.
    destruct (mfind (sh m) (lagged_diffs_ c)) as [d|] eqn:E; [|done].
    apply list_elem_of_lookup in Hc as [q Hq]. destruct (decide (p = q)) as [->|Hne].
    + simplify_eq. by rewrite own_hash_not_lagged in E.
    + enough (included p 0 (sh m) all = true) by congruence.
      apply included_spec. exists q, c. rewrite E. auto.
  - intros (Hm & Hlag & Hold). destruct (first_occurrence m Hm) as (p & Hp & Hfirst).
    exists p. split_and!; [done| |done].
    destruct (included p 0 (sh m) all) eqn:E; [|done].
    apply included_spec in E as (q & c & Hq & _ & [Hc|[Hlt Hc]]).
    + rewrite Hlag in Hc; [done|]. by eapply list_elem_of_lookup_2.
    + by destruct (Hfirst q c).
Qed.

(** No two messages that take part have the same seqno and hash. *)
Lemma kept_distinct : NoDup (sh <$> kept all lg).
Proof.
  assert (∀ pre suf, all = pre ++ suf →
    NoDup (sh <$> (fst <$> List.filter (λ c, negb c.2)
      (imap (λ i m, (m, flag all lg (max_seqno all) (length pre + i)%nat m)) suf)))) as Haux.
  { intros pre suf; revert pre; induction suf as [|m suf IH]; intros pre Heq; [constructor|].
    rewrite imap_cons, Nat.add_0_r. simpl List.filter.
    assert (imap ((λ i m0, (m0, flag all lg (max_seqno all) (length pre + i)%nat m0)) ∘ S) suf =
            imap (λ i m0, (m0, flag all lg (max_seqno all) (length (pre ++ [m]) + i)%nat m0)) suf)
      as Hsh.
    { apply imap_ext. intros i x _. simpl. rewrite length_app. simpl. do 2 f_equal. lia. }
    rewrite Hsh. specialize (IH (pre ++ [m])). rewrite <-app_assoc in IH. specialize (IH Heq).
    destruct (flag all lg (max_seqno all) (length pre) m); [exact IH|]. simpl.
    constructor; [|exact IH]. intros (m' & Hshm & Hin)%list_elem_of_fmap.
    apply list_elem_of_fmap in Hin as ([m2 b] & -> & Hin).
    apply list_elem_of_In, filter_In in Hin as [Hin Hb].
    apply list_elem_of_In, elem_of_lookup_imap_1 in Hin as (p & y & Hy & Hp).
    injection Hy as -> ->. simpl in *. apply negb_true_iff in Hb. unfold flag in Hb.
    apply orb_false_iff in Hb as [Hb _].
    enough (included (length (pre ++ [m]) + p) 0 (sh y) (pre ++ m :: suf) = true)
      by (rewrite Heq in Hb; congruence).
    apply included_spec. exists (length pre), m. rewrite length_app. simpl.
    split_and!; [by rewrite lookup_app_r, Nat.sub_diag by lia|lia|right; split; [lia|done]]. }
  apply (Haux [] all eq_refl).
Qed.
End coherent.

Lemma max_seqno_perm all all' : all ≡ₚ all' → max_seqno all = max_seqno all'.
Proof. unfold max_seqno. induction 1; simpl; lia. Qed.

Lemma kept_perm all all' lg :
  coherent all → all ≡ₚ all' → kept all lg ≡ₚ kept all' lg.
Proof.
  intros Hco Hp. pose proof (coherent_perm _ _ Hp Hco) as Hco'.
  apply NoDup_Permutation.
  - eapply NoDup_fmap_1, kept_distinct; eauto.
  - eapply NoDup_fmap_1, kept_distinct; eauto.
  - pose proof (max_seqno_perm _ _ Hp) as Hmax.
    intros m. rewrite !kept_spec, Hmax by done. by setoid_rewrite Hp.
Qed.

(** ** The seqno bounds *)
Lemma max_seqno_ge all m : m ∈ all → seqno m ≤ max_seqno all.
Proof.
  unfold max_seqno. induction 1 as [|m m' l _ IH]; simpl; [lia|]. lia.
Qed.

Lemma max_seqno_attained all :
  all ≠ [] → (∀ m, m ∈ all → in_int64 (seqno m) = true) →
  ∃ m, m ∈ all ∧ seqno m = max_seqno all.
Proof.
  induction all as [|m all IH]; intros Hne Hi; [done|]. simpl.
  destruct all as [|m' all].
  - exists m. split; [set_solver|]. simpl.
    assert (in_int64 (seqno m) = true) as Hm by (apply Hi; set_solver).
    apply in_int64_spec in Hm. lia.
  - destruct IH as (m2 & Hin & Hm2); [done|set_solver|].
    change (foldr _ int64_min (m' :: all)) with (max_seqno (m' :: all)).
    destruct (Z.le_ge_cases (seqno m) (max_seqno (m' :: all))).
    + exists m2. split; [set_solver|]. rewrite Z.max_r; [done|]. done.
    + exists m. split; [set_solver|]. rewrite Z.max_l; [done|]. done.
Qed.

Lemma kept_has_max all lg :
  coherent all → 0 < lg → all ≠ [] → (∀ m, m ∈ all → in_int64 (seqno m) = true) →
  ∃ m, m ∈ kept all lg ∧ seqno m = max_seqno all.
Proof.
  intros Hco Hlg Hne Hi. destruct (max_seqno_attained all Hne Hi) as (m & Hm & Hmax).
  exists m. split; [|done]. apply kept_spec; [done|]. split_and!; [done| |lia].
  intros c Hc. destruct (mfind (sh m) (lagged_diffs_ c)) as [d|] eqn:E; [|done].
  apply mfind_Some_In in E. apply (co_lags _ Hco c) in E; [|done].
  pose proof (max_seqno_ge all c Hc). unfold sh, seqno in *. lia.
Qed.

(** ** Sorting *)
Definition newer (a b : ConfigMessage) : Prop := sh b ≺ sh a.

#[local] Instance newer_antisymm : AntiSymm eq newer.
Proof. intros a b H1 H2. by apply klt_asym in H1. Qed.

Lemma insert_desc_perm m l : insert_desc m l ≡ₚ m :: l.
Proof.
  induction l as [|m' l IH]; simpl; [done|]. destruct (klt _ _); [done|].
  rewrite IH. constructor.
Qed.

Lemma sort_desc_perm l : sort_desc l ≡ₚ l.
Proof. induction l as [|m l IH]; simpl; [done|]. by rewrite insert_desc_perm, IH. Qed.

Lemma insert_desc_sorted m l :
  Forall (λ m', sh m' ≠ sh m) l → StronglySorted newer l →
  StronglySorted newer (insert_desc m l).
Proof.
  intros Hne Hs. induction Hs as [|m' l Hs IH Hf]; simpl; [by repeat constructor|].
  apply Forall_cons in Hne as [Hm Hne]. destruct (klt _ _) eqn:E.
  - apply klt_spec in E. constructor; [by constructor|]. constructor; [done|].
    eapply Forall_impl; [exact Hf|]. intros x Hx. unfold newer in *. eauto using kcmp_trans.
  - constructor; [auto|]. rewrite insert_desc_perm. constructor; [|done].
    apply key_trichotomy; [done|]. unfold sh. by rewrite <-klt_spec, E.
Qed.

Lemma sort_desc_sorted l : NoDup (sh <$> l) → StronglySorted newer (sort_desc l).
Proof.
  induction l as [|m l IH]; intros Hnd; [constructor|].
  rewrite fmap_cons in Hnd. apply NoDup_cons in Hnd as [Hm Hnd]. simpl.
  apply insert_desc_sorted; [|auto]. rewrite sort_desc_perm.
  apply Forall_forall. intros m' Hin Heq. apply Hm. rewrite <-Heq.
  by apply list_elem_of_fmap_2.
Qed.

Lemma sort_desc_unique l l' : NoDup (sh <$> l) → l ≡ₚ l' → sort_desc l = sort_desc l'.
Proof.
  intros Hnd Hp. apply (StronglySorted_unique newer).
  - by apply sort_desc_sorted.
  - apply sort_desc_sorted. by rewrite <-Hp.
  - by rewrite !sort_desc_perm.
Qed.

(** ** The best message, for a reader that cannot sign *)
Lemma klt_false_trans `{OrdKey K} (a b c : K) :
  klt a b = false → klt b c = false → klt a c = false.
Proof.
  intros H1 H2. destruct (klt a c) eqn:E; [|done]. apply klt_spec in E.
  rewrite <-H2. symmetry. apply klt_spec. unfold klt in H1.
  kcases a b; [done..|]. by eapply kcmp_trans.
Qed.

Lemma worse_trans a b c : worse a b = false → worse b c = false → worse a c = false.
Proof.
  unfold worse. destruct a as [a [|]], b as [b [|]], c as [c [|]]; simpl; try done;
    apply klt_false_trans.
Qed.

Lemma worse_refl a : worse a a = false.
Proof. unfold worse. rewrite Bool.eqb_reflx. unfold klt. by rewrite kcmp_refl. Qed.

Lemma worse_asym a b : worse a b = true → worse b a = false.
Proof.
  unfold worse. destruct a as [a [|]], b as [b [|]]; simpl; try done;
    rewrite klt_spec; intros Hlt; unfold klt; rewrite (kcmp_opp (seqno_hash_ a)), Hlt; done.
Qed.

Lemma max_element_spec i best l r :
  max_element i best l = r →
  (r.2 = best.2 ∨ r.2 ∈ l) ∧ worse r.2 best.2 = false ∧ ∀ c, c ∈ l → worse r.2 c = false.
Proof.
  revert i best; induction l as [|c l IH]; intros i best Hr; simpl in Hr.
  - subst r. split_and!; [by left|apply worse_refl|]. by intros c ?%not_elem_of_nil.
  - apply IH in Hr as (Hin & Hb & Hl). destruct (worse best.2 c) eqn:E; simpl in *.
    + split_and!; [set_solver| |set_solver].
      eapply worse_trans; [exact Hb|]. by apply worse_asym.
    + split_and!; [set_solver|done|]. intros c' [->|Hc]%elem_of_cons; [|auto].
      by eapply worse_trans.
Qed.

Definition is_best (l : list ConfigMessage) (m : ConfigMessage) : Prop :=
  m ∈ l ∧ ∀ m', m' ∈ l → klt (sh m) (sh m') = false.

Lemma is_best_unique l m1 m2 :
  (∀ a b, a ∈ l → b ∈ l → sh a = sh b → a = b) → is_best l m1 → is_best l m2 → m1 = m2.
Proof.
  intros Hinj [Hin1 Hb1] [Hin2 Hb2]. apply Hinj; [done..|].
  specialize (Hb1 _ Hin2). specialize (Hb2 _ Hin1). unfold klt in *.
  rewrite (kcmp_opp (sh m1)) in Hb2. kcases (sh m1) (sh m2); done.
Qed.

Lemma max_element_best all lg c rest i r b :
  marks all lg (max_seqno all) = c :: rest → kept all lg ≠ [] →
  max_element 1 (0%nat, c) rest = (i, (r, b)) → is_best (kept all lg) r.
Proof.
  intros Hm Hne Hr. apply max_element_spec in Hr as (Hin & Hc & Hl). simpl in *.
  assert (∀ x, x ∈ marks all lg (max_seqno all) → worse (r, b) x = false) as Hall.
  { rewrite Hm. intros x [->|Hx]%elem_of_cons; auto. }
  assert ((r, b) ∈ marks all lg (max_seqno all)) as Hrin by (rewrite Hm; set_solver).
  assert (∀ m, m ∈ kept all lg → (m, false) ∈ marks all lg (max_seqno all)) as Hk.
  { intros m (p & Hp & Hf)%elem_kept. rewrite <-Hf.
    by apply (elem_of_lookup_imap_2 (λ i m, (m, flag all lg (max_seqno all) i m))). }
  destruct (kept all lg) as [|k0 ks] eqn:Ek; [done|].
  assert (b = false) as ->.
  { specialize (Hall _ (Hk k0 ltac:(set_solver))). by destruct b. }
  split.
  - rewrite <-Ek. unfold kept. apply list_elem_of_fmap. exists (r, false). split; [done|].
    apply list_elem_of_In, filter_In. split; [by apply list_elem_of_In|done].
  - intros m' Hm'. by specialize (Hall _ (Hk m' Hm')).
Qed.

(** ** The outcome of the merging constructor *)
Definition verify_only (v : verify_callable) (s : sign_callable) : bool :=
  is_some v && negb (is_some s).

(** Seqnos are 64-bit integers and adding the lag does not overflow. *)
Definition seqnos_fit (lg : Z) (all : list ConfigMessage) : Prop :=
  lag_fits lg all = true ∧ ∀ m, m ∈ all → in_int64 (seqno m) = true.

Lemma first_kept_spec j l :
  match first_kept j l with
  | Some (i, m) => ∃ p rest, i = (j + p)%nat ∧ l !! p = Some (m, false) ∧
                    List.filter (λ c, negb c.2) l = (m, false) :: rest
  | None => List.filter (λ c : ConfigMessage * bool, negb c.2) l = []
  end.
Proof.
  revert j; induction l as [|[m [|]] l IH]; intros j; simpl; [done| |].
  - specialize (IH (S j)). destruct (first_kept (S j) l) as [[i m']|]; [|done].
    destruct IH as (p & rest & -> & Hp & Hf). exists (S p), rest. split_and!; [lia|done..].
  - exists 0%nat. eexists. split_and!; [lia|done..].
Qed.

Lemma marks_lookup all lg max p m b :
  marks all lg max !! p = Some (m, b) → all !! p = Some m.
Proof.
  unfold marks. rewrite list_lookup_imap. destruct (all !! p); simpl; naive_solver.
Qed.

Lemma max_element_lookup i best l r :
  max_element i best l = r → r = best ∨ ∃ p, r.1 = (i + p)%nat ∧ l !! p = Some r.2.
Proof.
  revert i best; induction l as [|c l IH]; intros i best Hr; simpl in Hr; [by left|].
  apply IH in Hr as [Hr|(p & Hi & Hp)].
  - destruct (worse best.2 c); [right; exists 0%nat|by left].
    subst r. simpl. by rewrite Nat.add_0_r.
  - right. exists (S p). split; [lia|done].
Qed.

Section outcome.
Context `{BtLib, Hash}.

(** The three ways the constructor resolves a non-empty family: one message
    takes part and is used as it is; several do but the reader cannot sign,
    and the best one is used; or they are merged. *)
Lemma merge_loaded_cases all v s lg :
  coherent all → 0 < lg → seqnos_fit lg all → all ≠ [] →
  (∃ i k, kept all lg = [k] ∧ all !! i = Some k ∧
     merge_loaded all v s lg = Ok (with_unmerged (Some i) k)) ∨
  (length (kept all lg) ≠ 1%nat ∧ verify_only v s = true ∧
     ∃ i r, is_best (kept all lg) r ∧ all !! i = Some r ∧
       merge_loaded all v s lg = Ok (with_unmerged (Some i) r)) ∨
  (length (kept all lg) ≠ 1%nat ∧ verify_only v s = false ∧
     merge_loaded all v s lg = merge_configs (kept all lg) v s lg (max_seqno all)).
Proof.
  intros Hco Hlg [Hf Hi] Hne. destruct (kept_has_max all lg Hco Hlg Hne Hi) as (mx & Hmx & _).
  unfold merge_loaded. destruct all as [|a0 all0]; [done|]. cbn [is_nil].
  set (all := a0 :: all0) in *. rewrite mark_redundant_marks by done. rewrite bind_ret.
  pose proof (first_kept_spec 0 (marks all lg (max_seqno all))) as Hfk.
  unfold kept in *. fold (verify_only v s).
  destruct (List.filter _ (marks all lg (max_seqno all))) as [|[k b] [|c2 ks]] eqn:Ek.
  { simpl in Hmx. by apply not_elem_of_nil in Hmx. }
  - destruct (first_kept 0 _) as [[i m]|]; [|done].
    destruct Hfk as (p & rest & -> & Hp & [= -> -> _]). left. exists (0 + p)%nat, m.
    split_and!; [done|by eapply marks_lookup|done].
  - destruct (first_kept 0 _) as [[i m]|]; [|done]. right.
    destruct (marks all lg (max_seqno all)) as [|c rest] eqn:Em; [done|].
    destruct (verify_only v s) eqn:Ev; [left|by right; auto].
    split_and!; [done..|]. destruct (max_element 1 (0%nat, c) rest) as [j [r b']] eqn:Er.
    assert (is_best (kept all lg) r) as Hbest.
    { eapply max_element_best; [exact Em| |exact Er]. unfold kept. by rewrite Em, Ek. }
    exists j, r. split_and!; [|eapply (marks_lookup _ lg (max_seqno all))|done].
    + unfold kept in Hbest. by rewrite Em, Ek in Hbest.
    + rewrite Em. apply max_element_lookup in Er as [Er|(q & Hq & Hr)].
      * by injection Er as -> <-.
      * simpl in *. rewrite Hq. exact Hr.
Qed.

Lemma merge_configs_perm K K' v s lg mx :
  NoDup (sh <$> K) → K ≡ₚ K' → merge_configs K v s lg mx = merge_configs K' v s lg mx.
Proof. intros Hnd Hp. unfold merge_configs. by rewrite (sort_desc_unique K K'). Qed.

Lemma seqnos_fit_perm lg all all' : all ≡ₚ all' → seqnos_fit lg all → seqnos_fit lg all'.
Proof.
  intros Hp [Hf Hi]. split.
  - unfold lag_fits in *. rewrite forallb_forall in *. intros m Hm. apply Hf.
    apply list_elem_of_In. rewrite Hp. by apply list_elem_of_In.
  - intros m Hm. apply Hi. by rewrite Hp.
Qed.

(** Everything the constructor computes but the index of the input it used *)
Definition outcome (m : ConfigMessage) : ConfigMessage * bool :=
  (with_unmerged None m, merged m).

Lemma merge_loaded_perm all all' v s lg :
  coherent all → 0 < lg → seqnos_fit lg all → all ≡ₚ all' →
  outcome <$> merge_loaded all v s lg = outcome <$> merge_loaded all' v s lg.
Proof.
  intros Hco Hlg Hfit Hp. destruct (decide (all = [])) as [->|Hne].
  { by apply Permutation_nil_l in Hp as ->. }
  assert (all' ≠ []) as Hne'.
  { intros ->. by apply Permutation_nil_r in Hp. }
  pose proof (kept_perm all all' lg Hco Hp) as HK.
  pose proof (coherent_perm _ _ Hp Hco) as Hco'.
  pose proof (Permutation_length HK) as Hlen.
  destruct (merge_loaded_cases all v s lg) as
    [(i & k & Hk & _ & ->)|[(Hn & Hv & i & r & Hr & _ & ->)|(Hn & Hv & ->)]]; [done..| | |];
  (destruct (merge_loaded_cases all' v s lg) as
    [(i' & k' & Hk' & _ & ->)|[(Hn' & Hv' & i' & r' & Hr' & _ & ->)|(Hn' & Hv' & ->)]];
    [done|done|by eapply seqnos_fit_perm|done|..]);
  try (rewrite Hk in Hlen); try (rewrite Hk' in Hlen); simpl in Hlen; try congruence.
  - rewrite Hk, Hk' in HK. by apply Permutation_singleton_r in HK as [= ->].
  - assert (r = r') as ->; [|done]. apply (is_best_unique (kept all lg)); [|done|].
    + intros a b Ha Hb. apply (co_same _ Hco).
      * by apply (kept_spec all lg Hco) in Ha as [? _].
      * by apply (kept_spec all lg Hco) in Hb as [? _].
    + destruct Hr' as [Hin Hb]. split; [by rewrite HK|]. intros m'. rewrite HK. apply Hb.
  - rewrite (max_seqno_perm _ _ Hp). f_equal. apply merge_configs_perm; [|done].
    by apply kept_distinct.
Qed.
End outcome.

(** ** Loading the inputs *)
Section loading.
Context `{BtLib, !BtLaws, Hash}.
Context (v : verify_callable) (s : sign_callable) (lg : Z) (rethrow : bool).

Definition parsed (c : bytes) : option ConfigMessage :=
  match parse_message c v s lg false with Ok m => Some m | Throw _ => None end.

(** An input that parses, or whose error the handler swallows *)
Definition loadable (c : bytes) : bool :=
  match parse_message c v s lg false with
  | Ok _ => true
  | Throw e => is_config_error e && negb rethrow
  end.

Lemma load_all_spec i confs ms bad :
  load_all i confs v s lg rethrow = Ok (ms, bad) →
  forallb loadable confs = true ∧ ms = omap parsed confs ∧
  (length ms + length bad)%nat = length confs.
Proof.
  revert i ms bad; induction confs as [|c confs IH]; intros i ms bad Hl; cbn [load_all] in Hl.
  { by inv_pairs. }
  cbn [forallb omap list_omap]. unfold loadable at 1, parsed at 1.
  destruct (parse_message c v s lg false) as [m|e].
  - inv_pairs. destruct (IH _ _ _ E) as (? & -> & ?).
    simpl. split_and!; [done..|lia].
  - destruct (is_config_error e && negb rethrow); [|done].
    inv_pairs. destruct (IH _ _ _ E) as (? & -> & ?).
    simpl. split_and!; [done..|lia].
Qed.

Lemma load_all_total i confs :
  forallb loadable confs = true →
  ∃ bad, load_all i confs v s lg rethrow = Ok (omap parsed confs, bad).
Proof.
  revert i; induction confs as [|c confs IH]; intros i Hl; cbn [load_all]; [by eexists|].
  cbn [forallb omap list_omap] in *. unfold loadable at 1 in Hl. unfold parsed at 1.
  apply andb_true_iff in Hl as [Hc Hl]. destruct (IH (S i) Hl) as [bad Hb].
  destruct (parse_message c v s lg false) as [m|e].
  - rewrite Hb. by eexists.
  - rewrite Hc, Hb. by eexists.
Qed.

(** Distinct inputs have distinct hashes. *)
Definition no_collision (confs : list bytes) : Prop :=
  ∀ a b, a ∈ confs → b ∈ confs → blake2b a = blake2b b → a = b.

Lemma parsed_coherent confs : no_collision confs → coherent (omap parsed confs).
Proof.
  intros Hnc. split.
  - intros a b (ca & Hca & Ha)%list_elem_of_omap (cb & Hcb & Hb)%list_elem_of_omap Hsh.
    unfold parsed in *. destruct (parse_message ca v s lg false) as [a'|] eqn:Ea; [|done].
    destruct (parse_message cb v s lg false) as [b'|] eqn:Eb; [|done]. simplify_eq.
    pose proof Ea as Ea'. pose proof Eb as Eb'.
    apply parse_message_inv in Ea' as (ina & _ & Pa%parse_body_ok), Eb' as (inb & _ & Pb%parse_body_ok).
    destruct Pa as (_ & Ha & _), Pb as (_ & Hb & _).
    unfold sh in Hsh. rewrite Ha, Hb in Hsh. injection Hsh as _ Hh.
    apply Hnc in Hh as ->; [congruence|done..].
  - intros m x d (c & _ & Hm)%list_elem_of_omap Hin. unfold parsed in Hm.
    destruct (parse_message c v s lg false) as [m'|] eqn:E; [|done]. injection Hm as ->.
    apply parse_message_inv in E as (? & _ & P%parse_body_ok).
    destruct P as ((_ & _ & _ & [_ Hl]%lags_ok_spec)%message_ok_spec & _).
    apply Hl in Hin. lia.
Qed.

Lemma parsed_in_int64 (confs : list bytes) m : m ∈ omap parsed confs → in_int64 (seqno m) = true.
Proof.
  intros (c & _ & Hm)%list_elem_of_omap. unfold parsed in Hm.
  destruct (parse_message c v s lg false) as [m'|] eqn:E; [|done]. injection Hm as ->.
  apply parse_message_inv in E as (? & _ & P%parse_body_ok).
  by destruct P as ((_ & _ & ? & _)%message_ok_spec & _).
Qed.
End loading.

Lemma mark_redundant_fits i all rest lg mx l :
  mark_redundant i all rest lg mx = Ok l → lag_fits lg rest = true.
Proof.
  revert i l; induction rest as [|m rest IH]; intros i l Hm; [done|].
  cbn [mark_redundant] in Hm. inv_result. unfold add_i64 in E.
  destruct (in_int64 (seqno m + lg)) eqn:Ef; [|done].
  unfold lag_fits. simpl. rewrite Ef. simpl. by eapply IH.
Qed.

Lemma merge_loaded_fits `{BtLib, Hash} all v s lg m :
  merge_loaded all v s lg = Ok m → all ≠ [] ∧ lag_fits lg all = true.
Proof.
  unfold merge_loaded. destruct all as [|a all]; [done|]. cbn [is_nil]. intros Hm. inv_result.
  split; [done|]. by eapply mark_redundant_fits.
Qed.

Section merging.
Context `{BtLib, !BtLaws, Hash}.

Lemma merge_messages_inv confs v s lg rethrow m bad :
  merge_messages confs v s lg rethrow = Ok (m, bad) →
  forallb (loadable v s lg rethrow) confs = true ∧
  merge_loaded (omap (parsed v s lg) confs) v s lg = Ok m ∧
  seqnos_fit lg (omap (parsed v s lg) confs) ∧ omap (parsed v s lg) confs ≠ [] ∧
  (length (omap (parsed v s lg) confs) + length bad)%nat = length confs.
Proof.
  unfold merge_messages. intros Hm. inv_pairs.
  apply load_all_spec in E as (Hl & -> & Hlen).
  pose proof (merge_loaded_fits _ _ _ _ _ E0) as [Hne Hfit].
  split_and!; auto. split; [done|]. intros x. apply parsed_in_int64.
Qed.

(** C1 (the merge does not depend on the order of arrival): if the merging
    constructor succeeds on some messages it succeeds on every permutation
    of them and builds the same message (data, seqno, hash, lagged diffs,
    signature), provided their hashes do not collide; only the index of the
    chosen input can differ.  As many inputs are reported as bad. *)
Theorem merge_order_independent confs confs' v s lg rethrow m bad :
  0 < lg → no_collision confs → confs ≡ₚ confs' →
  merge_messages confs v s lg rethrow = Ok (m, bad) →
  ∃ m' bad', merge_messages confs' v s lg rethrow = Ok (m', bad') ∧
    with_unmerged None m' = with_unmerged None m ∧ merged m' = merged m ∧
    length bad' = length bad.
Proof.
  intros Hlg Hnc Hp Hm. pose proof (Permutation_length Hp) as Hlen.
  apply merge_messages_inv in Hm as (Hl & Hm & Hfit & Hne & Hbad).
  pose proof (parsed_coherent v s lg confs Hnc) as Hco.
  assert (omap (parsed v s lg) confs ≡ₚ omap (parsed v s lg) confs') as HpP by by rewrite Hp.
  pose proof (merge_loaded_perm _ _ v s lg Hco Hlg Hfit HpP) as Heq.
  rewrite Hm in Heq. simpl in Heq.
  destruct (merge_loaded (omap (parsed v s lg) confs') v s lg) as [m'|] eqn:Em'; [|done].
  injection Heq as Heq Hmerged.
  assert (forallb (loadable v s lg rethrow) confs' = true) as Hl'.
  { rewrite forallb_forall in *. intros c Hc. apply Hl, list_elem_of_In. rewrite Hp.
    by apply list_elem_of_In. }
  destruct (load_all_total v s lg rethrow 0 confs' Hl') as [bad' Hb'].
  pose proof Hb' as (_ & _ & Hlen')%load_all_spec.
  exists m', bad'. unfold merge_messages. rewrite Hb', bind_ret, Em'.
  split_and!; [done|unfold with_unmerged; congruence|done|].
  apply Permutation_length in HpP. lia.
Qed.
End merging.
