(* ===== verification/ConfigReplay.v ===== *)
(** * Replaying the diffs of several config messages

    The second half of the merging constructor of [ConfigMessage]: the replay
    of the diffs of all messages that take part, in seqno and hash order, onto
    the data of the latest one.  It never fails on messages this library
    wrote, the merged message takes over from all its inputs, and every key
    ends up with the value the last writer gave it. *)

From Stdlib Require Import ZArith String Lia Sorting.Sorted.
From stdpp Require Import base option list strings numbers sorting sets.
From S2P Require Import Prelude OrderedMap Bt Bencode Crypto ConfigData ConfigDiff ConfigMessage ConfigCodec ConfigMerge.

(** ** Applying well-formed diffs *)
Definition ovalue_ok (o : option dict_value) : bool :=
  match o with Some v => value_ok v | None => true end.

Lemma set_ok_insert x s : scalar_ok x = true → set_ok s = true → set_ok (sinsert x s) = true.
Proof.
  rewrite !set_ok_spec. intros Hx [Hs Hf]. split; [by apply ssorted_insert|].
  rewrite Forall_forall in *. intros y Hy%smem_In. rewrite smem_insert in Hy.
  apply orb_true_iff in Hy as [->%keqb_spec|Hy%smem_In]; auto.
Qed.

Lemma set_ok_erase x s : set_ok s = true → set_ok (serase x s) = true.
Proof.
  rewrite !set_ok_spec. intros [Hs Hf]. split; [by apply ssorted_erase|].
  rewrite Forall_forall in *. intros y Hy%smem_In. rewrite smem_erase in Hy.
  apply andb_true_iff in Hy as [_ Hy%smem_In]; auto.
Qed.

Section apply_total.
Context `{BtLib, !BtLaws}.

Lemma apply_set_diff_total a r cur :
  set_ok a = true → set_ok r = true → set_ok cur = true →
  ∃ s, apply_set_diff [BtList (bt_of_scalar <$> a); BtList (bt_of_scalar <$> r)] cur = Ok s ∧
    set_ok s = true.
Proof.
  intros [_ Ha]%set_ok_spec [_ Hr]%set_ok_spec Hc. unfold apply_set_diff. simpl.
  rewrite foldR_set_add by done. simpl. rewrite foldR_set_remove by done.
  eexists. split; [done|].
  assert (set_ok (fold_left (λ s x, sinsert x s) a cur) = true) as Hadd.
  { revert cur Hc. induction Ha as [|x a Hx Ha IH]; intros cur Hc; simpl; [done|].
    by apply IH, set_ok_insert. }
  revert Hadd. generalize (fold_left (λ s x, sinsert x s) a cur). clear.
  induction r as [|x r IH]; intros s Hs; simpl; [done|]. by apply IH, set_ok_erase.
Qed.

Lemma apply_diff_total_aux diff :
  Forall (λ p, ∀ cur src, diff_ok p.2 = true → ovalue_ok cur = true → ovalue_ok src = true →
    ∃ new, apply_value p.2 cur src = Ok new ∧ ovalue_ok new = true) diff →
  ∀ data source, forallb (λ p, diff_ok p.2) diff = true →
    dict_ok data = true → dict_ok source = true →
    ∃ r, apply_diff data diff source = Ok r ∧ dict_ok r = true.
Proof.
  induction 1 as [|[k v] diff Hv _ IH]; intros data source Hd Hok Hs; simpl; [eauto|].
  simpl in Hd, Hv. apply andb_true_iff in Hd as [Hdv Hd].
  assert (∀ d, dict_ok d = true → ovalue_ok (mfind k d) = true) as Hfind.
  { intros d Hd'. destruct (mfind k d) eqn:E; simpl; eauto with ordmap. }
  destruct (Hv (mfind k data) (mfind k source)) as (new & -> & Hnew); auto. simpl.
  apply IH; auto. destruct new; simpl; auto with ordmap.
Qed.

(** A well-formed diff applies to anything, and keeps the data well-formed. *)
Lemma apply_value_total v cur src :
  diff_ok v = true → ovalue_ok cur = true → ovalue_ok src = true →
  ∃ new, apply_value v cur src = Ok new ∧ ovalue_ok new = true.
Proof.
  revert cur src. induction v as [mode|z|l|d IH] using bt_value_ind'; intros cur src Hd Hc Hs;
    (destruct src as [[source|t|x]|]; [|..|by rewrite apply_value_gone; eauto]);
    try discriminate Hd; try by (eexists; split; [reflexivity|done]).
  - simpl in *. destruct (keqb mode "-"); [by eauto|]. rewrite orb_false_r in Hd.
    rewrite Hd. by eauto.
  - apply diff_ok_list_inv in Hd as (a & r & -> & Ha & Hr). cbn [apply_value].
    destruct (apply_set_diff_total a r (match cur with Some (DSet s) => s | _ => [] end))
      as (s & -> & Hok); [done..|by destruct cur as [[]|]|]. by eauto.
  - rewrite apply_value_dict. cbn [diff_ok] in Hd. apply andb_true_iff in Hd as [_ Hd].
    destruct (apply_diff_total_aux d IH (match cur with Some (DDict d0) => d0 | _ => [] end) source)
      as (r & -> & Hr); [done|by destruct cur as [[]|]|done|]. by eauto.
Qed.

Lemma apply_diff_total data diff source :
  diff_ok (BtDict diff) = true → dict_ok data = true → dict_ok source = true →
  ∃ r, apply_diff data diff source = Ok r ∧ dict_ok r = true.
Proof.
  cbn [diff_ok]. intros [_ Hd]%andb_true_iff Hok Hs. apply apply_diff_total_aux; auto.
  apply Forall_forall. intros p _ cur src. apply apply_value_total.
Qed.

(** The outcome at one key only depends on the values at that key. *)
Lemma apply_diff_at data diff source r k :
  msorted data = true → msorted diff = true → apply_diff data diff source = Ok r →
  match mfind k diff with
  | Some w => apply_value w (mfind k data) (mfind k source) = Ok (mfind k r)
  | None => mfind k r = mfind k data
  end.
Proof.
  revert data; induction diff as [|[j w] diff IH]; intros data Hs Hd Hr; simpl in *.
  { by inv_result. }
  apply msorted_cons in Hd as [Hb Hd]. inv_result.
  specialize (IH (mupdate j a data)). rewrite mfind_mupdate in IH.
  destruct (keqb k j) eqn:Ek.
  - apply keqb_spec in Ek as ->. rewrite mfind_below in IH by done.
    rewrite E. f_equal. symmetry. apply IH; auto using msorted_mupdate.
  - apply IH; auto using msorted_mupdate.
Qed.
End apply_total.

(** ** The replay map *)
Definition entries (m : ConfigMessage) : replay_t :=
  (sh m, (data_ m, diff_ m)) :: ((λ e, (e.1, (data_ m, e.2))) <$> lagged_diffs_ m).

Definition emplace_all (es r : replay_t) : replay_t :=
  fold_left (λ r e, memplace e.1 e.2 r) es r.

Lemma emplace_all_spec es r :
  msorted r = true →
  msorted (emplace_all es r) = true ∧
  ∀ x, mfind x (emplace_all es r) =
    match mfind x r with Some e => Some e | None => mfind x es end.
Proof.
  revert r; induction es as [|[y e] es IH]; intros r Hs; simpl.
  - split; [done|]. intros x. by destruct (mfind x r).
  - destruct (IH (memplace y e r)) as [Hs' Hf]; [auto with ordmap|].
    split; [done|]. intros x. rewrite Hf, mfind_emplace.
    destruct (mfind x r); [done|]. by destruct (keqb x y).
Qed.

Lemma add_replay_entries r m : add_replay r m = emplace_all (entries m) r.
Proof.
  unfold add_replay, emplace_all, entries, sh. cbn [fold_left fst snd].
  generalize (memplace (seqno_hash_ m) (data_ m, diff_ m) r).
  induction (lagged_diffs_ m) as [|e l IH]; intros r'; [done|]. apply IH.
Qed.

Lemma make_replay_flat cs : make_replay cs = emplace_all (concat (entries <$> cs)) [].
Proof.
  unfold make_replay. generalize (@nil (seqno_hash_t * (dict * bt_dict))).
  induction cs as [|m cs IH]; intros r; [done|]. rewrite fmap_cons. cbn [fold_left concat].
  rewrite add_replay_entries. unfold emplace_all at 2.
  rewrite fold_left_app. apply IH.
Qed.

Lemma make_replay_sorted cs : msorted (make_replay cs) = true.
Proof. rewrite make_replay_flat. by apply emplace_all_spec. Qed.

Lemma make_replay_find cs x : mfind x (make_replay cs) = mfind x (concat (entries <$> cs)).
Proof. rewrite make_replay_flat. by rewrite (proj2 (emplace_all_spec _ [] eq_refl)). Qed.

Lemma make_replay_from cs x e :
  (x, e) ∈ make_replay cs → ∃ m, m ∈ cs ∧ (x, e) ∈ entries m.
Proof.
  intros Hin. apply mfind_In in Hin; [|apply make_replay_sorted].
  rewrite make_replay_find in Hin. apply mfind_Some_In in Hin.
  apply list_elem_of_In, in_concat in Hin as (es & Hes & Hin).
  apply list_elem_of_In, list_elem_of_fmap in Hes as (m & -> & Hm).
  exists m. split; [done|by apply list_elem_of_In].
Qed.

(** Every message that takes part is in the replay. *)
Lemma make_replay_has cs m : m ∈ cs → mfind (sh m) (make_replay cs) ≠ None.
Proof.
  intros Hm Hnone. rewrite make_replay_find in Hnone.
  assert (∀ es, (sh m, (data_ m, diff_ m)) ∈ es → mfind (sh m) es ≠ None) as Hfind.
  { intros es. induction es as [|[y e] es IH]; [by intros ?%not_elem_of_nil|].
    simpl. intros [[= <- _]|Hin]%elem_of_cons; [by rewrite keqb_refl|].
    destruct (keqb (sh m) y); [done|auto]. }
  apply (Hfind (concat (entries <$> cs))); [|done].
  apply list_elem_of_In, in_concat. exists (entries m). split.
  - by apply list_elem_of_In, list_elem_of_fmap_2.
  - by left.
Qed.

(** ** The merged message *)
Definition signer_ok (s : sign_callable) : Prop :=
  match s with
  | Some f => ∀ msg, ∃ sig, f msg = Ok sig ∧ size sig = 64
  | None => True
  end.

(** What the replay needs of a message: guaranteed by [message_wf]. *)
Definition replayable (m : ConfigMessage) : Prop :=
  dict_ok (data_ m) = true ∧ diff_ok (BtDict (diff_ m)) = true ∧
  ∀ x d, (x, d) ∈ lagged_diffs_ m → diff_ok (BtDict d) = true.

Section merged_message.
Context `{BtLib, !BtLaws, Hash}.

Lemma apply_replay_total data r :
  dict_ok data = true →
  (∀ x e, (x, e) ∈ r → dict_ok e.1 = true ∧ diff_ok (BtDict e.2) = true) →
  ∃ data', apply_replay data r = Ok data' ∧ dict_ok data' = true.
Proof.
  unfold apply_replay. revert data; induction r as [|[x e] r IH]; intros data Hok Hr; simpl; [eauto|].
  destruct (Hr x e) as [He Hd]; [by left|].
  destruct (apply_diff_total data e.2 e.1) as (d' & -> & Hd'); [done..|]. simpl.
  apply IH; [done|]. intros y e' Hin. apply (Hr y). by right.
Qed.

Lemma serialize_merged_total m :
  unknown_ m = [] → verified_signature_ m = None → signer_ok (signer m) →
  in_int64 (seqno m - lag m) = true → ∃ ser, serialize_impl m [] true = Ok ser.
Proof.
  intros Hu Hv Hs Hi. unfold serialize_impl, serialize_pairs, live_lags. rewrite Hu. simpl append_unknown.
  unfold sub_i64. rewrite Hi.
  destruct (is_nil (lagged_diffs_ m)); simpl; rewrite Hv;
    (destruct (signer m) as [f|]; [|eauto]); simpl in Hs;
    match goal with |- context [f ?msg] => destruct (Hs msg) as (sig & -> & Hsz) end;
    simpl; rewrite Hsz; eauto.
Qed.

(** What the merge of [K] is: the next seqno, pruned data, no diff of its
    own, and the replay as its lagged diffs. *)
Definition is_merge (K : list ConfigMessage) (lg mx : Z) (m : ConfigMessage) : Prop :=
  ∃ front rest data, sort_desc K = front :: rest ∧
    apply_replay (data_ front) (make_replay (sort_desc K)) = Ok data ∧
    data_ m = prune data ∧ seqno m = mx + 1 ∧ diff_ m = [] ∧ unmerged_ m = None ∧
    lag m = lg ∧
    lagged_diffs_ m = (λ e, (e.1, e.2.2)) <$> make_replay (sort_desc K).

Lemma merge_configs_inv K v s lg mx m :
  merge_configs K v s lg mx = Ok m → is_merge K lg mx m.
Proof.
  unfold merge_configs, is_merge. destruct (sort_desc K) as [|front rest]; [done|].
  intros Hm. inv_result. unfold add_i64 in E. destruct (in_int64 (mx + 1)); inv_result.
  exists front, rest, a0. by split_and!.
Qed.

Lemma merge_configs_total K v s lg mx :
  K ≠ [] → Forall replayable K → signer_ok s →
  in_int64 (mx + 1) = true → in_int64 (mx + 1 - lg) = true →
  ∃ m, merge_configs K v s lg mx = Ok m ∧ dict_ok (data_ m) = true ∧ dict_pruned (data_ m) = true.
Proof.
  intros Hne HK Hs Hi Hi'. unfold merge_configs. pose proof (sort_desc_perm K) as Hp.
  rewrite <-Hp in HK. destruct (sort_desc K) as [|front rest] eqn:Es.
  { by apply Permutation_nil_l in Hp. }
  unfold add_i64. rewrite Hi, bind_ret.
  destruct (apply_replay_total (data_ front) (make_replay (front :: rest))) as (data & -> & Hok).
  { apply Forall_cons in HK as [[? _] _]. done. }
  { intros x e Hin. apply make_replay_from in Hin as (m & Hm & Hin).
    rewrite Forall_forall in HK. destruct (HK m Hm) as (Hd & Hdf & Hl).
    unfold entries in Hin. apply elem_of_cons in Hin as [[= _ ->]|Hin]; [done|].
    apply list_elem_of_fmap in Hin as ([y d] & [= -> ->] & Hin). simpl. eauto. }
  rewrite bind_ret.
  match goal with |- context [serialize_impl ?m [] true] =>
    destruct (serialize_merged_total m) as [ser ->]; [done..|] end.
  eexists. split; [done|]. cbn [data_ with_seqno_hash]. rewrite prune_fst.
  by apply prune_entries_props.
Qed.
End merged_message.

Lemma message_wf_replayable m : message_wf m = true → replayable m.
Proof.
  intros (Hok & Hd & Hl & _)%message_wf_spec. apply message_ok_spec in Hok as (? & _).
  split_and!; [done..|]. intros x d Hin. by apply (Hl (x, d)).
Qed.

(** ** What the merging constructor guarantees *)

(** A family of messages this library wrote, with seqnos far enough from the
    end of the 64-bit range. *)
Record mergeable (all : list ConfigMessage) (lg : Z) (s : sign_callable) : Prop := {
  mg_some : all ≠ [];
  mg_co : coherent all;
  mg_lag : 0 < lg;
  mg_wf : ∀ m, m ∈ all → message_wf m = true;
  mg_fit : seqnos_fit lg all;
  mg_next : in_int64 (max_seqno all + 1 + lg) = true ∧ in_int64 (max_seqno all + 1 - lg) = true;
  mg_signer : signer_ok s;
}.

Lemma sandwich lo mid hi :
  lo ≤ mid ≤ hi → in_int64 lo = true → in_int64 hi = true → in_int64 mid = true.
Proof. rewrite !in_int64_spec. lia. Qed.

Lemma is_best_max all lg r :
  coherent all → 0 < lg → all ≠ [] → (∀ m, m ∈ all → in_int64 (seqno m) = true) →
  is_best (kept all lg) r → seqno r = max_seqno all.
Proof.
  intros Hco Hlg Hne Hi [Hin Hb].
  destruct (kept_has_max all lg Hco Hlg Hne Hi) as (mx & Hmx & Hmax).
  apply (kept_spec all lg Hco) in Hin as [Hin _].
  pose proof (max_seqno_ge all r Hin). specialize (Hb _ Hmx).
  unfold klt, sh, seqno in *. destruct (seqno_hash_ r) as [a h], (seqno_hash_ mx) as [a' h'].
  simpl in *. unfold pair_cmp in Hb. simpl in Hb.
  destruct (Z.compare_spec a a'); [lia|done|lia].
Qed.

Section guarantees.
Context `{BtLib, !BtLaws, Hash}.
Context (all : list ConfigMessage) (v : verify_callable) (s : sign_callable) (lg : Z).
Context (Hg : mergeable all lg s).

Lemma kept_in m : m ∈ kept all lg → m ∈ all.
Proof. by intros [? _]%(kept_spec all lg (mg_co _ _ _ Hg)). Qed.

Lemma kept_nonempty : kept all lg ≠ [].
Proof.
  destruct Hg. destruct (kept_has_max all lg) as (m & Hm & _); try done.
  - by destruct mg_fit0.
  - intros E. rewrite E in Hm. by apply not_elem_of_nil in Hm.
Qed.

Lemma merge_configs_kept :
  ∃ m, merge_configs (kept all lg) v s lg (max_seqno all) = Ok m ∧
    dict_ok (data_ m) = true ∧ dict_pruned (data_ m) = true ∧
    is_merge (kept all lg) lg (max_seqno all) m.
Proof.
  destruct (merge_configs_total (kept all lg) v s lg (max_seqno all)) as (m & Hm & Hok & Hp).
  - apply kept_nonempty.
  - apply Forall_forall. intros m Hm%kept_in. by apply message_wf_replayable, (mg_wf _ _ _ Hg).
  - apply Hg.
  - destruct Hg as [_ _ Hlg _ _ [H1' H2'] _]. eapply sandwich; [|exact H2'|exact H1']. lia.
  - apply Hg.
  - exists m. split_and!; [done..|]. by eapply merge_configs_inv.
Qed.

Lemma merge_resolves_aux :
  ∃ m, merge_loaded all v s lg = Ok m ∧
    dict_ok (data_ m) = true ∧ dict_pruned (data_ m) = true ∧
    ((∃ i c, all !! i = Some c ∧ m = with_unmerged (Some i) c ∧ seqno m = max_seqno all ∧
             (kept all lg = [c] ∨ verify_only v s = true)) ∨
     (verify_only v s = false ∧ is_merge (kept all lg) lg (max_seqno all) m)).
Proof.
  assert (∀ c, c ∈ all → dict_ok (data_ c) = true ∧ dict_pruned (data_ c) = true) as Hdata.
  { intros c Hc. apply (mg_wf _ _ _ Hg), message_wf_spec in Hc as (Hok & _).
    apply message_ok_spec in Hok. naive_solver. }
  destruct (merge_loaded_cases all v s lg) as
    [(i & k & Hk & Hi & ->)|[(Hn & Hv & i & r & Hr & Hi & ->)|(Hn & Hv & ->)]]; try apply Hg.
  - destruct (Hdata k) as [Hd Hp]; [by eapply list_elem_of_lookup_2|].
    eexists; split_and!; [done..|]. left. exists i, k. split_and!; [done..| |by left].
    apply (is_best_max all lg k); try apply Hg.
    rewrite Hk. split; [by left|]. intros m' [->|?%not_elem_of_nil]%elem_of_cons; [|done].
    unfold klt. by rewrite kcmp_refl.
  - destruct (Hdata r) as [Hd Hp]; [by eapply list_elem_of_lookup_2|].
    eexists; split_and!; [done..|]. left. exists i, r. split_and!; [done..| |by right].
    apply (is_best_max all lg r); try apply Hg. done.
  - destruct merge_configs_kept as (m & Hm & Hok & Hp & His). exists m. split_and!; auto.
Qed.

(** The replay only holds entries older than the merged message. *)
Lemma merged_lag_old m x d :
  is_merge (kept all lg) lg (max_seqno all) m → (x, d) ∈ lagged_diffs_ m →
  x.1 < max_seqno all + 1.
Proof.
  intros (front & rest & data & _ & _ & _ & _ & _ & _ & _ & ->) Hin.
  apply list_elem_of_fmap in Hin as ([y e] & [= -> ->] & Hin). simpl.
  apply make_replay_from in Hin as (k & Hk & Hin). rewrite sort_desc_perm in Hk.
  apply kept_in in Hk. pose proof (max_seqno_ge all k Hk).
  unfold entries in Hin. apply elem_of_cons in Hin as [[= -> _]|Hin]; [unfold sh, seqno in *; lia|].
  apply list_elem_of_fmap in Hin as ([z d'] & [= -> _] & Hin).
  apply (co_lags _ (mg_co _ _ _ Hg) k) in Hin; [simpl|done]. lia.
Qed.

Lemma merged_lag_has m c :
  is_merge (kept all lg) lg (max_seqno all) m → c ∈ kept all lg →
  mfind (sh c) (lagged_diffs_ m) ≠ None.
Proof.
  intros (front & rest & data & _ & _ & _ & _ & _ & _ & _ & ->) Hc.
  assert (mfind (sh c) (make_replay (sort_desc (kept all lg))) ≠ None) as Hf
    by (apply make_replay_has; by rewrite sort_desc_perm).
  revert Hf. generalize (make_replay (sort_desc (kept all lg))). intros r.
  induction r as [|[y e] r IH]; [done|]. rewrite fmap_cons. simpl.
  by destruct (keqb (sh c) y).
Qed.

Section absorb.
Context (m : ConfigMessage) (Hm : is_merge (kept all lg) lg (max_seqno all) m).

Lemma merged_seqno : seqno m = max_seqno all + 1.
Proof. destruct Hm as (? & ? & ? & _ & _ & _ & ? & _). done. Qed.

Lemma absorb_coherent : coherent (m :: all).
Proof.
  assert (∀ a, a ∈ all → sh a ≠ sh m) as Hne.
  { intros a Ha Heq. pose proof (max_seqno_ge all a Ha). pose proof merged_seqno.
    unfold sh, seqno in *. rewrite Heq in *. lia. }
  split.
  - intros a b [->|Ha]%elem_of_cons [->|Hb]%elem_of_cons Heq; [done| | |].
    + by destruct (Hne b).
    + by destruct (Hne a).
    + by apply (co_same _ (mg_co _ _ _ Hg)).
  - intros c x d [->|Hc]%elem_of_cons Hin.
    + rewrite merged_seqno. by eapply merged_lag_old.
    + by apply (co_lags _ (mg_co _ _ _ Hg) c x d).
Qed.

Lemma absorb_max : max_seqno (m :: all) = max_seqno all + 1.
Proof. unfold max_seqno at 1. simpl. fold (max_seqno all). rewrite merged_seqno. lia. Qed.

Lemma absorb_kept : kept (m :: all) lg = [m].
Proof.
  apply Permutation_singleton_r. symmetry. apply NoDup_Permutation.
  - apply NoDup_singleton.
  - by apply (NoDup_fmap_1 sh), kept_distinct.
  - intros x. rewrite (kept_spec _ _ absorb_coherent), absorb_max, list_elem_of_singleton. split.
    + intros ->. split_and!; [by left| |rewrite merged_seqno; destruct Hg; lia].
      intros c Hc. destruct (mfind (sh m) (lagged_diffs_ c)) as [d|] eqn:E; [|done].
      apply mfind_Some_In, (co_lags _ absorb_coherent c) in E; [|done].
      apply elem_of_cons in Hc as [->|Hc]; [unfold sh, seqno in *; lia|].
      pose proof (max_seqno_ge all c Hc). pose proof merged_seqno. unfold sh, seqno in *. lia.
    + intros (Hx & Hlag & Hold). apply elem_of_cons in Hx as [->|Hx]; [done|].
      assert (x ∈ kept all lg) as Hk.
      { apply (kept_spec _ _ (mg_co _ _ _ Hg)). split_and!; [done| |lia].
        intros c Hc. apply Hlag. by right. }
      destruct (merged_lag_has m x Hm Hk). apply Hlag. by left.
Qed.

Lemma absorb_fit : seqnos_fit lg (m :: all).
Proof.
  destruct Hg as [_ _ Hlg _ [Hf Hi] [Hn1 Hn2] _]. split.
  - unfold lag_fits in *. simpl. rewrite Hf, merged_seqno, Hn1. done.
  - intros x [->|Hx]%elem_of_cons; [|auto]. rewrite merged_seqno.
    eapply sandwich; [|exact Hn2|exact Hn1]. lia.
Qed.
End absorb.
End guarantees.

Section merge_theorems.
Context `{BtLib, !BtLaws, Hash}.

(** C3 (the merge resolves): on messages this library wrote the merging
    constructor always returns, with well-formed pruned data.  Either it
    uses one input as it is, one with the highest seqno, at the index it
    reports (because only that one takes part, or because the reader cannot
    sign); or it builds a message with the next seqno, no diff of its own
    and the replayed diffs as lagged diffs, which then cover every message
    that took part. *)
Theorem merge_resolves all v s lg :
  mergeable all lg s →
  ∃ m, merge_loaded all v s lg = Ok m ∧
    dict_ok (data_ m) = true ∧ dict_pruned (data_ m) = true ∧
    ((∃ i c, all !! i = Some c ∧ m = with_unmerged (Some i) c ∧ seqno m = max_seqno all ∧
             (kept all lg = [c] ∨ verify_only v s = true)) ∨
     (verify_only v s = false ∧ is_merge (kept all lg) lg (max_seqno all) m ∧
      ∀ c, c ∈ kept all lg → mfind (sh c) (lagged_diffs_ m) ≠ None)).
Proof.
  intros Hg. destruct (merge_resolves_aux all v s lg Hg) as (m & Hm & Hok & Hp & [Hu|[Hv His]]).
  - exists m. auto.
  - exists m. split_and!; auto. right. split_and!; auto.
    intros c. by apply (merged_lag_has all lg m).
Qed.

(** C4 (convergence): once messages have been merged, merging the result
    again with all its inputs, in any order, takes no part of them: the
    constructor returns the merged message itself. *)
Theorem merge_absorbs all all' v s lg m :
  mergeable all lg s → merge_loaded all v s lg = Ok m →
  merged m = true → all' ≡ₚ m :: all →
  ∃ i, all' !! i = Some m ∧ merge_loaded all' v s lg = Ok (with_unmerged (Some i) m).
Proof.
  intros Hg Hm Hmerged Hp. symmetry in Hp.
  assert (is_merge (kept all lg) lg (max_seqno all) m) as His.
  { destruct (merge_resolves_aux all v s lg Hg) as (m' & Hm' & _ & _ & [Hu|[_ His]]).
    - destruct Hu as (i & c & _ & -> & _). rewrite Hm in Hm'. injection Hm' as ->. done.
    - by rewrite Hm in Hm'; injection Hm' as ->. }
  pose proof (absorb_coherent all s lg Hg m His) as Hco.
  assert (kept all' lg = [m]) as Hk.
  { apply Permutation_singleton_r.
    rewrite <-(absorb_kept all s lg Hg m His).
    symmetry. by apply kept_perm. }
  destruct (merge_loaded_cases all' v s lg) as
    [(i & k & Hk' & Hi & ->)|[(Hn & _)|(Hn & _)]].
  - by eapply coherent_perm.
  - apply Hg.
  - eapply seqnos_fit_perm; [exact Hp|]. by eapply absorb_fit.
  - intros ->. symmetry in Hp. by apply Permutation_nil_l in Hp.
  - rewrite Hk in Hk'. injection Hk' as ->. eauto.
  - by rewrite Hk in Hn.
  - by rewrite Hk in Hn.
Qed.
End merge_theorems.

(** ** The outcome at one key *)
Definition mentions (k : bytes) (e : seqno_hash_t * (dict * bt_dict)) : bool :=
  is_some (mfind k e.2.2).

(** What replaying one entry does to the value at a key *)
Definition replay_key `{BtLib} (k : bytes) (cur : option dict_value)
    (e : seqno_hash_t * (dict * bt_dict)) : result (option dict_value) :=
  match mfind k e.2.2 with
  | Some w => apply_value w cur (mfind k e.2.1)
  | None => Ok cur
  end.

Section per_key.
Context `{BtLib, !BtLaws, Hash}.

Lemma apply_diff_sorted data diff source r :
  msorted data = true → apply_diff data diff source = Ok r → msorted r = true.
Proof.
  revert data; induction diff as [|[j w] diff IH]; intros data Hs Hr; simpl in Hr.
  - by inv_result.
  - inv_result. eauto using msorted_mupdate.
Qed.

Lemma apply_replay_at k data r d :
  msorted data = true → (∀ x e, (x, e) ∈ r → msorted e.2 = true) →
  apply_replay data r = Ok d → foldR (replay_key k) (mfind k data) r = Ok (mfind k d).
Proof.
  unfold apply_replay. revert data; induction r as [|[x e] r IH]; intros data Hs Hr Hd; simpl in *.
  { by inv_result. }
  inv_result. assert (msorted e.2 = true) as He by (apply (Hr x); by left).
  pose proof (apply_diff_at data e.2 e.1 a k Hs He E) as Hk.
  unfold replay_key at 2. simpl.
  assert (match mfind k e.2 with
          | Some w => apply_value w (mfind k data) (mfind k e.1)
          | None => Ok (mfind k data) end = Ok (mfind k a)) as ->
    by (destruct (mfind k e.2); congruence).
  apply IH; [by eapply apply_diff_sorted| |done]. intros y e' Hin. apply (Hr y). by right.
Qed.

Lemma foldR_mentions k cur r :
  foldR (replay_key k) cur (List.filter (mentions k) r) = foldR (replay_key k) cur r.
Proof.
  revert cur; induction r as [|e r IH]; intros cur; [done|]. simpl.
  unfold mentions at 1, replay_key at 3. destruct (mfind k e.2.2) eqn:E; simpl; [|apply IH].
  unfold replay_key at 2. rewrite E. destruct (apply_value _ _ _); simpl; [apply IH|done].
Qed.

(** An assigned scalar is taken from its source and an erased one is gone,
    whatever the data held. *)
Lemma scalar_assignment w cur0 cur x :
  apply_value w cur0 (Some (DScalar x)) = Ok (Some (DScalar x)) →
  apply_value w cur (Some (DScalar x)) = Ok (Some (DScalar x)).
Proof. by destruct w. Qed.
End per_key.

Section last_writer.
Context `{BtLib, !BtLaws, Hash}.

(** The merged data at a key, before pruning, is what replaying that key
    alone gives. *)
Lemma merged_at all s lg m k :
  mergeable all lg s → is_merge (kept all lg) lg (max_seqno all) m →
  ∃ front rest cur, sort_desc (kept all lg) = front :: rest ∧
    foldR (replay_key k) (mfind k (data_ front)) (make_replay (sort_desc (kept all lg))) = Ok cur ∧
    (match cur with Some c => value_pruned c | None => true end = true →
     mfind k (data_ m) = cur).
Proof.
  intros Hg (front & rest & data & Hsort & Ha & Hd & _).
  assert (∀ c, c ∈ sort_desc (kept all lg) → replayable c) as Hrep.
  { intros c Hc. rewrite sort_desc_perm in Hc.
    apply message_wf_replayable, (mg_wf _ _ _ Hg). by eapply kept_in. }
  assert (∀ x e, (x, e) ∈ make_replay (sort_desc (kept all lg)) →
            dict_ok e.1 = true ∧ diff_ok (BtDict e.2) = true) as He.
  { intros x e (c & Hc & Hin)%make_replay_from. destruct (Hrep c Hc) as (Hdc & Hdf & Hl).
    unfold entries in Hin. apply elem_of_cons in Hin as [[= _ ->]|Hin]; [done|].
    apply list_elem_of_fmap in Hin as ([y d] & [= -> ->] & Hin). simpl. eauto. }
  assert (dict_ok (data_ front) = true) as Hf by (apply Hrep; rewrite Hsort; by left).
  destruct (apply_replay_total (data_ front) (make_replay (sort_desc (kept all lg))))
    as (data' & Ha' & Hok); [done..|]. rewrite Ha in Ha'. injection Ha' as <-.
  exists front, rest, (mfind k data). split_and!; [done| |].
  - apply apply_replay_at; [by apply dict_ok_sorted| |done].
    intros x e Hin. apply He in Hin as [_ Hin]. by apply diff_ok_dict in Hin as [? _].
  - intros Hp. rewrite Hd. by apply mfind_prune_pruned.
Qed.

Lemma merged_is_merge all v s lg m :
  mergeable all lg s → merge_loaded all v s lg = Ok m → merged m = true →
  is_merge (kept all lg) lg (max_seqno all) m.
Proof.
  intros Hg Hm Hmerged.
  destruct (merge_resolves_aux all v s lg Hg) as (m' & Hm' & _ & _ & [Hu|[_ His]]);
    rewrite Hm in Hm'; injection Hm' as <-; [|done].
  destruct Hu as (i & c & _ & -> & _). done.
Qed.

(** (last writer wins): of all diffs replayed by a merge, in (seqno,
    hash) order, let one assign or erase a scalar at a key and no later one
    mention the key.  Then the merged data holds there what that writer's
    data holds (nothing if it erased the key), no matter what the other
    messages hold. *)
Theorem last_writer_wins all v s lg m k pre x src df post mode :
  mergeable all lg s → merge_loaded all v s lg = Ok m → merged m = true →
  make_replay (sort_desc (kept all lg)) = pre ++ (x, (src, df)) :: post →
  mfind k df = Some (BtStr mode) → (∀ e, e ∈ post → mentions k e = false) →
  mfind k (data_ m) =
    match mfind k src with
    | Some (DScalar y) => if keqb mode "-" then None else Some (DScalar y)
    | _ => None
    end.
Proof.
  intros Hg Hm Hmerged Hr Hk Hpost. pose proof (merged_is_merge _ _ _ _ _ Hg Hm Hmerged) as His.
  destruct (merged_at all s lg m k Hg His) as (front & rest & cur & _ & Hfold & Hcur).
  rewrite Hr, foldR_app in Hfold. apply bind_Ok in Hfold as (c1 & _ & Hfold).
  cbn [foldR] in Hfold. apply bind_Ok in Hfold as (c2 & Hc2 & Hfold).
  rewrite <-foldR_mentions in Hfold.
  assert (List.filter (mentions k) post = []) as Hnil.
  { clear -Hpost. induction post as [|e post IH]; simpl; [done|].
    rewrite (Hpost e) by by left. apply IH. intros e' He'. apply Hpost. by right. }
  rewrite Hnil in Hfold. injection Hfold as <-.
  unfold replay_key in Hc2. simpl in Hc2. rewrite Hk in Hc2. simpl in Hc2.
  destruct (mfind k src) as [[| |y]|]; inv_result; try by apply Hcur.
  destruct (keqb mode "-"); inv_result; [by apply Hcur|].
  destruct (keqb mode ""); inv_result. by apply Hcur.
Qed.
End last_writer.

(** ** Edits *)

(** [m] was written on top of the data [d0]. *)
Definition edit_of `{BtLib} (d0 : dict) (m : ConfigMessage) : Prop :=
  ∃ od, diff_impl d0 (data_ m) = Ok od ∧ diff_ m = default [] od.

(** ** Concrete instances *)
Definition base_data : dict := [("n", DScalar (SStr "Al")); ("s", DSet [SInt 1])].

(** One device renames, another adds a set element, both at seqno 8. *)
Definition edit_message (data : dict) (diff : bt_dict) (hash : bytes) : ConfigMessage :=
  mkConfigMessage data diff [((7, blake2b "base"), [("q", BtStr "-")])] []
    (8, blake2b hash) None None None None 5.

Definition rename_edit : ConfigMessage :=
  edit_message [("n", DScalar (SStr "Bo")); ("s", DSet [SInt 1])] [("n", BtStr "")] "a".

Definition grow_edit : ConfigMessage :=
  edit_message [("n", DScalar (SStr "Al")); ("s", DSet [SInt 1; SInt 2])]
    [("s", BtList [BtList [BtInt 2]; BtList []])] "b".

Definition both_edits : list ConfigMessage := [rename_edit; grow_edit].

Lemma both_edits_mergeable : mergeable both_edits 5 None.
Proof.
  split; [done| |lia| | |split; vm_compute; reflexivity|exact I].
  - split.
    + intros a b Ha Hb. repeat (apply elem_of_cons in Ha as [->|Ha]);
        [..|by apply not_elem_of_nil in Ha]; repeat (apply elem_of_cons in Hb as [->|Hb]);
        try (by apply not_elem_of_nil in Hb); try done; intros Hsh; vm_compute in Hsh; discriminate.
    + intros m x d Hm Hin. repeat (apply elem_of_cons in Hm as [->|Hm]);
        [..|by apply not_elem_of_nil in Hm];
        (apply elem_of_cons in Hin as [[= -> _]|Hin%not_elem_of_nil]; [vm_compute; done|done]).
  - intros m Hm. repeat (apply elem_of_cons in Hm as [->|Hm]); [..|by apply not_elem_of_nil in Hm];
      vm_compute; reflexivity.
  - split; [vm_compute; reflexivity|]. intros m Hm.
    repeat (apply elem_of_cons in Hm as [->|Hm]); [..|by apply not_elem_of_nil in Hm];
      vm_compute; reflexivity.
Qed.

Definition merge_of_both : ConfigMessage :=
  match merge_loaded both_edits None None 5 with Ok m => m | Throw _ => rename_edit end.

Lemma merge_resolves_witness :
  ∃ m, merge_loaded both_edits None None 5 = Ok m ∧ dict_pruned (data_ m) = true.
Proof.
  destruct (merge_resolves both_edits None None 5 both_edits_mergeable) as (m & Hm & _ & Hp & _).
  exists m. split; [exact Hm|exact Hp].
Defined.

Lemma merge_absorbs_witness :
  merged merge_of_both = true ∧
  ∃ i, [grow_edit; merge_of_both; rename_edit] !! i = Some merge_of_both ∧
    merge_loaded [grow_edit; merge_of_both; rename_edit] None None 5 =
      Ok (with_unmerged (Some i) merge_of_both).
Proof.
  assert (merged merge_of_both = true) as Hm by (vm_compute; reflexivity).
  split; [exact Hm|].
  apply (merge_absorbs both_edits [grow_edit; merge_of_both; rename_edit] None None 5 merge_of_both
           both_edits_mergeable); [vm_compute; reflexivity|exact Hm|].
  unfold both_edits. apply Permutation_cons_append.
Defined.

Lemma last_writer_wins_witness : mfind "n" (data_ merge_of_both) = Some (DScalar (SStr "Bo")).
Proof.
  pose (r := make_replay (sort_desc (kept both_edits 5))).
  apply (last_writer_wins both_edits None None 5 merge_of_both "n"
           (take 1 r) (sh rename_edit) (data_ rename_edit) (diff_ rename_edit) (drop 2 r) ""
           both_edits_mergeable); try (vm_compute; reflexivity).
  intros e He. vm_compute in He. apply elem_of_cons in He as [->|He%not_elem_of_nil];
    [vm_compute; reflexivity|destruct He].
Defined.

Lemma no_collision_NoDup `{Hash} (confs : list bytes) :
  NoDup (blake2b <$> confs) → no_collision confs.
Proof.
  induction confs as [|c confs IH]; intros Hnd a b Ha Hb Hab; [by apply not_elem_of_nil in Ha|].
  rewrite fmap_cons in Hnd. apply NoDup_cons in Hnd as [Hc Hnd].
  apply elem_of_cons in Ha as [->|Ha], Hb as [->|Hb]; [done|..].
  - destruct Hc. rewrite Hab. by apply list_elem_of_fmap_2.
  - destruct Hc. rewrite <-Hab. by apply list_elem_of_fmap_2.
  - by apply IH.
Qed.

(** The same two messages on the wire *)
Definition wire (m : ConfigMessage) : bytes :=
  match serialize_impl m (diff_ m) true with Ok s => s | Throw _ => "" end.

Definition wire_merge (confs : list bytes) : ConfigMessage * list nat :=
  match merge_messages confs None None 5 false with Ok r => r | Throw _ => (rename_edit, []) end.

Lemma merge_order_independent_witness :
  let confs := [wire rename_edit; wire grow_edit; "de"] in
  ∃ m' bad', merge_messages ["de"; wire grow_edit; wire rename_edit] None None 5 false = Ok (m', bad') ∧
    with_unmerged None m' = with_unmerged None (wire_merge confs).1 ∧ merged m' = true ∧
    length bad' = 1%nat.
Proof.
  apply (merge_order_independent [wire rename_edit; wire grow_edit; "de"]
           ["de"; wire grow_edit; wire rename_edit] None None 5 false
           (wire_merge [wire rename_edit; wire grow_edit; "de"]).1 [2%nat]).
  - lia.
  - apply no_collision_NoDup, (bool_decide_unpack _). vm_compute. exact I.
  - apply (Permutation_rev [wire rename_edit; wire grow_edit; "de"]).
  - vm_compute. reflexivity.
Defined.
