(* ===== verification/ConfigReconcile.v ===== *)
(** * Two concurrent edits of the same data

    What the merging constructor of [ConfigMessage] ([src/config.cpp]) makes of
    two messages that were written independently on top of the same data: at
    every place of the tree, also deep inside the same dictionary or set, the
    merged value is the reconciliation of the two edits ([reconciled]). *)

From Stdlib Require Import ZArith String Lia Sorting.Sorted.
From stdpp Require Import base option list strings numbers sorting sets.
From S2P Require Import Prelude OrderedMap Bt Bencode Crypto ConfigData ConfigDiff ConfigMessage ConfigCodec ConfigMerge ConfigReplay.

(** ** Values at a key

    A value read as a dictionary or as a set; anything else is read as an
    empty one. *)
Definition dict_of (o : option dict_value) : dict := match o with Some (DDict d) => d | _ => [] end.
Definition set_of (o : option dict_value) : config_set := match o with Some (DSet s) => s | _ => [] end.

(** ** Reconciliation

    [reconciled o l h r]: [o] is the value both started from, [l] the value in
    the earlier message, [h] in the later one, and [r] what becomes of them.
    An edit made by only one is kept. If both changed the value, the later
    message decides, except that sets and dictionaries are reconciled element by
    element: an element that was there stays if neither removed it, an element
    that was not is there if either added it; and the values at each key of a
    dictionary are reconciled in turn. *)
Inductive reconciled : option dict_value → option dict_value → option dict_value → option dict_value → Prop :=
  | only_late o h : reconciled o o h h
  | only_early o l : reconciled o l o l
  | both_gone o l : o ≠ None → reconciled o l None None
  | both_scalar o l x : o ≠ Some (DScalar x) → reconciled o l (Some (DScalar x)) (Some (DScalar x))
  | both_sets o l s r s' :
      o ≠ l → o ≠ Some (DSet s) → ssorted s' = true →
      (∀ x, smem x s' = if smem x (set_of o) then smem x (set_of l) && smem x s
                        else smem x (set_of l) || smem x s) →
      r = Some (DSet s') ∨ r = None ∧ s' = [] →
      reconciled o l (Some (DSet s)) r
  | both_dicts o l d r d' :
      o ≠ l → o ≠ Some (DDict d) →
      (∀ k, reconciled (mfind k (dict_of o)) (mfind k (dict_of l)) (mfind k d) (mfind k d')) →
      r = Some (DDict d') ∨ r = None ∧ d' = [] →
      reconciled o l (Some (DDict d)) r.

(** An edit that only one message made is what is left. *)
Lemma reconciled_late o h r : reconciled o o h r → r = h.
Proof. by inversion 1. Qed.
Lemma reconciled_early o l r : reconciled o l o r → r = l.
Proof. by inversion 1. Qed.

(** An element of a set that only one message added or removed *)
Lemma reconciled_elements o l s r x :
  reconciled o l (Some (DSet s)) r → o ≠ l → o ≠ Some (DSet s) →
  smem x (set_of r) = if smem x (set_of o) then smem x (set_of l) && smem x s else smem x (set_of l) || smem x s.
Proof.
  inversion 1 as [| | | |? ? ? ? s' _ _ _ Hm [->|[-> ->]]|]; subst; intros Hl Hh; try done; by rewrite <-Hm.
Qed.

(** ** What a diff records *)
Inductive diff_rel : option dict_value → option dict_value → option bt_value → Prop :=
  | diff_same o : diff_rel o o None
  | diff_gone o w : o ≠ None → diff_rel o None (Some w)
  | diff_scalar o x : o ≠ Some (DScalar x) → diff_rel o (Some (DScalar x)) (Some (BtStr ""))
  | diff_sets o s :
      o ≠ Some (DSet s) → set_ok (set_of o) = true → set_ok s = true →
      diff_rel o (Some (DSet s))
        (Some (BtList [BtList (bt_of_scalar <$> minus s (set_of o)); BtList (bt_of_scalar <$> minus (set_of o) s)]))
  | diff_dicts o d w :
      o ≠ Some (DDict d) → msorted w = true →
      (∀ k, diff_rel (mfind k (dict_of o)) (mfind k d) (mfind k w)) →
      diff_rel o (Some (DDict d)) (Some (BtDict w)).

Definition opt_pruned (o : option dict_value) : bool := match o with Some v => value_pruned v | None => true end.

Lemma dict_of_ok o : ovalue_ok o = true → dict_ok (dict_of o) = true.
Proof. by destruct o as [[]|]. Qed.
Lemma set_of_ok o : ovalue_ok o = true → set_ok (set_of o) = true.
Proof. by destruct o as [[]|]. Qed.
Lemma ovalue_ok_find k d : dict_ok d = true → ovalue_ok (mfind k d) = true.
Proof. intros Hd. destruct (mfind k d) eqn:E; simpl; eauto with ordmap. Qed.
Lemma dict_of_pruned o : opt_pruned o = true → dict_pruned (dict_of o) = true.
Proof. destruct o as [[d| |]|]; try done. simpl. by intros [_ ?]%andb_true_iff. Qed.
Lemma opt_pruned_find k d : dict_pruned d = true → opt_pruned (mfind k d) = true.
Proof. intros Hd. destruct (mfind k d) eqn:E; simpl; eauto with ordmap. Qed.

#[local] Hint Resolve dict_of_ok set_of_ok ovalue_ok_find dict_of_pruned opt_pruned_find : ordmap.

Section diff_computes.
Context `{BtLib, !BtLaws}.

(** What [diff_dict] computes on dictionaries of depth [n] *)
Definition computes (rec : dict → dict → result (option bt_dict)) (n : nat) : Prop :=
  ∀ old new_ od, dict_ok old = true → dict_ok new_ = true →
    dict_pruned old = true → dict_pruned new_ = true →
    (ddepth old ≤ n)%nat → (ddepth new_ ≤ n)%nat → rec old new_ = Ok od →
    (od = None ↔ old = new_) ∧ msorted (default [] od) = true ∧
    ∀ k, diff_rel (mfind k old) (mfind k new_) (mfind k (default [] od)).

Context (rec : dict → dict → result (option bt_dict)) (n : nat).
Context (Hrec : computes rec n).

Lemma sets_rel o s s0 od :
  set_of o = s0 → set_ok s0 = true → set_ok s = true → o ≠ Some (DSet s) →
  diff_set s0 s = Some od → diff_rel o (Some (DSet s)) (Some (BtList od)).
Proof.
  intros <- Ho Hs Hne Hd. pose proof Ho as [Ho' _]%set_ok_spec. pose proof Hs as [Hs' _]%set_ok_spec.
  apply diff_set_Some in Hd as ->; [|done..]. by constructor.
Qed.

Lemma dicts_rel o d d0 df :
  dict_of o = d0 → o ≠ Some (DDict d) → msorted df = true →
  (∀ k, diff_rel (mfind k d0) (mfind k d) (mfind k df)) → diff_rel o (Some (DDict d)) (Some (BtDict df)).
Proof. intros <-. by constructor. Qed.

Lemma added_rel o v w :
  entry_ok n v → match v with DDict _ => dict_of o = [] | DSet _ => set_of o = [] | _ => True end → o ≠ Some v →
  diff_added rec v = Ok (Some w) → diff_rel o (Some v) (Some w).
Proof.
  intros Hv Ho Hne Hd. pose proof (Hrec []) as Hr. destruct v as [d|s|x]; cbn [diff_added] in Hd.
  - pose proof (empty_depth n _ Hv). destruct Hv as (Hok & [Hnil Hp]%value_pruned_dict & Hdep). inv_result.
    destruct a as [df|]; [|done]. simpl in E0. injection E0 as <-. simplify_eq.
    destruct (Hr d (Some df)) as (_ & Hs & Hk); try done. by apply (dicts_rel o d []).
  - destruct Hv as (Hok & _). destruct (diff_set [] s) as [l|] eqn:El; [|done]. simpl in Hd. injection Hd as <-.
    by apply (sets_rel o s []).
  - injection Hd as <-. by constructor.
Qed.

Lemma both_rel o v od :
  entry_ok n o → entry_ok n v → diff_both rec o v = Ok od → diff_rel (Some o) (Some v) od.
Proof.
  intros Ho Hv Hd. destruct (decide (dv_index o = dv_index v)) as [Hi|Hi].
  - destruct o as [d|s|x], v as [d'|s'|x']; try done; cbn [diff_both] in Hd.
    + destruct Ho as (Hok & [_ Hp]%value_pruned_dict & Hdep), Hv as (Hok' & [_ Hp']%value_pruned_dict & Hdep').
      inv_result. destruct (Hrec d d' a) as (Heq & Hs & Hk); try done.
      destruct a as [df|]; simpl; [|rewrite (proj1 Heq eq_refl); constructor].
      apply (dicts_rel _ _ d); try done. intros [= ->]. by destruct Heq as [_ Heq]; specialize (Heq eq_refl).
    + destruct Ho as (Hok & _), Hv as (Hok' & _). pose proof (diff_set_None s s' Hok Hok') as Heq.
      destruct (diff_set s s') as [l|] eqn:El; injection Hd as <-; simpl.
      * apply (sets_rel _ _ s); try done. intros [= ->]. by destruct Heq as [_ Heq]; specialize (Heq eq_refl).
      * rewrite (proj1 Heq eq_refl); constructor.
    + injection Hd as <-. destruct (keqb x x') eqn:E; [apply keqb_spec in E as ->; constructor|].
      constructor. intros [= ->]. by rewrite keqb_refl in E.
  - assert (diff_both rec o v = diff_added rec v) as Eb by by destruct o, v.
    rewrite Eb in Hd. assert (∃ w, od = Some w) as [w ->].
    { destruct v; cbn [diff_added] in Hd; inv_result; eauto. }
    apply added_rel; [done|by destruct o, v|by intros [= ->]|done].
Qed.
End diff_computes.

Section reconcile.
Context `{BtLib, !BtLaws}.

Lemma diff_dict_computes n : computes (diff_dict n) n.
Proof.
  induction n as [|n IH]; intros old new_ od Ho Hn Hpo Hpn Hdo Hdn Hd.
  { unfold ddepth in Hdo. simpl in Hdo. lia. }
  destruct (diff_dict_round (S n) old new_) as (od' & Hd' & Heq & _); [done..|].
  rewrite Hd in Hd'. injection Hd' as <-. split; [exact Heq|]. cbn [diff_dict] in Hd. inv_result.
  rename a into df. assert (default [] (if is_nil df then None else Some df) = df) as -> by by destruct df.
  apply walk2_spec in E as [Hs Hk]; [|by apply dict_ok_sorted..]. split; [done|]. intros k. specialize (Hk k).
  destruct (mfind k old) as [o|] eqn:Eo, (mfind k new_) as [v|] eqn:En; simpl in Hk.
  - apply (both_rel (diff_dict n) n); [done|by apply (dict_entry_ok n old k)|by apply (dict_entry_ok n new_ k)|done].
  - assert (∃ w, mfind k df = Some w) as [w ->]; [|by constructor]. destruct o; cbn [diff_removed] in Hk; inv_result; eauto.
  - assert (∃ w, mfind k df = Some w) as [w Hw] by (destruct v; cbn [diff_added] in Hk; inv_result; eauto).
    rewrite Hw in Hk |- *. apply (added_rel (diff_dict n) n); [done|by apply (dict_entry_ok n new_ k)|by destruct v|done..].
  - injection Hk as <-. constructor.
Qed.

Lemma diff_impl_rel old new_ od :
  dict_ok old = true → dict_ok new_ = true → dict_pruned old = true → dict_pruned new_ = true →
  diff_impl old new_ = Ok od → ∀ k, diff_rel (mfind k old) (mfind k new_) (mfind k (default [] od)).
Proof.
  intros Ho Hn Hpo Hpn Hd. unfold diff_impl in Hd. eapply diff_dict_computes in Hd as (_ & _ & Hk); try done; lia.
Qed.

(** ** Applying what a diff records *)

(** One entry of the replay at one key *)
Definition replay_value (w : option bt_value) (cur src : option dict_value) : result (option dict_value) :=
  match w with Some w => apply_value w cur src | None => Ok cur end.

Lemma apply_sets_members a r cur s :
  set_ok a = true → set_ok r = true → set_ok cur = true →
  apply_set_diff [BtList (bt_of_scalar <$> a); BtList (bt_of_scalar <$> r)] cur = Ok s →
  ssorted s = true ∧ ∀ x, smem x s = (smem x cur || smem x a) && negb (smem x r).
Proof.
  intros [_ Ha]%set_ok_spec [_ Hr]%set_ok_spec [Hc _]%set_ok_spec. unfold apply_set_diff. simpl.
  rewrite foldR_set_add by done. simpl. rewrite foldR_set_remove by done. intros [= <-].
  split; [by apply sfold_erase_sorted, sfold_insert_sorted|]. intros x. rewrite sfold_erase, sfold_insert.
  by destruct (smem x a), (smem x cur), (smem x r).
Qed.

Lemma apply_dict_at wd cur d r :
  dict_ok (dict_of cur) = true → msorted wd = true → dict_ok d = true →
  apply_value (BtDict wd) cur (Some (DDict d)) = Ok r →
  ∃ r', r = Some (DDict r') ∧ msorted r' = true ∧
    ∀ k, replay_value (mfind k wd) (mfind k (dict_of cur)) (mfind k d) = Ok (mfind k r').
Proof.
  intros Hc Hw Hd. rewrite apply_value_dict. change (match cur with Some (DDict d0) => d0 | _ => [] end) with (dict_of cur).
  intros Ha. inv_result. rename a into r'. exists r'. split; [done|]. split.
  { eapply apply_diff_sorted; [|exact E]. by apply dict_ok_sorted. }
  intros k. pose proof (apply_diff_at (dict_of cur) wd d r' k (dict_ok_sorted _ Hc) Hw E) as Hk.
  unfold replay_value. destruct (mfind k wd); congruence.
Qed.

(** A diff turns the old value, and the new one, into the new one. *)
Lemma diff_reproduces o h wh cur r :
  diff_rel o h wh → ovalue_ok o = true → ovalue_ok h = true → cur = o ∨ cur = h →
  replay_value wh cur h = Ok r → r = h.
Proof.
  intros Hd. revert cur r. induction Hd as [o|o w Hne|o x Hne|o s Hne Hso Hs|o d w Hne Hw Hk IH]; intros cur r Ho Hh Hcur Hr.
  - simpl in Hr. injection Hr as <-. by destruct Hcur.
  - simpl in Hr. rewrite apply_value_gone in Hr. by injection Hr.
  - simpl in Hr. by injection Hr.
  - simpl in Hr. inv_result. do 2 f_equal. change (match cur with Some (DSet s0) => s0 | _ => [] end) with (set_of cur) in E.
    assert (set_ok (set_of cur) = true) as Hc by by destruct Hcur as [->| ->].
    apply apply_sets_members in E as [Hsa Hm]; [|by apply set_ok_minus..|done].
    apply ssorted_ext; [done|by apply set_ok_spec in Hs as [? _]|]. intros x. rewrite Hm, !smem_minus.
    destruct Hcur as [->| ->]; simpl; by destruct (smem x s), (smem x (set_of o)).
  - simpl replay_value in Hr. apply apply_dict_at in Hr as (r' & -> & Hs & Hf); [|destruct Hcur as [->| ->]; auto with ordmap|done|done].
    do 2 f_equal. apply msorted_ext; [done|by apply dict_ok_sorted|]. intros k. symmetry.
    specialize (IH k (mfind k (dict_of cur)) (mfind k r')). symmetry. apply IH; auto with ordmap.
    destruct Hcur as [->| ->]; auto.
Qed.

(** [after o l h c]: [c] is what the earlier message's diff, from [o] to [l],
    makes of the later message's value [h]. *)
Inductive after : option dict_value → option dict_value → option dict_value → option dict_value → Prop :=
  | after_same o h : after o o h h
  | after_kept o h : after o o h o
  | after_value o l h : o ≠ l → match l with None | Some (DScalar _) => True | _ => False end → after o l h l
  | after_sets o s h s' :
      o ≠ Some (DSet s) →
      (∀ x, smem x s' = (smem x (set_of h) || smem x s && negb (smem x (set_of o))) && negb (smem x (set_of o) && negb (smem x s))) →
      after o (Some (DSet s)) h (Some (DSet s'))
  | after_dicts o d h d' :
      o ≠ Some (DDict d) →
      (∀ k, after (mfind k (dict_of o)) (mfind k d) (mfind k (dict_of h)) (mfind k d')) →
      after o (Some (DDict d)) h (Some (DDict d')).

Lemma diff_after o l h wl c :
  diff_rel o l wl → ovalue_ok o = true → ovalue_ok l = true → ovalue_ok h = true → ovalue_ok c = true →
  replay_value wl h l = Ok c → after o l h c.
Proof.
  intros Hd. revert h c. induction Hd as [o|o w Hne|o x Hne|o s Hne Hso Hs|o d w Hne Hw Hk IH]; intros h c Ho Hl Hh Hc Hr.
  - simpl in Hr. injection Hr as <-. constructor.
  - simpl in Hr. rewrite apply_value_gone in Hr. injection Hr as <-. by constructor.
  - simpl in Hr. injection Hr as <-. by constructor.
  - simpl in Hr. inv_result. change (match h with Some (DSet s0) => s0 | _ => [] end) with (set_of h) in E.
    apply apply_sets_members in E as [Hsa Hm]; [|by apply set_ok_minus..|auto with ordmap].
    constructor; [done|]. intros x. by rewrite Hm, !smem_minus.
  - simpl replay_value in Hr. apply apply_dict_at in Hr as (r' & -> & Hs & Hf); [|auto with ordmap|done|done].
    constructor; [done|]. intros k. apply IH; auto with ordmap.
Qed.

(** Where the later message changed nothing, its value becomes the earlier's. *)
Lemma after_unchanged o l c : after o l o c → ovalue_ok l = true → ovalue_ok c = true → c = l.
Proof.
  intros Ha. remember o as h eqn:Eh in Ha at 2. revert Eh.
  induction Ha as [o h|o h|o l h Hne Hv|o s h s' Hne Hm|o d h d' Hne Hk IH]; intros -> Hl Hc; try done.
  - do 2 f_equal. simpl in Hl, Hc. apply set_ok_spec in Hl as [Hl _], Hc as [Hc _]. apply ssorted_ext; [done..|].
    intros x. rewrite Hm. by destruct (smem x s), (smem x (set_of o)).
  - do 2 f_equal. apply msorted_ext; [by apply dict_ok_sorted..|]. intros k. apply IH; auto with ordmap.
Qed.

Lemma after_reads o l h c :
  after o l h c → o = l ∨ o ≠ l ∧
    (set_of c = [] ∧ set_of l = [] ∨ ∃ s s', l = Some (DSet s) ∧ c = Some (DSet s')) ∧
    (dict_of c = [] ∧ dict_of l = [] ∨ ∃ d d', l = Some (DDict d) ∧ c = Some (DDict d')).
Proof.
  intros Ha. inversion Ha as [| |? ? ? Hne Hv| |]; subst; [by left|by left|..]; right; (split; [done|]).
  - split; left; by destruct c as [[]|].
  - split; [right; eauto|by left].
  - split; [by left|right; eauto].
Qed.

Lemma after_unchanged_early o h c : after o o h c → c = o ∨ c = h.
Proof. inversion 1; subst; auto; done. Qed.

Lemma after_set_inv o s h s' x :
  after o (Some (DSet s)) h (Some (DSet s')) → o ≠ Some (DSet s) →
  smem x s' = (smem x (set_of h) || smem x s && negb (smem x (set_of o))) && negb (smem x (set_of o) && negb (smem x s)).
Proof. inversion 1; subst; by auto. Qed.

Lemma after_dict_inv o d h d' k :
  after o (Some (DDict d)) h (Some (DDict d')) → o ≠ Some (DDict d) →
  after (mfind k (dict_of o)) (mfind k d) (mfind k (dict_of h)) (mfind k d').
Proof. inversion 1; subst; by auto. Qed.

Lemma reconcile_values o l h c r wh :
  after o l h c → diff_rel o h wh →
  ovalue_ok o = true → ovalue_ok l = true → ovalue_ok h = true → ovalue_ok c = true → ovalue_ok r = true →
  replay_value wh c h = Ok r → reconciled o l h r.
Proof.
  intros Ha Hd. revert l c r Ha.
  induction Hd as [o|o w Hne|o x Hne|o s Hne Hso Hs|o d w Hne Hw Hk IH]; intros l c r Ha Ho Hl Hh Hc Hr Hrep.
  - simpl in Hrep. injection Hrep as <-. rewrite (after_unchanged o l c) by done. constructor.
  - simpl in Hrep. rewrite apply_value_gone in Hrep. injection Hrep as <-. by constructor.
  - simpl in Hrep. injection Hrep as <-. by constructor.
  - destruct (after_reads _ _ _ _ Ha) as [<-|(Hol & Hsets & _)].
    { assert (r = Some (DSet s)) as ->; [|constructor]. eapply diff_reproduces; [by eapply (diff_sets o s)|done|done| |done].
      by apply after_unchanged_early in Ha. }
    simpl in Hrep. inv_result. change (match c with Some (DSet s0) => s0 | _ => [] end) with (set_of c) in E.
    rename a into s'. apply apply_sets_members in E as [Hsa Hm]; [|by apply set_ok_minus..|auto with ordmap].
    eapply both_sets; [done..|exact Hsa| |by left]. intros x. rewrite Hm, !smem_minus.
    destruct Hsets as [[-> ->]|(s1 & s2 & -> & ->)].
    + simpl. by destruct (smem x s), (smem x (set_of o)).
    + simpl set_of. rewrite (after_set_inv _ _ _ _ x Ha) by done. cbn [set_of].
      by destruct (smem x s), (smem x (set_of o)), (smem x s1).
  - destruct (after_reads _ _ _ _ Ha) as [<-|(Hol & _ & Hdicts)].
    { assert (r = Some (DDict d)) as ->; [|constructor]. eapply diff_reproduces; [by eapply (diff_dicts o d)|done|done| |done].
      by apply after_unchanged_early in Ha. }
    simpl replay_value in Hrep. apply apply_dict_at in Hrep as (r' & -> & Hs & Hf); [|auto with ordmap|done|done].
    eapply both_dicts; [done..| |by left]. intros k. apply (IH k _ (mfind k (dict_of c))); [|by auto with ordmap|by auto with ordmap|by apply ovalue_ok_find|by auto with ordmap|by apply ovalue_ok_find|apply Hf].
    destruct Hdicts as [[-> ->]|(d1 & d2 & -> & ->)].
    + simpl. destruct (mfind k (dict_of o)); [by constructor|apply after_kept].
    + by apply (after_dict_inv _ _ (Some (DDict d))).
Qed.

(** ** Pruning *)
Definition pruned (o : option dict_value) : option dict_value :=
  match o with Some v => let '(v', (rm, _)) := prune_value v in if rm : bool then None else Some v' | None => None end.

Lemma mfind_prune k d : dict_ok d = true → mfind k (prune d) = pruned (mfind k d).
Proof. intros Hd. by rewrite prune_fst, mfind_prune_entries. Qed.

Lemma pruned_id o : opt_pruned o = true → pruned o = o.
Proof. destruct o as [v|]; [|done]. simpl. intros Hv. by rewrite prune_value_pruned. Qed.

Lemma pruned_dict d : pruned (Some (DDict d)) = if is_nil (prune d) then None else Some (DDict (prune d)).
Proof. unfold pruned. rewrite prune_value_dict, prune_fst. by destruct (prune_entries d). Qed.

Lemma reconciled_pruned o l h r :
  reconciled o l h r → opt_pruned l = true → opt_pruned h = true → ovalue_ok r = true → reconciled o l h (pruned r).
Proof.
  induction 1 as [o h|o l|o l Hne|o l x Hne|o l s r s' Hol Hoh Hs Hm Hr|o l d r d' Hol Hoh Hk IH Hr]; intros Hl Hh Hok;
    try (rewrite pruned_id by done; by constructor).
  - eapply both_sets; [done..|exact Hs|exact Hm|]. destruct Hr as [->|[-> ->]]; [|by right].
    simpl. destruct s' as [|x s']; simpl; [by right|by left].
  - destruct Hr as [->|[-> ->]].
    + eapply (both_dicts o l d _ (prune d')); [done..| |].
      * intros k. rewrite mfind_prune by done. apply IH; auto with ordmap. by apply opt_pruned_find, (dict_of_pruned (Some (DDict d))).
      * rewrite pruned_dict. destruct (prune d'); simpl; [by right|by left].
    + eapply (both_dicts o l d _ []); [done..|exact Hk|by right].
Qed.
End reconcile.

(** ** Places inside the tree

    A path of keys leads through nested dictionaries, in the data and in a diff.
    [along]: the diff has nothing but nested diffs on the path; [touches]: it
    has something at the key [k] at the end of the path, or replaces a
    dictionary on the way. *)
Fixpoint descend (p : list bytes) (d : dict) : option dict :=
  match p with
  | [] => Some d
  | k :: p => match mfind k d with Some (DDict d') => descend p d' | _ => None end
  end.
Definition value_at (p : list bytes) (k : bytes) (d : dict) : option dict_value :=
  match descend p d with Some d' => mfind k d' | None => None end.
Fixpoint subdiff (p : list bytes) (w : bt_dict) : bt_dict :=
  match p with
  | [] => w
  | k :: p => match mfind k w with Some (BtDict w') => subdiff p w' | _ => [] end
  end.
Fixpoint along (p : list bytes) (w : bt_dict) : bool :=
  match p with
  | [] => true
  | k :: p => match mfind k w with None => true | Some (BtDict w') => along p w' | Some _ => false end
  end.
Fixpoint touches (p : list bytes) (k : bytes) (w : bt_dict) : bool :=
  match p with
  | [] => is_some (mfind k w)
  | k' :: p => match mfind k' w with None => false | Some (BtDict w') => touches p k w' | Some _ => true end
  end.

Lemma subdiff_nil p : subdiff p [] = [].
Proof. by destruct p. Qed.
Lemma value_at_nil p k : value_at p k [] = None.
Proof. by destruct p. Qed.

Lemma untouched p k w : touches p k w = false → along p w = true ∧ mfind k (subdiff p w) = None.
Proof.
  revert w; induction p as [|k' p IH]; intros w; cbn [touches along subdiff].
  - by destruct (mfind k w).
  - destruct (mfind k' w) as [[| | |w']|]; [done..|apply IH|done].
Qed.

Lemma descend_ok p d d' : dict_ok d = true → descend p d = Some d' → dict_ok d' = true.
Proof.
  revert d; induction p as [|k p IH]; intros d Hd; cbn [descend]; [by intros [= <-]|].
  destruct (mfind k d) as [[d1| |]|] eqn:E; try done. apply IH. by apply (dict_ok_find d k).
Qed.

Lemma descend_pruned p d d' : dict_pruned d = true → descend p d = Some d' → dict_pruned d' = true.
Proof.
  revert d; induction p as [|k p IH]; intros d Hd; cbn [descend]; [by intros [= <-]|].
  destruct (mfind k d) as [[d1| |]|] eqn:E; try done. apply IH.
  apply (dict_pruned_find d k) in E; [|done]. by apply value_pruned_dict in E as [_ ?].
Qed.

Lemma diff_ok_find w k v : diff_ok (BtDict w) = true → mfind k w = Some v → diff_ok v = true.
Proof. intros [_ Hok]%diff_ok_dict Hf%mfind_Some_In. by eapply Hok. Qed.

Lemma subdiff_ok p w : diff_ok (BtDict w) = true → diff_ok (BtDict (subdiff p w)) = true.
Proof.
  revert w; induction p as [|k p IH]; intros w Hw; cbn [subdiff]; [done|].
  destruct (mfind k w) as [[| | |w']|] eqn:E; try done. apply IH. by apply (diff_ok_find w k).
Qed.

(** Pruning below a path is pruning what is there. *)
Lemma value_at_prune p k d : dict_ok d = true → value_at p k (prune d) = pruned (value_at p k d).
Proof.
  revert d; induction p as [|k' p IH]; intros d Hd; [by apply mfind_prune|].
  unfold value_at. cbn [descend]. rewrite mfind_prune by done.
  destruct (mfind k' d) as [[d1|s|x]|] eqn:E; [|by destruct s|done..].
  rewrite pruned_dict. apply dict_ok_find in E; [|done]. change (dict_ok d1 = true) in E. specialize (IH d1 E).
  destruct (is_nil (prune d1)) eqn:En; [|exact IH].
  destruct (prune d1) eqn:Ep; [|done]. rewrite value_at_nil in IH. exact IH.
Qed.

Section paths.
Context `{BtLib, !BtLaws}.

(** The diff at a path is the diff of what is there. *)
Lemma diff_rel_at p o l w dl :
  (∀ k, diff_rel (mfind k o) (mfind k l) (mfind k w)) → descend p l = Some dl →
  along p w = true ∧ ∀ k, diff_rel (value_at p k o) (mfind k dl) (mfind k (subdiff p w)).
Proof.
  revert o l w; induction p as [|k' p IH]; intros o l w Hd Hl; cbn [descend] in Hl.
  { injection Hl as <-. by split. }
  destruct (mfind k' l) as [[l'| |]|] eqn:El; try done. cbn [along subdiff].
  specialize (Hd k'). rewrite El in Hd.
  assert (∀ k, value_at (k' :: p) k o = value_at p k (dict_of (mfind k' o))) as Hval.
  { intros k. unfold value_at at 1. cbn [descend]. by destruct (mfind k' o) as [[]|]; simpl; rewrite ?value_at_nil. }
  setoid_rewrite Hval. clear Hval. revert Hd. generalize (mfind k' o), (mfind k' w). intros o' w' Hd.
  inversion Hd as [| | | |? ? w1 Hne Hw Hk]; subst.
  - split; [done|]. intros k. simpl. unfold value_at. rewrite Hl. constructor.
  - by apply (IH _ l' w1).
Qed.

(** The replay at a path is the replay of what the entries have there. *)
Definition at_path (p : list bytes) (e : seqno_hash_t * (dict * bt_dict)) : seqno_hash_t * (dict * bt_dict) :=
  (e.1, (default [] (descend p e.2.1), subdiff p e.2.2)).

Definition entry_good (e : seqno_hash_t * (dict * bt_dict)) : Prop :=
  dict_ok e.2.1 = true ∧ diff_ok (BtDict e.2.2) = true.
Definition entry_along (p : list bytes) (e : seqno_hash_t * (dict * bt_dict)) : Prop :=
  is_Some (descend p e.2.1) ∧ along p e.2.2 = true.

Lemma at_path_good p e : entry_good e → entry_along p e → entry_good (at_path p e).
Proof.
  intros [Hd Hw] [[d' Hd'] _]. unfold at_path, entry_good. simpl. rewrite Hd'. simpl.
  split; [by eapply descend_ok|by apply subdiff_ok].
Qed.

Lemma replay_inside k r D x :
  Forall entry_good r → Forall (entry_along [k]) r → dict_ok D = true →
  foldR (replay_key k) (Some (DDict D)) r = Ok x →
  ∃ D', x = Some (DDict D') ∧ apply_replay D (at_path [k] <$> r) = Ok D'.
Proof.
  intros Hg Ha. revert D; induction r as [|e r IH]; intros D HD Hf.
  { injection Hf as <-. by exists D. }
  apply Forall_cons in Hg as [[Hd Hw] Hg], Ha as [[[s Hs] Hal] Ha]. cbn [foldR] in Hf. apply bind_Ok in Hf as (c & Hc & Hf).
  cbn [descend along] in Hs, Hal. destruct (mfind k e.2.1) as [[s'| |]|] eqn:Es; try done. injection Hs as ->.
  unfold apply_replay. rewrite fmap_cons. cbn [foldR at_path fst snd descend subdiff]. rewrite Es. cbn [default from_option id].
  unfold replay_key in Hc. rewrite Es in Hc. destruct (mfind k e.2.2) as [[| | |w']|] eqn:Ew; try done.
  - rewrite apply_value_dict in Hc. inv_result. rewrite E. simpl.
    apply IH; [done..| |done]. destruct (apply_diff_total D w' s) as (a' & Ea & Hok); [by apply (diff_ok_find e.2.2 k)|done| |].
    + by apply (dict_ok_find e.2.1 k).
    + rewrite E in Ea. by injection Ea as <-.
  - injection Hc as <-. simpl. by apply IH.
Qed.

Lemma at_path_cons k p e : entry_along [k] e → at_path (k :: p) e = at_path p (at_path [k] e).
Proof.
  intros [[s Hs] Ha]. unfold at_path. cbn [descend subdiff along fst snd] in *.
  destruct (mfind k e.2.1) as [[]|]; try done.
  destruct (mfind k e.2.2) as [[]|]; simpl; by rewrite ?subdiff_nil.
Qed.

Lemma entry_along_cons k p e : entry_along (k :: p) e → entry_along [k] e ∧ entry_along p (at_path [k] e).
Proof.
  unfold entry_along, at_path. cbn [descend along subdiff fst snd]. intros [[s Hs] Ha].
  destruct (mfind k e.2.1) as [[]|]; try done. destruct (mfind k e.2.2) as [[]|]; try done; simpl; eauto.
  repeat split; eauto. by destruct p.
Qed.

Lemma replay_at_path p data r d D :
  apply_replay data r = Ok d → dict_ok data = true → Forall entry_good r → descend p data = Some D →
  Forall (entry_along p) r →
  ∃ D', descend p d = Some D' ∧ apply_replay D (at_path p <$> r) = Ok D'.
Proof.
  revert data r d; induction p as [|k p IH]; intros data r d Hr Hd Hg HD Ha.
  { injection HD as <-. exists d. split; [done|]. rewrite <-Hr. f_equal. clear.
    induction r as [|[x [s w]] r IHr]; [done|]. rewrite fmap_cons. by f_equal. }
  cbn [descend] in HD. destruct (mfind k data) as [[d1| |]|] eqn:E1; try done.
  assert (Forall (entry_along [k]) r) as Ha1 by (eapply Forall_impl; [exact Ha|]; intros e He; by apply entry_along_cons in He as [? _]).
  pose proof (dict_ok_find _ _ _ Hd E1) as Hd1.
  assert (foldR (replay_key k) (mfind k data) r = Ok (mfind k d)) as Hk.
  { apply apply_replay_at; [by apply dict_ok_sorted| |done]. intros x e Hin.
    rewrite Forall_forall in Hg. destruct (Hg _ Hin) as [_ Hw]. by apply diff_ok_dict in Hw as [? _]. }
  rewrite E1 in Hk. destruct (replay_inside k r d1 (mfind k d) Hg Ha1 Hd1 Hk) as (D1 & Hd1' & Hr1).
  destruct (IH d1 (at_path [k] <$> r) D1 Hr1 Hd1) as (D' & HD' & Hr').
  - rewrite Forall_fmap. rewrite Forall_forall in *. intros e He. apply at_path_good; auto.
  - done.
  - rewrite Forall_fmap. eapply Forall_impl; [exact Ha|]. intros e He. by apply entry_along_cons in He as [_ ?].
  - exists D'. cbn [descend]. rewrite Hd1'. split; [done|]. rewrite <-Hr'. f_equal.
    rewrite <-list_fmap_compose. apply list_fmap_ext. intros i e He.
    rewrite Forall_forall in Ha1. by apply at_path_cons, Ha1, (list_elem_of_lookup_2 _ i).
Qed.
End paths.

Definition latest (a b : ConfigMessage) : ConfigMessage := if klt (sh a) (sh b) then b else a.
Definition earlier (a b : ConfigMessage) : ConfigMessage := if klt (sh a) (sh b) then a else b.

Lemma kept_pair a b lg s :
  mergeable [a; b] lg s → kept [a; b] lg = [a; b] →
  sort_desc [a; b] = [latest a b; earlier a b] ∧
  sh (earlier a b) ≺ sh (latest a b) ∧
  mfind (sh (earlier a b)) (lagged_diffs_ (latest a b)) = None.
Proof.
  intros Hg Hk. pose proof (kept_distinct [a; b] lg) as Hnd. rewrite Hk in Hnd.
  rewrite !fmap_cons in Hnd. apply NoDup_cons in Hnd as [Hne _].
  assert (sh a ≠ sh b) as Hab by (intros E; apply Hne; rewrite E; by left).
  assert (∀ x, x ∈ [a; b] → ∀ c, c ∈ [a; b] → mfind (sh x) (lagged_diffs_ c) = None) as Hl.
  { intros x Hx. rewrite <-Hk in Hx at 1. apply (kept_spec _ _ (mg_co _ _ _ Hg)) in Hx. naive_solver. }
  unfold latest, earlier, sort_desc. cbn [foldr insert_desc].
  change (seqno_hash_ a) with (sh a). change (seqno_hash_ b) with (sh b).
  destruct (klt (sh a) (sh b)) eqn:E.
  - apply klt_spec in E. assert (klt (sh b) (sh a) = false) as ->.
    { unfold klt. by rewrite (kcmp_opp (sh a)), E. }
    split_and!; [done..|]. apply Hl; set_solver.
  - assert (sh b ≺ sh a) as Hlt by (apply key_trichotomy; [done|rewrite <-klt_spec; by rewrite E]).
    pose proof Hlt as ->%klt_spec. split_and!; [done..|]. apply Hl; set_solver.
Qed.

Section replay_pair.
Context `{BtLib, !BtLaws, Hash}.

(** Entries other than those of the two edits do not count where [f] does not
    hold of them. *)
Lemma replay_pair (f : seqno_hash_t * (dict * bt_dict) → bool) lo hi :
  sh lo ≺ sh hi → mfind (sh lo) (lagged_diffs_ hi) = None →
  (∀ m x d, m = lo ∨ m = hi → (x, d) ∈ lagged_diffs_ m → f (x, (data_ m, d)) = false) →
  List.filter f (make_replay [hi; lo]) =
  List.filter f [(sh lo, (data_ lo, diff_ lo)); (sh hi, (data_ hi, diff_ hi))].
Proof.
  intros Hlt Hlag Hk.
  assert (∀ m x e, m = lo ∨ m = hi →
            mfind x ((λ e, (e.1, (data_ m, e.2))) <$> lagged_diffs_ m) = Some e → f (x, e) = false) as Hold.
  { intros m x e Hm He. apply mfind_Some_In, list_elem_of_fmap in He as ([y d] & [= -> ->] & Hin). by apply Hk. }
  assert (mfind (sh lo) ((λ e, (e.1, (data_ hi, e.2))) <$> lagged_diffs_ hi) = None) as Hnone.
  { revert Hlag. generalize (lagged_diffs_ hi). intros l. induction l as [|[y d] l IH]; [done|].
    rewrite fmap_cons. simpl. by destruct (keqb (sh lo) y). }
  assert (msorted [(sh lo, (data_ lo, diff_ lo)); (sh hi, (data_ hi, diff_ hi))] = true) as Hs2.
  { apply msorted_cons. split; [by repeat constructor|done]. }
  apply msorted_ext; [apply msorted_filter, make_replay_sorted|by apply msorted_filter|].
  intros x. rewrite !mfind_filter by auto using make_replay_sorted.
  rewrite make_replay_find. cbn [fmap list_fmap concat]. rewrite app_nil_r.
  unfold entries. cbn [app]. cbn [mfind].
  destruct (keqb x (sh hi)) eqn:Ehi.
  { apply keqb_spec in Ehi as ->. apply klt_neq in Hlt.
    destruct (keqb (sh hi) (sh lo)) eqn:E; [by apply keqb_spec in E|done]. }
  rewrite mfind_app. cbn [mfind]. destruct (keqb x (sh lo)) eqn:Elo.
  { apply keqb_spec in Elo as ->. by rewrite Hnone. }
  destruct (mfind x _) as [e|] eqn:E1; [by rewrite (Hold hi x e); auto|].
  destruct (mfind x _) as [e|] eqn:E2 in |- *; [by rewrite (Hold lo x e); auto|done].
Qed.

Lemma filter_fmap {A B} (g : A → B) (f : B → bool) l : List.filter f (g <$> l) = g <$> List.filter (λ x, f (g x)) l.
Proof. induction l as [|x l IH]; [done|]. rewrite fmap_cons. simpl. destruct (f (g x)); [rewrite fmap_cons|]; by rewrite IH. Qed.
End replay_pair.

Lemma value_at_pruned p k d : dict_pruned d = true → opt_pruned (value_at p k d) = true.
Proof.
  intros Hd. unfold value_at. destruct (descend p d) eqn:E; [|done]. by eapply opt_pruned_find, descend_pruned.
Qed.
Lemma value_at_ok p k d : dict_ok d = true → ovalue_ok (value_at p k d) = true.
Proof. intros Hd. unfold value_at. destruct (descend p d) eqn:E; [|done]. by eapply ovalue_ok_find, descend_ok. Qed.

Section concurrent_edits.
Context `{BtLib, !BtLaws, Hash}.

(** The replay of two edits at the end of a path *)
Lemma replay_reconciles d0 lo hi data p k dl dh :
  dict_ok d0 = true → dict_pruned d0 = true → edit_of d0 lo → edit_of d0 hi →
  message_wf lo = true → message_wf hi = true → sh lo ≺ sh hi → mfind (sh lo) (lagged_diffs_ hi) = None →
  descend p (data_ lo) = Some dl → descend p (data_ hi) = Some dh →
  (∀ m x d, m = lo ∨ m = hi → (x, d) ∈ lagged_diffs_ m → touches p k d = false) →
  apply_replay (data_ hi) (make_replay [hi; lo]) = Ok data →
  reconciled (value_at p k d0) (value_at p k (data_ lo)) (value_at p k (data_ hi)) (value_at p k data).
Proof.
  intros Hok0 Hp0 Elo Ehi Wlo Whi Hlt Hnone Dl Dh Hlag Hr.
  assert (∀ c, message_wf c = true → edit_of d0 c → ∀ k, diff_rel (mfind k d0) (mfind k (data_ c)) (mfind k (diff_ c))) as Hrel.
  { intros c Hc (od & Hd & ->). apply message_wf_spec in Hc as (Hc & _). apply message_ok_spec in Hc as (? & ? & _).
    by apply diff_impl_rel. }
  destruct (diff_rel_at p d0 (data_ lo) (diff_ lo) dl (Hrel lo Wlo Elo) Dl) as [Al Rl].
  destruct (diff_rel_at p d0 (data_ hi) (diff_ hi) dh (Hrel hi Whi Ehi) Dh) as [Ah Rh].
  pose proof (message_wf_replayable lo Wlo) as (Olo & Flo & Glo). pose proof (message_wf_replayable hi Whi) as (Ohi & Fhi & Ghi).
  assert (∀ e, e ∈ make_replay [hi; lo] → entry_good e ∧ entry_along p e) as Hgood.
  { intros [x e] (m & Hm & Hin)%make_replay_from.
    assert (m = lo ∨ m = hi) as Hm' by set_solver. unfold entries in Hin. apply elem_of_cons in Hin as [[= -> ->]|Hin].
    - unfold entry_good, entry_along. simpl. destruct Hm' as [->| ->]; eauto.
    - apply list_elem_of_fmap in Hin as ([y d] & [= -> ->] & Hin). unfold entry_good, entry_along. simpl.
      destruct (untouched p k d (Hlag m _ d Hm' Hin)) as [Had _]. destruct Hm' as [->| ->]; eauto. }
  destruct (replay_at_path p (data_ hi) (make_replay [hi; lo]) data dh) as (D' & HD' & Hr'); try done;
    try (apply Forall_forall; intros e He; by apply Hgood).
  assert (Forall entry_good (at_path p <$> make_replay [hi; lo])) as Hgp.
  { rewrite Forall_fmap. apply Forall_forall. intros e He. apply at_path_good; by apply Hgood. }
  pose proof (descend_ok _ _ _ Olo Dl) as Odl. pose proof (descend_ok _ _ _ Ohi Dh) as Odh.
  destruct (apply_replay_total dh (at_path p <$> make_replay [hi; lo])) as (D2 & HD2 & OD'); [done| |].
  { intros x e Hin. rewrite Forall_forall in Hgp. by apply Hgp in Hin. }
  rewrite Hr' in HD2. injection HD2 as <-.
  apply apply_replay_at with (k := k) in Hr'; [|by apply dict_ok_sorted|].
  2: { intros x e Hin. rewrite Forall_forall in Hgp. destruct (Hgp _ Hin) as [_ Hw]. by apply diff_ok_dict in Hw as [? _]. }
  rewrite <-foldR_mentions, filter_fmap, replay_pair, <-filter_fmap, foldR_mentions in Hr'; [|done..|].
  2: { intros m x d Hm Hin. unfold mentions, at_path. simpl. by rewrite (proj2 (untouched p k d (Hlag m x d Hm Hin))). }
  unfold value_at at 2 3 4. rewrite Dl, Dh, HD'. cbn [fmap list_fmap foldR] in Hr'. inv_result.
  unfold replay_key in E, E0. cbn [at_path fst snd] in E, E0. rewrite Dl in E. rewrite Dh in E0. cbn [default from_option id] in E, E0.
  rename a into c.
  pose proof (value_at_ok p k d0 Hok0) as Ov.
  pose proof (ovalue_ok_find k dl Odl) as Ol. pose proof (ovalue_ok_find k dh Odh) as Oh.
  assert (ovalue_ok c = true) as Oc.
  { destruct (mfind k (subdiff p (diff_ lo))) as [w|] eqn:Ew; [|by injection E as <-].
    destruct (apply_value_total w (mfind k dh) (mfind k dl)) as (c' & Ec & Hc'); [|done..|by rewrite E in Ec; injection Ec as <-].
    by apply (diff_ok_find (subdiff p (diff_ lo)) k); [apply subdiff_ok|]. }
  eapply (reconcile_values _ _ _ c); [|apply Rh|done..|by apply ovalue_ok_find|exact E0].
  by eapply (diff_after _ _ _ (mfind k (subdiff p (diff_ lo)))).
Qed.

(** C2 (concurrent edits are both kept): two messages were written
    independently on top of the same data, and neither has seen the other.
    Merging them succeeds, and at every place of the tree that the older diffs
    carried along do not touch, and to which both messages' data have the
    dictionaries leading, the merged value is the reconciliation of the two
    edits: an edit made by only one of the two survives, whichever it is; when
    both changed a value, the message with the greater (seqno, hash) decides,
    except that two sets are merged element by element and two dictionaries key
    by key, so edits of different entries, or of different fields of the same
    entry, are all kept. *)
Theorem concurrent_edits d0 a b v s lg :
  dict_ok d0 = true → dict_pruned d0 = true → edit_of d0 a → edit_of d0 b →
  mergeable [a; b] lg s → kept [a; b] lg = [a; b] → verify_only v s = false →
  ∃ m, merge_loaded [a; b] v s lg = Ok m ∧ seqno m = max_seqno [a; b] + 1 ∧
    ∀ p k, is_Some (descend p (data_ a)) → is_Some (descend p (data_ b)) →
      (∀ c x d, c ∈ [a; b] → (x, d) ∈ lagged_diffs_ c → touches p k d = false) →
      reconciled (value_at p k d0) (value_at p k (data_ (earlier a b))) (value_at p k (data_ (latest a b)))
        (value_at p k (data_ m)).
Proof.
  intros Hd0 Hp0 Ha Hb Hg Hk Hv.
  destruct (merge_resolves_aux [a; b] v s lg Hg) as (m & Hm & _ & _ & [Hu|[_ His]]).
  { destruct Hu as (i & c & _ & _ & _ & [Hc|Hc]); [by rewrite Hk in Hc|congruence]. }
  exists m. split_and!; [done|by eapply merged_seqno|]. intros p k [da Da] [db Db] Hlag.
  destruct (kept_pair a b lg s Hg Hk) as (Hsort & Hlt & Hnone).
  destruct His as (front & rest & data & Hfr & Happ & Hdata & _). rewrite Hk, Hsort in Hfr, Happ. injection Hfr as <- <-.
  assert (∀ c, c ∈ [a; b] → message_wf c = true ∧ edit_of d0 c) as Hwf.
  { intros c Hc. split; [by apply (mg_wf _ _ _ Hg)|]. set_solver. }
  assert (latest a b ∈ [a; b] ∧ earlier a b ∈ [a; b]) as [Hin1 Hin2].
  { unfold latest, earlier. destruct (klt _ _); set_solver. }
  destruct (Hwf _ Hin1) as [Wh Eh], (Hwf _ Hin2) as [Wl El].
  assert (∀ c, c ∈ [a; b] → ∃ dc, descend p (data_ c) = Some dc) as Hdesc.
  { intros c [->|[->|[]%not_elem_of_nil]%elem_of_cons]%elem_of_cons; eauto. }
  destruct (Hdesc _ Hin1) as [dh Dh], (Hdesc _ Hin2) as [dl Dl].
  assert (∀ c, message_wf c = true → dict_ok (data_ c) = true ∧ dict_pruned (data_ c) = true) as Hdat.
  { intros c (Hc & _)%message_wf_spec. apply message_ok_spec in Hc. naive_solver. }
  destruct (Hdat _ Wl) as [_ Pl], (Hdat _ Wh) as [Oh Ph].
  destruct (apply_replay_total (data_ (latest a b)) (make_replay [latest a b; earlier a b])) as (data' & Happ' & Odata); [done| |].
  { intros x e (c & Hc & Hin)%make_replay_from.
    assert (replayable c) as (Oc & Fc & Gc) by (apply message_wf_replayable; apply Hwf; set_solver).
    unfold entries in Hin. apply elem_of_cons in Hin as [[= _ ->]|Hin]; [done|].
    apply list_elem_of_fmap in Hin as ([y d] & [= -> ->] & Hin). simpl. eauto. }
  rewrite Happ in Happ'. injection Happ' as <-. rewrite Hdata, value_at_prune by done.
  apply reconciled_pruned; [|by apply value_at_pruned|by apply value_at_pruned|by apply value_at_ok].
  apply (replay_reconciles d0 _ _ data p k dl dh); try done. intros m' x d [->| ->]; by apply Hlag.
Qed.
End concurrent_edits.

(** ** Concrete instances

    Two devices edit the contacts of the same account: each renames a contact
    of its own and adds to and removes from the same set, while an older diff
    for a third contact is still carried along. *)
Definition contact (n : bytes) : dict_value := DDict [("!", DScalar (SInt 1)); ("n", DScalar (SStr n))].
Definition contacts (al bo : bytes) (s : config_set) : dict :=
  [("c", DDict [("al", contact al); ("bo", contact bo); ("cy", contact "Cy")]); ("s", DSet s)].
Definition base_contacts : dict := contacts "Al" "Bo" [SInt 1; SInt 2].

Definition contacts_edit (data : dict) (diff : bt_dict) (hash : bytes) : ConfigMessage :=
  mkConfigMessage data diff [((7, blake2b "base"), [("c", BtDict [("cy", BtDict [("n", BtStr "")])])])] []
    (8, blake2b hash) None None None None 5.
Definition edit_al : ConfigMessage :=
  contacts_edit (contacts "Alice" "Bo" [SInt 2; SInt 3])
    [("c", BtDict [("al", BtDict [("n", BtStr "")])]); ("s", BtList [BtList [BtInt 3]; BtList [BtInt 1]])] "a".
Definition edit_bo : ConfigMessage :=
  contacts_edit (contacts "Al" "Bob" [SInt 1; SInt 2; SInt 4])
    [("c", BtDict [("bo", BtDict [("n", BtStr "")])]); ("s", BtList [BtList [BtInt 4]; BtList []])] "b".

Lemma contact_edits_mergeable : mergeable [edit_al; edit_bo] 5 None.
Proof.
  split; [done| |lia| | |split; vm_compute; reflexivity|exact I].
  - split.
    + intros a b Ha%list_elem_of_In Hb%list_elem_of_In. simpl in Ha, Hb.
      destruct Ha as [<-|[<-|[]]], Hb as [<-|[<-|[]]]; try done; intros Hsh; vm_compute in Hsh; discriminate.
    + intros m x d Hm%list_elem_of_In Hin%list_elem_of_In. simpl in Hm.
      destruct Hm as [<-|[<-|[]]]; simpl in Hin; destruct Hin as [[= <- _]|[]]; vm_compute; done.
  - intros m Hm%list_elem_of_In. simpl in Hm. destruct Hm as [<-|[<-|[]]]; vm_compute; reflexivity.
  - split; [vm_compute; reflexivity|]. intros m Hm%list_elem_of_In. simpl in Hm.
    destruct Hm as [<-|[<-|[]]]; vm_compute; reflexivity.
Qed.

Lemma concurrent_edits_witness :
  ∃ m, merge_loaded [edit_al; edit_bo] None None 5 = Ok m ∧
    value_at ["c"; "al"] "n" (data_ m) = Some (DScalar (SStr "Alice")) ∧
    value_at ["c"; "bo"] "n" (data_ m) = Some (DScalar (SStr "Bob")) ∧
    (smem (SInt 1) (set_of (mfind "s" (data_ m))) = false ∧ smem (SInt 2) (set_of (mfind "s" (data_ m))) = true ∧
     smem (SInt 3) (set_of (mfind "s" (data_ m))) = true ∧ smem (SInt 4) (set_of (mfind "s" (data_ m))) = true).
Proof.
  destruct (concurrent_edits base_contacts edit_al edit_bo None None 5) as (m & Hm & _ & Hk); try (vm_compute; reflexivity).
  - exists (Some (diff_ edit_al)). split; vm_compute; reflexivity.
  - exists (Some (diff_ edit_bo)). split; vm_compute; reflexivity.
  - exact contact_edits_mergeable.
  - assert (∀ p k, touches p k [("c", BtDict [("cy", BtDict [("n", BtStr "")])])] = false →
      ∀ c x d, c ∈ [edit_al; edit_bo] → (x, d) ∈ lagged_diffs_ c → touches p k d = false) as Hlag.
    { intros p k Ht c x d Hc%list_elem_of_In Hin%list_elem_of_In. simpl in Hc.
      destruct Hc as [<-|[<-|[]]]; simpl in Hin; destruct Hin as [[= _ <-]|[]]; exact Ht. }
    exists m. split; [exact Hm|]. split; [|split].
    + pose proof (Hk ["c"; "al"] "n" ltac:(by eexists) ltac:(by eexists) (Hlag ["c"; "al"] "n" eq_refl)) as Hal.
      revert Hal. generalize (value_at ["c"; "al"] "n" (data_ m)). intros r. vm_compute.
      first [by intros ->%reconciled_late|by intros ->%reconciled_early].
    + pose proof (Hk ["c"; "bo"] "n" ltac:(by eexists) ltac:(by eexists) (Hlag ["c"; "bo"] "n" eq_refl)) as Hbo.
      revert Hbo. generalize (value_at ["c"; "bo"] "n" (data_ m)). intros r. vm_compute.
      first [by intros ->%reconciled_late|by intros ->%reconciled_early].
    + pose proof (Hk [] "s" ltac:(by eexists) ltac:(by eexists) (Hlag [] "s" eq_refl)) as Hs.
      match type of Hs with reconciled ?o ?l (value_at _ _ ?h) _ =>
        change (reconciled (Some (DSet [SInt 1; SInt 2])) l (Some (DSet (set_of (mfind "s" h)))) (mfind "s" (data_ m))) in Hs end.
      split_and!; rewrite (reconciled_elements _ _ _ _ _ Hs) by (vm_compute; discriminate); vm_compute; reflexivity.
Defined.
