(* ===== verification/ConfigEdit.v ===== *)
(** * Editing a config message

    From a parsed message to the next one: incrementing
    ([MutableConfigMessage(const ConfigMessage&, increment_seqno)]), changing
    the data, serializing, and parsing the result.  The new message carries
    exactly the edit and its parent as a lagged diff, so it supersedes its
    parent in every later merge. *)

From Stdlib Require Import ZArith String Lia.
From stdpp Require Import base option list strings numbers sorting sets.
From S2P Require Import Prelude OrderedMap Bt Bencode Crypto ConfigData ConfigDiff ConfigMessage ConfigCodec ConfigMerge ConfigReplay.

Lemma klt_pair_fst (a b : seqno_hash_t) : a.1 < b.1 → a ≺ b.
Proof.
  destruct a as [a h], b as [b h']. simpl. unfold pair_cmp. simpl.
  intros Hlt. by apply Z.compare_lt_iff in Hlt as ->.
Qed.

Lemma filter_filter_idem {A} (f : A → bool) l :
  List.filter f (List.filter f l) = List.filter f l.
Proof.
  induction l as [|a l IH]; [done|]. simpl. destruct (f a) eqn:E; simpl; [|done].
  rewrite E. by f_equal.
Qed.

Section increment.
Context `{BtLib, !BtLaws, Hash}.

Lemma drop_while_old_none oldest lags :
  (∀ x d, (x, d) ∈ lags → oldest < x.1) → drop_while_old oldest lags = lags.
Proof.
  destruct lags as [|[x d] lags]; intros Hl; [done|]. simpl.
  destruct (Z.leb_spec x.1 oldest); [|done].
  assert (oldest < x.1) by (apply (Hl x d); by left). lia.
Qed.

(** The message [increment_impl] makes of a well-formed one *)
Definition next_message (m : ConfigMessage) : ConfigMessage :=
  with_diff [] (with_seqno_hash (seqno m + 1, zero_hash)
    (with_lagged (lagged_diffs_ m ++ [(sh m, diff_ m)]) m)).

Lemma increment_impl_ok m :
  message_ok m = true → in_int64 (seqno m - lag m) = true → in_int64 (seqno m + 1) = true →
  increment_impl m = Ok (mkMutable (next_message m) (data_ m)).
Proof.
  intros (_ & _ & _ & [Hs Hl]%lags_ok_spec)%message_ok_spec Hlo Hhi.
  unfold increment_impl, sub_i64, add_i64. rewrite Hlo, Hhi.
  assert ((if is_nil (lagged_diffs_ m) then Ok 0 else Ok (seqno m - lag m)) =
          Ok (if is_nil (lagged_diffs_ m) then 0 else seqno m - lag m)) as ->
    by by destruct (lagged_diffs_ m).
  rewrite bind_ret.
  rewrite drop_while_old_none; [|intros x d Hin; pose proof (Hl x d Hin);
    destruct (lagged_diffs_ m); simpl; [by apply not_elem_of_nil in Hin|lia]].
  assert (Forall (λ p : seqno_hash_t * bt_dict, p.1 ≺ sh m) (lagged_diffs_ m)) as Hall.
  { apply Forall_forall. intros [x d] Hin. apply klt_pair_fst. simpl.
    pose proof (Hl x d Hin). unfold sh, seqno in *. lia. }
  assert (match last (lagged_diffs_ m) with Some e => e.1.1 <? seqno m | None => true end = true)
    as ->.
  { destruct (last (lagged_diffs_ m)) as [[x d]|] eqn:E; [|done].
    apply last_Some_elem_of in E. pose proof (Hl x d E). simpl. lia. }
  rewrite bind_ret. unfold memplace.
  assert (mfind (seqno_hash_ m) (lagged_diffs_ m) = None) as ->.
  { destruct (mfind (seqno_hash_ m) (lagged_diffs_ m)) as [d|] eqn:E; [|done].
    apply mfind_Some_In in E. rewrite Forall_forall in Hall. apply Hall in E.
    by destruct (klt_irrefl (sh m)). }
  rewrite (minsert_end (seqno_hash_ m)) by done. done.
Qed.
End increment.

Section edit.
Context `{BtLib, !BtLaws, Hash}.

(** A message as it is written: pruned data, the given diff, only the lagged
    diffs inside the window. *)
Definition as_written (m : ConfigMessage) (data : dict) (diff : bt_dict) : ConfigMessage :=
  with_lagged (List.filter (in_lag m (seqno m - lag m)) (lagged_diffs_ m))
    (with_diff diff (with_data data (with_verified None m))).

Lemma live_lags_filter m :
  in_int64 (seqno m - lag m) = true →
  live_lags m = Ok (List.filter (in_lag m (seqno m - lag m)) (lagged_diffs_ m)).
Proof.
  intros Hlo. unfold live_lags, sub_i64. rewrite Hlo.
  destruct (is_nil (lagged_diffs_ m)) eqn:E; simpl; [|done].
  by destruct (lagged_diffs_ m).
Qed.

Lemma serialize_pairs_written m data diff :
  in_int64 (seqno m - lag m) = true →
  serialize_pairs (with_diff diff (with_data data (with_verified None m))) diff =
  serialize_pairs (as_written m data diff) diff.
Proof.
  intros Hlo. unfold serialize_pairs.
  assert (live_lags (with_diff diff (with_data data (with_verified None m))) =
          live_lags (as_written m data diff)) as ->; [|done].
  rewrite !live_lags_filter by done. f_equal. symmetry. apply filter_filter_idem.
Qed.

(** The hypotheses of an edit: a message this library wrote, new data, and
    seqnos that stay in range. *)
Record editable (m : ConfigMessage) (d : dict) : Prop := {
  ed_wf : message_wf m = true;
  ed_hash : size (sh m).2 = 32;
  ed_data : dict_ok d = true;
  ed_lag : 1 < lag m;
  ed_range : in_int64 (seqno m + 1 + lag m) = true;
}.

Lemma editable_range m d :
  editable m d → in_int64 (seqno m) = true ∧ in_int64 (seqno m - lag m) = true ∧
    in_int64 (seqno m + 1) = true ∧ in_int64 (seqno m + 1 - lag m) = true.
Proof.
  intros [Hwf _ _ Hlag Hhi].
  apply message_wf_spec in Hwf as ((_ & _ & Hi & _)%message_ok_spec & _ & _ & _ & _ & Hlo).
  split_and!; [done..| |]; (eapply sandwich; [|exact Hlo|exact Hhi]; lia).
Qed.

Lemma next_message_lags m d x e :
  editable m d → (x, e) ∈ lagged_diffs_ (next_message m) →
  x.1 < seqno m + 1 ∧ size x.2 = 32 ∧ diff_ok (BtDict e) = true.
Proof.
  intros [Hwf Hh _ _ _] Hin. apply message_wf_spec in Hwf as (Hok & Hd & Hl & _).
  apply message_ok_spec in Hok as (_ & _ & _ & [_ Hw]%lags_ok_spec).
  apply elem_of_app in Hin as [Hin|[[= -> ->]|?%not_elem_of_nil]%elem_of_cons]; [| |done].
  - destruct (Hw _ _ Hin). pose proof (Hl _ Hin). split_and!; [lia|done..].
  - split_and!; [unfold sh, seqno; lia|done..].
Qed.

(** The edited message, as written, is well-formed. *)
Lemma edited_wf m d diff :
  editable m d → diff_ok (BtDict diff) = true →
  message_wf (as_written (next_message m) (prune d) diff) = true.
Proof.
  intros Hed Hdiff. destruct (editable_range m d Hed) as (_ & _ & Hi & Hlo).
  pose proof (ed_wf _ _ Hed) as (Hok & _ & _ & Hu & _)%message_wf_spec.
  apply message_ok_spec in Hok as (_ & _ & _ & [Hs Hw]%lags_ok_spec).
  assert (∀ e, e ∈ lagged_diffs_ (as_written (next_message m) (prune d) diff) →
            seqno m + 1 - lag m < e.1.1 ∧ e ∈ lagged_diffs_ (next_message m)) as Hlive.
  { intros e [He Hf]%list_elem_of_In%filter_In. unfold in_lag in Hf.
    cbn [seqno seqno_hash_ next_message with_diff with_seqno_hash with_lagged lag fst] in Hf.
    split; [|by apply list_elem_of_In]. unfold seqno in *. simpl in Hf. lia. }
  unfold message_wf. rewrite !andb_true_iff. split_and!; [|done| |done|done|done].
  - apply message_ok_spec. destruct (prune_entries_props d (ed_data _ _ Hed)).
    rewrite <-prune_fst in *. split_and!; [done..|]. apply lags_ok_spec. split.
    + apply msorted_filter, msorted_snoc. split; [done|].
      apply Forall_forall. intros [x e] Hin. apply klt_pair_fst. simpl.
      destruct (Hw x e Hin). unfold sh, seqno in *. lia.
    + intros x e Hin. destruct (Hlive _ Hin) as [Hlt Hin2].
      apply (next_message_lags m d) in Hin2 as (? & ? & _); [|done]. simpl in *. split; [|done].
      unfold seqno. simpl. lia.
  - apply forallb_forall. intros [x e] Hin%list_elem_of_In. destruct (Hlive _ Hin) as [_ Hin2].
    by apply (next_message_lags m d) in Hin2 as (_ & _ & ?).
Qed.

(** The message an edit reads back as *)
Definition edited (m : ConfigMessage) (d : dict) (diff : bt_dict) (ser : bytes) : ConfigMessage :=
  reread (as_written (next_message m) (prune d) diff) ser None None None.

Lemma edit_serialize m d :
  editable m d → signer m = None →
  ∃ od ser a', diff_impl (data_ m) (prune d) = Ok od ∧
    increment (Immutable m) = Ok (mkMutable (next_message m) (data_ m)) ∧
    serialize (Mutable (mkMutable (with_data d (next_message m)) (data_ m))) true = Ok (ser, a') ∧
    parse_message ser None None (lag m) false = Ok (edited m d (default [] od) ser) ∧
    message_wf (edited m d (default [] od) ser) = true ∧
    serialize_impl (edited m d (default [] od) ser) (default [] od) true = Ok ser.
Proof.
  intros Hed Hsig. destruct (editable_range m d Hed) as (_ & Hlo & Hi & Hlo').
  pose proof (ed_wf _ _ Hed) as (Hok & _)%message_wf_spec.
  destruct (prune_entries_props d (ed_data _ _ Hed)) as [Hd Hp]. rewrite <-prune_fst in *.
  pose proof Hok as (Hmd & Hmp & _)%message_ok_spec.
  destruct (diff_impl_round (data_ m) (prune d)) as (od & Hdiff & _ & Hdok & _); [done..|].
  pose proof (edited_wf m d (default [] od) Hed Hdok) as Hwf.
  destruct (write_read _ [] None None false Hwf) as (pairs & Hpairs & _ & Hread); [by left|].
  rewrite app_nil_r in Hread.
  exists od, (bt_dump pairs). eexists. split_and!; [done|by apply increment_impl_ok| |done|done|].
  2: { unfold serialize_impl, edited. setoid_rewrite Hpairs. by rewrite bind_ret. }
  cbn [serialize]. unfold mutable_diff. cbn [orig_data_ base]. cbn [data_ with_verified with_data].
  rewrite Hdiff, bind_ret. rewrite bind_ret. unfold serialize_impl.
  rewrite <-serialize_pairs_written in Hpairs by done.
  cbn [base diff_ with_diff]. setoid_rewrite Hpairs. rewrite bind_ret.
  cbn. rewrite Hsig. done.
Qed.

(** The parent is among the lagged diffs of the edited message. *)
Lemma edited_has_parent m d diff ser :
  editable m d → diff_ok (BtDict diff) = true →
  mfind (sh m) (lagged_diffs_ (edited m d diff ser)) = Some (diff_ m).
Proof.
  intros Hed Hdok. pose proof (edited_wf m d diff Hed Hdok) as Hwf.
  apply message_wf_spec in Hwf as (Hok & _).
  apply message_ok_spec in Hok as (_ & _ & _ & [Hs _]%lags_ok_spec).
  apply mfind_In; [exact Hs|]. cbn [edited reread lagged_diffs_ as_written with_lagged].
  apply list_elem_of_In, filter_In. split.
  - apply in_or_app. right. by left.
  - pose proof (ed_lag _ _ Hed). unfold in_lag.
    change (seqno (next_message m)) with (seqno m + 1).
    change (lag (next_message m)) with (lag m). cbn [fst].
    change (sh m).1 with (seqno m). lia.
Qed.

Lemma edited_coherent m d diff ser :
  editable m d → diff_ok (BtDict diff) = true → coherent [m; edited m d diff ser].
Proof.
  intros Hed Hdok. pose proof (edited_wf m d diff Hed Hdok) as Hwf.
  assert (sh m ≠ sh (edited m d diff ser)) as Hne.
  { intros E. apply (f_equal fst) in E. change (seqno m = seqno m + 1) in E. lia. }
  split.
  - intros a b Ha Hb. rewrite !elem_of_cons, elem_of_nil in Ha, Hb. naive_solver.
  - intros c x e Hc. rewrite !elem_of_cons, elem_of_nil in Hc. destruct Hc as [->|[->|[]]].
    + pose proof (ed_wf _ _ Hed) as (Hok & _)%message_wf_spec.
      apply message_ok_spec in Hok as (_ & _ & _ & [_ Hw]%lags_ok_spec).
      intros Hin. apply Hw in Hin. lia.
    + apply message_wf_spec in Hwf as (Hok & _).
      apply message_ok_spec in Hok as (_ & _ & _ & [_ Hw]%lags_ok_spec).
      intros Hin. apply Hw in Hin as [[_ Hlt] _]. exact Hlt.
Qed.

Lemma edited_kept m d diff ser :
  editable m d → diff_ok (BtDict diff) = true →
  kept [m; edited m d diff ser] (lag m) = [edited m d diff ser].
Proof.
  intros Hed Hdok. set (e := edited m d diff ser).
  pose proof (edited_coherent m d diff ser Hed Hdok) as Hco. fold e in Hco.
  pose proof (edited_has_parent m d diff ser Hed Hdok) as Hpar. fold e in Hpar.
  assert (seqno e = seqno m + 1) as Hse by done.
  destruct (editable_range m d Hed) as (Hi0 & _ & Hi & _). pose proof (ed_lag _ _ Hed).
  destruct (kept_has_max [m; e] (lag m) Hco) as (k & Hk & Hmax); [lia|done| |].
  { intros c Hc. rewrite !elem_of_cons, elem_of_nil in Hc. destruct Hc as [->|[->|[]]]; [done|].
    by rewrite Hse. }
  assert (∀ c, c ∈ kept [m; e] (lag m) → c = e) as Honly.
  { intros c (Hc & Hl & _)%(kept_spec _ _ Hco). rewrite !elem_of_cons, elem_of_nil in Hc.
    destruct Hc as [->|[->|[]]]; [|done]. specialize (Hl e). rewrite Hl in Hpar; [done|set_solver]. }
  apply Permutation_singleton_r. symmetry. apply NoDup_Permutation.
  - apply NoDup_singleton.
  - apply (NoDup_fmap_1 sh), kept_distinct.
  - intros c. rewrite list_elem_of_singleton. split; [|apply Honly].
    intros Hc. rewrite Hc. pose proof (Honly k Hk) as Hke. by rewrite Hke in Hk.
Qed.

Lemma edit_diff_ok m d od :
  editable m d → diff_impl (data_ m) (prune d) = Ok od → diff_ok (BtDict (default [] od)) = true.
Proof.
  intros Hed Hdiff. pose proof (ed_wf _ _ Hed) as (Hok & _)%message_wf_spec.
  apply message_ok_spec in Hok as (? & ? & _).
  destruct (prune_entries_props d (ed_data _ _ Hed)). rewrite <-prune_fst in *.
  destruct (diff_impl_round (data_ m) (prune d)) as (od' & Hd' & _ & Hdok & _); [done..|].
  rewrite Hdiff in Hd'. by injection Hd' as <-.
Qed.

Lemma edited_fits m d diff ser :
  editable m d → seqnos_fit (lag m) [m; edited m d diff ser].
Proof.
  intros Hed. destruct (editable_range m d Hed) as (Hi0 & Hlo & Hi & _).
  pose proof (ed_lag _ _ Hed). pose proof (ed_range _ _ Hed) as Hr. split.
  - unfold lag_fits. cbn [forallb]. rewrite !andb_true_iff. split_and!; [|exact Hr|done].
    eapply sandwich; [|exact Hi0|exact Hr]. lia.
  - intros c Hc. rewrite !elem_of_cons, elem_of_nil in Hc. by destruct Hc as [->|[->|[]]].
Qed.

(** Merging the edited message with its parent, or alone, yields it. *)
Lemma edited_merged m d diff ser :
  editable m d → diff_ok (BtDict diff) = true →
  merge_loaded [m; edited m d diff ser] None None (lag m) =
    Ok (with_unmerged (Some 1%nat) (edited m d diff ser)).
Proof.
  intros Hed Hdok. pose proof (edited_kept m d diff ser Hed Hdok) as Hk.
  pose proof (edited_coherent m d diff ser Hed Hdok) as Hco.
  pose proof (edited_fits m d diff ser Hed) as Hfit. pose proof (ed_lag _ _ Hed).
  set (e := edited m d diff ser) in *.
  destruct (merge_loaded_cases [m; e] None None (lag m)) as
    [(i & k & Hk' & Hi' & ->)|[(_ & Hv & _)|(Hn & _)]]; [done|lia|done|done| |done|by rewrite Hk in Hn].
  rewrite Hk in Hk'. injection Hk' as <-. destruct i as [|[|i]]; [|done|done].
  simpl in Hi'. injection Hi' as Hi'. exfalso.
  assert (seqno e = seqno m + 1) as Hse by done. rewrite <-Hi' in Hse. lia.
Qed.

Lemma edited_alone m d diff ser :
  editable m d → diff_ok (BtDict diff) = true →
  merge_loaded [edited m d diff ser] None None (lag m) =
    Ok (with_unmerged (Some 0%nat) (edited m d diff ser)).
Proof.
  intros Hed Hdok. pose proof (edited_coherent m d diff ser Hed Hdok) as [Hc1 Hc2].
  destruct (edited_fits m d diff ser Hed) as [Hf Hi]. pose proof (ed_lag _ _ Hed).
  set (e := edited m d diff ser) in *.
  assert (coherent [e]) as Hco by (split; [intros a b Ha Hb|intros a x f Ha]; [apply Hc1|apply Hc2]; set_solver).
  assert (seqnos_fit (lag m) [e]) as Hfit.
  { split; [|intros x Hx; apply Hi; set_solver]. unfold lag_fits in *. simpl in Hf |- *.
    by apply andb_true_iff in Hf as [_ Hf]. }
  destruct (kept_has_max [e] (lag m) Hco) as (k & Hk & _); [lia|done|apply Hfit|].
  assert (kept [e] (lag m) = [e]) as Hke.
  { assert (∀ c, c ∈ kept [e] (lag m) → c = e) as Honly.
    { intros c (Hc & _)%(kept_spec _ _ Hco). by apply list_elem_of_singleton in Hc. }
    apply Permutation_singleton_r. symmetry. apply NoDup_Permutation.
    - apply NoDup_singleton.
    - apply (NoDup_fmap_1 sh), kept_distinct.
    - intros c. rewrite list_elem_of_singleton. split; [|apply Honly].
      intros Hc. rewrite Hc. pose proof (Honly k Hk) as Hk2. by rewrite Hk2 in Hk. }
  destruct (merge_loaded_cases [e] None None (lag m)) as
    [(i & k' & Hk' & Hi' & ->)|[(_ & Hv & _)|(Hn & _)]]; [done|lia|done|done| |done|by rewrite Hke in Hn].
  rewrite Hke in Hk'. injection Hk' as <-. by destruct i as [|i].
Qed.

(** C7 (an edit supersedes its parent): from a message this library wrote,
    incrementing, replacing the data, serializing and parsing all succeed;
    the message read back has the next seqno, the pruned new data, exactly
    the diff from the parent's data, and the parent's own diff among its
    lagged diffs; and a later merge of the two messages yields the edited
    one untouched. *)
Theorem edit_supersedes m d :
  editable m d → signer m = None →
  ∃ mm ser a' m', increment (Immutable m) = Ok mm ∧
    serialize (Mutable (mkMutable (with_data d (base mm)) (orig_data_ mm))) true = Ok (ser, a') ∧
    parse_message ser None None (lag m) false = Ok m' ∧
    seqno m' = seqno m + 1 ∧ data_ m' = prune d ∧ edit_of (data_ m) m' ∧
    mfind (sh m) (lagged_diffs_ m') = Some (diff_ m) ∧
    merge_loaded [m; m'] None None (lag m) = Ok (with_unmerged (Some 1%nat) m').
Proof.
  intros Hed Hsig. destruct (edit_serialize m d Hed Hsig) as (od & ser & a' & Hdiff & Hinc & Hser & Hparse & _).
  pose proof (edit_diff_ok m d od Hed Hdiff) as Hdok.
  eexists _, ser, a', _. split_and!; [exact Hinc|exact Hser|exact Hparse|done|done| | |].
  - exists od. done.
  - by apply edited_has_parent.
  - by apply edited_merged.
Qed.
End edit.

Lemma edit_supersedes_witness :
  ∃ mm ser a' m', increment (Immutable rename_edit) = Ok mm ∧
    serialize (Mutable (mkMutable (with_data base_data (base mm)) (orig_data_ mm))) true = Ok (ser, a') ∧
    parse_message ser None None 5 false = Ok m' ∧ data_ m' = base_data ∧
    merge_loaded [rename_edit; m'] None None 5 = Ok (with_unmerged (Some 1%nat) m').
Proof.
  destruct (edit_supersedes rename_edit base_data) as (mm & ser & a' & m' & H1 & H2 & H3 & _ & H5 & _ & _ & H8).
  - split; vm_compute; reflexivity.
  - reflexivity.
  - exists mm, ser, a', m'. split; [exact H1|]. split; [exact H2|]. split; [exact H3|].
    split; [exact H5|exact H8].
Defined.

(** ** Corner cases of the constructors *)

(** (a lag of zero): the header allows a lag of 0, but then every message
      counts as too old to take part, and the merge takes the front of an
      empty vector. *)
Theorem merge_without_lag `{BtLib, Hash} all v s :
  all ≠ [] → seqnos_fit 0 all → verify_only v s = false →
  merge_loaded all v s 0 = Throw undefined_behaviour.
Proof.
  intros Hne [Hf _] Hv. unfold merge_loaded. fold (verify_only v s). rewrite Hv.
  destruct all as [|a0 all0]; [done|]. cbn [is_nil]. set (all := a0 :: all0) in *.
  rewrite mark_redundant_marks by done. rewrite bind_ret.
  assert (kept all 0 = []) as Hk.
  { destruct (kept all 0) as [|m K] eqn:E; [done|].
    assert (m ∈ kept all 0) as Hm by (rewrite E; by left).
    apply elem_kept in Hm as (p & Hp & Hfl). unfold flag in Hfl.
    apply orb_false_iff in Hfl as [_ Hold]. apply list_elem_of_lookup_2 in Hp.
    pose proof (max_seqno_ge all m Hp). lia. }
  unfold kept in Hk. apply fmap_nil_inv in Hk. rewrite Hk.
  destruct (marks all 0 (max_seqno all)) eqn:Em; [done|]. done.
Qed.

Lemma merge_without_lag_witness :
  merge_loaded [rename_edit] None None 0 = Throw undefined_behaviour.
Proof.
  apply (merge_without_lag [rename_edit] None None); [discriminate| |reflexivity].
  split; [vm_compute; reflexivity|]. intros m Hm.
  apply elem_of_cons in Hm as [->|Hm%not_elem_of_nil]; [vm_compute; reflexivity|destruct Hm].
Defined.

(** (the diff after retaining a merge): turning a merged message into a
    mutable one with the seqno kept initialises the data to compare with
    before the message is moved in, so the next diff reports every key of the
    data as new, whatever the merge did. *)
Theorem retain_diff_reports_everything m k :
  dict_ok (data_ m) = true → dict_pruned (data_ m) = true →
  ∃ mm, mutable_diff (retain (Immutable m)) = Ok mm ∧
    is_some (mfind k (diff_ (base mm))) = is_some (mfind k (data_ m)).
Proof.
  intros Hok Hp. unfold mutable_diff, retain. cbn [base orig_data_ data_ with_verified].
  assert (prune (data_ m) = data_ m) as -> by (rewrite prune_fst; by rewrite prune_entries_pruned).
  destruct (diff_impl_keys [] (data_ m)) as (od & -> & _ & Hk); [done..|].
  rewrite bind_ret. eexists. split; [done|]. cbn [base diff_ with_diff].
  specialize (Hk k). destruct (mfind k (default [] od)) as [w|]; simpl.
  - destruct Hk as (_ & Hne & _). by destruct (mfind k (data_ m)).
  - simpl in Hk. by rewrite <-Hk.
Qed.

Lemma retain_diff_reports_everything_witness :
  ∃ mm, mutable_diff (retain (Immutable merge_of_both)) = Ok mm ∧
    is_some (mfind "n" (diff_ (base mm))) = true.
Proof. exact (retain_diff_reports_everything merge_of_both "n" eq_refl eq_refl). Defined.
