(* ===== verification/Encrypt.v ===== *)
(** * Encryption and padding of config messages

    [src/config/encrypt.cpp] and [include/bchat/config/encrypt.hpp]: the key
    derivation, the encryption with a deterministic nonce appended to the
    ciphertext, and the padding that hides the exact size of a message. *)

From Stdlib Require Import ZArith String Ascii Lia.
From stdpp Require Import base option list strings numbers.
From S2P Require Import Prelude Crypto.

Definition ENCRYPT_DATA_OVERHEAD : Z := 40.
Definition DOMAIN_MAX_SIZE : Z := 24.
Definition NONCE_KEY_PREFIX : bytes := "libbchatutil-config-encrypted-".

(** [oxenc::host_to_big_inplace(uint64_t)]: the eight bytes of [z], most
    significant first *)
Fixpoint be_bytes (n : nat) (z : Z) : bytes :=
  match n with
  | O => ""
  | S n => be_bytes n (z / 256) +:+ String (ascii_of_N (Z.to_N (z mod 256))) ""
  end.

(** [n] zero bytes in front *)
Definition prefix_zeros (n : Z) (s : bytes) : bytes := zeros (Z.to_nat n) +:+ s.

Section encrypt.
Context `{Hash, Aead}.

Definition make_encrypt_key (key_base : bytes) (message_size : Z) (domain : bytes) : result bytes :=
  _ ← require (size key_base =? 32) invalid_argument;
  _ ← require (negb ((size domain <? 1) || (DOMAIN_MAX_SIZE <? size domain))) invalid_argument;
  Ok (generichash 32 "" (key_base +:+ be_bytes 8 message_size +:+ domain)).

(** [encrypt_inplace]: the new contents of the buffer *)
Definition encrypt_inplace (message key_base domain : bytes) : result bytes :=
  key ← make_encrypt_key key_base (size message) domain;
  let nonce := generichash NPUBBYTES (NONCE_KEY_PREFIX +:+ domain) message in
  Ok (aead_encrypt key nonce message +:+ nonce).

Definition encrypt (message key_base domain : bytes) : result bytes :=
  encrypt_inplace message key_base domain.

(** [decrypt_inplace], the subtraction in [size_t] *)
Definition decrypt_inplace (ciphertext key_base domain : bytes) : result bytes :=
  let message_len := wrap64 (size ciphertext - ENCRYPT_DATA_OVERHEAD) in
  if size ciphertext <? message_len then Throw decrypt_error else
  let clen := Z.to_nat (size ciphertext - NPUBBYTES) in
  let nonce := sdrop clen ciphertext in
  key ← make_encrypt_key key_base message_len domain;
  match aead_decrypt key nonce (stake clen ciphertext) with
  | Some plaintext => Ok plaintext
  | None => Throw decrypt_error
  end.

Definition decrypt (ciphertext key_base domain : bytes) : result bytes :=
  decrypt_inplace ciphertext key_base domain.
End encrypt.

(** ** Padding *)
Definition pad_chunk (s2 : Z) : Z :=
  if s2 <? 5120 then 256 else if s2 <? 20480 then 1024 else if s2 <? 40960 then 2048 else 5120.

(** [padded_size(s, overhead)] in [size_t] arithmetic *)
Definition padded_size (s overhead : Z) : Z :=
  let s2 := wrap64 (s + overhead) in
  let chunk := pad_chunk s2 in
  wrap64 (wrap64 (wrap64 (s2 + chunk - 1) / chunk * chunk) - overhead).

Definition pad_message (data : bytes) (overhead : Z) : bytes :=
  let target_size := padded_size (size data) overhead in
  if size data <? target_size then prefix_zeros (target_size - size data) data else data.

(** Removing the prefix padding, as [_merge] and [_handle_multipart] of
    [src/config/base.cpp] do: up to the first non-zero byte, nothing when
    there is none *)
Fixpoint drop_zeros (s : bytes) : bytes :=
  match s with
  | String "000" s => drop_zeros s
  | _ => s
  end.

Definition strip_padding (s : bytes) : bytes :=
  if String.eqb (drop_zeros s) "" then s else drop_zeros s.

(** ** Facts *)
Lemma size_app a b : size (a +:+ b) = size a + size b.
Proof. unfold size. rewrite length_sapp. lia. Qed.

Lemma be_bytes_size n z : size (be_bytes n z) = Z.of_nat n.
Proof.
  revert z; induction n as [|n IH]; intros z; [done|]. cbn [be_bytes].
  rewrite size_app, IH. unfold size. simpl. lia.
Qed.

Lemma make_encrypt_key_ok `{Hash} key_base n domain :
  size key_base = 32 → 1 ≤ size domain ≤ DOMAIN_MAX_SIZE →
  make_encrypt_key key_base n domain =
    Ok (generichash 32 "" (key_base +:+ be_bytes 8 n +:+ domain)).
Proof.
  intros Hk Hd. unfold make_encrypt_key. rewrite Hk. simpl.
  destruct (Z.ltb_spec (size domain) 1); [lia|].
  destruct (Z.ltb_spec DOMAIN_MAX_SIZE (size domain)); [lia|]. done.
Qed.

Section crypt_facts.
Context `{Hash, !HashLaws, Aead, !AeadLaws}.

Lemma encrypt_size message key_base domain c :
  encrypt message key_base domain = Ok c → size c = size message + ENCRYPT_DATA_OVERHEAD.
Proof.
  unfold encrypt, encrypt_inplace. intros He. inv_result.
  rewrite size_app, aead_size, generichash_size by done.
  unfold ABYTES, NPUBBYTES, ENCRYPT_DATA_OVERHEAD. lia.
Qed.

Lemma encrypt_decrypt message key_base domain :
  size key_base = 32 → 1 ≤ size domain ≤ DOMAIN_MAX_SIZE →
  size message + ENCRYPT_DATA_OVERHEAD < 2 ^ 64 →
  ∃ c, encrypt message key_base domain = Ok c ∧ size c = size message + ENCRYPT_DATA_OVERHEAD ∧
    decrypt c key_base domain = Ok message.
Proof.
  intros Hk Hd Hsz. pose proof (size_nonneg message).
  assert (∃ c, encrypt message key_base domain = Ok c) as [c Hc].
  { unfold encrypt, encrypt_inplace. rewrite make_encrypt_key_ok by done. simpl. eauto. }
  pose proof (encrypt_size _ _ _ _ Hc) as Hcs. exists c. split_and!; [done..|].
  unfold decrypt, decrypt_inplace. rewrite Hcs.
  replace (size message + ENCRYPT_DATA_OVERHEAD - ENCRYPT_DATA_OVERHEAD) with (size message) by lia.
  unfold ENCRYPT_DATA_OVERHEAD in *. rewrite wrap64_small by lia.
  destruct (Z.ltb_spec (size message + 40) (size message)); [lia|].
  unfold encrypt, encrypt_inplace in Hc. rewrite !make_encrypt_key_ok in * by done.
  rewrite bind_ret in Hc. injection Hc as <-. rewrite bind_ret.
  set (key := generichash 32 _ _). set (nonce := generichash NPUBBYTES _ _).
  assert (Z.to_nat (size message + 40 - NPUBBYTES) =
          String.length (aead_encrypt key nonce message)) as ->.
  { pose proof (aead_size key nonce message) as Ha. unfold size, ABYTES, NPUBBYTES in *. lia. }
  rewrite sdrop_app, stake_app, aead_roundtrip. done.
Qed.
End crypt_facts.

(** ** Padding facts *)
Lemma pad_chunk_pos s2 : 256 ≤ pad_chunk s2 ≤ 5120.
Proof. unfold pad_chunk. repeat case_match; lia. Qed.

Lemma padded_size_spec s overhead :
  0 ≤ s → 0 ≤ overhead → s + overhead + 5120 < 2 ^ 64 →
  s ≤ padded_size s overhead < s + pad_chunk (s + overhead) ∧
  (padded_size s overhead + overhead) mod pad_chunk (s + overhead) = 0.
Proof.
  intros Hs Ho Hmax. unfold padded_size. rewrite (wrap64_small (s + overhead)) by lia.
  pose proof (pad_chunk_pos (s + overhead)) as Hc. set (c := pad_chunk (s + overhead)) in *.
  rewrite (wrap64_small (s + overhead + c - 1)) by lia.
  pose proof (Z.div_mod (s + overhead + c - 1) c ltac:(lia)) as Hdm.
  pose proof (Z.mod_pos_bound (s + overhead + c - 1) c ltac:(lia)) as Hmod.
  set (q := (s + overhead + c - 1) / c) in *.
  assert (s + overhead ≤ q * c < s + overhead + c) as Hq by lia.
  rewrite (wrap64_small (q * c)) by lia. rewrite wrap64_small by lia.
  split; [lia|]. replace (q * c - overhead + overhead) with (q * c) by lia.
  apply Z.mod_mul. lia.
Qed.

Lemma zeros_size n : size (zeros n) = Z.of_nat n.
Proof. induction n as [|n IH]; [done|]. unfold size in *. simpl. lia. Qed.

Lemma drop_zeros_zeros n s : drop_zeros (zeros n +:+ s) = drop_zeros s.
Proof. induction n as [|n IH]; [done|]. simpl. exact IH. Qed.

(** A message that does not start with a zero byte, as every serialized config
    does ("d", "z" or "m") *)
Definition starts_nonzero (s : bytes) : bool :=
  match s with String "000" _ => false | "" => false | _ => true end.

Lemma strip_zeros n s : starts_nonzero s = true → strip_padding (zeros n +:+ s) = s.
Proof.
  intros Hs. unfold strip_padding. rewrite drop_zeros_zeros.
  assert (drop_zeros s = s) as ->.
  { destruct s as [|c s]; [done|]. destruct c as [[] [] [] [] [] [] [] []]; done. }
  destruct (String.eqb_spec s ""); [by subst|done].
Qed.

Lemma pad_strip s overhead :
  0 ≤ overhead → size s + overhead + 5120 < 2 ^ 64 → starts_nonzero s = true →
  strip_padding (pad_message s overhead) = s ∧
  size (pad_message s overhead) = padded_size (size s) overhead.
Proof.
  intros Ho Hsz Hs. unfold pad_message.
  destruct (padded_size_spec (size s) overhead) as [Hp _]; [apply size_nonneg|done..|].
  destruct (Z.ltb_spec (size s) (padded_size (size s) overhead)).
  - unfold prefix_zeros. split; [by apply strip_zeros|].
    rewrite size_app, zeros_size. lia.
  - split; [by apply (strip_zeros 0)|lia].
Qed.

(** (encrypt and decrypt): with a 32-byte key and a domain of 1 to 24
    bytes, every message can be encrypted, the ciphertext is exactly 40 bytes
    longer, and decrypting it with the same key and domain gives the message
    back; a key of another size is refused, and so is a ciphertext shorter
    than the overhead. *)
Theorem encrypt_decrypt_roundtrip `{Hash, !HashLaws, Aead, !AeadLaws} message key_base domain :
  1 ≤ size domain ≤ DOMAIN_MAX_SIZE → size message + ENCRYPT_DATA_OVERHEAD < 2 ^ 64 →
  (size key_base = 32 →
     ∃ c, encrypt message key_base domain = Ok c ∧
       size c = size message + ENCRYPT_DATA_OVERHEAD ∧ decrypt c key_base domain = Ok message) ∧
  (size key_base ≠ 32 → encrypt message key_base domain = Throw invalid_argument) ∧
  (size message < ENCRYPT_DATA_OVERHEAD → decrypt message key_base domain = Throw decrypt_error).
Proof.
  intros Hd Hsz. split_and!.
  - intros Hk. by apply encrypt_decrypt.
  - intros Hk. unfold encrypt, encrypt_inplace, make_encrypt_key.
    by destruct (Z.eqb_spec (size key_base) 32).
  - intros Hlt. unfold decrypt, decrypt_inplace. pose proof (size_nonneg message).
    assert (size message < wrap64 (size message - ENCRYPT_DATA_OVERHEAD)) as Hw.
    { unfold wrap64, ENCRYPT_DATA_OVERHEAD in *.
      rewrite <-(Z_mod_plus_full _ 1), Z.mod_small; lia. }
    apply Z.ltb_lt in Hw as ->. done.
Qed.

Lemma encrypt_decrypt_roundtrip_witness :
  let key := zeros 32 in
  ∃ c, encrypt "hello" key "Contacts" = Ok c ∧ size c = 45 ∧ decrypt c key "Contacts" = Ok "hello".
Proof.
  apply (encrypt_decrypt_roundtrip "hello" (zeros 32) "Contacts"); vm_compute; intuition discriminate.
Defined.

(** (padding): the padded message is at least as long as the message and
    less than one increment longer, its encrypted size is a multiple of the
    increment for its size class, and stripping the padding gives back every
    message that does not start with a zero byte. *)
Theorem padding_correct s overhead :
  0 ≤ overhead → size s + overhead + 5120 < 2 ^ 64 → starts_nonzero s = true →
  let p := pad_message s overhead in
  size s ≤ size p < size s + pad_chunk (size s + overhead) ∧
  (size p + overhead) mod pad_chunk (size s + overhead) = 0 ∧
  strip_padding p = s.
Proof.
  intros Ho Hsz Hs. destruct (pad_strip s overhead Ho Hsz Hs) as [Hstrip Hsize].
  destruct (padded_size_spec (size s) overhead) as [Hp Hm]; [apply size_nonneg|done..|].
  simpl. rewrite Hsize. auto.
Qed.

Lemma padding_correct_witness :
  let p := pad_message "d1:ai1ee" 40 in
  size "d1:ai1ee" ≤ size p < 8 + 256 ∧ (size p + 40) mod 256 = 0 ∧ strip_padding p = "d1:ai1ee".
Proof. apply (padding_correct "d1:ai1ee" 40); vm_compute; reflexivity || discriminate. Defined.
