(* ===== verification/State.v ===== *)
(** * Stateful operations that may throw

    A member function of a C++ object is a function from the object to its
    outcome and the object it leaves behind: when it throws, the changes made
    so far stay, as in the source. *)

From stdpp Require Import base option list strings numbers.
From S2P Require Import Prelude.

Definition M (S A : Type) : Type := S → result A * S.

#[global] Instance M_ret S : MRet (M S) := λ A a s, (Ok a, s).
#[global] Instance M_bind S : MBind (M S) := λ A B f m s,
  match m s with
  | (Ok a, s') => f a s'
  | (Throw e, s') => (Throw e, s')
  end.

Definition mget {S} : M S S := λ s, (Ok s, s).
Definition gets {S A} (f : S → A) : M S A := λ s, (Ok (f s), s).
Definition modify {S} (f : S → S) : M S () := λ s, (Ok tt, f s).
Definition throw {S A} (e : exn) : M S A := λ s, (Throw e, s).
Definition lift {S A} (r : result A) : M S A := λ s, (r, s).
Definition skip {S} : M S () := mret tt.
Definition when {S} (b : bool) (m : M S ()) : M S () := if b then m else skip.
Definition guard_ {S} (b : bool) (e : exn) : M S () := if b then skip else throw e.

(** [try { m } catch (const std::exception&) { h }].  Undefined behaviour and
    running out of fuel are no exceptions. *)
Definition catchable (e : exn) : bool :=
  match e with undefined_behaviour | out_of_fuel => false | _ => true end.

Definition catch {S A} (m : M S A) (h : exn → M S A) : M S A := λ s,
  match m s with
  | (Throw e, s') => if catchable e then h e s' else (Throw e, s')
  | r => r
  end.

Fixpoint forM_ {S A} (l : list A) (f : A → M S ()) : M S () :=
  match l with [] => skip | a :: l => f a;; forM_ l f end.

(** The outcome and the state after *)
Definition outcome_of {S A} (m : M S A) (s : S) : result A := (m s).1.
Definition state_after {S A} (m : M S A) (s : S) : S := (m s).2.

Lemma M_bind_Ok {S A B} (m : M S A) (f : A → M S B) s b s' :
  (x ← m; f x) s = (Ok b, s') ↔ ∃ a s1, m s = (Ok a, s1) ∧ f a s1 = (Ok b, s').
Proof.
  unfold mbind, M_bind. destruct (m s) as [[a|e] s1]; split.
  - eauto.
  - by intros (a' & s2 & [= <- <-] & ?).
  - done.
  - by intros (a' & s2 & ? & _).
Qed.

(** The primitive steps, run *)
Lemma run_mget {S A} (f : S → M S A) s : (b ← mget; f b) s = f s s.
Proof. done. Qed.
Lemma run_modify {S A} (g : S → S) (m : M S A) s : (modify g;; m) s = m (g s).
Proof. done. Qed.
Lemma run_gets {S A B} (g : S → A) (f : A → M S B) s : (x ← gets g; f x) s = f (g s) s.
Proof. done. Qed.
Lemma run_ret {S A B} (a : A) (f : A → M S B) s : (x ← mret a; f x) s = f a s.
Proof. done. Qed.
Lemma run_lift {S A B} (r : result A) (f : A → M S B) s :
  (x ← lift r; f x) s = match r with Ok a => f a s | Throw e => (Throw e, s) end.
Proof. by destruct r. Qed.
Lemma run_guard {S A} c e (m : M S A) s :
  (guard_ c e;; m) s = if c then m s else (Throw e, s).
Proof. by destruct c. Qed.
Lemma run_skip {S A} (m : M S A) s : (skip;; m) s = m s.
Proof. done. Qed.
Lemma run_when {S A} (c : bool) (m : M S ()) (f : M S A) s :
  (when c m;; f) s = if c then (m;; f) s else f s.
Proof. by destruct c. Qed.
Lemma run_bind {S A B} (m : M S A) (f : A → M S B) s :
  (x ← m; f x) s = match m s with (Ok a, s') => f a s' | (Throw e, s') => (Throw e, s') end.
Proof. done. Qed.
#[global] Hint Rewrite @run_mget @run_modify @run_gets @run_ret @run_lift @run_guard @run_skip @run_when : run.

(** An invariant that holds after every execution the standard defines, also
    one that ends with an exception. *)
Definition defined {A} (r : result A) : Prop := r ≠ Throw undefined_behaviour.

Definition preserves {S A} (I : S → Prop) (m : M S A) : Prop :=
  ∀ s, I s → defined (m s).1 → I (m s).2.

Section preserves.
Context {S : Type} (I : S → Prop).

Lemma preserves_ret {A} (a : A) : preserves I (mret a : M S A).
Proof. by intros s Hs. Qed.

Lemma preserves_mget : preserves I mget.
Proof. by intros s Hs. Qed.

(** The continuation only has to preserve [I] from the states [m] reaches. *)
Lemma preserves_bind_dep {A B} (m : M S A) (f : A → M S B) :
  preserves I m →
  (∀ s a s', I s → m s = (Ok a, s') → I s' → defined (f a s').1 → I (f a s').2) →
  preserves I (x ← m; f x).
Proof.
  intros Hm Hf s Hs. specialize (Hm s Hs). unfold mbind, M_bind.
  destruct (m s) as [[a|e] s'] eqn:E; simpl in *.
  - intros Hd. apply (Hf s); auto. by apply Hm.
  - intros Hd. apply Hm. unfold defined in *. congruence.
Qed.

Lemma preserves_bind {A B} (m : M S A) (f : A → M S B) :
  preserves I m → (∀ a, preserves I (f a)) → preserves I (x ← m; f x).
Proof. intros Hm Hf. apply preserves_bind_dep; [done|]. intros s a s' _ _ Hs. by apply Hf. Qed.

(** After reading the object, its invariant and its value are known. *)
Lemma preserves_read {A} (f : S → M S A) :
  (∀ s, I s → defined (f s s).1 → I (f s s).2) → preserves I (b ← mget; f b).
Proof. intros Hf s Hs Hd. by apply Hf. Qed.

Lemma preserves_reading {A} (f : S → M S A) :
  (∀ s, preserves I (f s)) → preserves I (b ← mget; f b).
Proof. intros Hf s Hs Hd. by apply (Hf s s). Qed.

Lemma preserves_throw {A} e : preserves I (throw e : M S A).
Proof. by intros s Hs. Qed.

Lemma preserves_gets {A} (f : S → A) : preserves I (gets f).
Proof. by intros s Hs. Qed.

Lemma preserves_lift {A} (r : result A) : preserves I (lift r).
Proof. by intros s Hs. Qed.

Lemma preserves_modify (f : S → S) : (∀ s, I s → I (f s)) → preserves I (modify f).
Proof. intros Hf s Hs _. by apply Hf. Qed.

Lemma preserves_when b (m : M S ()) : preserves I m → preserves I (when b m).
Proof. by destruct b; [|intros _; apply preserves_ret]. Qed.

Lemma preserves_guard b e : preserves I (guard_ b e).
Proof. destruct b; [apply preserves_ret|apply preserves_throw]. Qed.

Lemma preserves_catch {A} (m : M S A) h :
  preserves I m → (∀ e, preserves I (h e)) → preserves I (catch m h).
Proof.
  intros Hm Hh s Hs. specialize (Hm s Hs). unfold catch.
  destruct (m s) as [[a|e] s']; [done|]. destruct (catchable e) eqn:E; simpl; [|done].
  apply Hh, Hm. unfold defined. simpl. by intros [= ->].
Qed.

Lemma preserves_forM {A} (l : list A) (f : A → M S ()) :
  (∀ a, a ∈ l → preserves I (f a)) → preserves I (forM_ l f).
Proof.
  induction l as [|a l IH]; intros Hf; [apply preserves_ret|]. simpl.
  apply preserves_bind; [apply Hf; by left|]. intros _. apply IH.
  intros b Hb. apply Hf. by right.
Qed.
End preserves.

Create HintDb preserves.
#[export] Hint Resolve preserves_ret preserves_mget preserves_throw preserves_gets
  preserves_lift preserves_when preserves_guard : preserves.

(** Walks through an operation that keeps the invariant at every step; what
    is left are the changes themselves. *)
Ltac preserve_step :=
  lazymatch goal with
  | |- preserves _ (mbind (λ b, _) mget) => apply preserves_reading; intros ?
  | |- preserves _ (mbind _ _) => apply preserves_bind; [|intros ?]
  | |- preserves _ (mret _) => apply preserves_ret
  | |- preserves _ skip => apply preserves_ret
  | |- preserves _ mget => apply preserves_mget
  | |- preserves _ (throw _) => apply preserves_throw
  | |- preserves _ (gets _) => apply preserves_gets
  | |- preserves _ (lift _) => apply preserves_lift
  | |- preserves _ (guard_ _ _) => apply preserves_guard
  | |- preserves _ (when _ _) => apply preserves_when
  | |- preserves _ (catch _ _) => apply preserves_catch; [|intros ?]
  | |- preserves _ (forM_ _ _) => apply preserves_forM; intros ? _
  | |- preserves _ (modify _) => apply preserves_modify
  | |- preserves _ (match ?x with _ => _ end) => destruct x
  end.
Ltac preserve := repeat preserve_step.
