(* ===== verification/Util.v ===== *)
(** * General helpers

    [src/util.cpp] and [include/bchat/util.hpp]: compression with its marker
    prefix, splitting, URL parsing and text truncation. *)

From Stdlib Require Import ZArith String Ascii Lia.
From stdpp Require Import base option list strings numbers.
From S2P Require Import Prelude Crypto.

(** ** Compression *)
Section zstd.
Context `{Zstd}.

Definition zstd_compress (data : bytes) (level : Z) (prefix : bytes) : result bytes :=
  compressed ← ZSTD_compress level data; Ok (prefix +:+ compressed).

(** The streaming loop gives up as soon as the output exceeds [max_size] (0
    for no limit), so it fails exactly when the whole output does. *)
Definition zstd_decompress (data : bytes) (max_size : Z) : option bytes :=
  match ZSTD_decompress data with
  | Some d => if (0 <? max_size) && (max_size <? size d) then None else Some d
  | None => None
  end.
End zstd.
