(* ===== verification/ConfigBase.v ===== *)
(** * The config object

    [ConfigBase] and [ConfigSig] of [include/bchat/config/base.hpp] and
    [src/config/base.cpp]: the state machine around a config message (clean,
    dirty, waiting), the encryption and signing keys, the hashes of the
    messages on the server, multipart messages, merging, pushing, and dumping
    to and loading from local storage. *)

From Stdlib Require Import ZArith String Ascii Lia.
From stdpp Require Import base option list strings numbers sorting sets.
From S2P Require Import Prelude OrderedMap Bt Bencode Crypto ConfigData ConfigDiff ConfigMessage Encrypt State Util.

Definition MAX_MESSAGE_SIZE : Z := 76800.
Definition MAX_MULTIPART_SIZE : Z := 5000000.
Definition KEY_SIZE : Z := 32.

(** The three states, and the other values a loaded integer can give *)
Inductive ConfigState := Clean | Dirty | Waiting | OtherState (z : Z).

#[global] Instance ConfigState_eq_dec : EqDecision ConfigState.
Proof. solve_decision. Defined.

(** [static_cast<int>(_state)] and back *)
Definition state_to_int (s : ConfigState) : Z :=
  match s with Clean => 0 | Dirty => 1 | Waiting => 2 | OtherState z => z end.
Definition state_of_int (z : Z) : ConfigState :=
  if z =? 0 then Clean else if z =? 1 then Dirty
  else if z =? 2 then Waiting else OtherState z.

Record PartialMessage := mkPart {
  index : Z;
  message_id : bytes;
  data : bytes;
}.

(** Time points are clock ticks (nanoseconds since the epoch). *)
Record PartialMessages := mkParts {
  done : bool;
  psize : Z;
  parts : list PartialMessage;
  expiry : Z;
}.

Definition no_parts : PartialMessages := mkParts false 0 [] 0.

Definition TICKS_PER_MS : Z := 1000000.

(** [PartialMessages::finish(lifetime)], the lifetime in milliseconds *)
Definition finish (now lifetime : Z) (p : PartialMessages) : PartialMessages :=
  mkParts true 0 [] (now + lifetime * TICKS_PER_MS).

(** The virtual methods of [ConfigBase] *)
Record Kind := mkKind {
  accepts_protobuf : bool;
  storage_namespace : Z;
  encryption_domain : bytes;
  compression_level : option Z;
  config_lags : Z;
}.

(** [libsodium]'s Ed25519 *)
Class Ed25519 := {
  sk_to_pk : bytes → bytes;
  sign_detached : bytes → bytes → option bytes;        (* secret key, message *)
  verify_detached : bytes → bytes → bytes → bool;      (* public key, message, signature *)
}.

(** What [ConfigBase] uses of [src/config/protos.cpp] *)
Class ProtoWrap := {
  wrap_config : bytes → bytes → Z → Z → result bytes;
  unwrap_config : bytes → bytes → Z → result bytes;
}.

(** The object; hash sets are kept in order. *)
Record ConfigBase := mkConfigBase {
  _config : AnyMessage;
  _state : ConfigState;
  _keys : list bytes;
  _curr_hashes : list bytes;
  _old_hashes : list bytes;
  _multiparts : list (bytes * PartialMessages);
  _needs_dump : bool;
  _sign_pk : option bytes;
  _sign_sk : option bytes;
  MULTIPART_MAX_WAIT : Z;
  MULTIPART_MAX_REMEMBER : Z;
}.

(** Assignments to the members *)
Definition with_config (c : AnyMessage) (b : ConfigBase) : ConfigBase :=
  mkConfigBase c (_state b) (_keys b) (_curr_hashes b) (_old_hashes b) (_multiparts b)
    (_needs_dump b) (_sign_pk b) (_sign_sk b) (MULTIPART_MAX_WAIT b) (MULTIPART_MAX_REMEMBER b).
Definition with_state (s : ConfigState) (b : ConfigBase) : ConfigBase :=
  mkConfigBase (_config b) s (_keys b) (_curr_hashes b) (_old_hashes b) (_multiparts b)
    (_needs_dump b) (_sign_pk b) (_sign_sk b) (MULTIPART_MAX_WAIT b) (MULTIPART_MAX_REMEMBER b).
Definition with_enc_keys (k : list bytes) (b : ConfigBase) : ConfigBase :=
  mkConfigBase (_config b) (_state b) k (_curr_hashes b) (_old_hashes b) (_multiparts b)
    (_needs_dump b) (_sign_pk b) (_sign_sk b) (MULTIPART_MAX_WAIT b) (MULTIPART_MAX_REMEMBER b).
Definition with_curr (h : list bytes) (b : ConfigBase) : ConfigBase :=
  mkConfigBase (_config b) (_state b) (_keys b) h (_old_hashes b) (_multiparts b)
    (_needs_dump b) (_sign_pk b) (_sign_sk b) (MULTIPART_MAX_WAIT b) (MULTIPART_MAX_REMEMBER b).
Definition with_old (h : list bytes) (b : ConfigBase) : ConfigBase :=
  mkConfigBase (_config b) (_state b) (_keys b) (_curr_hashes b) h (_multiparts b)
    (_needs_dump b) (_sign_pk b) (_sign_sk b) (MULTIPART_MAX_WAIT b) (MULTIPART_MAX_REMEMBER b).
Definition with_multiparts (m : list (bytes * PartialMessages)) (b : ConfigBase) : ConfigBase :=
  mkConfigBase (_config b) (_state b) (_keys b) (_curr_hashes b) (_old_hashes b) m
    (_needs_dump b) (_sign_pk b) (_sign_sk b) (MULTIPART_MAX_WAIT b) (MULTIPART_MAX_REMEMBER b).
Definition with_needs_dump (d : bool) (b : ConfigBase) : ConfigBase :=
  mkConfigBase (_config b) (_state b) (_keys b) (_curr_hashes b) (_old_hashes b) (_multiparts b)
    d (_sign_pk b) (_sign_sk b) (MULTIPART_MAX_WAIT b) (MULTIPART_MAX_REMEMBER b).
Definition with_sig (pk sk : option bytes) (b : ConfigBase) : ConfigBase :=
  mkConfigBase (_config b) (_state b) (_keys b) (_curr_hashes b) (_old_hashes b) (_multiparts b)
    (_needs_dump b) pk sk (MULTIPART_MAX_WAIT b) (MULTIPART_MAX_REMEMBER b).

Definition is_dirty (b : ConfigBase) : bool := bool_decide (_state b = Dirty).
Definition is_clean (b : ConfigBase) : bool := bool_decide (_state b = Clean).
Definition needs_push (b : ConfigBase) : bool := negb (is_clean b).

Definition config_of (b : ConfigBase) : ConfigMessage := as_base (_config b).

Definition is_readonly (b : ConfigBase) : bool :=
  is_some (verifier (config_of b)) && negb (is_some (signer (config_of b))).

(** [set.insert(begin, end)] *)
Definition insert_all (xs s : list bytes) : list bytes := fold_left (λ s x, sinsert x s) xs s.

(** A member of the pointed-to message is assigned. *)
Definition on_base (f : ConfigMessage → ConfigMessage) (a : AnyMessage) : AnyMessage :=
  match a with
  | Immutable m => Immutable (f m)
  | Mutable m => Mutable (mkMutable (f (base m)) (orig_data_ m))
  end.

(** ** State *)
Definition set_state (s : ConfigState) : M ConfigBase () :=
  b ← mget;
  if bool_decide (s = Dirty) && is_readonly b then throw runtime_error else
  (when (is_clean b && negb (is_nil (_curr_hashes b)))
    (modify (λ b, with_curr [] (with_old (insert_all (_curr_hashes b) (_old_hashes b)) b))));;
  modify (λ b, with_needs_dump true (with_state s b)).

Section dirty.
Context `{BtLib, Hash}.

(** [dirty()]: the object is left with the mutable message it returns *)
Definition dirty : M ConfigBase MutableConfigMessage :=
  b ← mget;
  (if is_dirty b then modify (with_needs_dump true)
   else set_state Dirty;;
        m ← lift (increment (_config b));
        modify (with_config (Mutable m)));;
  b ← mget;
  match _config b with
  | Mutable m => mret m
  | Immutable _ => throw runtime_error
  end.

(** [dirty().data()] is changed in place. *)
Definition update_data (f : dict → dict) : M ConfigBase () :=
  m ← dirty;
  modify (with_config (Mutable (mkMutable (with_data (f (data_ (base m))) (base m)) (orig_data_ m)))).

(** ** Encryption keys *)
Definition key_count (b : ConfigBase) : Z := Z.of_nat (length (_keys b)).

Definition has_key (key : bytes) : M ConfigBase bool :=
  guard_ (size key =? 32) invalid_argument;;
  gets (λ b, existsb (keqb key) (_keys b)).

Definition get_keys (b : ConfigBase) : list bytes := _keys b.

Definition remove_key (key : bytes) (from : nat) (dirty_config : bool) : M ConfigBase bool :=
  b ← mget;
  let starting_size := length (_keys b) in
  if (starting_size <=? from)%nat then mret false else
  guard_ (KEY_SIZE <=? size key) undefined_behaviour;;
  let key := stake 32 key in
  let dirty_config := dirty_config && negb (is_readonly b) &&
    match _keys b with k :: _ => keqb key k | [] => false end in
  modify (with_enc_keys (take from (_keys b) ++
                         List.filter (λ k, negb (keqb key k)) (drop from (_keys b))));;
  when dirty_config (dirty;; skip);;
  gets (λ b, (length (_keys b) <? starting_size)%nat).

Definition add_key (key : bytes) (high_priority dirty_config : bool) : M ConfigBase () :=
  guard_ (size key =? KEY_SIZE) invalid_argument;;
  b ← mget;
  if match _keys b with k :: _ => keqb k key | [] => false end then skip else
  known ← (if high_priority then mret false else has_key key);
  if known : bool then skip else
  when high_priority (remove_key key 1 false;; skip);;
  modify (λ b, with_enc_keys (if high_priority then key :: _keys b else _keys b ++ [key]) b);;
  b ← mget;
  when (dirty_config && negb (is_readonly b) &&
        ((length (_keys b) =? 1)%nat || high_priority)) (dirty;; skip).

Definition clear_keys (dirty_config : bool) : M ConfigBase Z :=
  b ← mget;
  let ret := key_count b in
  modify (with_enc_keys []);;
  when (dirty_config && negb (is_readonly b) && (0 <? ret)) (dirty;; skip);;
  mret ret.

Definition replace_keys (new_keys : list bytes) (dirty_config : bool) : M ConfigBase () :=
  b ← mget;
  match new_keys with
  | [] => if is_nil (_keys b) then skip else clear_keys dirty_config;; skip
  | first :: _ =>
      guard_ (forallb (λ k, size k =? KEY_SIZE) new_keys) invalid_argument;;
      let dirty_config := dirty_config && negb (is_readonly b) &&
        match _keys b with k :: _ => negb (keqb k first) | [] => true end in
      modify (with_enc_keys []);;
      forM_ new_keys (λ k, add_key k false false);;
      when dirty_config (dirty;; skip)
  end.

Definition load_key (ed25519_secretkey : bytes) : M ConfigBase () :=
  guard_ ((size ed25519_secretkey =? 64) || (size ed25519_secretkey =? 32)) invalid_argument;;
  add_key (stake 32 ed25519_secretkey) true false.

(** ** Signing keys ([ConfigSig]) *)
Context `{Ed25519}.

Definition set_verifier (v : verify_callable) : M ConfigBase () :=
  modify (λ b, with_config (on_base (λ m, with_keys v (signer m) m) (_config b)) b).

Definition set_signer (s : sign_callable) : M ConfigBase () :=
  modify (λ b, with_config (on_base (λ m, with_keys (verifier m) s m) (_config b)) b).

Definition clear_sig_keys : M ConfigBase () :=
  modify (with_sig None None);; set_signer None;; set_verifier None.

Definition pk_verifier (pk : bytes) : verify_callable := Some (verify_detached pk).
Definition sk_signer (sk : bytes) : sign_callable :=
  Some (λ msg, match sign_detached sk msg with Some s => Ok s | None => Throw runtime_error end).

Definition set_sig_keys (secret : bytes) : M ConfigBase () :=
  guard_ (size secret =? 64) invalid_argument;;
  clear_sig_keys;;
  modify (with_sig (Some (sk_to_pk secret)) (Some secret));;
  set_verifier (pk_verifier (sk_to_pk secret));;
  set_signer (sk_signer secret).

Definition set_sig_pubkey (pubkey : bytes) : M ConfigBase () :=
  guard_ (size pubkey =? 32) invalid_argument;;
  modify (λ b, with_sig (Some pubkey) (_sign_sk b) b);;
  set_verifier (pk_verifier pubkey).

Definition init_sig_keys (ed25519_pubkey ed25519_secretkey : option bytes) : M ConfigBase () :=
  match ed25519_secretkey, ed25519_pubkey with
  | Some sk, Some pk =>
      guard_ (32 <=? size sk) undefined_behaviour;;
      if negb (keqb pk (sdrop 32 sk)) then throw invalid_argument else set_sig_keys sk
  | Some sk, None => set_sig_keys sk
  | None, Some pk => set_sig_pubkey pk
  | None, None => clear_sig_keys
  end.

Definition seed_hash (key : bytes) : M ConfigBase bytes :=
  b ← mget;
  match _sign_sk b with
  | None => throw runtime_error
  | Some sk => mret (generichash 32 (stake 64 key) (stake 32 sk))
  end.
End dirty.

(** ** Multipart messages *)
Section multipart.
Context `{BtLib, Hash, Zstd}.
Context (now : Z).

Definition byte_at0 (s : bytes) : Z :=
  match s with String c _ => Z.of_N (N_of_ascii c) | "" => 0 end.

(** The header checks of a part: final hash, index, number of parts, data *)
Definition parse_part (message : bytes) : result (bytes * Z * Z * bytes) :=
  _ ← require (size message <=? MAX_MESSAGE_SIZE) runtime_error;
  c ← bt_load_list (sdrop 1 message);
  match c with
  | BtStr h :: c =>
      _ ← require (size h =? 32) runtime_error;
      match c with
      | BtStr index_bytes :: BtStr size_bytes :: c =>
          _ ← require ((size index_bytes =? 1) && (size size_bytes =? 1)) runtime_error;
          let index := byte_at0 index_bytes in
          let num_parts := byte_at0 size_bytes in
          _ ← require (negb ((num_parts <=? 1) || (num_parts <=? index))) runtime_error;
          match c with
          | BtStr data :: c =>
              _ ← require (negb (size data =? 0)) runtime_error;
              _ ← require (is_nil c) runtime_error;
              Ok (h, index, num_parts, data)
          | _ => Throw bt_deserialize_invalid
          end
      | _ => Throw bt_deserialize_invalid
      end
  | _ => Throw bt_deserialize_invalid
  end.

(** Insertion before the first part with an index not below; [None] if that
    index is already there *)
Fixpoint insert_part (p : PartialMessage) (l : list PartialMessage) : option (list PartialMessage) :=
  match l with
  | [] => Some [p]
  | q :: l' =>
      if index q <? index p then option_map (cons q) (insert_part p l')
      else if index q =? index p then None
      else Some (p :: l)
  end.

Definition recombine (l : list PartialMessage) : bytes :=
  foldr (λ p s, data p +:+ s) "" l.

(** From the recombined data to the message it carries *)
Definition inflate (recombined : bytes) : result bytes :=
  let recombined := strip_padding recombined in
  recombined ← match recombined with
               | String "z" rest =>
                   match zstd_decompress rest 0 with
                   | Some d => if size d =? 0 then Throw runtime_error else Ok d
                   | None => Throw runtime_error
                   end
               | _ => Ok recombined
               end;
  match recombined with
  | String "d" _ => Ok recombined
  | _ => Throw runtime_error
  end.

Definition put_parts (final_hash : bytes) (p : PartialMessages) : M ConfigBase () :=
  modify (λ b, with_multiparts (minsert final_hash p (_multiparts b)) b).

(** The body of the [try] block of [_handle_multipart] *)
Definition handle_part (msg_id message : bytes) : M ConfigBase (option (list bytes * bytes)) :=
  '(final_hash, idx, num_parts, chunk) ← lift (parse_part message);
  b ← mget;
  let p := default no_parts (mfind final_hash (_multiparts b)) in
  put_parts final_hash p;;
  if done p then mret None else
  guard_ (is_nil (parts p) || (num_parts =? psize p)) runtime_error;;
  let sz := if is_nil (parts p) then num_parts else psize p in
  put_parts final_hash (mkParts (done p) sz (parts p) (expiry p));;
  match insert_part (mkPart idx msg_id chunk) (parts p) with
  | None => mret None
  | Some ps =>
      put_parts final_hash (mkParts (done p) sz ps (expiry p));;
      modify (with_needs_dump true);;
      if Z.of_nat (length ps) =? sz then
        let recombined := recombine ps in
        guard_ (keqb (blake2b recombined) final_hash) runtime_error;;
        put_parts final_hash (finish now (MULTIPART_MAX_REMEMBER b) p);;
        plain ← lift (inflate recombined);
        mret (Some (message_id <$> ps, plain))
      else
        put_parts final_hash
          (mkParts (done p) sz ps (now + MULTIPART_MAX_WAIT b * TICKS_PER_MS));;
        mret None
  end.

Definition _handle_multipart (msg_id message : bytes)
    : M ConfigBase (bool * option (list bytes * bytes)) :=
  catch (r ← handle_part msg_id message; mret (true, r)) (λ _, mret (false, None)).

Definition live (p : bytes * PartialMessages) : bool := negb (expiry p.2 <? now).

Definition _expire_multiparts : M ConfigBase () :=
  modify (λ b, with_multiparts (List.filter live (_multiparts b)) b).

(** The hashes of the current config and of the parts that may complete *)
Definition active_hashes (b : ConfigBase) : list bytes :=
  fold_left
    (λ hs p, if negb (done p.2) && (now <? expiry p.2)
             then insert_all (message_id <$> parts p.2) hs else hs)
    (_multiparts b) (_curr_hashes b).

(** ** Dumping and loading of multiparts *)
Definition epoch_ms (t : Z) : Z := Z.quot t TICKS_PER_MS.

Definition bt_of_part (p : PartialMessage) : bt_value :=
  BtDict [("#", BtInt (index p)); ("M", BtStr (message_id p)); ("d", BtStr (data p))].

Definition bt_of_parts (p : PartialMessages) : bt_value :=
  BtDict (("#", BtInt (if done p then 0 else psize p)) ::
          ("T", BtInt (epoch_ms (expiry p))) ::
          (if done p then [] else [("p", BtList (bt_of_part <$> parts p))])).

Definition _dump_multiparts (b : ConfigBase) : bt_dict :=
  (λ p, (p.1, bt_of_parts p.2)) <$> List.filter live (_multiparts b).

(** [dict.require<T>(key)]: skips to the key and throws unless it is there *)
Definition require_key (in_ : bt_dict) (key : bytes) : result (bt_value * bt_dict) :=
  match skip_until in_ key with
  | ((_, v) :: rest, true) => Ok (v, rest)
  | _ => Throw out_of_range
  end.

(** The integer of a given width: refused when it does not fit *)
Definition bt_int32 (v : bt_value) : result Z :=
  match v with
  | BtInt z => z ← consume_int64 z;
               if (- 2 ^ 31 <=? z) && (z <? 2 ^ 31) then Ok z else Throw overflow_error
  | _ => Throw bt_deserialize_invalid
  end.
Definition bt_int64 (v : bt_value) : result Z :=
  match v with BtInt z => consume_int64 z | _ => Throw bt_deserialize_invalid end.
Definition bt_str (v : bt_value) : result bytes :=
  match v with BtStr s => Ok s | _ => Throw bt_deserialize_invalid end.

Definition load_part (v : bt_value) : result PartialMessage :=
  match v with
  | BtDict ((_, i) :: (_, m) :: (_, d) :: _) =>
      i ← bt_int32 i; m ← bt_str m; d ← bt_str d; Ok (mkPart i m d)
  | _ => Throw bt_deserialize_invalid
  end.

(** One entry of [_load_multiparts]: [None] when it is skipped *)
Definition load_parts (k : bytes) (v : bt_value) : result (option PartialMessages) :=
  match v with
  | BtDict pdata =>
      if negb (size k =? 32) then Ok None else
      '(n, pdata) ← require_key pdata "#"; sz ← bt_int32 n;
      '(t, pdata) ← require_key pdata "T"; t ← bt_int64 t;
      let exp := t * TICKS_PER_MS in
      if exp <? now then Ok None else
      ps ← (if 0 <? sz then
              '(l, _) ← require_key pdata "p";
              match l with BtList l => mapR load_part l | _ => Throw bt_deserialize_invalid end
            else Ok []);
      Ok (Some (mkParts false sz ps exp))
  | _ => Throw bt_deserialize_invalid
  end.

Definition _load_multiparts (multi : bt_dict) : M ConfigBase () :=
  forM_ multi (λ p,
    pm ← lift (load_parts p.1 p.2);
    match pm with Some pm => put_parts p.1 pm | None => skip end).
End multipart.

(** ** Merging, pushing, dumping and loading *)
Section operations.
Context `{BtLib, Hash, Aead, Zstd, Ed25519, ProtoWrap}.
Context (kind : Kind) (now : Z).

(** A message decrypted with the first key that works; any other error than a
    failed decryption propagates. *)
Fixpoint try_decrypt (keys : list bytes) (conf : bytes) : result (option bytes) :=
  match keys with
  | [] => Ok None
  | k :: keys =>
      match decrypt conf k (encryption_domain kind) with
      | Ok plain => Ok (Some plain)
      | Throw decrypt_error => try_decrypt keys conf
      | Throw e => Throw e
      end
  end.

Fixpoint decrypt_all (keys : list bytes) (configs : list (bytes * bytes))
    : result (list (bytes * bytes)) :=
  match configs with
  | [] => Ok []
  | (hash, conf) :: configs =>
      p ← try_decrypt keys conf;
      rest ← decrypt_all keys configs;
      Ok (match p with Some plain => (hash, plain) :: rest | None => rest end)
  end.

(** What the loop of [_merge] accumulates: the hashes and the plaintext of
    every complete config, and the hashes that were good *)
Record Incoming := mkIncoming {
  all_hashes : list (list bytes);
  all_confs : list bytes;
  good_hashes : list bytes;
}.

Definition add_conf (hs : list bytes) (conf : bytes) (i : Incoming) : Incoming :=
  mkIncoming (all_hashes i ++ [hs]) (all_confs i ++ [conf]) (good_hashes i).
Definition add_good (h : bytes) (i : Incoming) : Incoming :=
  mkIncoming (all_hashes i) (all_confs i) (sinsert h (good_hashes i)).

(** One decrypted message *)
Definition process_plain (hash plain : bytes) (i : Incoming) : M ConfigBase Incoming :=
  match strip_padding plain with
  | "" => mret i
  | String "m" _ as plain =>
      r ← _handle_multipart now hash plain;
      let '(accepted, completed) := r : bool * option (list bytes * bytes) in
      let i := if accepted then add_good hash i else i in
      mret (match completed with Some (ids, conf) => add_conf ids conf i | None => i end)
  | String "z" rest =>
      match zstd_decompress rest 0 with
      | Some (String "d" _ as conf) => mret (add_conf [hash] conf (add_good hash i))
      | _ => mret i
      end
  | String "d" _ as conf => mret (add_conf [hash] conf (add_good hash i))
  | _ => mret i
  end.

Fixpoint process_all (plaintexts : list (bytes * bytes)) (i : Incoming) : M ConfigBase Incoming :=
  match plaintexts with
  | [] => mret i
  | (hash, plain) :: rest => i ← process_plain hash plain i; process_all rest i
  end.

(** [_config->serialize(...)] through the pointer *)
Definition serialize_config (enable_signing : bool) : M ConfigBase bytes :=
  b ← mget;
  r ← lift (serialize (_config b) enable_signing);
  modify (with_config r.2);;
  mret r.1.

(** [make_config_message(_state == Dirty, ...)] with the indices the error
    handler records *)
Definition make_config_message (from_dirty : bool) (confs : list bytes) (v : verify_callable)
    (s : sign_callable) : result (AnyMessage * list nat) :=
  if from_dirty then
    '(m, bad) ← merge_mutable confs v s (config_lags kind) false; Ok (Mutable m, bad)
  else
    '(m, bad) ← merge_messages confs v s (config_lags kind) false; Ok (Immutable m, bad).

Definition hash_set (hs : list bytes) : list bytes := insert_all hs [].

(** The hashes the merge made obsolete *)
Fixpoint obsolete_hashes (i : nat) (all : list (list bytes)) (superconf : option nat)
    (superconf_hashes : list bytes) (bad : list nat) : list bytes :=
  match all with
  | [] => []
  | hs :: all =>
      (if negb (bool_decide (Some i = superconf)) && negb (bool_decide (i ∈ bad)) &&
          negb (is_nil hs) && negb (bool_decide (superconf_hashes = hash_set hs))
       then hs else []) ++ obsolete_hashes (S i) all superconf superconf_hashes bad
  end.

(** The new config is installed, if it is new. *)
Definition adopt (new_conf : AnyMessage) (old_seqno : Z) (superconf : option nat)
    (superconf_is_mine : bool) (all : list (list bytes)) : M ConfigBase () :=
  if seqno (as_base new_conf) =? old_seqno then skip else
  b ← mget;
  if merged (as_base new_conf) then
    modify (with_config (if is_dirty b then new_conf else Mutable (retain new_conf)));;
    set_state Dirty
  else if is_dirty b && superconf_is_mine && (seqno (as_base new_conf) =? old_seqno + 1)
  then skip
  else
    modify (with_config new_conf);;
    set_state Clean;;
    hs ← lift (match superconf with
               | Some i => from_option_or undefined_behaviour (all !! i)
               | None => Throw undefined_behaviour
               end);
    modify (with_curr (hash_set hs)).

(** [good_hashes] without those of the configs that failed to parse *)
Fixpoint drop_bad (i : nat) (all : list (list bytes)) (mine : option nat) (bad : list nat)
    (good : list bytes) : list bytes :=
  match all with
  | [] => good
  | hs :: all =>
      drop_bad (S i) all mine bad
        (if negb (bool_decide (Some i = mine)) && bool_decide (i ∈ bad)
         then fold_left (λ g h, serase h g) hs good else good)
  end.

(** The second half of [_merge]: from the collected configs to the new one *)
Definition merge_confs (old_seqno : Z) (mine_last : bool) (mine : bytes) (i : Incoming)
    : M ConfigBase (list bytes) :=
  if is_nil (all_hashes i) then mret (good_hashes i) else
  b ← mget;
  r ← lift (make_config_message (is_dirty b) (all_confs i)
              (verifier (config_of b)) (signer (config_of b)));
  let '(new_conf, bad_confs) := r : AnyMessage * list nat in
  let superconf := unmerged_ (as_base new_conf) in
  let superconf_hashes :=
    match superconf with
    | Some k => match all_hashes i !! k with Some hs => hash_set hs | None => [] end
    | None => []
    end in
  let mine_index := if mine_last then (length (all_hashes i) - 1)%nat else 0%nat in
  let superconf_is_mine := bool_decide (superconf = Some mine_index) in
  modify (λ b, with_old (insert_all
    (obsolete_hashes 0 (all_hashes i) superconf superconf_hashes bad_confs) (_old_hashes b)) b);;
  adopt new_conf old_seqno superconf superconf_is_mine (all_hashes i);;
  mret (drop_bad 0 (all_hashes i) (if size mine =? 0 then None else Some mine_index)
          bad_confs (good_hashes i)).

(** [_merge]: from the incoming (hash, message) pairs to the accepted hashes *)
Definition _merge (configs : list (bytes * bytes)) : M ConfigBase (list bytes) :=
  b ← mget;
  guard_ (negb (is_nil (_keys b))) logic_error;;
  let old_seqno := seqno (config_of b) in
  let have_mine := negb (old_seqno =? 0) || is_dirty b in
  let mine_last := have_mine && is_nil (_curr_hashes b) in
  mine ← (if have_mine then serialize_config true else mret "");
  let start := if have_mine && negb mine_last
               then mkIncoming [_curr_hashes b] [mine] [] else mkIncoming [] [] [] in
  plaintexts ← lift (decrypt_all (_keys b) configs);
  i ← process_all plaintexts start;
  let i := if mine_last then add_conf (_curr_hashes b) mine i else i in
  _expire_multiparts now;;
  merge_confs old_seqno mine_last mine i.

(** [merge]: unwraps what older clients wrapped in protobuf, once or twice *)
Definition unwrap (key conf : bytes) : bytes :=
  match unwrap_config key conf (storage_namespace kind) with
  | Ok c =>
      match unwrap_config key c (storage_namespace kind) with Ok c2 => c2 | Throw _ => c end
  | Throw _ => conf
  end.

Definition merge_incoming (configs : list (bytes * bytes)) : M ConfigBase (list bytes) :=
  b ← mget;
  match _keys b with
  | key :: _ =>
      if accepts_protobuf kind then _merge ((λ c, (c.1, unwrap key c.2)) <$> configs)
      else _merge configs
  | [] => _merge configs
  end.

(** ** Pushing *)
Definition compress_message (msg : bytes) (level : Z) : result bytes :=
  if level =? 0 then Ok msg else
  compressed ← zstd_compress msg level "z";
  Ok (if size compressed <? size msg then compressed else msg).

Definition ENCODE_OVERHEAD : Z := 1 + 2 + (3 + 32) + (2 + 1) + (2 + 1) + 6.
Definition MAX_CHUNK_SIZE : Z := MAX_MESSAGE_SIZE - ENCODE_OVERHEAD - ENCRYPT_DATA_OVERHEAD.

Definition byte (z : Z) : bytes := String (ascii_of_N (Z.to_N (z mod 256))) "".

(** One part: the list is written over a buffer of zeros; a list that does not
    fit makes the producer throw. *)
Definition encode_part (final_hash : bytes) (idx num_parts : Z) (chunk : bytes) : result bytes :=
  let out_size := size chunk + ENCODE_OVERHEAD in
  let l := bt_list_dump [BtStr final_hash; BtStr (byte idx); BtStr (byte num_parts); BtStr chunk] in
  _ ← require (size l <=? out_size - 1) length_error;
  Ok (String "m" (l +:+ zeros (Z.to_nat (out_size - 1 - size l)))).

(** The loop over the remaining data, one chunk per round *)
Fixpoint split_parts (fuel : nat) (final_hash : bytes) (idx num_parts : Z) (remaining : bytes)
    : result (list bytes) :=
  match fuel with
  | O => if size remaining =? 0 then Ok [] else Throw out_of_fuel
  | S fuel =>
      if size remaining =? 0 then Ok [] else
      let n := Z.to_nat (Z.min MAX_CHUNK_SIZE (size remaining)) in
      out ← encode_part final_hash idx num_parts (stake n remaining);
      rest ← split_parts fuel final_hash ((idx + 1) mod 256) num_parts (sdrop n remaining);
      Ok (out :: rest)
  end.

Definition num_parts_of (msg : bytes) : Z :=
  ((size msg + MAX_CHUNK_SIZE - 1) / MAX_CHUNK_SIZE) mod 256.

Definition split_message (msg : bytes) : result (list bytes) :=
  split_parts (String.length msg) (blake2b msg) 0 (num_parts_of msg) msg.

(** The messages to send, from the padded plaintext *)
Definition make_messages (msg key : bytes) (s : Z) : result (list bytes * option bytes) :=
  if MAX_MESSAGE_SIZE <? size msg + ENCRYPT_DATA_OVERHEAD then
    outs ← split_message msg;
    msgs ← mapR (λ out, encrypt_inplace out key (encryption_domain kind)) outs;
    Ok (msgs, Some (blake2b msg))
  else
    msg ← encrypt_inplace msg key (encryption_domain kind);
    (if accepts_protobuf kind then
       pbwrapped ← wrap_config key msg s (storage_namespace kind);
       Ok ([if size pbwrapped <=? MAX_MESSAGE_SIZE then pbwrapped else msg], None)
     else Ok ([msg], None)).

Definition push : M ConfigBase (Z * list bytes * list bytes) :=
  b ← mget;
  match _keys b with
  | [] => throw logic_error
  | key :: _ =>
      let s := seqno (config_of b) in
      msg ← serialize_config true;
      msg ← lift (match compression_level kind with
                  | Some lvl => compress_message msg lvl
                  | None => Ok msg
                  end);
      let msg := pad_message msg ENCRYPT_DATA_OVERHEAD in
      guard_ (size msg <=? MAX_MULTIPART_SIZE) length_error;;
      r ← lift (make_messages msg key s);
      (match r.2 with
       | Some h => modify (λ b, with_multiparts
           (minsert h (finish now (MULTIPART_MAX_REMEMBER b)
                         (default no_parts (mfind h (_multiparts b)))) (_multiparts b)) b)
       | None => skip
       end);;
      b ← mget;
      when (is_dirty b) (set_state Waiting);;
      b ← mget;
      let obs := if is_readonly b then [] else _old_hashes b in
      modify (with_old []);;
      mret (s, r.1, obs)
  end.

Definition confirm_pushed (s : Z) (msg_hashes : list bytes) : M ConfigBase () :=
  b ← mget;
  when (bool_decide (_state b = Waiting) && (s =? seqno (config_of b)))
    (set_state Clean;;
     modify (λ b, with_needs_dump true (with_curr (hash_set msg_hashes) b))).

(** [old_hashes()]: handed out once, and not while dirty *)
Definition old_hashes : M ConfigBase (list bytes) :=
  b ← mget;
  if is_dirty b then mret [] else modify (with_old []);; mret (_old_hashes b).

(** ** Dumping and loading; [extra] is what the derived class adds *)
Definition make_dump (extra : bt_dict) : M ConfigBase bytes :=
  dat ← serialize_config false;
  gets (λ b, bt_dump
    [("!", BtInt (state_to_int (_state b)));
     ("$", BtStr dat);
     ("(", BtList (BtStr <$> _curr_hashes b));
     (")", BtList (BtStr <$> _old_hashes b));
     ("*", BtDict (_dump_multiparts now b));
     ("+", BtDict extra)]).

Definition dump (extra : bt_dict) : M ConfigBase bytes :=
  b ← mget;
  when (is_readonly b) (modify (with_old []));;
  _expire_multiparts now;;
  d ← make_dump extra;
  modify (with_needs_dump false);;
  mret d.

(** A freshly constructed object, before [init] *)
Definition fresh (m : AnyMessage) : ConfigBase :=
  mkConfigBase m Clean [] [] [] [] false None None
    (7 * 24 * 3600 * 1000) (14 * 24 * 3600 * 1000).

(** The hashes of a dump: a list, or the single string older versions wrote *)
Definition load_curr_hashes (v : bt_value) : result (list bytes) :=
  match v with
  | BtList l => hs ← mapR bt_str l; Ok (hash_set hs)
  | BtStr h => Ok (if size h =? 0 then [] else [h])
  | _ => Throw runtime_error
  end.

(** The config message of a dump *)
Definition load_config (s : ConfigState) (dat : bytes) : result AnyMessage :=
  if bool_decide (s = Dirty)
  then m ← load_mutable dat None None (config_lags kind); Ok (Mutable m)
  else m ← parse_message dat None None (config_lags kind) true; Ok (Immutable m).

(** [init] on a fresh object; returns the extra data of the derived class *)
Definition init (dmp pubkey secretkey : option bytes) : M ConfigBase (option bt_dict) :=
  extra ←
    match dmp with
    | None =>
        m ← lift default_message;
        modify (λ b, with_config (Immutable m) (with_state Clean b));;
        mret None
    | Some raw =>
        lift (bt_open raw);;
        d ← lift (bt_load raw);
        st ← lift (match skip_until d "!" with
                   | ((_, v) :: rest, true) => z ← bt_int32 v; Ok (state_of_int z, rest)
                   | _ => Throw runtime_error end);
        modify (with_state st.1);;
        dat ← lift (match skip_until st.2 "$" with
                    | ((_, v) :: rest, true) => s ← bt_str v; Ok (s, rest)
                    | _ => Throw runtime_error end);
        m ← lift (load_config st.1 dat.1);
        modify (λ b, with_curr [] (with_config m b));;
        d ← (match skip_until dat.2 "(" with
             | ((_, v) :: rest, true) =>
                 hs ← lift (load_curr_hashes v);
                 modify (with_curr hs);;
                 match skip_until rest ")" with
                 | ((_, BtList l) :: rest, true) =>
                     olds ← lift (mapR bt_str l);
                     modify (λ b, with_old (insert_all olds (_old_hashes b)) b);;
                     mret rest
                 | (_, true) => throw bt_deserialize_invalid
                 | _ => throw runtime_error
                 end
             | (d, _) => mret d
             end);
        d ← (match skip_until d "*" with
             | ((_, BtDict multi) :: rest, true) => _load_multiparts now multi;; mret rest
             | (_, true) => throw bt_deserialize_invalid
             | (d, false) => mret d
             end);
        match skip_until d "+" with
        | ((_, BtDict extra) :: _, true) => mret (Some extra)
        | (_, true) => throw bt_deserialize_invalid
        | _ => mret None
        end
    end;
  init_sig_keys pubkey secretkey;;
  mret extra.
End operations.

(** ** Concrete instances, for evaluation *)
#[global] Instance checksum_ed25519 : Ed25519 := {|
  sk_to_pk sk := sdrop 32 sk;
  sign_detached sk msg := Some (generichash 64 (sdrop 32 sk) msg);
  verify_detached pk msg sig := String.eqb sig (generichash 64 pk msg);
|}.

(** Messages that no client wrapped *)
#[global] Instance unwrapped_protos : ProtoWrap := {|
  wrap_config _ msg _ _ := Ok msg;
  unwrap_config _ _ _ := Throw runtime_error;
|}.

Definition sample_kind : Kind := mkKind false 2 "UserProfile" (Some 1) 5.
Definition sample_key : bytes := zeros 32.

(** The object with an outcome, for programs that return *)
Definition final {A} (m : M ConfigBase A) (b : ConfigBase) : ConfigBase := (m b).2.

Definition new_config : ConfigBase :=
  final (init sample_kind 0 None None None;; add_key sample_key true false)
    (fresh (Immutable (no_message None None 5))).
