(* ===== verification/ConfigState.v ===== *)
(** * The state machine of the config object

    The invariant of [ConfigBase], preserved by every public operation, and
    the transitions between clean, dirty and waiting. *)

From Stdlib Require Import ZArith String Ascii Lia.
From stdpp Require Import base option list strings numbers sorting sets.
From S2P Require Import Prelude OrderedMap Bt Bencode Crypto ConfigData ConfigDiff ConfigMessage ConfigMerge Encrypt State Util ConfigBase.

(** ** What happens to the signing callbacks *)
Definition callbacks (a : AnyMessage) : verify_callable * sign_callable :=
  (verifier (as_base a), signer (as_base a)).

Section callbacks.
Context `{BtLib, Hash}.

Lemma increment_impl_callbacks m mm :
  increment_impl m = Ok mm → callbacks (Mutable mm) = callbacks (Immutable m).
Proof. unfold increment_impl. intros Hi. inv_result. done. Qed.

Lemma mutable_diff_callbacks m mm :
  mutable_diff m = Ok mm → callbacks (Mutable mm) = callbacks (Mutable m).
Proof. unfold mutable_diff. intros Hi. inv_result. done. Qed.

Lemma increment_callbacks a mm :
  increment a = Ok mm → callbacks (Mutable mm) = callbacks a.
Proof.
  destruct a as [m|m]; simpl; intros Hi; [by apply increment_impl_callbacks|].
  unfold mutable_hash in Hi. inv_result. apply increment_impl_callbacks in Hi.
  apply mutable_diff_callbacks in E0. unfold callbacks in *. simpl in *. congruence.
Qed.

Lemma serialize_callbacks a en s a' :
  serialize a en = Ok (s, a') →
  callbacks a' = callbacks a ∧ seqno (as_base a') = seqno (as_base a) ∧
  (∀ m, a = Mutable m → ∃ m', a' = Mutable m').
Proof.
  destruct a as [m|m]; cbn [serialize]; intros Hs; inv_result.
  - split_and!; [done..|]. intros m' [=].
  - split_and!; [by apply mutable_diff_callbacks| |eauto].
    unfold mutable_diff in E. inv_result. done.
Qed.

Lemma parse_message_callbacks raw v s lg trust m :
  parse_message raw v s lg trust = Ok m → verifier m = v ∧ signer m = s.
Proof.
  unfold parse_message. intros Hp. apply bind_Ok in Hp as ([] & _ & Hp).
  destruct (in_ ← bt_load raw; parse_body raw in_ v s lg trust) as [m'|e] eqn:E; [|by destruct e].
  injection Hp as ->. unfold parse_body in E. inv_pairs. done.
Qed.

Lemma load_all_callbacks i confs v s lg rt ms bad :
  load_all i confs v s lg rt = Ok (ms, bad) →
  Forall (λ m, verifier m = v ∧ signer m = s) ms.
Proof.
  revert i ms bad; induction confs as [|c confs IH]; intros i ms bad Hl; cbn [load_all] in Hl.
  { inv_pairs. constructor. }
  destruct (parse_message c v s lg false) as [m|e] eqn:Ep.
  - inv_pairs. constructor; [by eapply parse_message_callbacks|by eapply IH].
  - destruct (_ && _); [|done]. inv_pairs. by eapply IH.
Qed.

Lemma mark_redundant_fst i all rest lg mx l :
  mark_redundant i all rest lg mx = Ok l → fst <$> l = rest.
Proof.
  revert i l; induction rest as [|m rest IH]; intros i l Hm; cbn [mark_redundant] in Hm.
  - by inv_result.
  - inv_result. rewrite fmap_cons. f_equal. by eapply IH.
Qed.

Lemma merge_loaded_callbacks configs v s lg m :
  merge_loaded configs v s lg = Ok m → Forall (λ m, verifier m = v ∧ signer m = s) configs →
  verifier m = v ∧ signer m = s.
Proof.
  intros Hm Hall. unfold merge_loaded in Hm. destruct (is_nil configs); [done|]. inv_result.
  rename a into marked. apply mark_redundant_fst in E.
  assert (∀ x b, (x, b) ∈ marked → verifier x = v ∧ signer x = s) as Hin.
  { intros x b Hx. rewrite Forall_forall in Hall. apply Hall. rewrite <-E.
    by apply (list_elem_of_fmap_2 fst) in Hx. }
  assert (∀ K, merge_configs K v s lg (max_seqno configs) = Ok m → verifier m = v ∧ signer m = s) as HK.
  { intros K HK. unfold merge_configs in HK. destruct (sort_desc K); [done|]. by inv_result. }
  pose proof (first_kept_spec 0 marked) as Hfk.
  destruct (first_kept 0 marked) as [[i k]|].
  - destruct Hfk as (p & rest & _ & Hp & Hf). apply list_elem_of_lookup_2 in Hp.
    rewrite Hf in Hm. destruct marked as [|c cs]; [by destruct rest|].
    destruct (max_element 1 (0%nat, c) cs) as [j [best b]] eqn:Eb.
    destruct rest as [|c2 rest]; [injection Hm as <-; by apply (Hin k false)|].
    destruct (is_some v && negb (is_some s)); [|by eapply HK].
    injection Hm as <-. apply (Hin best b).
    apply max_element_spec in Eb as ([Eb|Eb] & _); simpl in Eb; [rewrite Eb; by left|by right].
  - rewrite Hfk in Hm. destruct marked as [|c cs]; [done|].
    destruct (max_element 1 (0%nat, c) cs) as [j [best b]] eqn:Eb.
    destruct (is_some v && negb (is_some s)); [|by eapply HK].
    injection Hm as <-. apply (Hin best b).
    apply max_element_spec in Eb as ([Eb|Eb] & _); simpl in Eb; [rewrite Eb; by left|by right].
Qed.

Lemma merge_messages_callbacks confs v s lg rt m bad :
  merge_messages confs v s lg rt = Ok (m, bad) → verifier m = v ∧ signer m = s.
Proof.
  unfold merge_messages. intros Hm. inv_pairs.
  eapply merge_loaded_callbacks; [done|]. by eapply load_all_callbacks.
Qed.

Lemma merge_mutable_callbacks confs v s lg rt m bad :
  merge_mutable confs v s lg rt = Ok (m, bad) →
  verifier (base m) = v ∧ signer (base m) = s.
Proof.
  unfold merge_mutable. intros Hm. inv_pairs. apply merge_messages_callbacks in E.
  destruct (merged c); inv_result; [done|]. apply increment_impl_callbacks in E0.
  unfold callbacks in E0. simpl in E0. by injection E0 as -> ->.
Qed.

Lemma make_config_message_callbacks kind d confs v s a bad :
  make_config_message kind d confs v s = Ok (a, bad) →
  callbacks a = (v, s) ∧ (d = true → ∃ m, a = Mutable m).
Proof.
  unfold make_config_message, callbacks. destruct d; intros Hm; inv_pairs.
  - apply merge_mutable_callbacks in E as [<- <-]. eauto.
  - by apply merge_messages_callbacks in E as [<- <-].
Qed.
End callbacks.

(** ** The invariant *)

(** The parts of a set: strictly ascending indices below the number of parts;
    a finished set keeps none. *)
Fixpoint ascending (l : list PartialMessage) : bool :=
  match l with
  | p :: (q :: _) as l' => (index p <? index q) && ascending l'
  | _ => true
  end.

Definition parts_ok (p : PartialMessages) : bool :=
  (negb (done p) || is_nil (parts p)) && ascending (parts p) &&
  forallb (λ q, (0 <=? index q) && (index q <? psize p)) (parts p).

Record config_inv (b : ConfigBase) : Prop := {
  inv_dirty : _state b = Dirty → ∃ m, _config b = Mutable m;
  inv_readonly : is_readonly b = true → _state b ≠ Dirty;
  inv_keys : NoDup (_keys b) ∧ Forall (λ k, size k = 32) (_keys b);
  inv_curr : ssorted (_curr_hashes b) = true;
  inv_old : ssorted (_old_hashes b) = true;
  inv_hashes : _state b ≠ Clean → _curr_hashes b = [];
  inv_parts : msorted (_multiparts b) = true ∧
    ∀ h p, (h, p) ∈ _multiparts b → parts_ok p = true;
}.

Lemma insert_all_sorted xs s : ssorted s = true → ssorted (insert_all xs s) = true.
Proof. apply sfold_insert_sorted. Qed.

Lemma hash_set_sorted hs : ssorted (hash_set hs) = true.
Proof. by apply insert_all_sorted. Qed.

Lemma serase_fold_sorted hs s :
  ssorted s = true → ssorted (fold_left (λ g h, serase h g) hs s) = true.
Proof. apply sfold_erase_sorted. Qed.

#[export] Hint Resolve insert_all_sorted hash_set_sorted : ordmap.

(** An operation that only touches members the invariant does not mention, or
    replaces one component by another good one *)
Ltac inv_same := intros b [? ? ? ? ? ? ?]; split; simpl; auto with ordmap.

(** From an invariant preserved by an operation to the state at hand *)
Ltac at_state Hb :=
  lazymatch goal with
  | |- defined (?m ?b).1 → config_inv _ =>
      cut (preserves config_inv m); [intros Hp; exact (Hp b Hb)|]
  end.

Section preserved.
Context `{BtLib, Hash}.

Lemma inv_needs_dump d : preserves config_inv (modify (with_needs_dump d)).
Proof. apply preserves_modify. inv_same. Qed.

Lemma inv_with_old f :
  (∀ b, config_inv b → ssorted (f b) = true) →
  preserves config_inv (modify (λ b, with_old (f b) b)).
Proof. intros Hf. apply preserves_modify. intros b Hb. pose proof (Hf b Hb). destruct Hb. by split. Qed.

(** The current hashes become old ones *)
Definition retire (b : ConfigBase) : ConfigBase :=
  if is_clean b && negb (is_nil (_curr_hashes b))
  then with_curr [] (with_old (insert_all (_curr_hashes b) (_old_hashes b)) b) else b.

Lemma set_state_run s b :
  set_state s b =
    if bool_decide (s = Dirty) && is_readonly b then (Throw runtime_error, b)
    else (Ok tt, with_needs_dump true (with_state s (retire b))).
Proof.
  unfold set_state, retire. rewrite run_mget. destruct (_ && is_readonly b); [done|].
  rewrite run_when. by destruct (is_clean b && negb (is_nil (_curr_hashes b))).
Qed.

Lemma retire_config b : _config (retire b) = _config b.
Proof. unfold retire. by destruct (_ && _). Qed.
Lemma retire_keys b : _keys (retire b) = _keys b.
Proof. unfold retire. by destruct (_ && _). Qed.
Lemma retire_multiparts b : _multiparts (retire b) = _multiparts b.
Proof. unfold retire. by destruct (_ && _). Qed.

Lemma retire_curr b : config_inv b → _curr_hashes (retire b) = [].
Proof.
  intros Hb. unfold retire, is_clean. destruct (decide (_state b = Clean)) as [Hc|Hc].
  - rewrite bool_decide_true by done. by destruct (_curr_hashes b) eqn:E.
  - rewrite bool_decide_false by done. by apply (inv_hashes _ Hb).
Qed.

Lemma retire_inv b : config_inv b → config_inv (retire b).
Proof.
  unfold retire. destruct (_ && _); [|done]. intros [? ? ? ? ? ? ?]. split; simpl; auto with ordmap.
Qed.

(** A change of state, with the message that fits it *)
Lemma set_state_inv_at s b :
  config_inv b → (s = Dirty → ∃ m, _config b = Mutable m) → config_inv (set_state s b).2.
Proof.
  intros Hb Hm. rewrite set_state_run.
  destruct (bool_decide (s = Dirty) && is_readonly b) eqn:Er; [done|].
  pose proof (retire_curr b Hb). pose proof (retire_config b) as Hc.
  pose proof (retire_inv b Hb) as [? Hro ? ? ? ? ?].
  split; simpl; rewrite ?Hc; auto with ordmap. intros Hr ->. rewrite bool_decide_true in Er by done. unfold is_readonly, config_of in *. simpl in *.
  congruence.
Qed.

Lemma set_state_inv s : s ≠ Dirty → preserves config_inv (set_state s).
Proof. intros Hs b Hb _. by apply set_state_inv_at. Qed.

Lemma callbacks_readonly b a :
  callbacks a = callbacks (_config b) → is_readonly (with_config a b) = is_readonly b.
Proof.
  unfold callbacks, is_readonly, config_of. simpl. intros [= -> ->]. done.
Qed.

Lemma with_config_inv b a :
  config_inv b → callbacks a = callbacks (_config b) →
  (_state b = Dirty → ∃ m, a = Mutable m) → config_inv (with_config a b).
Proof.
  intros [? Hro ? ? ? ? ?] Hc Hd. split; simpl; auto.
  intros Hr. apply Hro. by rewrite <-(callbacks_readonly b a).
Qed.

Lemma increment_immutable_throws m e :
  increment (Immutable m) = Throw e → e = undefined_behaviour.
Proof.
  simpl. unfold increment_impl, sub_i64, add_i64. intros Hi.
  destruct (is_nil (lagged_diffs_ m)); [|destruct (in_int64 (seqno m - lag m))];
    simpl in Hi; try congruence;
    (destruct (match last _ with Some _ => _ | None => _ end); simpl in Hi; [|congruence]);
    (destruct (in_int64 (seqno m + 1)); simpl in Hi; congruence).
Qed.

(** [dirty()], branch by branch *)
Lemma dirty_run b :
  config_inv b →
  dirty b =
    if is_dirty b then
      match _config b with
      | Mutable m => (Ok m, with_needs_dump true b)
      | Immutable _ => (Throw runtime_error, with_needs_dump true b)
      end
    else if is_readonly b then (Throw runtime_error, b)
    else match increment (_config b) with
         | Ok m => (Ok m, with_config (Mutable m)
                            (with_needs_dump true (with_state Dirty (retire b))))
         | Throw e => (Throw e, with_needs_dump true (with_state Dirty (retire b)))
         end.
Proof.
  intros Hb. unfold dirty. unfold mbind at 1, M_bind, mget.
  destruct (is_dirty b).
  - unfold mbind, M_bind, modify. simpl. by destruct (_config b).
  - unfold mbind, M_bind. rewrite set_state_run, bool_decide_true by done. simpl.
    destruct (is_readonly b); [done|]. unfold lift. destruct (increment (_config b)); [|done]. done.
Qed.

Lemma dirty_inv : preserves config_inv dirty.
Proof.
  intros b Hb Hd. rewrite dirty_run in * by done.
  destruct (is_dirty b) eqn:Ed.
  { apply bool_decide_eq_true in Ed. destruct (inv_dirty _ Hb Ed) as [m Hm]. rewrite Hm in *. simpl.
    destruct Hb. split; simpl; auto. }
  destruct (is_readonly b) eqn:Er; [done|].
  destruct (increment (_config b)) as [m|e] eqn:Ei; simpl in *.
  - apply increment_callbacks in Ei as Hcm.
    assert (config_inv (with_config (Mutable m) b)) as Hb2 by (apply with_config_inv; eauto).
    pose proof (retire_inv b Hb) as [? ? ? ? ? ? ?]. split; simpl; eauto.
    + change (is_readonly (with_config (Mutable m) b) = true → Dirty ≠ Dirty).
      rewrite (callbacks_readonly b _ Hcm). congruence.
    + intros _. by apply retire_curr.
  - destruct (_config b) as [m|m] eqn:Ec; [by apply increment_immutable_throws in Ei as ->|].
    pose proof (set_state_inv_at Dirty b Hb) as Hs. rewrite set_state_run, Er, andb_false_r in Hs.
    apply Hs. eauto.
Qed.

(** A successful [dirty()]: the next message, or the one already there *)
Lemma dirty_Ok b m b' :
  config_inv b → dirty b = (Ok m, b') →
  config_inv b' ∧ _config b' = Mutable m ∧ _state b' = Dirty ∧
  callbacks (Mutable m) = callbacks (_config b) ∧ _keys b' = _keys b ∧
  _multiparts b' = _multiparts b ∧ _needs_dump b' = true ∧
  (if is_dirty b then _config b = Mutable m else increment (_config b) = Ok m).
Proof.
  intros Hb Hd. split; [by pose proof (dirty_inv b Hb) as Hi; rewrite Hd in Hi; apply Hi|].
  rewrite dirty_run in Hd by done. destruct (is_dirty b) eqn:Ed.
  - destruct (_config b) as [?|m'] eqn:Ec; [done|]. injection Hd as <- <-.
    apply bool_decide_eq_true in Ed. simpl. rewrite Ec. by split_and!.
  - destruct (is_readonly b); [done|].
    destruct (increment (_config b)) as [m'|] eqn:Ei; [|done]. injection Hd as <- <-.
    apply increment_callbacks in Ei. simpl. rewrite retire_keys, retire_multiparts. by split_and!.
Qed.

Lemma update_data_inv f : preserves config_inv (update_data f).
Proof.
  unfold update_data. apply preserves_bind_dep; [apply dirty_inv|].
  intros b m b' Hb Hd Hb' _. apply dirty_Ok in Hd as (_ & Hc & Hst & _); [|done].
  simpl. apply with_config_inv; [done|by rewrite Hc|eauto].
Qed.

(** ** Encryption keys *)
Lemma has_key_inv k : preserves config_inv (has_key k).
Proof. unfold has_key. apply preserves_bind; eauto with preserves. Qed.

Lemma with_keys_inv f :
  (∀ b, config_inv b → NoDup (f b) ∧ Forall (λ k, size k = 32) (f b)) →
  preserves config_inv (modify (λ b, with_enc_keys (f b) b)).
Proof. intros Hf. apply preserves_modify. intros b Hb. pose proof (Hf b Hb). destruct Hb. by split. Qed.

Lemma dirty_unit_inv c : preserves config_inv (when c (dirty;; skip)).
Proof. apply preserves_when, preserves_bind; [apply dirty_inv|]. intros _. apply preserves_ret. Qed.

Lemma removed_sublist (f : bytes → bool) from (l : list bytes) :
  sublist (take from l ++ List.filter f (drop from l)) l.
Proof.
  rewrite <-(take_drop from l) at 3. apply sublist_app; [done|].
  induction (drop from l) as [|x xs IH]; simpl; [done|].
  destruct (f x); [by apply sublist_skip|by apply sublist_cons].
Qed.

Lemma keys_sublist (l' l : list bytes) :
  sublist l' l → NoDup l ∧ Forall (λ k, size k = 32) l →
  NoDup l' ∧ Forall (λ k, size k = 32) l'.
Proof.
  intros Hs [Hn Hf]. split; [by eapply sublist_NoDup|].
  rewrite Forall_forall in *. intros k Hk. apply Hf. by eapply elem_of_submseteq, sublist_submseteq.
Qed.

Lemma remove_key_inv key from d : preserves config_inv (remove_key key from d).
Proof.
  apply preserves_read. intros b Hb. destruct (_ <=? _)%nat; [done|].
  at_state Hb. apply preserves_bind; [apply preserves_guard|intros _].
  apply preserves_bind.
  - apply (with_keys_inv (λ _, _)). intros _ _.
    eapply keys_sublist; [apply removed_sublist|]. apply Hb.
  - intros _. apply preserves_bind; [apply dirty_unit_inv|]. intros _. apply preserves_gets.
Qed.

(** The key list after [remove_key], from the second position on *)
Lemma remove_key_run key b :
  size key = 32 →
  (remove_key key 1 false b).2 = with_enc_keys
    (match _keys b with k :: ks => k :: List.filter (λ k, negb (keqb key k)) ks | [] => [] end) b ∧
  ∃ r, (remove_key key 1 false b).1 = Ok r.
Proof.
  intros Hk. unfold remove_key. assert (stake 32 key = key) as ->
    by (apply stake_all; unfold size in Hk; lia).
  unfold mbind, M_bind, mget, guard_, when, modify, gets, skip, mret, M_ret. rewrite Hk.
  destruct b as [c st keys ch oh mp nd pk sk w r]. simpl.
  destruct keys as [|k [|k2 ks]]; simpl; by eauto.
Qed.

(** The key list after [add_key], or nothing when there is nothing to do *)
Definition keys_with (key : bytes) (hp : bool) (keys : list bytes) : option (list bytes) :=
  if match keys with k :: _ => keqb k key | [] => false end then None
  else if negb hp && existsb (keqb key) keys then None
  else Some (if hp then key :: match keys with
                               | k :: ks => k :: List.filter (λ k, negb (keqb key k)) ks
                               | [] => [] end
             else keys ++ [key]).

Lemma add_key_run key hp d b :
  size key = 32 →
  add_key key hp d b =
    match keys_with key hp (_keys b) with
    | None => (Ok tt, b)
    | Some ks => when (d && negb (is_readonly b) && ((length ks =? 1)%nat || hp)) (dirty;; skip)
                   (with_enc_keys ks b)
    end.
Proof.
  intros Hk. unfold add_key, keys_with. unfold mbind at 1, M_bind, guard_. unfold KEY_SIZE.
  rewrite Hk. simpl. unfold mbind at 1, M_bind, mget.
  destruct (match _keys b with k :: _ => keqb k key | [] => false end); [done|].
  destruct hp; simpl.
  - unfold mbind at 1, M_bind, mret, M_ret. unfold mbind at 1, M_bind, when.
    unfold mbind at 1, M_bind. destruct (remove_key_run key b Hk) as [Hs [r Hr]].
    destruct (remove_key key 1 false b) as [r' b']. simpl in *. subst. simpl. done.
  - unfold mbind at 1, M_bind, has_key. unfold mbind at 1, M_bind, guard_. rewrite Hk. simpl.
    unfold gets. destruct (existsb (keqb key) (_keys b)); [done|]. done.
Qed.

Lemma keys_with_ok key hp keys ks :
  keys_with key hp keys = Some ks → size key = 32 →
  NoDup keys ∧ Forall (λ k, size k = 32) keys → NoDup ks ∧ Forall (λ k, size k = 32) ks.
Proof.
  unfold keys_with. intros Hw Hk [Hnd Hsz].
  destruct (match keys with k :: _ => keqb k key | [] => false end) eqn:Ef; [done|].
  destruct (negb hp && existsb (keqb key) keys) eqn:Ee; [done|].
  injection Hw as <-. destruct hp; simpl in Ee.
  - destruct keys as [|k keys]; [by split; [apply NoDup_singleton|constructor]|].
    apply NoDup_cons in Hnd as [Hk' Hnd]. apply Forall_cons in Hsz as [Hksz Hsz].
    assert (sublist (List.filter (λ k, negb (keqb key k)) keys) keys) as Hsub
      by apply (removed_sublist _ 0).
    destruct (keys_sublist _ keys Hsub) as [Hn2 Hs2]; [done|]. split; [|by repeat constructor].
    apply NoDup_cons. split; [|apply NoDup_cons; split; [|done]].
    + rewrite elem_of_cons. intros [->|Hin]; [by rewrite keqb_refl in Ef|].
      apply list_elem_of_In, filter_In in Hin as [_ Hin]. by rewrite keqb_refl in Hin.
    + intros Hin. apply Hk'. by eapply elem_of_submseteq, sublist_submseteq.
  - split; [|by apply Forall_app; split; [|repeat constructor]].
    apply NoDup_app. split_and!; [done| |apply NoDup_singleton].
    intros k Hin [->|?%not_elem_of_nil]%elem_of_cons; [|done].
    enough (existsb (keqb key) keys = true) by congruence.
    apply existsb_exists. exists key. split; [by apply list_elem_of_In|by apply keqb_refl].
Qed.

Lemma add_key_inv key hp d : preserves config_inv (add_key key hp d).
Proof.
  intros b Hb. destruct (Z.eqb_spec (size key) 32) as [Hk|Hk].
  - rewrite add_key_run by done. destruct (keys_with key hp (_keys b)) as [ks|] eqn:E; [|done].
    assert (config_inv (with_enc_keys ks b)) as Hb'.
    { pose proof (keys_with_ok _ _ _ _ E Hk (inv_keys _ Hb)). destruct Hb. by split. }
    at_state Hb'. apply dirty_unit_inv.
  - unfold add_key, KEY_SIZE, guard_. apply Z.eqb_neq in Hk as ->. done.
Qed.

Lemma no_keys_inv : preserves config_inv (modify (with_enc_keys [])).
Proof. apply (with_keys_inv (λ _, [])). intros _ _. split; [apply NoDup_nil_2|constructor]. Qed.

Lemma clear_keys_inv d : preserves config_inv (clear_keys d).
Proof.
  apply preserves_read. intros b Hb. at_state Hb. apply preserves_bind; [apply no_keys_inv|intros _].
  apply preserves_bind; [apply dirty_unit_inv|]. intros _. apply preserves_ret.
Qed.

Lemma replace_keys_inv new_keys d : preserves config_inv (replace_keys new_keys d).
Proof.
  apply preserves_read. intros b Hb. destruct new_keys as [|k ks]; at_state Hb.
  - destruct (is_nil (_keys b)); [apply preserves_ret|].
    apply preserves_bind; [apply clear_keys_inv|]. intros _. apply preserves_ret.
  - apply preserves_bind; [apply preserves_guard|intros _].
    apply preserves_bind; [apply no_keys_inv|intros _].
    apply preserves_bind; [|intros _; apply dirty_unit_inv].
    apply preserves_forM. intros x _. apply add_key_inv.
Qed.
End preserved.

(** ** Multipart sets *)
Lemma insert_part_elem p l l' q :
  insert_part p l = Some l' → q ∈ l' ↔ q = p ∨ q ∈ l.
Proof.
  revert l'; induction l as [|r l IH]; intros l' Hi; simpl in Hi; [injection Hi as <-; set_solver|].
  destruct (index r <? index p).
  - destruct (insert_part p l) as [l2|]; [|done]. injection Hi as <-.
    specialize (IH l2 eq_refl). set_solver.
  - destruct (index r =? index p); [done|]. injection Hi as <-. set_solver.
Qed.

Lemma ascending_cons p l :
  ascending (p :: l) = true ↔ Forall (λ q, index p < index q) l ∧ ascending l = true.
Proof.
  revert p; induction l as [|q l IH]; intros p; [by split; [split; [constructor|]|]|].
  change (ascending (p :: q :: l)) with ((index p <? index q) && ascending (q :: l)).
  rewrite andb_true_iff, Z.ltb_lt, IH, Forall_cons.
  split; [|naive_solver]. intros [Hlt [Hf Ha]]. split_and!; try done.
  eapply Forall_impl; [exact Hf|]. simpl. lia.
Qed.

Lemma insert_part_ascending p l l' :
  insert_part p l = Some l' → ascending l = true → ascending l' = true.
Proof.
  revert l'; induction l as [|r l IH]; intros l' Hi Ha; simpl in Hi; [by injection Hi as <-|].
  pose proof Ha as [Hf Ha']%ascending_cons.
  destruct (Z.ltb_spec (index r) (index p)).
  - destruct (insert_part p l) as [l2|] eqn:E; [|done]. injection Hi as <-.
    apply ascending_cons. split; [|by apply IH].
    apply Forall_forall. intros q Hq. apply (insert_part_elem _ _ _ _ E) in Hq as [->|Hq]; [done|].
    rewrite Forall_forall in Hf. auto.
  - destruct (Z.eqb_spec (index r) (index p)); [done|]. injection Hi as <-.
    apply ascending_cons. split; [|done]. constructor; [lia|].
    eapply Forall_impl; [exact Hf|]. simpl. lia.
Qed.

Lemma parts_ok_spec p :
  parts_ok p = true ↔
    (done p = true → parts p = []) ∧ ascending (parts p) = true ∧
    ∀ q, q ∈ parts p → 0 ≤ index q < psize p.
Proof.
  unfold parts_ok. rewrite !andb_true_iff, forallb_forall. setoid_rewrite <-list_elem_of_In.
  split.
  - intros [[Hd Ha] Hf]. split_and!; [|done|].
    + intros Hd'. rewrite Hd' in Hd. by destruct (parts p).
    + intros q Hq. specialize (Hf q Hq). lia.
  - intros (Hd & Ha & Hf). split_and!; [|done|].
    + destruct (done p); [|done]. by rewrite Hd.
    + intros q Hq. specialize (Hf q Hq). lia.
Qed.

Lemma byte_at0_range s : 0 ≤ byte_at0 s < 256.
Proof.
  destruct s as [|c s]; simpl; [lia|]. pose proof (N_ascii_bounded c). lia.
Qed.

Section multipart_inv.
Context `{BtLib, Hash, Zstd}.

Lemma parse_part_ok msg h i n d :
  parse_part msg = Ok (h, i, n, d) → size h = 32 ∧ 0 ≤ i < n ∧ 2 ≤ n ≤ 255 ∧ 0 < size d.
Proof.
  unfold parse_part. intros Hp. inv_result.
  repeat (case_match; inv_result; try discriminate).
  repeat match goal with H : negb _ = true |- _ => apply negb_true_iff in H end.
  pose proof (byte_at0_range s0). pose proof (byte_at0_range s1). pose proof (size_nonneg d).
  repeat match goal with
    | H : (_ || _)%bool = false |- _ => apply orb_false_iff in H as [? ?]
    end.
  split_and!; lia.
Qed.

Lemma put_parts_inv h p : parts_ok p = true → preserves config_inv (put_parts h p).
Proof.
  intros Hp. apply preserves_modify. intros b [? ? ? ? ? ? [Hs Hps]]. split; simpl; auto.
  split; [auto with ordmap|]. intros h' p' Hin.
  apply mfind_In in Hin; [|auto with ordmap]. rewrite mfind_insert in Hin.
  destruct (keqb h' h); [by injection Hin as <-|]. by eapply Hps, mfind_Some_In.
Qed.

Lemma finish_ok now t p : parts_ok (finish now t p) = true.
Proof. done. Qed.

Lemma found_parts_ok b h : config_inv b → parts_ok (default no_parts (mfind h (_multiparts b))) = true.
Proof.
  intros Hb. destruct (mfind h (_multiparts b)) as [p|] eqn:E; [|done]. simpl.
  apply (inv_parts _ Hb) with h. by apply mfind_Some_In.
Qed.

Lemma handle_part_inv now msg_id message : preserves config_inv (handle_part now msg_id message).
Proof.
  unfold handle_part. apply preserves_bind_dep; [apply preserves_lift|].
  intros b0 [[[h i] n] d] b1 _ Hl. unfold lift in Hl. injection Hl as Hp _. intros Hb1.
  apply parse_part_ok in Hp as (_ & Hi & Hn & _).
  at_state Hb1. apply preserves_read. intros b Hb. pose proof (found_parts_ok b h Hb) as Hok.
  set (p := default no_parts (mfind h (_multiparts b))) in *. pose proof Hok as (Hd & Ha & Hf)%parts_ok_spec.
  at_state Hb. apply preserves_bind; [by apply put_parts_inv|intros _].
  destruct (done p) eqn:Ed; [apply preserves_ret|].
  assert (∀ q, q ∈ parts p → is_nil (parts p) || (n =? psize p) = true →
            0 ≤ index q < (if is_nil (parts p) then n else psize p)) as Hsz.
  { intros q Hq _. specialize (Hf q Hq). destruct (parts p); [by apply not_elem_of_nil in Hq|done]. }
  unfold guard_. destruct (is_nil (parts p) || (n =? psize p)) eqn:Eg;
    [|by intros b' Hb' _].
  apply preserves_bind; [apply preserves_ret|intros _].
  set (sz := if is_nil (parts p) then n else psize p) in *.
  assert (0 ≤ i < sz) as Hisz.
  { unfold sz. destruct (is_nil (parts p)) eqn:En; [done|]. simpl in Eg. lia. }
  apply preserves_bind; [apply put_parts_inv, parts_ok_spec; split_and!; simpl; auto; congruence|intros _].
  destruct (insert_part (mkPart i msg_id d) (parts p)) as [ps|] eqn:Ei; [|apply preserves_ret].
  assert (∀ e, parts_ok (mkParts false sz ps e) = true) as Hps.
  { intros e. apply parts_ok_spec. simpl. split_and!; [done|by eapply insert_part_ascending|].
    intros q Hq. apply (insert_part_elem _ _ _ _ Ei) in Hq as [->|Hq]; [done|auto]. }
  apply preserves_bind; [by apply put_parts_inv|intros _].
  apply preserves_bind; [apply inv_needs_dump|intros _].
  destruct (Z.of_nat (length ps) =? sz).
  - apply preserves_bind; [apply preserves_guard|intros _].
    apply preserves_bind; [apply put_parts_inv, finish_ok|intros _].
    apply preserves_bind; [apply preserves_lift|]. intros ?. apply preserves_ret.
  - apply preserves_bind; [by apply put_parts_inv|intros _]. apply preserves_ret.
Qed.

Lemma handle_multipart_inv now msg_id message :
  preserves config_inv (_handle_multipart now msg_id message).
Proof.
  apply preserves_catch; [|intros ?; apply preserves_ret].
  apply preserves_bind; [apply handle_part_inv|]. intros ?. apply preserves_ret.
Qed.

Lemma expire_multiparts_inv now : preserves config_inv (_expire_multiparts now).
Proof.
  apply preserves_modify. intros b [? ? ? ? ? ? [Hs Hps]]. split; simpl; auto.
  split; [by apply msorted_filter|]. intros h p Hin%list_elem_of_In%filter_In.
  destruct Hin as [Hin _]. by eapply Hps, list_elem_of_In.
Qed.
End multipart_inv.

(** ** Merging, pushing and dumping *)
Section operations_inv.
Context `{BtLib, Hash, Aead, Zstd, Ed25519, ProtoWrap}.
Context (kind : Kind).

Lemma serialize_config_inv en : preserves config_inv (serialize_config en).
Proof.
  apply preserves_read. intros b Hb. unfold mbind, M_bind, lift.
  destruct (serialize (_config b) en) as [[s a]|e] eqn:E; [|done]. intros _. simpl.
  apply serialize_callbacks in E as (Hc & _ & Hm). apply with_config_inv; [done..|].
  intros Hd. destruct (inv_dirty _ Hb Hd) as [m Hcm]. eauto.
Qed.

(** Serializing changes nothing but the message it goes through. *)
Lemma serialize_config_frame en b s b' :
  serialize_config en b = (Ok s, b') →
  ∃ a, serialize (_config b) en = Ok (s, a) ∧ b' = with_config a b ∧
    callbacks a = callbacks (_config b) ∧ seqno (as_base a) = seqno (config_of b).
Proof.
  unfold serialize_config, mbind, M_bind, mget, lift, modify, mret, M_ret.
  destruct (serialize (_config b) en) as [[s' a]|e] eqn:E; [|done]. simpl.
  intros [= <- <-]. apply serialize_callbacks in E as (? & ? & _). eauto.
Qed.

Lemma process_plain_inv now hash plain i : preserves config_inv (process_plain now hash plain i).
Proof.
  unfold process_plain. destruct (strip_padding plain) as [|c rest]; [apply preserves_ret|].
  destruct c as [[] [] [] [] [] [] [] []]; try apply preserves_ret.
  - apply preserves_bind; [apply handle_multipart_inv|]. intros [acc comp]. apply preserves_ret.
  - destruct (zstd_decompress rest 0) as [d|]; [|apply preserves_ret].
    destruct d as [|c d]; [apply preserves_ret|].
    destruct c as [[] [] [] [] [] [] [] []]; apply preserves_ret.
Qed.

Lemma process_all_inv now l i : preserves config_inv (process_all now l i).
Proof.
  revert i; induction l as [|[h p] l IH]; intros i; [apply preserves_ret|].
  apply preserves_bind; [apply process_plain_inv|]. intros ?. apply IH.
Qed.

(** Installing a message with the same callbacks, mutable if we are dirty *)
Lemma adopt_inv new_conf old_seqno sup mine all b :
  config_inv b → callbacks new_conf = callbacks (_config b) →
  (is_dirty b = true → ∃ m, new_conf = Mutable m) →
  defined (adopt new_conf old_seqno sup mine all b).1 →
  config_inv (adopt new_conf old_seqno sup mine all b).2.
Proof.
  intros Hb Hc Hm. unfold adopt. destruct (_ =? old_seqno); [done|].
  rewrite run_mget.
  assert (∀ a, callbacks a = callbacks (_config b) → (is_dirty b = true → ∃ m, a = Mutable m) →
            config_inv (with_config a b)) as Hinst.
  { intros a Ha Hd. apply with_config_inv; [done..|]. intros Hst. apply Hd. by apply bool_decide_eq_true. }
  destruct (merged (as_base new_conf)) eqn:Emg.
  - intros _. rewrite run_modify. apply set_state_inv_at; [|intros _].
    + apply Hinst; [destruct (is_dirty b); [done|by destruct new_conf]|].
      intros Hd. rewrite Hd. auto.
    + simpl. destruct (is_dirty b); [auto|by destruct new_conf; eauto].
  - destruct (is_dirty b && mine && _); [done|]. rewrite run_modify.
    assert (config_inv (with_config new_conf b)) as Hb' by auto.
    pose proof (set_state_inv_at Clean _ Hb') as Hs. rewrite run_bind. rewrite set_state_run in *.
    simpl in *. rewrite run_lift.
    destruct (match sup with Some i => _ | None => _ end) as [hs|e]; [intros _|by intros _; apply Hs].
    destruct Hs as [? ? ? ? ? ? ?]; [done|]. by split; simpl; auto with ordmap.
Qed.

Lemma merge_inv now configs : preserves config_inv (_merge kind now configs).
Proof.
  apply preserves_read. intros b0 Hb0. at_state Hb0.
  apply preserves_bind; [apply preserves_guard|intros _].
  apply preserves_bind; [destruct (_ || _); [apply serialize_config_inv|apply preserves_ret]|intros mine].
  apply preserves_bind; [apply preserves_lift|intros plaintexts].
  apply preserves_bind; [apply process_all_inv|intros i].
  apply preserves_bind; [apply expire_multiparts_inv|intros _].
  unfold merge_confs. destruct (is_nil _); [apply preserves_ret|].
  apply preserves_read. intros b Hb. rewrite run_lift.
  match goal with |- context [make_config_message kind ?d ?cs ?v ?s] =>
    destruct (make_config_message kind d cs v s) as [[new_conf bad]|e] eqn:Em; [|done] end.
  apply make_config_message_callbacks in Em as [Hc Hd]. rewrite run_modify.
  match goal with |- context [with_old ?h b] => set (olds := h) in * end.
  assert (config_inv (with_old olds b)) as Hb'.
  { destruct Hb. split; simpl; auto. apply insert_all_sorted. auto. }
  rewrite run_bind.
  match goal with |- context [adopt ?a ?o ?s ?mi ?al (with_old olds b)] =>
    pose proof (adopt_inv a o s mi al (with_old olds b) Hb') as Ha;
    destruct (adopt a o s mi al (with_old olds b)) as [[[]|e] b2] eqn:Ea end; simpl in *.
  - intros _. apply Ha; [done|exact Hd|done].
  - intros He. apply Ha; [done|exact Hd|]. unfold defined in *. congruence.
Qed.

Lemma merge_incoming_inv now configs : preserves config_inv (merge_incoming kind now configs).
Proof.
  apply preserves_read. intros b Hb. at_state Hb.
  destruct (_keys b); [apply merge_inv|]. destruct (accepts_protobuf kind); apply merge_inv.
Qed.

Lemma push_inv now : preserves config_inv (push kind now).
Proof.
  apply preserves_read. intros b Hb. destruct (_keys b) as [|key ks]; [done|]. at_state Hb.
  apply preserves_bind; [apply serialize_config_inv|intros msg].
  apply preserves_bind; [apply preserves_lift|intros msg'].
  apply preserves_bind; [apply preserves_guard|intros _].
  apply preserves_bind; [apply preserves_lift|intros r].
  apply preserves_bind.
  { destruct r.2 as [h|]; [|apply preserves_ret]. apply preserves_modify. intros b1 Hb1.
    by apply (put_parts_inv h (finish now (MULTIPART_MAX_REMEMBER b1)
      (default no_parts (mfind h (_multiparts b1)))) eq_refl b1 Hb1). }
  intros _. apply preserves_bind; [apply preserves_mget|intros b1].
  apply preserves_bind; [apply preserves_when; by apply set_state_inv|intros _].
  apply preserves_bind; [apply preserves_mget|intros b2].
  apply preserves_bind; [by apply (inv_with_old (λ _, []))|]. intros _. apply preserves_ret.
Qed.

Lemma confirm_pushed_inv s hs : preserves config_inv (confirm_pushed s hs).
Proof.
  apply preserves_read. intros b Hb. at_state Hb. apply preserves_when. clear Hb b.
  intros b Hb _. pose proof (set_state_inv_at Clean b Hb) as Hs. rewrite run_bind.
  rewrite set_state_run in *. simpl in *.
  destruct Hs as [? ? ? ? ? ? ?]; [done|]. by split; simpl; auto with ordmap.
Qed.

Lemma old_hashes_inv : preserves config_inv old_hashes.
Proof.
  apply preserves_read. intros b Hb. at_state Hb. destruct (is_dirty b); [apply preserves_ret|].
  apply preserves_bind; [by apply (inv_with_old (λ _, []))|]. intros _. apply preserves_ret.
Qed.

Lemma dump_inv now extra : preserves config_inv (dump now extra).
Proof.
  apply preserves_read. intros b Hb. at_state Hb.
  apply preserves_bind; [by apply preserves_when, (inv_with_old (λ _, []))|intros _].
  apply preserves_bind; [apply expire_multiparts_inv|intros _].
  apply preserves_bind.
  { apply preserves_bind; [apply serialize_config_inv|]. intros ?. apply preserves_gets. }
  intros d. apply preserves_bind; [apply inv_needs_dump|]. intros _. apply preserves_ret.
Qed.

(** ** Signing keys *)

(** New callbacks, and the keys they are for *)
Definition with_callbacks (v : verify_callable) (sg : sign_callable) (pk sk : option bytes) (b : ConfigBase) : ConfigBase :=
  with_config (on_base (with_keys v sg) (_config b)) (with_sig pk sk b).

Lemma with_callbacks_inv v sg pk sk b :
  config_inv b → (is_some v && negb (is_some sg) = true → _state b ≠ Dirty) → config_inv (with_callbacks v sg pk sk b).
Proof.
  intros [Hd Hro ? ? ? ? ?] Hc. split; simpl; auto.
  - intros Hst. destruct (Hd Hst) as [m Hm]. rewrite Hm. simpl. by eexists.
  - intros Hr. apply Hc. rewrite <-Hr. unfold is_readonly, config_of. simpl. by destruct (_config b).
Qed.

Lemma clear_sig_keys_run b : clear_sig_keys b = (Ok tt, with_callbacks None None None None b).
Proof. unfold clear_sig_keys, set_signer, set_verifier, with_callbacks. rewrite !run_modify. simpl. by destruct (_config b). Qed.

Lemma set_sig_keys_run secret b :
  set_sig_keys secret b =
    if size secret =? 64
    then (Ok tt, with_callbacks (pk_verifier (sk_to_pk secret)) (sk_signer secret) (Some (sk_to_pk secret)) (Some secret) b)
    else (Throw invalid_argument, b).
Proof.
  unfold set_sig_keys. rewrite run_guard. destruct (size secret =? 64); [|done]. rewrite run_bind, clear_sig_keys_run.
  unfold set_signer, set_verifier, with_callbacks. rewrite !run_modify. simpl. by destruct (_config b).
Qed.

Lemma set_sig_pubkey_run pk b :
  set_sig_pubkey pk b =
    if size pk =? 32
    then (Ok tt, with_callbacks (pk_verifier pk) (signer (config_of b)) (Some pk) (_sign_sk b) b)
    else (Throw invalid_argument, b).
Proof.
  unfold set_sig_pubkey. rewrite run_guard. destruct (size pk =? 32); [|done].
  by destruct b as [[c|c]].
Qed.

Lemma new_sig_keys_inv secret : preserves config_inv (set_sig_keys secret).
Proof.
  intros b Hb _. rewrite set_sig_keys_run. destruct (size secret =? 64); [|done].
  apply with_callbacks_inv; [done|]. unfold pk_verifier, sk_signer. done.
Qed.

Lemma clear_sig_keys_inv : preserves config_inv clear_sig_keys.
Proof. intros b Hb _. rewrite clear_sig_keys_run. by apply with_callbacks_inv. Qed.

(** With a public key only, the object must not be dirty, unless it can sign. *)
Lemma set_sig_pubkey_inv pk b :
  config_inv b → (_state b = Dirty → is_some (signer (config_of b)) = true) → config_inv (set_sig_pubkey pk b).2.
Proof.
  intros Hb Hs. rewrite set_sig_pubkey_run. destruct (size pk =? 32); [|done]. apply with_callbacks_inv; [done|].
  intros [_ Hn]%andb_true_iff Hst. by rewrite (Hs Hst) in Hn.
Qed.

(** The keys passed to the constructor *)
Lemma given_sig_keys_inv pk sk b u b' :
  config_inv b → (_state b = Dirty → sk = None → pk = None) → init_sig_keys pk sk b = (Ok u, b') → config_inv b'.
Proof.
  intros Hb Hc Hi. destruct sk as [sk|], pk as [pk|]; cbn [init_sig_keys] in Hi.
  - rewrite run_guard in Hi. destruct (32 <=? size sk); [|done]. destruct (negb _); [done|].
    pose proof (new_sig_keys_inv sk b Hb) as Hk. rewrite Hi in Hk. by apply Hk.
  - pose proof (new_sig_keys_inv sk b Hb) as Hk. rewrite Hi in Hk. by apply Hk.
  - pose proof (set_sig_pubkey_inv pk b Hb) as Hk. rewrite Hi in Hk. apply Hk. intros Hst. by specialize (Hc Hst eq_refl).
  - pose proof (clear_sig_keys_inv b Hb) as Hk. rewrite Hi in Hk. by apply Hk.
Qed.

(** ** Restarting from a dump *)

(** What a dump holds *)
Definition dump_dict (now : Z) (extra : bt_dict) (dat : bytes) (b : ConfigBase) : bt_dict :=
  [("!", BtInt (state_to_int (_state b))); ("$", BtStr dat); ("(", BtList (BtStr <$> _curr_hashes b));
   (")", BtList (BtStr <$> _old_hashes b)); ("*", BtDict (_dump_multiparts now b)); ("+", BtDict extra)].

(** The state and the numbers of the multipart sets are within the types they
    have, and the derived class adds well-formed data of its own. *)
Definition dump_fits (extra : bt_dict) (b : ConfigBase) : Prop :=
  in_int64 (state_to_int (_state b)) = true ∧ bt_canon (BtDict extra) = true ∧
  ∀ h p, (h, p) ∈ _multiparts b → in_int64 (epoch_ms (expiry p)) = true ∧ in_int64 (psize p) = true.

Lemma make_dump_Ok now extra b raw b1 :
  make_dump now extra b = (Ok raw, b1) → ∃ dat, raw = bt_dump (dump_dict now extra dat b).
Proof.
  unfold make_dump, serialize_config. intros Hd. apply M_bind_Ok in Hd as (dat & b' & Hs & Hg).
  rewrite run_mget, run_lift in Hs. destruct (serialize _ _) as [[s a]|]; [|done].
  rewrite run_modify in Hs. injection Hs as <- <-. injection Hg as <- _. by exists s.
Qed.

Lemma dump_Ok now extra b raw b1 :
  dump now extra b = (Ok raw, b1) →
  ∃ dat b', raw = bt_dump (dump_dict now extra dat b') ∧ _state b' = _state b ∧
    _curr_hashes b' = _curr_hashes b ∧ _multiparts b' = List.filter (live now) (_multiparts b).
Proof.
  unfold dump. rewrite run_mget, run_when. intros Hd.
  assert (∃ b0, _state b0 = _state b ∧ _curr_hashes b0 = _curr_hashes b ∧ _multiparts b0 = _multiparts b ∧
    (_expire_multiparts now;; d ← make_dump now extra; modify (with_needs_dump false);; mret d) b0 = (Ok raw, b1))
    as (b0 & Hs & Hc & Hm & Hd').
  { destruct (is_readonly b); [exists (with_old [] b)|exists b]; done. }
  unfold _expire_multiparts in Hd'. rewrite run_modify in Hd'. apply M_bind_Ok in Hd' as (d & b' & He & Hd').
  apply make_dump_Ok in He as [dat ->]. injection Hd' as <- _. eexists dat, _. split; [done|]. split; [done|].
  split; [done|]. simpl. by rewrite Hm.
Qed.

Section load.
Context `{!BtLaws}.

Lemma bt_int32_id z y : in_int64 z = true → bt_int32 (BtInt z) = Ok y → y = z.
Proof. intros Hz. simpl. rewrite consume_int64_fits by done. rewrite bind_ret. destruct (_ && _); [by intros [= <-]|done]. Qed.

Lemma load_parts_id l ps :
  Forall (λ q, in_int64 (index q) = true) l → mapR load_part (bt_of_part <$> l) = Ok ps → ps = l.
Proof.
  intros Hf. revert ps; induction Hf as [|q l Hq Hf IH]; intros ps; [by intros [= <-]|].
  rewrite fmap_cons. cbn [mapR]. intros Hm. inv_result. rewrite (IH _ E0). f_equal.
  cbn [bt_of_part load_part] in E. apply bind_Ok in E as (i & Hi & E). apply bt_int32_id in Hi as ->; [|done].
  simpl in E. injection E as <-. by destruct q.
Qed.

Lemma index_fits p q : parts_ok p = true → in_int64 (psize p) = true → q ∈ parts p → in_int64 (index q) = true.
Proof.
  unfold parts_ok. rewrite !andb_true_iff, forallb_forall. intros [_ Hi] Hp Hq%list_elem_of_In.
  specialize (Hi q Hq). apply andb_true_iff in Hi as [H1'%Z.leb_le H2'%Z.ltb_lt].
  apply in_int64_spec. apply in_int64_spec in Hp. unfold int64_min, int64_max in *. lia.
Qed.

(** A multipart set is read back as it was, a finished one as an empty one. *)
Lemma load_parts_ok now k p pm :
  parts_ok p = true → in_int64 (psize p) = true → load_parts now k (bt_of_parts p) = Ok (Some pm) → parts_ok pm = true.
Proof.
  intros Hok Hsz Hl. unfold load_parts, bt_of_parts in Hl. destruct (negb (size k =? 32)); [done|].
  unfold require_key in Hl. cbn [skip_until] in Hl. change (klt "#" "#") with false in Hl. cbv iota in Hl.
  change (keqb "#" "#") with true in Hl. cbv iota in Hl. rewrite bind_ret in Hl. apply bind_Ok in Hl as (sz & Hs & Hl).
  apply bt_int32_id in Hs; [|by destruct (done p)].
  cbn [skip_until] in Hl. change (klt "T" "T") with false in Hl. change (keqb "T" "T") with true in Hl. cbv iota in Hl.
  rewrite bind_ret in Hl. apply bind_Ok in Hl as (t & _ & Hl). destruct (_ <? now); [done|].
  apply bind_Ok in Hl as (ps & Hps & Hl). injection Hl as <-. unfold parts_ok. cbn [done psize parts].
  destruct (Z.ltb_spec 0 sz) as [Hpos|]; [|injection Hps as <-; done].
  destruct (done p) eqn:Ed; [lia|]. subst sz. cbn [skip_until] in Hps.
  change (klt "p" "p") with false in Hps. change (keqb "p" "p") with true in Hps. cbv iota in Hps. rewrite bind_ret in Hps.
  apply load_parts_id in Hps as ->.
  - unfold parts_ok in Hok. rewrite Ed in Hok. done.
  - apply Forall_forall. intros q. by apply index_fits.
Qed.

Lemma load_multiparts_inv now multi :
  (∀ h v, (h, v) ∈ multi → ∃ p, v = bt_of_parts p ∧ parts_ok p = true ∧ in_int64 (psize p) = true) →
  preserves config_inv (_load_multiparts now multi).
Proof.
  intros Hm. unfold _load_multiparts. apply preserves_forM. intros [h v] Hin.
  destruct (Hm h v Hin) as (p & -> & Hok & Hsz). intros b Hb _. cbn [fst snd]. rewrite run_lift.
  destruct (load_parts now h (bt_of_parts p)) as [[pm|]|] eqn:E; [|done..].
  by apply (put_parts_inv h pm (load_parts_ok _ _ _ _ Hok Hsz E) b Hb).
Qed.
End load.

(** ** Reachable states *)

(** The operations a client of a config object can call, at any time *)
Inductive op :=
  | OpEdit (f : dict → dict)
  | OpMerge (now : Z) (configs : list (bytes * bytes))
  | OpPush (now : Z)
  | OpConfirm (s : Z) (hashes : list bytes)
  | OpDump (now : Z) (extra : bt_dict)
  | OpOldHashes
  | OpAddKey (key : bytes) (high_priority dirty_config : bool)
  | OpRemoveKey (key : bytes) (from : nat) (dirty_config : bool)
  | OpReplaceKeys (keys : list bytes) (dirty_config : bool)
  | OpClearKeys (dirty_config : bool)
  | OpLoadKey (ed25519_secretkey : bytes)
  | OpSetSigKeys (secret : bytes)
  | OpSetSigPubkey (pubkey : bytes)
  | OpClearSigKeys
  | OpSetWaits (wait remember : Z).

(** The public members that say how long parts are kept are assigned. *)
Definition with_waits (wait remember : Z) (b : ConfigBase) : ConfigBase :=
  mkConfigBase (_config b) (_state b) (_keys b) (_curr_hashes b) (_old_hashes b) (_multiparts b)
    (_needs_dump b) (_sign_pk b) (_sign_sk b) wait remember.

Definition run_op (o : op) : M ConfigBase () :=
  match o with
  | OpEdit f => update_data f
  | OpMerge now cs => merge_incoming kind now cs;; skip
  | OpPush now => push kind now;; skip
  | OpConfirm s hs => confirm_pushed s hs
  | OpDump now extra => dump now extra;; skip
  | OpOldHashes => old_hashes;; skip
  | OpAddKey k hp d => add_key k hp d
  | OpRemoveKey k from d => remove_key k from d;; skip
  | OpReplaceKeys ks d => replace_keys ks d
  | OpClearKeys d => clear_keys d;; skip
  | OpLoadKey sk => load_key sk
  | OpSetSigKeys sk => set_sig_keys sk
  | OpSetSigPubkey pk => set_sig_pubkey pk
  | OpClearSigKeys => clear_sig_keys
  | OpSetWaits w r => modify (with_waits w r)
  end.

(** The one restriction: a dirty object that cannot sign is not given a public
    key that its messages have to be signed for. *)
Definition allowed (o : op) (b : ConfigBase) : Prop :=
  match o with OpSetSigPubkey _ => _state b = Dirty → is_some (signer (config_of b)) = true | _ => True end.

(** A step is one call with a defined outcome, a returned value or an
    exception. *)
Inductive step : ConfigBase → ConfigBase → Prop :=
  | step_op o b : allowed o b → defined (run_op o b).1 → step b (run_op o b).2.

(** A new object with the given signing keys, or one made from a dump of an
    object that was reachable, and then any number of calls. As above, a dump of
    a dirty object is not loaded with a public key alone. *)
Inductive reachable : ConfigBase → Prop :=
  | reach_new now pk sk m0 x b :
      init kind now None pk sk (fresh m0) = (Ok x, b) → reachable b
  | reach_load b0 now0 extra raw b1 now pk sk m0 x b :
      reachable b0 → dump_fits extra b0 →
      dump now0 extra b0 = (Ok raw, b1) ∨ make_dump now0 extra b0 = (Ok raw, b1) →
      init kind now (Some raw) pk sk (fresh m0) = (Ok x, b) →
      (_state b = Dirty → sk = None → pk = None) → reachable b
  | reach_step b b' : reachable b → step b b' → reachable b'.

Lemma load_key_inv sk : preserves config_inv (load_key sk).
Proof. apply preserves_bind; [apply preserves_guard|intros _]. apply add_key_inv. Qed.

Lemma run_op_inv o b : allowed o b → config_inv b → defined (run_op o b).1 → config_inv (run_op o b).2.
Proof.
  intros Ha Hb. destruct o; cbn [allowed run_op] in Ha |- *.
  13: { intros _. by apply set_sig_pubkey_inv. }
  all: at_state Hb.
  - apply update_data_inv.
  - apply preserves_bind; [apply merge_incoming_inv|]. intros ?. apply preserves_ret.
  - apply preserves_bind; [apply push_inv|]. intros ?. apply preserves_ret.
  - apply confirm_pushed_inv.
  - apply preserves_bind; [apply dump_inv|]. intros ?. apply preserves_ret.
  - apply preserves_bind; [apply old_hashes_inv|]. intros ?. apply preserves_ret.
  - apply add_key_inv.
  - apply preserves_bind; [apply remove_key_inv|]. intros ?. apply preserves_ret.
  - apply replace_keys_inv.
  - apply preserves_bind; [apply clear_keys_inv|]. intros ?. apply preserves_ret.
  - apply load_key_inv.
  - apply new_sig_keys_inv.
  - apply clear_sig_keys_inv.
  - apply preserves_modify. clear b Ha Hb. inv_same.
Qed.

(** A new object is clean, with no hashes, keys or parts. *)
Lemma init_new_inv now pk sk m0 x b :
  init kind now None pk sk (fresh m0) = (Ok x, b) → config_inv b ∧ _state b = Clean.
Proof.
  unfold init. rewrite M_bind_Ok. intros (x1 & b1 & K1 & K2).
  apply M_bind_Ok in K2 as (u & b2 & K2 & K3). injection K3 as _ <-.
  apply M_bind_Ok in K1 as (m & b1' & Hm & K1). unfold lift in Hm. injection Hm as Hm <-.
  apply M_bind_Ok in K1 as (u1 & b3 & K1 & K4). injection K1 as _ <-. injection K4 as _ <-.
  destruct sk as [sk|], pk as [pk|]; cbn [init_sig_keys] in K2; rewrite ?run_guard in K2.
  1: destruct (32 <=? size sk); [|done].
  all: repeat match goal with
    | H : (if ?c then _ else _) _ = (Ok _, _) |- _ => destruct c; [done|]
    end.
  all: unfold set_sig_keys, set_sig_pubkey, clear_sig_keys, set_signer, set_verifier, guard_, mbind,
    M_bind, modify, skip, mret, M_ret, throw in K2.
  all: repeat match goal with
    | H : context [if ?c then _ else _] |- _ => destruct c; [|done]
    end.
  all: injection K2 as _ <-; split; [|done]; split; simpl; try done.
  all: first [by split; [apply NoDup_nil_2|apply Forall_nil_2]
              | by split; [|intros h p ?%not_elem_of_nil]].
Qed.

Lemma init_sig_keys_state pk sk b u b' : init_sig_keys pk sk b = (Ok u, b') → _state b' = _state b.
Proof.
  intros Hi. destruct sk as [sk|], pk as [pk|]; cbn [init_sig_keys] in Hi.
  - rewrite run_guard in Hi. destruct (32 <=? size sk); [|done]. destruct (negb _); [done|].
    rewrite set_sig_keys_run in Hi. destruct (_ =? _); [|done]. by injection Hi as _ <-.
  - rewrite set_sig_keys_run in Hi. destruct (_ =? _); [|done]. by injection Hi as _ <-.
  - rewrite set_sig_pubkey_run in Hi. destruct (_ =? _); [|done]. by injection Hi as _ <-.
  - rewrite clear_sig_keys_run in Hi. by injection Hi as _ <-.
Qed.

Lemma load_config_kind st dat m : load_config kind st dat = Ok m → callbacks m = (None, None) ∧ (st = Dirty → ∃ mm, m = Mutable mm).
Proof.
  unfold load_config. destruct (bool_decide_reflect (st = Dirty)) as [Hd|Hd]; intros Hl; inv_result.
  - split; [|eauto]. unfold load_mutable in E. inv_pairs. apply merge_mutable_callbacks in E0 as [Hv Hs].
    unfold callbacks. simpl. by rewrite Hv, Hs.
  - split; [|done]. apply parse_message_callbacks in E as [Hv Hs]. unfold callbacks. simpl. by rewrite Hv, Hs.
Qed.

Section restart.
Context `{!BtLaws}.

Lemma load_strings l hs : mapR bt_str (BtStr <$> l) = Ok hs → hs = l.
Proof.
  revert hs; induction l as [|x l IH]; intros hs; [by intros [= <-]|]. rewrite fmap_cons. cbn [mapR bt_str]. rewrite bind_ret.
  intros Hm. inv_result. by rewrite (IH _ E).
Qed.

Lemma hashes_canon (l : list bytes) : bt_canon (BtList (BtStr <$> l)) = true.
Proof. simpl. apply forallb_forall. intros v Hv%list_elem_of_In%list_elem_of_fmap. by destruct Hv as (x & -> & _). Qed.

Lemma parts_canon p :
  parts_ok p = true → in_int64 (epoch_ms (expiry p)) = true → in_int64 (psize p) = true → bt_canon (bt_of_parts p) = true.
Proof.
  intros Hp Ht Hs. unfold bt_of_parts. destruct (done p).
  - cbn [bt_canon forallb snd]. by rewrite Ht.
  - cbn [bt_canon forallb snd app]. rewrite Ht, Hs. cbn [orb andb]. rewrite andb_true_r.
    apply andb_true_iff. split; [done|]. apply forallb_forall. intros v Hv%list_elem_of_In%list_elem_of_fmap.
    destruct Hv as (q & -> & Hq). cbn [bt_canon bt_of_part forallb snd]. by rewrite (index_fits p q).
Qed.

Lemma multiparts_canon now b :
  msorted (_multiparts b) = true →
  (∀ h p, (h, p) ∈ _multiparts b → parts_ok p = true ∧ in_int64 (epoch_ms (expiry p)) = true ∧ in_int64 (psize p) = true) →
  bt_canon (BtDict (_dump_multiparts now b)) = true.
Proof.
  intros Hs Hp. unfold _dump_multiparts. cbn [bt_canon]. apply andb_true_iff. split.
  - apply (msorted_filter (live now)) in Hs. revert Hs. generalize (List.filter (live now) (_multiparts b)). clear.
    intros l. induction l as [|[h p] l IH]; [done|]. rewrite fmap_cons, !msorted_cons. intros [Hf Hs]. split; [|auto].
    apply Forall_fmap. exact Hf.
  - apply forallb_forall. intros [h v] Hv%list_elem_of_In%list_elem_of_fmap. destruct Hv as ([h' p] & [= -> ->] & Hin).
    apply list_elem_of_In, filter_In in Hin as [Hin%list_elem_of_In _]. apply Hp in Hin as (? & ? & ?). by apply parts_canon.
Qed.

Lemma dump_load now extra dat b :
  msorted (_multiparts b) = true → (∀ h p, (h, p) ∈ _multiparts b → parts_ok p = true) → dump_fits extra b →
  bt_load (bt_dump (dump_dict now extra dat b)) = Ok (dump_dict now extra dat b).
Proof.
  intros Hs Hp (Hst & He & Hf). apply bt_load_dump. unfold dump_dict.
  pose proof (multiparts_canon now b Hs (λ h p Hin, conj (Hp h p Hin) (Hf h p Hin))) as Hm.
  pose proof (hashes_canon (_curr_hashes b)) as Hc. pose proof (hashes_canon (_old_hashes b)) as Ho.
  apply (proj2 (andb_true_iff _ _)). split; [done|]. apply forallb_forall. intros q Hq. simpl in Hq.
  destruct Hq as [<-|[<-|[<-|[<-|[<-|[<-|[]]]]]]]; [|done|done|done|exact Hm|exact He]. simpl. by rewrite Hst.
Qed.

Lemma skip_here k v (rest : bt_dict) : skip_until ((k, v) :: rest) k = ((k, v) :: rest, true).
Proof. cbn [skip_until]. unfold klt. by rewrite kcmp_refl, keqb_refl. Qed.

(** An object made from what a reachable one dumped *)
Lemma init_dump_inv now0 extra dat b0 now pk sk m0 x b :
  (_state b0 ≠ Clean → _curr_hashes b0 = []) → msorted (_multiparts b0) = true →
  (∀ h p, (h, p) ∈ _multiparts b0 → parts_ok p = true) → dump_fits extra b0 →
  (_state b = Dirty → sk = None → pk = None) →
  init kind now (Some (bt_dump (dump_dict now0 extra dat b0))) pk sk (fresh m0) = (Ok x, b) → config_inv b.
Proof.
  intros Hc Hs Hp Hf Hro Hi. pose proof Hf as (Hst & _). unfold init in Hi. apply M_bind_Ok in Hi as (ex & b3 & Hi & Hsig).
  apply M_bind_Ok in Hsig as (u & b4 & Hsig & Hret). injection Hret as _ <-.
  rewrite !run_lift, bt_open_dump, dump_load in Hi by done.
  unfold dump_dict in Hi. rewrite skip_here, run_lift in Hi.
  destruct (bt_int32 _) as [z|] eqn:Ez; [|done]. apply bt_int32_id in Ez as ->; [|done]. rewrite bind_ret in Hi.
  set (st := state_of_int (state_to_int (_state b0))) in *.
  assert (st ≠ Clean → _curr_hashes b0 = []) as Hc'.
  { intros Hne. apply Hc. intros E. apply Hne. unfold st. by rewrite E. }
  rewrite run_modify in Hi. cbn [fst snd] in Hi. rewrite skip_here, run_lift in Hi. cbn [bt_str] in Hi. rewrite bind_ret in Hi.
  cbn [fst snd] in Hi. rewrite run_lift in Hi. destruct (load_config kind st dat) as [m|] eqn:El; [|done].
  apply load_config_kind in El as [Hcb Hmut]. rewrite run_modify, skip_here in Hi.
  apply M_bind_Ok in Hi as (d2 & b2 & Hh & Hi). cbn [load_curr_hashes] in Hh. rewrite run_lift in Hh.
  destruct (mapR bt_str (BtStr <$> _curr_hashes b0)) as [hs|] eqn:Eh; [|done]. apply load_strings in Eh as ->.
  rewrite bind_ret, run_modify, skip_here, run_lift in Hh.
  destruct (mapR bt_str (BtStr <$> _old_hashes b0)) as [olds|] eqn:Eo; [|done]. apply load_strings in Eo as ->.
  rewrite run_modify in Hh. injection Hh as <- <-. rewrite skip_here in Hi.
  match type of Hi with ?f ?b2 = _ => set (bl := b2) in Hi end.
  assert (config_inv bl) as Hbl.
  { split; try done.
    - unfold is_readonly, config_of. simpl. unfold callbacks in Hcb. injection Hcb as Hv _. by rewrite Hv.
    - by split; [apply NoDup_nil_2|apply Forall_nil_2].
    - apply hash_set_sorted.
    - by apply insert_all_sorted.
    - intros Hne. simpl in Hne |- *. by rewrite Hc'.
    - by split; [|intros h p ?%not_elem_of_nil]. }
  apply M_bind_Ok in Hi as (d3 & b5 & Hm & Hi). apply M_bind_Ok in Hm as (u2 & b6 & Hm & Hret). injection Hret as <- <-.
  rewrite skip_here in Hi. injection Hi as _ <-.
  assert (config_inv b6) as Hb6.
  { pose proof (load_multiparts_inv now (_dump_multiparts now0 b0)) as Hpres.
    assert (config_inv (_load_multiparts now (_dump_multiparts now0 b0) bl).2) as Hb; [|by rewrite Hm in Hb].
    apply Hpres; [|done|by rewrite Hm].
    intros h v Hv. unfold _dump_multiparts in Hv. apply list_elem_of_fmap in Hv as ([h' p] & [= -> ->] & Hin).
    apply list_elem_of_In, filter_In in Hin as [Hin%list_elem_of_In _]. exists p.
    split; [done|]. split; [by apply (Hp h')|]. by apply (proj2 (proj2 Hf) h'). }
  apply (given_sig_keys_inv pk sk b6 u b4); [done| |done]. apply init_sig_keys_state in Hsig. by rewrite <-Hsig.
Qed.
End restart.

Lemma reachable_config_inv `{!BtLaws} b : reachable b → config_inv b.
Proof.
  induction 1 as [now pk sk m0 x b Hi|b0 now0 extra raw b1 now pk sk m0 x b _ IH Hf Hd Hi Hro|b b' _ IH Hs].
  - by eapply init_new_inv.
  - assert (∃ dat b2, raw = bt_dump (dump_dict now0 extra dat b2) ∧ _state b2 = _state b0 ∧ _curr_hashes b2 = _curr_hashes b0 ∧
      msorted (_multiparts b2) = true ∧ ∀ y, y ∈ _multiparts b2 → y ∈ _multiparts b0) as (dat & b2 & -> & Hst & Hc & Hms & Hsub).
    { destruct (inv_parts _ IH) as [Hms _]. destruct Hd as [Hd|Hd].
      - apply dump_Ok in Hd as (dat & b2 & -> & ? & ? & Hm). exists dat, b2. split_and!; [done..| |].
        + rewrite Hm. by apply msorted_filter.
        + intros y. rewrite Hm, list_elem_of_In, filter_In. intros [Hy _]. by apply list_elem_of_In.
      - apply make_dump_Ok in Hd as (dat & ->). by exists dat, b0. }
    destruct Hf as (Hf1 & Hf2 & Hf3). destruct (inv_parts _ IH) as [_ Hps].
    apply (init_dump_inv now0 extra dat b2 now pk sk m0 x b); [|done| | |done..].
    + rewrite Hst, Hc. by apply inv_hashes.
    + intros h p Hin. by apply (Hps h), Hsub.
    + split; [by rewrite Hst|]. split; [done|]. intros h p Hin. by apply (Hf3 h), Hsub.
  - inversion Hs as [o ? Ha Hd]; subst. by apply run_op_inv.
Qed.
End operations_inv.
