(* ===== verification/ConfigParts.v ===== *)
(** * Multipart messages

    A config too large for one message is split by [push] into numbered parts
    that carry the hash of the whole; the receiver collects them in whatever
    order they come and returns the config when the last one is there. *)

From Stdlib Require Import ZArith String Ascii Lia.
From stdpp Require Import base option list strings numbers sorting sets.
From S2P Require Import Prelude OrderedMap Bt Bencode Crypto ConfigData ConfigDiff ConfigMessage Encrypt State Util ConfigBase ConfigState.

(** ** The size of an encoded part *)

(** The number of decimal digits of a size below 100000 *)
Definition digits (n : Z) : Z :=
  if n <? 10 then 1 else if n <? 100 then 2 else if n <? 1000 then 3
  else if n <? 10000 then 4 else 5.

Definition strings_size (ss : list bytes) : Z :=
  foldr (λ s n, digits (size s) + 1 + size s + n) 0 ss.

(** The documented encoding of a list of strings: [l<len>:<bytes>...e] *)
Class BtSizes `{BtLib} := bt_strings_size :
  ∀ ss, Forall (λ s, size s < 100000) ss →
    size (bt_list_dump (BtStr <$> ss)) = 2 + strings_size ss.

Fixpoint digits_from (k : nat) (z : Z) : bool :=
  match k with
  | O => true
  | S k => (size (print_N (Z.to_N z)) =? digits z) && digits_from k (z + 1)
  end.

Lemma digits_from_spec k z n :
  digits_from k z = true → z ≤ n < z + Z.of_nat k → size (print_N (Z.to_N n)) = digits n.
Proof.
  revert z; induction k as [|k IH]; intros z Hd Hn; [lia|]. simpl in Hd.
  apply andb_true_iff in Hd as [Hz Hd]. apply Z.eqb_eq in Hz.
  destruct (Z.eq_dec z n) as [<-|Hne]; [done|]. apply (IH (z + 1)); [done|lia].
Qed.

Lemma print_N_digits n : 0 ≤ n < 100000 → size (print_N (Z.to_N n)) = digits n.
Proof.
  intros Hn. apply (digits_from_spec (Z.to_nat 100000) 0); [vm_compute; reflexivity|lia].
Qed.

#[global] Instance bencode_sizes : BtSizes.
Proof.
  intros ss Hss. change (size (String "l" (encode_list (BtStr <$> ss) +:+ "e")) = 2 + strings_size ss).
  assert (size (encode_list (BtStr <$> ss)) = strings_size ss) as Hs.
  { induction Hss as [|s ss Hs Hss IH]; [done|]. rewrite fmap_cons. cbn [encode_list encode strings_size foldr].
    unfold encode_string. rewrite !size_app, IH. unfold strings_size.
    pose proof (print_N_digits (size s)) as Hd. pose proof (size_nonneg s).
    replace (Z.to_N (size s)) with (N.of_nat (String.length s)) in Hd by (unfold size; lia).
    rewrite Hd by lia. assert (size (String ":" s) = 1 + size s) as -> by (unfold size; simpl; lia).
    lia. }
  unfold size in *. cbn [String.length]. rewrite length_sapp. simpl. lia.
Qed.

(** ** Splitting *)
Definition CHUNK : nat := Z.to_nat MAX_CHUNK_SIZE.

(** The chunks of a message: full ones and a last, possibly shorter one *)
Fixpoint chunks (fuel : nat) (s : bytes) : list bytes :=
  match fuel with
  | O => []
  | S fuel => if size s =? 0 then [] else stake CHUNK s :: chunks fuel (sdrop CHUNK s)
  end.

Lemma CHUNK_val : Z.of_nat CHUNK = MAX_CHUNK_SIZE.
Proof. done. Qed.

Lemma MAX_CHUNK_pos : 0 < MAX_CHUNK_SIZE.
Proof. done. Qed.

Lemma size_stake n s : size (stake n s) = Z.min (Z.of_nat n) (size s).
Proof. unfold size. rewrite length_stake. lia. Qed.
Lemma size_sdrop n s : size (sdrop n s) = Z.max 0 (size s - Z.of_nat n).
Proof. unfold size. rewrite length_sdrop. lia. Qed.

Lemma stake_min n s : stake (Z.to_nat (Z.min (Z.of_nat n) (size s))) s = stake n s.
Proof.
  destruct (Z.le_gt_cases (Z.of_nat n) (size s)).
  - by rewrite Z.min_l, Nat2Z.id by lia.
  - rewrite Z.min_r by lia. unfold size in *. rewrite Nat2Z.id.
    by rewrite !stake_all by lia.
Qed.

Lemma sdrop_all n s : (String.length s ≤ n)%nat → sdrop n s = "".
Proof. revert s; induction n as [|n IH]; intros [|c s] Hn; simpl in *; auto; [lia|]. apply IH. lia. Qed.

Lemma sdrop_min n s : sdrop (Z.to_nat (Z.min (Z.of_nat n) (size s))) s = sdrop n s.
Proof.
  destruct (Z.le_gt_cases (Z.of_nat n) (size s)).
  - by rewrite Z.min_l, Nat2Z.id by lia.
  - rewrite Z.min_r by lia. unfold size in *. rewrite Nat2Z.id.
    by rewrite !sdrop_all by lia.
Qed.

Opaque CHUNK.

Lemma chunks_concat fuel s :
  (String.length s ≤ fuel)%nat → foldr String.append "" (chunks fuel s) = s.
Proof.
  revert s; induction fuel as [|fuel IH]; intros s Hf; [by destruct s; simpl in *; [|lia]|].
  cbn [chunks]. destruct (Z.eqb_spec (size s) 0) as [E|E].
  { destruct s; [done|]. unfold size in E. simpl in E. lia. }
  cbn [foldr]. rewrite IH; [apply stake_sdrop|]. rewrite length_sdrop. pose proof CHUNK_val.
  pose proof MAX_CHUNK_pos. unfold size in E. lia.
Qed.

Lemma chunks_sizes fuel s c : c ∈ chunks fuel s → 0 < size c ≤ MAX_CHUNK_SIZE.
Proof.
  revert s; induction fuel as [|fuel IH]; intros s Hc; cbn [chunks] in Hc; [by apply not_elem_of_nil in Hc|].
  destruct (Z.eqb_spec (size s) 0) as [E|E]; [by apply not_elem_of_nil in Hc|].
  apply elem_of_cons in Hc as [->|Hc]; [|by eapply IH].
  rewrite size_stake, CHUNK_val. pose proof (size_nonneg s). pose proof MAX_CHUNK_pos. lia.
Qed.

Lemma chunks_length fuel s :
  (String.length s ≤ fuel)%nat →
  Z.of_nat (length (chunks fuel s)) = (size s + MAX_CHUNK_SIZE - 1) / MAX_CHUNK_SIZE.
Proof.
  pose proof MAX_CHUNK_pos as HC.
  revert s; induction fuel as [|fuel IH]; intros s Hf.
  { destruct s; simpl in *; [done|lia]. }
  cbn [chunks]. pose proof (size_nonneg s). destruct (Z.eqb_spec (size s) 0) as [E|E].
  { rewrite E. simpl. by rewrite Z.div_small by lia. }
  cbn [length]. rewrite Nat2Z.inj_succ, IH.
  2: { rewrite length_sdrop. pose proof CHUNK_val. unfold size in E. lia. }
  rewrite size_sdrop, CHUNK_val. destruct (Z.le_gt_cases (size s) MAX_CHUNK_SIZE).
  - rewrite Z.max_l by lia. rewrite (Z.div_small (0 + _ - 1)) by lia.
    apply (Z.div_unique _ _ _ (size s - 1)); lia.
  - rewrite Z.max_r by lia.
    replace (size s + MAX_CHUNK_SIZE - 1) with (size s - MAX_CHUNK_SIZE + MAX_CHUNK_SIZE - 1 + 1 * MAX_CHUNK_SIZE) by lia.
    rewrite Z.div_add by lia. lia.
Qed.

Section split.
Context `{BtLib, Hash, Zstd, !BtLaws, !BtSizes, !HashLaws}.

(** A part as it is sent, before encryption *)
Definition part_bytes (h : bytes) (n i : Z) (chunk : bytes) : bytes :=
  let l := bt_list_dump [BtStr h; BtStr (byte i); BtStr (byte n); BtStr chunk] in
  String "m" (l +:+ zeros (Z.to_nat (size chunk + ENCODE_OVERHEAD - 1 - size l))).

Lemma byte_at0_byte z : 0 ≤ z < 256 → byte_at0 (byte z) = z.
Proof.
  intros Hz. unfold byte, byte_at0. rewrite Z.mod_small by lia.
  rewrite N_ascii_embedding by lia. lia.
Qed.

Lemma byte_size z : size (byte z) = 1.
Proof. done. Qed.

Lemma part_list_size h n i chunk :
  size h = 32 → 0 < size chunk ≤ MAX_CHUNK_SIZE →
  size (bt_list_dump [BtStr h; BtStr (byte i); BtStr (byte n); BtStr chunk])
    = 44 + digits (size chunk) + size chunk ∧ digits (size chunk) ≤ 5.
Proof.
  intros Hh Hc. split.
  - change [BtStr h; BtStr (byte i); BtStr (byte n); BtStr chunk]
      with (BtStr <$> [h; byte i; byte n; chunk]).
    rewrite bt_strings_size.
    + unfold strings_size. cbn [foldr]. rewrite Hh, !byte_size. change (digits 32) with 2.
      change (digits 1) with 1. lia.
    + change MAX_CHUNK_SIZE with 76710 in Hc. repeat constructor; rewrite ?byte_size; lia.
  - unfold digits. by repeat match goal with |- context [if ?c then _ else _] => destruct c end.
Qed.

Lemma encode_part_ok h i n chunk :
  size h = 32 → 0 < size chunk ≤ MAX_CHUNK_SIZE →
  encode_part h i n chunk = Ok (part_bytes h n i chunk) ∧
  size (part_bytes h n i chunk) = size chunk + ENCODE_OVERHEAD.
Proof.
  intros Hh Hc. destruct (part_list_size h n i chunk Hh Hc) as [Hs Hd].
  assert (ENCODE_OVERHEAD = 50) as HE by done. split.
  - unfold encode_part, require. rewrite Hs. destruct (Z.leb_spec (44 + digits (size chunk) + size chunk)
      (size chunk + ENCODE_OVERHEAD - 1)) as [_|?]; [|lia]. unfold part_bytes. by rewrite Hs.
  - unfold part_bytes. rewrite Hs. unfold size at 1. cbn [String.length]. rewrite Nat2Z.inj_succ.
    change (Z.succ (size (bt_list_dump [BtStr h; BtStr (byte i); BtStr (byte n); BtStr chunk] +:+
      zeros (Z.to_nat (size chunk + ENCODE_OVERHEAD - 1 - (44 + digits (size chunk) + size chunk)))))
      = size chunk + ENCODE_OVERHEAD).
    rewrite size_app, Hs, zeros_size. lia.
Qed.

(** The receiver reads back what was encoded. *)
Lemma parse_part_bytes h i n chunk :
  size h = 32 → 0 < size chunk ≤ MAX_CHUNK_SIZE → 0 ≤ i < n → 2 ≤ n < 256 →
  parse_part (part_bytes h n i chunk) = Ok (h, i, n, chunk).
Proof.
  intros Hh Hc Hi Hn. unfold parse_part.
  destruct (encode_part_ok h i n chunk Hh Hc) as [_ ->].
  assert (size chunk + ENCODE_OVERHEAD <=? MAX_MESSAGE_SIZE = true) as ->.
  { apply Z.leb_le. change MAX_CHUNK_SIZE with 76710 in Hc. unfold ENCODE_OVERHEAD, MAX_MESSAGE_SIZE. lia. }
  unfold part_bytes. cbn [require mbind result_bind sdrop]. rewrite bt_load_list_dump by done.
  cbn [mbind result_bind]. rewrite Hh, !byte_at0_byte by lia. cbn [require].
  destruct (Z.leb_spec n 1); [lia|]. destruct (Z.leb_spec n i); [lia|].
  destruct (Z.eqb_spec (size chunk) 0); [lia|]. done.
Qed.

(** The parts of a message, in order *)
Definition all_parts (h : bytes) (n : Z) (cs : list bytes) : list bytes :=
  imap (λ k, part_bytes h n (Z.of_nat k)) cs.

Lemma split_parts_ok fuel h n k rem :
  size h = 32 → (String.length rem ≤ fuel)%nat →
  Z.of_nat k + Z.of_nat (length (chunks fuel rem)) ≤ 255 →
  split_parts fuel h (Z.of_nat k) n rem =
    Ok (imap (λ j, part_bytes h n (Z.of_nat (k + j))) (chunks fuel rem)).
Proof.
  intros Hh. revert k rem. induction fuel as [|fuel IH]; intros k rem Hf Hk; cbn [split_parts chunks].
  { destruct rem; simpl in *; [done|lia]. }
  cbn [chunks] in Hk. destruct (Z.eqb_spec (size rem) 0) as [E|E]; [done|].
  cbn [length] in Hk. rewrite Nat2Z.inj_succ in Hk. pose proof (size_nonneg rem).
  pose proof CHUNK_val as HC. pose proof MAX_CHUNK_pos.
  rewrite <-HC, stake_min, sdrop_min.
  destruct (encode_part_ok h (Z.of_nat k) n (stake CHUNK rem) Hh) as [-> _].
  { rewrite size_stake. lia. }
  cbn [mbind result_bind]. rewrite Z.mod_small by lia.
  replace (Z.of_nat k + 1) with (Z.of_nat (S k)) by lia.
  rewrite IH; [|rewrite length_sdrop; unfold size in *; lia|lia]. cbn [mbind result_bind].
  rewrite imap_cons, Nat.add_0_r. do 2 f_equal. apply imap_ext. intros j x _. simpl.
  by rewrite <-Nat.add_succ_comm.
Qed.

(** A message that needs several parts, and not too many *)
Definition splittable (msg : bytes) : Prop :=
  MAX_MESSAGE_SIZE < size msg + ENCRYPT_DATA_OVERHEAD ∧ size msg ≤ MAX_MULTIPART_SIZE.

Lemma splittable_parts msg :
  splittable msg →
  2 ≤ num_parts_of msg ≤ 66 ∧
  Z.of_nat (length (chunks (String.length msg) msg)) = num_parts_of msg.
Proof.
  intros [Hlo Hhi]. rewrite chunks_length by lia. unfold num_parts_of.
  change MAX_CHUNK_SIZE with 76710. change MAX_MESSAGE_SIZE with 76800 in Hlo.
  change ENCRYPT_DATA_OVERHEAD with 40 in Hlo. change MAX_MULTIPART_SIZE with 5000000 in Hhi.
  assert (2 ≤ (size msg + 76710 - 1) / 76710 ≤ 66).
  { split; [apply Z.div_le_lower_bound; lia|].
    apply Z.lt_succ_r, Z.div_lt_upper_bound; lia. }
  rewrite Z.mod_small by lia. done.
Qed.

Lemma split_message_ok msg :
  splittable msg →
  split_message msg =
    Ok (all_parts (blake2b msg) (num_parts_of msg) (chunks (String.length msg) msg)).
Proof.
  intros Hs. destruct (splittable_parts msg Hs) as [Hn Hl]. unfold split_message.
  apply (split_parts_ok _ _ _ 0); [by apply generichash_size|lia|lia].
Qed.

Lemma split_message_length msg outs :
  splittable msg → split_message msg = Ok outs → Z.of_nat (length outs) = num_parts_of msg.
Proof.
  intros Hs. rewrite split_message_ok by done. intros [= <-]. unfold all_parts.
  rewrite length_imap. by apply splittable_parts.
Qed.
End split.

(** ** Reassembling *)


(** The parts seen so far, of an ascending list of all of them *)
Definition seen (f : Z → bool) (all : list PartialMessage) : list PartialMessage :=
  List.filter (λ q, f (index q)) all.

Definition see (i : Z) (f : Z → bool) : Z → bool := λ j, f j || (j =? i).

Lemma insert_part_first p l :
  Forall (λ q, index p < index q) l → insert_part p l = Some (p :: l).
Proof.
  destruct 1 as [|q l Hq _]; [done|]. simpl. destruct (Z.ltb_spec (index q) (index p)); [lia|].
  by destruct (Z.eqb_spec (index q) (index p)); [lia|].
Qed.

Lemma seen_above f i l :
  Forall (λ q, i < index q) l → Forall (λ q, i < index q) (seen f l) ∧ seen (see i f) l = seen f l.
Proof.
  induction 1 as [|q l Hq Hl [IH1 IH2]]; [done|]. unfold seen, see in *. simpl.
  destruct (Z.eqb_spec (index q) i); [lia|]. rewrite orb_false_r.
  destruct (f (index q)); simpl; [|done]. split; [by constructor|by f_equal].
Qed.

Lemma seen_cons f x l : seen f (x :: l) = if f (index x) then x :: seen f l else seen f l.
Proof. done. Qed.

Lemma insert_part_seen f p all :
  ascending all = true → p ∈ all →
  insert_part p (seen f all) = if f (index p) then None else Some (seen (see (index p) f) all).
Proof.
  induction all as [|x l IH]; intros Ha Hp; [by apply not_elem_of_nil in Hp|].
  apply ascending_cons in Ha as [Hx Ha]. destruct (seen_above f (index x) l Hx) as [Hab Hse].
  apply elem_of_cons in Hp as [->|Hp].
  - rewrite !seen_cons, Hse. unfold see at 1. rewrite Z.eqb_refl, orb_true_r.
    destruct (f (index x)); simpl; [by rewrite Z.ltb_irrefl, Z.eqb_refl|]. by apply insert_part_first.
  - specialize (IH Ha Hp). rewrite Forall_forall in Hx. specialize (Hx p Hp).
    rewrite !seen_cons. unfold see at 1. destruct (Z.eqb_spec (index x) (index p)); [lia|]. rewrite orb_false_r.
    destruct (f (index x)); simpl; [|by rewrite IH].
    destruct (Z.ltb_spec (index x) (index p)); [|lia]. rewrite IH. by destruct (f (index p)).
Qed.

Lemma seen_all f all : (∀ q, q ∈ all → f (index q) = true) → seen f all = all.
Proof.
  induction all as [|x l IH]; intros Hf; [done|]. unfold seen in *. simpl.
  rewrite Hf by set_solver. f_equal. apply IH. set_solver.
Qed.

Lemma seen_length f all q :
  q ∈ all → f (index q) = false → (length (seen f all) < length all)%nat.
Proof.
  induction all as [|x l IH]; intros Hq Hf; [by apply not_elem_of_nil in Hq|].
  assert (length (seen f l) ≤ length l)%nat by apply filter_length_le.
  unfold seen in *. simpl. apply elem_of_cons in Hq as [->|Hq].
  - rewrite Hf. simpl. lia.
  - specialize (IH Hq Hf). destruct (f (index x)); simpl; lia.
Qed.

Section reassemble.
Context `{BtLib, Hash, Zstd, !BtLaws, !BtSizes, !HashLaws}.
Context (h plain : bytes) (all : list PartialMessage).
Abbreviation n := (Z.of_nat (length all)).
Context (Hasc : ascending all = true)
  (Hrange : ∀ q, q ∈ all → 0 ≤ index q < n ∧ 0 < size (data q) ≤ MAX_CHUNK_SIZE)
  (Hn : 2 ≤ n < 256) (Hh : h = blake2b (recombine all)) (Hin : inflate (recombine all) = Ok plain).

Definition part_of (q : PartialMessage) : bytes := part_bytes h n (index q) (data q).

(** The entry of an unfinished set *)
Definition collecting (f : Z → bool) (b : ConfigBase) : Prop :=
  let p := default no_parts (mfind h (_multiparts b)) in
  done p = false ∧ parts p = seen f all ∧ (parts p ≠ [] → psize p = n).

Definition finished (b : ConfigBase) : Prop :=
  ∃ p, mfind h (_multiparts b) = Some p ∧ done p = true.

Lemma mfind_put_parts p b : mfind h (_multiparts (put_parts h p b).2) = Some p.
Proof. simpl. by rewrite mfind_insert, keqb_refl. Qed.

Lemma handle_part_finished now id q b :
  q ∈ all → finished b →
  ∃ b', handle_part now id (part_of q) b = (Ok None, b') ∧ finished b'.
Proof.
  intros Hq (p & Hp & Hd). destruct (Hrange q Hq) as [Hi Hc]. unfold handle_part, part_of.
  rewrite run_bind, parse_part_bytes; [|rewrite Hh; by apply generichash_size|done..].
  cbn [lift]. rewrite run_mget, Hp. change (default no_parts (Some p)) with p. rewrite Hd. unfold put_parts. rewrite run_modify.
  eexists. split; [done|]. exists p. split; [|done]. simpl. by rewrite mfind_insert, keqb_refl.
Qed.

(** One part arrives *)
Lemma handle_part_collecting now f q b :
  q ∈ all → collecting f b →
  ∃ b', handle_part now (message_id q) (part_of q) b =
          (Ok (if negb (f (index q)) && forallb (λ x, see (index q) f (index x)) all
               then Some (message_id <$> all, plain) else None), b') ∧
    (if negb (f (index q)) && forallb (λ x, see (index q) f (index x)) all
     then finished b' else collecting (see (index q) f) b').
Proof.
  intros Hq (Hd & Hps & Hsz). destruct (Hrange q Hq) as [Hi Hc]. unfold handle_part, part_of.
  rewrite run_bind, parse_part_bytes; [|rewrite Hh; by apply generichash_size|done..].
  cbn [lift]. rewrite run_mget. cbn zeta.
  set (p := default no_parts (mfind h (_multiparts b))) in *. rewrite Hd.
  unfold put_parts. rewrite run_modify, run_guard.
  assert (is_nil (parts p) || (n =? psize p) = true) as ->.
  { destruct (parts p); [done|]. rewrite Hsz by done. by rewrite Z.eqb_refl. }
  assert ((if is_nil (parts p) then n else psize p) = n) as ->.
  { destruct (parts p); [done|]. by rewrite Hsz. }
  rewrite run_modify, Hps.
  replace (mkPart (index q) (message_id q) (data q)) with q by (by destruct q).
  rewrite insert_part_seen by done. destruct (f (index q)) eqn:Ef; cbn [negb andb].
  { eexists. split; [done|]. unfold collecting. cbn [_multiparts with_multiparts].
    rewrite mfind_insert, keqb_refl. cbn [from_option id done parts psize].
    split_and!; try done. unfold seen, see. apply List.filter_ext_in. intros x _.
    destruct (Z.eqb_spec (index x) (index q)) as [->|]; [by rewrite Ef|by rewrite orb_false_r]. }
  rewrite !run_modify. destruct (forallb (λ x, see (index q) f (index x)) all) eqn:Eall.
  - assert (seen (see (index q) f) all = all) as ->.
    { apply seen_all. intros x Hx. rewrite forallb_forall in Eall. by apply Eall, list_elem_of_In. }
    rewrite Z.eqb_refl, run_guard, <-Hh, keqb_refl, run_modify, run_lift, Hin.
    eexists. split; [done|]. exists (finish now (MULTIPART_MAX_REMEMBER b) p). split; [|done]. simpl. by rewrite mfind_insert, keqb_refl.
  - assert (Z.of_nat (length (seen (see (index q) f) all)) =? n = false) as ->.
    { apply Z.eqb_neq. apply not_true_iff_false in Eall.
      destruct (decide (length (seen (see (index q) f) all) = length all)) as [E|E]; [|lia].
      exfalso. apply Eall, forallb_forall. intros x Hx%list_elem_of_In.
      destruct (see (index q) f (index x)) eqn:Ex; [done|]. pose proof (seen_length _ _ _ Hx Ex). lia. }
    rewrite run_modify. eexists. split; [done|]. unfold collecting. cbn [_multiparts with_multiparts].
    rewrite mfind_insert, keqb_refl. cbn [from_option id done parts psize]. done.
Qed.

(** Parts that arrive one after the other, each at its time *)
Definition arrival (a : Z * PartialMessage) : Z * bytes * bytes :=
  (a.1, message_id a.2, part_of a.2).
End reassemble.

Section receive.
Context `{BtLib, Hash, Zstd}.

(** What [_merge] does with multipart messages: time, message id, message *)
Fixpoint receive (l : list (Z * bytes * bytes))
    : M ConfigBase (list (bool * option (list bytes * bytes))) :=
  match l with
  | [] => mret []
  | (now, id, msg) :: l =>
      r ← _handle_multipart now id msg; rs ← receive l; mret (r :: rs)
  end.

Lemma receive_cons now id msg l b r b' :
  handle_part now id msg b = (Ok r, b') →
  receive ((now, id, msg) :: l) b =
    match receive l b' with
    | (Ok rs, b2) => (Ok ((true, r) :: rs), b2)
    | (Throw e, b2) => (Throw e, b2)
    end.
Proof.
  intros Hh. cbn [receive]. unfold _handle_multipart, catch. rewrite !run_bind, Hh. simpl.
  rewrite run_bind. by destruct (receive l b') as [[]].
Qed.

Lemma receive_app l1 l2 b r1 b1 :
  receive l1 b = (Ok r1, b1) →
  receive (l1 ++ l2) b =
    match receive l2 b1 with
    | (Ok rs, b2) => (Ok (r1 ++ rs), b2)
    | (Throw e, b2) => (Throw e, b2)
    end.
Proof.
  revert b r1; induction l1 as [|[[now id] msg] l1 IH]; intros b r1 Hr; cbn [receive app] in *.
  { injection Hr as <- <-. simpl. by destruct (receive l2 b) as [[]]. }
  rewrite run_bind in Hr |- *. destruct (_handle_multipart now id msg b) as [[r|] b2]; [|done].
  rewrite run_bind in Hr |- *. destruct (receive l1 b2) as [[rs|] b3] eqn:E; [|done].
  injection Hr as <- <-. rewrite (IH _ _ E). by destruct (receive l2 b3) as [[]].
Qed.
End receive.

Section order.
Context `{BtLib, Hash, Zstd, !BtLaws, !BtSizes, !HashLaws}.
Context (h plain : bytes) (all : list PartialMessage).
Context (Hasc : ascending all = true)
  (Hrange : ∀ q, q ∈ all → 0 ≤ index q < Z.of_nat (length all) ∧ 0 < size (data q) ≤ MAX_CHUNK_SIZE)
  (Hn : 2 ≤ Z.of_nat (length all) < 256)
  (Hh : h = blake2b (recombine all)) (Hin : inflate (recombine all) = Ok plain).

Abbreviation nothing := (true, @None (list bytes * bytes)).

Lemma receive_collecting l f b k :
  Forall (λ a, a.2 ∈ all) l → collecting h all f b →
  k ∈ all → f (index k) = false → Forall (λ a, index a.2 ≠ index k) l →
  ∃ b', receive (arrival h all <$> l) b = (Ok (replicate (length l) nothing), b') ∧
    collecting h all (λ i, f i || existsb (λ a, i =? index a.2) l) b'.
Proof.
  intros Hl. revert f b; induction Hl as [|[now q] l Hq Hl IH]; intros f b Hc Hk Hf Hni.
  { exists b. split; [done|]. unfold collecting, seen in *. destruct Hc as (? & Hps & ?).
    split_and!; [done| |done]. rewrite Hps. apply List.filter_ext. intros x. simpl. by rewrite orb_false_r. }
  apply Forall_cons in Hni as [Hqk Hni]. simpl in Hq, Hqk.
  destruct (handle_part_collecting h plain all Hasc Hrange Hn Hh Hin now f q b Hq Hc) as (b1 & Hp & Hb1).
  assert (negb (f (index q)) && forallb (λ x, see (index q) f (index x)) all = false) as Hno.
  { apply andb_false_iff. right. apply not_true_iff_false. rewrite forallb_forall. intros Hall.
    specialize (Hall k ltac:(by apply list_elem_of_In)). unfold see in Hall.
    rewrite Hf in Hall. simpl in Hall. apply Z.eqb_eq in Hall. congruence. }
  rewrite Hno in Hp, Hb1.
  destruct (IH _ _ Hb1 Hk) as (b2 & Hr & Hb2); [|done|].
  { unfold see. rewrite Hf. simpl. by apply Z.eqb_neq. }
  exists b2. split.
  - rewrite fmap_cons. unfold arrival at 1. cbn [fst snd].
    rewrite (receive_cons _ _ _ _ _ _ _ Hp), Hr. done.
  - unfold collecting, seen in *. destruct Hb2 as (? & Hps & ?). split_and!; [done| |done].
    rewrite Hps. apply List.filter_ext. intros x. unfold see. simpl. by rewrite orb_assoc.
Qed.

Lemma receive_finished l b :
  Forall (λ a, a.2 ∈ all) l → finished h b →
  ∃ b', receive (arrival h all <$> l) b = (Ok (replicate (length l) nothing), b').
Proof.
  intros Hl. revert b; induction Hl as [|[now q] l Hq Hl IH]; intros b Hb; [by exists b|].
  destruct (handle_part_finished h all Hrange Hn Hh now (message_id q) q b Hq Hb) as (b1 & Hp & Hb1).
  destruct (IH b1 Hb1) as (b2 & Hr). exists b2.
  rewrite fmap_cons. unfold arrival at 1. cbn [fst snd].
  by rewrite (receive_cons _ _ _ _ _ _ _ Hp), Hr.
Qed.

Lemma receive_any_order before now q after b :
  collecting h all (λ _, false) b → q ∈ all →
  Forall (λ a, a.2 ∈ all) before → Forall (λ a, a.2 ∈ all) after →
  Forall (λ a, index a.2 ≠ index q) before →
  (∀ x, x ∈ all → x = q ∨ x ∈ snd <$> before) →
  ∃ b', receive (arrival h all <$> before ++ (now, q) :: after) b =
    (Ok (replicate (length before) nothing ++
         (true, Some (message_id <$> all, plain)) :: replicate (length after) nothing), b').
Proof.
  intros Hb Hq Hbe Haf Hni Hcov.
  destruct (receive_collecting before _ b q Hbe Hb Hq eq_refl Hni) as (b1 & Hr1 & Hb1).
  destruct (handle_part_collecting h plain all Hasc Hrange Hn Hh Hin now _ q b1 Hq Hb1) as (b2 & Hp & Hb2).
  match type of Hp with _ = (Ok (if ?c then _ else _), _) => assert (c = true) as Hc end.
  { apply andb_true_iff. split.
    - apply negb_true_iff. simpl. apply not_true_iff_false. rewrite existsb_exists.
      intros (a & Ha%list_elem_of_In & Hi%Z.eqb_eq). rewrite Forall_forall in Hni. by apply (Hni a Ha).
    - apply forallb_forall. intros x Hx%list_elem_of_In. unfold see. apply orb_true_iff.
      destruct (Hcov x Hx) as [->|Hin']; [right; apply Z.eqb_refl|left]. simpl.
      apply list_elem_of_fmap in Hin' as (a & -> & Ha). apply existsb_exists. exists a.
      split; [by apply list_elem_of_In|apply Z.eqb_refl]. }
  rewrite Hc in Hp, Hb2. destruct (receive_finished after b2 Haf Hb2) as (b3 & Hr3). exists b3.
  rewrite fmap_app, fmap_cons. rewrite (receive_app _ _ _ _ _ Hr1). unfold arrival at 1. cbn [fst snd].
  by rewrite (receive_cons _ _ _ _ _ _ _ Hp), Hr3.
Qed.
End order.

Section reassembly.
Context `{BtLib, Hash, Zstd, !BtLaws, !BtSizes, !HashLaws}.

(** The parts of a message, stored under the ids the server gave them *)
Definition stored_parts (ids : nat → bytes) (cs : list bytes) : list PartialMessage :=
  imap (λ k c, mkPart (Z.of_nat k) (ids k) c) cs.

Lemma imap_ascending ids i cs : ascending (imap (λ k c, mkPart (Z.of_nat (i + k)) (ids k) c) cs) = true.
Proof.
  revert i ids; induction cs as [|c cs IH]; intros i ids; [done|]. rewrite imap_cons.
  apply ascending_cons. split.
  - apply Forall_forall. intros q (k & c' & -> & _)%elem_of_lookup_imap_1. simpl. lia.
  - rewrite (imap_ext _ (λ k c, mkPart (Z.of_nat (S i + k)) (ids (S k)) c)); [apply (IH (S i) (ids ∘ S))|].
    intros k c' _. simpl. f_equal. lia.
Qed.

Lemma recombine_stored ids cs : recombine (stored_parts ids cs) = foldr String.append "" cs.
Proof.
  unfold stored_parts. generalize 0%nat as i. revert ids.
  assert (∀ f : nat → Z, ∀ ids, recombine (imap (λ k c, mkPart (f k) (ids k) c) cs) = foldr String.append "" cs)
    as Hg; [|intros ids _; apply Hg].
  induction cs as [|c cs IH]; intros f ids; [done|]. rewrite imap_cons. simpl. f_equal.
  apply (IH (f ∘ S) (ids ∘ S)).
Qed.

Lemma stored_ids ids cs : message_id <$> stored_parts ids cs = ids <$> seq 0 (length cs).
Proof.
  apply list_eq. intros j. rewrite !list_lookup_fmap. unfold stored_parts. rewrite list_lookup_imap.
  destruct (cs !! j) as [c|] eqn:E.
  - by rewrite lookup_seq_lt by (by eapply lookup_lt_Some).
  - by rewrite lookup_seq_ge by (by apply lookup_ge_None).
Qed.

(** The parts a client receives: the time, and the number of the part *)
Definition delivered (ids : nat → bytes) (outs : list bytes) (a : Z * nat) : Z * bytes * bytes :=
  (a.1, ids a.2, default "" (outs !! a.2)).

Definition nth_part (ids : nat → bytes) (cs : list bytes) (j : nat) : PartialMessage :=
  mkPart (Z.of_nat j) (ids j) (default "" (cs !! j)).

Definition nth_arrival ids cs (a : Z * nat) : Z * PartialMessage := (a.1, nth_part ids cs a.2).

Lemma nth_part_elem ids cs q :
  q ∈ stored_parts ids cs ↔ ∃ j, (j < length cs)%nat ∧ q = nth_part ids cs j.
Proof.
  unfold nth_part. split.
  - intros (j & c & -> & Hc)%elem_of_lookup_imap_1. exists j. rewrite Hc.
    split; [by eapply lookup_lt_Some|done].
  - intros (j & [c Hc]%lookup_lt_is_Some & ->). rewrite Hc. simpl.
    apply (elem_of_lookup_imap_2 (λ k c, mkPart (Z.of_nat k) (ids k) c) cs c j) in Hc. done.
Qed.

Lemma delivered_arrival ids cs h l :
  Forall (λ a, a.2 < length cs)%nat l →
  delivered ids (all_parts h (Z.of_nat (length cs)) cs) <$> l =
  arrival h (stored_parts ids cs) <$> (nth_arrival ids cs <$> l).
Proof.
  intros Hl. rewrite <-list_fmap_compose. apply list_fmap_ext. intros i [t j] Ha.
  rewrite Forall_forall in Hl. apply list_elem_of_lookup_2, Hl, lookup_lt_is_Some in Ha as [c Hc].
  unfold delivered, all_parts. simpl in Hc |- *. unfold arrival, nth_arrival, nth_part, part_of. simpl.
  rewrite list_lookup_imap, Hc. unfold stored_parts. by rewrite length_imap.
Qed.

Lemma seen_none all : seen (λ _, false) all = [].
Proof. by induction all. Qed.

(** The same in terms of the numbers of the parts *)
Lemma receive_numbers ids cs h plain before t k after b :
  (∀ c, c ∈ cs → 0 < size c ≤ MAX_CHUNK_SIZE) → 2 ≤ Z.of_nat (length cs) < 256 →
  h = blake2b (foldr String.append "" cs) → inflate (foldr String.append "" cs) = Ok plain →
  mfind h (_multiparts b) = None →
  Forall (λ a, a.2 < length cs)%nat (before ++ (t, k) :: after) → k ∉ before.*2 →
  (∀ j, (j < length cs)%nat → j = k ∨ j ∈ before.*2) →
  ∃ b', receive (delivered ids (all_parts h (Z.of_nat (length cs)) cs) <$> before ++ (t, k) :: after) b =
    (Ok (replicate (length before) (true, None) ++
         (true, Some (ids <$> seq 0 (length cs), plain)) :: replicate (length after) (true, None)), b').
Proof.
  intros Hcs Hn Hh Hin Hnone Hlt Hk Hcov. rewrite delivered_arrival by done.
  rewrite fmap_app, fmap_cons. apply Forall_app in Hlt as [Hbe [Hkl Haf]%Forall_cons].
  set (all := stored_parts ids cs). assert (length all = length cs) as Hlen by apply length_imap.
  assert (∀ l, Forall (λ a, a.2 < length cs)%nat l → Forall (λ a, a.2 ∈ all) (nth_arrival ids cs <$> l)) as Hto.
  { intros l Hl. apply Forall_fmap, (Forall_impl _ _ _ Hl). intros a Ha. apply nth_part_elem. eauto. }
  destruct (receive_any_order h plain all) with (before := nth_arrival ids cs <$> before)
    (now := t) (q := nth_part ids cs k) (after := nth_arrival ids cs <$> after) (b := b) as [b' Hr].
  - apply (imap_ascending ids 0).
  - intros q (j & Hj & ->)%nth_part_elem. simpl. split; [lia|].
    apply lookup_lt_is_Some in Hj as [c Hc]. rewrite Hc. by eapply Hcs, list_elem_of_lookup_2.
  - lia.
  - unfold all. by rewrite recombine_stored.
  - unfold all. by rewrite recombine_stored.
  - unfold collecting. rewrite Hnone. simpl. by rewrite seen_none.
  - apply nth_part_elem. eauto.
  - by apply Hto.
  - by apply Hto.
  - apply Forall_fmap, Forall_forall. intros a Ha. simpl. intros E. apply Hk, list_elem_of_fmap.
    exists a. split; [lia|done].
  - intros x (j & Hj & ->)%nth_part_elem. destruct (Hcov j Hj) as [->|Hjb]; [by left|right].
    rewrite <-list_fmap_compose. apply list_elem_of_fmap in Hjb as (a & -> & Ha).
    by apply (list_elem_of_fmap_2 (snd ∘ nth_arrival ids cs)) in Ha.
  - exists b'. unfold nth_arrival at 2. cbn [fst snd]. rewrite Hr, !length_fmap. unfold all.
    by rewrite stored_ids.
Qed.

(** (roundtrip): multipart messages.  A padded config too large for one
    message and not over the multipart limit is split into 2 to 66 parts, each
    of which fits a message with its encryption overhead.  A receiver that has
    none of them gets the config back exactly when the last missing part
    arrives, whatever the order, with any part delivered any number of times
    before or after, together with the ids of all its parts in order; every
    other delivery is accepted and gives nothing. *)
Theorem multipart_reassembly msg plain b :
  splittable msg → inflate msg = Ok plain → mfind (blake2b msg) (_multiparts b) = None →
  ∃ outs, split_message msg = Ok outs ∧ (2 ≤ length outs ≤ 66)%nat ∧
    Forall (λ o, size o + ENCRYPT_DATA_OVERHEAD ≤ MAX_MESSAGE_SIZE) outs ∧
    ∀ ids before t k after,
      Forall (λ a, a.2 < length outs)%nat (before ++ (t, k) :: after) → k ∉ before.*2 →
      (∀ j, (j < length outs)%nat → j = k ∨ j ∈ before.*2) →
      ∃ b', receive (delivered ids outs <$> before ++ (t, k) :: after) b =
        (Ok (replicate (length before) (true, None) ++
             (true, Some (ids <$> seq 0 (length outs), plain)) ::
             replicate (length after) (true, None)), b').
Proof.
  intros Hs Hin Hnone. destruct (splittable_parts msg Hs) as [Hn Hl].
  pose proof (split_message_ok msg Hs) as Hsplit. rewrite <-Hl in Hsplit.
  pose proof (chunks_concat (String.length msg) msg (le_n _)) as Hcat.
  pose proof (chunks_sizes (String.length msg) msg) as Hcs.
  set (cs := chunks (String.length msg) msg) in *. eexists. split; [exact Hsplit|].
  unfold all_parts at 1 2. rewrite length_imap. split_and!; [lia|lia| |].
  { apply Forall_forall. intros o (k & c & -> & Hc%list_elem_of_lookup_2)%elem_of_lookup_imap_1.
    destruct (encode_part_ok (blake2b msg) (Z.of_nat k) (Z.of_nat (length cs)) c) as [_ ->];
      [by apply generichash_size|by apply Hcs|].
    specialize (Hcs c Hc). change MAX_CHUNK_SIZE with 76710 in Hcs.
    unfold ENCODE_OVERHEAD, ENCRYPT_DATA_OVERHEAD, MAX_MESSAGE_SIZE. lia. }
  intros ids before t k after Hlt Hk Hcov. unfold all_parts in Hlt, Hcov |- *.
  rewrite length_imap in *. apply receive_numbers; rewrite ?Hcat; auto. lia.
Qed.
End reassembly.

(** A message of 80002 bytes in two parts: the second one arrives twice, then
    the first, then the second once more. *)
Definition large_message : bytes := zeros (Z.to_nat 80000) +:+ "de".

Lemma multipart_reassembly_witness :
  ∃ outs b', split_message large_message = Ok outs ∧
    receive (delivered (λ k, byte (Z.of_nat k)) outs <$> [(0, 1%nat); (5, 1%nat); (7, 0%nat); (9, 1%nat)])
      new_config = (Ok [(true, None); (true, None); (true, Some ([byte 0; byte 1], "de")); (true, None)], b').
Proof.
  destruct (multipart_reassembly large_message "de" new_config) as (outs & Hs & Hl & _ & Hr).
  - split; vm_compute; congruence.
  - vm_compute. reflexivity.
  - replace (_multiparts new_config) with (@nil (bytes * PartialMessages)) by (vm_compute; reflexivity).
    reflexivity.
  - assert (length outs = 2%nat) as Hlen.
    { apply Nat2Z.inj. rewrite (split_message_length large_message outs); [vm_compute; reflexivity| |done].
      split; vm_compute; congruence. }
    destruct (Hr (λ k, byte (Z.of_nat k)) [(0, 1%nat); (5, 1%nat)] 7 0%nat [(9, 1%nat)]) as [b' Hb].
    + rewrite Hlen. repeat constructor.
    + clear. simpl. set_solver.
    + rewrite Hlen. clear. intros [|[|j]] Hj; [by left|right; set_solver|lia].
    + exists outs, b'. split; [exact Hs|]. rewrite Hlen in Hb. exact Hb.
Defined.
