(* ===== verification/ConfigLifecycle.v ===== *)
(** * The life cycle of a config object

    Editing, pushing and confirming; the hashes of obsolete messages; the
    encryption key list. *)

From Stdlib Require Import ZArith String Ascii Lia.
From stdpp Require Import base option list strings numbers sorting sets.
From S2P Require Import Prelude OrderedMap Bt Bencode Crypto ConfigData ConfigDiff ConfigMessage ConfigCodec ConfigMerge ConfigReplay Encrypt State Util ConfigBase ConfigState.

Section lifecycle.
Context `{BtLib, Hash, Aead, Zstd, Ed25519, ProtoWrap}.
Context (kind : Kind).

(** What a successful push leaves behind *)
Lemma push_Ok now b s msgs obs b' :
  push kind now b = (Ok (s, msgs, obs), b') →
  s = seqno (config_of b) ∧ obs = (if is_readonly b then [] else _old_hashes b) ∧ _old_hashes b' = [] ∧
  _curr_hashes b' = _curr_hashes b ∧ _keys b' = _keys b ∧
  _state b' = (if is_dirty b then Waiting else _state b) ∧
  seqno (config_of b') = s ∧ callbacks (_config b') = callbacks (_config b) ∧
  ∃ ser, serialize (_config b) true = Ok (ser, _config b').
Proof.
  unfold push. rewrite run_mget. destruct (_keys b) as [|key ks] eqn:Ek; [done|].
  rewrite run_bind. destruct (serialize_config true b) as [[ser|e] b1] eqn:Es; [|done].
  apply serialize_config_frame in Es as (a & Ha & -> & Hcb & Hsq).
  rewrite run_lift. destruct (match compression_level kind with Some lvl => _ | None => _ end); [|done].
  rewrite run_guard. destruct (_ <=? _); [|done]. rewrite run_lift.
  destruct (make_messages _ _ _ _) as [r|]; [|done]. intros Hp.
  assert (∃ mp, ((match r.2 with
                  | Some h => modify (λ b, with_multiparts
                      (minsert h (finish now (MULTIPART_MAX_REMEMBER b)
                         (default no_parts (mfind h (_multiparts b)))) (_multiparts b)) b)
                  | None => skip end) (with_config a b)) = (Ok tt, with_multiparts mp (with_config a b)))
    as [mp Hmp].
  { destruct r.2 as [h|]; [by eexists|]. exists (_multiparts b). by destruct b. }
  rewrite run_bind, Hmp in Hp. rewrite run_mget in Hp.
  change (is_dirty (with_multiparts mp (with_config a b))) with (is_dirty b) in Hp.
  assert (is_readonly (with_config a b) = is_readonly b) as Hro by (by apply callbacks_readonly).
  rewrite run_when in Hp. destruct (is_dirty b) eqn:Ed.
  - rewrite run_bind, set_state_run in Hp. simpl in Hp.
    assert (is_clean (with_multiparts mp (with_config a b)) = false) as Hcl.
    { apply bool_decide_eq_true in Ed. unfold is_clean. simpl. by rewrite Ed. }
    unfold retire in Hp. rewrite Hcl in Hp. simpl in Hp. rewrite run_mget, run_modify in Hp. injection Hp as <- <- <- <-.
    unfold is_readonly, config_of in *. simpl in *. rewrite Hro.
    split_and!; try done; try (by destruct (_ && _)). eauto.
  - rewrite run_mget, run_modify in Hp. injection Hp as <- <- <- <-.
    unfold is_readonly, config_of in *. simpl in *. rewrite Hro.
    split_and!; try done; try (by destruct (_ && _)). eauto.
Qed.

(** A confirmation of what is waiting, run *)
Lemma confirm_pushed_waiting hs b :
  _state b = Waiting →
  confirm_pushed (seqno (config_of b)) hs b =
    (Ok tt, with_needs_dump true (with_curr (hash_set hs) (with_state Clean b))).
Proof.
  intros Hw. unfold confirm_pushed. rewrite run_mget, Hw, Z.eqb_refl. simpl.
  unfold when. rewrite run_bind, set_state_run. simpl. unfold retire, is_clean. by rewrite Hw.
Qed.

(** Any other confirmation changes nothing. *)
Lemma confirm_pushed_stale s hs b :
  _state b ≠ Waiting ∨ s ≠ seqno (config_of b) → confirm_pushed s hs b = (Ok tt, b).
Proof.
  intros Hst. unfold confirm_pushed. rewrite run_mget.
  assert (bool_decide (_state b = Waiting) && (s =? seqno (config_of b)) = false) as ->; [|done].
  apply andb_false_iff. destruct Hst as [Hst|Hst]; [left|right].
  - by apply bool_decide_eq_false.
  - by apply Z.eqb_neq.
Qed.

Lemma update_data_Ok f b b' :
  config_inv b → update_data f b = (Ok tt, b') →
  config_inv b' ∧ _state b' = Dirty ∧ is_readonly b = false ∧
  ∃ m, (if is_dirty b then _config b = Mutable m else increment (_config b) = Ok m) ∧
    _config b' = Mutable (mkMutable (with_data (f (data_ (base m))) (base m)) (orig_data_ m)).
Proof.
  intros Hb Hu. split.
  { pose proof (update_data_inv f b Hb) as Hi. rewrite Hu in Hi. by apply Hi. }
  unfold update_data in Hu. apply M_bind_Ok in Hu as (m & b1 & Hd & Hu).
  injection Hu as <-. assert (is_readonly b = false) as Hro.
  { destruct (is_readonly b) eqn:Hro; [|done]. pose proof (inv_readonly _ Hb Hro) as Hnd.
    rewrite dirty_run, Hro in Hd by done. unfold is_dirty in Hd.
    by rewrite bool_decide_false in Hd. }
  apply dirty_Ok in Hd as (_ & Hc & Hst & _ & _ & _ & _ & Hm); [|done].
  split_and!; [done..|]. eauto.
Qed.

(** ** Obsolete hashes *)

(** A message hash the object still answers for *)
Definition answers_for (h : bytes) (b : ConfigBase) : Prop :=
  h ∈ _curr_hashes b ∨ h ∈ _old_hashes b.

(** Kept together with the part of the invariant that matters here *)
Definition tracked (h : bytes) (b : ConfigBase) : Prop :=
  (_state b ≠ Clean → _curr_hashes b = []) ∧ answers_for h b.

Lemma elem_of_insert_all (x : bytes) xs s : x ∈ insert_all xs s ↔ x ∈ xs ∨ x ∈ s.
Proof.
  rewrite <-!smem_In. unfold insert_all. by rewrite sfold_insert, orb_true_iff.
Qed.

Lemma retire_tracked h b : tracked h b → h ∈ _old_hashes (retire b) ∧ _curr_hashes (retire b) = [].
Proof.
  intros [Hc Hh]. unfold retire, is_clean. destruct (decide (_state b = Clean)) as [E|E].
  - rewrite bool_decide_true by done. destruct (_curr_hashes b) as [|x xs] eqn:Ex; simpl.
    + destruct Hh as [Hh|Hh]; [by rewrite Ex in Hh; apply not_elem_of_nil in Hh|done].
    + split; [|done]. change (h ∈ insert_all (x :: xs) (_old_hashes b)). apply elem_of_insert_all.
      unfold answers_for in Hh. by rewrite Ex in Hh.
  - rewrite bool_decide_false by done. specialize (Hc E). destruct Hh as [Hh|Hh]; [|done].
    rewrite Hc in Hh. by apply not_elem_of_nil in Hh.
Qed.

Lemma set_state_tracked h s : preserves (tracked h) (set_state s).
Proof.
  intros b Hb _. rewrite set_state_run. destruct (_ && is_readonly b); [done|]. simpl.
  apply retire_tracked in Hb as [Ho Hc]. split; simpl; [done|]. by right.
Qed.

Lemma set_clean_curr_tracked h (f : ConfigBase → list bytes) :
  preserves (tracked h) (set_state Clean;; modify (λ b, with_curr (f b) b)).
Proof.
  intros b Hb _. rewrite run_bind, set_state_run. simpl. 
  apply retire_tracked in Hb as [Ho Hc]. split; simpl; [done|]. by right.
Qed.

(** Everything else leaves both sets alone, or only adds to the old ones. *)
Lemma only_tracked h (f : ConfigBase → ConfigBase) :
  (∀ b, _state (f b) = _state b) → (∀ b, _curr_hashes (f b) = _curr_hashes b) →
  (∀ b, h ∈ _old_hashes b → h ∈ _old_hashes (f b)) →
  preserves (tracked h) (modify f).
Proof.
  intros Hs Hc Ho. apply preserves_modify. intros b [Hk Hh]. unfold tracked, answers_for in *.
  rewrite Hs, Hc. split; [done|]. naive_solver.
Qed.

Ltac keep_hashes :=
  repeat lazymatch goal with
  | |- preserves _ (modify _) => apply only_tracked; done
  | _ => preserve_step
  end.

Lemma dirty_tracked h : preserves (tracked h) dirty.
Proof. unfold dirty. keep_hashes. apply set_state_tracked. Qed.

Lemma remove_key_tracked h k from d : preserves (tracked h) (remove_key k from d).
Proof. unfold remove_key. keep_hashes. apply dirty_tracked. Qed.

Lemma add_key_tracked h k hp d : preserves (tracked h) (add_key k hp d).
Proof.
  unfold add_key, has_key. keep_hashes; [apply remove_key_tracked|apply dirty_tracked].
Qed.

Lemma clear_keys_tracked h d : preserves (tracked h) (clear_keys d).
Proof. unfold clear_keys. keep_hashes. apply dirty_tracked. Qed.

Lemma serialize_config_tracked h en : preserves (tracked h) (serialize_config en).
Proof. unfold serialize_config. keep_hashes. Qed.

Lemma process_all_tracked h now l i : preserves (tracked h) (process_all now l i).
Proof.
  revert i; induction l as [|[x p] l IH]; intros i; simpl; [apply preserves_ret|].
  apply preserves_bind; [|intros ?; apply IH].
  unfold process_plain. destruct (strip_padding p) as [|c rest]; [apply preserves_ret|].
  destruct c as [[] [] [] [] [] [] [] []]; keep_hashes.
  unfold _handle_multipart, handle_part, put_parts. keep_hashes.
Qed.

Lemma adopt_tracked h c s sup mine all : preserves (tracked h) (adopt c s sup mine all).
Proof.
  unfold adopt. destruct (_ =? s); [apply preserves_ret|]. apply preserves_reading. intros b0.
  destruct (merged _); [keep_hashes; apply set_state_tracked|].
  destruct (_ && _); [apply preserves_ret|]. apply preserves_bind; [by apply only_tracked|intros _].
  intros b Hb _. rewrite run_bind, set_state_run. simpl. rewrite run_lift.
  apply retire_tracked in Hb as [Ho Hc].
  destruct (match sup with Some i => _ | None => _ end); (split; simpl; [done|by right]).
Qed.

Lemma merge_tracked h now configs : preserves (tracked h) (_merge kind now configs).
Proof.
  unfold _merge, merge_confs, _expire_multiparts. keep_hashes.
  - apply serialize_config_tracked.
  - apply process_all_tracked.
  - apply only_tracked; [done..|]. intros b Hb. by apply elem_of_insert_all; right.
  - apply adopt_tracked.
Qed.

(** A push that fails changes at most the cached diff of the message. *)
Lemma push_Throw now b e b' :
  push kind now b = (Throw e, b') → ∃ a, b' = with_config a b.
Proof.
  unfold push. rewrite run_mget. destruct (_keys b) as [|key ks] eqn:Ek.
  { intros [= _ <-]. exists (_config b). by destruct b. }
  rewrite run_bind. unfold serialize_config at 1. rewrite run_mget, run_lift.
  destruct (serialize (_config b) true) as [[s a]|e'].
  2: { intros [= _ <-]. exists (_config b). by destruct b. }
  rewrite run_modify. cbn [fst snd mret M_ret]. rewrite run_lift.
  destruct (match compression_level kind with Some lvl => _ | None => _ end);
    [|intros [= _ <-]; by eexists].
  rewrite run_guard. destruct (_ <=? _); [|intros [= _ <-]; by eexists].
  rewrite run_lift. destruct (make_messages _ _ _ _) as [r|]; [|intros [= _ <-]; by eexists].
  destruct r.2; rewrite ?run_modify, ?run_skip, run_mget, run_when, ?run_bind, set_state_run;
    simpl; destruct (is_dirty _); discriminate.
Qed.

(** The hashes a call hands to its caller to delete from the server *)
Definition handed_out (o : op) (b : ConfigBase) : list bytes :=
  match o with
  | OpPush now => match (push kind now b).1 with Ok (_, _, obs) => obs | Throw _ => [] end
  | OpOldHashes => match (old_hashes b).1 with Ok hs => hs | Throw _ => [] end
  | _ => []
  end.

(** Calls that drop the old hashes of an object that cannot delete them *)
Definition drops_old (o : op) : bool :=
  match o with OpPush _ | OpDump _ _ => true | _ => false end.

Lemma other_op_tracked h o :
  match o with OpPush _ | OpDump _ _ | OpOldHashes => False | _ => True end →
  preserves (tracked h) (run_op kind o).
Proof.
  destruct o as [f|now cs|now|s hs|now extra| |k hp d|k from d|ks d|d|sk|sk|pk| |w r]; intros Ho; try done; cbn [run_op].
  - unfold update_data. keep_hashes. apply dirty_tracked.
  - unfold merge_incoming. keep_hashes; apply merge_tracked.
  - unfold confirm_pushed. apply preserves_reading. intros b0. apply preserves_when.
    intros b Hb _. rewrite run_bind, set_state_run. simpl.
    apply retire_tracked in Hb as [Hold Hc]. split; simpl; [done|]. by right.
  - apply add_key_tracked.
  - keep_hashes. apply remove_key_tracked.
  - unfold replace_keys. keep_hashes; [apply clear_keys_tracked|apply add_key_tracked|apply dirty_tracked].
  - keep_hashes. apply clear_keys_tracked.
  - unfold load_key. keep_hashes. apply add_key_tracked.
  - intros b Hb _. rewrite set_sig_keys_run. by destruct (_ =? _).
  - intros b Hb _. rewrite set_sig_pubkey_run. by destruct (_ =? _).
  - intros b Hb _. by rewrite clear_sig_keys_run.
  - keep_hashes.
Qed.

Lemma dump_answers_for h now extra b :
  is_readonly b = false → answers_for h b → answers_for h (dump now extra b).2.
Proof.
  intros Hro Hh. unfold dump. rewrite run_mget, Hro, run_when. unfold _expire_multiparts.
  rewrite run_modify, run_bind. unfold make_dump, serialize_config. rewrite !run_bind.
  unfold mget, lift. cbn [fst snd]. destruct (serialize _ _) as [[s a]|]; done.
Qed.

(** C38 (safety): no obsolete message is forgotten.  A hash the object answers
    for - one of the messages its current config is stored in, or one it has
    found obsolete - is still among its current or old hashes after any call
    with a defined outcome (also one that throws), unless that call handed it
    to the caller as obsolete; only an object without signing key, which
    cannot delete anything, drops old hashes on pushing and dumping. *)
Theorem obsolete_hashes_accounted h o b :
  config_inv b → answers_for h b → defined (run_op kind o b).1 →
  answers_for h (run_op kind o b).2 ∨ h ∈ handed_out o b ∨
  is_readonly b = true ∧ drops_old o = true.
Proof.
  intros Hb Hh Hd. assert (tracked h b) as Ht by (split; [apply (inv_hashes _ Hb)|done]).
  destruct o as [f|now cs|now|s hs|now extra| |k hp d|k from d|ks d|d|sk|sk|pk| |w r];
    try (left; by refine (proj2 (other_op_tracked h _ _ b Ht Hd))).
  - cbn [run_op handed_out]. rewrite run_bind. destruct (push kind now b) as [[[[s msgs] obs]|e] b'] eqn:Ep; simpl.
    + apply push_Ok in Ep as (_ & Hobs & _ & Hc & _).
      destruct (is_readonly b); [by right; right|]. destruct Hh as [Hh|Hh].
      * left. left. unfold answers_for. by rewrite Hc.
      * right. left. by rewrite Hobs.
    + apply push_Throw in Ep as [a ->]. by left.
  - destruct (is_readonly b) eqn:Er; [by right; right|]. left. cbn [run_op]. rewrite run_bind.
    apply (dump_answers_for h now extra) in Hh; [|done].
    by destruct (dump now extra b) as [[?|?] ?].
  - cbn [run_op handed_out]. rewrite run_bind. unfold old_hashes. rewrite run_mget.
    destruct (is_dirty b); [by left|]. simpl. destruct Hh as [Hh|Hh]; [by left; left|].
    by right; left.
Qed.

(** ** Publishing a config *)
Lemma increment_impl_seqno m mm :
  increment_impl m = Ok mm → seqno (base mm) = seqno m + 1.
Proof. unfold increment_impl, add_i64. intros Hi. inv_result. by destruct (in_int64 _); inv_result. Qed.

Lemma increment_seqno a m : increment a = Ok m → seqno (base m) = seqno (as_base a) + 1.
Proof.
  destruct a as [c|c]; simpl; intros Hi; [by apply increment_impl_seqno|].
  unfold mutable_hash, mutable_diff in Hi. inv_result. by apply increment_impl_seqno in Hi.
Qed.

(** C6 (invariant): in every state an object can get into, whether it is new or
    made from a dump of such an object, and whatever the order of edits, merges
    of arbitrary messages, pushes, confirmations, dumps and changes of the
    encryption and signing keys, and whether they return or throw: a dirty
    object holds a mutable message and can be signed; its encryption keys are
    distinct and 32 bytes long; its hash sets are ordered, and only a clean
    object has current hashes; every unfinished multipart set has ascending part
    numbers below its size, and a finished one has no parts. Two things are left
    out, as the code does not refuse them and they do break it: a dirty object
    without signing key is given a public key, and the dump of a dirty object is
    loaded with a public key only ([dirty_made_readonly]). *)
Theorem reachable_invariant `{!BtLaws} b : reachable kind b → config_inv b.
Proof. exact (reachable_config_inv kind b). Qed.

(** (functional): publishing.  A successful push of a dirty object hands
    out its sequence number and its old hashes and leaves it waiting with the
    same sequence number.  The confirmation of that number then makes it clean
    with the confirmed hashes as current ones, and nothing else changes; but
    when the config was edited in the meantime the confirmation is ignored,
    and it still is after the next push, which has the next number. *)
Theorem publish_cycle now b s msgs obs b1 :
  config_inv b → _state b = Dirty → push kind now b = (Ok (s, msgs, obs), b1) →
  s = seqno (config_of b) ∧ obs = _old_hashes b ∧ _old_hashes b1 = [] ∧
  _state b1 = Waiting ∧ seqno (config_of b1) = s ∧
  (∀ hs, confirm_pushed s hs b1 =
     (Ok tt, with_needs_dump true (with_curr (hash_set hs) (with_state Clean b1)))) ∧
  (∀ f b2, update_data f b1 = (Ok tt, b2) →
     _state b2 = Dirty ∧ (∀ hs, confirm_pushed s hs b2 = (Ok tt, b2)) ∧
     ∀ now' s' msgs' obs' b3, push kind now' b2 = (Ok (s', msgs', obs'), b3) →
       s' = s + 1 ∧ ∀ hs, confirm_pushed s hs b3 = (Ok tt, b3)).
Proof.
  intros Hb Hst Hp. assert (config_inv b1) as Hb1.
  { pose proof (push_inv kind now b Hb) as Hi. rewrite Hp in Hi. by apply Hi. }
  assert (is_readonly b = false) as Hro.
  { destruct (is_readonly b) eqn:Hro; [|done]. by apply (inv_readonly _ Hb) in Hro. }
  apply push_Ok in Hp as (Hs & Hobs & Hold & _ & _ & Hw & Hs1 & _).
  unfold is_dirty in Hw. rewrite Hst, bool_decide_true in Hw by done. rewrite Hro in Hobs.
  split_and!; try done.
  - intros hs. rewrite <-Hs1. by apply confirm_pushed_waiting.
  - intros f b2 Hu. apply update_data_Ok in Hu as (Hb2 & Hd & _ & m & Hm & Hc); [|done].
    unfold is_dirty in Hm. rewrite Hw, bool_decide_false in Hm by done.
    split_and!; [done|intros hs; apply confirm_pushed_stale; left; by rewrite Hd|].
    intros now' s' msgs' obs' b3 Hp'. apply push_Ok in Hp' as (Hs' & _ & _ & _ & _ & _ & Hs3 & _).
    assert (s' = s + 1) as ->.
    { rewrite Hs'. unfold config_of in *. rewrite Hc. simpl. apply increment_seqno in Hm.
      unfold seqno in *. simpl in *. congruence. }
    split; [done|]. intros hs. apply confirm_pushed_stale. right. lia.
Qed.

(** ** Encryption keys *)
Definition without (k : bytes) (ks : list bytes) : list bytes :=
  List.filter (λ x, negb (keqb k x)) ks.
Definition with_last (k : bytes) (ks : list bytes) : list bytes :=
  if existsb (keqb k) ks then ks else ks ++ [k].

Lemma without_absent k ks : k ∉ ks → without k ks = ks.
Proof.
  induction ks as [|x ks IH]; simpl; [done|]. intros Hk. unfold without in *. simpl.
  destruct (keqb k x) eqn:E; [apply keqb_spec in E as ->; set_solver|]. simpl. f_equal. apply IH. set_solver.
Qed.

Lemma with_enc_keys_id b : with_enc_keys (_keys b) b = b.
Proof. by destruct b. Qed.

Lemma add_first_key k b :
  NoDup (_keys b) → size k = 32 →
  add_key k true false b = (Ok tt, with_enc_keys (k :: without k (_keys b)) b).
Proof.
  intros Hnd Hk. rewrite add_key_run by done. unfold keys_with. simpl.
  destruct (_keys b) as [|k0 ks] eqn:E; [done|]. destruct (keqb k0 k) eqn:E0.
  - apply keqb_spec in E0 as ->. unfold without. simpl. rewrite keqb_refl. simpl.
    apply NoDup_cons in Hnd as [Hni _]. fold (without k ks). rewrite without_absent by done.
    by rewrite <-E, with_enc_keys_id.
  - unfold without. simpl. assert (keqb k k0 = false) as ->; [|done].
    apply not_true_iff_false. intros ->%keqb_spec. by rewrite keqb_refl in E0.
Qed.

Lemma add_last_key k b :
  size k = 32 → add_key k false false b = (Ok tt, with_enc_keys (with_last k (_keys b)) b).
Proof.
  intros Hk. rewrite add_key_run by done. unfold keys_with, with_last. simpl.
  destruct (_keys b) as [|k0 ks] eqn:E; [done|]. destruct (keqb k0 k) eqn:E0.
  - apply keqb_spec in E0 as ->. simpl. rewrite keqb_refl. simpl. by rewrite <-E, with_enc_keys_id.
  - destruct (existsb (keqb k) (k0 :: ks)); [by rewrite <-E, with_enc_keys_id|done].
Qed.

Lemma add_last_keys ks b :
  Forall (λ k, size k = 32) ks →
  forM_ ks (λ k, add_key k false false) b =
    (Ok tt, with_enc_keys (fold_left (λ acc k, with_last k acc) ks (_keys b)) b).
Proof.
  intros Hf. revert b. induction Hf as [|k ks Hk Hf IH]; intros b.
  { simpl. by rewrite with_enc_keys_id. }
  cbn [forM_ fold_left]. rewrite run_bind, add_last_key by done. by rewrite IH.
Qed.

(** (functional): the encryption key list.  Adding a key with priority puts
    it first, the one used to encrypt, and keeps the others in their order;
    adding one without appends it unless it is known; removing takes it out
    from the given position on and reports whether it was there; replacing
    gives exactly the new keys in order of first occurrence. *)
Theorem key_list_semantics k b :
  config_inv b → size k = 32 →
  add_key k true false b = (Ok tt, with_enc_keys (k :: without k (_keys b)) b) ∧
  add_key k false false b = (Ok tt, with_enc_keys (with_last k (_keys b)) b) ∧
  (∀ from, remove_key k from false b =
     (Ok (existsb (keqb k) (drop from (_keys b))),
      with_enc_keys (take from (_keys b) ++ without k (drop from (_keys b))) b)) ∧
  (∀ ks, Forall (λ k, size k = 32) (k :: ks) →
     replace_keys (k :: ks) false b =
       (Ok tt, with_enc_keys (fold_left (λ acc k, with_last k acc) (k :: ks) []) b)).
Proof.
  intros Hb Hk. split_and!; [apply add_first_key; [apply Hb|done]|by apply add_last_key| |].
  - intros from. unfold remove_key. rewrite run_mget.
    destruct (Nat.leb_spec (length (_keys b)) from) as [Hl|Hl].
    { rewrite drop_ge, take_ge by lia. simpl. by rewrite app_nil_r, with_enc_keys_id. }
    rewrite stake_all by (unfold size in Hk; lia).
    rewrite run_guard, Hk, run_modify, run_when. unfold gets. simpl. f_equal. f_equal. f_equal.
    rewrite length_app, length_take_le by lia. unfold without.
    assert (∀ l : list bytes, (length (List.filter (λ x, negb (keqb k x)) l) <? length l)%nat =
              existsb (keqb k) l) as Hlen.
    { induction l as [|x l IHl]; simpl; [done|]. pose proof (filter_length_le (λ x, negb (keqb k x)) l).
      destruct (keqb k x); simpl; [apply Nat.ltb_lt; lia|]. by rewrite <-IHl. }
    rewrite <-Hlen, length_drop. apply eq_bool_prop_intro. rewrite !Is_true_true, !Nat.ltb_lt. lia.
  - intros ks Hf. unfold replace_keys. rewrite run_mget, run_guard.
    assert (forallb (λ k, size k =? KEY_SIZE) (k :: ks) = true) as ->.
    { apply forallb_forall. intros x Hx%list_elem_of_In. rewrite Forall_forall in Hf. by apply Z.eqb_eq, Hf. }
    rewrite run_modify, run_bind, add_last_keys by done. simpl. done.
Qed.
End lifecycle.

(** ** Examples *)
Definition set_name (v : bytes) (d : dict) : dict := minsert "n" (DScalar (inr v)) d.

Definition edited_config : ConfigBase := final (update_data (set_name "Kallie")) new_config.
Definition pushed_config : ConfigBase := final (push sample_kind 0) edited_config.
Definition stored_config : ConfigBase := final (confirm_pushed 1 ["hash1"]) pushed_config.

Lemma reachable_new : reachable sample_kind new_config.
Proof.
  unfold new_config, final. rewrite run_bind.
  destruct (init sample_kind 0 None None None _) as [[x|e] b] eqn:E; [|by vm_compute in E].
  refine (reach_step _ _ _ (reach_new _ _ _ _ _ _ _ E) (step_op _ (OpAddKey sample_key true false) b I _)).
  vm_compute in E. injection E as <- <-. by vm_compute.
Qed.

Lemma reachable_edited : reachable sample_kind edited_config.
Proof.
  refine (reach_step _ _ _ reachable_new (step_op _ (OpEdit (set_name "Kallie")) _ I _)).
  by vm_compute.
Qed.

Lemma reachable_stored : reachable sample_kind stored_config.
Proof.
  refine (reach_step _ _ _ _ (step_op _ (OpConfirm 1 ["hash1"]) pushed_config I _)); [|by vm_compute].
  replace pushed_config with (run_op sample_kind (OpPush 0) edited_config).2.
  - refine (reach_step _ _ _ reachable_edited (step_op _ (OpPush 0) _ I _)). by vm_compute.
  - unfold pushed_config, final. cbn [run_op]. rewrite run_bind.
    by destruct (push sample_kind 0 edited_config) as [[]].
Qed.

(** The edited object is dumped before it is pushed, and started again with its
    signing key. *)
Definition sample_secret : bytes := zeros 64.
Definition dump_of_edited : bytes := match (dump 0 [] edited_config).1 with Ok raw => raw | Throw _ => "" end.
Definition restarted_config : ConfigBase :=
  final (init sample_kind 0 (Some dump_of_edited) None (Some sample_secret)) (fresh (Immutable (no_message None None 5))).

Lemma reachable_restarted : reachable sample_kind restarted_config.
Proof.
  unfold restarted_config, final.
  destruct (init sample_kind 0 (Some dump_of_edited) None (Some sample_secret) (fresh (Immutable (no_message None None 5))))
    as [[x|e] b] eqn:E; [|by vm_compute in E].
  refine (reach_load _ edited_config 0 [] dump_of_edited (dump 0 [] edited_config).2 _ _ _ _ _ _ reachable_edited _ _ E _).
  - split; [done|]. split; [done|]. intros h p Hin. vm_compute in Hin. by apply not_elem_of_nil in Hin.
  - left. vm_compute. reflexivity.
  - done.
Qed.

Lemma reachable_invariant_witness :
  (config_inv stored_config ∧ _curr_hashes stored_config = ["hash1"]) ∧
  (config_inv restarted_config ∧ _state restarted_config = Dirty).
Proof.
  split.
  - split; [exact (reachable_invariant sample_kind _ reachable_stored)|by vm_compute].
  - split; [exact (reachable_invariant sample_kind _ reachable_restarted)|by vm_compute].
Defined.

(** A public key makes a dirty object read-only while it stays dirty, by a call
    as well as by a restart; it then pushes a message without signature. *)
Lemma dirty_made_readonly :
  let given := final (run_op sample_kind (OpSetSigPubkey (zeros 32))) edited_config in
  let loaded := final (init sample_kind 0 (Some dump_of_edited) (Some (zeros 32)) None) (fresh (Immutable (no_message None None 5))) in
  (is_dirty given && is_readonly given = true ∧ is_ok (push sample_kind 0 given).1 = true) ∧
  is_dirty loaded && is_readonly loaded = true.
Proof. vm_compute. done. Qed.

Lemma obsolete_hashes_accounted_witness :
  answers_for "hash1" (final (run_op sample_kind (OpEdit (set_name "Kari"))) stored_config) ∧
  _curr_hashes (final (run_op sample_kind (OpEdit (set_name "Kari"))) stored_config) = [].
Proof.
  split; [|by vm_compute].
  destruct (obsolete_hashes_accounted sample_kind "hash1" (OpEdit (set_name "Kari")) stored_config)
    as [Ha|[Hh|[Hr _]]]; [exact (reachable_config_inv _ _ reachable_stored)| |by vm_compute| | |].
  - left. apply smem_In. by vm_compute.
  - exact Ha.
  - by apply not_elem_of_nil in Hh.
  - by vm_compute in Hr.
Defined.

Lemma publish_cycle_witness :
  ∃ s msgs obs b1, push sample_kind 0 edited_config = (Ok (s, msgs, obs), b1) ∧ s = 1 ∧
    _state b1 = Waiting ∧ length msgs = 1%nat ∧
    _state (final (confirm_pushed 1 ["hash1"]) b1) = Clean.
Proof.
  destruct (push sample_kind 0 edited_config) as [[[[s msgs] obs]|e] b1] eqn:E; [|by vm_compute in E].
  destruct (publish_cycle sample_kind 0 _ s msgs obs b1 (reachable_config_inv _ _ reachable_edited) eq_refl E)
    as (Hs & _ & _ & Hw & _ & Hc & _).
  assert (s = 1) as -> by (rewrite Hs; by vm_compute).
  exists 1, msgs, obs, b1. split_and!; [done..|by vm_compute in E; injection E as <- _ _|].
  unfold final. by rewrite Hc.
Defined.

Lemma key_list_semantics_witness :
  _keys (final (add_key (zeros 31 +:+ "k") true false) stored_config) = [zeros 31 +:+ "k"; sample_key].
Proof.
  destruct (key_list_semantics (zeros 31 +:+ "k") stored_config) as [Ha _];
    [exact (reachable_config_inv _ _ reachable_stored)|by vm_compute|].
  unfold final. rewrite Ha. by vm_compute.
Defined.
