(* ===== verification/ConfigSync.v ===== *)
(** * From one device to another

    What [push] sends on one device, [merge] decrypts, decompresses,
    reassembles, parses and adopts on another one. *)

From Stdlib Require Import ZArith String Ascii Lia.
From stdpp Require Import base option list strings numbers sorting sets.
From S2P Require Import Prelude OrderedMap Bt Bencode Crypto ConfigData ConfigDiff ConfigMessage ConfigCodec ConfigMerge ConfigReplay ConfigEdit Encrypt State Util ConfigBase ConfigState ConfigParts ConfigLifecycle.

(** ** Transport: compression, padding, splitting and encryption undone *)
Section transport.
Context `{BtLib, Hash, Aead, Zstd, Ed25519, ProtoWrap}.
Context `{!BtLaws, !BtSizes, !HashLaws, !AeadLaws, !ZstdLaws}.
Context (kind : Kind).

(** A serialized config, compressed or not *)
Definition carries (text ser : bytes) : Prop :=
  text = ser ∨ ∃ c, text = String "z" c ∧ zstd_decompress c 0 = Some ser.

Definition compressed (ser : bytes) : result bytes :=
  match compression_level kind with Some lvl => compress_message ser lvl | None => Ok ser end.

Lemma compressed_carries ser text : compressed ser = Ok text → carries text ser.
Proof.
  unfold compressed. destruct (compression_level kind) as [lvl|]; [|intros [= ->]; by left].
  unfold compress_message. destruct (lvl =? 0); [intros [= ->]; by left|].
  intros Hc. inv_result. destruct (_ <? _); [|by left]. right.
  unfold zstd_compress in E. inv_result. exists a0. split; [done|].
  unfold zstd_decompress. by rewrite (zstd_roundtrip lvl ser a0).
Qed.

Definition is_dict (ser : bytes) : Prop := ∃ r, ser = String "d" r.

Lemma carries_nonzero text ser : carries text ser → is_dict ser → starts_nonzero text = true.
Proof. by intros [->|(c & -> & _)] [r ->]. Qed.

Lemma process_plain_carries now h plain i b text ser :
  strip_padding plain = text → carries text ser → is_dict ser →
  process_plain now h plain i b = (Ok (add_conf [h] ser (add_good h i)), b).
Proof.
  intros Hs Hc [r ->]. unfold process_plain. rewrite Hs.
  destruct Hc as [->|(c & -> & Hz)]; [done|]. by rewrite Hz.
Qed.

Lemma inflate_carries plain text ser :
  strip_padding plain = text → carries text ser → is_dict ser → inflate plain = Ok ser.
Proof.
  intros Hs Hc [r ->]. unfold inflate. rewrite Hs.
  destruct Hc as [->|(c & -> & Hz)]; [done|]. by rewrite Hz.
Qed.

(** Multipart messages, one after the other *)
Definition note (i : Incoming) (x : bytes * (bool * option (list bytes * bytes))) : Incoming :=
  let i := if x.2.1 then add_good x.1 i else i in
  match x.2.2 with Some (ids, conf) => add_conf ids conf i | None => i end.

Lemma process_all_receive now l i b rs b' :
  Forall (λ p, ∃ r, p.2 = String "m" r) l →
  receive ((λ p, (now, p.1, p.2)) <$> l) b = (Ok rs, b') →
  process_all now l i b = (Ok (fold_left note (zip (fst <$> l) rs) i), b').
Proof.
  intros Hl. revert i b rs. induction Hl as [|[h p] l [r Hp] Hl IH]; intros i b rs Hr.
  { injection Hr as <- <-. done. }
  simpl in Hp. rewrite !fmap_cons in *. cbn [receive fst snd] in Hr. cbn [process_all fst snd].
  rewrite run_bind in Hr. destruct (_handle_multipart now h p b) as [[x|e] b1] eqn:E; [|done].
  rewrite run_bind in Hr. destruct (receive _ b1) as [[xs|e] b2] eqn:E2; [|done].
  injection Hr as <- <-. cbn [zip zip_with fold_left].
  rewrite run_bind. assert (process_plain now h p i b = (Ok (note i (h, x)), b1)) as ->.
  { unfold process_plain. assert (strip_padding p = String "m" r) as ->
      by (rewrite Hp; by apply (strip_zeros 0)).
    rewrite <-Hp, run_bind. cbn [fst snd] in E. rewrite E. by destruct x as [acc [[ids conf]|]]. }
  by apply IH.
Qed.

Definition add_goods (hs : list bytes) (i : Incoming) : Incoming := fold_left (λ i h, add_good h i) hs i.

Lemma note_nothing hs i :
  fold_left note (zip hs (replicate (length hs) (true, None))) i = add_goods hs i.
Proof. revert i; induction hs as [|h hs IH]; intros i; [done|]. apply IH. Qed.

(** ** Multipart messages received in order *)
Lemma zip_delivered now hs outs :
  length hs = length outs →
  ((λ p, (now, p.1, p.2)) <$> zip hs outs) =
  (delivered (λ k, default "" (hs !! k)) outs <$> ((λ k, (now, k)) <$> seq 0 (length outs))).
Proof.
  intros Hl. apply list_eq. intros k. rewrite !list_lookup_fmap, lookup_zip_with.
  destruct (decide (k < length outs)%nat) as [Hk|Hk].
  - rewrite lookup_seq_lt by done. simpl. unfold delivered. simpl.
    assert (is_Some (hs !! k)) as [h Hh] by (apply lookup_lt_is_Some; lia).
    apply lookup_lt_is_Some in Hk as [o Ho]. by rewrite Hh, Ho.
  - rewrite lookup_seq_ge by lia. rewrite (lookup_ge_None_2 hs) by lia. done.
Qed.

Lemma fmap_seq_lookup (hs : list bytes) n :
  length hs = n → (λ k, default "" (hs !! k)) <$> seq 0 n = hs.
Proof.
  intros Hl. apply list_eq. intros k. rewrite list_lookup_fmap.
  destruct (decide (k < n)%nat) as [Hk|Hk].
  - rewrite lookup_seq_lt by done. simpl.
    assert (is_Some (hs !! k)) as [h Hh] by (apply lookup_lt_is_Some; lia). by rewrite Hh.
  - rewrite lookup_seq_ge by lia. by rewrite lookup_ge_None_2 by lia.
Qed.

Lemma receive_in_order now msg ser hs outs b :
  splittable msg → inflate msg = Ok ser → mfind (blake2b msg) (_multiparts b) = None →
  split_message msg = Ok outs → length hs = length outs →
  ∃ b', receive ((λ p, (now, p.1, p.2)) <$> zip hs outs) b =
    (Ok (replicate (length outs - 1) (true, None) ++ [(true, Some (hs, ser))]), b').
Proof.
  intros Hs Hin Hnone Hsp Hl. rewrite zip_delivered by done.
  destruct (splittable_parts msg Hs) as [Hn Hlen].
  rewrite split_message_ok in Hsp by done. rewrite <-Hlen in Hsp. injection Hsp as <-.
  pose proof (chunks_concat (String.length msg) msg (le_n _)) as Hcat.
  pose proof (chunks_sizes (String.length msg) msg) as Hcs.
  set (cs := chunks (String.length msg) msg) in *.
  assert (length (all_parts (blake2b msg) (Z.of_nat (length cs)) cs) = length cs) as Hap by apply length_imap.
  rewrite Hap in *. clear Hap.
  destruct (length cs) as [|n] eqn:En; [lia|].
  rewrite seq_S, fmap_app. change ((λ k, (now, k)) <$> [(0 + n)%nat]) with [(now, n)].
  destruct (receive_numbers (λ k, default "" (hs !! k)) cs (blake2b msg) ser
    ((λ k, (now, k)) <$> seq 0 n) now n [] b) as [b' Hb]; rewrite ?Hcat, ?En; auto; [lia| | | |].
  - apply Forall_app. split; [|repeat constructor].
    apply Forall_fmap, Forall_forall. intros k Hk%elem_of_seq. simpl. lia.
  - rewrite <-list_fmap_compose. intros (k & -> & Hk%elem_of_seq)%list_elem_of_fmap. simpl in Hk. lia.
  - intros j Hj. rewrite <-list_fmap_compose. destruct (decide (j = n)) as [->|Hne]; [by left|right].
    apply list_elem_of_fmap. exists j. split; [done|]. apply elem_of_seq. lia.
  - exists b'. rewrite En in Hb. rewrite Hb. rewrite length_fmap, length_seq, fmap_seq_lookup by done.
    simpl. by rewrite Nat.sub_0_r.
Qed.

Lemma note_parts hs ser i n :
  length hs = S n →
  fold_left note (zip hs (replicate n (true, None) ++ [(true, Some (hs, ser))])) i =
  add_conf hs ser (add_goods hs i).
Proof.
  intros Hl. destruct (exists_last (l := hs)) as (hs0 & h & E); [by destruct hs|].
  generalize hs at 2 3. intros all. rewrite E in Hl |- *. rewrite length_app in Hl. simpl in Hl.
  assert (length hs0 = n) as <- by lia.
  rewrite zip_with_app by (by rewrite length_replicate). rewrite fold_left_app, note_nothing.
  unfold add_goods. by rewrite fold_left_app.
Qed.

(** ** Encryption and wrapping undone *)

(** What the protobuf wrapping has to satisfy, for the kinds that use it: a
    wrapped message unwraps, and an encrypted one does not look wrapped. *)
Record proto_ok (key : bytes) : Prop := {
  po_wrap : ∀ msg s w, wrap_config key msg s (storage_namespace kind) = Ok w →
    unwrap_config key w (storage_namespace kind) = Ok msg;
  po_sealed : ∀ m c, encrypt m key (encryption_domain kind) = Ok c →
    ∃ e, unwrap_config key c (storage_namespace kind) = Throw e;
}.

Definition received (key c : bytes) : bytes := if accepts_protobuf kind then unwrap kind key c else c.

Context (key : bytes) (Hkey : size key = 32)
  (Hdom : 1 ≤ size (encryption_domain kind) ≤ DOMAIN_MAX_SIZE)
  (Hproto : accepts_protobuf kind = true → proto_ok key).

Lemma received_sealed m c : encrypt m key (encryption_domain kind) = Ok c → received key c = c.
Proof.
  intros He. unfold received. destruct (accepts_protobuf kind) eqn:Ep; [|done].
  destruct (po_sealed _ (Hproto eq_refl) m c He) as [e Hu]. unfold unwrap. by rewrite Hu.
Qed.

Lemma try_decrypt_sealed ks m c :
  size m + ENCRYPT_DATA_OVERHEAD < 2 ^ 64 → encrypt m key (encryption_domain kind) = Ok c →
  try_decrypt kind (key :: ks) c = Ok (Some m).
Proof.
  intros Hsz He. destruct (encrypt_decrypt m key (encryption_domain kind)) as (c' & He' & _ & Hd); [done..|].
  rewrite He in He'. injection He' as <-. cbn [try_decrypt]. by rewrite Hd.
Qed.

Lemma decrypt_all_sealed ks hs plains cs :
  Forall2 (λ m c, encrypt m key (encryption_domain kind) = Ok c ∧
                  size m + ENCRYPT_DATA_OVERHEAD < 2 ^ 64) plains cs →
  length hs = length cs → decrypt_all kind (key :: ks) (zip hs cs) = Ok (zip hs plains).
Proof.
  intros Hf. revert hs. induction Hf as [|m c plains cs [He Hsz] Hf IH]; intros [|h hs] Hl; try done.
  cbn [zip zip_with decrypt_all]. rewrite (try_decrypt_sealed ks m c) by done. rewrite bind_ret.
  injection Hl as Hl. unfold zip in IH. by rewrite IH, bind_ret.
Qed.

Lemma mapR_Forall2 {A B} (f : A → result B) l l' :
  mapR f l = Ok l' → Forall2 (λ a b, f a = Ok b) l l'.
Proof.
  revert l'; induction l as [|a l IH]; intros l' Hm; simpl in Hm; inv_result; [constructor|].
  constructor; auto.
Qed.

(** What the receiver decrypts: the message itself, or its parts *)
Lemma make_messages_received msg s msgs oh :
  make_messages kind msg key s = Ok (msgs, oh) → size msg ≤ MAX_MULTIPART_SIZE →
  ∃ plains, length plains = length msgs ∧
    (∀ hs ks, length hs = length msgs →
       decrypt_all kind (key :: ks) (zip hs (received key <$> msgs)) = Ok (zip hs plains)) ∧
    (if MAX_MESSAGE_SIZE <? size msg + ENCRYPT_DATA_OVERHEAD
     then split_message msg = Ok plains else plains = [msg]).
Proof.
  unfold make_messages, ENCRYPT_DATA_OVERHEAD. intros Hm Hsz. change MAX_MULTIPART_SIZE with 5000000 in Hsz.
  destruct (Z.ltb_spec MAX_MESSAGE_SIZE (size msg + 40)) as [Hlt|Hge].
  - inv_result. rename a into outs. apply mapR_Forall2 in E0.
    assert (splittable msg) as Hok%split_message_ok by (split; [exact Hlt|done]).
    assert (Forall (λ o, size o + ENCRYPT_DATA_OVERHEAD < 2 ^ 64) outs) as Hos.
    { rewrite E in Hok. injection Hok as ->. apply Forall_forall.
      intros o (k & c & -> & Hc%list_elem_of_lookup_2)%elem_of_lookup_imap_1.
      apply chunks_sizes in Hc. destruct (encode_part_ok (blake2b msg) (Z.of_nat k) (num_parts_of msg) c)
        as [_ ->]; [by apply generichash_size|done|].
      change MAX_CHUNK_SIZE with 76710 in Hc. unfold ENCODE_OVERHEAD, ENCRYPT_DATA_OVERHEAD. lia. }
    exists outs. split_and!; [by apply Forall2_length in E0| |done]. intros hs ks Hl.
    assert ((received key <$> msgs) = msgs) as ->.
    { clear -E0 Hproto. induction E0 as [|o c os cs He _ IH]; [done|]. rewrite fmap_cons, IH.
      f_equal. by apply (received_sealed o). }
    apply decrypt_all_sealed; [|done]. clear -E0 Hos. induction E0; inversion Hos; constructor; auto.
  - inv_result. rename a into c. exists [msg].
    assert (∃ w, msgs = [w] ∧ received key w = c) as (w & -> & Hw).
    { pose proof (received_sealed msg c E) as Hr. pose proof Hproto as Hp.
      destruct (accepts_protobuf kind) eqn:Ep; inv_result.
      - eexists. split; [done|]. unfold received. rewrite Ep. destruct (_ <=? _).
        + unfold unwrap. rewrite (po_wrap _ (Hp eq_refl) _ _ _ E0).
          destruct (po_sealed _ (Hp eq_refl) msg c E) as [e ->]. done.
        + unfold received in Hr. by rewrite Ep in Hr.
      - exists c. done. }
    split_and!; [done| |done]. intros hs ks Hl. cbn [fmap list_fmap]. rewrite Hw.
    apply decrypt_all_sealed; [|done]. constructor; [|constructor]. split; [done|].
    unfold ENCRYPT_DATA_OVERHEAD. lia.
Qed.

(** The receiver's loop over what was pushed *)
Lemma pushed_processed msg text ser s msgs oh now hs b i :
  make_messages kind msg key s = Ok (msgs, oh) → size msg ≤ MAX_MULTIPART_SIZE →
  strip_padding msg = text → carries text ser → is_dict ser →
  (∀ h, oh = Some h → mfind h (_multiparts b) = None) → length hs = length msgs →
  ∃ plains b',
    (∀ ks, decrypt_all kind (key :: ks) (zip hs (received key <$> msgs)) = Ok (zip hs plains)) ∧
    process_all now (zip hs plains) i b = (Ok (add_conf hs ser (add_goods hs i)), b').
Proof.
  intros Hm Hsz Hstrip Hc Hd Hoh Hl.
  destruct (make_messages_received msg s msgs oh Hm Hsz) as (plains & Hlp & Hdec & Hpl).
  exists plains. destruct (Z.ltb_spec MAX_MESSAGE_SIZE (size msg + ENCRYPT_DATA_OVERHEAD)) as [Hlt|Hge].
  - assert (oh = Some (blake2b msg)) as ->.
    { unfold make_messages in Hm. apply Z.ltb_lt in Hlt. rewrite Hlt in Hm. by inv_result. }
    destruct (receive_in_order now msg ser hs plains b) as [b' Hr];
      [by split|by eapply inflate_carries|by apply Hoh|done|by rewrite Hl|].
    exists b'. split; [auto|]. apply (process_all_receive now _ i) in Hr.
    + rewrite Hr. do 2 f_equal. rewrite fst_zip by lia.
      destruct (splittable_parts msg) as [Hn _]; [by split|].
      pose proof (split_message_length msg plains ltac:(by split) Hpl) as Hlen.
      apply note_parts. lia.
    + apply Forall_forall. intros [h p] Hin%elem_of_zip_r. simpl.
      rewrite split_message_ok in Hpl by (by split). injection Hpl as <-.
      apply elem_of_lookup_imap_1 in Hin as (k & c & -> & _). by eexists.
  - subst plains. destruct hs as [|h [|]]; try (simpl in *; lia). exists b. split; [auto|].
    cbn [zip zip_with process_all]. rewrite run_bind, (process_plain_carries now h msg i b text ser) by done.
    done.
Qed.
End transport.

(** ** The messages a push sends *)
Section pushed.
Context `{BtLib, Hash, Aead, Zstd, Ed25519, ProtoWrap}.
Context (kind : Kind).

Lemma push_messages now b s msgs obs b' :
  push kind now b = (Ok (s, msgs, obs), b') →
  ∃ key ks ser a text oh, _keys b = key :: ks ∧ serialize (_config b) true = Ok (ser, a) ∧
    compressed kind ser = Ok text ∧
    size (pad_message text ENCRYPT_DATA_OVERHEAD) ≤ MAX_MULTIPART_SIZE ∧
    make_messages kind (pad_message text ENCRYPT_DATA_OVERHEAD) key s = Ok (msgs, oh) ∧
    _config b' = a ∧ (∀ h, oh = Some h → is_Some (mfind h (_multiparts b'))).
Proof.
  unfold push. rewrite run_mget. destruct (_keys b) as [|key ks]; [done|].
  rewrite run_bind. destruct (serialize_config true b) as [[ser|e] b1] eqn:Es; [|done].
  apply serialize_config_frame in Es as (a & Ha & -> & _).
  rewrite run_lift. fold (compressed kind ser). destruct (compressed kind ser) as [text|] eqn:Et; [|done].
  rewrite run_guard. destruct (Z.leb_spec (size (pad_message text ENCRYPT_DATA_OVERHEAD)) MAX_MULTIPART_SIZE)
    as [Hsz|]; [|done].
  rewrite run_lift. destruct (make_messages _ _ _ _) as [[ms oh]|] eqn:Em; [|done].
  cbn [fst snd]. rewrite run_bind. destruct oh as [h|]; cbn [modify skip mret M_ret];
    rewrite run_mget, run_when, ?run_bind, set_state_run; cbn [bool_decide andb]; intros Hp;
    exists key, ks, ser, a, text; eexists; (split_and!; [done..| | |]).
  all: destruct (is_dirty _); cbn in Hp; injection Hp as <- <- <- <-; try done;
    cbn [_config _multiparts with_old with_needs_dump with_state];
    rewrite ?retire_config, ?retire_multiparts; try done.
  all: intros h0 [= <-]; cbn [_multiparts with_multiparts with_config].
  all: rewrite mfind_insert, keqb_refl; by eexists.
Qed.
End pushed.

(** ** The receiver *)
Section receiver.
Context `{BtLib, Hash, Aead, Zstd, Ed25519, ProtoWrap}.
Context (kind : Kind).

(** Only the multipart sets and the dump flag differ. *)
Definition parts_only (b b' : ConfigBase) : Prop :=
  ∃ mp nd, b' = with_needs_dump nd (with_multiparts mp b).

Lemma parts_only_refl b : parts_only b b.
Proof. exists (_multiparts b), (_needs_dump b). by destruct b. Qed.

Lemma parts_only_put b h p : preserves (parts_only b) (put_parts h p).
Proof. apply preserves_modify. intros s (mp & nd & ->). by eexists _, _. Qed.

Lemma process_all_frame now l i b r b' :
  process_all now l i b = (Ok r, b') → parts_only b b'.
Proof.
  assert (preserves (parts_only b) (process_all now l i)) as Hp.
  { revert i; induction l as [|[h p] l IH]; intros i; [apply preserves_ret|].
    apply preserves_bind; [|intros ?; apply IH].
    unfold process_plain. destruct (strip_padding p) as [|c rest]; [apply preserves_ret|].
    destruct c as [[] [] [] [] [] [] [] []]; preserve; try apply preserves_ret.
    unfold _handle_multipart, handle_part.
    repeat (apply parts_only_put || preserve_step).
    intros ? (mp & nd & ->). by eexists _, _. }
  intros Hr. specialize (Hp b (parts_only_refl b)). rewrite Hr in Hp. by apply Hp.
Qed.

Lemma drop_bad_none k all mine good : drop_bad k all mine [] good = good.
Proof.
  revert k; induction all as [|hs all IH]; intros k; [done|]. simpl.
  rewrite andb_false_r. apply IH.
Qed.

Lemma add_goods_conf hs i :
  all_hashes (add_goods hs i) = all_hashes i ∧ all_confs (add_goods hs i) = all_confs i ∧
  good_hashes (add_goods hs i) = insert_all hs (good_hashes i).
Proof.
  unfold add_goods, insert_all. revert i. induction hs as [|h hs IH]; intros i; [done|].
  simpl. destruct (IH (add_good h i)) as (-> & -> & ->). done.
Qed.

(** A message this library wrote without signing keys, at its own hash *)
Record settled (m : ConfigMessage) (ser : bytes) : Prop := {
  se_wf : message_wf m = true;
  se_keys : verifier m = None ∧ signer m = None ∧ verified_signature_ m = None;
  se_lag : lag m = config_lags kind;
  se_ser : serialize_impl m (diff_ m) true = Ok ser;
  se_hash : sh m = (seqno m, blake2b ser);
}.

Context `{!BtLaws, !BtSizes, !HashLaws, !AeadLaws, !ZstdLaws}.

Lemma settled_parse m ser :
  settled m ser → parse_message ser None None (config_lags kind) false = Ok (reread m ser None None None).
Proof.
  intros [Hwf (_ & Hs & Hv) <- Hser _].
  destruct (write_read m [] None None false Hwf) as (pairs & Hp & _ & Hr); [by left|].
  unfold serialize_impl in Hser. rewrite Hp, Hv, Hs, bind_ret in Hser. injection Hser as <-.
  by rewrite app_nil_r in Hr.
Qed.

Lemma settled_edited m ser d diff ser' :
  settled m ser →
  edited (reread m ser None None None) d diff ser' = edited m d diff ser' ∧
  (editable m d → editable (reread m ser None None None) d).
Proof.
  intros [Hwf (_ & _ & Hv) _ _ Hh]. unfold edited, next_message, as_written. split.
  - unfold reread. simpl. unfold sh in *. simpl. by rewrite Hh.
  - intros [? Hs ? ? ?]. split; try done; [|by rewrite Hh in Hs].
    unfold message_wf in Hwf. rewrite Hv in Hwf. exact Hwf.
Qed.

(** A superseding config is adopted: the object is clean with it, and the
    hashes of the one it replaces become old. *)
Lemma adopt_newer e k old mine all hs b :
  config_inv b → _state b = Clean → seqno e ≠ old → all !! k = Some hs →
  ∃ b', adopt (Immutable (with_unmerged (Some k) e)) old (Some k) mine all b = (Ok tt, b') ∧
    _state b' = Clean ∧ _config b' = Immutable (with_unmerged (Some k) e) ∧
    _curr_hashes b' = hash_set hs ∧ _keys b' = _keys b ∧
    (∀ x, x ∈ _old_hashes b' ↔ x ∈ _curr_hashes b ∨ x ∈ _old_hashes b).
Proof.
  intros Hb Hst Hne Hk. unfold adopt.
  change (seqno (as_base (Immutable (with_unmerged (Some k) e)))) with (seqno e).
  apply Z.eqb_neq in Hne as ->. rewrite run_mget.
  change (merged (as_base (Immutable (with_unmerged (Some k) e)))) with false.
  assert (is_dirty b = false) as -> by (unfold is_dirty; by rewrite Hst).
  cbn [andb]. rewrite run_modify, run_bind, set_state_run. simpl. rewrite Hk, run_lift.
  eexists. split; [done|]. simpl. unfold retire, is_clean. simpl. rewrite Hst. simpl.
  destruct (_curr_hashes b) as [|h l] eqn:Ec; simpl; split_and!; try done.
  - set_solver.
  - intros x. fold (insert_all l (sinsert h (_old_hashes b))).
    change (x ∈ insert_all (h :: l) (_old_hashes b) ↔ x ∈ h :: l ∨ x ∈ _old_hashes b).
    apply elem_of_insert_all.
Qed.

(** What the merge finds obsolete was current before. *)
Lemma obsolete_pair curr hs found x :
  x ∈ obsolete_hashes 0 [curr; hs] (Some 1%nat) found [] → x ∈ curr.
Proof.
  simpl. destruct (_ && _); rewrite ?app_nil_r; [done|by intros ?%not_elem_of_nil].
Qed.

Lemma load_pair c1 c2 m1 m2 v s lg :
  parse_message c1 v s lg false = Ok m1 → parse_message c2 v s lg false = Ok m2 →
  load_all 0 [c1; c2] v s lg false = Ok ([m1; m2], []) ∧ load_all 0 [c2] v s lg false = Ok ([m2], []).
Proof. intros Hp1 Hp2. cbn [load_all]. by rewrite Hp1, Hp2. Qed.

(** The end of [_merge], on a clean object without keys to sign or verify *)
Lemma merge_adopts e k hs m b i mine_last mine :
  config_inv b → _state b = Clean → _config b = Immutable m → verifier m = None → signer m = None →
  seqno e ≠ seqno m → all_hashes i !! k = Some hs →
  (∀ found x, x ∈ obsolete_hashes 0 (all_hashes i) (Some k) found [] → x ∈ _curr_hashes b) →
  merge_messages (all_confs i) None None (config_lags kind) false = Ok (with_unmerged (Some k) e, []) →
  ∃ b', merge_confs kind (seqno m) mine_last mine i b = (Ok (good_hashes i), b') ∧
    _state b' = Clean ∧ _config b' = Immutable (with_unmerged (Some k) e) ∧
    _curr_hashes b' = hash_set hs ∧ _keys b' = _keys b ∧
    (∀ x, x ∈ _old_hashes b' ↔ x ∈ _curr_hashes b ∨ x ∈ _old_hashes b).
Proof.
  intros Hb Hst Hc Hv Hs Hne Hk Hobs Hm. unfold merge_confs.
  destruct (all_hashes i) as [|h0 all] eqn:Eall; [by destruct k|]. cbn [is_nil].
  rewrite run_mget. assert (is_dirty b = false) as -> by (unfold is_dirty; by rewrite Hst).
  unfold config_of. rewrite Hc. cbn [as_base]. rewrite Hv, Hs, run_lift.
  unfold make_config_message. rewrite Hm, bind_ret. cbn [fst snd as_base].
  change (unmerged_ (with_unmerged (Some k) e)) with (Some k).
  cbv iota beta. rewrite Hk, run_modify, run_bind.
  set (b1 := with_old _ b). assert (config_inv b1) as Hb1.
  { destruct Hb. split; simpl; auto with ordmap. }
  match goal with |- context [adopt _ _ _ ?mine' _] => 
    destruct (adopt_newer e k (seqno m) mine' (h0 :: all) hs b1) as (b' & -> & Hr); [done..|] end.
  exists b'. rewrite drop_bad_none. destruct Hr as (? & ? & ? & ? & Hold).
  split_and!; try done. intros x. rewrite Hold. unfold b1. simpl. rewrite elem_of_insert_all.
  specialize (Hobs (hash_set hs) x). naive_solver.
Qed.

(** A clean object that holds a settled message *)
Record holds (b : ConfigBase) (m : ConfigMessage) (ser : bytes) : Prop := {
  ho_inv : config_inv b;
  ho_state : _state b = Clean;
  ho_config : _config b = Immutable m;
  ho_settled : settled m ser;
  ho_hashes : seqno m = 0 ∨ _curr_hashes b ≠ [];
}.

Lemma parts_only_expire now b b' : parts_only b b' →
  let b2 := ((_expire_multiparts now) b').2 in
  _state b2 = _state b ∧ _config b2 = _config b ∧ _keys b2 = _keys b ∧
  _curr_hashes b2 = _curr_hashes b ∧ _old_hashes b2 = _old_hashes b.
Proof. by intros (mp & nd & ->). Qed.

(** The messages are processed, then the superseding one is adopted. *)
Lemma merge_loop_adopts b m e k now hs ser' plaintexts i0 mine :
  config_inv b → _state b = Clean → _config b = Immutable m → verifier m = None → signer m = None →
  seqno e ≠ seqno m →
  (∀ i, ∃ b1, process_all now plaintexts i b = (Ok (add_conf hs ser' (add_goods hs i)), b1)) →
  good_hashes i0 = [] → (all_hashes i0 ++ [hs]) !! k = Some hs →
  (∀ found x, x ∈ obsolete_hashes 0 (all_hashes i0 ++ [hs]) (Some k) found [] → x ∈ _curr_hashes b) →
  merge_messages (all_confs i0 ++ [ser']) None None (config_lags kind) false
    = Ok (with_unmerged (Some k) e, []) →
  ∃ b', (i ← process_all now plaintexts i0;
         _expire_multiparts now;; merge_confs kind (seqno m) false mine i) b = (Ok (hash_set hs), b') ∧
    _state b' = Clean ∧ _config b' = Immutable (with_unmerged (Some k) e) ∧
    _curr_hashes b' = hash_set hs ∧ _keys b' = _keys b ∧
    (∀ x, x ∈ _old_hashes b' ↔ x ∈ _curr_hashes b ∨ x ∈ _old_hashes b).
Proof.
  intros Hb Hst Hc Hv Hs Hne Hproc Hgood Hk Hobs Hm. destruct (Hproc i0) as [b1 Hpr].
  assert (config_inv ((_expire_multiparts now) b1).2) as Hinv.
  { apply expire_multiparts_inv; [|done]. pose proof (process_all_inv now plaintexts i0 b Hb) as Hi.
    rewrite Hpr in Hi. by apply Hi. }
  rewrite run_bind, Hpr. apply process_all_frame in Hpr.
  destruct (parts_only_expire now b b1 Hpr) as (Hst2 & Hc2 & Hk2 & Hcu2 & Ho2).
  rewrite run_bind. destruct (add_goods_conf hs i0) as (Eh & Ec & Eg).
  destruct (merge_adopts e k hs m ((_expire_multiparts now) b1).2 (add_conf hs ser' (add_goods hs i0)) false mine)
    as (b' & Hrun & ? & ? & ? & Hk' & Hold);
    [done|by rewrite Hst2|by rewrite Hc2|done|done|done|..].
  - cbn [all_hashes add_conf]. by rewrite Eh.
  - cbn [all_hashes add_conf]. rewrite Eh, Hcu2. done.
  - cbn [all_confs add_conf]. by rewrite Ec.
  - exists b'. cbn [good_hashes add_conf] in Hrun. rewrite Eg, Hgood in Hrun. split; [exact Hrun|].
    split_and!; try done; [by rewrite Hk'|]. intros x. by rewrite Hold, Hcu2, Ho2.
Qed.

(** The receiver adopts the edited message. *)
Lemma merge_receives b m ser d od ser' now hs cs plaintexts :
  holds b m ser → editable m d → diff_impl (data_ m) (prune d) = Ok od → _keys b ≠ [] →
  parse_message ser' None None (config_lags kind) false = Ok (edited m d (default [] od) ser') →
  decrypt_all kind (_keys b) cs = Ok plaintexts →
  (∀ i, ∃ b1, process_all now plaintexts i b = (Ok (add_conf hs ser' (add_goods hs i)), b1)) →
  ∃ b', _merge kind now cs b = (Ok (hash_set hs), b') ∧ _state b' = Clean ∧
    (∃ k, _config b' = Immutable (with_unmerged (Some k) (edited m d (default [] od) ser'))) ∧
    _curr_hashes b' = hash_set hs ∧ _keys b' = _keys b ∧
    (∀ x, x ∈ _old_hashes b' ↔ x ∈ _curr_hashes b ∨ x ∈ _old_hashes b).
Proof.
  intros [Hb Hst Hc Hse Hhs] Hed Hdiff Hne Hp Hdec Hproc. pose proof Hse as [_ (Hv & Hs & _) Hlag Hser _].
  set (e := edited m d (default [] od) ser') in *.
  pose proof (edit_diff_ok m d od Hed Hdiff) as Hdok.
  pose proof (settled_edited m ser d (default [] od) ser' Hse) as [Hee Hed'].
  pose proof (load_pair _ _ _ _ _ _ _ (settled_parse m ser Hse) Hp) as [Hload2 Hload1].
  assert (is_dirty b = false) as Hnd by (unfold is_dirty; by rewrite Hst).
  assert (_merge kind now cs b = (if negb (seqno m =? 0)
     then (i ← process_all now plaintexts (mkIncoming [_curr_hashes b] [ser] []);
           _expire_multiparts now;; merge_confs kind (seqno m) false ser i) b
     else (i ← process_all now plaintexts (mkIncoming [] [] []);
           _expire_multiparts now;; merge_confs kind (seqno m) false "" i) b)) as ->.
  { unfold _merge. rewrite run_mget, run_guard. unfold config_of. rewrite Hnd, Hc, orb_false_r. cbn [as_base].
    destruct (_keys b) as [|k ks] eqn:Ek; [done|]. cbn [is_nil negb].
    destruct (Z.eqb_spec (seqno m) 0) as [E|E]; cbn [negb andb].
    - by rewrite run_ret, run_lift, Hdec.
    - destruct Hhs as [Hhs|Hhs]; [done|]. destruct (_curr_hashes b) as [|h l] eqn:El; [done|].
      cbn [is_nil negb andb]. rewrite run_bind. unfold serialize_config. rewrite run_mget, run_lift.
      rewrite Hc. cbn [serialize]. rewrite Hser, bind_ret, run_modify. cbn [fst snd mret M_ret].
      rewrite run_lift, Hdec. assert (with_config (Immutable m) b = b) as ->; [|done].
      rewrite <-Hc. by destruct b. }
  assert (lag (reread m ser None None None) = config_lags kind) as Hlag2 by done.
  destruct (Z.eqb_spec (seqno m) 0) as [E|E]; cbn [negb].
  - edestruct (merge_loop_adopts b m e 0 now hs ser' plaintexts (mkIncoming [] [] []) "")
      as (b' & ? & ? & ? & ? & ? & ?); try done; [| | |exists b'; split_and!; eauto].
    + change (seqno e) with (seqno m + 1). lia.
    + intros found x. simpl. by intros ?%not_elem_of_nil.
    + unfold merge_messages. cbn [all_confs app]. rewrite Hload1, bind_ret.
      pose proof (edited_alone m d (default [] od) ser' Hed Hdok) as Ha. fold e in Ha.
      rewrite Hlag in Ha. by rewrite Ha.
  - edestruct (merge_loop_adopts b m e 1 now hs ser' plaintexts (mkIncoming [_curr_hashes b] [ser] []) ser)
      as (b' & ? & ? & ? & ? & ? & ?); try done; [| | |exists b'; split_and!; eauto].
    + change (seqno e) with (seqno m + 1). lia.
    + intros found x. apply obsolete_pair.
    + unfold merge_messages. cbn [all_confs app]. rewrite Hload2, bind_ret.
      pose proof (edited_merged _ d (default [] od) ser' (Hed' Hed) Hdok) as Ha.
      rewrite Hee in Ha. fold e in Ha. rewrite Hlag2 in Ha. by rewrite Ha.
Qed.

Lemma make_messages_some msg key s msgs oh :
  make_messages kind msg key s = Ok (msgs, oh) → msgs ≠ [].
Proof.
  unfold make_messages. destruct (Z.ltb_spec MAX_MESSAGE_SIZE (size msg + ENCRYPT_DATA_OVERHEAD)) as [Hlt|].
  - intros Hm. inv_result. rename a into outs. apply mapR_Forall2, Forall2_length in E0.
    assert (size msg ≠ 0) as Hz by (unfold MAX_MESSAGE_SIZE, ENCRYPT_DATA_OVERHEAD in Hlt; lia).
    unfold split_message in E. destruct (String.length msg) as [|n] eqn:El.
    { unfold size in Hz. lia. }
    cbn [split_parts] in E. apply Z.eqb_neq in Hz. rewrite Hz in E. inv_result. by destruct msgs.
  - intros Hm. inv_result. by destruct (accepts_protobuf kind); inv_result.
Qed.

Lemma zip_second (g : bytes → bytes) (hs msgs : list bytes) :
  (λ c, (c.1, g c.2)) <$> zip hs msgs = zip hs (g <$> msgs).
Proof. revert msgs; induction hs as [|h hs IH]; intros [|c msgs]; try done. simpl. by rewrite IH. Qed.

Lemma pad_message_grows text o : size text ≤ size (pad_message text o).
Proof.
  unfold pad_message, prefix_zeros. destruct (_ <? _); [|lia].
  rewrite size_app, zeros_size. lia.
Qed.

Lemma serialize_is_dict m ser : serialize_impl m (diff_ m) true = Ok ser → is_dict ser.
Proof.
  unfold serialize_impl. intros Hs. inv_result. rename a into pairs.
  assert (∀ d, is_dict (bt_dump d)) as Hd by (intros d; apply bt_dump_head).
  destruct (verified_signature_ m); inv_result; [done|]. destruct (signer m); inv_result; done.
Qed.

(** The edit on a clean object, and what it serializes to *)
Lemma edit_holds a m ser f :
  holds a m ser → editable m (f (data_ m)) →
  ∃ a1 od ser' c, update_data f a = (Ok tt, a1) ∧ _keys a1 = _keys a ∧ is_dict ser' ∧
    seqno (config_of a1) = seqno m + 1 ∧
    diff_impl (data_ m) (prune (f (data_ m))) = Ok od ∧
    serialize (_config a1) true = Ok (ser', c) ∧ data_ (as_base c) = prune (f (data_ m)) ∧
    parse_message ser' None None (config_lags kind) false = Ok (edited m (f (data_ m)) (default [] od) ser') ∧
    settled (edited m (f (data_ m)) (default [] od) ser') ser'.
Proof.
  intros [Ha Hst Hc [_ (Hv & Hs & _) Hlag _ _] _] Hed.
  destruct (edit_serialize m (f (data_ m)) Hed Hs) as (od & ser' & c & Hdiff & Hinc & Hser & Hparse & Hwf & Himpl).
  assert (dirty a = (Ok (mkMutable (next_message m) (data_ m)),
                     with_config (Mutable (mkMutable (next_message m) (data_ m)))
                       (with_needs_dump true (with_state Dirty (retire a))))) as Hd.
  { rewrite dirty_run by done. unfold is_dirty, is_readonly, config_of. rewrite Hst, Hc. cbn [as_base].
    rewrite Hv. cbn [is_some andb]. rewrite Hinc. done. }
  eexists _, od, ser', c. unfold update_data. rewrite run_bind, Hd. split; [done|].
  cbn [_keys with_config with_needs_dump with_state]. rewrite retire_keys, <-Hlag.
  split_and!; try done.
  - cbn [serialize] in Hser. inv_result. by eapply serialize_is_dict.
  - cbn [serialize] in Hser. unfold mutable_diff in Hser. by inv_result.
Qed.

(** C5 (liveness): devices converge.  Two clean objects of the same kind hold
    the same message, and share their first encryption key.  Whatever edit one
    of them makes, the edit succeeds; and whatever its push then sends, in one
    message or in parts, compressed or not, merging those messages on the
    other one accepts all of them and leaves it clean, with the edited data
    and the next sequence number, with the hashes of these messages as its
    current ones and those of the message they replace as old ones; it then is
    again in a state the theorem applies to. *)
Theorem device_sync a b m ser f key :
  1 ≤ size (encryption_domain kind) ≤ DOMAIN_MAX_SIZE →
  (accepts_protobuf kind = true → proto_ok kind key) →
  holds a m ser → holds b m ser → editable m (f (data_ m)) →
  head (_keys a) = Some key → head (_keys b) = Some key →
  ∃ a1, update_data f a = (Ok tt, a1) ∧
  ∀ now s msgs obs a2 now' hs, push kind now a1 = (Ok (s, msgs, obs), a2) →
    (∀ h, is_Some (mfind h (_multiparts a2)) → mfind h (_multiparts b) = None) →
    length hs = length msgs →
    ∃ b', merge_incoming kind now' (zip hs msgs) b = (Ok (hash_set hs), b') ∧ _state b' = Clean ∧
      s = seqno m + 1 ∧ seqno (config_of b') = s ∧ seqno (config_of a2) = s ∧
      data_ (config_of b') = prune (f (data_ m)) ∧ data_ (config_of a2) = prune (f (data_ m)) ∧
      _curr_hashes b' = hash_set hs ∧
      (∀ x, x ∈ _old_hashes b' ↔ x ∈ _curr_hashes b ∨ x ∈ _old_hashes b) ∧
      ∃ m' ser', holds b' m' ser'.
Proof.
  intros Hdom Hproto Ha Hb Hed Hka Hkb.
  destruct (edit_holds a m ser f Ha Hed) as (a1 & od & ser' & c & Hu & Hk1 & Hdict & Hsq & Hdiff & Hser & Hdata & Hparse & Hset).
  exists a1. split; [done|]. intros now s msgs obs a2 now' hs Hpush Hmp Hl.
  pose proof Hpush as (Hs & _ & _ & _ & _ & _ & Hs2 & _)%push_Ok.
  apply push_messages in Hpush as (key' & ks & ser2 & c2 & text & oh & Hk2 & Hser2 & Htext & Hsz & Hmm & Hc2 & Hoh).
  rewrite Hser in Hser2. injection Hser2 as <- <-. rewrite <-Hk1, Hk2 in Hka. injection Hka as ->.
  destruct (_keys b) as [|key' kb] eqn:Ekb; [done|]. injection Hkb as ->.
  assert (size key = 32) as Hkey.
  { pose proof (inv_keys _ (ho_inv _ _ _ Hb)) as [_ Hf]. rewrite Ekb in Hf. by apply Forall_cons in Hf as [? _]. }
  pose proof (compressed_carries _ _ _ Htext) as Hcar.
  pose proof (pad_message_grows text ENCRYPT_DATA_OVERHEAD) as Hgrow.
  destruct (pad_strip text ENCRYPT_DATA_OVERHEAD) as [Hstrip _];
    [done|unfold MAX_MULTIPART_SIZE, ENCRYPT_DATA_OVERHEAD in *; lia|by eapply carries_nonzero|].
  assert (∀ i, ∃ plains b1, (∀ ks, decrypt_all kind (key :: ks) (zip hs (received kind key <$> msgs)) = Ok (zip hs plains)) ∧
            process_all now' (zip hs plains) i b = (Ok (add_conf hs ser' (add_goods hs i)), b1)) as Hproc.
  { intros i. eapply pushed_processed; eauto. }
  destruct (Hproc (mkIncoming [] [] [])) as (plains & _ & Hdec & _).
  destruct (merge_receives b m ser (f (data_ m)) od ser' now' hs (zip hs (received kind key <$> msgs)) (zip hs plains))
    as (b' & Hrun & Hst & [k Hc'] & Hcu & _ & Hold); [done..|by rewrite Ekb|done|by rewrite Ekb| |].
  { intros i. destruct (Hproc i) as (plains' & b1 & Hdec' & Hpr).
    specialize (Hdec kb). specialize (Hdec' kb). rewrite Hdec in Hdec'. injection Hdec' as E.
    exists b1. by rewrite E. }
  assert (merge_incoming kind now' (zip hs msgs) b = (Ok (hash_set hs), b')) as Hmi.
  { unfold merge_incoming. rewrite run_mget, Ekb. unfold received in Hrun.
    destruct (accepts_protobuf kind); [by rewrite zip_second|by rewrite list_fmap_id in Hrun]. }
  exists b'. assert (s = seqno m + 1) as Hsm by congruence. unfold config_of in *.
  rewrite Hc', Hc2. split_and!; try done; [congruence|].
  exists (with_unmerged (Some k) (edited m (f (data_ m)) (default [] od) ser')), ser'.
  split; try done.
  - pose proof (merge_incoming_inv kind now' (zip hs msgs) b (ho_inv _ _ _ Hb)) as Hi.
    rewrite Hmi in Hi. by apply Hi.
  - by destruct Hset.
  - right. rewrite Hcu. pose proof (make_messages_some _ _ _ _ _ Hmm).
    destruct hs as [|h hs']; [by destruct msgs|]. intros E. assert (h ∈ hash_set (h :: hs')) as Hin.
    { apply elem_of_insert_all. left. by left. }
    rewrite E in Hin. by apply not_elem_of_nil in Hin.
Qed.
End receiver.

(** ** Example: two new objects, one of them gets a name *)
Definition empty_bytes : bytes :=
  match serialize_impl (no_message None None 5) [] true with Ok s => s | Throw _ => "" end.
Definition empty_message : ConfigMessage :=
  with_seqno_hash (0, blake2b empty_bytes) (no_message None None 5).

Lemma new_config_holds : holds sample_kind new_config empty_message empty_bytes.
Proof.
  split; [exact (reachable_config_inv _ _ reachable_new)|vm_compute; reflexivity..| |left; vm_compute; reflexivity].
  split; [vm_compute; reflexivity|done|vm_compute; reflexivity..].
Qed.

Lemma device_sync_witness :
  ∃ s msgs obs a2 b',
    push sample_kind 0 edited_config = (Ok (s, msgs, obs), a2) ∧ length msgs = 1%nat ∧
    merge_incoming sample_kind 9 (zip ["hash1"] msgs) new_config = (Ok ["hash1"], b') ∧
    _state b' = Clean ∧ data_ (config_of b') = [("n", DScalar (inr "Kallie"))].
Proof.
  destruct (device_sync sample_kind new_config new_config empty_message empty_bytes (set_name "Kallie") sample_key)
    as (a1 & Hu & Hsync).
  - vm_compute. intuition discriminate.
  - discriminate.
  - exact new_config_holds.
  - exact new_config_holds.
  - split; vm_compute; reflexivity.
  - vm_compute. reflexivity.
  - vm_compute. reflexivity.
  - assert (edited_config = a1) as Ea by (unfold edited_config, final; rewrite Hu; reflexivity).
    clear Hu. subst a1.
    destruct (push sample_kind 0 edited_config) as [[[[s msgs] obs]|e] a2] eqn:E; [|by vm_compute in E].
    assert (length msgs = 1%nat) as Hl by (by vm_compute in E; injection E as _ <- _ _).
    destruct (Hsync 0 s msgs obs a2 9 ["hash1"] E) as (b' & Hm & Hst & _ & _ & _ & Hd & _).
    + intros h Hh. replace (_multiparts new_config) with (@nil (bytes * PartialMessages)) by (vm_compute; reflexivity).
      reflexivity.
    + by rewrite Hl.
    + exists s, msgs, obs, a2, b'. split_and!; [done|done|exact Hm|done|exact Hd].
Defined.
