(* ===== verification/ConfigFields.v ===== *)
(** * Fields of the config data

    [ConfigBase::DictFieldProxy] of [include/bchat/config/base.hpp]: reading,
    assigning and erasing a value at a path of keys, creating the dictionaries
    on the way when needed and leaving the config clean when nothing changes;
    and the helpers of [src/config/internal.cpp] on top of it. *)

From Stdlib Require Import ZArith String Ascii Lia.
From stdpp Require Import base option list strings numbers sorting sets.
From S2P Require Import Prelude OrderedMap Bt Crypto ConfigData ConfigMessage ConfigReplay State ConfigBase ConfigState ConfigLifecycle.

(** ** Values *)

(** [operator==] of the variant *)
Fixpoint value_eqb (v1 v2 : dict_value) : bool :=
  match v1, v2 with
  | DDict d1, DDict d2 =>
      (fix go (d1 d2 : dict) : bool :=
         match d1, d2 with
         | [], [] => true
         | p1 :: d1, p2 :: d2 => keqb p1.1 p2.1 && value_eqb p1.2 p2.2 && go d1 d2
         | _, _ => false
         end) d1 d2
  | DSet s1, DSet s2 => bool_decide (s1 = s2)
  | DScalar x1, DScalar x2 => bool_decide (x1 = x2)
  | _, _ => false
  end.

Lemma value_eqb_eq v1 v2 : value_eqb v1 v2 = true ↔ v1 = v2.
Proof.
  revert v2; induction v1 as [d1 IH|s1|x1] using dict_value_ind'; intros [d2|s2|x2]; try done.
  - simpl. revert d2. induction IH as [|[k1 x1] d1 Hx _ IHd]; intros [|[k2 x2] d2]; try done.
    rewrite !andb_true_iff. simpl. rewrite IHd, keqb_spec. simpl in Hx. rewrite Hx. naive_solver.
  - simpl. rewrite bool_decide_eq_true. naive_solver.
  - simpl. rewrite bool_decide_eq_true. naive_solver.
Qed.

#[global] Instance dict_value_eq_dec : EqDecision dict_value.
Proof. intros v1 v2. apply (Bool.reflect_dec _ (value_eqb v1 v2)), iff_reflect. by rewrite value_eqb_eq. Defined.

(** A config set or dict that is empty, which pruning removes *)
Definition empty_value (v : dict_value) : bool :=
  match v with DDict d => is_nil d | DSet s => is_nil s | DScalar _ => false end.

(** ** Paths: the keys of the dictionaries on the way, and the last key *)
Definition path : Type := list bytes * bytes.

Definition sub_dict (k : bytes) (d : dict) : option dict :=
  match mfind k d with Some (DDict s) => Some s | _ => None end.

(** [get_clean] *)
Fixpoint find_path (inter : list bytes) (last : bytes) (d : dict) : option dict_value :=
  match inter with
  | [] => mfind last d
  | k :: inter => match sub_dict k d with Some s => find_path inter last s | None => None end
  end.

(** [get_dirty() = v]: missing dictionaries are created, other values on the
    way are trampled *)
Fixpoint put_path (inter : list bytes) (last : bytes) (v : dict_value) (d : dict) : dict :=
  match inter with
  | [] => minsert last v d
  | k :: inter => minsert k (DDict (put_path inter last v (default [] (sub_dict k d)))) d
  end.

(** [erase()] *)
Fixpoint erase_path (inter : list bytes) (last : bytes) (d : dict) : dict :=
  match inter with
  | [] => merase last d
  | k :: inter =>
      match sub_dict k d with
      | Some s => minsert k (DDict (erase_path inter last s)) d
      | None => d
      end
  end.

Lemma sub_dict_insert k v d j :
  sub_dict j (minsert k v d) =
    if keqb j k then match v with DDict s => Some s | _ => None end else sub_dict j d.
Proof. unfold sub_dict. rewrite mfind_insert. by destruct (keqb j k). Qed.

Lemma find_put_same inter last v d : find_path inter last (put_path inter last v d) = Some v.
Proof.
  revert d; induction inter as [|k inter IH]; intros d; simpl; [apply mfind_insert_eq|].
  by rewrite sub_dict_insert, keqb_refl, IH.
Qed.

(** Two paths neither of which leads through the other *)
Fixpoint independent (i1 : list bytes) (l1 : bytes) (i2 : list bytes) (l2 : bytes) : bool :=
  match i1, i2 with
  | [], [] => negb (keqb l1 l2)
  | [], k2 :: _ => negb (keqb l1 k2)
  | k1 :: _, [] => negb (keqb k1 l2)
  | k1 :: i1, k2 :: i2 => negb (keqb k1 k2) || independent i1 l1 i2 l2
  end.

Lemma find_nil i l : find_path i l [] = None.
Proof. by destruct i. Qed.

Lemma keqb_sym (a b : bytes) : keqb a b = keqb b a.
Proof. apply eq_bool_prop_intro. rewrite !Is_true_true, !keqb_spec. naive_solver. Qed.

Lemma find_put_other i1 l1 i2 l2 v d :
  independent i1 l1 i2 l2 = true → find_path i2 l2 (put_path i1 l1 v d) = find_path i2 l2 d.
Proof.
  revert i2 d; induction i1 as [|k1 i1 IH]; intros [|k2 i2] d Hi; simpl in *.
  - rewrite mfind_insert, keqb_sym. by destruct (keqb l1 l2).
  - rewrite sub_dict_insert, keqb_sym. by destruct (keqb l1 k2).
  - rewrite mfind_insert, keqb_sym. by destruct (keqb k1 l2).
  - rewrite sub_dict_insert, keqb_sym. destruct (keqb k1 k2) eqn:E; [|done]. simpl in Hi.
    apply keqb_spec in E as ->. rewrite IH by done. destruct (sub_dict k2 d); simpl; [done|apply find_nil].
Qed.

Lemma find_erase_same inter last d : find_path inter last (erase_path inter last d) = None.
Proof.
  revert d; induction inter as [|k inter IH]; intros d; simpl; [apply mfind_erase_eq|].
  destruct (sub_dict k d) eqn:E; [by rewrite sub_dict_insert, keqb_refl, IH|by rewrite E].
Qed.

Lemma find_erase_other i1 l1 i2 l2 d :
  independent i1 l1 i2 l2 = true → find_path i2 l2 (erase_path i1 l1 d) = find_path i2 l2 d.
Proof.
  revert i2 d; induction i1 as [|k1 i1 IH]; intros [|k2 i2] d Hi; simpl in *.
  - rewrite mfind_erase, keqb_sym. by destruct (keqb l1 l2).
  - unfold sub_dict. rewrite mfind_erase, keqb_sym. by destruct (keqb l1 k2).
  - destruct (sub_dict k1 d); [|done]. rewrite mfind_insert, keqb_sym. by destruct (keqb k1 l2).
  - destruct (sub_dict k1 d) eqn:Ed; [|done]. rewrite sub_dict_insert, keqb_sym.
    destruct (keqb k1 k2) eqn:E; [|done]. simpl in Hi. apply keqb_spec in E as ->. rewrite Ed. by apply IH.
Qed.

(** Writing what is there, or erasing what is not, changes nothing. *)
Lemma dict_ok_lookup d :
  dict_ok d = true ↔ msorted d = true ∧ ∀ k v, mfind k d = Some v → value_ok v = true.
Proof.
  unfold dict_ok. simpl. rewrite andb_true_iff, forallb_forall. split; intros [Hs Hf]; (split; [done|]).
  - intros k v Hv%mfind_Some_In. apply (Hf (k, v)). by apply list_elem_of_In.
  - intros [k v] Hin%list_elem_of_In. simpl. by eapply (Hf k), mfind_In.
Qed.

Lemma minsert_found k (v : dict_value) d : msorted d = true → mfind k d = Some v → minsert k v d = d.
Proof.
  intros Hs Hf. apply msorted_ext; [by apply msorted_insert|done|].
  intros j. rewrite mfind_insert. destruct (keqb j k) eqn:E; [|done]. by apply keqb_spec in E as ->.
Qed.

Lemma merase_absent k (d : dict) : msorted d = true → mfind k d = None → merase k d = d.
Proof.
  intros Hs Hf. apply msorted_ext; [by apply msorted_erase|done|].
  intros j. rewrite mfind_erase. destruct (keqb j k) eqn:E; [|done]. by apply keqb_spec in E as ->.
Qed.

Lemma sub_dict_Some k d s : sub_dict k d = Some s ↔ mfind k d = Some (DDict s).
Proof. unfold sub_dict. destruct (mfind k d) as [[]|]; naive_solver. Qed.

Lemma sub_dict_ok k d s : dict_ok d = true → sub_dict k d = Some s → dict_ok s = true.
Proof. intros [_ Hv]%dict_ok_lookup Hs%sub_dict_Some. by apply (Hv k). Qed.

Lemma put_path_found i l v d :
  dict_ok d = true → find_path i l d = Some v → put_path i l v d = d.
Proof.
  revert d; induction i as [|k i IH]; intros d Hd Hf; simpl in *.
  - apply dict_ok_lookup in Hd as [Hs _]. by apply minsert_found.
  - destruct (sub_dict k d) as [s|] eqn:E; [|done]. simpl. rewrite IH; [|by eapply sub_dict_ok|done].
    apply dict_ok_lookup in Hd as [Hs _]. by apply minsert_found, sub_dict_Some.
Qed.

Lemma erase_path_absent i l d :
  dict_ok d = true → find_path i l d = None → erase_path i l d = d.
Proof.
  revert d; induction i as [|k i IH]; intros d Hd Hf; simpl in *.
  - apply dict_ok_lookup in Hd as [Hs _]. by apply merase_absent.
  - destruct (sub_dict k d) as [s|] eqn:E; [|done]. rewrite IH; [|by eapply sub_dict_ok|done].
    apply dict_ok_lookup in Hd as [Hs _]. by apply minsert_found, sub_dict_Some.
Qed.

Lemma put_path_ok i l v d : dict_ok d = true → value_ok v = true → dict_ok (put_path i l v d) = true.
Proof.
  revert d; induction i as [|k i IH]; intros d Hd Hv; simpl; [by apply dict_ok_insert|].
  apply dict_ok_insert; [done|]. apply IH; [|done].
  destruct (sub_dict k d) eqn:E; [by eapply sub_dict_ok|done].
Qed.

Lemma erase_path_ok i l d : dict_ok d = true → dict_ok (erase_path i l d) = true.
Proof.
  revert d; induction i as [|k i IH]; intros d Hd; simpl; [by apply dict_ok_erase|].
  destruct (sub_dict k d) eqn:E; [|done]. apply dict_ok_insert; [done|]. apply IH. by eapply sub_dict_ok.
Qed.

Lemma find_path_ok i l d v : dict_ok d = true → find_path i l d = Some v → value_ok v = true.
Proof.
  revert d; induction i as [|k i IH]; intros d Hd; simpl.
  - apply dict_ok_lookup in Hd as [_ Hv]. apply Hv.
  - destruct (sub_dict k d) eqn:E; [|done]. apply IH. by eapply sub_dict_ok.
Qed.

(** ** The dictionary at the end of a path of keys *)
Definition dict_at (i : list bytes) (l : bytes) (d : dict) : option dict :=
  match find_path i l d with Some (DDict s) => Some s | _ => None end.

Lemma find_path_snoc i k l d :
  find_path (i ++ [k]) l d = match dict_at i k d with Some s => mfind l s | None => None end.
Proof.
  revert d; induction i as [|j i IH]; intros d; [done|]. simpl. unfold dict_at in *. simpl.
  destruct (sub_dict j d); [apply IH|done].
Qed.

Lemma dict_at_put i k l v d :
  dict_at i k (put_path (i ++ [k]) l v d) = Some (minsert l v (default [] (dict_at i k d))).
Proof.
  revert d; induction i as [|j i IH]; intros d; unfold dict_at in *; simpl.
  - rewrite mfind_insert_eq. by destruct (mfind k d) as [[]|] eqn:E; unfold sub_dict; rewrite E.
  - rewrite sub_dict_insert, keqb_refl, IH. destruct (sub_dict j d); [done|]. by rewrite find_nil.
Qed.

Lemma dict_at_erase i k l d :
  dict_at i k (erase_path (i ++ [k]) l d) = merase l <$> dict_at i k d.
Proof.
  revert d; induction i as [|j i IH]; intros d; unfold dict_at in *; simpl.
  - unfold sub_dict. destruct (mfind k d) as [[]|] eqn:E; rewrite ?mfind_insert_eq, ?E; done.
  - destruct (sub_dict j d) eqn:E; [by rewrite sub_dict_insert, keqb_refl, IH|by rewrite E].
Qed.

(** ** The operations of the proxy *)
Definition data_of (b : ConfigBase) : dict := data_ (config_of b).

(** [data["x"]] and [field["y"]] *)
Definition root (k : bytes) : path := ([], k).
Definition sub (p : path) (k : bytes) : path := (p.1 ++ [p.2], k).

Definition get_clean (p : path) (d : dict) : option dict_value := find_path p.1 p.2 d.
Definition field_string (p : path) (d : dict) : option bytes :=
  match get_clean p d with Some (DScalar (inr s)) => Some s | _ => None end.
Definition field_integer (p : path) (d : dict) : option Z :=
  match get_clean p d with Some (DScalar (inl z)) => Some z | _ => None end.
Definition field_set (p : path) (d : dict) : option config_set :=
  match get_clean p d with Some (DSet s) => Some s | _ => None end.
Definition field_dict (p : path) (d : dict) : option dict :=
  match get_clean p d with Some (DDict s) => Some s | _ => None end.
Definition field_exists (p : path) (d : dict) : bool := is_some (get_clean p d).
Definition integer_or (p : path) (d : dict) (fallback : Z) : Z := default fallback (field_integer p d).
Definition string_view_or (p : path) (d : dict) (fallback : bytes) : bytes :=
  default fallback (field_string p d).

(** What [set_erase_impl] does to the data, and what it returns *)
Definition set_erase_path (p : path) (x : scalar) (d : dict) : bool * dict :=
  match get_clean p d with
  | Some (DSet s) => (true, put_path p.1 p.2 (DSet (serase x s)) d)
  | Some _ => (false, put_path p.1 p.2 (DSet []) d)
  | None => (false, d)
  end.

Definition set_insert_path (p : path) (x : scalar) (d : dict) : dict :=
  put_path p.1 p.2 (DSet (sinsert x (default [] (field_set p d)))) d.

Section proxy.
Context `{BtLib, Hash}.

Definition erase_field (p : path) : M ConfigBase () :=
  b ← mget;
  if negb (is_dirty b) && negb (field_exists p (data_of b)) then skip
  else update_data (erase_path p.1 p.2).

(** [assign_if_changed] *)
Definition assign (p : path) (v : dict_value) : M ConfigBase () :=
  if empty_value v then erase_field p else
  b ← mget;
  if negb (is_dirty b) && bool_decide (get_clean p (data_of b) = Some v) then skip
  else update_data (put_path p.1 p.2 v).

Definition assign_int (p : path) (z : Z) : M ConfigBase () := assign p (DScalar (inl z)).
Definition assign_str (p : path) (s : bytes) : M ConfigBase () := assign p (DScalar (inr s)).

Definition insert_if_missing (p : path) (x : scalar) : M ConfigBase bool :=
  b ← mget;
  if negb (is_dirty b) &&
     match field_set p (data_of b) with Some s => smem x s | None => false end
  then mret false
  else update_data (set_insert_path p x);; mret true.

Definition set_erase_impl (p : path) (x : scalar) : M ConfigBase bool :=
  b ← mget;
  if negb (is_dirty b) &&
     negb (match field_set p (data_of b) with Some s => smem x s | None => false end)
  then mret false
  else
    m ← dirty;
    let '(r, d) := set_erase_path p x (data_ (base m)) in
    modify (with_config (Mutable (mkMutable (with_data d (base m)) (orig_data_ m))));;
    mret r.

(** *** [src/config/internal.cpp] *)
Definition set_flag (p : path) (val : bool) : M ConfigBase () :=
  if val then assign_int p 1 else erase_field p.
Definition set_positive_int (p : path) (val : Z) : M ConfigBase () :=
  if 0 <? val then assign_int p val else erase_field p.
Definition set_nonzero_int (p : path) (val : Z) : M ConfigBase () :=
  if negb (val =? 0) then assign_int p val else erase_field p.
Definition set_nonempty_str (p : path) (val : bytes) : M ConfigBase () :=
  if negb (size val =? 0) then assign_str p val else erase_field p.
Definition set_pair_if (condition : bool) (p1 : path) (v1 : dict_value) (p2 : path) (v2 : dict_value)
    : M ConfigBase () :=
  if condition then assign p1 v1;; assign p2 v2 else erase_field p1;; erase_field p2.

(** Every bit of the 64-bit word, from the lowest *)
Definition set_int64_set_from_bitset (p : path) (bitset : Z) : M ConfigBase () :=
  forM_ (seq 0 64) (λ i,
    if negb (Z.land bitset (Z.shiftl 1 (Z.of_nat i)) =? 0)
    then insert_if_missing p (inl (Z.of_nat i));; skip
    else set_erase_impl p (inl (Z.of_nat i));; skip).
End proxy.

Definition maybe_scalar (d : dict) (key : bytes) : option scalar :=
  match mfind key d with Some (DScalar x) => Some x | _ => None end.
Definition maybe_set (d : dict) (key : bytes) : option config_set :=
  match mfind key d with Some (DSet s) => Some s | _ => None end.
Definition maybe_int (d : dict) (key : bytes) : option Z :=
  match maybe_scalar d key with Some (inl z) => Some z | _ => None end.
Definition int_or_0 (d : dict) (key : bytes) : Z := default 0 (maybe_int d key).
(** Time points are seconds (or milliseconds) since the epoch. *)
Definition maybe_ts (d : dict) (key : bytes) : option Z := maybe_int d key.
Definition maybe_ts_ms (d : dict) (key : bytes) : option Z := maybe_int d key.
Definition ts_or_epoch (d : dict) (key : bytes) : Z := default 0 (maybe_int d key).
Definition maybe_string (d : dict) (key : bytes) : option bytes :=
  match maybe_scalar d key with Some (inr s) => Some s | _ => None end.
Definition string_or_empty (d : dict) (key : bytes) : bytes := default "" (maybe_string d key).
Definition maybe_vector (d : dict) (key : bytes) : option bytes := maybe_string d key.

Definition bitset_from_set_of_int64_or_0 (s : config_set) : Z :=
  fold_left (λ result v,
    match v with
    | inl val => if (0 <=? val) && (val <? 64) then Z.lor result (Z.shiftl 1 val) else result
    | inr _ => result
    end) s 0.

(** ** What an operation does to the data of an object

    An object that can be written to: valid, not read-only, and when it is not
    dirty yet the next message exists (its sequence number does not overflow)
    and starts with the same data. *)
Section edits.
Context `{BtLib, Hash}.

Record writable (b : ConfigBase) : Prop := {
  writable_inv : config_inv b;
  writable_rw : is_readonly b = false;
  writable_data : dict_ok (data_of b) = true;
  writable_next : is_dirty b = false →
    ∃ m, increment (_config b) = Ok m ∧ data_ (base m) = data_of b;
}.

(** [edits d m d']: on data [d], [m] succeeds and leaves data [d'] in an object
    that is dirty or has not been touched. *)
Definition edits {A} (d : dict) (m : M ConfigBase A) (d' : dict) : Prop :=
  ∀ b, writable b → data_of b = d →
    ∃ a b', m b = (Ok a, b') ∧ writable b' ∧ data_of b' = d' ∧ (b' = b ∨ _state b' = Dirty).

(** [quiet d m]: on data [d], [m] leaves an object that is not dirty alone. *)
Definition quiet {A} (d : dict) (m : M ConfigBase A) : Prop :=
  ∀ b, is_dirty b = false → data_of b = d → ∃ a, m b = (Ok a, b).

Lemma edits_ret {A} (a : A) d : edits d (mret a) d.
Proof. intros b Hb Hd. exists a, b. auto. Qed.

Lemma edits_bind {A B} (m : M ConfigBase A) (f : A → M ConfigBase B) d d1 d2 :
  edits d m d1 → (∀ a, edits d1 (f a) d2) → edits d (x ← m; f x) d2.
Proof.
  intros Hm Hf b Hb Hd. destruct (Hm b Hb Hd) as (a & b1 & E & Hb1 & Hd1 & Hs).
  destruct (Hf a b1 Hb1 Hd1) as (a2 & b2 & E2 & Hb2 & Hd2 & Hs2).
  exists a2, b2. split_and!; [by rewrite run_bind, E|done..|].
  destruct Hs2 as [->|?]; [done|by right].
Qed.

Lemma edits_mget {A} (f : ConfigBase → M ConfigBase A) d d' :
  (∀ b, data_of b = d → edits d (f b) d') → edits d (b ← mget; f b) d'.
Proof. intros Hf b Hb Hd. by apply (Hf b Hd b). Qed.

Lemma quiet_ret {A} (a : A) d : quiet d (mret a).
Proof. intros b _ _. by exists a. Qed.

Lemma quiet_bind {A B} (m : M ConfigBase A) (f : A → M ConfigBase B) d :
  quiet d m → (∀ a, quiet d (f a)) → quiet d (x ← m; f x).
Proof.
  intros Hm Hf b Hb Hd. destruct (Hm b Hb Hd) as [a E]. destruct (Hf a b Hb Hd) as [a2 E2].
  exists a2. by rewrite run_bind, E.
Qed.

Lemma quiet_mget {A} (f : ConfigBase → M ConfigBase A) d :
  (∀ b, data_of b = d → quiet d (f b)) → quiet d (b ← mget; f b).
Proof. intros Hf b Hb Hd. by apply (Hf b Hd b). Qed.

(** The mutable message of a writable object *)
Lemma dirty_writable b :
  writable b → ∃ m b', dirty b = (Ok m, b') ∧ config_inv b' ∧ _config b' = Mutable m ∧
    _state b' = Dirty ∧ is_readonly b' = false ∧ data_ (base m) = data_of b.
Proof.
  intros [Hb Hro Hd Hn].
  assert (∃ m b', dirty b = (Ok m, b')) as (m & b' & E).
  { rewrite dirty_run by done. destruct (is_dirty b) eqn:Ed.
    - apply bool_decide_eq_true in Ed. destruct (inv_dirty _ Hb Ed) as [m ->]. eauto.
    - destruct (Hn eq_refl) as (m & -> & _). rewrite Hro. eauto. }
  exists m, b'. split; [done|]. pose proof (dirty_Ok _ _ _ Hb E) as (Hb' & Hc & Hs & Hcb & _ & _ & _ & Hm).
  split_and!; [done..| |].
  - rewrite <-Hro. unfold is_readonly, config_of. rewrite Hc. unfold callbacks in Hcb. simpl in *.
    by injection Hcb as -> ->.
  - destruct (is_dirty b) eqn:Ed; [unfold data_of, config_of; by rewrite Hm|].
    destruct (Hn eq_refl) as (m' & Hm' & <-). congruence.
Qed.

Lemma writable_with_data b m d :
  config_inv b → _config b = Mutable m → _state b = Dirty → is_readonly b = false → dict_ok d = true →
  writable (with_config (Mutable (mkMutable (with_data d (base m)) (orig_data_ m))) b).
Proof.
  intros Hb Hc Hs Hro Hd. split.
  - apply with_config_inv; [done|by rewrite Hc|eauto].
  - rewrite <-Hro. apply callbacks_readonly. by rewrite Hc.
  - done.
  - unfold is_dirty. simpl. by rewrite bool_decide_true.
Qed.

(** A change of [dirty().data()] whose result may depend on it *)
Lemma edits_dirty {A} (f : dict → A * dict) d :
  dict_ok (f d).2 = true →
  edits d (m ← dirty; let '(r, d) := f (data_ (base m)) in
           modify (with_config (Mutable (mkMutable (with_data d (base m)) (orig_data_ m))));; mret r)
        (f d).2.
Proof.
  intros Hf b Hb Hd. destruct (dirty_writable b Hb) as (m & b1 & E & Hb1 & Hc & Hs & Hro & Hm).
  destruct (f d) as [r d'] eqn:Er.
  exists r, (with_config (Mutable (mkMutable (with_data d' (base m)) (orig_data_ m))) b1).
  split_and!; [|by apply writable_with_data|done|by right].
  rewrite run_bind, E, Hm, Hd, Er. done.
Qed.

Lemma edits_update f d : dict_ok (f d) = true → edits d (update_data f) (f d).
Proof.
  intros Hf b Hb Hd.
  destruct (edits_dirty (λ d, (tt, f d)) d Hf b Hb Hd) as ([] & b' & E & ?).
  exists tt, b'. by rewrite <-E.
Qed.

Lemma clean_path_edits {A} (c : ConfigBase → bool) (a : A) m d d' :
  (∀ b, writable b → data_of b = d → c b = true → d' = d) → edits d m d' →
  edits d (b ← mget; if c b then mret a else m) d'.
Proof.
  intros Hc Hm b Hb Hd. rewrite run_mget. destruct (c b) eqn:E; [|by apply Hm].
  exists a, b. rewrite (Hc b Hb Hd E). auto.
Qed.

(** *** Fields *)
Definition put_opt (p : path) (o : option dict_value) (d : dict) : dict :=
  match o with Some v => put_path p.1 p.2 v d | None => erase_path p.1 p.2 d end.

Lemma put_opt_ok p o d :
  dict_ok d = true → (∀ v, o = Some v → value_ok v = true) → dict_ok (put_opt p o d) = true.
Proof. intros Hd Hv. destruct o; [apply put_path_ok; auto|by apply erase_path_ok]. Qed.

Lemma edits_skip_or {A} (c : bool) (a : A) (m1 m2 : M ConfigBase A) d d' :
  edits d m1 d' → edits d m2 d' → edits d (if c then m1 else m2) d'.
Proof. by destruct c. Qed.

Lemma edits_erase p d : dict_ok d = true → edits d (erase_field p) (put_opt p None d).
Proof.
  intros Hd. apply clean_path_edits; [|by apply (edits_update (erase_path p.1 p.2)), erase_path_ok].
  intros b _ <- [_ Hc]%andb_true_iff. apply erase_path_absent; [done|].
  unfold field_exists, get_clean in Hc. by destruct (find_path _ _ _).
Qed.

(** The value [assign] leaves behind: empty sets and dictionaries are not
    stored. *)
Definition stored (v : dict_value) : option dict_value := if empty_value v then None else Some v.

Lemma edits_assign p v d :
  dict_ok d = true → value_ok v = true → edits d (assign p v) (put_opt p (stored v) d).
Proof.
  intros Hd Hv. unfold assign, stored. destruct (empty_value v); [by apply edits_erase|].
  apply clean_path_edits; [|by apply (edits_update (put_path p.1 p.2 v)), put_path_ok].
  intros b _ <- [_ Hc]%andb_true_iff. apply bool_decide_eq_true in Hc. by apply put_path_found.
Qed.

Lemma quiet_erase p d : get_clean p d = None → quiet d (erase_field p).
Proof.
  intros Hp b Hb Hd. exists tt. unfold erase_field. rewrite run_mget, Hb, Hd. simpl.
  unfold field_exists. by rewrite Hp.
Qed.

Lemma quiet_assign p v d : get_clean p d = stored v → quiet d (assign p v).
Proof.
  unfold stored, assign. destruct (empty_value v); intros Hp; [by apply quiet_erase|].
  intros b Hb Hd. exists tt. rewrite run_mget, Hb, Hd. simpl. by rewrite bool_decide_true.
Qed.

Lemma set_insert_path_ok p x d :
  dict_ok d = true → scalar_ok x = true → dict_ok (set_insert_path p x d) = true.
Proof.
  intros Hd Hx. apply put_path_ok; [done|]. simpl. apply set_ok_insert; [done|].
  unfold field_set, get_clean. destruct (find_path p.1 p.2 d) as [[]|] eqn:E; try done.
  by apply find_path_ok in E.
Qed.

Lemma set_erase_path_ok p x d : dict_ok d = true → dict_ok (set_erase_path p x d).2 = true.
Proof.
  intros Hd. unfold set_erase_path, get_clean.
  destruct (find_path p.1 p.2 d) as [[]|] eqn:E; try done; apply put_path_ok; try done.
  apply find_path_ok in E; [|done]. by apply set_ok_erase.
Qed.

(** *** Sets written element by element *)

(** The set at [p], if any value is there it is a set *)
Definition set_at (p : path) (d : dict) (o : option config_set) : Prop :=
  get_clean p d = DSet <$> o.

Definition put_set (p : path) (o : option config_set) (d : dict) : dict :=
  match o with Some s => put_path p.1 p.2 (DSet s) d | None => d end.

Lemma put_put i l v w d : dict_ok d = true → put_path i l v (put_path i l w d) = put_path i l v d.
Proof.
  assert (∀ k (x y : dict_value) d, msorted d = true → minsert k x (minsert k y d) = minsert k x d) as Hii.
  { intros k x y d' Hs. apply msorted_ext; [by repeat apply msorted_insert|by apply msorted_insert|].
    intros j. rewrite !mfind_insert. by destruct (keqb j k). }
  revert d; induction i as [|k i IH]; intros d Hd; simpl.
  - apply Hii. by apply dict_ok_lookup in Hd as [? _].
  - rewrite sub_dict_insert, keqb_refl. simpl. rewrite IH.
    + apply Hii. by apply dict_ok_lookup in Hd as [? _].
    + destruct (sub_dict k d) eqn:E; [by eapply sub_dict_ok|done].
Qed.

Lemma set_at_put p s d : set_at p (put_path p.1 p.2 (DSet s) d) (Some s).
Proof. apply find_put_same. Qed.

Lemma set_at_ok p d s : dict_ok d = true → set_at p d (Some s) → set_ok s = true.
Proof. intros Hd Hs. by apply find_path_ok in Hs. Qed.

Lemma set_at_field p d o : set_at p d o → field_set p d = o.
Proof. unfold set_at, field_set. intros ->. by destruct o. Qed.

Lemma sinsert_found x (s : config_set) : ssorted s = true → smem x s = true → sinsert x s = s.
Proof.
  intros Hs Hx. apply ssorted_ext; [by apply ssorted_insert|done|]. intros y. rewrite smem_insert.
  destruct (keqb y x) eqn:E; [|done]. by apply keqb_spec in E as ->.
Qed.

Lemma serase_absent x (s : config_set) : ssorted s = true → smem x s = false → serase x s = s.
Proof.
  intros Hs Hx. apply ssorted_ext; [by apply ssorted_erase|done|]. intros y. rewrite smem_erase.
  destruct (keqb y x) eqn:E; [|done]. by apply keqb_spec in E as ->.
Qed.

Lemma set_ok_sorted s : set_ok s = true → ssorted s = true.
Proof. unfold set_ok. by rewrite andb_true_iff; intros []. Qed.

Lemma edits_insert p x d o :
  dict_ok d = true → set_at p d o → scalar_ok x = true →
  edits d (insert_if_missing p x) (put_set p (Some (sinsert x (default [] o))) d).
Proof.
  intros Hd Ho Hx. rewrite <-(set_at_field _ _ _ Ho). simpl.
  apply (clean_path_edits (λ b, negb (is_dirty b) && _)); [|].
  - intros b _ Hb [_ Hc]%andb_true_iff. rewrite Hb, (set_at_field _ _ _ Ho) in Hc.
    rewrite (set_at_field _ _ _ Ho). destruct o as [s|]; [|done]. simpl. rewrite sinsert_found; [|by eapply set_ok_sorted, set_at_ok|done].
    by apply put_path_found.
  - eapply edits_bind; [by apply (edits_update (set_insert_path p x)), set_insert_path_ok|].
    intros _. apply edits_ret.
Qed.

Lemma edits_set_erase p x d o :
  dict_ok d = true → set_at p d o →
  edits d (set_erase_impl p x) (put_set p (serase x <$> o) d).
Proof.
  intros Hd Ho. assert (put_set p (serase x <$> o) d = (set_erase_path p x d).2) as ->.
  { unfold set_erase_path. rewrite Ho. by destruct o. }
  apply (clean_path_edits (λ b, negb (is_dirty b) && _)); [|by apply edits_dirty, set_erase_path_ok].
  intros b _ Hb [_ Hc]%andb_true_iff. rewrite Hb, (set_at_field _ _ _ Ho) in Hc.
  unfold set_erase_path. rewrite Ho. destruct o as [s|]; [|done]. simpl.
  apply negb_true_iff in Hc. rewrite serase_absent; [|by eapply set_ok_sorted, set_at_ok|done].
  by apply put_path_found.
Qed.

(** The 64 steps of [set_int64_set_from_bitset] on the set itself *)
Definition bit_step (bits : Z) (o : option config_set) (i : nat) : option config_set :=
  if Z.testbit bits (Z.of_nat i) then Some (sinsert (inl (Z.of_nat i)) (default [] o))
  else serase (inl (Z.of_nat i)) <$> o.
Definition bits_value (bits : Z) (o : option config_set) : option config_set :=
  fold_left (bit_step bits) (seq 0 64) o.

Lemma land_bit a i : negb (Z.land a (Z.shiftl 1 (Z.of_nat i)) =? 0) = Z.testbit a (Z.of_nat i).
Proof.
  rewrite Z.shiftl_1_l. destruct (Z.testbit a (Z.of_nat i)) eqn:E.
  - apply negb_true_iff, Z.eqb_neq. intros Hz. apply (f_equal (λ z, Z.testbit z (Z.of_nat i))) in Hz.
    rewrite Z.land_spec, E, Z.pow2_bits_true, Z.bits_0 in Hz by lia. done.
  - apply negb_false_iff, Z.eqb_eq, Z.bits_inj_0. intros j. rewrite Z.land_spec.
    destruct (decide (j = Z.of_nat i)) as [->|Hj]; [by rewrite E|].
    destruct (decide (0 ≤ j)); [|by rewrite Z.testbit_neg_r by lia].
    by rewrite Z.pow2_bits_false, andb_false_r by lia.
Qed.

Lemma edits_bits_loop p bits l d o :
  dict_ok d = true → set_at p d o → Forall (λ i, (i < 64)%nat) l →
  edits d (forM_ l (λ i,
      if negb (Z.land bits (Z.shiftl 1 (Z.of_nat i)) =? 0)
      then insert_if_missing p (inl (Z.of_nat i));; skip
      else set_erase_impl p (inl (Z.of_nat i));; skip)) (put_set p (fold_left (bit_step bits) l o) d).
Proof.
  intros Hd Ho Hl. revert d o Hd Ho; induction Hl as [|i l Hi _ IH]; intros d o Hd Ho; cbn [forM_ fold_left].
  { destruct o as [s|]; simpl; [rewrite put_path_found by done|]; apply edits_ret. }
  assert (scalar_ok (inl (Z.of_nat i)) = true) as Hok.
  { simpl. apply in_int64_spec. unfold int64_min, int64_max. lia. }
  assert (dict_ok (put_set p (bit_step bits o i) d) = true ∧ set_at p (put_set p (bit_step bits o i) d) (bit_step bits o i)) as [Hd' Ho'].
  { unfold bit_step. destruct (Z.testbit bits (Z.of_nat i)).
    - split; [|apply set_at_put]. pose proof (set_insert_path_ok p (inl (Z.of_nat i)) d Hd Hok) as Hs.
      unfold set_insert_path in Hs. by rewrite (set_at_field _ _ _ Ho) in Hs.
    - pose proof (set_erase_path_ok p (inl (Z.of_nat i)) d Hd) as Hs. unfold set_erase_path in Hs.
      rewrite Ho in Hs. destruct o; simpl in *; [|by split]. split; [done|apply set_at_put]. }
  apply edits_bind with (d1 := put_set p (bit_step bits o i) d).
  - rewrite land_bit. unfold bit_step. destruct (Z.testbit bits (Z.of_nat i)).
    + eapply edits_bind; [by apply edits_insert|]. intros _. apply edits_ret.
    + eapply edits_bind; [by apply edits_set_erase|]. intros _. apply edits_ret.
  - intros _. specialize (IH _ _ Hd' Ho').
    replace (put_set p (fold_left _ l _) d)
      with (put_set p (fold_left (bit_step bits) l (bit_step bits o i)) (put_set p (bit_step bits o i) d)); [done|].
    destruct (bit_step bits o i) as [s|] eqn:Eb; [|done].
    destruct (fold_left (bit_step bits) l (Some s)) as [s'|] eqn:Es; [by apply put_put|].
    exfalso. clear -Es. revert s Es. induction l as [|j l IH]; [done|]. cbn [fold_left]. intros s Es.
    unfold bit_step in Es at 2. destruct (Z.testbit bits (Z.of_nat j)); by eapply IH.
Qed.

Lemma edits_bits p bits d o :
  dict_ok d = true → set_at p d o →
  edits d (set_int64_set_from_bitset p bits) (put_set p (bits_value bits o) d).
Proof.
  intros Hd Ho. apply edits_bits_loop; [done..|]. apply Forall_forall. intros i Hi%elem_of_seq. lia.
Qed.
End edits.

(** *** Reading a bitset back *)
Lemma bits_fold_mem bits l o i :
  NoDup l →
  smem (inl (Z.of_nat i)) (default [] (fold_left (bit_step bits) l o)) =
    if decide (i ∈ l) then Z.testbit bits (Z.of_nat i) else smem (inl (Z.of_nat i)) (default [] o).
Proof.
  intros Hl. revert o; induction Hl as [|j l Hj _ IH]; intros o; cbn [fold_left]; [by rewrite decide_False by set_solver|].
  rewrite IH. destruct (decide (i ∈ l)) as [Hi|Hi].
  { by rewrite decide_True by set_solver. }
  unfold bit_step. destruct (decide (i = j)) as [->|Hij].
  - rewrite decide_True by set_solver. destruct (Z.testbit bits (Z.of_nat j)); simpl.
    + by rewrite smem_insert, keqb_refl.
    + destruct o; simpl; [by rewrite smem_erase, keqb_refl|done].
  - rewrite decide_False by set_solver.
    assert (keqb (inl (Z.of_nat i) : scalar) (inl (Z.of_nat j)) = false) as Hne.
    { apply not_true_iff_false. rewrite keqb_spec. intros [= ?%Nat2Z.inj]. done. }
    destruct (Z.testbit bits (Z.of_nat j)); simpl; [by rewrite smem_insert, Hne|].
    destruct o; simpl; [by rewrite smem_erase, Hne|done].
Qed.

Lemma bitset_testbit s acc i :
  0 ≤ i →
  Z.testbit (fold_left (λ result v,
    match v with
    | inl val => if (0 <=? val) && (val <? 64) then Z.lor result (Z.shiftl 1 val) else result
    | inr _ => result
    end) s acc) i = Z.testbit acc i || ((i <? 64) && smem (inl i : scalar) s).
Proof.
  intros Hi. revert acc; induction s as [|x s IH]; intros acc; cbn [fold_left].
  { unfold smem. simpl. by rewrite andb_false_r, orb_false_r. }
  rewrite IH. change (smem (inl i) (x :: s)) with (keqb (inl i : scalar) x || smem (inl i) s).
  destruct x as [z|z].
  - destruct ((0 <=? z) && (z <? 64)) eqn:Ez.
    + apply andb_true_iff in Ez as [?%Z.leb_le ?%Z.ltb_lt].
      rewrite Z.lor_spec, Z.shiftl_1_l. destruct (decide (i = z)) as [->|Hne].
      * rewrite Z.pow2_bits_true, keqb_refl by lia. assert (z <? 64 = true) as -> by (apply Z.ltb_lt; lia).
        simpl. by rewrite !orb_true_r.
      * rewrite Z.pow2_bits_false by lia. assert (keqb (inl i : scalar) (inl z) = false) as ->.
        { apply not_true_iff_false. rewrite keqb_spec. by intros [= ?]. }
        by rewrite orb_false_r.
    + destruct (keqb (inl i : scalar) (inl z)) eqn:Ek; [|done].
      apply keqb_spec in Ek as [= ->]. assert (z <? 64 = false) as ->; [|done].
      destruct (0 <=? z) eqn:E0; [done|]. apply Z.leb_gt in E0. lia.
  - assert (keqb (inl i : scalar) (inr z) = false) as ->; [|done].
    apply not_true_iff_false. by rewrite keqb_spec.
Qed.

Lemma bits_value_mem bits o i :
  (i < 64)%nat → smem (inl (Z.of_nat i)) (default [] (bits_value bits o)) = Z.testbit bits (Z.of_nat i).
Proof.
  intros Hi. unfold bits_value. rewrite bits_fold_mem by apply NoDup_seq.
  rewrite decide_True; [done|]. apply elem_of_seq. lia.
Qed.

Lemma bits_round bits o :
  0 ≤ bits < 2 ^ 64 → bitset_from_set_of_int64_or_0 (default [] (bits_value bits o)) = bits.
Proof.
  intros Hb. apply Z.bits_inj'. intros i Hi. unfold bitset_from_set_of_int64_or_0.
  rewrite bitset_testbit, Z.bits_0 by done. simpl. destruct (i <? 64) eqn:E.
  - apply Z.ltb_lt in E. rewrite <-(Z2Nat.id i) by done.
    by rewrite bits_value_mem by lia.
  - apply Z.ltb_ge in E. symmetry. simpl. destruct (decide (bits = 0)) as [->|]; [apply Z.bits_0|].
    apply Z.bits_above_log2; [lia|]. apply Z.log2_lt_pow2; [lia|].
    apply Z.lt_le_trans with (2 ^ 64); [lia|]. apply Z.pow_le_mono_r; lia.
Qed.

(** ** Records kept in a dictionary

    A record of the data is a dictionary at a path [q]; its members are the
    fields [q["k"]].  Every write to a member is a [put_opt]. *)
Definition int_value (z : Z) : dict_value := DScalar (inl z).
Definition str_value (s : bytes) : dict_value := DScalar (inr s).
Definition flag_value (b : bool) : option dict_value := if b then Some (int_value 1) else None.
Definition positive_value (z : Z) : option dict_value := if 0 <? z then Some (int_value z) else None.
Definition nonzero_value (z : Z) : option dict_value := if z =? 0 then None else Some (int_value z).
Definition nonempty_value (s : bytes) : option dict_value := if size s =? 0 then None else Some (str_value s).
Definition value_if (c : bool) (v : dict_value) : option dict_value := if c then Some v else None.

Definition opt_ok (o : option dict_value) : bool :=
  match o with Some v => value_ok v | None => true end.

Lemma opt_ok_spec o : opt_ok o = true ↔ ∀ v, o = Some v → value_ok v = true.
Proof. destruct o; simpl; naive_solver. Qed.

Section record_edits.
Context `{BtLib, Hash}.

Lemma put_opt_dict_ok p o d : dict_ok d = true → opt_ok o = true → dict_ok (put_opt p o d) = true.
Proof. intros Hd Ho. apply put_opt_ok; [done|]. by apply opt_ok_spec. Qed.

Lemma edits_assign_scalar p x d :
  dict_ok d = true → scalar_ok x = true →
  edits d (assign p (DScalar x)) (put_opt p (Some (DScalar x)) d).
Proof. intros Hd Hx. by apply (edits_assign p (DScalar x)). Qed.

Lemma edits_flag p v d : dict_ok d = true → edits d (set_flag p v) (put_opt p (flag_value v) d).
Proof. intros Hd. destruct v; [by apply edits_assign_scalar|by apply edits_erase]. Qed.

Lemma edits_positive p z d :
  dict_ok d = true → in_int64 z = true → edits d (set_positive_int p z) (put_opt p (positive_value z) d).
Proof.
  intros Hd Hz. unfold set_positive_int, positive_value.
  destruct (0 <? z); [by apply edits_assign_scalar|by apply edits_erase].
Qed.

Lemma edits_nonzero p z d :
  dict_ok d = true → in_int64 z = true → edits d (set_nonzero_int p z) (put_opt p (nonzero_value z) d).
Proof.
  intros Hd Hz. unfold set_nonzero_int, nonzero_value.
  destruct (z =? 0); simpl; [by apply edits_erase|by apply edits_assign_scalar].
Qed.

Lemma edits_nonempty p s d :
  dict_ok d = true → edits d (set_nonempty_str p s) (put_opt p (nonempty_value s) d).
Proof.
  intros Hd. unfold set_nonempty_str, nonempty_value.
  destruct (size s =? 0); simpl; [by apply edits_erase|by apply edits_assign_scalar].
Qed.

Lemma edits_pair c p1 x1 p2 x2 d :
  dict_ok d = true → scalar_ok x1 = true → scalar_ok x2 = true →
  edits d (set_pair_if c p1 (DScalar x1) p2 (DScalar x2))
    (put_opt p2 (value_if c (DScalar x2)) (put_opt p1 (value_if c (DScalar x1)) d)).
Proof.
  intros Hd H1 H2. unfold set_pair_if. destruct c; simpl value_if.
  - eapply edits_bind; [by apply edits_assign_scalar|]. intros _. apply edits_assign_scalar; [|done].
    by apply put_opt_dict_ok.
  - eapply edits_bind; [by apply edits_erase|]. intros _. apply edits_erase. by apply put_opt_dict_ok.
Qed.

Lemma bits_fold_Some bits l s : ∃ s', fold_left (bit_step bits) l (Some s) = Some s'.
Proof.
  revert s; induction l as [|j l IH]; intros s; [eauto|]. cbn [fold_left]. unfold bit_step at 2.
  destruct (Z.testbit bits (Z.of_nat j)); apply IH.
Qed.

Lemma bits_value_Some bits s : ∃ s', bits_value bits (Some s) = Some s'.
Proof. apply bits_fold_Some. Qed.

Definition bits_field (bits : Z) (o : option config_set) : option dict_value :=
  DSet <$> bits_value bits o.

Lemma edits_bitset p bits d o :
  dict_ok d = true → set_at p d o →
  edits d (set_int64_set_from_bitset p bits) (put_opt p (bits_field bits o) d).
Proof.
  intros Hd Ho. replace (put_opt p (bits_field bits o) d) with (put_set p (bits_value bits o) d).
  - by apply edits_bits.
  - unfold bits_field. pose proof (bits_value_Some bits) as Hs.
    destruct (bits_value bits o) as [s'|] eqn:E; [reflexivity|].
    destruct o as [s|]; [|simpl; by rewrite erase_path_absent].
    destruct (Hs s) as [s' Hs']. congruence.
Qed.

Lemma quiet_flag p v d : get_clean p d = flag_value v → quiet d (set_flag p v).
Proof. destruct v; [apply (quiet_assign p (int_value 1))|apply quiet_erase]. Qed.

Lemma quiet_positive p z d : get_clean p d = positive_value z → quiet d (set_positive_int p z).
Proof.
  unfold positive_value, set_positive_int.
  destruct (0 <? z); [apply (quiet_assign p (int_value z))|apply quiet_erase].
Qed.

Lemma quiet_nonzero p z d : get_clean p d = nonzero_value z → quiet d (set_nonzero_int p z).
Proof.
  unfold nonzero_value, set_nonzero_int.
  destruct (z =? 0); [apply quiet_erase|apply (quiet_assign p (int_value z))].
Qed.

Lemma quiet_nonempty p s d : get_clean p d = nonempty_value s → quiet d (set_nonempty_str p s).
Proof.
  unfold nonempty_value, set_nonempty_str.
  destruct (size s =? 0); [apply quiet_erase|apply (quiet_assign p (str_value s))].
Qed.

Lemma quiet_pair c p1 x1 p2 x2 d :
  get_clean p1 d = value_if c (DScalar x1) → get_clean p2 d = value_if c (DScalar x2) →
  quiet d (set_pair_if c p1 (DScalar x1) p2 (DScalar x2)).
Proof.
  unfold set_pair_if. destruct c; intros H1 H2; (apply quiet_bind; [|intros _]);
    first [by apply (quiet_assign _ (DScalar _))|by apply quiet_erase].
Qed.

Lemma quiet_bitset p bits d o :
  set_at p d o → (∀ i, (i < 64)%nat → smem (inl (Z.of_nat i)) (default [] o) = Z.testbit bits (Z.of_nat i)) →
  quiet d (set_int64_set_from_bitset p bits).
Proof.
  intros Ho Hbits. unfold set_int64_set_from_bitset.
  assert (Forall (λ i, (i < 64)%nat) (seq 0 64)) as Hl.
  { apply Forall_forall. intros i Hi%elem_of_seq. lia. }
  induction Hl as [|i l Hi _ IH]; cbn [forM_]; [apply quiet_ret|]. apply quiet_bind; [|done].
  specialize (Hbits i Hi). rewrite land_bit, <-Hbits.
  assert (∀ b, data_of b = d → field_set p (data_of b) = o) as Hf by (intros b ->; by apply set_at_field).
  destruct (smem _ _) eqn:E; (apply quiet_bind; [|intros _; apply quiet_ret]); intros b Hb Hd;
    exists false; unfold insert_if_missing, set_erase_impl; rewrite run_mget, Hb, (Hf b Hd);
    destruct o as [s|]; simpl in *; by rewrite ?E.
Qed.
End record_edits.

(** *** Reading a member after writes *)
Definition put_member (q : path) (d : dict) (w : bytes * option dict_value) : dict :=
  put_opt (sub q w.1) w.2 d.
Definition put_members (q : path) (ws : list (bytes * option dict_value)) (d : dict) : dict :=
  fold_left (put_member q) ws d.

Fixpoint assoc {A} (k : bytes) (l : list (bytes * A)) : option A :=
  match l with [] => None | (j, a) :: l => if keqb k j then Some a else assoc k l end.

Lemma get_put_same p o d : get_clean p (put_opt p o d) = o.
Proof. destruct o; [apply find_put_same|apply find_erase_same]. Qed.

Lemma get_put_other p1 p2 o d :
  independent p1.1 p1.2 p2.1 p2.2 = true → get_clean p2 (put_opt p1 o d) = get_clean p2 d.
Proof. intros Hi. destruct o; [by apply find_put_other|by apply find_erase_other]. Qed.

Lemma independent_app l i1 k1 i2 k2 :
  independent (l ++ i1) k1 (l ++ i2) k2 = independent i1 k1 i2 k2.
Proof. induction l as [|k l IH]; [done|]. simpl. by rewrite keqb_refl. Qed.

Lemma independent_sym i1 k1 i2 k2 : independent i1 k1 i2 k2 = independent i2 k2 i1 k1.
Proof.
  revert i2; induction i1 as [|j1 i1 IH]; intros [|j2 i2]; simpl; rewrite 1?keqb_sym; try done.
  by rewrite IH.
Qed.

Lemma independent_members q j k : j ≠ k → independent (sub q j).1 (sub q j).2 (sub q k).1 (sub q k).2 = true.
Proof.
  intros Hne. simpl. rewrite <-(app_nil_r (q.1 ++ [q.2])), independent_app. simpl.
  apply negb_true_iff, not_true_iff_false. by rewrite keqb_spec.
Qed.

Lemma get_put_members q ws k d :
  NoDup ws.*1 → get_clean (sub q k) (put_members q ws d) =
    match assoc k ws with Some o => o | None => get_clean (sub q k) d end.
Proof.
  unfold put_members. revert d; induction ws as [|[j o] ws IH]; intros d Hn; [done|].
  rewrite fmap_cons in Hn. apply NoDup_cons in Hn as [Hj Hn]. cbn [fold_left assoc].
  rewrite IH by done. unfold put_member. simpl fst. simpl snd. destruct (keqb k j) eqn:E.
  - apply keqb_spec in E as ->. assert (assoc j ws = None) as ->; [|apply get_put_same].
    clear -Hj. induction ws as [|[i o'] ws IH]; [done|]. cbn [assoc].
    rewrite fmap_cons in Hj. apply not_elem_of_cons in Hj as [Hne Hj].
    destruct (keqb j i) eqn:E; [by apply keqb_spec in E|auto].
  - destruct (assoc k ws); [done|]. apply get_put_other, independent_members. intros ->.
    by rewrite keqb_refl in E.
Qed.

(** The dictionary of the record, and its members *)
Lemma member_find q k d info : field_dict q d = Some info → mfind k info = get_clean (sub q k) d.
Proof.
  unfold field_dict, get_clean, sub. simpl. rewrite find_path_snoc. unfold dict_at.
  by destruct (find_path q.1 q.2 d) as [[]|]; intros [= ->].
Qed.

Lemma field_dict_put q k o d :
  field_dict q (put_opt (sub q k) o d) =
    match o with
    | Some v => Some (minsert k v (default [] (field_dict q d)))
    | None => merase k <$> field_dict q d
    end.
Proof.
  destruct o; [apply (dict_at_put q.1 q.2 k)|apply (dict_at_erase q.1 q.2 k)].
Qed.

Lemma field_dict_members q ws d :
  is_Some (field_dict q d) → is_Some (field_dict q (put_members q ws d)).
Proof.
  unfold put_members. revert d; induction ws as [|w ws IH]; intros d [i Hi]; [eauto|].
  cbn [fold_left]. apply IH. unfold put_member. rewrite field_dict_put, Hi. destruct (w.2); eauto.
Qed.

(** A record whose first member is always written exists. *)
Lemma field_dict_written q k v ws d : is_Some (field_dict q (put_members q ((k, Some v) :: ws) d)).
Proof.
  change (put_members q ((k, Some v) :: ws) d) with (put_members q ws (put_opt (sub q k) (Some v) d)).
  apply field_dict_members. rewrite field_dict_put. eauto.
Qed.

(** Writes to a record leave what is elsewhere alone. *)
Lemma get_put_members_other q ws p d :
  (∀ k, independent (sub q k).1 (sub q k).2 p.1 p.2 = true) →
  get_clean p (put_members q ws d) = get_clean p d.
Proof.
  intros Hi. unfold put_members. revert d; induction ws as [|w ws IH]; intros d; [done|].
  cbn [fold_left]. rewrite IH. by apply get_put_other.
Qed.

Lemma put_members_ok q ws d :
  dict_ok d = true → forallb (λ w, opt_ok w.2) ws = true → dict_ok (put_members q ws d) = true.
Proof.
  unfold put_members. revert d; induction ws as [|w ws IH]; intros d Hd Hw; [done|].
  simpl in Hw. apply andb_true_iff in Hw as [H1 Hw]. cbn [fold_left]. apply IH; [|done].
  apply put_opt_ok; [done|]. by apply opt_ok_spec.
Qed.

(** ** Theorems *)
Section theorems.
Context `{BtLib, Hash}.

(** (assignment to a field).  On an object that can be written to, assigning
    a value succeeds; the field then reads as that value (as absent, if it is
    an empty set or dictionary), every field on an independent path reads as
    before, the data stays well formed, and an object that was not dirty is
    left untouched if and only if the field already read so. *)
Theorem assign_field (p : path) (v : dict_value) (b : ConfigBase) :
  writable b → value_ok v = true →
  ∃ b', assign p v b = (Ok tt, b') ∧ writable b' ∧
    get_clean p (data_of b') = stored v ∧
    (∀ p', independent p.1 p.2 p'.1 p'.2 = true → get_clean p' (data_of b') = get_clean p' (data_of b)) ∧
    (is_dirty b = false → b' = b ↔ get_clean p (data_of b) = stored v).
Proof.
  intros Hb Hv. destruct (edits_assign p v _ (writable_data _ Hb) Hv b Hb eq_refl)
    as ([] & b' & E & Hb' & Hd & _).
  exists b'. rewrite Hd, get_put_same. split_and!; [done..| |].
  - intros p' Hi. by apply get_put_other.
  - intros Hc. split; [intros ->; rewrite Hd; apply get_put_same|]. intros Hg.
    destruct (quiet_assign p v _ Hg b Hc eq_refl) as [[] Hq]. congruence.
Qed.

(** (bitset round trip).  Writing the 64 bits of a word into a field that
    holds a set or nothing, and reading the set back, gives the same word,
    whatever else the set contained. *)
Theorem bitset_roundtrip (p : path) (bits : Z) (o : option config_set) (b : ConfigBase) :
  writable b → set_at p (data_of b) o → 0 ≤ bits < 2 ^ 64 →
  ∃ b', set_int64_set_from_bitset p bits b = (Ok tt, b') ∧ writable b' ∧
    bitset_from_set_of_int64_or_0 (default [] (field_set p (data_of b'))) = bits.
Proof.
  intros Hb Ho Hbits. destruct (edits_bitset p bits _ o (writable_data _ Hb) Ho b Hb eq_refl)
    as ([] & b' & E & Hb' & Hd & _).
  exists b'. split_and!; [done..|]. unfold field_set. rewrite Hd, get_put_same. unfold bits_field.
  rewrite <-(bits_round bits o) at 2 by done. destruct (bits_value bits o); reflexivity.
Qed.

(** (set members and dirtiness).  [set_insert] and [set_erase] on a field
    that holds a set or nothing: afterwards the value is in the set, or is
    not; the other members stay; and on an object that is not dirty the result
    says whether the set changed. *)
Theorem set_members (p : path) (x : scalar) (o : option config_set) (b : ConfigBase) :
  writable b → set_at p (data_of b) o → scalar_ok x = true →
  (∃ r b', insert_if_missing p x b = (Ok r, b') ∧ writable b' ∧
    (∀ y, smem y (default [] (field_set p (data_of b'))) = keqb y x || smem y (default [] o)) ∧
    (is_dirty b = false → r = negb (smem x (default [] o)) ∧ (r = false → b' = b))) ∧
  (∃ r b', set_erase_impl p x b = (Ok r, b') ∧ writable b' ∧
    (∀ y, smem y (default [] (field_set p (data_of b'))) = negb (keqb y x) && smem y (default [] o)) ∧
    (is_dirty b = false → r = smem x (default [] o) ∧ (r = false → b' = b))).
Proof.
  intros Hb Ho Hx. pose proof (set_at_field _ _ _ Ho) as Hf. split.
  - destruct (edits_insert p x _ o (writable_data _ Hb) Ho Hx b Hb eq_refl) as (r & b' & E & Hb' & Hd & _).
    exists r, b'. split_and!; [done..| |].
    + intros y. rewrite Hd. simpl. erewrite set_at_field by apply set_at_put. apply smem_insert.
    + intros Hc. unfold insert_if_missing in E. rewrite run_mget, Hc, Hf in E.
      assert (smem x (default [] o) = match o with Some s => smem x s | None => false end) as -> by by destruct o.
      destruct (match o with Some s => smem x s | None => false end); [injection E as <- <-; by split|].
      apply M_bind_Ok in E as (? & ? & _ & E). injection E as <- <-. by split.
  - destruct (edits_set_erase p x _ o (writable_data _ Hb) Ho b Hb eq_refl) as (r & b' & E & Hb' & Hd & _).
    exists r, b'. split_and!; [done..| |].
    + intros y. rewrite Hd. destruct o as [s|]; simpl.
      * erewrite set_at_field by apply set_at_put. apply smem_erase.
      * rewrite Hf. by destruct (keqb y x).
    + intros Hc. unfold set_erase_impl in E. rewrite run_mget, Hc, Hf in E.
      destruct o as [s|]; [|injection E as <- <-; by split]. change (smem x (default [] (Some s))) with (smem x s) in *.
      destruct (smem x s); [|injection E as <- <-; by split].
      destruct (dirty_writable b Hb) as (m & b1 & E1 & _ & _ & _ & _ & Hm).
      cbn [negb andb] in E. rewrite run_bind, E1, Hm in E. unfold set_erase_path in E.
      rewrite Ho in E. injection E as <- <-. by split.
Qed.
End theorems.

(** A new config can be written to. *)
Lemma writable_new : writable new_config.
Proof.
  split; [exact (reachable_config_inv _ _ reachable_new)|by vm_compute..|].
  intros _. destruct (increment (_config new_config)) as [m|] eqn:E; [|by vm_compute in E].
  exists m. split; [done|]. vm_compute in E. by injection E as <-.
Qed.

Lemma assign_field_witness :
  ∃ b', assign (root "n") (str_value "Kallie") new_config = (Ok tt, b') ∧
    field_string (root "n") (data_of b') = Some "Kallie" ∧ b' ≠ new_config.
Proof.
  destruct (assign_field (root "n") (str_value "Kallie") new_config writable_new eq_refl)
    as (b' & E & _ & Hg & _ & Hc).
  exists b'. split_and!; [exact E|unfold field_string; rewrite Hg; reflexivity|]. clear E. intros Hn.
  apply Hc in Hn; [|vm_compute; reflexivity]. vm_compute in Hn. discriminate Hn.
Defined.

Lemma bitset_roundtrip_witness :
  ∃ b', set_int64_set_from_bitset (root "f") 5 new_config = (Ok tt, b') ∧
    bitset_from_set_of_int64_or_0 (default [] (field_set (root "f") (data_of b'))) = 5.
Proof.
  destruct (bitset_roundtrip (root "f") 5 None new_config writable_new) as (b' & E & _ & Hg);
    [vm_compute; reflexivity|lia|]. exists b'. split; [exact E|exact Hg].
Defined.

Lemma set_members_witness :
  ∃ b', insert_if_missing (root "f") (inl 3) new_config = (Ok true, b') ∧
    smem (inl 3) (default [] (field_set (root "f") (data_of b'))) = true.
Proof.
  destruct (set_members (root "f") (inl 3) None new_config writable_new) as ((r & b' & E & _ & Hm & Hr) & _);
    [vm_compute; reflexivity..|]. destruct Hr as [-> _]; [vm_compute; reflexivity|].
  exists b'. split; [exact E|]. rewrite Hm. reflexivity.
Defined.

(** The 64 steps are never unfolded by the typed configs. *)
#[global] Opaque bits_value.
