(* ===== verification/Text.v ===== *)
(** * Text and URL helpers

    [src/util.cpp] and [include/bchat/util.hpp]: splitting, URL parsing,
    truncation of UTF-8 and UTF-16 text, and the timestamp conversions. *)

From Stdlib Require Import ZArith String Ascii Lia.
From stdpp Require Import base option list strings numbers.
From S2P Require Import Prelude OrderedMap Bt Bencode Crypto.

(** ** Characters and [std::string_view] *)
Definition code (c : ascii) : Z := Z.of_N (N_of_ascii c).
Definition between (lo c hi : ascii) : bool := (code lo <=? code c) && (code c <=? code hi).
Definition is_digit (c : ascii) : bool := between "0" c "9".
Definition is_lower (c : ascii) : bool := between "a" c "z".
Definition is_upper (c : ascii) : bool := between "A" c "Z".

(** [c + ('a' - 'A')] on an upper-case letter *)
Definition lower (c : ascii) : ascii :=
  if is_upper c then ascii_of_N (N_of_ascii c + 32) else c.

Fixpoint make_lc (s : bytes) : bytes :=
  match s with "" => "" | String c s => String (lower c) (make_lc s) end.

(** [std::tolower] in the C locale *)
Fixpoint string_iequal (s1 s2 : bytes) : bool :=
  match s1, s2 with
  | "", "" => true
  | String a s1, String b s2 => Ascii.eqb (lower a) (lower b) && string_iequal s1 s2
  | _, _ => false
  end.

Fixpoint find (pat s : bytes) : option nat :=
  if String.prefix pat s then Some O
  else match s with "" => None | String _ s => S <$> find pat s end.

Fixpoint rfind (pat s : bytes) : option nat :=
  match s with
  | "" => if String.prefix pat s then Some O else None
  | String _ s' =>
      match rfind pat s' with
      | Some n => Some (S n)
      | None => if String.prefix pat s then Some O else None
      end
  end.

Fixpoint all_chars (f : ascii → bool) (s : bytes) : bool :=
  match s with "" => true | String c s => f c && all_chars f s end.

Definition front (s : bytes) : option ascii := match s with String c _ => Some c | "" => None end.
Fixpoint back (s : bytes) : option ascii :=
  match s with "" => None | String c "" => Some c | String _ s => back s end.

(** ** Splitting *)
Fixpoint each_char (s : bytes) : list bytes :=
  match s with "" => [] | String c s => String c "" :: each_char s end.

Fixpoint split_loop (fuel : nat) (str delim : bytes) (trim : bool) (results : list bytes)
    : result (list bytes * bytes) :=
  match fuel with
  | O => Throw out_of_fuel
  | S fuel =>
      match find delim str with
      | None => Ok (results, str)
      | Some pos =>
          let results :=
            if negb trim || (0 <? length results)%nat || (0 <? pos)%nat
            then results ++ [stake pos str] else results in
          split_loop fuel (sdrop (pos + String.length delim) str) delim trim results
      end
  end.

(** [while (!results.empty() && results.back().empty()) results.pop_back()] *)
Fixpoint drop_empty (l : list bytes) : list bytes :=
  match l with "" :: l => drop_empty l | _ => l end.
Definition pop_empty (l : list bytes) : list bytes := rev (drop_empty (rev l)).

Definition split (str delim : bytes) (trim : bool) : result (list bytes) :=
  if size delim =? 0 then Ok (each_char str) else
  '(results, str) ← split_loop (S (String.length str)) str delim trim [];
  if negb trim || (0 <? size str) then Ok (results ++ [str]) else Ok (pop_empty results).

(** ** URLs *)

(** The characters of the host name: the normalised name, whether it has a
    dot, and what is left *)
Fixpoint host_loop (next_allow_dot : bool) (url : bytes) : bytes * bool * bytes :=
  match url with
  | "" => ("", false, "")
  | String c rest =>
      if is_digit c || is_lower c || Ascii.eqb c "-" then
        let '(h, d, r) := host_loop true rest in (String c h, d, r)
      else if is_upper c then
        let '(h, d, r) := host_loop true rest in (String (lower c) h, d, r)
      else if next_allow_dot && Ascii.eqb c "." then
        let '(h, d, r) := host_loop false rest in (String "." h, true, r)
      else ("", false, url)
  end.

(** [std::from_chars] of a [uint16_t]: as many digits as there are *)
Fixpoint take_digits (s : bytes) : bytes * bytes :=
  match s with
  | String c r => if is_digit c then let '(ds, rest) := take_digits r in (String c ds, rest) else ("", s)
  | "" => ("", "")
  end.
Fixpoint digits_value (acc : Z) (s : bytes) : Z :=
  match s with "" => acc | String c s => digits_value (acc * 10 + (code c - code "0")) s end.
Definition from_chars_u16 (s : bytes) : option (Z * bytes) :=
  let '(ds, rest) := take_digits s in
  let v := digits_value 0 ds in
  if (size ds =? 0) || (65535 <? v) then None else Some (v, rest).

Record parsed_url := mkUrl {
  url_proto : bytes;
  url_host : bytes;
  url_port : option Z;
  url_path : option bytes;
}.

Definition parse_proto (url : bytes) : bytes * bytes :=
  match find "://" url with
  | Some pos =>
      let proto_name := stake pos url in
      (if string_iequal proto_name "http" then "http://"
       else if string_iequal proto_name "https" then "https://" else "",
       sdrop (pos + 3) url)
  | None => ("", url)
  end.

Definition default_port (proto : bytes) (port : Z) : bool :=
  ((port =? 80) && keqb proto "http://") || ((port =? 443) && keqb proto "https://").

Definition parse_url (url : bytes) : result parsed_url :=
  let '(proto, url) := parse_proto url in
  _ ← require (negb (size proto =? 0)) invalid_argument;
  let '(host, has_dot, url) := host_loop false url in
  _ ← require (negb ((size host <? 4) || negb has_dot || bool_decide (back host = Some "."%char)))
              invalid_argument;
  '(port, url) ← (if bool_decide (front url = Some ":"%char)
                  then match from_chars_u16 (sdrop 1 url) with
                       | Some (p, rest) => Ok (if default_port proto p then None else Some p, rest)
                       | None => Throw invalid_argument
                       end
                  else Ok (None, url));
  Ok (mkUrl proto host port
        (if (1 <? size url) && bool_decide (front url = Some "/"%char) then Some url else None)).

(** ** Truncation *)

(** [(c & 0b1100'0000) == 0b1000'0000] *)
Definition is_continuation (c : ascii) : bool := Z.land (code c) 192 =? 128.

Fixpoint back_up (val : bytes) (n : nat) : nat :=
  match n with
  | O => O
  | S m => match String.get n val with
           | Some c => if is_continuation c then back_up val m else n
           | None => n
           end
  end.

Definition utf8_truncate (val : bytes) (n : nat) : bytes :=
  if (String.length val <=? n)%nat then val else stake (back_up val n) val.

Definition is_utf16_low_surrogate (c : Z) : bool := (0xDC00 <=? c) && (c <=? 0xDFFF).
Definition is_utf16_high_surrogate (c : Z) : bool := (0xD800 <=? c) && (c <=? 0xDBFF).

(** [simdutf::count_utf16] *)
Class Simdutf := count_utf16 : list Z → nat.

Section utf16.
Context `{Simdutf}.

Definition utf16_count (s : list Z) : nat := count_utf16 s.

(** The fallback loop, at index [i] with [counted] code points so far; the
    assertions on surrogates are only checked in debug builds *)
Fixpoint utf16_loop (i counted codepoint_len : nat) (s : list Z) : option nat :=
  match s with
  | [] => None
  | c :: s =>
      let counted := if is_utf16_high_surrogate c then counted else S counted in
      if (counted =? codepoint_len)%nat then Some (S i) else utf16_loop (S i) counted codepoint_len s
  end.

Definition utf16_count_truncated_to_codepoints (s : list Z) (codepoint_len : nat) : nat :=
  if (length s <=? codepoint_len)%nat then length s
  else if (codepoint_len =? 0)%nat then O
  else if (count_utf16 s <=? codepoint_len)%nat then length s
  else default (length s) (utf16_loop 0 0 codepoint_len s).
End utf16.

(** ** Timestamps *)

(** Seconds, milliseconds or microseconds to seconds *)
Definition to_epoch_seconds (timestamp : Z) : Z :=
  if 9000000000000 <? timestamp then timestamp / 1000000
  else if 9000000000 <? timestamp then timestamp / 1000
  else timestamp.

Definition to_sys_seconds (timestamp : Z) : Z :=
  if 9000000000000 <? timestamp then timestamp / 1000000
  else if 9000000000 <? timestamp then timestamp / 1000
  else timestamp.

(** ** Splitting is the inverse of joining *)
Fixpoint join (delim : bytes) (l : list bytes) : bytes :=
  match l with
  | [] => ""
  | [s] => s
  | s :: l => s +:+ delim +:+ join delim l
  end.

Lemma all_chars_app f a b : all_chars f (a +:+ b) = all_chars f a && all_chars f b.
Proof. induction a as [|c a IH]; simpl; [done|]. by rewrite IH, andb_assoc. Qed.

Lemma all_chars_impl f g s : (∀ c, f c = true → g c = true) → all_chars f s = true → all_chars g s = true.
Proof.
  intros Hfg. induction s as [|c s IH]; simpl; [done|]. rewrite !andb_true_iff. intros [? ?]. auto.
Qed.

Lemma prefix_app pat s : String.prefix pat s = true ↔ ∃ r, s = pat +:+ r.
Proof.
  revert s; induction pat as [|c pat IH]; intros s.
  { split; [by exists s|]. by destruct s. }
  destruct s as [|c' s]; [by split; [|intros [r [=]]]|]. simpl.
  destruct (ascii_dec c c') as [->|Hne].
  - rewrite IH. split; intros [r Hr]; exists r; simplify_eq; done.
  - split; [done|]. intros [r [=]]. done.
Qed.

Lemma find_Some pat s n :
  find pat s = Some n → s = stake n s +:+ pat +:+ sdrop (n + String.length pat) s ∧ (n ≤ String.length s)%nat.
Proof.
  revert n; induction s as [|c s IH]; intros n; cbn [find].
  - destruct (String.prefix pat "") eqn:E; [|done]. intros [= <-].
    apply prefix_app in E as [r Hr]. destruct pat; [split; [done|simpl; lia]|done].
  - destruct (String.prefix pat (String c s)) eqn:E.
    + intros [= <-]. apply prefix_app in E as [r Hr]. simpl stake. simpl plus. split; [|simpl; lia].
      rewrite Hr at 2. rewrite sdrop_app. done.
    + destruct (find pat s) as [m|] eqn:Em; [|done]. intros [= <-].
      destruct (IH m eq_refl) as [Hs Hm]. simpl. split; [|lia]. f_equal. exact Hs.
Qed.

Lemma find_before pat s n :
  pat ≠ "" → find pat s = Some n → find pat (stake n s) = None.
Proof.
  intros Hp. revert n; induction s as [|c s IH]; intros n; cbn [find].
  - destruct (String.prefix pat "") eqn:E; [|done]. intros [= <-]. simpl. by destruct pat.
  - destruct (String.prefix pat (String c s)) eqn:E; [intros [= <-]; simpl; by destruct pat|].
    destruct (find pat s) as [m|] eqn:Em; [|done]. intros [= <-]. simpl stake. cbn [find].
    rewrite IH by done. destruct (String.prefix pat (String c (stake m s))) eqn:E2; [|done].
    apply prefix_app in E2 as [r Hr]. assert (String.prefix pat (String c s) = true); [|congruence].
    apply prefix_app. exists (r +:+ sdrop m s).
    rewrite <-append_assoc, <-Hr. simpl. by rewrite stake_sdrop.
Qed.

Lemma drop_empty_app l1 l2 : drop_empty l1 = [] → drop_empty (l1 ++ l2) = drop_empty l2.
Proof. induction l1 as [|[|] l1 IH]; simpl; auto; done. Qed.

Lemma drop_empty_app_ne l1 l2 : drop_empty l1 ≠ [] → drop_empty (l1 ++ l2) = drop_empty l1 ++ l2.
Proof. induction l1 as [|[|] l1 IH]; simpl; auto; done. Qed.

Lemma split_loop_spec fuel str delim results :
  delim ≠ "" → (String.length str < fuel)%nat →
  ∃ l last, split_loop fuel str delim false results = Ok (results ++ l, last) ∧
    split_loop fuel str delim true (drop_empty results) = Ok (drop_empty (results ++ l), last) ∧
    join delim (l ++ [last]) = str ∧ Forall (λ p, find delim p = None) (l ++ [last]).
Proof.
  intros Hd. revert str results; induction fuel as [|fuel IH]; intros str results Hf; [lia|]. cbn [split_loop].
  destruct (find delim str) as [pos|] eqn:E.
  - destruct (find_Some _ _ _ E) as [Hs Hp]. cbn [negb orb].
    assert ((0 < String.length delim)%nat) as Hl by (destruct delim; simpl; [done|lia]).
    destruct (IH (sdrop (pos + String.length delim) str) (results ++ [stake pos str]))
      as (l & last & E1 & E2 & Hj & Hfa).
    { rewrite length_sdrop. apply (f_equal String.length) in Hs. rewrite !length_sapp in Hs. lia. }
    exists (stake pos str :: l), last. rewrite <-(assoc_L app) in E1, E2. split_and!; [exact E1| | |].
    + simpl in E2. rewrite <-E2. f_equal.
      destruct (decide (drop_empty results = [])) as [Hn|Hn].
      * rewrite drop_empty_app, Hn by done. simpl.
        destruct (0 <? pos)%nat eqn:E0.
        -- apply Nat.ltb_lt in E0. destruct (stake pos str) eqn:Est; [|done].
           apply (f_equal String.length) in Est. rewrite length_stake in Est. simpl in Est. lia.
        -- apply Nat.ltb_ge in E0. assert (pos = 0%nat) as -> by lia. done.
      * rewrite drop_empty_app_ne by done. destruct (drop_empty results); done.
    + simpl. destruct (l ++ [last]) as [|x r] eqn:El; [by destruct l|].
      change (stake pos str +:+ delim +:+ join delim (x :: r) = str).
      by rewrite Hj, <-Hs.
    + simpl. constructor; [by apply find_before|done].
  - exists [], str. rewrite !app_nil_r. split_and!; [done..|]. by constructor.
Qed.

Lemma size_0 s : size s = 0 ↔ s = "".
Proof. unfold size. destruct s; simpl; split; (done || lia). Qed.

(** (splitting).  Splitting on a non-empty delimiter always finishes; the
    pieces joined by the delimiter give the string back, no piece contains
    the delimiter, and with [trim] the result is the same list without its
    leading and trailing empty pieces. *)
Theorem split_correct (str delim : bytes) :
  delim ≠ "" →
  ∃ l, split str delim false = Ok l ∧ join delim l = str ∧ Forall (λ p, find delim p = None) l ∧
    split str delim true = Ok (pop_empty (drop_empty l)).
Proof.
  intros Hd. unfold split. destruct (Z.eqb_spec (size delim) 0) as [E|_]; [by apply size_0 in E|].
  destruct (split_loop_spec (S (String.length str)) str delim [] Hd) as (l & last & E1 & E2 & Hj & Hf); [lia|].
  exists (l ++ [last]). change (drop_empty []) with (@nil bytes) in E2. rewrite E1, E2, !bind_ret. split_and!; [done..|].
  simpl. destruct (Z.ltb_spec 0 (size last)) as [Hl|Hl].
  - f_equal. destruct (decide (drop_empty l = [])) as [Hn|Hn].
    + rewrite drop_empty_app, Hn by done. by destruct last.
    + rewrite drop_empty_app_ne by done. unfold pop_empty. rewrite rev_app_distr.
      destruct last; [unfold size in Hl; simpl in Hl; lia|]. simpl. by rewrite rev_involutive.
  - f_equal. assert (last = "") as ->.
    { apply size_0. unfold size in *. lia. }
    destruct (decide (drop_empty l = [])) as [Hn|Hn].
    + by rewrite drop_empty_app, Hn.
    + rewrite drop_empty_app_ne by done. unfold pop_empty. by rewrite rev_app_distr.
Qed.

Lemma split_correct_witness :
  split "-a--b--" "-" false = Ok [""; "a"; ""; "b"; ""; ""] ∧
  split "-a--b--" "-" true = Ok ["a"; ""; "b"].
Proof.
  destruct (split_correct "-a--b--" "-") as (l & E & _ & _ & Et); [done|].
  vm_compute in E. injection E as <-. by vm_compute in Et.
Defined.

(** ** Truncation keeps whole code points *)

(** A code point in UTF-8: a leading byte and its continuation bytes *)
Definition codepoint (c : bytes) : bool :=
  match c with
  | String lead conts => negb (is_continuation lead) && all_chars is_continuation conts
  | "" => false
  end.

(** The longest run of whole code points within [n] bytes *)
Fixpoint take_fit (n : nat) (cs : list bytes) : list bytes :=
  match cs with
  | [] => []
  | c :: cs => if (String.length c <=? n)%nat then c :: take_fit (n - String.length c) cs else []
  end.

Definition sconcat (cs : list bytes) : bytes := foldr String.append "" cs.

Lemma sconcat_cons c cs : sconcat (c :: cs) = c +:+ sconcat cs.
Proof. done. Qed.

Lemma get_app a b i :
  String.get i (a +:+ b) =
    if (i <? String.length a)%nat then String.get i a else String.get (i - String.length a) b.
Proof.
  revert i; induction a as [|c a IH]; intros i; simpl; [by rewrite Nat.sub_0_r|].
  destruct i as [|i]; [done|]. rewrite IH. done.
Qed.

Lemma all_chars_get f s i c : all_chars f s = true → String.get i s = Some c → f c = true.
Proof.
  revert i; induction s as [|c' s IH]; intros i; simpl; [by destruct i|].
  rewrite andb_true_iff. intros [Hc Hs]. destruct i as [|i]; [by intros [= <-]|eauto].
Qed.

Lemma get_Some s i : (i < String.length s)%nat → ∃ c, String.get i s = Some c.
Proof.
  revert i; induction s as [|c s IH]; intros i Hi; simpl in *; [lia|].
  destruct i as [|i]; [eauto|]. apply IH. lia.
Qed.

Lemma back_up_inside c rest n : codepoint c = true → (n < String.length c)%nat → back_up (c +:+ rest) n = O.
Proof.
  destruct c as [|lead conts]; [done|]. simpl. intros [_ Hc]%andb_true_iff Hn.
  induction n as [|n IH]; [done|]. cbn [back_up String.get]. rewrite get_app.
  assert ((n <? String.length conts)%nat = true) as -> by (apply Nat.ltb_lt; lia).
  destruct (get_Some conts n) as [x Hx]; [lia|]. rewrite Hx, (all_chars_get _ _ _ _ Hc Hx).
  apply IH. lia.
Qed.

Lemma back_up_after c rest m :
  codepoint c = true → (∃ lead r, rest = String lead r ∧ is_continuation lead = false) →
  back_up (c +:+ rest) (String.length c + m) = (String.length c + back_up rest m)%nat.
Proof.
  intros Hc (lead & r & -> & Hl). destruct c as [|c0 cs]; [done|]. clear Hc.
  induction m as [|m IH].
  - rewrite Nat.add_0_r. cbn [back_up String.length]. rewrite get_app. simpl String.length.
    rewrite Nat.ltb_irrefl, Nat.sub_diag. simpl. rewrite Hl. lia.
  - rewrite Nat.add_succ_r. cbn [back_up]. rewrite get_app.
    assert ((S (String.length (String c0 cs) + m) <? String.length (String c0 cs))%nat = false) as ->
      by (apply Nat.ltb_ge; lia).
    replace (S (String.length (String c0 cs) + m) - String.length (String c0 cs))%nat with (S m) by lia.
    destruct (String.get (S m) (String lead r)) as [x|]; [|lia].
    destruct (is_continuation x); [apply IH|lia].
Qed.

Lemma stake_app_plus a b n : stake (String.length a + n) (a +:+ b) = a +:+ stake n b.
Proof. induction a as [|c a IH]; simpl; [done|by rewrite IH]. Qed.

(** (UTF-8 truncation).  Truncating a sequence of code points to [n] bytes
    gives exactly the longest run of whole code points that fits in [n]
    bytes: no code point is cut and none that fits is lost. *)
Theorem utf8_truncate_whole (cs : list bytes) (n : nat) :
  Forall (λ c, codepoint c = true) cs →
  utf8_truncate (sconcat cs) n = sconcat (take_fit n cs) ∧
  (String.length (utf8_truncate (sconcat cs) n) ≤ n)%nat.
Proof.
  intros Hcs. assert (utf8_truncate (sconcat cs) n = sconcat (take_fit n cs)) as Heq.
  - revert n; induction Hcs as [|c cs Hc Hcs IH]; intros n; [done|].
    specialize (IH (n - String.length c)%nat). unfold utf8_truncate in *.
    cbn [take_fit]. rewrite sconcat_cons, length_sapp. destruct (Nat.leb_spec (String.length c) n) as [Hn|Hn].
    + rewrite sconcat_cons, <-IH.
      destruct (Nat.leb_spec (String.length (sconcat cs)) (n - String.length c)) as [Hr|Hr].
      * by rewrite (proj2 (Nat.leb_le _ _)) by lia.
      * rewrite (proj2 (Nat.leb_gt _ _)) by lia.
        rewrite <-stake_app_plus, <-back_up_after; [do 2 f_equal; lia|done|].
        destruct Hcs as [|c2 cs2 Hc2 _]; [simpl in Hr; lia|]. destruct c2 as [|l r]; [done|].
        simpl in Hc2. apply andb_true_iff in Hc2 as [Hl%negb_true_iff _].
        exists l, (r +:+ sconcat cs2). done.
    + rewrite (proj2 (Nat.leb_gt _ _)) by lia. by rewrite back_up_inside.
  - split; [done|]. rewrite Heq. clear Heq. revert n; induction cs as [|c cs IH]; intros n; cbn [take_fit]; [simpl; lia|].
    destruct (Nat.leb_spec (String.length c) n) as [Hn|Hn]; [|simpl; lia].
    apply Forall_cons_1 in Hcs as [_ Hcs]. rewrite sconcat_cons, length_sapp.
    specialize (IH Hcs (n - String.length c)%nat). lia.
Qed.

(** A birthday cake and two letters *)
Definition cake : bytes :=
  String (ascii_of_N 240) (String (ascii_of_N 159) (String (ascii_of_N 142) (String (ascii_of_N 130) ""))).

Lemma utf8_truncate_whole_witness :
  utf8_truncate (sconcat ["h"; cake; "!"]) 4 = "h" ∧ utf8_truncate (sconcat ["h"; cake; "!"]) 5 = "h" +:+ cake.
Proof.
  split; [rewrite (proj1 (utf8_truncate_whole ["h"; cake; "!"] 4 ltac:(by repeat constructor)))
         |rewrite (proj1 (utf8_truncate_whole ["h"; cake; "!"] 5 ltac:(by repeat constructor)))];
    vm_compute; reflexivity.
Defined.

(** A code point in UTF-16: one unit, or a surrogate pair *)
Definition codepoint16 (c : list Z) : bool :=
  match c with
  | [u] => negb (is_utf16_high_surrogate u) && negb (is_utf16_low_surrogate u)
  | [h; l] => is_utf16_high_surrogate h && is_utf16_low_surrogate l
  | _ => false
  end.

(** The documented behaviour of [simdutf::count_utf16]: the number of code
    points of a valid string *)
Class SimdutfLaws `{Simdutf} := count_utf16_valid :
  ∀ cs, Forall (λ c, codepoint16 c = true) cs → count_utf16 (concat cs) = length cs.

Lemma utf16_loop_take cs i k n :
  Forall (λ c, codepoint16 c = true) cs → (k < n)%nat → (n - k ≤ length cs)%nat →
  utf16_loop i k n (concat cs) = Some (i + length (concat (take (n - k) cs)))%nat.
Proof.
  intros Hcs. revert i k; induction Hcs as [|c cs Hc Hcs IH]; intros i k Hk Hn; simpl in Hn; [lia|].
  replace (n - k)%nat with (S (n - S k)) by lia. cbn [take concat]. rewrite length_app.
  assert (∀ u, is_utf16_low_surrogate u = true → is_utf16_high_surrogate u = false) as Hlow.
  { intros u. unfold is_utf16_low_surrogate, is_utf16_high_surrogate. lia. }
  assert (∀ j, (if (S k =? n)%nat then Some (S j) else utf16_loop (S j) (S k) n (concat cs))
    = Some (S j + length (concat (take (n - S k) cs)))%nat) as Hnext.
  { intros j. destruct (Nat.eqb_spec (S k) n) as [<-|Hne]; [rewrite Nat.sub_diag; simpl; f_equal; lia|].
    apply IH; lia. }
  destruct c as [|u [|v [|]]]; simpl in Hc; try done; apply andb_true_iff in Hc as [H1 H2]; cbn [app utf16_loop].
  - apply negb_true_iff in H1. rewrite H1, Hnext. simpl. f_equal. lia.
  - rewrite H1, (Hlow v H2). rewrite (proj2 (Nat.eqb_neq k n)) by lia.
    rewrite Hnext. simpl. f_equal. lia.
Qed.

Lemma length_codepoints cs : Forall (λ c, codepoint16 c = true) cs → (length cs ≤ length (concat cs))%nat.
Proof.
  induction 1 as [|c cs Hc _ IH]; [done|]. simpl. rewrite length_app. destruct c; [done|]. simpl. lia.
Qed.

(** (UTF-16 truncation).  On valid UTF-16 the number of units returned is
    the length of the first [n] code points (of all of them when there are
    fewer): the fast paths and the fallback loop agree with that reference. *)
Theorem utf16_truncate_reference `{Simdutf, !SimdutfLaws} (cs : list (list Z)) (n : nat) :
  Forall (λ c, codepoint16 c = true) cs →
  utf16_count_truncated_to_codepoints (concat cs) n = length (concat (take n cs)).
Proof.
  intros Hcs. unfold utf16_count_truncated_to_codepoints. pose proof (length_codepoints cs Hcs) as Hl.
  destruct (Nat.leb_spec (length (concat cs)) n) as [H1|H1]; [by rewrite take_ge by lia|].
  destruct (Nat.eqb_spec n 0) as [->|H2]; [done|]. rewrite count_utf16_valid by done.
  destruct (Nat.leb_spec (length cs) n) as [H3|H3]; [by rewrite take_ge by lia|].
  rewrite utf16_loop_take by (done || lia). by rewrite Nat.sub_0_r.
Qed.

(** Counting the units that do not start a pair *)
#[global] Instance unit_count : Simdutf := λ s, length (filter (λ u, is_utf16_high_surrogate u = false) s).

#[global] Instance unit_count_laws : SimdutfLaws.
Proof.
  intros cs Hcs. unfold count_utf16, unit_count. induction Hcs as [|c cs Hc _ IH]; [done|].
  simpl concat. rewrite list.filter_app, length_app, IH. change (length (c :: cs)) with (1 + length cs)%nat. f_equal.
  destruct c as [|u [|v [|]]]; simpl in Hc; try done; apply andb_true_iff in Hc as [H1 H2].
  - apply negb_true_iff in H1. by rewrite filter_cons_True.
  - rewrite filter_cons_False by (rewrite H1; done). rewrite filter_cons_True; [done|].
    unfold is_utf16_low_surrogate, is_utf16_high_surrogate in *. lia.
Qed.

Lemma utf16_truncate_reference_witness :
  utf16_count_truncated_to_codepoints (concat [[0x68]; [0xD83C; 0xDF82]; [0x21]]) 2 = 3%nat.
Proof.
  rewrite (utf16_truncate_reference [[0x68]; [0xD83C; 0xDF82]; [0x21]] 2); [vm_compute; reflexivity|].
  by repeat constructor.
Defined.

(** ** Timestamps *)
Lemma to_epoch_seconds_bound t : t ≤ 9000000000000000 → to_epoch_seconds t ≤ 9000000000.
Proof.
  intros Ht. unfold to_epoch_seconds.
  destruct (Z.ltb_spec 9000000000000 t); [apply Z.div_le_upper_bound; lia|].
  destruct (Z.ltb_spec 9000000000 t); [apply Z.div_le_upper_bound; lia|lia].
Qed.

Lemma to_epoch_seconds_small t : t ≤ 9000000000 → to_epoch_seconds t = t.
Proof.
  intros Ht. unfold to_epoch_seconds.
  destruct (Z.ltb_spec 9000000000000 t); [lia|]. by destruct (Z.ltb_spec 9000000000 t); [lia|].
Qed.
