(* ===== verification/Ids.v ===== *)
(** * BChat ids and encoded public keys

    [src/config/internal.cpp] and [internal.hpp]: the prefixes of ids, their
    validation and decoding, and the encodings of a community's public key. *)

From Stdlib Require Import ZArith String Ascii Lia.
From stdpp Require Import base option list strings numbers.
From S2P Require Import Prelude OrderedMap Bt Bencode Crypto Text.

(** ** The text encodings of the oxenc library *)
Class Oxenc := {
  is_hex : bytes → bool;
  to_hex : bytes → bytes;
  from_hex : bytes → bytes;
  is_base64 : bytes → bool;
  to_base64 : bytes → bytes;
  from_base64 : bytes → bytes;
  is_base32z : bytes → bool;
  to_base32z : bytes → bytes;
  from_base32z : bytes → bytes;
}.

(** Two lower-case digits per byte *)
Definition hex_digit (n : Z) : ascii :=
  ascii_of_N (Z.to_N (if n <? 10 then 48 + n else 87 + n)).
Fixpoint hex_digits (s : bytes) : bytes :=
  match s with
  | "" => ""
  | String c s => String (hex_digit (code c / 16)) (String (hex_digit (code c mod 16)) (hex_digits s))
  end.

(** The documented behaviour of the hex functions: [to_hex] prints two
    lower-case digits per byte, [from_hex] reads digits of either case *)
Class OxencLaws `{Oxenc} := {
  to_hex_digits : ∀ s, to_hex s = hex_digits s;
  is_hex_digits : ∀ s, is_hex (hex_digits s) = true;
  from_hex_digits : ∀ s, from_hex (hex_digits s) = s;
  hex_canonical : ∀ s, is_hex s = true → size s mod 2 = 0 → hex_digits (from_hex s) = make_lc s;
}.

(** ** Prefixes *)
Inductive BChatIDPrefix :=
  | standard | group | community_blinded_legacy | community_blinded | version_blinded | unblinded.

#[global] Instance BChatIDPrefix_eq_dec : EqDecision BChatIDPrefix.
Proof. solve_decision. Defined.

Definition prefix_string (p : BChatIDPrefix) : bytes :=
  match p with
  | unblinded => "00"
  | group => "03"
  | standard => "05"
  | community_blinded_legacy => "15"
  | community_blinded => "25"
  | version_blinded => "07"
  end.

Definition all_bchat_id_prefixes : list BChatIDPrefix :=
  [standard; group; community_blinded_legacy; community_blinded; version_blinded; unblinded].

Section ids.
Context `{Oxenc}.

Definition valid_id (bchat_id prefix : bytes) : bool :=
  (size bchat_id =? 64 + size prefix) && is_hex bchat_id &&
  keqb (stake (String.length prefix) bchat_id) prefix.

Definition check_bchat_id (bchat_id prefix : bytes) : result () :=
  require (valid_id bchat_id prefix) invalid_argument.

Definition get_bchat_id_prefix (id : bytes) : result BChatIDPrefix :=
  if is_hex id && (size id =? 66) then
    match List.find (λ p, (size id =? 64 + size (prefix_string p)) &&
                     keqb (stake (String.length (prefix_string p)) id) (prefix_string p))
            all_bchat_id_prefixes with
    | Some p => Ok p
    | None => Throw invalid_argument
    end
  else Throw invalid_argument.

Definition bchat_id_to_bytes (bchat_id prefix : bytes) : result bytes :=
  _ ← check_bchat_id bchat_id prefix; Ok (from_hex bchat_id).

Definition bchat_id_pk (bchat_id prefix : bytes) : result bytes :=
  _ ← check_bchat_id bchat_id prefix; Ok (from_hex (sdrop 2 bchat_id)).

(** ** Encoded public keys *)
Definition hex_key (pk : bytes) : bool := (size pk =? 64) && is_hex pk.
Definition base64_key (pk : bytes) : bool :=
  ((size pk =? 43) || ((size pk =? 44) && bool_decide (back pk = Some "="%char))) && is_base64 pk.
Definition base32z_key (pk : bytes) : bool := (size pk =? 52) && is_base32z pk.

Definition check_encoded_pubkey (pk : bytes) : result () :=
  require (hex_key pk || base64_key pk || base32z_key pk) invalid_argument.

Definition decode_pubkey (pk : bytes) : result bytes :=
  if hex_key pk then Ok (from_hex pk)
  else if base64_key pk then Ok (from_base64 pk)
  else if base32z_key pk then Ok (from_base32z pk)
  else Throw invalid_argument.

(** ** Properties *)
Context `{!OxencLaws}.

Lemma hex_digits_length s : String.length (hex_digits s) = (2 * String.length s)%nat.
Proof. induction s as [|c s IH]; [done|]. cbn [hex_digits String.length]. rewrite IH. lia. Qed.

Lemma hex_digits_size s : size (hex_digits s) = 2 * size s.
Proof. unfold size. rewrite hex_digits_length. lia. Qed.

Lemma make_lc_length s : String.length (make_lc s) = String.length s.
Proof. induction s as [|c s IH]; [done|]. simpl. by rewrite IH. Qed.

Lemma from_hex_size s : is_hex s = true → size s mod 2 = 0 → 2 * size (from_hex s) = size s.
Proof.
  intros Hs He. rewrite <-hex_digits_size, hex_canonical by done. unfold size. by rewrite make_lc_length.
Qed.

Lemma valid_id_spec id pre :
  valid_id id pre = true ↔
    size id = 64 + size pre ∧ is_hex id = true ∧ ∃ r, id = pre +:+ r.
Proof.
  unfold valid_id. rewrite !andb_true_iff, Z.eqb_eq, keqb_spec. split.
  - intros [[? ?] Hp]. split_and!; [done..|]. exists (sdrop (String.length pre) id).
    rewrite <-(stake_sdrop (String.length pre) id) at 1. by rewrite Hp.
  - intros (Hs & ? & r & ->). split_and!; [done..|]. by rewrite stake_app.
Qed.

Lemma bchat_id_to_bytes_Ok id pre k :
  bchat_id_to_bytes id pre = Ok k ↔ valid_id id pre = true ∧ k = from_hex id.
Proof.
  unfold bchat_id_to_bytes, check_bchat_id, require. destruct (valid_id id pre); simpl; naive_solver.
Qed.

(** A valid id is 33 bytes that print as the id in lower case. *)
Lemma bchat_id_bytes id pre k :
  size pre = 2 → bchat_id_to_bytes id pre = Ok k → size k = 33 ∧ hex_digits k = make_lc id.
Proof.
  intros Hp [Hv ->]%bchat_id_to_bytes_Ok. apply valid_id_spec in Hv as (Hs & Hh & _).
  assert (size id mod 2 = 0) as He by (by rewrite Hs, Hp).
  split; [pose proof (from_hex_size id Hh He); lia|by apply hex_canonical].
Qed.

Lemma hex_digit_lower n : 0 ≤ n < 16 → lower (hex_digit n) = hex_digit n.
Proof.
  intros Hn. assert (n ∈ [0;1;2;3;4;5;6;7;8;9;10;11;12;13;14;15]) as Hin.
  { rewrite !elem_of_cons. lia. }
  revert Hin. clear Hn. rewrite !elem_of_cons, elem_of_nil. intuition subst; vm_compute; done.
Qed.

Lemma code_range c : 0 ≤ code c < 256.
Proof. unfold code. pose proof (N_ascii_bounded c). lia. Qed.

Lemma make_lc_hex s : make_lc (hex_digits s) = hex_digits s.
Proof.
  induction s as [|c s IH]; [done|]. cbn [hex_digits make_lc]. pose proof (code_range c).
  rewrite !hex_digit_lower, IH; [done| |]; [apply Z.mod_pos_bound; lia|].
  split; [apply Z.div_pos; lia|apply Z.div_lt_upper_bound; lia].
Qed.

(** The first byte of a decoded id is the byte its prefix prints. *)
Lemma id_first_byte id c k :
  bchat_id_to_bytes id (hex_digits (String c "")) = Ok k → ∃ r, k = String c r ∧ size r = 32.
Proof.
  intros Hk. destruct (bchat_id_bytes _ (hex_digits (String c "")) _ eq_refl Hk) as [Hs Hh].
  apply bchat_id_to_bytes_Ok in Hk as [(_ & _ & r & ->)%valid_id_spec _].
  destruct k as [|a k]; [done|]. exists k.
  assert (hex_digits (String a "") = hex_digits (String c "")) as Hac.
  { rewrite <-(make_lc_hex (String c "")). cbn [hex_digits make_lc String.append] in *. congruence. }
  apply (f_equal from_hex) in Hac. rewrite !from_hex_digits in Hac. injection Hac as ->. split; [done|].
  unfold size in *. simpl in Hs. lia.
Qed.

Lemma find_prefix_spec id p :
  List.find (λ p, (size id =? 64 + size (prefix_string p)) &&
                  keqb (stake (String.length (prefix_string p)) id) (prefix_string p))
    all_bchat_id_prefixes = Some p ↔
  size id = 66 ∧ stake 2 id = prefix_string p.
Proof.
  assert (∀ q, size (prefix_string q) = 2 ∧ String.length (prefix_string q) = 2%nat) as Hq by by destruct q.
  split.
  - intros [Hin Hp]%List.find_some. cbv beta in Hp. destruct (Hq p) as [E1 E2]. rewrite E1, E2 in Hp.
    apply andb_true_iff in Hp as [Hs Hp]. apply Z.eqb_eq in Hs. apply keqb_spec in Hp. done.
  - intros [Hs Hp]. assert (size id =? 66 = true) as Hs' by by apply Z.eqb_eq.
    unfold all_bchat_id_prefixes. cbn [List.find]. 
    assert (∀ q, (size id =? 64 + size (prefix_string q)) &&
                 keqb (stake (String.length (prefix_string q)) id) (prefix_string q)
               = keqb (prefix_string p) (prefix_string q)) as Heq.
    { intros q. destruct (Hq q) as [-> ->]. change (64 + 2) with 66. by rewrite Hs', Hp. }
    rewrite !Heq. by destruct p.
Qed.

Lemma prefix_size q : size (prefix_string q) = 2.
Proof. by destruct q. Qed.

Lemma prefix_of_id id p : get_bchat_id_prefix id = Ok p ↔ valid_id id (prefix_string p) = true.
Proof.
  unfold get_bchat_id_prefix, valid_id. rewrite prefix_size.
  assert (String.length (prefix_string p) = 2%nat) as -> by by destruct p.
  change (64 + 2) with 66.
  destruct (is_hex id); cbn [andb]; [|split; [done|by rewrite andb_false_r]].
  rewrite andb_true_r. destruct (Z.eqb_spec (size id) 66) as [Hs|Hs]; [|done]. cbn [andb].
  match goal with |- context [List.find ?f ?l] => destruct (List.find f l) as [p'|] eqn:E end.
  - apply find_prefix_spec in E as [_ E]. rewrite keqb_spec, E. split; [by intros [= ->]|].
    by destruct p, p'.
  - split; [done|]. intros Hk%keqb_spec. assert (Some p = None) as [=]. rewrite <-E. symmetry.
    by apply find_prefix_spec.
Qed.

(** (ids).  [get_bchat_id_prefix] returns a prefix exactly for the 66-digit
    hex strings that start with it, which are the ids that decode under that
    prefix; decoding gives 33 bytes whose hex form is the id in lower case, so
    two ids decode alike if and only if they differ in case only; and every
    other string is rejected with [invalid_argument]. *)
Theorem ids_correct (id : bytes) :
  (∀ p, get_bchat_id_prefix id = Ok p ↔ bchat_id_to_bytes id (prefix_string p) = Ok (from_hex id)) ∧
  (∀ p id' k k', bchat_id_to_bytes id (prefix_string p) = Ok k →
     bchat_id_to_bytes id' (prefix_string p) = Ok k' →
     size k = 33 ∧ to_hex k = make_lc id ∧ (k = k' ↔ make_lc id = make_lc id')) ∧
  (∀ e, get_bchat_id_prefix id = Throw e → e = invalid_argument ∧
     ∀ p, bchat_id_to_bytes id (prefix_string p) = Throw invalid_argument).
Proof.
  split_and!.
  - intros p. rewrite prefix_of_id, bchat_id_to_bytes_Ok. naive_solver.
  - intros p id' k k' Hk Hk'. destruct (bchat_id_bytes _ _ _ (prefix_size p) Hk) as [Hs Hh].
    destruct (bchat_id_bytes _ _ _ (prefix_size p) Hk') as [_ Hh']. split_and!; [done|by rewrite to_hex_digits|].
    split; [intros ->; congruence|]. intros Heq. rewrite <-(from_hex_digits k), <-(from_hex_digits k').
    congruence.
  - intros e He. split.
    + unfold get_bchat_id_prefix in He. destruct (_ && _); [|by injection He].
      match type of He with context [List.find ?f ?l] => by destruct (List.find f l); [|injection He] end.
    + intros p. unfold bchat_id_to_bytes, check_bchat_id, require.
      destruct (valid_id id (prefix_string p)) eqn:E; [|done]. apply prefix_of_id in E. congruence.
Qed.
End ids.

(** ** A concrete instance: hex only *)
Definition hex_val (c : ascii) : option Z :=
  if is_digit c then Some (code c - 48)
  else if between "a" c "f" then Some (code c - 87)
  else if between "A" c "F" then Some (code c - 55) else None.

Definition is_hex_char (c : ascii) : bool := match hex_val c with Some _ => true | None => false end.

Fixpoint unhex (s : bytes) : bytes :=
  match s with
  | String a (String b s) =>
      String (ascii_of_N (Z.to_N (default 0 (hex_val a) * 16 + default 0 (hex_val b)))) (unhex s)
  | _ => ""
  end.

#[global] Instance plain_oxenc : Oxenc := {|
  is_hex := all_chars is_hex_char;
  to_hex := hex_digits;
  from_hex := unhex;
  is_base64 _ := false;
  to_base64 s := s;
  from_base64 s := s;
  is_base32z _ := false;
  to_base32z s := s;
  from_base32z s := s;
|}.

Fixpoint all_bytes (n : nat) (f : ascii → bool) : bool :=
  match n with O => true | S n => f (ascii_of_nat n) && all_bytes n f end.

Lemma all_bytes_spec f c : all_bytes 256 f = true → f c = true.
Proof.
  intros Hf. assert (∀ n, all_bytes n f = true → ∀ k, (k < n)%nat → f (ascii_of_nat k) = true) as Hall.
  { induction n as [|n IH]; intros Hn k Hk; [lia|]. simpl in Hn. apply andb_true_iff in Hn as [Hn1 Hn].
    destruct (decide (k = n)) as [->|]; [done|]. apply IH; [done|lia]. }
  rewrite <-(ascii_nat_embedding c). apply (Hall 256%nat Hf), nat_ascii_bounded.
Qed.

Lemma hex_val_digits c :
  is_hex_char (hex_digit (code c / 16)) && is_hex_char (hex_digit (code c mod 16)) &&
  Ascii.eqb (ascii_of_N (Z.to_N (default 0 (hex_val (hex_digit (code c / 16))) * 16 +
                                 default 0 (hex_val (hex_digit (code c mod 16)))))) c = true.
Proof.
  match goal with |- ?t = true => let f := eval pattern c in t in
    lazymatch f with ?g _ => apply (all_bytes_spec g) end end. vm_compute. reflexivity.
Qed.

Lemma hex_val_lower c :
  match hex_val c with Some v => (0 <=? v) && (v <? 16) && Ascii.eqb (hex_digit v) (lower c) | None => true end = true.
Proof.
  match goal with |- ?t = true => let f := eval pattern c in t in
    lazymatch f with ?g _ => apply (all_bytes_spec g) end end. vm_compute. reflexivity.
Qed.

#[global] Instance plain_oxenc_laws : OxencLaws.
Proof.
  split.
  - done.
  - intros s. simpl. induction s as [|c s IH]; [done|]. cbn [hex_digits all_chars].
    pose proof (hex_val_digits c) as Hc. rewrite !andb_true_iff in Hc. destruct Hc as [[-> ->] _]. done.
  - intros s. simpl. induction s as [|c s IH]; [done|]. cbn [hex_digits unhex].
    pose proof (hex_val_digits c) as Hc. rewrite !andb_true_iff in Hc. destruct Hc as [_ Hc].
    apply Ascii.eqb_eq in Hc. by rewrite Hc, IH.
  - intros s. simpl. assert (∀ n s, (String.length s ≤ n)%nat →
      all_chars is_hex_char s = true → size s mod 2 = 0 → hex_digits (unhex s) = make_lc s) as Hall.
    { clear s. induction n as [|n IH]; intros s Hn Hs He; [destruct s; [done|simpl in Hn; lia]|].
      destruct s as [|a [|b s]]; [done|done|]. cbn [all_chars unhex hex_digits make_lc String.length] in *.
      rewrite !andb_true_iff in Hs. destruct Hs as (Ha & Hb & Hs).
      pose proof (hex_val_lower a) as La. pose proof (hex_val_lower b) as Lb.
      unfold is_hex_char in Ha, Hb. destruct (hex_val a) as [x|]; [|done]. destruct (hex_val b) as [y|]; [|done]. simpl default.
      rewrite !andb_true_iff, Z.leb_le, Z.ltb_lt in La, Lb. destruct La as [Hx La], Lb as [Hy Lb].
      apply Ascii.eqb_eq in La, Lb. unfold code. rewrite N_ascii_embedding by lia.
      rewrite Z2N.id by lia. rewrite Z.add_comm, Z.div_add, Z.mod_add by lia.
      rewrite Z.div_small, Z.mod_small by lia. rewrite Z.add_0_l. rewrite La, Lb, IH; [done|lia|done|].
      unfold size in *. cbn [String.length] in He. rewrite !Nat2Z.inj_succ in He.
      replace (Z.succ (Z.succ (Z.of_nat (String.length s)))) with (Z.of_nat (String.length s) + 1 * 2) in He by lia.
      by rewrite Z.mod_add in He. }
    by apply (Hall (String.length s)).
Qed.

Definition sample_id : bytes := "05" +:+ hex_digits (zeros 31) +:+ "aB".

Lemma ids_correct_witness : get_bchat_id_prefix sample_id = Ok standard ∧
  bchat_id_to_bytes sample_id "05" = Ok (from_hex sample_id).
Proof.
  destruct (ids_correct sample_id) as (Hg & _ & _). split; [vm_compute; reflexivity|].
  apply (Hg standard). vm_compute. reflexivity.
Defined.
