(* ===== verification/Community.v ===== *)
(** * Communities

    [src/config/community.cpp] and [include/bchat/config/community.hpp]: the
    normal form of a community's URL and room, its full URL and its parts, and
    the iteration over the servers and rooms stored in a config. *)

From Stdlib Require Import ZArith String Ascii Lia.
From stdpp Require Import base option list strings numbers.
From S2P Require Import Prelude OrderedMap Bt Bencode Crypto ConfigData Text Ids ConfigMessage State.

Definition BASE_URL_MAX_LENGTH : Z := 267.
Definition ROOM_MAX_LENGTH : Z := 64.
Definition qs_pubkey : bytes := "?public_key=".
Definition FULL_URL_MAX_LENGTH : Z := BASE_URL_MAX_LENGTH + 3 + ROOM_MAX_LENGTH + size qs_pubkey + 64 + 1.

(** ** Normal forms *)

(** [std::to_string] of a port *)
Definition print_port (p : Z) : bytes := print_N (Z.to_N p).

Definition canonical_url (url : bytes) : result bytes :=
  u ← parse_url url;
  let r := url_proto u +:+ url_host u +:+
           match url_port u with Some p => String ":" (print_port p) | None => "" end in
  _ ← require (negb (is_some (url_path u))) invalid_argument;
  _ ← require (negb (BASE_URL_MAX_LENGTH <? size r)) invalid_argument;
  Ok r.

Definition room_char (c : ascii) : bool :=
  Ascii.eqb c "-" || is_digit c || Ascii.eqb c "_" || is_lower c.

(** [canonicalize_room]: the new contents of the string *)
Definition canonical_room (room : bytes) : result bytes :=
  let r := make_lc room in
  _ ← require (negb (ROOM_MAX_LENGTH <? size r)) invalid_argument;
  _ ← require (negb (size r =? 0)) invalid_argument;
  _ ← require (all_chars room_char r) invalid_argument;
  Ok r.

(** ** The community *)
Record community := mkCommunity {
  base_url_ : bytes;
  room_ : bytes;
  localized_room_ : option bytes;
  pubkey_ : bytes;
}.

Definition empty_community : community := mkCommunity "" "" None "".
Definition base_url (c : community) : bytes := base_url_ c.
Definition room (c : community) : bytes := default (room_ c) (localized_room_ c).
Definition room_norm (c : community) : bytes := room_ c.
Definition pubkey (c : community) : bytes := pubkey_ c.

Definition set_base_url (url : bytes) (c : community) : result community :=
  u ← canonical_url url; Ok (mkCommunity u (room_ c) (localized_room_ c) (pubkey_ c)).
Definition set_room (r : bytes) (c : community) : result community :=
  r' ← canonical_room r; Ok (mkCommunity (base_url_ c) r' (Some r) (pubkey_ c)).
Definition set_pubkey (pk : bytes) (c : community) : result community :=
  _ ← require (size pk =? 32) invalid_argument;
  Ok (mkCommunity (base_url_ c) (room_ c) (localized_room_ c) pk).

Section community.
Context `{Oxenc}.

Definition set_pubkey_encoded (pk : bytes) (c : community) : result community :=
  k ← decode_pubkey pk; Ok (mkCommunity (base_url_ c) (room_ c) (localized_room_ c) k).

(** The constructors *)
Definition new_community (url r : bytes) : result community :=
  c ← set_base_url url empty_community; set_room r c.
Definition community_with_pubkey (url r pk : bytes) : result community :=
  c ← new_community url r; set_pubkey pk c.
Definition community_with_encoded (url r pk : bytes) : result community :=
  c ← new_community url r; set_pubkey_encoded pk c.

Definition pubkey_hex (c : community) : bytes := to_hex (pubkey c).
Definition pubkey_b32z (c : community) : bytes := to_base32z (pubkey c).
Definition pubkey_b64 (c : community) : bytes := to_base64 (pubkey c).

Definition full_url (base room pk : bytes) : bytes :=
  base +:+ String "/" (room +:+ qs_pubkey +:+ to_hex pk).

Definition parse_partial_url (url : bytes) : result (bytes * bytes * option bytes) :=
  '(url, maybe_pubkey) ←
    match rfind qs_pubkey url with
    | Some pos => pk ← decode_pubkey (sdrop (pos + String.length qs_pubkey) url);
                  Ok (stake pos url, Some pk)
    | None => Ok (url, None)
    end;
  let '(url, room_token) :=
    match rfind "/r/" url with
    | Some pos => (stake pos url, sdrop (pos + 3) url)
    | None => match rfind "/" url with
              | Some pos => (stake pos url, sdrop (pos + 1) url)
              | None => (url, "")
              end
    end in
  base_url ← canonical_url url;
  Ok (base_url, room_token, maybe_pubkey).

Definition parse_full_url (url : bytes) : result (bytes * bytes * bytes) :=
  '(base, rm, maybe_pk) ← parse_partial_url url;
  match maybe_pk with
  | Some pk => Ok (base, rm, pk)
  | None => Throw invalid_argument
  end.

(** [base_url_] is assigned before the room is validated; an exception leaves
    a half-changed object, which no caller keeps *)
Definition set_full_url (url : bytes) (c : community) : result community :=
  '(b, r, pk) ← parse_full_url url;
  c ← set_room r (mkCommunity b (room_ c) (localized_room_ c) (pubkey_ c));
  Ok (mkCommunity (base_url_ c) (room_ c) (localized_room_ c) pk).
End community.

(** ** Iterating over the stored communities *)

(** The positions of the iterator: what is left of the servers and of the
    rooms of the current one *)
Record comm_iterator_helper := mkCommIter {
  it_server : option dict;
  it_room : option dict;
}.

Definition comm_done (it : comm_iterator_helper) : bool :=
  match it_server it with None => true | Some l => is_nil l end.

Section iterator.
Context {Comm : Type} (load_comm : bytes → bytes → bytes → dict → result Comm).

(** The first room from here on that loads, with the position at it *)
Fixpoint load_room (server pk : bytes) (rooms : dict) : option (Comm * dict) :=
  match rooms with
  | [] => None
  | (r, DDict info) :: rest =>
      match load_comm server r pk info with
      | Ok c => Some (c, rooms)
      | Throw _ => load_room server pk rest
      end
  | _ :: rest => load_room server pk rest
  end.

Definition server_pubkey (info : dict) : option bytes :=
  match mfind "#" info with Some (DScalar (inr pk)) => Some pk | _ => None end.
Definition server_rooms (info : dict) : option dict :=
  match mfind "R" info with Some (DDict rooms) => Some rooms | _ => None end.

Fixpoint load_server (servers : dict) (rooms : option dict) : option Comm * comm_iterator_helper :=
  match servers with
  | [] => (None, mkCommIter None rooms)
  | (server, DDict info) :: rest =>
      match server_pubkey info with
      | None => load_server rest None
      | Some pk =>
          match (match rooms with Some r => Some r | None => server_rooms info end) with
          | None => load_server rest None
          | Some r =>
              match load_room server pk r with
              | Some (c, r') => (Some c, mkCommIter (Some servers) (Some r'))
              | None => load_server rest None
              end
          end
      end
  | _ :: rest => load_server rest None
  end.

Definition comm_load (it : comm_iterator_helper) : option Comm * comm_iterator_helper :=
  match it_server it with
  | None => (None, it)
  | Some servers => load_server servers (it_room it)
  end.

Definition comm_advance (it : comm_iterator_helper) : comm_iterator_helper :=
  match it_room it with
  | Some r => mkCommIter (it_server it) (Some (drop 1 r))
  | None => match it_server it with
            | Some s => mkCommIter (Some (drop 1 s)) None
            | None => it
            end
  end.

(** The loop of the callers: [while (!done()) { if (load(val)) ...; advance(); }] *)
Fixpoint comm_all (fuel : nat) (it : comm_iterator_helper) : result (list Comm) :=
  if comm_done it then Ok [] else
  match fuel with
  | O => Throw out_of_fuel
  | S fuel =>
      let '(c, it) := comm_load it in
      l ← comm_all fuel (comm_advance it);
      Ok (match c with Some c => c :: l | None => l end)
  end.

(** ** What the iteration visits *)
Definition room_entries (server pk : bytes) (rooms : dict) : list Comm :=
  omap (λ e, match e.2 with
             | DDict info => match load_comm server e.1 pk info with Ok c => Some c | Throw _ => None end
             | _ => None
             end) rooms.

Definition server_entries (e : bytes * dict_value) : list Comm :=
  match e.2 with
  | DDict info =>
      match server_pubkey info, server_rooms info with
      | Some pk, Some rooms => room_entries e.1 pk rooms
      | _, _ => []
      end
  | _ => []
  end.

Definition communities (servers : dict) : list Comm := concat (server_entries <$> servers).

(** What is left from a position *)
Definition remaining (it : comm_iterator_helper) : list Comm :=
  match it_server it with
  | None | Some [] => []
  | Some ((server, v) :: rest) =>
      match it_room it, v with
      | Some rooms, DDict info =>
          match server_pubkey info with Some pk => room_entries server pk rooms | None => [] end
      | Some _, _ => []
      | None, _ => server_entries (server, v)
      end ++ communities rest
  end.

Lemma load_room_spec server pk rooms :
  match load_room server pk rooms with
  | Some (c, r') => room_entries server pk rooms = c :: room_entries server pk (drop 1 r')
  | None => room_entries server pk rooms = []
  end.
Proof.
  induction rooms as [|[r v] rooms IH]; [done|]. cbn [load_room].
  destruct v as [info|s|x]; [|exact IH..].
  unfold room_entries in *. cbn [omap list_omap fst snd].
  destruct (load_comm server r pk info) as [c|e] eqn:E; [done|].
  destruct (load_room server pk rooms) as [[c r']|]; exact IH.
Qed.

Lemma communities_cons e servers : communities (e :: servers) = server_entries e ++ communities servers.
Proof. done. Qed.

Lemma load_server_spec servers rooms :
  match load_server servers rooms with
  | (Some c, it) => remaining (mkCommIter (Some servers) rooms) = c :: remaining (comm_advance it) ∧
                    comm_done it = false
  | (None, it) => remaining (mkCommIter (Some servers) rooms) = [] ∧ it_server it = None
  end.
Proof.
  revert rooms; induction servers as [|[server v] servers IH]; intros rooms; cbn [load_server]; [done|].
  assert (∀ o, remaining (mkCommIter (Some ((server, v) :: servers)) o) = communities servers →
    match load_server servers None with
    | (Some c, it) => remaining (mkCommIter (Some ((server, v) :: servers)) o) = c :: remaining (comm_advance it) ∧
                      comm_done it = false
    | (None, it) => remaining (mkCommIter (Some ((server, v) :: servers)) o) = [] ∧ it_server it = None
    end) as Hnext.
  { intros o Ho. specialize (IH None). rewrite Ho.
    replace (remaining (mkCommIter (Some servers) None)) with (communities servers) in IH; [done|].
    by destruct servers as [|[]]. }
  destruct v as [info|s|x]; [|by apply Hnext; destruct rooms..].
  destruct (server_pubkey info) as [pk|] eqn:Ep.
  2: { apply Hnext. unfold remaining, server_entries. simpl. rewrite Ep. by destruct rooms. }
  pose (rs := match rooms with Some r => Some r | None => server_rooms info end). fold rs.
  assert (remaining (mkCommIter (Some ((server, DDict info) :: servers)) rooms) =
          match rs with Some r => room_entries server pk r | None => [] end ++ communities servers) as Hrem.
  { subst rs. unfold remaining, server_entries. simpl. rewrite Ep. by destruct rooms, (server_rooms info). }
  destruct rs as [r|]; [|by apply Hnext]. pose proof (load_room_spec server pk r) as Hr.
  destruct (load_room server pk r) as [[c r']|].
  - rewrite Hrem, Hr. split; [|done]. unfold comm_advance, remaining. simpl. by rewrite Ep.
  - apply Hnext. by rewrite Hrem, Hr.
Qed.

Lemma comm_all_spec fuel it :
  (length (remaining it) < fuel)%nat → comm_all fuel it = Ok (remaining it).
Proof.
  revert it; induction fuel as [|fuel IH]; intros it Hf; [lia|]. cbn [comm_all].
  destruct (comm_done it) eqn:Ed.
  { unfold comm_done in Ed. unfold remaining. by destruct (it_server it) as [[]|]. }
  destruct it as [[servers|] rooms]; [|done]. unfold comm_load. simpl it_server. simpl it_room.
  pose proof (load_server_spec servers rooms) as Hl.
  destruct (load_server servers rooms) as [[c|] it].
  - destruct Hl as [Hl _]. rewrite Hl in *. simpl in Hf. rewrite IH by lia. done.
  - destruct Hl as [-> Hn].
    assert (comm_done (comm_advance it) = true) as Hd.
    { unfold comm_done, comm_advance. destruct (it_room it); simpl; rewrite Hn; simpl; by rewrite ?Hn. }
    destruct fuel; cbn [comm_all]; by rewrite Hd.
Qed.
End iterator.

(** ** Normal forms, proved *)
Definition differs (c x : ascii) : bool := negb (Ascii.eqb x c).

Lemma rfind_none c p s : all_chars (differs c) s = true → rfind (String c p) s = None.
Proof.
  induction s as [|x s IH]; [done|]. cbn [all_chars rfind]. intros [Hx Hs]%andb_true_iff.
  rewrite IH by done. simpl. destruct (ascii_dec c x) as [->|]; [|done].
  unfold differs in Hx. by rewrite Ascii.eqb_refl in Hx.
Qed.

Lemma rfind_app pat x s n : rfind pat s = Some n → rfind pat (x +:+ s) = Some (String.length x + n)%nat.
Proof. intros Hs. induction x as [|c x IH]; [done|]. simpl. by rewrite IH. Qed.

Lemma rfind_last c p x t :
  all_chars (differs c) (p +:+ t) = true →
  rfind (String c p) (x +:+ String c (p +:+ t)) = Some (String.length x).
Proof.
  intros Hp. rewrite <-(Nat.add_0_r (String.length x)). apply rfind_app. cbn [rfind].
  rewrite rfind_none by done. assert (String.prefix (String c p) (String c (p +:+ t)) = true) as ->; [|done].
  apply prefix_app. by exists t.
Qed.

(** The characters of a host name in normal form *)
Definition host_char (c : ascii) : bool :=
  is_digit c || is_lower c || Ascii.eqb c "-" || Ascii.eqb c ".".

Lemma lower_upper c : is_upper c = true → is_digit (lower c) || is_lower (lower c) || Ascii.eqb (lower c) "-" = true.
Proof.
  intros Hc. assert (implb (is_upper c) (is_digit (lower c) || is_lower (lower c) || Ascii.eqb (lower c) "-") = true) as Hi.
  - match goal with |- ?t = true => let f := eval pattern c in t in
      lazymatch f with ?g _ => apply (all_bytes_spec g) end end. vm_compute. reflexivity.
  - by rewrite Hc in Hi.
Qed.

Definition sample_pk : bytes := zeros 32.

Definition host_end (t : bytes) : Prop := t = "" ∨ ∃ r, t = String ":" r.

Lemma host_loop_spec allow s h d r :
  host_loop allow s = (h, d, r) →
  all_chars host_char h = true ∧ ∀ t, host_end t → host_loop allow (h +:+ t) = (h, d, t).
Proof.
  assert (∀ allow t, host_end t → host_loop allow t = ("", false, t)) as Hend.
  { intros a t [->|[r' ->]]; [done|]. simpl. by rewrite andb_false_r. }
  revert allow h d r; induction s as [|c s IH]; intros allow h d r Hl; simpl in Hl.
  { injection Hl as <- <- <-. split; [done|]. apply Hend. }
  destruct (is_digit c || is_lower c || Ascii.eqb c "-") eqn:E1.
  { destruct (host_loop true s) as [[h' d'] r'] eqn:El. injection Hl as <- <- <-.
    destruct (IH _ _ _ _ El) as [Hc Ht]. split; [simpl; unfold host_char at 1; by rewrite E1|].
    intros t Hte. simpl. by rewrite E1, (Ht t Hte). }
  destruct (is_upper c) eqn:E2.
  { destruct (host_loop true s) as [[h' d'] r'] eqn:El. injection Hl as <- <- <-.
    destruct (IH _ _ _ _ El) as [Hc Ht]. pose proof (lower_upper c E2) as Hlow.
    split; [simpl; unfold host_char at 1; by rewrite Hlow|]. intros t Hte. simpl. by rewrite Hlow, (Ht t Hte). }
  destruct (allow && Ascii.eqb c ".") eqn:E3; [|].
  - destruct (host_loop false s) as [[h' d'] r'] eqn:El. injection Hl as <- <- <-.
    destruct (IH _ _ _ _ El) as [Hc Ht]. split; [done|]. intros t Hte. simpl. rewrite (Ht t Hte).
    apply andb_true_iff in E3 as [-> _]. done.
  - injection Hl as <- <- <-. split; [done|]. apply Hend.
Qed.

(** Every port prints as digits that read back as the port. *)
Definition port_prints (p : Z) : bool :=
  match from_chars_u16 (print_port p) with Some (q, r) => (q =? p) && keqb r "" | None => false end &&
  all_chars is_digit (print_port p).

Fixpoint ports_print (n : nat) (p : Z) : bool :=
  match n with O => true | S n => port_prints p && ports_print n (p + 1) end.

Lemma port_prints_all p : 0 ≤ p ≤ 65535 → port_prints p = true.
Proof.
  assert (∀ n q, ports_print n q = true → ∀ p, q ≤ p < q + Z.of_nat n → port_prints p = true) as Hall.
  { induction n as [|n IH]; intros q Hn p' Hp; [lia|]. cbn [ports_print] in Hn.
    apply andb_true_iff in Hn as [Hq Hn]. destruct (decide (p' = q)) as [->|]; [done|].
    apply (IH (q + 1)); [done|lia]. }
  intros Hp. apply (Hall (Z.to_nat 65536) 0); [vm_compute; reflexivity|lia].
Qed.

Lemma digits_value_nonneg s acc : 0 ≤ acc → all_chars is_digit s = true → 0 ≤ digits_value acc s.
Proof.
  revert acc; induction s as [|c s IH]; intros acc Ha; simpl; [done|].
  intros [Hc Hs]%andb_true_iff. apply IH; [|done]. unfold is_digit, between in Hc.
  apply andb_true_iff in Hc as [Hc%Z.leb_le _]. lia.
Qed.

Lemma take_digits_chars s ds r : take_digits s = (ds, r) → all_chars is_digit ds = true.
Proof.
  revert ds r; induction s as [|c s IH]; intros ds r; simpl; [by intros [= <- _]|].
  destruct (is_digit c) eqn:E; [|by intros [= <- _]]. destruct (take_digits s) as [ds' r'].
  intros [= <- _]. simpl. rewrite E. by eapply IH.
Qed.

Lemma from_chars_range s p r : from_chars_u16 s = Some (p, r) → 0 ≤ p ≤ 65535.
Proof.
  unfold from_chars_u16. destruct (take_digits s) as [ds r'] eqn:E.
  destruct (_ || _) eqn:Eo; [done|]. intros [= <- _]. apply orb_false_iff in Eo as [_ Hv%Z.ltb_ge].
  split; [|done]. apply digits_value_nonneg; [done|]. by eapply take_digits_chars.
Qed.

Definition port_text (port : option Z) : bytes :=
  match port with Some p => String ":" (print_port p) | None => "" end.

(** A parsed URL without a path, written out again *)
Record normal_url (proto host : bytes) (port : option Z) : Prop := {
  normal_proto : proto = "http://" ∨ proto = "https://";
  normal_host : all_chars host_char host = true ∧ 4 ≤ size host ∧
    back host ≠ Some "."%char ∧
    ∀ t, host_end t → host_loop false (host +:+ t) = (host, true, t);
  normal_port : ∀ p, port = Some p → 0 ≤ p ≤ 65535 ∧ default_port proto p = false;
}.

Lemma parse_url_normal url u :
  parse_url url = Ok u → normal_url (url_proto u) (url_host u) (url_port u).
Proof.
  unfold parse_url. destruct (parse_proto url) as [proto rest] eqn:Ep.
  intros Hu. apply bind_Ok in Hu as ([] & Hp%require_Ok & Hu).
  destruct (host_loop false rest) as [[host dot] rest2] eqn:Eh.
  apply bind_Ok in Hu as ([] & Hh%require_Ok & Hu).
  apply bind_Ok in Hu as ([port rest3] & Hport & Hu). injection Hu as <-. simpl.
  rewrite !negb_orb, !andb_true_iff, !negb_true_iff, negb_false_iff, Z.ltb_ge, bool_decide_eq_false in Hh.
  destruct Hh as [[Hs ->] Hb]. apply host_loop_spec in Eh as [Hc Ht]. split.
  - unfold parse_proto in Ep. destruct (find "://" url); [|by injection Ep as <- _].
    injection Ep as <- _. destruct (string_iequal _ "http"); [by left|].
    destruct (string_iequal _ "https"); [by right|done].
  - done.
  - intros p ->. destruct (bool_decide (front rest2 = Some ":"%char)); [|done].
    destruct (from_chars_u16 (sdrop 1 rest2)) as [[q r]|] eqn:Eq; [|done].
    destruct (default_port proto q) eqn:Ed; [done|]. injection Hport as -> _.
    by apply from_chars_range in Eq.
Qed.

Lemma parse_proto_normal proto t :
  proto = "http://" ∨ proto = "https://" → parse_proto (proto +:+ t) = (proto, t).
Proof. intros [->| ->]; by destruct t. Qed.

Lemma parse_normal proto host port :
  normal_url proto host port →
  parse_url (proto +:+ host +:+ port_text port) = Ok (mkUrl proto host port None).
Proof.
  intros [Hproto (Hc & Hs & Hb & Ht) Hport]. unfold parse_url. rewrite parse_proto_normal by done.
  rewrite Ht by (destruct port; [right; eauto|by left]).
  assert (size proto =? 0 = false) as -> by by destruct Hproto as [->| ->]. cbn [negb require]. rewrite bind_ret.
  assert (size host <? 4 = false) as -> by by apply Z.ltb_ge.
  rewrite (bool_decide_eq_false_2 (back host = Some "."%char)) by done. cbn [negb orb require]. rewrite bind_ret.
  destruct port as [p|]; [|done]. destruct (Hport p eq_refl) as [Hp Hd]. cbn [port_text].
  rewrite (bool_decide_eq_true_2 (front _ = _)) by done. pose proof (port_prints_all p Hp) as Hpr. unfold port_prints in Hpr.
  change (sdrop 1 (String ":" (print_port p))) with (print_port p).
  destruct (from_chars_u16 (print_port p)) as [[q r]|]; [|done].
  rewrite !andb_true_iff, Z.eqb_eq, keqb_spec in Hpr. destruct Hpr as [[-> ->] _]. by rewrite Hd.
Qed.

Lemma canonical_url_Ok url r :
  canonical_url url = Ok r → ∃ proto host port, normal_url proto host port ∧
    r = proto +:+ host +:+ port_text port ∧ size r ≤ BASE_URL_MAX_LENGTH.
Proof.
  unfold canonical_url. intros Hu. inv_result. apply parse_url_normal in E.
  exists (url_proto a), (url_host a), (url_port a). split_and!; [done..|].
  apply negb_true_iff, Z.ltb_ge in E1. done.
Qed.

Lemma canonical_url_normal proto host port :
  normal_url proto host port → size (proto +:+ host +:+ port_text port) ≤ BASE_URL_MAX_LENGTH →
  canonical_url (proto +:+ host +:+ port_text port) = Ok (proto +:+ host +:+ port_text port).
Proof.
  intros Hn Hs. unfold canonical_url. rewrite parse_normal by done. rewrite bind_ret.
  cbn [url_path is_some negb require]. rewrite bind_ret. cbn [url_proto url_host url_port].
  fold (port_text port). assert (BASE_URL_MAX_LENGTH <? size (proto +:+ host +:+ port_text port) = false) as ->
    by by apply Z.ltb_ge. done.
Qed.

Lemma canonical_url_again url r : canonical_url url = Ok r → canonical_url r = Ok r ∧ size r ≤ BASE_URL_MAX_LENGTH.
Proof.
  intros (proto & host & port & Hn & -> & Hs)%canonical_url_Ok. split; [by apply canonical_url_normal|done].
Qed.

(** *** Slashes of a full URL *)
Definition no_slash : bytes → bool := all_chars (differs "/").

Lemma host_char_no_slash c : host_char c = true → differs "/" c = true.
Proof. unfold differs. destruct (Ascii.eqb_spec c "/") as [->|]; done. Qed.
Lemma digit_no_slash c : is_digit c = true → differs "/" c = true.
Proof. unfold differs. destruct (Ascii.eqb_spec c "/") as [->|]; done. Qed.
Lemma room_char_no_slash c : room_char (lower c) = true → differs "/" c = true.
Proof. unfold differs. destruct (Ascii.eqb_spec c "/") as [->|]; done. Qed.

Lemma normal_no_slash proto host port :
  normal_url proto host port → no_slash (host +:+ port_text port) = true.
Proof.
  intros [_ (Hc & _) Hp]. unfold no_slash. rewrite all_chars_app, andb_true_iff. split.
  - by apply (all_chars_impl host_char); [apply host_char_no_slash|].
  - destruct port as [p|]; [|done]. destruct (Hp p eq_refl) as [Hr _].
    pose proof (port_prints_all p Hr) as Hpr. unfold port_prints in Hpr. apply andb_true_iff in Hpr as [_ Hd].
    simpl. apply (all_chars_impl is_digit); [apply digit_no_slash|done].
Qed.

Lemma make_lc_chars f s : all_chars f (make_lc s) = all_chars (λ c, f (lower c)) s.
Proof. induction s as [|c s IH]; [done|]. simpl. by rewrite IH. Qed.

Lemma canonical_room_no_slash r rm : canonical_room r = Ok rm → no_slash r = true.
Proof.
  unfold canonical_room. intros Hr. inv_result. rewrite make_lc_chars in E1.
  by eapply all_chars_impl; [|exact E1]; intros c; apply room_char_no_slash.
Qed.

Lemma prefix_slash_r s : no_slash s = true → String.prefix "/r/" (String "/" s) = false.
Proof.
  intros Hs. apply not_true_iff_false. intros [r [=]]%prefix_app. subst s. simpl in Hs. done.
Qed.

Lemma rfind_slash_r proto hp r :
  proto = "http://" ∨ proto = "https://" → no_slash hp = true → 2 ≤ size hp → no_slash r = true →
  rfind "/r/" (proto +:+ hp +:+ String "/" r) = None.
Proof.
  intros Hp Hhp Hs Hr.
  assert (rfind "/r/" (String "/" r) = None) as H1.
  { cbn [rfind]. rewrite rfind_none by done. by rewrite prefix_slash_r. }
  assert (∀ x, no_slash x = true → rfind "/r/" (x +:+ String "/" r) = None) as H2.
  { induction x as [|c x IH]; [done|]. unfold no_slash. cbn [all_chars]. intros [Hc Hx]%andb_true_iff.
    change (String c x +:+ String "/" r) with (String c (x +:+ String "/" r)). cbn [rfind].
    rewrite IH by done. cbn [String.prefix]. destruct (ascii_dec "/" c) as [<-|]; [done|]. done. }
  destruct hp as [|a [|b hp]]; [done|done|].
  assert (String.prefix "/r/" (String "/" (String a (String b hp) +:+ String "/" r)) = false) as H3.
  { apply not_true_iff_false. intros [q [=]]%prefix_app. by subst. }
  specialize (H2 _ Hhp). set (u := String a (String b hp) +:+ String "/" r) in *. clearbody u.
  destruct Hp as [->| ->]; simpl; rewrite H2; simpl in H3; by rewrite H3.
Qed.

(** *** Theorems *)

(** (normal form of URLs and rooms).  A URL that is accepted has a normal
    form within the size limit that is its own normal form; likewise for a
    room token, whose normal form has at most 64 characters. *)
Theorem canonical_idempotent (s : bytes) :
  (∀ r, canonical_url s = Ok r → canonical_url r = Ok r ∧ size r ≤ BASE_URL_MAX_LENGTH) ∧
  (∀ r, canonical_room s = Ok r → canonical_room r = Ok r ∧ 0 < size r ≤ ROOM_MAX_LENGTH).
Proof.
  split; intros r Hr.
  - by apply (canonical_url_again s).
  - unfold canonical_room in Hr. inv_result.
    assert (∀ s, make_lc (make_lc s) = make_lc s) as Hlc.
    { clear. intros s. induction s as [|c s IH]; [done|]. simpl. rewrite IH. f_equal.
      assert (Ascii.eqb (lower (lower c)) (lower c) = true) as He%Ascii.eqb_eq; [|done].
      match goal with |- ?t = true => let f := eval pattern c in t in
        lazymatch f with ?g _ => apply (all_bytes_spec g) end end. vm_compute. reflexivity. }
    unfold canonical_room. rewrite Hlc, E, E0, E1. split; [done|].
    apply negb_true_iff, Z.ltb_ge in E. apply negb_true_iff, Z.eqb_neq in E0. unfold size in *. lia.
Qed.

Lemma canonical_idempotent_witness :
  canonical_url "HTTPS://Example.org:443/" = Ok "https://example.org" ∧
  canonical_url "https://example.org" = Ok "https://example.org".
Proof.
  destruct (canonical_idempotent "HTTPS://Example.org:443/") as [Hu _].
  split; [vm_compute; reflexivity|]. apply Hu. vm_compute. reflexivity.
Defined.

(** (full URL round trip).  The full URL of a community, built from a
    normalised base URL, an acceptable room token and a 32-byte key, parses
    back into exactly these three. *)
Theorem full_url_roundtrip `{Oxenc, !OxencLaws} (url base r rm pk : bytes) :
  canonical_url url = Ok base → canonical_room r = Ok rm → size pk = 32 →
  parse_full_url (full_url base r pk) = Ok (base, r, pk).
Proof.
  intros Hu Hr Hpk. destruct (canonical_url_Ok _ _ Hu) as (proto & host & port & Hn & Hb & Hs).
  pose proof (canonical_room_no_slash _ _ Hr) as Hns.
  pose proof (normal_no_slash _ _ _ Hn) as Hhp.
  assert (2 ≤ size (host +:+ port_text port)) as Hsz.
  { destruct Hn as [_ (_ & Hh & _) _]. unfold size in *. rewrite length_sapp. lia. }
  assert (all_chars (differs "?") ("public_key=" +:+ hex_digits pk) = true) as Hq.
  { rewrite all_chars_app. simpl. clear. induction pk as [|c pk IH]; [done|]. cbn [hex_digits all_chars].
    rewrite IH, andb_true_r. match goal with |- ?t = true => let f := eval pattern c in t in
      lazymatch f with ?g _ => apply (all_bytes_spec g) end end. vm_compute. reflexivity. }
  unfold parse_full_url, parse_partial_url, full_url. rewrite to_hex_digits.
  change (base +:+ String "/" (r +:+ qs_pubkey +:+ hex_digits pk))
    with (base +:+ (String "/" r +:+ String "?" ("public_key=" +:+ hex_digits pk))).
  rewrite <-append_assoc. unfold qs_pubkey at 1. rewrite rfind_last by done.
  rewrite (stake_app (base +:+ String "/" r)).
  replace (sdrop _ _) with (hex_digits pk).
  2: { change (String "?" ("public_key=" +:+ hex_digits pk)) with (qs_pubkey +:+ hex_digits pk).
       rewrite <-append_assoc, <-length_sapp. by rewrite sdrop_app. }
  assert (decode_pubkey (hex_digits pk) = Ok pk) as ->.
  { unfold decode_pubkey, hex_key. rewrite hex_digits_size, Hpk, is_hex_digits. simpl. by rewrite from_hex_digits. }
  rewrite !bind_ret. rewrite Hb, !append_assoc. rewrite <-(append_assoc host).
  destruct Hn as [Hproto Hhost Hport] eqn:En. rewrite rfind_slash_r by done.
  rewrite <-!(append_assoc proto). rewrite (rfind_last "/" "" _ r) by done.
  rewrite stake_app. replace (sdrop _ _) with r.
  2: { change (String "/" r) with ("/" +:+ r). rewrite <-append_assoc.
       change 1%nat with (String.length "/"). by rewrite <-length_sapp, sdrop_app. }
  rewrite append_assoc, canonical_url_normal by (rewrite <-?Hb; done). done.
Qed.

Lemma full_url_roundtrip_witness :
  parse_full_url (full_url "https://example.org" "Lobby" sample_pk) =
    Ok ("https://example.org", "Lobby", sample_pk).
Proof.
  apply (full_url_roundtrip "https://Example.org" "https://example.org" "Lobby" "lobby" sample_pk);
    vm_compute; reflexivity.
Defined.

Lemma comm_all_start {Comm} (load_comm : bytes → bytes → bytes → dict → result Comm) (servers : dict) :
  comm_all load_comm (S (length (communities load_comm servers))) (mkCommIter (Some servers) None) =
    Ok (communities load_comm servers).
Proof.
  assert (remaining load_comm (mkCommIter (Some servers) None) = communities load_comm servers) as Hr
    by by destruct servers as [|[]].
  rewrite comm_all_spec; rewrite Hr; [done|lia].
Qed.

Lemma communities_loaded {Comm} (load_comm : bytes → bytes → bytes → dict → result Comm) (servers : dict) c :
  c ∈ communities load_comm servers → ∃ server r pk info, load_comm server r pk info = Ok c.
Proof.
  unfold communities. intros (l & Hc & Hl)%list_elem_of_In%in_concat.
  apply list_elem_of_In, list_elem_of_fmap in Hc as ([server v] & -> & _). unfold server_entries in Hl. simpl in Hl.
  destruct v as [info|s|x]; [|done..]. destruct (server_pubkey info) as [pk|], (server_rooms info) as [rooms|]; try done.
  apply list_elem_of_In, list_elem_of_omap in Hl as ([r v] & _ & Hl). simpl in Hl. destruct v as [i|s|x]; try done.
  destruct (load_comm server r pk i) eqn:E; [|done]. injection Hl as <-. eauto.
Qed.

(** (iteration over communities).  The iterator's callers visit exactly the
    rooms that load, server by server and room by room in key order, and
    finish after at most one step per room and one more. *)
Theorem community_iteration {Comm} (load_comm : bytes → bytes → bytes → dict → result Comm) (servers : dict) :
  comm_all load_comm (S (length (communities load_comm servers))) (mkCommIter (Some servers) None) =
    Ok (communities load_comm servers).
Proof. apply comm_all_start. Qed.
