(* ===== verification/Records.v ===== *)
(** * Writing and reading records

    The lemmas and tactics that carry the typed configs: what each helper
    writes to a member of a record, and how the member reads back. *)

From Stdlib Require Import ZArith String Ascii Lia.
From stdpp Require Import base option list strings numbers sorting sets.
From S2P Require Import Prelude OrderedMap Bt Crypto ConfigData ConfigMessage State ConfigBase ConfigState ConfigFields Text.

(** ** Narrow integers *)
(** The conversion of an [int64_t] to [int], modulo 2^32 *)
Definition to_int32 (z : Z) : Z := (z + 2 ^ 31) mod 2 ^ 32 - 2 ^ 31.
Definition in_int32 (z : Z) : bool := (- 2 ^ 31 <=? z) && (z <? 2 ^ 31).

Lemma to_int32_id z : - 2 ^ 31 ≤ z < 2 ^ 31 → to_int32 z = z.
Proof. intros Hz. unfold to_int32. rewrite Z.mod_small by lia. lia. Qed.

Lemma in_int32_spec z : in_int32 z = true ↔ - 2 ^ 31 ≤ z < 2 ^ 31.
Proof. unfold in_int32. rewrite andb_true_iff, Z.leb_le, Z.ltb_lt. lia. Qed.


Lemma in_int32_int64 z : in_int32 z = true → in_int64 z = true.
Proof. rewrite in_int32_spec, in_int64_spec. unfold int64_min, int64_max. lia. Qed.

Lemma to_epoch_seconds_int64 t : in_int64 t = true → in_int64 (to_epoch_seconds t) = true.
Proof.
  rewrite !in_int64_spec. unfold int64_min, int64_max, to_epoch_seconds. intros Ht.
  destruct (Z.ltb_spec 9000000000000 t).
  - split; [pose proof (Z.div_pos t 1000000); lia|]. apply Z.div_le_upper_bound; lia.
  - destruct (Z.ltb_spec 9000000000 t); [|lia].
    split; [pose proof (Z.div_pos t 1000); lia|]. apply Z.div_le_upper_bound; lia.
Qed.

(** *** Reading the values of members *)
Definition as_int (o : option dict_value) : Z := match o with Some (DScalar (inl z)) => z | _ => 0 end.
Definition as_str (o : option dict_value) : bytes := match o with Some (DScalar (inr s)) => s | _ => "" end.

Lemma int_or_0_find d k o : mfind k d = o → int_or_0 d k = as_int o.
Proof. unfold int_or_0, maybe_int, maybe_scalar. intros ->. by destruct o as [[| |[]]|]. Qed.
Lemma ts_or_epoch_find d k o : mfind k d = o → ts_or_epoch d k = as_int o.
Proof. apply int_or_0_find. Qed.
Lemma string_or_empty_find d k o : mfind k d = o → string_or_empty d k = as_str o.
Proof. unfold string_or_empty, maybe_string, maybe_scalar. intros ->. by destruct o as [[| |[]]|]. Qed.

Lemma as_int_positive z : as_int (positive_value z) = Z.max 0 z.
Proof. unfold positive_value. destruct (Z.ltb_spec 0 z); simpl; lia. Qed.
Lemma as_int_nonzero z : as_int (nonzero_value z) = z.
Proof. unfold nonzero_value. by destruct (Z.eqb_spec z 0). Qed.
Lemma as_int_flag b : negb (as_int (flag_value b) =? 0) = b.
Proof. by destruct b. Qed.
Lemma as_str_nonempty s : as_str (nonempty_value s) = s.
Proof. unfold nonempty_value. destruct (Z.eqb_spec (size s) 0) as [E|E]; [|done]. by apply size_0 in E as ->. Qed.
#[global] Hint Rewrite as_int_positive as_int_nonzero as_int_flag as_str_nonempty : members.

Lemma bits_field_load bits fo info dflt :
  mfind "f" info = bits_field bits fo → 0 ≤ bits < 2 ^ 64 → dflt = 0 →
  match maybe_set info "f" with Some s => bitset_from_set_of_int64_or_0 s | None => dflt end = bits.
Proof.
  intros Hf Hb ->. unfold maybe_set. rewrite Hf. unfold bits_field.
  pose proof (bits_round bits fo Hb) as Hr. destruct (bits_value bits fo); exact Hr.
Qed.


(** ** Writing members *)
Lemma opt_ok_positive z : in_int64 z = true → opt_ok (positive_value z) = true.
Proof. intros Hz. unfold positive_value. by destruct (0 <? z). Qed.
Lemma opt_ok_nonzero z : in_int64 z = true → opt_ok (nonzero_value z) = true.
Proof. intros Hz. unfold nonzero_value. by destruct (z =? 0). Qed.
Lemma opt_ok_nonempty s : opt_ok (nonempty_value s) = true.
Proof. unfold nonempty_value. by destruct (size s =? 0). Qed.
Lemma opt_ok_flag b : opt_ok (flag_value b) = true.
Proof. by destruct b. Qed.
Lemma opt_ok_if_int c z : in_int64 z = true → opt_ok (value_if c (int_value z)) = true.
Proof. by destruct c. Qed.
Lemma opt_ok_if_str c s : opt_ok (value_if c (str_value s)) = true.
Proof. by destruct c. Qed.
Lemma opt_ok_str s : opt_ok (Some (str_value s)) = true.
Proof. done. Qed.
Lemma opt_ok_int z : in_int64 z = true → opt_ok (Some (int_value z)) = true.
Proof. done. Qed.
Lemma opt_ok_none : opt_ok None = true.
Proof. done. Qed.

(** Bounds of integers that are written *)
Create HintDb edits.
#[export] Hint Resolve in_int32_int64 to_epoch_seconds_int64 : edits.

Section record_writes.
Context `{BtLib, Hash}.

Lemma edits_lift {A B} (r : result A) a (f : A → M ConfigBase B) d d' :
  r = Ok a → edits d (f a) d' → edits d (x ← lift r; f x) d'.
Proof. intros -> Hf b Hb Hd. rewrite run_lift. by apply Hf. Qed.

Lemma quiet_lift {A B} (r : result A) a (f : A → M ConfigBase B) d :
  r = Ok a → quiet d (f a) → quiet d (x ← lift r; f x).
Proof. intros -> Hf b Hb Hd. rewrite run_lift. by apply Hf. Qed.

Lemma edits_str p s d : dict_ok d = true → edits d (assign_str p s) (put_opt p (Some (str_value s)) d).
Proof. intros Hd. by apply edits_assign_scalar. Qed.
Lemma edits_int p z d :
  dict_ok d = true → in_int64 z = true → edits d (assign_int p z) (put_opt p (Some (int_value z)) d).
Proof. intros Hd Hz. by apply edits_assign_scalar. Qed.
Lemma quiet_str p s d : get_clean p d = Some (str_value s) → quiet d (assign_str p s).
Proof. intros Hg. by apply quiet_assign. Qed.
Lemma quiet_int p z d : get_clean p d = Some (int_value z) → quiet d (assign_int p z).
Proof. intros Hg. by apply quiet_assign. Qed.

Lemma set_at_other p1 p2 o v d :
  independent p1.1 p1.2 p2.1 p2.2 = true → set_at p2 d o → set_at p2 (put_opt p1 v d) o.
Proof. intros Hi Hs. unfold set_at. by rewrite get_put_other. Qed.

Lemma quiet_bits p bits d o : get_clean p d = bits_field bits o → quiet d (set_int64_set_from_bitset p bits).
Proof. intros Hg. apply (quiet_bitset p bits d (bits_value bits o)); [exact Hg|]. apply bits_value_mem. Qed.

Lemma edits_eq {A} (m : M ConfigBase A) d d1 d2 : edits d m d1 → d1 = d2 → edits d m d2.
Proof. by intros ? ->. Qed.
End record_writes.

(** ** A dictionary of records as a map *)
Lemma entry_find q j d : mfind j (default [] (field_dict q d)) = get_clean (sub q j) d.
Proof.
  destruct (field_dict q d) as [e|] eqn:E; [by apply member_find|].
  unfold get_clean, sub. simpl. rewrite find_path_snoc. unfold field_dict, get_clean in E. unfold dict_at.
  by destruct (find_path q.1 q.2 d) as [[]|].
Qed.

Section map_entries.
Context {A : Type} (f : bytes → dict_value → option A).

Definition map_entries (e : dict) : list (bytes * A) := omap (λ p, pair p.1 <$> f p.1 p.2) e.

Lemma map_entries_below k (e : dict) :
  Forall (key_below k) e → Forall (key_below k) (map_entries e).
Proof.
  induction 1 as [|[j v] e Hj _ IH]; [constructor|]. unfold map_entries in *. simpl.
  destruct (f j v); simpl; [by constructor|done].
Qed.

Lemma map_entries_sorted (e : dict) : msorted e = true → msorted (map_entries e) = true.
Proof.
  induction e as [|[j v] e IH]; intros Hs; [done|]. apply msorted_cons in Hs as [Hb Hs].
  change (map_entries ((j, v) :: e)) with (match pair j <$> f j v with Some x => x :: map_entries e | None => map_entries e end).
  destruct (f j v); simpl; [|by apply IH]. apply msorted_cons. split; [by apply map_entries_below|by apply IH].
Qed.

Lemma map_entries_find k (e : dict) :
  msorted e = true → mfind k (map_entries e) = match mfind k e with Some v => f k v | None => None end.
Proof.
  induction e as [|[j v] e IH]; intros Hs; [done|]. apply msorted_cons in Hs as [Hb Hs].
  change (map_entries ((j, v) :: e)) with (match pair j <$> f j v with Some x => x :: map_entries e | None => map_entries e end).
  cbn [mfind fst]. destruct (keqb k j) eqn:E.
  - apply keqb_spec in E as ->. simpl. destruct (f j v) eqn:Ef; simpl; [by rewrite keqb_refl|].
    apply mfind_below, map_entries_below. done.
  - simpl. destruct (f j v); simpl; rewrite ?E; by apply IH.
Qed.

Lemma map_entries_length (e : dict) :
  (∀ k v, (k, v) ∈ e → is_Some (f k v)) → length (map_entries e) = length e.
Proof.
  induction e as [|[j v] e IH]; intros He; [done|].
  change (map_entries ((j, v) :: e)) with (match pair j <$> f j v with Some x => x :: map_entries e | None => map_entries e end).
  destruct (He j v) as [x ->]; [by left|]. simpl. rewrite IH; [done|]. intros k w Hin. apply He. by right.
Qed.
End map_entries.

Lemma field_dict_ok q d e : dict_ok d = true → field_dict q d = Some e → dict_ok e = true.
Proof.
  intros Hd Hf. unfold field_dict in Hf. destruct (get_clean q d) as [[]|] eqn:E; simplify_eq.
  by apply find_path_ok in E.
Qed.

Lemma entries_sorted q d : dict_ok d = true → msorted (default [] (field_dict q d)) = true.
Proof.
  intros Hd. destruct (field_dict q d) as [e|] eqn:E; [|done].
  apply (field_dict_ok q) in E; [|done]. by apply dict_ok_lookup in E as [? _].
Qed.

(** Two dictionaries of records that agree on every key but one *)
Lemma map_entries_insert {A} (f : bytes → dict_value → option A) q k x d d' :
  dict_ok d = true → dict_ok d' = true →
  (∀ j, j ≠ k → get_clean (sub q j) d' = get_clean (sub q j) d) →
  match get_clean (sub q k) d' with Some v => f k v | None => None end = Some x →
  map_entries f (default [] (field_dict q d')) = minsert k x (map_entries f (default [] (field_dict q d))).
Proof.
  intros Hd Hd' Ho Hk. apply msorted_ext; [by apply map_entries_sorted, entries_sorted| |].
  { by apply msorted_insert, map_entries_sorted, entries_sorted. }
  intros j. rewrite mfind_insert, !map_entries_find, !entry_find by by apply entries_sorted.
  destruct (keqb j k) eqn:E; [by apply keqb_spec in E as ->|]. rewrite Ho; [done|]. intros ->.
  by rewrite keqb_refl in E.
Qed.

Lemma map_entries_erase {A} (f : bytes → dict_value → option A) q k d d' :
  dict_ok d = true → dict_ok d' = true →
  (∀ j, j ≠ k → get_clean (sub q j) d' = get_clean (sub q j) d) →
  get_clean (sub q k) d' = None →
  map_entries f (default [] (field_dict q d')) = merase k (map_entries f (default [] (field_dict q d))).
Proof.
  intros Hd Hd' Ho Hk. apply msorted_ext; [by apply map_entries_sorted, entries_sorted| |].
  { by apply msorted_erase, map_entries_sorted, entries_sorted. }
  intros j. rewrite mfind_erase, !map_entries_find, !entry_find by by apply entries_sorted.
  destruct (keqb j k) eqn:E; [apply keqb_spec in E as ->; by rewrite Hk|]. rewrite Ho; [done|]. intros ->.
  by rewrite keqb_refl in E.
Qed.

(** A record next to another one *)
Lemma record_other q j k x : j ≠ k → independent (sub (sub q k) x).1 (sub (sub q k) x).2 (sub q j).1 (sub q j).2 = true.
Proof.
  intros Hne. simpl. generalize (q.1 ++ [q.2]). intros l.
  pose proof (independent_app l [k] x [] j) as Hl. rewrite app_nil_r in Hl. rewrite Hl. simpl. apply negb_true_iff, not_true_iff_false. rewrite keqb_spec. naive_solver.
Qed.

(** The writes to a record, one after the other.  [edit_ok] solves the side
    conditions (the data so far is well formed, the value fits its type). *)
Ltac edit_ok :=
  repeat lazymatch goal with
  | |- dict_ok (put_opt _ _ _) = true => apply put_opt_dict_ok
  | |- dict_ok _ = true => assumption
  | |- opt_ok (positive_value _) = true => apply opt_ok_positive
  | |- opt_ok (nonzero_value _) = true => apply opt_ok_nonzero
  | |- opt_ok (nonempty_value _) = true => apply opt_ok_nonempty
  | |- opt_ok (flag_value _) = true => apply opt_ok_flag
  | |- opt_ok (value_if _ (DScalar (inl _))) = true => apply opt_ok_if_int
  | |- opt_ok (value_if _ (DScalar (inr _))) = true => apply opt_ok_if_str
  | |- opt_ok (Some (str_value _)) = true => apply opt_ok_str
  | |- opt_ok (Some (int_value _)) = true => apply opt_ok_int
  | |- opt_ok None = true => apply opt_ok_none
  | |- scalar_ok (inr _) = true => exact eq_refl
  | |- scalar_ok (inl ?z) = true => change (in_int64 z = true)
  | |- in_int64 _ = true => first [assumption|solve [auto with edits]]
  end.

Ltac edit_set_at :=
  repeat (apply set_at_other; [apply independent_members; discriminate|]); eassumption.

Ltac edit_one :=
  lazymatch goal with
  | |- edits _ (assign_str _ _) _ => apply edits_str; edit_ok
  | |- edits _ (assign_int _ _) _ => apply edits_int; edit_ok
  | |- edits _ (set_flag _ _) _ => apply edits_flag; edit_ok
  | |- edits _ (set_positive_int _ _) _ => apply edits_positive; edit_ok
  | |- edits _ (set_nonzero_int _ _) _ => apply edits_nonzero; edit_ok
  | |- edits _ (set_nonempty_str _ _) _ => apply edits_nonempty; edit_ok
  | |- edits _ (set_pair_if _ _ _ _ _) _ => apply edits_pair; edit_ok
  | |- edits _ (erase_field _) _ => apply edits_erase; edit_ok
  | |- edits _ (set_int64_set_from_bitset _ _) _ => apply edits_bitset; [edit_ok|edit_set_at]
  end.

Ltac edit_record :=
  repeat lazymatch goal with
  | |- edits _ (mbind _ _) _ => eapply edits_bind; [edit_one|intros _; cbv zeta beta]
  end; edit_one.

(** The same writes when every member already holds the value *)
Ltac quiet_one :=
  lazymatch goal with
  | |- quiet _ (assign_str _ _) => apply quiet_str
  | |- quiet _ (assign_int _ _) => apply quiet_int
  | |- quiet _ (set_flag _ _) => apply quiet_flag
  | |- quiet _ (set_positive_int _ _) => apply quiet_positive
  | |- quiet _ (set_nonzero_int _ _) => apply quiet_nonzero
  | |- quiet _ (set_nonempty_str _ _) => apply quiet_nonempty
  | |- quiet _ (set_pair_if _ _ _ _ _) => apply quiet_pair
  | |- quiet _ (erase_field _) => apply quiet_erase
  | |- quiet _ (set_int64_set_from_bitset _ _) => eapply quiet_bits
  end.

Ltac quiet_record :=
  repeat lazymatch goal with
  | |- quiet _ (mbind _ _) => eapply quiet_bind; [quiet_one|intros _; cbv zeta beta]
  end; [..|quiet_one].
