(* ===== verification/Contacts.v ===== *)
(** * The contacts config

    [src/config/contacts.cpp] and [include/bchat/config/contacts.hpp]: contacts
    are records in the dictionary ["c"] of the data, keyed by the 33 bytes of
    the id; blinded contacts are kept per community under ["b"]. *)

From Stdlib Require Import ZArith String Ascii Lia.
From stdpp Require Import base option list strings numbers sorting sets.
From S2P Require Import Prelude OrderedMap Bt Bencode Crypto ConfigData ConfigMessage State Util ConfigBase ConfigState ConfigLifecycle ConfigFields Text Ids Community Records.

(** ** Small types *)

Inductive notify_mode := defaulted | all | disabled | mentions_only.
Inductive expiration_mode := none | after_send | after_read.

#[global] Instance notify_mode_eq_dec : EqDecision notify_mode.
Proof. solve_decision. Defined.
#[global] Instance expiration_mode_eq_dec : EqDecision expiration_mode.
Proof. solve_decision. Defined.

Definition notify_int (m : notify_mode) : Z :=
  match m with defaulted => 0 | all => 1 | disabled => 2 | mentions_only => 3 end.
Definition notify_of (z : Z) : option notify_mode :=
  if z =? 0 then Some defaulted else if z =? 1 then Some all
  else if z =? 2 then Some disabled else if z =? 3 then Some mentions_only else None.
Definition exp_int (m : expiration_mode) : Z :=
  match m with none => 0 | after_send => 1 | after_read => 2 end.
Definition exp_of (z : Z) : option expiration_mode :=
  if z =? 0 then Some none else if z =? 1 then Some after_send
  else if z =? 2 then Some after_read else None.

Record profile_pic := mkPic { pic_url : bytes; pic_key : bytes }.
Definition no_pic : profile_pic := mkPic "" "".
Definition pic_empty (p : profile_pic) : bool := (size (pic_url p) =? 0) || negb (size (pic_key p) =? 32).
Definition check_key (key : bytes) : result () :=
  require ((size key =? 0) || (size key =? 32)) invalid_argument.
Definition new_pic (url key : bytes) : result profile_pic := _ ← check_key key; Ok (mkPic url key).

(** The picture of a record: both parts, or none *)
Definition load_pic (info : dict) : profile_pic :=
  match maybe_string info "p", maybe_vector info "q" with
  | Some url, Some key => if negb (size url =? 0) && (size key =? 32) then mkPic url key else no_pic
  | _, _ => no_pic
  end.

(** ** Contacts *)
Definition MAX_NAME_LENGTH : nat := 100.
#[local] Arguments stake : simpl never.
#[local] Arguments MAX_NAME_LENGTH : simpl never.

Record contact_info := mkContact {
  c_bchat_id : bytes;
  c_name : bytes;
  c_nickname : bytes;
  c_profile_picture : profile_pic;
  c_profile_updated : Z;
  c_approved : bool;
  c_approved_me : bool;
  c_blocked : bool;
  c_priority : Z;
  c_notifications : notify_mode;
  c_mute_until : Z;
  c_exp_mode : expiration_mode;
  c_exp_timer : Z;
  c_created : Z;
  c_profile_bitset : Z;
}.

(** The members after [contact_info(sid)], without the check of the id *)
Definition blank_contact (id : bytes) : contact_info :=
  mkContact id "" "" no_pic 0 false false false 0 defaulted 0 none 0 0 0.

Definition load_notify (z : Z) : notify_mode :=
  match notify_of z with
  | Some mentions_only => all
  | Some m => m
  | None => defaulted
  end.

Definition load_expiry (mode secs : Z) : expiration_mode * Z :=
  match exp_of mode with
  | None | Some none => (none, 0)
  | Some m => if secs <=? 0 then (none, 0) else (m, secs)
  end.

(** [contact_info::load] *)
Definition contact_load (info : dict) (c : contact_info) : contact_info :=
  let '(exp_mode, exp_timer) := load_expiry (to_int32 (int_or_0 info "e")) (to_int32 (int_or_0 info "E")) in
  mkContact (c_bchat_id c)
    (string_or_empty info "n")
    (string_or_empty info "N")
    (load_pic info)
    (ts_or_epoch info "t")
    (negb (int_or_0 info "a" =? 0))
    (negb (int_or_0 info "A" =? 0))
    (negb (int_or_0 info "b" =? 0))
    (to_int32 (int_or_0 info "+"))
    (load_notify (to_int32 (int_or_0 info "@")))
    (to_epoch_seconds (int_or_0 info "!"))
    exp_mode exp_timer
    (to_epoch_seconds (int_or_0 info "j"))
    (match maybe_set info "f" with
     | Some s => bitset_from_set_of_int64_or_0 s
     | None => c_profile_bitset c
     end).

Definition contact_set_name (n : bytes) (c : contact_info) : contact_info :=
  let n := if (MAX_NAME_LENGTH <? String.length n)%nat then utf8_truncate n MAX_NAME_LENGTH else n in
  mkContact (c_bchat_id c) n (c_nickname c) (c_profile_picture c) (c_profile_updated c) (c_approved c)
    (c_approved_me c) (c_blocked c) (c_priority c) (c_notifications c) (c_mute_until c) (c_exp_mode c)
    (c_exp_timer c) (c_created c) (c_profile_bitset c).

Definition contact_set_nickname (n : bytes) (c : contact_info) : result contact_info :=
  _ ← require (negb (MAX_NAME_LENGTH <? String.length n)%nat) invalid_argument;
  Ok (mkContact (c_bchat_id c) (c_name c) n (c_profile_picture c) (c_profile_updated c) (c_approved c)
    (c_approved_me c) (c_blocked c) (c_priority c) (c_notifications c) (c_mute_until c) (c_exp_mode c)
    (c_exp_timer c) (c_created c) (c_profile_bitset c)).

Definition contact_set_nickname_truncated (n : bytes) (c : contact_info) : result contact_info :=
  contact_set_nickname (utf8_truncate n MAX_NAME_LENGTH) c.

Section contacts.
Context `{BtLib, Hash, Oxenc}.

(** [contact_info::contact_info(std::string)] *)
Definition new_contact (sid : bytes) : result contact_info :=
  _ ← check_bchat_id sid "05"; Ok (blank_contact sid).

Definition contact_path (pk : bytes) : path := sub (root "c") pk.

(** [Contacts::get] *)
Definition contacts_get (pubkey_hex : bytes) (d : dict) : result (option contact_info) :=
  pubkey ← bchat_id_to_bytes pubkey_hex "05";
  match field_dict (contact_path pubkey) d with
  | None => Ok None
  | Some info_dict => c ← new_contact pubkey_hex; Ok (Some (contact_load info_dict c))
  end.

Definition contacts_get_or_construct (pubkey_hex : bytes) (d : dict) : result contact_info :=
  maybe ← contacts_get pubkey_hex d;
  match maybe with Some c => Ok c | None => new_contact pubkey_hex end.

(** [Contacts::set] *)
Definition contacts_set (contact : contact_info) : M ConfigBase () :=
  pk ← lift (bchat_id_to_bytes (c_bchat_id contact) "05");
  let info := contact_path pk in
  assign_str (sub info "n") (stake MAX_NAME_LENGTH (c_name contact));;
  set_nonempty_str (sub info "N") (stake MAX_NAME_LENGTH (c_nickname contact));;
  set_pair_if (negb (pic_empty (c_profile_picture contact)))
    (sub info "p") (str_value (pic_url (c_profile_picture contact)))
    (sub info "q") (str_value (pic_key (c_profile_picture contact)));;
  set_positive_int (sub info "t") (c_profile_updated contact);;
  set_flag (sub info "a") (c_approved contact);;
  set_flag (sub info "A") (c_approved_me contact);;
  set_flag (sub info "b") (c_blocked contact);;
  set_nonzero_int (sub info "+") (c_priority contact);;
  let notify := if decide (c_notifications contact = mentions_only) then all else c_notifications contact in
  set_positive_int (sub info "@") (notify_int notify);;
  set_positive_int (sub info "!") (to_epoch_seconds (c_mute_until contact));;
  set_pair_if (negb (bool_decide (c_exp_mode contact = none)) && (0 <? c_exp_timer contact))
    (sub info "e") (int_value (exp_int (c_exp_mode contact)))
    (sub info "E") (int_value (c_exp_timer contact));;
  set_positive_int (sub info "j") (to_epoch_seconds (c_created contact));;
  set_int64_set_from_bitset (sub info "f") (c_profile_bitset contact).

(** The setters of one member: [get_or_construct], change, [set] *)
Definition contacts_update (bchat_id : bytes) (f : contact_info → result contact_info) : M ConfigBase () :=
  b ← mget;
  c ← lift (contacts_get_or_construct bchat_id (data_of b));
  c ← lift (f c);
  contacts_set c.

Definition contacts_set_name (id name : bytes) : M ConfigBase () :=
  contacts_update id (λ c, Ok (contact_set_name name c)).
Definition contacts_set_nickname (id nickname : bytes) : M ConfigBase () :=
  contacts_update id (contact_set_nickname nickname).
Definition contacts_set_nickname_truncated (id nickname : bytes) : M ConfigBase () :=
  contacts_update id (contact_set_nickname_truncated nickname).
Definition contacts_set_profile_pic (id : bytes) (pic : profile_pic) : M ConfigBase () :=
  contacts_update id (λ c, Ok (mkContact (c_bchat_id c) (c_name c) (c_nickname c) pic
    (c_profile_updated c) (c_approved c) (c_approved_me c) (c_blocked c) (c_priority c) (c_notifications c)
    (c_mute_until c) (c_exp_mode c) (c_exp_timer c) (c_created c) (c_profile_bitset c))).
Definition contacts_set_profile_updated (id : bytes) (t : Z) : M ConfigBase () :=
  contacts_update id (λ c, Ok (mkContact (c_bchat_id c) (c_name c) (c_nickname c) (c_profile_picture c)
    t (c_approved c) (c_approved_me c) (c_blocked c) (c_priority c) (c_notifications c)
    (c_mute_until c) (c_exp_mode c) (c_exp_timer c) (c_created c) (c_profile_bitset c))).
Definition contacts_set_approved (id : bytes) (v : bool) : M ConfigBase () :=
  contacts_update id (λ c, Ok (mkContact (c_bchat_id c) (c_name c) (c_nickname c) (c_profile_picture c)
    (c_profile_updated c) v (c_approved_me c) (c_blocked c) (c_priority c) (c_notifications c)
    (c_mute_until c) (c_exp_mode c) (c_exp_timer c) (c_created c) (c_profile_bitset c))).
Definition contacts_set_approved_me (id : bytes) (v : bool) : M ConfigBase () :=
  contacts_update id (λ c, Ok (mkContact (c_bchat_id c) (c_name c) (c_nickname c) (c_profile_picture c)
    (c_profile_updated c) (c_approved c) v (c_blocked c) (c_priority c) (c_notifications c)
    (c_mute_until c) (c_exp_mode c) (c_exp_timer c) (c_created c) (c_profile_bitset c))).
Definition contacts_set_blocked (id : bytes) (v : bool) : M ConfigBase () :=
  contacts_update id (λ c, Ok (mkContact (c_bchat_id c) (c_name c) (c_nickname c) (c_profile_picture c)
    (c_profile_updated c) (c_approved c) (c_approved_me c) v (c_priority c) (c_notifications c)
    (c_mute_until c) (c_exp_mode c) (c_exp_timer c) (c_created c) (c_profile_bitset c))).
Definition contacts_set_priority (id : bytes) (p : Z) : M ConfigBase () :=
  contacts_update id (λ c, Ok (mkContact (c_bchat_id c) (c_name c) (c_nickname c) (c_profile_picture c)
    (c_profile_updated c) (c_approved c) (c_approved_me c) (c_blocked c) p (c_notifications c)
    (c_mute_until c) (c_exp_mode c) (c_exp_timer c) (c_created c) (c_profile_bitset c))).
Definition contacts_set_notifications (id : bytes) (m : notify_mode) : M ConfigBase () :=
  contacts_update id (λ c, Ok (mkContact (c_bchat_id c) (c_name c) (c_nickname c) (c_profile_picture c)
    (c_profile_updated c) (c_approved c) (c_approved_me c) (c_blocked c) (c_priority c) m
    (c_mute_until c) (c_exp_mode c) (c_exp_timer c) (c_created c) (c_profile_bitset c))).
Definition contacts_set_expiry (id : bytes) (mode : expiration_mode) (timer : Z) : M ConfigBase () :=
  contacts_update id (λ c, Ok (mkContact (c_bchat_id c) (c_name c) (c_nickname c) (c_profile_picture c)
    (c_profile_updated c) (c_approved c) (c_approved_me c) (c_blocked c) (c_priority c) (c_notifications c)
    (c_mute_until c) mode (if decide (mode = none) then 0 else timer) (c_created c) (c_profile_bitset c))).
Definition contacts_set_created (id : bytes) (t : Z) : M ConfigBase () :=
  contacts_update id (λ c, Ok (mkContact (c_bchat_id c) (c_name c) (c_nickname c) (c_profile_picture c)
    (c_profile_updated c) (c_approved c) (c_approved_me c) (c_blocked c) (c_priority c) (c_notifications c)
    (c_mute_until c) (c_exp_mode c) (c_exp_timer c) (to_epoch_seconds t) (c_profile_bitset c))).
Definition contacts_set_pro_features (id : bytes) (features : Z) : M ConfigBase () :=
  contacts_update id (λ c, Ok (mkContact (c_bchat_id c) (c_name c) (c_nickname c) (c_profile_picture c)
    (c_profile_updated c) (c_approved c) (c_approved_me c) (c_blocked c) (c_priority c) (c_notifications c)
    (c_mute_until c) (c_exp_mode c) (c_exp_timer c) (c_created c) features)).

(** [Contacts::erase]: whether something was there *)
Definition contacts_erase (bchat_id : bytes) : M ConfigBase bool :=
  pk ← lift (bchat_id_to_bytes bchat_id "05");
  b ← mget;
  let ret := field_exists (contact_path pk) (data_of b) in
  erase_field (contact_path pk);;
  mret ret.

Definition contacts_size (d : dict) : Z :=
  match field_dict (root "c") d with Some c => Z.of_nat (length c) | None => 0 end.

(** The iterator from [begin()] to [end()]: entries that are not a 33-byte key
    with a dictionary are skipped; the id of the others is checked by the
    constructor of the contact, whose exception leaves the loop *)
Fixpoint contacts_from (entries : dict) : result (list contact_info) :=
  match entries with
  | [] => Ok []
  | (k, v) :: rest =>
      match (if size k =? 33 then match v with DDict info => Some info | _ => None end else None) with
      | Some info =>
          c ← new_contact (to_hex k);
          l ← contacts_from rest;
          Ok (contact_load info c :: l)
      | None => contacts_from rest
      end
  end.

Definition contacts_all (d : dict) : result (list contact_info) :=
  contacts_from (default [] (field_dict (root "c") d)).
End contacts.

(** ** What a record holds after it has been written *)

(** The members [contacts_set] writes, in its order; [fo] is the set of
    profile features stored before *)
Definition contact_fields (c : contact_info) (fo : option config_set) : list (bytes * option dict_value) :=
  let pic := negb (pic_empty (c_profile_picture c)) in
  let exp := negb (bool_decide (c_exp_mode c = none)) && (0 <? c_exp_timer c) in
  [("n", Some (str_value (stake MAX_NAME_LENGTH (c_name c))));
   ("N", nonempty_value (stake MAX_NAME_LENGTH (c_nickname c)));
   ("p", value_if pic (str_value (pic_url (c_profile_picture c))));
   ("q", value_if pic (str_value (pic_key (c_profile_picture c))));
   ("t", positive_value (c_profile_updated c));
   ("a", flag_value (c_approved c));
   ("A", flag_value (c_approved_me c));
   ("b", flag_value (c_blocked c));
   ("+", nonzero_value (c_priority c));
   ("@", positive_value (notify_int (if decide (c_notifications c = mentions_only) then all
                                     else c_notifications c)));
   ("!", positive_value (to_epoch_seconds (c_mute_until c)));
   ("e", value_if exp (int_value (exp_int (c_exp_mode c))));
   ("E", value_if exp (int_value (c_exp_timer c)));
   ("j", positive_value (to_epoch_seconds (c_created c)));
   ("f", bits_field (c_profile_bitset c) fo)].

(** The contact as it reads back: names cut to 100 bytes, an incomplete
    picture dropped, negative times as none, an expiry with a mode and a
    positive 32-bit timer or none *)
Definition stored_expiry (m : expiration_mode) (t : Z) : expiration_mode * Z :=
  if decide (m = none) then (none, 0)
  else if (0 <? t) && (0 <? to_int32 t) then (m, to_int32 t) else (none, 0).

Definition stored_contact (c : contact_info) : contact_info :=
  mkContact (c_bchat_id c)
    (stake MAX_NAME_LENGTH (c_name c))
    (stake MAX_NAME_LENGTH (c_nickname c))
    (if pic_empty (c_profile_picture c) then no_pic else c_profile_picture c)
    (Z.max 0 (c_profile_updated c))
    (c_approved c) (c_approved_me c) (c_blocked c)
    (c_priority c)
    (if decide (c_notifications c = mentions_only) then all else c_notifications c)
    (to_epoch_seconds (Z.max 0 (to_epoch_seconds (c_mute_until c))))
    (stored_expiry (c_exp_mode c) (c_exp_timer c)).1
    (stored_expiry (c_exp_mode c) (c_exp_timer c)).2
    (to_epoch_seconds (Z.max 0 (to_epoch_seconds (c_created c))))
    (c_profile_bitset c).

(** The members have the values their C++ types can hold. *)
Definition contact_typed (c : contact_info) : bool :=
  in_int64 (c_profile_updated c) && in_int32 (c_priority c) && in_int64 (c_mute_until c) &&
  in_int64 (c_exp_timer c) && in_int64 (c_created c) &&
  (0 <=? c_profile_bitset c) && (c_profile_bitset c <? 2 ^ 64).

(** Values of the members of a contact that survive storing unchanged *)
Definition contact_normal (c : contact_info) : bool :=
  contact_typed c &&
  (String.length (c_name c) <=? MAX_NAME_LENGTH)%nat && (String.length (c_nickname c) <=? MAX_NAME_LENGTH)%nat &&
  (negb (pic_empty (c_profile_picture c)) ||
     (keqb (pic_url (c_profile_picture c)) "" && keqb (pic_key (c_profile_picture c)) "")) &&
  (0 <=? c_profile_updated c) && negb (bool_decide (c_notifications c = mentions_only)) &&
  (0 <=? c_mute_until c) && (c_mute_until c <=? 9000000000) &&
  (0 <=? c_created c) && (c_created c <=? 9000000000) &&
  (if decide (c_exp_mode c = none) then c_exp_timer c =? 0
   else (0 <? c_exp_timer c) && (c_exp_timer c <? 2 ^ 31)).

Lemma stored_contact_normal c : contact_normal c = true → stored_contact c = c.
Proof.
  unfold contact_normal. rewrite !andb_true_iff, !Nat.leb_le, !Z.leb_le, orb_true_iff.
  intros ((((((((((Ht & Hn) & HN) & Hp) & Hu) & Hno) & Hm) & Hm2) & Hc) & Hc2) & He).
  destruct c as [id nm nick [url key] upd ap apm bl prio no mute em et cr bits]. unfold stored_contact. simpl in *.
  rewrite !stake_all by done. rewrite (Z.max_r 0 upd) by done. rewrite !(to_epoch_seconds_small mute) by done.
  rewrite !(to_epoch_seconds_small cr) by done. rewrite (Z.max_r 0 mute), (Z.max_r 0 cr) by done.
  rewrite !to_epoch_seconds_small by done. apply negb_true_iff, bool_decide_eq_false in Hno.
  rewrite decide_False by done. f_equal.
  - destruct (pic_empty (mkPic url key)); [|done]. destruct Hp as [Hp|[Hp1 Hp2]%andb_true_iff]; [done|].
    by apply keqb_spec in Hp1 as ->, Hp2 as ->.
  - unfold stored_expiry. destruct (decide (em = none)) as [->|]; [done|].
    apply andb_true_iff in He as [He1%Z.ltb_lt He2%Z.ltb_lt].
    rewrite to_int32_id by lia. by rewrite (proj2 (Z.ltb_lt 0 et)).
  - unfold stored_expiry. destruct (decide (em = none)) as [->|]; [by apply Z.eqb_eq in He|].
    apply andb_true_iff in He as [He1%Z.ltb_lt He2%Z.ltb_lt].
    rewrite to_int32_id by lia. by rewrite (proj2 (Z.ltb_lt 0 et)).
Qed.

Lemma load_pic_find info p :
  mfind "p" info = value_if (negb (pic_empty p)) (str_value (pic_url p)) →
  mfind "q" info = value_if (negb (pic_empty p)) (str_value (pic_key p)) →
  load_pic info = if pic_empty p then no_pic else p.
Proof.
  intros Hp Hq. unfold load_pic, maybe_vector, maybe_string, maybe_scalar. rewrite Hp, Hq.
  destruct (pic_empty p) eqn:E; [done|]. simpl. unfold pic_empty in E.
  apply orb_false_iff in E as [-> ->%negb_false_iff]. by destruct p.
Qed.

Lemma load_notify_int m : load_notify (notify_int m) = if decide (m = mentions_only) then all else m.
Proof. by destruct m. Qed.

Lemma load_expiry_stored (m : expiration_mode) (t : Z) (e : bool) :
  e = negb (bool_decide (m = none)) && (0 <? t) →
  load_expiry (to_int32 (as_int (value_if e (int_value (exp_int m)))))
              (to_int32 (as_int (value_if e (int_value t)))) = stored_expiry m t.
Proof.
  intros ->. unfold stored_expiry. destruct (decide (m = none)) as [->|Hm]; [done|].
  rewrite bool_decide_false by done. simpl. destruct (0 <? t); [|done]. simpl as_int.
  assert (to_int32 (exp_int m) = exp_int m) as -> by by destruct m.
  unfold load_expiry. assert (exp_of (exp_int m) = Some m) as -> by by destruct m.
  rewrite Z.leb_antisym. destruct m; [done|..]; by destruct (0 <? to_int32 t).
Qed.

(** Loading a record with these members gives the stored contact. *)
Lemma contact_load_fields c fo info :
  contact_typed c = true →
  (∀ k o, assoc k (contact_fields c fo) = Some o → mfind k info = o) →
  contact_load info (blank_contact (c_bchat_id c)) = stored_contact c.
Proof.
  unfold contact_typed. rewrite !andb_true_iff, in_int32_spec, Z.leb_le, Z.ltb_lt.
  intros ((((((_ & Hprio) & _) & _) & _) & Hb1) & Hb2) Hf. unfold contact_load, stored_contact.
  rewrite (int_or_0_find info "e" _ (Hf "e" _ eq_refl)), (int_or_0_find info "E" _ (Hf "E" _ eq_refl)).
  rewrite load_expiry_stored by done. destruct (stored_expiry _ _) as [em et]. cbn [fst snd c_bchat_id blank_contact].
  rewrite (string_or_empty_find info "n" _ (Hf "n" _ eq_refl)), (string_or_empty_find info "N" _ (Hf "N" _ eq_refl)).
  rewrite (load_pic_find info _ (Hf "p" _ eq_refl) (Hf "q" _ eq_refl)).
  rewrite (ts_or_epoch_find info "t" _ (Hf "t" _ eq_refl)).
  rewrite (int_or_0_find info "a" _ (Hf "a" _ eq_refl)), (int_or_0_find info "A" _ (Hf "A" _ eq_refl)).
  rewrite (int_or_0_find info "b" _ (Hf "b" _ eq_refl)), (int_or_0_find info "+" _ (Hf "+" _ eq_refl)).
  rewrite (int_or_0_find info "@" _ (Hf "@" _ eq_refl)), (int_or_0_find info "!" _ (Hf "!" _ eq_refl)).
  rewrite (int_or_0_find info "j" _ (Hf "j" _ eq_refl)).
  rewrite (bits_field_load _ fo info _ (Hf "f" _ eq_refl)); [|lia|done].
  autorewrite with members. rewrite (to_int32_id (c_priority c)) by done. f_equal.
  destruct (c_notifications c); reflexivity.
Qed.

(** ** The writes *)
Section writes.
Context `{BtLib, Hash, Oxenc}.

Lemma notify_int_int64 m : in_int64 (notify_int m) = true.
Proof. by destruct m. Qed.
Lemma exp_int_int64 m : in_int64 (exp_int m) = true.
Proof. by destruct m. Qed.
#[local] Hint Resolve notify_int_int64 exp_int_int64 : edits.

(** The data after [contacts_set] *)
Lemma edits_contacts_set c d fo pk :
  dict_ok d = true → contact_typed c = true →
  bchat_id_to_bytes (c_bchat_id c) "05" = Ok pk →
  set_at (sub (contact_path pk) "f") d fo →
  edits d (contacts_set c) (put_members (contact_path pk) (contact_fields c fo) d).
Proof.
  intros Hd Hc Hid Hf. unfold contact_typed in Hc. rewrite !andb_true_iff in Hc.
  destruct Hc as ((((((Hu & Hp) & Hm) & Ht) & Hcr) & _) & _).
  eapply edits_lift; [exact Hid|]. cbv zeta. set (q := contact_path pk) in *.
  eapply edits_eq; [edit_record|reflexivity].
Qed.
End writes.

Section writes_again.
Context `{BtLib, Hash, Oxenc}.

Lemma contact_fields_nodup c fo : NoDup (contact_fields c fo).*1.
Proof. apply (bool_decide_unpack _); vm_compute; done. Qed.

Lemma quiet_contacts_set c d fo pk :
  bchat_id_to_bytes (c_bchat_id c) "05" = Ok pk →
  quiet (put_members (contact_path pk) (contact_fields c fo) d) (contacts_set c).
Proof.
  intros Hid. eapply quiet_lift; [exact Hid|]. cbv zeta. set (q := contact_path pk) in *.
  assert (∀ x o, assoc x (contact_fields c fo) = Some o →
    get_clean (sub q x) (put_members q (contact_fields c fo) d) = o) as Hf.
  { intros x o Hx. rewrite get_put_members by apply contact_fields_nodup. by rewrite Hx. }
  quiet_record; match goal with |- get_clean (sub _ ?k) _ = _ => exact (Hf k _ eq_refl) end.
Qed.
End writes_again.

(** ** Contacts as a map

    The abstract view: contacts by the bytes of their id. *)
Definition with_id (id : bytes) (c : contact_info) : contact_info :=
  mkContact id (c_name c) (c_nickname c) (c_profile_picture c) (c_profile_updated c) (c_approved c)
    (c_approved_me c) (c_blocked c) (c_priority c) (c_notifications c) (c_mute_until c) (c_exp_mode c)
    (c_exp_timer c) (c_created c) (c_profile_bitset c).

Definition contact_entry (k : bytes) (v : dict_value) : option contact_info :=
  match v with DDict info => Some (contact_load info (blank_contact (hex_digits k))) | _ => None end.

Definition contact_map (d : dict) : list (bytes * contact_info) :=
  map_entries contact_entry (default [] (field_dict (root "c") d)).

(** The entries of ["c"]: 33 bytes that start with 5, a dictionary, and no
    value but a set as its features *)
Definition contact_key_ok (k : bytes) : bool :=
  (size k =? 33) && bool_decide (front k = Some "005"%char).
Definition features_ok (info : dict) : bool :=
  match mfind "f" info with None | Some (DSet _) => true | _ => false end.
Definition contact_entry_ok (k : bytes) (v : dict_value) : bool :=
  contact_key_ok k && match v with DDict info => features_ok info | _ => false end.
Definition contacts_ok (d : dict) : Prop :=
  ∀ k v, get_clean (contact_path k) d = Some v → contact_entry_ok k v = true.

Section map.
Context `{BtLib, Hash, Oxenc, !OxencLaws}.

Lemma contact_load_with_id info id id' :
  contact_load info (blank_contact id') = with_id id' (contact_load info (blank_contact id)).
Proof. unfold contact_load. by destruct (load_expiry _ _). Qed.

Lemma id_key_ok id k : bchat_id_to_bytes id "05" = Ok k → contact_key_ok k = true.
Proof.
  intros Hk. destruct (bchat_id_bytes id "05" k eq_refl Hk) as [Hs Hh].
  unfold contact_key_ok. rewrite Hs. simpl. apply bool_decide_eq_true.
  apply bchat_id_to_bytes_Ok in Hk as [(_ & _ & r & ->)%valid_id_spec _].
  destruct k as [|c k]; [done|]. cbn [hex_digits] in Hh.
  change (make_lc ("05" +:+ r)) with (String "0" (String "5" (make_lc r))) in Hh.
  injection Hh as Hh1 Hh2 _. simpl. f_equal.
  assert (implb (Ascii.eqb (hex_digit (code c / 16)) "0" && Ascii.eqb (hex_digit (code c mod 16)) "5")
    (Ascii.eqb c "005") = true) as Hc.
  { match goal with |- ?t = true => let f := eval pattern c in t in
      lazymatch f with ?g _ => apply (all_bytes_spec g) end end. vm_compute. reflexivity. }
  rewrite Hh1, Hh2 in Hc. simpl in Hc. by apply Ascii.eqb_eq in Hc.
Qed.

Lemma key_new_contact k : contact_key_ok k = true → new_contact (to_hex k) = Ok (blank_contact (hex_digits k)).
Proof.
  unfold contact_key_ok. rewrite andb_true_iff, Z.eqb_eq, bool_decide_eq_true. intros [Hs Hf].
  unfold new_contact, check_bchat_id. rewrite to_hex_digits.
  assert (valid_id (hex_digits k) "05" = true) as ->; [|done].
  apply valid_id_spec. rewrite hex_digits_size, is_hex_digits, Hs. split_and!; [done..|].
  destruct k as [|c k]; [done|]. injection Hf as ->. by exists (hex_digits k).
Qed.

Lemma contacts_get_view id k d :
  bchat_id_to_bytes id "05" = Ok k → dict_ok d = true →
  contacts_get id d = Ok (with_id id <$> mfind k (contact_map d)).
Proof.
  intros Hk Hd. unfold contacts_get. rewrite Hk, bind_ret. unfold contact_map.
  rewrite map_entries_find, entry_find by by apply entries_sorted. unfold field_dict. fold (contact_path k).
  destruct (get_clean (contact_path k) d) as [[info| |]|]; simpl; try done.
  apply bchat_id_to_bytes_Ok in Hk as [Hv _]. unfold new_contact, check_bchat_id. rewrite Hv. simpl.
  by rewrite (contact_load_with_id info (hex_digits k) id).
Qed.

Lemma contact_set_at k d :
  contacts_ok d → ∃ fo, set_at (sub (contact_path k) "f") d fo.
Proof.
  intros Ho. unfold set_at. rewrite <-entry_find. unfold field_dict.
  destruct (get_clean (contact_path k) d) as [v|] eqn:E; [|by exists None].
  apply Ho in E. unfold contact_entry_ok, features_ok in E. apply andb_true_iff in E as [_ E].
  destruct v as [info| |]; [|done..]. simpl.
  destruct (mfind "f" info) as [[| |]|]; [done| |done|]; [by eexists (Some _)|by exists None].
Qed.

Lemma contact_path_other j k x :
  j ≠ k → independent (sub (contact_path k) x).1 (sub (contact_path k) x).2 (contact_path j).1 (contact_path j).2 = true.
Proof. apply record_other. Qed.

(** The record of a contact after its members were written *)
Lemma contact_written c fo k d :
  contact_typed c = true →
  let d' := put_members (contact_path k) (contact_fields c fo) d in
  ∃ info, get_clean (contact_path k) d' = Some (DDict info) ∧ features_ok info = true ∧
    contact_load info (blank_contact (hex_digits k)) = with_id (hex_digits k) (stored_contact c).
Proof.
  intros Hc d'.
  assert (is_Some (field_dict (contact_path k) d')) as [info Hinfo].
  { subst d'. unfold contact_fields. cbv zeta. apply field_dict_written. }
  exists info. split; [|].
  { unfold field_dict in Hinfo. by destruct (get_clean (contact_path k) d') as [[]|]; simplify_eq. }
  assert (∀ x o, assoc x (contact_fields c fo) = Some o → mfind x info = o) as Hf.
  { intros x o Hx. rewrite (member_find _ _ _ _ Hinfo). subst d'.
    rewrite get_put_members by apply contact_fields_nodup. by rewrite Hx. }
  split.
  - unfold features_ok. rewrite (Hf "f" _ eq_refl). unfold bits_field. by destruct (bits_value _ fo).
  - rewrite (contact_load_with_id info (c_bchat_id c)). f_equal. by apply contact_load_fields with fo.
Qed.

Lemma contacts_ok_other d d' k :
  contacts_ok d → (∀ j, j ≠ k → get_clean (contact_path j) d' = get_clean (contact_path j) d) →
  (∀ v, get_clean (contact_path k) d' = Some v → contact_entry_ok k v = true) → contacts_ok d'.
Proof.
  intros Ho Hother Hk j v Hj. destruct (decide (j = k)) as [->|Hne]; [by apply Hk|].
  rewrite Hother in Hj by done. by apply Ho.
Qed.

Lemma contacts_from_map e :
  (∀ k v, (k, v) ∈ e → contact_entry_ok k v = true) →
  contacts_from e = Ok (snd <$> map_entries contact_entry e).
Proof.
  induction e as [|[k v] e IH]; intros He; [done|].
  assert (contact_entry_ok k v = true) as Hk by (apply He; by left).
  unfold contact_entry_ok in Hk. apply andb_true_iff in Hk as [Hk Hv]. destruct v as [info| |]; [|done..].
  cbn [contacts_from]. assert (size k =? 33 = true) as -> by (by apply andb_true_iff in Hk as [? _]).
  rewrite key_new_contact, bind_ret, IH by (done || intros; apply He; by right). done.
Qed.

(** C9 (contacts refine a map).  On well-typed contacts data, the operations of
    the contacts config are those of a sorted map from the 33 bytes of an id to
    the contact: [get] looks up (and gives the id as the caller wrote it),
    [set] inserts the contact in the form it is stored in, [erase] deletes and
    says whether it was there, [size] counts, and the iterator visits all
    contacts in key order without an exception. *)
Theorem contacts_refine_map (b : ConfigBase) (id k : bytes) (c : contact_info) :
  writable b → contacts_ok (data_of b) → bchat_id_to_bytes id "05" = Ok k →
  c_bchat_id c = id → contact_typed c = true →
  let m := contact_map (data_of b) in
  contacts_get id (data_of b) = Ok (with_id id <$> mfind k m) ∧
  (∃ b', contacts_set c b = (Ok tt, b') ∧ writable b' ∧ contacts_ok (data_of b') ∧
     contact_map (data_of b') = minsert k (with_id (make_lc id) (stored_contact c)) m) ∧
  (∃ b', contacts_erase id b = (Ok (is_some (mfind k m)), b') ∧ writable b' ∧ contacts_ok (data_of b') ∧
     contact_map (data_of b') = merase k m) ∧
  contacts_size (data_of b) = Z.of_nat (length m) ∧
  contacts_all (data_of b) = Ok (snd <$> m).
Proof.
  intros Hb Ho Hk <- Hc m. pose proof (writable_data _ Hb) as Hd.
  destruct (bchat_id_bytes _ "05" _ eq_refl Hk) as [_ Hhex].
  assert (∀ x v, (x, v) ∈ default [] (field_dict (root "c") (data_of b)) → contact_entry_ok x v = true) as Hall.
  { intros x v Hin. apply Ho. unfold contact_path. rewrite <-entry_find. apply mfind_In; [|done].
    by apply entries_sorted. }
  split_and!.
  - by apply contacts_get_view.
  - destruct (contact_set_at k _ Ho) as [fo Hfo].
    destruct (edits_contacts_set c _ fo k Hd Hc Hk Hfo b Hb eq_refl) as ([] & b' & E & Hb' & Hd' & _).
    destruct (contact_written c fo k (data_of b) Hc) as (info & Hinfo & Hfeat & Hload). rewrite <-Hd' in Hinfo.
    assert (∀ j, j ≠ k → get_clean (contact_path j) (data_of b') = get_clean (contact_path j) (data_of b)) as Hother.
    { intros j Hj. rewrite Hd'. apply get_put_members_other. intros x. by apply contact_path_other. }
    exists b'. split_and!; [done..| |].
    + apply (contacts_ok_other (data_of b) _ k); [done..|]. intros v Hv. rewrite Hinfo in Hv. simplify_eq.
      unfold contact_entry_ok. by rewrite (id_key_ok _ _ Hk).
    + apply map_entries_insert; [done|by apply writable_data|done|]. fold (contact_path k). rewrite Hinfo. simpl.
      by rewrite Hload, Hhex.
  - destruct (edits_erase (contact_path k) _ Hd b Hb eq_refl) as ([] & b' & E & Hb' & Hd' & _).
    assert (∀ j, j ≠ k → get_clean (contact_path j) (data_of b') = get_clean (contact_path j) (data_of b)) as Hother.
    { intros j Hj. rewrite Hd'. apply get_put_other, independent_members. done. }
    assert (get_clean (contact_path k) (data_of b') = None) as Hnone by (rewrite Hd'; apply get_put_same).
    exists b'. split_and!; [|done| |].
    + unfold contacts_erase. rewrite Hk, run_lift, run_mget. cbv zeta. rewrite run_bind, E.
      subst m. unfold contact_map. rewrite map_entries_find, entry_find by by apply entries_sorted.
      fold (contact_path k). unfold field_exists. destruct (get_clean (contact_path k) (data_of b)) as [v|] eqn:Ev; [|done].
      apply Ho in Ev. unfold contact_entry_ok in Ev. apply andb_true_iff in Ev as [_ Ev]. by destruct v.
    + apply (contacts_ok_other (data_of b) _ k); [done..|]. intros v Hv. congruence.
    + apply map_entries_erase; [done|by apply writable_data|done|done].
  - subst m. unfold contact_map, contacts_size. rewrite map_entries_length; [by destruct (field_dict _ _)|].
    intros x v Hin%Hall. unfold contact_entry_ok in Hin. apply andb_true_iff in Hin as [_ Hin]. destruct v; eauto; done.
  - by apply contacts_from_map.
Qed.

(** (contact round trip).  Storing a contact and reading it back gives the
    contact in its stored form, which is the contact itself when its members
    are in normal form; and storing it again does not make dirty a config that
    holds the same data and is not dirty. *)
Theorem contact_roundtrip (b : ConfigBase) (c : contact_info) (k : bytes) :
  writable b → contacts_ok (data_of b) → bchat_id_to_bytes (c_bchat_id c) "05" = Ok k →
  contact_typed c = true →
  ∃ b', contacts_set c b = (Ok tt, b') ∧
    contacts_get (c_bchat_id c) (data_of b') = Ok (Some (stored_contact c)) ∧
    (contact_normal c = true → stored_contact c = c) ∧
    (∀ b2, is_dirty b2 = false → data_of b2 = data_of b' → contacts_set c b2 = (Ok tt, b2)).
Proof.
  intros Hb Ho Hk Hc. destruct (contact_set_at k _ Ho) as [fo Hfo].
  destruct (edits_contacts_set c _ fo k (writable_data _ Hb) Hc Hk Hfo b Hb eq_refl)
    as ([] & b' & E & Hb' & Hd' & _).
  exists b'. split_and!; [done| |apply stored_contact_normal|].
  2: { intros b2 Hb2 Hd2. rewrite Hd' in Hd2.
       destruct (quiet_contacts_set c (data_of b) fo k Hk b2 Hb2 Hd2) as [[] Hq]. exact Hq. }
  destruct (contact_written c fo k (data_of b) Hc) as (info & Hinfo & _ & Hload). rewrite <-Hd' in Hinfo.
  rewrite (contacts_get_view _ k) by (done || by apply writable_data). unfold contact_map.
  rewrite map_entries_find, entry_find by by apply entries_sorted, writable_data.
  fold (contact_path k). rewrite Hinfo. simpl. by rewrite Hload.
Qed.
End map.

(** An entry under a 33-byte key that is not an id of prefix 05 is not skipped:
    the iterator throws. *)
Lemma contacts_iterator_throws : contacts_all [("c", DDict [(zeros 33, DDict [])])] = Throw invalid_argument.
Proof. vm_compute. reflexivity. Qed.

(** ** Examples *)
Definition sample_contact : contact_info :=
  mkContact sample_id "Joe" "J" no_pic 0 true false false 3 all 0 after_send 60 1700000000 5.

Lemma contacts_ok_new : contacts_ok (data_of new_config).
Proof. intros k v Hv. vm_compute in Hv. discriminate Hv. Qed.

Lemma contacts_refine_map_witness :
  ∃ b', contacts_set sample_contact new_config = (Ok tt, b') ∧
    contact_map (data_of b') = [(unhex sample_id, with_id (make_lc sample_id) sample_contact)].
Proof.
  destruct (contacts_refine_map new_config sample_id (unhex sample_id) sample_contact writable_new contacts_ok_new)
    as (_ & (b' & E & _ & _ & Hm) & _); [vm_compute; reflexivity..|].
  exists b'. split; [exact E|]. rewrite Hm. vm_compute. reflexivity.
Defined.

Lemma contact_roundtrip_witness :
  ∃ b', contacts_set sample_contact new_config = (Ok tt, b') ∧
    contacts_get sample_id (data_of b') = Ok (Some sample_contact).
Proof.
  destruct (contact_roundtrip new_config sample_contact (unhex sample_id) writable_new contacts_ok_new)
    as (b' & E & Hg & Hn & _); [vm_compute; reflexivity..|].
  exists b'. split; [exact E|]. rewrite Hn in Hg by (vm_compute; reflexivity). exact Hg.
Defined.
