(* ===== verification/BlindedContacts.v ===== *)
(** * Blinded contacts

    The second half of [src/config/contacts.cpp]: contacts known by a blinded
    id, kept per community server under ["b"], with the id without its prefix
    in the place of the room. *)

From Stdlib Require Import ZArith String Ascii Lia.
From stdpp Require Import base option list strings numbers sorting sets.
From S2P Require Import Prelude OrderedMap Bt Bencode Crypto ConfigData ConfigMessage State Util ConfigBase ConfigState ConfigLifecycle ConfigFields Text Ids Community Records Contacts.

#[local] Arguments stake : simpl never.
#[local] Arguments MAX_NAME_LENGTH : simpl never.

Record blinded_contact_info := mkBlinded {
  bc_comm : community;
  bc_name : bytes;
  bc_profile_picture : profile_pic;
  bc_profile_updated : Z;
  bc_priority : Z;
  bc_legacy_blinding : bool;
  bc_created : Z;
  bc_profile_bitset : Z;
}.

Definition blank_blinded (comm : community) (legacy : bool) : blinded_contact_info :=
  mkBlinded comm "" no_pic 0 0 legacy 0 0.

Definition blinded_bchat_id (bc : blinded_contact_info) : bytes :=
  (if bc_legacy_blinding bc then "15" else "25") +:+ room (bc_comm bc).

(** [blinded_contact_info::load] *)
Definition blinded_load (info : dict) (bc : blinded_contact_info) : blinded_contact_info :=
  mkBlinded (bc_comm bc)
    (string_or_empty info "n")
    (load_pic info)
    (ts_or_epoch info "t")
    (to_int32 (int_or_0 info "+"))
    (negb (int_or_0 info "y" =? 0))
    (ts_or_epoch info "j")
    (match maybe_set info "f" with
     | Some s => bitset_from_set_of_int64_or_0 s
     | None => bc_profile_bitset bc
     end).

Definition blinded_set_name (n : bytes) (bc : blinded_contact_info) : blinded_contact_info :=
  mkBlinded (bc_comm bc)
    (if (MAX_NAME_LENGTH <? String.length n)%nat then utf8_truncate n MAX_NAME_LENGTH else n)
    (bc_profile_picture bc) (bc_profile_updated bc) (bc_priority bc) (bc_legacy_blinding bc)
    (bc_created bc) (bc_profile_bitset bc).

Section blinded.
Context `{BtLib, Hash, Oxenc}.

(** [blinded_contact_info(community_base_url, community_pubkey, blinded_id)] *)
Definition new_blinded (url pk blinded_id : bytes) : result blinded_contact_info :=
  _ ← require (2 <=? size blinded_id) out_of_range;
  comm ← community_with_pubkey url (sdrop 2 blinded_id) pk;
  prefix ← get_bchat_id_prefix blinded_id;
  _ ← require (bool_decide (prefix = community_blinded) || bool_decide (prefix = community_blinded_legacy))
        invalid_argument;
  Ok (blank_blinded comm (bool_decide (prefix = community_blinded_legacy))).

(** [set_room] of a blinded contact: 64 hex digits *)
Definition blinded_set_room (r : bytes) (c : community) : result community :=
  _ ← require ((size r =? 64) && is_hex r) invalid_argument;
  set_room r c.

(** What [comm_iterator_helper::load] does with a room *)
Definition load_blinded (server r pk : bytes) (info : dict) : result blinded_contact_info :=
  c ← set_base_url server empty_community;
  c ← blinded_set_room r c;
  c ← set_pubkey pk c;
  Ok (blinded_load info (blank_blinded c false)).

(** [Contacts::blinded_contact_field] *)
Definition blinded_contact_field (bc : blinded_contact_info) : path :=
  sub (sub (sub (root "b") (base_url (bc_comm bc))) "R") (room (bc_comm bc)).

(** [Contacts::blinded] *)
Definition contacts_blinded (d : dict) : result (list blinded_contact_info) :=
  match field_dict (root "b") d with
  | Some servers =>
      comm_all load_blinded (S (length (communities load_blinded servers))) (mkCommIter (Some servers) None)
  | None => Ok []
  end.

(** [Contacts::get_blinded]: the first contact with the id *)
Fixpoint find_blinded (fuel : nat) (id : bytes) (it : comm_iterator_helper)
    : result (option blinded_contact_info) :=
  if comm_done it then Ok None else
  match fuel with
  | O => Throw out_of_fuel
  | S fuel =>
      let '(c, it) := comm_load load_blinded it in
      match c with
      | Some c => if keqb (blinded_bchat_id c) id then Ok (Some c) else find_blinded fuel id (comm_advance it)
      | None => find_blinded fuel id (comm_advance it)
      end
  end.

Definition contacts_get_blinded (id : bytes) (d : dict) : result (option blinded_contact_info) :=
  _ ← get_bchat_id_prefix id;
  match field_dict (root "b") d with
  | Some servers =>
      find_blinded (S (length (communities load_blinded servers))) id (mkCommIter (Some servers) None)
  | None => Ok None
  end.

Definition contacts_get_or_construct_blinded (url pk_hex id : bytes) (d : dict)
    : result blinded_contact_info :=
  maybe ← contacts_get_blinded id d;
  match maybe with Some c => Ok c | None => new_blinded url (from_hex pk_hex) id end.

(** [Contacts::set_blinded] *)
Definition contacts_set_blinded (bc : blinded_contact_info) : M ConfigBase () :=
  assign_str (sub (sub (root "b") (base_url (bc_comm bc))) "#") (pubkey (bc_comm bc));;
  let info := blinded_contact_field bc in
  assign_str (sub info "n") (stake MAX_NAME_LENGTH (bc_name bc));;
  set_pair_if (negb (pic_empty (bc_profile_picture bc)))
    (sub info "p") (str_value (pic_url (bc_profile_picture bc)))
    (sub info "q") (str_value (pic_key (bc_profile_picture bc)));;
  set_positive_int (sub info "t") (bc_profile_updated bc);;
  set_nonzero_int (sub info "+") (bc_priority bc);;
  set_positive_int (sub info "y") (if bc_legacy_blinding bc then 1 else 0);;
  set_positive_int (sub info "j") (bc_created bc);;
  set_int64_set_from_bitset (sub info "f") (bc_profile_bitset bc).

(** [Contacts::erase_blinded] *)
Definition contacts_erase_blinded (url blinded_id : bytes) : M ConfigBase bool :=
  prefix ← lift (get_bchat_id_prefix blinded_id);
  guard_ (bool_decide (prefix = community_blinded) || bool_decide (prefix = community_blinded_legacy))
    invalid_argument;;
  base ← lift (canonical_url url);
  let info := sub (sub (sub (root "b") base) "R") (sdrop 2 blinded_id) in
  b ← mget;
  let ret := field_exists info (data_of b) in
  erase_field info;;
  mret ret.

(** The id [blinded_contact_info::into] writes into the C struct: two digits of
    prefix, then 64 bytes copied from [bchat_id()], which has the prefix too *)
Definition into_bchat_id (bc : blinded_contact_info) : bytes :=
  (if bc_legacy_blinding bc then "15" else "25") +:+ stake 64 (blinded_bchat_id bc).

(** ** Finding what was stored *)
Lemma find_blinded_spec fuel id it :
  (length (remaining load_blinded it) < fuel)%nat →
  find_blinded fuel id it = Ok (List.find (λ c, keqb (blinded_bchat_id c) id) (remaining load_blinded it)).
Proof.
  revert it; induction fuel as [|fuel IH]; intros it Hf; [lia|]. cbn [find_blinded].
  destruct (comm_done it) eqn:Ed.
  { unfold comm_done in Ed. unfold remaining. by destruct (it_server it) as [[]|]. }
  destruct it as [[servers|] rooms]; [|done]. unfold comm_load. simpl it_server. simpl it_room.
  pose proof (load_server_spec load_blinded servers rooms) as Hl.
  destruct (load_server load_blinded servers rooms) as [[c|] it].
  - destruct Hl as [Hl _]. rewrite Hl in *. simpl in Hf. cbn [List.find].
    destruct (keqb (blinded_bchat_id c) id); [done|]. by rewrite IH by lia.
  - destruct Hl as [-> Hn].
    assert (comm_done (comm_advance it) = true) as Hd.
    { unfold comm_done, comm_advance. destruct (it_room it); simpl; rewrite Hn; simpl; by rewrite ?Hn. }
    destruct fuel; cbn [find_blinded]; by rewrite Hd.
Qed.

Lemma remaining_all (servers : dict) :
  remaining load_blinded (mkCommIter (Some servers) None) = communities load_blinded servers.
Proof. by destruct servers as [|[]]. Qed.

(** The members [contacts_set_blinded] writes to the record *)
Definition blinded_fields (bc : blinded_contact_info) (fo : option config_set) : list (bytes * option dict_value) :=
  let pic := negb (pic_empty (bc_profile_picture bc)) in
  [("n", Some (str_value (stake MAX_NAME_LENGTH (bc_name bc))));
   ("p", value_if pic (str_value (pic_url (bc_profile_picture bc))));
   ("q", value_if pic (str_value (pic_key (bc_profile_picture bc))));
   ("t", positive_value (bc_profile_updated bc));
   ("+", nonzero_value (bc_priority bc));
   ("y", positive_value (if bc_legacy_blinding bc then 1 else 0));
   ("j", positive_value (bc_created bc));
   ("f", bits_field (bc_profile_bitset bc) fo)].

Lemma blinded_fields_nodup bc fo : NoDup (blinded_fields bc fo).*1.
Proof. apply (bool_decide_unpack _); vm_compute; done. Qed.

(** The contact as it reads back *)
Definition stored_blinded (bc : blinded_contact_info) : blinded_contact_info :=
  mkBlinded (bc_comm bc) (stake MAX_NAME_LENGTH (bc_name bc))
    (if pic_empty (bc_profile_picture bc) then no_pic else bc_profile_picture bc)
    (Z.max 0 (bc_profile_updated bc)) (bc_priority bc) (bc_legacy_blinding bc)
    (Z.max 0 (bc_created bc)) (bc_profile_bitset bc).

Definition blinded_typed (bc : blinded_contact_info) : bool :=
  in_int64 (bc_profile_updated bc) && in_int32 (bc_priority bc) && in_int64 (bc_created bc) &&
  (0 <=? bc_profile_bitset bc) && (bc_profile_bitset bc <? 2 ^ 64).

(** A community as the constructor of a blinded contact builds it *)
Definition blinded_comm (bc : blinded_contact_info) : Prop :=
  ∃ url r pk, size r = 64 ∧ is_hex r = true ∧ community_with_pubkey url r pk = Ok (bc_comm bc).

Lemma blinded_load_fields bc fo info :
  blinded_typed bc = true → (∀ k o, assoc k (blinded_fields bc fo) = Some o → mfind k info = o) →
  blinded_load info (blank_blinded (bc_comm bc) false) = stored_blinded bc.
Proof.
  unfold blinded_typed. rewrite !andb_true_iff, in_int32_spec, Z.leb_le, Z.ltb_lt.
  intros ((((_ & Hprio) & _) & Hb1) & Hb2) Hf. unfold blinded_load, stored_blinded.
  rewrite (string_or_empty_find info "n" _ (Hf "n" _ eq_refl)).
  rewrite (load_pic_find info _ (Hf "p" _ eq_refl) (Hf "q" _ eq_refl)).
  rewrite (ts_or_epoch_find info "t" _ (Hf "t" _ eq_refl)), (ts_or_epoch_find info "j" _ (Hf "j" _ eq_refl)).
  rewrite (int_or_0_find info "+" _ (Hf "+" _ eq_refl)), (int_or_0_find info "y" _ (Hf "y" _ eq_refl)).
  rewrite (bits_field_load _ fo info _ (Hf "f" _ eq_refl)); [|lia|done].
  autorewrite with members. rewrite to_int32_id by done. cbn [bc_comm blank_blinded as_str str_value].
  f_equal. by destruct (bc_legacy_blinding bc).
Qed.

(** A community the constructor built is rebuilt from its parts. *)
Lemma load_blinded_comm bc info :
  blinded_comm bc →
  load_blinded (base_url (bc_comm bc)) (room (bc_comm bc)) (pubkey (bc_comm bc)) info =
    Ok (blinded_load info (blank_blinded (bc_comm bc) false)).
Proof.
  intros (url & r & pk & Hs & Hh & Hc). unfold community_with_pubkey, new_community, set_base_url in Hc.
  apply bind_Ok in Hc as (c1 & Hc1 & Hc). apply bind_Ok in Hc1 as (c0 & Hc0 & Hc1).
  apply bind_Ok in Hc0 as (u & Hu & Hc0). injection Hc0 as <-.
  unfold set_room in Hc1. apply bind_Ok in Hc1 as (rm & Hr & Hc1). injection Hc1 as <-.
  unfold set_pubkey in Hc. apply bind_Ok in Hc as ([] & Hp & Hc). injection Hc as Hc. rewrite <-Hc.
  destruct (canonical_url_Ok _ _ Hu) as (proto & host & port & Hn & -> & Hsz).
  unfold load_blinded, set_base_url. simpl base_url. rewrite canonical_url_normal by done. rewrite !bind_ret.
  match goal with |- context [blinded_set_room ?x _] => change x with r end.
  unfold blinded_set_room. rewrite Hs, Hh. change (require ((64 =? 64) && true) invalid_argument) with (Ok tt). rewrite bind_ret.
  unfold set_room. rewrite Hr, !bind_ret. unfold set_pubkey. simpl pubkey. rewrite Hp. done.
Qed.

(** The iteration reaches every record that loads. *)
Lemma communities_elem servers server info pk rooms r rec c :
  mfind server servers = Some (DDict info) → server_pubkey info = Some pk → server_rooms info = Some rooms →
  mfind r rooms = Some (DDict rec) → load_blinded server r pk rec = Ok c →
  c ∈ communities load_blinded servers.
Proof.
  intros Hs Hp Hr Hrec Hc. apply mfind_Some_In in Hs, Hrec. unfold communities.
  apply list_elem_of_In, in_concat. exists (server_entries load_blinded (server, DDict info)). rewrite <-!list_elem_of_In. split; [by apply (list_elem_of_fmap_2 (server_entries load_blinded)) in Hs|].
  unfold server_entries. simpl. rewrite Hp, Hr. unfold room_entries. apply list_elem_of_omap.
  exists (r, DDict rec). split; [done|]. simpl. by rewrite Hc.
Qed.

(** The data after [contacts_set_blinded]: the key of the server, then the
    record *)
Lemma edits_set_blinded bc d fo :
  let server := sub (root "b") (base_url (bc_comm bc)) in
  dict_ok d = true → blinded_typed bc = true → set_at (sub (blinded_contact_field bc) "f") d fo →
  edits d (contacts_set_blinded bc)
    (put_members (blinded_contact_field bc) (blinded_fields bc fo)
       (put_opt (sub server "#") (Some (str_value (pubkey (bc_comm bc)))) d)).
Proof.
  intros server Hd Hc Hf. unfold blinded_typed in Hc. rewrite !andb_true_iff in Hc.
  destruct Hc as ((((Hu & Hp) & Hcr) & _) & _).
  assert (in_int64 (if bc_legacy_blinding bc then 1 else 0) = true) as Hl by by destruct (bc_legacy_blinding bc).
  assert (set_at (sub (blinded_contact_field bc) "f")
    (put_opt (sub server "#") (Some (str_value (pubkey (bc_comm bc)))) d) fo) as Hf2.
  { apply set_at_other; [|done]. unfold server, blinded_contact_field. simpl. by rewrite keqb_refl. }
  unfold contacts_set_blinded. cbv zeta. eapply edits_bind; [edit_one|intros _]. fold server.
  set (d1 := put_opt (sub server "#") _ d) in *.
  assert (dict_ok d1 = true) as Hd1 by by apply put_opt_dict_ok.
  clearbody d1. set (q := blinded_contact_field bc) in *. eapply edits_eq; [edit_record|reflexivity].
Qed.

Lemma field_dict_get p d e : field_dict p d = Some e ↔ get_clean p d = Some (DDict e).
Proof. unfold field_dict. destruct (get_clean p d) as [[]|]; naive_solver. Qed.

(** A dictionary below a path makes the path lead through dictionaries. *)
Lemma field_dict_above q k d e : field_dict (sub q k) d = Some e →
  ∃ o, field_dict q d = Some o ∧ mfind k o = Some (DDict e).
Proof.
  rewrite field_dict_get. rewrite <-entry_find. destruct (field_dict q d) as [o|]; simpl; [eauto|done].
Qed.

(** (blinded contacts are found again).  After a blinded contact is stored,
    the list of blinded contacts contains it in its stored form, and looking
    its id up finds a contact with that id: this one, unless another community
    has one with the same id. *)
Theorem blinded_stored_found (b : ConfigBase) (bc : blinded_contact_info) (fo : option config_set) :
  writable b → blinded_typed bc = true → blinded_comm bc →
  set_at (sub (blinded_contact_field bc) "f") (data_of b) fo →
  is_ok (get_bchat_id_prefix (blinded_bchat_id bc)) = true →
  ∃ b' l c, contacts_set_blinded bc b = (Ok tt, b') ∧
    contacts_blinded (data_of b') = Ok l ∧ stored_blinded bc ∈ l ∧
    contacts_get_blinded (blinded_bchat_id bc) (data_of b') = Ok (Some c) ∧
    blinded_bchat_id c = blinded_bchat_id bc ∧
    ((∀ x, x ∈ l → blinded_bchat_id x = blinded_bchat_id bc → x = stored_blinded bc) → c = stored_blinded bc).
Proof.
  intros Hb Hc Hcomm Hfo Hpre. set (q := blinded_contact_field bc) in *.
  destruct (edits_set_blinded bc (data_of b) fo (writable_data _ Hb) Hc Hfo b Hb eq_refl)
    as ([] & b' & E & Hb' & Hd' & _). fold q in Hd'.
  set (server := sub (root "b") (base_url (bc_comm bc))) in *. set (d1 := put_opt (sub server "#") _ _) in Hd'.
  assert (∃ rec, field_dict q (data_of b') = Some rec ∧
    blinded_load rec (blank_blinded (bc_comm bc) false) = stored_blinded bc) as (rec & Hrec & Hload).
  { destruct (field_dict_written q "n" (str_value (stake MAX_NAME_LENGTH (bc_name bc))) (tail (blinded_fields bc fo)) d1)
      as [rec Hrec]. change (_ :: tail (blinded_fields bc fo)) with (blinded_fields bc fo) in Hrec.
    rewrite <-Hd' in Hrec. exists rec. split; [done|]. apply blinded_load_fields with fo; [done|].
    intros k o Hk. rewrite (member_find _ _ _ _ Hrec), Hd', get_put_members by apply blinded_fields_nodup.
    by rewrite Hk. }
  destruct (field_dict_above _ _ _ _ Hrec) as (rooms & Hrooms & Hroom).
  destruct (field_dict_above _ _ _ _ Hrooms) as (info & Hinfo & HR).
  destruct (field_dict_above _ _ _ _ Hinfo) as (servers & Hservers & Hserver).
  assert (server_pubkey info = Some (pubkey (bc_comm bc))) as Hpk.
  { unfold server_pubkey. rewrite (member_find _ _ _ _ Hinfo), Hd'. fold server.
    rewrite get_put_members_other; [unfold d1; by rewrite get_put_same|].
    intros k. unfold q, blinded_contact_field, server. simpl. by rewrite !keqb_refl. }
  assert (stored_blinded bc ∈ communities load_blinded servers) as Hin.
  { apply (communities_elem servers (base_url (bc_comm bc)) info (pubkey (bc_comm bc)) rooms (room (bc_comm bc)) rec);
      [done|done| |done|].
    - unfold server_rooms. by rewrite HR.
    - by rewrite load_blinded_comm, Hload. }
  assert (blinded_bchat_id (stored_blinded bc) = blinded_bchat_id bc) as Hid by done.
  destruct (List.find (λ c, keqb (blinded_bchat_id c) (blinded_bchat_id bc)) (communities load_blinded servers))
    as [c|] eqn:Ef.
  2: { apply list_elem_of_In in Hin. pose proof (List.find_none _ _ Ef _ Hin) as Hn. cbv beta in Hn.
       by rewrite Hid, keqb_refl in Hn. }
  exists b', (communities load_blinded servers), c.
  destruct (List.find_some _ _ Ef) as [Hcin%list_elem_of_In Hck]. apply keqb_spec in Hck.
  split_and!; [done| |done| |done|eauto].
  - unfold contacts_blinded. rewrite Hservers. rewrite comm_all_spec; rewrite remaining_all; [done|lia].
  - unfold contacts_get_blinded. apply is_ok_inv in Hpre as [p ->]. rewrite bind_ret, Hservers.
    rewrite find_blinded_spec; rewrite remaining_all; [by rewrite Ef|lia].
Qed.

(** The id in the C struct is not the id of the contact: the prefix appears
    twice and the last two digits are lost. *)
Lemma into_bchat_id_wrong bc :
  size (room (bc_comm bc)) = 64 → blinded_bchat_id bc ≠ into_bchat_id bc ∨
    stake 2 (room (bc_comm bc)) = (if bc_legacy_blinding bc then "15" else "25").
Proof.
  intros Hs. unfold into_bchat_id, blinded_bchat_id.
  destruct (decide (stake 2 (room (bc_comm bc)) = (if bc_legacy_blinding bc then "15" else "25"))) as [?|Hne]; [by right|].
  left. intros Heq. apply Hne. unfold size in Hs.
  destruct (room (bc_comm bc)) as [|x [|y r]] eqn:Er; [done|done|].
  destruct (bc_legacy_blinding bc); by simplify_eq/=.
Qed.
End blinded.

(** ** Example *)
Definition sample_blinded : blinded_contact_info :=
  mkBlinded (mkCommunity "https://example.org" (hex_digits (zeros 32)) (Some (hex_digits (zeros 32))) (zeros 32))
    "Blinky" no_pic 0 0 true 1700000000 2.

Lemma sample_blinded_comm : blinded_comm sample_blinded.
Proof.
  exists "https://example.org", (hex_digits (zeros 32)), (zeros 32). split_and!; vm_compute; reflexivity.
Qed.

Lemma blinded_stored_found_witness :
  ∃ b' l, contacts_set_blinded sample_blinded new_config = (Ok tt, b') ∧
    contacts_blinded (data_of b') = Ok l ∧ sample_blinded ∈ l.
Proof.
  destruct (blinded_stored_found new_config sample_blinded None writable_new) as (b' & l & c & E & El & Hin & _);
    [vm_compute; reflexivity|exact sample_blinded_comm|vm_compute; reflexivity..|].
  exists b', l. split_and!; [exact E|exact El|].
  replace (stored_blinded sample_blinded) with sample_blinded in Hin by (vm_compute; reflexivity). exact Hin.
Defined.
