(* ===== verification/UserProfile.v ===== *)
(** * The user profile config

    [src/config/user_profile.cpp] and [src/config/pro.cpp]: the user's name,
    picture (and its re-uploaded copy), settings, and the proof of a Pro
    subscription.  [now] is the time in seconds that [ts_now()] returns. *)

From Stdlib Require Import ZArith String Ascii Lia.
From stdpp Require Import base option list strings numbers sorting sets.
From S2P Require Import Prelude OrderedMap Bt Bencode Crypto ConfigData ConfigMessage State Util ConfigBase ConfigState ConfigLifecycle ConfigFields Text Records Contacts.

(** ** The Pro proof *)
Record ProProof := mkProof {
  proof_version : Z;
  proof_gen_index_hash : bytes;
  proof_rotating_pubkey : bytes;
  proof_expiry_unix_ts : Z;
  proof_sig : bytes;
}.

Record ProConfig := mkPro { rotating_privkey : bytes; proof : ProProof }.

#[global] Instance ProProof_eq_dec : EqDecision ProProof.
Proof. solve_decision. Defined.
#[global] Instance ProConfig_eq_dec : EqDecision ProConfig.
Proof. solve_decision. Defined.

(** The conversion of an [int64_t] to [uint8_t] *)
Definition to_uint8 (z : Z) : Z := z mod 256.

Section profile.
Context `{BtLib, Hash, SeedKeypair}.

(** [ProConfig::load]: the config on success *)
Definition pro_load (root : dict) : option ProConfig :=
  match mfind "p" root with
  | Some (DDict p) =>
      match maybe_vector root "r" with
      | Some seed =>
          if negb (size seed =? 32) then None else
          match maybe_int p "@", maybe_vector p "g", maybe_vector p "s", maybe_ts_ms p "e" with
          | Some version, Some gen, Some sig, Some expiry =>
              if (size gen =? 32) && (size sig =? 64) then
                let '(pk, sk) := seed_keypair seed in
                Some (mkPro sk (mkProof (to_uint8 version) gen pk expiry sig))
              else None
          | _, _, _, _ => None
          end
      | None => None
      end
  | _ => None
  end.

(** ** The profile *)

(** The record whose time stamp is the later one: ["t"] or ["T"] *)
Definition use_primary (d : dict) : bool := integer_or (root "T") d 0 <=? integer_or (root "t") d 0.
Definition target_timestamp (d : dict) : path := root (if use_primary d then "t" else "T").
Definition touch (now : Z) : M ConfigBase () :=
  b ← mget; assign_int (target_timestamp (data_of b)) now.

Definition get_name (d : dict) : option bytes :=
  match field_string (root "n") d with
  | Some s => if size s =? 0 then None else Some s
  | None => None
  end.

Definition set_name (now : Z) (new_name : bytes) : M ConfigBase () :=
  guard_ (negb (MAX_NAME_LENGTH <? String.length new_name)%nat) invalid_argument;;
  b ← mget;
  if bool_decide (get_name (data_of b) = Some new_name) then skip else
  set_nonempty_str (root "n") new_name;;
  touch now.

Definition set_name_truncated (now : Z) (new_name : bytes) : M ConfigBase () :=
  set_name now (utf8_truncate new_name MAX_NAME_LENGTH).

Definition get_profile_pic (d : dict) : profile_pic :=
  let url_key := if use_primary d then "p" else "P" in
  let key_key := if use_primary d then "q" else "Q" in
  mkPic (match field_string (root url_key) d with Some u => u | None => "" end)
        (match field_string (root key_key) d with
         | Some k => if size k =? 32 then k else ""
         | None => ""
         end).

Definition set_reupload_profile_pic (now : Z) (url key : bytes) : M ConfigBase () :=
  b ← mget;
  let changed := negb (keqb (string_view_or (root "P") (data_of b) "") url) ||
                 negb (keqb (string_view_or (root "Q") (data_of b) "") key) in
  if negb changed then skip else
  set_pair_if (negb (size url =? 0) && (size key =? 32)) (root "P") (str_value url) (root "Q") (str_value key);;
  assign_int (root "T") now.

Definition set_profile_pic (now : Z) (url key : bytes) : M ConfigBase () :=
  b ← mget;
  let changed := negb (keqb (string_view_or (root "p") (data_of b) "") url) ||
                 negb (keqb (string_view_or (root "q") (data_of b) "") key) in
  if negb changed then skip else
  set_pair_if (negb (size url =? 0) && (size key =? 32)) (root "p") (str_value url) (root "q") (str_value key);;
  when ((size url =? 0) || negb (size key =? 32)) (set_reupload_profile_pic now "" "");;
  assign_int (root "t") now.

Definition set_nts_priority (priority : Z) : M ConfigBase () := set_nonzero_int (root "+") priority.
Definition get_nts_priority (d : dict) : Z := to_int32 (integer_or (root "+") d 0).
Definition set_nts_expiry (expiry : Z) : M ConfigBase () := set_positive_int (root "e") expiry.
Definition get_nts_expiry (d : dict) : option Z :=
  match field_integer (root "e") d with Some e => if 0 <? e then Some e else None | None => None end.

Definition set_blinded_msgreqs (now : Z) (value : option bool) : M ConfigBase () :=
  b ← mget;
  let current := if field_exists (root "M") (data_of b)
                 then Some (negb (integer_or (root "M") (data_of b) 0 =? 0)) else None in
  if bool_decide (current = value) then skip else
  match value with
  | None => erase_field (root "M")
  | Some v => assign_int (root "M") (if v then 1 else 0)
  end;;
  touch now.

Definition get_blinded_msgreqs (d : dict) : option bool :=
  match field_integer (root "M") d with Some v => Some (negb (v =? 0)) | None => None end.

Definition get_profile_updated (d : dict) : Z :=
  match field_integer (root "t") d with
  | Some t => match field_integer (root "T") d with
              | Some t' => if t <? t' then t' else t
              | None => t
              end
  | None => 0
  end.

Definition get_pro_config (d : dict) : option ProConfig :=
  match field_dict (root "s") d with Some s => pro_load s | None => None end.

Definition set_pro_config (now : Z) (pro : ProConfig) : M ConfigBase () :=
  b ← mget;
  if bool_decide (get_pro_config (data_of b) = Some pro) then skip else
  let root_ := root "s" in
  assign_str (sub root_ "r") (stake 32 (rotating_privkey pro));;
  let proof_dict := sub root_ "p" in
  assign_int (sub proof_dict "@") (proof_version (proof pro));;
  assign_str (sub proof_dict "g") (proof_gen_index_hash (proof pro));;
  assign_int (sub proof_dict "e") (proof_expiry_unix_ts (proof pro));;
  assign_str (sub proof_dict "s") (proof_sig (proof pro));;
  touch now.

Definition remove_pro_config : M ConfigBase bool :=
  b ← mget;
  let result := field_exists (root "s") (data_of b) in
  erase_field (root "s");;
  mret result.

Definition get_profile_bitset (d : dict) : Z :=
  match field_set (root "f") d with Some s => bitset_from_set_of_int64_or_0 s | None => 0 end.

Definition set_feature (now : Z) (feature : Z) (enabled : bool) : M ConfigBase () :=
  dirtied ← (if enabled then insert_if_missing (root "f") (inl feature)
             else set_erase_impl (root "f") (inl feature));
  when dirtied (touch now).
Definition set_pro_badge (now : Z) (enabled : bool) : M ConfigBase () := set_feature now 0 enabled.
Definition set_animated_avatar (now : Z) (enabled : bool) : M ConfigBase () := set_feature now 1 enabled.

Definition get_pro_access_expiry (d : dict) : option Z := field_integer (root "E") d.
Definition set_pro_access_expiry (ts : option Z) : M ConfigBase () :=
  match ts with Some t => assign_int (root "E") t | None => erase_field (root "E") end.

(** ** What the operations write *)
Lemma edits_touch d now :
  dict_ok d = true → in_int64 now = true →
  edits d (touch now) (put_opt (target_timestamp d) (Some (int_value now)) d).
Proof. intros Hd Hn. apply edits_mget. intros b ->. by apply edits_int. Qed.

Lemma field_integer_get p d : field_integer p d = match get_clean p d with Some (DScalar (inl z)) => Some z | _ => None end.
Proof. done. Qed.

(** Later than both time stamps *)
Definition not_before (now : Z) (d : dict) : Prop :=
  integer_or (root "t") d 0 ≤ now ∧ integer_or (root "T") d 0 ≤ now.

Lemma integer_or_same p z d : integer_or p (put_opt p (Some (int_value z)) d) 0 = z.
Proof. unfold integer_or, field_integer. by rewrite get_put_same. Qed.

Lemma integer_or_other p1 p2 o d :
  independent p1.1 p1.2 p2.1 p2.2 = true → integer_or p2 (put_opt p1 o d) 0 = integer_or p2 d 0.
Proof. intros Hi. unfold integer_or, field_integer. by rewrite get_put_other. Qed.

(** Touching keeps the record that is current. *)
Lemma touch_primary d d0 now :
  not_before now d0 → (∀ k, k = "t" ∨ k = "T" → get_clean (root k) d = get_clean (root k) d0) →
  use_primary (put_opt (target_timestamp d) (Some (int_value now)) d) = use_primary d0.
Proof.
  intros [Ht HT] Hk.
  assert (∀ k, k = "t" ∨ k = "T" → integer_or (root k) d 0 = integer_or (root k) d0 0) as Hi.
  { intros k Hk'. unfold integer_or, field_integer. by rewrite Hk. }
  assert (use_primary d = use_primary d0) as Hu by (unfold use_primary; rewrite !Hi; auto).
  unfold target_timestamp. rewrite Hu. destruct (use_primary d0) eqn:E.
  - unfold use_primary. rewrite integer_or_same, integer_or_other by done. apply Z.leb_le. rewrite Hi; auto.
  - unfold use_primary. rewrite integer_or_same, integer_or_other by done. rewrite Hi by auto.
    unfold use_primary in E. apply Z.leb_gt in E. apply Z.leb_gt. lia.
Qed.

Lemma target_other d k :
  k ≠ "t" → k ≠ "T" → independent (target_timestamp d).1 (target_timestamp d).2 (root k).1 (root k).2 = true.
Proof.
  intros Ht HT. unfold target_timestamp, root. simpl. apply negb_true_iff, not_true_iff_false.
  rewrite keqb_spec. destruct (use_primary d); naive_solver.
Qed.

Lemma get_profile_pic_same d d' :
  use_primary d' = use_primary d → (∀ k, k ∈ ["p"; "q"; "P"; "Q"] → get_clean (root k) d' = get_clean (root k) d) →
  get_profile_pic d' = get_profile_pic d.
Proof.
  intros Hu Hk. unfold get_profile_pic, field_string. rewrite Hu.
  destruct (use_primary d); by rewrite !Hk by set_solver.
Qed.

Lemma edits_set_name d now n :
  dict_ok d = true → in_int64 now = true → (String.length n ≤ MAX_NAME_LENGTH)%nat → get_name d ≠ Some n →
  let d1 := put_opt (root "n") (nonempty_value n) d in
  edits d (set_name now n) (put_opt (target_timestamp d1) (Some (int_value now)) d1).
Proof.
  intros Hd Hnow Hn Hg d1. unfold set_name.
  assert ((MAX_NAME_LENGTH <? String.length n)%nat = false) as -> by by apply Nat.ltb_ge.
  intros b Hb Hbd. rewrite run_guard. cbn [negb]. revert b Hb Hbd.
  apply edits_mget. intros b Hbd. rewrite Hbd, bool_decide_false by done.
  eapply edits_bind; [by apply edits_nonempty|]. intros _. apply edits_touch; [|done].
  apply put_opt_dict_ok; [done|apply opt_ok_nonempty].
Qed.

(** (profile name).  A name of at most 100 bytes is stored and read back (no
    name, if it is empty); a longer one is refused and changes nothing; setting
    the name that is there changes nothing; and as long as the clock does not
    go backwards, the picture shown stays the same. *)
Theorem profile_name (b : ConfigBase) (now : Z) (n : bytes) :
  writable b → in_int64 now = true →
  ((MAX_NAME_LENGTH < String.length n)%nat → set_name now n b = (Throw invalid_argument, b)) ∧
  (get_name (data_of b) = Some n → (String.length n ≤ MAX_NAME_LENGTH)%nat → set_name now n b = (Ok tt, b)) ∧
  ((String.length n ≤ MAX_NAME_LENGTH)%nat →
     ∃ b', set_name now n b = (Ok tt, b') ∧ writable b' ∧
       get_name (data_of b') = (if size n =? 0 then None else Some n) ∧
       (not_before now (data_of b) → get_profile_pic (data_of b') = get_profile_pic (data_of b))).
Proof.
  intros Hb Hnow. split_and!.
  - intros Hn. unfold set_name. rewrite run_guard. by rewrite (proj2 (Nat.ltb_lt _ _) Hn).
  - intros Hg Hn. unfold set_name. rewrite run_guard, (proj2 (Nat.ltb_ge _ _) Hn), run_mget. cbn [negb].
    by rewrite bool_decide_true.
  - intros Hn. destruct (decide (get_name (data_of b) = Some n)) as [Hg|Hg].
    { exists b. split_and!; [|done| |done].
      - unfold set_name. rewrite run_guard, (proj2 (Nat.ltb_ge _ _) Hn), run_mget. cbn [negb].
        by rewrite bool_decide_true.
      - rewrite Hg. unfold get_name in Hg. destruct (field_string _ _) as [s|]; [|done].
        destruct (size s =? 0) eqn:E; [done|]. injection Hg as ->. by rewrite E. }
    destruct (edits_set_name _ now n (writable_data _ Hb) Hnow Hn Hg b Hb eq_refl) as ([] & b' & E & Hb' & Hd & _).
    set (d1 := put_opt (root "n") (nonempty_value n) (data_of b)) in *.
    exists b'. split_and!; [done..| |].
    + unfold get_name, field_string. rewrite Hd, get_put_other by by apply target_other.
      unfold d1. rewrite get_put_same. unfold nonempty_value.
      destruct (size n =? 0) eqn:En; [done|]. simpl. by rewrite En.
    + intros Hnb. rewrite Hd. apply get_profile_pic_same.
      * apply touch_primary; [done|]. intros k [-> | ->]; by apply get_put_other.
      * intros k Hk. rewrite get_put_other; [apply get_put_other|apply target_other];
          repeat (apply elem_of_cons in Hk as [-> |Hk]; [done|]); by apply elem_of_nil in Hk.
Qed.

Lemma edits_reupload_clear d now :
  dict_ok d = true → in_int64 now = true →
  ∃ d', edits d (set_reupload_profile_pic now "" "") d' ∧ dict_ok d' = true ∧
    (∀ k, k = "p" ∨ k = "q" ∨ k = "t" → get_clean (root k) d' = get_clean (root k) d) ∧
    (integer_or (root "T") d' 0 = integer_or (root "T") d 0 ∨ integer_or (root "T") d' 0 = now).
Proof.
  intros Hd Hn. destruct (keqb (string_view_or (root "P") d "") "" && keqb (string_view_or (root "Q") d "") "") eqn:E.
  - exists d. split_and!; [|done|done|by left]. unfold set_reupload_profile_pic. apply edits_mget.
    intros b ->. cbv zeta. rewrite <-negb_andb, E. apply edits_ret.
  - exists (put_opt (root "T") (Some (int_value now)) (put_opt (root "Q") None (put_opt (root "P") None d))).
    split_and!.
    + unfold set_reupload_profile_pic. apply edits_mget. intros b ->. cbv zeta. rewrite <-negb_andb, E. cbn [negb].
      eapply edits_bind; [by apply edits_pair|]. intros _. apply edits_int; [|done].
      by repeat apply put_opt_dict_ok.
    + by repeat apply put_opt_dict_ok.
    + intros k [->|[->| ->]]; by rewrite !get_put_other.
    + right. apply integer_or_same.
Qed.

(** (profile picture).  Setting a picture that differs from the stored one,
    at a time not before the stored time stamps, makes it the picture of the
    profile; setting an incomplete one (no URL or no 32-byte key) leaves the
    profile without a picture, re-uploaded or not. *)
Theorem profile_picture (b : ConfigBase) (now : Z) (url key : bytes) :
  writable b → in_int64 now = true → not_before now (data_of b) →
  (string_view_or (root "p") (data_of b) "" ≠ url ∨ string_view_or (root "q") (data_of b) "" ≠ key) →
  ∃ b', set_profile_pic now url key b = (Ok tt, b') ∧ writable b' ∧
    get_profile_pic (data_of b') =
      if negb (size url =? 0) && (size key =? 32) then mkPic url key else no_pic.
Proof.
  intros Hb Hnow [Ht HT] Hch. pose proof (writable_data _ Hb) as Hd0.
  set (d0 := data_of b) in *. set (c := negb (size url =? 0) && (size key =? 32)).
  pose (d1 := put_opt (root "q") (value_if c (str_value key)) (put_opt (root "p") (value_if c (str_value url)) d0)).
  assert (dict_ok d1 = true) as Hd1.
  { unfold d1. apply put_opt_dict_ok; [apply put_opt_dict_ok; [done|]|]; apply opt_ok_if_str. }
  assert (∃ d2, edits d1 (when ((size url =? 0) || negb (size key =? 32)) (set_reupload_profile_pic now "" "")) d2 ∧
    dict_ok d2 = true ∧ (∀ k, k = "p" ∨ k = "q" → get_clean (root k) d2 = get_clean (root k) d1) ∧
    integer_or (root "T") d2 0 ≤ now) as (d2 & E2 & Hd2 & Hk2 & HT2).
  { assert (integer_or (root "T") d1 0 = integer_or (root "T") d0 0) as HT1.
    { unfold d1. by rewrite !integer_or_other. }
    destruct ((size url =? 0) || negb (size key =? 32)) eqn:Ec.
    - destruct (edits_reupload_clear d1 now Hd1 Hnow) as (d2 & E2 & Hd2 & Hk & HTT). exists d2.
      split_and!; [done..| |lia]. intros k Hk'. apply Hk. naive_solver.
    - exists d1. split_and!; [apply edits_ret|done|done|lia]. }
  assert (edits d0 (set_profile_pic now url key) (put_opt (root "t") (Some (int_value now)) d2)) as Hed.
  { unfold set_profile_pic. apply edits_mget. intros b2 ->. cbv zeta.
    assert (negb (keqb (string_view_or (root "p") d0 "") url) || negb (keqb (string_view_or (root "q") d0 "") key) = true) as ->.
    { apply orb_true_iff. rewrite !negb_true_iff, <-!not_true_iff_false, !keqb_spec. done. }
    cbn [negb]. eapply edits_bind; [by apply edits_pair|]. intros _. eapply edits_bind; [exact E2|].
    intros _. by apply edits_int. }
  destruct (Hed b Hb eq_refl) as ([] & b' & E & Hb' & Hd' & _). exists b'. split_and!; [done..|]. rewrite Hd'.
  assert (use_primary (put_opt (root "t") (Some (int_value now)) d2) = true) as Hu.
  { unfold use_primary. rewrite integer_or_same, integer_or_other by done. by apply Z.leb_le. }
  unfold get_profile_pic. rewrite Hu. unfold field_string. rewrite !get_put_other by done. rewrite !Hk2 by auto.
  unfold d1. rewrite get_put_same, get_put_other, get_put_same by done. unfold c. clear.
  destruct (size url =? 0); [done|]. by destruct (size key =? 32) eqn:E; simpl; rewrite ?E.
Qed.

Lemma edits_set_pro d now pro :
  dict_ok d = true → in_int64 now = true →
  in_int64 (proof_version (proof pro)) = true → in_int64 (proof_expiry_unix_ts (proof pro)) = true →
  get_pro_config d ≠ Some pro →
  let d1 := put_members (sub (root "s") "p")
    [("@", Some (int_value (proof_version (proof pro)))); ("g", Some (str_value (proof_gen_index_hash (proof pro))));
     ("e", Some (int_value (proof_expiry_unix_ts (proof pro)))); ("s", Some (str_value (proof_sig (proof pro))))]
    (put_opt (sub (root "s") "r") (Some (str_value (stake 32 (rotating_privkey pro)))) d) in
  edits d (set_pro_config now pro) (put_opt (target_timestamp d1) (Some (int_value now)) d1).
Proof.
  intros Hd Hnow Hv He Hne d1. unfold set_pro_config. apply edits_mget. intros b ->.
  rewrite bool_decide_false by done. cbv zeta.
  do 5 (eapply edits_bind; [edit_one|intros _]). apply edits_touch; [|done].
  apply put_members_ok; [edit_ok|]. simpl. by rewrite Hv, He.
Qed.

(** (Pro proof round trip).  A Pro config whose key pair belongs to its seed
    and whose parts have the sizes of their C++ types is read back as it was
    stored, and storing it again changes nothing. *)
Theorem pro_config_roundtrip `{!SeedKeypairLaws} (b : ConfigBase) (now version expiry : Z) (seed gen sig : bytes) :
  writable b → in_int64 now = true → size seed = 32 → 0 ≤ version < 256 → size gen = 32 → size sig = 64 →
  in_int64 expiry = true →
  let pro := mkPro (seed_keypair seed).2 (mkProof version gen (seed_keypair seed).1 expiry sig) in
  ∃ b', set_pro_config now pro b = (Ok tt, b') ∧ writable b' ∧ get_pro_config (data_of b') = Some pro ∧
    set_pro_config now pro b' = (Ok tt, b').
Proof.
  intros Hb Hnow Hseed Hv Hgen Hsig Hexp pro.
  assert (∀ b, get_pro_config (data_of b) = Some pro → set_pro_config now pro b = (Ok tt, b)) as Hagain.
  { intros b2 Hg. unfold set_pro_config. by rewrite run_mget, bool_decide_true. }
  destruct (decide (get_pro_config (data_of b) = Some pro)) as [Hg|Hg]; [by exists b; auto|].
  destruct (edits_set_pro (data_of b) now pro (writable_data _ Hb) Hnow) with b as ([] & b' & E & Hb' & Hd & _);
    [apply in_int64_spec; simpl; unfold int64_min, int64_max; lia|done..|].
  set (d1 := put_members _ _ _) in Hd.
  assert (∀ k, get_clean (sub (root "s") k) (data_of b') = get_clean (sub (root "s") k) d1) as Hs.
  { intros k. rewrite Hd. apply get_put_other. unfold target_timestamp. by destruct (use_primary d1). }
  destruct (field_dict_written (sub (root "s") "p") "@" (int_value version)
    [("g", Some (str_value gen)); ("e", Some (int_value expiry)); ("s", Some (str_value sig))]
    (put_opt (sub (root "s") "r") (Some (str_value (stake 32 (seed_keypair seed).2))) (data_of b))) as [p Hp].
  fold d1 in Hp. assert (field_dict (sub (root "s") "p") (data_of b') = Some p) as Hp'.
  { unfold field_dict in *. by rewrite Hs. }
  assert (∃ s, field_dict (root "s") (data_of b') = Some s) as [s Hsd].
  { unfold field_dict in Hp'. rewrite <-entry_find in Hp'.
    destruct (field_dict (root "s") (data_of b')); [eauto|done]. }
  exists b'. split; [done|]. split; [done|]. assert (get_pro_config (data_of b') = Some pro) as Hget; [|auto].
  unfold get_pro_config. rewrite Hsd. unfold pro_load.
  assert (mfind "p" s = Some (DDict p)) as ->.
  { rewrite (member_find _ _ _ _ Hsd). unfold field_dict in Hp'. by destruct (get_clean _ _) as [[]|]; simplify_eq. }
  assert (maybe_vector s "r" = Some seed) as ->.
  { unfold maybe_vector, maybe_string, maybe_scalar. rewrite (member_find _ _ _ _ Hsd), Hs. unfold d1.
    rewrite get_put_members_other by (intros k; done). rewrite get_put_same.
    unfold pro. cbn [rotating_privkey]. destruct (seed_keypair_form seed) as [_ ->].
    replace 32%nat with (String.length seed) by (unfold size in Hseed; lia). by rewrite stake_app. }
  rewrite Hseed. cbn [Z.eqb negb Pos.eqb].
  assert (∀ k o, assoc k [("@", Some (int_value version)); ("g", Some (str_value gen));
    ("e", Some (int_value expiry)); ("s", Some (str_value sig))] = Some o → mfind k p = o) as Hf.
  { intros k o Hk. rewrite (member_find _ _ _ _ Hp). unfold d1. rewrite get_put_members.
    - cbn [proof proof_version proof_gen_index_hash proof_expiry_unix_ts proof_sig pro]. by rewrite Hk.
    - apply (bool_decide_unpack _). vm_compute. done. }
  unfold maybe_ts_ms, maybe_vector, maybe_string, maybe_int, maybe_scalar.
  rewrite (Hf "@" _ eq_refl), (Hf "g" _ eq_refl), (Hf "e" _ eq_refl), (Hf "s" _ eq_refl).
  cbn [int_value str_value]. rewrite Hgen, Hsig. cbn [Z.eqb andb Pos.eqb].
  unfold to_uint8. rewrite Z.mod_small by lia. unfold pro. by destruct (seed_keypair seed).
Qed.
End profile.

(** ** Examples *)

Lemma not_before_new now : 0 ≤ now → not_before now (data_of new_config).
Proof. intros Hn. unfold not_before. vm_compute (integer_or _ _ _). done. Qed.

Lemma profile_name_witness :
  ∃ b', set_name 1700000000 "Kallie" new_config = (Ok tt, b') ∧ get_name (data_of b') = Some "Kallie".
Proof.
  destruct (profile_name new_config 1700000000 "Kallie" writable_new eq_refl) as (_ & _ & Hs).
  destruct Hs as (b' & E & _ & Hg & _); [apply Nat.leb_le; reflexivity|]. exists b'. split; [exact E|exact Hg].
Defined.

Lemma profile_picture_witness :
  ∃ b', set_profile_pic 1700000000 "http://example.org/pic" (zeros 32) new_config = (Ok tt, b') ∧
    get_profile_pic (data_of b') = mkPic "http://example.org/pic" (zeros 32).
Proof.
  destruct (profile_picture new_config 1700000000 "http://example.org/pic" (zeros 32) writable_new eq_refl)
    as (b' & E & _ & Hg); [apply not_before_new; lia|left; vm_compute; discriminate|].
  exists b'. split; [exact E|exact Hg].
Defined.

Lemma pro_config_roundtrip_witness :
  let pro := mkPro (seed_keypair (zeros 32)).2
               (mkProof 0 (zeros 32) (seed_keypair (zeros 32)).1 1800000000000 (zeros 64)) in
  ∃ b', set_pro_config 1700000000 pro new_config = (Ok tt, b') ∧ get_pro_config (data_of b') = Some pro.
Proof.
  destruct (pro_config_roundtrip new_config 1700000000 0 1800000000000 (zeros 32) (zeros 32) (zeros 64)
    writable_new eq_refl eq_refl ltac:(lia) eq_refl eq_refl eq_refl) as (b' & E & _ & Hg & _).
  exists b'. split; [exact E|exact Hg].
Defined.

(** A profile whose only change is a re-uploaded picture reports that it was
    never updated: [get_profile_updated] looks at ["T"] only if ["t"] is there. *)
Lemma reupload_not_reported :
  get_profile_updated (data_of (final (set_reupload_profile_pic 1700000000 "http://example.org/pic" (zeros 32)) new_config)) = 0.
Proof. vm_compute. reflexivity. Qed.

(** Clearing a name that is not set makes a clean config dirty. *)
Lemma clearing_no_name_dirties :
  is_dirty new_config = false ∧ is_dirty (final (set_name 1700000000 "") new_config) = true.
Proof. split; vm_compute; reflexivity. Qed.
