(* ===== verification/UserGroups.v ===== *)
(** * The user groups config

    [src/config/user_groups.cpp] and [include/bchat/config/user_groups.hpp]:
    groups under ["g"], legacy groups under ["C"] and communities under ["o"]
    of the data. *)

From Stdlib Require Import ZArith String Ascii Lia.
From stdpp Require Import base option list strings numbers sorting sets.
From S2P Require Import Prelude OrderedMap Bt Bencode Crypto ConfigData ConfigMessage ConfigReplay State Util ConfigBase ConfigState ConfigLifecycle ConfigFields Text Ids Community Records Contacts UserProfile.

#[local] Arguments stake : simpl never.

Definition NAME_MAX_LENGTH : nat := 100.
#[local] Arguments NAME_MAX_LENGTH : simpl never.

(** ** What the three kinds of groups have in common *)
Record base_group_info := mkBase {
  g_priority : Z;
  g_joined_at : Z;
  g_notifications : notify_mode;
  g_mute_until : Z;
  g_name : bytes;
  g_invited : bool;
}.
Definition blank_base : base_group_info := mkBase 0 0 defaulted 0 "" false.

(** [base_group_info::load]; the name is loaded by the derived types *)
Definition base_load (info : dict) (name : bytes) : base_group_info :=
  mkBase (to_int32 (int_or_0 info "+"))
    (to_epoch_seconds (Z.max 0 (int_or_0 info "j")))
    (default defaulted (notify_of (to_int32 (int_or_0 info "@"))))
    (to_epoch_seconds (int_or_0 info "!"))
    name
    (negb (int_or_0 info "i" =? 0)).

(** ** Groups *)
Definition NOT_REMOVED : Z := 0.
Definition KICKED_FROM_GROUP : Z := 1.
Definition GROUP_DESTROYED : Z := 2.

Record group_info := mkGroup {
  gr_base : base_group_info;
  gr_id : bytes;
  gr_secretkey : bytes;
  gr_auth_data : bytes;
  gr_removed_status : Z;
}.

Definition mark_kicked (g : group_info) : group_info :=
  mkGroup (gr_base g) (gr_id g) "" ""
    (if gr_removed_status g =? GROUP_DESTROYED then gr_removed_status g else KICKED_FROM_GROUP).
Definition mark_invited (g : group_info) : group_info :=
  mkGroup (gr_base g) (gr_id g) (gr_secretkey g) (gr_auth_data g)
    (if gr_removed_status g =? KICKED_FROM_GROUP then NOT_REMOVED else gr_removed_status g).
Definition kicked (g : group_info) : bool := gr_removed_status g =? KICKED_FROM_GROUP.
Definition mark_destroyed (g : group_info) : group_info :=
  mkGroup (gr_base g) (gr_id g) "" "" GROUP_DESTROYED.
Definition is_destroyed (g : group_info) : bool := gr_removed_status g =? GROUP_DESTROYED.

(** ** Legacy groups *)
Record legacy_group_info := mkLegacy {
  lg_base : base_group_info;
  lg_bchat_id : bytes;
  lg_enc_pubkey : bytes;
  lg_enc_seckey : bytes;
  lg_disappearing_timer : Z;
  lg_members : list (bytes * bool);
}.

Definition legacy_counts (g : legacy_group_info) : Z * Z :=
  fold_left (λ c m, if m.2 : bool then (c.1 + 1, c.2) else (c.1, c.2 + 1)) (lg_members g) (0, 0).

Definition with_members (ms : list (bytes * bool)) (g : legacy_group_info) : legacy_group_info :=
  mkLegacy (lg_base g) (lg_bchat_id g) (lg_enc_pubkey g) (lg_enc_seckey g) (lg_disappearing_timer g) ms.

(** [legacy_group_info::erase] *)
Definition legacy_erase_member (id : bytes) (g : legacy_group_info) : bool * legacy_group_info :=
  (is_some (mfind id (lg_members g)), with_members (merase id (lg_members g)) g).

(** ** Communities *)
Record community_info := mkCommInfo { cm_base : base_group_info; cm_comm : community }.

Section groups.
Context `{BtLib, Hash, Oxenc, SeedKeypair}.

Definition new_group (sid : bytes) : result group_info :=
  _ ← check_bchat_id sid "03"; Ok (mkGroup blank_base sid "" "" NOT_REMOVED).
Definition new_legacy (sid : bytes) : result legacy_group_info :=
  _ ← check_bchat_id sid "05"; Ok (mkLegacy blank_base sid "" "" 0 []).

(** [group_info::load]: the secret key is rebuilt from the seed and dropped if
    it is not the key of this group *)
Definition group_load (info : dict) (g : group_info) : group_info :=
  let secretkey :=
    match maybe_vector info "K" with
    | Some seed =>
        if size seed =? 32 then
          let '(pk, sk) := seed_keypair seed in
          if keqb (gr_id g) (to_hex (String "003" pk)) then sk else ""
        else gr_secretkey g
    | None => gr_secretkey g
    end in
  let auth_data :=
    match maybe_vector info "s" with
    | Some sig => if size sig =? 100 then sig else gr_auth_data g
    | None => gr_auth_data g
    end in
  mkGroup (base_load info (default "" (maybe_string info "n"))) (gr_id g) secretkey auth_data
    (to_int32 (int_or_0 info "r")).

(** The members of a set of a legacy group: 33 bytes that start with 5 *)
Definition member_key (x : scalar) : option bytes :=
  match x with
  | inr s => if (size s =? 33) && bool_decide (front s = Some "005"%char) then Some s else None
  | inl _ => None
  end.

Definition load_members (s : config_set) (admin : bool) (ms : list (bytes * bool)) : list (bytes * bool) :=
  fold_left (λ ms x, match member_key x with Some k => memplace (to_hex k) admin ms | None => ms end) s ms.

Definition legacy_load (info : dict) (g : legacy_group_info) : legacy_group_info :=
  let '(enc_pub, enc_sec) :=
    match maybe_vector info "k", maybe_vector info "K" with
    | Some p, Some s => if (size p =? 32) && (size s =? 32) then (p, s) else ("", "")
    | _, _ => ("", "")
    end in
  let ms := match maybe_set info "m" with Some s => load_members s false [] | None => [] end in
  let ms := match maybe_set info "a" with Some s => load_members s true ms | None => ms end in
  mkLegacy (base_load info (default "" (maybe_string info "n"))) (lg_bchat_id g) enc_pub enc_sec
    (Z.max 0 (int_or_0 info "E")) ms.

(** [legacy_group_info::insert]: whether something changed *)
Definition legacy_insert_member (id : bytes) (admin : bool) (g : legacy_group_info)
    : result (bool * legacy_group_info) :=
  _ ← check_bchat_id id "05";
  match mfind id (lg_members g) with
  | None => Ok (true, with_members (minsert id admin (lg_members g)) g)
  | Some old => if eqb old admin then Ok (false, g)
                else Ok (true, with_members (minsert id admin (lg_members g)) g)
  end.

(** [community_info::load] *)
Definition community_load (info : dict) (c : community_info) : result community_info :=
  comm ← (match maybe_string info "n" with Some n => set_room n (cm_comm c) | None => Ok (cm_comm c) end);
  Ok (mkCommInfo (base_load info (g_name (cm_base c))) comm).

(** ** Reading *)
Definition server_path (base : bytes) : path := sub (root "o") base.
Definition community_field (c : community) : path := sub (sub (server_path (base_url c)) "R") (room_norm c).

Definition get_community (url rm : bytes) (d : dict) : result (option community_info) :=
  og ← new_community url rm;
  match field_dict (community_field og) d with
  | None => Ok None
  | Some info =>
      c ← community_load info (mkCommInfo blank_base og);
      let pk := string_view_or (sub (server_path (base_url og)) "#") d "" in
      if size pk =? 32 then
        comm ← set_pubkey pk (cm_comm c); Ok (Some (mkCommInfo (cm_base c) comm))
      else Ok (Some c)
  end.

Definition get_community_url (partial_url : bytes) (d : dict) : result (option community_info) :=
  '(base, rm, _) ← parse_partial_url partial_url; get_community base rm d.

Definition construct_community (c : community) (d : dict) : result community_info :=
  match field_dict (community_field c) d with
  | Some info => community_load info (mkCommInfo blank_base c)
  | None => Ok (mkCommInfo blank_base c)
  end.
Definition get_or_construct_community (url rm pk : bytes) (d : dict) : result community_info :=
  c ← community_with_pubkey url rm pk; construct_community c d.
Definition get_or_construct_community_encoded (url rm pk : bytes) (d : dict) : result community_info :=
  c ← community_with_encoded url rm pk; construct_community c d.
Definition get_or_construct_community_url (full_url : bytes) (d : dict) : result community_info :=
  '(base, rm, pk) ← parse_full_url full_url; get_or_construct_community base rm pk d.

Definition legacy_path (pk : bytes) : path := sub (root "C") pk.
Definition get_legacy_group (id : bytes) (d : dict) : result (option legacy_group_info) :=
  pubkey ← bchat_id_to_bytes id "05";
  match field_dict (legacy_path pubkey) d with
  | None => Ok None
  | Some info => g ← new_legacy id; Ok (Some (legacy_load info g))
  end.
Definition get_or_construct_legacy_group (id : bytes) (d : dict) : result legacy_group_info :=
  maybe ← get_legacy_group id d;
  match maybe with Some g => Ok g | None => new_legacy id end.

Definition group_path (pk : bytes) : path := sub (root "g") pk.
Definition get_group (id : bytes) (d : dict) : result (option group_info) :=
  pubkey ← bchat_id_to_bytes id "03";
  match field_dict (group_path pubkey) d with
  | None => Ok None
  | Some info => g ← new_group id; Ok (Some (group_load info g))
  end.
Definition get_or_construct_group (id : bytes) (d : dict) : result group_info :=
  maybe ← get_group id d;
  match maybe with Some g => Ok g | None => new_group id end.

(** [create_group], with the seed that the random key pair comes from *)
Definition create_group (seed : bytes) : result group_info :=
  let '(pk, sk) := seed_keypair seed in
  g ← new_group ("03" +:+ to_hex pk);
  Ok (mkGroup (gr_base g) (gr_id g) sk (gr_auth_data g) (gr_removed_status g)).

(** ** Writing *)
Definition set_base (bg : base_group_info) (info : path) : M ConfigBase () :=
  set_nonzero_int (sub info "+") (g_priority bg);;
  set_positive_int (sub info "j") (to_epoch_seconds (g_joined_at bg));;
  set_positive_int (sub info "@") (notify_int (g_notifications bg));;
  set_positive_int (sub info "!") (to_epoch_seconds (g_mute_until bg));;
  set_flag (sub info "i") (g_invited bg).

Definition set_community (c : community_info) : M ConfigBase () :=
  assign_str (sub (server_path (base_url (cm_comm c))) "#") (pubkey (cm_comm c));;
  let info := community_field (cm_comm c) in
  set_base (cm_base c) info;;
  assign_str (sub info "n") (room (cm_comm c)).

Definition set_legacy_group (g : legacy_group_info) : M ConfigBase () :=
  pk ← lift (bchat_id_to_bytes (lg_bchat_id g) "05");
  let info := legacy_path pk in
  set_base (lg_base g) info;;
  assign_str (sub info "n") (stake NAME_MAX_LENGTH (g_name (lg_base g)));;
  set_pair_if ((size (lg_enc_pubkey g) =? 32) && (size (lg_enc_seckey g) =? 32))
    (sub info "k") (str_value (lg_enc_pubkey g)) (sub info "K") (str_value (lg_enc_seckey g));;
  let pick (admin : bool) :=
    fold_left (λ s m, if eqb m.2 admin then sinsert (inr (from_hex m.1)) s else s) (lg_members g) [] in
  assign (sub info "m") (DSet (pick false));;
  assign (sub info "a") (DSet (pick true));;
  set_positive_int (sub info "E") (lg_disappearing_timer g).

(** The secret key is stored as its seed, if it is the key of the group *)
Definition own_key (g : group_info) (pk_bytes : bytes) : bool :=
  (size (gr_secretkey g) =? 64) && keqb (sdrop 32 (gr_secretkey g)) (sdrop 1 pk_bytes).

Definition set_group (g : group_info) : M ConfigBase () :=
  pk_bytes ← lift (bchat_id_to_bytes (gr_id g) "03");
  let info := group_path pk_bytes in
  set_base (gr_base g) info;;
  set_nonempty_str (sub info "n") (stake NAME_MAX_LENGTH (g_name (gr_base g)));;
  set_positive_int (sub info "r") (gr_removed_status g);;
  if own_key g pk_bytes then assign_str (sub info "K") (stake 32 (gr_secretkey g))
  else
    assign_str (sub info "K") "";;
    if size (gr_auth_data g) =? 100 then assign_str (sub info "s") (gr_auth_data g)
    else erase_field (sub info "s").

Definition erase_impl (convo : path) : M ConfigBase bool :=
  b ← mget;
  let ret := field_exists convo (data_of b) in
  erase_field convo;;
  mret ret.

Definition erase_community_info (c : community) : M ConfigBase bool :=
  gone ← erase_impl (community_field c);
  when gone
    (b ← mget;
     let server_info := server_path (base_url c) in
     let rooms := sub server_info "R" in
     when (match field_dict rooms (data_of b) with Some rd => is_nil rd | None => true end)
       (erase_field rooms;; erase_field server_info));;
  mret gone.

Definition erase_community (url rm : bytes) : M ConfigBase bool :=
  c ← lift (new_community url rm); erase_community_info c.
Definition erase_legacy_group (id : bytes) : M ConfigBase bool :=
  g ← lift (new_legacy id);
  pk ← lift (bchat_id_to_bytes (lg_bchat_id g) "05"); erase_impl (legacy_path pk).
Definition erase_group (id : bytes) : M ConfigBase bool :=
  g ← lift (new_group id);
  pk ← lift (bchat_id_to_bytes (gr_id g) "03"); erase_impl (group_path pk).

(** ** Sizes *)
Definition size_communities (d : dict) : Z :=
  match field_dict (root "o") d with
  | Some servers =>
      fold_left (λ count e,
        let server := server_path e.1 in
        if is_some (field_string (sub server "#") d)
        then count + match field_dict (sub server "R") d with Some rd => Z.of_nat (length rd) | None => 0 end
        else count) servers 0
  | None => 0
  end.
Definition dict_size (p : path) (d : dict) : Z :=
  match field_dict p d with Some e => Z.of_nat (length e) | None => 0 end.
Definition size_legacy_groups (d : dict) : Z := dict_size (root "C") d.
Definition size_groups (d : dict) : Z := dict_size (root "g") d.
Definition groups_size (d : dict) : Z := size_communities d + size_legacy_groups d + size_groups d.

(** ** Iteration: groups, then communities, then legacy groups *)
Definition key_prefixed (prefix : ascii) (k : bytes) : bool :=
  (size k =? 33) && bool_decide (front k = Some prefix).

Fixpoint groups_from (entries : dict) : result (list group_info) :=
  match entries with
  | [] => Ok []
  | (k, v) :: rest =>
      match v with
      | DDict info =>
          if key_prefixed "003" k then
            g ← new_group (to_hex k); l ← groups_from rest; Ok (group_load info g :: l)
          else groups_from rest
      | _ => groups_from rest
      end
  end.

Fixpoint legacy_from (entries : dict) : result (list legacy_group_info) :=
  match entries with
  | [] => Ok []
  | (k, v) :: rest =>
      match v with
      | DDict info =>
          if key_prefixed "005" k then
            g ← new_legacy (to_hex k); l ← legacy_from rest; Ok (legacy_load info g :: l)
          else legacy_from rest
      | _ => legacy_from rest
      end
  end.

Definition load_community (server r pk : bytes) (info : dict) : result community_info :=
  c ← set_base_url server empty_community;
  c ← set_room r c;
  c ← set_pubkey pk c;
  community_load info (mkCommInfo blank_base c).

Definition communities_from (servers : dict) : result (list community_info) :=
  comm_all load_community (S (length (communities load_community servers))) (mkCommIter (Some servers) None).

(** The iterator: groups, then communities, then legacy groups *)
Inductive any_group_info :=
  | AGroup (g : group_info) | ACommunity (c : community_info) | ALegacy (g : legacy_group_info).

Definition groups_all (d : dict) : result (list any_group_info) :=
  gs ← groups_from (default [] (field_dict (root "g") d));
  cs ← (match field_dict (root "o") d with Some servers => communities_from servers | None => Ok [] end);
  ls ← legacy_from (default [] (field_dict (root "C") d));
  Ok ((AGroup <$> gs) ++ (ACommunity <$> cs) ++ (ALegacy <$> ls)).

(** ** What a record holds *)
Definition base_fields (bg : base_group_info) : list (bytes * option dict_value) :=
  [("+", nonzero_value (g_priority bg));
   ("j", positive_value (to_epoch_seconds (g_joined_at bg)));
   ("@", positive_value (notify_int (g_notifications bg)));
   ("!", positive_value (to_epoch_seconds (g_mute_until bg)));
   ("i", flag_value (g_invited bg))].

Definition base_typed (bg : base_group_info) : bool :=
  in_int32 (g_priority bg) && in_int64 (g_joined_at bg) && in_int64 (g_mute_until bg).

(** The common part as it reads back *)
Definition stored_base (bg : base_group_info) (name : bytes) : base_group_info :=
  mkBase (g_priority bg)
    (to_epoch_seconds (Z.max 0 (to_epoch_seconds (g_joined_at bg))))
    (g_notifications bg)
    (to_epoch_seconds (Z.max 0 (to_epoch_seconds (g_mute_until bg))))
    name (g_invited bg).

#[local] Hint Resolve notify_int_int64 : edits.

Lemma edits_set_base bg q d :
  dict_ok d = true → base_typed bg = true → edits d (set_base bg q) (put_members q (base_fields bg) d).
Proof.
  intros Hd Hb. unfold base_typed in Hb. rewrite !andb_true_iff in Hb. destruct Hb as [[Hp Hj] Hm].
  unfold set_base. eapply edits_eq; [edit_record|reflexivity].
Qed.

Lemma base_fields_ok bg : base_typed bg = true → forallb (λ w, opt_ok w.2) (base_fields bg) = true.
Proof.
  unfold base_typed. rewrite !andb_true_iff. intros [[Hp Hj] Hm]. simpl.
  rewrite opt_ok_nonzero, !opt_ok_positive, opt_ok_flag by auto with edits. done.
Qed.

Lemma put_base_ok bg q d :
  dict_ok d = true → base_typed bg = true → dict_ok (put_members q (base_fields bg) d) = true.
Proof. intros Hd Hb. apply put_members_ok; [done|by apply base_fields_ok]. Qed.

Lemma put_members_app q l1 l2 d : put_members q (l1 ++ l2) d = put_members q l2 (put_members q l1 d).
Proof. unfold put_members. apply fold_left_app. Qed.

Lemma base_load_fields bg info name :
  base_typed bg = true → (∀ k o, assoc k (base_fields bg) = Some o → mfind k info = o) →
  base_load info name = stored_base bg name.
Proof.
  unfold base_typed. rewrite !andb_true_iff, in_int32_spec. intros [[Hp _] _] Hf. unfold base_load, stored_base.
  rewrite (int_or_0_find info "+" _ (Hf "+" _ eq_refl)), (int_or_0_find info "j" _ (Hf "j" _ eq_refl)).
  rewrite (int_or_0_find info "@" _ (Hf "@" _ eq_refl)), (int_or_0_find info "!" _ (Hf "!" _ eq_refl)).
  rewrite (int_or_0_find info "i" _ (Hf "i" _ eq_refl)).
  autorewrite with members. rewrite to_int32_id, (Z.max_r 0 (Z.max 0 _)) by lia. f_equal.
  by destruct (g_notifications bg).
Qed.

(** A member of a record below the base *)
Lemma assoc_app {A} k (l1 l2 : list (bytes * A)) :
  assoc k (l1 ++ l2) = match assoc k l1 with Some a => Some a | None => assoc k l2 end.
Proof. induction l1 as [|[j a] l1 IH]; [done|]. simpl. by destruct (keqb k j). Qed.

Lemma base_assoc bg l k o : assoc k (base_fields bg) = Some o → assoc k (base_fields bg ++ l) = Some o.
Proof. intros Hk. by rewrite assoc_app, Hk. Qed.

(** *** Groups *)
Definition group_fields (g : group_info) (own : bool) : list (bytes * option dict_value) :=
  base_fields (gr_base g) ++
  [("n", nonempty_value (stake NAME_MAX_LENGTH (g_name (gr_base g))));
   ("r", positive_value (gr_removed_status g));
   ("K", Some (str_value (if own then stake 32 (gr_secretkey g) else "")))] ++
  (if own then []
   else [("s", value_if (size (gr_auth_data g) =? 100) (str_value (gr_auth_data g)))]).

Definition group_typed (g : group_info) : bool :=
  base_typed (gr_base g) && in_int32 (gr_removed_status g).

Lemma group_fields_nodup g own : NoDup (group_fields g own).*1.
Proof. destruct own; apply (bool_decide_unpack _); vm_compute; done. Qed.

Lemma edits_set_group g d pk :
  dict_ok d = true → group_typed g = true → bchat_id_to_bytes (gr_id g) "03" = Ok pk →
  edits d (set_group g) (put_members (group_path pk) (group_fields g (own_key g pk)) d).
Proof.
  intros Hd Hg Hid. unfold group_typed in Hg. apply andb_true_iff in Hg as [Hb Hr].
  eapply edits_lift; [exact Hid|]. cbv zeta. set (q := group_path pk) in *.
  unfold group_fields. rewrite put_members_app. pose proof (put_base_ok _ q d Hd Hb) as Hd1.
  eapply edits_bind; [by apply edits_set_base|intros _]. set (d1 := put_members q _ d) in *. clearbody d1.
  do 2 (eapply edits_bind; [edit_one|intros _]). destruct (own_key g pk).
  - eapply edits_eq; [edit_one|reflexivity].
  - eapply edits_bind; [edit_one|intros _]. destruct (size (gr_auth_data g) =? 100); simpl value_if;
      (eapply edits_eq; [edit_one|reflexivity]).
Qed.

(** The record of a group after it was written *)
Lemma group_written g own k d :
  let d' := put_members (group_path k) (group_fields g own) d in
  ∃ info, field_dict (group_path k) d' = Some info ∧
    (∀ x o, assoc x (group_fields g own) = Some o → mfind x info = o) ∧
    (own = true → mfind "s" info = get_clean (sub (group_path k) "s") d).
Proof.
  intros d'. assert (is_Some (field_dict (group_path k) d')) as [info Hinfo].
  { subst d'. unfold group_fields. rewrite put_members_app. cbn [app].
    set (d1 := put_members _ (base_fields _) d). clearbody d1.
    match goal with |- is_Some (field_dict ?q (put_members _ (?a :: ?b :: ?c :: ?l) _)) =>
      change (is_Some (field_dict q (put_members q (c :: l) (put_members q [a; b] d1)))) end.
    apply field_dict_written. }
  exists info. split_and!; [done| |].
  - intros x o Hx. rewrite (member_find _ _ _ _ Hinfo). subst d'.
    rewrite get_put_members by apply group_fields_nodup. by rewrite Hx.
  - intros ->. rewrite (member_find _ _ _ _ Hinfo). subst d'.
    by rewrite get_put_members by apply group_fields_nodup.
Qed.


Context {HL : OxencLaws} {SL : SeedKeypairLaws}.

Lemma get_group_written g k own d :
  bchat_id_to_bytes (gr_id g) "03" = Ok k → group_typed g = true →
  let d' := put_members (group_path k) (group_fields g own) d in
  ∃ info g', get_group (gr_id g) d' = Ok (Some g') ∧ field_dict (group_path k) d' = Some info ∧
    gr_base g' = stored_base (gr_base g) (stake NAME_MAX_LENGTH (g_name (gr_base g))) ∧
    gr_id g' = gr_id g ∧ gr_removed_status g' = Z.max 0 (gr_removed_status g) ∧
    gr_secretkey g' = gr_secretkey (group_load info (mkGroup blank_base (gr_id g) "" "" NOT_REMOVED)) ∧
    gr_auth_data g' = gr_auth_data (group_load info (mkGroup blank_base (gr_id g) "" "" NOT_REMOVED)) ∧
    (∀ x o, assoc x (group_fields g own) = Some o → mfind x info = o).
Proof.
  intros Hk Hg d'. unfold group_typed in Hg. apply andb_true_iff in Hg as [Hb Hr].
  destruct (group_written g own k d) as (info & Hinfo & Hf & _). fold d' in Hinfo.
  exists info, (group_load info (mkGroup blank_base (gr_id g) "" "" NOT_REMOVED)).
  split_and!; try done.
  - unfold get_group. rewrite Hk, bind_ret, Hinfo. unfold new_group, check_bchat_id.
    apply bchat_id_to_bytes_Ok in Hk as [-> _]. done.
  - unfold group_load. cbn [gr_base].
    assert (default "" (maybe_string info "n") = stake NAME_MAX_LENGTH (g_name (gr_base g))) as ->.
    { change (default "" (maybe_string info "n")) with (string_or_empty info "n").
      rewrite (string_or_empty_find info "n" (nonempty_value (stake NAME_MAX_LENGTH (g_name (gr_base g))))).
      - apply as_str_nonempty.
      - apply (Hf "n"). unfold group_fields. by rewrite assoc_app. }
    apply base_load_fields; [done|]. intros x o Hx. apply Hf. by apply base_assoc.
  - unfold group_load. cbn [gr_removed_status].
    rewrite (int_or_0_find info "r" (positive_value (gr_removed_status g))).
    + rewrite as_int_positive. apply to_int32_id. apply in_int32_spec in Hr. lia.
    + apply (Hf "r"). unfold group_fields. by rewrite assoc_app.
Qed.

(** (group round trip).  A stored group reads back with its name cut to 100
    bytes and its times normalised.  Its secret key comes back exactly if it is
    the key pair of the group and the id is given in lower case; without that
    key, the authentication data comes back exactly if it has 100 bytes.  A
    group marked as kicked reads back kicked (or still destroyed) and with no
    keys. *)
Theorem group_roundtrip (b : ConfigBase) (g : group_info) (k : bytes) :
  writable b → bchat_id_to_bytes (gr_id g) "03" = Ok k → group_typed g = true →
  ∃ b' g', set_group g b = (Ok tt, b') ∧ writable b' ∧ get_group (gr_id g) (data_of b') = Ok (Some g') ∧
    gr_base g' = stored_base (gr_base g) (stake NAME_MAX_LENGTH (g_name (gr_base g))) ∧
    gr_removed_status g' = Z.max 0 (gr_removed_status g) ∧
    (∀ seed, size seed = 32 → gr_secretkey g = (seed_keypair seed).2 → own_key g k = true →
       gr_secretkey g' = if keqb (gr_id g) (make_lc (gr_id g)) then gr_secretkey g else "") ∧
    (own_key g k = false → gr_secretkey g' = "" ∧
       gr_auth_data g' = if size (gr_auth_data g) =? 100 then gr_auth_data g else "") ∧
    (∀ g0, g = mark_kicked g0 → gr_secretkey g' = "" ∧ gr_auth_data g' = "" ∧
       (gr_removed_status g0 = GROUP_DESTROYED → is_destroyed g' = true) ∧
       (gr_removed_status g0 ≠ GROUP_DESTROYED → kicked g' = true)).
Proof.
  intros Hb Hk Hg. destruct (edits_set_group g _ k (writable_data _ Hb) Hg Hk b Hb eq_refl) as ([] & b' & E & Hb' & Hd & _).
  destruct (get_group_written g k (own_key g k) (data_of b) Hk Hg)
    as (info & g' & Hget & Hinfo & Hbase & _ & Hst & Hsk & Hauth & Hf).
  rewrite <-Hd in Hget.
  assert (∀ o, assoc "K" (group_fields g (own_key g k)) = Some o → maybe_vector info "K" = Some (as_str o) ∨ o = None) as HK.
  { intros o Ho. unfold maybe_vector, maybe_string, maybe_scalar. rewrite (Hf "K" o Ho).
    unfold group_fields in Ho. rewrite assoc_app in Ho. simpl in Ho. injection Ho as <-. by left. }
  assert (own_key g k = false → gr_secretkey g' = "" ∧
    gr_auth_data g' = if size (gr_auth_data g) =? 100 then gr_auth_data g else "") as Hother.
  { intros Hown. rewrite Hown in *. rewrite Hsk, Hauth. unfold group_load. cbn [gr_secretkey gr_auth_data].
    destruct (HK _ ltac:(unfold group_fields; rewrite assoc_app; reflexivity)) as [->|]; [|done]. simpl. split; [done|].
    unfold maybe_vector, maybe_string, maybe_scalar.
    rewrite (Hf "s" _ ltac:(unfold group_fields; rewrite assoc_app; reflexivity)).
    destruct (size (gr_auth_data g) =? 100) eqn:Ea; simpl; [by rewrite Ea|done]. }
  exists b', g'. split_and!; try done.
  - intros seed Hs Hsecret Hown. rewrite Hown in *. rewrite Hsk. unfold group_load. cbn [gr_secretkey gr_id].
    destruct (HK _ ltac:(unfold group_fields; rewrite assoc_app; reflexivity)) as [->|]; [|done]. cbn [as_str str_value].
    destruct (seed_keypair_form seed) as [Hpk Hform].
    assert (stake 32 (gr_secretkey g) = seed) as ->.
    { rewrite Hsecret, Hform. replace 32%nat with (String.length seed) by (unfold size in Hs; lia). apply stake_app. }
    rewrite Hs. cbn [Z.eqb Pos.eqb]. destruct (seed_keypair seed) as [pk sk] eqn:Ekp. simpl in *.
    destruct (id_first_byte (gr_id g) "003" k Hk) as (r & -> & _).
    destruct (bchat_id_bytes _ "03" _ eq_refl Hk) as [_ Hhex].
    assert (pk = r) as ->.
    { unfold own_key in Hown. apply andb_true_iff in Hown as [_ Hown%keqb_spec].
      assert (sdrop 1 (String "003"%char r) = r) as Hr by by destruct r. rewrite Hr, Hsecret, Hform in Hown.
      assert (String.length seed = 32%nat) as Hlen by (unfold size in Hs; lia). rewrite <-Hlen, sdrop_app in Hown. done. }
    rewrite to_hex_digits, Hhex. by rewrite Hsecret.
  - intros g0 ->. assert (own_key (mark_kicked g0) k = false) as Hown by done. destruct (Hother Hown) as [-> ->].
    split_and!; [done..| |]; unfold is_destroyed, kicked; rewrite Hst; simpl; intros Hs.
    + by rewrite Hs.
    + destruct (Z.eqb_spec (gr_removed_status g0) GROUP_DESTROYED); done.
Qed.

(** *** Legacy groups *)
Definition pick_members (admin : bool) (ms : list (bytes * bool)) (acc : config_set) : config_set :=
  fold_left (λ s m, if eqb m.2 admin then sinsert (inr (from_hex m.1)) s else s) ms acc.

Definition legacy_fields (g : legacy_group_info) : list (bytes * option dict_value) :=
  let enc := (size (lg_enc_pubkey g) =? 32) && (size (lg_enc_seckey g) =? 32) in
  base_fields (lg_base g) ++
  [("n", Some (str_value (stake NAME_MAX_LENGTH (g_name (lg_base g)))));
   ("k", value_if enc (str_value (lg_enc_pubkey g)));
   ("K", value_if enc (str_value (lg_enc_seckey g)));
   ("m", stored (DSet (pick_members false (lg_members g) [])));
   ("a", stored (DSet (pick_members true (lg_members g) [])));
   ("E", positive_value (lg_disappearing_timer g))].

Lemma legacy_fields_nodup g : NoDup (legacy_fields g).*1.
Proof.
  unfold legacy_fields. cbv zeta. generalize (stored (DSet (pick_members false (lg_members g) []))).
  generalize (stored (DSet (pick_members true (lg_members g) []))). intros o1 o2.
  apply (bool_decide_unpack _). vm_compute. done.
Qed.

Lemma pick_members_ok a ms acc : set_ok acc = true → set_ok (pick_members a ms acc) = true.
Proof.
  unfold pick_members. revert acc; induction ms as [|m ms IH]; intros acc Ha; [done|]. cbn [fold_left]. apply IH.
  destruct (eqb m.2 a); [by apply set_ok_insert|done].
Qed.

Lemma pick_members_mem a ms acc x :
  smem x (pick_members a ms acc) = true ↔
    smem x acc = true ∨ ∃ id, (id, a) ∈ ms ∧ x = inr (from_hex id).
Proof.
  unfold pick_members. revert acc; induction ms as [|[id a'] ms IH]; intros acc; cbn [fold_left fst snd].
  { split; [by left|]. intros [?|(id & Hin & _)]; [done|by apply elem_of_nil in Hin]. }
  rewrite IH. clear IH. destruct (eqb a' a) eqn:E.
  - apply eqb_prop in E as ->. rewrite smem_insert, orb_true_iff, keqb_spec. setoid_rewrite elem_of_cons.
    naive_solver.
  - apply eqb_false_iff in E. setoid_rewrite elem_of_cons. naive_solver.
Qed.

Lemma edits_set_legacy g d pk :
  dict_ok d = true → base_typed (lg_base g) = true → in_int64 (lg_disappearing_timer g) = true →
  bchat_id_to_bytes (lg_bchat_id g) "05" = Ok pk →
  edits d (set_legacy_group g) (put_members (legacy_path pk) (legacy_fields g) d).
Proof.
  intros Hd Hb Ht Hid. eapply edits_lift; [exact Hid|]. cbv zeta. set (q := legacy_path pk) in *.
  unfold legacy_fields. rewrite put_members_app. pose proof (put_base_ok _ q d Hd Hb) as Hd1.
  eapply edits_bind; [by apply edits_set_base|intros _]. set (d1 := put_members q _ d) in *. clearbody d1.
  do 2 (eapply edits_bind; [edit_one|intros _]).
  assert (∀ a, value_ok (DSet (pick_members a (lg_members g) [])) = true) as Hs by (intros a; by apply pick_members_ok).
  assert (∀ a, opt_ok (stored (DSet (pick_members a (lg_members g) []))) = true) as Hso.
  { intros a. unfold stored. destruct (empty_value _); [done|]. apply Hs. }
  eapply edits_bind; [apply edits_assign; [edit_ok|apply Hs]|intros _].
  eapply edits_bind; [apply edits_assign; [apply put_opt_dict_ok; [edit_ok|apply Hso]|apply Hs]|intros _].
  eapply edits_eq; [apply edits_positive; [|done]|reflexivity].
  apply put_opt_dict_ok; [apply put_opt_dict_ok; [edit_ok|apply Hso]|apply Hso].
Qed.

Definition is_member (id : bytes) (x : scalar) : bool :=
  match member_key x with Some k => keqb id (hex_digits k) | None => false end.

Lemma load_members_find s a ms id :
  msorted ms = true →
  mfind id (load_members s a ms) =
    match mfind id ms with Some v => Some v | None => if existsb (is_member id) s then Some a else None end ∧
  msorted (load_members s a ms) = true.
Proof.
  unfold load_members. revert ms; induction s as [|x s IH]; intros ms Hs; cbn [fold_left existsb].
  { by destruct (mfind id ms). }
  unfold is_member at 1. destruct (member_key x) as [k|]; [|by apply IH].
  destruct (IH (memplace (to_hex k) a ms) (msorted_emplace _ _ _ Hs)) as [-> Hs']. split; [|done].
  rewrite mfind_emplace, to_hex_digits. destruct (mfind id ms); [done|].
  by destruct (keqb id (hex_digits k)).
Qed.

(** Members as [insert] leaves them, with ids in lower case *)
Definition members_ok (ms : list (bytes * bool)) : Prop :=
  msorted ms = true ∧ ∀ id a, (id, a) ∈ ms → is_ok (check_bchat_id id "05") = true ∧ make_lc id = id.

Lemma members_picked ms a id :
  members_ok ms → existsb (is_member id) (pick_members a ms []) = bool_decide (mfind id ms = Some a).
Proof.
  intros [Hs Hok].
  assert (∀ j b, (j, b) ∈ ms → member_key (inr (from_hex j)) = Some (from_hex j) ∧ hex_digits (from_hex j) = j) as Hkey.
  { intros j b Hin. destruct (Hok _ _ Hin) as [Hv Hl].
    assert (bchat_id_to_bytes j "05" = Ok (from_hex j)) as Hk.
    { unfold bchat_id_to_bytes. by apply is_ok_inv in Hv as [[] ->]. }
    pose proof (id_key_ok _ _ Hk) as Hko. unfold contact_key_ok in Hko. split; [unfold member_key; by rewrite Hko|].
    destruct (bchat_id_bytes _ "05" _ eq_refl Hk) as [_ ->]. done. }
  apply eq_bool_prop_intro. rewrite !Is_true_true, bool_decide_eq_true. split.
  - intros (x & Hx & Hm)%existsb_exists. apply list_elem_of_In, smem_In, pick_members_mem in Hx as [?|(j & Hj & ->)]; [done|].
    unfold is_member in Hm. destruct (Hkey _ _ Hj) as [Hk Hh]. rewrite Hk in Hm. apply keqb_spec in Hm.
    rewrite Hh in Hm. subst j. by apply mfind_In.
  - intros Hf. apply mfind_Some_In in Hf. apply existsb_exists. exists (inr (from_hex id)). split.
    + apply list_elem_of_In, smem_In, pick_members_mem. right. eauto.
    + unfold is_member. destruct (Hkey _ _ Hf) as [-> ->]. apply keqb_refl.
Qed.

(** (legacy group round trip).  A stored legacy group reads back with its
    name cut to 100 bytes, its keys if both have 32 bytes, a non-negative
    timer, and exactly its members and admins. *)
Theorem legacy_group_roundtrip (b : ConfigBase) (g : legacy_group_info) (k : bytes) :
  writable b → bchat_id_to_bytes (lg_bchat_id g) "05" = Ok k → base_typed (lg_base g) = true →
  in_int64 (lg_disappearing_timer g) = true → members_ok (lg_members g) →
  let enc := (size (lg_enc_pubkey g) =? 32) && (size (lg_enc_seckey g) =? 32) in
  ∃ b', set_legacy_group g b = (Ok tt, b') ∧ writable b' ∧
    get_legacy_group (lg_bchat_id g) (data_of b') = Ok (Some (mkLegacy
      (stored_base (lg_base g) (stake NAME_MAX_LENGTH (g_name (lg_base g)))) (lg_bchat_id g)
      (if enc then lg_enc_pubkey g else "") (if enc then lg_enc_seckey g else "")
      (Z.max 0 (lg_disappearing_timer g)) (lg_members g))).
Proof.
  intros Hb Hk Hbt Ht Hm enc.
  destruct (edits_set_legacy g _ k (writable_data _ Hb) Hbt Ht Hk b Hb eq_refl) as ([] & b' & E & Hb' & Hd & _).
  assert (is_Some (field_dict (legacy_path k) (data_of b'))) as [info Hinfo].
  { rewrite Hd. unfold legacy_fields. rewrite put_members_app. apply field_dict_written. }
  assert (∀ x o, assoc x (legacy_fields g) = Some o → mfind x info = o) as Hf.
  { intros x o Hx. rewrite (member_find _ _ _ _ Hinfo), Hd, get_put_members by apply legacy_fields_nodup. by rewrite Hx. }
  assert (∀ x o, assoc x (base_fields (lg_base g)) = None → assoc x (skipn 5 (legacy_fields g)) = Some o → mfind x info = o) as Hf2.
  { intros x o Hx1 Hx2. apply Hf. unfold legacy_fields. by rewrite assoc_app, Hx1. }
  exists b'. split_and!; [done..|]. unfold get_legacy_group. rewrite Hk, bind_ret, Hinfo. unfold new_legacy, check_bchat_id.
  apply bchat_id_to_bytes_Ok in Hk as [-> _]. cbn [require]. rewrite !bind_ret. do 2 f_equal. unfold legacy_load.
  assert (match maybe_vector info "k", maybe_vector info "K" with
    | Some p, Some s => if (size p =? 32) && (size s =? 32) then (p, s) else ("", "")
    | _, _ => ("", "")
    end = (if enc then lg_enc_pubkey g else "", if enc then lg_enc_seckey g else "")) as ->.
  { unfold maybe_vector, maybe_string, maybe_scalar.
    rewrite (Hf2 "k" _ eq_refl eq_refl), (Hf2 "K" _ eq_refl eq_refl). fold enc.
    destruct enc eqn:Ee; [|done]. cbn [value_if str_value]. unfold enc in Ee. by rewrite Ee. }
  assert (default "" (maybe_string info "n") = stake NAME_MAX_LENGTH (g_name (lg_base g))) as ->.
  { change (default "" (maybe_string info "n")) with (string_or_empty info "n").
    by rewrite (string_or_empty_find info "n" _ (Hf2 "n" _ eq_refl eq_refl)). }
  rewrite (base_load_fields (lg_base g)); [|done|intros x o Hx; apply Hf; by apply base_assoc].
  rewrite (int_or_0_find info "E" _ (Hf2 "E" _ eq_refl eq_refl)), as_int_positive, (Z.max_r 0 (Z.max 0 _)) by lia.
  f_equal.
  assert (∀ key a ms, mfind key info = stored (DSet (pick_members a (lg_members g) [])) →
    match maybe_set info key with Some s => load_members s a ms | None => ms end =
    load_members (pick_members a (lg_members g) []) a ms) as Hset.
  { intros key a ms Hfind. unfold maybe_set. rewrite Hfind. unfold stored.
    by destruct (pick_members a (lg_members g) []). }
  rewrite (Hset "m" false []), (Hset "a" true) by (apply Hf2; reflexivity).
  destruct (load_members_find (pick_members false (lg_members g) []) false [] "" eq_refl) as [_ Hs1].
  apply msorted_ext; [by apply (load_members_find _ _ _ "")|by apply Hm|]. intros id.
  rewrite (proj1 (load_members_find _ true _ id Hs1)), (proj1 (load_members_find _ false [] id eq_refl)).
  rewrite !members_picked by done. simpl. destruct (mfind id (lg_members g)) as [[]|]; done.
Qed.

(** *** Communities *)
Definition community_fields (c : community_info) : list (bytes * option dict_value) :=
  base_fields (cm_base c) ++ [("n", Some (str_value (room (cm_comm c))))].

Lemma edits_set_community c d :
  dict_ok d = true → base_typed (cm_base c) = true →
  edits d (set_community c)
    (put_members (community_field (cm_comm c)) (community_fields c)
       (put_opt (sub (server_path (base_url (cm_comm c))) "#") (Some (str_value (pubkey (cm_comm c)))) d)).
Proof.
  intros Hd Hb. unfold set_community. eapply edits_bind; [edit_one|intros _].
  set (d1 := put_opt _ _ d). assert (dict_ok d1 = true) as Hd1 by (unfold d1; edit_ok). clearbody d1.
  cbv zeta. set (q := community_field (cm_comm c)). unfold community_fields. rewrite put_members_app.
  pose proof (put_base_ok _ q d1 Hd1 Hb) as Hd2. eapply edits_bind; [by apply edits_set_base|intros _].
  eapply edits_eq; [edit_one|reflexivity].
Qed.

(** Nothing is below a path that leads nowhere. *)
Lemma below_none q k d : get_clean q d = None → get_clean (sub q k) d = None.
Proof. intros Hq. rewrite <-entry_find. unfold field_dict. by rewrite Hq. Qed.

Lemma new_community_parts url rm pk comm og url' rm' :
  community_with_pubkey url rm pk = Ok comm → new_community url' rm' = Ok og →
  base_url og = base_url comm → room_norm og = room_norm comm →
  set_room (room comm) og = Ok (mkCommunity (base_url comm) (room_norm comm) (Some (room comm)) "") ∧
  size (pubkey comm) = 32 ∧ comm = mkCommunity (base_url comm) (room_norm comm) (Some (room comm)) (pubkey comm).
Proof.
  unfold community_with_pubkey, new_community, set_base_url, set_room, set_pubkey. intros Hc Hog.
  inv_result. simpl in *. intros -> ->. split_and!; [|by apply Z.eqb_eq|done].
  lazymatch goal with Hr : canonical_room rm = Ok _ |- context [room ?x] => change (room x) with rm; by rewrite Hr end.
Qed.

(** (communities).  A stored community is found again under every spelling
    of its URL and room, with the room name as it was stored and the server's
    key; erasing it says that it was there and removes it, together with the
    server when that has no other room, and otherwise keeps the server's other
    rooms. *)
Theorem community_lifecycle (b : ConfigBase) (bg : base_group_info) (url rm pk : bytes) (comm : community) :
  writable b → community_with_pubkey url rm pk = Ok comm → base_typed bg = true →
  ∃ b', set_community (mkCommInfo bg comm) b = (Ok tt, b') ∧ writable b' ∧
    (∀ url' rm' og, new_community url' rm' = Ok og → base_url og = base_url comm → room_norm og = room_norm comm →
       get_community url' rm' (data_of b') = Ok (Some (mkCommInfo (stored_base bg "") comm))) ∧
    ∃ b2 rooms, erase_community_info comm b' = (Ok true, b2) ∧ writable b2 ∧
      get_clean (community_field comm) (data_of b2) = None ∧
      field_dict (sub (server_path (base_url comm)) "R") (data_of b') = Some rooms ∧
      (merase (room_norm comm) rooms = [] → get_clean (server_path (base_url comm)) (data_of b2) = None) ∧
      (merase (room_norm comm) rooms ≠ [] →
         ∀ r, r ≠ room_norm comm → get_clean (sub (sub (server_path (base_url comm)) "R") r) (data_of b2) = mfind r rooms).
Proof.
  intros Hb Hcomm Hbt. set (c := mkCommInfo bg comm).
  destruct (edits_set_community c _ (writable_data _ Hb) Hbt b Hb eq_refl) as ([] & b' & E & Hb' & Hd & _).
  set (server := server_path (base_url comm)) in *. set (q := community_field comm) in *.
  change (community_field (cm_comm c)) with q in Hd. change (cm_comm c) with comm in Hd. fold server in Hd.
  set (d1 := put_opt (sub server "#") _ _) in Hd.
  assert (is_Some (field_dict q (data_of b'))) as [info Hinfo].
  { rewrite Hd. unfold community_fields. rewrite put_members_app. apply field_dict_written. }
  assert (NoDup (community_fields c).*1) as Hnd.
  { unfold community_fields. apply (bool_decide_unpack _). vm_compute. done. }
  assert (∀ x o, assoc x (community_fields c) = Some o → mfind x info = o) as Hf.
  { intros x o Hx. rewrite (member_find _ _ _ _ Hinfo), Hd, get_put_members by done. by rewrite Hx. }
  assert (∃ rooms, field_dict (sub server "R") (data_of b') = Some rooms) as [rooms Hrooms].
  { unfold field_dict in Hinfo. unfold q, community_field in Hinfo. fold server in Hinfo. rewrite <-entry_find in Hinfo.
    destruct (field_dict (sub server "R") (data_of b')); [eauto|done]. }
  exists b'. split_and!; [done..| |].
  - intros url' rm' og Hog Hbu Hrn. destruct (new_community_parts _ _ _ _ _ _ _ Hcomm Hog Hbu Hrn) as (Hroom & Hpk & Heq).
    unfold get_community. rewrite Hog, bind_ret. unfold community_field. rewrite Hbu, Hrn.
    fold server. change (sub (sub server "R") (room_norm comm)) with q. rewrite Hinfo.
    unfold community_load. assert (maybe_string info "n" = Some (room comm)) as ->.
    { unfold maybe_string, maybe_scalar. rewrite (Hf "n" _ ltac:(unfold community_fields; rewrite assoc_app; reflexivity)). done. }
    cbn [cm_comm]. rewrite Hroom, !bind_ret. cbn [cm_base g_name blank_base].
    rewrite (base_load_fields bg); [|done|intros x o Hx; apply Hf; by apply base_assoc].
    assert (string_view_or (sub server "#") (data_of b') "" = pubkey comm) as ->.
    { unfold string_view_or, field_string. rewrite Hd, get_put_members_other.
      - unfold d1. by rewrite get_put_same.
      - intros k. unfold q, community_field, server. simpl. by rewrite !keqb_refl. }
    cbv zeta. rewrite Hpk. cbn [Z.eqb Pos.eqb]. unfold set_pubkey. rewrite Hpk. cbn [Z.eqb Pos.eqb require].
    rewrite !bind_ret. cbn [base_url_ room_ localized_room_ cm_comm]. by rewrite <-Heq.
  - destruct (edits_erase q _ (writable_data _ Hb') b' Hb' eq_refl) as ([] & b1 & E1 & Hb1 & Hd1 & _).
    assert (field_exists q (data_of b') = true) as Hex.
    { unfold field_exists. unfold field_dict in Hinfo. by destruct (get_clean q (data_of b')). }
    assert (field_dict (sub server "R") (data_of b1) = Some (merase (room_norm comm) rooms)) as Hrooms1.
    { rewrite Hd1. unfold q, community_field. fold server. by rewrite field_dict_put, Hrooms. }
    destruct (merase (room_norm comm) rooms) as [|e rest] eqn:Er.
    + assert (edits (data_of b1) (erase_field (sub server "R");; erase_field server)
        (put_opt server None (put_opt (sub server "R") None (data_of b1)))) as Hed.
      { eapply edits_bind; [apply edits_erase; by apply writable_data|intros _]. apply edits_erase.
        apply put_opt_dict_ok; [by apply writable_data|done]. }
      destruct (Hed b1 Hb1 eq_refl) as ([] & b2 & E2 & Hb2 & Hd2 & _).
      assert (get_clean server (data_of b2) = None) as Hnone by (rewrite Hd2; apply get_put_same).
      exists b2, rooms. split_and!; try done.
      * unfold erase_community_info, erase_impl. fold q server. rewrite run_bind, run_mget, Hex. cbv zeta.
        rewrite run_bind, E1. cbn [mret M_ret]. rewrite run_when, run_bind, run_mget, Hrooms1. cbn [is_nil].
        change (when true ?m) with m. rewrite E2. done.
      * unfold q, community_field. fold server. by apply below_none, below_none.
    + exists b1, rooms. split_and!; try done.
      * unfold erase_community_info, erase_impl. fold q server. rewrite run_bind, run_mget, Hex. cbv zeta.
        rewrite run_bind, E1. cbn [mret M_ret]. rewrite run_when, run_bind, run_mget, Hrooms1. done.
      * rewrite Hd1. apply get_put_same.
      * by rewrite Er.
      * intros _ r Hr. rewrite (member_find _ r _ rooms Hrooms). rewrite Hd1. apply get_put_other.
        unfold q, community_field. fold server. by apply independent_members.
Qed.
End groups.

(** The key of a group is lost when the group is looked up with an id in upper
    case, although the id is accepted and the group found. *)
Definition sample_seed : bytes := zeros 32.
Definition sample_group_key : bytes := (seed_keypair sample_seed).2.
Definition sample_group_id : bytes := "03" +:+ hex_digits (seed_keypair sample_seed).1.
Definition sample_base : base_group_info := mkBase 1 1700000000 mentions_only 0 "Friends" true.
Definition sample_group : group_info := mkGroup sample_base sample_group_id sample_group_key "" NOT_REMOVED.

Definition upper (c : ascii) : ascii := if is_lower c then ascii_of_N (N_of_ascii c - 32) else c.
Fixpoint make_uc (s : bytes) : bytes := match s with "" => "" | String c s => String (upper c) (make_uc s) end.

Lemma group_key_case_sensitive :
  let d := data_of (final (set_group sample_group) new_config) in
  match get_group sample_group_id d, get_group (make_uc sample_group_id) d with
  | Ok (Some g1), Ok (Some g2) => (gr_secretkey g1, gr_secretkey g2)
  | _, _ => ("", "?")
  end = (sample_group_key, "").
Proof. vm_compute. reflexivity. Qed.

(** ** Examples *)
Lemma group_roundtrip_witness :
  ∃ b' g', set_group sample_group new_config = (Ok tt, b') ∧
    get_group sample_group_id (data_of b') = Ok (Some g') ∧ gr_secretkey g' = sample_group_key.
Proof.
  destruct (group_roundtrip new_config sample_group (unhex sample_group_id) writable_new)
    as (b' & g' & E & _ & Hg & _ & _ & Hs & _); [vm_compute; reflexivity..|].
  exists b', g'. split; [exact E|]. split; [exact Hg|].
  rewrite (Hs sample_seed); vm_compute; reflexivity.
Defined.

Definition sample_legacy : legacy_group_info :=
  mkLegacy sample_base ("05" +:+ hex_digits (zeros 32)) "" "" 60
    [("05" +:+ hex_digits (zeros 32), true); ("05" +:+ hex_digits ("z" +:+ zeros 31), false)].

Lemma sample_members_ok : members_ok (lg_members sample_legacy).
Proof.
  split; [vm_compute; reflexivity|]. intros id a Hin. simpl in Hin.
  apply elem_of_cons in Hin as [Hin|Hin]; [|apply elem_of_cons in Hin as [Hin|Hin]; [|by apply elem_of_nil in Hin]];
    injection Hin as -> ->; split; vm_compute; reflexivity.
Qed.

Lemma legacy_group_roundtrip_witness :
  ∃ b' g', set_legacy_group sample_legacy new_config = (Ok tt, b') ∧
    get_legacy_group (lg_bchat_id sample_legacy) (data_of b') = Ok (Some g') ∧ lg_members g' = lg_members sample_legacy.
Proof.
  destruct (legacy_group_roundtrip new_config sample_legacy (unhex (lg_bchat_id sample_legacy)) writable_new)
    as (b' & E & _ & Hg); [vm_compute; reflexivity..|exact sample_members_ok|].
  eexists b', _. split; [exact E|]. split; [exact Hg|]. reflexivity.
Defined.

Lemma community_lifecycle_witness :
  ∃ b' b2, set_community (mkCommInfo sample_base (mkCommunity "https://example.org" "lobby" (Some "Lobby") (zeros 32))) new_config
      = (Ok tt, b') ∧
    erase_community_info (mkCommunity "https://example.org" "lobby" (Some "Lobby") (zeros 32)) b' = (Ok true, b2).
Proof.
  destruct (community_lifecycle new_config sample_base "https://Example.org" "Lobby" (zeros 32)
    (mkCommunity "https://example.org" "lobby" (Some "Lobby") (zeros 32)) writable_new)
    as (b' & E & _ & _ & b2 & rooms & E2 & _); [vm_compute; reflexivity..|].
  exists b', b2. split; [exact E|exact E2].
Defined.
