(* ===== verification/ConvoInfo.v ===== *)
(** * The volatile conversation info config

    [src/config/convo_info_volatile.cpp] and
    [include/bchat/config/convo_info_volatile.hpp]: what has been read in each
    conversation.  [now] is [std::chrono::system_clock::now()], which counts
    nanoseconds; the stored times count milliseconds. *)

From Stdlib Require Import ZArith String Ascii Lia.
From stdpp Require Import base option list strings numbers sorting sets.
From S2P Require Import Prelude OrderedMap Bt Bencode Crypto ConfigData ConfigMessage State Util ConfigBase ConfigState ConfigLifecycle ConfigFields Text Ids Community Records Contacts UserGroups.

(** ** Conversations *)
Record convo_base := mkConvo { last_read : Z; unread : bool }.
Record pro_base := mkProBase { pb_base : convo_base; pro_gen_index_hash : option bytes; pro_expiry_unix_ts : Z }.
Record one_to_one := mkOne { o_pro : pro_base; o_bchat_id : bytes }.
Record convo_community := mkConvoComm { cc_base : convo_base; cc_comm : community }.
Record convo_group := mkConvoGroup { cg_base : convo_base; cg_id : bytes }.
Record convo_legacy_group := mkConvoLegacy { cl_base : convo_base; cl_id : bytes }.
Record blinded_one_to_one := mkBlindedOne {
  bo_pro : pro_base; bo_blinded_id : bytes; bo_legacy_blinding : bool }.

Definition no_convo : convo_base := mkConvo 0 false.
Definition no_pro : pro_base := mkProBase no_convo None 0.

(** [base::load] and [pro_base::load] *)
Definition convo_load (info : dict) : convo_base :=
  mkConvo (int_or_0 info "r") (negb (int_or_0 info "u" =? 0)).
Definition pro_base_load (info : dict) (p : pro_base) : pro_base :=
  let expiry := int_or_0 info "e" in
  match maybe_vector info "g" with
  | Some h => if (0 <? expiry) && (size h =? 32) then mkProBase (convo_load info) (Some h) expiry
              else mkProBase (convo_load info) (pro_gen_index_hash p) (pro_expiry_unix_ts p)
  | None => mkProBase (convo_load info) (pro_gen_index_hash p) (pro_expiry_unix_ts p)
  end.

(** Durations, in nanoseconds *)
Definition NS_PER_MS : Z := 1000000.
Definition PRUNE_LOW : Z := 30 * 24 * 3600 * 1000 * NS_PER_MS.
Definition PRUNE_HIGH : Z := 45 * 24 * 3600 * 1000 * NS_PER_MS.

(** A time in milliseconds converted to the clock's nanoseconds, which
    overflows in the far future *)
Definition ms_to_ns (ms : Z) : result Z :=
  if in_int64 (ms * NS_PER_MS) then Ok (ms * NS_PER_MS) else Throw undefined_behaviour.

(** [is_stale] for conversations without and with Pro data *)
Definition is_stale (c : convo_base) (cutoff : Z) : result bool :=
  if unread c then Ok false else t ← ms_to_ns (last_read c); Ok (t <? cutoff).
Definition is_stale_pro (c : pro_base) (cutoff : Z) : result bool :=
  if unread (pb_base c) then Ok false else
  fresh_pro ← (match pro_gen_index_hash c with
               | Some _ => t ← ms_to_ns (pro_expiry_unix_ts c); Ok (cutoff <=? t)
               | None => Ok false
               end);
  if fresh_pro : bool then Ok false else t ← ms_to_ns (last_read (pb_base c)); Ok (t <? cutoff).

Section convos.
Context `{BtLib, Hash, Oxenc}.

Definition new_one_to_one (sid : bytes) : result one_to_one :=
  _ ← check_bchat_id sid "05"; Ok (mkOne no_pro sid).
Definition new_convo_group (id : bytes) : result convo_group :=
  _ ← check_bchat_id id "03"; Ok (mkConvoGroup no_convo id).
Definition new_convo_legacy_group (id : bytes) : result convo_legacy_group :=
  _ ← check_bchat_id id "05"; Ok (mkConvoLegacy no_convo id).
Definition check_blinded (prefix : BChatIDPrefix) : result () :=
  require (bool_decide (prefix = community_blinded) || bool_decide (prefix = community_blinded_legacy))
    invalid_argument.
Definition new_blinded_one (sid : bytes) : result blinded_one_to_one :=
  prefix ← get_bchat_id_prefix sid;
  _ ← check_blinded prefix;
  Ok (mkBlindedOne no_pro sid (bool_decide (prefix = community_blinded_legacy))).

Definition one_path (pk : bytes) : path := sub (root "1") pk.
Definition convo_group_path (pk : bytes) : path := sub (root "g") pk.
Definition convo_legacy_path (pk : bytes) : path := sub (root "C") pk.
Definition blinded_one_path (pk : bytes) : path := sub (root "b") pk.

(** ** Reading *)
Definition get_1to1 (id : bytes) (d : dict) : result (option one_to_one) :=
  pubkey ← bchat_id_to_bytes id "05";
  match field_dict (one_path pubkey) d with
  | None => Ok None
  | Some info => c ← new_one_to_one id; Ok (Some (mkOne (pro_base_load info (o_pro c)) (o_bchat_id c)))
  end.
Definition get_or_construct_1to1 (id : bytes) (d : dict) : result one_to_one :=
  maybe ← get_1to1 id d; match maybe with Some c => Ok c | None => new_one_to_one id end.

Definition convo_community_field (c : community) : path :=
  sub (sub (sub (root "o") (base_url c)) "R") (room_norm c).

Definition get_convo_community (url rm : bytes) (d : dict) : result (option convo_community) :=
  r ← canonical_room rm;
  og ← new_community url r;
  match field_dict (convo_community_field og) d with
  | None => Ok None
  | Some info =>
      let pk := string_view_or (sub (sub (root "o") (base_url og)) "#") d "" in
      if size pk =? 32 then og ← set_pubkey pk og; Ok (Some (mkConvoComm (convo_load info) og))
      else Ok (Some (mkConvoComm (convo_load info) og))
  end.
Definition get_convo_community_url (partial_url : bytes) (d : dict) : result (option convo_community) :=
  '(base, rm, _) ← parse_partial_url partial_url; get_convo_community base rm d.
Definition construct_convo_community (c : community) (d : dict) : convo_community :=
  match field_dict (convo_community_field c) d with
  | Some info => mkConvoComm (convo_load info) c
  | None => mkConvoComm no_convo c
  end.
Definition get_or_construct_convo_community (url rm pk : bytes) (d : dict) : result convo_community :=
  r ← canonical_room rm; c ← community_with_pubkey url r pk; Ok (construct_convo_community c d).
Definition get_or_construct_convo_community_url (full_url : bytes) (d : dict) : result convo_community :=
  '(base, rm, pk) ← parse_full_url full_url; get_or_construct_convo_community base rm pk d.
Definition get_or_construct_convo_community_encoded (url rm pk : bytes) (d : dict) : result convo_community :=
  c ← community_with_encoded url rm pk; Ok (construct_convo_community c d).

Definition get_convo_group (id : bytes) (d : dict) : result (option convo_group) :=
  pubkey ← bchat_id_to_bytes id "03";
  match field_dict (convo_group_path pubkey) d with
  | None => Ok None
  | Some info => c ← new_convo_group id; Ok (Some (mkConvoGroup (convo_load info) (cg_id c)))
  end.
Definition get_or_construct_convo_group (id : bytes) (d : dict) : result convo_group :=
  maybe ← get_convo_group id d; match maybe with Some c => Ok c | None => new_convo_group id end.

Definition get_convo_legacy_group (id : bytes) (d : dict) : result (option convo_legacy_group) :=
  pubkey ← bchat_id_to_bytes id "05";
  match field_dict (convo_legacy_path pubkey) d with
  | None => Ok None
  | Some info => c ← new_convo_legacy_group id; Ok (Some (mkConvoLegacy (convo_load info) (cl_id c)))
  end.
Definition get_or_construct_convo_legacy_group (id : bytes) (d : dict) : result convo_legacy_group :=
  maybe ← get_convo_legacy_group id d;
  match maybe with Some c => Ok c | None => new_convo_legacy_group id end.

Definition get_blinded_1to1 (id : bytes) (d : dict) : result (option blinded_one_to_one) :=
  prefix ← get_bchat_id_prefix id;
  _ ← check_blinded prefix;
  pubkey ← bchat_id_to_bytes id (prefix_string prefix);
  match field_dict (blinded_one_path pubkey) d with
  | None => Ok None
  | Some info => c ← new_blinded_one id;
                 Ok (Some (mkBlindedOne (pro_base_load info (bo_pro c)) (bo_blinded_id c) (bo_legacy_blinding c)))
  end.
Definition get_or_construct_blinded_1to1 (id : bytes) (d : dict) : result blinded_one_to_one :=
  maybe ← get_blinded_1to1 id d; match maybe with Some c => Ok c | None => new_blinded_one id end.

(** ** Writing *)

(** [ConvoInfoVolatile::set_base]: a time before the stored one is always
    written, a later one only if it is recent *)
Definition set_convo_base (now : Z) (c : convo_base) (info : path) : M ConfigBase () :=
  b ← mget;
  (if match field_integer (sub info "r") (data_of b) with Some v => last_read c <? v | None => false end
   then assign_int (sub info "r") (last_read c)
   else
     t ← lift (ms_to_ns (last_read c));
     when (now - PRUNE_LOW <? t) (assign_int (sub info "r") (last_read c)));;
  set_flag (sub info "u") (unread c).

Definition set_pro_fields (c : pro_base) (info : path) : M ConfigBase () :=
  match pro_gen_index_hash c with
  | Some h =>
      if 0 <? pro_expiry_unix_ts c then
        set_nonzero_int (sub info "e") (pro_expiry_unix_ts c);;
        assign_str (sub info "g") h
      else skip
  | None => skip
  end.

Definition set_1to1 (now : Z) (c : one_to_one) : M ConfigBase () :=
  pk ← lift (bchat_id_to_bytes (o_bchat_id c) "05");
  set_convo_base now (pb_base (o_pro c)) (one_path pk);;
  set_pro_fields (o_pro c) (one_path pk).

Definition set_convo_community (now : Z) (c : convo_community) : M ConfigBase () :=
  assign_str (sub (sub (root "o") (base_url (cc_comm c))) "#") (pubkey (cc_comm c));;
  set_convo_base now (cc_base c) (convo_community_field (cc_comm c)).
Definition set_convo_group (now : Z) (c : convo_group) : M ConfigBase () :=
  pk ← lift (bchat_id_to_bytes (cg_id c) "03"); set_convo_base now (cg_base c) (convo_group_path pk).
Definition set_convo_legacy_group (now : Z) (c : convo_legacy_group) : M ConfigBase () :=
  pk ← lift (bchat_id_to_bytes (cl_id c) "05"); set_convo_base now (cl_base c) (convo_legacy_path pk).
Definition set_blinded_1to1 (now : Z) (c : blinded_one_to_one) : M ConfigBase () :=
  pk ← lift (bchat_id_to_bytes (bo_blinded_id c) (if bo_legacy_blinding c then "15" else "25"));
  set_convo_base now (pb_base (bo_pro c)) (blinded_one_path pk);;
  set_nonzero_int (sub (blinded_one_path pk) "y") (if bo_legacy_blinding c then 1 else 0);;
  set_pro_fields (bo_pro c) (blinded_one_path pk).

(** ** Erasing *)
Definition erase_1to1 (id : bytes) : M ConfigBase bool :=
  c ← lift (new_one_to_one id);
  pk ← lift (bchat_id_to_bytes (o_bchat_id c) "05"); erase_impl (one_path pk).
Definition erase_convo_group (id : bytes) : M ConfigBase bool :=
  c ← lift (new_convo_group id);
  pk ← lift (bchat_id_to_bytes (cg_id c) "03"); erase_impl (convo_group_path pk).
Definition erase_convo_legacy_group (id : bytes) : M ConfigBase bool :=
  c ← lift (new_convo_legacy_group id);
  pk ← lift (bchat_id_to_bytes (cl_id c) "05"); erase_impl (convo_legacy_path pk).
Definition erase_blinded_1to1 (id : bytes) : M ConfigBase bool :=
  c ← lift (new_blinded_one id);
  pk ← lift (bchat_id_to_bytes (bo_blinded_id c) (if bo_legacy_blinding c then "15" else "25"));
  erase_impl (blinded_one_path pk).
Definition erase_convo_community (url rm : bytes) : M ConfigBase bool :=
  c ← lift (new_community url rm);
  gone ← erase_impl (convo_community_field c);
  when gone
    (b ← mget;
     let server_info := sub (root "o") (base_url c) in
     let rooms := sub server_info "R" in
     when (match field_dict rooms (data_of b) with Some rd => is_nil rd | None => true end)
       (erase_field rooms;; erase_field server_info));;
  mret gone.

(** ** Iteration: [val_loader::load] skips what is no conversation *)
Fixpoint convos_from {C} (ok : bytes → bool) (load : bytes → dict → result C) (entries : dict)
    : result (list C) :=
  match entries with
  | [] => Ok []
  | (k, v) :: rest =>
      match v with
      | DDict info =>
          if ok k then c ← load (to_hex k) info; l ← convos_from ok load rest; Ok (c :: l)
          else convos_from ok load rest
      | _ => convos_from ok load rest
      end
  end.

Definition load_one (id : bytes) (info : dict) : result one_to_one :=
  c ← new_one_to_one id; Ok (mkOne (pro_base_load info (o_pro c)) (o_bchat_id c)).
Definition load_convo_group (id : bytes) (info : dict) : result convo_group :=
  c ← new_convo_group id; Ok (mkConvoGroup (convo_load info) (cg_id c)).
Definition load_convo_legacy (id : bytes) (info : dict) : result convo_legacy_group :=
  c ← new_convo_legacy_group id; Ok (mkConvoLegacy (convo_load info) (cl_id c)).
Definition load_blinded_one (id : bytes) (info : dict) : result blinded_one_to_one :=
  c ← new_blinded_one id;
  Ok (mkBlindedOne (pro_base_load info (bo_pro c)) (bo_blinded_id c) (bo_legacy_blinding c)).
Definition load_convo_comm (server r pk : bytes) (info : dict) : result convo_community :=
  c ← set_base_url server empty_community;
  c ← set_room r c;
  c ← set_pubkey pk c;
  Ok (mkConvoComm (convo_load info) c).

Definition entries_at (k : bytes) (d : dict) : dict := default [] (field_dict (root k) d).

Definition all_1to1 (d : dict) : result (list one_to_one) :=
  convos_from (key_prefixed "005") load_one (entries_at "1" d).
Definition all_convo_groups (d : dict) : result (list convo_group) :=
  convos_from (key_prefixed "003") load_convo_group (entries_at "g" d).
Definition all_convo_legacy_groups (d : dict) : result (list convo_legacy_group) :=
  convos_from (key_prefixed "005") load_convo_legacy (entries_at "C" d).
Definition all_blinded_1to1 (d : dict) : result (list blinded_one_to_one) :=
  convos_from (λ k, key_prefixed "037" k || key_prefixed "021" k) load_blinded_one (entries_at "b" d).
Definition all_convo_communities (d : dict) : result (list convo_community) :=
  match field_dict (root "o") d with
  | Some servers =>
      comm_all load_convo_comm (S (length (communities load_convo_comm servers))) (mkCommIter (Some servers) None)
  | None => Ok []
  end.

(** ** Pruning *)
Fixpoint filter_stale {C I} (stale : C → result bool) (ident : C → I) (l : list C) : result (list I) :=
  match l with
  | [] => Ok []
  | c :: l => s ← stale c; r ← filter_stale stale ident l; Ok (if s : bool then ident c :: r else r)
  end.

Definition prune_kind {C} (all : dict → result (list C)) (stale : C → result bool) (ident : C → bytes)
    (erase : bytes → M ConfigBase bool) : M ConfigBase () :=
  b ← mget;
  l ← lift (all (data_of b));
  ids ← lift (filter_stale stale ident l);
  forM_ ids (λ id, erase id;; skip).

Definition prune_stale (now prune : Z) : M ConfigBase () :=
  let cutoff := now - prune in
  prune_kind all_1to1 (λ c, is_stale_pro (o_pro c) cutoff) o_bchat_id erase_1to1;;
  prune_kind all_convo_legacy_groups (λ c, is_stale (cl_base c) cutoff) cl_id erase_convo_legacy_group;;
  prune_kind all_blinded_1to1 (λ c, is_stale_pro (bo_pro c) cutoff) bo_blinded_id erase_blinded_1to1;;
  prune_kind all_convo_groups (λ c, is_stale (cg_base c) cutoff) cg_id erase_convo_group;;
  b ← mget;
  l ← lift (all_convo_communities (data_of b));
  ids ← lift (filter_stale (λ c, is_stale (cc_base c) cutoff) (λ c, (base_url (cc_comm c), room (cc_comm c))) l);
  forM_ ids (λ i, erase_convo_community i.1 i.2;; skip).

(** [ConvoInfoVolatile::push]: prunes, then pushes; [clock] is the time that
    [ConfigBase::push] reads *)
Definition convo_push `{Aead, Zstd, !Ed25519, ProtoWrap} (kind : Kind) (now clock : Z)
    : M ConfigBase (Z * list bytes * list bytes) :=
  prune_stale now PRUNE_HIGH;; push kind clock.

(** ** Sizes *)
Definition size_1to1 (d : dict) : Z := dict_size (root "1") d.
Definition size_convo_groups (d : dict) : Z := dict_size (root "g") d.
Definition size_convo_legacy_groups (d : dict) : Z := dict_size (root "C") d.
Definition size_blinded_1to1 (d : dict) : Z := dict_size (root "b") d.
Definition convos_size (d : dict) : Z :=
  size_1to1 d + size_communities d + size_convo_legacy_groups d + size_convo_groups d + size_blinded_1to1 d.

(** ** The read marker *)

(** The value of ["r"] after a write *)
Definition marker (now : Z) (c : convo_base) (old : option dict_value) (t : Z) : option dict_value :=
  if match old with Some (DScalar (inl v)) => last_read c <? v | _ => false end then Some (int_value (last_read c))
  else if now - PRUNE_LOW <? t then Some (int_value (last_read c)) else old.

Definition convo_writes (now : Z) (c : convo_base) (q : path) (t : Z) (d : dict) : dict :=
  put_opt (sub q "u") (flag_value (unread c))
    (match marker now c (get_clean (sub q "r") d) t with
     | Some v => put_opt (sub q "r") (Some v) d
     | None => d
     end).

Lemma put_found p d v : dict_ok d = true → get_clean p d = Some v → put_opt p (Some v) d = d.
Proof. intros Hd Hg. by apply put_path_found. Qed.

Lemma edits_convo_base now c q t d :
  dict_ok d = true → in_int64 (last_read c) = true → ms_to_ns (last_read c) = Ok t →
  edits d (set_convo_base now c q) (convo_writes now c q t d).
Proof.
  intros Hd Hr Ht. unfold set_convo_base, convo_writes, marker. apply edits_mget. intros b ->.
  unfold field_integer. set (o := get_clean (sub q "r") d).
  assert (match match o with Some (DScalar (inl z)) => Some z | _ => None end with
    | Some v => last_read c <? v | None => false end =
    match o with Some (DScalar (inl v)) => last_read c <? v | _ => false end) as -> by by destruct o as [[| |[]]|].
  destruct (match o with Some (DScalar (inl v)) => last_read c <? v | _ => false end).
  { eapply edits_bind; [edit_one|intros _]. edit_one. }
  destruct (now - PRUNE_LOW <? t) eqn:E.
  - eapply edits_bind; [eapply edits_lift; [exact Ht|]; rewrite E; unfold when; edit_one|intros _]. edit_one.
  - eapply edits_bind with (d1 := d); [eapply edits_lift; [exact Ht|]; rewrite E; apply edits_ret|intros _].
    destruct o as [v|] eqn:Eo; [rewrite put_found by done|]; edit_one.
Qed.

Definition pro_writes (p : pro_base) (q : path) (d : dict) : dict :=
  match pro_gen_index_hash p with
  | Some h => if 0 <? pro_expiry_unix_ts p
              then put_opt (sub q "g") (Some (str_value h)) (put_opt (sub q "e") (nonzero_value (pro_expiry_unix_ts p)) d)
              else d
  | None => d
  end.

Lemma edits_pro_fields p q d :
  dict_ok d = true → in_int64 (pro_expiry_unix_ts p) = true → edits d (set_pro_fields p q) (pro_writes p q d).
Proof.
  intros Hd He. unfold set_pro_fields, pro_writes. destruct (pro_gen_index_hash p); [|apply edits_ret].
  destruct (0 <? pro_expiry_unix_ts p); [|apply edits_ret]. edit_record.
Qed.

Lemma convo_writes_ok now c q t d :
  dict_ok d = true → in_int64 (last_read c) = true → dict_ok (convo_writes now c q t d) = true.
Proof.
  intros Hd Hr. unfold convo_writes. apply put_opt_dict_ok; [|apply opt_ok_flag].
  destruct (marker now c (get_clean (sub q "r") d) t) as [v|] eqn:E; [|done].
  apply put_opt_dict_ok; [done|]. unfold marker in E.
  destruct (match get_clean (sub q "r") d with Some (DScalar (inl v)) => last_read c <? v | _ => false end);
    [by injection E as <-|]. destruct (now - PRUNE_LOW <? t); [by injection E as <-|].
  simpl. by eapply find_path_ok.
Qed.

Lemma convo_writes_get now c q t d :
  get_clean (sub q "u") (convo_writes now c q t d) = flag_value (unread c) ∧
  get_clean (sub q "r") (convo_writes now c q t d) = marker now c (get_clean (sub q "r") d) t ∧
  ∀ k, k ≠ "u" → k ≠ "r" → get_clean (sub q k) (convo_writes now c q t d) = get_clean (sub q k) d.
Proof.
  unfold convo_writes. split_and!; [apply get_put_same| |].
  - rewrite get_put_other by by apply independent_members.
    destruct (marker now c (get_clean (sub q "r") d) t) as [v|] eqn:E; [apply get_put_same|].
    unfold marker in E. destruct (match get_clean (sub q "r") d with Some (DScalar (inl v)) => last_read c <? v | _ => false end); [done|].
    by destruct (now - PRUNE_LOW <? t).
  - intros k Hu Hr. rewrite get_put_other by (apply independent_members; congruence).
    destruct (marker _ _ _ _); [|done]. apply get_put_other, independent_members. congruence.
Qed.

Lemma edits_set_1to1 now c t k d :
  dict_ok d = true → bchat_id_to_bytes (o_bchat_id c) "05" = Ok k →
  in_int64 (last_read (pb_base (o_pro c))) = true → ms_to_ns (last_read (pb_base (o_pro c))) = Ok t →
  in_int64 (pro_expiry_unix_ts (o_pro c)) = true →
  edits d (set_1to1 now c) (pro_writes (o_pro c) (one_path k) (convo_writes now (pb_base (o_pro c)) (one_path k) t d)).
Proof.
  intros Hd Hk Hr Ht He. eapply edits_lift; [exact Hk|].
  eapply edits_bind; [by apply edits_convo_base|intros _]. apply edits_pro_fields; [by apply convo_writes_ok|done].
Qed.

(** (read marker).  Storing a conversation always sets its unread flag.  Its
    last-read time is written when it is before the stored one or at most 30
    days old, and otherwise left as it was; Pro data is written when the
    conversation has it and otherwise left as it was.  So a conversation that
    is recent, or moved back, reads back as it was stored. *)
Theorem read_marker (b : ConfigBase) (now t : Z) (c : one_to_one) (k : bytes) :
  writable b → bchat_id_to_bytes (o_bchat_id c) "05" = Ok k →
  in_int64 (last_read (pb_base (o_pro c))) = true → ms_to_ns (last_read (pb_base (o_pro c))) = Ok t →
  in_int64 (pro_expiry_unix_ts (o_pro c)) = true →
  let old := get_clean (sub (one_path k) "r") (data_of b) in
  ∃ b', set_1to1 now c b = (Ok tt, b') ∧ writable b' ∧
    get_clean (sub (one_path k) "r") (data_of b') = marker now (pb_base (o_pro c)) old t ∧
    get_clean (sub (one_path k) "u") (data_of b') = flag_value (unread (pb_base (o_pro c))) ∧
    (marker now (pb_base (o_pro c)) old t = Some (int_value (last_read (pb_base (o_pro c)))) →
     (∀ h, pro_gen_index_hash (o_pro c) = Some h → size h = 32 ∧ 0 < pro_expiry_unix_ts (o_pro c)) →
     pro_gen_index_hash (o_pro c) ≠ None ∨
       (get_clean (sub (one_path k) "g") (data_of b) = None ∧ pro_expiry_unix_ts (o_pro c) = 0) →
     get_1to1 (o_bchat_id c) (data_of b') = Ok (Some c)).
Proof.
  intros Hb Hk Hr Ht He old. set (q := one_path k).
  destruct (edits_set_1to1 now c t k _ (writable_data _ Hb) Hk Hr Ht He b Hb eq_refl) as ([] & b' & E & Hb' & Hd & _).
  destruct (convo_writes_get now (pb_base (o_pro c)) q t (data_of b)) as (Hu & Hm & Hother).
  set (d1 := convo_writes _ _ _ _ _) in *.
  assert (∀ j, j ≠ "g" → j ≠ "e" → get_clean (sub q j) (data_of b') = get_clean (sub q j) d1) as Hpro.
  { intros j Hg' He'. rewrite Hd. unfold pro_writes. destruct (pro_gen_index_hash (o_pro c)); [|done].
    destruct (0 <? _); [|done]. rewrite !get_put_other; [done|apply independent_members; congruence..]. }
  exists b'. split_and!; [done..|by rewrite Hpro|by rewrite Hpro|]. intros Hmark Hh Hpr.
  assert (get_clean (sub q "r") (data_of b') = Some (int_value (last_read (pb_base (o_pro c))))) as Hr'.
  { by rewrite Hpro, Hm. }
  assert (∃ info, field_dict q (data_of b') = Some info) as [info Hinfo].
  { rewrite <-entry_find in Hr'. destruct (field_dict q (data_of b')); [eauto|done]. }
  unfold get_1to1. rewrite Hk, bind_ret. fold q. rewrite Hinfo. unfold new_one_to_one, check_bchat_id.
  apply bchat_id_to_bytes_Ok in Hk as [-> _]. cbn [require]. rewrite !bind_ret. do 2 f_equal. cbn [o_pro o_bchat_id].
  assert (convo_load info = pb_base (o_pro c)) as Hload.
  { unfold convo_load. rewrite (int_or_0_find info "r" (Some (int_value (last_read (pb_base (o_pro c)))))).
    2: { by rewrite (member_find _ _ _ _ Hinfo). }
    rewrite (int_or_0_find info "u" (flag_value (unread (pb_base (o_pro c))))).
    2: { by rewrite (member_find _ _ _ _ Hinfo), Hpro. }
    rewrite as_int_flag. by destruct (pb_base (o_pro c)). }
  unfold pro_base_load. rewrite Hload. unfold maybe_vector, maybe_string, maybe_scalar.
  rewrite (member_find _ "g" _ _ Hinfo). unfold pro_writes in Hd.
  destruct (pro_gen_index_hash (o_pro c)) as [h|] eqn:Eg.
  - destruct (Hh h eq_refl) as [Hsz Hex]. rewrite (proj2 (Z.ltb_lt _ _) Hex) in Hd. rewrite Hd, get_put_same. cbn [str_value].
    rewrite (int_or_0_find info "e" (nonzero_value (pro_expiry_unix_ts (o_pro c)))).
    2: { rewrite (member_find _ _ _ _ Hinfo), Hd, get_put_other by by apply independent_members. apply get_put_same. }
    rewrite as_int_nonzero, Hsz, (proj2 (Z.ltb_lt _ _) Hex). cbn [Z.eqb Pos.eqb andb].
    destruct c as [[]]. simpl in Eg. by subst.
  - destruct Hpr as [?|[Hg Hz]]; [done|]. rewrite Hd, Hother, Hg by done. destruct c as [[]]. simpl in Eg, Hz. by subst.
Qed.

(** ** Pruning removes exactly the stale conversations *)

(** What staleness means: read, last read before the cutoff and, with Pro
    data, that expired before the cutoff *)
Definition old_convo (c : convo_base) (cutoff : Z) : Prop :=
  unread c = false ∧ last_read c * NS_PER_MS < cutoff.
Definition old_pro (p : pro_base) (cutoff : Z) : Prop :=
  old_convo (pb_base p) cutoff ∧
  (pro_gen_index_hash p ≠ None → pro_expiry_unix_ts p * NS_PER_MS < cutoff).

Definition erase_keys (r : bytes) (ks : list bytes) (d : dict) : dict :=
  fold_left (λ d k, put_opt (sub (root r) k) None d) ks d.

Lemma erase_keys_ok r ks d : dict_ok d = true → dict_ok (erase_keys r ks d) = true.
Proof.
  unfold erase_keys. revert d; induction ks as [|k ks IH]; intros d Hd; [done|]. cbn [fold_left].
  apply IH. by apply put_opt_dict_ok.
Qed.

Lemma erase_keys_get r ks j d :
  get_clean (sub (root r) j) (erase_keys r ks d) = if decide (j ∈ ks) then None else get_clean (sub (root r) j) d.
Proof.
  unfold erase_keys. revert d; induction ks as [|k ks IH]; intros d; [done|]. cbn [fold_left]. rewrite IH.
  destruct (decide (j ∈ ks)); [by rewrite decide_True by (right; done)|].
  destruct (decide (j = k)) as [->|Hne].
  - rewrite get_put_same. by rewrite decide_True by left.
  - rewrite get_put_other by (apply independent_members; congruence).
    rewrite decide_False; [done|]. rewrite elem_of_cons. naive_solver.
Qed.

(** A write below one key of the data leaves the others alone. *)
Definition same_elsewhere (r : bytes) (d d' : dict) : Prop :=
  ∀ r', r' ≠ r → get_clean (root r') d' = get_clean (root r') d.

Lemma erase_keys_elsewhere r ks d : same_elsewhere r d (erase_keys r ks d).
Proof.
  intros r' Hr. unfold erase_keys. revert d; induction ks as [|k ks IH]; intros d; [done|]. cbn [fold_left]. rewrite IH.
  apply get_put_other. simpl. apply negb_true_iff, not_true_iff_false. rewrite keqb_spec. congruence.
Qed.

Lemma same_elsewhere_below r r' k d d' :
  same_elsewhere r d d' → r' ≠ r → get_clean (sub (root r') k) d' = get_clean (sub (root r') k) d.
Proof. intros Hs Hr. rewrite <-!entry_find. unfold field_dict. by rewrite Hs. Qed.

Lemma same_elsewhere_entries r r' d d' :
  same_elsewhere r d d' → r' ≠ r → field_dict (root r') d' = field_dict (root r') d.
Proof. intros Hs Hr. unfold field_dict. by rewrite Hs. Qed.

Lemma edits_erase_impl p d : dict_ok d = true → edits d (erase_impl p) (put_opt p None d).
Proof.
  intros Hd. unfold erase_impl. apply edits_mget. intros b _. cbv zeta.
  eapply edits_bind; [by apply edits_erase|intros _; apply edits_ret].
Qed.

(** [reaches d m P]: on data [d], [m] succeeds and leaves data with [P]. *)
Definition reaches {A} (d : dict) (m : M ConfigBase A) (P : dict → Prop) : Prop :=
  ∀ b, writable b → data_of b = d → ∃ a b', m b = (Ok a, b') ∧ writable b' ∧ P (data_of b').

Lemma reaches_edits {A} (m : M ConfigBase A) d d' (P : dict → Prop) : edits d m d' → P d' → reaches d m P.
Proof. intros Hm HP b Hb Hd. destruct (Hm b Hb Hd) as (a & b' & E & Hb' & <- & _). eauto. Qed.

Lemma reaches_bind {A B} (m : M ConfigBase A) (f : A → M ConfigBase B) d (P Q : dict → Prop) :
  reaches d m P → (∀ a d1, dict_ok d1 = true → P d1 → reaches d1 (f a) Q) → reaches d (x ← m; f x) Q.
Proof.
  intros Hm Hf b Hb Hd. destruct (Hm b Hb Hd) as (a & b1 & E & Hb1 & HP).
  destruct (Hf a _ (writable_data _ Hb1) HP b1 Hb1 eq_refl) as (a2 & b2 & E2 & Hb2 & HQ).
  exists a2, b2. by rewrite run_bind, E.
Qed.

Lemma reaches_mget {A} (f : ConfigBase → M ConfigBase A) d (P : dict → Prop) :
  (∀ b, data_of b = d → reaches d (f b) P) → reaches d (b ← mget; f b) P.
Proof. intros Hf b Hb Hd. by apply (Hf b Hd b). Qed.

Section kind.
Context {C : Type} (r : bytes) (ok : bytes → bool) (load : bytes → dict → result C)
  (stale : C → result bool) (old : C → Prop) (ident : C → bytes) (erase : bytes → M ConfigBase bool).

(** What an iterator over one kind of conversation and its [erase] promise *)
Class ConvoKind := {
  kind_load : ∀ k info, ok k = true → ∃ c, load (to_hex k) info = Ok c ∧ ident c = to_hex k;
  kind_erase : ∀ k b, ok k = true → erase (to_hex k) b = erase_impl (sub (root r) k) b;
  kind_stale : ∀ c s, stale c = Ok s → s = true ↔ old c;
}.
Context `{!ConvoKind}.

Definition stale_entry (k : bytes) (v : dict_value) : Prop :=
  ∃ info c, v = DDict info ∧ ok k = true ∧ load (to_hex k) info = Ok c ∧ old c.

Lemma filter_stale_keys e l ids :
  convos_from ok load e = Ok l → filter_stale stale ident l = Ok ids →
  ∃ ks, ids = to_hex <$> ks ∧ Forall (λ k, ok k = true) ks ∧
    ∀ k, k ∈ ks ↔ ∃ v, (k, v) ∈ e ∧ stale_entry k v.
Proof.
  revert l ids; induction e as [|[k v] e IH]; intros l ids Hl Hi.
  { injection Hl as <-. injection Hi as <-. exists []. split_and!; [done|constructor|].
    intros k. split; [intros Hin; by apply elem_of_nil in Hin|]. intros (v & Hin & _). by apply elem_of_nil in Hin. }
  cbn [convos_from] in Hl.
  assert (∀ l ids, convos_from ok load e = Ok l → filter_stale stale ident l = Ok ids → ¬ stale_entry k v →
    ∃ ks, ids = to_hex <$> ks ∧ Forall (λ k, ok k = true) ks ∧
    ∀ j, j ∈ ks ↔ ∃ w, (j, w) ∈ (k, v) :: e ∧ stale_entry j w) as Hskip.
  { intros l' ids' Hl' Hi' Hn. destruct (IH l' ids' Hl' Hi') as (ks & -> & Hok & Hks). exists ks. split_and!; [done..|].
    intros j. rewrite Hks. setoid_rewrite elem_of_cons. split; [naive_solver|].
    intros (w & [[= -> ->]|Hin] & Hst); [done|eauto]. }
  destruct v as [info|sv|x]; [|apply (Hskip l ids Hl Hi); by intros (? & ? & ? & _)..].
  destruct (ok k) eqn:Eok.
  2: { apply (Hskip l ids Hl Hi). intros (? & ? & _ & ? & _). congruence. }
  destruct (kind_load k info Eok) as (c & Hc & Hident). rewrite Hc in Hl. rewrite bind_ret in Hl.
  apply bind_Ok in Hl as (l' & Hl' & Hl). injection Hl as <-. cbn [filter_stale] in Hi.
  apply bind_Ok in Hi as (st & Hst & Hi). apply bind_Ok in Hi as (ids' & Hi' & Hi).
  pose proof (kind_stale c st Hst) as Hold. destruct st; injection Hi as <-.
  - destruct (IH l' ids' Hl' Hi') as (ks & -> & Hok & Hks). exists (k :: ks). rewrite Hident. split_and!; [done|by constructor|].
    intros j. rewrite elem_of_cons, Hks. setoid_rewrite elem_of_cons. split.
    + intros [->|(w & Hin & Hw)]; [|eauto]. exists (DDict info). split; [by left|]. exists info, c. naive_solver.
    + intros (w & [[= -> ->]|Hin] & Hw); [by left|eauto].
  - apply (Hskip l' ids' Hl' Hi'). intros (info' & c' & [= <-] & _ & Hc' & Hst').
    assert (c' = c) as -> by congruence. by apply Hold in Hst'.
Qed.

Lemma edits_erase_loop ks d :
  dict_ok d = true → Forall (λ k, ok k = true) ks →
  edits d (forM_ (to_hex <$> ks) (λ id, erase id;; skip)) (erase_keys r ks d).
Proof.
  intros Hd Hks. revert d Hd; induction Hks as [|k ks Hk _ IH]; intros d Hd; [apply edits_ret|].
  rewrite fmap_cons. cbn [forM_]. unfold erase_keys. cbn [fold_left].
  eapply edits_bind with (d1 := put_opt (sub (root r) k) None d).
  - eapply edits_bind with (d1 := put_opt (sub (root r) k) None d); [|intros _; apply edits_ret].
    intros b Hb Hbd. rewrite kind_erase by done. by apply edits_erase_impl.
  - intros _. apply IH. by apply put_opt_dict_ok.
Qed.

Lemma edits_prune_kind d l ids :
  dict_ok d = true → convos_from ok load (entries_at r d) = Ok l → filter_stale stale ident l = Ok ids →
  ∃ ks, edits d (prune_kind (λ d, convos_from ok load (entries_at r d)) stale ident erase) (erase_keys r ks d) ∧
    ∀ k, k ∈ ks ↔ ∃ v, get_clean (sub (root r) k) d = Some v ∧ stale_entry k v.
Proof.
  intros Hd Hl Hi. destruct (filter_stale_keys _ _ _ Hl Hi) as (ks & -> & Hok & Hks). exists ks. split.
  - unfold prune_kind. apply edits_mget. intros b ->. eapply edits_lift; [exact Hl|].
    eapply edits_lift; [exact Hi|]. by apply edits_erase_loop.
  - intros k. rewrite Hks. unfold entries_at. split; intros (v & Hv & Hst); exists v; (split; [|done]).
    + rewrite <-entry_find. apply mfind_In; [by apply entries_sorted|done].
    + rewrite <-entry_find in Hv. by apply mfind_Some_In.
Qed.

(** [d'] is [d] without the stale conversations of this kind. *)
Definition pruned (d d' : dict) : Prop :=
  (∀ k v, get_clean (sub (root r) k) d = Some v → stale_entry k v → get_clean (sub (root r) k) d' = None) ∧
  (∀ k, (∀ v, get_clean (sub (root r) k) d = Some v → ¬ stale_entry k v) →
     get_clean (sub (root r) k) d' = get_clean (sub (root r) k) d).

Lemma pruned_erase_keys ks d :
  (∀ k, k ∈ ks ↔ ∃ v, get_clean (sub (root r) k) d = Some v ∧ stale_entry k v) → pruned d (erase_keys r ks d).
Proof.
  intros Hks. split.
  - intros k v Hv Hs. rewrite erase_keys_get, decide_True; [done|]. apply Hks. eauto.
  - intros k Hk. rewrite erase_keys_get. case_decide as Hin; [|done]. apply Hks in Hin as (v & Hv & Hs). by destruct (Hk v).
Qed.

(** Only the dictionary of this kind matters. *)
Lemma pruned_same d1 d2 d1' d2' :
  get_clean (root r) d1 = get_clean (root r) d1' → get_clean (root r) d2 = get_clean (root r) d2' →
  pruned d1 d2 → pruned d1' d2'.
Proof.
  intros E1 E2. assert (∀ k, get_clean (sub (root r) k) d1 = get_clean (sub (root r) k) d1') as F1.
  { intros k. rewrite <-!entry_find. unfold field_dict. by rewrite E1. }
  assert (∀ k, get_clean (sub (root r) k) d2 = get_clean (sub (root r) k) d2') as F2.
  { intros k. rewrite <-!entry_find. unfold field_dict. by rewrite E2. }
  unfold pruned. by setoid_rewrite F1; setoid_rewrite F2.
Qed.
End kind.

Context {HL : OxencLaws}.

Lemma key_prefixed_id c p k :
  hex_digits (String c "") = p → key_prefixed c k = true →
  check_bchat_id (to_hex k) p = Ok tt ∧ bchat_id_to_bytes (to_hex k) p = Ok k.
Proof.
  intros <-. unfold key_prefixed. rewrite andb_true_iff, Z.eqb_eq, bool_decide_eq_true. intros [Hs Hf].
  destruct k as [|a k]; [done|]. injection Hf as ->.
  assert (valid_id (to_hex (String c k)) (hex_digits (String c "")) = true) as Hv.
  { rewrite to_hex_digits. apply valid_id_spec. rewrite !hex_digits_size, is_hex_digits, Hs.
    split_and!; [done..|]. by exists (hex_digits k). }
  split; [unfold check_bchat_id; by rewrite Hv|]. apply bchat_id_to_bytes_Ok. split; [done|].
  by rewrite to_hex_digits, from_hex_digits.
Qed.

Lemma is_stale_old c cutoff s : is_stale c cutoff = Ok s → s = true ↔ old_convo c cutoff.
Proof.
  unfold is_stale, old_convo, ms_to_ns. destruct (unread c); [intros [= <-]; split; [done|by intros [? _]]|]. intros Hs. inv_result.
  destruct (in_int64 _); inv_result. rewrite Z.ltb_lt. split; [done|by intros [_ ?]].
Qed.

Lemma is_stale_pro_old p cutoff s : is_stale_pro p cutoff = Ok s → s = true ↔ old_pro p cutoff.
Proof.
  unfold is_stale_pro, old_pro, old_convo, ms_to_ns. destruct (unread (pb_base p)); [intros [= <-]; split; [done|by intros [[? _] _]]|].
  intros Hs. apply bind_Ok in Hs as (f & Hf & Hs).
  assert (f = true ↔ pro_gen_index_hash p ≠ None ∧ cutoff ≤ pro_expiry_unix_ts p * NS_PER_MS) as Hpro.
  { destruct (pro_gen_index_hash p); [|injection Hf as <-; split; [done|by intros [? _]]]. inv_result. destruct (in_int64 _); inv_result.
    rewrite Z.leb_le. split; [done|by intros [_ ?]]. }
  destruct f.
  - injection Hs as <-. split; [done|]. intros [_ Hx]. destruct (proj1 Hpro eq_refl) as [Hn Hle]. specialize (Hx Hn). lia.
  - clear Hf. inv_result. destruct (in_int64 _); inv_result. rewrite Z.ltb_lt. split; [|by intros [[_ ?] _]].
    intros Hlt. split_and!; [done..|]. intros Hn.
    destruct (Z.lt_ge_cases (pro_expiry_unix_ts p * NS_PER_MS) cutoff) as [|Hle]; [done|].
    exfalso. assert (false = true) as [=]. by apply Hpro.
Qed.

#[global] Instance kind_1to1 cutoff :
  ConvoKind "1" (key_prefixed "005") load_one (λ c, is_stale_pro (o_pro c) cutoff) (λ c, old_pro (o_pro c) cutoff)
    o_bchat_id erase_1to1.
Proof.
  split.
  - intros k info Hk. destruct (key_prefixed_id "005" "05" k eq_refl Hk) as [Hc _].
    unfold load_one, new_one_to_one. rewrite Hc. simpl. eauto.
  - intros k b Hk. destruct (key_prefixed_id "005" "05" k eq_refl Hk) as [Hc Hb].
    unfold erase_1to1, new_one_to_one. rewrite Hc. cbn [mbind result_bind]. rewrite run_lift. cbn [o_bchat_id].
    by rewrite Hb, run_lift.
  - intros c s. apply is_stale_pro_old.
Qed.

#[global] Instance kind_legacy cutoff :
  ConvoKind "C" (key_prefixed "005") load_convo_legacy (λ c, is_stale (cl_base c) cutoff) (λ c, old_convo (cl_base c) cutoff)
    cl_id erase_convo_legacy_group.
Proof.
  split.
  - intros k info Hk. destruct (key_prefixed_id "005" "05" k eq_refl Hk) as [Hc _].
    unfold load_convo_legacy, new_convo_legacy_group. rewrite Hc. simpl. eauto.
  - intros k b Hk. destruct (key_prefixed_id "005" "05" k eq_refl Hk) as [Hc Hb].
    unfold erase_convo_legacy_group, new_convo_legacy_group. rewrite Hc. cbn [mbind result_bind]. rewrite run_lift. cbn [cl_id].
    by rewrite Hb, run_lift.
  - intros c s. apply is_stale_old.
Qed.

#[global] Instance kind_group cutoff :
  ConvoKind "g" (key_prefixed "003") load_convo_group (λ c, is_stale (cg_base c) cutoff) (λ c, old_convo (cg_base c) cutoff)
    cg_id erase_convo_group.
Proof.
  split.
  - intros k info Hk. destruct (key_prefixed_id "003" "03" k eq_refl Hk) as [Hc _].
    unfold load_convo_group, new_convo_group. rewrite Hc. simpl. eauto.
  - intros k b Hk. destruct (key_prefixed_id "003" "03" k eq_refl Hk) as [Hc Hb].
    unfold erase_convo_group, new_convo_group. rewrite Hc. cbn [mbind result_bind]. rewrite run_lift. cbn [cg_id].
    by rewrite Hb, run_lift.
  - intros c s. apply is_stale_old.
Qed.

Lemma blinded_key_id k :
  key_prefixed "037" k || key_prefixed "021" k = true →
  ∃ p, new_blinded_one (to_hex k) = Ok (mkBlindedOne no_pro (to_hex k) p) ∧
    bchat_id_to_bytes (to_hex k) (if p then "15" else "25") = Ok k.
Proof.
  intros Hk. assert (∃ p, bchat_id_to_bytes (to_hex k) (prefix_string p) = Ok k ∧
    (p = community_blinded ∨ p = community_blinded_legacy)) as (p & Hb & Hp).
  { apply orb_true_iff in Hk as [Hk|Hk].
    - exists community_blinded. destruct (key_prefixed_id "037" "25" k eq_refl Hk). auto.
    - exists community_blinded_legacy. destruct (key_prefixed_id "021" "15" k eq_refl Hk). auto. }
  exists (bool_decide (p = community_blinded_legacy)).
  assert (get_bchat_id_prefix (to_hex k) = Ok p) as Hg.
  { apply prefix_of_id. by apply bchat_id_to_bytes_Ok in Hb as [? _]. }
  unfold new_blinded_one. rewrite Hg, bind_ret. unfold check_blinded.
  destruct Hp as [->| ->]; (split; [reflexivity|exact Hb]).
Qed.

#[global] Instance kind_blinded cutoff :
  ConvoKind "b" (λ k, key_prefixed "037" k || key_prefixed "021" k) load_blinded_one
    (λ c, is_stale_pro (bo_pro c) cutoff) (λ c, old_pro (bo_pro c) cutoff) bo_blinded_id erase_blinded_1to1.
Proof.
  split.
  - intros k info Hk. destruct (blinded_key_id k Hk) as (p & Hn & _). unfold load_blinded_one. rewrite Hn. simpl. eauto.
  - intros k b Hk. destruct (blinded_key_id k Hk) as (p & Hn & Hb). unfold erase_blinded_1to1.
    rewrite Hn, run_lift. cbn [bo_blinded_id bo_legacy_blinding]. by rewrite Hb, run_lift.
  - intros c s. apply is_stale_pro_old.
Qed.

(** *** Communities *)

Definition room_path (url rm : bytes) : path := sub (sub (sub (root "o") url) "R") rm.

(** [d'] is [d] without the rooms [ids], as far as rooms are concerned. *)
Definition rooms_erased (ids : list (bytes * bytes)) (d d' : dict) : Prop :=
  (∀ url rm, get_clean (room_path url rm) d' =
     if decide ((url, rm) ∈ ids) then None else get_clean (room_path url rm) d) ∧
  same_elsewhere "o" d d'.

Lemma rooms_erased_nil d : rooms_erased [] d d.
Proof. by split; intros. Qed.

Lemma rooms_erased_app ids1 ids2 d d1 d2 :
  rooms_erased ids1 d d1 → rooms_erased ids2 d1 d2 → rooms_erased (ids1 ++ ids2) d d2.
Proof.
  intros [Hr1 Hs1] [Hr2 Hs2]. split.
  - intros url rm. rewrite Hr2, Hr1. repeat case_decide; try done; exfalso;
      rewrite elem_of_app in *; naive_solver.
  - intros r Hr. by rewrite Hs2, Hs1.
Qed.

Lemma room_path_other url rm url' rm' :
  (url, rm) ≠ (url', rm') →
  independent (room_path url rm).1 (room_path url rm).2 (room_path url' rm').1 (room_path url' rm').2 = true.
Proof.
  intros Hne. simpl. destruct (keqb url url') eqn:E; [|done]. apply keqb_spec in E as ->.
  rewrite ?keqb_refl. simpl. rewrite negb_true_iff. apply not_true_iff_false. rewrite keqb_spec. congruence.
Qed.

Lemma put_room_erased url rm d : rooms_erased [(url, rm)] d (put_opt (room_path url rm) None d).
Proof.
  split.
  - intros url' rm'. case_decide as Hin.
    + apply list_elem_of_singleton in Hin as [= -> ->]. apply get_put_same.
    + apply get_put_other, room_path_other. intros [= -> ->]. apply Hin. by left.
  - intros r Hr. apply get_put_other. simpl. apply negb_true_iff, not_true_iff_false. rewrite keqb_spec. congruence.
Qed.

(** A server whose rooms are gone can be erased without affecting any room. *)
Lemma put_server_erased url d :
  (match field_dict (sub (sub (root "o") url) "R") d with Some rd => is_nil rd | None => true end) = true →
  rooms_erased [] d (put_opt (sub (root "o") url) None (put_opt (sub (sub (root "o") url) "R") None d)).
Proof.
  intros He. split.
  - intros url' rm'. rewrite decide_False by apply not_elem_of_nil. destruct (decide (url' = url)) as [->|Hne].
    + unfold room_path at 1. rewrite below_none by (apply below_none, get_put_same).
      unfold room_path. rewrite <-entry_find. by destruct (field_dict _ d) as [[|]|].
    + assert (keqb url url' = false) as Hk by (apply not_true_iff_false; rewrite keqb_spec; congruence).
      rewrite !get_put_other; [done|simpl; by rewrite Hk..].
  - intros r Hr. assert (keqb "o" r = false) as Hk by (apply not_true_iff_false; rewrite keqb_spec; congruence).
    rewrite !get_put_other; [done|cbn [sub root fst snd app independent]; by rewrite Hk..].
Qed.

Lemma reaches_erase_community url rm c d :
  dict_ok d = true → new_community url rm = Ok c →
  reaches d (erase_convo_community url rm) (rooms_erased [(base_url c, room_norm c)] d).
Proof.
  intros Hd Hc. unfold erase_convo_community. rewrite Hc.
  intros b Hb Hbd. rewrite run_lift. revert b Hb Hbd.
  eapply (reaches_bind _ _ _ (rooms_erased [(base_url c, room_norm c)] d)).
  { eapply reaches_edits; [by apply edits_erase_impl|apply put_room_erased]. }
  intros gone d1 Hd1 He1. eapply reaches_bind; [|intros _ d2 _ He2; eapply reaches_edits; [apply edits_ret|exact He2]].
  destruct gone; [|eapply reaches_edits; [apply edits_ret|exact He1]]. cbn [when].
  apply reaches_mget. intros b ->. cbv zeta.
  destruct (match field_dict _ d1 with Some rd => is_nil rd | None => true end) eqn:En;
    cbn [when]; [|eapply reaches_edits; [apply edits_ret|exact He1]].
  eapply reaches_edits.
  - eapply edits_bind; [by apply edits_erase|intros _; apply edits_erase]. by apply put_opt_dict_ok.
  - rewrite <-(app_nil_r [_]). eapply rooms_erased_app; [exact He1|by apply put_server_erased].
Qed.

(** The communities an iteration gives can be erased by their URL and room. *)
Lemma loaded_community server r pk info c :
  load_convo_comm server r pk info = Ok c →
  ∃ og, new_community (base_url (cc_comm c)) (room (cc_comm c)) = Ok og ∧
    base_url og = base_url (cc_comm c) ∧ room_norm og = room_norm (cc_comm c).
Proof.
  unfold load_convo_comm, new_community, set_base_url, set_room, set_pubkey. intros Hl. inv_result.
  cbn [cc_comm base_url room base_url_ localized_room_ room_norm room_ default] in *.
  lazymatch goal with Hu : canonical_url _ = Ok ?u |- context [canonical_url ?u] =>
    rewrite (proj1 (canonical_url_again _ _ Hu)) end.
  rewrite bind_ret. lazymatch goal with Hu : canonical_room _ = Ok ?u |- _ => cbn [id]; rewrite Hu end. simpl. eauto.
Qed.

Lemma all_communities_loaded d l :
  all_convo_communities d = Ok l → ∀ c, c ∈ l → ∃ og, new_community (base_url (cc_comm c)) (room (cc_comm c)) = Ok og ∧
    base_url og = base_url (cc_comm c) ∧ room_norm og = room_norm (cc_comm c).
Proof.
  unfold all_convo_communities. destruct (field_dict (root "o") d) as [servers|].
  - rewrite comm_all_start. intros [= <-] c (server & r & pk & info & Hc)%communities_loaded.
    by eapply loaded_community.
  - intros [= <-] c Hc. by apply elem_of_nil in Hc.
Qed.

Lemma filter_stale_ident {C I J} (stale : C → result bool) (f : C → I) (g : C → J) l ids :
  filter_stale stale f l = Ok ids → ∃ cs, filter_stale stale g l = Ok (g <$> cs) ∧ ids = f <$> cs ∧ cs ⊆ l.
Proof.
  revert ids; induction l as [|c l IH]; intros ids Hi; cbn [filter_stale] in *.
  { injection Hi as <-. by exists []. }
  apply bind_Ok in Hi as (s & Hs & Hi). apply bind_Ok in Hi as (r & Hr & Hi). injection Hi as <-.
  destruct (IH r Hr) as (cs & Hg & -> & Hsub). rewrite Hs, bind_ret, Hg, bind_ret.
  exists (if s then c :: cs else cs). destruct s; (split_and!; [done..|set_solver]).
Qed.

Lemma filter_stale_mem {C I} (stale : C → result bool) (old : C → Prop) (f : C → I) l ids :
  (∀ c s, stale c = Ok s → s = true ↔ old c) → filter_stale stale f l = Ok ids →
  ∀ i, i ∈ ids ↔ ∃ c, c ∈ l ∧ old c ∧ f c = i.
Proof.
  intros Hold. revert ids; induction l as [|c l IH]; intros ids Hi i; cbn [filter_stale] in *.
  { injection Hi as <-. set_solver. }
  apply bind_Ok in Hi as (s & Hs & Hi). apply bind_Ok in Hi as (r & Hr & Hi). injection Hi as <-.
  specialize (Hold c s Hs). specialize (IH r Hr i). destruct s; rewrite ?elem_of_cons, IH; setoid_rewrite elem_of_cons.
  - split; [|naive_solver]. intros [->|(c' & ? & ? & ?)]; [|eauto]. exists c. naive_solver.
  - split; [naive_solver|]. intros (c' & [->|Hin] & Ho & Hf); [|eauto]. by apply Hold in Ho.
Qed.

Lemma reaches_erase_communities cs d :
  dict_ok d = true →
  (∀ c, c ∈ cs → ∃ og, new_community (base_url (cc_comm c)) (room (cc_comm c)) = Ok og ∧
    base_url og = base_url (cc_comm c) ∧ room_norm og = room_norm (cc_comm c)) →
  reaches d (forM_ ((λ c, (base_url (cc_comm c), room (cc_comm c))) <$> cs) (λ i, erase_convo_community i.1 i.2;; skip))
    (rooms_erased ((λ c, (base_url (cc_comm c), room_norm (cc_comm c))) <$> cs) d).
Proof.
  revert d; induction cs as [|c cs IH]; intros d Hd Hcs; [eapply reaches_edits; [apply edits_ret|apply rooms_erased_nil]|].
  rewrite !fmap_cons. cbn [forM_ fst snd]. destruct (Hcs c) as (og & Hog & Hu & Hr); [by left|].
  eapply reaches_bind with (P := rooms_erased [(base_url (cc_comm c), room_norm (cc_comm c))] d).
  - eapply reaches_bind; [by apply reaches_erase_community|]. rewrite Hu, Hr.
    intros _ d1 _ He. eapply reaches_edits; [apply edits_ret|exact He].
  - intros _ d1 Hd1 He b Hb Hbd. destruct (IH d1 Hd1) with b as (a & b' & E & Hb' & He'); [set_solver|done..|].
    exists a, b'. split_and!; [done..|]. by apply (rooms_erased_app [_] _ _ d1).
Qed.

(** *** All kinds together *)

(** Whether every conversation that is read has a time the clock can express:
    the staleness of each is defined *)
Definition stale_rooms (cutoff : Z) (d : dict) : result (list (bytes * bytes)) :=
  l ← all_convo_communities d;
  filter_stale (λ c, is_stale (cc_base c) cutoff) (λ c, (base_url (cc_comm c), room_norm (cc_comm c))) l.

Definition staleness_defined (cutoff : Z) (d : dict) : bool :=
  is_ok (l ← all_1to1 d; filter_stale (λ c, is_stale_pro (o_pro c) cutoff) o_bchat_id l) &&
  is_ok (l ← all_convo_legacy_groups d; filter_stale (λ c, is_stale (cl_base c) cutoff) cl_id l) &&
  is_ok (l ← all_blinded_1to1 d; filter_stale (λ c, is_stale_pro (bo_pro c) cutoff) bo_blinded_id l) &&
  is_ok (l ← all_convo_groups d; filter_stale (λ c, is_stale (cg_base c) cutoff) cg_id l) &&
  is_ok (stale_rooms cutoff d).

Lemma reaches_prune_kind {C} r ok load stale old ident erase
    `{!ConvoKind (C:=C) r ok load stale old ident erase} d0 d :
  dict_ok d = true → get_clean (root r) d = get_clean (root r) d0 →
  is_ok (l ← convos_from ok load (entries_at r d0); filter_stale stale ident l) = true →
  reaches d (prune_kind (λ d, convos_from ok load (entries_at r d)) stale ident erase)
    (λ d', pruned r ok load old d d' ∧ same_elsewhere r d d').
Proof.
  intros Hd Hr Hok. assert (entries_at r d0 = entries_at r d) as E by (unfold entries_at, field_dict; by rewrite Hr).
  rewrite E in Hok. destruct (convos_from ok load (entries_at r d)) as [l|] eqn:El; [|done]. rewrite bind_ret in Hok.
  destruct (filter_stale stale ident l) as [ids|] eqn:Ei; [|done].
  destruct (edits_prune_kind r ok load stale old ident erase d l ids Hd El Ei) as (ks & Hed & Hks).
  eapply reaches_edits; [exact Hed|]. split; [by apply pruned_erase_keys|apply erase_keys_elsewhere].
Qed.

Lemma reaches_prune_communities cutoff rooms d0 d :
  dict_ok d = true → get_clean (root "o") d = get_clean (root "o") d0 → stale_rooms cutoff d0 = Ok rooms →
  reaches d
    (b ← mget;
     l ← lift (all_convo_communities (data_of b));
     ids ← lift (filter_stale (λ c, is_stale (cc_base c) cutoff) (λ c, (base_url (cc_comm c), room (cc_comm c))) l);
     forM_ ids (λ i, erase_convo_community i.1 i.2;; skip))
    (rooms_erased rooms d).
Proof.
  intros Hd Hr Hrooms.
  assert (all_convo_communities d0 = all_convo_communities d) as E
    by (unfold all_convo_communities, field_dict; by rewrite Hr).
  unfold stale_rooms in Hrooms. rewrite E in Hrooms. apply bind_Ok in Hrooms as (l & Hl & Hrooms).
  destruct (filter_stale_ident _ _ (λ c, (base_url (cc_comm c), room (cc_comm c))) _ _ Hrooms) as (cs & Hids & -> & Hsub).
  apply reaches_mget. intros b ->. intros b' Hb' Hbd. rewrite Hl, run_lift, Hids, run_lift. revert b' Hb' Hbd.
  apply reaches_erase_communities; [done|]. intros c Hc. by apply (all_communities_loaded d l Hl c), Hsub.
Qed.

(** (pruning).  Pruning removes the conversations of every kind whose
    last-read time is before the cutoff, which are not marked unread and whose
    Pro data, if any, expired before the cutoff too; it keeps every other
    conversation, entry and room, and everything else in the config, as it
    was. *)
Theorem prune_stale_exact (b : ConfigBase) (now prune : Z) :
  let cutoff := now - prune in
  writable b → staleness_defined cutoff (data_of b) = true →
  ∃ b' comms (rooms : list (bytes * bytes)), prune_stale now prune b = (Ok tt, b') ∧ writable b' ∧
    all_convo_communities (data_of b) = Ok comms ∧
    (∀ url rm, (url, rm) ∈ rooms ↔ ∃ c, c ∈ comms ∧ old_convo (cc_base c) cutoff ∧
       (base_url (cc_comm c), room_norm (cc_comm c)) = (url, rm)) ∧
    pruned "1" (key_prefixed "005") load_one (λ c, old_pro (o_pro c) cutoff) (data_of b) (data_of b') ∧
    pruned "C" (key_prefixed "005") load_convo_legacy (λ c, old_convo (cl_base c) cutoff) (data_of b) (data_of b') ∧
    pruned "b" (λ k, key_prefixed "037" k || key_prefixed "021" k) load_blinded_one
      (λ c, old_pro (bo_pro c) cutoff) (data_of b) (data_of b') ∧
    pruned "g" (key_prefixed "003") load_convo_group (λ c, old_convo (cg_base c) cutoff) (data_of b) (data_of b') ∧
    (∀ url rm, get_clean (room_path url rm) (data_of b') =
       if decide ((url, rm) ∈ rooms) then None else get_clean (room_path url rm) (data_of b)) ∧
    (∀ r, r ∉ ["1"; "C"; "b"; "g"; "o"] → get_clean (root r) (data_of b') = get_clean (root r) (data_of b)).
Proof.
  intros cutoff Hb Hdef. set (d := data_of b). unfold staleness_defined in Hdef. rewrite !andb_true_iff in Hdef.
  destruct Hdef as ((((D1 & DC) & Db) & Dg) & Do). fold d in D1, DC, Db, Dg, Do.
  destruct (stale_rooms cutoff d) as [rooms|] eqn:Er; [|done]. clear Do.
  assert (reaches d (prune_stale now prune) (λ d5, ∃ d1 d2 d3 d4,
    pruned "1" (key_prefixed "005") load_one (λ c, old_pro (o_pro c) cutoff) d d1 ∧ same_elsewhere "1" d d1 ∧
    pruned "C" (key_prefixed "005") load_convo_legacy (λ c, old_convo (cl_base c) cutoff) d1 d2 ∧ same_elsewhere "C" d1 d2 ∧
    pruned "b" (λ k, key_prefixed "037" k || key_prefixed "021" k) load_blinded_one
      (λ c, old_pro (bo_pro c) cutoff) d2 d3 ∧ same_elsewhere "b" d2 d3 ∧
    pruned "g" (key_prefixed "003") load_convo_group (λ c, old_convo (cg_base c) cutoff) d3 d4 ∧ same_elsewhere "g" d3 d4 ∧
    rooms_erased rooms d4 d5)) as Hr.
  { unfold prune_stale. fold cutoff.
    eapply reaches_bind; [eapply (reaches_prune_kind "1" _ _ _ _ _ _ d d); [by apply writable_data|done|exact D1]|].
    intros _ d1 Hd1 [P1 S1]. eapply reaches_bind; [eapply (reaches_prune_kind "C" _ _ _ _ _ _ d d1); [done|by rewrite S1|exact DC]|].
    intros _ d2 Hd2 [P2 S2]. eapply reaches_bind; [eapply (reaches_prune_kind "b" _ _ _ _ _ _ d d2); [done|by rewrite S2, S1|exact Db]|].
    intros _ d3 Hd3 [P3 S3]. eapply reaches_bind; [eapply (reaches_prune_kind "g" _ _ _ _ _ _ d d3); [done|by rewrite S3, S2, S1|exact Dg]|].
    intros _ d4 Hd4 [P4 S4] b4 Hb4 Eb4.
    destruct (reaches_prune_communities cutoff rooms d d4 Hd4 ltac:(by rewrite S4, S3, S2, S1) Er b4 Hb4 Eb4)
      as (a & b5 & E5 & Hb5 & He). exists a, b5. split_and!; [done..|]. by exists d1, d2, d3, d4. }
  destruct (Hr b Hb eq_refl) as ([] & b' & E & Hb' & d1 & d2 & d3 & d4 & P1 & S1 & P2 & S2 & P3 & S3 & P4 & S4 & He & S5).
  pose proof Er as (comms & Hc & Hf)%bind_Ok.
  exists b', comms, rooms. split_and!; [done..| | | | | | |].
  - intros url rm. apply (filter_stale_mem _ (λ c, old_convo (cc_base c) cutoff) _ _ _ (λ c s, is_stale_old _ _ s) Hf).
  - eapply pruned_same, P1; [done|by rewrite S5, S4, S3, S2].
  - eapply pruned_same, P2; [by rewrite S1|by rewrite S5, S4, S3].
  - eapply pruned_same, P3; [by rewrite S2, S1|by rewrite S5, S4].
  - eapply pruned_same, P4; [by rewrite S3, S2, S1|by rewrite S5].
  - intros url rm. rewrite He. case_decide; [done|].
    assert (∀ r d d', r ≠ "o" → same_elsewhere r d d' → get_clean (room_path url rm) d' = get_clean (room_path url rm) d) as Hroom.
    { clear. intros r d d' Hne Hs. change (room_path url rm) with ((["o"; url; "R"], rm) : path).
      unfold get_clean. cbn [fst snd find_path]. specialize (Hs "o" ltac:(congruence)). unfold get_clean in Hs.
      simpl in Hs. unfold sub_dict. by rewrite Hs. }
    by rewrite (Hroom "g" d3 d4), (Hroom "b" d2 d3), (Hroom "C" d1 d2), (Hroom "1" d d1).
  - intros r Hnr. rewrite !elem_of_cons in Hnr. rewrite S5, S4, S3, S2, S1; [done|naive_solver..].
Qed.
End convos.

(** ** Examples *)
Definition sample_read : Z := 1700000000000.
Definition sample_now : Z := sample_read * NS_PER_MS.
Definition sample_one : one_to_one := mkOne (mkProBase (mkConvo sample_read false) None 0) sample_id.

Lemma read_marker_witness :
  ∃ b', set_1to1 sample_now sample_one new_config = (Ok tt, b') ∧
    get_1to1 sample_id (data_of b') = Ok (Some sample_one).
Proof.
  destruct (read_marker new_config sample_now sample_now sample_one (unhex sample_id) writable_new)
    as (b' & E & _ & _ & _ & Hg); [vm_compute; reflexivity..|].
  exists b'. split; [exact E|]. apply Hg; [vm_compute; reflexivity|done|]. right. split; vm_compute; reflexivity.
Defined.

(** A conversation read 46 days ago is pruned. *)
Lemma prune_stale_exact_witness :
  ∃ b b', set_1to1 sample_now sample_one new_config = (Ok tt, b) ∧
    get_clean (one_path (unhex sample_id)) (data_of b) ≠ None ∧
    prune_stale (sample_now + PRUNE_HIGH + 1) PRUNE_HIGH b = (Ok tt, b') ∧
    get_clean (one_path (unhex sample_id)) (data_of b') = None.
Proof.
  destruct (edits_set_1to1 sample_now sample_one sample_now (unhex sample_id) (data_of new_config)
    (writable_data _ writable_new)) with new_config as ([] & b & E & Hb & Hd & _);
    [vm_compute; reflexivity..|exact writable_new|reflexivity|].
  exists b. destruct (prune_stale_exact b (sample_now + PRUNE_HIGH + 1) PRUNE_HIGH Hb) as (b' & comms & rooms & E' & _ & _ & _ & [Hp _] & _).
  { rewrite Hd. vm_compute. reflexivity. }
  exists b'. split; [exact E|]. split; [rewrite Hd; vm_compute; discriminate|]. split; [exact E'|].
  eapply Hp; [rewrite Hd; vm_compute; reflexivity|].
  eexists _, (mkOne (o_pro sample_one) (make_lc sample_id)). split; [reflexivity|].
  split; [vm_compute; reflexivity|]. split; [vm_compute; reflexivity|].
  split; [split; [reflexivity|vm_compute; reflexivity]|]. intros Hn. by destruct Hn.
Defined.
