(* ===== verification/MultiEncrypt.v ===== *)
(** * Encryption for multiple recipients

    [src/multi_encrypt.cpp] and [include/bchat/multi_encrypt.hpp]: one copy of
    a message per recipient, encrypted with a key that sender and recipient
    compute by a Diffie-Hellman exchange; a recipient tries every copy until
    one opens. *)

From Stdlib Require Import ZArith String Ascii Lia.
From stdpp Require Import base option list strings numbers.
From S2P Require Import Prelude OrderedMap Bt Bencode Crypto Encrypt ConfigData ConfigDiff ConfigMessage.

(** libsodium's X25519: [crypto_scalarmult_curve25519], which refuses some
    public keys, [crypto_scalarmult_curve25519_base], and the conversions of
    Ed25519 keys *)
Class X25519 := {
  scalarmult_curve25519 : bytes → bytes → option bytes;   (* private key, public key *)
  x25519_public : bytes → bytes;
  sk_to_curve25519 : bytes → bytes;
  pk_to_curve25519 : bytes → option bytes;
}.

(** Both sides of an exchange compute the same secret; an Ed25519 key pair
    becomes an X25519 key pair. *)
Class X25519Laws `{X25519} := {
  x25519_exchange : ∀ a b,
    scalarmult_curve25519 a (x25519_public b) = scalarmult_curve25519 b (x25519_public a);
  x25519_public_size : ∀ a, size (x25519_public a) = 32;
  sk_to_curve25519_size : ∀ sk, size (sk_to_curve25519 sk) = 32;
  pk_to_curve25519_size : ∀ pk x, pk_to_curve25519 pk = Some x → size x = 32;
}.

Section multi.
Context `{BtLib, Hash, Aead, X25519}.

(** ** The key of one copy: [H(aB || A || B)] for the sender, [H(bA || A || B)]
    for the recipient *)
Definition encrypt_multi_key (a A B : bytes) (encrypting : bool) (domain : bytes) : result bytes :=
  match scalarmult_curve25519 a B with
  | None => Throw invalid_argument
  | Some buf =>
      let S := if encrypting then A else B in
      let R := if encrypting then B else A in
      Ok (generichash 32 (stake 64 domain) (buf +:+ S +:+ R))
  end.

Definition encrypt_multi_impl (msg key nonce : bytes) : bytes := aead_encrypt key (stake 24 nonce) msg.

Definition decrypt_multi_impl (ciphertext key nonce : bytes) : option bytes :=
  if size ciphertext <? ABYTES then None else aead_decrypt key (stake 24 nonce) ciphertext.

Definition validate_multi_fields (nonce privkey pubkey : bytes) : result () :=
  _ ← require (negb (size nonce <? 24)) logic_error;
  _ ← require (size privkey =? 32) logic_error;
  require (size pubkey =? 32) logic_error.

(** ** Encrypting: the ciphertexts handed to the callback, in order *)
Fixpoint encrypt_each (messages recipients : list bytes) (many : bool) (nonce privkey pubkey domain : bytes)
    (ignore_invalid_recipient : bool) : result (list bytes) :=
  match recipients with
  | [] => Ok []
  | r :: recipients =>
      match messages with
      | [] => Throw undefined_behaviour
      | m :: later =>
          let next := if many then later else messages in
          match encrypt_multi_key privkey pubkey r true domain with
          | Throw e =>
              if ignore_invalid_recipient
              then encrypt_each next recipients many nonce privkey pubkey domain ignore_invalid_recipient
              else Throw e
          | Ok key =>
              rest ← encrypt_each next recipients many nonce privkey pubkey domain ignore_invalid_recipient;
              Ok (encrypt_multi_impl m key nonce :: rest)
          end
      end
  end.

Definition encrypt_for_multiple (messages recipients : list bytes) (nonce privkey pubkey domain : bytes)
    (ignore_invalid_recipient : bool) : result (list bytes) :=
  _ ← validate_multi_fields nonce privkey pubkey;
  _ ← require (forallb (λ r, size r =? 32) recipients) logic_error;
  _ ← require ((length messages =? 1)%nat || (length messages =? length recipients)%nat) logic_error;
  encrypt_each messages recipients (1 <? length messages)%nat nonce privkey pubkey domain
    ignore_invalid_recipient.

(** ** Decrypting: [next_ciphertext] walks a list; for each element it throws,
    skips it ([None]) or returns a ciphertext.  The result comes with what is
    left of the list. *)
Fixpoint decrypt_loop {A} (elem : A → result (option bytes)) (l : list A) (key nonce : bytes)
    : result (option bytes * list A) :=
  match l with
  | [] => Ok (None, [])
  | x :: l =>
      r ← elem x;
      match r with
      | None => decrypt_loop elem l key nonce
      | Some c =>
          match decrypt_multi_impl c key nonce with
          | Some m => Ok (Some m, l)
          | None => decrypt_loop elem l key nonce
          end
      end
  end.

Definition decrypt_for_multiple {A} (elem : A → result (option bytes)) (l : list A)
    (nonce privkey pubkey sender_pubkey domain : bytes) : result (option bytes * list A) :=
  _ ← validate_multi_fields nonce privkey pubkey;
  _ ← require (size sender_pubkey =? 32) logic_error;
  key ← encrypt_multi_key privkey pubkey sender_pubkey false domain;
  decrypt_loop elem l key nonce.

Definition decrypt_for_multiple_list (ciphertexts : list bytes)
    (nonce privkey pubkey sender_pubkey domain : bytes) : result (option bytes) :=
  r ← decrypt_for_multiple (λ c, Ok (Some c)) ciphertexts nonce privkey pubkey sender_pubkey domain;
  Ok r.1.

(** The X25519 keys of an Ed25519 secret key *)
Definition x_keys (ed25519_secret_key : bytes) : result (bytes * bytes) :=
  _ ← require (size ed25519_secret_key =? 64) invalid_argument;
  x_pub ← from_option_or runtime_error (pk_to_curve25519 (sdrop 32 ed25519_secret_key));
  Ok (sk_to_curve25519 ed25519_secret_key, x_pub).

(** ** The encoded form *)
Section simple.
(** [randombytes_buf]: the nonce, and the junk of the padding loop's [i]th
    round, of the size it asks for *)
Context (random_nonce : bytes) (random_junk : nat → Z → bytes).

(** [for (; msg_count % pad != 0; msg_count++)], at most [pad] rounds *)
Fixpoint junk_loop (fuel : nat) (msg_count pad pad_size : Z) : result (list bytes) :=
  if msg_count mod pad =? 0 then Ok [] else
  match fuel with
  | O => Throw out_of_fuel
  | S fuel => rest ← junk_loop fuel (msg_count + 1) pad pad_size; Ok (random_junk fuel pad_size :: rest)
  end.

Definition encrypt_for_multiple_simple (messages recipients : list bytes) (privkey pubkey domain : bytes)
    (nonce : option bytes) (pad : Z) : result bytes :=
  nonce ← (match nonce with
           | None => Ok random_nonce
           | Some n => _ ← require (size n =? 24) invalid_argument; Ok n
           end);
  enc ← encrypt_for_multiple messages recipients nonce privkey pubkey domain false;
  let pad_size := if 1 <? pad then match messages with m :: _ => size m | [] => 0 end else 0 in
  junk ← (if pad_size =? 0 then Ok [] else junk_loop (Z.to_nat pad) (Z.of_nat (length enc)) pad pad_size);
  Ok (bt_dump [("#", BtStr nonce); ("e", BtList (BtStr <$> enc ++ junk))]).

(** The overload that takes an Ed25519 key: its nonce is a span, which the
    call converts to an engaged [std::optional] *)
Definition encrypt_for_multiple_simple_ed25519 (messages recipients : list bytes) (ed25519_secret_key domain nonce : bytes)
    (pad : Z) : result bytes :=
  '(x_privkey, x_pubkey) ← x_keys ed25519_secret_key;
  encrypt_for_multiple_simple messages recipients x_privkey x_pubkey domain (Some nonce) pad.
End simple.

(** [bt_dict_consumer::require] for a string and for a list *)
Definition require_str (in_ : bt_dict) (key : bytes) : result (bytes * bt_dict) :=
  match skip_until in_ key with
  | ((_, BtStr s) :: rest, true) => Ok (s, rest)
  | (_, true) => Throw bt_deserialize_invalid
  | (_, false) => Throw out_of_range
  end.
Definition require_list (in_ : bt_dict) (key : bytes) : result (bt_list * bt_dict) :=
  match skip_until in_ key with
  | ((_, BtList l) :: rest, true) => Ok (l, rest)
  | (_, true) => Throw bt_deserialize_invalid
  | (_, false) => Throw out_of_range
  end.
(** [bt_list_consumer::consume_string_view] *)
Definition consume_str (v : bt_value) : result bytes :=
  match v with BtStr s => Ok s | _ => Throw bt_deserialize_invalid end.

Definition decrypt_for_multiple_simple (encoded privkey pubkey sender_pubkey domain : bytes) : option bytes :=
  match (_ ← bt_open encoded;
         d ← bt_load encoded;
         '(nonce, d) ← require_str d "#";
         if negb (size nonce =? 24) then Ok None else
         '(enc_list, _) ← require_list d "e";
         r ← decrypt_for_multiple (λ v, c ← consume_str v; Ok (Some c)) enc_list nonce privkey pubkey sender_pubkey domain;
         Ok r.1) with
  | Ok r => r
  | Throw _ => None
  end.

Definition decrypt_for_multiple_simple_x (encoded ed25519_secret_key sender_pubkey domain : bytes)
    : result (option bytes) :=
  '(x_privkey, x_pubkey) ← x_keys ed25519_secret_key;
  Ok (decrypt_for_multiple_simple encoded x_privkey x_pubkey sender_pubkey domain).

Definition decrypt_for_multiple_simple_ed25519 (encoded ed25519_secret_key sender_ed25519_pubkey domain : bytes)
    : result (option bytes) :=
  _ ← require (size sender_ed25519_pubkey =? 32) invalid_argument;
  sender_pub ← from_option_or runtime_error (pk_to_curve25519 sender_ed25519_pubkey);
  decrypt_for_multiple_simple_x encoded ed25519_secret_key sender_pub domain.
End multi.

(** ** Correctness *)
Section correct.
Context `{BtLaws, HashLaws, AeadLaws, X25519Laws}.

Definition message_for (messages : list bytes) (many : bool) (i : nat) : option bytes :=
  if many then messages !! i else head messages.

(** Sender and recipient derive the same key. *)
Lemma multi_key_shared a b domain :
  encrypt_multi_key b (x25519_public b) (x25519_public a) false domain =
  encrypt_multi_key a (x25519_public a) (x25519_public b) true domain.
Proof. unfold encrypt_multi_key. by rewrite x25519_exchange. Qed.

Lemma encrypt_each_ok (messages recipients : list bytes) (many : bool) nonce a A domain :
  Forall (λ r, is_ok (encrypt_multi_key a A r true domain) = true) recipients →
  (if many then length messages = length recipients else messages ≠ []) →
  ∃ cs, encrypt_each messages recipients many nonce a A domain false = Ok cs ∧ length cs = length recipients ∧
    ∀ i r m k, recipients !! i = Some r → message_for messages many i = Some m →
      encrypt_multi_key a A r true domain = Ok k → cs !! i = Some (encrypt_multi_impl m k nonce).
Proof.
  revert messages; induction recipients as [|r rs IH]; intros messages Hok Hm; [by exists []|].
  apply Forall_cons_1 in Hok as [Hk Hok]. apply is_ok_inv in Hk as [k Hk]. cbn [encrypt_each].
  destruct messages as [|m later]; [by destruct many|]. rewrite Hk.
  destruct (IH (if many then later else m :: later) Hok) as (cs & -> & Hlen & Hcs).
  { destruct many; [|done]. simpl in Hm. congruence. }
  exists (encrypt_multi_impl m k nonce :: cs). split_and!; [done|simpl; congruence|].
  intros [|i] r' m' k' Hr Hm' Hk'; simpl in *.
  - assert (m' = m) as -> by (destruct many; simpl in Hm'; congruence). congruence.
  - apply (Hcs i r' m'); [done| |done]. by destruct many.
Qed.

Lemma decrypt_multi_open m k nonce : decrypt_multi_impl (encrypt_multi_impl m k nonce) k nonce = Some m.
Proof.
  unfold decrypt_multi_impl, encrypt_multi_impl. rewrite aead_size.
  destruct (Z.ltb_spec (size m + ABYTES) ABYTES) as [Hlt|_]; [pose proof (size_nonneg m); lia|].
  apply aead_roundtrip.
Qed.

(** The first copy that opens is returned. *)
Lemma decrypt_loop_first {A} (elem : A → result (option bytes)) (l : list A) (cs : list bytes) key nonce i c m :
  Forall2 (λ x c, elem x = Ok (Some c)) l cs → cs !! i = Some c → decrypt_multi_impl c key nonce = Some m →
  (∀ j c', (j < i)%nat → cs !! j = Some c' → decrypt_multi_impl c' key nonce = None) →
  decrypt_loop elem l key nonce = Ok (Some m, drop (S i) l).
Proof.
  intros Hl. revert i; induction Hl as [|x c' l cs Hx Hl IH]; intros i Hi Hc Hearly; [done|].
  cbn [decrypt_loop]. rewrite Hx, bind_ret. destruct i as [|i].
  - injection Hi as ->. by rewrite Hc.
  - rewrite (Hearly 0%nat c') by (lia || done). apply IH; [done..|]. intros j c'' Hj. apply (Hearly (S j)). lia.
Qed.

Lemma junk_loop_ok junk fuel count pad n :
  0 < pad → (count mod pad = 0 ∨ pad - count mod pad ≤ Z.of_nat fuel) →
  ∃ l, junk_loop junk fuel count pad n = Ok l ∧ (count + Z.of_nat (length l)) mod pad = 0.
Proof.
  intros Hpad. revert count; induction fuel as [|fuel IH]; intros count Hf; cbn [junk_loop];
    pose proof (Z.mod_pos_bound count pad Hpad) as Hb;
    destruct (Z.eqb_spec (count mod pad) 0) as [E|E];
    [exists []; split; [done|by rewrite Z.add_0_r]|lia|exists []; split; [done|by rewrite Z.add_0_r]|].
  destruct (IH (count + 1)) as (l & -> & Hl).
  { destruct (decide (count mod pad + 1 = pad)) as [Hz|Hz].
    - left. symmetry. apply (Z.mod_unique _ _ (count / pad + 1)); [lia|]. pose proof (Z.div_mod count pad). lia.
    - right. replace ((count + 1) mod pad) with (count mod pad + 1); [lia|].
      apply (Z.mod_unique _ _ (count / pad)); [lia|]. pose proof (Z.div_mod count pad). lia. }
  exists (junk fuel n :: l). split; [done|]. rewrite <-Hl. f_equal. rewrite length_cons. lia.
Qed.

Lemma strings_canon l : bt_canon (BtList (BtStr <$> l)) = true.
Proof. simpl. apply forallb_forall. intros v Hv%list_elem_of_In. by apply list_elem_of_fmap in Hv as (s & -> & _). Qed.

Lemma encoded_load nonce l :
  let e := bt_dump [("#", BtStr nonce); ("e", BtList (BtStr <$> l))] in
  bt_open e = Ok tt ∧ bt_load e = Ok [("#", BtStr nonce); ("e", BtList (BtStr <$> l))].
Proof.
  intros e. split; [apply bt_open_dump|]. apply bt_load_dump.
  pose proof (strings_canon l) as Hl. simpl in *. by rewrite Hl.
Qed.
Lemma simple_encodes (random_nonce : bytes) (junk : nat → Z → bytes) (messages recipients : list bytes)
    (a domain : bytes) (nonce : option bytes) (pad : Z) :
  let many := (1 <? length messages)%nat in
  let n := default random_nonce nonce in
  size n = 24 → size a = 32 → Forall (λ r, size r = 32) recipients → messages ≠ [] →
  (length messages = 1 ∨ length messages = length recipients)%nat →
  Forall (λ r, scalarmult_curve25519 a r ≠ None) recipients →
  ∃ enc cs,
    encrypt_for_multiple_simple random_nonce junk messages recipients a (x25519_public a) domain nonce pad =
      Ok (bt_dump [("#", BtStr n); ("e", BtList (BtStr <$> enc ++ cs))]) ∧
    length enc = length recipients ∧
    (1 < pad → head messages ≠ Some "" → Z.of_nat (length (enc ++ cs)) mod pad = 0) ∧
    (∀ i r m k, recipients !! i = Some r → message_for messages many i = Some m →
      encrypt_multi_key a (x25519_public a) r true domain = Ok k → enc !! i = Some (encrypt_multi_impl m k n)).
Proof.
  intros many n Hn Ha Hr Hne Hlen Hok.
  destruct (encrypt_each_ok messages recipients many n a (x25519_public a) domain) as (enc & Eenc & Hencl & Henc).
  { eapply Forall_impl; [|exact Hok]. intros r Hs. cbv beta in Hs. unfold encrypt_multi_key.
    by destruct (scalarmult_curve25519 a r) eqn:E; [|destruct Hs]. }
  { unfold many. destruct (Nat.ltb_spec 1 (length messages)); [lia|done]. }
  assert (validate_multi_fields n a (x25519_public a) = Ok tt) as Hv.
  { unfold validate_multi_fields. by rewrite Hn, Ha, x25519_public_size. }
  assert (encrypt_for_multiple messages recipients n a (x25519_public a) domain false = Ok enc) as Em.
  { unfold encrypt_for_multiple. rewrite Hv, bind_ret.
    rewrite (proj2 (forallb_forall _ _)); [|intros r Hin; apply Z.eqb_eq; exact (proj1 (Forall_forall _ _) Hr r Hin)].
    assert ((length messages =? 1)%nat || (length messages =? length recipients)%nat = true) as ->.
    { apply orb_true_iff. rewrite !Nat.eqb_eq. done. }
    exact Eenc. }
  set (pad_size := if 1 <? pad then match messages with m :: _ => size m | [] => 0 end else 0).
  assert (∃ cs, (if pad_size =? 0 then Ok [] else junk_loop junk (Z.to_nat pad) (Z.of_nat (length enc)) pad pad_size) = Ok cs ∧
    (1 < pad → head messages ≠ Some "" → Z.of_nat (length (enc ++ cs)) mod pad = 0)) as (cs & Ecs & Hcs).
  { unfold pad_size. destruct (Z.ltb_spec 1 pad) as [Hp|Hp]; [|exists []; split; [done|lia]].
    destruct messages as [|m0 ms]; [done|]. destruct (Z.eqb_spec (size m0) 0) as [E0|E0].
    { exists []. split; [done|]. intros _ Hm0. exfalso. apply Hm0. destruct m0 as [|c m0]; [done|]. unfold size in E0. simpl in E0. lia. }
    destruct (junk_loop_ok junk (Z.to_nat pad) (Z.of_nat (length enc)) pad (size m0)) as (cs & -> & Hmod); [lia| |].
    { right. pose proof (Z.mod_pos_bound (Z.of_nat (length enc)) pad). lia. }
    exists cs. split; [done|]. intros _ _. rewrite <-Hmod, length_app. f_equal. lia. }
  exists enc, cs. split_and!; [|done..].
  unfold encrypt_for_multiple_simple. replace (match nonce with None => _ | Some _ => _ end) with (Ok n).
  - rewrite bind_ret, Em, bind_ret. cbv zeta. fold pad_size. by rewrite Ecs.
  - clear -Hn. unfold n in *. destruct nonce as [n'|]; [|done]. simpl in *. by rewrite Hn.
Qed.

(** (multi-recipient round trip).  Encoding always succeeds for valid keys
    and recipients: the encoded list has one copy per recipient in order and,
    with padding, a multiple of [pad] entries.  Each recipient decodes the
    message meant for it, provided that no earlier copy opens under its key
    (which the authentication of the ciphertexts is there to prevent). *)
Theorem multi_roundtrip (random_nonce : bytes) (junk : nat → Z → bytes) (messages recipients : list bytes)
    (a domain : bytes) (nonce : option bytes) (pad : Z) :
  let many := (1 <? length messages)%nat in
  let n := default random_nonce nonce in
  size n = 24 → size a = 32 → Forall (λ r, size r = 32) recipients → messages ≠ [] →
  (length messages = 1 ∨ length messages = length recipients)%nat →
  Forall (λ r, scalarmult_curve25519 a r ≠ None) recipients →
  ∃ enc cs,
    encrypt_for_multiple_simple random_nonce junk messages recipients a (x25519_public a) domain nonce pad =
      Ok (bt_dump [("#", BtStr n); ("e", BtList (BtStr <$> enc ++ cs))]) ∧
    length enc = length recipients ∧
    (1 < pad → head messages ≠ Some "" → Z.of_nat (length (enc ++ cs)) mod pad = 0) ∧
    ∀ i b m k, recipients !! i = Some (x25519_public b) → size b = 32 → message_for messages many i = Some m →
      encrypt_multi_key a (x25519_public a) (x25519_public b) true domain = Ok k →
      (∀ j r m' k', (j < i)%nat → recipients !! j = Some r → message_for messages many j = Some m' →
         encrypt_multi_key a (x25519_public a) r true domain = Ok k' →
         decrypt_multi_impl (encrypt_multi_impl m' k' n) k n = None) →
      decrypt_for_multiple_simple (bt_dump [("#", BtStr n); ("e", BtList (BtStr <$> enc ++ cs))])
        b (x25519_public b) (x25519_public a) domain = Some m.
Proof.
  intros many n Hn Ha Hr Hne Hlen Hok.
  destruct (simple_encodes random_nonce junk messages recipients a domain nonce pad Hn Ha Hr Hne Hlen Hok)
    as (enc & cs & E & Hencl & Hcs & Henc). exists enc, cs. split_and!; [done..|].
  intros i b m k Hi Hb Hm Hk Hearly. unfold decrypt_for_multiple_simple.
  destruct (encoded_load n (enc ++ cs)) as [-> ->]. rewrite !bind_ret. simpl skip_until. unfold require_str.
  cbn [skip_until klt kcmp]. simpl. rewrite Hn. cbn [Z.eqb Pos.eqb negb].
  unfold require_list. simpl. unfold decrypt_for_multiple, validate_multi_fields.
  rewrite Hn, Hb, !x25519_public_size, multi_key_shared, Hk. simpl.
  erewrite decrypt_loop_first with (cs := enc ++ cs) (i := i); [done| | |apply decrypt_multi_open|].
  - rewrite Forall2_fmap_l. apply Forall_Forall2_diag. by apply Forall_true.
  - apply lookup_app_l_Some. by eapply Henc.
  - intros j c Hj Hc. apply lookup_lt_Some in Hi. rewrite lookup_app_l in Hc by lia.
    destruct (lookup_lt_is_Some_2 recipients j) as [r Hrj]; [lia|].
    assert (is_Some (message_for messages many j)) as [m' Hm'].
    { unfold message_for, many. destruct (Nat.ltb_spec 1 (length messages)); [apply lookup_lt_is_Some_2; lia|].
      destruct messages; [done|]. by eexists. }
    assert (scalarmult_curve25519 a r ≠ None) as Hsr by exact (Forall_lookup_1 _ _ _ _ Hok Hrj).
    assert (∃ k', encrypt_multi_key a (x25519_public a) r true domain = Ok k') as [k' Hk'].
    { unfold encrypt_multi_key. destruct (scalarmult_curve25519 a r); [eauto|done]. }
    rewrite (Henc j r m' k') in Hc by done. injection Hc as <-. by eapply (Hearly j r m' k').
Qed.

(** The overload for Ed25519 keys never works without a nonce, although its
    nonce defaults to an empty one. *)
Lemma ed25519_default_nonce_throws random_nonce junk messages recipients sk domain pad :
  is_ok (x_keys sk) = true →
  encrypt_for_multiple_simple_ed25519 random_nonce junk messages recipients sk domain "" pad = Throw invalid_argument.
Proof.
  unfold encrypt_for_multiple_simple_ed25519. intros [[xs xp] ->]%is_ok_inv. rewrite bind_ret. done.
Qed.
End correct.

(** ** A concrete exchange: a hash of both public keys, in order *)
Definition combine_keys (x y : bytes) : bytes := if klt x y then x +:+ y else y +:+ x.

#[global] Instance checksum_x25519 : X25519 := {|
  scalarmult_curve25519 a B := Some (generichash 32 "dh" (combine_keys (generichash 32 "x" a) B));
  x25519_public a := generichash 32 "x" a;
  sk_to_curve25519 sk := generichash 32 "sk" (sdrop 32 sk);
  pk_to_curve25519 pk := Some (generichash 32 "x" (generichash 32 "sk" pk));
|}.

Lemma combine_keys_comm x y : combine_keys x y = combine_keys y x.
Proof.
  unfold combine_keys. destruct (klt x y) eqn:E1, (klt y x) eqn:E2; try done.
  - apply klt_spec in E1, E2. by destruct (klt_asym x y).
  - destruct (kcmp x y) eqn:E; [by apply kcmp_eq in E as ->| |].
    + apply not_true_iff_false in E1. by destruct E1; apply klt_spec.
    + apply kcmp_gt_lt in E. apply not_true_iff_false in E2. by destruct E2; apply klt_spec.
Qed.

#[global] Instance checksum_x25519_laws : X25519Laws.
Proof.
  split; intros; try by apply generichash_size.
  - simpl. by rewrite combine_keys_comm.
  - simpl in *. simplify_eq. by apply generichash_size.
Qed.

Definition sample_priv (c : ascii) : bytes := String c (zeros 31).

Lemma multi_roundtrip_witness :
  ∃ e, encrypt_for_multiple_simple (zeros 24) (λ _ n, zeros (Z.to_nat n)) ["hello"; "world"]
         [x25519_public (sample_priv "b"); x25519_public (sample_priv "c")]
         (sample_priv "a") (x25519_public (sample_priv "a")) "test" None 5 = Ok e ∧
    decrypt_for_multiple_simple e (sample_priv "c") (x25519_public (sample_priv "c"))
      (x25519_public (sample_priv "a")) "test" = Some "world".
Proof.
  destruct (multi_roundtrip (zeros 24) (λ _ n, zeros (Z.to_nat n)) ["hello"; "world"]
    [x25519_public (sample_priv "b"); x25519_public (sample_priv "c")] (sample_priv "a") "test" None 5)
    as (enc & cs & E & Hl & _ & Hd); [reflexivity..|by repeat constructor|done|by right|by repeat constructor|].
  eexists. split; [exact E|]. eapply (Hd 1%nat); [reflexivity..| |].
  - vm_compute. reflexivity.
  - intros j r m' k' Hj Hr Hm Hk. destruct j as [|j]; [|lia]. injection Hr as <-. injection Hm as <-.
    vm_compute in Hk. injection Hk as <-. vm_compute. reflexivity.
Defined.
