(* ===== verification/GroupMembers.v ===== *)
(** * The members config of a group

    [src/config/groups/members.cpp] and [include/bchat/config/groups/members.hpp]:
    the members of a group are records in the dictionary ["m"], keyed by the 33
    bytes of their id.  Next to the shared data a device remembers, in its dump
    only, to which members it is sending an invitation or a promotion. *)

From Stdlib Require Import ZArith String Ascii Lia.
From stdpp Require Import base option list strings numbers sorting sets.
From S2P Require Import Prelude OrderedMap Bt Bencode Crypto ConfigData ConfigMessage State Util ConfigBase ConfigState ConfigLifecycle ConfigFields Text Ids Community Records Contacts.

Definition STATUS_SENT : Z := 1.
Definition STATUS_FAILED : Z := 2.
Definition STATUS_NOT_SENT : Z := 3.
Definition REMOVED_MEMBER : Z := 1.
Definition REMOVED_MEMBER_AND_MESSAGES : Z := 2.

Inductive MemberStatus :=
  | invite_unknown | invite_not_sent | invite_sending | invite_failed | invite_sent | invite_accepted
  | promotion_unknown | promotion_not_sent | promotion_sending | promotion_failed | promotion_sent
  | promotion_accepted
  | removed_unknown | removed | removed_including_messages.

Record member := mkMember {
  m_bchat_id : bytes;
  m_name : bytes;
  m_profile_picture : profile_pic;
  m_profile_updated : Z;
  m_admin : bool;
  m_supplement : bool;
  m_invite_status : Z;
  m_promotion_status : Z;
  m_removed_status : Z;
}.

Definition blank_member (id : bytes) : member := mkMember id "" no_pic 0 false false STATUS_NOT_SENT 0 0.

(** ** The transitions of a member *)
Definition with_invite (s : Z) (m : member) : member :=
  mkMember (m_bchat_id m) (m_name m) (m_profile_picture m) (m_profile_updated m) (m_admin m) (m_supplement m)
    s (m_promotion_status m) (m_removed_status m).
Definition set_invite_sent : member → member := with_invite STATUS_SENT.
Definition set_invite_not_sent : member → member := with_invite STATUS_NOT_SENT.
Definition set_invite_failed : member → member := with_invite STATUS_FAILED.
Definition set_invite_accepted (m : member) : member :=
  mkMember (m_bchat_id m) (m_name m) (m_profile_picture m) (m_profile_updated m) (m_admin m) false
    0 (m_promotion_status m) (m_removed_status m).
Definition with_promotion (s : Z) (m : member) : member :=
  mkMember (m_bchat_id m) (m_name m) (m_profile_picture m) (m_profile_updated m) true (m_supplement m)
    0 s (m_removed_status m).
Definition set_promoted : member → member := with_promotion STATUS_NOT_SENT.
Definition set_promotion_sent : member → member := with_promotion STATUS_SENT.
Definition set_promotion_failed : member → member := with_promotion STATUS_FAILED.
Definition set_promotion_accepted : member → member := with_promotion 0.
Definition set_removed (messages : bool) (m : member) : member :=
  mkMember (m_bchat_id m) (m_name m) (m_profile_picture m) (m_profile_updated m) (m_admin m) (m_supplement m)
    0 0 (if messages then REMOVED_MEMBER_AND_MESSAGES else REMOVED_MEMBER).

Definition member_set_name (n : bytes) (m : member) : result member :=
  _ ← require (negb (MAX_NAME_LENGTH <? String.length n)%nat) invalid_argument;
  Ok (mkMember (m_bchat_id m) n (m_profile_picture m) (m_profile_updated m) (m_admin m) (m_supplement m)
        (m_invite_status m) (m_promotion_status m) (m_removed_status m)).
Definition member_set_name_truncated (n : bytes) (m : member) : result member :=
  member_set_name (utf8_truncate n MAX_NAME_LENGTH) m.

(** [member::load] *)
Definition member_load (info : dict) (m : member) : member :=
  let admin := negb (int_or_0 info "A" =? 0) in
  let invite := if admin then 0 else to_int32 (int_or_0 info "I") in
  let promotion := to_int32 (int_or_0 info "P") in
  mkMember (m_bchat_id m)
    (string_or_empty info "n")
    (load_pic info)
    (ts_or_epoch info "t")
    admin
    (if (0 <? invite) && negb (admin || (0 <? promotion)) then negb (int_or_0 info "s" =? 0) else false)
    invite promotion (to_int32 (int_or_0 info "R")).

(** ** The object: a config and the ids with an outstanding send *)
Record Members := mkMembers { m_config : ConfigBase; pending_send_ids : list bytes }.

(** An operation of the base class *)
Definition on_config {A} (op : M ConfigBase A) : M Members A := λ s,
  let '(r, b) := op (m_config s) in (r, mkMembers b (pending_send_ids s)).

Definition has_pending_send (pubkey_hex : bytes) (s : Members) : bool := smem pubkey_hex (pending_send_ids s).

(** [std::unordered_set] insertion and erasure say whether they changed it *)
Definition set_pending_send (pubkey_hex : bytes) (pending : bool) : M Members () :=
  s ← mget;
  let changed := if pending then negb (has_pending_send pubkey_hex s) else has_pending_send pubkey_hex s in
  modify (λ s, mkMembers (m_config s)
    (if pending then sinsert pubkey_hex (pending_send_ids s) else serase pubkey_hex (pending_send_ids s)));;
  when changed (on_config (modify (with_needs_dump true))).

(** [Members::get_status] *)
Definition get_status (m : member) (s : Members) : MemberStatus :=
  if m_removed_status m =? REMOVED_MEMBER_AND_MESSAGES then removed_including_messages
  else if m_removed_status m =? REMOVED_MEMBER then removed
  else if 0 <? m_removed_status m then removed_unknown
  else if m_admin m then
    if (m_promotion_status m =? STATUS_NOT_SENT) && has_pending_send (m_bchat_id m) s then promotion_sending
    else if m_promotion_status m =? STATUS_NOT_SENT then promotion_not_sent
    else if m_promotion_status m =? STATUS_FAILED then promotion_failed
    else if m_promotion_status m =? STATUS_SENT then promotion_sent
    else if negb (m_promotion_status m =? 0) then promotion_unknown
    else promotion_accepted
  else if (m_invite_status m =? STATUS_NOT_SENT) && has_pending_send (m_bchat_id m) s then invite_sending
  else if m_invite_status m =? STATUS_NOT_SENT then invite_not_sent
  else if m_invite_status m =? STATUS_FAILED then invite_failed
  else if m_invite_status m =? STATUS_SENT then invite_sent
  else if negb (m_invite_status m =? 0) then invite_unknown
  else invite_accepted.

(** [Members::extra_data] and [load_extra_data]: what the dump carries *)
Definition extra_data (s : Members) : bt_dict :=
  match pending_send_ids s with
  | [] => []
  | ids => [("pending_send_ids", BtList (BtStr <$> ids))]
  end.
Definition load_extra_data (extra : bt_dict) (ids : list bytes) : result (list bytes) :=
  match skip_until extra "pending_send_ids" with
  | ((_, BtList l) :: _, true) =>
      foldR (λ ids v, match v with BtStr s => Ok (sinsert s ids) | _ => Throw bt_deserialize_invalid end) ids l
  | (_, true) => Throw bt_deserialize_invalid
  | (_, false) => Ok ids
  end.

Section members.
Context `{BtLib, Hash, Oxenc}.

Definition new_member (sid : bytes) : result member :=
  _ ← check_bchat_id sid "05"; Ok (blank_member sid).

Definition member_path (pk : bytes) : path := sub (root "m") pk.

Definition members_get (pubkey_hex : bytes) (d : dict) : result (option member) :=
  pubkey ← bchat_id_to_bytes pubkey_hex "05";
  match field_dict (member_path pubkey) d with
  | None => Ok None
  | Some info => m ← new_member pubkey_hex; Ok (Some (member_load info m))
  end.
Definition members_get_or_construct (pubkey_hex : bytes) (d : dict) : result member :=
  maybe ← members_get pubkey_hex d; match maybe with Some m => Ok m | None => new_member pubkey_hex end.

(** The record that [Members::set] writes *)
Definition write_member (mem : member) (info : path) : M ConfigBase () :=
  assign_str (sub info "n") (stake MAX_NAME_LENGTH (m_name mem));;
  set_pair_if (negb (pic_empty (m_profile_picture mem)))
    (sub info "p") (str_value (pic_url (m_profile_picture mem)))
    (sub info "q") (str_value (pic_key (m_profile_picture mem)));;
  set_positive_int (sub info "t") (m_profile_updated mem);;
  set_flag (sub info "A") (m_admin mem);;
  set_positive_int (sub info "P") (m_promotion_status mem);;
  set_positive_int (sub info "I") (if m_admin mem then 0 else m_invite_status mem);;
  set_flag (sub info "s") (m_supplement mem);;
  set_positive_int (sub info "R") (m_removed_status mem).

(** Whether a send is outstanding for a member that is stored *)
Definition sends (mem : member) : bool :=
  (negb (m_admin mem) && (m_invite_status mem =? STATUS_NOT_SENT)) ||
  (m_admin mem && (m_promotion_status mem =? STATUS_NOT_SENT)).

Definition members_set (mem : member) : M Members () :=
  pk ← lift (bchat_id_to_bytes (m_bchat_id mem) "05");
  on_config (write_member mem (member_path pk));;
  if sends mem then set_pending_send (m_bchat_id mem) true
  else if (negb (m_admin mem) && negb (m_invite_status mem =? STATUS_NOT_SENT)) ||
          (m_admin mem && negb (m_promotion_status mem =? STATUS_NOT_SENT))
  then set_pending_send (m_bchat_id mem) false
  else skip.

Definition members_erase (bchat_id : bytes) : M Members bool :=
  pk ← lift (bchat_id_to_bytes bchat_id "05");
  s ← mget;
  let ret := field_exists (member_path pk) (data_of (m_config s)) in
  on_config (erase_field (member_path pk));;
  set_pending_send bchat_id false;;
  mret ret.

Definition members_size (d : dict) : Z :=
  match field_dict (root "m") d with Some l => Z.of_nat (length l) | None => 0 end.

(** The iterator, [_load_info] *)
Fixpoint members_from (entries : dict) : result (list member) :=
  match entries with
  | [] => Ok []
  | (k, v) :: rest =>
      match (if size k =? 33 then match v with DDict info => Some info | _ => None end else None) with
      | Some info => m ← new_member (to_hex k); l ← members_from rest; Ok (member_load info m :: l)
      | None => members_from rest
      end
  end.
Definition members_all (d : dict) : result (list member) :=
  match field_dict (root "m") d with Some l => members_from l | None => Ok [] end.
End members.

(** ** What a record holds after it has been written *)
Definition member_fields (m : member) : list (bytes * option dict_value) :=
  let pic := negb (pic_empty (m_profile_picture m)) in
  [("n", Some (str_value (stake MAX_NAME_LENGTH (m_name m))));
   ("p", value_if pic (str_value (pic_url (m_profile_picture m))));
   ("q", value_if pic (str_value (pic_key (m_profile_picture m))));
   ("t", positive_value (m_profile_updated m));
   ("A", flag_value (m_admin m));
   ("P", positive_value (m_promotion_status m));
   ("I", positive_value (if m_admin m then 0 else m_invite_status m));
   ("s", flag_value (m_supplement m));
   ("R", positive_value (m_removed_status m))].

(** The member as it reads back *)
Definition stored_member (m : member) : member :=
  let invite := if m_admin m then 0 else Z.max 0 (m_invite_status m) in
  let promotion := Z.max 0 (m_promotion_status m) in
  mkMember (m_bchat_id m)
    (stake MAX_NAME_LENGTH (m_name m))
    (if pic_empty (m_profile_picture m) then no_pic else m_profile_picture m)
    (Z.max 0 (m_profile_updated m))
    (m_admin m)
    ((0 <? invite) && negb (m_admin m || (0 <? promotion)) && m_supplement m)
    invite promotion (Z.max 0 (m_removed_status m)).

Definition member_typed (m : member) : bool :=
  in_int64 (m_profile_updated m) && in_int32 (m_invite_status m) && in_int32 (m_promotion_status m) &&
  in_int32 (m_removed_status m).

Lemma to_int32_pos z : in_int32 z = true → to_int32 (Z.max 0 z) = Z.max 0 z.
Proof. rewrite in_int32_spec. intros Hz. apply to_int32_id. lia. Qed.

Lemma member_load_fields m info :
  member_typed m = true →
  (∀ k o, assoc k (member_fields m) = Some o → mfind k info = o) →
  member_load info (blank_member (m_bchat_id m)) = stored_member m.
Proof.
  unfold member_typed. rewrite !andb_true_iff. intros (((_ & Hi) & Hp) & Hr) Hf.
  unfold member_load, stored_member. cbn [m_bchat_id blank_member].
  rewrite (string_or_empty_find info "n" _ (Hf "n" _ eq_refl)).
  rewrite (load_pic_find info _ (Hf "p" _ eq_refl) (Hf "q" _ eq_refl)).
  rewrite (ts_or_epoch_find info "t" _ (Hf "t" _ eq_refl)).
  rewrite (int_or_0_find info "A" _ (Hf "A" _ eq_refl)), (int_or_0_find info "P" _ (Hf "P" _ eq_refl)).
  rewrite (int_or_0_find info "I" _ (Hf "I" _ eq_refl)), (int_or_0_find info "s" _ (Hf "s" _ eq_refl)).
  rewrite (int_or_0_find info "R" _ (Hf "R" _ eq_refl)). autorewrite with members.
  cbv zeta. destruct (m_admin m); cbn [negb orb andb]; rewrite !to_int32_pos by done; [done|].
  by destruct (_ && _).
Qed.

Section writes.
Context `{BtLib, Hash, Oxenc}.

Lemma member_fields_nodup m : NoDup (member_fields m).*1.
Proof. apply (bool_decide_unpack _); vm_compute; done. Qed.

Lemma edits_write_member m d q :
  dict_ok d = true → member_typed m = true → edits d (write_member m q) (put_members q (member_fields m) d).
Proof.
  intros Hd Hc. unfold member_typed in Hc. rewrite !andb_true_iff in Hc. destruct Hc as (((Hu & Hi) & Hp) & Hr).
  apply in_int32_int64 in Hi, Hp, Hr.
  assert (in_int64 (if m_admin m then 0 else m_invite_status m) = true) as Hi' by by destruct (m_admin m).
  unfold write_member. eapply edits_eq; [edit_record|reflexivity].
Qed.

Lemma writable_needs_dump b : writable b → writable (with_needs_dump true b).
Proof. intros [H1' H2' H3' H4']. split; [by apply (inv_needs_dump true b H1')|done..]. Qed.

(** [set_pending_send], run *)
Lemma run_pending id p s :
  ∃ b, set_pending_send id p s = (Ok tt, mkMembers b (if p then sinsert id (pending_send_ids s) else serase id (pending_send_ids s))) ∧
    data_of b = data_of (m_config s) ∧ (writable (m_config s) → writable b).
Proof.
  unfold set_pending_send. rewrite run_mget. cbv zeta. rewrite run_modify. cbn [m_config pending_send_ids].
  destruct (if p then _ else _).
  - eexists. split; [reflexivity|]. split; [done|apply writable_needs_dump].
  - eexists. split; [reflexivity|]. done.
Qed.

(** [Members::set]: the record is stored, and the member is among the
    outstanding sends exactly when its invitation or promotion has not been
    sent. *)
Lemma members_set_spec (s : Members) (m : member) (k : bytes) :
  writable (m_config s) → ssorted (pending_send_ids s) = true →
  bchat_id_to_bytes (m_bchat_id m) "05" = Ok k → member_typed m = true →
  ∃ s', members_set m s = (Ok tt, s') ∧ writable (m_config s') ∧ ssorted (pending_send_ids s') = true ∧
    members_get (m_bchat_id m) (data_of (m_config s')) = Ok (Some (stored_member m)) ∧
    (∀ id, has_pending_send id s' = if keqb id (m_bchat_id m) then sends m else has_pending_send id s) ∧
    (∀ j, j ≠ k → get_clean (member_path j) (data_of (m_config s')) = get_clean (member_path j) (data_of (m_config s))).
Proof.
  intros Hb Hs Hk Hm. destruct s as [b ids]. cbn [m_config pending_send_ids] in *.
  destruct (edits_write_member m (data_of b) (member_path k) (writable_data _ Hb) Hm b Hb eq_refl)
    as ([] & b' & E & Hb' & Hd & _).
  assert (∀ A (f : () → M Members A), (x ← on_config (write_member m (member_path k)); f x) (mkMembers b ids) = f tt (mkMembers b' ids)) as Hrun.
  { intros A f. unfold mbind, M_bind, on_config. simpl. by rewrite E. }
  destruct (run_pending (m_bchat_id m) (sends m) (mkMembers b' ids)) as (b2 & E2 & Hd2 & Hw2). cbn [m_config pending_send_ids] in *.
  exists (mkMembers b2 (if sends m then sinsert (m_bchat_id m) ids else serase (m_bchat_id m) ids)). cbn [m_config pending_send_ids].
  split_and!; [|by apply Hw2|by destruct (sends m); [apply ssorted_insert|apply ssorted_erase]|..].
  - unfold members_set. rewrite run_lift, Hk, Hrun. unfold sends in E2 |- *.
    destruct (m_admin m), (m_invite_status m =? STATUS_NOT_SENT), (m_promotion_status m =? STATUS_NOT_SENT);
      cbn [negb andb orb] in *; exact E2.
  - unfold members_get. rewrite Hk, bind_ret. rewrite Hd2, Hd.
    destruct (field_dict_written (member_path k) "n" (str_value (stake MAX_NAME_LENGTH (m_name m))) (tail (member_fields m)) (data_of b))
      as [info Hinfo]. change ((_, _) :: tail _) with (member_fields m) in Hinfo. rewrite Hinfo.
    unfold new_member, check_bchat_id. apply bchat_id_to_bytes_Ok in Hk as [-> _]. cbn [require]. rewrite !bind_ret.
    do 2 f_equal. apply member_load_fields; [done|]. intros x o Hx.
    rewrite (member_find _ _ _ _ Hinfo), get_put_members by apply member_fields_nodup. by rewrite Hx.
  - intros id. unfold has_pending_send. simpl. destruct (sends m).
    + rewrite smem_insert. by destruct (keqb id (m_bchat_id m)).
    + rewrite smem_erase by done. by destruct (keqb id (m_bchat_id m)).
  - intros j Hj. rewrite Hd2, Hd. apply get_put_members_other. intros x. by apply record_other.
Qed.

(** The transitions with the status they are meant to lead to *)
Definition invite_transitions : list ((member → member) * MemberStatus) :=
  [(set_invite_not_sent, invite_sending); (set_invite_sent, invite_sent); (set_invite_failed, invite_failed);
   (set_invite_accepted, invite_accepted)].
Definition promotion_transitions : list ((member → member) * MemberStatus) :=
  [(set_promoted, promotion_sending); (set_promotion_sent, promotion_sent);
   (set_promotion_failed, promotion_failed); (set_promotion_accepted, promotion_accepted)].
Definition removal_transitions : list ((member → member) * MemberStatus) :=
  [(set_removed false, removed); (set_removed true, removed_including_messages)].

(** What is left to check of a transition: the id and types stay, and the
    status follows from the stored member and the outstanding send *)
Definition sending (st : MemberStatus) : bool :=
  match st with invite_sending | promotion_sending => true | _ => false end.

Definition leads_to (m : member) (f : member → member) (st : MemberStatus) : Prop :=
  m_bchat_id (f m) = m_bchat_id m ∧ member_typed (f m) = true ∧ sends (f m) = sending st ∧
  ∀ s, has_pending_send (m_bchat_id m) s = sends (f m) → get_status (stored_member (f m)) s = st.

Lemma transition_leads_to m f st :
  member_typed m = true → m_removed_status m = 0 →
  (f, st) ∈ removal_transitions ++ promotion_transitions ++ (if m_admin m then [] else invite_transitions) →
  leads_to m f st.
Proof.
  unfold member_typed. rewrite !andb_true_iff. intros (((Hu & Hi) & Hp) & Hr) Hr0 Hin.
  unfold removal_transitions, promotion_transitions, invite_transitions in Hin. simpl in Hin.
  assert (∀ z, in_int32 z = true → in_int32 (if m_admin m then 0 else Z.max 0 z) = true) as Hpos.
  { intros z Hz. destruct (m_admin m); [done|]. apply in_int32_spec in Hz. apply in_int32_spec. lia. }
  destruct (m_admin m) eqn:Ea; repeat (apply elem_of_cons in Hin as [[= -> ->]|Hin]; [|]);
    try (by apply elem_of_nil in Hin);
    (split; [done|]); (split; [unfold member_typed; simpl; by rewrite ?Hu, ?Hi, ?Hp, ?Hr|]);
    (split; [unfold sends; simpl; by rewrite ?Ea|]); intros s Hs;
    unfold get_status, stored_member, sends in *; simpl in *; rewrite ?Hr0, ?Ea, ?Hs in *; simpl; rewrite ?Ea; simpl in *; rewrite ?Hs; done.
Qed.

(** (member status).  Storing a member after one of the transitions of its
    invitation, promotion or removal and reading it back shows the status the
    transition is for; the member is among the outstanding sends exactly in the
    statuses that say so; and no other member is affected. *)
Theorem member_status (s : Members) (m : member) (k : bytes) (f : member → member) (st : MemberStatus) :
  writable (m_config s) → ssorted (pending_send_ids s) = true →
  bchat_id_to_bytes (m_bchat_id m) "05" = Ok k → member_typed m = true → m_removed_status m = 0 →
  (f, st) ∈ removal_transitions ++ promotion_transitions ++ (if m_admin m then [] else invite_transitions) →
  ∃ s' m', members_set (f m) s = (Ok tt, s') ∧ writable (m_config s') ∧
    members_get (m_bchat_id m) (data_of (m_config s')) = Ok (Some m') ∧ get_status m' s' = st ∧
    has_pending_send (m_bchat_id m) s' = sending st ∧
    (∀ j, j ≠ k → get_clean (member_path j) (data_of (m_config s')) = get_clean (member_path j) (data_of (m_config s))).
Proof.
  intros Hb Hs Hk Hm Hr Hin. destruct (transition_leads_to m f st Hm Hr Hin) as (Hid & Ht & Hsend & Hst).
  destruct (members_set_spec s (f m) k Hb Hs) as (s' & E & Hb' & _ & Hg & Hp & Ho); [by rewrite Hid|done|].
  specialize (Hp (m_bchat_id m)). rewrite Hid, keqb_refl in Hp. rewrite Hid in Hg.
  exists s', (stored_member (f m)). split_and!; [done..|by apply Hst|congruence|done].
Qed.
End writes.

(** ** The outstanding sends survive a restart *)
Lemma load_ids_spec l ids :
  foldR (λ ids v, match v with BtStr s => Ok (sinsert s ids) | _ => Throw bt_deserialize_invalid end) ids (BtStr <$> l) =
    Ok (fold_left (λ ids s, sinsert s ids) l ids).
Proof. revert ids; induction l as [|x l IH]; intros ids; [done|]. simpl. apply IH. Qed.

Lemma extra_data_roundtrip s : ssorted (pending_send_ids s) = true →
  load_extra_data (extra_data s) [] = Ok (pending_send_ids s).
Proof.
  intros Hs. unfold extra_data, load_extra_data. destruct (pending_send_ids s) as [|x l] eqn:E; [done|].
  simpl skip_until. rewrite <-E in *. cbn [klt kcmp]. simpl. rewrite load_ids_spec. f_equal.
  apply ssorted_ext; [|done|].
  - clear -Hs. assert (∀ l acc, ssorted acc = true → ssorted (fold_left (λ ids s, sinsert s ids) l acc) = true) as Hf.
    { intros l0. induction l0 as [|y l' IH]; intros acc Ha; [done|]. simpl. by apply IH, ssorted_insert. }
    by apply Hf.
  - intros y. assert (∀ l acc, smem y (fold_left (λ ids s, sinsert s ids) l acc) = smem y acc || smem y l) as Hf.
    { clear. intros l. induction l as [|z l' IH]; intros acc; simpl; [by rewrite orb_false_r|]. rewrite IH, smem_insert.
      by destruct (keqb y z), (smem y acc). }
    rewrite Hf, E. simpl. by rewrite orb_false_r.
Qed.

(** ** Examples *)
Definition sample_member : member := mkMember sample_id "Ann" no_pic 0 false false 0 0 0.
Definition new_members : Members := mkMembers new_config [].

Lemma member_status_witness :
  ∃ s' m', members_set (set_promoted sample_member) new_members = (Ok tt, s') ∧
    members_get sample_id (data_of (m_config s')) = Ok (Some m') ∧ get_status m' s' = promotion_sending.
Proof.
  destruct (member_status new_members sample_member (unhex sample_id) set_promoted promotion_sending)
    as (s' & m' & E & _ & Hg & Hst & _); [exact writable_new|reflexivity|vm_compute; reflexivity|reflexivity..| |].
  { simpl. set_solver. }
  exists s', m'. split; [exact E|]. split; [exact Hg|exact Hst].
Defined.

(** The outstanding sends are kept under the id as it was given: a member
    stored under an id with upper-case digits is found by the iterator with a
    status that says the opposite. *)
Lemma pending_case_sensitive :
  let s := state_after (members_set (blank_member sample_id)) new_members in
  match members_get sample_id (data_of (m_config s)), members_all (data_of (m_config s)) with
  | Ok (Some m1), Ok [m2] => Some (get_status m1 s, get_status m2 s)
  | _, _ => None
  end = Some (invite_sending, invite_not_sent).
Proof. vm_compute. reflexivity. Qed.
