(* ===== verification/GroupInfo.v ===== *)
(** * The info config of a group

    [src/config/groups/info.cpp] and [include/bchat/config/groups/info.hpp]:
    name, description, picture, timers and the mark of a destroyed group, each
    one field of the data. *)

From Stdlib Require Import ZArith String Ascii Lia.
From stdpp Require Import base option list strings numbers sorting sets.
From S2P Require Import Prelude OrderedMap Bt Bencode Crypto ConfigData ConfigMessage State Util ConfigBase ConfigState ConfigLifecycle ConfigFields Text Ids Community Records Contacts.

Definition INFO_NAME_MAX_LENGTH : nat := 100.
Definition DESCRIPTION_MAX_LENGTH : nat := 600.

(** A string field that is there and not empty *)
Definition nonempty_field (k : bytes) (d : dict) : option bytes :=
  match field_string (root k) d with
  | Some s => if size s =? 0 then None else Some s
  | None => None
  end.

Definition info_get_name : dict → option bytes := nonempty_field "n".
Definition get_description : dict → option bytes := nonempty_field "o".

Definition info_get_profile_pic (d : dict) : profile_pic :=
  mkPic (match field_string (root "p") d with Some url => url | None => "" end)
    (match field_string (root "q") d with Some key => if size key =? 32 then key else "" | None => "" end).

Definition get_expiry_timer (d : dict) : option Z := field_integer (root "E") d.
Definition get_created (d : dict) : option Z := to_epoch_seconds <$> field_integer (root "c") d.
Definition get_delete_before (d : dict) : option Z := to_epoch_seconds <$> field_integer (root "d") d.
Definition get_delete_attach_before (d : dict) : option Z := to_epoch_seconds <$> field_integer (root "D") d.
Definition info_is_destroyed (d : dict) : bool :=
  match field_integer (root "!") d with Some ts => 0 <? ts | None => false end.

Section info.
Context `{BtLib, Hash, Oxenc}.

Definition info_id (ed25519_pubkey : bytes) : bytes := "03" +:+ to_hex ed25519_pubkey.

Definition info_set_name (new_name : bytes) : M ConfigBase () :=
  guard_ (negb (INFO_NAME_MAX_LENGTH <? String.length new_name)%nat) invalid_argument;;
  set_nonempty_str (root "n") new_name.
Definition info_set_name_truncated (new_name : bytes) : M ConfigBase () :=
  info_set_name (utf8_truncate new_name INFO_NAME_MAX_LENGTH).
Definition set_description (new_desc : bytes) : M ConfigBase () :=
  guard_ (negb (DESCRIPTION_MAX_LENGTH <? String.length new_desc)%nat) invalid_argument;;
  set_nonempty_str (root "o") new_desc.
Definition set_description_truncated (new_desc : bytes) : M ConfigBase () :=
  set_description (utf8_truncate new_desc DESCRIPTION_MAX_LENGTH).
Definition info_set_profile_pic (url key : bytes) : M ConfigBase () :=
  set_pair_if (negb (size url =? 0) && (size key =? 32)) (root "p") (str_value url) (root "q") (str_value key).
Definition set_expiry_timer (expiration_timer : Z) : M ConfigBase () :=
  set_positive_int (root "E") expiration_timer.
Definition set_created (timestamp : Z) : M ConfigBase () :=
  set_positive_int (root "c") (to_epoch_seconds timestamp).
Definition set_delete_before (timestamp : Z) : M ConfigBase () :=
  set_positive_int (root "d") (to_epoch_seconds timestamp).
Definition set_delete_attach_before (timestamp : Z) : M ConfigBase () :=
  set_positive_int (root "D") (to_epoch_seconds timestamp).
Definition destroy_group : M ConfigBase () := set_flag (root "!") true.

(** ** The setters of the object *)
Inductive info_op :=
  | SetName (s : bytes) | SetNameTruncated (s : bytes)
  | SetDescription (s : bytes) | SetDescriptionTruncated (s : bytes)
  | SetProfilePic (url key : bytes)
  | SetExpiryTimer (t : Z) | SetCreated (t : Z) | SetDeleteBefore (t : Z) | SetDeleteAttachBefore (t : Z)
  | DestroyGroup.

Definition run_info (o : info_op) : M ConfigBase () :=
  match o with
  | SetName s => info_set_name s
  | SetNameTruncated s => info_set_name_truncated s
  | SetDescription s => set_description s
  | SetDescriptionTruncated s => set_description_truncated s
  | SetProfilePic url key => info_set_profile_pic url key
  | SetExpiryTimer t => set_expiry_timer t
  | SetCreated t => set_created t
  | SetDeleteBefore t => set_delete_before t
  | SetDeleteAttachBefore t => set_delete_attach_before t
  | DestroyGroup => destroy_group
  end.

(** The arguments are values of their C++ types. *)
Definition op_typed (o : info_op) : bool :=
  match o with
  | SetExpiryTimer t | SetCreated t | SetDeleteBefore t | SetDeleteAttachBefore t => in_int64 t
  | _ => true
  end.

(** What an operation asks for: the fields it sets; [None] when the argument
    is too long *)
Definition op_fields (o : info_op) : option (list (bytes * option dict_value)) :=
  match o with
  | SetName s => if (INFO_NAME_MAX_LENGTH <? String.length s)%nat then None else Some [("n", nonempty_value s)]
  | SetNameTruncated s => Some [("n", nonempty_value (utf8_truncate s INFO_NAME_MAX_LENGTH))]
  | SetDescription s => if (DESCRIPTION_MAX_LENGTH <? String.length s)%nat then None else Some [("o", nonempty_value s)]
  | SetDescriptionTruncated s => Some [("o", nonempty_value (utf8_truncate s DESCRIPTION_MAX_LENGTH))]
  | SetProfilePic url key =>
      let c := negb (size url =? 0) && (size key =? 32) in
      Some [("p", value_if c (str_value url)); ("q", value_if c (str_value key))]
  | SetExpiryTimer t => Some [("E", positive_value t)]
  | SetCreated t => Some [("c", positive_value (to_epoch_seconds t))]
  | SetDeleteBefore t => Some [("d", positive_value (to_epoch_seconds t))]
  | SetDeleteAttachBefore t => Some [("D", positive_value (to_epoch_seconds t))]
  | DestroyGroup => Some [("!", flag_value true)]
  end.

Definition put_fields (fs : list (bytes * option dict_value)) (d : dict) : dict :=
  fold_left (λ d f, put_opt (root f.1) f.2 d) fs d.

Lemma back_up_le v k : (back_up v k ≤ k)%nat.
Proof.
  induction k as [|k IH]; [done|]. cbn [back_up]. destruct (String.get (S k) v); [|done].
  destruct (is_continuation _); lia.
Qed.

Lemma utf8_truncate_length s n : (String.length (utf8_truncate s n) ≤ n)%nat.
Proof.
  unfold utf8_truncate. destruct (Nat.leb_spec (String.length s) n) as [|Hlt]; [done|].
  rewrite length_stake. pose proof (back_up_le s n). lia.
Qed.

Lemma put_fields_ok fs d :
  dict_ok d = true → forallb (λ f, opt_ok f.2) fs = true → dict_ok (put_fields fs d) = true.
Proof.
  unfold put_fields. revert d; induction fs as [|f fs IH]; intros d Hd Hf; [done|]. simpl in Hf.
  apply andb_true_iff in Hf as [H1' H2']. simpl. apply IH; [by apply put_opt_dict_ok|done].
Qed.

(** Each operation writes its fields, or throws and changes nothing. *)
Lemma run_info_spec o b :
  writable b → op_typed o = true →
  match op_fields o with
  | Some fs => edits (data_of b) (run_info o) (put_fields fs (data_of b))
  | None => run_info o b = (Throw invalid_argument, b)
  end.
Proof.
  intros Hb Ht. pose proof (writable_data _ Hb) as Hd.
  assert (∀ k s n d, (n <? String.length s)%nat = false → dict_ok d = true →
    edits d (guard_ (negb (n <? String.length s)%nat) invalid_argument;; set_nonempty_str (root k) s)
      (put_opt (root k) (nonempty_value s) d)) as Hstr.
  { intros k s n d Hn Hd'. rewrite Hn. intros b' Hb' E. rewrite run_guard. simpl. revert b' Hb' E.
    by apply edits_nonempty. }
  assert (∀ s n, (n <? String.length (utf8_truncate s n))%nat = false) as Htr.
  { intros s n. apply Nat.ltb_ge, utf8_truncate_length. }
  destruct o; simpl in Ht |- *; unfold put_fields; cbn [fold_left fst snd];
    try (apply edits_positive; [done|]; first [done|by apply to_epoch_seconds_int64]);
    try (apply edits_flag; done); try (by apply edits_pair); try (by apply Hstr).
  - destruct (INFO_NAME_MAX_LENGTH <? String.length s)%nat eqn:E; [|by apply Hstr].
    unfold info_set_name. by rewrite run_guard, E.
  - destruct (DESCRIPTION_MAX_LENGTH <? String.length s)%nat eqn:E; [|by apply Hstr].
    unfold set_description. by rewrite run_guard, E.
Qed.

(** ** The abstract group info *)
Record info_view := mkView {
  v_name : option bytes; v_description : option bytes; v_pic : profile_pic; v_expiry : option Z;
  v_created : option Z; v_delete_before : option Z; v_delete_attach_before : option Z; v_destroyed : bool;
}.

Definition view (d : dict) : info_view :=
  mkView (info_get_name d) (get_description d) (info_get_profile_pic d) (get_expiry_timer d) (get_created d)
    (get_delete_before d) (get_delete_attach_before d) (info_is_destroyed d).

Definition nonempty (s : bytes) : option bytes := if size s =? 0 then None else Some s.
Definition positive (t : Z) : option Z := if 0 <? t then Some t else None.
Definition seconds (t : Z) : option Z := to_epoch_seconds <$> positive (to_epoch_seconds t).

Definition apply_op (v : info_view) (o : info_op) : info_view :=
  let '(mkView n o' p e c d a x) := v in
  match o with
  | SetName s => mkView (if (INFO_NAME_MAX_LENGTH <? String.length s)%nat then n else nonempty s) o' p e c d a x
  | SetNameTruncated s => mkView (nonempty (utf8_truncate s INFO_NAME_MAX_LENGTH)) o' p e c d a x
  | SetDescription s => mkView n (if (DESCRIPTION_MAX_LENGTH <? String.length s)%nat then o' else nonempty s) p e c d a x
  | SetDescriptionTruncated s => mkView n (nonempty (utf8_truncate s DESCRIPTION_MAX_LENGTH)) p e c d a x
  | SetProfilePic url key =>
      mkView n o' (if pic_empty (mkPic url key) then no_pic else mkPic url key) e c d a x
  | SetExpiryTimer t => mkView n o' p (positive t) c d a x
  | SetCreated t => mkView n o' p e (seconds t) d a x
  | SetDeleteBefore t => mkView n o' p e c (seconds t) a x
  | SetDeleteAttachBefore t => mkView n o' p e c d (seconds t) x
  | DestroyGroup => mkView n o' p e c d a true
  end.

Lemma get_put_root k k' o d :
  get_clean (root k) (put_opt (root k') o d) = if keqb k k' then o else get_clean (root k) d.
Proof.
  destruct (keqb k k') eqn:E; [apply keqb_spec in E as ->; apply get_put_same|].
  apply get_put_other. simpl. by rewrite keqb_sym, E.
Qed.

Definition string_of (o : option dict_value) : option bytes :=
  match o with Some (DScalar (inr s)) => Some s | _ => None end.
Definition integer_of (o : option dict_value) : option Z :=
  match o with Some (DScalar (inl z)) => Some z | _ => None end.

Lemma field_string_put k k' o d :
  field_string (root k) (put_opt (root k') o d) = if keqb k k' then string_of o else field_string (root k) d.
Proof. unfold field_string. rewrite get_put_root. by destruct (keqb k k'). Qed.
Lemma field_integer_put k k' o d :
  field_integer (root k) (put_opt (root k') o d) = if keqb k k' then integer_of o else field_integer (root k) d.
Proof. unfold field_integer. rewrite get_put_root. by destruct (keqb k k'). Qed.

Lemma string_of_nonempty s : string_of (nonempty_value s) = nonempty s.
Proof. unfold nonempty_value, nonempty. by destruct (size s =? 0). Qed.
Lemma nonempty_idem s :
  match nonempty s with Some s' => if size s' =? 0 then None else Some s' | None => None end = nonempty s.
Proof. unfold nonempty. by destruct (size s =? 0) eqn:E; [|rewrite E]. Qed.
Lemma integer_of_positive t : integer_of (positive_value t) = positive t.
Proof. unfold positive_value, positive. by destruct (0 <? t). Qed.

Lemma stored_pic url key :
  let c := negb (size url =? 0) && (size key =? 32) in
  mkPic (default "" (string_of (value_if c (str_value url))))
    (match string_of (value_if c (str_value key)) with
     | Some key => if size key =? 32 then key else "" | None => "" end) =
  if pic_empty (mkPic url key) then no_pic else mkPic url key.
Proof.
  unfold pic_empty; cbn [pic_url pic_key]. destruct (size url =? 0); [done|]. simpl.
  destruct (size key =? 32) eqn:E; simpl; [by rewrite E|done].
Qed.

Ltac compute_keys :=
  repeat match goal with
  | |- context [keqb ?a ?b] => let v := eval vm_compute in (keqb a b) in change (keqb a b) with v
  end; cbv iota.

(** The fields an operation writes are seen as the abstract operation says. *)
Lemma view_put o d :
  match op_fields o with
  | Some fs => view (put_fields fs d) = apply_op (view d) o
  | None => apply_op (view d) o = view d
  end.
Proof.
  destruct o; cbn [op_fields];
    try (destruct (_ <? _)%nat eqn:E; [unfold view; cbn [apply_op]; by rewrite E|]);
    unfold view, info_get_name, get_description, nonempty_field, info_get_profile_pic, get_expiry_timer,
      get_created, get_delete_before, get_delete_attach_before, info_is_destroyed, put_fields;
    cbn [fold_left fst snd]; rewrite ?field_string_put, ?field_integer_put; compute_keys;
    rewrite ?string_of_nonempty, ?nonempty_idem, ?integer_of_positive; cbn [apply_op]; rewrite ?E; try done.
  by rewrite <- stored_pic.
Qed.

Lemma destroyed_stays ops v : v_destroyed v = true → v_destroyed (fold_left apply_op ops v) = true.
Proof. revert v; induction ops as [|o ops IH]; intros v Hv; [done|]. apply IH. by destruct v, o. Qed.

(** One call: the object stays writable and shows what the abstract operation
    gives. *)
Lemma info_step o b :
  writable b → op_typed o = true →
  writable (run_info o b).2 ∧ view (data_of (run_info o b).2) = apply_op (view (data_of b)) o.
Proof.
  intros Hb Ht. pose proof (run_info_spec o b Hb Ht) as Hr. pose proof (view_put o (data_of b)) as Hv.
  destruct (op_fields o) as [fs|].
  - destruct (Hr b Hb eq_refl) as (a & b' & -> & ? & E & _). cbn [snd]. by rewrite E.
  - by rewrite Hr.
Qed.

(** (refinement): the info object of a group refines a record of eight
    independent attributes. Any sequence of setter calls, with arguments that
    are values of their types and with the calls that throw on a too long name
    or description included, leaves an object that can still be written, and
    what the getters then say is what the abstract record says after the same
    calls: each call changes its own attribute only, a refused call none, and
    once the group is destroyed it stays so. *)
Theorem info_refines_view ops b :
  writable b → forallb op_typed ops = true →
  let b' := fold_left (λ b o, (run_info o b).2) ops b in
  writable b' ∧ view (data_of b') = fold_left apply_op ops (view (data_of b)) ∧
  (info_is_destroyed (data_of b) = true → info_is_destroyed (data_of b') = true).
Proof.
  intros Hb Hops. enough (writable (fold_left (λ b o, (run_info o b).2) ops b) ∧
    view (data_of (fold_left (λ b o, (run_info o b).2) ops b)) = fold_left apply_op ops (view (data_of b))) as [Hw Hv].
  { split_and!; [done..|]. intros Hd. change (info_is_destroyed ?d) with (v_destroyed (view d)) in *.
    rewrite Hv. by apply destroyed_stays. }
  revert b Hb; induction ops as [|o ops IH]; intros b Hb; [done|]. cbn [forallb fold_left] in Hops |- *.
  apply andb_true_iff in Hops as [Ho Hops]. destruct (info_step o b Hb Ho) as [Hb' <-]. by apply IH.
Qed.
End info.

Definition sample_ops : list info_op :=
  [SetName "Chess club"; SetProfilePic "http://example" "abcdefghijklmnopqrstuvwxyz012345"; SetCreated 1700000000123; DestroyGroup;
   SetExpiryTimer 86400; SetName ""].

Lemma info_refines_view_witness :
  view (data_of (fold_left (λ b o, (run_info o b).2) sample_ops new_config)) =
    mkView None None (mkPic "http://example" "abcdefghijklmnopqrstuvwxyz012345") (Some 86400) (Some 1700000000) None None true.
Proof.
  destruct (info_refines_view sample_ops new_config) as (_ & E & _); [exact writable_new|reflexivity|].
  rewrite E. vm_compute. reflexivity.
Defined.
