(* ===== verification/GroupKeys.v ===== *)
(** * The encryption keys of a group

    The state of [groups::Keys] ([src/config/groups/keys.cpp],
    [include/bchat/config/groups/keys.hpp]): the list of key generations, the
    messages that hold them, expiry of old generations, the pending key of an
    admin, dumping and loading.  The messages themselves are in
    [GroupKeyMessages]. *)

From Stdlib Require Import ZArith String Ascii Lia.
From stdpp Require Import base option list strings numbers sorting sets.
From S2P Require Import Prelude OrderedMap Bt Bencode Crypto ConfigData ConfigMessage State Util ConfigBase ConfigCodec Records MultiEncrypt.

(** [key_info], ordered by generation, time and key; times are the
    nanoseconds of [system_clock] *)
Record key_info := mkKey { ki_key : bytes; ki_timestamp : Z; ki_generation : Z }.

Definition cmpval (k : key_info) : Z * (Z * bytes) := (ki_generation k, (ki_timestamp k, ki_key k)).

Lemma cmpval_inj a b : cmpval a = cmpval b → a = b.
Proof. destruct a, b. unfold cmpval; simpl. by intros [= -> -> ->]. Qed.

#[global] Program Instance ord_key_info : OrdKey key_info := {| kcmp a b := kcmp (cmpval a) (cmpval b) |}.
Next Obligation. intros a b. rewrite kcmp_eq. split; [apply cmpval_inj|by intros ->]. Qed.
Next Obligation. intros a b. apply kcmp_opp. Qed.
Next Obligation. intros a b c. apply kcmp_trans. Qed.

Definition MESSAGE_KEY_MULTIPLE : Z := 45.
(** [2 * 30 * 24h] *)
Definition KEY_EXPIRY : Z := 2 * 30 * 24 * 3600 * 1000 * TICKS_PER_MS.

(** Milliseconds to the clock's nanoseconds, which may overflow *)
Definition sys_time_from_ms (ms : Z) : result Z :=
  if in_int64 (ms * TICKS_PER_MS) then Ok (ms * TICKS_PER_MS) else Throw undefined_behaviour.

Record Keys := mkKeys {
  k_sign_pk : option bytes;
  k_sign_sk : option bytes;
  user_ed25519_sk : bytes;
  keys_ : list key_info;
  active_msgs_ : list (Z * list bytes);
  pending_key_ : bytes;
  pending_key_config_ : bytes;
  pending_gen_ : Z;
  needs_dump_ : bool;
  verifier_ : verify_callable;
  signer_ : sign_callable;
}.

(** Assignments to the members *)
Definition put_sig (pk sk : option bytes) (k : Keys) : Keys :=
  mkKeys pk sk (user_ed25519_sk k) (keys_ k) (active_msgs_ k) (pending_key_ k) (pending_key_config_ k)
    (pending_gen_ k) (needs_dump_ k) (verifier_ k) (signer_ k).
Definition put_callables (v : verify_callable) (s : sign_callable) (k : Keys) : Keys :=
  mkKeys (k_sign_pk k) (k_sign_sk k) (user_ed25519_sk k) (keys_ k) (active_msgs_ k) (pending_key_ k)
    (pending_key_config_ k) (pending_gen_ k) (needs_dump_ k) v s.
Definition put_user (sk : bytes) (k : Keys) : Keys :=
  mkKeys (k_sign_pk k) (k_sign_sk k) sk (keys_ k) (active_msgs_ k) (pending_key_ k)
    (pending_key_config_ k) (pending_gen_ k) (needs_dump_ k) (verifier_ k) (signer_ k).
Definition put_keys (l : list key_info) (k : Keys) : Keys :=
  mkKeys (k_sign_pk k) (k_sign_sk k) (user_ed25519_sk k) l (active_msgs_ k) (pending_key_ k)
    (pending_key_config_ k) (pending_gen_ k) (needs_dump_ k) (verifier_ k) (signer_ k).
Definition put_active (m : list (Z * list bytes)) (k : Keys) : Keys :=
  mkKeys (k_sign_pk k) (k_sign_sk k) (user_ed25519_sk k) (keys_ k) m (pending_key_ k)
    (pending_key_config_ k) (pending_gen_ k) (needs_dump_ k) (verifier_ k) (signer_ k).
Definition put_pending (key config : bytes) (gen : Z) (k : Keys) : Keys :=
  mkKeys (k_sign_pk k) (k_sign_sk k) (user_ed25519_sk k) (keys_ k) (active_msgs_ k) key config gen
    (needs_dump_ k) (verifier_ k) (signer_ k).
Definition put_needs_dump (d : bool) (k : Keys) : Keys :=
  mkKeys (k_sign_pk k) (k_sign_sk k) (user_ed25519_sk k) (keys_ k) (active_msgs_ k) (pending_key_ k)
    (pending_key_config_ k) (pending_gen_ k) d (verifier_ k) (signer_ k).

(** The object before its constructor runs *)
Definition blank_keys : Keys := mkKeys None None "" [] [] (zeros 32) "" (-1) false None None.

Definition is_pending (k : Keys) : bool := negb (size (pending_key_config_ k) =? 0).
Definition admin (k : Keys) : bool := is_some (k_sign_sk k) && is_some (k_sign_pk k).

(** ** What the object reports *)
Definition keys_size (k : Keys) : Z := Z.of_nat (length (keys_ k)) + (if is_pending k then 1 else 0).

Definition group_keys (k : Keys) : list bytes :=
  (if is_pending k then [pending_key_ k] else []) ++ (ki_key <$> reverse (keys_ k)).

Definition group_enc_key (k : Keys) : result bytes :=
  if is_pending k then Ok (pending_key_ k) else
  match last (keys_ k) with
  | None => Throw runtime_error
  | Some key => Ok (ki_key key)
  end.

Definition pending_config (k : Keys) : option bytes := if is_pending k then Some (pending_key_config_ k) else None.
Definition pending_key (k : Keys) : option bytes := if is_pending k then Some (pending_key_ k) else None.

Definition keys_active_hashes (k : Keys) : list bytes := fold_left (λ s p, insert_all p.2 s) (active_msgs_ k) [].

Definition current_generation (k : Keys) : Z :=
  match last (keys_ k) with None => 0 | Some key => to_int32 (ki_generation key) end.

Definition needs_rekey (k : Keys) : bool :=
  if negb (admin k) || (length (keys_ k) <? 2)%nat then false else
  match reverse (keys_ k) with
  | last_it :: second_it :: _ => ki_generation last_it =? ki_generation second_it
  | _ => false
  end.

(** ** Expiry

    [lapse gen keep l back]: the walk of [remove_expired]; [l] is what is left
    to look at, [gen] the generation of the element before it and [keep] the
    list from [lapsed_end] on. *)
Fixpoint lapse (gen : Z) (keep l : list key_info) (back : Z) : result (list key_info) :=
  match l with
  | [] => Ok keep
  | it2 :: l' =>
      if ki_generation it2 =? gen then lapse gen keep l' back else
      t ← add_i64 (ki_timestamp it2) KEY_EXPIRY;
      if t <? back then lapse (ki_generation it2) l l' back else Ok keep
  end.

Definition lapsed_end (l : list key_info) : result (list key_info) :=
  match l with
  | first :: (_ :: _) as rest =>
      lapse (ki_generation first) l rest (match last l with Some b => ki_timestamp b | None => 0 end)
  | _ => Ok l
  end.

Definition remove_expired : M Keys () :=
  k ← mget;
  keep ← lift (lapsed_end (keys_ k));
  modify (put_keys keep);;
  modify (put_active (match keep with
    | front :: _ => List.filter (λ p, negb (p.1 <? ki_generation front)) (active_msgs_ k)
    | [] => []
    end)).

(** ** Inserting a key *)

(** [active_msgs_[gen].emplace(hash)] *)
Definition emplace_hash (gen : Z) (hash : bytes) (m : list (Z * list bytes)) : list (Z * list bytes) :=
  minsert gen (sinsert hash (default [] (mfind gen m))) m.

(** [keys_.insert(lower_bound(keys_, k), k)] *)
Fixpoint insert_lower_bound (k : key_info) (l : list key_info) : list key_info :=
  match l with
  | [] => [k]
  | x :: l' => if klt x k then x :: insert_lower_bound k l' else k :: l
  end.

(** A key of the same generation and value is known. *)
Definition known_key (k : key_info) (l : list key_info) : bool :=
  existsb (λ x, (ki_generation x =? ki_generation k) && keqb (ki_key x) (ki_key k)) l.

(** The new key is older than the first one, which has itself expired. *)
Definition stale_key (k : key_info) (l : list key_info) : result bool :=
  match l, last l with
  | front :: _ :: _, Some back =>
      if negb (klt front k) && (ki_generation k <? ki_generation front) then
        t ← add_i64 (ki_timestamp front) KEY_EXPIRY; Ok (t <? ki_timestamp back)
      else Ok false
  | _, _ => Ok false
  end.

Definition insert_key (msg_hash : bytes) (new_key : key_info) : M Keys () :=
  k ← mget;
  if known_key new_key (keys_ k)
  then modify (put_active (emplace_hash (ki_generation new_key) msg_hash (active_msgs_ k)))
  else
    stale ← lift (stale_key new_key (keys_ k));
    if stale : bool then skip else
    modify (put_active (emplace_hash (ki_generation new_key) msg_hash (active_msgs_ k)));;
    modify (put_keys (insert_lower_bound new_key (keys_ k)));;
    remove_expired;;
    modify (put_needs_dump true).

(** ** Dumping and loading *)
Section dump.
Context `{BtLib}.

Definition bt_of_key (k : key_info) : bt_value :=
  BtDict [("g", BtInt (ki_generation k)); ("k", BtStr (ki_key k)); ("t", BtInt (epoch_ms (ki_timestamp k)))].
Definition bt_of_active (p : Z * list bytes) : bt_value := BtList (BtInt p.1 :: (BtStr <$> p.2)).
Definition bt_of_pending (k : Keys) : bt_dict :=
  [("c", BtStr (pending_key_config_ k)); ("g", BtInt (pending_gen_ k)); ("k", BtStr (pending_key_ k))].

Definition dump_pairs (k : Keys) : bt_dict :=
  [("A", BtList (bt_of_active <$> active_msgs_ k)); ("L", BtList (bt_of_key <$> keys_ k))] ++
  (if is_pending k then [("P", BtDict (bt_of_pending k))] else []).

Definition keys_make_dump (k : Keys) : bytes := bt_dump (dump_pairs k).
Definition keys_dump : M Keys bytes :=
  dumped ← gets keys_make_dump; modify (put_needs_dump false);; mret dumped.

(** [skip_until] of a required key, and the consumers of a bt-encoded value *)
Definition need (in_ : bt_dict) (key : bytes) : result (bt_value * bt_dict) :=
  match skip_until in_ key with
  | ((_, v) :: rest, true) => Ok (v, rest)
  | _ => Throw config_value_error
  end.
Definition consume_integer (v : bt_value) : result Z :=
  match v with BtInt z => consume_int64 z | _ => Throw bt_deserialize_invalid end.
Definition as_list (v : bt_value) : result bt_list :=
  match v with BtList l => Ok l | _ => Throw bt_deserialize_invalid end.
Definition as_dict (v : bt_value) : result bt_dict :=
  match v with BtDict d => Ok d | _ => Throw bt_deserialize_invalid end.

(** One key of a dump or of a supplemental message *)
Definition load_key_info (v : bt_value) : result key_info :=
  kd ← as_dict v;
  '(g, kd) ← need kd "g"; generation ← consume_integer g;
  '(k, kd) ← need kd "k"; key ← consume_str k;
  _ ← require (size key =? 32) config_value_error;
  '(t, _) ← need kd "t"; t ← consume_integer t;
  timestamp ← sys_time_from_ms t;
  Ok (mkKey key timestamp generation).

Definition load_active (m : list (Z * list bytes)) (v : bt_value) : result (list (Z * list bytes)) :=
  lst ← as_list v;
  match lst with
  | [] => Throw bt_deserialize_invalid
  | g :: lst =>
      g ← consume_integer g;
      hashes ← mapR consume_str lst;
      Ok (minsert g (insert_all hashes (default [] (mfind g m))) m)
  end.

Definition load_next_key (l : list key_info) (v : bt_value) : result (list key_info) :=
  key ← load_key_info v;
  _ ← require (match last l with Some prev => klt prev key | None => true end) config_value_error;
  Ok (l ++ [key]).

Definition load_pending (in_ : bt_dict) (k : Keys) : result Keys :=
  match skip_until in_ "P" with
  | ((_, v) :: _, true) =>
      pending ← as_dict v;
      '(c, pending) ← need pending "c"; pc ← consume_str c;
      '(g, pending) ← need pending "g"; gen ← consume_integer g;
      '(pk, _) ← need pending "k"; pk ← consume_str pk;
      _ ← require (size pk =? 32) config_value_error;
      Ok (put_pending pk pc gen k)
  | _ => Ok k
  end.

Definition keys_load_dump (dump : bytes) (k : Keys) : result Keys :=
  _ ← bt_open dump;
  d ← bt_load dump;
  '(active, d) ← need d "A"; active ← as_list active;
  active ← foldR load_active (active_msgs_ k) active;
  '(keys, d) ← need d "L"; keys ← as_list keys;
  keys ← foldR load_next_key (keys_ k) keys;
  load_pending d (put_keys keys (put_active active k)).
End dump.

(** ** The key list *)
Lemma earlier_generation a b : a ≺ b → ki_generation a ≤ ki_generation b.
Proof.
  simpl. unfold pair_cmp; simpl. destruct (Z.compare_spec (ki_generation a) (ki_generation b)); [lia|lia|done].
Qed.

Lemma known_key_spec k l :
  known_key k l = true ↔ ∃ x, x ∈ l ∧ ki_generation x = ki_generation k ∧ ki_key x = ki_key k.
Proof.
  unfold known_key. rewrite existsb_exists. setoid_rewrite andb_true_iff. setoid_rewrite Z.eqb_eq.
  setoid_rewrite keqb_spec. setoid_rewrite list_elem_of_In. done.
Qed.

(** On a sorted list that does not have the key, insertion at the lower bound
    is insertion into an ordered set. *)
Lemma insert_lower_bound_set k l : k ∉ l → insert_lower_bound k l = sinsert k l.
Proof.
  induction l as [|x l IH]; intros Hk; [done|]. apply not_elem_of_cons in Hk as [Hne Hk]. cbn [insert_lower_bound sinsert].
  unfold klt. rewrite (kcmp_opp k x). destruct (kcmp k x) eqn:E; [by apply kcmp_eq in E|done|].
  cbn [CompOpp]. by rewrite IH.
Qed.

Lemma elem_of_sinsert `{OrdKey K} (x y : K) (l : list K) : y ∈ sinsert x l ↔ y = x ∨ y ∈ l.
Proof. by rewrite <- !smem_In, smem_insert, orb_true_iff, keqb_spec. Qed.

(** No two entries have the same generation and key. *)
Definition distinct_keys (l : list key_info) : Prop := NoDup ((λ k, (ki_generation k, ki_key k)) <$> l).

Definition key_ok (k : key_info) : Prop :=
  size (ki_key k) = 32 ∧ in_int64 (ki_generation k) = true ∧
  in_int64 (ki_timestamp k) = true ∧ (ki_timestamp k mod TICKS_PER_MS = 0).

(** ** Expiry *)

(** The first generation is still needed: the next one did not start longer
    than the expiry before the newest key. *)
Definition unexpired (back : Z) (l : list key_info) : Prop :=
  ∀ k0 mid k2 post, l = k0 :: mid ++ k2 :: post → Forall (λ k, ki_generation k = ki_generation k0) mid →
    ki_generation k2 ≠ ki_generation k0 → back ≤ ki_timestamp k2 + KEY_EXPIRY.

Definition back_time (l : list key_info) : Z := match last l with Some b => ki_timestamp b | None => 0 end.

Lemma settled_break g seg it2 l back :
  Forall (λ k, ki_generation k = g) seg → ki_generation it2 ≠ g → seg ≠ [] →
  back ≤ ki_timestamp it2 + KEY_EXPIRY → unexpired back (seg ++ it2 :: l).
Proof.
  intros Hseg Hg Hne Ht k0 mid k2 post Heq Hmid Hk2. destruct seg as [|s seg]; [done|].
  apply Forall_cons in Hseg as [Hs Hseg]. injection Heq as <- Heq. rewrite Hs in Hmid, Hk2.
  enough (it2 = k2) by (by subst). clear -Heq Hseg Hmid Hg Hk2.
  revert mid Heq Hmid; induction seg as [|s' seg IH]; intros [|m mid] Heq Hmid; simpl in Heq.
  - congruence.
  - injection Heq as -> _. by apply Forall_cons in Hmid as [? _].
  - injection Heq as -> _. by apply Forall_cons in Hseg as [? _].
  - injection Heq as <- Heq. apply Forall_cons in Hmid as [_ ?], Hseg as [_ ?]. eauto.
Qed.

Lemma settled_one g seg back : Forall (λ k, ki_generation k = g) seg → unexpired back seg.
Proof.
  intros Hseg k0 mid k2 post -> Hmid Hk2. apply Forall_cons in Hseg as [H0 Hseg].
  apply Forall_app in Hseg as [_ Hseg]. apply Forall_cons in Hseg as [Hs _]. congruence.
Qed.

(** The walk keeps a suffix; what it drops are whole generations, older than
    a generation that started longer than the expiry before the newest key. *)
Lemma lapse_spec back l g seg r :
  seg ≠ [] → Forall (λ k, ki_generation k = g) seg → ssorted (seg ++ l) = true →
  lapse g (seg ++ l) l back = Ok r →
  ∃ pre, seg ++ l = pre ++ r ∧ r ≠ [] ∧ unexpired back r ∧
    ∀ k, k ∈ pre → ∃ k2, head r = Some k2 ∧ ki_generation k < ki_generation k2 ∧ ki_timestamp k2 + KEY_EXPIRY < back.
Proof.
  revert g seg; induction l as [|it2 l IH]; intros g seg Hne Hseg Hs Hl.
  { cbn in Hl. injection Hl as <-. exists []. split_and!; [done|by destruct seg|rewrite app_nil_r; by eapply settled_one|].
    intros k Hk. by apply elem_of_nil in Hk. }
  cbn [lapse] in Hl. destruct (Z.eqb_spec (ki_generation it2) g) as [Hg|Hg].
  - assert (seg ++ it2 :: l = (seg ++ [it2]) ++ l) as Eq by by rewrite <- app_assoc.
    rewrite Eq in Hs, Hl |- *.
    apply (IH g); [by destruct seg| |done..]. apply Forall_app. split; [done|]. by apply Forall_singleton.
  - unfold add_i64 in Hl. destruct (in_int64 _); [|done]. rewrite bind_ret in Hl.
    destruct (Z.ltb_spec (ki_timestamp it2 + KEY_EXPIRY) back) as [Hlt|Hge].
    + apply ssorted_app in Hs as (Hs1 & Hs2 & Hlt').
      destruct (IH (ki_generation it2) [it2]) as (pre & Heq & Hr & Hset & Hpre); [done|by apply Forall_singleton|done..|].
      exists (seg ++ pre). rewrite <- app_assoc, <- Heq. split_and!; [done..|]. intros k [Hk|Hk]%elem_of_app; [|by apply Hpre].
      assert (ki_generation k < ki_generation it2).
      { pose proof (earlier_generation _ _ (Hlt' k it2 Hk ltac:(left))). rewrite Forall_forall in Hseg.
        specialize (Hseg k Hk). lia. }
      destruct pre as [|p pre].
      { simpl in Heq. rewrite <- Heq. simpl. by exists it2. }
      simpl in Heq. injection Heq as <- Heq. destruct (Hpre it2 ltac:(left)) as (k2 & ? & ? & ?).
      exists k2. split_and!; [done|lia|lia].
    + injection Hl as <-. exists []. split_and!; [done|by destruct seg|by eapply settled_break|].
      intros k Hk. by apply elem_of_nil in Hk.
Qed.

Lemma back_time_app pre r : r ≠ [] → back_time (pre ++ r) = back_time r.
Proof.
  intros Hr. unfold back_time. destruct (exists_last Hr) as (r' & x & ->). by rewrite app_assoc, !last_snoc.
Qed.

Lemma lapsed_end_spec l r :
  ssorted l = true → lapsed_end l = Ok r →
  ∃ pre, l = pre ++ r ∧ (l ≠ [] → r ≠ []) ∧ back_time l = back_time r ∧ unexpired (back_time r) r ∧
    ∀ k, k ∈ pre → ∃ k2, head r = Some k2 ∧ ki_generation k < ki_generation k2 ∧
      ki_timestamp k2 + KEY_EXPIRY < back_time r.
Proof.
  intros Hs Hl. assert (length l < 2 → ∃ g, Forall (λ k, ki_generation k = g) l)%nat as Hshort.
  { intros. destruct l as [|a [|]]; [by exists 0|exists (ki_generation a); by apply Forall_singleton|simpl in *; lia]. }
  destruct l as [|first [|second rest]].
  1, 2: injection Hl as <-; destruct Hshort as [g Hg]; [simpl; lia|]; exists []; split_and!; [done..|by eapply settled_one|].
  1, 2: intros k Hk; by apply elem_of_nil in Hk.
  cbn [lapsed_end] in Hl. fold (back_time (first :: second :: rest)) in Hl.
  destruct (lapse_spec (back_time (first :: second :: rest)) (second :: rest) (ki_generation first) [first] r)
    as (pre & Heq & Hr & Hset & Hpre); [done|by apply Forall_singleton|done..|].
  assert (back_time (first :: second :: rest) = back_time r) as Hb.
  { change (first :: second :: rest) with ([first] ++ second :: rest). rewrite Heq. by apply back_time_app. }
  rewrite Hb in *. by exists pre.
Qed.

(** ** The invariant *)
Record list_inv (k : Keys) : Prop := {
  inv_sorted : ssorted (keys_ k) = true;
  inv_distinct : distinct_keys (keys_ k);
  inv_keys_ok : Forall key_ok (keys_ k);
  inv_active_sorted : msorted (active_msgs_ k) = true;
  inv_active_ok : Forall (λ p, ssorted p.2 = true ∧ in_int64 p.1 = true) (active_msgs_ k);
  inv_pending : is_pending k = true → size (pending_key_ k) = 32 ∧ in_int64 (pending_gen_ k) = true;
}.

(** [keys_inv]: in addition, generations that have expired are gone and only
    messages of the kept generations are remembered. *)
Record keys_inv (k : Keys) : Prop := {
  inv_list : list_inv k;
  inv_settled : unexpired (back_time (keys_ k)) (keys_ k);
  inv_active : Forall (λ p, ∃ front, head (keys_ k) = Some front ∧ ki_generation front ≤ p.1) (active_msgs_ k);
}.

Lemma remove_expired_run k r :
  lapsed_end (keys_ k) = Ok r →
  remove_expired k = (Ok tt, put_active (match r with
    | front :: _ => List.filter (λ p, negb (p.1 <? ki_generation front)) (active_msgs_ k)
    | [] => [] end) (put_keys r k)).
Proof. intros Hr. unfold remove_expired. by rewrite run_mget, run_lift, Hr. Qed.

Lemma lapse_throw l g keep b e : lapse g keep l b = Throw e → e = undefined_behaviour.
Proof.
  revert g keep; induction l as [|x l IH]; intros g keep; cbn [lapse]; [done|].
  destruct (_ =? _); [apply IH|]. unfold add_i64. destruct (in_int64 _); [|by intros [= <-]].
  rewrite bind_ret. destruct (_ <? _); [apply IH|done].
Qed.

Lemma remove_expired_inv k :
  list_inv k → defined (remove_expired k).1 → (remove_expired k).1 = Ok tt ∧ keys_inv (remove_expired k).2.
Proof.
  intros [Hs Hd Ho Has Hao Hp] Hdef. destruct (lapsed_end (keys_ k)) as [r|e] eqn:E.
  - rewrite (remove_expired_run k r E). split; [done|].
    destruct (lapsed_end_spec _ _ Hs E) as (pre & Heq & _ & _ & Hset & _). rewrite Heq in Hs, Hd, Ho.
    apply ssorted_app in Hs as (_ & Hs & _). apply Forall_app in Ho as [_ Ho].
    unfold distinct_keys in Hd. rewrite fmap_app in Hd. apply NoDup_app in Hd as (_ & _ & Hd).
    split; [split|..]; cbn [keys_ active_msgs_ put_active put_keys pending_key_ pending_gen_ is_pending pending_key_config_];
      try done; destruct r as [|front r]; try done.
    + by apply msorted_filter.
    + apply Forall_forall. intros p Hp'%list_elem_of_In%filter_In. rewrite Forall_forall in Hao.
      apply Hao, list_elem_of_In, Hp'.
    + apply Forall_forall. intros p [_ Hp']%list_elem_of_In%filter_In. exists front. split; [done|].
      apply negb_true_iff, Z.ltb_ge in Hp'. done.
  - exfalso. unfold remove_expired in Hdef. rewrite run_mget, run_lift, E in Hdef.
    destruct (keys_ k) as [|a [|b l]]; try done. apply lapse_throw in E as ->. by apply Hdef.
Qed.

Lemma emplace_hash_inv gen hash m :
  msorted m = true → Forall (λ p, ssorted p.2 = true ∧ in_int64 p.1 = true) m → in_int64 gen = true →
  msorted (emplace_hash gen hash m) = true ∧
  Forall (λ p, ssorted p.2 = true ∧ in_int64 p.1 = true) (emplace_hash gen hash m).
Proof.
  intros Hs Ho Hg. unfold emplace_hash. split; [by apply msorted_insert|].
  apply Forall_forall. intros [g hs] Hin. apply mfind_In in Hin; [|by apply msorted_insert].
  rewrite mfind_insert in Hin. rewrite Forall_forall in Ho. destruct (keqb g gen) eqn:E.
  - apply keqb_spec in E as ->. injection Hin as <-. split; [|done]. apply ssorted_insert.
    destruct (mfind gen m) as [l|] eqn:F; [|done]. apply mfind_Some_In in F. by apply (Ho (gen, l)).
  - apply mfind_Some_In in Hin. by apply Ho.
Qed.

Lemma emplace_hash_elem gen hash m p :
  msorted m = true → p ∈ emplace_hash gen hash m → p.1 = gen ∨ p ∈ m.
Proof.
  intros Hs Hp. destruct p as [g hs]. apply mfind_In in Hp; [|by apply msorted_insert].
  unfold emplace_hash in Hp. rewrite mfind_insert in Hp. destruct (keqb g gen) eqn:E; [left; by apply keqb_spec in E|].
  right. by apply mfind_Some_In.
Qed.

Lemma sorted_head_generation l x front :
  ssorted l = true → head l = Some front → x ∈ l → ki_generation front ≤ ki_generation x.
Proof.
  destruct l as [|y l]; [done|]. intros [Hf _]%ssorted_cons [= ->] [->|Hx]%elem_of_cons; [done|].
  rewrite Forall_forall in Hf. by apply earlier_generation, Hf.
Qed.

(** Inserting a new key keeps the list sorted and without repetitions. *)
Lemma insert_list_inv hash key k :
  key_ok key → list_inv k → known_key key (keys_ k) = false →
  list_inv (put_keys (insert_lower_bound key (keys_ k))
              (put_active (emplace_hash (ki_generation key) hash (active_msgs_ k)) k)).
Proof.
  intros Hk [Hs Hd Ho Has Hao Hp] Hnew.
  assert (key ∉ keys_ k) as Hnotin.
  { intros Hin. apply not_true_iff_false in Hnew. apply Hnew, known_key_spec. eauto. }
  destruct (emplace_hash_inv (ki_generation key) hash (active_msgs_ k)) as [Ha1 Ha2]; [done..|apply Hk|].
  split; cbn [keys_ active_msgs_ put_active put_keys]; [..|done].
  - rewrite insert_lower_bound_set by done. by apply ssorted_insert.
  - rewrite insert_lower_bound_set by done. unfold distinct_keys.
    assert (sinsert key (keys_ k) ≡ₚ key :: keys_ k) as ->.
    { clear -Hnotin. induction (keys_ k) as [|x l IH]; [done|]. apply not_elem_of_cons in Hnotin as [? ?]. cbn [sinsert].
      destruct (kcmp key x) eqn:E; [by apply kcmp_eq in E|done|]. rewrite IH by done. apply Permutation_swap. }
    rewrite fmap_cons. apply NoDup_cons. split; [|done]. rewrite list_elem_of_fmap. intros (x & Heq & Hx).
    injection Heq as Hg Hkey. apply not_true_iff_false in Hnew. apply Hnew, known_key_spec. by exists x.
  - rewrite insert_lower_bound_set by done. apply Forall_forall. intros x [->|Hx]%elem_of_sinsert; [done|].
    by rewrite Forall_forall in Ho; apply Ho.
  - done.
  - done.
Qed.

Lemma insert_key_inv hash key : key_ok key → preserves keys_inv (insert_key hash key).
Proof.
  intros Hk k Hinv Hdef. unfold insert_key in *. rewrite run_mget in *.
  destruct (known_key key (keys_ k)) eqn:E.
  - destruct Hinv as [[Hs Hd Ho Has Hao Hp] Hset Hact]. apply known_key_spec in E as (x & Hx & Hg & _).
    destruct (emplace_hash_inv (ki_generation key) hash (active_msgs_ k)) as [Ha1 Ha2]; [done..|apply Hk|].
    split; [by split|done|]. cbn [modify snd keys_ active_msgs_ put_active]. apply Forall_forall.
    intros p [Hp'|Hp']%emplace_hash_elem; [| |done].
    + destruct (keys_ k) as [|front l] eqn:El; [by apply elem_of_nil in Hx|]. exists front. split; [done|].
      rewrite Hp', <- Hg. by eapply sorted_head_generation.
    + by rewrite Forall_forall in Hact; apply Hact.
  - rewrite run_lift in *. destruct (stale_key key (keys_ k)) as [[|]|e]; [done| |done].
    rewrite !run_modify, run_bind in *.
    pose proof (insert_list_inv hash key k Hk (inv_list _ Hinv) E) as Hl.
    match goal with |- context [remove_expired ?k'] => set (k1 := k') in * end.
    assert (defined (remove_expired k1).1) as Hdef1.
    { destruct (remove_expired k1) as [[u|e] k2]; [by unfold defined|exact Hdef]. }
    destruct (remove_expired_inv k1 Hl Hdef1) as [Hr Hi].
    destruct (remove_expired k1) as [r k2]. simpl in Hr, Hi. subst r. simpl. destruct Hi as [[] ? ?]. split; [by split|done..].
Qed.

(** ** Dumping and loading back *)
Section roundtrip.
Context `{BtLaws}.

Lemma ms_exact t : in_int64 t = true → t mod TICKS_PER_MS = 0 →
  in_int64 (epoch_ms t) = true ∧ sys_time_from_ms (epoch_ms t) = Ok t.
Proof.
  intros Ht Hm. unfold epoch_ms, sys_time_from_ms.
  assert (Z.quot t TICKS_PER_MS * TICKS_PER_MS = t) as Hq.
  { apply Z.mod_divide in Hm as [q ->]; [|done]. by rewrite Z.quot_mul. }
  rewrite Hq, Ht. split; [|done]. apply in_int64_spec in Ht. apply in_int64_spec.
  unfold TICKS_PER_MS, int64_min, int64_max in *. lia.
Qed.

Lemma load_key_info_round k : key_ok k → load_key_info (bt_of_key k) = Ok k.
Proof.
  destruct k as [key t g]. intros (Hk & Hg & Ht & Hm). cbn [ki_key ki_generation ki_timestamp] in *.
  destruct (ms_exact t Ht Hm) as [Hr Hs]. unfold load_key_info, bt_of_key, need. simpl.
  rewrite consume_int64_fits by done. simpl. rewrite Hk. simpl. rewrite consume_int64_fits by done. simpl. by rewrite Hs.
Qed.

Lemma load_keys_round l acc :
  ssorted (acc ++ l) = true → Forall key_ok l → foldR load_next_key acc (bt_of_key <$> l) = Ok (acc ++ l).
Proof.
  revert acc; induction l as [|k l IH]; intros acc Hs Hl; [by rewrite app_nil_r|].
  apply Forall_cons in Hl as [Hk Hl]. rewrite fmap_cons. cbn [foldR].
  assert (load_next_key acc (bt_of_key k) = Ok (acc ++ [k])) as ->.
  { unfold load_next_key. rewrite load_key_info_round, bind_ret by done.
    apply ssorted_app in Hs as (_ & _ & Hlt). destruct (last acc) as [p|] eqn:E; [|done].
    apply last_Some_elem_of in E. rewrite (proj2 (klt_spec p k)); [done|]. apply Hlt; [done|left]. }
  rewrite bind_ret, IH; [by rewrite <- app_assoc|by rewrite <- app_assoc|done].
Qed.

Lemma insert_all_id l : ssorted l = true → insert_all l [] = l.
Proof.
  intros Hs. apply ssorted_ext; [by apply sfold_insert_sorted|done|].
  intros x. unfold insert_all. rewrite sfold_insert. by rewrite orb_false_r.
Qed.

Lemma consume_strs (l : list bytes) : mapR consume_str (BtStr <$> l) = Ok l.
Proof. induction l as [|x l IH]; [done|]. rewrite fmap_cons. cbn [mapR consume_str]. by rewrite bind_ret, IH. Qed.

Lemma load_active_round m acc :
  msorted (acc ++ m) = true → Forall (λ p, ssorted p.2 = true ∧ in_int64 p.1 = true) m →
  foldR load_active acc (bt_of_active <$> m) = Ok (acc ++ m).
Proof.
  revert acc; induction m as [|[g hs] m IH]; intros acc Hs Hm; [by rewrite app_nil_r|].
  apply Forall_cons in Hm as [[Hhs Hg] Hm]. cbn [fst snd] in *. rewrite fmap_cons. cbn [foldR].
  assert (load_active acc (bt_of_active (g, hs)) = Ok (acc ++ [(g, hs)])) as ->.
  { assert (Forall (λ p, p.1 ≺ g) acc) as Hend.
    { apply (msorted_snoc g hs). rewrite cons_middle, app_assoc in Hs. by apply msorted_app in Hs as (? & _). }
    assert (mfind g acc = None) as Hnone.
    { destruct (mfind g acc) as [v|] eqn:E; [|done]. apply mfind_Some_In in E. rewrite Forall_forall in Hend.
      by destruct (klt_irrefl g); apply (Hend (g, v)). }
    unfold load_active, bt_of_active. cbn [as_list fst snd]. rewrite bind_ret. cbv iota. cbn [consume_integer].
    rewrite consume_int64_fits, bind_ret, consume_strs, bind_ret, Hnone by done.
    cbn [default]. by rewrite insert_all_id, minsert_end. }
  rewrite bind_ret, IH; [by rewrite <- app_assoc|by rewrite <- app_assoc|done].
Qed.

Lemma dump_pairs_canon k : list_inv k → bt_canon (BtDict (dump_pairs k)) = true.
Proof.
  intros [Hs Hd Ho Has Hao Hp].
  assert (forallb bt_canon (bt_of_active <$> active_msgs_ k) = true) as HA.
  { apply forallb_forall. intros v (p & -> & Hin)%list_elem_of_In%list_elem_of_fmap. rewrite Forall_forall in Hao.
    destruct (Hao p Hin) as [_ Hg]. pose proof (strings_canon p.2) as Hc. simpl in Hc |- *. by rewrite Hg. }
  assert (forallb bt_canon (bt_of_key <$> keys_ k) = true) as HL.
  { apply forallb_forall. intros v (q & -> & Hin)%list_elem_of_In%list_elem_of_fmap. rewrite Forall_forall in Ho.
    destruct (Ho q Hin) as (_ & Hg & Ht & Hm). destruct (ms_exact _ Ht Hm) as [Hms _]. simpl. by rewrite Hg, Hms. }
  unfold dump_pairs. destruct (is_pending k) eqn:E.
  - destruct (Hp eq_refl) as [_ Hg]. simpl in HA, HL |- *. by rewrite HA, HL, Hg.
  - simpl in HA, HL |- *. by rewrite HA, HL.
Qed.

(** What a fresh object has after loading the dump of [k] *)
Definition restored (k k0 : Keys) : Keys :=
  (if is_pending k then put_pending (pending_key_ k) (pending_key_config_ k) (pending_gen_ k) else id)
    (put_keys (keys_ k) (put_active (active_msgs_ k) k0)).

Lemma load_make_dump k k0 :
  list_inv k → keys_ k0 = [] → active_msgs_ k0 = [] →
  keys_load_dump (keys_make_dump k) k0 = Ok (restored k k0).
Proof.
  intros Hk HK HA. pose proof (dump_pairs_canon k Hk) as Hc. destruct Hk as [Hs Hd Ho Has Hao Hp].
  unfold keys_load_dump, keys_make_dump. rewrite bt_open_dump, bt_load_dump by done. rewrite !bind_ret.
  unfold need, dump_pairs. cbn [app skip_until]. simpl. rewrite HA, HK.
  rewrite load_active_round by done. simpl. rewrite load_keys_round by done. simpl. unfold restored.
  destruct (is_pending k) eqn:E; [|done]. destruct (Hp eq_refl) as [Hsz Hg].
  unfold load_pending, need. simpl. rewrite consume_int64_fits by done. simpl. by rewrite Hsz.
Qed.
End roundtrip.
