(* ===== verification/GroupKeyMessages.v ===== *)
(** * The key messages of a group

    The operations of [groups::Keys] ([src/config/groups/keys.cpp]) that build
    and read messages: construction, promotion to admin, issuing a new key
    ([rekey]), handing existing keys to new members ([key_supplement]) and
    loading a message ([load_key_message]).  They work on the keys object
    together with the group's info and members objects, whose encryption keys
    they replace. *)

From Stdlib Require Import ZArith String Ascii Lia.
From stdpp Require Import base option list strings numbers sorting sets.
From S2P Require Import Prelude OrderedMap Bt Bencode Crypto Encrypt ConfigData ConfigMessage ConfigCodec State Util ConfigBase ConfigState ConfigLifecycle ConfigFields Ids Records MultiEncrypt GroupMembers GroupKeys.

(** libsodium's [randombytes_buf_deterministic]: that many bytes from a seed *)
Class DeterministicRandom := randombytes_deterministic : Z → bytes → bytes.
Class DeterministicRandomLaws `{DeterministicRandom} := randombytes_deterministic_size :
  ∀ n seed, 0 ≤ n → size (randombytes_deterministic n seed) = n.

(** The three objects of a group *)
Record Group := mkGroup { g_keys : Keys; g_info : ConfigBase; g_members : Members }.

Definition on_keys {A} (m : M Keys A) : M Group A := λ g,
  let '(r, k) := m (g_keys g) in (r, mkGroup k (g_info g) (g_members g)).
Definition on_info {A} (m : M ConfigBase A) : M Group A := λ g,
  let '(r, i) := m (g_info g) in (r, mkGroup (g_keys g) i (g_members g)).
Definition on_members {A} (m : M Members A) : M Group A := λ g,
  let '(r, s) := m (g_members g) in (r, mkGroup (g_keys g) (g_info g) s).

Definition seed_hash_key : bytes := "BChatGroupKeySeed".
Definition enc_key_hash_key : bytes := "BChatGroupKeyGen".
Definition enc_key_admin_hash_key : bytes := "BChatGroupKeyAdminKey".
Definition enc_key_member_hash_key : bytes := "BChatGroupKeyMemberKey".
Definition junk_seed_hash_key : bytes := "BChatGroupJunkMembers".

Section messages.
Context `{BtLib, Hash, Aead, X25519, Ed25519, SeedKeypair, Oxenc, DeterministicRandom}.

(** ** Signing keys *)
Definition keys_set_sig_keys (secret : bytes) : M Keys () :=
  guard_ (size secret =? 64) invalid_argument;;
  modify (put_sig None None);;
  modify (put_callables None None);;
  modify (put_sig (Some (sk_to_pk secret)) (Some secret));;
  modify (put_callables (pk_verifier (sk_to_pk secret)) (sk_signer secret)).

Definition keys_set_sig_pubkey (pubkey : bytes) : M Keys () :=
  guard_ (size pubkey =? 32) invalid_argument;;
  modify (λ k, put_sig (Some pubkey) (k_sign_sk k) k);;
  modify (λ k, put_callables (pk_verifier pubkey) (signer_ k) k).

Definition keys_init_sig_keys (pubkey : bytes) (secretkey : option bytes) : M Keys () :=
  match secretkey with
  | Some sk => if negb (keqb pubkey (sdrop 32 sk)) then throw invalid_argument else keys_set_sig_keys sk
  | None => keys_set_sig_pubkey pubkey
  end.

Definition keys_seed_hash (key : bytes) (k : Keys) : result bytes :=
  match k_sign_sk k with
  | None => Throw runtime_error
  | Some sk => Ok (generichash 32 (stake 64 key) (stake 32 sk))
  end.

(** Calling an empty [std::function] throws. *)
Definition keys_sign (k : Keys) (data : bytes) : result bytes :=
  match signer_ k with
  | None => Throw bad_function_call
  | Some sign => sig ← sign data; _ ← require (size sig =? 64) logic_error; Ok sig
  end.

(** The info and members objects get the list of keys. *)
Definition share_keys (dirty : bool) : M Group () :=
  g ← mget;
  on_members (on_config (replace_keys (group_keys (g_keys g)) dirty));;
  on_info (replace_keys (group_keys (g_keys g)) dirty).

(** ** The constructor *)
Definition new_group_keys (user_ed25519_secretkey group_ed25519_pubkey : bytes)
    (group_ed25519_secretkey dumped : option bytes) : M Group () :=
  guard_ (size user_ed25519_secretkey =? 64) invalid_argument;;
  guard_ (size group_ed25519_pubkey =? 32) invalid_argument;;
  guard_ (match group_ed25519_secretkey with Some sk => size sk =? 64 | None => true end) invalid_argument;;
  on_keys (keys_init_sig_keys group_ed25519_pubkey group_ed25519_secretkey);;
  on_keys (modify (put_user user_ed25519_secretkey));;
  match dumped with
  | None => skip
  | Some dump =>
      k ← gets g_keys;
      k' ← lift (keys_load_dump dump k);
      on_keys (modify (λ _, k'));;
      share_keys false
  end.

(** ** Becoming an admin *)
Definition load_admin_key (seed : bytes) : M Group () :=
  k ← gets g_keys;
  if admin k then skip else
  seed ← lift (if size seed =? 64 then Ok (stake 32 seed)
               else _ ← require (size seed =? 32) invalid_argument; Ok seed);
  let '(pk, sk) := seed_keypair seed in
  guard_ (match k_sign_pk k with Some p => keqb p pk | None => true end) runtime_error;;
  on_keys (keys_set_sig_keys sk);;
  on_info (set_sig_keys sk);;
  on_members (on_config (set_sig_keys sk)).

(** ** Issuing a new key *)
Definition compute_xpk (ed25519_pk : bytes) : result bytes :=
  from_option_or runtime_error (pk_to_curve25519 ed25519_pk).

Definition concat_all (l : list bytes) : bytes := foldr String.append "" l.

Definition next_generation (k : Keys) : result Z :=
  match last (keys_ k) with None => Ok 0 | Some b => add_i64 (ki_generation b) 1 end.

(** [h1]: the first 32 bytes are the new key, the rest the nonce *)
Definition rekey_hash (ids : list bytes) (gen : Z) (h2 : bytes) : bytes :=
  generichash 56 enc_key_hash_key (concat_all ids +:+ print_Z gen +:+ h2).

(** The padding: entries of 48 bytes cut from deterministic junk *)
Fixpoint cut_junk (n : nat) (junk : bytes) : list bytes :=
  match n with O => [] | S n => stake 48 junk :: cut_junk n (sdrop 48 junk) end.

Definition junk_entries (h1 sk : bytes) (member_count : Z) : list bytes :=
  if member_count mod MESSAGE_KEY_MULTIPLE =? 0 then [] else
  let n_junk := MESSAGE_KEY_MULTIPLE - member_count mod MESSAGE_KEY_MULTIPLE in
  let rng_seed := generichash 32 junk_seed_hash_key (h1 +:+ sk) in
  cut_junk (Z.to_nat n_junk) (randombytes_deterministic (48 * n_junk) rng_seed).

Definition signed_message (k : Keys) (pairs : bt_dict) : result bytes :=
  sig ← keys_sign k (bt_body pairs); Ok (bt_dump (pairs ++ [("~", BtStr sig)])).

(** The message [rekey] makes, with its generation and key *)
Definition rekey_message (k : Keys) (members : dict) : result (Z * bytes * bytes) :=
  _ ← require (admin k) logic_error;
  pk ← from_option_or undefined_behaviour (k_sign_pk k);
  sk ← from_option_or undefined_behaviour (k_sign_sk k);
  group_xpk ← compute_xpk pk;
  let group_xsk := sk_to_curve25519 sk in
  h2 ← keys_seed_hash seed_hash_key k;
  ms ← members_all members;
  gen ← next_generation k;
  let h1 := rekey_hash (m_bchat_id <$> ms) gen h2 in
  let enc_key := stake 32 h1 in
  let nonce := sdrop 32 h1 in
  member_k ← keys_seed_hash enc_key_admin_hash_key k;
  let encrypted := aead_encrypt member_k nonce enc_key in
  member_xpks ← mapR (λ m, bchat_id_pk (m_bchat_id m) "05") ms;
  enc ← encrypt_for_multiple [enc_key] member_xpks nonce group_xsk group_xpk enc_key_member_hash_key true;
  let member_keys := enc ++ junk_entries h1 sk (Z.of_nat (length enc)) in
  conf ← signed_message k
    [("#", BtStr nonce); ("G", BtInt gen); ("K", BtStr encrypted); ("k", BtList (BtStr <$> member_keys))];
  Ok (gen, enc_key, conf).

Definition rekey : M Group bytes :=
  g ← mget;
  '(gen, enc_key, conf) ← lift (rekey_message (g_keys g) (data_of (m_config (g_members g))));
  on_keys (modify (put_pending enc_key conf gen));;
  share_keys true;;
  on_keys (modify (put_needs_dump true));;
  mret conf.

(** ** Handing existing keys to members *)
Definition supplement_nonce (sids : list bytes) (supp_keys h2 : bytes) : bytes :=
  generichash 24 enc_key_hash_key (concat_all sids +:+ supp_keys +:+ h2).

Definition key_supplement (sids : list bytes) (k : Keys) : result bytes :=
  _ ← require (admin k) logic_error;
  back ← from_option_or logic_error (last (keys_ k));
  pk ← from_option_or undefined_behaviour (k_sign_pk k);
  sk ← from_option_or undefined_behaviour (k_sign_sk k);
  group_xpk ← compute_xpk pk;
  let group_xsk := sk_to_curve25519 sk in
  let supp_keys := bt_list_dump (bt_of_key <$> keys_ k) in
  h2 ← keys_seed_hash seed_hash_key k;
  let nonce := supplement_nonce sids supp_keys h2 in
  member_xpks ← mapR (λ sid, bchat_id_pk sid "05") sids;
  enc ← encrypt_for_multiple [supp_keys] member_xpks nonce group_xsk group_xpk enc_key_member_hash_key true;
  _ ← require (negb (is_nil enc)) runtime_error;
  signed_message k [("#", BtStr nonce); ("+", BtList (BtStr <$> enc)); ("G", BtInt (ki_generation back))].

(** ** Loading a message *)

(** [member_xsk] and [member_xpk], which stay uninitialised for an admin *)
Context (garbage_xsk garbage_xpk : bytes).
Definition member_x_keys (k : Keys) : result (bytes * bytes) :=
  if admin k then Ok (garbage_xsk, garbage_xpk) else
  xpk ← compute_xpk (sdrop 32 (user_ed25519_sk k));
  Ok (sk_to_curve25519 (user_ed25519_sk k), xpk).

(** [next_ciphertext]: an entry of the wrong size is an error; otherwise it is
    tried unless our key is known already. *)
Definition next_supplement (skip : bool) (v : bt_value) : result (option bytes) :=
  encrypted ← consume_str v;
  _ ← require (negb (size encrypted <? 52 + ABYTES)) config_value_error;
  Ok (if skip then None else Some encrypted).
Definition next_member_key (skip : bool) (v : bt_value) : result (option bytes) :=
  member_key ← consume_str v;
  _ ← require (size member_key =? 32 + ABYTES) config_value_error;
  Ok (if skip then None else Some member_key).

Definition read_supplement (k : Keys) (d : bt_dict) (l : bt_list) (nonce xsk xpk group_xpk : bytes)
    : result (list key_info * option Z * bt_dict) :=
  '(plaintext, rest) ← decrypt_for_multiple (next_supplement (admin k)) l nonce xsk xpk group_xpk enc_key_member_hash_key;
  new_keys ← (match plaintext with
              | Some p => infos ← bt_load_list p; mapR load_key_info infos
              | None => Ok []
              end);
  _ ← mapR (next_supplement false) rest;
  '(gv, d) ← need d "G"; max_gen ← consume_integer gv;
  Ok (new_keys, Some max_gen, d).

(** Reads 24 bytes of the nonce, whatever its size *)
Definition try_decrypting (encrypted nonce key : bytes) : result (option bytes) :=
  _ ← require (24 <=? size nonce) undefined_behaviour;
  Ok (aead_decrypt key (stake 24 nonce) encrypted).

(** The key of a full message, if one of its copies is for us *)
Definition read_full (k : Keys) (d : bt_dict) (timestamp_ms : Z) (nonce xsk xpk group_xpk : bytes)
    : result (list key_info * option Z * bt_dict) :=
  timestamp ← sys_time_from_ms timestamp_ms;
  '(gv, d) ← need d "G"; generation ← consume_integer gv;
  _ ← require (0 <=? generation) config_value_error;
  '(kv, d) ← need d "K"; admin_key ← consume_str kv;
  _ ← require (size admin_key =? 32 + ABYTES) config_value_error;
  found ← (if admin k then
             key ← keys_seed_hash enc_key_admin_hash_key k;
             p ← try_decrypting admin_key nonce key;
             p ← from_option_or config_value_error p;
             Ok (Some p)
           else Ok None);
  '(lv, d) ← need d "k"; key_list ← as_list lv;
  '(plaintext, rest) ← decrypt_for_multiple (next_member_key (is_some found)) key_list nonce xsk xpk group_xpk
                         enc_key_member_hash_key;
  let found := match plaintext with Some p => Some p | None => found end in
  _ ← mapR (next_member_key false) rest;
  _ ← require (Z.of_nat (length key_list) mod MESSAGE_KEY_MULTIPLE =? 0) config_value_error;
  match found with
  | Some key => _ ← require (size key =? 32) undefined_behaviour;
                Ok ([mkKey key timestamp generation], None, d)
  | None => Ok ([], Some generation, d)
  end.

(** A message with a ["+"] list is a supplement. *)
Definition read_body (k : Keys) (d : bt_dict) (timestamp_ms : Z) (nonce xsk xpk group_xpk : bytes)
    : result (list key_info * option Z * bt_dict) :=
  match skip_until d "+" with
  | ((_, sv) :: d, true) => l ← as_list sv; read_supplement k d l nonce xsk xpk group_xpk
  | (d, _) => read_full k d timestamp_ms nonce xsk xpk group_xpk
  end.

(** Everything up to the verified signature: the keys found and, when there
    is none, the generation the message belongs to *)
Definition read_key_message (k : Keys) (data : bytes) (timestamp_ms : Z) : result (list key_info * option Z) :=
  _ ← bt_open data;
  _ ← require (is_some (k_sign_pk k) && is_some (verifier_ k)) logic_error;
  pk ← from_option_or undefined_behaviour (k_sign_pk k);
  group_xpk ← compute_xpk pk;
  d ← bt_load data;
  '(nv, d) ← need d "#"; nonce ← consume_str nv;
  '(xsk, xpk) ← member_x_keys k;
  '(new_keys, max_gen, d) ← read_body k d timestamp_ms nonce xsk xpk group_xpk;
  _ ← verify_config_sig data d (verifier_ k) false;
  Ok (new_keys, max_gen).

(** The pending key is done with once it, or a later one, has arrived. *)
Definition drop_pending (new_keys : list key_info) : M Keys () :=
  k ← mget;
  when (admin k && is_pending k &&
        match new_keys with
        | key :: _ => (pending_gen_ k <? ki_generation key) || keqb (ki_key key) (pending_key_ k)
        | [] => false
        end)
    (modify (λ k, put_needs_dump true (put_pending (pending_key_ k) "" (pending_gen_ k) k))).

Definition load_key_message (hash data : bytes) (timestamp_ms : Z) : M Group bool :=
  k ← gets g_keys;
  '(new_keys, max_gen) ← lift (read_key_message k data timestamp_ms);
  on_keys (drop_pending new_keys);;
  if is_nil new_keys then
    match max_gen with
    | Some gen =>
        on_keys (modify (λ k, put_active (emplace_hash gen hash (active_msgs_ k)) k);;
                 remove_expired;;
                 modify (put_needs_dump true))
    | None => skip
    end;;
    mret false
  else
    on_keys (forM_ new_keys (insert_key hash));;
    share_keys false;;
    mret true.
End messages.

(** ** The invariant is kept *)

(** A predicate on the keys object alone, for the whole group *)
Definition of_keys (I : Keys → Prop) (g : Group) : Prop := I (g_keys g).

Section lifted.
Context (I : Keys → Prop).

Lemma preserves_on_keys {A} (m : M Keys A) : preserves I m → preserves (of_keys I) (on_keys m).
Proof.
  intros Hm [k i s] Hg Hdef. specialize (Hm k Hg). unfold on_keys in *. cbn [g_keys] in *.
  destruct (m k) as [r k']. by apply Hm.
Qed.
Lemma preserves_on_info {A} (m : M ConfigBase A) : preserves (of_keys I) (on_info m).
Proof. intros [k i s] Hg _. unfold on_info. cbn [g_info]. by destruct (m i). Qed.
Lemma preserves_on_members {A} (m : M Members A) : preserves (of_keys I) (on_members m).
Proof. intros [k i s] Hg _. unfold on_members. cbn [g_members]. by destruct (m s). Qed.
End lifted.

Section invariant.
Context `{BtLaws, HashLaws, Aead, X25519, Ed25519, SeedKeypair, Oxenc, DeterministicRandom}.
Context (garbage_xsk garbage_xpk : bytes).

Lemma preserves_share dirty : preserves (of_keys keys_inv) (share_keys dirty).
Proof.
  apply preserves_reading. intros g. apply preserves_bind; [apply preserves_on_members|].
  intros _. apply preserves_on_info.
Qed.

(** Assignments that leave the key list and the messages alone *)
Lemma keys_inv_same (k k' : Keys) :
  keys_ k' = keys_ k → active_msgs_ k' = active_msgs_ k →
  (is_pending k' = true → size (pending_key_ k') = 32 ∧ in_int64 (pending_gen_ k') = true) →
  keys_inv k → keys_inv k'.
Proof. intros Hk Ha Hp [[] ? ?]. split; [split|..]; by rewrite ?Hk, ?Ha. Qed.

Lemma keys_inv_sig f :
  (∀ k, keys_ (f k) = keys_ k ∧ active_msgs_ (f k) = active_msgs_ k ∧ pending_key_ (f k) = pending_key_ k ∧
        pending_key_config_ (f k) = pending_key_config_ k ∧ pending_gen_ (f k) = pending_gen_ k) →
  preserves keys_inv (modify f).
Proof.
  intros Hf. apply preserves_modify. intros k Hk. destruct (Hf k) as (? & ? & Hp1 & Hp2 & Hp3).
  apply (keys_inv_same k); [done..| |done]. unfold is_pending. rewrite Hp1, Hp2, Hp3. apply Hk.
Qed.

Lemma set_sig_keys_inv secret : preserves keys_inv (keys_set_sig_keys secret).
Proof.
  apply preserves_bind; [apply preserves_guard|intros _].
  repeat (apply preserves_bind; [by apply keys_inv_sig|intros _]). by apply keys_inv_sig.
Qed.

Lemma load_admin_key_inv seed : preserves (of_keys keys_inv) (load_admin_key seed).
Proof.
  apply preserves_bind; [apply preserves_gets|intros k]. destruct (admin k); [apply preserves_ret|].
  apply preserves_bind; [apply preserves_lift|intros s]. destruct (seed_keypair s) as [pk sk].
  apply preserves_bind; [apply preserves_guard|intros _].
  apply preserves_bind; [apply preserves_on_keys, set_sig_keys_inv|intros _].
  apply preserves_bind; [apply preserves_on_info|intros _]. apply preserves_on_members.
Qed.

Lemma rekey_hash_sizes ids gen h2 :
  size (stake 32 (rekey_hash ids gen h2)) = 32 ∧ size (sdrop 32 (rekey_hash ids gen h2)) = 24.
Proof.
  unfold rekey_hash. pose proof (generichash_size 56 enc_key_hash_key (concat_all ids +:+ print_Z gen +:+ h2)) as Hs.
  specialize (Hs ltac:(lia)). unfold size in *. rewrite length_stake, length_sdrop. lia.
Qed.

(** A new key has 32 bytes, its generation fits its type. *)
Lemma rekey_message_ok k mem gen key conf :
  rekey_message k mem = Ok (gen, key, conf) → size key = 32 ∧ in_int64 gen = true.
Proof.
  unfold rekey_message. intros Hr. inv_pairs.
  match goal with Hg : next_generation k = Ok _ |- _ => rename Hg into Hgen end.
  split.
  - exact (proj1 (rekey_hash_sizes _ _ _)).
  - unfold next_generation in Hgen. destruct (last (keys_ k)) as [b|]; inv_result; [|done].
    unfold add_i64 in Hgen. destruct (in_int64 _) eqn:Ei; inv_result. done.
Qed.

Lemma rekey_inv : preserves (of_keys keys_inv) rekey.
Proof.
  apply preserves_read. intros g Hg. rewrite run_lift. unfold of_keys in *.
  destruct (rekey_message _ _) as [[[gen key] conf]|e] eqn:E; [|done].
  destruct (rekey_message_ok _ _ _ _ _ E) as [Hk Hgen].
  apply (preserves_bind_dep (of_keys keys_inv)); [|intros s _ s' _ _ Hs'|done].
  - apply preserves_on_keys, preserves_modify. intros k Hi. by apply (keys_inv_same k).
  - revert Hs'. apply preserves_bind; [apply preserves_share|intros _].
    apply preserves_bind; [by apply preserves_on_keys, keys_inv_sig|intros _]. apply preserves_ret.
Qed.

(** ** What a message yields is well-formed *)
Lemma sys_time_ok ms t : sys_time_from_ms ms = Ok t → in_int64 t = true ∧ t mod TICKS_PER_MS = 0.
Proof.
  unfold sys_time_from_ms. destruct (in_int64 _) eqn:E; [|done]. intros [= <-]. split; [done|]. by apply Z.mod_mul.
Qed.

Lemma consume_integer_range v z : consume_integer v = Ok z → in_int64 z = true.
Proof. destruct v; try done. apply consume_int64_range. Qed.

Lemma load_key_info_ok v key : load_key_info v = Ok key → key_ok key.
Proof.
  unfold load_key_info. intros Hl. inv_pairs.
  repeat match goal with Hs : sys_time_from_ms _ = Ok _ |- _ => apply sys_time_ok in Hs as [? ?] end.
  repeat match goal with Hs : consume_integer _ = Ok _ |- _ => apply consume_integer_range in Hs end.
  split; cbn [ki_key ki_generation ki_timestamp]; [by apply Z.eqb_eq|done].
Qed.

Lemma load_key_infos_ok l ks : mapR load_key_info l = Ok ks → Forall key_ok ks.
Proof.
  revert ks; induction l as [|v l IH]; intros ks Hl; cbn [mapR] in Hl; inv_result; [by constructor|].
  constructor; [by eapply load_key_info_ok|by apply IH].
Qed.

Definition outcome_ok (r : list key_info * option Z) : Prop :=
  Forall key_ok r.1 ∧ ∀ gen, r.2 = Some gen → in_int64 gen = true.

Lemma read_supplement_ok k d l nonce xsk xpk group_xpk ks mg d' :
  read_supplement k d l nonce xsk xpk group_xpk = Ok (ks, mg, d') → outcome_ok (ks, mg).
Proof.
  unfold read_supplement. intros Hr. inv_pairs. split; cbn [fst snd].
  - match goal with Hp : match ?o with Some _ => _ | None => _ end = Ok _ |- _ => destruct o; inv_result; [|by constructor] end.
    by eapply load_key_infos_ok.
  - intros gen Hgen. simplify_eq. by eapply consume_integer_range.
Qed.

Lemma read_full_ok k d ts nonce xsk xpk group_xpk ks mg d' :
  read_full k d ts nonce xsk xpk group_xpk = Ok (ks, mg, d') → outcome_ok (ks, mg).
Proof.
  unfold read_full. intros Hr. inv_pairs.
  repeat match goal with Hs : sys_time_from_ms _ = Ok _ |- _ => apply sys_time_ok in Hs as [? ?] end.
  repeat match goal with Hs : consume_integer _ = Ok _ |- _ => apply consume_integer_range in Hs end.
  match goal with Hp : match ?o with Some _ => _ | None => _ end = Ok _ |- _ => destruct o eqn:Ef; inv_result end.
  - split; [|done]. cbn [fst].
    apply Forall_singleton. split; cbn [ki_key ki_generation ki_timestamp]; [by apply Z.eqb_eq|done].
  - split; [by constructor|].
    by intros gen [= <-].
Qed.

Lemma read_body_ok k d ts nonce xsk xpk group_xpk ks mg d' :
  read_body k d ts nonce xsk xpk group_xpk = Ok (ks, mg, d') → outcome_ok (ks, mg).
Proof.
  unfold read_body. destruct (skip_until d "+") as [[|[kk sv] d1] []]; intros Hr; inv_result;
    first [by eapply read_full_ok | by eapply read_supplement_ok].
Qed.

Lemma read_key_message_ok k data ts r :
  read_key_message garbage_xsk garbage_xpk k data ts = Ok r → outcome_ok r.
Proof. unfold read_key_message. intros Hr. inv_pairs. by eapply read_body_ok. Qed.

(** ** Loading a message *)
Lemma drop_pending_inv new_keys : preserves keys_inv (drop_pending new_keys).
Proof.
  apply preserves_reading. intros k. apply preserves_when, preserves_modify. intros k' Hk'.
  by apply (keys_inv_same k').
Qed.

Lemma remember_message_inv gen hash :
  in_int64 gen = true →
  preserves keys_inv (modify (λ k, put_active (emplace_hash gen hash (active_msgs_ k)) k);; remove_expired;;
                      modify (put_needs_dump true)).
Proof.
  intros Hg k Hk. rewrite run_modify, run_bind. set (k1 := put_active _ k).
  assert (list_inv k1) as Hl.
  { destruct (inv_list _ Hk) as [? ? ? Has Hao ?].
    destruct (emplace_hash_inv gen hash (active_msgs_ k) Has Hao Hg). by split. }
  intros Hdef. assert (defined (remove_expired k1).1) as Hdef1.
  { destruct (remove_expired k1) as [[u|e] k2]; [by unfold defined|exact Hdef]. }
  destruct (remove_expired_inv k1 Hl Hdef1) as [Hr Hi]. destruct (remove_expired k1) as [r k2]. simpl in Hr, Hi. subst r.
  simpl. by apply (keys_inv_same k2); [..|apply Hi|].
Qed.

Lemma load_key_message_inv hash data ts :
  preserves (of_keys keys_inv) (load_key_message garbage_xsk garbage_xpk hash data ts).
Proof.
  intros g Hg. unfold load_key_message. rewrite run_gets, run_lift.
  destruct (read_key_message _ _ _ _ _) as [[ks mg]|e] eqn:E; [|done].
  destruct (read_key_message_ok _ _ _ _ E) as [Hks Hmg]. cbn [fst snd] in *.
  apply (preserves_bind (of_keys keys_inv)); [apply preserves_on_keys, drop_pending_inv|intros _|done].
  destruct ks as [|key ks]; cbn [is_nil].
  - apply preserves_bind; [|intros _; apply preserves_ret].
    destruct mg as [gen|]; [|apply preserves_ret]. apply preserves_on_keys, remember_message_inv. by apply Hmg.
  - apply preserves_bind; [|intros _; apply preserves_bind; [apply preserves_share|intros _; apply preserves_ret]].
    apply preserves_on_keys, preserves_forM. intros x Hx. apply insert_key_inv. by rewrite Forall_forall in Hks; apply Hks.
Qed.

(** ** Sharing the keys *)
Definition first_occurrences (l : list bytes) : list bytes := fold_left (λ acc k, with_last k acc) l [].

Lemma replace_keys_quiet l b :
  Forall (λ k, size k = 32) l → replace_keys l false b = (Ok tt, with_enc_keys (first_occurrences l) b).
Proof.
  intros Hl. unfold replace_keys. rewrite run_mget. destruct l as [|k l].
  - destruct (_keys b) as [|k0 ks] eqn:E; [|done]. simpl. change (first_occurrences []) with (@nil string).
    rewrite <- E. by rewrite with_enc_keys_id.
  - rewrite run_guard. assert (forallb (λ k, size k =? KEY_SIZE) (k :: l) = true) as ->.
    { apply forallb_forall. intros x Hx%list_elem_of_In. rewrite Forall_forall in Hl. by apply Z.eqb_eq, Hl. }
    rewrite run_modify, run_bind, add_last_keys by done. done.
Qed.

Lemma group_keys_ok k : list_inv k → Forall (λ k, size k = 32) (group_keys k).
Proof.
  intros [? ? Ho ? ? Hp]. unfold group_keys. apply Forall_app. split.
  - destruct (is_pending k); [|by constructor]. apply Forall_singleton. by apply Hp.
  - rewrite Forall_fmap. apply Forall_reverse. eapply Forall_impl; [exact Ho|]. by intros x (? & _).
Qed.

Definition shared (g : Group) : Group :=
  let ks := first_occurrences (group_keys (g_keys g)) in
  mkGroup (g_keys g) (with_enc_keys ks (g_info g))
    (mkMembers (with_enc_keys ks (m_config (g_members g))) (pending_send_ids (g_members g))).

Lemma share_quiet g : list_inv (g_keys g) → share_keys false g = (Ok tt, shared g).
Proof.
  intros Hk. pose proof (group_keys_ok _ Hk) as Hf. unfold share_keys. rewrite run_mget, run_bind.
  unfold on_members, on_config. rewrite replace_keys_quiet by done. unfold on_info. cbn [g_info].
  by rewrite replace_keys_quiet.
Qed.

(** ** Restarting from a dump *)

(** The parts of the object that a dump holds *)
Definition same_content (k k' : Keys) : Prop :=
  keys_ k' = keys_ k ∧ active_msgs_ k' = active_msgs_ k ∧ is_pending k' = is_pending k ∧
  (is_pending k = true → pending_key_ k' = pending_key_ k ∧ pending_key_config_ k' = pending_key_config_ k ∧
     pending_gen_ k' = pending_gen_ k).

Lemma restored_content k k0 : is_pending k0 = false → same_content k (restored k k0).
Proof.
  intros Hk0. unfold same_content, restored. destruct (is_pending k) eqn:E; [|by split_and!].
  split_and!; try done.
Qed.

Lemma same_content_inv k k' : same_content k k' → keys_inv k → keys_inv k'.
Proof.
  intros (Hk & Ha & Hp & Hpp) Hi. apply (keys_inv_same k); [done..| |done]. rewrite Hp. intros Hpend.
  destruct (Hpp Hpend) as (-> & _ & ->). by apply Hi.
Qed.

Lemma same_content_keys k k' : same_content k k' → group_keys k' = group_keys k ∧ group_enc_key k' = group_enc_key k.
Proof.
  intros (Hk & _ & Hp & Hpp). unfold group_keys, group_enc_key. rewrite Hk, Hp.
  destruct (is_pending k); [|done]. by destruct (Hpp eq_refl) as (-> & _).
Qed.

Definition sig_args_ok (pk : bytes) (sk : option bytes) : Prop :=
  size pk = 32 ∧ ∀ s, sk = Some s → size s = 64 ∧ sdrop 32 s = pk.

Lemma init_sig_keys_run pk sk k :
  sig_args_ok pk sk → ∃ pk' sk' v s, keys_init_sig_keys pk sk k = (Ok tt, put_callables v s (put_sig pk' sk' k)).
Proof.
  intros [Hpk Hsk]. unfold keys_init_sig_keys. destruct sk as [sk|].
  - destruct (Hsk sk eq_refl) as [Hsz ->]. rewrite keqb_refl. cbn [negb]. unfold keys_set_sig_keys.
    rewrite run_guard, Hsz. eauto.
  - unfold keys_set_sig_pubkey. rewrite run_guard, Hpk. do 4 eexists. reflexivity.
Qed.

Lemma restart_run user pk sk k i s :
  list_inv k → size user = 64 → sig_args_ok pk sk →
  ∃ k', new_group_keys user pk sk (Some (keys_make_dump k)) (mkGroup blank_keys i s) = (Ok tt, shared (mkGroup k' i s)) ∧
    same_content k k'.
Proof.
  intros Hk Hu Hs. destruct (init_sig_keys_run pk sk blank_keys Hs) as (pk' & sk' & v & sg & Hinit).
  unfold new_group_keys. rewrite !run_guard, Hu. destruct Hs as [-> Hs]. cbn [Z.eqb Pos.eqb].
  assert (match sk with Some sk => size sk =? 64 | None => true end = true) as ->.
  { destruct sk as [x|]; [|done]. apply Z.eqb_eq, Hs. done. }
  rewrite run_bind. unfold on_keys at 1. cbn [g_keys g_info g_members]. rewrite Hinit. rewrite run_bind. unfold on_keys at 1.
  cbn [modify g_keys g_info g_members]. rewrite run_gets, run_lift. cbn [g_keys].
  match goal with |- context [keys_load_dump _ ?b] => set (k0 := b) end.
  rewrite load_make_dump by done. rewrite run_bind. unfold on_keys. cbn [modify g_keys g_info g_members].
  pose proof (restored_content k k0 eq_refl) as Hc. rewrite share_quiet.
  - exists (restored k k0). by split.
  - cbn [g_keys]. destruct Hk as [? ? ? ? ? Hp]. destruct Hc as (Hc1 & Hc2 & Hc3 & Hc4).
    split; rewrite ?Hc1, ?Hc2, ?Hc3; try done. intros Hpend. destruct (Hc4 Hpend) as (-> & _ & ->). by apply Hp.
Qed.
End invariant.

(** ** A concrete generator and a concrete group *)
#[global] Instance zero_random : DeterministicRandom := λ n _, zeros (Z.to_nat n).
#[global] Instance zero_random_laws : DeterministicRandomLaws.
Proof.
  intros n seed Hn. unfold randombytes_deterministic, zero_random. rewrite zeros_size. lia.
Qed.

Definition seed_of (c : ascii) : bytes := String c (zeros 31).
Definition sample_group_seed : bytes := seed_of "g".
Definition sample_user_seed : bytes := seed_of "u".
Definition sample_user_id : bytes :=
  "05" +:+ to_hex (x25519_public (sk_to_curve25519 (seed_keypair sample_user_seed).2)).

(** A group with one member, its keys object as an admin has it, after it
    has issued a key and after it has loaded its own message *)
Definition sample_members : Members := state_after (members_set (blank_member sample_user_id)) (mkMembers new_config []).
Definition sample_admin : Group :=
  state_after (new_group_keys (seed_keypair (seed_of "a")).2 (seed_keypair sample_group_seed).1
                 (Some (seed_keypair sample_group_seed).2) None)
    (mkGroup blank_keys new_config sample_members).
Definition sample_rekeyed : Group := state_after rekey sample_admin.
Definition sample_conf : bytes := pending_key_config_ (g_keys sample_rekeyed).
Definition sample_loaded : Group :=
  state_after (load_key_message (zeros 32) (zeros 32) "hash1" sample_conf 1700000000000) sample_rekeyed.

(** The same group's keys object as the member has it *)
Definition sample_member_group : Group :=
  state_after (new_group_keys (seed_keypair sample_user_seed).2 (seed_keypair sample_group_seed).1 None None)
    (mkGroup blank_keys new_config (mkMembers new_config [])).
