(* ===== verification/GroupKeyState.v ===== *)
(** * The keys object over its lifetime

    What holds of [groups::Keys] ([src/config/groups/keys.cpp]) in every state
    that its operations can reach, restarts from a dump included; what
    inserting a key may drop; and that loading a message is all or nothing. *)

From Stdlib Require Import ZArith String Ascii Lia.
From stdpp Require Import base option list strings numbers sorting sets.
From S2P Require Import Prelude OrderedMap Bt Bencode Crypto ConfigData ConfigMessage ConfigCodec State Util ConfigBase ConfigState ConfigLifecycle ConfigFields Ids Records MultiEncrypt GroupMembers GroupKeys GroupKeyMessages.

(** ** Inserting a key *)

(** A later generation started longer than the expiry before the newest key. *)
Definition superseded (x : key_info) (l : list key_info) : Prop :=
  ∃ k2, k2 ∈ l ∧ ki_generation x < ki_generation k2 ∧ ki_timestamp k2 + KEY_EXPIRY < back_time l.

Lemma head_elem {A} (l : list A) x : head l = Some x → x ∈ l.
Proof. destruct l; [done|]. intros [= ->]. left. Qed.

Lemma remove_expired_exact k k' :
  ssorted (keys_ k) = true → remove_expired k = (Ok tt, k') →
  (∀ x, x ∈ keys_ k' → x ∈ keys_ k) ∧
  (∀ x, x ∈ keys_ k → x ∈ keys_ k' ∨ superseded x (keys_ k')).
Proof.
  intros Hs Hr. destruct (lapsed_end (keys_ k)) as [r|e] eqn:E.
  - rewrite (remove_expired_run k r E) in Hr. injection Hr as <-. cbn [keys_ put_active put_keys].
    destruct (lapsed_end_spec _ _ Hs E) as (pre & Heq & _ & _ & _ & Hpre). rewrite Heq.
    split; intros x; rewrite elem_of_app; [by right|]. intros [Hx|Hx]; [right|by left].
    destruct (Hpre x Hx) as (k2 & Hh & ? & ?). exists k2. by apply head_elem in Hh.
  - unfold remove_expired in Hr. by rewrite run_mget, run_lift, E in Hr.
Qed.

Lemma stale_superseded key l :
  stale_key key l = Ok true → superseded key l.
Proof.
  unfold stale_key. destruct l as [|front [|second l]]; [done..|].
  destruct (last (front :: second :: l)) as [back|] eqn:E; [|done].
  destruct (negb (klt front key) && (ki_generation key <? ki_generation front)) eqn:C; [|done].
  apply andb_true_iff in C as [_ C]. apply Z.ltb_lt in C. unfold add_i64. destruct (in_int64 _); [|done].
  intros [= Ht]. apply Z.ltb_lt in Ht. exists front. unfold back_time. rewrite E. split_and!; [left|done..].
Qed.

(** (safety): inserting a key of a message never loses a key that is still
    needed.  The list then has only keys it had and the new one, and any of
    these that is missing is either known under the same generation or was
    replaced by a later generation that started longer than the expiry (60
    days) before the newest key. *)
Theorem insert_key_exact hash key k k' :
  keys_inv k → insert_key hash key k = (Ok tt, k') →
  (∀ x, x ∈ keys_ k' → x = key ∨ x ∈ keys_ k) ∧
  (∀ x, x = key ∨ x ∈ keys_ k →
     x ∈ keys_ k' ∨ superseded x (keys_ k') ∨
     ∃ y, y ∈ keys_ k' ∧ ki_generation y = ki_generation x ∧ ki_key y = ki_key x).
Proof.
  intros Hk Hi. unfold insert_key in Hi. rewrite run_mget in Hi. destruct (known_key key (keys_ k)) eqn:E.
  - injection Hi as <-. cbn [keys_ put_active]. split; [by right|]. intros x [->|Hx]; [right; right|by left].
    by apply known_key_spec.
  - rewrite run_lift in Hi. destruct (stale_key key (keys_ k)) as [[|]|e] eqn:Es; [| |done].
    + injection Hi as <-. split; [by right|]. intros x [->|Hx]; [right; left; by apply stale_superseded|by left].
    + rewrite !run_modify, run_bind in Hi.
      match type of Hi with context [remove_expired ?a] => destruct (remove_expired a) as [[[]|e] k2] eqn:Er; [|done] end.
      injection Hi as <-. cbn [keys_ put_needs_dump].
      assert (key ∉ keys_ k) as Hn.
      { intros Hin. apply not_true_iff_false in E. apply E, known_key_spec. eauto. }
      apply remove_expired_exact in Er as [H1 H2]; cbn [keys_ put_keys put_active] in *.
      * rewrite insert_lower_bound_set in H1, H2 by done. setoid_rewrite elem_of_sinsert in H1.
        setoid_rewrite elem_of_sinsert in H2. split; [done|]. intros x Hx. destruct (H2 x Hx); eauto.
      * rewrite insert_lower_bound_set by done. apply ssorted_insert, Hk.
Qed.

(** ** Every reachable state *)
Section reachable.
Context `{BtLaws, HashLaws, Aead, X25519, Ed25519, SeedKeypair, Oxenc, DeterministicRandom}.

Inductive keys_op :=
  | OpLoadAdminKey (seed : bytes)
  | OpRekey
  | OpLoadMessage (garbage_xsk garbage_xpk hash data : bytes) (timestamp_ms : Z)
  | OpKeysDump.

Definition run_keys_op (o : keys_op) : M Group () :=
  match o with
  | OpLoadAdminKey seed => load_admin_key seed
  | OpRekey => rekey;; skip
  | OpLoadMessage gs gp hash data ts => load_key_message gs gp hash data ts;; skip
  | OpKeysDump => on_keys keys_dump;; skip
  end.

(** The states of the keys object next to some info and members objects,
    which have operations of their own: after construction, after restarting
    from a dump, and after any operation, also one that throws. *)
Inductive keys_reachable : Group → Prop :=
  | reach_new user pk sk i s g :
      new_group_keys user pk sk None (mkGroup blank_keys i s) = (Ok tt, g) → keys_reachable g
  | reach_restart g user pk sk i s g' :
      keys_reachable g → size user = 64 → sig_args_ok pk sk →
      new_group_keys user pk sk (Some (keys_make_dump (g_keys g))) (mkGroup blank_keys i s) = (Ok tt, g') →
      keys_reachable g'
  | reach_op g o : keys_reachable g → defined (run_keys_op o g).1 → keys_reachable (run_keys_op o g).2
  | reach_objects g i s : keys_reachable g → keys_reachable (mkGroup (g_keys g) i s).

Lemma blank_inv : keys_inv blank_keys.
Proof.
  split; [split|..]; cbn [keys_ active_msgs_ blank_keys]; try done; by constructor.
Qed.

Lemma init_sig_keys_inv pk sk : preserves keys_inv (keys_init_sig_keys pk sk).
Proof.
  unfold keys_init_sig_keys. destruct sk as [sk|].
  - destruct (negb _); [apply preserves_throw|apply set_sig_keys_inv].
  - apply preserves_bind; [apply preserves_guard|intros _].
    apply preserves_bind; [by apply keys_inv_sig|intros _]. by apply keys_inv_sig.
Qed.

Lemma new_group_keys_inv user pk sk : preserves (of_keys keys_inv) (new_group_keys user pk sk None).
Proof.
  do 3 (apply preserves_bind; [apply preserves_guard|intros _]).
  apply preserves_bind; [apply preserves_on_keys, init_sig_keys_inv|intros _].
  apply preserves_bind; [by apply preserves_on_keys, keys_inv_sig|intros _]. apply preserves_ret.
Qed.

Lemma run_keys_op_inv o : preserves (of_keys keys_inv) (run_keys_op o).
Proof.
  destruct o; cbn [run_keys_op]; [apply load_admin_key_inv|..];
    (apply preserves_bind; [|intros _; apply preserves_ret]).
  - apply rekey_inv.
  - apply load_key_message_inv.
  - apply preserves_on_keys. apply preserves_bind; [apply preserves_gets|intros d].
    apply preserves_bind; [by apply keys_inv_sig|intros _]. apply preserves_ret.
Qed.

Lemma reach_inv g : keys_reachable g → keys_inv (g_keys g).
Proof.
  induction 1 as [user pk sk i s g Hn|g user pk sk i s g' Hg IH Hu Hs Hn|g o Hg IH Hd|g i s Hg IH].
  - pose proof (new_group_keys_inv user pk sk (mkGroup blank_keys i s) blank_inv) as Hp. rewrite Hn in Hp. by apply Hp.
  - destruct (restart_run user pk sk (g_keys g) i s (inv_list _ IH) Hu Hs) as (k' & Hr & Hc).
    rewrite Hr in Hn. injection Hn as <-. cbn [shared g_keys]. by eapply same_content_inv.
  - by apply (run_keys_op_inv o).
  - done.
Qed.

(** C10 (invariant): in every reachable state of a group's keys object the keys
    are strictly sorted by generation, time and value, no generation has the
    same key twice, every key has 32 bytes, no expired generation is kept, and
    the remembered messages belong to kept generations only. *)
Theorem keys_reachable_inv g : keys_reachable g → keys_inv (g_keys g).
Proof. apply reach_inv. Qed.

(** (round trip): a restart loses nothing.  A keys object built from the
    dump of a reachable one has the same keys, messages and pending key, so
    it encrypts and decrypts with the same keys, and the info and members
    objects it is built with get exactly these keys in the same order. *)
Theorem keys_restart_roundtrip g user pk sk i s :
  keys_reachable g → size user = 64 → sig_args_ok pk sk →
  ∃ g', new_group_keys user pk sk (Some (keys_make_dump (g_keys g))) (mkGroup blank_keys i s) = (Ok tt, g') ∧
    same_content (g_keys g) (g_keys g') ∧
    group_keys (g_keys g') = group_keys (g_keys g) ∧ group_enc_key (g_keys g') = group_enc_key (g_keys g) ∧
    _keys (g_info g') = first_occurrences (group_keys (g_keys g)) ∧
    _keys (m_config (g_members g')) = first_occurrences (group_keys (g_keys g)) ∧
    keys_make_dump (g_keys g') = keys_make_dump (g_keys g).
Proof.
  intros Hg%reach_inv Hu Hs.
  destruct (restart_run user pk sk (g_keys g) i s (inv_list _ Hg) Hu Hs) as (k' & Hr & Hc).
  exists (shared (mkGroup k' i s)). cbn [shared g_keys g_info g_members m_config with_enc_keys _keys].
  destruct (same_content_keys _ _ Hc) as [Hk He]. rewrite Hk. split_and!; try done.
  destruct Hc as (Hc1 & Hc2 & Hc3 & Hc4). unfold keys_make_dump, dump_pairs, bt_of_pending. rewrite Hc1, Hc2, Hc3.
  destruct (is_pending (g_keys g)); [|done]. by destruct (Hc4 eq_refl) as (-> & -> & ->).
Qed.

(** ** Loading a message is all or nothing *)

(** The operation returns, unless its behaviour is undefined. *)
Definition returns {S A} (m : M S A) : Prop := ∀ s, defined (m s).1 → ∃ a, (m s).1 = Ok a.

Lemma returns_bind {S A B} (m : M S A) (f : A → M S B) : returns m → (∀ a, returns (f a)) → returns (x ← m; f x).
Proof.
  intros Hm Hf s. specialize (Hm s). rewrite run_bind. destruct (m s) as [[a|e] s']; [by apply Hf|].
  intros Hd. destruct Hm as [? ?]; [|done]. intros [= ->]. by apply Hd.
Qed.
Lemma returns_modify {S} (f : S → S) : returns (modify f).
Proof. intros s _. by exists tt. Qed.
Lemma returns_forM {S A} (l : list A) (f : A → M S ()) : (∀ a, returns (f a)) → returns (forM_ l f).
Proof.
  intros Hf. induction l as [|a l IH]; [intros s _; by exists tt|]. by apply returns_bind.
Qed.
Lemma returns_on_keys {A} (m : M Keys A) : returns m → returns (on_keys m).
Proof. intros Hm g. specialize (Hm (g_keys g)). unfold on_keys. by destruct (m (g_keys g)). Qed.
Lemma returns_expiry {S A} (r : result A) (f : A → M S ()) :
  (∀ e, r = Throw e → e = undefined_behaviour) → (∀ a, returns (f a)) → returns (x ← lift r; f x).
Proof.
  intros Hr Hf s Hd. rewrite run_lift in *. destruct r as [a|e]; [by apply Hf|].
  specialize (Hr e eq_refl). subst. by destruct Hd.
Qed.

Lemma remove_expired_returns : returns remove_expired.
Proof.
  intros k. unfold remove_expired. rewrite run_mget. apply returns_expiry.
  - intros e. destruct (keys_ k) as [|a [|b l]]; try done. apply lapse_throw.
  - intros r. apply returns_bind; [apply returns_modify|intros _; apply returns_modify].
Qed.

Lemma insert_key_returns hash key : returns (insert_key hash key).
Proof.
  intros k. unfold insert_key. rewrite run_mget. destruct (known_key _ _); [apply returns_modify|]. apply returns_expiry.
  - intros e. unfold stale_key. destruct (keys_ k) as [|a [|b l]]; try done. destruct (last _); [|done].
    destruct (_ && _); [|done]. unfold add_i64. destruct (in_int64 _); [done|]. by intros [= <-].
  - intros [|]; [intros s _; by exists tt|].
    repeat (apply returns_bind; [first [apply returns_modify|apply remove_expired_returns]|intros _]). apply returns_modify.
Qed.

(** After the message has been read, the rest of the call returns. *)
Lemma load_after_reading g gs gp hash data ts ks mg :
  keys_inv (g_keys g) → read_key_message gs gp (g_keys g) data ts = Ok (ks, mg) →
  defined (load_key_message gs gp hash data ts g).1 →
  (load_key_message gs gp hash data ts g).1 = Ok (negb (is_nil ks)).
Proof.
  intros Hg Hr. unfold load_key_message. rewrite run_gets, run_lift, Hr. rewrite run_bind.
  assert (∃ g1, on_keys (drop_pending ks) g = (Ok tt, g1) ∧ keys_inv (g_keys g1)) as (g1 & -> & Hg1).
  { destruct (on_keys (drop_pending ks) g) as [r g1] eqn:E.
    assert (r = Ok tt) as ->.
    { revert E. unfold on_keys, drop_pending. rewrite run_mget. destruct (_ && _ && _); by intros [= <- _]. }
    exists g1. split; [done|].
    pose proof (preserves_on_keys keys_inv (drop_pending ks) (drop_pending_inv ks) g Hg) as Hp.
    rewrite E in Hp. by apply Hp. }
  destruct (read_key_message_ok _ _ _ _ _ _ Hr) as [Hks _]. cbn [fst] in Hks.
  destruct ks as [|key ks]; cbn [is_nil negb]; rewrite run_bind.
  - assert (returns (match mg with
      | Some gen => on_keys (modify (λ k, put_active (emplace_hash gen hash (active_msgs_ k)) k);; remove_expired;;
                             modify (put_needs_dump true))
      | None => skip end)) as Hret.
    { destruct mg; [|intros s _; by exists tt]. apply returns_on_keys.
      repeat (apply returns_bind; [first [apply returns_modify|apply remove_expired_returns]|intros _]). apply returns_modify. }
    match type of Hret with returns ?m => revert Hret; generalize m end. intros m Hret. specialize (Hret g1).
    destruct (m g1) as [[u|e] g2]; [done|]. intros Hd. destruct Hret as [? ?]; [|done]. intros [= ->]. by apply Hd.
  - assert (returns (on_keys (forM_ (key :: ks) (insert_key hash)))) as Hret.
    { apply returns_on_keys, returns_forM. intros. apply insert_key_returns. }
    assert (preserves (of_keys keys_inv) (on_keys (forM_ (key :: ks) (insert_key hash)))) as Hpres.
    { apply preserves_on_keys, preserves_forM. intros x Hx. apply insert_key_inv. by rewrite Forall_forall in Hks; apply Hks. }
    specialize (Hret g1). specialize (Hpres g1 Hg1).
    destruct (on_keys (forM_ _ _) g1) as [[u|e] g2]; [|intros Hd; destruct Hret as [? ?]; [|done]; intros [= ->]; by apply Hd].
    specialize (Hpres ltac:(by unfold defined)). rewrite run_bind, share_quiet by apply Hpres. done.
Qed.

(** C35 (error): loading a key message is all or nothing.  When the call
    throws, the keys, info and members objects are as before; when it returns,
    the message carried a 64-byte signature that the group's verifier accepted. *)
Theorem load_key_message_atomic g gs gp hash data ts :
  keys_inv (g_keys g) →
  match load_key_message gs gp hash data ts g with
  | (Ok _, _) => ∃ verify sig, verifier_ (g_keys g) = Some verify ∧ size sig = 64 ∧ verify (bt_signed data) sig = true
  | (Throw e, g') => e = undefined_behaviour ∨ g' = g
  end.
Proof.
  intros Hg. destruct (load_key_message gs gp hash data ts g) as [r g'] eqn:E.
  destruct (read_key_message gs gp (g_keys g) data ts) as [[ks mg]|e] eqn:Hr.
  - pose proof (load_after_reading g gs gp hash data ts ks mg Hg Hr) as Hd. rewrite E in Hd. cbn [fst] in Hd.
    destruct r as [b|e].
    + unfold read_key_message in Hr. inv_pairs. match goal with Hv : verify_config_sig _ _ _ _ = Ok _ |- _ =>
        apply verify_config_sig_ok in Hv end.
      destruct (verifier_ (g_keys g)) as [f|]; [|by rewrite andb_false_r in *].
      match goal with Hv : ∃ s, _ |- _ => destruct Hv as (sg & _ & ? & ?) end. by exists f, sg.
    + destruct (decide (e = undefined_behaviour)) as [->|Hne]; [by left|]. assert (defined (@Throw bool e)) as Hdef.
      { intros [= ->]. done. }
      by apply Hd in Hdef.
  - unfold load_key_message in E. rewrite run_gets, run_lift, Hr in E. injection E as <- <-. by right.
Qed.
End reachable.

(** ** Examples *)
Definition day : Z := 24 * 3600 * 1000 * TICKS_PER_MS.
Definition sample_key_info (c : ascii) (t gen : Z) : key_info := mkKey (String c (zeros 31)) t gen.
Definition two_keys : Keys :=
  state_after (insert_key "hash2" (sample_key_info "b" day 1)) (state_after (insert_key "hash1" (sample_key_info "a" 0 0)) blank_keys).

Lemma sample_key_ok c t gen : in_int64 gen && in_int64 t && (t mod TICKS_PER_MS =? 0) = true → key_ok (sample_key_info c t gen).
Proof. intros [[Hg Ht]%andb_true_iff Hm]%andb_true_iff. split_and!; try done. by apply Z.eqb_eq. Qed.

Lemma two_keys_inv : keys_inv two_keys.
Proof.
  unfold two_keys, state_after. apply insert_key_inv; [by apply sample_key_ok| |by vm_compute].
  apply insert_key_inv; [by apply sample_key_ok|apply blank_inv|by vm_compute].
Qed.

(** 62 days after its successor was issued, the first key goes. *)
Lemma insert_key_exact_witness :
  keys_ (state_after (insert_key "hash3" (sample_key_info "c" (63 * day) 2)) two_keys) =
    [sample_key_info "b" day 1; sample_key_info "c" (63 * day) 2] ∧
  superseded (sample_key_info "a" 0 0) (keys_ (state_after (insert_key "hash3" (sample_key_info "c" (63 * day) 2)) two_keys)).
Proof.
  assert (insert_key "hash3" (sample_key_info "c" (63 * day) 2) two_keys =
    (Ok tt, state_after (insert_key "hash3" (sample_key_info "c" (63 * day) 2)) two_keys)) as E by (vm_compute; reflexivity).
  assert (keys_ (state_after (insert_key "hash3" (sample_key_info "c" (63 * day) 2)) two_keys) =
    [sample_key_info "b" day 1; sample_key_info "c" (63 * day) 2]) as Hl by (vm_compute; reflexivity).
  split; [exact Hl|].
  destruct (insert_key_exact "hash3" (sample_key_info "c" (63 * day) 2) two_keys _ two_keys_inv E) as [_ Hx].
  destruct (Hx (sample_key_info "a" 0 0)) as [Hin|[Hsup|(y & Hy & Hg & _)]]; [right; vm_compute; left|..|exact Hsup|].
  - rewrite Hl in Hin. exfalso. apply elem_of_cons in Hin as [|Hin]; [done|]. apply elem_of_cons in Hin as [|Hin]; [done|].
    by apply elem_of_nil in Hin.
  - rewrite Hl in Hy. exfalso. apply elem_of_cons in Hy as [->|Hy]; [done|]. apply elem_of_cons in Hy as [->|Hy]; [done|].
    by apply elem_of_nil in Hy.
Defined.

Lemma state_skip {S A} (m : M S A) s : state_after (m;; skip) s = state_after m s.
Proof. unfold state_after. rewrite run_bind. by destruct (m s) as [[a|e] s']. Qed.

Section constructed.
Context `{BtLaws, HashLaws, Aead, X25519, Ed25519, SeedKeypair, Oxenc, DeterministicRandom}.

Lemma reach_constructed user pk sk i s :
  outcome_of (new_group_keys user pk sk None) (mkGroup blank_keys i s) = Ok tt →
  keys_reachable (state_after (new_group_keys user pk sk None) (mkGroup blank_keys i s)).
Proof.
  unfold outcome_of, state_after. intros E. apply (reach_new user pk sk i s). by rewrite <- E, <- surjective_pairing.
Qed.

Lemma reach_returned {A} (o : keys_op) (m : M Group A) g a :
  run_keys_op o = (m;; skip) → keys_reachable g → outcome_of m g = Ok a → keys_reachable (state_after m g).
Proof.
  intros Ho Hg Hm. rewrite <- (state_skip m), <- Ho. apply (reach_op g o); [done|]. rewrite Ho, run_bind.
  unfold outcome_of in Hm. destruct (m g) as [r g']. simpl in Hm. by subst.
Qed.
End constructed.

Lemma sample_admin_reachable : keys_reachable sample_admin.
Proof. apply reach_constructed. vm_compute. reflexivity. Qed.
Lemma sample_rekeyed_reachable : keys_reachable sample_rekeyed.
Proof.
  apply (reach_returned OpRekey rekey sample_admin sample_conf eq_refl sample_admin_reachable). vm_compute. reflexivity.
Qed.
Lemma sample_loaded_reachable : keys_reachable sample_loaded.
Proof.
  apply (reach_returned (OpLoadMessage (zeros 32) (zeros 32) "hash1" sample_conf 1700000000000) _ sample_rekeyed true
    eq_refl sample_rekeyed_reachable). vm_compute. reflexivity.
Qed.

Lemma keys_reachable_inv_witness :
  length (keys_ (g_keys sample_loaded)) = 1%nat ∧ Forall key_ok (keys_ (g_keys sample_loaded)).
Proof.
  split; [vm_compute; reflexivity|].
  exact (inv_keys_ok _ (inv_list _ (keys_reachable_inv sample_loaded sample_loaded_reachable))).
Defined.

Lemma keys_restart_roundtrip_witness :
  ∃ g', new_group_keys (seed_keypair (seed_of "a")).2 (seed_keypair sample_group_seed).1 None
          (Some (keys_make_dump (g_keys sample_loaded))) (mkGroup blank_keys new_config sample_members) = (Ok tt, g') ∧
    group_keys (g_keys g') = group_keys (g_keys sample_loaded) ∧ length (group_keys (g_keys g')) = 1%nat.
Proof.
  destruct (keys_restart_roundtrip sample_loaded (seed_keypair (seed_of "a")).2 (seed_keypair sample_group_seed).1 None
    new_config sample_members sample_loaded_reachable) as (g' & Hr & _ & Hk & _); [vm_compute; reflexivity|split; [vm_compute; reflexivity|done]|].
  exists g'. rewrite Hk. split; [exact Hr|]. split; [reflexivity|vm_compute; reflexivity].
Defined.

(** A message that is not signed by the group's admins changes nothing. *)
Lemma load_key_message_atomic_witness :
  (load_key_message (zeros 32) (zeros 32) "hash2" (bt_dump [("#", BtStr (zeros 24))]) 0 sample_loaded).2 = sample_loaded.
Proof.
  pose proof (load_key_message_atomic sample_loaded (zeros 32) (zeros 32) "hash2" (bt_dump [("#", BtStr (zeros 24))]) 0
    (reach_inv _ sample_loaded_reachable)) as Ha.
  assert ((load_key_message (zeros 32) (zeros 32) "hash2" (bt_dump [("#", BtStr (zeros 24))]) 0 sample_loaded).1 = Throw config_value_error)
    as E by (vm_compute; reflexivity).
  destruct (load_key_message _ _ _ _ _ _) as [[b|e] g']; [discriminate E|]. injection E as ->.
  destruct Ha as [Ha|Ha]; [discriminate Ha|exact Ha].
Defined.
