(* ===== verification/GroupKeyDelivery.v ===== *)
(** * Delivery of group keys

    What an admin issues ([Keys::rekey], [Keys::key_supplement]) is what the
    other side loads ([Keys::load_key_message]): [src/config/groups/keys.cpp]
    on top of the multi-recipient encryption. *)

From Stdlib Require Import ZArith String Ascii Lia.
From stdpp Require Import base option list strings numbers sorting sets.
From S2P Require Import Prelude OrderedMap Bt Bencode Crypto ConfigData ConfigMessage ConfigCodec State Util ConfigBase ConfigState ConfigLifecycle ConfigFields Ids Records MultiEncrypt GroupMembers GroupKeys GroupKeyMessages GroupKeyState.

(** Key pairs made from a seed sign what they verify, and convert to an
    X25519 key pair. *)
Class KeypairLaws `{Ed25519, SeedKeypair, X25519} := {
  keypair_pk : ∀ seed, size seed = 32 → sk_to_pk (seed_keypair seed).2 = (seed_keypair seed).1;
  keypair_sign : ∀ seed msg, size seed = 32 →
    ∃ sig, sign_detached (seed_keypair seed).2 msg = Some sig ∧ size sig = 64 ∧
           verify_detached (seed_keypair seed).1 msg sig = true;
  keypair_x : ∀ seed, size seed = 32 →
    pk_to_curve25519 (seed_keypair seed).1 = Some (x25519_public (sk_to_curve25519 (seed_keypair seed).2));
}.

Section delivery.
Context `{BtLaws, HashLaws, AeadLaws, X25519Laws, Ed25519, SeedKeypair}.
Context `{!SeedKeypairLaws, !KeypairLaws, OxencLaws, DeterministicRandomLaws}.

(** ** Who is who *)

(** The X25519 keys of the pair made from a seed *)
Definition x_secret (seed : bytes) : bytes := sk_to_curve25519 (seed_keypair seed).2.
Definition x_public (seed : bytes) : bytes := x25519_public (x_secret seed).

Lemma x_secret_size seed : size (x_secret seed) = 32.
Proof. apply sk_to_curve25519_size. Qed.
Lemma x_public_size seed : size (x_public seed) = 32.
Proof. apply x25519_public_size. Qed.

(** [k] checks the signatures of the group made from [gseed]; [admin_of]: it
    also has the group's secret key; [member_of]: it has not, and belongs to
    the user with seed [useed]. *)
Definition reader_of (gseed : bytes) (k : Keys) : Prop :=
  k_sign_pk k = Some (seed_keypair gseed).1 ∧ verifier_ k = pk_verifier (seed_keypair gseed).1.
Definition admin_of (gseed : bytes) (k : Keys) : Prop :=
  reader_of gseed k ∧ k_sign_sk k = Some (seed_keypair gseed).2 ∧ signer_ k = sk_signer (seed_keypair gseed).2.
Definition member_of (gseed useed : bytes) (k : Keys) : Prop :=
  reader_of gseed k ∧ k_sign_sk k = None ∧ user_ed25519_sk k = (seed_keypair useed).2.

Lemma admin_of_admin gseed k : admin_of gseed k → admin k = true.
Proof. intros [[Hpk _] [Hsk _]]. unfold admin. by rewrite Hpk, Hsk. Qed.
Lemma member_of_admin gseed useed k : member_of gseed useed k → admin k = false.
Proof. intros [_ [Hsk _]]. unfold admin. by rewrite Hsk. Qed.

Lemma compute_xpk_seed seed : size seed = 32 → compute_xpk (seed_keypair seed).1 = Ok (x_public seed).
Proof. intros Hs. unfold compute_xpk. by rewrite keypair_x. Qed.

(** ** Signed messages *)
Lemma signed_message_ok gseed k pairs :
  size gseed = 32 → admin_of gseed k →
  ∃ sig, signed_message k pairs = Ok (bt_dump (pairs ++ [("~", BtStr sig)])) ∧ size sig = 64 ∧
    verify_detached (seed_keypair gseed).1 (bt_body pairs) sig = true.
Proof.
  intros Hg (_ & _ & Hs). destruct (keypair_sign gseed (bt_body pairs) Hg) as (sig & Hsig & Hsz & Hv).
  exists sig. split; [|done]. unfold signed_message, keys_sign. rewrite Hs. cbn [sk_signer]. rewrite Hsig, bind_ret, Hsz. done.
Qed.

Lemma verify_tail gseed k pairs sig :
  reader_of gseed k → bt_canon (BtDict (pairs ++ [("~", BtStr sig)])) = true → size sig = 64 →
  verify_detached (seed_keypair gseed).1 (bt_body pairs) sig = true →
  verify_config_sig (bt_dump (pairs ++ [("~", BtStr sig)])) [("~", BtStr sig)] (verifier_ k) false = Ok (Some sig).
Proof.
  intros [_ ->] Hc Hsz Hv. unfold verify_config_sig. simpl. rewrite Hsz, bt_signed_dump by done. simpl. by rewrite Hv.
Qed.

Lemma preserved_state {S A} (I : S → Prop) (m : M S A) s a :
  preserves I m → I s → outcome_of m s = Ok a → I (state_after m s).
Proof. intros Hm Hs Ha. apply Hm; [done|]. unfold outcome_of in Ha. by rewrite Ha. Qed.

(** ** Loading and issuing keys leave the signing keys alone *)
Lemma sig_modify gseed f :
  (∀ k, k_sign_pk (f k) = k_sign_pk k ∧ k_sign_sk (f k) = k_sign_sk k ∧ verifier_ (f k) = verifier_ k ∧ signer_ (f k) = signer_ k) →
  preserves (admin_of gseed) (modify f).
Proof.
  intros Hf. apply preserves_modify. intros k [[? ?] [? ?]]. destruct (Hf k) as (H1' & H2' & H3' & H4').
  split; [split|split]; congruence.
Qed.

Lemma sig_remove_expired gseed : preserves (admin_of gseed) remove_expired.
Proof.
  apply preserves_reading. intros k. apply preserves_bind; [apply preserves_lift|intros r].
  apply preserves_bind; [by apply sig_modify|intros _]. by apply sig_modify.
Qed.

Lemma sig_insert_key gseed hash key : preserves (admin_of gseed) (insert_key hash key).
Proof.
  apply preserves_reading. intros k. destruct (known_key _ _); [by apply sig_modify|].
  apply preserves_bind; [apply preserves_lift|intros [|]; [apply preserves_ret|]].
  repeat (apply preserves_bind; [first [by apply sig_modify|apply sig_remove_expired]|intros _]). by apply sig_modify.
Qed.

Lemma sig_share gseed d : preserves (of_keys (admin_of gseed)) (share_keys d).
Proof.
  apply preserves_reading. intros g. apply preserves_bind; [apply preserves_on_members|]. intros _. apply preserves_on_info.
Qed.

Lemma sig_rekey gseed : preserves (of_keys (admin_of gseed)) rekey.
Proof.
  apply preserves_reading. intros g. apply preserves_bind; [apply preserves_lift|intros [[gen key] conf]].
  apply preserves_bind; [by apply preserves_on_keys, sig_modify|intros _].
  apply preserves_bind; [apply sig_share|intros _].
  apply preserves_bind; [by apply preserves_on_keys, sig_modify|intros _]. apply preserves_ret.
Qed.

Lemma sig_load gseed gs gp hash data ts : preserves (of_keys (admin_of gseed)) (load_key_message gs gp hash data ts).
Proof.
  apply preserves_bind; [apply preserves_gets|intros k]. apply preserves_bind; [apply preserves_lift|intros [ks mg]].
  apply preserves_bind; [apply preserves_on_keys, preserves_reading; intros k'; by apply preserves_when, sig_modify|intros _].
  destruct (is_nil ks).
  - apply preserves_bind; [|intros _; apply preserves_ret]. destruct mg; [|apply preserves_ret]. apply preserves_on_keys.
    repeat (apply preserves_bind; [first [by apply sig_modify|apply sig_remove_expired]|intros _]). by apply sig_modify.
  - apply preserves_bind; [|intros _; apply preserves_bind; [apply sig_share|intros _; apply preserves_ret]].
    apply preserves_on_keys, preserves_forM. intros x _. apply sig_insert_key.
Qed.

(** ** Copies for the recipients *)

(** The copies of one message; recipients with an invalid key are left out. *)
Definition copies (m a A nonce : bytes) (recipients : list bytes) : list bytes :=
  omap (λ r, match encrypt_multi_key a A r true enc_key_member_hash_key with
             | Ok key => Some (encrypt_multi_impl m key nonce)
             | Throw _ => None
             end) recipients.

Lemma encrypt_each_copies m a A nonce rs :
  encrypt_each [m] rs false nonce a A enc_key_member_hash_key true = Ok (copies m a A nonce rs).
Proof.
  induction rs as [|r rs IH]; [done|]. cbn [encrypt_each copies omap list_omap].
  destruct (encrypt_multi_key a A r true enc_key_member_hash_key); [by rewrite IH|exact IH].
Qed.

Lemma encrypt_copies m a A nonce rs :
  size nonce = 24 → size a = 32 → size A = 32 → Forall (λ r, size r = 32) rs →
  encrypt_for_multiple [m] rs nonce a A enc_key_member_hash_key true = Ok (copies m a A nonce rs).
Proof.
  intros Hn Ha HA Hr. unfold encrypt_for_multiple, validate_multi_fields. rewrite Hn, Ha, HA. simpl.
  assert (forallb (λ r, size r =? 32) rs = true) as ->; [|apply encrypt_each_copies].
  apply forallb_forall. intros r Hin%list_elem_of_In. rewrite Forall_forall in Hr. by apply Z.eqb_eq, Hr.
Qed.

Lemma copies_size m a A nonce rs : Forall (λ c, size c = size m + ABYTES) (copies m a A nonce rs).
Proof.
  apply Forall_forall. intros c (r & _ & Hc)%list_elem_of_omap.
  destruct (encrypt_multi_key _ _ _ _ _); [|done]. injection Hc as <-. apply aead_size.
Qed.

(** Among entries that open to [m] or not at all, of which one opens, the
    first one that opens is taken. *)
Lemma decrypt_loop_copies {A} (elem : A → result (option bytes)) (l : list A) (cs : list bytes) tail key nonce m :
  Forall2 (λ x c, elem x = Ok (Some c)) l cs →
  Forall (λ c, decrypt_multi_impl c key nonce = None ∨ decrypt_multi_impl c key nonce = Some m) cs →
  (∃ c, c ∈ cs ∧ decrypt_multi_impl c key nonce = Some m) →
  ∃ rest, decrypt_loop elem (l ++ tail) key nonce = Ok (Some m, rest) ∧ rest ⊆ l ++ tail.
Proof.
  intros Hl. induction Hl as [|x c l cs Hx Hl IH]; intros Hf (c0 & Hin & Hc0); [by apply elem_of_nil in Hin|].
  apply Forall_cons in Hf as [Hc Hf]. cbn [decrypt_loop app]. rewrite Hx, bind_ret. destruct Hc as [Hc|Hc]; rewrite Hc.
  - destruct IH as (rest & -> & Hsub); [done| |].
    + apply elem_of_cons in Hin as [->|Hin]; [congruence|eauto].
    + exists rest. split; [done|]. set_solver.
  - exists (l ++ tail). split; [done|]. set_solver.
Qed.

(** A copy encrypted with one key does not open under another one: what the
    authentication of the ciphertexts is there for. *)
Definition own_copies_only (m a A nonce key : bytes) (recipients : list bytes) : Prop :=
  ∀ r key', r ∈ recipients → encrypt_multi_key a A r true enc_key_member_hash_key = Ok key' → key' ≠ key →
    decrypt_multi_impl (encrypt_multi_impl m key' nonce) key nonce = None.

Lemma recipient_opens {A} (elem : A → result (option bytes)) (f : bytes → A) m gseed useed nonce key rs tail :
  x_public useed ∈ rs →
  encrypt_multi_key (x_secret gseed) (x_public gseed) (x_public useed) true enc_key_member_hash_key = Ok key →
  own_copies_only m (x_secret gseed) (x_public gseed) nonce key rs →
  Forall (λ c, elem (f c) = Ok (Some c)) (copies m (x_secret gseed) (x_public gseed) nonce rs) → size nonce = 24 →
  let l := (f <$> copies m (x_secret gseed) (x_public gseed) nonce rs) ++ tail in
  ∃ rest, decrypt_for_multiple elem l nonce (x_secret useed) (x_public useed) (x_public gseed) enc_key_member_hash_key
            = Ok (Some m, rest) ∧ rest ⊆ l.
Proof.
  intros Hin Hk Hown Helem Hn l. unfold decrypt_for_multiple, validate_multi_fields.
  rewrite Hn, x_secret_size, !x_public_size. simpl. unfold x_public at 1 2. rewrite multi_key_shared.
  fold (x_public gseed) (x_public useed). rewrite Hk, bind_ret.
  eapply decrypt_loop_copies.
  - rewrite Forall2_fmap_l. apply Forall_Forall2_diag, Helem.
  - apply Forall_forall. intros c (r & Hr & Hc)%list_elem_of_omap.
    destruct (encrypt_multi_key _ _ r _ _) as [key'|] eqn:E; [|done]. injection Hc as <-.
    destruct (decide (key' = key)) as [->|Hne]; [right; apply decrypt_multi_open|left; by eapply Hown].
  - exists (encrypt_multi_impl m key nonce). split; [|apply decrypt_multi_open].
    apply list_elem_of_omap. exists (x_public useed). split; [done|]. by rewrite Hk.
Qed.

(** ** The members' public keys *)
Lemma member_pk k m : m_bchat_id m = to_hex k → size k = 33 → is_ok (check_bchat_id (to_hex k) "05") = true →
  bchat_id_pk (m_bchat_id m) "05" = Ok (sdrop 1 k) ∧ size (sdrop 1 k) = 32.
Proof.
  intros -> Hk Hc. unfold bchat_id_pk. apply is_ok_inv in Hc as [[] ->]. rewrite bind_ret, to_hex_digits.
  destruct k as [|c k]; [done|]. cbn [hex_digits sdrop]. destruct k as [|c' k]; [done|].
  split; [f_equal; apply (from_hex_digits (String c' k))|]. unfold size in *. cbn [String.length] in *. lia.
Qed.

Lemma members_from_pks entries ms :
  members_from entries = Ok ms →
  ∃ pks, mapR (λ m, bchat_id_pk (m_bchat_id m) "05") ms = Ok pks ∧ Forall (λ r, size r = 32) pks.
Proof.
  revert ms; induction entries as [|[k v] rest IH]; intros ms Hm; cbn [members_from] in Hm.
  { injection Hm as <-. by exists []. }
  destruct (size k =? 33) eqn:Ek; [|by apply IH]. destruct v as [info| |]; [|by apply IH..]. inv_result.
  match goal with Hr : members_from rest = Ok _ |- _ => destruct (IH _ Hr) as (pks & Hpks & Hf) end.
  match goal with Hn : new_member _ = Ok _ |- _ => unfold new_member in Hn end. inv_result.
  edestruct (member_pk k (member_load info (blank_member (to_hex k)))) as [Hpk Hsz];
    [done|by apply Z.eqb_eq| |].
  { by match goal with Hc : check_bchat_id _ _ = Ok _ |- _ => rewrite Hc end. }
  exists (sdrop 1 k :: pks). split; [|by constructor]. cbn [mapR]. by rewrite Hpk, bind_ret, Hpks.
Qed.

Lemma members_all_pks d ms :
  members_all d = Ok ms →
  ∃ pks, mapR (λ m, bchat_id_pk (m_bchat_id m) "05") ms = Ok pks ∧ Forall (λ r, size r = 32) pks.
Proof.
  unfold members_all. destruct (field_dict _ _); [apply members_from_pks|]. intros [= <-]. by exists [].
Qed.

(** ** The padding *)
Lemma cut_junk_size n junk : (48 * n ≤ String.length junk)%nat → Forall (λ c, size c = 48) (cut_junk n junk).
Proof.
  revert junk; induction n as [|n IH]; intros junk Hn; cbn [cut_junk]; constructor.
  - unfold size. rewrite length_stake. lia.
  - apply IH. rewrite length_sdrop. lia.
Qed.
Lemma cut_junk_length n junk : length (cut_junk n junk) = n.
Proof. revert junk; induction n as [|n IH]; intros junk; cbn [cut_junk length]; [done|by rewrite IH]. Qed.

Lemma junk_entries_ok h1 sk n :
  0 ≤ n → Forall (λ c, size c = 48) (junk_entries h1 sk n) ∧
  (n + Z.of_nat (length (junk_entries h1 sk n))) mod MESSAGE_KEY_MULTIPLE = 0.
Proof.
  intros Hn. unfold junk_entries. destruct (Z.eqb_spec (n mod MESSAGE_KEY_MULTIPLE) 0) as [E|E].
  { split; [by constructor|]. by rewrite Z.add_0_r. }
  pose proof (Z.mod_pos_bound n MESSAGE_KEY_MULTIPLE) as Hb. unfold MESSAGE_KEY_MULTIPLE in *. split.
  - apply cut_junk_size. pose proof (randombytes_deterministic_size (48 * (45 - n mod 45))
      (generichash 32 junk_seed_hash_key (h1 +:+ sk)) ltac:(lia)) as Hs. unfold size in Hs. lia.
  - rewrite cut_junk_length, Z2Nat.id by lia. symmetry. apply (Z.mod_unique _ _ (n / 45 + 1)); [lia|].
    pose proof (Z.div_mod n 45). lia.
Qed.

(** ** A new key *)

(** The parts of the message [rekey] makes *)
Definition rekey_key (gseed : bytes) (ms : list member) (gen : Z) : bytes :=
  stake 32 (rekey_hash (m_bchat_id <$> ms) gen (generichash 32 (stake 64 seed_hash_key) (stake 32 (seed_keypair gseed).2))).
Definition rekey_nonce (gseed : bytes) (ms : list member) (gen : Z) : bytes :=
  sdrop 32 (rekey_hash (m_bchat_id <$> ms) gen (generichash 32 (stake 64 seed_hash_key) (stake 32 (seed_keypair gseed).2))).
Definition admin_copy (gseed : bytes) (ms : list member) (gen : Z) : bytes :=
  aead_encrypt (generichash 32 (stake 64 enc_key_admin_hash_key) (stake 32 (seed_keypair gseed).2))
    (rekey_nonce gseed ms gen) (rekey_key gseed ms gen).
Definition rekey_pairs (gseed : bytes) (ms : list member) (gen : Z) (enc junk : list bytes) : bt_dict :=
  [("#", BtStr (rekey_nonce gseed ms gen)); ("G", BtInt gen); ("K", BtStr (admin_copy gseed ms gen));
   ("k", BtList (BtStr <$> enc ++ junk))].

Lemma rekey_sizes gseed ms gen : size (rekey_key gseed ms gen) = 32 ∧ size (rekey_nonce gseed ms gen) = 24.
Proof. apply rekey_hash_sizes. Qed.

Lemma rekey_message_run gseed k mem ms pks gen :
  size gseed = 32 → admin_of gseed k → members_all mem = Ok ms → next_generation k = Ok gen →
  mapR (λ m, bchat_id_pk (m_bchat_id m) "05") ms = Ok pks → Forall (λ r, size r = 32) pks →
  let enc := copies (rekey_key gseed ms gen) (x_secret gseed) (x_public gseed) (rekey_nonce gseed ms gen) pks in
  ∃ junk sig, rekey_message k mem =
      Ok (gen, rekey_key gseed ms gen, bt_dump (rekey_pairs gseed ms gen enc junk ++ [("~", BtStr sig)])) ∧
    Forall (λ c, size c = 48) junk ∧ Z.of_nat (length (enc ++ junk)) mod MESSAGE_KEY_MULTIPLE = 0 ∧ size sig = 64 ∧
    verify_detached (seed_keypair gseed).1 (bt_body (rekey_pairs gseed ms gen enc junk)) sig = true.
Proof.
  intros Hg Ha Hms Hgen Hpks Hsz enc. destruct (rekey_sizes gseed ms gen) as [Hk Hn].
  set (h1 := rekey_hash (m_bchat_id <$> ms) gen
    (generichash 32 (stake 64 seed_hash_key) (stake 32 (seed_keypair gseed).2))).
  set (junk := junk_entries h1 (seed_keypair gseed).2 (Z.of_nat (length enc))).
  destruct (junk_entries_ok h1 (seed_keypair gseed).2 (Z.of_nat (length enc)) ltac:(lia)) as [Hj1 Hj2].
  destruct (signed_message_ok gseed k (rekey_pairs gseed ms gen enc junk) Hg Ha) as (sig & Hsig & Hs1 & Hs2).
  exists junk, sig. split_and!; [|done|by rewrite length_app, Nat2Z.inj_add|done..].
  unfold rekey_message, keys_seed_hash. rewrite (admin_of_admin gseed k Ha). destruct Ha as ([Hpk _] & Hsk & _).
  rewrite Hpk, Hsk. cbn [require from_option_or]. rewrite !bind_ret, compute_xpk_seed, bind_ret by done.
  rewrite bind_ret, Hms, bind_ret, Hgen, !bind_ret, Hpks, bind_ret.
  change (encrypt_for_multiple [stake 32 h1] pks (sdrop 32 h1) (sk_to_curve25519 (seed_keypair gseed).2) (x_public gseed))
    with (encrypt_for_multiple [rekey_key gseed ms gen] pks (rekey_nonce gseed ms gen) (x_secret gseed) (x_public gseed)).
  rewrite encrypt_copies; [|done|apply x_secret_size|apply x_public_size|done]. rewrite bind_ret. fold enc.
  change (signed_message k _) with (signed_message k (rekey_pairs gseed ms gen enc junk)). by rewrite Hsig.
Qed.

(** ** Reading it *)
Lemma mapR_total {A B} (f : A → result B) l : Forall (λ x, is_ok (f x) = true) l → ∃ r, mapR f l = Ok r.
Proof.
  induction 1 as [|x l Hx Hl [r IH]]; [by exists []|]. apply is_ok_inv in Hx as [y Hy].
  exists (y :: r). cbn [mapR]. by rewrite Hy, bind_ret, IH.
Qed.

Lemma decrypt_loop_skips {A} (elem : A → result (option bytes)) l key nonce :
  Forall (λ x, elem x = Ok None) l → decrypt_loop elem l key nonce = Ok (None, []).
Proof. induction 1 as [|x l Hx Hl IH]; [done|]. cbn [decrypt_loop]. by rewrite Hx, bind_ret. Qed.

Lemma next_member_key_ok skip c : size c = 48 → next_member_key skip (BtStr c) = Ok (if skip then None else Some c).
Proof. intros Hc. unfold next_member_key. cbn [consume_str]. by rewrite bind_ret, Hc. Qed.

Lemma entries_total l rest :
  Forall (λ c, size c = 48) l → rest ⊆ (BtStr <$> l) → ∃ r, mapR (next_member_key false) rest = Ok r.
Proof.
  intros Hl Hsub. apply mapR_total, Forall_forall. intros v Hv.
  apply Hsub in Hv as (c & -> & Hc)%list_elem_of_fmap. rewrite Forall_forall in Hl. by rewrite next_member_key_ok by by apply Hl.
Qed.

(** The key is the one the reader has found, as an admin or among the copies. *)
Lemma read_rekey_body gseed ms gen k enc junk sig ts t xsk xpk found plaintext rest :
  let l := BtStr <$> enc ++ junk in
  size gseed = 32 → in_int64 gen = true → 0 ≤ gen → sys_time_from_ms ts = Ok t →
  Forall (λ c, size c = 48) (enc ++ junk) → Z.of_nat (length (enc ++ junk)) mod MESSAGE_KEY_MULTIPLE = 0 →
  (if admin k then
     key ← keys_seed_hash enc_key_admin_hash_key k;
     p ← try_decrypting (admin_copy gseed ms gen) (rekey_nonce gseed ms gen) key;
     p ← from_option_or config_value_error p; Ok (Some p)
   else Ok None) = Ok found →
  decrypt_for_multiple (next_member_key (is_some found)) l (rekey_nonce gseed ms gen) xsk xpk (x_public gseed)
    enc_key_member_hash_key = Ok (plaintext, rest) → rest ⊆ l →
  (match plaintext with Some p => Some p | None => found end) = Some (rekey_key gseed ms gen) →
  read_body k [("G", BtInt gen); ("K", BtStr (admin_copy gseed ms gen)); ("k", BtList l); ("~", BtStr sig)] ts
    (rekey_nonce gseed ms gen) xsk xpk (x_public gseed) =
    Ok ([mkKey (rekey_key gseed ms gen) t gen], None, [("~", BtStr sig)]).
Proof.
  intros l Hg Hgen Hpos Ht Hsz Hmod Hfound Hdec Hsub Hkey. destruct (rekey_sizes gseed ms gen) as [Hk Hn].
  unfold read_body. simpl skip_until. cbv iota. unfold read_full, need. rewrite Ht. simpl.
  rewrite consume_int64_fits by done. simpl. rewrite (proj2 (Z.leb_le _ _)) by done. simpl.
  assert (size (admin_copy gseed ms gen) = 48) as ->. { unfold admin_copy. by rewrite aead_size, Hk. }
  simpl. match goal with |- context [mbind _ (if admin k then ?a else _)] => change (if admin k then a else Ok None) with
    (if admin k then
     key ← keys_seed_hash enc_key_admin_hash_key k;
     p ← try_decrypting (admin_copy gseed ms gen) (rekey_nonce gseed ms gen) key;
     p ← from_option_or config_value_error p; Ok (Some p)
   else Ok None) end.
  rewrite Hfound. simpl. fold l. rewrite Hdec. simpl.
  destruct (entries_total (enc ++ junk) rest Hsz Hsub) as [r ->]. simpl.
  assert (length l = length (enc ++ junk)) as -> by apply length_fmap. rewrite Hmod. simpl. rewrite Hkey. by rewrite Hk.
Qed.

(** A signed message whose body can be read is accepted. *)
Lemma read_signed gs gp gseed k nonce body sig ts xsk xpk ks mg :
  let pairs := ("#", BtStr nonce) :: body in
  size gseed = 32 → reader_of gseed k → bt_canon (BtDict (pairs ++ [("~", BtStr sig)])) = true → size sig = 64 →
  verify_detached (seed_keypair gseed).1 (bt_body pairs) sig = true →
  member_x_keys gs gp k = Ok (xsk, xpk) →
  read_body k (body ++ [("~", BtStr sig)]) ts nonce xsk xpk (x_public gseed) = Ok (ks, mg, [("~", BtStr sig)]) →
  read_key_message gs gp k (bt_dump (pairs ++ [("~", BtStr sig)])) ts = Ok (ks, mg).
Proof.
  intros pairs Hg Hr Hc Hsz Hv Hx Hb. unfold read_key_message. rewrite bt_open_dump, bind_ret.
  pose proof (verify_tail gseed k pairs sig Hr Hc Hsz Hv) as Hvt. destruct Hr as [Hpk Hver]. rewrite Hpk, Hver in *.
  cbn [is_some andb require pk_verifier from_option_or]. rewrite !bind_ret, compute_xpk_seed, bind_ret by done.
  rewrite bt_load_dump, bind_ret by done. unfold need. subst pairs. simpl. rewrite Hx. simpl. rewrite Hb. simpl.
  simpl in Hvt. by rewrite Hvt.
Qed.

Lemma member_x_keys_member gs gp gseed useed k :
  size useed = 32 → member_of gseed useed k → member_x_keys gs gp k = Ok (x_secret useed, x_public useed).
Proof.
  intros Hu Hm. unfold member_x_keys. rewrite (member_of_admin gseed useed k Hm). destruct Hm as (_ & _ & ->).
  destruct (seed_keypair_form useed) as [_ Hf]. rewrite Hf at 1.
  replace 32%nat with (String.length useed) by (unfold size in Hu; lia). rewrite sdrop_app, compute_xpk_seed by done. done.
Qed.

Lemma rekey_pairs_canon gseed ms gen enc junk sig :
  in_int64 gen = true → bt_canon (BtDict (rekey_pairs gseed ms gen enc junk ++ [("~", BtStr sig)])) = true.
Proof.
  intros Hgen. pose proof (strings_canon (enc ++ junk)) as Hc. unfold rekey_pairs. simpl in Hc |- *.
  by rewrite Hgen, Hc.
Qed.

(** A message that [rekey] made, with what its copies and its signature are *)
Section issued.
Context (gseed : bytes) (ms : list member) (gen : Z) (pks junk : list bytes) (sig : bytes).
Let key := rekey_key gseed ms gen.
Let nonce := rekey_nonce gseed ms gen.
Let enc := copies key (x_secret gseed) (x_public gseed) nonce pks.
Let pairs := rekey_pairs gseed ms gen enc junk.
Context (Hg : size gseed = 32) (Hgen : in_int64 gen = true) (Hpos : 0 ≤ gen).
Context (Hjunk : Forall (λ c, size c = 48) junk) (Hmod : Z.of_nat (length (enc ++ junk)) mod MESSAGE_KEY_MULTIPLE = 0).
Context (Hsig : size sig = 64) (Hverify : verify_detached (seed_keypair gseed).1 (bt_body pairs) sig = true).

Lemma issued_sizes : Forall (λ c, size c = 48) (enc ++ junk).
Proof.
  apply Forall_app. split; [|done]. eapply Forall_impl; [apply copies_size|]. intros c Hc. cbv beta in Hc.
  rewrite Hc. unfold key. by rewrite (proj1 (rekey_sizes gseed ms gen)).
Qed.

Lemma admin_reads gs gp k ts t :
  admin_of gseed k → size gs = 32 → size gp = 32 → scalarmult_curve25519 gs (x_public gseed) ≠ None →
  sys_time_from_ms ts = Ok t →
  read_key_message gs gp k (bt_dump (pairs ++ [("~", BtStr sig)])) ts = Ok ([mkKey key t gen], None).
Proof.
  intros Ha Hgs Hgp Hsm Ht. pose proof (admin_of_admin _ _ Ha) as Hadm. destruct (rekey_sizes gseed ms gen) as [Hk Hn].
  eapply (read_signed gs gp gseed k); [done|apply Ha|by apply rekey_pairs_canon|done..| |].
  { unfold member_x_keys. by rewrite Hadm. }
  eapply (read_rekey_body gseed ms gen k enc junk sig ts t gs gp (Some key) None []); try done; [apply issued_sizes|..].
  - rewrite Hadm. unfold keys_seed_hash. destruct Ha as (_ & -> & _). rewrite bind_ret. unfold try_decrypting.
    rewrite Hn. change (24 <=? 24) with true. cbn [require]. rewrite !bind_ret. unfold admin_copy.
    rewrite (stake_all 24 (rekey_nonce gseed ms gen)) by (unfold size in Hn; lia).
    by rewrite aead_roundtrip.
  - unfold decrypt_for_multiple, validate_multi_fields. rewrite Hn, Hgs, Hgp, x_public_size. simpl.
    unfold encrypt_multi_key. destruct (scalarmult_curve25519 gs (x_public gseed)); [|done]. simpl.
    apply decrypt_loop_skips, Forall_fmap. eapply Forall_impl; [apply issued_sizes|]. intros c Hc. by apply next_member_key_ok.
  - apply list_subseteq_nil.
Qed.

Lemma member_reads gs gp useed k ts t shared_key :
  size useed = 32 → member_of gseed useed k → x_public useed ∈ pks →
  encrypt_multi_key (x_secret gseed) (x_public gseed) (x_public useed) true enc_key_member_hash_key = Ok shared_key →
  own_copies_only key (x_secret gseed) (x_public gseed) nonce shared_key pks → sys_time_from_ms ts = Ok t →
  read_key_message gs gp k (bt_dump (pairs ++ [("~", BtStr sig)])) ts = Ok ([mkKey key t gen], None).
Proof.
  intros Hu Hm Hin Hkey Hown Ht. destruct (rekey_sizes gseed ms gen) as [Hk Hn].
  destruct (recipient_opens (next_member_key false) BtStr key gseed useed nonce shared_key pks (BtStr <$> junk))
    as (rest & Hdec & Hsub); [done..| |done|].
  { pose proof issued_sizes as [He _]%Forall_app. eapply Forall_impl; [exact He|]. intros c Hc. by apply next_member_key_ok. }
  fold enc in Hdec, Hsub. rewrite <- fmap_app in Hdec, Hsub.
  eapply (read_signed gs gp gseed k); [done|apply Hm|by apply rekey_pairs_canon|done..| |].
  { by apply (member_x_keys_member gs gp gseed useed). }
  eapply (read_rekey_body gseed ms gen k enc junk sig ts t _ _ None (Some key) rest); try done; [apply issued_sizes|].
  by rewrite (member_of_admin _ _ _ Hm).
Qed.
End issued.

Lemma next_generation_ok k gen :
  Forall (λ key, 0 ≤ ki_generation key) (keys_ k) → next_generation k = Ok gen → in_int64 gen = true ∧ 0 ≤ gen.
Proof.
  unfold next_generation. intros Hpos Hgen. destruct (last (keys_ k)) as [b|] eqn:El; [|by injection Hgen as <-].
  unfold add_i64 in Hgen. destruct (in_int64 _) eqn:Ei; [|done]. injection Hgen as <-. split; [done|].
  apply last_Some_elem_of in El. rewrite Forall_forall in Hpos. pose proof (Hpos b El) as Hb. cbv beta in Hb. lia.
Qed.

Lemma mapR_elem {A B} (f : A → result B) l l' x y : mapR f l = Ok l' → x ∈ l → f x = Ok y → y ∈ l'.
Proof.
  revert l'; induction l as [|a l IH]; intros l' Hl Hx Hy; [by apply elem_of_nil in Hx|]. cbn [mapR] in Hl. inv_result.
  apply elem_of_cons in Hx as [->|Hx]; [rewrite Hy in *; inv_result; left|right; by apply IH].
Qed.

(** C11 (functional): a new group key reaches everybody.  Issuing a key always
    succeeds for an admin of a group whose members can be listed (unless the
    generation overflows); any other admin who loads the message gets the key
    under its generation, and so does every member on the list, provided that
    no copy meant for another member opens under the key of this one. *)
Theorem rekey_delivers gseed k mem ms gen :
  size gseed = 32 → admin_of gseed k → Forall (λ key, 0 ≤ ki_generation key) (keys_ k) →
  members_all mem = Ok ms → next_generation k = Ok gen →
  ∃ key conf, rekey_message k mem = Ok (gen, key, conf) ∧ size key = 32 ∧
    (∀ gs gp k2 ts t, admin_of gseed k2 → size gs = 32 → size gp = 32 →
       scalarmult_curve25519 gs (x_public gseed) ≠ None → sys_time_from_ms ts = Ok t →
       read_key_message gs gp k2 conf ts = Ok ([mkKey key t gen], None)) ∧
    (∀ gs gp useed k2 ts t m shared_key pks, size useed = 32 → member_of gseed useed k2 → m ∈ ms →
       bchat_id_pk (m_bchat_id m) "05" = Ok (x_public useed) →
       mapR (λ m, bchat_id_pk (m_bchat_id m) "05") ms = Ok pks →
       encrypt_multi_key (x_secret gseed) (x_public gseed) (x_public useed) true enc_key_member_hash_key = Ok shared_key →
       own_copies_only key (x_secret gseed) (x_public gseed) (rekey_nonce gseed ms gen) shared_key pks →
       sys_time_from_ms ts = Ok t →
       read_key_message gs gp k2 conf ts = Ok ([mkKey key t gen], None)).
Proof.
  intros Hg Ha Hpos Hms Hgen. destruct (members_all_pks _ _ Hms) as (pks & Hpks & Hsz).
  destruct (next_generation_ok _ _ Hpos Hgen) as [Hint Hge0].
  destruct (rekey_message_run gseed k mem ms pks gen Hg Ha Hms Hgen Hpks Hsz) as (junk & sig & Hrun & Hj & Hmod & Hs1 & Hs2).
  eexists _, _. split; [exact Hrun|]. split; [apply rekey_sizes|]. split.
  - intros. by apply admin_reads.
  - intros gs gp useed k2 ts t m sk pks' Hu Hm Hin Hpk Hpks' Hk Hown Ht. rewrite Hpks in Hpks'. injection Hpks' as <-.
    apply (member_reads gseed ms gen pks junk sig Hg Hint Hge0 Hj Hmod Hs1 Hs2 gs gp useed k2 ts t sk); try done.
    by eapply (mapR_elem _ _ _ m).
Qed.
End delivery.

(** ** Examples *)
#[global] Instance checksum_keypair_sound : KeypairLaws.
Proof.
  assert (∀ seed, size seed = 32 → sdrop 32 (seed_keypair seed).2 = (seed_keypair seed).1) as Hd.
  { intros seed Hs. unfold seed_keypair, checksum_keypair. cbn [snd fst].
    replace 32%nat with (String.length seed) by (unfold size in Hs; lia). apply sdrop_app. }
  split; intros seed; [exact (Hd seed)|..].
  - intros msg Hs. exists (generichash 64 (sdrop 32 (seed_keypair seed).2) msg). split; [done|]. rewrite (Hd seed Hs).
    split; [by apply generichash_size|]. by apply String.eqb_eq.
  - intros Hs. unfold pk_to_curve25519, x25519_public, sk_to_curve25519, checksum_x25519. by rewrite (Hd seed Hs).
Qed.

Definition sample_list : list member :=
  match members_all (data_of (m_config sample_members)) with Ok ms => ms | Throw _ => [] end.

Lemma sample_admin_of : admin_of sample_group_seed (g_keys sample_admin).
Proof. split; [split|split]; reflexivity. Qed.
Lemma sample_member_of : member_of sample_group_seed sample_user_seed (g_keys sample_member_group).
Proof. split; [split|split]; reflexivity. Qed.

(** The member of the group reads the key that the admin issued. *)
Lemma rekey_delivers_witness :
  ∃ key conf, rekey_message (g_keys sample_admin) (data_of (m_config sample_members)) = Ok (0, key, conf) ∧
    read_key_message "" "" (g_keys sample_member_group) conf 1700000000000 =
      Ok ([mkKey key (1700000000000 * TICKS_PER_MS) 0], None).
Proof.
  destruct (rekey_delivers sample_group_seed (g_keys sample_admin) (data_of (m_config sample_members)) sample_list 0)
    as (key & conf & Hr & _ & _ & Hm);
    [reflexivity|exact sample_admin_of|constructor|vm_compute; reflexivity|reflexivity|].
  exists key, conf. split; [exact Hr|].
  destruct (encrypt_multi_key (x_secret sample_group_seed) (x_public sample_group_seed) (x_public sample_user_seed) true
    enc_key_member_hash_key) as [sk|e] eqn:Esk; [|discriminate Esk].
  apply (Hm "" "" sample_user_seed (g_keys sample_member_group) 1700000000000 (1700000000000 * TICKS_PER_MS)
    (blank_member sample_user_id) sk [x_public sample_user_seed]);
    [reflexivity|exact sample_member_of| |vm_compute; reflexivity..|exact Esk| |reflexivity].
  - vm_compute. left.
  - intros r key' Hin Hk Hne. apply list_elem_of_singleton in Hin as ->. rewrite Esk in Hk.
    exfalso. apply Hne. injection Hk as Hk. symmetry. exact Hk.
Defined.
