(* ===== verification/GroupKeyHistory.v ===== *)
(** * The key history of a group

    How the key list ([Keys::insert_key], [Keys::remove_expired] of
    [src/config/groups/keys.cpp]) takes in many keys: in any order, and the
    whole history that an admin hands to a new member
    ([Keys::key_supplement]). *)

From Stdlib Require Import ZArith String Ascii Lia.
From stdpp Require Import base option list strings numbers sorting sets.
From S2P Require Import Prelude OrderedMap Bt Bencode Crypto ConfigData ConfigMessage ConfigCodec State Util ConfigBase ConfigState ConfigLifecycle ConfigFields Ids Records MultiEncrypt GroupMembers GroupKeys GroupKeyMessages GroupKeyState GroupKeyDelivery.

(** ** Lists in which nothing expires *)

(** The time at which a key expires can be represented. *)
Definition expiry_fits (k : key_info) : Prop := in_int64 (ki_timestamp k + KEY_EXPIRY) = true.

Lemma lapse_settled back l g seg :
  seg ≠ [] → Forall (λ k, ki_generation k = g) seg → Forall expiry_fits l → unexpired back (seg ++ l) →
  lapse g (seg ++ l) l back = Ok (seg ++ l).
Proof.
  revert g seg; induction l as [|it2 l IH]; intros g seg Hne Hseg Hfit Hset; [done|].
  apply Forall_cons in Hfit as [Hf Hfit]. cbn [lapse]. destruct (Z.eqb_spec (ki_generation it2) g) as [Hg|Hg].
  - assert (seg ++ it2 :: l = (seg ++ [it2]) ++ l) as Eq by by rewrite <- app_assoc.
    rewrite Eq in Hset |- *. apply IH; [by destruct seg| |done..].
    apply Forall_app. split; [done|]. by apply Forall_singleton.
  - unfold add_i64. rewrite Hf, bind_ret. destruct (Z.ltb_spec (ki_timestamp it2 + KEY_EXPIRY) back) as [Hlt|]; [|done].
    exfalso. destruct seg as [|k0 mid]; [done|]. apply Forall_cons in Hseg as [H0 Hseg].
    specialize (Hset k0 mid it2 l eq_refl). rewrite H0 in Hset. specialize (Hset Hseg Hg). lia.
Qed.

Lemma lapsed_end_settled l : Forall expiry_fits l → unexpired (back_time l) l → lapsed_end l = Ok l.
Proof.
  intros Hf Hs. destruct l as [|a [|b l]]; [done..|]. cbn [lapsed_end]. apply Forall_cons in Hf as [_ Hf].
  by apply (lapse_settled _ (b :: l) _ [a]); [|apply Forall_singleton| |].
Qed.

(** ** One insertion that drops nothing *)
Lemma insert_key_run hash key k :
  key ∉ keys_ k → known_key key (keys_ k) = false → stale_key key (keys_ k) = Ok false →
  Forall expiry_fits (sinsert key (keys_ k)) → unexpired (back_time (sinsert key (keys_ k))) (sinsert key (keys_ k)) →
  ∃ k', insert_key hash key k = (Ok tt, k') ∧ keys_ k' = sinsert key (keys_ k) ∧
    is_pending k' = is_pending k ∧ pending_key_ k' = pending_key_ k ∧ k_sign_sk k' = k_sign_sk k ∧ k_sign_pk k' = k_sign_pk k.
Proof.
  intros Hn Hk Hst Hf Hs. unfold insert_key. rewrite run_mget, Hk, run_lift, Hst, !run_modify, run_bind.
  match goal with |- context [remove_expired ?a] => rewrite (remove_expired_run a (sinsert key (keys_ k))) end.
  - eexists. by split_and!.
  - cbn [keys_ put_keys put_active]. rewrite insert_lower_bound_set by done. by apply lapsed_end_settled.
Qed.

(** ** Any order

    Keys whose times are all closer together than the expiry *)
Definition in_window (l : list key_info) : Prop :=
  Forall expiry_fits l ∧ ∀ a b, a ∈ l → b ∈ l → ki_timestamp b ≤ ki_timestamp a + KEY_EXPIRY.

Lemma in_window_sub l l' : in_window l → (∀ x, x ∈ l' → x ∈ l) → in_window l'.
Proof.
  intros [Hf Hw] Hsub. split; [|eauto]. rewrite Forall_forall in *. eauto.
Qed.

Lemma back_time_elem l : l ≠ [] → ∃ b, b ∈ l ∧ back_time l = ki_timestamp b.
Proof.
  intros Hl. unfold back_time. destruct (last l) as [b|] eqn:E; [|by apply last_None in E].
  exists b. by apply last_Some_elem_of in E.
Qed.

Lemma in_window_settled l : in_window l → unexpired (back_time l) l.
Proof.
  intros [_ Hw] k0 mid k2 post -> _ _. destruct (back_time_elem (k0 :: mid ++ k2 :: post)) as (b & Hb & ->); [done|].
  apply Hw; [set_solver|done].
Qed.

Lemma in_window_fresh key l : in_window (key :: l) → stale_key key l = Ok false.
Proof.
  intros [Hf Hw]. unfold stale_key. destruct l as [|front [|second l]]; [done..|].
  destruct (last (front :: second :: l)) as [back|] eqn:E; [|done]. destruct (_ && _); [|done].
  apply last_Some_elem_of in E. rewrite Forall_forall in Hf. unfold add_i64. rewrite (Hf front) by set_solver.
  rewrite bind_ret. f_equal. apply Z.ltb_ge, Hw; set_solver.
Qed.

Lemma distinct_known key l : distinct_keys (key :: l) → known_key key l = false.
Proof.
  unfold distinct_keys. rewrite fmap_cons. intros [Hn _]%NoDup_cons. apply not_true_iff_false.
  intros (x & Hx & Hg & Hk)%known_key_spec. apply Hn, list_elem_of_fmap. exists x. split; [by rewrite Hg, Hk|done].
Qed.

Lemma sinsert_perm key (l : list key_info) : key ∉ l → sinsert key l ≡ₚ key :: l.
Proof.
  induction l as [|x l IH]; intros Hn; [done|]. apply not_elem_of_cons in Hn as [? ?]. cbn [sinsert].
  destruct (kcmp key x) eqn:E; [by apply kcmp_eq in E|done|]. rewrite IH by done. apply Permutation_swap.
Qed.

Definition take_in (msgs : list (bytes * key_info)) : M Keys () := forM_ msgs (λ m, insert_key m.1 m.2).

Lemma take_in_run msgs k :
  ssorted (keys_ k) = true → distinct_keys ((snd <$> msgs) ++ keys_ k) → in_window ((snd <$> msgs) ++ keys_ k) →
  ∃ k', take_in msgs k = (Ok tt, k') ∧ ssorted (keys_ k') = true ∧ keys_ k' ≡ₚ (snd <$> msgs) ++ keys_ k ∧
    is_pending k' = is_pending k ∧ pending_key_ k' = pending_key_ k ∧ admin k' = admin k.
Proof.
  revert k; induction msgs as [|[hash key] msgs IH]; intros k Hs Hd Hw; [by exists k|].
  rewrite fmap_cons in Hd, Hw. cbn [snd app] in Hd, Hw. unfold take_in. cbn [forM_ fst snd]. rewrite run_bind.
  assert (distinct_keys (key :: keys_ k)) as Hd1.
  { unfold distinct_keys in *. rewrite !fmap_cons, fmap_app in *. apply NoDup_cons in Hd as [Hn Hd].
    apply NoDup_app in Hd as (_ & _ & Hd). apply NoDup_cons. split; [|done].
    intros Hin. apply Hn, elem_of_app. by right. }
  assert (in_window (key :: keys_ k)) as Hw1 by (eapply in_window_sub; [exact Hw|set_solver]).
  assert (key ∉ keys_ k) as Hn.
  { intros Hin. pose proof (distinct_known _ _ Hd1) as Hkn. apply not_true_iff_false in Hkn. apply Hkn, known_key_spec. eauto. }
  pose proof (sinsert_perm key (keys_ k) Hn) as Hperm.
  assert (in_window (sinsert key (keys_ k))) as Hw2.
  { eapply in_window_sub; [exact Hw1|]. intros x. by rewrite Hperm. }
  destruct (insert_key_run hash key k) as (k1 & -> & Hk1 & Hp1 & Hp2 & Hsk & Hpk);
    [done|by apply distinct_known|by apply in_window_fresh|apply Hw2|by apply in_window_settled|].
  destruct (IH k1) as (k' & Hrun & Hs' & Hperm' & Hq1 & Hq2 & Hadm).
  - rewrite Hk1. by apply ssorted_insert.
  - unfold distinct_keys in *. rewrite Hk1, fmap_app. rewrite Hperm, fmap_cons, <- Permutation_middle, <- fmap_app. done.
  - eapply in_window_sub; [exact Hw|]. intros x. rewrite Hk1, elem_of_app, Hperm. set_solver.
  - exists k'. split_and!; [exact Hrun|done| |congruence..|].
    + rewrite Hperm', Hk1, Hperm, fmap_cons. cbn [snd app]. by rewrite <- Permutation_middle.
    + rewrite Hadm. unfold admin. by rewrite Hsk, Hpk.
Qed.

Lemma sorted_perm_eq (l1 l2 : list key_info) : ssorted l1 = true → ssorted l2 = true → l1 ≡ₚ l2 → l1 = l2.
Proof.
  intros H1 H2 Hp. apply ssorted_ext; [done..|]. intros x. apply eq_bool_prop_intro. rewrite !Is_true_true, !smem_In.
  by rewrite Hp.
Qed.

(** ** Any order, with expiry

    Keys of later generations have later times. *)
Definition in_order (s : list key_info) : Prop :=
  ∀ a b, a ∈ s → b ∈ s → ki_generation a < ki_generation b → ki_timestamp a ≤ ki_timestamp b.

(** A key is superseded when a later generation started longer than the
    expiry before some other key. *)
Definition superseded (s : list key_info) (x : key_info) : Prop :=
  ∃ y b, y ∈ s ∧ b ∈ s ∧ ki_generation x < ki_generation y ∧ ki_timestamp y + KEY_EXPIRY < ki_timestamp b.

#[local] Instance superseded_dec s x : Decision (superseded s x).
Proof.
  refine (cast_if (decide (Exists (λ y, ki_generation x < ki_generation y ∧
    Exists (λ b, ki_timestamp y + KEY_EXPIRY < ki_timestamp b) s) s))).
  - abstract (match goal with H : Exists _ _ |- _ => apply Exists_exists in H as (y & ? & ? & (b & ? & ?)%Exists_exists) end;
      by exists y, b).
  - abstract (intros (y & b & ? & ? & ? & ?); match goal with H : ¬ _ |- _ => apply H end;
      apply Exists_exists; exists y; repeat split; [done..|]; apply Exists_exists; by exists b).
Defined.

(** The key list holds the keys seen that are not superseded. *)
Definition holds_seen (s l : list key_info) : Prop :=
  ssorted l = true ∧ ∀ x, x ∈ l ↔ x ∈ s ∧ ¬ superseded s x.

Lemma in_order_sub s s' : in_order s → (∀ x, x ∈ s' → x ∈ s) → in_order s'.
Proof. unfold in_order. eauto. Qed.

Lemma superseded_sub s s' x : superseded s x → (∀ y, y ∈ s → y ∈ s') → superseded s' x.
Proof. intros (y & b & ? & ? & ? & ?) Hsub. exists y, b. auto. Qed.

Lemma earlier_time s a b : in_order s → a ∈ s → b ∈ s → a ≺ b → ki_timestamp a ≤ ki_timestamp b.
Proof.
  intros Ho Ha Hb Hlt. destruct (decide (ki_generation a < ki_generation b)); [by apply Ho|].
  revert Hlt. simpl. unfold pair_cmp; simpl.
  destruct (Z.compare_spec (ki_generation a) (ki_generation b)); [|lia|done]. simpl. unfold pair_cmp; simpl.
  destruct (Z.compare_spec (ki_timestamp a) (ki_timestamp b)); [lia..|done].
Qed.

(** Some key seen has the latest time; it is not superseded. *)
Lemma latest_key s : s ≠ [] → ∃ m, m ∈ s ∧ ∀ b, b ∈ s → ki_timestamp b ≤ ki_timestamp m.
Proof.
  induction s as [|x s IH]; intros Hs; [done|]. destruct (decide (s = [])) as [->|Hne].
  { exists x. split; [left|]. intros b ->%list_elem_of_singleton. lia. }
  destruct (IH Hne) as (m & Hm & Hle). destruct (decide (ki_timestamp x ≤ ki_timestamp m)).
  - exists m. split; [by right|]. intros b [->|Hb]%elem_of_cons; [done|auto].
  - exists x. split; [left|]. intros b [->|Hb]%elem_of_cons; [lia|]. specialize (Hle b Hb). lia.
Qed.

Lemma latest_not_superseded s m :
  in_order s → m ∈ s → (∀ b, b ∈ s → ki_timestamp b ≤ ki_timestamp m) → ¬ superseded s m.
Proof.
  intros Ho Hm Hle (y & b & Hy & Hb & Hg & Ht). pose proof (Ho m y Hm Hy Hg). specialize (Hle b Hb).
  unfold KEY_EXPIRY, TICKS_PER_MS in Ht. lia.
Qed.

(** What supersedes a key may be taken among the keys that are kept. *)
Lemma superseded_by_kept s x :
  in_order s → superseded s x →
  ∃ y b, y ∈ s ∧ ¬ superseded s y ∧ b ∈ s ∧ ¬ superseded s b ∧
    ki_generation x < ki_generation y ∧ ki_timestamp y + KEY_EXPIRY < ki_timestamp b.
Proof.
  intros Ho (y & b & Hy & Hb & Hg & Ht).
  destruct (latest_key s) as (m & Hm & Hle); [by intros ->; apply elem_of_nil in Hy|].
  assert (ki_timestamp y + KEY_EXPIRY < ki_timestamp m) as Ht' by (specialize (Hle b Hb); lia). clear b Hb Ht.
  assert (∃ top, ∀ z, z ∈ s → ki_generation z < top) as [top Htop].
  { clear. induction s as [|z s [top Htop]]; [exists 0; intros z Hz; by apply elem_of_nil in Hz|].
    exists (Z.max top (ki_generation z + 1)). intros z' [->|Hz]%elem_of_cons; [lia|]. specialize (Htop z' Hz). lia. }
  remember (Z.to_nat (top - ki_generation y)) as n eqn:En. revert y Hy Hg Ht' En.
  induction (lt_wf n) as [n _ IH]. intros y Hy Hg Ht' ->. destruct (decide (superseded s y)) as [Hd|Hd].
  - destruct Hd as (y' & b' & Hy' & Hb' & Hg' & Ht''). eapply (IH _ _ y' Hy'); [lia| |done].
    specialize (Hle b' Hb'). lia.
  - exists y, m. pose proof (latest_not_superseded s m Ho Hm Hle). done.
  Unshelve. pose proof (Htop y Hy). pose proof (Htop y' Hy'). lia.
Qed.

(** What [remove_expired] leaves is what is not superseded. *)
Lemma lapse_total l g keep back : Forall expiry_fits l → ∃ r, lapse g keep l back = Ok r.
Proof.
  revert g keep; induction l as [|x l IH]; intros g keep Hf; [by eexists|]. apply Forall_cons in Hf as [Hx Hf].
  cbn [lapse]. destruct (_ =? _); [by apply IH|]. unfold add_i64. rewrite Hx, bind_ret.
  destruct (_ <? _); [by apply IH|by eexists].
Qed.

Lemma lapsed_end_total l : Forall expiry_fits l → ∃ r, lapsed_end l = Ok r.
Proof.
  intros Hf. destruct l as [|a [|b l]]; [by eexists..|]. cbn [lapsed_end]. apply lapse_total.
  by apply Forall_cons in Hf as [_ ?].
Qed.

Lemma back_latest l b : in_order l → ssorted l = true → b ∈ l → ki_timestamp b ≤ back_time l.
Proof.
  intros Ho Hs Hb. destruct (exists_last (l := l)) as (l' & m & ->); [by intros ->; apply elem_of_nil in Hb|].
  unfold back_time. rewrite last_snoc. apply elem_of_app in Hb as [Hb|Hb%list_elem_of_singleton]; [|by rewrite Hb].
  apply ssorted_app in Hs as (_ & _ & Hs). eapply (earlier_time (l' ++ [m])); [done|set_solver..|].
  apply Hs; [done|set_solver].
Qed.

Lemma unexpired_kept r z :
  in_order r → ssorted r = true → unexpired (back_time r) r → z ∈ r → ¬ superseded r z.
Proof.
  intros Ho Hs Hu Hz (y & b & Hy & Hb & Hg & Ht). pose proof (back_latest r b Ho Hs Hb) as Hback.
  destruct r as [|f r]; [by apply elem_of_nil in Hz|].
  assert (ki_generation f ≤ ki_generation z) as Hfz.
  { apply elem_of_cons in Hz as [->|Hz]; [done|]. apply ssorted_cons in Hs as [Hf _]. rewrite Forall_forall in Hf.
    by apply earlier_generation, Hf. }
  assert (∃ mid k2 post, r = mid ++ k2 :: post ∧ Forall (λ k, ki_generation k = ki_generation f) mid ∧
    ki_generation k2 ≠ ki_generation f) as (mid & k2 & post & -> & Hmid & Hk2).
  { apply elem_of_cons in Hy as [->|Hy]; [lia|]. clear -Hy Hg Hfz. induction r as [|x r IH]; [by apply elem_of_nil in Hy|].
    destruct (decide (ki_generation x = ki_generation f)) as [Hx|Hx]; [|by exists [], x, r].
    apply elem_of_cons in Hy as [->|Hy]; [lia|]. destruct (IH Hy) as (mid & k2 & post & -> & Hm & Hk).
    exists (x :: mid), k2, post. split_and!; [done|by constructor|done]. }
  specialize (Hu f mid k2 post eq_refl Hmid Hk2).
  assert (ki_timestamp k2 ≤ ki_timestamp y); [|lia].
  assert (y ∈ k2 :: post) as Hy'.
  { apply elem_of_cons in Hy as [->|[Hy|Hy]%elem_of_app]; [lia| |done]. rewrite Forall_forall in Hmid.
    specialize (Hmid y Hy). lia. }
  apply elem_of_cons in Hy' as [->|Hy']; [done|]. apply ssorted_cons in Hs as [_ Hs].
  apply ssorted_app in Hs as (_ & [Hs _]%ssorted_cons & _). rewrite Forall_forall in Hs.
  eapply (earlier_time _ _ _ Ho); [set_solver..|by apply Hs].
Qed.

Lemma lapsed_end_kept l r :
  in_order l → ssorted l = true → lapsed_end l = Ok r → holds_seen l r.
Proof.
  intros Ho Hs Hl. destruct (lapsed_end_spec l r Hs Hl) as (pre & -> & _ & Hb & Hu & Hpre).
  apply ssorted_app in Hs as Hs'. destruct Hs' as (_ & Hsr & _). split; [done|].
  assert (in_order r) as Hor by (eapply in_order_sub; [exact Ho|set_solver]). intros x. split.
  - intros Hx. split; [set_solver|]. intros (y & b & Hy & Hby & Hg & Ht).
    apply (unexpired_kept r x Hor Hsr Hu Hx). pose proof (back_latest _ b Ho Hs Hby) as Hle. rewrite Hb in Hle.
    destruct (back_time_elem r) as (m & Hm & Em); [by intros ->; apply elem_of_nil in Hx|].
    exists y, m. split_and!; [|done|done|lia]. apply elem_of_app in Hy as [Hy|Hy]; [exfalso|done].
    destruct (Hpre y Hy) as (k2 & Hk2 & Hgy & _). destruct r as [|k2' r]; [done|]. injection Hk2 as ->.
    assert (ki_generation k2 ≤ ki_generation x); [|lia].
    apply elem_of_cons in Hx as [->|Hx]; [done|]. apply ssorted_cons in Hsr as [Hf _]. rewrite Forall_forall in Hf.
    by apply earlier_generation, Hf.
  - intros [[Hx|Hx]%elem_of_app Hn]; [exfalso|done]. apply Hn. destruct (Hpre x Hx) as (k2 & Hk2 & Hg & Ht).
    destruct (back_time_elem r) as (m & Hm & Em); [by intros ->|].
    exists k2, m. split_and!; [|set_solver|done|by rewrite <- Em]. destruct r as [|k2' r]; [done|]. injection Hk2 as ->.
    apply elem_of_app. right. left.
Qed.

(** A key that the kept keys and the new one do not supersede is not
    superseded by any key seen. *)
Lemma seen_to_kept s x l z :
  in_order (x :: s) → (∀ y, y ∈ l ↔ y ∈ s ∧ ¬ superseded s y) → z = x ∨ z ∈ l →
  superseded (x :: s) z → superseded (sinsert x l) z.
Proof.
  intros Ho Hl Hz (y & b & Hy & Hb & Hg & Ht).
  assert (in_order s) as Hos by (eapply in_order_sub; [exact Ho|set_solver]).
  assert (∀ y, y = x ∨ y ∈ l → y ∈ sinsert x l) as Hin by (intros y'; rewrite <-!smem_In, smem_insert, orb_true_iff, keqb_spec; by intros [->|?]; [left|right]).
  (* a key at least as late as [b] among those kept *)
  assert (∃ b', b' ∈ sinsert x l ∧ ki_timestamp b ≤ ki_timestamp b') as (b' & Hb' & Hle).
  { apply elem_of_cons in Hb as [->|Hbs]; [exists x; split; [auto|lia]|].
    destruct (latest_key s) as (m & Hm & Hlm); [by destruct s; [apply elem_of_nil in Hbs|]|].
    exists m. split; [|by apply Hlm]. apply Hin. right. apply Hl. split; [done|]. by apply latest_not_superseded. }
  apply elem_of_cons in Hy as [->|Hy]; [exists x, b'; split_and!; [auto|done|done|lia]|].
  destruct (decide (superseded s y)) as [Hd|Hd].
  - destruct (superseded_by_kept s y Hos Hd) as (y' & b2 & Hy' & Hn' & Hb2 & Hn2 & Hg' & Ht').
    exists y', b2. split_and!; [apply Hin; right; by apply Hl..|lia|done].
  - exists y, b'. split_and!; [apply Hin; right; by apply Hl|done|done|lia].
Qed.

(** When a new key is dropped at once, the first key supersedes it. *)
Lemma stale_key_cases x l :
  Forall expiry_fits l →
  (stale_key x l = Ok true ∧ ∃ f b, head l = Some f ∧ f ∈ l ∧ b ∈ l ∧ ki_generation x < ki_generation f ∧
     ki_timestamp f + KEY_EXPIRY < ki_timestamp b) ∨
  stale_key x l = Ok false.
Proof.
  intros Hf. unfold stale_key. destruct l as [|front [|second l]]; [by right..|].
  destruct (last (front :: second :: l)) as [back|] eqn:E; [|by right]. apply last_Some_elem_of in E.
  destruct (negb _ && _) eqn:Eg; [|by right]. apply andb_true_iff in Eg as [_ Eg%Z.ltb_lt].
  apply Forall_cons in Hf as [Hx _]. unfold add_i64. rewrite Hx, bind_ret.
  destruct (Z.ltb_spec (ki_timestamp front + KEY_EXPIRY) (ki_timestamp back)); [|by right].
  left. split; [done|]. exists front, back. split_and!; [done|left|done..].
Qed.

(** One more key: it is dropped at once, or inserted and the list cleaned up;
    either way the list holds what has been seen, less what is superseded. *)
Lemma insert_key_seen hash x s k :
  holds_seen s (keys_ k) → in_order (x :: s) → distinct_keys (x :: s) → Forall expiry_fits (x :: s) →
  ∃ k', insert_key hash x k = (Ok tt, k') ∧ holds_seen (x :: s) (keys_ k') ∧
    is_pending k' = is_pending k ∧ pending_key_ k' = pending_key_ k ∧ k_sign_sk k' = k_sign_sk k ∧ k_sign_pk k' = k_sign_pk k.
Proof.
  intros [Hs Hl] Ho Hd Hf. assert (∀ z, z ∈ keys_ k → z ∈ s) as Hsub by (intros z Hz; by apply Hl).
  assert (in_order s) as Hos by (eapply in_order_sub; [exact Ho|set_solver]).
  pose proof (distinct_known x s Hd) as Hks.
  assert (known_key x (keys_ k) = false) as Hk.
  { apply not_true_iff_false. intros (z & Hz & ?)%known_key_spec. apply not_true_iff_false in Hks. apply Hks, known_key_spec. eauto. }
  assert (x ∉ keys_ k) as Hn.
  { intros Hin. apply not_true_iff_false in Hk. apply Hk, known_key_spec. eauto. }
  assert (x ∉ s) as Hns.
  { intros Hin. apply not_true_iff_false in Hks. apply Hks, known_key_spec. eauto. }
  unfold insert_key. rewrite run_mget, Hk, run_lift.
  destruct (stale_key_cases x (keys_ k)) as [[Hst (f & b & Hfi & Hfl & Hb & Hg & Ht)]|Hst].
  { rewrite Forall_forall in Hf |- *. intros z Hz. apply Hf. set_solver. }
  - rewrite Hst. exists k. split_and!; [done| |done..]. split; [done|]. intros z. rewrite Hl.
    assert (superseded (x :: s) x) as Hx by (exists f, b; set_solver).
    split.
    + intros [Hz Hnz]. split; [by right|]. intros (y & b' & Hy & Hb' & Hg' & Ht').
      assert (f ∈ s ∧ ¬ superseded s f) as [Hfs Hfn] by by apply Hl.
      assert (ki_generation f ≤ ki_generation z) as Hfz.
      { destruct (keys_ k) as [|f' r] eqn:E; [done|]. injection Hfi as ->.
        assert (z ∈ f :: r) as [->|Hzr]%elem_of_cons by (apply Hl; by split); [done|].
        apply ssorted_cons in Hs as [Hs _]. rewrite Forall_forall in Hs. by apply earlier_generation, Hs. }
      apply elem_of_cons in Hy as [->|Hy]; [lia|]. apply elem_of_cons in Hb' as [->|Hb'].
      * apply Hnz. exists y, f. split_and!; [done..|].
        pose proof (Ho x f ltac:(left) ltac:(by right) Hg). lia.
      * apply Hnz. by exists y, b'.
    + intros [[->|Hz]%elem_of_cons Hnz]; [done|]. split; [done|]. intros Hd'. apply Hnz.
      eapply superseded_sub; [exact Hd'|set_solver].
  - rewrite Hst, !run_modify, run_bind.
    pose proof (sinsert_perm x (keys_ k) Hn) as Hperm. pose proof (ssorted_insert x (keys_ k) Hs) as Hs'.
    assert (∀ z, z ∈ sinsert x (keys_ k) ↔ z = x ∨ z ∈ keys_ k) as Hel by (intros z; by rewrite Hperm, elem_of_cons).
    destruct (lapsed_end_total (sinsert x (keys_ k))) as [r Hr].
    { rewrite Forall_forall in Hf |- *. intros z [->|Hz]%Hel; apply Hf; set_solver. }
    match goal with |- context [remove_expired ?a] => rewrite (remove_expired_run a r) end.
    2: { cbn [keys_ put_keys put_active]. by rewrite insert_lower_bound_set. }
    eexists. split; [done|]. split; [|by split_and!]. change (holds_seen (x :: s) r).
    assert (in_order (sinsert x (keys_ k))) as Hoi by (eapply in_order_sub; [exact Ho|intros z [->|Hz]%Hel; set_solver]).
    destruct (lapsed_end_kept _ r Hoi Hs' Hr) as [Hsr Hlr]. split; [done|]. intros z. rewrite Hlr, Hel.
    assert (∀ z, z ∈ x :: s → z = x ∨ z ∈ keys_ k ∨ superseded s z) as Hcase.
    { intros z' [->|Hz]%elem_of_cons; [by left|]. destruct (decide (superseded s z')); [by right; right|].
      right. left. by apply Hl. }
    split.
    + intros [Hz Hnz]. split; [set_solver|]. intros (y & b & Hy & Hb & Hg & Ht). apply Hnz.
      apply (seen_to_kept s x (keys_ k) z Ho Hl Hz). by exists y, b.
    + intros [Hz Hnz]. split.
      * destruct (Hcase z Hz) as [?|[?|Hd']]; [by left|by right|]. exfalso. apply Hnz.
        eapply superseded_sub; [exact Hd'|set_solver].
      * intros Hd'. apply Hnz. eapply superseded_sub; [exact Hd'|]. intros y [->|Hy]%Hel; set_solver.
Qed.

Lemma take_in_seen msgs s k :
  holds_seen s (keys_ k) → in_order ((snd <$> msgs) ++ s) → distinct_keys ((snd <$> msgs) ++ s) →
  Forall expiry_fits ((snd <$> msgs) ++ s) →
  ∃ k' s', take_in msgs k = (Ok tt, k') ∧ s' ≡ₚ (snd <$> msgs) ++ s ∧ holds_seen s' (keys_ k') ∧
    is_pending k' = is_pending k ∧ pending_key_ k' = pending_key_ k ∧ admin k' = admin k.
Proof.
  revert s k; induction msgs as [|[hash key] msgs IH]; intros s k Hh Ho Hd Hf; [by exists k, s|].
  rewrite fmap_cons in Ho, Hd, Hf. cbn [snd app] in Ho, Hd, Hf. unfold take_in. cbn [forM_ fst snd]. rewrite run_bind.
  assert ((snd <$> msgs) ++ key :: s ≡ₚ key :: (snd <$> msgs) ++ s) as Hp by by rewrite <- Permutation_middle.
  destruct (insert_key_seen hash key s k Hh) as (k1 & -> & Hk1 & Hp1 & Hp2 & Hsk & Hpk).
  - eapply in_order_sub; [exact Ho|set_solver].
  - unfold distinct_keys in *. rewrite fmap_cons, fmap_app in Hd. rewrite fmap_cons. apply NoDup_cons in Hd as [Hn Hd].
    apply NoDup_app in Hd as (_ & _ & Hd). apply NoDup_cons. split; [|done]. intros Hin. apply Hn, elem_of_app. by right.
  - rewrite Forall_forall in Hf |- *. intros z Hz. apply Hf. set_solver.
  - destruct (IH (key :: s) k1 Hk1) as (k' & s' & Hrun & Hs' & Hh' & Hq1 & Hq2 & Hadm).
    + eapply in_order_sub; [exact Ho|]. intros z. by rewrite Hp.
    + unfold distinct_keys in *. by rewrite Hp.
    + by rewrite Hp.
    + exists k', s'. rewrite fmap_cons. cbn [snd app]. split_and!; [exact Hrun|by rewrite Hs', Hp|done|congruence..|].
      rewrite Hadm. unfold admin. by rewrite Hsk, Hpk.
Qed.

Lemma holds_seen_eq s1 s2 l1 l2 : s1 ≡ₚ s2 → holds_seen s1 l1 → holds_seen s2 l2 → l1 = l2.
Proof.
  intros Hp [H1 E1] [H2 E2]. apply ssorted_ext; [done..|]. intros x. apply eq_bool_prop_intro.
  rewrite !Is_true_true, !smem_In, E1, E2. unfold superseded. by setoid_rewrite Hp.
Qed.

(** Which keys there are in the end: all of those seen that no later key
    supersedes, or all of them when their times are within the expiry of each
    other. *)
Lemma take_in_final msgs k :
  ssorted (keys_ k) = true → unexpired (back_time (keys_ k)) (keys_ k) →
  distinct_keys ((snd <$> msgs) ++ keys_ k) → Forall expiry_fits ((snd <$> msgs) ++ keys_ k) →
  in_order ((snd <$> msgs) ++ keys_ k) ∨ in_window ((snd <$> msgs) ++ keys_ k) →
  ∃ k' s', take_in msgs k = (Ok tt, k') ∧ s' ≡ₚ (snd <$> msgs) ++ keys_ k ∧ holds_seen s' (keys_ k') ∧
    is_pending k' = is_pending k ∧ pending_key_ k' = pending_key_ k ∧ admin k' = admin k.
Proof.
  intros Hs Hu Hd Hf [Ho|Hw].
  - apply (take_in_seen msgs (keys_ k)); [|done..]. split; [done|]. intros x. split; [|by intros [? _]].
    intros Hx. split; [done|]. apply unexpired_kept; try done. eapply in_order_sub; [exact Ho|set_solver].
  - destruct (take_in_run msgs k Hs Hd Hw) as (k' & Hr & Hs' & Hp & Hq). exists k', ((snd <$> msgs) ++ keys_ k).
    split_and!; [done..| |apply Hq|apply Hq|apply Hq]. split; [done|]. intros x. rewrite Hp. split; [|by intros [? _]].
    intros Hx. split; [done|]. intros (y & b & Hy & Hb & _ & Ht). destruct Hw as [_ Hw]. specialize (Hw y b Hy Hb). lia.
Qed.

(** C36 (equivalence): the order in which key messages arrive does not matter.
    Two clients with the same key list that load the same new keys, in any
    order and from any messages, have the same key list in the end, hence the
    same encryption key, and agree on whether the newest generation has two
    keys and a new one has to be issued. The list holds exactly the keys that
    no later generation supersedes by more than the expiry, so keys are
    dropped on the way, and dropped or refused consistently. Of the keys' times
    it is asked that a later generation is not earlier in time, or that all
    are within the expiry of each other; [key_order_matters] shows that without
    either the order does matter. *)
Theorem key_order_independent msgs1 msgs2 k1 k2 :
  keys_ k1 = keys_ k2 → ssorted (keys_ k1) = true → unexpired (back_time (keys_ k1)) (keys_ k1) →
  is_pending k1 = false → is_pending k2 = false → admin k1 = admin k2 →
  snd <$> msgs1 ≡ₚ snd <$> msgs2 →
  distinct_keys ((snd <$> msgs1) ++ keys_ k1) → Forall expiry_fits ((snd <$> msgs1) ++ keys_ k1) →
  in_order ((snd <$> msgs1) ++ keys_ k1) ∨ in_window ((snd <$> msgs1) ++ keys_ k1) →
  ∃ k1' k2', take_in msgs1 k1 = (Ok tt, k1') ∧ take_in msgs2 k2 = (Ok tt, k2') ∧
    (ssorted (keys_ k1') = true ∧ ∀ x, x ∈ keys_ k1' ↔
       x ∈ (snd <$> msgs1) ++ keys_ k1 ∧ ¬ superseded ((snd <$> msgs1) ++ keys_ k1) x) ∧
    keys_ k1' = keys_ k2' ∧ group_keys k1' = group_keys k2' ∧ group_enc_key k1' = group_enc_key k2' ∧
    needs_rekey k1' = needs_rekey k2'.
Proof.
  intros Hk Hs Hu Hp1 Hp2 Hadm Hperm Hd Hf Hc.
  destruct (take_in_final msgs1 k1) as (k1' & s1 & Hr1 & Hs1 & Hh1 & Hpend1 & _ & Ha1); [done..|].
  destruct (take_in_final msgs2 k2) as (k2' & s2 & Hr2 & Hs2 & Hh2 & Hpend2 & _ & Ha2).
  - by rewrite <- Hk.
  - by rewrite <- Hk.
  - unfold distinct_keys in *. by rewrite <- Hk, <- Hperm.
  - by rewrite <- Hk, <- Hperm.
  - destruct Hc as [Ho|Hw]; [left; eapply in_order_sub; [exact Ho|]|right; eapply in_window_sub; [exact Hw|]];
      intros x; by rewrite <- Hk, Hperm.
  - assert (keys_ k1' = keys_ k2') as Heq.
    { apply (holds_seen_eq s1 s2); [|done..]. by rewrite Hs1, Hs2, Hk, Hperm. }
    exists k1', k2'. split_and!; [done|done|apply Hh1| |done| | |].
    + intros x. destruct Hh1 as [_ ->]. unfold superseded. by setoid_rewrite Hs1.
    + unfold group_keys. by rewrite Hpend1, Hpend2, Hp1, Hp2, Heq.
    + unfold group_enc_key. by rewrite Hpend1, Hpend2, Hp1, Hp2, Heq.
    + unfold needs_rekey. by rewrite Ha1, Ha2, Hadm, Heq.
Qed.

(** ** The history in its order

    Keys whose times do not go back from one to the next *)
Definition chronological (l : list key_info) : Prop :=
  ∀ l1 a l2 b l3, l = l1 ++ a :: l2 ++ b :: l3 → ki_timestamp a ≤ ki_timestamp b.

Lemma sinsert_end (l : list key_info) key : Forall (λ x, x ≺ key) l → sinsert key l = l ++ [key].
Proof.
  induction 1 as [|x l Hx Hl IH]; [done|]. cbn [sinsert app]. apply kcmp_gt_lt in Hx as ->. by rewrite IH.
Qed.

Lemma prefix_settled l r key :
  chronological (l ++ key :: r) → unexpired (back_time (l ++ key :: r)) (l ++ key :: r) →
  unexpired (back_time (l ++ [key])) (l ++ [key]).
Proof.
  intros Hc Hs k0 mid k2 post Heq Hmid Hk2.
  assert (back_time (l ++ [key]) ≤ back_time (l ++ key :: r)) as Hle.
  { unfold back_time at 1. rewrite last_snoc. destruct r as [|x r] using rev_ind.
    - unfold back_time. by rewrite last_snoc.
    - unfold back_time. rewrite app_comm_cons, app_assoc, last_snoc. by eapply (Hc l key r x []). }
  transitivity (back_time (l ++ key :: r)); [done|].
  eapply (Hs k0 mid k2 (post ++ r)); [|done..]. rewrite cons_middle, app_assoc, Heq. simpl. by rewrite <- app_assoc.
Qed.

(** Taking in a history from its start gives that history. *)
Lemma take_history hash todo done_ k :
  keys_ k = done_ → ssorted (done_ ++ todo) = true → distinct_keys (done_ ++ todo) → chronological (done_ ++ todo) →
  Forall expiry_fits (done_ ++ todo) → unexpired (back_time (done_ ++ todo)) (done_ ++ todo) →
  ∃ k', forM_ todo (insert_key hash) k = (Ok tt, k') ∧ keys_ k' = done_ ++ todo ∧ is_pending k' = is_pending k.
Proof.
  revert done_ k; induction todo as [|key todo IH]; intros done_ k Hk Hs Hd Hc Hf Hset.
  { exists k. by rewrite app_nil_r. }
  cbn [forM_]. rewrite run_bind.
  assert (Forall (λ x, x ≺ key) done_) as Hlt.
  { apply ssorted_app in Hs as (_ & _ & Hs). apply Forall_forall. intros x Hx. apply Hs; [done|left]. }
  assert (key ∉ done_) as Hn.
  { intros Hin. rewrite Forall_forall in Hlt. by apply (klt_irrefl key), Hlt. }
  assert (known_key key done_ = false) as Hkn.
  { apply distinct_known. unfold distinct_keys in *. rewrite fmap_app, fmap_cons in Hd. rewrite fmap_cons.
    rewrite <- Permutation_middle in Hd. apply NoDup_cons in Hd as [Hni Hd]. apply NoDup_app in Hd as (Hd & _ & _).
    apply NoDup_cons. split; [|done]. intros Hin. apply Hni, elem_of_app. by left. }
  assert (stale_key key done_ = Ok false) as Hst.
  { unfold stale_key. destruct done_ as [|front [|second l]]; [done..|]. destruct (last _); [|done].
    apply Forall_cons in Hlt as [Hfr _]. apply klt_spec in Hfr. by rewrite Hfr. }
  pose proof (sinsert_end done_ key Hlt) as Hins.
  destruct (insert_key_run hash key k) as (k1 & -> & Hk1 & Hp & _); rewrite ?Hk, ?Hins; try done.
  { rewrite cons_middle, app_assoc in Hf. by apply Forall_app in Hf as [? _]. }
  { by eapply prefix_settled. }
  destruct (IH (done_ ++ [key]) k1) as (k' & Hr & Hk' & Hp'); rewrite <- ?app_assoc; try done.
  { by rewrite Hk1, Hk, Hins. }
  exists k'. split_and!; [done|by rewrite Hk', <- app_assoc|congruence].
Qed.

(** ** The history handed to new members *)
Section supplement.
Context `{BtLaws, HashLaws, AeadLaws, X25519Laws, Ed25519, SeedKeypair}.
Context `{!SeedKeypairLaws, !KeypairLaws, OxencLaws, DeterministicRandomLaws}.

(** What the members of a supplement get *)
Definition history (k : Keys) : bytes := bt_list_dump (bt_of_key <$> keys_ k).
Definition history_nonce (gseed : bytes) (sids : list bytes) (k : Keys) : bytes :=
  supplement_nonce sids (history k) (generichash 32 (stake 64 seed_hash_key) (stake 32 (seed_keypair gseed).2)).

Lemma history_nonce_size gseed sids k : size (history_nonce gseed sids k) = 24.
Proof. by apply generichash_size. Qed.

Lemma history_read k : list_inv k → ∃ infos, bt_load_list (history k) = Ok infos ∧ mapR load_key_info infos = Ok (keys_ k).
Proof.
  intros Hk. exists (bt_of_key <$> keys_ k). destruct Hk as [_ _ Ho _ _ _]. split.
  - unfold history. rewrite <- (string_app_empty_r (bt_list_dump _)). apply bt_load_list_dump.
    cbn [bt_canon]. apply forallb_forall. intros v (q & -> & Hin)%list_elem_of_In%list_elem_of_fmap.
    rewrite Forall_forall in Ho. destruct (Ho q Hin) as (_ & Hg & Ht & Hm). destruct (ms_exact _ Ht Hm) as [Hms _].
    simpl. by rewrite Hg, Hms.
  - induction Ho as [|q l Hq Hl IH]; [done|]. rewrite fmap_cons. cbn [mapR].
    by rewrite load_key_info_round, bind_ret, IH.
Qed.

Lemma key_supplement_run gseed sids k back pks :
  size gseed = 32 → admin_of gseed k → last (keys_ k) = Some back →
  mapR (λ sid, bchat_id_pk sid "05") sids = Ok pks → Forall (λ r, size r = 32) pks →
  let nonce := history_nonce gseed sids k in
  let enc := copies (history k) (x_secret gseed) (x_public gseed) nonce pks in
  let pairs := [("#", BtStr nonce); ("+", BtList (BtStr <$> enc)); ("G", BtInt (ki_generation back))] in
  enc ≠ [] →
  ∃ sig, key_supplement sids k = Ok (bt_dump (pairs ++ [("~", BtStr sig)])) ∧ size sig = 64 ∧
    verify_detached (seed_keypair gseed).1 (bt_body pairs) sig = true.
Proof.
  intros Hg Ha Hb Hpks Hsz nonce enc pairs Hne.
  destruct (signed_message_ok gseed k pairs Hg Ha) as (sig & Hsig & Hs1 & Hs2). exists sig. split; [|done].
  unfold key_supplement, keys_seed_hash. rewrite (admin_of_admin gseed k Ha), Hb. destruct Ha as ([Hpk _] & Hsk & _).
  rewrite Hpk, Hsk. cbn [require from_option_or]. rewrite !bind_ret, compute_xpk_seed, !bind_ret, Hpks, bind_ret by done.
  fold (history k). fold (history_nonce gseed sids k). fold nonce. fold (x_secret gseed).
  rewrite encrypt_copies; [|apply history_nonce_size|apply x_secret_size|apply x_public_size|done]. rewrite bind_ret.
  fold enc. assert (negb (is_nil enc) = true) as -> by by destruct enc. cbn [require]. rewrite bind_ret. exact Hsig.
Qed.

Lemma next_supplement_ok c : 52 + ABYTES ≤ size c → next_supplement false (BtStr c) = Ok (Some c).
Proof.
  intros Hc. unfold next_supplement. cbn [consume_str]. rewrite bind_ret. by rewrite (proj2 (Z.ltb_ge _ _) Hc).
Qed.

(** A member on the list reads the history. *)
Lemma supplement_read gs gp gseed useed sids k k2 back pks sig ts shared_key :
  let nonce := history_nonce gseed sids k in
  let enc := copies (history k) (x_secret gseed) (x_public gseed) nonce pks in
  let pairs := [("#", BtStr nonce); ("+", BtList (BtStr <$> enc)); ("G", BtInt (ki_generation back))] in
  size gseed = 32 → size useed = 32 → list_inv k → last (keys_ k) = Some back → 52 ≤ size (history k) →
  size sig = 64 → verify_detached (seed_keypair gseed).1 (bt_body pairs) sig = true →
  member_of gseed useed k2 → x_public useed ∈ pks →
  encrypt_multi_key (x_secret gseed) (x_public gseed) (x_public useed) true enc_key_member_hash_key = Ok shared_key →
  own_copies_only (history k) (x_secret gseed) (x_public gseed) nonce shared_key pks →
  read_key_message gs gp k2 (bt_dump (pairs ++ [("~", BtStr sig)])) ts = Ok (keys_ k, Some (ki_generation back)).
Proof.
  intros nonce enc pairs Hg Hu Hk Hb Hsz Hs1 Hs2 Hm Hin Hkey Hown.
  assert (in_int64 (ki_generation back) = true) as Hgen.
  { apply last_Some_elem_of in Hb. destruct Hk as [_ _ Ho _ _ _]. rewrite Forall_forall in Ho. apply (Ho back Hb). }
  assert (Forall (λ c, next_supplement false (BtStr c) = Ok (Some c)) enc) as Henc.
  { eapply Forall_impl; [apply copies_size|]. intros c Hc. cbv beta in Hc. apply next_supplement_ok. lia. }
  destruct (recipient_opens (next_supplement false) BtStr (history k) gseed useed nonce shared_key pks [])
    as (rest & Hdec & Hsub); [done..|apply history_nonce_size|]. fold enc in Hdec, Hsub. rewrite app_nil_r in Hdec, Hsub.
  eapply (read_signed gs gp gseed k2); [done|apply Hm| |done..| |].
  { pose proof (strings_canon enc) as Hc. simpl in Hc |- *. by rewrite Hc, Hgen. }
  { by apply (member_x_keys_member gs gp gseed useed). }
  unfold read_body. simpl skip_until. cbv iota. cbn [as_list]. rewrite bind_ret. unfold read_supplement.
  rewrite (member_of_admin _ _ _ Hm). fold nonce. rewrite Hdec. simpl.
  destruct (history_read k Hk) as (infos & -> & Hinfos). simpl. rewrite Hinfos. simpl.
  destruct (mapR_total (next_supplement false) rest) as [r ->].
  { apply Forall_forall. intros v Hv. apply Hsub in Hv as (c & -> & Hc)%list_elem_of_fmap.
    rewrite Forall_forall in Henc. by rewrite Henc. }
  simpl. by rewrite consume_int64_fits.
Qed.

(** C12 (functional): a supplement hands the whole key history to new members.
    An admin with some key can make one for any list of ids of which one is
    usable; a member on the list that has no key yet and loads it has exactly
    the admin's keys, encrypts with the admin's newest one, and its info and
    members objects get the keys; the history has to be chronological, and no
    copy meant for another member may open under the key of this one. *)
Theorem supplement_delivers gseed sids k back pks :
  size gseed = 32 → admin_of gseed k → keys_inv k → last (keys_ k) = Some back → chronological (keys_ k) →
  Forall expiry_fits (keys_ k) → 52 ≤ size (history k) →
  mapR (λ sid, bchat_id_pk sid "05") sids = Ok pks → Forall (λ r, size r = 32) pks →
  copies (history k) (x_secret gseed) (x_public gseed) (history_nonce gseed sids k) pks ≠ [] →
  ∃ msg, key_supplement sids k = Ok msg ∧
    ∀ gs gp useed hash ts g shared_key, size useed = 32 → member_of gseed useed (g_keys g) → keys_inv (g_keys g) →
      keys_ (g_keys g) = [] → is_pending (g_keys g) = false → x_public useed ∈ pks →
      encrypt_multi_key (x_secret gseed) (x_public gseed) (x_public useed) true enc_key_member_hash_key = Ok shared_key →
      own_copies_only (history k) (x_secret gseed) (x_public gseed) (history_nonce gseed sids k) shared_key pks →
      ∃ g', load_key_message gs gp hash msg ts g = (Ok true, g') ∧ keys_ (g_keys g') = keys_ k ∧
        group_enc_key (g_keys g') = Ok (ki_key back) ∧
        _keys (g_info g') = first_occurrences (ki_key <$> reverse (keys_ k)) ∧
        _keys (m_config (g_members g')) = first_occurrences (ki_key <$> reverse (keys_ k)).
Proof.
  intros Hg Ha Hk Hb Hc Hf Hsz Hpks Hps Hne.
  destruct (key_supplement_run gseed sids k back pks Hg Ha Hb Hpks Hps Hne) as (sig & Hrun & Hs1 & Hs2).
  eexists. split; [exact Hrun|]. intros gs gp useed hash ts g shared_key Hu Hm Hgk Hnil Hnp Hin Hkey Hown.
  pose proof (supplement_read gs gp gseed useed sids k (g_keys g) back pks sig ts shared_key Hg Hu (inv_list _ Hk) Hb Hsz
    Hs1 Hs2 Hm Hin Hkey Hown) as Hread.
  destruct (take_history hash (keys_ k) [] (g_keys g)) as (k' & Htake & Hk' & Hp'); try done; try apply Hk.
  assert (list_inv k') as Hinv.
  { assert (preserves keys_inv (forM_ (keys_ k) (insert_key hash))) as Hpres.
    { apply preserves_forM. intros x Hx. apply insert_key_inv. pose proof (inv_keys_ok _ (inv_list _ Hk)) as Ho.
      rewrite Forall_forall in Ho. by apply Ho. }
    specialize (Hpres _ Hgk). rewrite Htake in Hpres. by apply inv_list, Hpres. }
  unfold load_key_message. rewrite run_gets, run_lift, Hread, run_bind.
  unfold on_keys at 1, drop_pending. rewrite run_mget, Hnp, andb_false_r. cbn [andb when skip mret M_ret].
  assert (is_nil (keys_ k) = false) as -> by by destruct (keys_ k).
  rewrite run_bind. unfold on_keys. cbn [g_keys]. rewrite Htake, run_bind, share_quiet by done.
  eexists. split; [done|]. cbn [shared g_keys g_info g_members m_config with_enc_keys _keys].
  rewrite Hnp in Hp'. unfold group_enc_key, group_keys. rewrite Hp', Hk'. cbn [app]. by rewrite Hb.
Qed.
End supplement.

(** ** Examples *)

(** Two keys of the same generation, as two admins issue them at once *)
Definition collision : list (bytes * key_info) :=
  [("hash1", sample_key_info "a" day 3); ("hash2", sample_key_info "b" (2 * day) 3)].

(** Keys issued every forty days, in order: the first one lapses. *)
Definition forty_days_apart : list (bytes * key_info) :=
  [("hash1", sample_key_info "a" 0 1); ("hash2", sample_key_info "b" (40 * day) 2); ("hash3", sample_key_info "c" (120 * day) 3)].

Lemma forty_days_in_order : in_order (snd <$> forty_days_apart).
Proof.
  intros a b Ha Hb. rewrite list_elem_of_In in Ha, Hb. simpl in Ha, Hb.
  destruct Ha as [<-|[<-|[<-|[]]]], Hb as [<-|[<-|[<-|[]]]]; vm_compute; intros; (discriminate || done).
Qed.

Lemma key_order_independent_witness :
  ∃ k1 k2, take_in forty_days_apart blank_keys = (Ok tt, k1) ∧ take_in (reverse forty_days_apart) blank_keys = (Ok tt, k2) ∧
    keys_ k1 = keys_ k2 ∧ group_enc_key k1 = group_enc_key k2 ∧ (ki_generation <$> keys_ k1) = [2; 3].
Proof.
  destruct (key_order_independent forty_days_apart (reverse forty_days_apart) blank_keys blank_keys)
    as (k1 & k2 & H1 & H2 & _ & Hk & _ & He & _); [reflexivity|reflexivity| |reflexivity|reflexivity|reflexivity|..].
  - intros k0 mid k2 post Heq. discriminate Heq.
  - by rewrite reverse_Permutation.
  - apply (bool_decide_unpack _). vm_compute. exact I.
  - apply Forall_forall. intros x Hx%list_elem_of_In. simpl in Hx. destruct Hx as [<-|[<-|[<-|[]]]]; vm_compute; reflexivity.
  - left. exact forty_days_in_order.
  - exists k1, k2. split; [exact H1|]. split; [exact H2|]. split; [exact Hk|]. split; [exact He|].
    vm_compute in H1. injection H1 as <-. reflexivity.
Defined.

(** The order does matter when a later generation is earlier in time, or times
    are further apart: the first key lapses, or not, depending on whether the
    fourth, whose time is before that of the third, is known when the third
    arrives. *)
Definition out_of_order : list (bytes * key_info) :=
  [("hash1", sample_key_info "a" 0 1); ("hash2", sample_key_info "b" (10 * day) 2); ("hash3", sample_key_info "c" (100 * day) 3);
   ("hash4", sample_key_info "d" (20 * day) 4)].
Lemma key_order_matters :
  let swapped := take 2 out_of_order ++ reverse (drop 2 out_of_order) in
  (ki_generation <$> keys_ (take_in out_of_order blank_keys).2) = [2; 3; 4] ∧
  (ki_generation <$> keys_ (take_in swapped blank_keys).2) = [1; 2; 3; 4].
Proof. vm_compute. done. Qed.

Definition sample_back : key_info := default (sample_key_info "a" 0 0) (last (keys_ (g_keys sample_loaded))).

Lemma sample_rekeyed_admin : of_keys (admin_of sample_group_seed) sample_rekeyed.
Proof.
  apply (preserved_state _ rekey sample_admin sample_conf (sig_rekey sample_group_seed) sample_admin_of).
  vm_compute. reflexivity.
Qed.
Lemma sample_loaded_admin : of_keys (admin_of sample_group_seed) sample_loaded.
Proof.
  unfold sample_loaded. apply (preserved_state (of_keys (admin_of sample_group_seed))
    (load_key_message (zeros 32) (zeros 32) "hash1" sample_conf 1700000000000) sample_rekeyed true);
    [apply sig_load|exact sample_rekeyed_admin|].
  vm_compute. reflexivity.
Qed.
Lemma sample_member_reachable : keys_reachable sample_member_group.
Proof. apply reach_constructed. vm_compute. reflexivity. Qed.
Lemma sample_keys : keys_ (g_keys sample_loaded) = [sample_back].
Proof. vm_compute. reflexivity. Qed.

(** A member without any key gets the admin's key from a supplement. *)
Lemma supplement_delivers_witness :
  ∃ msg g', key_supplement [sample_user_id] (g_keys sample_loaded) = Ok msg ∧
    load_key_message "" "" "hash9" msg 0 sample_member_group = (Ok true, g') ∧
    keys_ (g_keys g') = [sample_back].
Proof.
  destruct (encrypt_multi_key (x_secret sample_group_seed) (x_public sample_group_seed) (x_public sample_user_seed) true
    enc_key_member_hash_key) as [sk|e] eqn:Esk; [|discriminate Esk].
  destruct (supplement_delivers sample_group_seed [sample_user_id] (g_keys sample_loaded) sample_back [x_public sample_user_seed])
    as (msg & Hmsg & Hd); [reflexivity|exact sample_loaded_admin|exact (reach_inv _ sample_loaded_reachable)|..].
  - rewrite sample_keys. reflexivity.
  - rewrite sample_keys. intros l1 a l2 b l3 Heq. apply (f_equal length) in Heq. rewrite !length_app in Heq. simpl in Heq.
    rewrite length_app in Heq. simpl in Heq. lia.
  - rewrite sample_keys. constructor; [vm_compute; reflexivity|constructor].
  - vm_compute. discriminate.
  - vm_compute. reflexivity.
  - constructor; [vm_compute; reflexivity|constructor].
  - unfold copies. cbn [omap list_omap]. rewrite Esk. discriminate.
  - destruct (Hd "" "" sample_user_seed "hash9" 0 sample_member_group sk) as (g' & Hl & Hk & _);
      [reflexivity|exact sample_member_of|exact (reach_inv _ sample_member_reachable)|reflexivity|reflexivity|left|exact Esk| |].
    + intros r key' Hin Hk Hne. apply list_elem_of_singleton in Hin as ->. rewrite Esk in Hk.
      exfalso. apply Hne. injection Hk as Hk. symmetry. exact Hk.
    + exists msg, g'. split; [exact Hmsg|]. split; [exact Hl|]. rewrite Hk. exact sample_keys.
Defined.
