(* ===== verification/StableSort.v ===== *)
(** * Stable sorting, partitioning and searching

    What the node pool uses of [<algorithm>]: [std::sort],
    [std::ranges::stable_sort], [std::ranges::stable_partition] and
    [std::lower_bound], over an arbitrary comparison, with what the standard
    promises of them. *)

From Stdlib Require Import ZArith Sorting.Sorted Lia.
From stdpp Require Import base option list numbers sorting.
From S2P Require Import Prelude.

Section stable_sort.
Context {A : Type} (lt : A → A → bool).

(** Insertion before the first element that is not less, so that elements
    that are equivalent keep their order *)
Fixpoint insert_stable (x : A) (l : list A) : list A :=
  match l with
  | [] => [x]
  | y :: l' => if lt y x then y :: insert_stable x l' else x :: l
  end.
Definition stable_sort (l : list A) : list A := foldr insert_stable [] l.

Definition not_after (x y : A) : Prop := lt y x = false.

Lemma insert_stable_perm x l : insert_stable x l ≡ₚ x :: l.
Proof.
  induction l as [|y l IH]; simpl; [done|]. destruct (lt y x); [|done].
  rewrite IH. apply Permutation_swap.
Qed.

Lemma stable_sort_perm l : stable_sort l ≡ₚ l.
Proof. induction l as [|x l IH]; simpl; [done|]. by rewrite insert_stable_perm, IH. Qed.

Lemma stable_sort_length l : length (stable_sort l) = length l.
Proof. by rewrite stable_sort_perm. Qed.

Context (lt_asym : ∀ x y, lt x y = true → lt y x = false)
        (not_after_trans : Transitive not_after).

Lemma insert_stable_sorted x l :
  StronglySorted not_after l → StronglySorted not_after (insert_stable x l).
Proof using lt_asym not_after_trans.
  induction 1 as [|y l Hl IH Hy]; simpl; [by repeat constructor|]. destruct (lt y x) eqn:E.
  - constructor; [done|]. rewrite insert_stable_perm. constructor; [by apply lt_asym|done].
  - constructor; [by constructor|]. constructor; [done|]. eapply Forall_impl; [exact Hy|].
    intros z Hz. by transitivity y.
Qed.

Lemma stable_sort_sorted l : StronglySorted not_after (stable_sort l).
Proof using lt_asym not_after_trans.
  induction l as [|x l IH]; simpl; [constructor|by apply insert_stable_sorted].
Qed.

(** Two sorted arrangements of the same elements agree when equivalent
    elements are equal. *)
Lemma sorted_unique l1 l2 :
  (∀ x y, x ∈ l1 → y ∈ l1 → not_after x y → not_after y x → x = y) →
  StronglySorted not_after l1 → StronglySorted not_after l2 → l1 ≡ₚ l2 → l1 = l2.
Proof using.
  intros Ha H1. revert l2. induction H1 as [|x l1 H1 IH Hx]; intros l2 H2 Hp.
  { symmetry in Hp. by apply Permutation_nil_r in Hp. }
  destruct H2 as [|y l2 H2 Hy]; [by apply Permutation_nil_r in Hp|].
  assert (x = y) as <-.
  { rewrite Forall_forall in Hx, Hy. assert (x ∈ y :: l2) as Hxy by (rewrite <-Hp; left).
    assert (y ∈ x :: l1) as Hyx by (rewrite Hp; left).
    apply elem_of_cons in Hxy as [|Hxy]; [done|]. apply elem_of_cons in Hyx as [|Hyx]; [done|].
    apply Ha; [left|by right|by apply Hx|by apply Hy]. }
  f_equal. apply IH; [|done|by apply (Permutation_cons_inv Hp)].
  intros a b Hxa Hb. apply Ha; by right.
Qed.
End stable_sort.

(** ** Stable partitioning *)
Definition stable_partition {A} (p : A → bool) (l : list A) : list A * list A :=
  (List.filter p l, List.filter (λ x, negb (p x)) l).

Lemma stable_partition_perm {A} (p : A → bool) l :
  (stable_partition p l).1 ++ (stable_partition p l).2 ≡ₚ l.
Proof.
  unfold stable_partition; simpl. induction l as [|x l IH]; simpl; [done|].
  destruct (p x); simpl; [by rewrite IH|]. by rewrite <-Permutation_middle, IH.
Qed.

Lemma elem_of_Lfilter {A} (p : A → bool) l x : x ∈ List.filter p l ↔ x ∈ l ∧ p x = true.
Proof. rewrite !list_elem_of_In. apply filter_In. Qed.

(** ** Binary search: the first element that is not below, in a range whose
    elements below come first *)
Fixpoint lower_bound {A} (below : A → bool) (l : list A) : nat :=
  match l with [] => O | x :: l => if below x then S (lower_bound below l) else O end.

Lemma lower_bound_spec {A} (below : A → bool) l :
  (lower_bound below l ≤ length l)%nat ∧
  (∀ i x, l !! i = Some x → (i < lower_bound below l)%nat → below x = true) ∧
  (∀ x, l !! lower_bound below l = Some x → below x = false).
Proof.
  induction l as [|y l (H1 & H2 & H3)]; simpl; [split; [lia|split; [lia|done]]|].
  destruct (below y) eqn:E; simpl.
  - split; [lia|]. split; [|done]. intros [|i] x; simpl; [by intros [= ->]|]. intros Hx Hi.
    apply (H2 i); [done|lia].
  - split; [lia|]. split; [lia|]. intros x. by intros [= ->].
Qed.
