(* ===== verification/Wire.v ===== *)
(** * Fixed-width integers in byte strings

    Big- and little-endian integers as [oxenc/endian.h] and the shift-and-or
    loops of [src/network/master_node.cpp] read and write them, and
    [consume] of [src/network/mnode_pool.cpp], which takes a value off the
    front of a buffer. *)

From Stdlib Require Import ZArith String Ascii Lia.
From stdpp Require Import base option list strings numbers.
From S2P Require Import Prelude OrderedMap Bt Bencode Crypto Text.

Definition chr (z : Z) : ascii := ascii_of_N (Z.to_N (z mod 256)).

(** Little-endian and big-endian values *)
Fixpoint le_value (s : bytes) : Z :=
  match s with "" => 0 | String c s => code c + 256 * le_value s end.
Fixpoint be_from (acc : Z) (s : bytes) : Z :=
  match s with "" => acc | String c s => be_from (acc * 256 + code c) s end.
Definition be_value (s : bytes) : Z := be_from 0 s.

(** [write_host_as_little] of an integer of [n] bytes *)
Fixpoint le_write (n : nat) (z : Z) : bytes :=
  match n with O => "" | S n => String (chr z) (le_write n (z / 256)) end.

(** The most significant byte first *)
Fixpoint be_write (n : nat) (z : Z) : bytes :=
  match n with O => "" | S n => String (chr (z / 256 ^ Z.of_nat n)) (be_write n z) end.

(** [v = (v << 8) | byte] for each byte, in a 64-bit integer *)
Fixpoint shift_or (v : Z) (s : bytes) : Z :=
  match s with "" => v | String c s => shift_or (Z.lor (wrap64 (Z.shiftl v 8)) (code c)) s end.

(** [consume<T>] for a [T] of [n] bytes: the bytes and the rest of the buffer *)
Definition consume (n : nat) (b : bytes) : result (bytes * bytes) :=
  if size b <? Z.of_nat n then Throw out_of_range else Ok (stake n b, sdrop n b).
(** [consume<T>] for an integer of [n] bytes *)
Definition consume_int (n : nat) (b : bytes) : result (Z * bytes) :=
  '(v, b) ← consume n b; Ok (le_value v, b).

(** ** Facts *)
Lemma code_bound c : 0 ≤ code c < 256.
Proof. unfold code. pose proof (N_ascii_bounded c). lia. Qed.

Lemma code_chr z : code (chr z) = z mod 256.
Proof.
  unfold code, chr. pose proof (Z.mod_pos_bound z 256 ltac:(lia)).
  rewrite N_ascii_embedding by lia. lia.
Qed.

Lemma chr_code c : chr (code c) = c.
Proof.
  unfold chr. rewrite Z.mod_small by apply code_bound. unfold code.
  rewrite N2Z.id. apply ascii_N_embedding.
Qed.

Lemma le_write_length n z : String.length (le_write n z) = n.
Proof. revert z; induction n; intros z; simpl; auto. Qed.

Lemma be_write_length n z : String.length (be_write n z) = n.
Proof. induction n; simpl; auto. Qed.

Lemma le_value_write n z : le_value (le_write n z) = z mod 256 ^ Z.of_nat n.
Proof.
  revert z; induction n as [|n IH]; intros z; simpl.
  { change (256 ^ Z.of_nat 0) with 1. by rewrite Z.mod_1_r. }
  rewrite IH, code_chr, Nat2Z.inj_succ, Z.pow_succ_r by lia.
  rewrite Z.rem_mul_r; lia.
Qed.

Lemma size_cons c s : size (String c s) = Z.succ (size s).
Proof. unfold size. simpl String.length. lia. Qed.

Lemma be_from_acc acc s : be_from acc s = acc * 256 ^ size s + be_from 0 s.
Proof.
  revert acc; induction s as [|c s IH]; intros acc; [unfold size; simpl; lia|].
  cbn [be_from]. rewrite IH, (IH (0 * 256 + code c)), size_cons, Z.pow_succ_r by apply size_nonneg. lia.
Qed.

Lemma be_from_bound s : 0 ≤ be_from 0 s < 256 ^ size s.
Proof.
  induction s as [|c s IH]; [unfold size; simpl; lia|].
  cbn [be_from]. rewrite be_from_acc, size_cons, Z.pow_succ_r by apply size_nonneg.
  pose proof (code_bound c). nia.
Qed.

Lemma be_value_write n z : be_value (be_write n z) = z mod 256 ^ Z.of_nat n.
Proof.
  unfold be_value. induction n as [|n IH]; simpl be_from.
  { change (256 ^ Z.of_nat 0) with 1. by rewrite Z.mod_1_r. }
  rewrite be_from_acc, IH, code_chr. unfold size. rewrite be_write_length, Nat2Z.inj_succ, Z.pow_succ_r by lia.
  rewrite (Z.mul_comm 256), Z.rem_mul_r; lia.
Qed.

(** The shift-and-or loop computes the big-endian value while it fits. *)
Lemma shift_or_be v s :
  0 ≤ v → v * 256 ^ size s + be_from 0 s < 2 ^ 64 → shift_or v s = v * 256 ^ size s + be_from 0 s.
Proof.
  revert v; induction s as [|c s IH]; intros v Hv Hb; [unfold size; simpl; lia|]; cbn [shift_or].
  pose proof (code_bound c). pose proof (be_from_bound s).
  cbn [be_from] in *. rewrite (be_from_acc (0 * 256 + code c)) in *.
  rewrite size_cons, Z.pow_succ_r in * by apply size_nonneg.
  assert (Z.lor (wrap64 (Z.shiftl v 8)) (code c) = v * 256 + code c) as ->.
  { rewrite Z.shiftl_mul_pow2 by lia. change (2 ^ 8) with 256.
    assert (0 < 256 ^ size s) by (apply Z.pow_pos_nonneg; unfold size; lia).
    rewrite wrap64_small by nia. rewrite <-Z.add_lor_land.
    replace (Z.land (v * 256) (code c)) with 0; [lia|]. symmetry. apply Z.bits_inj'. intros i Hi.
    rewrite Z.land_spec, Z.bits_0. change 256 with (2 ^ 8). destruct (Z.ltb_spec i 8).
    - by rewrite Z.mul_pow2_bits_low.
    - rewrite (Z.bits_above_log2 (code c) i); [by rewrite andb_false_r|lia|].
      destruct (Z.eq_dec (code c) 0) as [->|]; [simpl; lia|].
      assert (Z.log2 (code c) < 8) by (apply Z.log2_lt_pow2; simpl; lia). lia. }
  rewrite IH; [lia|lia|nia].
Qed.

Lemma consume_app n a b : String.length a = n → consume n (a +:+ b) = Ok (a, b).
Proof.
  intros <-. unfold consume, size. rewrite string_length_app.
  destruct (Z.ltb_spec (Z.of_nat (String.length a + String.length b)) (Z.of_nat (String.length a))); [lia|].
  by rewrite stake_app, sdrop_app.
Qed.

Lemma consume_int_write n z b :
  0 ≤ z < 256 ^ Z.of_nat n → consume_int n (le_write n z +:+ b) = Ok (z, b).
Proof.
  intros Hz. unfold consume_int. rewrite consume_app by apply le_write_length. simpl.
  by rewrite le_value_write, Z.mod_small.
Qed.

Lemma consume_short n b : (String.length b < n)%nat → consume n b = Throw out_of_range.
Proof. unfold consume, size. intros H. destruct (Z.ltb_spec (Z.of_nat (String.length b)) (Z.of_nat n)); [done|lia]. Qed.
