(* ===== verification/Swarm.v ===== *)
(** * Swarms

    [include/bchat/network/master_node.hpp] (the node record and its order) and
    [src/network/swarm.cpp]: where an account lies in the space of swarm ids,
    how nodes are grouped into swarms, and which swarm an account belongs to. *)

From Stdlib Require Import ZArith String Ascii Sorting.Sorted Lia.
From stdpp Require Import base option list strings numbers sorting sets.
From S2P Require Import Prelude OrderedMap Bt Bencode Crypto Text Wire StableSort.

(** ** Nodes *)
Record master_node := mkNode {
  remote_pubkey : bytes;
  ip : Z;
  https_port : Z;
  omq_port : Z;
  storage_server_version : Z * Z * Z;
  swarm_id : Z;
  requested_unlock_height : Z;
}.

(** [operator<=>] is defaulted: member by member, in the order of declaration *)
Definition node_fields (n : master_node) : bytes * (Z * (Z * (Z * (Z * Z * Z * (Z * Z))))) :=
  (remote_pubkey n, (ip n, (https_port n, (omq_port n,
   (storage_server_version n, (swarm_id n, requested_unlock_height n)))))).

Lemma node_fields_inj a b : node_fields a = node_fields b → a = b.
Proof. destruct a, b. unfold node_fields; simpl. by intros [= -> -> -> -> -> -> ->]. Qed.

#[global] Program Instance ord_node : OrdKey master_node :=
  {| kcmp a b := kcmp (node_fields a) (node_fields b) |}.
Next Obligation. intros a b. rewrite kcmp_eq. split; [apply node_fields_inj|by intros ->]. Qed.
Next Obligation. intros a b. apply kcmp_opp. Qed.
Next Obligation. intros a b c. apply kcmp_trans. Qed.

Definition INVALID_SWARM_ID : Z := uint64_max.
Abbreviation swarm := (Z * list master_node)%type (only parsing).

(** ** Positions in the space of swarm ids *)

(** The [i]th 8 bytes of a key, as the 64-bit integer [memcpy] makes of them on
    a little-endian machine *)
Definition word_at (pk : bytes) (i : nat) : Z := le_value (stake 8 (sdrop (i * 8) pk)).
(** [big_to_host_inplace] there: the bytes are reversed *)
Definition big_to_host (z : Z) : Z := be_value (le_write 8 z).
Definition pubkey_to_swarm_space (pk : bytes) : Z :=
  big_to_host (foldl (λ res i, Z.lxor res (word_at pk i)) 0 [0; 1; 2; 3]%nat).

(** ** Grouping *)

(** [_grouped_nodes[id].push_back(node)] *)
Fixpoint push_group (id : Z) (n : master_node) (l : list swarm) : list swarm :=
  match l with
  | [] => [(id, [n])]
  | (id', ns) :: l => if id =? id' then (id', ns ++ [n]) :: l else (id', ns) :: push_group id n l
  end.
Definition grouped_nodes (nodes : list master_node) : list swarm :=
  foldl (λ l n, push_group (swarm_id n) n l) [] nodes.

Definition swarm_lt (a b : swarm) : bool := a.1 <? b.1.
(** The iteration order of the [std::unordered_map] is that of [grouped_nodes];
    [sorted_any_order] shows that any other gives the same swarms. *)
Definition generate_swarms (nodes : list master_node) : list swarm :=
  stable_sort swarm_lt (grouped_nodes nodes).

(** ** The swarm of an account *)
Definition get_swarm (swarm_pubkey : bytes) (all_swarms : list swarm) : result swarm :=
  match all_swarms with
  | [s] => Ok s
  | _ =>
      let id := pubkey_to_swarm_space swarm_pubkey in
      let n := length all_swarms in
      let right_it := lower_bound (λ s : swarm, s.1 <? id) all_swarms in
      let right_it := if (right_it =? n)%nat then O else right_it in
      let left_it := pred (if (right_it =? 0)%nat then n else right_it) in
      match all_swarms !! right_it, all_swarms !! left_it with
      | Some right_s, Some left_s =>
          let dright := wrap64 (right_s.1 - id) in
          let dleft := wrap64 (id - left_s.1) in
          Ok (if dright <? dleft then right_s else left_s)
      | _, _ => Throw undefined_behaviour
      end
  end.

(** ** Facts *)
Lemma swarm_lt_asym a b : swarm_lt a b = true → swarm_lt b a = false.
Proof. unfold swarm_lt. rewrite Z.ltb_lt, Z.ltb_ge. lia. Qed.

#[export] Instance swarm_not_after_trans : Transitive (not_after swarm_lt).
Proof. intros a b c. unfold not_after, swarm_lt. rewrite !Z.ltb_ge. lia. Qed.

Definition id_of (s : swarm) : Z := s.1.

Lemma push_group_ids id n l :
  id_of <$> push_group id n l = if decide (id ∈ id_of <$> l) then id_of <$> l else (id_of <$> l) ++ [id].
Proof.
  induction l as [|[id' ns] l IH]; cbn [push_group]; [by rewrite decide_False by set_solver|].
  destruct (Z.eqb_spec id id') as [<-|Hn]; rewrite !fmap_cons; unfold id_of at 1; simpl fst.
  - rewrite decide_True by set_solver. done.
  - rewrite IH. unfold id_of at 4; simpl fst. repeat case_decide; set_solver.
Qed.

Lemma push_group_nodup id n l : NoDup (id_of <$> l) → NoDup (id_of <$> push_group id n l).
Proof.
  intros H. rewrite push_group_ids. case_decide; [done|]. apply NoDup_app.
  split_and!; [done|set_solver|apply NoDup_singleton].
Qed.

(** The nodes of a swarm, and those of an id that has none *)
Fixpoint members_of (id : Z) (l : list swarm) : list master_node :=
  match l with [] => [] | (id', ns) :: l => if id =? id' then ns else members_of id l end.

Lemma members_push id id' n l :
  members_of id (push_group id' n l) = members_of id l ++ (if id =? id' then [n] else []).
Proof.
  induction l as [|[j ns] l IH]; cbn [push_group members_of]; [by destruct (id =? id')|].
  destruct (Z.eqb_spec id' j) as [<-|Hn]; cbn [members_of].
  - destruct (id =? id'); [done|]. by rewrite app_nil_r.
  - rewrite IH. destruct (Z.eqb_spec id j) as [->|]; [|done].
    destruct (Z.eqb_spec j id'); [by subst|]. by rewrite app_nil_r.
Qed.

Lemma members_In id ns l : NoDup (id_of <$> l) → (id, ns) ∈ l → members_of id l = ns.
Proof.
  induction l as [|[j ms] l IH]; cbn [members_of]; [by intros ? ?%elem_of_nil|].
  rewrite fmap_cons. unfold id_of at 1; simpl fst. intros [Hj Hl]%NoDup_cons [[= -> ->]|Hi]%elem_of_cons.
  - by rewrite Z.eqb_refl.
  - destruct (Z.eqb_spec id j) as [->|]; [|by apply IH]. exfalso. apply Hj, list_elem_of_fmap. by exists (j, ns).
Qed.

Lemma members_None id l : id ∉ id_of <$> l → members_of id l = [].
Proof.
  induction l as [|[j ms] l IH]; cbn [members_of]; [done|].
  rewrite fmap_cons. unfold id_of at 1; simpl fst. intros [Hn Hl]%not_elem_of_cons.
  destruct (Z.eqb_spec id j); [done|by apply IH].
Qed.

Definition of_swarm (id : Z) (nodes : list master_node) : list master_node :=
  List.filter (λ n, swarm_id n =? id) nodes.

Lemma grouped_snoc nodes n : grouped_nodes (nodes ++ [n]) = push_group (swarm_id n) n (grouped_nodes nodes).
Proof. unfold grouped_nodes. by rewrite foldl_app. Qed.

Lemma grouped_spec nodes :
  NoDup (id_of <$> grouped_nodes nodes) ∧
  (∀ id, id ∈ id_of <$> grouped_nodes nodes ↔ id ∈ swarm_id <$> nodes) ∧
  (∀ id, members_of id (grouped_nodes nodes) = of_swarm id nodes).
Proof.
  induction nodes as [|n nodes (H1 & H2 & H3)] using rev_ind.
  { split_and!; [constructor|done|done]. }
  rewrite grouped_snoc. split_and!; [by apply push_group_nodup|intros id..].
  - rewrite push_group_ids, fmap_app. simpl. case_decide; [|set_solver].
    rewrite elem_of_app, list_elem_of_singleton, <-H2. set_solver.
  - rewrite members_push, H3. unfold of_swarm. rewrite List.filter_app. simpl.
    by rewrite (Z.eqb_sym id).
Qed.

(** ** Sorted swarms *)
Definition below_id (a b : swarm) : Prop := a.1 < b.1.

Lemma ids_distinct_sorted l :
  NoDup (id_of <$> l) → StronglySorted (not_after swarm_lt) l → StronglySorted below_id l.
Proof.
  intros Hd Hs. induction Hs as [|s l Hl IH Hs]; [constructor|].
  rewrite fmap_cons in Hd. apply NoDup_cons in Hd as [Hn Hd]. constructor; [by apply IH|].
  rewrite Forall_forall in *. intros t Ht. specialize (Hs t Ht). unfold not_after, swarm_lt in Hs.
  apply Z.ltb_ge in Hs. unfold below_id. destruct (Z.eq_dec s.1 t.1) as [E|]; [|lia].
  exfalso. apply Hn. unfold id_of at 1. rewrite E. by apply (list_elem_of_fmap_2 id_of).
Qed.

Lemma sorted_lookup {A} (R : A → A → Prop) l i j a b :
  StronglySorted R l → (i < j)%nat → l !! i = Some a → l !! j = Some b → R a b.
Proof.
  intros Hs. revert i j; induction Hs as [|x l Hl IH Hx]; intros i j Hij Ha Hb; [done|].
  destruct j as [|j]; [lia|]. simpl in Hb. destruct i as [|i]; simpl in Ha.
  - injection Ha as ->. rewrite Forall_forall in Hx. by apply Hx, list_elem_of_lookup_2 with j.
  - apply (IH i j); [lia|done..].
Qed.

Lemma generate_sorted nodes : StronglySorted below_id (generate_swarms nodes).
Proof.
  destruct (grouped_spec nodes) as (Hd & _). apply ids_distinct_sorted.
  - unfold generate_swarms. by rewrite stable_sort_perm.
  - apply stable_sort_sorted; [apply swarm_lt_asym|apply _].
Qed.

(** The order in which the groups are visited does not matter. *)
Lemma sorted_any_order nodes visited :
  visited ≡ₚ grouped_nodes nodes → stable_sort swarm_lt visited = generate_swarms nodes.
Proof.
  intros Hv. destruct (grouped_spec nodes) as (Hd & _).
  assert (StronglySorted (not_after swarm_lt) (stable_sort swarm_lt visited)) as Hs
    by (apply stable_sort_sorted; [apply swarm_lt_asym|apply _]).
  apply (sorted_unique swarm_lt).
  - intros [a na] [b nb] Ha Hb. unfold not_after, swarm_lt; simpl. rewrite !Z.ltb_ge. intros H1 H2.
    assert (a = b) as <- by lia. rewrite stable_sort_perm, Hv in Ha, Hb.
    by rewrite <-(members_In _ _ _ Hd Ha), <-(members_In _ _ _ Hd Hb).
  - done.
  - apply stable_sort_sorted; [apply swarm_lt_asym|apply _].
  - unfold generate_swarms. by rewrite !stable_sort_perm.
Qed.

Lemma generate_elem nodes id ns :
  (id, ns) ∈ generate_swarms nodes ↔ ns = of_swarm id nodes ∧ ns ≠ [].
Proof.
  destruct (grouped_spec nodes) as (Hd & Hi & Hm). unfold generate_swarms. rewrite stable_sort_perm.
  assert (of_swarm id nodes ≠ [] ↔ id ∈ swarm_id <$> nodes) as Hne.
  { rewrite list_elem_of_fmap. split.
    - destruct (of_swarm id nodes) as [|n l] eqn:E; [done|]. intros _. exists n.
      assert (n ∈ of_swarm id nodes) as Hn by (rewrite E; left). apply elem_of_Lfilter in Hn as [Hn Hid].
      by apply Z.eqb_eq in Hid.
    - intros (n & -> & Hn) E. assert (n ∈ of_swarm (swarm_id n) nodes) as Hin
        by (apply elem_of_Lfilter; by rewrite Z.eqb_refl). rewrite E in Hin. by apply elem_of_nil in Hin. }
  split.
  - intros Hin. assert (ns = of_swarm id nodes) as -> by (rewrite <-Hm; symmetry; by apply members_In).
    split; [done|]. apply Hne, Hi. by apply (list_elem_of_fmap_2 id_of) in Hin.
  - intros [-> Hn]. apply Hne, Hi, list_elem_of_fmap in Hn as ([j ms] & Hj & Hin).
    unfold id_of in Hj; simpl in Hj. subst j. by rewrite <-Hm, (members_In _ _ _ Hd Hin).
Qed.

(** ** The closest swarm *)
Definition ring_distance (a b : Z) : Z := Z.min (wrap64 (a - b)) (wrap64 (b - a)).

Lemma wrap64_neg z : - 2 ^ 64 ≤ z < 0 → wrap64 z = z + 2 ^ 64.
Proof. intros H. unfold wrap64. rewrite <-(Z.mod_small (z + 2 ^ 64) (2 ^ 64)) by lia. rewrite <-Z.add_mod_idemp_r, Z.mod_same, Z.add_0_r by lia. done. Qed.

Lemma wrap64_sub a b : 0 ≤ a < 2 ^ 64 → 0 ≤ b < 2 ^ 64 → wrap64 (a - b) = if a <? b then a - b + 2 ^ 64 else a - b.
Proof. intros Ha Hb. destruct (Z.ltb_spec a b); [apply wrap64_neg; lia|apply wrap64_small; lia]. Qed.

Definition valid_ids (l : list swarm) : Prop := Forall (λ s : swarm, 0 ≤ s.1 < 2 ^ 64) l.

Section closest.
Context (l : list swarm) (p : Z) (Hs : StronglySorted below_id l) (Hl : valid_ids l) (Hp : 0 ≤ p < 2 ^ 64).
Let lb := lower_bound (λ s : swarm, s.1 <? p) l.

Lemma before_lb i s : l !! i = Some s → (i < lb)%nat → s.1 < p.
Proof. intros Hi Hlt. apply Z.ltb_lt. by apply (proj1 (proj2 (lower_bound_spec (λ s : swarm, s.1 <? p) l)) i). Qed.

Lemma from_lb i s : l !! i = Some s → (lb ≤ i)%nat → p ≤ s.1.
Proof.
  intros Hi Hle. assert (is_Some (l !! lb)) as [t Ht]
    by (apply lookup_lt_is_Some; apply lookup_lt_Some in Hi; lia).
  pose proof (proj2 (proj2 (lower_bound_spec (λ s : swarm, s.1 <? p) l)) t Ht) as Hge. apply Z.ltb_ge in Hge.
  destruct (decide (i = lb)) as [->|]; [by rewrite Hi in Ht; injection Ht as ->|].
  assert (below_id t s) by (apply (sorted_lookup _ l lb i); [done|lia|done..]). unfold below_id in *. lia.
Qed.

Lemma id_range i s : l !! i = Some s → 0 ≤ s.1 < 2 ^ 64.
Proof. intros Hi. unfold valid_ids in Hl. rewrite Forall_lookup in Hl. by apply (Hl i). Qed.

Lemma index_order i j s t : l !! i = Some s → l !! j = Some t → (i ≤ j)%nat → s.1 ≤ t.1.
Proof.
  intros Hi Hj Hij. clear lb. destruct (decide (i = j)) as [->|]; [rewrite Hi in Hj; by injection Hj as ->|].
  assert (below_id s t) by (apply (sorted_lookup _ l i j); [done|lia|done..]). unfold below_id in *. lia.
Qed.

(** Nothing lies between the account and the swarm to its right. *)
Lemma right_nearest r t j :
  l !! (if (lb =? length l)%nat then O else lb) = Some r → l !! j = Some t →
  wrap64 (r.1 - p) ≤ wrap64 (t.1 - p).
Proof.
  intros Hr Ht. pose proof (id_range _ _ Hr). pose proof (id_range _ _ Ht). rewrite !wrap64_sub by done.
  pose proof (lookup_lt_Some _ _ _ Ht). destruct (Nat.eqb_spec lb (length l)) as [E|E].
  - pose proof (before_lb _ _ Ht ltac:(lia)). pose proof (index_order _ _ _ _ Hr Ht ltac:(lia)).
    pose proof (before_lb _ _ Hr ltac:(lia)). destruct (Z.ltb_spec r.1 p), (Z.ltb_spec t.1 p); lia.
  - pose proof (from_lb _ _ Hr ltac:(lia)). destruct (decide (j < lb)%nat).
    + pose proof (before_lb _ _ Ht ltac:(lia)). destruct (Z.ltb_spec r.1 p), (Z.ltb_spec t.1 p); lia.
    + pose proof (index_order _ _ _ _ Hr Ht ltac:(lia)). destruct (Z.ltb_spec r.1 p), (Z.ltb_spec t.1 p); lia.
Qed.

(** Nor to its left, apart from a swarm at the account's own position. *)
Lemma left_nearest s t j :
  l !! pred (if ((if (lb =? length l)%nat then O else lb) =? 0)%nat then length l
             else if (lb =? length l)%nat then O else lb) = Some s →
  l !! j = Some t → t.1 ≠ p → wrap64 (p - s.1) ≤ wrap64 (p - t.1).
Proof.
  intros Hr Ht Hne. pose proof (id_range _ _ Hr). pose proof (id_range _ _ Ht). rewrite !wrap64_sub by done.
  pose proof (lookup_lt_Some _ _ _ Ht). pose proof (proj1 (lower_bound_spec (λ s : swarm, s.1 <? p) l)).
  destruct (Nat.eqb_spec lb (length l)) as [E|E]; [|destruct (Nat.eqb_spec lb 0) as [E0|E0]]; simpl in Hr.
  - pose proof (before_lb _ _ Ht ltac:(lia)). pose proof (index_order _ _ _ _ Ht Hr ltac:(lia)).
    pose proof (before_lb _ _ Hr ltac:(lia)). destruct (Z.ltb_spec p s.1), (Z.ltb_spec p t.1); lia.
  - pose proof (from_lb _ _ Ht ltac:(lia)). pose proof (index_order _ _ _ _ Ht Hr ltac:(lia)).
    destruct (Z.ltb_spec p s.1), (Z.ltb_spec p t.1); lia.
  - pose proof (before_lb _ _ Hr ltac:(lia)). destruct (decide (j < lb)%nat).
    + pose proof (before_lb _ _ Ht ltac:(lia)). pose proof (index_order _ _ _ _ Ht Hr ltac:(lia)).
      destruct (Z.ltb_spec p s.1), (Z.ltb_spec p t.1); lia.
    + pose proof (from_lb _ _ Ht ltac:(lia)). destruct (Z.ltb_spec p s.1), (Z.ltb_spec p t.1); lia.
Qed.
End closest.

Lemma swarm_space_range pk : 0 ≤ pubkey_to_swarm_space pk < 2 ^ 64.
Proof.
  unfold pubkey_to_swarm_space, big_to_host, be_value.
  match goal with |- context [le_write 8 ?z] => pose proof (be_from_bound (le_write 8 z)) as Hb end.
  unfold size in Hb. by rewrite le_write_length in Hb.
Qed.

Lemma wrap64_sub_inj a b p :
  0 ≤ a < 2 ^ 64 → 0 ≤ b < 2 ^ 64 → 0 ≤ p < 2 ^ 64 → wrap64 (a - p) = wrap64 (b - p) → a = b.
Proof. intros Ha Hb Hp. rewrite !wrap64_sub by done. destruct (Z.ltb_spec a p), (Z.ltb_spec b p); lia. Qed.

Lemma same_id l i j s t : StronglySorted below_id l → l !! i = Some s → l !! j = Some t → s.1 = t.1 → s = t.
Proof.
  intros Hs Hi Hj E. destruct (Nat.lt_trichotomy i j) as [H|[->|H]].
  - pose proof (sorted_lookup _ _ _ _ _ _ Hs H Hi Hj) as Hb. unfold below_id in Hb. lia.
  - rewrite Hi in Hj. by injection Hj.
  - pose proof (sorted_lookup _ _ _ _ _ _ Hs H Hj Hi) as Hb. unfold below_id in Hb. lia.
Qed.

Lemma get_swarm_nearest pk l :
  StronglySorted below_id l → valid_ids l → l ≠ [] →
  ∃ s, get_swarm pk l = Ok s ∧ s ∈ l ∧
    let id := pubkey_to_swarm_space pk in
    ∀ t, t ∈ l → ring_distance s.1 id ≤ ring_distance t.1 id ∧
      (ring_distance t.1 id = ring_distance s.1 id → t = s ∨ ring_distance s.1 id = wrap64 (id - s.1)).
Proof.
  intros Hs Hl Hne. set (p := pubkey_to_swarm_space pk). pose proof (swarm_space_range pk) as Hp. fold p in Hp.
  destruct l as [|s1 [|s2 l']] eqn:El; [done| |rewrite <-El in *].
  { exists s1. split; [done|]. split; [left|]. intros id t ->%list_elem_of_singleton. split; [lia|by left]. }
  assert (get_swarm pk l = _) as Hg by (rewrite El; unfold get_swarm; rewrite <-El; reflexivity).
  fold p in Hg. pose proof (proj1 (lower_bound_spec (λ s : swarm, s.1 <? p) l)) as Hlb.
  assert (0 < length l)%nat as Hlen by (rewrite El; simpl; lia). clear El Hne.
  set (lb := lower_bound (λ s : swarm, s.1 <? p) l) in *.
  set (ri := if (lb =? length l)%nat then O else lb) in *.
  assert (ri < length l)%nat as Hri by (unfold ri; destruct (Nat.eqb_spec lb (length l)); lia).
  destruct (lookup_lt_is_Some_2 l ri Hri) as [r Hr].
  destruct (lookup_lt_is_Some_2 l (pred (if (ri =? 0)%nat then length l else ri))) as [s Hls].
  { destruct (Nat.eqb_spec ri 0); lia. }
  rewrite Hr, Hls in Hg. rewrite Hg.
  set (c := if wrap64 (r.1 - p) <? wrap64 (p - s.1) then r else s). exists c. split; [done|].
  split; [unfold c; destruct (_ <? _); by eapply list_elem_of_lookup_2|]. intros id t [j Ht]%list_elem_of_lookup_1.
  subst id. pose proof (right_nearest l p Hs Hl Hp r t j Hr Ht) as Hright.
  pose proof (left_nearest l p Hs Hl Hp s t j Hls Ht) as Hleft.
  assert (wrap64 (t.1 - p) = wrap64 (r.1 - p) → t = r) as Hinj.
  { intros E. apply (same_id l j ri); [done..|]. unfold valid_ids in Hl. rewrite Forall_lookup in Hl.
    apply (wrap64_sub_inj _ _ p); [by apply (Hl j)|by apply (Hl ri)|done..]. }
  pose proof (right_nearest l p Hs Hl Hp r s _ Hr Hls) as Hrs. pose proof (left_nearest l p Hs Hl Hp s r _ Hls Hr) as Hlr.
  assert (∀ z, z = p → wrap64 (z - p) = 0 ∧ wrap64 (p - z) = 0) as Hz by (intros z ->; by rewrite Z.sub_diag).
  assert (∀ z, 0 ≤ wrap64 z) as Hpos by (intros z; apply Z.mod_pos_bound; lia).
  pose proof (Hpos (r.1 - p)). pose proof (Hpos (p - s.1)). pose proof (Hpos (p - t.1)). pose proof (Hpos (p - r.1)).
  pose proof (Hz r.1). pose proof (Hz t.1). clear Hz Hpos. unfold ring_distance, c.
  destruct (Z.ltb_spec (wrap64 (r.1 - p)) (wrap64 (p - s.1))), (Z.eq_dec t.1 p), (Z.eq_dec r.1 p);
    (split; [lia|intros E]); ((right; lia) || (left; apply Hinj; lia)).
Qed.

Lemma generate_valid_ids nodes :
  Forall (λ n, 0 ≤ swarm_id n < 2 ^ 64) nodes → valid_ids (generate_swarms nodes).
Proof.
  intros H. apply Forall_forall. intros [id ns] [-> Hn]%generate_elem. simpl.
  destruct (of_swarm id nodes) as [|n l] eqn:E; [done|].
  assert (n ∈ of_swarm id nodes) as [Hin Hid]%elem_of_Lfilter by (rewrite E; left).
  apply Z.eqb_eq in Hid as <-. rewrite Forall_forall in H. by apply H.
Qed.

Lemma generate_nonempty nodes : nodes ≠ [] → generate_swarms nodes ≠ [].
Proof.
  destruct nodes as [|n nodes]; [done|]. intros _ E.
  assert ((swarm_id n, of_swarm (swarm_id n) (n :: nodes)) ∈ generate_swarms (n :: nodes)) as Hin.
  { apply generate_elem. split; [done|]. simpl. by rewrite Z.eqb_refl. }
  rewrite E in Hin. by apply elem_of_nil in Hin.
Qed.

(** (functional): the swarm of an account is found, whatever the nodes: it
    is made of exactly the nodes with some swarm id, in the order they have in
    the cache, and that id is at the smallest distance from the account's
    position around the ring of 64-bit ids.  Of two ids at that distance the
    one below the position is taken, so that every client agrees. *)
Theorem account_swarm (pk : bytes) (nodes : list master_node) :
  nodes ≠ [] → Forall (λ n, 0 ≤ swarm_id n < 2 ^ 64) nodes →
  let at_ := pubkey_to_swarm_space pk in
  ∃ id, get_swarm pk (generate_swarms nodes) = Ok (id, of_swarm id nodes) ∧ id ∈ swarm_id <$> nodes ∧
    ∀ n, n ∈ nodes → ring_distance id at_ ≤ ring_distance (swarm_id n) at_ ∧
      (ring_distance (swarm_id n) at_ = ring_distance id at_ →
       swarm_id n = id ∨ ring_distance id at_ = wrap64 (at_ - id)).
Proof.
  intros Hne Hv at_.
  destruct (get_swarm_nearest pk _ (generate_sorted nodes) (generate_valid_ids _ Hv) (generate_nonempty _ Hne))
    as ([id ns] & Hg & Hin & Hmin).
  apply generate_elem in Hin as [-> Hns]. exists id. split; [done|]. split.
  - destruct (of_swarm id nodes) as [|n l] eqn:E; [done|].
    assert (n ∈ of_swarm id nodes) as [Hn Hid]%elem_of_Lfilter by (rewrite E; left).
    apply Z.eqb_eq in Hid as <-. by apply (list_elem_of_fmap_2 swarm_id).
  - intros n Hn. destruct (Hmin (swarm_id n, of_swarm (swarm_id n) nodes)) as [H1 H2].
    { apply generate_elem. split; [done|]. assert (n ∈ of_swarm (swarm_id n) nodes) as Hm
        by (apply elem_of_Lfilter; by rewrite Z.eqb_refl). intros E. rewrite E in Hm. by apply elem_of_nil in Hm. }
    split; [done|]. intros E. destruct (H2 E) as [H3|H3]; [left; by injection H3|by right].
Qed.

Definition sample_nodes : list master_node :=
  [mkNode (zeros 32) 1 22021 22020 (2, 8, 0) (2 ^ 63) 0; mkNode (zeros 31 +:+ "a") 2 22021 22020 (2, 8, 0) 5 0;
   mkNode (zeros 31 +:+ "b") 3 22021 22020 (2, 8, 0) (2 ^ 64 - 6) 0; mkNode (zeros 31 +:+ "c") 4 22021 22020 (2, 8, 0) 5 0].

Lemma account_swarm_witness :
  pubkey_to_swarm_space (zeros 24 +:+ zeros 7 +:+ "A") = 65 ∧
  get_swarm (zeros 32) (generate_swarms sample_nodes) = Ok (5, of_swarm 5 sample_nodes) ∧
  ∃ id, get_swarm (zeros 32) (generate_swarms sample_nodes) = Ok (id, of_swarm id sample_nodes) ∧ id ∈ swarm_id <$> sample_nodes.
Proof.
  split; [vm_compute; reflexivity|]. split; [vm_compute; reflexivity|].
  destruct (account_swarm (zeros 32) sample_nodes) as (id & H1 & H2 & _); [discriminate|by repeat constructor|].
  by exists id.
Defined.
