(* ===== verification/MasterNode.v ===== *)
(** * Master nodes on disk and on the wire

    [src/network/master_node.cpp] and the disk format of
    [include/bchat/network/master_node.hpp]: a node as a line of the cache
    file, as a record of the binary node list that nodes serve, and as JSON;
    and the cache file itself, of [src/network/mnode_pool.cpp]. *)

From Stdlib Require Import ZArith String Ascii DecimalString Lia.
From stdpp Require Import base option strings numbers sorting sets list.
From S2P Require Import Prelude OrderedMap Bt Bencode Crypto Text Ids Wire StableSort Swarm.

(** ** The parts of the quic library that are used *)
Class Quic := {
  (** [quic::parse_int] into an integer type from [lo] to [hi]: the value of a
      string that is a number of that type in the given base, all of it *)
  parse_int : Z → Z → Z → bytes → option Z;
  (** [quic::ipv4{str}], [ipv4::to_string] *)
  ipv4_from : bytes → result Z;
  ipv4_to_string : Z → bytes;
  (** [quic::ipv4{span}] of 4 bytes, and [ipv4::to_base(mask)] *)
  ipv4_of_bytes : bytes → Z;
  to_base : Z → Z → Z;
}.

Definition print_Zn (z : Z) : bytes := print_N (Z.to_N z).
Definition ip_char (c : ascii) : bool := is_digit c || Ascii.eqb c ".".

Class QuicLaws `{Quic} := {
  parse_int_decimal : ∀ lo hi z, lo ≤ 0 → 0 ≤ z ≤ hi → parse_int lo hi 10 (print_Zn z) = Some z;
  ipv4_text : ∀ a, 0 ≤ a < 2 ^ 32 → ipv4_from (ipv4_to_string a) = Ok a;
  ipv4_chars : ∀ a, all_chars ip_char (ipv4_to_string a) = true;
  ipv4_big_endian : ∀ s, size s = 4 → ipv4_of_bytes s = be_value s;
}.

Definition u16_max : Z := 65535.
Definition parse_u16 `{Quic} : bytes → option Z := parse_int 0 u16_max 10.

Section formats.
Context `{Quic, Oxenc}.

(** ** The line of a node in the cache file *)
Definition eol : ascii := "010".
Definition version_text (v : Z * Z * Z) : bytes :=
  let '(a, b, c) := v in join "." [print_Zn a; print_Zn b; print_Zn c].
Definition to_disk (n : master_node) : bytes :=
  join "|" [to_hex (remote_pubkey n); ipv4_to_string (ip n); print_Zn (https_port n);
            print_Zn (omq_port n); version_text (storage_server_version n); print_Zn (swarm_id n)]
  +:+ String eol "".

(** One component of the version: 0 when missing or not a number *)
Definition version_part (parts : list bytes) (i : nat) : Z :=
  match parts !! i with Some s => default 0 (parse_u16 s) | None => 0 end.
Definition no_version (v : Z * Z * Z) : bool :=
  let '(a, b, c) := v in (a =? 0) && (b =? 0) && (c =? 0).

Definition from_disk (str : bytes) : result master_node :=
  parts ← split str "|" false;
  match parts with
  | [p0; p1; p2; p3; p4; p5] =>
      _ ← require ((size p0 =? 64) && is_hex p0) invalid_argument;
      https ← from_option_or invalid_argument (parse_u16 p2);
      omq ← from_option_or invalid_argument (parse_u16 p3);
      version_parts ← split p4 "." false;
      let version := (version_part version_parts 0, version_part version_parts 1, version_part version_parts 2) in
      _ ← require (negb (no_version version)) invalid_argument;
      let swarm := default INVALID_SWARM_ID (parse_int 0 uint64_max 10 p5) in
      addr ← ipv4_from p1;
      Ok (mkNode (from_hex p0) addr https omq version swarm 0)
  | _ => Throw invalid_argument
  end.

(** ** The cache file *)

(** [find_first_of("\n\r")] *)
Fixpoint find_eol (s : bytes) : option nat :=
  match s with
  | "" => None
  | String c s => if Ascii.eqb c eol || Ascii.eqb c "013" then Some O else S <$> find_eol s
  end.

Fixpoint load_lines (fuel : nat) (data : bytes) (nodes : list master_node) (invalid : Z)
    : result (list master_node * Z) :=
  match fuel with
  | O => Throw out_of_fuel
  | S fuel =>
      if size data =? 0 then Ok (nodes, invalid) else
      match find_eol data with
      | Some O => load_lines fuel (sdrop 1 data) nodes invalid
      | end_ =>
          let line := match end_ with Some e => stake e data | None => data end in
          let data := sdrop (String.length line) data in
          match from_disk line with
          | Ok n => load_lines fuel data (nodes ++ [n]) invalid
          | Throw undefined_behaviour => Throw undefined_behaviour
          | Throw _ => load_lines fuel data nodes (invalid + 1)
          end
      end
  end.

(** The nodes of a cache file that exists *)
Definition load_cache (contents : bytes) : result (list master_node) :=
  '(nodes, _) ← load_lines (S (String.length contents)) contents [] 0;
  _ ← require (negb ((0 <? size contents) && (length nodes =? 0)%nat)) runtime_error;
  Ok nodes.

(** The contents [_perform_cache_write] gives the file; an empty cache is not
    written *)
Definition cache_contents (cache : list master_node) : result bytes :=
  _ ← require (negb (length cache =? 0)%nat) runtime_error;
  Ok (sconcat (to_disk <$> cache)).

(** ** The binary node list *)
Definition MNODE_SIZE : nat := 51.

(** One record: 32 bytes of key, 8 of swarm id, 4 of address, 2 and 2 of ports
    and 3 of version, all big-endian *)
Definition bin_node (r : bytes) : result master_node :=
  let pubkey := stake 32 r in
  let swarm_id := shift_or 0 (stake 8 (sdrop 32 r)) in
  let addr := ipv4_of_bytes (stake 4 (sdrop 40 r)) in
  _ ← require (negb (addr =? 0)) runtime_error;
  let https := shift_or 0 (stake 2 (sdrop 44 r)) in
  let quic_port := shift_or 0 (stake 2 (sdrop 46 r)) in
  _ ← require (negb (quic_port =? 0)) runtime_error;
  let version i := le_value (stake 1 (sdrop (48 + i) r)) in
  Ok (mkNode pubkey addr https quic_port (version 0%nat, version 1%nat, version 2%nat) swarm_id 0).

Fixpoint bin_loop (fuel : nat) (b : bytes) (nodes : list master_node) (failed_nodes : Z)
    : result (list master_node * Z) :=
  match fuel with
  | O => Throw out_of_fuel
  | S fuel =>
      if size b =? 0 then Ok (nodes, failed_nodes) else
      match bin_node (stake MNODE_SIZE b) with
      | Ok n => bin_loop fuel (sdrop MNODE_SIZE b) (nodes ++ [n]) failed_nodes
      | Throw _ => bin_loop fuel (sdrop MNODE_SIZE b) nodes (failed_nodes + 1)
      end
  end.

Definition process_mnode_cache_bin (cache_bin : bytes) : result (list master_node * Z) :=
  _ ← require (size cache_bin mod Z.of_nat MNODE_SIZE =? 0) runtime_error;
  bin_loop (S (String.length cache_bin)) cache_bin [] 0.
End formats.

(** ** JSON *)

(** What is used of the JSON library: [j.contains(k)], [j[k]] (null for a key
    that is missing), [j.at(k)], [j.is_array()] and the conversions [j.get<T>()];
    all but the first throw for a value of another kind *)
Class JsonLib := {
  json : Type;
  contains : json → bytes → bool;
  json_index : json → bytes → result json;
  json_at : json → bytes → result json;
  is_array : json → bool;
  get_array : json → result (list json);
  get_string : json → result bytes;
  get_int : json → result Z;
  get_u16 : json → result Z;
  get_u64 : json → result Z;
}.

(** They fail with exceptions of the library; a number that does not fit is
    converted as a cast does, which may be undefined. *)
Definition json_failure (e : exn) : Prop := e = json_error ∨ e = undefined_behaviour.
Class JsonLaws `{JsonLib} := {
  json_at_throws : ∀ j k e, json_at j k = Throw e → json_failure e;
  get_array_throws : ∀ j e, get_array j = Throw e → json_failure e;
  get_int_throws : ∀ j e, get_int j = Throw e → json_failure e;
}.

Section from_json.
Context `{JsonLib, Quic, Oxenc}.

Definition get_field {A} (j : json) (k : bytes) (get : json → result A) : result A :=
  v ← json_index j k; get v.

(** The version of a list of numbers or of a dotted string *)
Definition json_version (j : json) : result (Z * Z * Z) :=
  if negb (contains j "storage_server_version") then Ok (0, 0, 0) else
  v ← json_index j "storage_server_version";
  vs ← (if is_array v then l ← get_array v; mapR (λ e, z ← get_int e; Ok (z mod 2 ^ 16)) l
        else s ← get_string v;
             parts ← split s "." false;
             mapR (λ p, from_option_or invalid_argument
               ((λ z, z mod 2 ^ 16) <$> parse_int (- 2 ^ 31) (2 ^ 31 - 1) 10 p)) (take 3 parts));
  Ok (default 0 (vs !! 0%nat), default 0 (vs !! 1%nat), default 0 (vs !! 2%nat)).

Definition json_swarm_id (j : json) : result Z :=
  if contains j "swarm_id" then get_field j "swarm_id" get_u64
  else if contains j "swarm" then
    s ← get_field j "swarm" get_string; from_option_or runtime_error (parse_int 0 uint64_max 16 s)
  else Ok INVALID_SWARM_ID.

(** [garbage] is what the unlock height holds when the JSON has none: the
    variable is not initialised *)
Definition from_json (garbage : Z) (j : json) : result master_node :=
  pk_ed ← get_field j "pubkey_ed25519" get_string;
  _ ← require ((size pk_ed =? 64) && is_hex pk_ed) invalid_argument;
  version ← json_version j;
  ip ← get_field j (if contains j "public_ip" then "public_ip" else "ip") get_string;
  _ ← require (negb (keqb ip "0.0.0.0")) runtime_error;
  https ← get_field j (if contains j "storage_https_port" then "storage_https_port"
                       else if contains j "storage_port" then "storage_port" else "port_https") get_u16;
  omq ← get_field j (if contains j "storage_lmq_port" then "storage_lmq_port" else "port_omq") get_u16;
  _ ← require (negb (omq =? 0)) runtime_error;
  swarm ← json_swarm_id j;
  height ← (if contains j "requested_unlock_height" then get_field j "requested_unlock_height" get_u64 else Ok garbage);
  addr ← ipv4_from ip;
  Ok (mkNode (from_hex pk_ed) addr https omq version swarm height).
End from_json.

(** ** Splitting joined parts *)
Lemma find_lacks c a : lacks c a = true → find (String c "") a = None.
Proof.
  induction a as [|c' a IH]; [done|]. cbn [lacks]. intros [H1 H2]%andb_true_iff.
  cbn [find String.prefix]. destruct (ascii_dec c c') as [->|]; [by rewrite Ascii.eqb_refl in H1|].
  by rewrite (IH H2).
Qed.

Lemma find_first c a rest : lacks c a = true → find (String c "") (a +:+ String c rest) = Some (String.length a).
Proof.
  induction a as [|c' a IH].
  - intros _. cbn [String.append find]. change (String.prefix (String c "") (String c rest)) with (if ascii_dec c c then String.prefix "" rest else false).
    destruct (ascii_dec c c); [by destruct rest|done].
  - cbn [lacks]. intros [H1 H2]%andb_true_iff. cbn [String.append find String.prefix].
    destruct (ascii_dec c c') as [->|]; [by rewrite Ascii.eqb_refl in H1|]. by rewrite (IH H2).
Qed.

Lemma split_loop_join c p ps fuel acc :
  Forall (λ s, lacks c s = true) (p :: ps) → (length ps < fuel)%nat →
  split_loop fuel (join (String c "") (p :: ps)) (String c "") false acc =
    Ok (acc ++ removelast (p :: ps), List.last (p :: ps) "").
Proof.
  revert p fuel acc; induction ps as [|q ps IH]; intros p fuel acc Hf Hl; (destruct fuel as [|fuel]; [simpl in Hl; lia|]).
  - apply Forall_cons_1 in Hf as [Hp _]. cbn [join split_loop]. rewrite find_lacks by done. simpl. by rewrite app_nil_r.
  - apply Forall_cons_1 in Hf as [Hp Hf]. change (join (String c "") (p :: q :: ps)) with (p +:+ String c (join (String c "") (q :: ps))).
    cbn [split_loop]. rewrite find_first by done. cbn [negb orb String.length].
    rewrite stake_app. replace (String.length p + 1)%nat with (String.length (p +:+ String c "")) by (rewrite string_length_app; simpl; lia).
    replace (p +:+ String c (join (String c "") (q :: ps))) with ((p +:+ String c "") +:+ join (String c "") (q :: ps))
      by (rewrite append_assoc; done).
    rewrite sdrop_app, IH; [|exact Hf|simpl in Hl; lia]. rewrite <-app_assoc. done.
Qed.

Lemma join_length c p ps : (length ps ≤ String.length (join (String c "") (p :: ps)))%nat.
Proof.
  revert p; induction ps as [|q ps IH]; intros p; [simpl; lia|].
  change (join (String c "") (p :: q :: ps)) with (p +:+ String c (join (String c "") (q :: ps))).
  rewrite string_length_app. specialize (IH q). cbn [String.length length]. lia.
Qed.

Lemma split_join c p ps :
  Forall (λ s, lacks c s = true) (p :: ps) → split (join (String c "") (p :: ps)) (String c "") false = Ok (p :: ps).
Proof.
  intros Hf. unfold split. change (size (String c "") =? 0) with false. cbv iota.
  rewrite split_loop_join; [|done|pose proof (join_length c p ps); lia]. cbn [mbind result_bind negb orb]. f_equal.
  symmetry. apply (app_removelast_last "" (l := p :: ps)). discriminate.
Qed.

(** ** The text of the fields *)
Lemma all_chars_lacks f c s : all_chars f s = true → f c = false → lacks c s = true.
Proof.
  intros Hs Hc. induction s as [|d s IH]; [done|]. cbn [all_chars lacks] in *. apply andb_true_iff in Hs as [Hd Hs].
  rewrite (IH Hs), andb_true_r. apply negb_true_iff, Ascii.eqb_neq. by intros ->; rewrite Hd in Hc.
Qed.

Lemma print_digits n : all_chars is_digit (print_N n) = true.
Proof.
  unfold print_N, NilZero.string_of_uint.
  assert (∀ d, all_chars is_digit (NilEmpty.string_of_uint d) = true) as Hall by (intros d; induction d; simpl; auto).
  destruct (N.to_uint n) as [|d|d|d|d|d|d|d|d|d|d]; [done|apply (Hall (_ d))..].
Qed.

Definition hex_char (c : ascii) : bool := is_digit c || between "a" c "f".

Lemma hex_digits_chars s : all_chars hex_char (hex_digits s) = true.
Proof.
  assert (∀ n, 0 ≤ n < 16 → hex_char (hex_digit n) = true) as Hd.
  { intros n Hn. assert (Forall (λ n, hex_char (hex_digit n) = true) (seqZ 0 16)) as Hall by repeat constructor.
    rewrite Forall_forall in Hall. apply Hall, elem_of_seqZ. lia. }
  induction s as [|c s IH]; [done|]. cbn [hex_digits all_chars]. pose proof (code_bound c).
  rewrite !Hd, IH; [done|apply Z.mod_pos_bound; lia|].
  split; [apply Z.div_pos; lia|apply Z.div_lt_upper_bound; lia].
Qed.

(** ** Reading back what was written *)
Section roundtrip.
Context `{QuicLaws, OxencLaws}.

Definition u16 (z : Z) : Prop := 0 ≤ z ≤ u16_max.
Definition node_ok (n : master_node) : Prop :=
  size (remote_pubkey n) = 32 ∧ 0 ≤ ip n < 2 ^ 32 ∧ u16 (https_port n) ∧ u16 (omq_port n) ∧
  (let '(a, b, c) := storage_server_version n in u16 a ∧ u16 b ∧ u16 c) ∧ 0 ≤ swarm_id n ≤ uint64_max.

(** The cache file does not keep the unlock height. *)
Definition without_height (n : master_node) : master_node :=
  mkNode (remote_pubkey n) (ip n) (https_port n) (omq_port n) (storage_server_version n) (swarm_id n) 0.
Definition usable_version (n : master_node) : bool := negb (no_version (storage_server_version n)).

Definition disk_line (n : master_node) : bytes :=
  join "|" [to_hex (remote_pubkey n); ipv4_to_string (ip n); print_Zn (https_port n);
            print_Zn (omq_port n); version_text (storage_server_version n); print_Zn (swarm_id n)].

Lemma print_lacks c z : is_digit c = false → lacks c (print_Zn z) = true.
Proof. intros Hc. by apply (all_chars_lacks is_digit), Hc; apply print_digits. Qed.

Lemma parse_u16_print z : u16 z → parse_u16 (print_Zn z) = Some z.
Proof. intros Hz. by apply parse_int_decimal. Qed.

Definition version_char (c : ascii) : bool := is_digit c || Ascii.eqb c ".".

Lemma version_chars v : all_chars version_char (version_text v) = true.
Proof.
  assert (∀ z, all_chars version_char (print_Zn z) = true) as Hd.
  { intros z. apply (all_chars_impl is_digit); [|apply print_digits]. unfold version_char. by intros c ->. }
  destruct v as [[a b] c]. cbn [version_text join]. by rewrite !all_chars_app, !Hd.
Qed.

Lemma from_disk_line n :
  node_ok n → from_disk (disk_line n) = if usable_version n then Ok (without_height n) else Throw invalid_argument.
Proof.
  intros (Hk & Hip & Hh & Ho & Hv & Hs). unfold from_disk, disk_line. rewrite split_join.
  2: { repeat constructor; [rewrite to_hex_digits; by apply (all_chars_lacks hex_char); [apply hex_digits_chars|]
       |by apply (all_chars_lacks ip_char); [apply ipv4_chars|]|by apply print_lacks..
       |by apply (all_chars_lacks version_char); [apply version_chars|]|by apply print_lacks]. }
  rewrite bind_ret, to_hex_digits, hex_digits_size, Hk, is_hex_digits, !parse_u16_print by done. simpl mbind.
  unfold usable_version, without_height. destruct (storage_server_version n) as [[a b] c]. destruct Hv as (Ha & Hb & Hc).
  unfold version_text. rewrite split_join by (repeat constructor; by apply print_lacks). simpl mbind.
  unfold version_part. cbn [lookup list_lookup]. rewrite !parse_u16_print by done. simpl default. unfold id. cbn [no_version].
  destruct ((a =? 0) && (b =? 0) && (c =? 0)); [done|]. simpl mbind.
  rewrite ipv4_text, parse_int_decimal, from_hex_digits by (done || lia). done.
Qed.

Lemma line_no_eol n c : c = eol ∨ c = "013"%char → lacks c (disk_line n) = true.
Proof.
  intros Hc. set (f d := hex_char d || Ascii.eqb d "." || Ascii.eqb d "|").
  apply (all_chars_lacks f); [|by destruct Hc as [->| ->]].
  assert (∀ g s, (∀ d, g d = true → f d = true) → all_chars g s = true → all_chars f s = true) as Hi
    by (intros g s; apply all_chars_impl).
  unfold disk_line. cbn [join]. rewrite !all_chars_app. cbn [all_chars].
  assert (∀ z, all_chars f (print_Zn z) = true) as Hp.
  { intros z. apply (Hi is_digit); [|apply print_digits]. unfold f, hex_char. by intros d ->. }
  rewrite !Hp, to_hex_digits, (Hi hex_char (hex_digits _)), (Hi ip_char (ipv4_to_string _)), (Hi version_char (version_text _));
    [done|..]; try apply version_chars; try apply ipv4_chars; try apply hex_digits_chars; intros d;
    unfold f, version_char, ip_char, hex_char; destruct (is_digit d); cbn [orb]; try done; [..|by intros ->];
    intros ->; by rewrite orb_true_r.
Qed.

Lemma find_eol_first s rest :
  lacks eol s = true → lacks "013" s = true → find_eol (s +:+ String eol rest) = Some (String.length s).
Proof.
  induction s as [|c s IH]; [done|]. cbn [lacks]. intros [Hc1 Hs1]%andb_true_iff [Hc2 Hs2]%andb_true_iff.
  cbn [String.append find_eol]. apply negb_true_iff in Hc1, Hc2. rewrite Hc1, Hc2, IH by done. done.
Qed.

Lemma disk_line_nonempty n : String.length (disk_line n) ≠ O.
Proof. unfold disk_line. cbn [join]. rewrite string_length_app. cbn [String.append String.length]. lia. Qed.

Definition kept (cache : list master_node) : list master_node :=
  without_height <$> List.filter usable_version cache.

Lemma load_lines_written cache fuel acc bad :
  Forall node_ok cache → (2 * length cache < fuel)%nat →
  load_lines fuel (sconcat (to_disk <$> cache)) acc bad =
    Ok (acc ++ kept cache, bad + Z.of_nat (length (List.filter (λ n, negb (usable_version n)) cache))).
Proof.
  intros Hc. revert fuel acc bad; induction Hc as [|n cache Hn Hc IH]; intros fuel acc bad Hl;
    (destruct fuel as [|[|fuel]]; simpl in Hl; try lia).
  - simpl. by rewrite app_nil_r, Z.add_0_r.
  - simpl. by rewrite app_nil_r, Z.add_0_r.
  - rewrite fmap_cons, sconcat_cons. change (to_disk n) with (disk_line n +:+ String eol "").
    rewrite append_assoc. cbn [String.append]. set (rest := sconcat (to_disk <$> cache)).
    pose proof (disk_line_nonempty n) as Hne.
    assert (load_lines (S (S fuel)) (disk_line n +:+ String eol rest) acc bad =
            match from_disk (disk_line n) with
            | Ok m => load_lines (S fuel) (String eol rest) (acc ++ [m]) bad
            | Throw undefined_behaviour => Throw undefined_behaviour
            | Throw _ => load_lines (S fuel) (String eol rest) acc (bad + 1)
            end) as ->.
    { cbn [load_lines]. rewrite find_eol_first by (apply line_no_eol; auto).
      destruct (Z.eqb_spec (size (disk_line n +:+ String eol rest)) 0) as [E|_].
      { unfold size in E. rewrite string_length_app in E. lia. }
      destruct (String.length (disk_line n)) as [|k] eqn:Ek; [done|]. by rewrite <-Ek, stake_app, sdrop_app. }
    assert (∀ acc bad, load_lines (S fuel) (String eol rest) acc bad = load_lines fuel rest acc bad) as Hskip by done.
    rewrite from_disk_line by done. unfold kept. cbn [List.filter].
    destruct (usable_version n) eqn:E; rewrite Hskip; unfold rest; rewrite IH by lia; cbn [negb];
      (f_equal; f_equal); [by rewrite <-app_assoc|simpl length; lia].
Qed.

(** (roundtrip): a cache file that was written is read back: every node
    whose version is not 0.0.0 comes back in its place, without the unlock
    height, which the file does not hold.  A node with version 0.0.0 is
    written but skipped on reading, and a file with no other node is invalid. *)
Theorem cache_file_roundtrip (cache : list master_node) :
  Forall node_ok cache → cache ≠ [] →
  ∃ contents, cache_contents cache = Ok contents ∧
    load_cache contents = if (length (kept cache) =? 0)%nat then Throw runtime_error else Ok (kept cache).
Proof.
  intros Hc Hne. exists (sconcat (to_disk <$> cache)). split.
  { unfold cache_contents. destruct cache; [done|reflexivity]. }
  assert (2 * length cache ≤ String.length (sconcat (to_disk <$> cache)))%nat as Hl.
  { clear Hc Hne. induction cache as [|n cache IH]; [simpl; lia|]. rewrite fmap_cons, sconcat_cons, string_length_app.
    change (to_disk n) with (disk_line n +:+ String eol ""). rewrite string_length_app.
    pose proof (disk_line_nonempty n). cbn [String.length length]. lia. }
  unfold load_cache. rewrite load_lines_written by (done || lia). cbn [mbind result_bind]. rewrite app_nil_l.
  assert (0 <? size (sconcat (to_disk <$> cache)) = true) as ->.
  { apply Z.ltb_lt. unfold size. destruct cache; [done|]. cbn [length] in Hl. lia. }
  by destruct (length (kept cache) =? 0)%nat.
Qed.
End roundtrip.

(** ** The binary list *)
Section binary.
Context `{QuicLaws}.

Definition be_record (n : master_node) : bytes :=
  let '(a, b, c) := storage_server_version n in
  remote_pubkey n +:+ be_write 8 (swarm_id n) +:+ be_write 4 (ip n) +:+ be_write 2 (https_port n) +:+
  be_write 2 (omq_port n) +:+ be_write 1 a +:+ be_write 1 b +:+ be_write 1 c.

Definition byte (z : Z) : Prop := 0 ≤ z < 256.
Definition record_ok (n : master_node) : Prop :=
  size (remote_pubkey n) = 32 ∧ 0 ≤ ip n < 2 ^ 32 ∧ u16 (https_port n) ∧ u16 (omq_port n) ∧
  (let '(a, b, c) := storage_server_version n in byte a ∧ byte b ∧ byte c) ∧
  0 ≤ swarm_id n ≤ uint64_max ∧ requested_unlock_height n = 0.

(** A node without an address or a port is not usable yet. *)
Definition reachable_node (n : master_node) : bool := negb (ip n =? 0) && negb (omq_port n =? 0).

Lemma be_record_length n : record_ok n → String.length (be_record n) = MNODE_SIZE.
Proof.
  intros (Hk & _). unfold be_record. destruct (storage_server_version n) as [[a b] c].
  rewrite !string_length_app, !be_write_length. unfold size in Hk. unfold MNODE_SIZE. lia.
Qed.

Lemma shift_or_write n z : (n ≤ 8)%nat → 0 ≤ z < 256 ^ Z.of_nat n → shift_or 0 (be_write n z) = z.
Proof.
  intros Hn Hz. pose proof (be_value_write n z) as Hv. rewrite Z.mod_small in Hv by done. unfold be_value in Hv.
  rewrite shift_or_be; rewrite ?Hv; [lia|lia|].
  assert (256 ^ Z.of_nat n ≤ 256 ^ 8) by (apply Z.pow_le_mono_r; lia). change (2 ^ 64) with (256 ^ 8). lia.
Qed.

Lemma sdrop_field pre s k : (String.length pre ≤ k)%nat → sdrop k (pre +:+ s) = sdrop (k - String.length pre) s.
Proof.
  revert k; induction pre as [|c pre IH]; intros k Hk; [by rewrite Nat.sub_0_r|].
  destruct k as [|k]; [simpl in Hk; lia|]. cbn [String.length Nat.sub String.append sdrop] in *. apply IH. lia.
Qed.

Lemma stake_field k f post : String.length f = k → stake k (f +:+ post) = f.
Proof. intros <-. apply stake_app. Qed.

(** Skips the fields before an offset, and takes the one there. *)
Ltac take_field :=
  rewrite ?sdrop_field by (rewrite ?be_write_length; lia); rewrite ?be_write_length;
  match goal with Hk : String.length ?pk = 32%nat |- _ => rewrite ?Hk end;
  cbn [Nat.sub sdrop]; try (apply stake_field; first [apply be_write_length|done]).

Lemma bin_node_record n :
  record_ok n → bin_node (be_record n) = if reachable_node n then Ok n else Throw runtime_error.
Proof.
  intros (Hk & Hip & Hh & Ho & Hv & Hs & Hu). unfold u16, u16_max, uint64_max, byte in *.
  destruct n as [pk addr https omq [[a b] c] sid h].
  cbn [remote_pubkey ip https_port omq_port storage_server_version swarm_id requested_unlock_height] in *.
  subst h. destruct Hv as (Ha & Hb & Hc). assert (String.length pk = 32%nat) as Hpk by (unfold size in Hk; lia).
  unfold bin_node, be_record. cbn [remote_pubkey ip https_port omq_port storage_server_version swarm_id requested_unlock_height].
  set (r := pk +:+ _).
  assert (stake 32 r = pk) as -> by (unfold r; by apply stake_field).
  assert (stake 8 (sdrop 32 r) = be_write 8 sid) as -> by (unfold r; take_field).
  assert (stake 4 (sdrop 40 r) = be_write 4 addr) as -> by (unfold r; take_field).
  assert (stake 2 (sdrop 44 r) = be_write 2 https) as -> by (unfold r; take_field).
  assert (stake 2 (sdrop 46 r) = be_write 2 omq) as -> by (unfold r; take_field).
  assert (stake 1 (sdrop (48 + 0) r) = be_write 1 a) as -> by (unfold r; take_field).
  assert (stake 1 (sdrop (48 + 1) r) = be_write 1 b) as -> by (unfold r; take_field).
  assert (stake 1 (sdrop (48 + 2) r) = be_write 1 c) as ->.
  { unfold r. take_field. apply stake_all. by rewrite be_write_length. }
  rewrite ipv4_big_endian by (unfold size; by rewrite be_write_length).
  rewrite !shift_or_write, be_value_write, Z.mod_small by (lia || (simpl; lia)).
  assert (∀ z, 0 ≤ z < 256 → le_value (be_write 1 z) = z) as Hone.
  { intros z Hz. cbn [be_write le_value]. rewrite code_chr. change (256 ^ Z.of_nat 0) with 1.
    rewrite Z.div_1_r, Z.mod_small by lia. lia. }
  rewrite !Hone by done. unfold reachable_node. cbn [ip omq_port].
  destruct (addr =? 0), (omq =? 0); reflexivity.
Qed.

Lemma bin_loop_total b fuel acc bad :
  size b mod Z.of_nat MNODE_SIZE = 0 → (String.length b < fuel)%nat →
  ∃ nodes failed, bin_loop fuel b acc bad = Ok (acc ++ nodes, bad + failed) ∧ 0 ≤ failed ∧
    Z.of_nat MNODE_SIZE * (Z.of_nat (length nodes) + failed) = size b.
Proof.
  revert b acc bad; induction fuel as [|fuel IH]; intros b acc bad Hm Hl; [lia|]. cbn [bin_loop].
  destruct (Z.eqb_spec (size b) 0) as [E|E].
  { exists [], 0. rewrite app_nil_r, Z.add_0_r. split; [done|]. simpl. lia. }
  unfold MNODE_SIZE, size in *. apply Z.mod_divide in Hm as [q Hq]; [|lia].
  assert (String.length (sdrop 51 b) = (String.length b - 51)%nat) as Hd by apply length_sdrop.
  destruct (bin_node (stake 51 b)) as [n|e].
  - destruct (IH (sdrop 51 b) (acc ++ [n]) bad) as (nodes & failed & Hr & Hf & Hs); [|lia|].
    { rewrite Hd. apply Z.mod_divide; [lia|]. exists (q - 1). lia. }
    exists (n :: nodes), failed. rewrite Hr, <-app_assoc. split; [done|]. simpl length. lia.
  - destruct (IH (sdrop 51 b) acc (bad + 1)) as (nodes & failed & Hr & Hf & Hs); [|lia|].
    { rewrite Hd. apply Z.mod_divide; [lia|]. exists (q - 1). lia. }
    exists nodes, (failed + 1). rewrite Hr. split; [do 2 f_equal; lia|]. lia.
Qed.

Lemma bin_loop_records nodes fuel acc bad :
  Forall record_ok nodes → (length nodes < fuel)%nat →
  bin_loop fuel (sconcat (be_record <$> nodes)) acc bad =
    Ok (acc ++ List.filter reachable_node nodes,
        bad + Z.of_nat (length (List.filter (λ n, negb (reachable_node n)) nodes))).
Proof.
  intros Hn. revert fuel acc bad; induction Hn as [|n nodes Hok Hn IH]; intros fuel acc bad Hl;
    (destruct fuel as [|fuel]; [simpl in Hl; lia|]).
  - simpl. by rewrite app_nil_r, Z.add_0_r.
  - rewrite fmap_cons, sconcat_cons. pose proof (be_record_length n Hok) as Hlen. cbn [bin_loop].
    destruct (Z.eqb_spec (size (be_record n +:+ sconcat (be_record <$> nodes))) 0) as [E|_].
    { unfold size in E. rewrite string_length_app, Hlen in E. unfold MNODE_SIZE in E. lia. }
    rewrite <-Hlen, stake_app, sdrop_app, bin_node_record by done. cbn [List.filter].
    destruct (reachable_node n); rewrite IH by (simpl in Hl; lia); cbn [negb length]; do 2 f_equal;
      [by rewrite <-app_assoc|lia].
Qed.

(** (roundtrip): reading the node list another node serves.  Bytes that are
    not a whole number of records are rejected; any others give a result that
    accounts for every record, as a node or as a failed one.  The records of
    nodes are read back as those nodes, in order, apart from exactly the ones
    without an address or a port. *)
Theorem node_list_roundtrip :
  (∀ b, size b mod Z.of_nat MNODE_SIZE ≠ 0 → process_mnode_cache_bin b = Throw runtime_error) ∧
  (∀ b, size b mod Z.of_nat MNODE_SIZE = 0 → ∃ nodes failed,
     process_mnode_cache_bin b = Ok (nodes, failed) ∧ 0 ≤ failed ∧
     Z.of_nat MNODE_SIZE * (Z.of_nat (length nodes) + failed) = size b) ∧
  (∀ nodes, Forall record_ok nodes →
     process_mnode_cache_bin (sconcat (be_record <$> nodes)) =
       Ok (List.filter reachable_node nodes,
           Z.of_nat (length (List.filter (λ n, negb (reachable_node n)) nodes)))).
Proof.
  unfold process_mnode_cache_bin. split_and!.
  - intros b Hb. apply Z.eqb_neq in Hb. by rewrite Hb.
  - intros b Hb. rewrite (proj2 (Z.eqb_eq _ _) Hb).
    destruct (bin_loop_total b (S (String.length b)) [] 0 Hb) as (nodes & failed & Hr & Hrest); [lia|]. eauto.
  - intros nodes Hn.
    assert (String.length (sconcat (be_record <$> nodes)) = MNODE_SIZE * length nodes)%nat as Hl.
    { clear -Hn. induction Hn as [|n nodes Hok Hn IH]; [done|].
      rewrite fmap_cons, sconcat_cons, string_length_app, IH, be_record_length by done. simpl length. lia. }
    unfold size. rewrite Hl, Nat2Z.inj_mul, Z.mul_comm, Z.mod_mul by (unfold MNODE_SIZE; lia). cbn [mbind result_bind require Z.eqb].
    rewrite bin_loop_records; [done|done|unfold MNODE_SIZE; lia].
Qed.

End binary.

(** ** A concrete address and number parser *)
Definition dotted (a : Z) : bytes :=
  join "." [print_Zn (a / 2 ^ 24); print_Zn (a / 2 ^ 16 mod 256); print_Zn (a / 2 ^ 8 mod 256); print_Zn (a mod 256)].

Definition read_bounded (hi : Z) (s : bytes) : option Z :=
  match read_N s with Some n => if Z.of_N n <=? hi then Some (Z.of_N n) else None | None => None end.

Definition read_dotted (s : bytes) : result Z :=
  parts ← split s "." false;
  match mapR (λ p, from_option_or invalid_argument (read_bounded 255 p)) parts with
  | Ok [a; b; c; d] => Ok (((a * 256 + b) * 256 + c) * 256 + d)
  | _ => Throw invalid_argument
  end.

#[global] Instance plain_quic : Quic := {|
  parse_int lo hi base s := if base =? 10 then read_bounded hi s else None;
  ipv4_from := read_dotted;
  ipv4_to_string := dotted;
  ipv4_of_bytes := be_value;
  to_base a mask := a / 2 ^ (32 - mask) * 2 ^ (32 - mask);
|}.

Lemma read_bounded_print hi z : 0 ≤ z ≤ hi → read_bounded hi (print_Zn z) = Some z.
Proof.
  intros Hz. unfold read_bounded, print_Zn. rewrite read_print_N, Z2N.id by lia.
  by rewrite (proj2 (Z.leb_le z hi)) by lia.
Qed.

#[global] Instance plain_quic_laws : QuicLaws.
Proof.
  split.
  - intros lo hi z _ Hz. by apply read_bounded_print.
  - intros a Ha. cbn [ipv4_from ipv4_to_string plain_quic]. unfold read_dotted, dotted.
    pose proof (Z.mod_pos_bound a 256 ltac:(lia)). pose proof (Z.mod_pos_bound (a / 2 ^ 8) 256 ltac:(lia)).
    pose proof (Z.mod_pos_bound (a / 2 ^ 16) 256 ltac:(lia)).
    assert (0 ≤ a / 2 ^ 24 ≤ 255).
    { split; [apply Z.div_pos; lia|]. assert (a / 2 ^ 24 < 256); [apply Z.div_lt_upper_bound; lia|lia]. }
    rewrite split_join by (repeat constructor; by apply print_lacks). cbn [mbind result_bind mapR].
    rewrite !read_bounded_print by lia. cbn [from_option_or mbind result_bind]. f_equal.
    change (2 ^ 24) with (256 * 256 * 256). change (2 ^ 16) with (256 * 256). change (2 ^ 8) with 256.
    rewrite <-!Z.div_div by lia. pose proof (Z.div_mod a 256). pose proof (Z.div_mod (a / 256) 256).
    pose proof (Z.div_mod (a / 256 / 256) 256). lia.
  - intros a. cbn [ipv4_to_string plain_quic]. unfold dotted. cbn [join]. rewrite !all_chars_app.
    assert (∀ z, all_chars ip_char (print_Zn z) = true) as Hd.
    { intros z. apply (all_chars_impl is_digit); [|apply print_digits]. unfold ip_char. by intros c ->. }
    by rewrite !Hd.
  - done.
Qed.

(** ** JSON values; a number that is not an integer is given by its integral
    part, which is what the conversions take of it *)
Inductive jvalue :=
  | JNull | JBool (b : bool) | JInt (z : Z) | JFloat (z : Z) | JString (s : bytes)
  | JArray (l : list jvalue) | JObject (m : list (bytes * jvalue)).

Definition jnumber (lo hi : Z) (wrap : Z → Z) (j : jvalue) : result Z :=
  match j with
  | JInt z => Ok (wrap z)
  | JFloat z => if (lo <=? z) && (z <=? hi) then Ok z else Throw undefined_behaviour
  | JBool b => Ok (if b then 1 else 0)
  | _ => Throw json_error
  end.

#[global] Instance plain_json : JsonLib := {|
  json := jvalue;
  contains j k := match j with JObject m => bool_decide (is_Some (mfind k m)) | _ => false end;
  json_index j k := match j with
    | JObject m => Ok (default JNull (mfind k m)) | JNull => Ok JNull | _ => Throw json_error end;
  json_at j k := match j with JObject m => from_option_or json_error (mfind k m) | _ => Throw json_error end;
  is_array j := match j with JArray _ => true | _ => false end;
  get_array j := match j with JArray l => Ok l | _ => Throw json_error end;
  get_string j := match j with JString s => Ok s | _ => Throw json_error end;
  get_int := jnumber (- 2 ^ 31) (2 ^ 31 - 1) (λ z, (z + 2 ^ 31) mod 2 ^ 32 - 2 ^ 31);
  get_u16 := jnumber 0 u16_max (λ z, z mod 2 ^ 16);
  get_u64 j := match j with JBool _ => Throw json_error | _ => jnumber 0 uint64_max wrap64 j end;
|}.

#[global] Instance plain_json_laws : JsonLaws.
Proof.
  split; cbn [json_at get_array get_int plain_json]; unfold json_failure.
  - intros [] k e; try (intros [= <-]; by left). destruct (mfind k m); [done|]. intros [= <-]. by left.
  - intros [] e; try (intros [= <-]; by left).
  - intros [] e; cbn [jnumber]; try done; try (intros [= <-]; by left). destruct (_ && _); [done|]. intros [= <-]. by right.
Qed.

(** A node whose JSON has no unlock height gets whatever the variable held. *)
Lemma unlock_height_unset (garbage : Z) :
  from_json garbage (JObject
    [("ip", JString "1.2.3.4"); ("port_https", JInt 443); ("port_omq", JInt 22020);
     ("pubkey_ed25519", JString (hex_digits (zeros 32)))]) =
  Ok (mkNode (zeros 32) 16909060 443 22020 (0, 0, 0) INVALID_SWARM_ID garbage).
Proof. vm_compute. reflexivity. Qed.

Definition sample_cache : list master_node :=
  [mkNode (zeros 31 +:+ "a") 3232235777 22021 22020 (2, 8, 0) 5 77; mkNode (zeros 31 +:+ "b") 134744072 443 22020 (0, 0, 0) uint64_max 0].

Lemma cache_file_roundtrip_witness :
  load_cache (sconcat (to_disk <$> sample_cache)) = Ok (kept sample_cache) ∧
  ∃ contents, cache_contents sample_cache = Ok contents ∧ load_cache contents = Ok (kept sample_cache).
Proof.
  split; [vm_compute; reflexivity|].
  destruct (cache_file_roundtrip sample_cache) as (contents & H1 & H2); [|discriminate|].
  { repeat constructor; vm_compute; intros; discriminate. }
  exists contents. split; [exact H1|exact H2].
Defined.

Lemma node_list_roundtrip_witness :
  process_mnode_cache_bin "x" = Throw runtime_error ∧
  process_mnode_cache_bin (sconcat (be_record <$> [without_height (List.hd (mkNode "" 0 0 0 (0, 0, 0) 0 0) sample_cache)])) =
    Ok ([without_height (List.hd (mkNode "" 0 0 0 (0, 0, 0) 0 0) sample_cache)], 0).
Proof.
  split.
  - apply (proj1 node_list_roundtrip). vm_compute. discriminate.
  - apply (proj2 (proj2 node_list_roundtrip)). repeat constructor; vm_compute; intros; discriminate.
Defined.
