(* ===== verification/NodeMerge.v ===== *)
(** * Combining the node lists of several nodes

    The part of [MnodePool::_on_refresh_complete] ([src/network/mnode_pool.cpp])
    that merges the sorted responses with a heap of cursors and keeps the nodes
    that enough of the responses have, and its equivalence with a definition
    that counts. *)

From Stdlib Require Import ZArith String Sorting.Sorted Lia.
From stdpp Require Import base option list strings numbers sorting sets.
From S2P Require Import Prelude OrderedMap StableSort Swarm.

(** ** Priority queues

    What the code uses of [std::priority_queue]: [pop] gives [top] and what is
    left, and nothing in the queue is before [top]. *)
Class PriorityQueue {A : Type} (before : A → A → bool) (Q : Type) := {
  q_empty : Q;
  q_push : A → Q → Q;
  q_pop : Q → option (A * Q);
}.
Arguments q_empty {A before Q _}.
Arguments q_push {A before Q _}.
Arguments q_pop {A before Q _}.

Class PriorityQueueLaws {A before Q} `{PQ : !PriorityQueue before Q} (contents : Q → list A) := {
  contents_empty : contents q_empty = [];
  contents_push : ∀ x q, contents (q_push x q) ≡ₚ x :: contents q;
  pop_None : ∀ q, q_pop q = None → contents q = [];
  pop_Some : ∀ q x q', q_pop q = Some (x, q') → contents q ≡ₚ x :: contents q' ∧
    ∀ y, y ∈ contents q' → before y x = false;
}.

(** An unordered list, whose least element is looked for when it is needed *)
Fixpoint take_least {A} (before : A → A → bool) (x : A) (l : list A) : A * list A :=
  match l with
  | [] => (x, [])
  | y :: l =>
      if before y x then let '(m, r) := take_least before y l in (m, x :: r)
      else let '(m, r) := take_least before x l in (m, y :: r)
  end.

#[global] Instance list_queue {A} (before : A → A → bool) : PriorityQueue before (list A) := {|
  q_empty := [];
  q_push := cons;
  q_pop q := match q with [] => None | x :: q => Some (take_least before x q) end;
|}.

Lemma take_least_spec {A} (before : A → A → bool) x l :
  (∀ a, before a a = false) → (∀ a b c, before a b = true → before b c = true → before a c = true) →
  let '(m, r) := take_least before x l in
  x :: l ≡ₚ m :: r ∧ (m = x ∨ before m x = true) ∧ (∀ y, y ∈ x :: l → before y m = false).
Proof.
  intros Hi Ht. revert x; induction l as [|y l IH]; intros x; cbn [take_least].
  { split_and!; [done|by left|]. intros y ->%list_elem_of_singleton. apply Hi. }
  destruct (before y x) eqn:E.
  - specialize (IH y). destruct (take_least before y l) as [m r]. destruct IH as (Hp & Hx & Hm).
    assert (before m x = true) as Hmx by (destruct Hx as [->|Hx]; [done|by apply (Ht m y x)]).
    split_and!; [rewrite Hp; constructor|by right|]. intros z [->|Hz]%elem_of_cons; [|by apply Hm].
    destruct (before x m) eqn:Ex; [|done]. rewrite <-(Hi x). symmetry. by apply (Ht x m x).
  - specialize (IH x). destruct (take_least before x l) as [m r]. destruct IH as (Hp & Hx & Hm).
    split_and!; [rewrite (Permutation_swap y x l), Hp; constructor|done|].
    intros z [->|[->|Hz]%elem_of_cons]%elem_of_cons; [apply Hm; left| |apply Hm; by right].
    destruct (before y m) eqn:Ey; [|done]. rewrite <-E. destruct Hx as [->|Hx]; [done|]. symmetry. by apply (Ht y m x).
Qed.

(** ** The merge *)
Section merge.
Context `{OrdKey A}.

Record Cursor := mkCursor { vec : list A; index : nat }.

Definition value (c : Cursor) : option A := vec c !! index c.
(** [cmp]: the queue is a min-heap on the values *)
Definition cursor_before (a b : Cursor) : bool :=
  match value a, value b with Some x, Some y => klt x y | _, _ => false end.

Context {Q : Type} `{PQ : !PriorityQueue cursor_before Q}.

(** The first element of each list that has one *)
Fixpoint init_heap (vecs : list (list A)) (heap : Q) : Q :=
  match vecs with
  | [] => heap
  | v :: vecs => init_heap vecs (if (length v =? 0)%nat then heap else q_push (mkCursor v 0) heap)
  end.

(** Pops the cursors at [current] *)
Fixpoint pop_same (fuel : nat) (current : A) (heap : Q) (same : list Cursor) : result (list Cursor * Q) :=
  match fuel with
  | O => Throw out_of_fuel
  | S fuel =>
      match q_pop heap with
      | None => Ok (same, heap)
      | Some (top, rest) =>
          match value top with
          | None => Throw undefined_behaviour
          | Some val =>
              if klt val current || klt current val then Ok (same, heap)
              else pop_same fuel current rest (same ++ [top])
          end
      end
  end.

Definition advance (heap : Q) (cur : Cursor) : Q :=
  let next_index := S (index cur) in
  if (next_index <? length (vec cur))%nat then q_push (mkCursor (vec cur) next_index) heap else heap.

Fixpoint merge_loop (fuel width : nat) (required_count : Z) (heap : Q) (nodes : list A) : result (list A) :=
  match fuel with
  | O => Throw out_of_fuel
  | S fuel =>
      match q_pop heap with
      | None => Ok nodes
      | Some (top, _) =>
          current ← from_option_or undefined_behaviour (value top);
          '(same, heap) ← pop_same (S width) current heap [];
          let nodes := if required_count <=? Z.of_nat (length same) then nodes ++ [current] else nodes in
          merge_loop fuel width required_count (foldl advance heap same) nodes
      end
  end.

(** Each round of the loop passes at least one element, and the heap never has
    more cursors than there are lists. *)
Definition merge_lists (required_count : Z) (vecs : list (list A)) : result (list A) :=
  merge_loop (S (length (concat vecs))) (length vecs) required_count (init_heap vecs q_empty) [].

(** The responses, sorted, combined: one is taken as it is *)
Definition combine_responses (required_count : Z) (processed_nodes : list (list A)) : result (list A) :=
  match processed_nodes with
  | [] => Ok []
  | [nodes] => Ok nodes
  | _ => merge_lists required_count processed_nodes
  end.
End merge.

(** ** Counting *)
Definition occurs `{OrdKey A} (x : A) (l : list A) : nat := length (List.filter (keqb x) l).

(** How many rounds [j] have at least [required] of the counts reaching [j] *)
Definition rounds (required : Z) (ms : list nat) : nat :=
  length (List.filter (λ j, required <=? Z.of_nat (length (List.filter (λ m, j <=? m)%nat ms))) (seq 1 (max_list ms))).

Definition positive (ms : list nat) : list nat := List.filter (λ m, 1 <=? m)%nat ms.

#[global] Instance Lfilter_perm {A} (f : A → bool) : Proper ((≡ₚ) ==> (≡ₚ)) (List.filter f).
Proof.
  induction 1; simpl; [done|by destruct (f x); [constructor|]| |by etransitivity].
  destruct (f x), (f y); done || constructor.
Qed.

Lemma Lfilter_ext {A} (f g : A → bool) l : (∀ x, x ∈ l → f x = g x) → List.filter f l = List.filter g l.
Proof.
  induction l as [|x l IH]; intros Hfg; [done|]. simpl. rewrite (Hfg x) by left.
  rewrite IH by (intros y Hy; apply Hfg; by right). done.
Qed.

Lemma max_list_perm ms ms' : ms ≡ₚ ms' → max_list ms = max_list ms'.
Proof. induction 1; simpl; lia. Qed.

Lemma rounds_perm required ms ms' : ms ≡ₚ ms' → rounds required ms = rounds required ms'.
Proof.
  intros Hp. unfold rounds. rewrite (max_list_perm _ _ Hp). f_equal. apply Lfilter_ext.
  intros j _. by rewrite Hp.
Qed.

Lemma max_list_positive ms : max_list (positive ms) = max_list ms.
Proof. unfold positive. induction ms as [|[|m] ms IH]; simpl in *; [done..|lia]. Qed.

Lemma rounds_positive required ms : rounds required (positive ms) = rounds required ms.
Proof.
  unfold rounds. rewrite max_list_positive. f_equal. apply Lfilter_ext. intros j Hj%list_elem_of_In.
  apply in_seq in Hj as [Hj _]. do 3 f_equal. clear -Hj. induction ms as [|[|m] ms IH]; [done| |].
  - change (positive (0%nat :: ms)) with (positive ms). rewrite IH. destruct j; [lia|done].
  - change (positive (S m :: ms)) with (S m :: positive ms). cbn [List.filter]. rewrite IH. by destruct (j <=? S m)%nat.
Qed.

Lemma max_list_pred ms : max_list (pred <$> ms) = pred (max_list ms).
Proof. induction ms as [|m ms IH]; [done|]. rewrite fmap_cons. cbn [max_list_with]. rewrite IH. unfold id. lia. Qed.

Lemma Lfilter_map_length {A B} (f : A → B) (p : B → bool) l :
  length (List.filter p (f <$> l)) = length (List.filter (λ x, p (f x)) l).
Proof. induction l as [|x l IH]; [done|]. rewrite fmap_cons. cbn [List.filter]. destruct (p (f x)); cbn [length]; by rewrite IH. Qed.

(** One round of the merge takes one off every count. *)
Lemma rounds_step required ms :
  positive ms ≠ [] →
  rounds required ms =
    ((if (required <=? Z.of_nat (length (positive ms)))%Z then 1 else 0) + rounds required (pred <$> ms))%nat.
Proof.
  intros Hp. unfold rounds. rewrite max_list_pred.
  assert (0 < max_list ms)%nat as Hm.
  { rewrite <-max_list_positive. destruct (positive ms) as [|m l] eqn:E; [done|].
    assert (m ∈ positive ms) as [_ Hm]%elem_of_Lfilter by (rewrite E; left). apply Nat.leb_le in Hm. simpl. lia. }
  destruct (max_list ms) as [|k]; [lia|]. simpl pred. cbn [seq List.filter].
  rewrite <-seq_shift. assert (∀ (b : bool) (x : nat) (l l' : list nat), length l = length l' →
    length (if b then x :: l else l) = ((if b then 1 else 0) + length l')%nat) as Hb by (intros [] x l l' E; simpl; lia).
  apply Hb. change (map S) with (fmap (M := list) S). rewrite Lfilter_map_length. f_equal. apply Lfilter_ext.
  intros j Hj%list_elem_of_In. apply in_seq in Hj. do 2 f_equal. rewrite Lfilter_map_length. f_equal.
  apply Lfilter_ext. intros m _. destruct m as [|m]; simpl; [|done]. destruct j; [lia|done].
Qed.

Lemma rounds_none required ms : positive ms = [] → rounds required ms = O.
Proof. intros Hp. by rewrite <-rounds_positive, Hp. Qed.

Lemma rounds_equiv required ms ms' : positive ms ≡ₚ positive ms' → rounds required ms = rounds required ms'.
Proof. intros Hp. rewrite <-(rounds_positive _ ms), <-(rounds_positive _ ms'). by apply rounds_perm. Qed.

Lemma positive_app ms ms' : positive (ms ++ ms') = positive ms ++ positive ms'.
Proof. apply List.filter_app. Qed.

(** ** What is left of the lists *)
Section spec.
Context `{OrdKey A}.
Implicit Types s t : list A.

Definition ascending (l : list A) : Prop := StronglySorted (λ a b, kle a b = true) l.
Definition nonempty (l : list A) : bool := negb (length l =? 0)%nat.

Lemma occurs_cons x y l : occurs x (y :: l) = ((if keqb x y then 1 else 0) + occurs x l)%nat.
Proof. unfold occurs. simpl. by destruct (keqb x y). Qed.

Lemma occurs_app x l1 l2 : occurs x (l1 ++ l2) = (occurs x l1 + occurs x l2)%nat.
Proof. unfold occurs. by rewrite List.filter_app, length_app. Qed.

Lemma occurs_elem x l : (0 < occurs x l)%nat ↔ x ∈ l.
Proof.
  induction l as [|y l IH]; [split; [unfold occurs; simpl; lia|by intros ?%elem_of_nil]|].
  rewrite occurs_cons, elem_of_cons, <-IH. destruct (keqb x y) eqn:E.
  - apply keqb_spec in E as ->. split; [by left|lia].
  - assert (x ≠ y) by (intros ->; by rewrite keqb_refl in E). split; [right; lia|intros [|]; [done|lia]].
Qed.

(** What each cursor has still to give *)
Definition rest_of (c : Cursor) : list A := drop (index c) (vec c).

Lemma value_rest c : value c = head (rest_of c).
Proof. unfold value, rest_of. rewrite head_lookup, lookup_drop. by rewrite Nat.add_0_r. Qed.

Definition live (c : Cursor) : Prop := rest_of c ≠ [] ∧ ascending (rest_of c).

Lemma live_value c : live c → ∃ x t, rest_of c = x :: t ∧ value c = Some x ∧ Forall (λ y, kle x y = true) t.
Proof.
  intros [Hn Hs]. rewrite value_rest. destruct (rest_of c) as [|x t]; [done|]. exists x, t.
  inversion Hs; subst. done.
Qed.

Context {Q : Type} {PQ : PriorityQueue cursor_before Q} (contents : Q → list Cursor) {L : PriorityQueueLaws contents}.

Definition remaining (heap : Q) : list (list A) := rest_of <$> contents heap.
Definition heap_ok (heap : Q) : Prop := Forall live (contents heap).

Lemma kle_refl (x : A) : kle x x = true.
Proof. apply kle_spec. by right. Qed.

Lemma kle_trans (x y z : A) : kle x y = true → kle y z = true → kle x z = true.
Proof.
  rewrite !kle_spec. intros [Hxy| ->] [Hyz| ->]; [left; by apply (kcmp_trans x y z)|by left..|by right].
Qed.

(** The top of the heap is the least of the next values. *)
Lemma pop_least heap top rest :
  heap_ok heap → q_pop heap = Some (top, rest) →
  ∃ x, value top = Some x ∧ heap_ok rest ∧ contents heap ≡ₚ top :: contents rest ∧ live top ∧
    ∀ c y, c ∈ contents heap → value c = Some y → kle x y = true.
Proof.
  intros Hok Hp. destruct (pop_Some heap top rest Hp) as [Hc Hb]. unfold heap_ok in *. rewrite Hc in Hok.
  apply Forall_cons_1 in Hok as [Ht Hr]. destruct (live_value top Ht) as (x & t & _ & Hx & _).
  exists x. split_and!; [done..|]. intros c y Hin Hy. rewrite Hc in Hin. apply elem_of_cons in Hin as [->|Hin].
  - rewrite Hx in Hy. injection Hy as ->. apply kle_refl.
  - specialize (Hb c Hin). unfold cursor_before in Hb. rewrite Hx, Hy, klt_negb_kle in Hb. by apply negb_false_iff in Hb.
Qed.

Lemma pop_same_spec fuel x heap acc :
  heap_ok heap → (∀ c y, c ∈ contents heap → value c = Some y → kle x y = true) →
  (length (contents heap) < fuel)%nat →
  ∃ same heap', pop_same fuel x heap acc = Ok (acc ++ same, heap') ∧ heap_ok heap' ∧
    contents heap ≡ₚ same ++ contents heap' ∧ Forall (λ c, value c = Some x) same ∧
    (∀ c y, c ∈ contents heap' → value c = Some y → klt x y = true).
Proof.
  revert heap acc; induction fuel as [|fuel IH]; intros heap acc Hok Hx Hl; [lia|]. cbn [pop_same].
  destruct (q_pop heap) as [[top rest]|] eqn:Ep.
  - destruct (pop_least _ _ _ Hok Ep) as (z & Hz & Hr & Hc & Ht & Hz'). rewrite Hz.
    assert (kle x z = true) as Hxz by (apply (Hx top); [rewrite Hc; left|done]).
    destruct (klt z x || klt x z) eqn:E.
    + exists [], heap. rewrite app_nil_r. split_and!; [done..|constructor|]. intros c y Hin Hy.
      assert (kle z y = true) as Hzy by by apply (Hz' c). apply klt_spec. apply kle_spec in Hxz, Hzy.
      assert (kcmp x z = Lt) as Hlt.
      { destruct Hxz as [?| ->]; [done|]. apply orb_true_iff in E as [E|E]; apply klt_spec in E; by apply klt_irrefl in E. }
      destruct Hzy as [Hzy| <-]; [by apply (kcmp_trans x z y)|done].
    + assert (x = z) as <-.
      { apply kle_spec in Hxz as [Hlt|]; [|done]. apply klt_spec in Hlt. rewrite Hlt, orb_true_r in E. done. }
      destruct (IH rest (acc ++ [top]) Hr) as (same & heap' & -> & Hok' & Hc' & Hs & Hg).
      { intros c y Hin. apply Hx. rewrite Hc. by right. }
      { rewrite Hc in Hl. simpl in Hl. lia. }
      exists (top :: same), heap'. rewrite <-app_assoc. split_and!; [done..| |by constructor|done].
      by rewrite Hc, Hc'.
  - exists [], heap. rewrite app_nil_r. split_and!; [done..|constructor|].
    intros c y Hin. rewrite (pop_None heap Ep) in Hin. by apply elem_of_nil in Hin.
Qed.

Definition next (c : Cursor (A := A)) : Cursor (A := A) := mkCursor (vec c) (S (index c)).

Lemma rest_next c : rest_of (next c) = tail (rest_of c).
Proof. unfold rest_of, next; cbn [vec index]. rewrite <-Nat.add_1_r, <-drop_drop. by destruct (drop (index c) (vec c)). Qed.

Lemma advance_all heap same :
  Forall live same → heap_ok heap →
  heap_ok (foldl advance heap same) ∧
  remaining (foldl advance heap same) ≡ₚ remaining heap ++ List.filter nonempty (tail ∘ rest_of <$> same).
Proof.
  intros Hs. revert heap; induction Hs as [|c same Hc Hs IH]; intros heap Hok.
  { simpl. rewrite app_nil_r. done. }
  cbn [foldl]. rewrite fmap_cons. cbn [List.filter]. unfold compose at 1. rewrite <-rest_next.
  assert (nonempty (rest_of (next c)) = (S (index c) <? length (vec c))%nat) as Hlen.
  { unfold nonempty, rest_of, next; cbn [vec index]. rewrite length_drop.
    destruct (Nat.eqb_spec (length (vec c) - S (index c)) 0), (Nat.ltb_spec (S (index c)) (length (vec c))); simpl; done || lia. }
  rewrite Hlen.
  assert (advance heap c = if (S (index c) <? length (vec c))%nat then q_push (next c) heap else heap) as -> by done.
  destruct (S (index c) <? length (vec c))%nat eqn:E; [|by apply IH].
  pose proof (contents_push (next c) heap) as Hp.
  destruct (IH (q_push (next c) heap)) as [Hok' Hr].
  { unfold heap_ok. rewrite Hp. constructor; [|done]. destruct Hc as [Hn Ha]. split.
    - intros En. unfold nonempty in Hlen. by rewrite En in Hlen.
    - rewrite rest_next. destruct (rest_of c) as [|x t]; [done|]. by inversion Ha. }
  split; [done|]. rewrite Hr. unfold remaining. rewrite Hp, fmap_cons. rewrite rest_next. exact (Permutation_middle _ _ _).
Qed.

(** The counts after a round, for the value that was taken and for any other *)
Lemma positive_nonempty v (ts : list (list A)) :
  positive (occurs v <$> List.filter nonempty ts) = positive (occurs v <$> ts).
Proof.
  induction ts as [|[|x t] ts IH]; [done|exact IH|].
  change (List.filter nonempty ((x :: t) :: ts)) with ((x :: t) :: List.filter nonempty ts). rewrite !fmap_cons.
  unfold positive in *. cbn [List.filter]. by rewrite IH.
Qed.

Lemma occurs_above v t : Forall (λ y, klt v y = true) t → occurs v t = O.
Proof.
  induction 1 as [|y t Hy _ IH]; [done|]. rewrite occurs_cons, IH. destruct (keqb v y) eqn:E; [|done].
  apply keqb_spec in E as ->. apply klt_spec in Hy. by apply klt_irrefl in Hy.
Qed.

Lemma counts_taken x (same : list (list A)) (others : list (list A)) :
  Forall (λ s, head s = Some x) same → Forall (λ s, occurs x s = O) others →
  length (positive (occurs x <$> same ++ others)) = length same ∧
  positive (pred <$> (occurs x <$> same ++ others)) = positive (occurs x <$> (tail <$> same)).
Proof.
  intros Hs Ho. rewrite !fmap_app, !positive_app, length_app.
  assert (positive (occurs x <$> others) = [] ∧ positive (pred <$> (occurs x <$> others)) = []) as [-> ->].
  { induction Ho as [|s others Hz _ IH]; [done|]. rewrite !fmap_cons, Hz. exact IH. }
  rewrite app_nil_r, Nat.add_0_r. induction Hs as [|s same Hh _ [IH1 IH2]]; [done|].
  destruct s as [|y t]; [done|]. injection Hh as ->. rewrite !fmap_cons, occurs_cons, keqb_refl.
  change (1 + occurs x t)%nat with (S (occurs x t)). cbn [pred tail]. split; [simpl; by rewrite IH1|].
  unfold positive in *. cbn [List.filter]. by rewrite IH2.
Qed.

Lemma counts_kept x v (same : list (list A)) :
  v ≠ x → Forall (λ s, head s = Some x) same → occurs v <$> same = occurs v <$> (tail <$> same).
Proof.
  intros Hn. induction 1 as [|s same Hh _ IH]; [done|]. destruct s as [|y t]; [done|]. injection Hh as ->.
  rewrite !fmap_cons, IH, occurs_cons. destruct (keqb v x) eqn:E; [by apply keqb_spec in E|done].
Qed.

Lemma round_counts required x v same others :
  Forall (λ s, head s = Some x) same → same ≠ [] → Forall (λ s, occurs x s = O) others →
  rounds required (occurs v <$> same ++ others) =
    (occurs v (if (required <=? Z.of_nat (length same))%Z then [x] else []) +
     rounds required (occurs v <$> others ++ List.filter nonempty (tail <$> same)))%nat.
Proof.
  intros Hs Hne Ho. destruct (decide (v = x)) as [->|Hn].
  - destruct (counts_taken x same others Hs Ho) as [Hlen Hpred]. rewrite rounds_step, Hlen.
    2: { intros E. rewrite E in Hlen. by destruct same. }
    f_equal.
    + destruct (required <=? _); [|done]. by rewrite occurs_cons, keqb_refl.
    + apply rounds_equiv. rewrite Hpred, fmap_app, positive_app, positive_nonempty.
      assert (positive (occurs x <$> others) = []) as ->; [|done].
      clear -Ho. induction Ho as [|s others Hz _ IH]; [done|]. rewrite !fmap_cons, Hz. exact IH.
  - assert (occurs v (if required <=? Z.of_nat (length same) then [x] else []) = O) as ->.
    { destruct (_ <=? _); [|done]. rewrite occurs_cons. destruct (keqb v x) eqn:E; [by apply keqb_spec in E|done]. }
    apply rounds_equiv. rewrite !fmap_app, !positive_app, positive_nonempty, (counts_kept x v) by done.
    apply Permutation_app_comm.
Qed.

Lemma rounds_elem required v (ls : list (list A)) :
  (0 < rounds required (occurs v <$> ls))%nat → ∃ s, s ∈ ls ∧ v ∈ s.
Proof.
  intros Hr. destruct (positive (occurs v <$> ls)) as [|m ms] eqn:E.
  { rewrite rounds_none in Hr by done. lia. }
  assert (m ∈ positive (occurs v <$> ls)) as [Hm Hp]%elem_of_Lfilter by (rewrite E; left).
  apply list_elem_of_fmap in Hm as (s & -> & Hs). exists s. split; [done|].
  apply occurs_elem. by apply Nat.leb_le in Hp.
Qed.

Lemma above_all x c : live c → (∀ y, value c = Some y → klt x y = true) → Forall (λ y, klt x y = true) (rest_of c).
Proof.
  intros Hl Hx. destruct (live_value c Hl) as (z & t & -> & Hz & Ht). specialize (Hx z Hz). constructor; [done|].
  eapply Forall_impl; [exact Ht|]. intros y Hy. apply klt_spec. apply klt_spec in Hx. apply kle_spec in Hy as [Hy| <-]; [|done].
  by apply (kcmp_trans x z y).
Qed.

Lemma concat_length_perm (l1 l2 : list (list A)) : l1 ≡ₚ l2 → length (concat l1) = length (concat l2).
Proof. induction 1; simpl; rewrite ?length_app; lia. Qed.

Lemma tails_shorter x (same : list (list A)) :
  Forall (λ s, head s = Some x) same →
  (length (concat (List.filter nonempty (tail <$> same))) + length same = length (concat same))%nat.
Proof.
  induction 1 as [|s same Hh _ IH]; [done|]. destruct s as [|y t]; [done|]. rewrite fmap_cons. cbn [tail List.filter].
  cbn [concat length]. rewrite length_app. destruct t as [|z t]; cbn [nonempty length Nat.eqb negb]; [lia|].
  cbn [concat]. rewrite length_app. cbn [length]. lia.
Qed.

Lemma elem_rest_above x c s v :
  rest_of c = s → live c → value c = Some x → v ∈ s → kle x v = true.
Proof.
  intros <- Hl Hx Hv. destruct (live_value c Hl) as (z & t & Ht & Hz & Hf). rewrite Hx in Hz. injection Hz as <-.
  rewrite Ht in Hv. apply elem_of_cons in Hv as [->|Hv]; [apply kle_refl|]. rewrite Forall_forall in Hf. by apply Hf.
Qed.

Lemma merge_loop_spec fuel width required heap acc :
  heap_ok heap → (length (contents heap) ≤ width)%nat → (length (concat (remaining heap)) < fuel)%nat →
  ∃ out, merge_loop fuel width required heap acc = Ok (acc ++ out) ∧ ascending out ∧
    ∀ v, occurs v out = rounds required (occurs v <$> remaining heap).
Proof.
  revert heap acc; induction fuel as [|fuel IH]; intros heap acc Hok Hw Hf; [lia|]. cbn [merge_loop].
  destruct (q_pop heap) as [[top rest]|] eqn:Ep.
  2: { exists []. rewrite app_nil_r. split_and!; [done|constructor|]. intros v. unfold remaining.
       by rewrite (pop_None heap Ep). }
  destruct (pop_least _ _ _ Hok Ep) as (x & Hx & _ & Hc & Htop & Hmin). rewrite Hx. cbn [from_option_or mbind result_bind].
  destruct (pop_same_spec (S width) x heap [] Hok Hmin ltac:(lia)) as (same & heap' & Hp & Hok' & Hc' & Hs & Hg).
  change ([] ++ same) with same in Hp. rewrite Hp. cbn [mbind result_bind].
  assert (Forall live same) as Hlive.
  { unfold heap_ok in Hok. rewrite Hc' in Hok. by apply Forall_app in Hok as [? _]. }
  destruct (advance_all heap' same Hlive Hok') as [Hok2 Hrem].
  assert (Forall (λ s, head s = Some x) (rest_of <$> same)) as Hheads.
  { apply Forall_fmap. eapply Forall_impl; [exact Hs|]. intros c. simpl. by rewrite value_rest. }
  assert (∀ c, c ∈ contents heap' → Forall (λ y, klt x y = true) (rest_of c)) as Habove.
  { intros c Hin. apply above_all; [|intros y; by apply Hg]. unfold heap_ok in Hok'. rewrite Forall_forall in Hok'. by apply Hok'. }
  assert (same ≠ []) as Hne.
  { intros ->. assert (top ∈ contents heap') as Hin by (rewrite <-Hc', Hc; left).
    pose proof (Hg top x Hin Hx) as Hk. apply klt_spec in Hk. by apply klt_irrefl in Hk. }
  assert (remaining heap ≡ₚ (rest_of <$> same) ++ remaining heap') as Hr
    by (unfold remaining; by rewrite Hc', fmap_app).
  rewrite list_fmap_compose in Hrem.
  destruct (IH (foldl advance heap' same) (if required <=? Z.of_nat (length same) then acc ++ [x] else acc) Hok2)
    as (out & Hout & Hasc & Hcount).
  { rewrite <-(length_fmap rest_of). fold (remaining (foldl advance heap' same)). rewrite Hrem, length_app.
    rewrite Hc', length_app in Hw. unfold remaining. rewrite length_fmap.
    pose proof (filter_length_le nonempty (tail <$> (rest_of <$> same))) as Hle. rewrite !length_fmap in Hle. lia. }
  { rewrite (concat_length_perm _ _ Hrem), concat_app, length_app. rewrite (concat_length_perm _ _ Hr), concat_app, length_app in Hf.
    pose proof (tails_shorter x _ Hheads) as Ht. rewrite length_fmap in Ht. destruct same; [done|]. cbn [length] in Ht. lia. }
  exists ((if required <=? Z.of_nat (length same) then [x] else []) ++ out). split_and!.
  - rewrite Hout. destruct (_ <=? _); [by rewrite <-app_assoc|done].
  - assert (∀ v, v ∈ out → kle x v = true) as Hxv.
    { intros v Hv. apply occurs_elem in Hv. rewrite Hcount in Hv. apply rounds_elem in Hv as (s & Hin & Hv).
      rewrite Hrem in Hin. apply elem_of_app in Hin as [Hin|Hin].
      - apply list_elem_of_fmap in Hin as (c & -> & Hin). specialize (Habove c Hin). rewrite Forall_forall in Habove.
        apply Habove, klt_spec in Hv. apply kle_spec. by left.
      - apply elem_of_Lfilter in Hin as [Hin _]. apply list_elem_of_fmap in Hin as (s' & -> & Hin).
        apply list_elem_of_fmap in Hin as (c & -> & Hin). rewrite Forall_forall in Hlive, Hs.
        apply (elem_rest_above x c (rest_of c)); [done|by apply Hlive|by apply Hs|].
        destruct (rest_of c); [done|by right]. }
    destruct (_ <=? _); [|done]. constructor; [done|]. by apply Forall_forall.
  - intros v. rewrite occurs_app, Hcount.
    rewrite (rounds_perm _ _ _ (fmap_Permutation (occurs v) _ _ Hr)), (rounds_perm _ _ _ (fmap_Permutation (occurs v) _ _ Hrem)).
    rewrite (round_counts required x v (rest_of <$> same)), length_fmap; [done|done|by destruct same|].
    apply Forall_fmap, Forall_forall. intros c Hin. simpl. by apply occurs_above, Habove.
Qed.

(** ** The start *)
Lemma init_heap_spec vecs heap :
  Forall ascending vecs → heap_ok heap →
  heap_ok (init_heap vecs heap) ∧ remaining (init_heap vecs heap) ≡ₚ remaining heap ++ List.filter nonempty vecs.
Proof.
  intros Hv. revert heap; induction Hv as [|v vecs Ha Hv IH]; intros heap Hok; [simpl; by rewrite app_nil_r|].
  cbn [init_heap List.filter]. unfold nonempty at 1. destruct (length v =? 0)%nat eqn:E; cbn [negb]; [by apply IH|].
  pose proof (contents_push (mkCursor v 0) heap) as Hp. destruct (IH (q_push (mkCursor v 0) heap)) as [Hok' Hr].
  { unfold heap_ok. rewrite Hp. constructor; [|done]. split; [|done]. intros En.
    assert (v = []) as -> by exact En. done. }
  split; [done|]. rewrite Hr. unfold remaining. rewrite Hp, fmap_cons. exact (Permutation_middle _ _ _).
Qed.

Lemma length_filter_concat (vecs : list (list A)) : length (concat (List.filter nonempty vecs)) = length (concat vecs).
Proof. induction vecs as [|[|x v] vecs IH]; [done|exact IH|]. cbn [List.filter nonempty length Nat.eqb negb concat]. rewrite !length_app. by rewrite IH. Qed.

Lemma merge_lists_spec required vecs :
  Forall ascending vecs →
  ∃ out, merge_lists required vecs = Ok out ∧ ascending out ∧
    ∀ v, occurs v out = rounds required (occurs v <$> vecs).
Proof.
  intros Hv. destruct (init_heap_spec vecs q_empty Hv) as [Hok Hr].
  { unfold heap_ok. rewrite contents_empty. constructor. }
  unfold remaining at 2 in Hr. rewrite contents_empty in Hr. cbn [fmap list_fmap app] in Hr.
  destruct (merge_loop_spec (S (length (concat vecs))) (length vecs) required (init_heap vecs q_empty) [] Hok)
    as (out & Hout & Ha & Hc).
  - rewrite <-(length_fmap rest_of). fold (remaining (init_heap vecs q_empty)). rewrite Hr. apply filter_length_le.
  - rewrite (concat_length_perm _ _ Hr), length_filter_concat. lia.
  - exists out. split_and!; [exact Hout|done|]. intros v.
    rewrite Hc, (rounds_perm _ _ _ (fmap_Permutation (occurs v) _ _ Hr)). apply rounds_equiv. by rewrite positive_nonempty.
Qed.
End spec.

#[global] Instance list_queue_laws `{OrdKey A} : PriorityQueueLaws (before := cursor_before (A := A)) (λ q : list (Cursor (A := A)), q).
Proof.
  split; [done|done|by intros [|x q]|]. intros [|c q] x q'; [done|]. intros [= Hp].
  pose proof (take_least_spec cursor_before c q) as Hs. rewrite Hp in Hs. destruct Hs as (Hperm & _ & Hleast).
  - intros a. unfold cursor_before. destruct (value a) as [v|]; [|done]. destruct (klt v v) eqn:E; [|done].
    apply klt_spec in E. by apply klt_irrefl in E.
  - intros a b d. unfold cursor_before. destruct (value a), (value b), (value d); try done.
    rewrite !klt_spec. apply kcmp_trans.
  - split; [done|]. intros y Hy. apply Hleast. rewrite Hperm. by right.
Qed.

(** ** Membership *)
Section membership.
Context `{OrdKey A}.

Lemma positive_members v (vecs : list (list A)) :
  length (positive (occurs v <$> vecs)) = length (List.filter (smem v) vecs).
Proof.
  unfold positive. rewrite Lfilter_map_length. f_equal. apply Lfilter_ext. intros s _.
  destruct (smem v s) eqn:E.
  - apply smem_In, occurs_elem in E. destruct (occurs v s); [lia|done].
  - destruct (occurs v s) eqn:Eo; [done|]. assert (v ∈ s) as Hin by (apply occurs_elem; lia).
    apply smem_In in Hin. by rewrite Hin in E.
Qed.

Lemma Lfilter_length_mono {B} (f g : B → bool) l :
  (∀ x, f x = true → g x = true) → (length (List.filter f l) ≤ length (List.filter g l))%nat.
Proof.
  intros Hfg. induction l as [|x l IH]; simpl; [lia|]. destruct (f x) eqn:E.
  - rewrite (Hfg x E). simpl. lia.
  - destruct (g x); simpl; lia.
Qed.

Lemma rounds_positive_iff required ms :
  (0 < rounds required ms)%nat ↔ positive ms ≠ [] ∧ required ≤ Z.of_nat (length (positive ms)).
Proof.
  split.
  - intros Hr. assert (positive ms ≠ []) as Hp.
    { intros E. rewrite rounds_none in Hr by done. lia. }
    split; [done|]. unfold rounds in Hr. destruct (List.filter _ (seq 1 (max_list ms))) as [|j l] eqn:E; [simpl in Hr; lia|].
    assert (j ∈ j :: l) as Hj by left. rewrite <-E in Hj. apply elem_of_Lfilter in Hj as [Hj Hreq].
    apply list_elem_of_In, in_seq in Hj. apply Z.leb_le in Hreq. etransitivity; [exact Hreq|]. apply inj_le.
    apply Lfilter_length_mono. intros m. rewrite !Nat.leb_le. lia.
  - intros [Hp Hr]. rewrite rounds_step by done. apply Z.leb_le in Hr. rewrite Hr. lia.
Qed.

Lemma rounds_le_max required ms : (rounds required ms ≤ max_list ms)%nat.
Proof. unfold rounds. etransitivity; [apply filter_length_le|]. by rewrite length_seq. Qed.

Lemma occurs_nodup (l : list A) : NoDup l ↔ ∀ v, (occurs v l ≤ 1)%nat.
Proof.
  induction l as [|x l IH]; [split; [intros; unfold occurs; simpl; lia|constructor]|].
  rewrite NoDup_cons, IH. split.
  - intros [Hx Hl] v. rewrite occurs_cons. destruct (keqb v x) eqn:E; [|apply Hl]. apply keqb_spec in E as ->.
    destruct (occurs x l) eqn:Eo; [lia|]. exfalso. apply Hx, occurs_elem. lia.
  - intros Hv. split.
    + intros Hx%occurs_elem. specialize (Hv x). rewrite occurs_cons, keqb_refl in Hv. lia.
    + intros v. specialize (Hv v). rewrite occurs_cons in Hv. lia.
Qed.
End membership.

(** C32 (equivalence): combining several sorted node lists gives, for any
    priority queue, what counting gives: a node is in the result exactly when
    at least the required number of lists (and at least one) have it.  The
    result is sorted; it has a node as often as there are rounds in which
    enough lists still have it, so once when the lists have no duplicates. *)
Theorem combine_counts {Q} {PQ : PriorityQueue cursor_before Q} (contents : Q → list Cursor)
    {L : PriorityQueueLaws contents} (required_count : Z) (lists : list (list master_node)) :
  (2 ≤ length lists)%nat → Forall ascending lists →
  ∃ nodes, combine_responses required_count lists = Ok nodes ∧ ascending nodes ∧
    (∀ n, n ∈ nodes ↔ Z.max 1 required_count ≤ Z.of_nat (length (List.filter (smem n) lists))) ∧
    (∀ n, occurs n nodes = rounds required_count (occurs n <$> lists)) ∧
    (Forall NoDup lists → NoDup nodes).
Proof.
  intros Hl Ha. destruct (merge_lists_spec contents required_count lists Ha) as (nodes & Hm & Hs & Hc).
  exists nodes. split_and!; [by destruct lists as [|? [|? ?]]; [simpl in Hl; lia..|]|done| |done|].
  - intros n. rewrite <-occurs_elem, Hc, rounds_positive_iff, <-positive_members.
    destruct (positive (occurs n <$> lists)); [split; [by intros [? _]|cbn [length]; lia]|].
    cbn [length]. split; [lia|]. split; [done|lia].
  - intros Hd. apply occurs_nodup. intros v. rewrite Hc. etransitivity; [apply rounds_le_max|].
    clear -Hd. induction Hd as [|s lists Hs _ IH]; [simpl; lia|]. rewrite fmap_cons. cbn [max_list_with]. unfold id at 1.
    pose proof (proj1 (occurs_nodup s) Hs v). lia.
Qed.

Definition node_at (k : Z) : master_node := mkNode (zeros 32) k 1 1 (2, 8, 0) 1 0.

Lemma combine_counts_witness :
  combine_responses (Q := list Cursor) 2 [[node_at 1; node_at 2; node_at 4]; [node_at 2; node_at 3]; [node_at 1; node_at 2]] = Ok [node_at 1; node_at 2] ∧
  ∃ nodes, combine_responses (Q := list Cursor) 2 [[node_at 1; node_at 2; node_at 4]; [node_at 2; node_at 3]; [node_at 1; node_at 2]] = Ok nodes ∧ ascending nodes.
Proof.
  split; [vm_compute; reflexivity|].
  destruct (combine_counts (λ q, q) 2 [[node_at 1; node_at 2; node_at 4]; [node_at 2; node_at 3]; [node_at 1; node_at 2]])
    as (nodes & H1 & H2 & _); [simpl; lia|repeat constructor|].
  exists nodes. split; [exact H1|exact H2].
Defined.
