(* ===== verification/MnodePool.v ===== *)
(** * The node pool

    [src/network/mnode_pool.cpp] and [include/bchat/network/mnode_pool.hpp]:
    the cache of master nodes a client picks its nodes from, the strikes
    against nodes that failed, and the refreshing of the cache from other
    nodes.

    All of it runs on one event loop.  A member function is a computation on
    the state [Pool]; what it leaves for later is in that state: the tasks it
    scheduled with [call_soon] and [call_later], the requests it gave to a
    fetcher, the jobs of the disk loop, and the callbacks it ran.  The clock
    and the source of randomness are part of the state too. *)

From Stdlib Require Import ZArith String Ascii Lia.
From stdpp Require Import base option strings numbers sorting sets list.
From S2P Require Import Prelude OrderedMap Bt Bencode Crypto Text Ids State Wire StableSort Swarm MasterNode NodeMerge.

(** ** Randomness *)

(** The draws of [csrng], and the arrangements [std::ranges::shuffle] makes
    with it, by their position in the stream *)
Class Csrng := {
  csrng : Z → Z;
  shuffle : Z → list master_node → list master_node;
}.
Class CsrngLaws `{Csrng} := {
  csrng_range : ∀ k, 0 ≤ csrng k < 2 ^ 64;
  shuffle_perm : ∀ k l, shuffle k l ≡ₚ l;
}.

(** [random::get_uniform_distribution] from one draw *)
Definition get_uniform_distribution (min max draw : Z) : Z :=
  if max <? min then min else min + draw mod wrap64 (max - min + 1).

Definition base32_charset : bytes := "ABCDEFGHIJKLMNOPQRSTUVWXYZ234567".
(** The characters of one draw: 5 bits each, 12 at most *)
Fixpoint base32_chars (i : nat) (bits : Z) (size : nat) : bytes :=
  match i, size with
  | S i, S size =>
      String (default "A"%char (String.get (Z.to_nat (Z.land bits 31)) base32_charset)) (base32_chars i (Z.shiftr bits 5) size)
  | _, _ => ""
  end.
(** The string and the next position in the stream *)
Fixpoint random_base32 `{Csrng} (fuel : nat) (pos : Z) (size : nat) : bytes * Z :=
  match fuel with
  | O => ("", pos)
  | S fuel =>
      let now := base32_chars 12 (csrng pos) size in
      if (size <=? 12)%nat then (now, pos + 1)
      else let '(s, pos) := random_base32 fuel (pos + 1) (size - 12) in (now +:+ s, pos)
  end.

(** ** Strikes on disk *)
Definition STRIKE_EXPIRY : Z := 48 * 3600.
Definition NS_PER_S : Z := 1000000000.
Definition NS_PER_MS : Z := 1000000.
Abbreviation strikes_map := (list (bytes * list Z)) (only parsing).

(** [sysclock_now_s()] at a clock in nanoseconds *)
Definition now_s (clock : Z) : Z := clock / NS_PER_S.

(** A stamp is kept while it is less than the expiry old, by the full clock *)
Definition live_stamp (clock t : Z) : bool := clock - STRIKE_EXPIRY * NS_PER_S <? t * NS_PER_S.

Fixpoint write_entries (clock : Z) (strikes : strikes_map) : Z * bytes :=
  match strikes with
  | [] => (0, "")
  | (key, timestamps) :: strikes =>
      let '(n, rest) := write_entries clock strikes in
      let active := List.filter (live_stamp clock) timestamps in
      let t_count := Z.of_nat (length active) mod 2 ^ 16 in
      if t_count =? 0 then (n, rest)
      else (n + 1, key +:+ le_write 2 t_count +:+ sconcat ((λ t, le_write 8 (wrap64 t)) <$> active) +:+ rest)
  end.
Definition strikes_contents (clock : Z) (strikes : strikes_map) : bytes :=
  let '(entry_count, entries) := write_entries clock strikes in
  le_write 4 (entry_count mod 2 ^ 32) +:+ entries.

Definition int64_of (u : Z) : Z := if u <? 2 ^ 63 then u else u - 2 ^ 64.

Fixpoint read_stamps (n : nat) (threshold : Z) (buf : bytes) : result (list Z * bytes) :=
  match n with
  | O => Ok ([], buf)
  | S n =>
      '(u, buf) ← consume_int 8 buf;
      '(stamps, buf) ← read_stamps n threshold buf;
      let ts := int64_of u in
      Ok (if threshold <? ts then ts :: stamps else stamps, buf)
  end.

(** The entries until one is cut short, where reading stops *)
Fixpoint read_entries (n : nat) (threshold : Z) (buf : bytes) (loaded : strikes_map) : strikes_map :=
  match n with
  | O => loaded
  | S n =>
      match ('(key, buf) ← consume 32 buf;
             '(num_stamps, buf) ← consume_int 2 buf;
             '(stamps, buf) ← read_stamps (Z.to_nat num_stamps) threshold buf;
             Ok (key, stamps, buf)) with
      | Ok (key, stamps, buf) =>
          read_entries n threshold buf (if (length stamps =? 0)%nat then loaded else minsert key stamps loaded)
      | Throw _ => loaded
      end
  end.

(** The strikes of a file that is there and not empty *)
Definition load_strikes (clock : Z) (contents : bytes) : result strikes_map :=
  let threshold := now_s clock - STRIKE_EXPIRY in
  '(entry_count, buf) ← consume_int 4 contents;
  Ok (read_entries (Z.to_nat entry_count) threshold buf []).

(** ** Retry delays *)

(** [retry_delay::exponential] in milliseconds: a power of two in floating
    point, whose conversion back is undefined when it does not fit *)
Definition exponential (base_delay max_delay failure_count : Z) : result Z :=
  if failure_count <=? 0 then Ok base_delay else
  let delay := base_delay * 2 ^ (failure_count - 1) in
  if delay <? 2 ^ 63 then Ok (Z.min delay max_delay) else Throw undefined_behaviour.

(** ** The pool's configuration *)

(** The fallback list: the JSON of the file (or that it is none), the file's
    time, and what unset unlock heights of its nodes hold *)
Record fallback_file `{JsonLib} := mkFallback {
  fb_json : option json;
  fb_time : Z;
  fb_garbage : nat → Z;
}.

Record pool_config `{JsonLib} := mkConfig {
  fallback : option fallback_file;
  cache_expiration : Z;       (* minutes *)
  cache_min_lifetime : Z;     (* milliseconds *)
  enforce_subnet_diversity : bool;
  base_delay : Z;
  max_delay : Z;
  seed_nodes : list master_node;
  cache_min_size : Z;
  cache_min_swarm_size : Z;
  cache_num_nodes_to_use_for_refresh : Z;
  cache_min_num_refresh_presence_to_include_node : Z;
  cache_node_strike_threshold : Z;
  direct_fetcher : bool;      (* whether the function is callable *)
  has_directory : bool;       (* whether files are kept *)
}.

Arguments mkFallback {_}.
Arguments mkConfig {_}.

(** ** The state *)

(** A refresh request: what each lambda of the refresh carries *)
Record request := mkRequest {
  request_id : bytes;
  request_index : Z;
  from_seed_nodes : bool;
  use_direct : bool;
  total_requests : Z;
}.

Inductive task :=
  | TRefresh                                      (* _refresh_mnode_cache() *)
  | TRestart                                      (* reset, and refresh again *)
  | TRetry (rq : request)                         (* _retry_refresh_request *)
  | TRelaunch (rq : request)                      (* all requests of a refresh again *)
  | TFlushStrikes
  | TRefreshIfNeeded (in_use : list master_node).

(** A post-refresh callback: of a caller of [refresh_if_needed], or a
    [get_swarm] that waits for the cache *)
Inductive callback :=
  | CbUser (id : Z)
  | CbGetSwarm (swarm_pubkey : bytes) (ignore_strike_count : bool) (id : Z).

Inductive output :=
  | OutDone (id : Z)                                            (* on_refresh_complete() *)
  | OutSwarm (id : Z) (swarm_id : Z) (nodes : list master_node). (* callback(id, nodes) *)

Inductive disk_job :=
  | WriteCache (cache : list master_node)
  | WriteStrikes (strikes : strikes_map)
  | ClearDiskCache.

Record Pool := mkPool {
  suspended : bool;
  routed_fetcher : option bool;          (* whether the function is callable *)
  mnode_cache : list master_node;
  all_swarms : list swarm;
  swarm_cache : list (bytes * swarm);
  mnode_strikes : strikes_map;
  strikes_flush_scheduled : bool;
  last_mnode_cache_update : Z;
  current_refresh_id : option bytes;
  refresh_failure_count : Z;
  refresh_candidates : list master_node;
  refresh_results : list bytes;
  after_refresh : list callback;
  (* the surroundings *)
  tasks : list (Z * task);               (* delay in milliseconds *)
  in_flight : list (request * master_node);
  disk_jobs : list disk_job;
  cache_file : option bytes;
  strikes_file : option bytes;
  outputs : list output;
  clock : Z;                             (* nanoseconds *)
  connected : bool;                      (* what the connectivity check given with the routed fetcher returns *)
  rng : Z;
  id_counter : Z;
}.

(** ** Assignments to single members *)
Definition put_suspended v (p : Pool) : Pool :=
  mkPool v (routed_fetcher p) (mnode_cache p) (all_swarms p) (swarm_cache p) (mnode_strikes p) (strikes_flush_scheduled p) (last_mnode_cache_update p) (current_refresh_id p) (refresh_failure_count p) (refresh_candidates p) (refresh_results p) (after_refresh p) (tasks p) (in_flight p) (disk_jobs p) (cache_file p) (strikes_file p) (outputs p) (clock p) (connected p) (rng p) (id_counter p).
Definition put_routed_fetcher v (p : Pool) : Pool :=
  mkPool (suspended p) v (mnode_cache p) (all_swarms p) (swarm_cache p) (mnode_strikes p) (strikes_flush_scheduled p) (last_mnode_cache_update p) (current_refresh_id p) (refresh_failure_count p) (refresh_candidates p) (refresh_results p) (after_refresh p) (tasks p) (in_flight p) (disk_jobs p) (cache_file p) (strikes_file p) (outputs p) (clock p) (connected p) (rng p) (id_counter p).
Definition put_mnode_cache v (p : Pool) : Pool :=
  mkPool (suspended p) (routed_fetcher p) v (all_swarms p) (swarm_cache p) (mnode_strikes p) (strikes_flush_scheduled p) (last_mnode_cache_update p) (current_refresh_id p) (refresh_failure_count p) (refresh_candidates p) (refresh_results p) (after_refresh p) (tasks p) (in_flight p) (disk_jobs p) (cache_file p) (strikes_file p) (outputs p) (clock p) (connected p) (rng p) (id_counter p).
Definition put_all_swarms v (p : Pool) : Pool :=
  mkPool (suspended p) (routed_fetcher p) (mnode_cache p) v (swarm_cache p) (mnode_strikes p) (strikes_flush_scheduled p) (last_mnode_cache_update p) (current_refresh_id p) (refresh_failure_count p) (refresh_candidates p) (refresh_results p) (after_refresh p) (tasks p) (in_flight p) (disk_jobs p) (cache_file p) (strikes_file p) (outputs p) (clock p) (connected p) (rng p) (id_counter p).
Definition put_swarm_cache v (p : Pool) : Pool :=
  mkPool (suspended p) (routed_fetcher p) (mnode_cache p) (all_swarms p) v (mnode_strikes p) (strikes_flush_scheduled p) (last_mnode_cache_update p) (current_refresh_id p) (refresh_failure_count p) (refresh_candidates p) (refresh_results p) (after_refresh p) (tasks p) (in_flight p) (disk_jobs p) (cache_file p) (strikes_file p) (outputs p) (clock p) (connected p) (rng p) (id_counter p).
Definition put_mnode_strikes v (p : Pool) : Pool :=
  mkPool (suspended p) (routed_fetcher p) (mnode_cache p) (all_swarms p) (swarm_cache p) v (strikes_flush_scheduled p) (last_mnode_cache_update p) (current_refresh_id p) (refresh_failure_count p) (refresh_candidates p) (refresh_results p) (after_refresh p) (tasks p) (in_flight p) (disk_jobs p) (cache_file p) (strikes_file p) (outputs p) (clock p) (connected p) (rng p) (id_counter p).
Definition put_strikes_flush_scheduled v (p : Pool) : Pool :=
  mkPool (suspended p) (routed_fetcher p) (mnode_cache p) (all_swarms p) (swarm_cache p) (mnode_strikes p) v (last_mnode_cache_update p) (current_refresh_id p) (refresh_failure_count p) (refresh_candidates p) (refresh_results p) (after_refresh p) (tasks p) (in_flight p) (disk_jobs p) (cache_file p) (strikes_file p) (outputs p) (clock p) (connected p) (rng p) (id_counter p).
Definition put_last_mnode_cache_update v (p : Pool) : Pool :=
  mkPool (suspended p) (routed_fetcher p) (mnode_cache p) (all_swarms p) (swarm_cache p) (mnode_strikes p) (strikes_flush_scheduled p) v (current_refresh_id p) (refresh_failure_count p) (refresh_candidates p) (refresh_results p) (after_refresh p) (tasks p) (in_flight p) (disk_jobs p) (cache_file p) (strikes_file p) (outputs p) (clock p) (connected p) (rng p) (id_counter p).
Definition put_current_refresh_id v (p : Pool) : Pool :=
  mkPool (suspended p) (routed_fetcher p) (mnode_cache p) (all_swarms p) (swarm_cache p) (mnode_strikes p) (strikes_flush_scheduled p) (last_mnode_cache_update p) v (refresh_failure_count p) (refresh_candidates p) (refresh_results p) (after_refresh p) (tasks p) (in_flight p) (disk_jobs p) (cache_file p) (strikes_file p) (outputs p) (clock p) (connected p) (rng p) (id_counter p).
Definition put_refresh_failure_count v (p : Pool) : Pool :=
  mkPool (suspended p) (routed_fetcher p) (mnode_cache p) (all_swarms p) (swarm_cache p) (mnode_strikes p) (strikes_flush_scheduled p) (last_mnode_cache_update p) (current_refresh_id p) v (refresh_candidates p) (refresh_results p) (after_refresh p) (tasks p) (in_flight p) (disk_jobs p) (cache_file p) (strikes_file p) (outputs p) (clock p) (connected p) (rng p) (id_counter p).
Definition put_refresh_candidates v (p : Pool) : Pool :=
  mkPool (suspended p) (routed_fetcher p) (mnode_cache p) (all_swarms p) (swarm_cache p) (mnode_strikes p) (strikes_flush_scheduled p) (last_mnode_cache_update p) (current_refresh_id p) (refresh_failure_count p) v (refresh_results p) (after_refresh p) (tasks p) (in_flight p) (disk_jobs p) (cache_file p) (strikes_file p) (outputs p) (clock p) (connected p) (rng p) (id_counter p).
Definition put_refresh_results v (p : Pool) : Pool :=
  mkPool (suspended p) (routed_fetcher p) (mnode_cache p) (all_swarms p) (swarm_cache p) (mnode_strikes p) (strikes_flush_scheduled p) (last_mnode_cache_update p) (current_refresh_id p) (refresh_failure_count p) (refresh_candidates p) v (after_refresh p) (tasks p) (in_flight p) (disk_jobs p) (cache_file p) (strikes_file p) (outputs p) (clock p) (connected p) (rng p) (id_counter p).
Definition put_after_refresh v (p : Pool) : Pool :=
  mkPool (suspended p) (routed_fetcher p) (mnode_cache p) (all_swarms p) (swarm_cache p) (mnode_strikes p) (strikes_flush_scheduled p) (last_mnode_cache_update p) (current_refresh_id p) (refresh_failure_count p) (refresh_candidates p) (refresh_results p) v (tasks p) (in_flight p) (disk_jobs p) (cache_file p) (strikes_file p) (outputs p) (clock p) (connected p) (rng p) (id_counter p).
Definition put_tasks v (p : Pool) : Pool :=
  mkPool (suspended p) (routed_fetcher p) (mnode_cache p) (all_swarms p) (swarm_cache p) (mnode_strikes p) (strikes_flush_scheduled p) (last_mnode_cache_update p) (current_refresh_id p) (refresh_failure_count p) (refresh_candidates p) (refresh_results p) (after_refresh p) v (in_flight p) (disk_jobs p) (cache_file p) (strikes_file p) (outputs p) (clock p) (connected p) (rng p) (id_counter p).
Definition put_in_flight v (p : Pool) : Pool :=
  mkPool (suspended p) (routed_fetcher p) (mnode_cache p) (all_swarms p) (swarm_cache p) (mnode_strikes p) (strikes_flush_scheduled p) (last_mnode_cache_update p) (current_refresh_id p) (refresh_failure_count p) (refresh_candidates p) (refresh_results p) (after_refresh p) (tasks p) v (disk_jobs p) (cache_file p) (strikes_file p) (outputs p) (clock p) (connected p) (rng p) (id_counter p).
Definition put_disk_jobs v (p : Pool) : Pool :=
  mkPool (suspended p) (routed_fetcher p) (mnode_cache p) (all_swarms p) (swarm_cache p) (mnode_strikes p) (strikes_flush_scheduled p) (last_mnode_cache_update p) (current_refresh_id p) (refresh_failure_count p) (refresh_candidates p) (refresh_results p) (after_refresh p) (tasks p) (in_flight p) v (cache_file p) (strikes_file p) (outputs p) (clock p) (connected p) (rng p) (id_counter p).
Definition put_cache_file v (p : Pool) : Pool :=
  mkPool (suspended p) (routed_fetcher p) (mnode_cache p) (all_swarms p) (swarm_cache p) (mnode_strikes p) (strikes_flush_scheduled p) (last_mnode_cache_update p) (current_refresh_id p) (refresh_failure_count p) (refresh_candidates p) (refresh_results p) (after_refresh p) (tasks p) (in_flight p) (disk_jobs p) v (strikes_file p) (outputs p) (clock p) (connected p) (rng p) (id_counter p).
Definition put_strikes_file v (p : Pool) : Pool :=
  mkPool (suspended p) (routed_fetcher p) (mnode_cache p) (all_swarms p) (swarm_cache p) (mnode_strikes p) (strikes_flush_scheduled p) (last_mnode_cache_update p) (current_refresh_id p) (refresh_failure_count p) (refresh_candidates p) (refresh_results p) (after_refresh p) (tasks p) (in_flight p) (disk_jobs p) (cache_file p) v (outputs p) (clock p) (connected p) (rng p) (id_counter p).
Definition put_outputs v (p : Pool) : Pool :=
  mkPool (suspended p) (routed_fetcher p) (mnode_cache p) (all_swarms p) (swarm_cache p) (mnode_strikes p) (strikes_flush_scheduled p) (last_mnode_cache_update p) (current_refresh_id p) (refresh_failure_count p) (refresh_candidates p) (refresh_results p) (after_refresh p) (tasks p) (in_flight p) (disk_jobs p) (cache_file p) (strikes_file p) v (clock p) (connected p) (rng p) (id_counter p).
Definition put_clock v (p : Pool) : Pool :=
  mkPool (suspended p) (routed_fetcher p) (mnode_cache p) (all_swarms p) (swarm_cache p) (mnode_strikes p) (strikes_flush_scheduled p) (last_mnode_cache_update p) (current_refresh_id p) (refresh_failure_count p) (refresh_candidates p) (refresh_results p) (after_refresh p) (tasks p) (in_flight p) (disk_jobs p) (cache_file p) (strikes_file p) (outputs p) v (connected p) (rng p) (id_counter p).
Definition put_connected v (p : Pool) : Pool :=
  mkPool (suspended p) (routed_fetcher p) (mnode_cache p) (all_swarms p) (swarm_cache p) (mnode_strikes p) (strikes_flush_scheduled p) (last_mnode_cache_update p) (current_refresh_id p) (refresh_failure_count p) (refresh_candidates p) (refresh_results p) (after_refresh p) (tasks p) (in_flight p) (disk_jobs p) (cache_file p) (strikes_file p) (outputs p) (clock p) v (rng p) (id_counter p).
Definition put_rng v (p : Pool) : Pool :=
  mkPool (suspended p) (routed_fetcher p) (mnode_cache p) (all_swarms p) (swarm_cache p) (mnode_strikes p) (strikes_flush_scheduled p) (last_mnode_cache_update p) (current_refresh_id p) (refresh_failure_count p) (refresh_candidates p) (refresh_results p) (after_refresh p) (tasks p) (in_flight p) (disk_jobs p) (cache_file p) (strikes_file p) (outputs p) (clock p) (connected p) v (id_counter p).
Definition put_id_counter v (p : Pool) : Pool :=
  mkPool (suspended p) (routed_fetcher p) (mnode_cache p) (all_swarms p) (swarm_cache p) (mnode_strikes p) (strikes_flush_scheduled p) (last_mnode_cache_update p) (current_refresh_id p) (refresh_failure_count p) (refresh_candidates p) (refresh_results p) (after_refresh p) (tasks p) (in_flight p) (disk_jobs p) (cache_file p) (strikes_file p) (outputs p) (clock p) (connected p) (rng p) v.

Definition later (delay : Z) (t : task) (p : Pool) : Pool := put_tasks (tasks p ++ [(delay, t)]) p.
Definition on_disk_loop (j : disk_job) (p : Pool) : Pool := put_disk_jobs (disk_jobs p ++ [j]) p.
Definition emit_output (o : output) (p : Pool) : Pool := put_outputs (outputs p ++ [o]) p.

Section pool.
Context `{Csrng, JsonLib, Quic, Oxenc} (cfg : pool_config).

(** ** Drawing randomness *)
Definition draw_shuffle (l : list master_node) : M Pool (list master_node) :=
  p ← mget; modify (put_rng (rng p + 1));; mret (shuffle (rng p) l).

(** [random::unique_id(prefix)]; the counter is a [uint32_t] *)
Definition unique_id (prefix : bytes) : M Pool bytes :=
  p ← mget;
  let '(r, pos) := random_base32 1 (rng p) 4 in
  modify (put_rng pos);;
  modify (put_id_counter (id_counter p + 1));;
  mret (prefix +:+ "-" +:+ print_Zn (id_counter p mod 2 ^ 32) +:+ "-" +:+ r).

(** [_mnode_cache_refresh_failure_count++] and the delay that follows from it *)
Definition next_delay : M Pool Z :=
  modify (λ p, put_refresh_failure_count (refresh_failure_count p + 1) p);;
  p ← mget;
  lift (exponential (base_delay cfg) (max_delay cfg) (refresh_failure_count p)).

(** ** Strikes *)
Definition strikes_of (p : Pool) (key : bytes) : list Z := default [] (mfind key (mnode_strikes p)).

(** [it != end && it->second.size() >= threshold] *)
Definition struck_out (p : Pool) (key : bytes) : bool :=
  match mfind key (mnode_strikes p) with
  | Some stamps => cache_node_strike_threshold cfg <=? Z.of_nat (length stamps)
  | None => false
  end.

Definition SAVE_THROTTLE : Z := 5 * 60 * 1000.

Definition record_node_failure (key : bytes) (permanent : bool) : M Pool () :=
  p ← mget;
  let now := now_s (clock p) in
  let n := if permanent then Z.to_nat (cache_node_strike_threshold cfg) else 1%nat in
  (* [_mnode_strikes[key]] creates the entry, also when only its size is logged *)
  modify (put_mnode_strikes (minsert key (strikes_of p key ++ replicate n now) (mnode_strikes p)));;
  when (negb (strikes_flush_scheduled p) && negb (suspended p))
    (modify (put_strikes_flush_scheduled true);; modify (later SAVE_THROTTLE TFlushStrikes)).

(** The task that [record_node_failure] schedules *)
Definition flush_strikes : M Pool () :=
  modify (put_strikes_flush_scheduled false);;
  p ← mget;
  when (negb (suspended p)) (modify (on_disk_loop (WriteStrikes (mnode_strikes p)))).

Definition node_strike_count (key : bytes) : M Pool Z :=
  p ← mget;
  let threshold := now_s (clock p) - STRIKE_EXPIRY in
  mret (Z.of_nat (length (List.filter (λ t, threshold <? t) (strikes_of p key))) mod 2 ^ 16).

Definition clear_node_strikes : M Pool () :=
  modify (put_mnode_strikes []);;
  modify (put_strikes_flush_scheduled false);;
  modify (on_disk_loop (WriteStrikes [])).

(** ** Suspending *)
Definition suspend : M Pool () :=
  modify (put_suspended true);;
  p ← mget;
  when (strikes_flush_scheduled p) (modify (on_disk_loop (WriteStrikes (mnode_strikes p)))).
Definition resume : M Pool () :=
  p ← mget; when (suspended p) (modify (put_suspended false)).

Definition set_routed_fetcher (fetcher : bool) : M Pool () :=
  modify (put_routed_fetcher (Some fetcher)).
Definition pool_size : M Pool Z := p ← mget; mret (Z.of_nat (length (mnode_cache p))).

Definition clear_cache : M Pool () :=
  modify (put_mnode_cache []);;
  modify (put_all_swarms []);;
  modify (put_swarm_cache []);;
  modify (on_disk_loop ClearDiskCache).

(** ** The requests of a refresh *)

(** The nodes of the fallback list that are not known to be gone: a node whose
    unlock height has passed by now is left out *)
Definition fallback_node (f : fallback_file) (expected_current_height : Z) (e : nat * json) : result (option master_node) :=
  match from_json (fb_garbage f e.1) e.2 with
  | Ok n => Ok (if negb (requested_unlock_height n =? 0) && (requested_unlock_height n <=? expected_current_height)
                then None else Some n)
  | Throw undefined_behaviour => Throw undefined_behaviour
  | Throw _ => Ok None
  end.
Definition fallback_nodes (f : fallback_file) (clock : Z) : result (list master_node) :=
  j ← from_option_or json_error (fb_json f);
  nodes ← (v ← json_at j "master_node_states"; get_array v);
  height ← (v ← json_at j "height"; get_int v);
  let seconds_since_build := Z.quot (Z.quot clock NS_PER_MS - Z.quot (fb_time f) NS_PER_MS) 1000 in
  (* an [int64_t] that is compared with a [uint64_t] *)
  let expected_current_height := wrap64 (height + Z.quot seconds_since_build 120) in
  parsed ← mapR (fallback_node f expected_current_height) (imap pair nodes);
  let parsed_nodes := omap id parsed in
  _ ← require (cache_min_size cfg <=? Z.of_nat (length parsed_nodes)) runtime_error;
  Ok parsed_nodes.

(** [_launch_next_refresh_request].  [update] is [_update_cache], which calls
    this function in turn. *)
Definition launch_next_with (update : list master_node → M Pool ()) (rq : request) : M Pool () :=
  p ← mget;
  match current_refresh_id p with
  | None => skip
  | Some _ =>
      match last (refresh_candidates p) with
      | None =>
          used ← (match fallback cfg with
                  | Some f =>
                      if from_seed_nodes rq then
                        catch (nodes ← lift (fallback_nodes f (clock p)); update nodes;; mret true) (λ _, mret false)
                      else mret false
                  | None => mret false
                  end);
          if (used : bool) then skip else
          delay ← next_delay;
          modify (later delay TRestart)
      | Some target_node =>
          modify (put_refresh_candidates (removelast (refresh_candidates p)));;
          fetcher ← (if use_direct rq then mret (direct_fetcher cfg)
                     else match routed_fetcher p with Some f => mret f | None => throw undefined_behaviour end);
          if (fetcher : bool) then modify (λ p, put_in_flight (in_flight p ++ [(rq, target_node)]) p)
          else modify (put_current_refresh_id None);; modify (put_refresh_candidates [])
      end
  end.

(** The loops that launch every request of a refresh *)
Definition launch_all_with (update : list master_node → M Pool ()) (rq : request) : M Pool () :=
  forM_ (seqZ 0 (total_requests rq)) (λ i, launch_next_with update
    (mkRequest (request_id rq) i (from_seed_nodes rq) (use_direct rq) (total_requests rq))).

(** [_refresh_mnode_cache] *)
Definition refresh_with (update : list master_node → M Pool ()) : M Pool () :=
  p ← mget;
  if suspended p then skip else
  id ← unique_id "RSC";
  match current_refresh_id p with
  | Some _ => skip
  | None =>
      modify (put_current_refresh_id (Some id));;
      modify (put_refresh_results []);;
      modify (put_refresh_candidates []);;
      let wanted := cache_num_nodes_to_use_for_refresh cfg in
      let cache_insufficient := (0 <? wanted) && (Z.of_nat (length (mnode_cache p)) <? wanted) in
      let use_routed_fetcher := cache_insufficient && bool_decide (is_Some (routed_fetcher p)) && connected p in
      let use_seed_nodes := (wanted =? 0) || cache_insufficient in
      let num_nodes_for_refresh := if use_seed_nodes then 1 else wanted in
      candidates ← draw_shuffle (if use_seed_nodes then seed_nodes cfg else mnode_cache p);
      modify (put_refresh_candidates candidates);;
      if (length candidates =? 0)%nat then modify (put_current_refresh_id None)
      else launch_all_with update (mkRequest id 0 use_seed_nodes (negb use_routed_fetcher) num_nodes_for_refresh)
  end.

(** ** The swarm of an account *)
Definition strike_count (p : Pool) (n : master_node) : Z := Z.of_nat (length (strikes_of p (remote_pubkey n))).

(** The nodes below the threshold, and when these are too few the ones above
    it with the fewest strikes *)
Definition filter_by_strikes (nodes : list master_node) : M Pool (list master_node) :=
  p ← mget;
  nodes ← draw_shuffle nodes;
  let '(under, over) := stable_partition (λ n, strike_count p n <? cache_node_strike_threshold cfg) nodes in
  mret (if (length over =? 0)%nat then nodes
        else if cache_min_swarm_size cfg <=? Z.of_nat (length under) then under
        else take (Z.to_nat (Z.min (Z.of_nat (length nodes)) (cache_min_swarm_size cfg)))
               (under ++ stable_sort (λ a b, strike_count p a <? strike_count p b) over)).

Definition give_swarm (ignore_strike_count : bool) (id : Z) (s : swarm) : M Pool () :=
  nodes ← (if ignore_strike_count then mret s.2 else filter_by_strikes s.2);
  modify (emit_output (OutSwarm id s.1 nodes)).

Definition get_swarm_with (update : list master_node → M Pool ())
    (swarm_pubkey : bytes) (ignore_strike_count : bool) (id : Z) : M Pool () :=
  p ← mget;
  match mfind swarm_pubkey (swarm_cache p) with
  | Some s => give_swarm ignore_strike_count id s
  | None =>
      if (length (mnode_cache p) =? 0)%nat || (length (all_swarms p) =? 0)%nat then
        modify (put_after_refresh (after_refresh p ++ [CbGetSwarm swarm_pubkey ignore_strike_count id]));;
        match current_refresh_id p with None => refresh_with update | Some _ => skip end
      else
        modify (later 0 (TRefreshIfNeeded []));;
        s ← lift (Swarm.get_swarm swarm_pubkey (all_swarms p));
        modify (put_swarm_cache (minsert swarm_pubkey s (swarm_cache p)));;
        give_swarm ignore_strike_count id s
  end.

(** ** The end of a refresh *)

(** The callbacks in order.  A callback that adds another invalidates the
    iteration, which is undefined. *)
Definition run_callback_with (update : list master_node → M Pool ()) (cb : callback) : M Pool () :=
  before ← gets after_refresh;
  match cb with
  | CbUser id => modify (emit_output (OutDone id))
  | CbGetSwarm pk ignore id => get_swarm_with update pk ignore id
  end;;
  after ← gets after_refresh;
  guard_ (length before =? length after)%nat undefined_behaviour.

(** [_update_cache]; the callbacks it runs may refresh, but a refresh they
    start never gets here again: [refresh_any_update]. *)
Fixpoint update_cache (fuel : nat) (nodes : list master_node) : M Pool () :=
  match fuel with
  | O => throw out_of_fuel
  | S fuel =>
      nodes ← draw_shuffle nodes;
      modify (put_mnode_cache nodes);;
      modify (put_all_swarms (generate_swarms nodes));;
      modify (put_swarm_cache []);;
      modify (λ p, put_last_mnode_cache_update (clock p) p);;
      modify (put_current_refresh_id None);;
      modify (put_refresh_results []);;
      modify (put_refresh_candidates []);;
      modify (put_refresh_failure_count 0);;
      modify (on_disk_loop (WriteCache nodes));;
      callbacks ← gets after_refresh;
      forM_ callbacks (λ cb, catch (run_callback_with (update_cache fuel) cb) (λ _, skip));;
      modify (put_after_refresh [])
  end.
Definition _update_cache : list master_node → M Pool () := update_cache 2.
Definition _launch_next_refresh_request : request → M Pool () := launch_next_with _update_cache.
Definition _refresh_mnode_cache : M Pool () := refresh_with _update_cache.
Definition pool_get_swarm : bytes → bool → Z → M Pool () := get_swarm_with _update_cache.

(** [_on_refresh_complete]: every response is parsed and sorted; one that is
    not a node list makes the requests start over *)
Definition parse_response (rq : request) (nodes_bin : bytes) : result (list master_node) :=
  '(nodes, _) ← process_mnode_cache_bin
    (if negb (use_direct rq) && is_base64 nodes_bin then from_base64 nodes_bin else nodes_bin);
  Ok (stable_sort klt nodes).

Definition _on_refresh_complete (rq : request) (raw_results : list bytes) : M Pool () :=
  match mapR (parse_response rq) raw_results with
  | Ok processed_nodes =>
      nodes ← lift (combine_responses (Q := list Cursor)
        (cache_min_num_refresh_presence_to_include_node cfg) processed_nodes);
      _update_cache nodes
  | Throw _ =>
      modify (put_refresh_results []);;
      delay ← next_delay;
      modify (later delay (TRelaunch rq))
  end.

(** The callback a fetcher calls with the response to a request *)
Definition on_response (rq : request) (success timeout : bool) (status_code : Z) (response : option bytes) : M Pool () :=
  p ← mget;
  if negb (bool_decide (current_refresh_id p = Some (request_id rq))) then skip else
  match response with
  | Some data =>
      if negb success || timeout || (status_code <? 200) || (299 <? status_code)
      then delay ← next_delay; modify (later delay (TRetry rq))
      else
        modify (put_refresh_results (refresh_results p ++ [data]));;
        when (total_requests rq <=? Z.of_nat (length (refresh_results p ++ [data])))
          (modify (put_refresh_results []);; _on_refresh_complete rq (refresh_results p ++ [data]))
  | None => delay ← next_delay; modify (later delay (TRetry rq))
  end.

(** ** Deciding to refresh *)

(** The nodes that count as usable, at most as many as needed *)
Definition usable_nodes (p : Pool) (in_use : list master_node) : list master_node :=
  List.filter (λ n, negb (struck_out p (remote_pubkey n)) &&
                    negb (smem (remote_pubkey n) (remote_pubkey <$> in_use))) (mnode_cache p).

Definition refresh_if_needed (in_use_nodes : list master_node) (cb : option Z) : M Pool () :=
  p ← mget;
  if suspended p then skip else
  let already_running := bool_decide (is_Some (current_refresh_id p)) in
  let cache_lifetime := clock p - last_mnode_cache_update p in
  let needs_to_start_refresh := negb already_running &&
    ((length (mnode_cache p) =? 0)%nat || (cache_expiration cfg * 60 * NS_PER_S <? cache_lifetime) ||
     (Z.of_nat (length (usable_nodes p in_use_nodes)) <? cache_min_size cfg)) in
  let remaining := cache_min_lifetime cfg * NS_PER_MS - cache_lifetime in
  when (needs_to_start_refresh || already_running)
    (match cb with Some id => modify (put_after_refresh (after_refresh p ++ [CbUser id])) | None => skip end);;
  if needs_to_start_refresh then
    if 0 <? remaining then modify (later (remaining / NS_PER_MS) TRefresh) else _refresh_mnode_cache
  else match already_running, cb with
       | false, Some id => modify (emit_output (OutDone id))
       | _, _ => skip
       end.

(** ** Picking nodes *)

(** [ip.to_base(24)] *)
Definition subnet (n : master_node) : Z := to_base (ip n) 24.

Fixpoint pick_nodes (p : Pool) (count : nat) (excluded : list bytes) (used_subnets : list Z)
    (candidates result : list master_node) : list master_node :=
  match candidates with
  | [] => result
  | node :: candidates =>
      if (count <=? length result)%nat then result
      else if smem (remote_pubkey node) excluded then pick_nodes p count excluded used_subnets candidates result
      else if struck_out p (remote_pubkey node) then pick_nodes p count excluded used_subnets candidates result
      else if enforce_subnet_diversity cfg && smem (subnet node) used_subnets
      then pick_nodes p count excluded used_subnets candidates result
      else pick_nodes p count excluded
             (if enforce_subnet_diversity cfg then subnet node :: used_subnets else used_subnets)
             candidates (result ++ [node])
  end.

Definition get_unused_nodes (count : nat) (exclude_nodes : list master_node) : M Pool (list master_node) :=
  modify (later 0 (TRefreshIfNeeded exclude_nodes));;
  p ← mget;
  if (length (mnode_cache p) =? 0)%nat then mret [] else
  modify (put_rng (rng p + 1));;
  let n := Z.of_nat (length (mnode_cache p)) in
  let start_index := Z.to_nat (get_uniform_distribution 0 (n - 1) (csrng (rng p))) in
  (* the nodes at [(start_index + i) % size] *)
  let from_start := drop start_index (mnode_cache p) ++ take start_index (mnode_cache p) in
  mret (pick_nodes p count (remote_pubkey <$> exclude_nodes)
          (if enforce_subnet_diversity cfg then subnet <$> exclude_nodes else []) from_start []).

(** ** The disk loop *)
Definition run_disk_job (j : disk_job) : M Pool () :=
  p ← mget;
  match j with
  | WriteCache cache =>
      match cache_contents cache with
      | Ok contents => when (has_directory cfg) (modify (put_cache_file (Some contents)))
      | Throw _ => skip
      end
  | WriteStrikes strikes =>
      when (has_directory cfg) (modify (put_strikes_file (Some (strikes_contents (clock p) strikes))))
  | ClearDiskCache => when (has_directory cfg) (modify (put_cache_file None))
  end.

(** ** Starting *)
Definition load_cache_file (file_time : Z) : M Pool () :=
  p ← mget;
  match cache_file p with
  | None => skip
  | Some contents =>
      modify (put_last_mnode_cache_update file_time);;
      match load_cache contents with
      | Ok nodes =>
          nodes ← draw_shuffle nodes;
          modify (put_mnode_cache nodes);;
          modify (put_all_swarms (generate_swarms nodes))
      | Throw e => if catchable e then modify (put_cache_file None) else throw e
      end
  end.
Definition load_strikes_file : M Pool () :=
  p ← mget;
  match strikes_file p with
  | None => skip
  | Some contents =>
      if size contents =? 0 then skip else
      match load_strikes (clock p) contents with
      | Ok loaded => modify (put_mnode_strikes loaded)
      | Throw _ => modify (put_strikes_file None)
      end
  end.
Definition _load_from_disk (file_time : Z) : M Pool () := load_cache_file file_time;; load_strikes_file.

(** A pool on what the surroundings are: files, clock, connectivity, randomness *)
Definition blank_pool (cache strikes : option bytes) (clock : Z) (connected : bool) (rng ids : Z) : Pool :=
  mkPool false None [] [] [] [] false 0 None 0 [] [] [] [] [] [] cache strikes [] clock connected rng ids.
Definition new_pool (file_time : Z) : M Pool () := when (has_directory cfg) (_load_from_disk file_time).
End pool.
