(* ===== verification/MnodePoolState.v ===== *)
(** * The node pool over its lifetime

    The steps a pool takes: calls of its functions, tasks that fire, responses
    that arrive, disk jobs, and what changes around it.  What holds in every
    state they reach: the swarms belong to the cache, and a refresh that is
    under way is never stuck, since something that will move it on is always
    pending ([src/network/mnode_pool.cpp]). *)

From Stdlib Require Import ZArith String Ascii Lia.
From stdpp Require Import base option strings numbers sorting sets list.
From S2P Require Import Prelude OrderedMap Bt Bencode Crypto Text Ids State Wire StableSort Swarm MasterNode NodeMerge MnodePool.

(** ** Triples

    [triple P m Q]: from a state with [P], [m] does not throw, and unless it
    runs into undefined behaviour it ends with [Q]. *)
Definition triple {S A} (P : S → Prop) (m : M S A) (Q : A → S → Prop) : Prop :=
  ∀ s, P s → match m s with (Ok a, s') => Q a s' | (Throw e, _) => e = undefined_behaviour end.

Section triples.
Context {S : Type}.
Implicit Types P : S → Prop.

Lemma triple_ret {A} P (a : A) : triple P (mret a : M S A) (λ _, P).
Proof. by intros s Hs. Qed.

Lemma triple_bind {A B} P (m : M S A) R (f : A → M S B) Q :
  triple P m R → (∀ a, triple (R a) (f a) Q) → triple P (x ← m; f x) Q.
Proof.
  intros Hm Hf s Hs. specialize (Hm s Hs). rewrite run_bind. destruct (m s) as [[a|e] s']; [|done]. by apply Hf.
Qed.

Lemma triple_conseq {A} P P' (m : M S A) Q Q' :
  triple P' m Q' → (∀ s, P s → P' s) → (∀ a s, Q' a s → Q a s) → triple P m Q.
Proof.
  intros Hm HP HQ s Hs. specialize (Hm s (HP s Hs)). destruct (m s) as [[a|e] s']; [by apply HQ|done].
Qed.

Lemma triple_pre {A} P P' (m : M S A) Q : triple P' m Q → (∀ s, P s → P' s) → triple P m Q.
Proof. intros Hm HP. by eapply triple_conseq. Qed.

Lemma triple_read {A} P (f : S → M S A) Q :
  (∀ s, P s → triple (λ s', s' = s) (f s) Q) → triple P (b ← mget; f b) Q.
Proof. intros Hf s Hs. exact (Hf s Hs s eq_refl). Qed.

Lemma triple_modify P (g : S → S) Q : (∀ s, P s → Q tt (g s)) → triple P (modify g) Q.
Proof. intros Hg s Hs. by apply Hg. Qed.

Lemma triple_and {A} P P' (m : M S A) Q Q' :
  triple P m Q → triple P' m Q' → triple (λ s, P s ∧ P' s) m (λ a s, Q a s ∧ Q' a s).
Proof. intros Hm Hm' s [Hs Hs']. specialize (Hm s Hs). specialize (Hm' s Hs'). by destruct (m s) as [[a|e] s']. Qed.

Lemma triple_forM_inv {A} P (l : list A) (f : A → M S ()) :
  (∀ a, a ∈ l → triple P (f a) (λ _, P)) → triple P (forM_ l f) (λ _, P).
Proof.
  induction l as [|a l IH]; intros Hf; [apply triple_ret|]. cbn [forM_]. eapply triple_bind; [apply Hf; left|].
  intros []. apply IH. intros b Hb. apply Hf. by right.
Qed.

Lemma triple_modify_then {A} P (g : S → S) P' (m : M S A) Q :
  triple P' m Q → (∀ s, P s → P' (g s)) → triple P (modify g;; m) Q.
Proof. intros Hm Hg s Hs. rewrite run_modify. by apply Hm, Hg. Qed.

Lemma triple_forM {A} (P : nat → S → Prop) (l : list A) (f : A → M S ()) :
  (∀ k a, a ∈ l → triple (P (Datatypes.S k)) (f a) (λ _, P k)) → triple (P (length l)) (forM_ l f) (λ _, P O).
Proof.
  induction l as [|a l IH]; intros Hf; [apply triple_ret|]. cbn [length forM_]. eapply triple_bind; [apply Hf; left|].
  intros []. apply IH. intros k b Hb. apply Hf. by right.
Qed.

(** An operation that never throws is not changed by a handler. *)
Lemma triple_catch {A} P (m : M S A) h Q : triple P m Q → triple P (catch m h) Q.
Proof. intros Hm s Hs. specialize (Hm s Hs). unfold catch. by destruct (m s) as [[a|e] s']; [|subst e]. Qed.
End triples.

(** ** Request ids *)

(** The ids that the counter gives out, with anything after the number *)
Definition issued (k : Z) (id : bytes) : Prop := ∃ r, id = "RSC-" +:+ print_Zn k +:+ String "-" r.

Lemma issued_inj j k id : 0 ≤ j → 0 ≤ k → issued j id → issued k id → j = k.
Proof.
  intros Hj Hk [r ->] [r' E]. cbn [String.append] in E. injection E as E.
  assert (∀ z, lacks "-" (print_Zn z) = true) as Hl by (intros z; by apply print_lacks).
  apply (f_equal (take_until "-")) in E. rewrite !take_until_app in E by apply Hl. injection E as E _.
  apply (f_equal read_N) in E. unfold print_Zn in E. rewrite !read_print_N in E. injection E as E. lia.
Qed.

(** ** What is pending for a refresh *)
Definition requests (p : Pool) : list request :=
  ((λ f : request * master_node, f.1) <$> in_flight p) ++
  omap (λ t : Z * task, match t.2 with TRetry rq | TRelaunch rq => Some rq | _ => None end) (tasks p).

(** How many responses the pending work for refresh [r] can still bring *)
Definition weight (r : bytes) (t : task) : Z :=
  match t with
  | TRetry rq => if bool_decide (request_id rq = r) then 1 else 0
  | TRelaunch rq => if bool_decide (request_id rq = r) then total_requests rq else 0
  | _ => 0
  end.
Definition pending (r : bytes) (p : Pool) : Z :=
  foldr (λ f : request * master_node, Z.add (if bool_decide (request_id f.1 = r) then 1 else 0)) 0 (in_flight p) +
  foldr (λ t : Z * task, Z.add (weight r t.2)) 0 (tasks p).

Definition restarts (p : Pool) : Prop := ∃ d, (d, TRestart) ∈ tasks p.

(** The refresh under way waits for [T] responses, fewer have come, and the
    pending work, with [k] more requests like [rq] that are about to be made,
    can bring the rest; or the refresh is about to start again. *)
Definition will_finish (rq : request) (k : Z) (p : Pool) : Prop :=
  ∀ r, current_refresh_id p = Some r → restarts p ∨ ∃ T,
    (∀ q, q ∈ requests p → request_id q = r → total_requests q = T) ∧
    (request_id rq = r → total_requests rq = T) ∧
    Z.of_nat (length (refresh_results p)) < T ≤
      Z.of_nat (length (refresh_results p)) + pending r p + (if bool_decide (request_id rq = r) then k else 0).

Definition moving (p : Pool) : Prop :=
  ∀ r, current_refresh_id p = Some r → restarts p ∨ ∃ T,
    (∀ q, q ∈ requests p → request_id q = r → total_requests q = T) ∧
    Z.of_nat (length (refresh_results p)) < T ≤ Z.of_nat (length (refresh_results p)) + pending r p.

(** Ids come from the counter, and those of the past from before it. *)
Definition old_id (p : Pool) (id : bytes) : Prop := ∃ k, 0 ≤ k < id_counter p ∧ issued k id.
Definition old_request (p : Pool) (q : request) : Prop := old_id p (request_id q) ∧ 0 < total_requests q.
Definition old_ids (p : Pool) : Prop :=
  0 ≤ id_counter p ∧ Forall (old_request p) (requests p) ∧ (∀ r, current_refresh_id p = Some r → old_id p r).

(** As long as the counter has not wrapped *)
Definition ID_LIMIT : Z := 2 ^ 32.
Definition owes (rq : request) (k : Z) (p : Pool) : Prop :=
  id_counter p ≤ ID_LIMIT → old_ids p ∧ old_request p rq ∧ will_finish rq k p.
(** No refresh is stuck, and an old request is not of the refresh under way *)
Definition calm (stale : option request) (p : Pool) : Prop :=
  id_counter p ≤ ID_LIMIT → old_ids p ∧ moving p ∧
    match stale with Some q => old_request p q ∧ current_refresh_id p ≠ Some (request_id q) | None => True end.

(** ** Facts about pending work *)
Lemma foldr_add {A} (f : A → Z) l1 l2 :
  foldr (λ a, Z.add (f a)) 0 (l1 ++ l2) = foldr (λ a, Z.add (f a)) 0 l1 + foldr (λ a, Z.add (f a)) 0 l2.
Proof. induction l1 as [|a l1 IH]; cbn [foldr app]; lia. Qed.

Lemma foldr_nonneg {A} (f : A → Z) l : (∀ a, a ∈ l → 0 ≤ f a) → 0 ≤ foldr (λ a, Z.add (f a)) 0 l.
Proof.
  induction l as [|a l IH]; intros Hf; cbn [foldr]; [lia|]. assert (0 ≤ f a) by (apply Hf; left).
  assert (0 ≤ foldr (λ a, Z.add (f a)) 0 l); [|lia]. apply IH. intros b Hb. apply Hf. by right.
Qed.

Definition task_request (t : task) : list request :=
  match t with TRetry rq | TRelaunch rq => [rq] | _ => [] end.

Lemma requests_later d t p q : q ∈ requests (later d t p) ↔ q ∈ requests p ∨ q ∈ task_request t.
Proof.
  unfold requests, later. cbn [tasks in_flight put_tasks]. rewrite omap_app, !elem_of_app.
  destruct t; simpl; set_solver.
Qed.

Lemma pending_later r d t p : pending r (later d t p) = pending r p + weight r t.
Proof. unfold pending, later. cbn [tasks in_flight put_tasks]. rewrite foldr_add. simpl. lia. Qed.

Lemma restarts_later d t p : restarts p → restarts (later d t p).
Proof. intros [e He]. exists e. unfold later. cbn [tasks put_tasks]. apply elem_of_app. by left. Qed.

Definition send (rq : request) (n : master_node) (p : Pool) : Pool := put_in_flight (in_flight p ++ [(rq, n)]) p.

Lemma requests_send rq n p q : q ∈ requests (send rq n p) ↔ q ∈ requests p ∨ q = rq.
Proof.
  unfold requests, send. cbn [tasks in_flight put_in_flight]. rewrite fmap_app, !elem_of_app. simpl. set_solver.
Qed.

Lemma pending_send r rq n p : pending r (send rq n p) = pending r p + (if bool_decide (request_id rq = r) then 1 else 0).
Proof. unfold pending, send. cbn [tasks in_flight put_in_flight]. rewrite foldr_add. simpl. lia. Qed.

Lemma old_id_mono p p' id : id_counter p ≤ id_counter p' → old_id p id → old_id p' id.
Proof. intros Hle (k & Hk & Hi). exists k. split; [lia|done]. Qed.

Lemma old_request_mono p p' q : id_counter p ≤ id_counter p' → old_request p q → old_request p' q.
Proof. intros Hle [Hi Ht]. split; [by apply (old_id_mono p)|done]. Qed.

Lemma old_ids_later d t p : old_ids p → Forall (old_request p) (task_request t) → old_ids (later d t p).
Proof.
  intros (H0 & Hr & Hc) Ht. split_and!; [done| |done]. apply Forall_forall. intros q [Hq|Hq]%requests_later.
  - rewrite Forall_forall in Hr. by apply Hr.
  - rewrite Forall_forall in Ht. by apply Ht.
Qed.

Lemma old_ids_send rq n p : old_ids p → old_request p rq → old_ids (send rq n p).
Proof.
  intros (H0 & Hr & Hc) Ht. split_and!; [done| |done]. apply Forall_forall. intros q [Hq| ->]%requests_send; [|done].
  rewrite Forall_forall in Hr. by apply Hr.
Qed.

(** A fresh id is not pending. *)
Lemma fresh_not_pending r p :
  (∀ q, q ∈ requests p → request_id q ≠ r) → pending r p = 0.
Proof.
  intros Hq. unfold pending.
  assert (∀ f, f ∈ in_flight p → request_id f.1 ≠ r) as Hf.
  { intros f Hf. apply Hq. unfold requests. apply elem_of_app. left. by apply (list_elem_of_fmap_2 (λ f : request * master_node, f.1)). }
  assert (∀ t, t ∈ tasks p → weight r t.2 = 0) as Ht.
  { intros t Ht. assert (∀ q, q ∈ task_request t.2 → request_id q ≠ r) as Hn.
    { intros q Hqt. apply Hq. unfold requests. apply elem_of_app. right. apply list_elem_of_omap. exists t. split; [done|].
      destruct t as [d [ | | | | | ]]; simpl in *; set_solver. }
    destruct t as [d [ | |rq|rq| | ]]; simpl in *; try done; rewrite bool_decide_eq_false_2 by (apply Hn; left); done. }
  revert Hf Ht. generalize (in_flight p) (tasks p). intros l1 l2 Hf Ht.
  assert (foldr (λ f : request * master_node, Z.add (if bool_decide (request_id f.1 = r) then 1 else 0)) 0 l1 = 0) as ->.
  { induction l1 as [|f l1 IH]; [done|]. cbn [foldr]. rewrite IH by (intros g Hg; apply Hf; by right).
    rewrite bool_decide_eq_false_2 by (apply Hf; left). done. }
  induction l2 as [|t l2 IH]; [done|]. cbn [foldr]. rewrite (Ht t) by left. apply IH.
  intros u Hu. apply Ht. by right.
Qed.

Lemma run_shuffle `{Csrng} {A} l (f : list master_node → M Pool A) s :
  (x ← draw_shuffle l; f x) s = f (shuffle (rng s) l) (put_rng (rng s + 1) s).
Proof. done. Qed.

(** ** Launching requests *)
Section launching.
Context `{CsrngLaws, JsonLaws, Quic, Oxenc} (cfg : pool_config).

(** What [_update_cache] needs and leaves *)
Definition with_old (o : option request) (p : Pool) : Prop :=
  id_counter p ≤ ID_LIMIT → old_ids p ∧ match o with Some q => old_request p q | None => True end.
Definition updates (u : list master_node → M Pool ()) (rq : request) : Prop :=
  ∀ nodes, triple (with_old (Some rq)) (u nodes) (λ _, calm (Some rq)).

Lemma calm_owes rq k p : calm (Some rq) p → owes rq k p.
Proof.
  intros Hc Hb. destruct (Hc Hb) as (Ho & Hm & Hq & Hn). split_and!; [done..|]. intros r Hr.
  destruct (Hm r Hr) as [?|(T & HT & Hl)]; [by left|right]. exists T. split_and!; [done| |lia|].
  - intros E. by subst r.
  - rewrite bool_decide_eq_false_2; [lia|]. intros E. by subst r.
Qed.

Lemma owes_restart rq k d p : owes rq k p → owes rq (k - 1) (later d TRestart p).
Proof.
  intros Ho Hb. destruct (Ho Hb) as (Hi & Hq & _). split_and!; [by apply old_ids_later|by apply (old_request_mono p)|].
  intros r _. left. exists d. unfold later. cbn [tasks put_tasks]. apply elem_of_app. right. left.
Qed.

Lemma owes_none rq k k' p : owes rq k p → current_refresh_id p = None → owes rq k' p.
Proof. intros Ho Hn Hb. destruct (Ho Hb) as (Hi & Hq & _). split_and!; [done..|]. intros r Hr. by rewrite Hn in Hr. Qed.

Lemma owes_cancel rq k k' p : owes rq k p → owes rq k' (put_refresh_candidates [] (put_current_refresh_id None p)).
Proof.
  intros Ho Hb. destruct (Ho Hb) as ((Hi1 & Hi2 & _) & Hq & _). split_and!; [done..|]. by intros r Hr.
Qed.

Lemma owes_send rq k i n p :
  owes rq k p → owes rq (k - 1) (send (mkRequest (request_id rq) i (from_seed_nodes rq) (use_direct rq) (total_requests rq)) n p).
Proof.
  intros Ho Hb. destruct (Ho Hb) as (Hi & Hq & Hw). split_and!; [by apply old_ids_send|done|]. intros r Hr.
  destruct (Hw r Hr) as [?|(T & HT & Hown & Hl)]; [by left|right]. exists T. split_and!; [|done|apply Hl|].
  - intros q [Hin| ->]%requests_send; [by apply HT|]. simpl. apply Hown.
  - rewrite pending_send. cbn [request_id refresh_results send put_in_flight].
    destruct (bool_decide (request_id rq = r)); lia.
Qed.

Lemma next_delay_triple P Q :
  (∀ d s, P s → Q d (put_refresh_failure_count (refresh_failure_count s + 1) s)) → triple P (next_delay cfg) Q.
Proof.
  intros HPQ s Hs. unfold next_delay. rewrite run_modify, run_mget. unfold lift. cbn [refresh_failure_count put_refresh_failure_count].
  unfold exponential. destruct (_ <=? 0); [by apply HPQ|]. destruct (_ <? _); [by apply HPQ|done].
Qed.

Lemma bind_Throw {A B} (f : A → result B) (r : result A) e :
  (a ← r; f a) = Throw e ↔ r = Throw e ∨ ∃ a, r = Ok a ∧ f a = Throw e.
Proof.
  destruct r as [a|e']; simpl; split.
  - intros E. right. by exists a.
  - intros [?|(b & Hb & ?)]; [done|]. by injection Hb as ->.
  - intros E. left. by injection E as ->.
  - intros [E|(b & Hb & _)]; [by injection E as ->|done].
Qed.

Lemma mapR_Throw {A B} (f : A → result B) l e : mapR f l = Throw e → ∃ a, a ∈ l ∧ f a = Throw e.
Proof.
  induction l as [|a l IH]; [done|]. cbn [mapR]. intros [E|(b & _ & E)]%bind_Throw; [exists a; by split; [left|]|].
  apply bind_Throw in E as [E|(bs & _ & E)]; [|done]. destruct (IH E) as (c & Hc & Hf). exists c. by split; [right|].
Qed.

(** Reading the fallback list fails with an exception the code catches. *)
Lemma fallback_throws f t e : fallback_nodes cfg f t = Throw e → catchable e = true ∨ e = undefined_behaviour.
Proof.
  unfold fallback_nodes. intros [E|(j & _ & E)]%bind_Throw; [destruct (fb_json f); [done|injection E as <-; by left]|].
  assert (∀ e', json_failure e' → catchable e' = true ∨ e' = undefined_behaviour) as Hj by (intros e' [->| ->]; [by left|by right]).
  apply bind_Throw in E as [E|(nodes & _ & E)].
  { apply bind_Throw in E as [E|(v & _ & E)]; [apply json_at_throws in E|apply get_array_throws in E]; by apply Hj. }
  apply bind_Throw in E as [E|(h & _ & E)].
  { apply bind_Throw in E as [E|(v & _ & E)]; [apply json_at_throws in E|apply get_int_throws in E]; by apply Hj. }
  apply bind_Throw in E as [E|(parsed & _ & E)].
  { apply mapR_Throw in E as ([i jn] & _ & E). unfold fallback_node in E. destruct (from_json _ _) as [n|[]]; try done.
    injection E as <-. by right. }
  apply bind_Throw in E as [E|(? & _ & E)]; [|done]. destruct (_ <=? _); [done|]. injection E as <-. by left.
Qed.

Lemma launch_triple u rq k i :
  updates u rq → let rq' := mkRequest (request_id rq) i (from_seed_nodes rq) (use_direct rq) (total_requests rq) in
  triple (owes rq k) (launch_next_with cfg u rq') (λ _, owes rq (k - 1)).
Proof.
  intros Hu rq'. unfold launch_next_with. apply triple_read. intros s Hs.
  destruct (current_refresh_id s) as [r|] eqn:Er.
  2: { intros s' ->. by apply (owes_none rq k). }
  destruct (last (refresh_candidates s)) as [target|] eqn:El.
  - eapply triple_modify_then with (P' := λ s', s' = put_refresh_candidates (removelast (refresh_candidates s)) s); [|by intros ? ->].
    intros s' ->. set (s' := put_refresh_candidates (removelast (refresh_candidates s)) s).
    assert (owes rq k s') as Hs' by exact Hs.
    assert (∀ b : bool, let r := (if b then modify (λ p, put_in_flight (in_flight p ++ [(rq', target)]) p)
              else modify (put_current_refresh_id None);; modify (put_refresh_candidates [])) s' in
              match r with (Ok _, s2) => owes rq (k - 1) s2 | (Throw e, _) => e = undefined_behaviour end) as Hb.
    { intros [|]; simpl; [by apply (owes_send rq k i target s')|by apply (owes_cancel rq k)]. }
    cbn [use_direct rq']. destruct (use_direct rq).
    + rewrite run_ret. apply Hb.
    + destruct (routed_fetcher s) as [f|]; [rewrite run_ret; apply Hb|done].
  - assert (∀ s1, owes rq k s1 → match (delay ← next_delay cfg; modify (later delay TRestart)) s1 with
              | (Ok _, s2) => owes rq (k - 1) s2 | (Throw e, _) => e = undefined_behaviour end) as Hrestart.
    { intros s1 Hs1. pose proof (next_delay_triple (owes rq k) (λ _, owes rq k) ltac:(by intros) s1 Hs1) as Hd.
      rewrite run_bind. destruct (next_delay cfg s1) as [[d|e] s2]; [|done]. simpl. by apply owes_restart. }
    intros s' ->. destruct (fallback cfg) as [f|]; [|by apply Hrestart].
    cbn [from_seed_nodes rq']. destruct (from_seed_nodes rq); [|by apply Hrestart].
    rewrite run_bind. unfold catch. rewrite run_lift. destruct (fallback_nodes cfg f (clock s)) as [nodes|e] eqn:Ef.
    + rewrite run_bind. pose proof (Hu nodes s) as Hn. destruct (u nodes s) as [[[]|e] s2].
      * simpl. apply calm_owes, Hn. intros Hb. by destruct (Hs Hb) as (? & ? & _).
      * assert (e = undefined_behaviour) as -> by (apply Hn; intros Hb; by destruct (Hs Hb) as (? & ? & _)). done.
    + destruct (catchable e) eqn:Ec; [by apply Hrestart|]. destruct (fallback_throws _ _ _ Ef) as [E|E]; [by rewrite E in Ec|exact E].
Qed.

Lemma owes_calm rq p : owes rq 0 p → calm None p.
Proof.
  intros Ho Hb. destruct (Ho Hb) as (Hi & Hq & Hw). split_and!; [done| |done]. intros r Hr.
  destruct (Hw r Hr) as [?|(T & HT & _ & Hl)]; [by left|right]. exists T. split; [done|].
  destruct (bool_decide _); lia.
Qed.

Lemma launch_all_triple u rq :
  updates u rq → 0 ≤ total_requests rq →
  triple (owes rq (total_requests rq)) (launch_all_with cfg u rq) (λ _, calm None).
Proof.
  intros Hu Ht. unfold launch_all_with.
  eapply triple_conseq with (P' := owes rq (Z.of_nat (length (seqZ 0 (total_requests rq))))) (Q' := λ _, owes rq 0).
  - apply (triple_forM (λ k, owes rq (Z.of_nat k))). intros k i _.
    eapply triple_conseq; [apply (launch_triple u rq (Z.of_nat (S k)) i Hu)|done|].
    intros [] s Hs. by replace (Z.of_nat k) with (Z.of_nat (S k) - 1) by lia.
  - intros s Hs. by rewrite length_seqZ, Z2Nat.id.
  - intros [] s. apply owes_calm.
Qed.

(** ** A refresh never gets to [_update_cache] by itself *)
Definition undefined_update : list master_node → M Pool () := λ _, throw undefined_behaviour.

Lemma undefined_updates rq : updates undefined_update rq.
Proof. by intros nodes s _. Qed.

Lemma launch_any_update u1 u2 rq s :
  (refresh_candidates s ≠ [] ∨ current_refresh_id s = None) → launch_next_with cfg u1 rq s = launch_next_with cfg u2 rq s.
Proof.
  intros Hc. unfold launch_next_with. rewrite !run_mget. destruct (current_refresh_id s); [|done].
  destruct Hc as [Hc|]; [|done]. destruct (last (refresh_candidates s)) eqn:El; [done|]. by apply last_None in El.
Qed.

(** What one request does to the candidates and the id *)
Lemma launch_effect u rq s r s' :
  refresh_candidates s ≠ [] ∨ current_refresh_id s = None → launch_next_with cfg u rq s = (r, s') →
  id_counter s' = id_counter s ∧ (current_refresh_id s' = current_refresh_id s ∨ current_refresh_id s' = None) ∧
  (current_refresh_id s' = None ∨ refresh_candidates s' = removelast (refresh_candidates s)) ∧
  (r = Ok tt ∨ r = Throw undefined_behaviour).
Proof.
  intros Hc. unfold launch_next_with. rewrite !run_mget. destruct (current_refresh_id s) as [i|] eqn:Ei.
  2: { intros [= <- <-]. rewrite Ei. split_and!; [done|by left..]. }
  destruct Hc as [Hc|]; [|done]. destruct (last (refresh_candidates s)) as [t|] eqn:El; [|by apply last_None in El].
  rewrite run_modify. destruct (use_direct rq); [|destruct (routed_fetcher s) as [f|]];
    try (rewrite run_ret; match goal with |- context [if ?b then _ else _] => destruct b end);
    intros [= <- <-]; (split_and!; [done|by (left + right)|by (left + right)|by (left + right)]).
Qed.

Lemma launches_any_update u1 u2 (f : Z → request) l s :
  (length l ≤ length (refresh_candidates s))%nat ∨ current_refresh_id s = None →
  forM_ l (λ i, launch_next_with cfg u1 (f i)) s = forM_ l (λ i, launch_next_with cfg u2 (f i)) s ∧
  id_counter (forM_ l (λ i, launch_next_with cfg u1 (f i)) s).2 = id_counter s ∧
  (current_refresh_id (forM_ l (λ i, launch_next_with cfg u1 (f i)) s).2 = current_refresh_id s ∨
   current_refresh_id (forM_ l (λ i, launch_next_with cfg u1 (f i)) s).2 = None).
Proof.
  revert s; induction l as [|i l IH]; intros s Hl; [split_and!; [done..|by left]|]. cbn [forM_].
  assert (refresh_candidates s ≠ [] ∨ current_refresh_id s = None) as Hc.
  { destruct Hl as [Hl|]; [left|by right]. intros E. rewrite E in Hl. simpl in Hl. lia. }
  rewrite !run_bind, <-(launch_any_update u1 u2 (f i) s Hc).
  destruct (launch_next_with cfg u1 (f i) s) as [r s'] eqn:E.
  destruct (launch_effect u1 (f i) s r s' Hc E) as (Hid & Hcur & Hcand & Hr).
  destruct r as [[]|e]; [|by split_and!].
  destruct (IH s') as (-> & Hid' & Hcur').
  { destruct Hcand as [|Hcand]; [by right|]. destruct Hl as [Hl|Hl].
    - left. rewrite Hcand. simpl in Hl. destruct (refresh_candidates s) as [|x cs] using rev_ind; [simpl in Hl; lia|].
      rewrite removelast_last. rewrite length_app in Hl. simpl in Hl. lia.
    - right. rewrite Hl in Hcur. by destruct Hcur. }
  split_and!; [done|by rewrite Hid'|]. destruct Hcur' as [->|]; [done|by right].
Qed.

(** There are as many candidates as requests. *)
Lemma enough_candidates k s :
  let wanted := cache_num_nodes_to_use_for_refresh cfg in
  let insufficient := (0 <? wanted) && (Z.of_nat (length (mnode_cache s)) <? wanted) in
  let seed := (wanted =? 0) || insufficient in
  let cands := shuffle k (if seed then seed_nodes cfg else mnode_cache s) in
  (length cands =? 0)%nat = false → (Z.to_nat (if seed then 1 else wanted) ≤ length cands)%nat.
Proof.
  intros wanted insufficient seed cands Ec. apply Nat.eqb_neq in Ec.
  assert (length cands = length (if seed then seed_nodes cfg else mnode_cache s)) as Hlen
    by (unfold cands; by rewrite shuffle_perm).
  destruct seed eqn:Ew; [lia|]. unfold seed, insufficient in Ew. apply orb_false_iff in Ew as [Ew Ei]. apply Z.eqb_neq in Ew.
  apply andb_false_iff in Ei as [Ei|Ei]; apply Z.ltb_ge in Ei; lia.
Qed.

Lemma refresh_any_update u1 u2 s : refresh_with cfg u1 s = refresh_with cfg u2 s.
Proof.
  unfold refresh_with. rewrite !run_mget. destruct (suspended s); [done|].
  rewrite !run_bind. destruct (unique_id "RSC" s) as [[id|e] s1] eqn:E1; [|done].
  destruct (current_refresh_id s); [done|]. rewrite !run_modify, !run_shuffle, !run_modify.
  match goal with |- context [shuffle ?k _] => pose proof (enough_candidates k s) as He end. cbv zeta in He.
  destruct (length _ =? 0)%nat; [done|]. unfold launch_all_with.
  apply launches_any_update. left. rewrite length_seqZ. exact (He eq_refl).
Qed.

(** ** Starting a refresh *)
Context (wanted_ok : 0 ≤ cache_num_nodes_to_use_for_refresh cfg).

Lemma unique_id_run s :
  ∃ id, unique_id "RSC" s = (Ok id, put_id_counter (id_counter s + 1) (put_rng (rng s + 1) s)) ∧
    issued (id_counter s mod 2 ^ 32) id.
Proof. eexists. split; [reflexivity|]. unfold issued. eexists. cbn [String.append]. reflexivity. Qed.

Lemma fresh_id p s id :
  0 ≤ id_counter s < ID_LIMIT → issued (id_counter s mod 2 ^ 32) id → old_id s p → p ≠ id.
Proof.
  intros Hb Hi (k & Hk & Hp) ->. unfold ID_LIMIT in *. rewrite Z.mod_small in Hi by lia.
  pose proof (issued_inj k (id_counter s) id ltac:(lia) ltac:(lia) Hp Hi). lia.
Qed.

Lemma calm_more_ids o s : calm o s → calm o (put_id_counter (id_counter s + 1) (put_rng (rng s + 1) s)).
Proof.
  intros Hc Hb. cbn [id_counter put_id_counter] in Hb. destruct (Hc ltac:(lia)) as ((Hi1 & Hi2 & Hi3) & Hm & Ho).
  set (s' := put_id_counter _ _). assert (id_counter s ≤ id_counter s') as Hle by (cbn; lia). split_and!; [split; [|split]| |].
  - lia.
  - eapply Forall_impl; [exact Hi2|]. intros q. by apply old_request_mono.
  - intros r Hr. apply (old_id_mono s s' r Hle), Hi3, Hr.
  - exact Hm.
  - destruct o as [q|]; [|done]. destruct Ho as [Hq Hn]. split; [by apply (old_request_mono s)|done].
Qed.

Lemma started_owes o s id rq s' :
  calm o s → current_refresh_id s = None → issued (id_counter s mod 2 ^ 32) id → request_id rq = id → 0 < total_requests rq →
  requests s' = requests s → id_counter s' = id_counter s + 1 → current_refresh_id s' = Some id → refresh_results s' = [] →
  owes rq (total_requests rq) s' ∧
  (id_counter s' ≤ ID_LIMIT → match o with Some q => old_request s' q ∧ request_id q ≠ id | None => True end).
Proof.
  intros Hc Hn Hi Hid Ht Hrq Hk Hcur Hres.
  assert (id_counter s' ≤ ID_LIMIT → 0 ≤ id_counter s < ID_LIMIT ∧ old_ids s ∧
    match o with Some q => old_request s q | None => True end) as Hb.
  { intros Hb. destruct (Hc ltac:(lia)) as (Ho & _ & Hq). split_and!; [apply Ho|lia|done|]. destruct o; [apply Hq|done]. }
  assert (id_counter s ≤ id_counter s') as Hle by lia. split.
  - intros Hlim. destruct (Hb Hlim) as (Hr & (Hi1 & Hi2 & Hi3) & _).
    assert (old_request s' rq) as Hown.
    { split; [|done]. rewrite Hid. exists (id_counter s). split; [lia|]. unfold ID_LIMIT in Hr. by rewrite Z.mod_small in Hi by lia. }
    split_and!; [split; [|split]|done|].
    + lia.
    + rewrite Hrq. eapply Forall_impl; [exact Hi2|]. intros q. by apply old_request_mono.
    + intros r. rewrite Hcur. intros [= <-]. rewrite <-Hid. apply Hown.
    + intros r. rewrite Hcur. intros [= <-]. right. exists (total_requests rq).
      assert (∀ q, q ∈ requests s → request_id q ≠ id) as Hfresh.
      { intros q Hq. rewrite Forall_forall in Hi2. apply (fresh_id _ s id Hr Hi). by apply Hi2. }
      rewrite Hrq, Hres, bool_decide_eq_true_2 by done.
      assert (pending id s' = 0) as -> by (apply fresh_not_pending; by rewrite Hrq).
      split_and!; [|done|cbn; lia|cbn; lia]. intros q Hq E. by destruct (Hfresh q Hq).
  - intros Hlim. destruct (Hb Hlim) as (Hr & _ & Hq). destruct o as [q|]; [|done].
    split; [by apply (old_request_mono s)|]. apply (fresh_id _ s id Hr Hi). apply Hq.
Qed.

Lemma refresh_triple u o : triple (calm o) (refresh_with cfg u) (λ _, calm o).
Proof.
  intros s Hs. rewrite (refresh_any_update u undefined_update). unfold refresh_with. rewrite run_mget.
  destruct (suspended s); [done|]. destruct (unique_id_run s) as (id & E & Hi). rewrite run_bind, E.
  destruct (current_refresh_id s) eqn:Ec; [by apply calm_more_ids|]. rewrite !run_modify, run_shuffle, run_modify.
  set (wanted := cache_num_nodes_to_use_for_refresh cfg).
  set (insufficient := (0 <? wanted) && (Z.of_nat (length (mnode_cache s)) <? wanted)).
  set (cands := shuffle _ _). set (s1 := put_refresh_candidates cands _).
  destruct (length cands =? 0)%nat eqn:El.
  { pose proof (calm_more_ids o s Hs) as Hm. intros Hb. destruct (Hm Hb) as ((Hi1 & Hi2 & _) & _ & Ho).
    split_and!; [split; [done|split; [done|by intros]]|by intros r Hr|]. destruct o as [q|]; [by destruct Ho|done]. }
  match goal with |- context [launch_all_with cfg undefined_update ?r] => set (rq := r) end.
  assert (0 < total_requests rq) as Ht.
  { cbn [total_requests rq]. destruct ((wanted =? 0) || insufficient) eqn:Ew; [lia|].
    apply orb_false_iff in Ew as [Ew _]. apply Z.eqb_neq in Ew. unfold wanted in *. lia. }
  destruct (started_owes o s id rq s1 Hs Ec Hi eq_refl Ht eq_refl eq_refl eq_refl eq_refl) as [Hown Hstale].
  assert (current_refresh_id s1 = Some id) as Hcur by done.
  assert (Z.to_nat (total_requests rq) ≤ length (refresh_candidates s1))%nat as Hen by (by apply enough_candidates).
  clearbody s1.
  pose proof (launch_all_triple undefined_update rq (undefined_updates rq) ltac:(lia) s1 Hown) as Hl.
  assert (id_counter (launch_all_with cfg undefined_update rq s1).2 = id_counter s1 ∧
    (current_refresh_id (launch_all_with cfg undefined_update rq s1).2 = Some id ∨
     current_refresh_id (launch_all_with cfg undefined_update rq s1).2 = None)) as [Hk Hc].
  { rewrite <-Hcur. unfold launch_all_with. apply launches_any_update; [exact undefined_update|]. left. rewrite length_seqZ. exact Hen. }
  destruct (launch_all_with cfg undefined_update rq s1) as [[[]|e] s2]; [|done]. cbn [snd] in *.
  intros Hb. destruct (Hl Hb) as (Ho & Hm & _). split_and!; [done..|]. destruct o as [q|]; [|done].
  destruct (Hstale ltac:(lia)) as [Hq Hne]. split; [apply (old_request_mono s1); [lia|done]|].
  destruct Hc as [->| ->]; congruence.
Qed.

(** ** Swarms and the end of a refresh *)
Lemma calm_later o d t p : task_request t = [] → calm o p → calm o (later d t p).
Proof.
  intros Ht Hc Hb. destruct (Hc Hb) as (Ho & Hm & Hq). split_and!; [apply old_ids_later; [done|by rewrite Ht]| |done].
  intros r Hr. destruct (Hm r Hr) as [?|(T & HT & Hl)]; [left; by apply restarts_later|right]. exists T. split_and!.
  - intros q [Hin|Hin]%requests_later; [by apply HT|]. rewrite Ht in Hin. by apply elem_of_nil in Hin.
  - apply Hl.
  - rewrite pending_later. assert (weight r t = 0) as -> by (destruct t; done). cbn [refresh_results later put_tasks]. lia.
Qed.

Lemma shuffle_triple o l : triple (calm o) (draw_shuffle l) (λ _, calm o).
Proof. by intros s Hs. Qed.

Lemma give_swarm_triple o ignore id sw : triple (calm o) (give_swarm cfg ignore id sw) (λ _, calm o).
Proof.
  unfold give_swarm. eapply triple_bind with (R := λ _, calm o); [|intros nodes; by apply triple_modify].
  destruct ignore; [apply triple_ret|]. unfold filter_by_strikes. apply triple_read. intros s Hs.
  eapply triple_pre with (P' := calm o); [|by intros ? ->].
  eapply triple_bind; [apply shuffle_triple|]. intros l. destruct (stable_partition _ _). apply triple_ret.
Qed.

Lemma swarm_throws pk l e : Swarm.get_swarm pk l = Throw e → e = undefined_behaviour.
Proof.
  unfold Swarm.get_swarm. assert (∀ (a b : option swarm) f, match a, b with Some x, Some y => Ok (f x y) | _, _ => Throw undefined_behaviour end =
    (Throw e : result swarm) → e = undefined_behaviour) as Hm by (intros [|] [|] f; try done; by intros [= <-]).
  destruct l as [|? [|? ?]]; [apply Hm|done|apply Hm].
Qed.

Lemma get_swarm_triple u o pk ignore id : triple (calm o) (get_swarm_with cfg u pk ignore id) (λ _, calm o).
Proof.
  unfold get_swarm_with. apply triple_read. intros s Hs. eapply triple_pre with (P' := calm o); [|by intros ? ->].
  destruct (mfind pk (swarm_cache s)); [apply give_swarm_triple|]. destruct (_ || _).
  - eapply triple_modify_then with (P' := calm o); [|done]. destruct (current_refresh_id s); [apply triple_ret|apply refresh_triple].
  - eapply triple_modify_then with (P' := calm o); [|intros t Ht; by apply calm_later].
    intros t Ht. rewrite run_lift. destruct (Swarm.get_swarm pk (all_swarms s)) as [sw|e] eqn:E; [|by apply swarm_throws in E].
    rewrite run_modify. by apply give_swarm_triple.
Qed.

Lemma callback_triple u o cb : triple (calm o) (run_callback_with cfg u cb) (λ _, calm o).
Proof.
  unfold run_callback_with. intros s Hs. rewrite run_gets. revert s Hs.
  assert (∀ b, triple (calm o) (match cb with CbUser id => modify (emit_output (OutDone id))
      | CbGetSwarm pk ignore id => get_swarm_with cfg u pk ignore id end;;
      after ← gets after_refresh; guard_ (b =? length after)%nat undefined_behaviour) (λ _, calm o)) as Hall.
  { intros b. eapply triple_bind with (R := λ _, calm o).
    - destruct cb; [by apply triple_modify|apply get_swarm_triple].
    - intros [] s Hs. rewrite run_gets. by destruct (b =? _)%nat. }
  intros s Hs. by apply Hall.
Qed.

Lemma update_triple n o nodes : triple (with_old o) (update_cache cfg (S n) nodes) (λ _, calm o).
Proof.
  intros s Hs. cbn [update_cache]. rewrite run_shuffle, !run_modify, run_gets.
  match goal with |- context [forM_ _ _ ≫= _] => idtac end.
  match goal with |- match _ ?st with _ => _ end => assert (calm o st) as Hc; [|generalize dependent st] end.
  { intros Hb. destruct (Hs Hb) as ((Hi1 & Hi2 & _) & Hq).
    split_and!; [split; [done|split; [done|by intros]]|by intros r Hr|]. by destruct o. }
  intros st Hc. apply (triple_bind (calm o) _ (λ _, calm o)); [|intros []; by apply triple_modify|done].
  apply triple_forM_inv. intros cb _. apply triple_catch, callback_triple.
Qed.

(** ** Taking work off the queues *)
Lemma requests_task p l1 d t l2 q :
  tasks p = l1 ++ (d, t) :: l2 → q ∈ requests p ↔ q ∈ requests (put_tasks (l1 ++ l2) p) ∨ q ∈ task_request t.
Proof.
  intros E. unfold requests. rewrite E. cbn [tasks in_flight put_tasks]. rewrite !omap_app, !elem_of_app. cbn [omap list_omap].
  destruct t; cbn [snd task_request]; set_solver.
Qed.

Lemma pending_task r p l1 d t l2 :
  tasks p = l1 ++ (d, t) :: l2 → pending r p = pending r (put_tasks (l1 ++ l2) p) + weight r t.
Proof.
  intros E. unfold pending. rewrite E. cbn [tasks in_flight put_tasks]. rewrite !foldr_add. cbn [foldr snd]. lia.
Qed.

Lemma restarts_task p l1 d t l2 :
  tasks p = l1 ++ (d, t) :: l2 → t ≠ TRestart → restarts p → restarts (put_tasks (l1 ++ l2) p).
Proof.
  intros E Hn [e He]. exists e. cbn [tasks put_tasks]. rewrite E in He. rewrite elem_of_app, elem_of_cons in He.
  rewrite elem_of_app. destruct He as [?|[[= -> <-]|?]]; [by left|done|by right].
Qed.

Lemma old_ids_task p l1 d t l2 :
  tasks p = l1 ++ (d, t) :: l2 → old_ids p → old_ids (put_tasks (l1 ++ l2) p) ∧ Forall (old_request p) (task_request t).
Proof.
  intros E (Hi1 & Hi2 & Hi3). rewrite Forall_forall in Hi2. split; [split_and!; [done| |done]|];
    apply Forall_forall; intros q Hq; apply Hi2, (requests_task _ _ _ _ _ q E); [by left|by right].
Qed.

Lemma calm_task p l1 d t l2 :
  tasks p = l1 ++ (d, t) :: l2 → task_request t = [] → t ≠ TRestart → calm None p → calm None (put_tasks (l1 ++ l2) p).
Proof.
  intros E Ht Hn Hc Hb. destruct (Hc Hb) as (Ho & Hm & _). split_and!; [by apply (old_ids_task p l1 d t l2 E)| |done].
  intros r Hr. destruct (Hm r Hr) as [?|(T & HT & Hl)]; [left; by apply (restarts_task p l1 d t l2 E)|right]. exists T.
  rewrite (pending_task r p l1 d t l2 E) in Hl. assert (weight r t = 0) as Hw by (by destruct t). rewrite Hw in Hl.
  split; [|cbn [refresh_results put_tasks]; lia]. intros q Hq. apply HT, (requests_task _ _ _ _ _ q E). by left.
Qed.

Lemma owes_task p l1 d t l2 rq k :
  tasks p = l1 ++ (d, t) :: l2 → task_request t = [rq] → (∀ r, request_id rq = r → weight r t = k) →
  (∀ r, request_id rq ≠ r → weight r t = 0) → calm None p → owes rq k (put_tasks (l1 ++ l2) p).
Proof.
  intros E Ht Hw Hw' Hc Hb. destruct (Hc Hb) as (Ho & Hm & _). destruct (old_ids_task p l1 d t l2 E Ho) as [Ho' Hq].
  rewrite Ht in Hq. apply Forall_cons_1 in Hq as [Hq _]. split_and!; [exact Ho'|exact Hq|]. intros r Hr.
  destruct (Hm r Hr) as [?|(T & HT & Hl)]; [left; apply (restarts_task p l1 d t l2 E); [intros Et; rewrite Et in Ht; discriminate Ht|done]|right]. exists T.
  rewrite (pending_task r p l1 d t l2 E) in Hl. cbn [refresh_results put_tasks]. split_and!.
  - intros q Hin. apply HT, (requests_task _ _ _ _ _ q E). by left.
  - intros Er. apply HT; [|done]. apply (requests_task _ _ _ _ _ rq E). right. rewrite Ht. left.
  - lia.
  - destruct (decide (request_id rq = r)) as [Er|Er].
    + rewrite bool_decide_eq_true_2 by done. rewrite (Hw r Er) in Hl. lia.
    + rewrite bool_decide_eq_false_2 by done. rewrite (Hw' r Er) in Hl. lia.
Qed.

Lemma owes_response p l1 rq n l2 :
  in_flight p = l1 ++ (rq, n) :: l2 → calm None p → owes rq 1 (put_in_flight (l1 ++ l2) p).
Proof.
  intros E Hc Hb. destruct (Hc Hb) as ((Hi1 & Hi2 & Hi3) & Hm & _).
  assert (∀ q, q ∈ requests p ↔ q ∈ requests (put_in_flight (l1 ++ l2) p) ∨ q = rq) as Hrq.
  { intros q. unfold requests. rewrite E. cbn [tasks in_flight put_in_flight].
    rewrite !fmap_app, fmap_cons, !elem_of_app, elem_of_cons. cbn [fst]. tauto. }
  assert (∀ r, pending r p = pending r (put_in_flight (l1 ++ l2) p) + if bool_decide (request_id rq = r) then 1 else 0) as Hp.
  { intros r. unfold pending. rewrite E. cbn [tasks in_flight put_in_flight]. rewrite !foldr_add. cbn [foldr fst]. lia. }
  rewrite Forall_forall in Hi2. split_and!; [split; [done|split; [|done]]|apply Hi2, Hrq; by right|].
  - apply Forall_forall. intros q Hq. apply Hi2, Hrq. by left.
  - intros r Hr. destruct (Hm r Hr) as [?|(T & HT & Hl)]; [by left|right]. exists T. rewrite Hp in Hl. split_and!.
    + intros q Hq. apply HT, Hrq. by left.
    + apply HT, Hrq. by right.
    + apply Hl.
    + cbn [refresh_results put_in_flight]. lia.
Qed.

(** ** Responses *)
Lemma calm_weight rq r k t d p :
  owes rq k p → current_refresh_id p = Some r → task_request t = [rq] → weight r t = k → request_id rq = r → calm None (later d t p).
Proof.
  intros Ho Hr Ht Hw Hid Hb. destruct (Ho Hb) as (Hi & Hq & Hf). split_and!; [apply old_ids_later; [done|by rewrite Ht; constructor]| |done].
  intros r' Hr'. cbn [current_refresh_id later put_tasks] in Hr'. rewrite Hr in Hr'. injection Hr' as <-.
  destruct (Hf r Hr) as [?|(T & HT & Hown & Hl)]; [left; by apply restarts_later|right]. exists T.
  rewrite bool_decide_eq_true_2 in Hl by done. split_and!.
  - intros q [Hin|Hin]%requests_later; [by apply HT|]. rewrite Ht in Hin. apply list_elem_of_singleton in Hin as ->. apply Hown.
  - apply Hl.
  - rewrite pending_later, Hw. cbn [refresh_results later put_tasks]. lia.
Qed.

Lemma retry_triple rq r :
  request_id rq = r →
  triple (λ p, owes rq 1 p ∧ current_refresh_id p = Some r) (delay ← next_delay cfg; modify (later delay (TRetry rq))) (λ _, calm None).
Proof.
  intros Hid. eapply triple_bind with (R := λ _ p, owes rq 1 p ∧ current_refresh_id p = Some r).
  - apply next_delay_triple. by intros.
  - intros d. apply triple_modify. intros s [Ho Hc]. apply (calm_weight rq r 1); [done..| |done]. simpl. by rewrite bool_decide_eq_true_2.
Qed.

Lemma klt_asym_bool (x y : master_node) : klt x y = true → klt y x = false.
Proof. rewrite klt_spec. intros Hxy. destruct (klt y x) eqn:E; [|done]. apply klt_spec in E. by apply klt_asym in E. Qed.

Lemma sorted_ascending (l : list master_node) : ascending (stable_sort klt l).
Proof.
  assert (Transitive (not_after (A := master_node) klt)) as Htr.
  { intros x y z. unfold not_after. rewrite !klt_negb_kle. intros Hx%negb_false_iff Hy%negb_false_iff.
    apply negb_false_iff. by apply (kle_trans x y z). }
  pose proof (stable_sort_sorted klt klt_asym_bool Htr l) as Hs. unfold ascending.
  induction Hs as [|x l' Hl IH Hx]; constructor; [done|]. eapply Forall_impl; [exact Hx|].
  intros y. unfold not_after. rewrite klt_negb_kle. by intros ?%negb_false_iff.
Qed.

(** Sorted responses are always combined. *)
Lemma combine_ok req rq raw processed :
  mapR (parse_response rq) raw = Ok processed → ∃ nodes, combine_responses (Q := list Cursor) req processed = Ok nodes.
Proof.
  intros Hm. assert (Forall ascending processed) as Ha.
  { revert processed Hm. induction raw as [|b raw IH]; cbn [mapR]; intros processed Hm; inv_result; constructor; [|by apply IH].
    unfold parse_response in *. inv_pairs. apply sorted_ascending. }
  destruct processed as [|a [|b l]]; [eauto..|].
  destruct (merge_lists_spec (λ q, q) req (a :: b :: l) Ha) as (out & Ho & _). by exists out.
Qed.

Lemma pending_nonneg r p : old_ids p → 0 ≤ pending r p.
Proof.
  intros (_ & Hi & _). rewrite Forall_forall in Hi. unfold pending.
  assert (0 ≤ foldr (λ f : request * master_node, Z.add (if bool_decide (request_id f.1 = r) then 1 else 0)) 0 (in_flight p)).
  { apply (foldr_nonneg (λ f : request * master_node, if bool_decide (request_id f.1 = r) then 1 else 0)).
    intros f _. destruct (bool_decide (request_id f.1 = r)); lia. }
  assert (0 ≤ foldr (λ t : Z * task, Z.add (weight r t.2)) 0 (tasks p)); [|lia].
  apply (foldr_nonneg (λ t : Z * task, weight r t.2)). intros [d t] Ht. cbn [snd].
  destruct t as [ | |q|q| | ]; cbn [weight]; try lia; destruct (bool_decide (request_id q = r)); try lia.
  assert (old_request p q) as [_ ?]; [|lia]. apply Hi. unfold requests. apply elem_of_app. right. apply list_elem_of_omap.
  by exists (d, TRelaunch q).
Qed.

(** A refresh whose responses have all come in *)
Definition answered (rq : request) (p : Pool) : Prop :=
  with_old (Some rq) p ∧ current_refresh_id p = Some (request_id rq) ∧
  (id_counter p ≤ ID_LIMIT → restarts p ∨
   ∀ q, q ∈ requests p → request_id q = request_id rq → total_requests q = total_requests rq).

Lemma relaunch_calm rq d p : answered rq p → refresh_results p = [] → calm None (later d (TRelaunch rq) p).
Proof.
  intros (Ho & Hc & Hu) Hr Hb. destruct (Ho Hb) as (Hi & Hq).
  split_and!; [apply old_ids_later; [done|by constructor]| |done]. intros r' Hr'. cbn [current_refresh_id later put_tasks] in Hr'.
  rewrite Hc in Hr'. injection Hr' as <-. destruct (Hu Hb) as [?|Hu']; [left; by apply restarts_later|right].
  exists (total_requests rq). split_and!.
  - intros q [Hin|Hin]%requests_later; [by apply Hu'|]. by apply list_elem_of_singleton in Hin as ->.
  - cbn [refresh_results later put_tasks]. rewrite Hr. apply Hq.
  - rewrite pending_later. cbn [refresh_results later put_tasks weight]. rewrite Hr, bool_decide_eq_true_2 by done.
    pose proof (pending_nonneg (request_id rq) p Hi). simpl length. lia.
Qed.

Lemma complete_triple rq raw : triple (answered rq) (_on_refresh_complete cfg rq raw) (λ _, calm None).
Proof.
  unfold _on_refresh_complete. destruct (mapR (parse_response rq) raw) as [processed|e] eqn:Em.
  - destruct (combine_ok (cache_min_num_refresh_presence_to_include_node cfg) rq raw processed Em) as [nodes Hn].
    intros s (Ho & _). rewrite run_lift, Hn. apply (update_triple 1 None nodes). intros Hb. by destruct (Ho Hb).
  - eapply triple_modify_then with (P' := λ p, answered rq p ∧ refresh_results p = []); [|by intros].
    eapply triple_bind; [apply next_delay_triple with (Q := λ _ p, answered rq p ∧ refresh_results p = []); by intros|].
    intros d. apply triple_modify. intros s [Ha Hr]. by apply relaunch_calm.
Qed.

Lemma owes_stale rq k p : current_refresh_id p ≠ Some (request_id rq) → owes rq k p → calm None p.
Proof.
  intros Hn Ho Hb. destruct (Ho Hb) as (Hi & Hq & Hf). split_and!; [done| |done]. intros r Hr.
  destruct (Hf r Hr) as [?|(T & HT & _ & Hl)]; [by left|right]. exists T. split; [done|].
  rewrite bool_decide_eq_false_2 in Hl by (intros E; by rewrite E in Hn). lia.
Qed.

Lemma response_triple rq success timeout status response :
  triple (owes rq 1) (on_response cfg rq success timeout status response) (λ _, calm None).
Proof.
  unfold on_response. apply triple_read. intros s Hs. case_bool_decide as Hcur; cbn [negb].
  2: { intros s' ->. by apply (owes_stale rq 1). }
  assert (∀ s', s' = s → owes rq 1 s' ∧ current_refresh_id s' = Some (request_id rq)) as Hpre by (by intros ? ->).
  destruct response as [data|]; [|by eapply triple_pre; [apply (retry_triple rq (request_id rq)); done|]].
  destruct (_ || _); [by eapply triple_pre; [apply (retry_triple rq (request_id rq)); done|]|].
  intros s' ->. rewrite run_modify. set (results := refresh_results s ++ [data]).
  assert (Z.of_nat (length results) = Z.of_nat (length (refresh_results s)) + 1) as Hlen
    by (unfold results; rewrite length_app; simpl; lia).
  destruct (Z.leb_spec (total_requests rq) (Z.of_nat (length results))) as [Ht|Ht]; cbn [when].
  - rewrite run_modify. apply complete_triple. split_and!; [|done|].
    + intros Hb. destruct (Hs Hb) as (Hi & Hq & _). done.
    + intros Hb. destruct (Hs Hb) as (_ & _ & Hf). destruct (Hf _ Hcur) as [?|(T & HT & Hown & _)]; [by left|right].
      rewrite (Hown eq_refl). exact HT.
  - intros Hb. destruct (Hs Hb) as (Hi & Hq & Hf). split_and!; [done| |done]. intros r Hr.
    assert (r = request_id rq) as -> by (cbn in Hr; congruence). destruct (Hf _ Hcur) as [?|(T & HT & Hown & Hl)]; [by left|right].
    exists T. rewrite bool_decide_eq_true_2 in Hl by done. rewrite (Hown eq_refl) in Ht. cbn [refresh_results put_refresh_results].
    split_and!; [exact HT|done|]. change (pending (request_id rq) (put_refresh_results results s)) with (pending (request_id rq) s). lia.
Qed.

(** ** The steps of a pool *)
Definition run_task (t : task) : M Pool () :=
  match t with
  | TRefresh => _refresh_mnode_cache cfg
  | TRestart =>
      modify (put_current_refresh_id None);;
      modify (put_refresh_results []);;
      _refresh_mnode_cache cfg
  | TRetry rq => _launch_next_refresh_request cfg rq
  | TRelaunch rq => launch_all_with cfg (_update_cache cfg) rq
  | TFlushStrikes => flush_strikes
  | TRefreshIfNeeded in_use => refresh_if_needed cfg in_use None
  end.

Inductive call :=
  | CRecordFailure (key : bytes) (permanent : bool)
  | CClearStrikes | CSuspend | CResume | CClearCache
  | CSetFetcher (callable : bool)
  | CRefreshIfNeeded (in_use : list master_node) (cb : option Z)
  | CGetSwarm (pk : bytes) (ignore_strike_count : bool) (id : Z)
  | CGetUnused (count : nat) (exclude : list master_node).

Definition run_call (c : call) : M Pool () :=
  match c with
  | CRecordFailure key permanent => record_node_failure cfg key permanent
  | CClearStrikes => clear_node_strikes
  | CSuspend => suspend
  | CResume => resume
  | CClearCache => clear_cache
  | CSetFetcher callable => set_routed_fetcher callable
  | CRefreshIfNeeded in_use cb => refresh_if_needed cfg in_use cb
  | CGetSwarm pk ignore id => pool_get_swarm cfg pk ignore id
  | CGetUnused count exclude => get_unused_nodes cfg count exclude;; skip
  end.

(** An operation that does not run into undefined behaviour *)
Definition runs (m : M Pool ()) (p p' : Pool) : Prop := m p = (Ok tt, p').

(** Anything may happen next: a call, a task of those that wait, whatever its
    delay, a response to a request in flight, the next disk job, and changes
    around the pool. *)
Inductive pool_step : Pool → Pool → Prop :=
  | step_call c p p' : runs (run_call c) p p' → pool_step p p'
  | step_task p l1 d t l2 p' :
      tasks p = l1 ++ (d, t) :: l2 → runs (run_task t) (put_tasks (l1 ++ l2) p) p' → pool_step p p'
  | step_response p l1 rq n l2 success timeout status response p' :
      in_flight p = l1 ++ (rq, n) :: l2 →
      runs (on_response cfg rq success timeout status response) (put_in_flight (l1 ++ l2) p) p' → pool_step p p'
  | step_disk p j l p' : disk_jobs p = j :: l → runs (run_disk_job cfg j) (put_disk_jobs l p) p' → pool_step p p'
  | step_world p time online r ids :
      id_counter p ≤ ids →
      pool_step p (put_clock time (put_connected online (put_rng r (put_id_counter ids p)))).

Inductive pool_reachable : Pool → Prop :=
  | reach_new cache strikes time online r ids file_time p :
      0 ≤ ids → runs (new_pool cfg file_time) (blank_pool cache strikes time online r ids) p → pool_reachable p
  | reach_step p p' : pool_reachable p → pool_step p p' → pool_reachable p'.

(** ** No refresh is ever stuck *)
Lemma triple_runs P m Q p p' : triple P m (λ _ : (), Q) → P p → runs m p p' → Q p'.
Proof. intros Hm Hp Hr. specialize (Hm p Hp). rewrite Hr in Hm. exact Hm. Qed.

Lemma request_eta rq : mkRequest (request_id rq) (request_index rq) (from_seed_nodes rq) (use_direct rq) (total_requests rq) = rq.
Proof. by destruct rq. Qed.

Lemma update_updates rq : updates (_update_cache cfg) rq.
Proof. intros nodes. apply (update_triple 1 (Some rq)). Qed.

Lemma refresh_if_needed_triple in_use cb : triple (calm None) (refresh_if_needed cfg in_use cb) (λ _, calm None).
Proof.
  unfold refresh_if_needed. apply triple_read. intros s Hs. eapply triple_pre with (P' := calm None); [|by intros ? ->].
  destruct (suspended s); [apply triple_ret|]. eapply triple_bind with (R := λ _, calm None).
  - destruct (_ || _); cbn [when]; [|apply triple_ret]. destruct cb; [by apply triple_modify|apply triple_ret].
  - intros []. destruct (negb _ && _).
    + destruct (0 <? _); [|apply refresh_triple]. apply triple_modify. intros t Ht. by apply calm_later.
    + destruct (bool_decide _), cb; try apply triple_ret. by apply triple_modify.
Qed.

Lemma call_triple c : triple (calm None) (run_call c) (λ _, calm None).
Proof.
  destruct c; cbn [run_call].
  - unfold record_node_failure. apply triple_read. intros s Hs. eapply triple_modify_then with (P' := calm None); [|by intros ? ->].
    destruct (_ && _); cbn [when]; [|apply triple_ret]. eapply triple_modify_then with (P' := calm None); [|done].
    apply triple_modify. intros t Ht. by apply calm_later.
  - by intros s Hs.
  - intros s Hs. unfold suspend. rewrite run_modify, run_mget. by destruct (strikes_flush_scheduled _).
  - intros s Hs. unfold resume. rewrite run_mget. by destruct (suspended s).
  - by intros s Hs.
  - by intros s Hs.
  - apply refresh_if_needed_triple.
  - apply get_swarm_triple.
  - intros s Hs. unfold get_unused_nodes. rewrite run_bind, run_modify, run_mget.
    pose proof (calm_later None 0 (TRefreshIfNeeded exclude) s eq_refl Hs) as Hl. by destruct (_ =? 0)%nat.
Qed.

Lemma task_step_calm p l1 d t l2 p' :
  tasks p = l1 ++ (d, t) :: l2 → calm None p → runs (run_task t) (put_tasks (l1 ++ l2) p) p' → calm None p'.
Proof.
  intros E Hc Hr. destruct t; cbn [run_task] in Hr.
  - eapply triple_runs; [apply (refresh_triple (_update_cache cfg) None)| |exact Hr]. by apply (calm_task p l1 d _ l2 E).
  - unfold runs in Hr. rewrite !run_modify in Hr.
    eapply triple_runs; [apply (refresh_triple (_update_cache cfg) None)| |exact Hr].
    intros Hb. destruct (Hc Hb) as (Ho & _). destruct (old_ids_task p l1 d _ l2 E Ho) as [(Hi1 & Hi2 & _) _].
    split_and!; [split; [done|split; [done|by intros]]|by intros r Hrr|done].
  - assert (owes rq 1 (put_tasks (l1 ++ l2) p)) as Ho.
    { apply (owes_task p l1 d _ l2 rq 1 E); [done| | |done]; intros r Er; simpl;
        [by rewrite bool_decide_eq_true_2|by rewrite bool_decide_eq_false_2]. }
    apply (owes_calm rq). pose proof (launch_triple _ rq 1 (request_index rq) (update_updates rq)) as Hl.
    cbv zeta in Hl. rewrite request_eta in Hl. by apply (triple_runs _ _ _ _ _ Hl Ho).
  - assert (owes rq (total_requests rq) (put_tasks (l1 ++ l2) p)) as Ho.
    { apply (owes_task p l1 d _ l2 rq (total_requests rq) E); [done| | |done]; intros r Er; simpl;
        [by rewrite bool_decide_eq_true_2|by rewrite bool_decide_eq_false_2]. }
    destruct (Z.le_gt_cases 0 (total_requests rq)) as [Ht|Ht].
    + exact (triple_runs _ _ _ _ _ (launch_all_triple _ rq (update_updates rq) Ht) Ho Hr).
    + unfold runs, launch_all_with in Hr. rewrite seqZ_nil in Hr by lia. injection Hr as <-.
      intros Hb. destruct (Ho Hb) as (_ & [_ Hq] & _). lia.
  - unfold runs, flush_strikes in Hr. rewrite run_modify, run_mget in Hr.
    pose proof (calm_task p l1 d _ l2 E eq_refl ltac:(discriminate) Hc) as Hk.
    destruct (negb _); injection Hr as <-; exact Hk.
  - eapply triple_runs; [apply refresh_if_needed_triple| |exact Hr]. by apply (calm_task p l1 d _ l2 E).
Qed.

Lemma disk_calm j p p' : calm None p → runs (run_disk_job cfg j) p p' → calm None p'.
Proof.
  intros Hc. unfold runs, run_disk_job. rewrite run_mget. destruct j as [cache|strikes| ].
  - destruct (cache_contents cache); [destruct (has_directory cfg)|]; intros [= <-]; exact Hc.
  - destruct (has_directory cfg); intros [= <-]; exact Hc.
  - destruct (has_directory cfg); intros [= <-]; exact Hc.
Qed.

Lemma load_calm file_time p p' : calm None p → runs (_load_from_disk file_time) p p' → calm None p'.
Proof.
  intros Hc. unfold runs, _load_from_disk. rewrite run_bind.
  destruct (load_cache_file file_time p) as [[[]|e] p1] eqn:E1; [|done].
  assert (calm None p1) as Hc1.
  { unfold load_cache_file in E1. rewrite run_mget in E1. destruct (cache_file p); [|by injection E1 as <-].
    rewrite run_modify in E1. destruct (load_cache s) as [nodes|e]; [|destruct (catchable e); [injection E1 as <-; exact Hc|done]].
    rewrite run_shuffle, run_modify in E1. injection E1 as <-. exact Hc. }
  unfold load_strikes_file. rewrite run_mget. destruct (strikes_file p1) as [contents|]; [|intros [= <-]; exact Hc1].
  destruct (size contents =? 0); [intros [= <-]; exact Hc1|].
  destruct (load_strikes (clock p1) contents); intros [= <-]; exact Hc1.
Qed.

Lemma new_pool_calm cache strikes time online r ids file_time p :
  0 ≤ ids → runs (new_pool cfg file_time) (blank_pool cache strikes time online r ids) p → calm None p.
Proof.
  intros Hi Hr. assert (calm None (blank_pool cache strikes time online r ids)) as Hb.
  { intros _. split_and!; [split; [done|split; [constructor|done]]|done|done]. }
  unfold runs, new_pool in Hr. destruct (has_directory cfg); [exact (load_calm _ _ _ Hb Hr)|]. injection Hr as <-. exact Hb.
Qed.

Lemma step_calm p p' : calm None p → pool_step p p' → calm None p'.
Proof.
  intros Hc Hs. revert Hc. destruct Hs as [c q q' Hr|q l1 d t l2 q' E Hr|q l1 rq n l2 su ti st re q' E Hr|q j l q' E Hr|q time online r ids Hi]; intros Hc.
  - exact (triple_runs _ _ _ _ _ (call_triple c) Hc Hr).
  - exact (task_step_calm q l1 d t l2 q' E Hc Hr).
  - exact (triple_runs _ _ _ _ _ (response_triple rq su ti st re) (owes_response q l1 rq n l2 E Hc) Hr).
  - exact (disk_calm j (put_disk_jobs l q) q' Hc Hr).
  - intros Hb. cbn [id_counter put_clock put_connected put_rng put_id_counter] in Hb.
    destruct (Hc ltac:(lia)) as ((Hi1 & Hi2 & Hi3) & Hm & _). set (q' := put_clock _ _).
    assert (id_counter q ≤ id_counter q') as Hle by exact Hi. split_and!; [split; [|split]|exact Hm|done].
    + lia.
    + eapply Forall_impl; [exact Hi2|]. intros rq. by apply old_request_mono.
    + intros rr Hr. apply (old_id_mono q q' rr Hle), Hi3, Hr.
Qed.

Lemma reachable_calm p : pool_reachable p → calm None p.
Proof. induction 1; [by eapply new_pool_calm|by eapply step_calm]. Qed.

(** C31 (liveness): a refresh of the node cache is never stuck.  In every
    reachable state, as long as fewer than 2^32 ids were drawn, a refresh that
    is under way either is about to start again, or waits for a fixed number
    [T] of responses of which fewer have come, and the requests in flight and
    those that are going to be made again are at least as many as the
    responses that are missing. *)
Theorem refresh_never_stuck (p : Pool) (r : bytes) :
  pool_reachable p → id_counter p ≤ ID_LIMIT → current_refresh_id p = Some r →
  (∃ d, (d, TRestart) ∈ tasks p) ∨
  ∃ T, (∀ q, q ∈ requests p → request_id q = r → total_requests q = T) ∧
    Z.of_nat (length (refresh_results p)) < T ≤ Z.of_nat (length (refresh_results p)) + pending r p.
Proof. intros Hp Hb Hr. destruct (reachable_calm p Hp Hb) as (_ & Hm & _). exact (Hm r Hr). Qed.

(** ** The swarms belong to the cache *)
Definition swarm_inv (p : Pool) : Prop :=
  all_swarms p = generate_swarms (mnode_cache p) ∧
  Forall (λ e : bytes * swarm, Swarm.get_swarm e.1 (all_swarms p) = Ok e.2) (swarm_cache p).

Lemma shuffle_swarms l : preserves swarm_inv (draw_shuffle l).
Proof. by intros s Hs _. Qed.

Lemma next_delay_swarms : preserves swarm_inv (next_delay cfg).
Proof. unfold next_delay. preserve; by intros. Qed.

Lemma launch_swarms u rq : (∀ nodes, preserves swarm_inv (u nodes)) → preserves swarm_inv (launch_next_with cfg u rq).
Proof.
  intros Hu. unfold launch_next_with. preserve; try (by intros); try apply next_delay_swarms; try apply Hu.
Qed.

Lemma refresh_swarms u : (∀ nodes, preserves swarm_inv (u nodes)) → preserves swarm_inv (refresh_with cfg u).
Proof.
  intros Hu. unfold refresh_with. preserve_step. preserve_step; [preserve|].
  preserve_step; [by intros s' Hs' _|]. preserve_step; [preserve|]. do 3 (preserve_step; [preserve; by intros|]).
  preserve_step; [apply shuffle_swarms|]. preserve_step; [preserve; by intros|]. preserve_step; [preserve; by intros|].
  unfold launch_all_with. apply preserves_forM. intros i _. by apply launch_swarms.
Qed.

Lemma give_swarms ignore id sw : preserves swarm_inv (give_swarm cfg ignore id sw).
Proof.
  unfold give_swarm. apply preserves_bind; [|intros nodes; preserve; by intros].
  destruct ignore; [apply preserves_ret|]. unfold filter_by_strikes. preserve_step. apply preserves_bind; [apply shuffle_swarms|].
  intros l. destruct (stable_partition _ _). apply preserves_ret.
Qed.

Lemma minsert_forall {V} (P : bytes * V → Prop) k v m : P (k, v) → Forall P m → Forall P (minsert k v m).
Proof.
  intros Hk. induction 1 as [|[k' v'] m Hx Hm IH]; cbn [minsert]; [by constructor|].
  destruct (kcmp k k'); repeat constructor; auto.
Qed.

Lemma get_swarm_swarms u pk ignore id :
  (∀ nodes, preserves swarm_inv (u nodes)) → preserves swarm_inv (get_swarm_with cfg u pk ignore id).
Proof.
  intros Hu. unfold get_swarm_with. apply preserves_read. intros s Hs. destruct (mfind pk (swarm_cache s)); [by apply give_swarms|].
  destruct (_ || _).
  - rewrite run_modify. destruct (current_refresh_id s); [done|]. by apply refresh_swarms.
  - rewrite run_modify, run_lift. destruct (Swarm.get_swarm pk (all_swarms s)) as [sw|e] eqn:E; [|done].
    rewrite run_modify. apply give_swarms. destruct Hs as [H1' H2']. split; [exact H1'|]. by apply minsert_forall.
Qed.

Lemma update_swarms n nodes : preserves swarm_inv (update_cache cfg n nodes).
Proof.
  revert nodes; induction n as [|n IH]; intros nodes; [apply preserves_throw|]. cbn [update_cache].
  intros s Hs. rewrite run_shuffle, !run_modify, run_gets.
  match goal with |- defined (?m ?st).1 → _ => assert (swarm_inv st) as Hc by (split; [reflexivity|constructor]); revert Hc; generalize st end.
  intros st Hc. apply (preserves_bind swarm_inv); [|intros []; preserve; by intros|done].
  apply preserves_forM. intros cb _. apply preserves_catch; [|intros e; apply preserves_ret].
  unfold run_callback_with. preserve_step; [apply preserves_gets|]. preserve_step; [|preserve].
  destruct cb; [preserve; by intros|by apply get_swarm_swarms].
Qed.

Lemma needed_swarms in_use cb : preserves swarm_inv (refresh_if_needed cfg in_use cb).
Proof.
  unfold refresh_if_needed. preserve; try (by intros); apply refresh_swarms, update_swarms.
Qed.

Lemma call_swarms c : preserves swarm_inv (run_call c).
Proof.
  destruct c; cbn [run_call]; unfold record_node_failure, clear_node_strikes, suspend, resume, set_routed_fetcher.
  - preserve; by intros.
  - preserve; by intros.
  - preserve; by intros.
  - preserve; by intros.
  - intros s Hs _. split; [reflexivity|constructor].
  - preserve; by intros.
  - apply needed_swarms.
  - apply get_swarm_swarms, update_swarms.
  - unfold get_unused_nodes. preserve; by intros.
Qed.

Lemma task_swarms t : preserves swarm_inv (run_task t).
Proof.
  destruct t; cbn [run_task]; unfold _refresh_mnode_cache, flush_strikes.
  - apply refresh_swarms, update_swarms.
  - preserve; try (by intros). apply refresh_swarms, update_swarms.
  - apply launch_swarms, update_swarms.
  - apply preserves_forM. intros i _. apply launch_swarms, update_swarms.
  - preserve; by intros.
  - apply needed_swarms.
Qed.

Lemma response_swarms rq success timeout status response : preserves swarm_inv (on_response cfg rq success timeout status response).
Proof.
  unfold on_response, _on_refresh_complete. preserve; try (by intros); try apply next_delay_swarms. apply update_swarms.
Qed.

Lemma preserves_runs I m p p' : preserves I m → I p → runs m p p' → I p'.
Proof. intros Hm Hp Hr. specialize (Hm p Hp). rewrite Hr in Hm. by apply Hm. Qed.

Lemma reachable_swarms p : pool_reachable p → swarm_inv p.
Proof.
  induction 1 as [cache strikes time online r ids file_time p _ Hr|p p' _ IH Hs].
  - assert (swarm_inv (blank_pool cache strikes time online r ids)) as Hb by (split; [reflexivity|constructor]).
    unfold runs, new_pool, _load_from_disk in Hr. destruct (has_directory cfg); [|injection Hr as <-; exact Hb].
    cbn [when] in Hr. rewrite run_bind in Hr. destruct (load_cache_file _ _) as [[[]|e] p1] eqn:E1; [|done].
    assert (swarm_inv p1) as H1'.
    { unfold load_cache_file in E1. rewrite run_mget in E1. destruct (cache_file _); [|by injection E1 as <-].
      rewrite run_modify in E1. destruct (load_cache s) as [nodes|e]; [|destruct (catchable e); [by injection E1 as <-|done]].
      rewrite run_shuffle, run_modify in E1. injection E1 as <-. split; [reflexivity|constructor]. }
    unfold load_strikes_file in Hr. rewrite run_mget in Hr. destruct (strikes_file p1) as [contents|]; [|by injection Hr as <-].
    destruct (size contents =? 0); [by injection Hr as <-|]. destruct (load_strikes _ _); injection Hr as <-; exact H1'.
  - revert IH. destruct Hs as [c q q' Hr|q l1 d t l2 q' E Hr|q l1 rq n l2 su ti st re q' E Hr|q j l q' E Hr|q time online r ids Hi]; intros IH.
    + exact (preserves_runs _ _ _ _ (call_swarms c) IH Hr).
    + exact (preserves_runs _ _ (put_tasks (l1 ++ l2) q) _ (task_swarms t) IH Hr).
    + exact (preserves_runs _ _ (put_in_flight (l1 ++ l2) q) _ (response_swarms rq su ti st re) IH Hr).
    + assert (preserves swarm_inv (run_disk_job cfg j)) as Hj by (unfold run_disk_job; preserve; by intros).
      exact (preserves_runs _ _ (put_disk_jobs l q) _ Hj IH Hr).
    + exact IH.
Qed.

(** (invariant): in every reachable state the swarms are those of the nodes
    in the cache, also after the cache was cleared, loaded or replaced, and
    every swarm that is remembered for an account is the one that would be
    found for it now. *)
Theorem swarms_current (p : Pool) :
  pool_reachable p →
  all_swarms p = generate_swarms (mnode_cache p) ∧
  ∀ pk s, mfind pk (swarm_cache p) = Some s → Swarm.get_swarm pk (generate_swarms (mnode_cache p)) = Ok s.
Proof.
  intros Hp. destruct (reachable_swarms p Hp) as [Ha Hc]. split; [done|]. intros pk s Hs.
  apply mfind_Some_In in Hs. rewrite Forall_forall in Hc. rewrite <-Ha. exact (Hc (pk, s) Hs).
Qed.
End launching.

(** ** A pool that refreshes *)
#[global] Instance plain_csrng : Csrng := {| csrng k := k mod 2 ^ 64; shuffle k l := l |}.
#[global] Instance plain_csrng_laws : CsrngLaws.
Proof. split; [intros k; apply Z.mod_pos_bound; lia|done]. Qed.

Definition seed_node : master_node := mkNode (zeros 31 +:+ "s") 3232235777 22021 22020 (2, 8, 0) INVALID_SWARM_ID 0.
Definition sample_config : pool_config :=
  mkConfig None 120 2000 true 1000 5000 [seed_node] 12 3 3 2 3 true false.

Lemma runs_after (m : M Pool ()) p : (m p).1 = Ok tt → runs m p (m p).2.
Proof. unfold runs. destruct (m p) as [r p']. simpl. by intros ->. Qed.

Definition pool_0 : Pool := blank_pool None None (10 ^ 18) true 0 0.
(** A swarm is asked for, which starts a refresh from the seed node *)
Definition pool_1 : Pool := (run_call sample_config (CGetSwarm (zeros 32) true 7) pool_0).2.
(** Its answer comes *)
Definition sample_answer : bytes := sconcat (be_record <$> sample_nodes).
Definition pool_2 : Pool :=
  match in_flight pool_1 with
  | [(rq, _)] => (on_response sample_config rq true false 200 (Some sample_answer) (put_in_flight [] pool_1)).2
  | _ => pool_1
  end.

Lemma pool_1_reachable : pool_reachable sample_config pool_1.
Proof.
  apply (reach_step sample_config pool_0).
  - apply (reach_new sample_config None None (10 ^ 18) true 0 0 0); [lia|reflexivity].
  - apply (step_call sample_config (CGetSwarm (zeros 32) true 7)), runs_after. vm_compute. reflexivity.
Qed.

Definition first_request : request := mkRequest "RSC-0-AAAA" 0 true true 1.

Lemma pool_2_reachable : pool_reachable sample_config pool_2.
Proof.
  apply (reach_step sample_config pool_1); [apply pool_1_reachable|].
  assert (pool_2 = (on_response sample_config first_request true false 200 (Some sample_answer) (put_in_flight [] pool_1)).2) as ->
    by (vm_compute; reflexivity).
  apply (step_response sample_config pool_1 [] first_request seed_node [] true false 200 (Some sample_answer));
    [vm_compute; reflexivity|]. apply runs_after. vm_compute. reflexivity.
Qed.

Lemma refresh_never_stuck_witness :
  current_refresh_id pool_1 = Some "RSC-0-AAAA" ∧ pending "RSC-0-AAAA" pool_1 = 1 ∧
  ((∃ d, (d, TRestart) ∈ tasks pool_1) ∨ ∃ T, Z.of_nat (length (refresh_results pool_1)) < T).
Proof.
  split; [vm_compute; reflexivity|]. split; [vm_compute; reflexivity|].
  destruct (refresh_never_stuck sample_config ltac:(vm_compute; discriminate) pool_1 "RSC-0-AAAA") as [?|(T & _ & HT & _)];
    [exact pool_1_reachable|vm_compute; discriminate|vm_compute; reflexivity|by left|right; by exists T].
Defined.

Lemma swarms_current_witness :
  length (mnode_cache pool_2) = 4%nat ∧ outputs pool_2 = [OutSwarm 7 5 (of_swarm 5 sample_nodes)] ∧
  all_swarms pool_2 = generate_swarms (mnode_cache pool_2).
Proof.
  split; [vm_compute; reflexivity|]. split; [vm_compute; reflexivity|].
  apply (swarms_current sample_config pool_2 pool_2_reachable).
Defined.
