(* ===== verification/MnodePoolUse.v ===== *)
(** * What the node pool gives

    The nodes it picks, the swarm it gives for an account, the callbacks it
    runs when a refresh ends ([src/network/mnode_pool.cpp]); and the cases in
    which it does something else than it is meant to. *)

From Stdlib Require Import ZArith String Ascii Sorting.Sorted Lia.
From stdpp Require Import base option strings numbers sorting sets list.
From S2P Require Import Prelude OrderedMap Bt Bencode Crypto Text Ids State Wire StableSort Swarm MasterNode NodeMerge MnodePool MnodePoolState.

Section picking.
Context `{CsrngLaws, JsonLaws, Quic, Oxenc} (cfg : pool_config).

(** ** Picking nodes *)

(** A node that may be picked, apart from its subnet *)
Definition eligible (p : Pool) (exclude : list master_node) (n : master_node) : Prop :=
  remote_pubkey n ∉ remote_pubkey <$> exclude ∧ struck_out cfg p (remote_pubkey n) = false.

Lemma smem_false `{OrdKey K} (x : K) s : smem x s = false ↔ x ∉ s.
Proof. rewrite <-smem_In. by destruct (smem x s). Qed.

Lemma pick_nodes_spec p count exclude used candidates result :
  ∃ new, pick_nodes cfg p count (remote_pubkey <$> exclude) used candidates result = result ++ new ∧
    new `sublist_of` candidates ∧
    ((length result ≤ count)%nat → (length (result ++ new) ≤ count)%nat) ∧
    Forall (eligible p exclude) new ∧
    (enforce_subnet_diversity cfg = true → NoDup (subnet <$> new) ∧ ∀ n, n ∈ new → subnet n ∉ used) ∧
    ((length (result ++ new) < count)%nat → ∀ n, n ∈ candidates → eligible p exclude n →
       n ∈ new ∨ enforce_subnet_diversity cfg = true ∧ (subnet n ∈ used ∨ subnet n ∈ subnet <$> new)).
Proof.
  revert used result; induction candidates as [|c cs IH]; intros used result; cbn [pick_nodes].
  { exists []. rewrite app_nil_r. split_and!; [done..| | |]; [constructor|by split; [constructor|intros n ?%elem_of_nil]|].
    by intros _ n ?%elem_of_nil. }
  assert (∀ new (r : list master_node), new `sublist_of` cs → (* the candidate is passed over *)
    (eligible p exclude c → enforce_subnet_diversity cfg = true ∧ subnet c ∈ used) →
    ((length r < count)%nat → ∀ n, n ∈ cs → eligible p exclude n →
       n ∈ new ∨ enforce_subnet_diversity cfg = true ∧ (subnet n ∈ used ∨ subnet n ∈ subnet <$> new)) →
    new `sublist_of` c :: cs ∧ ((length r < count)%nat → ∀ n, n ∈ c :: cs → eligible p exclude n →
       n ∈ new ∨ enforce_subnet_diversity cfg = true ∧ (subnet n ∈ used ∨ subnet n ∈ subnet <$> new))) as Hskip.
  { intros new r Hsub Hc Hm. split; [by apply sublist_cons|]. intros Hr n [->|Hn]%elem_of_cons He; [|by apply Hm].
    right. destruct (Hc He). eauto. }
  destruct (Nat.leb_spec count (length result)) as [Hfull|Hroom].
  { exists []. rewrite app_nil_r. split_and!; [done|apply sublist_nil_l|done|constructor|by split; [constructor|intros n ?%elem_of_nil]|lia]. }
  destruct (smem (remote_pubkey c) (remote_pubkey <$> exclude)) eqn:Ex.
  { destruct (IH used result) as (new & -> & Hs & Hl & Hf & Hd & Hm). exists new. split; [done|].
    destruct (Hskip new (result ++ new) Hs) as [? ?]; [|done|by split_and!].
    intros [Hn _]. apply smem_In in Ex. done. }
  destruct (struck_out cfg p (remote_pubkey c)) eqn:Est.
  { destruct (IH used result) as (new & -> & Hs & Hl & Hf & Hd & Hm). exists new. split; [done|].
    destruct (Hskip new (result ++ new) Hs) as [? ?]; [|done|by split_and!].
    intros [_ Hn]. by rewrite Est in Hn. }
  destruct (enforce_subnet_diversity cfg && smem (subnet c) used) eqn:Esub.
  { destruct (IH used result) as (new & -> & Hs & Hl & Hf & Hd & Hm). exists new. split; [done|].
    destruct (Hskip new (result ++ new) Hs) as [? ?]; [|done|by split_and!].
    intros _. apply andb_true_iff in Esub as [? Hu]. split; [done|]. by apply smem_In. }
  destruct (IH (if enforce_subnet_diversity cfg then subnet c :: used else used) (result ++ [c]))
    as (new & -> & Hs & Hl & Hf & Hd & Hm).
  exists (c :: new). rewrite <-app_assoc in *. cbn [app] in *. split_and!.
  - done.
  - by apply sublist_skip.
  - intros _. apply Hl. rewrite length_app. simpl. lia.
  - constructor; [split; [by apply smem_false|done]|done].
  - intros Hdiv. rewrite Hdiv in Hd, Esub. simpl in Esub. apply smem_false in Esub. destruct (Hd eq_refl) as [Hnd Hu].
    rewrite fmap_cons. split.
    + apply NoDup_cons. split; [|done]. intros (n & E & Hn)%list_elem_of_fmap. apply (Hu n Hn). rewrite E. left.
    + intros n [->|Hn]%elem_of_cons; [done|]. intros Hin. apply (Hu n Hn). by right.
  - intros Hlt n [->|Hn]%elem_of_cons He; [left; left|]. rewrite fmap_cons.
    destruct (Hm Hlt n Hn He) as [?|[Hdiv Hu]]; [left; by right|right]. split; [done|]. rewrite Hdiv in Hu.
    destruct Hu as [[->|?]%elem_of_cons|?]; [right; left|by left|right; by right].
Qed.

(** The order the nodes are tried in is that of the indices
    [(start_index + i) % size]. *)
Lemma rotation {A} (l : list A) start i :
  (start < length l)%nat → (i < length l)%nat →
  (drop start l ++ take start l) !! i = l !! ((start + i) mod length l)%nat.
Proof.
  intros Hs Hi. destruct (Nat.lt_ge_cases (start + i) (length l)) as [Hlt|Hge].
  - rewrite Nat.mod_small by done. rewrite lookup_app_l by (rewrite length_drop; lia). by rewrite lookup_drop.
  - rewrite lookup_app_r by (rewrite length_drop; lia). rewrite length_drop.
    assert ((start + i) mod length l = start + i - length l)%nat as ->.
    { symmetry. apply (Nat.mod_unique _ _ 1); lia. }
    rewrite lookup_take_lt by lia. f_equal. lia.
Qed.

(** (safety): the nodes picked for use.  They are at most as many as asked
    for, all from the cache and none twice, none of them is excluded or has
    too many strikes and, when subnets have to differ, no two of them nor one
    of them and an excluded one share a subnet.  If they are fewer than asked
    for, no node that could be added was left out. *)
Theorem unused_nodes (p : Pool) (count : nat) (exclude : list master_node) :
  ∃ nodes p', get_unused_nodes cfg count exclude p = (Ok nodes, p') ∧ (length nodes ≤ count)%nat ∧
    (∀ n, n ∈ nodes → n ∈ mnode_cache p ∧ eligible p exclude n) ∧ (NoDup (mnode_cache p) → NoDup nodes) ∧
    (enforce_subnet_diversity cfg = true → NoDup (subnet <$> nodes) ∧ ∀ n, n ∈ nodes → subnet n ∉ subnet <$> exclude) ∧
    ((length nodes < count)%nat → ∀ n, n ∈ mnode_cache p → eligible p exclude n →
       n ∈ nodes ∨ enforce_subnet_diversity cfg = true ∧ subnet n ∈ subnet <$> (exclude ++ nodes)).
Proof.
  unfold get_unused_nodes. rewrite run_modify, run_mget. cbn [mnode_cache later put_tasks].
  destruct (Nat.eqb_spec (length (mnode_cache p)) 0) as [E|E].
  { apply nil_length_inv in E. rewrite E. eexists [], _. split; [reflexivity|]. split_and!.
    - simpl. lia.
    - by intros n ?%elem_of_nil.
    - intros _. constructor.
    - intros _. split; [constructor|by intros n ?%elem_of_nil].
    - by intros _ n ?%elem_of_nil. }
  rewrite run_modify. set (start := Z.to_nat _).
  set (from_start := drop start (mnode_cache p) ++ take start (mnode_cache p)).
  assert (from_start ≡ₚ mnode_cache p) as Hperm.
  { unfold from_start. rewrite Permutation_app_comm, take_drop. done. }
  set (q := later 0 (TRefreshIfNeeded exclude) p).
  set (used := if enforce_subnet_diversity cfg then subnet <$> exclude else []).
  destruct (pick_nodes_spec q count exclude used from_start []) as (new & Hp & Hs & Hl & Hf & Hd & Hm).
  eexists new, _. split; [rewrite Hp; reflexivity|]. rewrite app_nil_l in *.
  assert (∀ n, eligible q exclude n ↔ eligible p exclude n) as He by done. split_and!.
  - apply Hl. simpl. lia.
  - intros n Hn. split; [|rewrite Forall_forall in Hf; by apply He, Hf]. rewrite <-Hperm. by apply (sublist_subseteq _ _ Hs).
  - intros Hnd. eapply sublist_NoDup; [|exact Hs]. by rewrite Hperm.
  - intros Hdiv. destruct (Hd Hdiv) as [Hn Hu]. split; [done|]. unfold used in Hu. by rewrite Hdiv in Hu.
  - intros Hlt n Hn Hel. rewrite <-Hperm in Hn. destruct (Hm Hlt n Hn Hel) as [?|[Hdiv Hu]]; [by left|right].
    split; [done|]. rewrite fmap_app, elem_of_app. unfold used in Hu. by rewrite Hdiv in Hu.
Qed.

(** ** The swarm of an account *)

(** What is given of the nodes of a swarm: those dropped have too many strikes
    and no fewer than any that is kept, and nodes with too many are kept only
    to make up the number a swarm should have. *)
Definition chosen (p : Pool) (nodes kept dropped : list master_node) : Prop :=
  kept ++ dropped ≡ₚ nodes ∧
  (∀ a b, a ∈ kept → b ∈ dropped → strike_count p a ≤ strike_count p b) ∧
  (∀ b, b ∈ dropped → cache_node_strike_threshold cfg ≤ strike_count p b) ∧
  Z.min (Z.of_nat (length nodes)) (cache_min_swarm_size cfg) ≤ Z.of_nat (length kept) ∧
  (∀ a, a ∈ kept → cache_node_strike_threshold cfg ≤ strike_count p a →
     Z.of_nat (length kept) ≤ cache_min_swarm_size cfg).

Lemma sorted_app {A} (R : A → A → Prop) l1 l2 a b : StronglySorted R (l1 ++ l2) → a ∈ l1 → b ∈ l2 → R a b.
Proof.
  induction l1 as [|x l1 IH]; cbn [app]; intros Hs Ha Hb; [by apply elem_of_nil in Ha|].
  apply StronglySorted_inv in Hs as [Hs Hx]. apply elem_of_cons in Ha as [->|Ha]; [|by apply IH].
  rewrite Forall_forall in Hx. apply Hx, elem_of_app. by right.
Qed.

Lemma filter_by_strikes_spec p nodes :
  ∃ kept dropped p', filter_by_strikes cfg nodes p = (Ok kept, p') ∧ outputs p' = outputs p ∧ chosen p nodes kept dropped.
Proof.
  unfold filter_by_strikes. rewrite run_mget, run_shuffle. set (l := shuffle (rng p) nodes).
  assert (l ≡ₚ nodes) as Hl by apply shuffle_perm. set (T := cache_node_strike_threshold cfg).
  set (below n := strike_count p n <? T). destruct (stable_partition below l) as [under over] eqn:Ep.
  pose proof (stable_partition_perm below l) as Hp. rewrite Ep in Hp. cbn [fst snd] in Hp. injection Ep as Eu Eo.
  assert (∀ n, n ∈ under → strike_count p n < T) as Hunder.
  { intros n. rewrite <-Eu. intros [_ Hn]%elem_of_Lfilter. by apply Z.ltb_lt. }
  assert (∀ n, n ∈ over → T ≤ strike_count p n) as Hover.
  { intros n. rewrite <-Eo. intros [_ Hn]%elem_of_Lfilter. apply negb_true_iff in Hn. by apply Z.ltb_ge in Hn. }
  assert (length under + length over = length nodes)%nat as Hlen by (by rewrite <-length_app, Hp, Hl).
  destruct (Nat.eqb_spec (length over) 0) as [E0|E0]; [|destruct (Z.leb_spec (cache_min_swarm_size cfg) (Z.of_nat (length under))) as [Em|Em]].
  - apply nil_length_inv in E0. subst over. rewrite E0, app_nil_r in Hp. eexists l, [], _. split; [reflexivity|]. split; [done|]. split_and!.
    + by rewrite app_nil_r.
    + by intros a b _ ?%elem_of_nil.
    + by intros b ?%elem_of_nil.
    + rewrite Hl. lia.
    + intros a Ha Hs. exfalso. assert (a ∈ under) as Hu%Hunder by (by rewrite Hp). lia.
  - eexists under, over, _. split; [reflexivity|]. split; [done|]. split_and!.
    + by rewrite Hp.
    + intros a b Ha%Hunder Hb%Hover. lia.
    + done.
    + lia.
    + intros a Ha%Hunder Hs. lia.
  - set (lt a b := strike_count p a <? strike_count p b). set (sorted := stable_sort lt over).
    set (n := Z.to_nat _). eexists (take n (under ++ sorted)), (drop n (under ++ sorted)), _.
    split; [reflexivity|]. split; [done|].
    assert (sorted ≡ₚ over) as Hso by apply stable_sort_perm.
    assert (∀ x, x ∈ sorted → T ≤ strike_count p x) as Hover' by (intros x; rewrite Hso; apply Hover).
    assert (StronglySorted (λ a b, strike_count p a ≤ strike_count p b) sorted) as Hsorted.
    { assert (StronglySorted (not_after lt) sorted) as Hss.
      { apply stable_sort_sorted; unfold not_after, lt.
        - intros x y. rewrite Z.ltb_lt, Z.ltb_ge. lia.
        - intros x y z. rewrite !Z.ltb_ge. lia. }
      clear -Hss. induction Hss as [|x l Hl IH Hx]; constructor; [done|]. eapply Forall_impl; [exact Hx|].
      intros y. unfold not_after, lt. by rewrite Z.ltb_ge. }
    assert (length (under ++ sorted) = length nodes) as Hlen2 by (rewrite length_app, Hso; lia).
    assert (Z.of_nat n = Z.min (Z.of_nat (length nodes)) (cache_min_swarm_size cfg)) as Hn.
    { unfold n. rewrite Hl. lia. }
    assert (take n (under ++ sorted) = under ++ take (n - length under) sorted) as Et.
    { rewrite take_app. f_equal. apply take_ge. lia. }
    assert (drop n (under ++ sorted) = drop (n - length under) sorted) as Ed.
    { rewrite drop_app, drop_ge by lia. done. }
    split_and!.
    + by rewrite take_drop, Hso, Hp.
    + intros a b. rewrite Et, Ed. intros [Ha|Ha]%elem_of_app Hb.
      * apply Hunder in Ha. assert (b ∈ sorted) as Hb'%Hover' by (by apply (sublist_subseteq _ _ (sublist_drop _ _)) in Hb). lia.
      * apply (sorted_app (λ a b, strike_count p a ≤ strike_count p b) (take (n - length under) sorted) (drop (n - length under) sorted)); [|done..]. by rewrite take_drop.
    + intros b. rewrite Ed. intros Hb. apply Hover'. by apply (sublist_subseteq _ _ (sublist_drop _ _)) in Hb.
    + rewrite length_take. lia.
    + intros a _ _. rewrite length_take. lia.
Qed.

Definition answers (p : Pool) (cb : callback) (o : output) : Prop :=
  match cb, o with
  | CbUser i, OutDone j => i = j
  | CbGetSwarm pk ignore i, OutSwarm j sid kept =>
      i = j ∧ Swarm.get_swarm pk (generate_swarms (mnode_cache p)) = Ok (sid, of_swarm sid (mnode_cache p)) ∧
      if ignore then kept = of_swarm sid (mnode_cache p)
      else ∃ dropped, chosen p (of_swarm sid (mnode_cache p)) kept dropped
  | _, _ => False
  end.

(** What looking up a swarm leaves alone *)
Definition same_cache (p p' : Pool) : Prop :=
  mnode_cache p' = mnode_cache p ∧ all_swarms p' = all_swarms p ∧ mnode_strikes p' = mnode_strikes p ∧
  after_refresh p' = after_refresh p ∧ current_refresh_id p' = current_refresh_id p.

(** A cache that a swarm can be found in *)
Definition filled (p : Pool) : Prop :=
  swarm_inv p ∧ mnode_cache p ≠ [] ∧ Forall (λ n, 0 ≤ swarm_id n < 2 ^ 64) (mnode_cache p).

Lemma give_swarm_spec ignore id s p :
  ∃ kept p', give_swarm cfg ignore id s p = (Ok tt, p') ∧ outputs p' = outputs p ++ [OutSwarm id s.1 kept] ∧
    same_cache p p' ∧ swarm_cache p' = swarm_cache p ∧
    if ignore then kept = s.2 else ∃ dropped, chosen p s.2 kept dropped.
Proof.
  unfold give_swarm. rewrite run_bind. destruct ignore.
  { eexists s.2, _. split; [reflexivity|]. by split_and!. }
  destruct (filter_by_strikes_spec p s.2) as (kept & dropped & p' & E & Ho & Hc).
  assert (same_cache p p' ∧ swarm_cache p' = swarm_cache p) as [Hf Hs].
  { unfold filter_by_strikes in E. rewrite run_mget, run_shuffle in E. destruct (stable_partition _ _). by injection E as _ <-. }
  rewrite E. eexists kept, _. split; [reflexivity|]. cbn [outputs emit_output put_outputs]. rewrite Ho. split_and!; [done..|by exists dropped].
Qed.

Lemma found_swarm p pk : filled p → ∃ sid, Swarm.get_swarm pk (generate_swarms (mnode_cache p)) = Ok (sid, of_swarm sid (mnode_cache p)).
Proof.
  intros (_ & Hne & Hv).
  destruct (get_swarm_nearest pk _ (generate_sorted _) (generate_valid_ids _ Hv) (generate_nonempty _ Hne)) as ([sid ns] & Hg & Hin & _).
  apply generate_elem in Hin as [-> _]. by exists sid.
Qed.

Lemma get_swarm_spec u pk ignore id p :
  filled p → ∃ o p', get_swarm_with cfg u pk ignore id p = (Ok tt, p') ∧ outputs p' = outputs p ++ [o] ∧
    answers p (CbGetSwarm pk ignore id) o ∧ same_cache p p' ∧ filled p'.
Proof.
  intros Hf. destruct (found_swarm p pk Hf) as [sid Hg]. destruct Hf as ((Ha & Hc) & Hne & Hv).
  unfold get_swarm_with. rewrite run_mget. destruct (mfind pk (swarm_cache p)) as [s|] eqn:Es.
  - assert (s = (sid, of_swarm sid (mnode_cache p))) as ->.
    { apply mfind_Some_In in Es. rewrite Forall_forall in Hc. specialize (Hc _ Es). cbn [fst snd] in Hc. rewrite Ha, Hg in Hc. by injection Hc. }
    destruct (give_swarm_spec ignore id (sid, of_swarm sid (mnode_cache p)) p) as (kept & p' & Hr & Ho & Hs & Hsc & Hk).
    exists (OutSwarm id sid kept), p'. split_and!; [done..|]. destruct Hs as (E1 & E2 & _).
    split; [split; [by rewrite E1, E2|by rewrite E2, Hsc]|by rewrite E1].
  - assert ((length (mnode_cache p) =? 0)%nat || (length (all_swarms p) =? 0)%nat = false) as ->.
    { rewrite Ha. apply orb_false_iff. split; apply Nat.eqb_neq; intros E%nil_length_inv; [done|by apply (generate_nonempty _ Hne)]. }
    rewrite run_modify, run_lift, Ha, Hg, run_modify.
    match goal with |- context [give_swarm _ _ _ _ ?st] => set (q := st) end.
    destruct (give_swarm_spec ignore id (sid, of_swarm sid (mnode_cache p)) q) as (kept & p' & Hr & Ho & Hs & Hsc & Hk).
    exists (OutSwarm id sid kept), p'. split_and!; [done..|]. destruct Hs as (E1 & E2 & _).
    split; [split; [rewrite E1, E2; exact Ha|]|by rewrite E1]. rewrite E2, Hsc. apply minsert_forall; [cbn [fst snd]; rewrite <-Hg, <-Ha; done|exact Hc].
Qed.

Lemma callbacks_answered u cbs p :
  filled p → ∃ outs p', forM_ cbs (λ cb, catch (run_callback_with cfg u cb) (λ _, skip)) p = (Ok tt, p') ∧
    outputs p' = outputs p ++ outs ∧ Forall2 (answers p) cbs outs ∧ same_cache p p' ∧ filled p'.
Proof.
  revert p; induction cbs as [|cb cbs IH]; intros p Hf.
  { exists [], p. rewrite app_nil_r. split_and!; [done..| |done|done]. constructor. }
  assert (∃ o p1, catch (run_callback_with cfg u cb) (λ _, skip) p = (Ok tt, p1) ∧ outputs p1 = outputs p ++ [o] ∧
    answers p cb o ∧ same_cache p p1 ∧ filled p1) as (o & p1 & E1 & Ho & Ha & Hs & Hf1).
  { unfold catch, run_callback_with. rewrite run_gets. destruct cb as [id|pk ignore id].
    - eexists (OutDone id), _. rewrite run_modify, run_gets. cbn [after_refresh emit_output put_outputs].
      rewrite Nat.eqb_refl. split; [reflexivity|]. by split_and!.
    - destruct (get_swarm_spec u pk ignore id p Hf) as (o & p' & Hr & Ho & Ha & Hs & Hf').
      exists o, p'. rewrite run_bind, Hr, run_gets. assert (after_refresh p' = after_refresh p) as -> by apply Hs.
      rewrite Nat.eqb_refl. by split_and!. }
  destruct (IH p1 Hf1) as (outs & p2 & E2 & Ho2 & Ha2 & Hs2 & Hf2).
  exists (o :: outs), p2. cbn [forM_]. rewrite run_bind, E1. split_and!; [done|by rewrite Ho2, Ho, <-app_assoc| | |done].
  - constructor; [done|]. eapply Forall2_impl; [exact Ha2|]. intros cb' o'. unfold answers, chosen, strike_count, strikes_of.
    destruct Hs as (-> & _ & -> & _). done.
  - unfold same_cache in *. destruct Hs as (? & ? & ? & ? & ?), Hs2 as (? & ? & ? & ? & ?). split_and!; congruence.
Qed.

Lemma update_answers n (p : Pool) (nodes : list master_node) :
  nodes ≠ [] → Forall (λ n, 0 ≤ swarm_id n < 2 ^ 64) nodes →
  ∃ p' outs, update_cache cfg (S n) nodes p = (Ok tt, p') ∧ mnode_cache p' ≡ₚ nodes ∧ current_refresh_id p' = None ∧
    after_refresh p' = [] ∧ outputs p' = outputs p ++ outs ∧ Forall2 (answers p') (after_refresh p) outs.
Proof.
  intros Hne Hv. cbn [update_cache]. rewrite run_shuffle, !run_modify, run_gets.
  set (l := shuffle (rng p) nodes). assert (l ≡ₚ nodes) as Hl by apply shuffle_perm.
  match goal with |- context [(forM_ _ _ ≫= _) ?st] => set (q := st) end.
  assert (filled q) as Hq.
  { assert (mnode_cache q = l ∧ swarm_cache q = []) as [El Ec] by done. split_and!; [split; [reflexivity|by rewrite Ec]| |by rewrite El, Hl].
    rewrite El. intros E. rewrite E in Hl. apply Permutation_nil in Hl. done. }
  destruct (callbacks_answered (update_cache cfg n) (after_refresh p) q Hq) as (outs & p1 & E & Ho & Ha & (H1' & _ & H3' & _ & H5') & _).
  rewrite run_bind. change (after_refresh q) with (after_refresh p). rewrite E. eexists _, outs. split; [reflexivity|].
  cbn [mnode_cache current_refresh_id after_refresh outputs put_after_refresh]. split_and!; [by rewrite H1'|by rewrite H5'|done|done|].
  eapply Forall2_impl; [exact Ha|]. intros cb o. unfold answers, chosen, strike_count, strikes_of.
  cbn [mnode_cache mnode_strikes put_after_refresh]. by rewrite H1', H3'.
Qed.

(** (functional): the end of a refresh that found nodes.  The cache holds
    exactly these nodes, no refresh is under way any more, and every callback
    that waited is run once, in order: one that asked for a swarm is given the
    one closest to the account among the new nodes, less nodes with too many
    strikes. *)
Theorem refresh_answers (p : Pool) (nodes : list master_node) :
  nodes ≠ [] → Forall (λ n, 0 ≤ swarm_id n < 2 ^ 64) nodes →
  ∃ p' outs, _update_cache cfg nodes p = (Ok tt, p') ∧ mnode_cache p' ≡ₚ nodes ∧ current_refresh_id p' = None ∧
    after_refresh p' = [] ∧ outputs p' = outputs p ++ outs ∧ Forall2 (answers p') (after_refresh p) outs.
Proof. exact (update_answers 1 p nodes). Qed.

(** (functional): looking up the swarm of an account in a pool that has
    nodes.  The callback is run at once with the closest swarm; of its nodes
    those with too many strikes are dropped, except as many of the best of
    them as are needed for the smallest size a swarm should have. *)
Theorem swarm_given (p : Pool) (pk : bytes) (ignore_strike_count : bool) (id : Z) :
  pool_reachable cfg p → mnode_cache p ≠ [] → Forall (λ n, 0 ≤ swarm_id n < 2 ^ 64) (mnode_cache p) →
  ∃ sid kept p', pool_get_swarm cfg pk ignore_strike_count id p = (Ok tt, p') ∧
    outputs p' = outputs p ++ [OutSwarm id sid kept] ∧
    Swarm.get_swarm pk (generate_swarms (mnode_cache p)) = Ok (sid, of_swarm sid (mnode_cache p)) ∧
    (if ignore_strike_count then kept = of_swarm sid (mnode_cache p)
     else ∃ dropped, chosen p (of_swarm sid (mnode_cache p)) kept dropped).
Proof.
  intros Hp Hne Hv. destruct (get_swarm_spec (_update_cache cfg) pk ignore_strike_count id p) as ([|j sid kept] & p' & Hr & Ho & Ha & _).
  { split; [|done]. by apply (reachable_swarms cfg). }
  - done.
  - destruct Ha as (-> & Hg & Hk). by exists sid, kept, p'.
Qed.
End picking.

(** ** Concrete pools *)
Lemma pool_2_ids : Forall (λ n, 0 ≤ swarm_id n < 2 ^ 64) (mnode_cache pool_2).
Proof. assert (mnode_cache pool_2 = sample_nodes) as -> by (vm_compute; reflexivity). by repeat constructor. Qed.

Lemma unused_nodes_witness :
  (get_unused_nodes sample_config 2 [seed_node] pool_2).1 = Ok (drop 3 sample_nodes) ∧
  ∃ nodes p', get_unused_nodes sample_config 2 [seed_node] pool_2 = (Ok nodes, p') ∧ (length nodes ≤ 2)%nat.
Proof.
  split; [vm_compute; reflexivity|].
  destruct (unused_nodes sample_config pool_2 2 [seed_node]) as (nodes & p' & H1 & H2 & _). exists nodes, p'. split; [exact H1|exact H2].
Defined.

Lemma refresh_answers_witness :
  after_refresh pool_1 = [CbGetSwarm (zeros 32) true 7] ∧
  ∃ p' outs, _update_cache sample_config sample_nodes pool_1 = (Ok tt, p') ∧ after_refresh p' = [] ∧
    Forall2 (answers sample_config p') (after_refresh pool_1) outs.
Proof.
  split; [vm_compute; reflexivity|].
  destruct (refresh_answers sample_config pool_1 sample_nodes) as (p' & outs & H1 & _ & _ & H2 & _ & H3);
    [discriminate|by repeat constructor|]. exists p', outs. split; [exact H1|]. split; [exact H2|exact H3].
Defined.

Lemma swarm_given_witness :
  ∃ sid kept p', pool_get_swarm sample_config (zeros 32) false 8 pool_2 = (Ok tt, p') ∧
    outputs p' = outputs pool_2 ++ [OutSwarm 8 sid kept].
Proof.
  destruct (swarm_given sample_config pool_2 (zeros 32) false 8) as (sid & kept & p' & H1 & H2 & _);
    [exact pool_2_reachable|vm_compute; discriminate|exact pool_2_ids|].
  exists sid, kept, p'. split; [exact H1|exact H2].
Defined.
