(* ===== verification/MnodeStrikes.v ===== *)
(** * Strikes on disk and retry delays

    The strikes file of the node pool is read back as it was written, less
    what expired ([_perform_strikes_write] and [_load_from_disk] of
    [src/network/mnode_pool.cpp]); the delays between retries stay within
    their limits ([retry_delay::exponential] of
    [include/bchat/network/network_opt.hpp]) until they overflow. *)

From Stdlib Require Import ZArith String Ascii Lia.
From stdpp Require Import base option strings numbers sorting sets list.
From S2P Require Import Prelude OrderedMap Bt Bencode Crypto Text Ids State Wire StableSort Swarm MasterNode NodeMerge MnodePool MnodePoolState.

(** ** The strikes file *)
Definition strikes_ok (strikes : list (bytes * list Z)) : Prop :=
  msorted strikes = true ∧ Z.of_nat (length strikes) < 2 ^ 32 ∧
  Forall (λ e : bytes * list Z, size e.1 = 32 ∧ Z.of_nat (length e.2) < 2 ^ 16 ∧ Forall (λ t, in_int64 t = true) e.2) strikes.

(** The stamps that have expired neither when the file was written nor when it
    is read *)
Definition still_live (written read : Z) (t : Z) : bool :=
  live_stamp written t && (now_s read - STRIKE_EXPIRY <? t).
Definition live_entry (written read : Z) (e : bytes * list Z) : bytes * list Z :=
  (e.1, List.filter (still_live written read) e.2).
Definition has_stamps (e : bytes * list Z) : bool := negb (length e.2 =? 0)%nat.
Definition live_strikes (written read : Z) (strikes : list (bytes * list Z)) : list (bytes * list Z) :=
  List.filter has_stamps (live_entry written read <$> strikes).

Lemma int64_wrap t : in_int64 t = true → int64_of (wrap64 t) = t.
Proof.
  intros Ht%in_int64_spec. unfold int64_min, int64_max, int64_of in *. destruct (Z.lt_ge_cases t 0).
  - rewrite wrap64_neg by lia. destruct (Z.ltb_spec (t + 2 ^ 64) (2 ^ 63)); lia.
  - rewrite wrap64_small by lia. destruct (Z.ltb_spec t (2 ^ 63)); lia.
Qed.

Lemma wrap64_range z : 0 ≤ wrap64 z < 2 ^ 64.
Proof. apply Z.mod_pos_bound. lia. Qed.

Lemma read_stamps_written thr ts rest :
  Forall (λ t, in_int64 t = true) ts →
  read_stamps (length ts) thr (sconcat ((λ t, le_write 8 (wrap64 t)) <$> ts) +:+ rest) =
    Ok (List.filter (λ t, thr <? t) ts, rest).
Proof.
  induction 1 as [|t ts Ht _ IH]; [done|]. cbn [length read_stamps]. rewrite fmap_cons, sconcat_cons, append_assoc.
  rewrite consume_int_write by (change (256 ^ Z.of_nat 8) with (2 ^ 64); apply wrap64_range). cbn [mbind result_bind].
  rewrite IH. cbn [mbind result_bind]. rewrite int64_wrap by done. cbn [List.filter]. by destruct (thr <? t).
Qed.

Lemma Forall_Lfilter {A} (P : A → Prop) f l : Forall P l → Forall P (List.filter f l).
Proof. induction 1; cbn [List.filter]; [constructor|]. destruct (f x); [by constructor|done]. Qed.

Lemma Lfilter_filter {A} (f g : A → bool) l : List.filter f (List.filter g l) = List.filter (λ x, g x && f x) l.
Proof. induction l as [|x l IH]; [done|]. cbn [List.filter]. destruct (g x); cbn [List.filter andb]; [|done]. destruct (f x); by rewrite IH. Qed.

Lemma write_entries_count c strikes : 0 ≤ (write_entries c strikes).1 ≤ Z.of_nat (length strikes).
Proof.
  induction strikes as [|[k ts] strikes IH]; [simpl; lia|]. cbn [write_entries].
  destruct (write_entries c strikes) as [n b]. cbn [fst length] in *. destruct (_ =? 0); cbn [fst]; lia.
Qed.

Lemma read_entries_written c1 c2 strikes loaded :
  Forall (λ e : bytes * list Z, size e.1 = 32 ∧ Z.of_nat (length e.2) < 2 ^ 16 ∧ Forall (λ t, in_int64 t = true) e.2) strikes →
  read_entries (Z.to_nat (write_entries c1 strikes).1) (now_s c2 - STRIKE_EXPIRY) (write_entries c1 strikes).2 loaded =
    foldl (λ m e, minsert e.1 e.2 m) loaded (live_strikes c1 c2 strikes).
Proof.
  intros Hf. revert loaded; induction Hf as [|[k ts] strikes (Hk & Hn & Ht) Hf IH]; intros loaded; [done|].
  cbn [fst snd] in *. pose proof (write_entries_count c1 strikes) as Hc. cbn [write_entries].
  destruct (write_entries c1 strikes) as [n b]. cbn [fst snd] in *.
  set (active := List.filter (live_stamp c1) ts).
  assert (length active ≤ length ts)%nat as Hle by apply filter_length_le.
  rewrite Z.mod_small by lia.
  assert (List.filter (still_live c1 c2) ts = List.filter (λ t, now_s c2 - STRIKE_EXPIRY <? t) active) as Hlive
    by (unfold active; by rewrite Lfilter_filter).
  unfold live_strikes. rewrite fmap_cons. unfold live_entry at 1. cbn [fst snd List.filter]. unfold has_stamps at 1. cbn [snd].
  rewrite Hlive. destruct (Z.eqb_spec (Z.of_nat (length active)) 0) as [E|E]; cbn [fst snd].
  { assert (active = []) as -> by (apply nil_length_inv; lia). apply IH. }
  replace (Z.to_nat (n + 1)) with (S (Z.to_nat n)) by lia. cbn [read_entries].
  rewrite consume_app by (unfold size in Hk; lia). cbn [mbind result_bind].
  rewrite consume_int_write by (change (256 ^ Z.of_nat 2) with (2 ^ 16); lia). cbn [mbind result_bind]. rewrite Nat2Z.id.
  rewrite read_stamps_written by (by apply Forall_Lfilter). cbn [mbind result_bind].
  rewrite IH. destruct (length (List.filter _ active) =? 0)%nat; done.
Qed.

Lemma msorted_prefix {V} (a b : list (bytes * V)) : msorted (a ++ b) = true → msorted a = true.
Proof.
  induction a as [|[k v] a IH]; [done|]. cbn [app]. rewrite !msorted_cons. intros [Hk Hs].
  split; [by apply Forall_app in Hk as [? _]|by apply IH].
Qed.

Lemma foldl_minsert_sorted {V} (m acc : list (bytes * V)) :
  msorted (acc ++ m) = true → foldl (λ m e, minsert e.1 e.2 m) acc m = acc ++ m.
Proof.
  revert acc; induction m as [|[k v] m IH]; intros acc Hs; [by rewrite app_nil_r|]. cbn [foldl fst snd].
  assert (acc ++ (k, v) :: m = (acc ++ [(k, v)]) ++ m) as E by (by rewrite <-app_assoc). rewrite E in *.
  rewrite minsert_end; [by apply IH|]. by apply msorted_prefix, msorted_snoc in Hs as [_ ?].
Qed.

Lemma live_sorted c1 c2 strikes : msorted strikes = true → msorted (live_strikes c1 c2 strikes) = true.
Proof.
  intros Hs. apply msorted_filter. induction strikes as [|[k ts] strikes IH]; [done|].
  rewrite fmap_cons. unfold live_entry at 1. cbn [fst snd]. apply msorted_cons in Hs as [Hk Hs]. apply msorted_cons.
  split; [|by apply IH]. apply Forall_fmap. eapply Forall_impl; [exact Hk|]. done.
Qed.

(** (roundtrip): reading the strikes file gives back exactly the strikes it
    was written from, less the stamps that had expired when it was written or
    have when it is read, and less the nodes that have none left. *)
Theorem strikes_file_roundtrip (written read : Z) (strikes : list (bytes * list Z)) :
  strikes_ok strikes →
  load_strikes read (strikes_contents written strikes) = Ok (live_strikes written read strikes).
Proof.
  intros (Hs & Hn & Hf). unfold load_strikes, strikes_contents. pose proof (write_entries_count written strikes) as Hc.
  pose proof (read_entries_written written read strikes [] Hf) as Hr.
  destruct (write_entries written strikes) as [n b]. cbn [fst snd] in *. rewrite Z.mod_small by lia.
  rewrite consume_int_write by (change (256 ^ Z.of_nat 4) with (2 ^ 32); lia). cbn [mbind result_bind].
  rewrite Hr, foldl_minsert_sorted; [done|]. by apply live_sorted.
Qed.

Definition sample_strikes : list (bytes * list Z) :=
  [(zeros 31 +:+ "a", [1000000; 1172000]); (zeros 31 +:+ "b", [1000]); (zeros 31 +:+ "c", [1172790; 1172795])].

Lemma strikes_file_roundtrip_witness :
  load_strikes (1172800 * NS_PER_S) (strikes_contents (1172799 * NS_PER_S) sample_strikes) =
    Ok [(zeros 31 +:+ "a", [1172000]); (zeros 31 +:+ "c", [1172790; 1172795])].
Proof.
  rewrite (strikes_file_roundtrip (1172799 * NS_PER_S) (1172800 * NS_PER_S) sample_strikes); [vm_compute; reflexivity|].
  split; [vm_compute; reflexivity|]. split; [vm_compute; reflexivity|]. by repeat constructor.
Defined.

(** ** Retry delays *)

(** The delay doubles up to its maximum, as long as it fits. *)
Lemma exponential_bounds base max n :
  0 < base ≤ max → 0 ≤ n → base * 2 ^ (n - 1) < 2 ^ 63 →
  ∃ d, exponential base max n = Ok d ∧ base ≤ d ≤ max ∧ (1 ≤ n → d = Z.min (base * 2 ^ (n - 1)) max).
Proof.
  intros Hb Hn Hfit. unfold exponential. destruct (Z.leb_spec n 0).
  - exists base. split; [done|]. split; [lia|]. lia.
  - rewrite (proj2 (Z.ltb_lt _ _) Hfit). eexists. split; [reflexivity|]. split; [|done].
    assert (1 ≤ 2 ^ (n - 1)) by (apply (Z.pow_le_mono_r 2 0); lia). nia.
Qed.

(** With a second as the base, the 55th failure in a row overflows. *)
Lemma delay_overflows (max : Z) : exponential 1000 max 55 = Throw undefined_behaviour.
Proof. reflexivity. Qed.

(** ** Strikes that expired *)

(** A node whose strikes have all expired has none to speak of, and is still
    never picked. *)
Lemma expired_still_out `{Csrng, Quic, Oxenc} :
  ∃ p key, (node_strike_count key p).1 = Ok 0 ∧ struck_out sample_config p key = true.
Proof.
  exists (put_mnode_strikes [("k", [1; 1; 1])] pool_0), "k". split; reflexivity.
Qed.

(** With a threshold of 0, a failure that is recorded as permanent adds no
    strike; the node is left out all the same, because reading the size of its
    strikes for the log creates an entry. *)
Lemma logged_entry_counts `{Csrng, Quic, Oxenc} :
  let cfg := mkConfig None 5 300000 false 50 200 [] 0 0 3 0 0 true false in
  struck_out cfg pool_0 "k" = false ∧
  (record_node_failure cfg "k" true pool_0).1 = Ok tt ∧
  struck_out cfg (record_node_failure cfg "k" true pool_0).2 "k" = true.
Proof. split_and!; reflexivity. Qed.

(** A refresh that comes back without nodes while a swarm is waited for: the
    callback asks again, which adds to the list that is being gone through. *)
Lemma empty_refresh_undefined :
  pool_reachable sample_config pool_1 ∧ after_refresh pool_1 = [CbGetSwarm (zeros 32) true 7] ∧
  process_mnode_cache_bin "" = Ok ([], 0) ∧
  (on_response sample_config first_request true false 200 (Some "") (put_in_flight [] pool_1)).1 = Throw undefined_behaviour.
Proof. split; [apply pool_1_reachable|]. split_and!; vm_compute; reflexivity. Qed.

(** The routed fetcher is used only while the cache has too few nodes. *)
Lemma routed_when_insufficient :
  use_direct (default first_request (fst <$> head (in_flight pool_1))) = true ∧
  (∃ rq n, in_flight (_refresh_mnode_cache sample_config (put_routed_fetcher (Some true) pool_0)).2 = [(rq, n)] ∧
     use_direct rq = false ∧ from_seed_nodes rq = true).
Proof. split; [vm_compute; reflexivity|]. eexists _, _. vm_compute. by split_and!. Qed.
