(* ===== verification/RequestQueue.v ===== *)
(** * The queue of requests that wait

    [src/network/request_queue.cpp]: requests that cannot be sent yet wait here
    until a path is built or the clock is in sync.  A request with an overall
    timeout is answered when it expires; a timer of the event loop runs at the
    earliest expiry.  Times are nanoseconds of the steady clock, which is
    never negative, and durations are milliseconds. *)

From Stdlib Require Import ZArith String Sorting.Sorted Lia.
From stdpp Require Import base option strings numbers gmap sorting sets list.
From S2P Require Import Prelude State.

(** ** Data *)

(** What a callback is called with: [success], [timeout], [status_code] and the
    text of the response *)
Record reply := mkReply { success : bool; timeout : bool; status_code : Z; response : bytes }.

Definition ERROR_BUILD_TIMEOUT : Z := -10100.

Section queue.
(** The members of [Request] the queue does not look at, and callbacks *)
Context {D C : Type}.

Record Request := mkRequest {
  request_id : bytes;
  overall_timeout : option Z;
  creation_time : Z;
  details : D;
}.

Definition item : Type := Request * C.

(** [_timeout] is the event once it is made, with the time it is due when it is
    pending.  [replies] are the callbacks that were run, with their arguments. *)
Record RequestQueue := mkQueue {
  _queue : list bytes;
  _requests : gmap bytes item;
  _req_expiries : list (Z * bytes);
  _timeout : option (option Z);
  replies : list (item * reply);
}.

Definition make : RequestQueue := mkQueue [] ∅ [] None [].

Definition put_queue v (q : RequestQueue) : RequestQueue :=
  mkQueue v (_requests q) (_req_expiries q) (_timeout q) (replies q).
Definition put_requests v (q : RequestQueue) : RequestQueue :=
  mkQueue (_queue q) v (_req_expiries q) (_timeout q) (replies q).
Definition put_expiries v (q : RequestQueue) : RequestQueue :=
  mkQueue (_queue q) (_requests q) v (_timeout q) (replies q).
Definition put_timeout v (q : RequestQueue) : RequestQueue :=
  mkQueue (_queue q) (_requests q) (_req_expiries q) v (replies q).
Definition put_replies v (q : RequestQueue) : RequestQueue :=
  mkQueue (_queue q) (_requests q) (_req_expiries q) (_timeout q) v.

Definition is_empty (q : RequestQueue) : bool := bool_decide (_requests q = ∅).

(** ** The timer *)

(** [std::chrono::ceil<microseconds>] of nanoseconds *)
Definition ceil_us (ns : Z) : Z :=
  let t := Z.quot ns 1000 in if t * 1000 <? ns then t + 1 else t.

Definition update_timeout (now : Z) (q : RequestQueue) : RequestQueue :=
  match _req_expiries q with
  | [] => match _timeout q with Some _ => put_timeout (Some None) q | None => q end
  | (first, _) :: _ =>
      let expires_in := ceil_us (first - now) in
      let expires_in := if expires_in <? 0 then 0 else expires_in in
      let tv_sec := Z.quot expires_in 1000000 in
      let tv_usec := Z.rem expires_in 1000000 in
      put_timeout (Some (Some (now + tv_sec * 1000000000 + tv_usec * 1000))) q
  end.

(** ** Adding *)

(** [emplace_hint(end(), ...)] on a multimap: after the entries with the same key *)
Fixpoint emplace_last (expiry : Z) (id : bytes) (l : list (Z * bytes)) : list (Z * bytes) :=
  match l with
  | [] => [(expiry, id)]
  | (e, i) :: l' => if e <=? expiry then (e, i) :: emplace_last expiry id l' else (expiry, id) :: l
  end.

(** [_requests.emplace]: a request with the same id stays *)
Definition emplace_request (i : item) (m : gmap bytes item) : gmap bytes item :=
  match m !! request_id i.1 with Some _ => m | None => <[request_id i.1 := i]> m end.

(** [creation_time + *timeout], an [int64_t] of nanoseconds *)
Definition deadline (r : Request) : option Z :=
  (λ t, creation_time r + t * 1000000) <$> overall_timeout r.
Definition deadline_fits (r : Request) : bool :=
  match overall_timeout r with
  | Some t => in_int64 (t * 1000000) && in_int64 (creation_time r + t * 1000000)
  | None => true
  end.

(** The second half of [add] and of [add_front] *)
Definition note_expiry (now : Z) (r : Request) : M RequestQueue () :=
  guard_ (deadline_fits r) undefined_behaviour;;
  match deadline r with
  | None => skip
  | Some expiry =>
      modify (λ q, put_expiries (emplace_last expiry (request_id r) (_req_expiries q)) q);;
      q ← mget;
      match _req_expiries q with
      | (_, id) :: _ => when (bool_decide (id = request_id r)) (modify (update_timeout now))
      | [] => throw undefined_behaviour
      end
  end.

Definition add (now : Z) (request : Request) (callback : C) : M RequestQueue () :=
  modify (λ q, put_requests (emplace_request (request, callback) (_requests q)) q);;
  modify (λ q, put_queue (_queue q ++ [request_id request]) q);;
  note_expiry now request.

Definition add_front (now : Z) (req_pair : item) : M RequestQueue () :=
  modify (λ q, put_requests (emplace_request req_pair (_requests q)) q);;
  modify (λ q, put_queue (request_id req_pair.1 :: _queue q) q);;
  note_expiry now req_pair.1.

(** ** Taking *)

(** The requests with these ids, which are erased *)
Fixpoint take_requests (ids : list bytes) (m : gmap bytes item) : list item * gmap bytes item :=
  match ids with
  | [] => ([], m)
  | id :: ids =>
      match m !! id with
      | Some i => let '(items, m) := take_requests ids (delete id m) in (i :: items, m)
      | None => take_requests ids m
      end
  end.

Definition pop_all (now : Z) : M RequestQueue (list item) :=
  q ← mget;
  let '(popped_items, _) := take_requests (_queue q) (_requests q) in
  modify (put_queue []);;
  modify (put_requests ∅);;
  modify (put_expiries []);;
  modify (update_timeout now);;
  mret popped_items.

(** The entries that have expired, which come first, and the others *)
Definition due (now : option Z) (expiry : Z) : bool :=
  match now with Some n => expiry <=? n | None => true end.
Fixpoint due_entries (now : option Z) (l : list (Z * bytes)) : list (Z * bytes) * list (Z * bytes) :=
  match l with
  | [] => ([], [])
  | (e, id) :: l' =>
      if due now e then let '(d, rest) := due_entries now l' in ((e, id) :: d, rest) else ([], l)
  end.

Definition timed_out : reply := mkReply false true ERROR_BUILD_TIMEOUT "Timed out while in build queue.".

Definition check_timeouts (now : option Z) (q : RequestQueue) : RequestQueue :=
  let '(entries, rest) := due_entries now (_req_expiries q) in
  let '(expired, requests) := take_requests entries.*2 (_requests q) in
  mkQueue (_queue q) requests rest (_timeout q) (replies q ++ ((λ i, (i, timed_out)) <$> expired)).

Definition cancelled : reply :=
  mkReply false false (-1) "Request cancelled: networking system is shutting down".

(** [~RequestQueue]: the callbacks it runs, in some order *)
Definition destroy (q : RequestQueue) : list (item * reply) :=
  (λ kv, (kv.2, cancelled)) <$> map_to_list (_requests q).

(** ** Executions *)

(** What a client does on the event loop *)
Inductive client_call := CAdd (r : Request) (c : C) | CAddFront (i : item) | CPopAll.

Definition run_call (now : Z) (o : client_call) : M RequestQueue (list item) :=
  match o with
  | CAdd r c => add now r c;; mret []
  | CAddFront i => add_front now i;; mret []
  | CPopAll => pop_all now
  end.

(** Calls by clients between two times *)
Inductive calls : Z → RequestQueue → Z → RequestQueue → Prop :=
  | calls_none t q : calls t q t q
  | calls_more t q t' o q' l t'' q'' :
      t ≤ t' → run_call t' o q = (Ok l, q') → calls t' q' t'' q'' → calls t q t'' q''.

(** The states of a queue and the time at which it got there.  The event is not
    pending any more when it runs, and the callbacks it runs may call the queue
    before the timer is set again. *)
Inductive reachable : Z → RequestQueue → Prop :=
  | reach_make t : reachable t make
  | reach_calls t q t' q' : reachable t q → calls t q t' q' → reachable t' q'
  | reach_timer t q now t' q' after :
      reachable t q → _timeout q ≠ None → t ≤ now →
      calls now (check_timeouts (Some now) (put_timeout (Some None) q)) t' q' → t' ≤ after →
      reachable after (update_timeout after q').

(** ** The invariant of the expiries and the timer *)

Definition sorted_entries (l : list (Z * bytes)) : Prop := StronglySorted (λ a b, a.1 ≤ b.1) l.

Record entries_ok (q : RequestQueue) : Prop := {
  entries_sorted : sorted_entries (_req_expiries q);
  ids_match : ∀ id (i : item), _requests q !! id = Some i → request_id i.1 = id;
  deadlines_noted : ∀ id (i : item) d, _requests q !! id = Some i → deadline i.1 = Some d → (d, id) ∈ _req_expiries q;
}.

(** The timer is pending, less than a microsecond after the first expiry or
    already due *)
Definition timer_ok (now : Z) (q : RequestQueue) : Prop :=
  ∀ e id l, _req_expiries q = (e, id) :: l →
  ∃ t, _timeout q = Some (Some t) ∧ t ≤ Z.max (e + 999) now.

Lemma ceil_us_spec ns : ns ≤ ceil_us ns * 1000 < ns + 1000 ∨ ns < 0 ∧ ceil_us ns ≤ 0.
Proof.
  unfold ceil_us. cbv zeta. pose proof (Z.quot_rem' ns 1000). pose proof (Z.rem_bound_pos_neg ns 1000).
  pose proof (Z.rem_bound_pos_pos ns 1000).
  destruct (Z.ltb_spec (Z.quot ns 1000 * 1000) ns), (Z.lt_ge_cases ns 0); lia.
Qed.

Lemma update_timer_ok now q : timer_ok now (update_timeout now q).
Proof.
  intros e id l. unfold update_timeout. destruct (_req_expiries q) as [|[first i] l'] eqn:E.
  { destruct (_timeout q); simpl; rewrite E; done. }
  cbv zeta. cbn [put_timeout _req_expiries _timeout]. rewrite E. intros [= -> -> ->].
  set (u := if _ <? 0 then _ else _).
  eexists. split; [done|]. pose proof (Z.quot_rem' u 1000000).
  assert (u = 0 ∨ u = ceil_us (e - now)) as [Hu|Hu] by (unfold u; destruct (_ <? 0); auto); [lia|].
  destruct (ceil_us_spec (e - now)); lia.
Qed.

Lemma update_same now q :
  _queue (update_timeout now q) = _queue q ∧ _requests (update_timeout now q) = _requests q ∧
  _req_expiries (update_timeout now q) = _req_expiries q ∧ replies (update_timeout now q) = replies q.
Proof. unfold update_timeout. destruct (_req_expiries q) as [|[e i] l] eqn:E; [destruct (_timeout q)|]; auto. Qed.

Lemma update_entries now q : entries_ok q → entries_ok (update_timeout now q).
Proof. destruct (update_same now q) as (_ & Er & Ee & _). intros [H1 H2 H3]. split; rewrite ?Er, ?Ee; auto. Qed.

Lemma emplace_last_perm e id l : emplace_last e id l ≡ₚ (e, id) :: l.
Proof.
  induction l as [|[e' i] l IH]; simpl; [done|]. destruct (e' <=? e); [|done]. rewrite IH. apply perm_swap.
Qed.

Lemma emplace_last_sorted e id l : sorted_entries l → sorted_entries (emplace_last e id l).
Proof.
  induction 1 as [|[e' i] l Hs IH Hf]; simpl; [repeat constructor|].
  destruct (Z.leb_spec e' e) as [Hle|Hgt].
  - constructor; [done|]. rewrite emplace_last_perm. by constructor.
  - constructor; [by constructor|]. constructor; [simpl; lia|]. eapply Forall_impl; [exact Hf|]. simpl. lia.
Qed.

(** The first entry stays the first unless the new one takes its place. *)
Lemma emplace_last_head e id l x l' :
  emplace_last e id l = x :: l' → x = (e, id) ∨ ∃ l0, l = x :: l0.
Proof.
  destruct l as [|[e' i] l]; simpl; [naive_solver|]. destruct (e' <=? e); intros [= <- <-]; eauto.
Qed.

Lemma lookup_emplace_request i m id j :
  emplace_request i m !! id = Some j → m !! id = Some j ∨ id = request_id i.1 ∧ j = i ∧ m !! id = None.
Proof.
  unfold emplace_request. destruct (m !! request_id i.1) eqn:E; [auto|].
  rewrite lookup_insert_Some. intros [[<- <-]|[_ ?]]; auto.
Qed.

(** ** Adding keeps them *)
Definition noted (q : RequestQueue) (r : Request) : RequestQueue :=
  match deadline r with
  | Some d => put_expiries (emplace_last d (request_id r) (_req_expiries q)) q
  | None => q
  end.

Lemma note_expiry_run now r q u q' :
  note_expiry now r q = (Ok u, q') →
  deadline_fits r = true ∧ (q' = noted q r ∨ q' = update_timeout now (noted q r)) ∧
  (∀ now0, timer_ok now0 q → now0 ≤ now → timer_ok now q').
Proof.
  unfold note_expiry, noted. rewrite run_guard. destruct (deadline_fits r); [|done].
  destruct (deadline r) as [d|].
  2: { intros [= <- <-]. split_and!; [done|by left|]. intros now0 Ht Hn e id l E. destruct (Ht e id l E) as (t & ? & ?).
       exists t. split; [done|lia]. }
  rewrite run_modify, run_mget. cbn [_req_expiries put_expiries].
  destruct (emplace_last d (request_id r) (_req_expiries q)) as [|[e id] l] eqn:E; [done|].
  destruct (bool_decide_reflect (id = request_id r)) as [->|Hne]; cbn [when]; intros [= <- <-].
  - split_and!; [done|by right|]. intros _ _ _. apply update_timer_ok.
  - split_and!; [done|by left|]. intros now0 Ht Hn e1 id1 l1 [= <- <- <-].
    apply emplace_last_head in E as [[= -> ->]|[l0 E]]; [done|]. destruct (Ht _ _ _ E) as (t & ? & ?).
    exists t. split; [done|lia].
Qed.

Lemma noted_entries q r i :
  r = i.1 → entries_ok q →
  ∀ f, entries_ok (noted (put_queue f (put_requests (emplace_request i (_requests q)) q)) r).
Proof.
  intros -> [Hs Hi Hd] f.
  assert (sorted_entries (_req_expiries (noted (put_queue f (put_requests (emplace_request i (_requests q)) q)) i.1))) as Hs'.
  { unfold noted. destruct (deadline i.1); [by apply emplace_last_sorted|done]. }
  assert (_requests (noted (put_queue f (put_requests (emplace_request i (_requests q)) q)) i.1) =
    emplace_request i (_requests q)) as Er by (unfold noted; by destruct (deadline i.1)).
  split; [done|..]; rewrite Er.
  - intros id j [?|(-> & -> & _)]%lookup_emplace_request; eauto.
  - intros id j d [Hj|(-> & -> & _)]%lookup_emplace_request Hdj; unfold noted.
    + specialize (Hd _ _ _ Hj Hdj). destruct (deadline i.1); simpl; [|done].
      rewrite emplace_last_perm. by apply elem_of_cons; right.
    + rewrite Hdj. simpl. rewrite emplace_last_perm. apply elem_of_cons. by left.
Qed.

Lemma due_entries_app now l : (due_entries now l).1 ++ (due_entries now l).2 = l.
Proof.
  induction l as [|[e id] l IH]; simpl; [done|]. destruct (due now e); [|done].
  destruct (due_entries now l). simpl in *. by rewrite IH.
Qed.

Lemma due_entries_spec now l :
  sorted_entries l → Forall (λ x, due now x.1 = true) (due_entries now l).1 ∧
  Forall (λ x, due now x.1 = false) (due_entries now l).2.
Proof.
  induction 1 as [|[e id] l Hs IH Hf]; simpl; [done|]. destruct (due now e) eqn:E.
  - destruct (due_entries now l). simpl in *. destruct IH. split; [by constructor|done].
  - split; [done|]. constructor; [done|]. eapply Forall_impl; [exact Hf|]. intros [e' ?]. simpl.
    unfold due in *. destruct now; [|done]. rewrite Z.leb_gt in *. lia.
Qed.

Lemma take_requests_spec ids m :
  (∀ id i, m !! id = Some i → id ∈ ids → i ∈ (take_requests ids m).1) ∧
  (∀ id, (take_requests ids m).2 !! id = if decide (id ∈ ids) then None else m !! id).
Proof.
  revert m; induction ids as [|id ids IH]; intros m; cbn [take_requests].
  { split; [by intros ? ? _ ?%elem_of_nil|]. intros id. case_decide as Hd; [by apply elem_of_nil in Hd|done]. }
  destruct (m !! id) as [i|] eqn:E.
  - destruct (IH (delete id m)) as [H1 H2]. destruct (take_requests ids (delete id m)) as [items m']. simpl in *.
    split.
    + intros id' i' Hi [->|Hin]%elem_of_cons; [rewrite E in Hi; injection Hi as ->; apply elem_of_cons; by left|].
      destruct (decide (id' = id)) as [->|Hne].
      { rewrite E in Hi; injection Hi as ->; apply elem_of_cons; by left. }
      apply elem_of_cons. right. apply (H1 id'); [by rewrite lookup_delete_ne|done].
    + intros id'. rewrite H2. destruct (decide (id' = id)) as [->|Hne].
      * rewrite lookup_delete_eq. by repeat case_decide; try set_solver.
      * rewrite lookup_delete_ne by done. by repeat case_decide; try set_solver.
  - destruct (IH m) as [H1 H2]. split.
    + intros id' i' Hi [->|Hin]%elem_of_cons; [congruence|]. by apply (H1 id').
    + intros id'. rewrite H2. destruct (decide (id' = id)) as [->|Hne].
      * rewrite E. by repeat case_decide.
      * by repeat case_decide; try set_solver.
Qed.

(** What a check of the timeouts leaves *)
Lemma check_timeouts_run now q :
  check_timeouts now q =
    let entries := due_entries now (_req_expiries q) in
    let taken := take_requests entries.1.*2 (_requests q) in
    mkQueue (_queue q) taken.2 entries.2 (_timeout q) (replies q ++ ((λ i, (i, timed_out)) <$> taken.1)).
Proof.
  unfold check_timeouts. destruct (due_entries now (_req_expiries q)) as [d r]. cbn [fst snd].
  by destruct (take_requests d.*2 (_requests q)).
Qed.

Lemma check_entries now q : entries_ok q → entries_ok (check_timeouts now q).
Proof.
  intros [Hs Hi Hd]. rewrite check_timeouts_run. cbv zeta.
  destruct (take_requests_spec (due_entries now (_req_expiries q)).1.*2 (_requests q)) as [_ Ht].
  split; cbn [_requests _req_expiries].
  - pose proof Hs as Hs'. unfold sorted_entries in Hs'. rewrite <-(due_entries_app now) in Hs'.
    by apply StronglySorted_app_1_r in Hs'.
  - intros id i. rewrite Ht. case_decide; naive_solver.
  - intros id i d. rewrite Ht. case_decide as Hid; [done|]. intros Hi' Hdl. specialize (Hd _ _ _ Hi' Hdl).
    rewrite <-(due_entries_app now (_req_expiries q)), elem_of_app in Hd. destruct Hd as [Hd|Hd]; [|done].
    destruct Hid. apply list_elem_of_fmap. by exists (d, id).
Qed.

Lemma timer_later now now' q : timer_ok now q → now ≤ now' → timer_ok now' q.
Proof. intros Ht Hn e id l E. destruct (Ht e id l E) as (t & ? & ?). exists t. split; [done|lia]. Qed.

Lemma added_ok now i f q u q' :
  entries_ok q →
  note_expiry now i.1 (put_queue f (put_requests (emplace_request i (_requests q)) q)) = (Ok u, q') →
  entries_ok q' ∧ (∀ now0, timer_ok now0 q → now0 ≤ now → timer_ok now q').
Proof.
  intros Hq E. apply note_expiry_run in E as (_ & Hq' & Ht). split; [|done].
  pose proof (noted_entries q i.1 i eq_refl Hq f) as Hn. destruct Hq' as [->| ->]; [done|by apply update_entries].
Qed.

Lemma run_call_ok now o q l q' :
  entries_ok q → run_call now o q = (Ok l, q') →
  entries_ok q' ∧ (∀ now0, timer_ok now0 q → now0 ≤ now → timer_ok now q').
Proof.
  intros Hq. destruct o as [r c|i|]; cbn [run_call].
  - intros ([] & q1 & E & [= _ <-])%M_bind_Ok. by apply (added_ok now (r, c) (_queue q ++ [request_id r]) q tt).
  - intros ([] & q1 & E & [= _ <-])%M_bind_Ok. by apply (added_ok now i (request_id i.1 :: _queue q) q tt).
  - unfold pop_all. rewrite run_mget. destruct (take_requests _ _) as [items m].
    rewrite !run_modify. intros [= _ <-]. split; [|intros; apply update_timer_ok].
    apply update_entries. split; simpl; [constructor|by intros id i|by intros id i d].
Qed.

Lemma calls_ok t q t' q' :
  calls t q t' q' → entries_ok q → t ≤ t' ∧ entries_ok q' ∧ (timer_ok t q → timer_ok t' q').
Proof.
  induction 1 as [t q|t q t1 o q1 l t' q' Ht E Hc IH]; intros Hq; [done|].
  destruct (run_call_ok _ _ _ _ _ Hq E) as [Hq1 Ht1]. destruct (IH Hq1) as (? & ? & ?).
  split_and!; [lia|done|]. eauto.
Qed.

Lemma reachable_ok t q : reachable t q → entries_ok q ∧ timer_ok t q.
Proof.
  induction 1 as [t|t q t' q' Hr [IH1 IH2] Hc|t q now t' q' after Hr [IH1 IH2] Hto Ht Hc Ha].
  - split; [|done]. split; simpl; [constructor|by intros id i|by intros id i d].
  - destruct (calls_ok _ _ _ _ Hc IH1) as (_ & ? & ?). auto.
  - destruct (calls_ok _ _ _ _ Hc) as (_ & Hq & _).
    { apply check_entries. by destruct IH1. }
    split; [by apply update_entries|apply update_timer_ok].
Qed.

(** C34 (deadlines of waiting requests).  In every state a queue reaches, whatever
    its clients and their callbacks do, a request that waits and has an overall
    timeout is not forgotten: the timer is set, less than a microsecond after
    the request expires or at a time that has passed already, and when the
    timer runs after the request expired, the request leaves the queue and its
    callback is told that it timed out. *)
Theorem deadline_kept (t : Z) (q : RequestQueue) (i : item) (d : Z) :
  reachable t q → _requests q !! request_id i.1 = Some i → deadline i.1 = Some d →
  (∃ at_, _timeout q = Some (Some at_) ∧ at_ ≤ Z.max (d + 999) t) ∧
  (∀ now, d ≤ now →
     let q' := check_timeouts (Some now) q in
     _requests q' !! request_id i.1 = None ∧
     ∃ new, replies q' = replies q ++ new ∧ (i, timed_out) ∈ new).
Proof.
  intros Hr Hi Hd. destruct (reachable_ok _ _ Hr) as [[Hs Hm Hn] Ht]. specialize (Hn _ _ _ Hi Hd). split.
  - destruct (_req_expiries q) as [|[e id] l] eqn:E; [by apply elem_of_nil in Hn|].
    destruct (Ht _ _ _ E) as (at_ & Eat & Hat). exists at_. split; [done|].
    apply StronglySorted_inv in Hs as [_ Hf]. rewrite Forall_forall in Hf.
    apply elem_of_cons in Hn as [[= <- <-]|Hn]; [done|]. specialize (Hf _ Hn). simpl in Hf. lia.
  - intros now Hnow q'. unfold q'. rewrite check_timeouts_run. cbv zeta. cbn [_requests replies].
    destruct (due_entries_spec (Some now) _ Hs) as [_ Hf]. rewrite Forall_forall in Hf.
    assert ((d, request_id i.1) ∈ (due_entries (Some now) (_req_expiries q)).1) as Hdue.
    { rewrite <-(due_entries_app (Some now)), elem_of_app in Hn. destruct Hn as [?|Hn]; [done|].
      specialize (Hf _ Hn). simpl in Hf. apply Z.leb_gt in Hf. lia. }
    assert (request_id i.1 ∈ (due_entries (Some now) (_req_expiries q)).1.*2) as Hid.
    { apply list_elem_of_fmap. by exists (d, request_id i.1). }
    destruct (take_requests_spec (due_entries (Some now) (_req_expiries q)).1.*2 (_requests q)) as [H1 H2].
    split; [rewrite H2; by rewrite decide_True|]. eexists. split; [done|].
    apply list_elem_of_fmap. exists i. split; [done|]. by apply (H1 (request_id i.1)).
Qed.

(** ** The queue as a list of requests *)

(** The requests that wait, in the order in which they are to be sent *)
Definition waiting (q : RequestQueue) : list item := omap (λ id, _requests q !! id) (_queue q).

(** The queue is the list [w], when no id is used twice. *)
Record represents (q : RequestQueue) (w : list item) : Prop := {
  rep_waiting : waiting q = w;
  rep_entries : entries_ok q;
  rep_distinct : NoDup (_queue q);
  rep_queued : ∀ id (i : item), _requests q !! id = Some i → id ∈ _queue q;
  rep_expiring : NoDup (_req_expiries q).*2;
  rep_expires : ∀ d id, (d, id) ∈ _req_expiries q → ∃ i : item, _requests q !! id = Some i ∧ deadline i.1 = Some d;
}.

Definition expires_by (now : Z) (i : item) : bool :=
  match deadline i.1 with Some d => d <=? now | None => false end.

Lemma represents_update now q w : represents q w → represents (update_timeout now q) w.
Proof.
  destruct (update_same now q) as (Eq & Er & Ee & _). intros [H1 H2 H3 H4 H5 H6].
  split; rewrite ?Eq, ?Er, ?Ee; auto using update_entries. unfold waiting. by rewrite Eq, Er.
Qed.

Lemma emplace_fresh i m : m !! request_id i.1 = None → emplace_request i m = <[request_id i.1 := i]> m.
Proof. unfold emplace_request. by intros ->. Qed.

Lemma omap_fresh (i : item) (m : gmap bytes item) (ids : list bytes) :
  request_id i.1 ∉ ids → omap (λ id, <[request_id i.1 := i]> m !! id) ids = omap (λ id, m !! id) ids.
Proof.
  induction ids as [|id ids IH]; [done|]. rewrite not_elem_of_cons. intros [Hne Hin]. cbn [omap list_omap].
  rewrite lookup_insert_ne by done. destruct (m !! id); [f_equal|]; by apply IH.
Qed.

(** A request with a new id joins at one end. *)
Lemma represents_added q w (i : item) (ids : list bytes) w' :
  represents q w → request_id i.1 ∉ _queue q → ids ≡ₚ request_id i.1 :: _queue q →
  omap (λ id, <[request_id i.1 := i]> (_requests q) !! id) ids = w' →
  represents (noted (put_queue ids (put_requests (emplace_request i (_requests q)) q)) i.1) w'.
Proof.
  intros [Hw He Hn Hq Hx Hd] Hfresh Hids Hw'.
  assert (_requests q !! request_id i.1 = None) as Hnone.
  { destruct (_requests q !! request_id i.1) eqn:E; [|done]. by apply Hq in E. }
  assert (∀ d, (d, request_id i.1) ∉ _req_expiries q) as Hnew.
  { intros d Hin. apply Hd in Hin as (j & Hj & _). congruence. }
  pose proof (noted_entries q i.1 i eq_refl He ids) as Hent.
  pose (q1 := noted (put_queue ids (put_requests (emplace_request i (_requests q)) q)) i.1).
  assert (_requests q1 = <[request_id i.1 := i]> (_requests q)) as Er.
  { unfold q1, noted. destruct (deadline i.1); simpl; by apply emplace_fresh. }
  assert (_queue q1 = ids) as Eq by (unfold q1, noted; by destruct (deadline i.1)).
  assert (_req_expiries q1 ≡ₚ (match deadline i.1 with Some d => [(d, request_id i.1)] | None => [] end) ++ _req_expiries q) as Ee.
  { unfold q1, noted. destruct (deadline i.1); simpl; [apply emplace_last_perm|done]. }
  fold q1. split; rewrite ?Er, ?Eq, ?Ee.
  - unfold waiting. by rewrite Eq, Er.
  - exact Hent.
  - rewrite Hids. by constructor.
  - intros id j. rewrite lookup_insert_Some, Hids. intros [[<- _]|[_ ?%Hq]]; set_solver.
  - destruct (deadline i.1); simpl; [|done]. constructor; [|done].
    intros (x & E & Hin)%list_elem_of_fmap. destruct x as [d' id']. simpl in E. subst id'. by apply (Hnew d').
  - intros d id. rewrite Ee. intros [Hin|Hin]%elem_of_app.
    + destruct (deadline i.1) as [d'|] eqn:E; [|by apply elem_of_nil in Hin].
      apply list_elem_of_singleton in Hin as [= -> ->]. exists i. by rewrite lookup_insert_eq.
    + destruct (Hd _ _ Hin) as (j & Hj & ?). exists j. rewrite lookup_insert_ne; [done|]. intros <-. congruence.
Qed.

Lemma note_expiry_total now r q :
  deadline_fits r = true → ∃ q', note_expiry now r q = (Ok tt, q').
Proof.
  intros Hr. unfold note_expiry. rewrite run_guard, Hr. destruct (deadline r); [|eauto].
  rewrite run_modify, run_mget. cbn [put_expiries _req_expiries].
  destruct (emplace_last _ _ _) as [|[e id] l] eqn:E; [|case_bool_decide; eauto].
  destruct (_req_expiries q) as [|[e' i'] l']; simpl in E; [done|]. by destruct (e' <=? z).
Qed.

Lemma represents_note now r q q' w :
  represents (noted q r) w → note_expiry now r q = (Ok tt, q') → represents q' w ∧ replies q' = replies q.
Proof.
  intros Hw E. apply note_expiry_run in E as (_ & [->| ->] & _).
  - split; [done|]. unfold noted. by destruct (deadline r).
  - split; [by apply represents_update|]. destruct (update_same now (noted q r)) as (_ & _ & _ & ->).
    unfold noted. by destruct (deadline r).
Qed.

(** Requests that are taken by distinct ids come in the order of the ids. *)
Lemma take_requests_omap ids (m : gmap bytes item) :
  NoDup ids → (take_requests ids m).1 = omap (λ id, m !! id) ids.
Proof.
  intros Hn. revert m; induction Hn as [|id ids Hin Hn IH]; intros m; [done|]. cbn [take_requests omap list_omap].
  destruct (m !! id) as [i|] eqn:E; [|apply IH]. specialize (IH (delete id m)).
  destruct (take_requests ids (delete id m)) as [items m']. simpl in *. f_equal. rewrite IH.
  apply list_omap_ext, Forall_Forall2_diag, Forall_forall. intros id' Hid'. apply lookup_delete_ne. by intros ->.
Qed.

Lemma waiting_elem q w i : represents q w → i ∈ w ↔ _requests q !! request_id i.1 = Some i.
Proof.
  intros [<- [_ Hid _] _ Hq _ _]. unfold waiting. rewrite list_elem_of_omap. split.
  - intros (id & _ & Hi). by rewrite (Hid _ _ Hi).
  - intros Hi. exists (request_id i.1). eauto.
Qed.

Lemma omap_nodup (q : RequestQueue) (ids : list bytes) :
  entries_ok q → NoDup ids → NoDup (omap (λ id, _requests q !! id) ids).
Proof.
  intros [_ Hid _]. induction 1 as [|id ids Hin Hn IH]; cbn [omap list_omap]; [constructor|].
  destruct (_requests q !! id) as [i|] eqn:E; [|done]. constructor; [|done].
  intros (id' & Hin' & E')%list_elem_of_omap. destruct Hin. by rewrite <-(Hid _ _ E), (Hid _ _ E').
Qed.

(** An entry is due exactly when its request is. *)
Lemma due_ids now q w id i :
  represents q w → _requests q !! id = Some i →
  id ∈ (due_entries (Some now) (_req_expiries q)).1.*2 ↔ expires_by now i = true.
Proof.
  intros [_ [Hs _ Hn] _ _ _ Hx] Hi. destruct (due_entries_spec (Some now) _ Hs) as [Hd Hr].
  rewrite Forall_forall in Hd, Hr. pose proof (due_entries_app (Some now) (_req_expiries q)) as Happ.
  rewrite list_elem_of_fmap. unfold expires_by. split.
  - intros ([d id'] & -> & Hin). destruct (Hx d id') as (j & Hj & Ej).
    { rewrite <-Happ. apply elem_of_app. by left. }
    simpl in Hi. rewrite Hi in Hj. injection Hj as ->. rewrite Ej. by specialize (Hd _ Hin).
  - destruct (deadline i.1) as [d|] eqn:E; [|done]. intros Hle. exists (d, id). split; [done|].
    specialize (Hn _ _ _ Hi E). rewrite <-Happ, elem_of_app in Hn. destruct Hn as [?|Hn]; [done|].
    specialize (Hr _ Hn). simpl in Hr. congruence.
Qed.

Lemma represents_checked now q w :
  represents q w →
  represents (check_timeouts (Some now) q) (List.filter (λ i, negb (expires_by now i)) w).
Proof.
  intros Hrep. pose proof Hrep as [Hw He Hn Hq Hx Hd]. pose proof (check_entries (Some now) q He) as He'.
  pose proof (due_ids now q w) as Hdue. rewrite check_timeouts_run in *. cbv zeta in *.
  destruct (take_requests_spec (due_entries (Some now) (_req_expiries q)).1.*2 (_requests q)) as [_ Ht].
  set (ids := (due_entries (Some now) (_req_expiries q)).1.*2) in *.
  pose proof (due_entries_app (Some now) (_req_expiries q)) as Happ.
  split; cbn [_queue _requests _req_expiries]; [|done|done|..].
  - unfold waiting. cbn [_requests _queue]. subst w. unfold waiting. clear Hn Hq He'.
    induction (_queue q) as [|id l IH]; [done|]. cbn [omap list_omap]. rewrite Ht.
    destruct (_requests q !! id) as [i|] eqn:E; [|case_decide; exact IH].
    specialize (Hdue id i Hrep E). cbn [List.filter]. case_decide as Hid.
    + apply Hdue in Hid. rewrite Hid. exact IH.
    + destruct (expires_by now i); [by destruct Hid; apply Hdue|]. simpl. by f_equal.
  - intros id i. rewrite Ht. case_decide; [done|]. apply Hq.
  - rewrite <-Happ, fmap_app in Hx. by apply NoDup_app in Hx as (_ & _ & ?).
  - intros d id Hin. destruct (Hd d id) as (i & Hi & Hdl); [rewrite <-Happ; apply elem_of_app; by right|].
    exists i. rewrite Ht. split; [|done]. rewrite decide_False; [done|]. intros Hid.
    rewrite <-Happ, fmap_app in Hx. apply NoDup_app in Hx as (_ & Hdis & _). apply (Hdis _ Hid).
    apply list_elem_of_fmap. by exists (d, id).
Qed.

Lemma expired_requests now q w :
  represents q w →
  let expired := (take_requests (due_entries (Some now) (_req_expiries q)).1.*2 (_requests q)).1 in
  expired ≡ₚ List.filter (expires_by now) w ∧ StronglySorted Z.le (omap (λ i : item, deadline i.1) expired).
Proof.
  intros Hrep. pose proof Hrep as [Hw He Hn Hq Hx Hd]. cbv zeta.
  pose proof (due_entries_app (Some now) (_req_expiries q)) as Happ.
  assert (NoDup (due_entries (Some now) (_req_expiries q)).1.*2) as Hnd.
  { rewrite <-Happ, fmap_app in Hx. by apply NoDup_app in Hx as (? & _ & _). }
  rewrite take_requests_omap by done. split.
  - apply NoDup_Permutation; [by apply omap_nodup|..].
    { apply NoDup_ListNoDup, List.NoDup_filter, NoDup_ListNoDup. subst w. by apply omap_nodup. }
    intros i. rewrite list_elem_of_omap, list_elem_of_In, List.filter_In, <-list_elem_of_In, (waiting_elem q w) by done.
    split.
    + intros (id & Hid & Hi). rewrite (ids_match _ He _ _ Hi). split; [done|].
      by apply (due_ids now q w id i Hrep Hi).
    + intros [Hi Hdue]. exists (request_id i.1). split; [|done]. by apply (due_ids now q w _ i Hrep Hi).
  - pose proof (entries_sorted _ He) as Hs. unfold sorted_entries in Hs. rewrite <-Happ in Hs.
    apply StronglySorted_app_1_l in Hs.
    assert (∀ d id, (d, id) ∈ (due_entries (Some now) (_req_expiries q)).1 →
      ∃ i : item, _requests q !! id = Some i ∧ deadline i.1 = Some d) as Hd'.
    { intros d id Hin. apply Hd. rewrite <-Happ. apply elem_of_app. by left. }
    clear -Hs Hd'. assert (∀ l : list (Z * bytes), (∀ d id, (d, id) ∈ l → ∃ i : item, _requests q !! id = Some i ∧ deadline i.1 = Some d) →
      omap (λ i : item, deadline i.1) (omap (λ id, _requests q !! id) l.*2) = l.*1) as Hl.
    { clear. induction l as [|[d id] l IH]; intros Hl; [done|]. cbn [fmap list_fmap omap list_omap].
      destruct (Hl d id) as (i & Hi & E); [by left|]. cbn [snd fst]. rewrite Hi. cbn [omap list_omap]. rewrite E.
      f_equal. apply IH. intros d' id' Hin. apply Hl. by right. }
    rewrite Hl by done. clear -Hs. induction Hs as [|x l Hs IH Hf]; [constructor|]. cbn. constructor; [done|].
    by apply Forall_fmap.
Qed.

Lemma destroy_waiting q w : represents q w → destroy q ≡ₚ ((λ i, (i, cancelled)) <$> w).
Proof.
  intros Hrep. pose proof Hrep as [Hw He Hn _ _ _].
  unfold destroy. assert ((map_to_list (_requests q)).*2 ≡ₚ w) as <-; [|by rewrite <-list_fmap_compose].
  apply NoDup_Permutation; [|subst w; by apply omap_nodup|].
  - apply NoDup_fmap_2_strong; [|apply NoDup_map_to_list]. intros [k1 i1] [k2 i2] H1 H2. simpl. intros ->.
    apply elem_of_map_to_list in H1, H2. by rewrite <-(ids_match _ He _ _ H1), (ids_match _ He _ _ H2).
  - intros i. rewrite (waiting_elem q w) by done. rewrite list_elem_of_fmap. split.
    + intros ([k j] & -> & Hin%elem_of_map_to_list). simpl. by rewrite (ids_match _ He _ _ Hin).
    + intros Hi. exists (request_id i.1, i). split; [done|]. by apply elem_of_map_to_list.
Qed.

(** C33 (the queue is a list).  As long as no id is used twice, the queue behaves as
    the list of its requests: [add] puts a request at the end and [add_front]
    at the front, [pop_all] returns the whole list and empties the queue, a
    check of the timeouts takes out exactly the requests that have expired and
    runs their callbacks in the order of expiry, no other operation runs a
    callback, and destroying the queue cancels every request that is left. *)
Theorem queue_refines_list (q : RequestQueue) (w : list item) (now : Z) :
  represents q w →
  (∀ r c, request_id r ∉ _queue q → deadline_fits r = true →
     ∃ q', add now r c q = (Ok tt, q') ∧ represents q' (w ++ [(r, c)]) ∧ replies q' = replies q) ∧
  (∀ i, request_id i.1 ∉ _queue q → deadline_fits i.1 = true →
     ∃ q', add_front now i q = (Ok tt, q') ∧ represents q' (i :: w) ∧ replies q' = replies q) ∧
  (∃ q', pop_all now q = (Ok w, q') ∧ represents q' [] ∧ replies q' = replies q) ∧
  (∃ expired, let q' := check_timeouts (Some now) q in
     represents q' (List.filter (λ i, negb (expires_by now i)) w) ∧
     replies q' = replies q ++ ((λ i, (i, timed_out)) <$> expired) ∧
     expired ≡ₚ List.filter (expires_by now) w ∧
     StronglySorted Z.le (omap (λ i : item, deadline i.1) expired)) ∧
  (is_empty q = true ↔ w = []) ∧
  destroy q ≡ₚ ((λ i, (i, cancelled)) <$> w).
Proof.
  intros Hrep. pose proof Hrep as [Hw He Hn Hq Hx Hd].
  assert (∀ i : item, request_id i.1 ∉ _queue q →
    omap (λ id, <[request_id i.1 := i]> (_requests q) !! id) (_queue q) = w) as Hfresh.
  { intros i Hi. by rewrite omap_fresh. }
  split_and!.
  - intros r c Hr Hfit. destruct (note_expiry_total now r (put_queue (_queue q ++ [request_id r])
      (put_requests (emplace_request (r, c) (_requests q)) q)) Hfit) as [q' E]. exists q'. split; [exact E|].
    eapply represents_note in E; [exact E|]. apply (represents_added q w (r, c)); [done..| |].
    + by rewrite Permutation_app_comm.
    + rewrite omap_app, Hfresh by done. f_equal. cbn [omap list_omap]. by rewrite lookup_insert_eq.
  - intros i Hi Hfit. destruct (note_expiry_total now i.1 (put_queue (request_id i.1 :: _queue q)
      (put_requests (emplace_request i (_requests q)) q)) Hfit) as [q' E]. exists q'. split; [exact E|].
    eapply represents_note in E; [exact E|]. apply (represents_added q w i); [done..|].
    cbn [omap list_omap]. rewrite lookup_insert_eq. by rewrite Hfresh.
  - unfold pop_all. rewrite run_mget. pose proof (take_requests_omap (_queue q) (_requests q) Hn) as Ht.
    destruct (take_requests _ _) as [items m]. rewrite !run_modify. simpl in Ht. subst items w. eexists. split; [done|].
    destruct (update_same now (put_expiries [] (put_requests ∅ (put_queue [] q)))) as (_ & _ & _ & ->).
    split; [|done]. apply represents_update.
    split; [done|split; [constructor|done|done]|constructor|done|constructor|by intros d id ?%elem_of_nil].
  - destruct (expired_requests now q w Hrep) as [Hp Hs]. eexists. cbv zeta.
    split; [by apply represents_checked|]. split; [by rewrite check_timeouts_run|done].
  - unfold is_empty. rewrite bool_decide_eq_true. split.
    + intros E. rewrite <-Hw. unfold waiting. rewrite E. clear.
      induction (_queue q) as [|id l IH]; [done|]. cbn [omap list_omap]. by rewrite lookup_empty.
    + intros ->. apply map_empty. intros id. destruct (_requests q !! id) as [i|] eqn:E; [|done].
      pose proof (ids_match _ He _ _ E) as Hid. rewrite <-Hid in E.
      by apply (waiting_elem q [] i Hrep), elem_of_nil in E.
  - by apply destroy_waiting.
Qed.
End queue.

(** ** Examples *)

Definition sample_request (id : bytes) (timeout : option Z) : @Request () := mkRequest id timeout 0 tt.

(** One request without a timeout, one that expires after 2 and one that expires after 1 ms *)
Definition sample_queue : @RequestQueue () nat :=
  state_after (add 0 (sample_request "A" None) 1%nat;; add 10 (sample_request "B" (Some 2)) 2%nat;;
               add_front 20 (sample_request "C" (Some 1), 3%nat)) make.

Lemma make_represents {D C} : represents (make : @RequestQueue D C) [].
Proof. by split; [done|split; [constructor|done|done]|constructor|done|constructor|intros d id ?%elem_of_nil]. Qed.

Lemma calls_end {D C} t (q q' : @RequestQueue D C) : q = q' → calls t q t q'.
Proof. intros ->. constructor. Qed.

Lemma sample_reachable : reachable 20 sample_queue.
Proof.
  eapply reach_calls; [apply (reach_make 0)|].
  eapply (calls_more 0 _ 0 (CAdd (sample_request "A" None) 1%nat)); [lia|reflexivity|].
  eapply (calls_more 0 _ 10 (CAdd (sample_request "B" (Some 2)) 2%nat)); [lia|reflexivity|].
  eapply (calls_more 10 _ 20 (CAddFront (sample_request "C" (Some 1), 3%nat))); [lia|reflexivity|].
  apply calls_end. vm_compute. reflexivity.
Qed.

Lemma sample_waits : _requests sample_queue !! "C" = Some (sample_request "C" (Some 1), 3%nat).
Proof. vm_compute. reflexivity. Qed.

Lemma deadline_kept_witness :
  (∃ at_, _timeout sample_queue = Some (Some at_) ∧ at_ ≤ 1000999) ∧
  _requests (check_timeouts (Some 1000000) sample_queue) !! "C" = None.
Proof.
  destruct (deadline_kept 20 sample_queue (sample_request "C" (Some 1), 3%nat) 1000000
    sample_reachable sample_waits eq_refl) as [Hat Hc].
  exact (conj Hat (proj1 (Hc 1000000 (Z.le_refl _)))).
Defined.

Definition queue_of_one : @RequestQueue () nat := state_after (add 0 (sample_request "A" (Some 5)) 1%nat) make.
Lemma queue_of_one_represents : represents queue_of_one [(sample_request "A" (Some 5), 1%nat)].
Proof.
  destruct (note_expiry_total 0 (sample_request "A" (Some 5)) (put_queue ["A"]
    (put_requests (emplace_request (sample_request "A" (Some 5), 1%nat) ∅) make)) eq_refl) as [q' E].
  assert (q' = queue_of_one) as -> by (vm_compute in E; vm_compute; congruence).
  eapply represents_note in E as [E _]; [exact E|].
  apply (represents_added make [] (sample_request "A" (Some 5), 1%nat) ["A"]); [apply make_represents|..].
  - apply not_elem_of_nil.
  - done.
  - done.
Qed.

Lemma queue_refines_list_witness :
  ∃ q', add 7 (sample_request "B" None) 2%nat queue_of_one = (Ok tt, q') ∧
    waiting q' = [(sample_request "A" (Some 5), 1%nat); (sample_request "B" None, 2%nat)].
Proof.
  destruct (queue_refines_list queue_of_one _ 7 queue_of_one_represents) as (Hadd & _).
  destruct (Hadd (sample_request "B" None) 2%nat) as (q' & E & Hr & _).
  - apply (bool_decide_unpack _). vm_compute. exact I.
  - reflexivity.
  - exists q'. split; [exact E|]. exact (rep_waiting _ _ Hr).
Defined.

(** A second request with the id of one that waits is dropped with its callback. *)
Example same_id_dropped :
  outcome_of (add 0 (sample_request "A" None) 1%nat;; add 0 (sample_request "A" None) 2%nat;; pop_all 0) make =
    Ok [(sample_request "A" None, 1%nat)].
Proof. reflexivity. Qed.
