(* ===== verification/Attachment.v ===== *)
(** * Encryption of attachments

    [src/attachments.cpp]: an attachment is prefixed with padding that hides its
    size, cut into chunks of 32 kiB and encrypted as a libsodium secret stream
    under a key made from the sender's seed and the data.  It can be encrypted
    from memory or from a file, to memory or to a file, and decrypted in one go
    or by a [Decryptor] that is fed pieces of any size.

    Buffers and files are byte strings.  A write past the end of a buffer is
    undefined; files can be opened, do not change while they are read, and
    writing them does not fail. *)

From Stdlib Require Import ZArith String Ascii Lia.
From stdpp Require Import base option list strings numbers.
From S2P Require Import Prelude Crypto State.

(** ** libsodium's secret streams *)

(** [crypto_secretstream_xchacha20poly1305_state] *)
Record stream_state := mkStream { st_k : bytes; st_nonce : bytes; st_pad : bytes }.

Class SecretStream := {
  hchacha20 : bytes → bytes → bytes;                                   (* input, key *)
  stream_push : stream_state → bytes → Z → bytes * stream_state;       (* message, tag *)
  stream_pull : stream_state → bytes → option (bytes * Z * stream_state);
  init_pull : bytes → bytes → stream_state;                            (* header, key *)
}.

Definition TAG_FINAL : Z := 3.
Definition ENCRYPT_HEADER : Z := 24.
Definition ENCRYPT_CHUNK_SIZE : Z := 32768.
Definition ENCRYPT_CHUNK_OVERHEAD : Z := 17.
Definition ENCRYPTED_CHUNK_TOTAL : Z := ENCRYPT_CHUNK_SIZE + ENCRYPT_CHUNK_OVERHEAD.
Definition ENCRYPT_KEY_SIZE : Z := 32.
Definition MAX_REGULAR_SIZE : Z := 10218286.

(** What the documentation and the published implementation promise: pulling
    undoes pushing and moves to the same state, and the state of a new stream *)
Class SecretStreamLaws `{SecretStream} := {
  stream_roundtrip : ∀ st m t, 0 ≤ t < 256 →
    stream_pull st (stream_push st m t).1 = Some (m, t, (stream_push st m t).2);
  stream_size : ∀ st m t, size (stream_push st m t).1 = size m + ENCRYPT_CHUNK_OVERHEAD;
  pull_size : ∀ st c m t st', stream_pull st c = Some (m, t, st') → size c = size m + ENCRYPT_CHUNK_OVERHEAD;
  init_pull_form : ∀ header key, size header = ENCRYPT_HEADER →
    init_pull header key =
      mkStream (hchacha20 (stake 16 header) key) (String "001" (zeros 3) +:+ sdrop 16 header) (zeros 8);
}.

(** The first bytes and the others, for a size *)
Definition sfirst (n : Z) (s : bytes) : bytes := stake (Z.to_nat n) s.
Definition safter (n : Z) (s : bytes) : bytes := sdrop (Z.to_nat n) s.

(** ** Sizes *)

(** [std::bit_floor] *)
Definition bit_floor (x : Z) : Z := if x =? 0 then 0 else 2 ^ Z.log2 x.

Definition encrypted_padding (data_size : Z) : Z :=
  let prefix_size := 1 + ENCRYPT_HEADER in
  let min_padding := 1 in
  let stream_chunks := wrap64 (data_size + ENCRYPT_CHUNK_SIZE - 1) / ENCRYPT_CHUNK_SIZE in
  let enc_size := wrap64 (data_size + prefix_size + min_padding + stream_chunks * ENCRYPT_CHUNK_OVERHEAD) in
  let pad_factor := Z.shiftr (bit_floor (Z.max enc_size 131072)) 5 in
  let padded_size := wrap64 (wrap64 (enc_size + pad_factor - 1) / pad_factor * pad_factor) in
  let padding := wrap64 (padded_size - enc_size + min_padding) in
  let implicit_padding :=
    if ENCRYPTED_CHUNK_TOTAL <=? padding
    then wrap64 (padding / ENCRYPTED_CHUNK_TOTAL * ENCRYPT_CHUNK_OVERHEAD) else 0 in
  let free_padding := wrap64 (stream_chunks * ENCRYPT_CHUNK_SIZE - data_size) in
  let implicit_padding :=
    if free_padding <? padding mod ENCRYPTED_CHUNK_TOTAL
    then wrap64 (implicit_padding + ENCRYPT_CHUNK_OVERHEAD) else implicit_padding in
  wrap64 (padding - implicit_padding).

Definition encrypted_size (plaintext_size : Z) : Z :=
  let padding := encrypted_padding plaintext_size in
  let padded_size := wrap64 (plaintext_size + padding) in
  let tags_size :=
    wrap64 (wrap64 (padded_size + ENCRYPT_CHUNK_SIZE - 1) / ENCRYPT_CHUNK_SIZE * ENCRYPT_CHUNK_OVERHEAD) in
  wrap64 (1 + ENCRYPT_HEADER + plaintext_size + padding + tags_size).

Definition decrypted_max_size (encrypted_size : Z) : option Z :=
  let sz := wrap64 (encrypted_size - 1 - 1 - ENCRYPT_HEADER) in
  let overhead :=
    wrap64 (wrap64 (sz + ENCRYPTED_CHUNK_TOTAL - 1) / ENCRYPTED_CHUNK_TOTAL * ENCRYPT_CHUNK_OVERHEAD) in
  let sz := wrap64 (sz - overhead) in
  if encrypted_size <? sz then None else Some sz.

Section attachment.
Context `{Hash, SecretStream}.

(** ** Encrypting *)

(** [secretstream_xchacha20poly1305_init_push_with_nonce]: the state; the
    header it writes is the nonce *)
Definition init_push_with_nonce (key nonce : bytes) : stream_state :=
  mkStream (hchacha20 (stake 16 nonce) key) (String "001" (zeros 3) +:+ sfirst 8 (sdrop 16 nonce)) (zeros 8).

(** Pushes a chunk and writes the result after [out], in a buffer of a size *)
Definition push_to (out_size : Z) (st : stream_state) (out chunk : bytes) (tag : Z) : result (stream_state * bytes) :=
  let '(c, st) := stream_push st chunk tag in
  _ ← require (size out + size c <=? out_size) undefined_behaviour;
  Ok (st, out +:+ c).

Section impl.
(** [get_chunk]: the bytes, whether there are more, and the new position *)
Context {R : Type} (get_chunk : R → Z → result (bytes * bool * R)) (out_size : Z).

(** The loop over the padding; the flag is [done] *)
Fixpoint push_padding (fuel : nat) (st : stream_state) (out : bytes) (padding_remaining : Z) (rd : R)
    : result (stream_state * bytes * bool * R) :=
  match fuel with
  | O => Throw out_of_fuel
  | S fuel =>
      if padding_remaining =? 0 then Ok (st, out, false, rd)
      else if ENCRYPT_CHUNK_SIZE <? padding_remaining then
        '(st, out) ← push_to out_size st out (zeros (Z.to_nat ENCRYPT_CHUNK_SIZE)) 0;
        push_padding fuel st out (padding_remaining - ENCRYPT_CHUNK_SIZE) rd
      else
        '(chunk, more, rd) ← get_chunk rd (ENCRYPT_CHUNK_SIZE - padding_remaining);
        let buf := zeros (Z.to_nat (padding_remaining - 1)) +:+ String "001" chunk in
        '(st, out) ← push_to out_size st out buf (if (more : bool) then 0 else TAG_FINAL);
        Ok (st, out, negb more, rd)
  end.

(** The loop over the rest of the data *)
Fixpoint push_data (fuel : nat) (st : stream_state) (out : bytes) (rd : R) : result bytes :=
  match fuel with
  | O => Throw out_of_fuel
  | S fuel =>
      '(chunk, more, rd) ← get_chunk rd ENCRYPT_CHUNK_SIZE;
      '(st, out) ← push_to out_size st out chunk (if (more : bool) then 0 else TAG_FINAL);
      if (more : bool) then push_data fuel st out rd else Ok out
  end.

(** [encrypt_impl]: what it writes to the buffer *)
Definition encrypt_impl (data_size : Z) (nonce_key : bytes) (rd : R) : result bytes :=
  let padding := encrypted_padding data_size in
  let nonce := sfirst ENCRYPT_HEADER nonce_key in
  let key := safter ENCRYPT_HEADER nonce_key in
  let out := String "S" nonce in
  _ ← require (size out <=? out_size) undefined_behaviour;
  let st := init_push_with_nonce key nonce in
  '(st, out, done, rd) ← push_padding (Z.to_nat (padding / ENCRYPT_CHUNK_SIZE) + 2) st out padding rd;
  if (done : bool) then Ok out
  else push_data (Z.to_nat (data_size / ENCRYPT_CHUNK_SIZE) + 1) st out rd.
End impl.

(** A reader of a buffer: the position is what is left *)
Definition read_buffer (inpos : bytes) (n : Z) : result (bytes * bool * bytes) :=
  let rest := safter n inpos in Ok (sfirst n inpos, negb (size rest =? 0), rest).

(** A reader of a file: [tellg], [read] and [peek] at a position *)
Definition read_file (content : bytes) (consumed n : Z) : result (bytes * bool * Z) :=
  let in_size := size content in
  let n := if in_size <? consumed + n then in_size - consumed else n in
  let data := if 0 <? n then sfirst n (safter consumed content) else "" in
  Ok (data, negb (in_size <=? consumed + n), consumed + n).

(** The result of a hash that was fed these parts one after the other *)
Definition hash_parts (len : Z) (key : bytes) (parts : list bytes) : bytes :=
  generichash len key (foldr String.append "" parts).

Definition domain_byte (domain : Z) : bytes := String (ascii_of_N (Z.to_N (domain mod 256))) "".

(** [encrypt_buffer_init]: nonce and key *)
Definition encrypt_buffer_init (seed data : bytes) (domain : Z) (allow_large : bool) : result bytes :=
  _ ← require (negb (size seed <? 32)) invalid_argument;
  _ ← require (negb ((MAX_REGULAR_SIZE <? size data) && negb allow_large)) invalid_argument;
  Ok (hash_parts (ENCRYPT_HEADER + ENCRYPT_KEY_SIZE) (domain_byte domain) [sfirst 32 seed; data]).

Definition key_of (nonce_key : bytes) : bytes := sfirst ENCRYPT_KEY_SIZE (safter ENCRYPT_HEADER nonce_key).

(** [encrypt] to a buffer of a size: what is written and the key *)
Definition encrypt_to_span (seed data : bytes) (domain out_size : Z) (allow_large : bool) : result (bytes * bytes) :=
  nonce_key ← encrypt_buffer_init seed data domain allow_large;
  out ← encrypt_impl read_buffer out_size (size data) nonce_key data;
  Ok (out, key_of nonce_key).

(** [encrypt] to a vector, which is zero where nothing is written *)
Definition fill (out_size : Z) (written : bytes) : bytes := written +:+ zeros (Z.to_nat (out_size - size written)).
Definition encrypt_to_vector (seed data : bytes) (domain : Z) (allow_large : bool) : result (bytes * bytes) :=
  _ ← require (negb (size seed <? 32)) invalid_argument;
  _ ← require (negb ((MAX_REGULAR_SIZE <? size data) && negb allow_large)) invalid_argument;
  let out_size := encrypted_size (size data) in
  '(out, key) ← encrypt_to_span seed data domain out_size allow_large;
  Ok (fill out_size out, key).

(** The pieces in which [in.read] gets a file: 4096 bytes, the last one less *)
Fixpoint pieces (fuel : nat) (n : nat) (s : bytes) : list bytes :=
  match fuel with
  | O => []
  | S fuel => if (String.length s =? 0)%nat then [] else stake n s :: pieces fuel n (sdrop n s)
  end.
Definition read_pieces (content : bytes) : list bytes :=
  pieces (Z.to_nat (size content / 4096) + 1) (Z.to_nat 4096) content.

(** [encrypt] of a file to the buffer that [make_buffer] returns for a size,
    which is zero at first *)
Definition encrypt_file (seed content : bytes) (domain : Z) (make_buffer : Z → result Z) (allow_large : bool)
    : result (bytes * bytes) :=
  let enc_size := encrypted_size (size content) in
  (* [seed.data()] is read without a look at its size *)
  _ ← require (32 <=? size seed) undefined_behaviour;
  let nonce_key := hash_parts (ENCRYPT_HEADER + ENCRYPT_KEY_SIZE) (domain_byte domain)
    (sfirst 32 seed :: read_pieces content) in
  out_size ← make_buffer enc_size;
  _ ← require (out_size =? enc_size) logic_error;
  out ← encrypt_impl (read_file content) out_size (size content) nonce_key 0;
  Ok (fill out_size out, key_of nonce_key).

Definition encrypt_file_to_vector (seed content : bytes) (domain : Z) (allow_large : bool) : result (bytes * bytes) :=
  encrypt_file seed content domain Ok allow_large.

(** [encrypt] to a file: the same loops over a pointer into the data *)
Definition push_file (st : stream_state) (out chunk inpos : bytes) : stream_state * bytes :=
  let '(c, st) := stream_push st chunk (if negb (size inpos =? 0) then 0 else TAG_FINAL) in (st, out +:+ c).

Fixpoint pad_file (fuel : nat) (st : stream_state) (out : bytes) (padding_remaining : Z) (data_size : Z) (inpos : bytes)
    : result (stream_state * bytes * bytes) :=
  match fuel with
  | O => Throw out_of_fuel
  | S fuel =>
      if padding_remaining =? 0 then Ok (st, out, inpos)
      else if ENCRYPT_CHUNK_SIZE <? padding_remaining then
        let '(st, out) := push_file st out (zeros (Z.to_nat ENCRYPT_CHUNK_SIZE)) inpos in
        pad_file fuel st out (padding_remaining - ENCRYPT_CHUNK_SIZE) data_size inpos
      else
        let first_data := Z.min (ENCRYPT_CHUNK_SIZE - padding_remaining) data_size in
        let buf := zeros (Z.to_nat (padding_remaining - 1)) +:+ String "001" (sfirst first_data inpos) in
        let inpos := safter first_data inpos in
        let '(st, out) := push_file st out buf inpos in
        Ok (st, out, inpos)
  end.

Fixpoint data_file (fuel : nat) (st : stream_state) (out : bytes) (inpos : bytes) : result bytes :=
  match fuel with
  | O => Throw out_of_fuel
  | S fuel =>
      if size inpos =? 0 then Ok out
      else
        let chunk := sfirst ENCRYPT_CHUNK_SIZE inpos in
        let inpos := safter ENCRYPT_CHUNK_SIZE inpos in
        let '(st, out) := push_file st out chunk inpos in
        data_file fuel st out inpos
  end.

Definition encrypt_to_file (seed data : bytes) (domain : Z) (allow_large : bool) : result (bytes * bytes) :=
  nonce_key ← encrypt_buffer_init seed data domain allow_large;
  let padding := encrypted_padding (size data) in
  let nonce := sfirst ENCRYPT_HEADER nonce_key in
  let st := init_push_with_nonce (safter ENCRYPT_HEADER nonce_key) nonce in
  '(st, out, inpos) ← pad_file (Z.to_nat (padding / ENCRYPT_CHUNK_SIZE) + 2) st (String "S" nonce) padding (size data) data;
  out ← data_file (Z.to_nat (size data / ENCRYPT_CHUNK_SIZE) + 2) st out inpos;
  Ok (out, key_of nonce_key).

(** ** Decrypting in one go *)

(** [std::find_if_not] for zero bytes: the byte found and what follows it *)
Fixpoint find_nonzero (s : bytes) : option (ascii * bytes) :=
  match s with
  | "" => None
  | String c s => if (c =? "000")%char then find_nonzero s else Some (c, s)
  end.

(** One chunk from the front of the input *)
Definition pull_chunk (st : stream_state) (input : bytes) : result (bytes * Z * stream_state * bytes) :=
  let chunk_size := Z.min (size input - ENCRYPT_CHUNK_OVERHEAD) ENCRYPT_CHUNK_SIZE in
  match stream_pull st (sfirst (chunk_size + ENCRYPT_CHUNK_OVERHEAD) input) with
  | Some (m, tag, st) => Ok (m, tag, st, safter (chunk_size + ENCRYPT_CHUNK_OVERHEAD) input)
  | None => Throw runtime_error
  end.

(** The checks on the tag of a chunk: is it the last one? *)
Definition check_final (tag : Z) (input : bytes) : result bool :=
  if tag =? TAG_FINAL then _ ← require (size input =? 0) runtime_error; Ok true
  else _ ← require (negb (size input =? 0)) runtime_error; Ok false.

(** Writes after [out] in a buffer of a size *)
Definition write_to (out_size : Z) (out data : bytes) : result bytes :=
  _ ← require (size out + size data <=? out_size) undefined_behaviour;
  Ok (out +:+ data).

Fixpoint pull_padding (fuel : nat) (out_size : Z) (st : stream_state) (input : bytes)
    : result (stream_state * bytes * bytes * bool) :=
  match fuel with
  | O => Throw out_of_fuel
  | S fuel =>
      _ ← require (negb (size input <=? ENCRYPT_CHUNK_OVERHEAD)) runtime_error;
      '(padbuf, tag, st, input) ← pull_chunk st input;
      match find_nonzero padbuf with
      | None => pull_padding fuel out_size st input
      | Some (c, init_data) =>
          _ ← require (c =? "001")%char runtime_error;
          out ← write_to out_size "" init_data;
          done ← check_final tag input;
          Ok (st, input, out, done)
      end
  end.

Fixpoint pull_data (fuel : nat) (out_size : Z) (st : stream_state) (input out : bytes) : result bytes :=
  match fuel with
  | O => Throw out_of_fuel
  | S fuel =>
      _ ← require (negb (size input <=? ENCRYPT_CHUNK_OVERHEAD)) runtime_error;
      '(data, tag, st, input) ← pull_chunk st input;
      out ← write_to out_size out data;
      done ← check_final tag input;
      if (done : bool) then Ok out else pull_data fuel out_size st input out
  end.

Definition front_is_S (encrypted : bytes) : result bool :=
  match encrypted with "" => Throw undefined_behaviour | String c _ => Ok (c =? "S")%char end.

(** [decrypt] to a buffer of a size: the bytes it writes *)
Definition decrypt_to_span (encrypted key : bytes) (out_size : Z) : result bytes :=
  max_size ← from_option_or runtime_error (decrypted_max_size (size encrypted));
  ok ← front_is_S encrypted;
  _ ← require ok runtime_error;
  _ ← require (negb (out_size <? max_size)) logic_error;
  let st := init_pull (sfirst ENCRYPT_HEADER (safter 1 encrypted)) key in
  let input := safter (1 + ENCRYPT_HEADER) encrypted in
  let fuel := (Z.to_nat (size encrypted / ENCRYPTED_CHUNK_TOTAL) + 2)%nat in
  '(st, input, out, done) ← pull_padding fuel out_size st input;
  if (done : bool) then Ok out else pull_data fuel out_size st input out.

(** [decrypt] to a vector *)
Definition decrypt (encrypted key : bytes) : result bytes :=
  max_size ← from_option_or runtime_error (decrypted_max_size (size encrypted));
  ok ← front_is_S encrypted;
  _ ← require ok runtime_error;
  decrypt_to_span encrypted key max_size.

(** ** Decrypting a stream *)

(** [st_data] is not initialised at first.  [written] is what the [output]
    callback has been given; with a [limit] the callback throws when it is
    given more. *)
Record Decryptor := mkDecryptor {
  limit : option Z;
  written : bytes;
  buf : bytes;
  header : bool;
  depadded : bool;
  failed : bool;
  finished : bool;
  hit_final : bool;
  dkey : bytes;
  st_data : option stream_state;
}.

Definition new_decryptor (key : bytes) (limit : option Z) : Decryptor :=
  mkDecryptor limit "" "" false false false false false key None.

Definition put_written v (d : Decryptor) : Decryptor :=
  mkDecryptor (limit d) v (buf d) (header d) (depadded d) (failed d) (finished d) (hit_final d) (dkey d) (st_data d).
Definition put_buf v (d : Decryptor) : Decryptor :=
  mkDecryptor (limit d) (written d) v (header d) (depadded d) (failed d) (finished d) (hit_final d) (dkey d) (st_data d).
Definition put_header v (d : Decryptor) : Decryptor :=
  mkDecryptor (limit d) (written d) (buf d) v (depadded d) (failed d) (finished d) (hit_final d) (dkey d) (st_data d).
Definition put_depadded v (d : Decryptor) : Decryptor :=
  mkDecryptor (limit d) (written d) (buf d) (header d) v (failed d) (finished d) (hit_final d) (dkey d) (st_data d).
Definition put_failed v (d : Decryptor) : Decryptor :=
  mkDecryptor (limit d) (written d) (buf d) (header d) (depadded d) v (finished d) (hit_final d) (dkey d) (st_data d).
Definition put_hit_final v (d : Decryptor) : Decryptor :=
  mkDecryptor (limit d) (written d) (buf d) (header d) (depadded d) (failed d) (finished d) v (dkey d) (st_data d).
Definition put_st_data v (d : Decryptor) : Decryptor :=
  mkDecryptor (limit d) (written d) (buf d) (header d) (depadded d) (failed d) (finished d) (hit_final d) (dkey d) v.

Definition output (data : bytes) : M Decryptor () :=
  d ← mget;
  guard_ (match limit d with Some n => size (written d) + size data <=? n | None => true end) runtime_error;;
  modify (put_written (written d +:+ data)).

Definition process_header (hdr : bytes) : M Decryptor () :=
  ok ← lift (front_is_S hdr);
  if negb ok then modify (put_failed true)
  else
    d ← mget;
    modify (put_st_data (Some (init_pull (safter 1 hdr) (dkey d))));;
    modify (put_header true).

Definition process_chunk (chunk : bytes) : M Decryptor () :=
  d ← mget;
  if hit_final d then modify (put_failed true)
  else if size chunk <? ENCRYPT_CHUNK_OVERHEAD then modify (put_failed true)
  else
    match st_data d with
    | None => throw undefined_behaviour
    | Some st =>
        match stream_pull st chunk with
        | None => modify (put_failed true)
        | Some (out, tag, st) =>
            modify (put_st_data (Some st));;
            when (tag =? TAG_FINAL) (modify (put_hit_final true));;
            if negb (depadded d) then
              match find_nonzero out with
              | None => skip
              | Some (c, rest) =>
                  if negb (c =? "001")%char then modify (put_failed true)
                  else modify (put_depadded true);; when (negb (size rest =? 0)) (output rest)
              end
            else output out
        end
    end.

(** The loop over whole chunks: [None] when it failed, else what is left *)
Fixpoint process_chunks (fuel : nat) (enc_data : bytes) : M Decryptor (option bytes) :=
  match fuel with
  | O => throw out_of_fuel
  | S fuel =>
      if ENCRYPTED_CHUNK_TOTAL <=? size enc_data then
        process_chunk (sfirst ENCRYPTED_CHUNK_TOTAL enc_data);;
        d ← mget;
        if failed d then mret None else process_chunks fuel (safter ENCRYPTED_CHUNK_TOTAL enc_data)
      else mret (Some enc_data)
  end.

(** The part of [update] that fills [buf]: [inl] is its early return *)
Definition use_buf (enc_data : bytes) : M Decryptor (bool + bytes) :=
  d ← mget;
  if size (buf d) =? 0 then mret (inr enc_data)
  else
    let target := if header d then ENCRYPTED_CHUNK_TOTAL else 1 + ENCRYPT_HEADER in
    let steal := Z.min (target - size (buf d)) (size enc_data) in
    let filled := buf d +:+ sfirst steal enc_data in
    let enc_data := safter steal enc_data in
    modify (put_buf filled);;
    if negb (size filled =? target) then mret (inl true)
    else
      (if header d then process_chunk filled else process_header filled);;
      modify (put_buf "");;
      d ← mget;
      if failed d then mret (inl false) else mret (inr enc_data).

(** The part that reads the header from the front of the data *)
Definition use_header (enc_data : bytes) : M Decryptor (bool + bytes) :=
  d ← mget;
  if header d then mret (inr enc_data)
  else if 1 + ENCRYPT_HEADER <=? size enc_data then
    process_header (sfirst (1 + ENCRYPT_HEADER) enc_data);;
    d ← mget;
    if failed d then mret (inl false) else mret (inr (safter (1 + ENCRYPT_HEADER) enc_data))
  else
    modify (put_buf enc_data);; mret (inl true).

Definition update (enc_data : bytes) : M Decryptor bool :=
  d ← mget;
  if failed d then mret false else
  guard_ (negb (finished d)) logic_error;;
  r ← use_buf enc_data;
  match r with
  | inl b => mret b
  | inr enc_data =>
      r ← use_header enc_data;
      match r with
      | inl b => mret b
      | inr enc_data =>
          r ← process_chunks (Z.to_nat (size enc_data / ENCRYPTED_CHUNK_TOTAL) + 1) enc_data;
          match r with
          | None => mret false
          | Some rest => when (negb (size rest =? 0)) (modify (put_buf rest));; mret true
          end
      end
  end.

Definition finalize : M Decryptor bool :=
  d ← mget;
  if failed d then mret false else
  when (negb (size (buf d) =? 0)) (process_chunk (buf d);; modify (put_buf ""));;
  d ← mget;
  if failed d then mret false
  else if negb (hit_final d) then modify (put_failed true);; mret false
  else mret true.

(** Feeds pieces, without a look at what [update] returns *)
Fixpoint feed (l : list bytes) : M Decryptor () :=
  match l with [] => skip | s :: l => update s;; feed l end.

(** [decrypt] to a file: the contents of the file *)
Definition decrypt_to_file (encrypted key : bytes) : result bytes :=
  outcome_of (update encrypted;; finalize;; d ← mget; mret (written d)) (new_decryptor key None).

(** [decrypt] of a file to the buffer that [make_buffer] returns for a size *)
Definition decrypt_file (content key : bytes) (make_buffer : Z → result Z) : result bytes :=
  max_size ← from_option_or runtime_error (decrypted_max_size (size content));
  out_size ← make_buffer max_size;
  _ ← require (out_size =? max_size) logic_error;
  outcome_of (feed (read_pieces content);; finalize;; d ← mget; mret (written d)) (new_decryptor key (Some out_size)).

Definition decrypt_file_to_vector (content key : bytes) : result bytes := decrypt_file content key Ok.

(** [decrypt] of a file to a file *)
Definition decrypt_file_to_file (content key : bytes) : result bytes :=
  _ ← from_option_or runtime_error (decrypted_max_size (size content));
  outcome_of (feed (read_pieces content);; finalize;; d ← mget; mret (written d)) (new_decryptor key None).
End attachment.
