(* ===== verification/AttachmentSize.v ===== *)
(** * The sizes of encrypted attachments

    What [encrypted_padding], [encrypted_size] and [decrypted_max_size] of
    [src/attachments.cpp] compute: the padded size is the next multiple of a
    power of two that is about a thirty-second of the size. *)

From Stdlib Require Import ZArith String Ascii Lia.
From stdpp Require Import base option list strings numbers.
From S2P Require Import Prelude Crypto State Attachment.

(** ** The sizes without the wrap-around *)

(** The chunks of the data, its encrypted size with the least padding, the unit
    of the padding and the padded size *)
Definition chunk_count (n : Z) : Z := (n + ENCRYPT_CHUNK_SIZE - 1) / ENCRYPT_CHUNK_SIZE.
Definition raw_size (n : Z) : Z := n + 26 + chunk_count n * ENCRYPT_CHUNK_OVERHEAD.
Definition pad_unit (n : Z) : Z := Z.shiftr (bit_floor (Z.max (raw_size n) 131072)) 5.
Definition padded_size (n : Z) : Z := (raw_size n + pad_unit n - 1) / pad_unit n * pad_unit n.

(** The one padded size that leaves just room for a tag *)
Definition odd_size : Z := 39 * 2 ^ 35.

Ltac unfold_sizes := unfold ENCRYPTED_CHUNK_TOTAL, ENCRYPT_CHUNK_SIZE, ENCRYPT_CHUNK_OVERHEAD, ENCRYPT_HEADER in *.

Lemma chunk_count_spec n :
  0 ≤ n → let f := chunk_count n * ENCRYPT_CHUNK_SIZE - n in 0 ≤ f < ENCRYPT_CHUNK_SIZE ∧ 0 ≤ chunk_count n.
Proof. intros Hn. unfold chunk_count. unfold_sizes. cbv zeta. Z.div_mod_to_equations. lia. Qed.

(** The unit is a power of two, and the raw size at most 64 units. *)
Lemma pad_unit_spec n :
  0 ≤ n ≤ 2 ^ 62 → ∃ j, 12 ≤ j ≤ 57 ∧ pad_unit n = 2 ^ j ∧ raw_size n ≤ 64 * 2 ^ j ∧ 32 * 2 ^ j ≤ Z.max (raw_size n) 131072.
Proof.
  intros Hn. unfold pad_unit. set (x := Z.max (raw_size n) 131072).
  assert (131072 ≤ x < 2 ^ 63) as Hx.
  { destruct (chunk_count_spec n) as [Hf Hc]; [lia|]. unfold x, raw_size. unfold_sizes. lia. }
  destruct (Z.log2_spec x) as [Hlo Hhi]; [lia|].
  assert (17 ≤ Z.log2 x) by (apply (Z.log2_le_mono 131072 x); lia).
  assert (Z.log2 x < 63) by (apply Z.log2_lt_pow2; lia).
  exists (Z.log2 x - 5). unfold bit_floor. destruct (Z.eqb_spec x 0); [lia|].
  rewrite Z.shiftr_div_pow2, <-Z.pow_sub_r by lia.
  assert (2 ^ Z.log2 x = 32 * 2 ^ (Z.log2 x - 5)) as E.
  { change 32 with (2 ^ 5). rewrite <-Z.pow_add_r by lia. f_equal. lia. }
  rewrite Z.pow_succ_r in Hhi by lia. rewrite E in *.
  assert (raw_size n ≤ x) by (unfold x; lia). split_and!; [lia|lia|done|lia|lia].
Qed.

(** Multiples of the units and the size of an encrypted chunk *)
Definition leaves_room (j m : nat) : bool :=
  let s := Z.of_nat m * 2 ^ Z.of_nat j in
  (s =? odd_size) || negb ((26 <=? s mod ENCRYPTED_CHUNK_TOTAL) && (s mod ENCRYPTED_CHUNK_TOTAL <=? 42)).

Lemma rooms : forallb (λ j, forallb (leaves_room j) (seq 0 65)) (seq 12 46) = true.
Proof. vm_compute. reflexivity. Qed.

Lemma padded_spec n :
  0 ≤ n ≤ 2 ^ 62 →
  raw_size n ≤ padded_size n < raw_size n + pad_unit n ∧ padded_size n mod pad_unit n = 0 ∧ 0 < pad_unit n ∧
  pad_unit n ≤ 2 ^ 57 ∧
  (padded_size n = odd_size ∨ ¬ 26 ≤ padded_size n mod ENCRYPTED_CHUNK_TOTAL ≤ 42).
Proof.
  intros Hn. destruct (pad_unit_spec n Hn) as (j & Hj & Hu & Hhi & Hlo).
  assert (0 < 2 ^ j) as Hp by (apply Z.pow_pos_nonneg; lia).
  assert (2 ^ j ≤ 2 ^ 57) as Hp57 by (apply Z.pow_le_mono_r; lia).
  unfold padded_size. rewrite Hu. set (m := (raw_size n + 2 ^ j - 1) / 2 ^ j).
  assert (raw_size n ≤ m * 2 ^ j < raw_size n + 2 ^ j) as Hm.
  { unfold m. pose proof (Z.div_mod (raw_size n + 2 ^ j - 1) (2 ^ j)).
    pose proof (Z.mod_pos_bound (raw_size n + 2 ^ j - 1) (2 ^ j)). lia. }
  assert (0 ≤ raw_size n).
  { destruct (chunk_count_spec n) as [Hf Hc]; [lia|]. unfold raw_size. unfold_sizes. lia. }
  assert (0 ≤ m ≤ 64) as Hm64 by nia.
  split_and!; [lia|lia|by apply Z.mod_mul; lia|done|done|].
  pose proof rooms as Hr. rewrite forallb_forall in Hr. specialize (Hr (Z.to_nat j)).
  rewrite forallb_forall in Hr. specialize (Hr ltac:(apply in_seq; lia) (Z.to_nat m) ltac:(apply in_seq; lia)).
  unfold leaves_room in Hr. rewrite !Z2Nat.id in Hr by lia.
  apply orb_true_iff in Hr as [Hr|Hr]; [left; by apply Z.eqb_eq|right].
  rewrite negb_true_iff, andb_false_iff, !Z.leb_gt in Hr. lia.
Qed.

(** ** The padding *)

(** The numbers of which the padding is made *)
Lemma padding_parts n :
  0 ≤ n ≤ 2 ^ 62 → padded_size n ≠ odd_size →
  let p := padded_size n - raw_size n + 1 in
  let q := p / ENCRYPTED_CHUNK_TOTAL in
  let r := p mod ENCRYPTED_CHUNK_TOTAL in
  let f := chunk_count n * ENCRYPT_CHUNK_SIZE - n in
  1 ≤ p ≤ 2 ^ 57 ∧ 0 ≤ q ∧ 0 ≤ r < ENCRYPTED_CHUNK_TOTAL ∧ p = q * ENCRYPTED_CHUNK_TOTAL + r ∧ (r ≤ f ∨ f + 17 < r).
Proof.
  intros Hn Hodd p q r f. destruct (padded_spec n Hn) as (Hps & _ & Hu & Hu57 & Hroom).
  destruct (chunk_count_spec n) as [Hf Hc]; [lia|]. fold f in Hf.
  assert (p = q * ENCRYPTED_CHUNK_TOTAL + r) as Hp.
  { unfold q, r. rewrite Z.mul_comm. apply Z.div_mod. done. }
  assert (0 ≤ r < ENCRYPTED_CHUNK_TOTAL) as Hr by by apply Z.mod_pos_bound.
  assert (1 ≤ p ≤ 2 ^ 57) as Hp1 by (unfold p; lia).
  assert (0 ≤ q) as Hq by (apply Z.div_pos; [lia|done]).
  split_and!; [lia..|].
  destruct Hroom as [?|Hroom]; [done|]. destruct (Z.le_gt_cases r f); [by left|right].
  destruct (Z.lt_ge_cases (f + 17) r); [done|]. destruct Hroom.
  assert (padded_size n = (chunk_count n + q) * ENCRYPTED_CHUNK_TOTAL + (25 + (r - f))) as ->.
  { unfold p, raw_size, f in *. unfold_sizes. lia. }
  rewrite Z.add_comm, Z.mod_add, Z.mod_small by (unfold_sizes; lia). lia.
Qed.

Lemma encrypted_padding_run n :
  0 ≤ n ≤ 2 ^ 62 → padded_size n ≠ odd_size →
  let p := padded_size n - raw_size n + 1 in
  let q := p / ENCRYPTED_CHUNK_TOTAL in
  let r := p mod ENCRYPTED_CHUNK_TOTAL in
  let f := chunk_count n * ENCRYPT_CHUNK_SIZE - n in
  encrypted_padding n = q * ENCRYPT_CHUNK_SIZE + r - (if f <? r then 17 else 0).
Proof.
  intros Hn Hodd p q r f. destruct (padding_parts n Hn Hodd) as (Hp & Hq & Hr & Epq & Hrf). fold p q r f in Hp, Hq, Hr, Epq, Hrf.
  destruct (padded_spec n Hn) as (Hps & _ & Hu & Hu57 & _). destruct (chunk_count_spec n) as [Hf Hc]; [lia|]. fold f in Hf.
  assert (raw_size n ≤ 2 ^ 62 + 2 ^ 60) as Hraw by (unfold raw_size, f in *; unfold_sizes; lia).
  assert (0 ≤ raw_size n) as Hraw0 by (unfold raw_size, f in *; unfold_sizes; lia).
  unfold encrypted_padding.
  rewrite (wrap64_small (n + ENCRYPT_CHUNK_SIZE - 1)) by (unfold_sizes; lia). fold (chunk_count n).
  replace (n + (1 + ENCRYPT_HEADER) + 1 + chunk_count n * ENCRYPT_CHUNK_OVERHEAD) with (raw_size n)
    by (unfold raw_size; unfold_sizes; lia).
  rewrite (wrap64_small (raw_size n)) by lia. fold (pad_unit n).
  rewrite (wrap64_small (raw_size n + pad_unit n - 1)) by lia. fold (padded_size n).
  rewrite (wrap64_small (padded_size n)) by lia. fold p. rewrite (wrap64_small p) by lia.
  fold q r f. rewrite (wrap64_small f) by (unfold_sizes; lia).
  assert ((if ENCRYPTED_CHUNK_TOTAL <=? p then wrap64 (q * ENCRYPT_CHUNK_OVERHEAD) else 0) = q * ENCRYPT_CHUNK_OVERHEAD) as ->.
  { destruct (Z.leb_spec ENCRYPTED_CHUNK_TOTAL p); [apply wrap64_small; unfold_sizes; lia|].
    unfold q. by rewrite Z.div_small by (unfold_sizes; lia). }
  destruct (Z.ltb_spec f r).
  - rewrite (wrap64_small (q * ENCRYPT_CHUNK_OVERHEAD + ENCRYPT_CHUNK_OVERHEAD)) by (unfold_sizes; lia).
    rewrite wrap64_small; unfold_sizes; lia.
  - rewrite wrap64_small; unfold_sizes; lia.
Qed.

(** ** The encrypted size *)

Lemma chunk_count_unique l k : (k - 1) * ENCRYPT_CHUNK_SIZE < l ≤ k * ENCRYPT_CHUNK_SIZE → chunk_count l = k.
Proof.
  intros Hl. unfold chunk_count. symmetry.
  apply (Z.div_unique_pos _ _ _ (l + ENCRYPT_CHUNK_SIZE - 1 - k * ENCRYPT_CHUNK_SIZE)); unfold_sizes; lia.
Qed.

(** The size of an encrypted stream of this many bytes, with its prefix *)
Definition stream_total (l : Z) : Z := 25 + l + chunk_count l * ENCRYPT_CHUNK_OVERHEAD.

Lemma padding_chunks n :
  0 ≤ n ≤ 2 ^ 62 → padded_size n ≠ odd_size →
  1 ≤ encrypted_padding n ≤ 2 ^ 57 ∧ stream_total (n + encrypted_padding n) = padded_size n.
Proof.
  intros Hn Hodd. rewrite (encrypted_padding_run n Hn Hodd).
  destruct (padding_parts n Hn Hodd) as (Hp & Hq & Hr & Epq & Hrf). cbv zeta in *.
  set (p := padded_size n - raw_size n + 1) in *. set (q := p / ENCRYPTED_CHUNK_TOTAL) in *.
  set (r := p mod ENCRYPTED_CHUNK_TOTAL) in *. set (f := chunk_count n * ENCRYPT_CHUNK_SIZE - n) in *.
  destruct (chunk_count_spec n) as [Hf Hc]; [lia|]. fold f in Hf.
  assert (padded_size n = raw_size n + p - 1) as -> by (unfold p; lia).
  set (k := chunk_count n + q + (if f <? r then 1 else 0)).
  split; [destruct (Z.ltb_spec f r); unfold_sizes; lia|]. unfold stream_total.
  rewrite (chunk_count_unique _ k).
  - unfold raw_size, k. destruct (Z.ltb_spec f r); unfold_sizes; lia.
  - unfold k, f in *. destruct (Z.ltb_spec (chunk_count n * ENCRYPT_CHUNK_SIZE - n) r); unfold_sizes; lia.
Qed.

Lemma encrypted_size_run n :
  0 ≤ n ≤ 2 ^ 62 → 0 ≤ encrypted_padding n ≤ 2 ^ 57 →
  encrypted_size n = stream_total (n + encrypted_padding n).
Proof.
  intros Hn Hp. unfold encrypted_size, stream_total. rewrite (wrap64_small (n + encrypted_padding n)) by lia.
  rewrite (wrap64_small (n + encrypted_padding n + ENCRYPT_CHUNK_SIZE - 1)) by (unfold_sizes; lia).
  fold (chunk_count (n + encrypted_padding n)).
  destruct (chunk_count_spec (n + encrypted_padding n)) as [Hf Hc]; [lia|].
  rewrite (wrap64_small (chunk_count _ * _)) by (unfold_sizes; lia).
  rewrite wrap64_small; unfold_sizes; lia.
Qed.

Lemma decrypted_max_run l : 1 ≤ l ≤ 2 ^ 63 - 2 ^ 60 → decrypted_max_size (stream_total l) = Some (l - 1).
Proof.
  intros Hl. destruct (chunk_count_spec l) as [Hf Hc]; [lia|]. cbv zeta in Hf.
  unfold decrypted_max_size, stream_total. set (k := chunk_count l) in *.
  rewrite (wrap64_small (25 + l + _ - 1 - 1 - _)) by (unfold_sizes; lia).
  rewrite (wrap64_small (25 + l + _ - 1 - 1 - _ + _ - 1)) by (unfold_sizes; lia).
  assert ((25 + l + k * ENCRYPT_CHUNK_OVERHEAD - 1 - 1 - ENCRYPT_HEADER + ENCRYPTED_CHUNK_TOTAL - 1) / ENCRYPTED_CHUNK_TOTAL = k) as ->.
  { symmetry. apply (Z.div_unique_pos _ _ _ (25 + l + k * ENCRYPT_CHUNK_OVERHEAD - 1 - 1 - ENCRYPT_HEADER +
      ENCRYPTED_CHUNK_TOTAL - 1 - k * ENCRYPTED_CHUNK_TOTAL)); unfold_sizes; lia. }
  rewrite (wrap64_small (k * _)) by (unfold_sizes; lia). rewrite wrap64_small by (unfold_sizes; lia).
  destruct (Z.ltb_spec (25 + l + k * ENCRYPT_CHUNK_OVERHEAD)
    (25 + l + k * ENCRYPT_CHUNK_OVERHEAD - 1 - 1 - ENCRYPT_HEADER - k * ENCRYPT_CHUNK_OVERHEAD)); [unfold_sizes; lia|].
  f_equal. unfold_sizes. lia.
Qed.

(** C16 (sizes of attachments).  For every size up to 2^62 bytes (but for those that
    would be padded to 39 * 2^35 bytes, see [padding_underflows]) there is at
    least one byte of padding; the encrypted size is the least multiple of the
    unit that has room for the data, the prefix, a byte of padding and the tags
    of the data, where the unit is 4 kiB or at most a thirty-second of that; and
    the buffer that decryption asks for has room for the data. *)
Theorem attachment_sizes (n : Z) :
  0 ≤ n ≤ 2 ^ 62 → padded_size n ≠ odd_size →
  1 ≤ encrypted_padding n ∧
  encrypted_size n = padded_size n ∧
  padded_size n mod pad_unit n = 0 ∧ raw_size n ≤ padded_size n < raw_size n + pad_unit n ∧
  (pad_unit n = 4096 ∨ 32 * pad_unit n ≤ raw_size n) ∧
  decrypted_max_size (encrypted_size n) = Some (n + encrypted_padding n - 1).
Proof.
  intros Hn Hodd. destruct (padding_chunks n Hn Hodd) as [Hp Ht]. destruct (padded_spec n Hn) as (Hps & Hm & Hu & _ & _).
  rewrite (encrypted_size_run n Hn ltac:(lia)). split_and!; [lia|done|done|lia|lia| |apply decrypted_max_run; lia].
  destruct (pad_unit_spec n Hn) as (j & Hj & Ej & Hhi & Hlo). rewrite Ej.
  destruct (Z.le_gt_cases (32 * 2 ^ j) (raw_size n)); [by right|left].
  assert (2 ^ 12 ≤ 2 ^ j) by (apply Z.pow_le_mono_r; lia). lia.
Qed.

Lemma attachment_sizes_witness :
  encrypted_size 1000000 = 1015808 ∧ decrypted_max_size (encrypted_size 1000000) = Some 1015255.
Proof.
  destruct (attachment_sizes 1000000) as (_ & Hs & _ & _ & _ & Hm); [lia|vm_compute; discriminate|].
  split; [rewrite Hs; vm_compute; reflexivity|rewrite Hm; vm_compute; reflexivity].
Defined.

(** The largest size of which the encryption is not larger than that of 10 MB *)
Example max_regular_size :
  encrypted_size MAX_REGULAR_SIZE = encrypted_size 10000000 ∧
  encrypted_size 10000000 < encrypted_size (MAX_REGULAR_SIZE + 1) ∧ encrypted_padding MAX_REGULAR_SIZE = 1.
Proof. vm_compute. done. Qed.

(** The header's example of a million bytes forgets the 24 bytes of the stream's
    header: it says that 15280 bytes of padding are added. *)
Example padding_of_a_million : encrypted_padding 1000000 = 15256.
Proof. vm_compute. reflexivity. Qed.

(** Where the padding is less than the tag of the chunk that it would spill over
    into, the tag is taken off nonetheless and the padding becomes huge. *)
Lemma padding_underflows :
  padded_size 1339334950912 = odd_size ∧ encrypted_padding 1339334950912 = 2 ^ 64 - 5.
Proof. vm_compute. done. Qed.
