(* ===== verification/AttachmentCodec.v ===== *)
(** * Attachments decrypt to what was encrypted

    The loops of [src/attachments.cpp] that encrypt, whatever they read from and
    write to, produce one and the same stream, and decryption undoes it. *)

From Stdlib Require Import ZArith String Ascii Lia.
From stdpp Require Import base option list strings numbers.
From S2P Require Import Prelude OrderedMap Bt Bencode Crypto Encrypt ConfigParts State Attachment AttachmentSize.

(** ** Parts of byte strings *)
Lemma size_sfirst n s : 0 ≤ n → size (sfirst n s) = Z.min n (size s).
Proof. intros Hn. unfold sfirst. rewrite size_stake. lia. Qed.
Lemma size_safter n s : 0 ≤ n → size (safter n s) = Z.max 0 (size s - n).
Proof. intros Hn. unfold safter. rewrite size_sdrop. lia. Qed.
Lemma sfirst_safter n s : sfirst n s +:+ safter n s = s.
Proof. apply stake_sdrop. Qed.
Lemma sfirst_all n s : size s ≤ n → sfirst n s = s.
Proof. intros Hn. apply stake_all. unfold size in Hn. lia. Qed.
Lemma safter_all n s : size s ≤ n → safter n s = "".
Proof. intros Hn. apply sdrop_all. unfold size in Hn. lia. Qed.
Lemma sfirst_app n a b : size a = n → sfirst n (a +:+ b) = a.
Proof. intros <-. unfold sfirst, size. rewrite Nat2Z.id. apply stake_app. Qed.
Lemma safter_app n a b : size a = n → safter n (a +:+ b) = b.
Proof. intros <-. unfold safter, size. rewrite Nat2Z.id. apply sdrop_app. Qed.
Lemma size_zeros n : size (zeros n) = Z.of_nat n.
Proof. unfold size. f_equal. induction n as [|n IH]; simpl; [done|by rewrite IH]. Qed.
Lemma size_char c s : size (String c s) = 1 + size s.
Proof. unfold size. cbn [String.length]. lia. Qed.
Lemma size_nil s : size s = 0 → s = "".
Proof. destruct s; [done|]. rewrite size_char. pose proof (size_nonneg s). lia. Qed.
Lemma sapp_assoc (a b c : bytes) : (a +:+ b) +:+ c = a +:+ b +:+ c.
Proof. induction a as [|x a IH]; simpl; [done|by rewrite IH]. Qed.

Lemma sfirst_beyond n a b : size a ≤ n → sfirst n (a +:+ b) = a +:+ sfirst (n - size a) b.
Proof.
  intros Hn. unfold sfirst, size in *. replace (Z.to_nat n) with (String.length a + Z.to_nat (n - Z.of_nat (String.length a)))%nat by lia.
  generalize (Z.to_nat (n - Z.of_nat (String.length a))). clear. intros k. induction a as [|x a IH]; [done|].
  cbn [String.length Nat.add String.append stake]. by rewrite IH.
Qed.
Lemma safter_beyond n a b : size a ≤ n → safter n (a +:+ b) = safter (n - size a) b.
Proof.
  intros Hn. unfold safter, size in *. replace (Z.to_nat n) with (String.length a + Z.to_nat (n - Z.of_nat (String.length a)))%nat by lia.
  generalize (Z.to_nat (n - Z.of_nat (String.length a))). clear. intros k. by induction a as [|x a IH].
Qed.
Lemma zeros_split n k : (k ≤ n)%nat → zeros n = zeros k +:+ zeros (n - k).
Proof. revert k; induction n as [|n IH]; intros [|k] Hk; simpl; [done|lia|done|]. by rewrite (IH k) by lia. Qed.

(** A check that passes *)
Lemma bind_require {A} (b : bool) e (f : () → result A) : b = true → (x ← require b e; f x) = f tt.
Proof. by intros ->. Qed.

(** ** Padded data *)

(** Zero bytes, a one and the data *)
Definition pad (p : Z) (s : bytes) : bytes := zeros (Z.to_nat (p - 1)) +:+ String "001" s.

Lemma size_pad p s : 1 ≤ p → size (pad p s) = p + size s.
Proof. intros Hp. unfold pad. rewrite size_app, size_zeros, size_char. lia. Qed.

Lemma pad_long n p s : 0 ≤ n < p → sfirst n (pad p s) = zeros (Z.to_nat n) ∧ safter n (pad p s) = pad (p - n) s.
Proof.
  intros Hn. unfold pad. rewrite (zeros_split _ (Z.to_nat n)), sapp_assoc by lia.
  rewrite sfirst_app, safter_app by (rewrite size_zeros; lia). split; [done|]. do 2 f_equal. lia.
Qed.

Lemma pad_short n p s :
  1 ≤ p ≤ n → sfirst n (pad p s) = pad p (sfirst (n - p) s) ∧ safter n (pad p s) = safter (n - p) s.
Proof.
  intros Hn. unfold pad.
  assert (∀ x, zeros (Z.to_nat (p - 1)) +:+ String "001" x = (zeros (Z.to_nat (p - 1)) +:+ String "001" "") +:+ x) as E.
  { intros x. by rewrite sapp_assoc. }
  assert (size (zeros (Z.to_nat (p - 1)) +:+ String "001" "") = p) as Hz.
  { rewrite size_app, size_zeros, size_char. change (size "") with 0. lia. }
  rewrite (E s), (E (sfirst (n - p) s)), sfirst_beyond, safter_beyond by lia. by rewrite Hz.
Qed.

Lemma find_nonzero_zeros n : find_nonzero (zeros n) = None.
Proof. by induction n. Qed.
Lemma find_nonzero_pad p s : find_nonzero (pad p s) = Some ("001"%char, s).
Proof. unfold pad. by induction (Z.to_nat (p - 1)). Qed.

Section codec.
Context `{HashLaws, SecretStreamLaws}.

(** ** The stream of a plaintext *)

(** All chunks but the last are full, and only the last one has the final tag. *)
Inductive sealed : stream_state → bytes → bytes → Prop :=
  | sealed_last st s :
      size s ≤ ENCRYPT_CHUNK_SIZE → sealed st s (stream_push st s TAG_FINAL).1
  | sealed_more st s c st' e :
      ENCRYPT_CHUNK_SIZE < size s → stream_push st (sfirst ENCRYPT_CHUNK_SIZE s) 0 = (c, st') →
      sealed st' (safter ENCRYPT_CHUNK_SIZE s) e → sealed st s (c +:+ e).

Lemma sealed_exists st s : ∃ e, sealed st s e.
Proof.
  remember (Z.to_nat (size s)) as n eqn:Hn. revert st s Hn.
  induction (lt_wf n) as [n _ IH]. intros st s ->. destruct (Z.le_gt_cases (size s) ENCRYPT_CHUNK_SIZE) as [Hs|Hs].
  - eexists. by apply sealed_last.
  - destruct (stream_push st (sfirst ENCRYPT_CHUNK_SIZE s) 0) as [c st'] eqn:E.
    destruct (IH (Z.to_nat (size (safter ENCRYPT_CHUNK_SIZE s)))) with st' (safter ENCRYPT_CHUNK_SIZE s) as [e He]; [|done|].
    { rewrite size_safter by done. unfold ENCRYPT_CHUNK_SIZE in *. lia. }
    eexists. by eapply sealed_more.
Qed.

Lemma push_size st m t c st' : stream_push st m t = (c, st') → size c = size m + ENCRYPT_CHUNK_OVERHEAD.
Proof. intros E. rewrite <-(stream_size st m t). by rewrite E. Qed.

Lemma chunk_count_more l : ENCRYPT_CHUNK_SIZE < l → chunk_count l = 1 + chunk_count (l - ENCRYPT_CHUNK_SIZE).
Proof.
  intros Hl. destruct (chunk_count_spec (l - ENCRYPT_CHUNK_SIZE)) as [Hf _]; [lia|].
  apply chunk_count_unique. lia.
Qed.
Lemma chunk_count_one l : 1 ≤ l ≤ ENCRYPT_CHUNK_SIZE → chunk_count l = 1.
Proof. intros Hl. apply chunk_count_unique. lia. Qed.

Lemma sealed_size st s e :
  sealed st s e → 1 ≤ size s → size e = size s + chunk_count (size s) * ENCRYPT_CHUNK_OVERHEAD.
Proof.
  induction 1 as [st s Hs|st s c st' e Hs E Hse IH]; intros Hone.
  - rewrite stream_size, chunk_count_one by lia. lia.
  - apply push_size in E. rewrite size_sfirst in E by done. rewrite size_safter in IH by done.
    rewrite size_app, E, chunk_count_more, IH by lia. rewrite Z.max_r by lia. lia.
Qed.

(** ** Encrypting produces it *)
Section readers.
(** A reader and what it has still to read *)
Context {R : Type} (get_chunk : R → Z → result (bytes * bool * R)) (rest : R → bytes → Prop).
Hypothesis get_chunk_reads : ∀ rd s n, rest rd s → 0 ≤ n →
  ∃ rd', get_chunk rd n = Ok (sfirst n s, negb (size (safter n s) =? 0), rd') ∧ rest rd' (safter n s).

Lemma push_to_run out_size st out m t c st' :
  stream_push st m t = (c, st') → size out + size c ≤ out_size →
  push_to out_size st out m t = Ok (st', out +:+ c).
Proof. intros E Hs. unfold push_to. rewrite E. by rewrite (proj2 (Z.leb_le _ _) Hs). Qed.

Lemma push_data_run out_size st s e fuel out rd :
  sealed st s e → rest rd s → 1 ≤ size s → size out + size e ≤ out_size → chunk_count (size s) ≤ Z.of_nat fuel →
  push_data get_chunk out_size fuel st out rd = Ok (out +:+ e).
Proof.
  intros Hse. revert fuel out rd. induction Hse as [st s Hs|st s c st' e Hs E Hse IH]; intros fuel out rd Hr Hone Ho Hf.
  - rewrite chunk_count_one in Hf by lia. destruct fuel as [|fuel]; [lia|]. cbn [push_data].
    destruct (get_chunk_reads rd s ENCRYPT_CHUNK_SIZE Hr) as (rd' & -> & _); [done|]. cbn [mbind result_bind].
    rewrite safter_all, sfirst_all by done. cbn. destruct (stream_push st s TAG_FINAL) as [c st'] eqn:E.
    by rewrite (push_to_run _ _ _ _ _ _ _ E).
  - rewrite chunk_count_more in Hf by done. destruct fuel as [|fuel]; [destruct (chunk_count_spec (size s - ENCRYPT_CHUNK_SIZE)); lia|].
    cbn [push_data]. destruct (get_chunk_reads rd s ENCRYPT_CHUNK_SIZE Hr) as (rd' & -> & Hr'); [done|]. cbn [mbind result_bind].
    pose proof (size_safter ENCRYPT_CHUNK_SIZE s ltac:(done)) as Hsz.
    destruct (Z.eqb_spec (size (safter ENCRYPT_CHUNK_SIZE s)) 0) as [?|_]; [lia|]. cbn [negb].
    rewrite size_app in Ho. pose proof (size_nonneg e). rewrite (push_to_run _ _ _ _ _ _ _ E) by lia. cbn [mbind result_bind].
    rewrite IH; [by rewrite sapp_assoc|done|lia|rewrite size_app; lia|]. rewrite Hsz, Z.max_r by lia. lia.
Qed.

(** After the padding either everything is written, or the rest of the data is left. *)
Lemma push_padding_run out_size st p s e fuel out rd :
  sealed st (pad p s) e → rest rd s → 1 ≤ p → size out + size e ≤ out_size → p / ENCRYPT_CHUNK_SIZE + 1 < Z.of_nat fuel →
  ∃ st' e1 done rd', push_padding get_chunk out_size fuel st out p rd = Ok (st', out +:+ e1, done, rd') ∧
    if (done : bool) then e = e1
    else ∃ s' e2, sealed st' s' e2 ∧ rest rd' s' ∧ 1 ≤ size s' ≤ size s ∧ e = e1 +:+ e2.
Proof.
  revert st p e out. induction fuel as [|fuel IH]; intros st p e out Hse Hr Hp Ho Hf; [assert (0 ≤ p / ENCRYPT_CHUNK_SIZE) by (apply Z.div_pos; [lia|done]); lia|].
  cbn [push_padding]. destruct (Z.eqb_spec p 0); [lia|]. destruct (Z.ltb_spec ENCRYPT_CHUNK_SIZE p) as [Hlong|Hshort].
  - destruct (pad_long ENCRYPT_CHUNK_SIZE p s) as [Ef Ea]; [done|].
    inversion Hse as [? ? Hl|? ? c st' e2 Hl E Hse2]; subst; [rewrite size_pad in Hl by done; pose proof (size_nonneg s); lia|].
    rewrite Ef in E. rewrite Ea in Hse2. rewrite size_app in Ho. pose proof (size_nonneg e2).
    rewrite (push_to_run _ _ _ _ _ _ _ E) by lia. cbn [mbind result_bind].
    destruct (IH st' (p - ENCRYPT_CHUNK_SIZE) e2 (out +:+ c)) as (st'' & e1 & dn & rd' & -> & Hd); [done|done|lia|rewrite size_app; lia| |].
    { replace p with (p - ENCRYPT_CHUNK_SIZE + 1 * ENCRYPT_CHUNK_SIZE) in Hf by lia. rewrite Z.div_add in Hf by done. lia. }
    exists st'', (c +:+ e1), dn, rd'. split; [by rewrite sapp_assoc|].
    destruct dn; [by subst|]. destruct Hd as (s' & e3 & ? & ? & ? & ->). exists s', e3. by rewrite sapp_assoc.
  - destruct (pad_short ENCRYPT_CHUNK_SIZE p s) as [Ef Ea]; [lia|].
    destruct (get_chunk_reads rd s (ENCRYPT_CHUNK_SIZE - p) Hr) as (rd' & -> & Hr'); [lia|]. cbn [mbind result_bind].
    fold (pad p (sfirst (ENCRYPT_CHUNK_SIZE - p) s)). set (s' := safter (ENCRYPT_CHUNK_SIZE - p) s) in *.
    assert (size s' = Z.max 0 (size s - (ENCRYPT_CHUNK_SIZE - p))) as Hs' by (apply size_safter; lia).
    inversion Hse as [? ? Hl|? ? c st' e2 Hl E Hse2]; subst; rewrite size_pad in Hl by done.
    + assert (size s' = 0) as Hz by lia. rewrite Hz. cbn [negb Z.eqb].
      rewrite <-Ef, sfirst_all in * by (rewrite size_pad; lia).
      destruct (stream_push st (pad p s) TAG_FINAL) as [c st'] eqn:E. rewrite (push_to_run _ _ _ _ _ _ _ E) by done.
      cbn [mbind result_bind]. by exists st', c, true, rd'.
    + destruct (Z.eqb_spec (size s') 0); [lia|]. cbn [negb]. rewrite Ef in E. rewrite Ea in Hse2.
      rewrite size_app in Ho. pose proof (size_nonneg e2). rewrite (push_to_run _ _ _ _ _ _ _ E) by lia.
      cbn [mbind result_bind]. exists st', c, false, rd'. split; [done|]. exists s', e2. split_and!; try done; lia.
Qed.

Lemma encrypt_impl_run out_size data nonce_key e rd :
  rest rd data → size nonce_key = 56 → 1 ≤ encrypted_padding (size data) →
  sealed (init_push_with_nonce (safter ENCRYPT_HEADER nonce_key) (sfirst ENCRYPT_HEADER nonce_key))
    (pad (encrypted_padding (size data)) data) e →
  25 + size e ≤ out_size →
  encrypt_impl get_chunk out_size (size data) nonce_key rd = Ok (String "S" (sfirst ENCRYPT_HEADER nonce_key) +:+ e).
Proof.
  intros Hr Hnk Hp Hse Ho. unfold encrypt_impl.
  assert (size (String "S" (sfirst ENCRYPT_HEADER nonce_key)) = 25) as H25.
  { rewrite size_char, size_sfirst, Hnk by done. done. }
  rewrite H25. pose proof (size_nonneg e). rewrite (proj2 (Z.leb_le 25 out_size)) by lia. unfold require at 1. rewrite bind_ret.
  destruct (push_padding_run out_size _ _ data e (Z.to_nat (encrypted_padding (size data) / ENCRYPT_CHUNK_SIZE) + 2)
    (String "S" (sfirst ENCRYPT_HEADER nonce_key)) rd Hse Hr Hp) as (st' & e1 & dn & rd' & -> & Hd); [lia| |].
  { assert (0 ≤ encrypted_padding (size data) / ENCRYPT_CHUNK_SIZE) by (apply Z.div_pos; [lia|done]). lia. }
  rewrite bind_ret. destruct dn; [by subst|]. destruct Hd as (s' & e2 & Hse' & Hr' & Hs' & ->).
  rewrite size_app in Ho. rewrite (push_data_run out_size st' s' e2); [by rewrite sapp_assoc|done|done|lia|rewrite size_app; lia|].
  rewrite Nat2Z.inj_add, Z2Nat.id by (apply Z.div_pos; [apply size_nonneg|done]).
  transitivity (chunk_count (size data)); unfold chunk_count.
  - apply Z.div_le_mono; [done|lia].
  - unfold ENCRYPT_CHUNK_SIZE. pose proof (size_nonneg data). Z.div_mod_to_equations. lia.
Qed.
End readers.

(** A buffer and a file read the same. *)
Lemma read_buffer_reads s n :
  0 ≤ n → ∃ rd', read_buffer s n = Ok (sfirst n s, negb (size (safter n s) =? 0), rd') ∧ rd' = safter n s.
Proof. intros _. eexists. split; [unfold read_buffer; done|done]. Qed.

Definition file_at (content : bytes) (pos : Z) (s : bytes) : Prop := 0 ≤ pos ≤ size content ∧ s = safter pos content.

Lemma safter_safter a b s : 0 ≤ a → 0 ≤ b → safter a (safter b s) = safter (b + a) s.
Proof.
  intros Ha Hb. unfold safter. rewrite Z2Nat.inj_add by lia. generalize (Z.to_nat a). intros k. clear.
  revert s; induction (Z.to_nat b) as [|n IH]; intros s; [done|]. destruct s as [|c s]; [by destruct k|]. apply IH.
Qed.

Lemma read_file_reads content pos s n :
  file_at content pos s → 0 ≤ n →
  ∃ pos', read_file content pos n = Ok (sfirst n s, negb (size (safter n s) =? 0), pos') ∧ file_at content pos' (safter n s).
Proof.
  intros [Hpos ->] Hn. unfold read_file.
  set (k := if size content <? pos + n then size content - pos else n).
  assert (k = Z.min n (size content - pos)) as Hk by (unfold k; destruct (Z.ltb_spec (size content) (pos + n)); lia).
  assert (size (safter pos content) = size content - pos) as Hs by (rewrite size_safter; lia).
  assert ((if 0 <? k then sfirst k (safter pos content) else "") = sfirst n (safter pos content)) as ->.
  { destruct (Z.ltb_spec 0 k).
    - destruct (Z.le_gt_cases n (size content - pos)); [f_equal; lia|].
      rewrite (sfirst_all n), (sfirst_all k); [done|lia..].
    - symmetry. apply size_nil. rewrite size_sfirst; lia. }
  assert (negb (size content <=? pos + k) = negb (size (safter n (safter pos content)) =? 0)) as ->.
  { f_equal. rewrite size_safter, Hs by lia. destruct (Z.leb_spec (size content) (pos + k)), (Z.eqb_spec (Z.max 0 (size content - pos - n)) 0); lia. }
  exists (pos + k). split; [done|]. split; [lia|]. rewrite safter_safter by lia.
  destruct (Z.le_gt_cases n (size content - pos)); [f_equal; lia|]. rewrite !safter_all; [done|lia..].
Qed.

(** ** Writing to a file produces it too *)
Lemma push_file_run st out m s c st' :
  stream_push st m (if negb (size s =? 0) then 0 else TAG_FINAL) = (c, st') → push_file st out m s = (st', out +:+ c).
Proof. intros E. unfold push_file. by rewrite E. Qed.

Lemma data_file_run st s e fuel out :
  sealed st s e → 1 ≤ size s → chunk_count (size s) < Z.of_nat fuel →
  data_file fuel st out s = Ok (out +:+ e).
Proof.
  intros Hse. revert fuel out. induction Hse as [st s Hs|st s c st' e Hs E Hse IH]; intros fuel out Hone Hf.
  - rewrite chunk_count_one in Hf by lia. destruct fuel as [|[|fuel]]; [lia..|]. cbn [data_file].
    destruct (Z.eqb_spec (size s) 0); [lia|]. rewrite safter_all, sfirst_all by done.
    destruct (stream_push st s TAG_FINAL) as [c st'] eqn:E. by rewrite (push_file_run _ _ _ "" _ _ E).
  - rewrite chunk_count_more in Hf by done. destruct fuel as [|fuel]; [destruct (chunk_count_spec (size s - ENCRYPT_CHUNK_SIZE)); lia|].
    cbn [data_file]. destruct (Z.eqb_spec (size s) 0); [lia|].
    pose proof (size_safter ENCRYPT_CHUNK_SIZE s ltac:(done)) as Hsz.
    rewrite (push_file_run _ _ _ _ c st').
    + rewrite IH; [by rewrite sapp_assoc|lia|]. rewrite Hsz, Z.max_r by lia. lia.
    + by destruct (Z.eqb_spec (size (safter ENCRYPT_CHUNK_SIZE s)) 0); [lia|].
Qed.

Lemma pad_file_run st p s e fuel out :
  sealed st (pad p s) e → 1 ≤ p → (1 ≤ size s ∨ p ≤ ENCRYPT_CHUNK_SIZE) → p / ENCRYPT_CHUNK_SIZE + 1 < Z.of_nat fuel →
  ∃ st' e1 s', pad_file fuel st out p (size s) s = Ok (st', out +:+ e1, s') ∧ size s' ≤ size s ∧
    (s' = "" ∧ e = e1 ∨ 1 ≤ size s' ∧ ∃ e2, sealed st' s' e2 ∧ e = e1 +:+ e2).
Proof.
  revert st p e out. induction fuel as [|fuel IH]; intros st p e out Hse Hp Hsp Hf.
  { assert (0 ≤ p / ENCRYPT_CHUNK_SIZE) by (apply Z.div_pos; [lia|done]). lia. }
  cbn [pad_file]. destruct (Z.eqb_spec p 0); [lia|]. destruct (Z.ltb_spec ENCRYPT_CHUNK_SIZE p) as [Hlong|Hshort].
  - destruct (pad_long ENCRYPT_CHUNK_SIZE p s) as [Ef Ea]; [done|].
    inversion Hse as [? ? Hl|? ? c st' e2 Hl E Hse2]; subst; [rewrite size_pad in Hl by done; pose proof (size_nonneg s); lia|].
    rewrite Ef in E. rewrite Ea in Hse2.
    rewrite (push_file_run _ _ _ _ c st') by (by destruct (Z.eqb_spec (size s) 0); [lia|]).
    destruct (IH st' (p - ENCRYPT_CHUNK_SIZE) e2 (out +:+ c)) as (st'' & e1 & s' & -> & Hs' & Hd); [done|lia|lia| |].
    { replace p with (p - ENCRYPT_CHUNK_SIZE + 1 * ENCRYPT_CHUNK_SIZE) in Hf by lia. rewrite Z.div_add in Hf by done. lia. }
    exists st'', (c +:+ e1), s'. rewrite !sapp_assoc. split; [done|]. split; [done|].
    destruct Hd as [[-> ->]|(? & e3 & ? & ->)]; [by left|right]. split; [done|]. exists e3. by rewrite sapp_assoc.
  - destruct (pad_short ENCRYPT_CHUNK_SIZE p s) as [Ef Ea]; [lia|].
    assert (sfirst (Z.min (ENCRYPT_CHUNK_SIZE - p) (size s)) s = sfirst (ENCRYPT_CHUNK_SIZE - p) s) as ->.
    { destruct (Z.le_gt_cases (ENCRYPT_CHUNK_SIZE - p) (size s)); [f_equal; lia|]. rewrite !sfirst_all; [done|lia..]. }
    assert (safter (Z.min (ENCRYPT_CHUNK_SIZE - p) (size s)) s = safter (ENCRYPT_CHUNK_SIZE - p) s) as ->.
    { destruct (Z.le_gt_cases (ENCRYPT_CHUNK_SIZE - p) (size s)); [f_equal; lia|]. rewrite !safter_all; [done|lia..]. }
    fold (pad p (sfirst (ENCRYPT_CHUNK_SIZE - p) s)). set (s' := safter (ENCRYPT_CHUNK_SIZE - p) s) in *.
    assert (size s' = Z.max 0 (size s - (ENCRYPT_CHUNK_SIZE - p))) as Hs' by (apply size_safter; lia).
    inversion Hse as [? ? Hl|? ? c st' e2 Hl E Hse2]; subst; rewrite size_pad in Hl by done.
    + assert (s' = "") as -> by (apply size_nil; lia). rewrite <-Ef, sfirst_all in * by (rewrite size_pad; lia).
      destruct (stream_push st (pad p s) TAG_FINAL) as [c st'] eqn:E. rewrite (push_file_run _ _ _ "" _ _ E).
      exists st', c, "". split_and!; [done|apply size_nonneg|by left].
    + rewrite Ef in E. rewrite Ea in Hse2. rewrite (push_file_run _ _ _ _ c st') by (by destruct (Z.eqb_spec (size s') 0); [lia|]).
      exists st', c, s'. split_and!; [done|lia|right]. split; [lia|]. by exists e2.
Qed.

(** ** Decrypting undoes it *)
Lemma pull_pushed st m t c st' rest :
  stream_push st m t = (c, st') → 0 ≤ t < 256 →
  (size m = ENCRYPT_CHUNK_SIZE ∨ rest = "" ∧ size m ≤ ENCRYPT_CHUNK_SIZE) →
  pull_chunk st (c +:+ rest) = Ok (m, t, st', rest).
Proof.
  intros E Ht Hm. pose proof (push_size _ _ _ _ _ E) as Hc. unfold pull_chunk.
  assert (Z.min (size (c +:+ rest) - ENCRYPT_CHUNK_OVERHEAD) ENCRYPT_CHUNK_SIZE + ENCRYPT_CHUNK_OVERHEAD = size c) as ->.
  { rewrite size_app, Hc. pose proof (size_nonneg rest). destruct Hm as [?|[-> ?]]; [lia|]. change (size "") with 0. lia. }
  rewrite sfirst_app, safter_app by done. pose proof (stream_roundtrip st m t Ht) as Hr. rewrite E in Hr. cbn [fst snd] in Hr.
  by rewrite Hr.
Qed.

Lemma write_to_run out_size out s : size out + size s ≤ out_size → write_to out_size out s = Ok (out +:+ s).
Proof. intros Hs. unfold write_to. by rewrite (proj2 (Z.leb_le _ _) Hs). Qed.

Lemma chunk_pos : 1 ≤ ENCRYPT_CHUNK_SIZE.
Proof. done. Qed.

Lemma sealed_nonempty st s e : sealed st s e → ENCRYPT_CHUNK_OVERHEAD + Z.min (size s) 1 ≤ size e.
Proof.
  destruct 1 as [st s Hs|st s c st' e Hs E Hse]; [rewrite stream_size; lia|].
  apply push_size in E. rewrite size_app, E, size_sfirst by done. pose proof (size_nonneg e). pose proof chunk_pos. lia.
Qed.

Lemma pull_data_run st s e fuel out_size out :
  sealed st s e → 1 ≤ size s → chunk_count (size s) ≤ Z.of_nat fuel → size out + size s ≤ out_size →
  pull_data fuel out_size st e out = Ok (out +:+ s).
Proof.
  intros Hse. revert fuel out. induction Hse as [st s Hs|st s c st' e Hs E Hse IH]; intros fuel out Hone Hf Ho.
  - rewrite chunk_count_one in Hf by lia. destruct fuel as [|fuel]; [lia|]. cbn [pull_data].
    destruct (Z.leb_spec (size (stream_push st s TAG_FINAL).1) ENCRYPT_CHUNK_OVERHEAD) as [Hl|_]; [rewrite stream_size in Hl; lia|].
    cbn [require negb]. rewrite bind_ret. destruct (stream_push st s TAG_FINAL) as [c st'] eqn:E. cbn [fst].
    rewrite <-(string_app_empty_r c). rewrite (pull_pushed _ _ _ _ _ "" E) by (done || auto). rewrite bind_ret.
    by rewrite write_to_run.
  - rewrite chunk_count_more in Hf by done.
    destruct fuel as [|fuel]; [destruct (chunk_count_spec (size s - ENCRYPT_CHUNK_SIZE)); lia|]. cbn [pull_data].
    pose proof (size_safter ENCRYPT_CHUNK_SIZE s ltac:(done)) as Hsz. pose proof (size_sfirst ENCRYPT_CHUNK_SIZE s ltac:(done)) as Hsf.
    pose proof (push_size _ _ _ _ _ E) as Hc. pose proof (sealed_nonempty _ _ _ Hse) as Hne.
    destruct (Z.leb_spec (size (c +:+ e)) ENCRYPT_CHUNK_OVERHEAD) as [Hl|_]; [rewrite size_app in Hl; pose proof chunk_pos; pose proof (size_nonneg e); lia|].
    cbn [require negb]. rewrite bind_ret. rewrite (pull_pushed _ _ _ _ _ e E) by first [done|left; lia]. rewrite bind_ret.
    rewrite write_to_run by lia. rewrite bind_ret. unfold check_final. change (0 =? TAG_FINAL) with false. cbv iota.
    destruct (Z.eqb_spec (size e) 0); [unfold ENCRYPT_CHUNK_OVERHEAD in Hne; lia|]. cbn [require negb]. rewrite !bind_ret.
    rewrite IH; [by rewrite sapp_assoc, sfirst_safter|lia|rewrite Hsz, Z.max_r by lia; lia|rewrite size_app; lia].
Qed.

Lemma pull_padding_run st p s e fuel out_size :
  sealed st (pad p s) e → 1 ≤ p → size s ≤ out_size → p / ENCRYPT_CHUNK_SIZE < Z.of_nat fuel →
  ∃ st' e' s1 dn, pull_padding fuel out_size st e = Ok (st', e', s1, dn) ∧
    if (dn : bool) then s1 = s
    else ∃ s2, s = s1 +:+ s2 ∧ sealed st' s2 e' ∧ 1 ≤ size s2.
Proof.
  revert st p e. induction fuel as [|fuel IH]; intros st p e Hse Hp Ho Hf.
  { assert (0 ≤ p / ENCRYPT_CHUNK_SIZE) by (apply Z.div_pos; [lia|done]). lia. }
  pose proof (size_pad p s Hp) as Hsp. pose proof (size_nonneg s) as Hs0.
  pose proof (sealed_nonempty _ _ _ Hse) as Hne. cbn [pull_padding].
  destruct (Z.leb_spec (size e) ENCRYPT_CHUNK_OVERHEAD); [lia|]. cbn [require negb]. rewrite bind_ret.
  destruct (Z.lt_ge_cases ENCRYPT_CHUNK_SIZE p) as [Hlong|Hshort].
  - destruct (pad_long ENCRYPT_CHUNK_SIZE p s) as [Ef Ea]; [done|].
    inversion Hse as [? ? Hl|? ? c st' e2 Hl E Hse2]; subst; [lia|]. rewrite Ef in E. rewrite Ea in Hse2.
    rewrite (pull_pushed _ _ _ _ _ e2 E) by first [done|left; by rewrite size_zeros]. rewrite bind_ret, find_nonzero_zeros.
    apply (IH st' (p - ENCRYPT_CHUNK_SIZE)); [done|lia|done|].
    replace p with (p - ENCRYPT_CHUNK_SIZE + 1 * ENCRYPT_CHUNK_SIZE) in Hf by lia. rewrite Z.div_add in Hf by done. lia.
  - destruct (pad_short ENCRYPT_CHUNK_SIZE p s) as [Ef Ea]; [lia|].
    inversion Hse as [? ? Hl|? ? c st' e2 Hl E Hse2]; subst.
    + destruct (stream_push st (pad p s) TAG_FINAL) as [c st'] eqn:E. cbn [fst]. rewrite <-(string_app_empty_r c).
      rewrite (pull_pushed _ _ _ _ _ "" E) by (done || auto). rewrite bind_ret, find_nonzero_pad.
      change ("001" =? "001")%char with true. cbn [require]. rewrite bind_ret, write_to_run by done. rewrite bind_ret.
      by exists st', "", s, true.
    + pose proof (sealed_nonempty _ _ _ Hse2) as Hne2. rewrite Ea in Hse2. rewrite Ef in E.
      pose proof (size_safter (ENCRYPT_CHUNK_SIZE - p) s ltac:(lia)) as Hsz.
      pose proof (size_sfirst (ENCRYPT_CHUNK_SIZE - p) s ltac:(lia)) as Hsf.
      rewrite (pull_pushed _ _ _ _ _ e2 E) by first [done|left; rewrite size_pad by done; lia]. rewrite bind_ret, find_nonzero_pad.
      change ("001" =? "001")%char with true. cbn [require]. rewrite bind_ret, write_to_run by (change (size "") with 0; lia). rewrite bind_ret.
      unfold check_final. change (0 =? TAG_FINAL) with false. cbv iota.
      destruct (Z.eqb_spec (size e2) 0) as [Hz|_]; [pose proof (size_nonneg (safter ENCRYPT_CHUNK_SIZE (pad p s)));
        unfold ENCRYPT_CHUNK_OVERHEAD in Hne2; lia|].
      cbn [require negb]. rewrite !bind_ret. do 4 eexists. split; [done|]. cbv iota.
      exists (safter (ENCRYPT_CHUNK_SIZE - p) s). split_and!; [symmetry; apply sfirst_safter|done|lia].
Qed.

(** ** The whole of it *)
Lemma init_push_pull key nonce : size nonce = ENCRYPT_HEADER → init_pull nonce key = init_push_with_nonce key nonce.
Proof.
  intros Hn. rewrite init_pull_form by done. unfold init_push_with_nonce. do 2 f_equal. symmetry. apply sfirst_all.
  rewrite size_sdrop, Hn. done.
Qed.

Lemma decrypt_run header key p s e out_size :
  size header = ENCRYPT_HEADER → 1 ≤ p → p + size s ≤ 2 ^ 63 - 2 ^ 60 → p + size s - 1 ≤ out_size →
  sealed (init_pull header key) (pad p s) e →
  decrypt_to_span (String "S" header +:+ e) key out_size = Ok s.
Proof.
  intros Hh Hp Hl Ho Hse. pose proof (size_pad p s Hp) as Hsp. pose proof (size_nonneg s) as Hs0.
  pose proof (sealed_size _ _ _ Hse ltac:(lia)) as Hes. rewrite Hsp in Hes.
  assert (size (String "S" header +:+ e) = stream_total (p + size s)) as Hen.
  { rewrite size_app, size_char, Hh, Hes. unfold stream_total, ENCRYPT_HEADER. lia. }
  unfold decrypt_to_span. rewrite Hen, decrypted_max_run by lia. cbn [from_option_or]. rewrite bind_ret.
  change (front_is_S (String "S" header +:+ e)) with (@Ok bool true). rewrite bind_ret, bind_require by done.
  rewrite bind_require by (apply negb_true_iff, Z.ltb_ge; lia).
  assert (sfirst ENCRYPT_HEADER (safter 1 (String "S" header +:+ e)) = header) as ->.
  { change (safter 1 (String "S" header +:+ e)) with (header +:+ e). by apply sfirst_app. }
  rewrite (safter_app (1 + ENCRYPT_HEADER)) by (rewrite size_char, Hh; done).
  set (fuel := (Z.to_nat (stream_total (p + size s) / ENCRYPTED_CHUNK_TOTAL) + 2)%nat).
  assert (chunk_count (p + size s) ≤ Z.of_nat fuel) as Hfuel.
  { destruct (chunk_count_spec (p + size s)) as [Hf Hc]; [lia|]. cbv zeta in Hf.
    assert (chunk_count (p + size s) - 1 ≤ stream_total (p + size s) / ENCRYPTED_CHUNK_TOTAL).
    { apply Z.div_le_lower_bound; [done|]. unfold stream_total. unfold_sizes. lia. }
    unfold fuel. lia. }
  destruct (pull_padding_run _ p s e fuel out_size Hse Hp) as (st' & e' & s1 & dn & -> & Hd); [lia| |].
  { assert (p / ENCRYPT_CHUNK_SIZE ≤ chunk_count (p + size s)).
    { unfold chunk_count. apply Z.div_le_mono; [done|]. pose proof chunk_pos. lia. }
    destruct (Z.eq_dec (p / ENCRYPT_CHUNK_SIZE) (Z.of_nat fuel)); [|lia].
    assert (0 ≤ stream_total (p + size s) / ENCRYPTED_CHUNK_TOTAL).
    { apply Z.div_pos; [|done]. rewrite <-Hen. apply size_nonneg. }
    assert (chunk_count (p + size s) - 1 ≤ stream_total (p + size s) / ENCRYPTED_CHUNK_TOTAL).
    { destruct (chunk_count_spec (p + size s)) as [Hf Hc]; [lia|]. cbv zeta in Hf.
      apply Z.div_le_lower_bound; [done|]. unfold stream_total. unfold_sizes. lia. }
    unfold fuel in *. lia. }
  rewrite bind_ret. destruct dn; [by subst|]. destruct Hd as (s2 & -> & Hse2 & Hs2). rewrite size_app in *.
  pose proof (size_nonneg s1). apply pull_data_run; [done..| |lia].
  transitivity (chunk_count (p + (size s1 + size s2))); [|done]. unfold chunk_count. apply Z.div_le_mono; [done|lia].
Qed.

(** What [encrypt] writes for data whose nonce and key are known *)
Definition encryption (data nonce_key enc : bytes) : Prop :=
  ∃ e, sealed (init_push_with_nonce (safter ENCRYPT_HEADER nonce_key) (sfirst ENCRYPT_HEADER nonce_key))
         (pad (encrypted_padding (size data)) data) e ∧ enc = String "S" (sfirst ENCRYPT_HEADER nonce_key) +:+ e.

(** The sizes for which the padding is right *)
Definition size_ok (n : Z) : Prop := n ≤ 2 ^ 62 ∧ padded_size n ≠ odd_size.

Lemma encryption_size data nonce_key enc :
  size nonce_key = 56 → size_ok (size data) → encryption data nonce_key enc → size enc = encrypted_size (size data).
Proof.
  intros Hnk [Hd Hodd] (e & Hse & ->). pose proof (size_nonneg data).
  destruct (padding_chunks (size data) ltac:(lia) Hodd) as [Hp Ht].
  rewrite encrypted_size_run by lia. unfold stream_total. apply sealed_size in Hse; rewrite size_pad in * by lia; [|lia].
  rewrite size_app, size_char, size_sfirst, Hnk, Hse by done. rewrite (Z.add_comm (size data)). unfold ENCRYPT_HEADER. lia.
Qed.

Lemma encryption_impl {R} get_chunk (rest : R → bytes → Prop) data nonce_key enc rd :
  (∀ rd s n, rest rd s → 0 ≤ n →
    ∃ rd', get_chunk rd n = Ok (sfirst n s, negb (size (safter n s) =? 0), rd') ∧ rest rd' (safter n s)) →
  rest rd data → size nonce_key = 56 → size_ok (size data) → encryption data nonce_key enc →
  encrypt_impl get_chunk (encrypted_size (size data)) (size data) nonce_key rd = Ok enc.
Proof.
  intros Hg Hr Hnk Hok Henc. pose proof (encryption_size _ _ _ Hnk Hok Henc) as Hsz.
  destruct Hok as [Hd Hodd]. destruct Henc as (e & Hse & ->). pose proof (size_nonneg data).
  destruct (padding_chunks (size data) ltac:(lia) Hodd) as [Hp _].
  apply (encrypt_impl_run _ rest); [done..|lia|done|].
  rewrite <-Hsz, size_app, size_char, size_sfirst, Hnk by done. unfold ENCRYPT_HEADER. lia.
Qed.

Lemma fill_exact n s : size s = n → fill n s = s.
Proof. intros <-. unfold fill. rewrite Z.sub_diag. apply string_app_empty_r. Qed.

(** The nonce and key of the data of a sender *)
Definition nonce_key_of (seed data : bytes) (domain : Z) : bytes :=
  hash_parts (ENCRYPT_HEADER + ENCRYPT_KEY_SIZE) (domain_byte domain) [sfirst 32 seed; data].

Lemma nonce_key_size seed data domain : size (nonce_key_of seed data domain) = 56.
Proof. unfold nonce_key_of, hash_parts. by rewrite generichash_size. Qed.

(** What the code checks before it encrypts *)
Definition accepted (seed data : bytes) (allow_large : bool) : Prop :=
  32 ≤ size seed ∧ (allow_large = true ∨ size data ≤ MAX_REGULAR_SIZE).

Lemma init_accepted seed data domain al :
  accepted seed data al → encrypt_buffer_init seed data domain al = Ok (nonce_key_of seed data domain).
Proof.
  intros [Hs Hd]. unfold encrypt_buffer_init. destruct (Z.ltb_spec (size seed) 32); [lia|]. cbn [negb require]. rewrite bind_ret.
  destruct (Z.ltb_spec MAX_REGULAR_SIZE (size data)); [destruct Hd as [-> | ?]; [done|lia]|done].
Qed.

Lemma encrypt_vector_run seed data domain al enc :
  accepted seed data al → size_ok (size data) → encryption data (nonce_key_of seed data domain) enc →
  encrypt_to_vector seed data domain al = Ok (enc, key_of (nonce_key_of seed data domain)).
Proof.
  intros Ha Hok Henc. pose proof (init_accepted seed data domain al Ha) as Hi.
  pose proof (nonce_key_size seed data domain) as Hnk.
  assert (encrypt_to_span seed data domain (encrypted_size (size data)) al = Ok (enc, key_of (nonce_key_of seed data domain))) as E.
  { unfold encrypt_to_span. rewrite Hi, bind_ret.
    rewrite (encryption_impl read_buffer eq data _ enc data); [done| |done..].
    intros rd s n -> Hn. by apply read_buffer_reads. }
  unfold encrypt_to_vector. destruct Ha as [Hs Hd]. destruct (Z.ltb_spec (size seed) 32); [lia|]. cbn [negb require]. rewrite bind_ret.
  assert (negb ((MAX_REGULAR_SIZE <? size data) && negb al) = true) as ->.
  { destruct (Z.ltb_spec MAX_REGULAR_SIZE (size data)); [destruct Hd as [-> | ?]; [done|lia]|done]. }
  cbn [require]. rewrite bind_ret, E, bind_ret. by rewrite (fill_exact _ enc) by by apply (encryption_size _ _ _ Hnk).
Qed.

Lemma pieces_concat fuel n s :
  (0 < n)%nat → (String.length s ≤ fuel * n)%nat → foldr String.append "" (pieces fuel n s) = s.
Proof.
  intros Hn. revert s; induction fuel as [|fuel IH]; intros s Hs; cbn [pieces].
  { destruct s; [done|]. cbn [String.length] in Hs. lia. }
  destruct (Nat.eqb_spec (String.length s) 0) as [Hz|Hz]; [by destruct s|]. cbn [foldr].
  rewrite IH; [apply stake_sdrop|]. rewrite length_sdrop. lia.
Qed.

Lemma read_pieces_concat s : foldr String.append "" (read_pieces s) = s.
Proof.
  apply pieces_concat; [lia|]. pose proof (size_nonneg s). pose proof (Z.div_mod (size s) 4096).
  pose proof (Z.mod_pos_bound (size s) 4096). assert (0 ≤ size s / 4096) by (apply Z.div_pos; lia).
  apply Nat2Z.inj_le. rewrite Nat2Z.inj_mul, Nat2Z.inj_add, !Z2Nat.id by lia. fold (size s). lia.
Qed.

Lemma encrypt_file_run seed data domain al enc :
  32 ≤ size seed → size_ok (size data) → encryption data (nonce_key_of seed data domain) enc →
  encrypt_file_to_vector seed data domain al = Ok (enc, key_of (nonce_key_of seed data domain)).
Proof.
  intros Hs Hok Henc. pose proof (nonce_key_size seed data domain) as Hnk.
  unfold encrypt_file_to_vector, encrypt_file. rewrite bind_require by by apply Z.leb_le.
  assert (hash_parts (ENCRYPT_HEADER + ENCRYPT_KEY_SIZE) (domain_byte domain) (sfirst 32 seed :: read_pieces data) =
    nonce_key_of seed data domain) as ->.
  { unfold nonce_key_of, hash_parts. cbn [foldr]. by rewrite read_pieces_concat, string_app_empty_r. }
  rewrite bind_ret, bind_require by apply Z.eqb_refl.
  rewrite (encryption_impl (read_file data) (file_at data) data _ enc 0); [|apply read_file_reads| |done..].
  - rewrite bind_ret. by rewrite (fill_exact _ enc) by by apply (encryption_size _ _ _ Hnk).
  - split; [|done]. pose proof (size_nonneg data). lia.
Qed.

Lemma encrypt_to_file_run seed data domain al enc :
  accepted seed data al → size_ok (size data) → encryption data (nonce_key_of seed data domain) enc →
  encrypt_to_file seed data domain al = Ok (enc, key_of (nonce_key_of seed data domain)).
Proof.
  intros Ha [Hd Hodd] (e & Hse & ->). unfold encrypt_to_file. rewrite (init_accepted seed data domain al Ha), bind_ret.
  pose proof (size_nonneg data). destruct (padding_chunks (size data) ltac:(lia) Hodd) as [Hp _].
  destruct (pad_file_run _ _ data e (Z.to_nat (encrypted_padding (size data) / ENCRYPT_CHUNK_SIZE) + 2)
    (String "S" (sfirst ENCRYPT_HEADER (nonce_key_of seed data domain))) Hse) as (st' & e1 & s' & -> & Hs' & Hd'); [lia| | |].
  { destruct (Z.eq_dec (size data) 0) as [Hz|]; [right; rewrite Hz; vm_compute; discriminate|lia]. }
  { assert (0 ≤ encrypted_padding (size data) / ENCRYPT_CHUNK_SIZE) by (apply Z.div_pos; [lia|done]). lia. }
  rewrite bind_ret. assert (0 ≤ size data / ENCRYPT_CHUNK_SIZE) by (apply Z.div_pos; [lia|done]).
  destruct Hd' as [[-> ->]|(Hone & e2 & Hse2 & ->)].
  - destruct (Z.to_nat (size data / ENCRYPT_CHUNK_SIZE) + 2)%nat eqn:E; [lia|]. done.
  - rewrite (data_file_run st' s' e2); [by rewrite bind_ret, sapp_assoc|done|done|].
    rewrite Nat2Z.inj_add, Z2Nat.id by done. apply (Z.le_lt_trans _ (chunk_count (size data))); unfold chunk_count.
    + apply Z.div_le_mono; [done|lia].
    + unfold ENCRYPT_CHUNK_SIZE in *. Z.div_mod_to_equations. lia.
Qed.

Lemma encryption_exists data nonce_key : ∃ enc, encryption data nonce_key enc.
Proof. edestruct sealed_exists as [e He]. eexists. exists e. by split. Qed.

(** What decrypts an encryption *)
Lemma encryption_sealed data nonce_key enc :
  size nonce_key = 56 → encryption data nonce_key enc →
  ∃ header e, enc = String "S" header +:+ e ∧ size header = ENCRYPT_HEADER ∧
    sealed (init_pull header (key_of nonce_key)) (pad (encrypted_padding (size data)) data) e.
Proof.
  intros Hnk (e & Hse & ->). eexists _, e. split; [done|].
  assert (size (sfirst ENCRYPT_HEADER nonce_key) = ENCRYPT_HEADER) as Hh by by rewrite size_sfirst, Hnk.
  split; [done|]. rewrite init_push_pull by done. unfold key_of. rewrite (sfirst_all ENCRYPT_KEY_SIZE); [done|].
  by rewrite size_safter, Hnk.
Qed.

(** C14 (attachment round trip).  Data that the code accepts (a seed of at least 32
    bytes, no more than the regular size unless larger data is allowed) is
    always encrypted, to exactly the announced size and with a key of 32 bytes,
    and decrypting with the key gives back the data, also into a buffer of the
    size that [decrypted_max_size] asks for, past whose end nothing is written. *)
Theorem attachment_roundtrip (seed data : bytes) (domain : Z) (allow_large : bool) :
  accepted seed data allow_large → size_ok (size data) →
  ∃ enc key, encrypt_to_vector seed data domain allow_large = Ok (enc, key) ∧
    size enc = encrypted_size (size data) ∧ size key = ENCRYPT_KEY_SIZE ∧
    decrypt enc key = Ok data ∧
    ∀ max_size, decrypted_max_size (size enc) = Some max_size → decrypt_to_span enc key max_size = Ok data.
Proof.
  intros Ha Hok. destruct (encryption_exists data (nonce_key_of seed data domain)) as [enc Henc].
  pose proof (nonce_key_size seed data domain) as Hnk. pose proof (encryption_size _ _ _ Hnk Hok Henc) as Hsz.
  exists enc, (key_of (nonce_key_of seed data domain)).
  assert (decrypted_max_size (size enc) = Some (encrypted_padding (size data) + size data - 1) ∧
    decrypt_to_span enc (key_of (nonce_key_of seed data domain)) (encrypted_padding (size data) + size data - 1) = Ok data ∧
    front_is_S enc = Ok true) as (Hmax & Hdec & HS).
  { destruct (encryption_sealed _ _ _ Hnk Henc) as (header & e & -> & Hh & Hse). destruct Hok as [Hd Hodd].
    pose proof (size_nonneg data). destruct (padding_chunks (size data) ltac:(lia) Hodd) as [Hp Ht].
    split_and!; [|apply (decrypt_run _ _ (encrypted_padding (size data))); (done || lia)|done].
    rewrite Hsz, encrypted_size_run, decrypted_max_run by lia. f_equal. lia. }
  split_and!; [by apply encrypt_vector_run|done|..].
  - unfold key_of. rewrite size_sfirst, size_safter, Hnk by done. done.
  - unfold decrypt. rewrite Hmax. cbn [from_option_or]. rewrite bind_ret, HS, bind_ret, bind_require by done. done.
  - intros m Hm. rewrite Hmax in Hm. by injection Hm as <-.
Qed.

(** (one encryption).  Encrypting a file that holds the data, and encrypting the
    data to a file, give the very bytes and the key that encrypting the data in
    memory gives. *)
Theorem encrypt_ways_agree (seed data : bytes) (domain : Z) (allow_large : bool) :
  accepted seed data allow_large → size_ok (size data) →
  encrypt_file_to_vector seed data domain allow_large = encrypt_to_vector seed data domain allow_large ∧
  encrypt_to_file seed data domain allow_large = encrypt_to_vector seed data domain allow_large.
Proof.
  intros Ha Hok. destruct (encryption_exists data (nonce_key_of seed data domain)) as [enc Henc].
  rewrite (encrypt_vector_run _ _ _ _ _ Ha Hok Henc). split.
  - apply encrypt_file_run; [apply Ha|done..].
  - by apply encrypt_to_file_run.
Qed.
End codec.

(** ** A stream that satisfies the laws *)
Definition stream_tag (st : stream_state) (s : bytes) : bytes := tag (st_k st) (st_nonce st) s.

#[global] Instance checksum_stream : SecretStream := {|
  hchacha20 input key := generichash 32 input key;
  stream_push st m t :=
    let body := String (ascii_of_N (Z.to_N t)) m in
    (body +:+ stream_tag st body, mkStream (st_k st) (generichash 12 (st_nonce st) m) (st_pad st));
  stream_pull st c :=
    match stake (String.length c - 16) c with
    | "" => None
    | String t m =>
        if String.eqb (sdrop (String.length c - 16) c) (stream_tag st (String t m))
        then Some (m, Z.of_N (N_of_ascii t), mkStream (st_k st) (generichash 12 (st_nonce st) m) (st_pad st)) else None
    end;
  init_pull header key :=
    mkStream (generichash 32 (stake 16 header) key) (String "001" (zeros 3) +:+ sdrop 16 header) (zeros 8);
|}.

Lemma stream_tag_length st s : String.length (stream_tag st s) = 16%nat.
Proof. unfold stream_tag, tag. apply spread_length. Qed.

#[global] Instance checksum_stream_laws : SecretStreamLaws.
Proof.
  split.
  - intros st m t Ht. cbn [stream_push stream_pull checksum_stream fst snd]. set (body := String _ m).
    rewrite length_sapp, stream_tag_length. replace (String.length body + 16 - 16)%nat with (String.length body) by lia.
    rewrite stake_app, sdrop_app. unfold body at 1. rewrite String.eqb_refl.
    rewrite N_ascii_embedding by lia. by rewrite Z2N.id by lia.
  - intros st m t. cbn [stream_push checksum_stream fst]. rewrite size_app, size_char. unfold size.
    rewrite stream_tag_length. unfold ENCRYPT_CHUNK_OVERHEAD. lia.
  - intros st c m t st'. cbn [stream_pull checksum_stream].
    destruct (stake (String.length c - 16) c) as [|t0 m0] eqn:E; [done|]. destruct (String.eqb _ _); [|done].
    intros [= <- _ _]. pose proof (length_stake (String.length c - 16) c) as Hl. rewrite E in Hl. cbn [String.length] in Hl.
    unfold size, ENCRYPT_CHUNK_OVERHEAD. lia.
  - done.
Qed.

Definition sample_seed : bytes := zeros 32.

Lemma attachment_roundtrip_witness :
  ∃ enc key, encrypt_to_vector sample_seed "picture" 1 false = Ok (enc, key) ∧ size enc = 4096 ∧
    decrypt enc key = Ok "picture".
Proof.
  destruct (attachment_roundtrip sample_seed "picture" 1 false) as (enc & key & He & Hs & _ & Hd & _).
  - split; [vm_compute; discriminate|right; vm_compute; discriminate].
  - split; vm_compute; discriminate.
  - exists enc, key. split; [exact He|]. split; [rewrite Hs; vm_compute; reflexivity|exact Hd].
Defined.

Lemma encrypt_ways_agree_witness :
  encrypt_file_to_vector sample_seed "picture" 1 false = encrypt_to_vector sample_seed "picture" 1 false.
Proof.
  destruct (encrypt_ways_agree sample_seed "picture" 1 false) as [E _].
  - split; [vm_compute; discriminate|right; vm_compute; discriminate].
  - split; vm_compute; discriminate.
  - exact E.
Defined.
