(* ===== verification/AttachmentStream.v ===== *)
(** * Decrypting attachments piece by piece

    The [Decryptor] of [src/attachments.cpp] does not depend on how its input is
    cut into pieces, gives back what was encrypted, and agrees with the
    decryption in one go; which in turn never leaves its buffer. *)

From Stdlib Require Import ZArith String Ascii Lia.
From stdpp Require Import base option list strings numbers.
From S2P Require Import Prelude OrderedMap Bt Bencode Crypto Encrypt ConfigParts State Attachment AttachmentSize AttachmentCodec.

Lemma mret_run {S A} (a : A) (s : S) : (mret a : M S A) s = (Ok a, s).
Proof. done. Qed.

Section stream.
Context `{HashLaws, SecretStreamLaws}.

(** ** Decryption in one go is safe *)

(** It returns, or it throws what it is documented to throw. *)
Definition fails_cleanly {A} (r : result A) : Prop := r = Throw runtime_error.

Lemma pull_chunk_cases st input :
  ENCRYPT_CHUNK_OVERHEAD < size input →
  pull_chunk st input = Throw runtime_error ∨
  ∃ m t st' rest, pull_chunk st input = Ok (m, t, st', rest) ∧
    stream_pull st (sfirst ENCRYPTED_CHUNK_TOTAL input) = Some (m, t, st') ∧
    rest = safter ENCRYPTED_CHUNK_TOTAL input ∧
    size m = Z.min (size input - ENCRYPT_CHUNK_OVERHEAD) ENCRYPT_CHUNK_SIZE.
Proof.
  intros Hin. unfold pull_chunk.
  set (k := Z.min (size input - ENCRYPT_CHUNK_OVERHEAD) ENCRYPT_CHUNK_SIZE).
  assert (sfirst (k + ENCRYPT_CHUNK_OVERHEAD) input = sfirst ENCRYPTED_CHUNK_TOTAL input ∧
          safter (k + ENCRYPT_CHUNK_OVERHEAD) input = safter ENCRYPTED_CHUNK_TOTAL input) as [-> ->].
  { destruct (Z.le_gt_cases ENCRYPTED_CHUNK_TOTAL (size input)).
    - by replace (k + ENCRYPT_CHUNK_OVERHEAD) with ENCRYPTED_CHUNK_TOTAL by (unfold k; unfold_sizes; lia).
    - rewrite !sfirst_all, !safter_all; [done|unfold k; unfold_sizes; lia..]. }
  destruct (stream_pull st (sfirst ENCRYPTED_CHUNK_TOTAL input)) as [[[m t] st']|] eqn:E; [right|by left].
  eexists m, t, st', _. split_and!; [done..|]. apply pull_size in E. rewrite size_sfirst in E by done.
  unfold k. unfold_sizes. lia.
Qed.

(** The encrypted chunks of an input, and the bytes it decrypts to *)
Definition enc_chunks (z : Z) : Z := (z + ENCRYPTED_CHUNK_TOTAL - 1) / ENCRYPTED_CHUNK_TOTAL.
Definition room (input : bytes) : Z := size input - enc_chunks (size input) * ENCRYPT_CHUNK_OVERHEAD.

Lemma enc_chunks_spec z : (enc_chunks z - 1) * ENCRYPTED_CHUNK_TOTAL < z ≤ enc_chunks z * ENCRYPTED_CHUNK_TOTAL.
Proof. unfold enc_chunks. unfold_sizes. Z.div_mod_to_equations. lia. Qed.

Lemma enc_chunks_unique z k : (k - 1) * ENCRYPTED_CHUNK_TOTAL < z ≤ k * ENCRYPTED_CHUNK_TOTAL → enc_chunks z = k.
Proof. pose proof (enc_chunks_spec z). unfold_sizes. lia. Qed.

Lemma room_step input m :
  ENCRYPT_CHUNK_OVERHEAD < size input → size m = Z.min (size input - ENCRYPT_CHUNK_OVERHEAD) ENCRYPT_CHUNK_SIZE →
  room input = size m + room (safter ENCRYPTED_CHUNK_TOTAL input) ∧
  enc_chunks (size input) = 1 + enc_chunks (size (safter ENCRYPTED_CHUNK_TOTAL input)).
Proof.
  intros Hin Hm. pose proof (size_safter ENCRYPTED_CHUNK_TOTAL input ltac:(done)) as Hr.
  assert (enc_chunks (size input) = 1 + enc_chunks (size (safter ENCRYPTED_CHUNK_TOTAL input))) as E.
  { apply enc_chunks_unique. pose proof (enc_chunks_spec (size (safter ENCRYPTED_CHUNK_TOTAL input))).
    destruct (Z.le_gt_cases (size input) ENCRYPTED_CHUNK_TOTAL).
    - rewrite Hr, Z.max_l in * by lia. rewrite (enc_chunks_unique 0 0) by done. unfold_sizes. lia.
    - rewrite Hr, Z.max_r in * by lia. lia. }
  split; [|done]. unfold room. rewrite E.
  destruct (Z.le_gt_cases (size input) ENCRYPTED_CHUNK_TOTAL).
  - rewrite Hr, Z.max_l in * by lia. rewrite (enc_chunks_unique 0 0) by done. unfold_sizes. lia.
  - rewrite Hr, Z.max_r in * by lia. unfold_sizes. lia.
Qed.

Lemma check_final_cases t input :
  check_final t input = Throw runtime_error ∨ check_final t input = Ok true ∧ input = "" ∨
  check_final t input = Ok false ∧ 0 < size input.
Proof.
  unfold check_final. pose proof (size_nonneg input). destruct (t =? TAG_FINAL).
  - destruct (Z.eqb_spec (size input) 0) as [Hz|]; [|by left]. right; left. split; [done|by apply size_nil].
  - destruct (Z.eqb_spec (size input) 0); [by left|]. right; right. split; [done|lia].
Qed.

(** Sizes of whole chunks, each with room for its tag *)
Definition whole (z : Z) : Prop := z mod ENCRYPTED_CHUNK_TOTAL = 0 ∨ ENCRYPT_CHUNK_OVERHEAD ≤ z mod ENCRYPTED_CHUNK_TOTAL.

Lemma whole_after input : whole (size input) → whole (size (safter ENCRYPTED_CHUNK_TOTAL input)).
Proof.
  intros Hw. rewrite size_safter by done. destruct (Z.le_gt_cases (size input) ENCRYPTED_CHUNK_TOTAL).
  - rewrite Z.max_l by lia. by left.
  - rewrite Z.max_r by lia. unfold whole in *. rewrite <-(Z.mod_add _ 1) by done.
    by replace (size input - ENCRYPTED_CHUNK_TOTAL + 1 * ENCRYPTED_CHUNK_TOTAL) with (size input) by lia.
Qed.

Lemma room_whole input : whole (size input) → 0 ≤ room input.
Proof.
  intros Hw. unfold room, whole in *. pose proof (enc_chunks_spec (size input)). pose proof (size_nonneg input).
  unfold_sizes. Z.div_mod_to_equations. lia.
Qed.

Lemma pull_data_safe fuel out_size st input out :
  size out + room input ≤ out_size → whole (size input) → enc_chunks (size input) < Z.of_nat fuel →
  pull_data fuel out_size st input out = Throw runtime_error ∨
  ∃ d, pull_data fuel out_size st input out = Ok d ∧ size d ≤ size out + room input.
Proof.
  revert st input out. induction fuel as [|fuel IH]; intros st input out Ho Hw Hf.
  { pose proof (enc_chunks_spec (size input)). pose proof (size_nonneg input). unfold_sizes. lia. }
  cbn [pull_data]. destruct (Z.leb_spec (size input) ENCRYPT_CHUNK_OVERHEAD) as [|Hin]; [by left|]. rewrite bind_require by done.
  destruct (pull_chunk_cases st input Hin) as [->|(m & t & st' & rest & -> & _ & -> & Hm)]; [by left|].
  destruct (room_step input m Hin Hm) as [Hroom Hch]. rewrite bind_ret.
  apply whole_after in Hw. pose proof (room_whole _ Hw) as Hr. set (rest := safter ENCRYPTED_CHUNK_TOTAL input) in *.
  rewrite write_to_run, bind_ret by lia. destruct (check_final_cases t rest) as [->|[[-> _]|[-> _]]]; [by left|..]; rewrite bind_ret.
  - right. eexists. split; [done|]. rewrite size_app. lia.
  - destruct (IH st' rest (out +:+ m)) as [->|(d & -> & Hd)]; [rewrite size_app; lia|done|lia|by left|right].
    exists d. split; [done|]. rewrite size_app in Hd. lia.
Qed.

Lemma find_nonzero_size s c r : find_nonzero s = Some (c, r) → 1 + size r ≤ size s.
Proof.
  induction s as [|x s IH]; [done|]. cbn [find_nonzero]. rewrite size_char.
  destruct (x =? "000")%char; [intros ?%IH; lia|]. intros [= _ ->]. lia.
Qed.

Lemma pull_padding_safe fuel out_size st input :
  room input ≤ out_size + 1 → whole (size input) → enc_chunks (size input) < Z.of_nat fuel →
  pull_padding fuel out_size st input = Throw runtime_error ∨
  ∃ st' rest out dn, pull_padding fuel out_size st input = Ok (st', rest, out, dn) ∧
    size out + room rest + 1 ≤ room input ∧ whole (size rest) ∧ enc_chunks (size rest) < enc_chunks (size input).
Proof.
  revert st input. induction fuel as [|fuel IH]; intros st input Ho Hw Hf.
  { pose proof (enc_chunks_spec (size input)). pose proof (size_nonneg input). unfold_sizes. lia. }
  cbn [pull_padding]. destruct (Z.leb_spec (size input) ENCRYPT_CHUNK_OVERHEAD) as [|Hin]; [by left|]. rewrite bind_require by done.
  destruct (pull_chunk_cases st input Hin) as [->|(m & t & st' & rest & -> & _ & -> & Hm)]; [by left|].
  destruct (room_step input m Hin Hm) as [Hroom Hch]. rewrite bind_ret.
  apply whole_after in Hw. pose proof (room_whole _ Hw) as Hr. set (rest := safter ENCRYPTED_CHUNK_TOTAL input) in *.
  pose proof (size_nonneg m). destruct (find_nonzero m) as [[c r]|] eqn:E.
  - apply find_nonzero_size in E. destruct (c =? "001")%char; [|by left]. rewrite bind_require by done.
    rewrite write_to_run, bind_ret by (change (size "") with 0; lia).
    destruct (check_final_cases t rest) as [->|[[-> _]|[-> _]]]; [by left|..]; rewrite bind_ret; right;
      eexists st', rest, r, _; (split; [done|]; split_and!; [lia|done|lia]).
  - destruct (IH st' rest) as [->|(st2 & rest2 & out & dn & -> & ? & ? & ?)]; [lia|done|lia|by left|right].
    exists st2, rest2, out, dn. split_and!; (done || lia).
Qed.

(** The announced size suffices for input of whole chunks. *)
Lemma decrypted_max_inv z n :
  0 ≤ z < 2 ^ 63 → decrypted_max_size z = Some n →
  26 ≤ z ∧ n = z - 26 - enc_chunks (z - 26) * ENCRYPT_CHUNK_OVERHEAD.
Proof.
  intros Hz. unfold decrypted_max_size. destruct (Z.lt_ge_cases z 26) as [Hlt|Hge].
  - assert (wrap64 (z - 1 - 1 - ENCRYPT_HEADER) = z - 26 + 2 ^ 64) as E.
    { unfold wrap64, ENCRYPT_HEADER. rewrite <-(Z.mod_add _ 1) by done. rewrite Z.mod_small; lia. }
    rewrite E. assert (wrap64 (z - 26 + 2 ^ 64 + ENCRYPTED_CHUNK_TOTAL - 1) = z - 26 + ENCRYPTED_CHUNK_TOTAL - 1) as E2.
    { unfold wrap64. replace (z - 26 + 2 ^ 64 + ENCRYPTED_CHUNK_TOTAL - 1) with (z - 26 + ENCRYPTED_CHUNK_TOTAL - 1 + 1 * 2 ^ 64) by lia.
      rewrite Z.mod_add, Z.mod_small; unfold_sizes; lia. }
    rewrite E2, (Z.div_small (z - 26 + ENCRYPTED_CHUNK_TOTAL - 1)) by (unfold_sizes; lia).
    change (wrap64 (0 * ENCRYPT_CHUNK_OVERHEAD)) with 0. rewrite wrap64_small by lia.
    destruct (Z.ltb_spec z (z - 26 + 2 ^ 64 - 0)); [done|lia].
  - rewrite (wrap64_small (z - 1 - 1 - ENCRYPT_HEADER)) by (unfold_sizes; lia).
    rewrite (wrap64_small (z - 1 - 1 - ENCRYPT_HEADER + ENCRYPTED_CHUNK_TOTAL - 1)) by (unfold_sizes; lia).
    replace (z - 1 - 1 - ENCRYPT_HEADER) with (z - 26) by (unfold_sizes; lia). fold (enc_chunks (z - 26)).
    pose proof (enc_chunks_spec (z - 26)) as Hc.
    rewrite (wrap64_small (enc_chunks (z - 26) * ENCRYPT_CHUNK_OVERHEAD)) by (unfold_sizes; lia).
    destruct (Z.ltb_spec z (wrap64 (z - 26 - enc_chunks (z - 26) * ENCRYPT_CHUNK_OVERHEAD))) as [|Hw]; [done|].
    intros [= <-]. split; [done|]. destruct (Z.le_gt_cases 0 (z - 26 - enc_chunks (z - 26) * ENCRYPT_CHUNK_OVERHEAD)).
    + apply wrap64_small. unfold_sizes. lia.
    + unfold wrap64 in Hw. rewrite <-(Z.mod_add _ 1), Z.mod_small in Hw by (unfold_sizes; lia). unfold_sizes. lia.
Qed.

(** C15 (decryption stays in its buffer).  On every input whose chunks all have room
    for their tags, and into every buffer of at least the announced size,
    decryption returns at most that many bytes or throws [std::runtime_error]:
    it neither writes past the end of the buffer nor runs on. *)
Theorem decrypt_safe (encrypted key : bytes) (out_size max_size : Z) :
  size encrypted < 2 ^ 63 → whole (size encrypted - 25) →
  decrypted_max_size (size encrypted) = Some max_size → max_size ≤ out_size →
  decrypt_to_span encrypted key out_size = Throw runtime_error ∨
  ∃ data, decrypt_to_span encrypted key out_size = Ok data ∧ size data ≤ max_size.
Proof.
  intros Hsz Hw Hmax Hout. pose proof (size_nonneg encrypted). destruct (decrypted_max_inv (size encrypted) max_size ltac:(lia) Hmax) as [H26 Hn].
  unfold decrypt_to_span. rewrite Hmax. cbn [from_option_or]. rewrite bind_ret.
  destruct encrypted as [|c encrypted0] eqn:Eenc; [done|]. rewrite <-Eenc in *. subst encrypted. cbn [front_is_S]. rewrite bind_ret.
  destruct (c =? "S")%char; [|by left]. rewrite bind_require by done.
  rewrite bind_require by (apply negb_true_iff, Z.ltb_ge; lia).
  set (enc := String c encrypted0) in *. set (input := safter (1 + ENCRYPT_HEADER) enc).
  assert (size input = size enc - 25) as Hi by (unfold input; rewrite size_safter by done; unfold ENCRYPT_HEADER; lia).
  rewrite <-Hi in Hw.
  assert (room input - 1 ≤ max_size) as Hroom.
  { unfold room. rewrite Hi, Hn. pose proof (enc_chunks_spec (size enc - 25)). pose proof (enc_chunks_spec (size enc - 26)).
    unfold_sizes. lia. }
  set (fuel := (Z.to_nat (size enc / ENCRYPTED_CHUNK_TOTAL) + 2)%nat).
  assert (enc_chunks (size input) < Z.of_nat fuel) as Hf.
  { unfold fuel. assert (0 ≤ size enc / ENCRYPTED_CHUNK_TOTAL) by (apply Z.div_pos; [lia|done]).
    pose proof (enc_chunks_spec (size input)). pose proof (Z.mul_succ_div_gt (size enc) ENCRYPTED_CHUNK_TOTAL). unfold_sizes. lia. }
  destruct (pull_padding_safe fuel out_size (init_pull (sfirst ENCRYPT_HEADER (safter 1 enc)) key) input)
    as [->|(st' & rest & out & dn & -> & Hr & Hw' & Hc)]; [lia|done|done|by left|]. rewrite bind_ret.
  pose proof (room_whole _ Hw').
  destruct dn; [right; exists out; split; [done|lia]|].
  destruct (pull_data_safe fuel out_size st' rest out) as [->|(d & -> & Hd)]; [lia|done|lia|by left|right].
  exists d. split; [done|lia].
Qed.

(** Trailing bytes that are too few for a tag make the announced size too small
    for the chunks before them: the first chunk is copied past the end of the
    buffer before the trailing bytes are looked at. *)
Lemma trailing_bytes_overflow header key s c st' tail :
  size header = ENCRYPT_HEADER → size s = ENCRYPT_CHUNK_SIZE - 1 →
  stream_push (init_pull header key) (pad 1 s) 0 = (c, st') → 2 ≤ size tail < ENCRYPT_CHUNK_OVERHEAD →
  decrypt (String "S" header +:+ c +:+ tail) key = Throw undefined_behaviour.
Proof.
  intros Hh Hs E Ht. set (enc := String "S" header +:+ c +:+ tail).
  pose proof (push_size _ _ _ _ _ E) as Hc. rewrite size_pad in Hc by done.
  assert (size enc = 25 + ENCRYPTED_CHUNK_TOTAL + size tail) as Hen.
  { unfold enc. rewrite !size_app, size_char, Hh, Hc. unfold_sizes. lia. }
  assert (decrypted_max_size (size enc) = Some (ENCRYPTED_CHUNK_TOTAL + size tail - 35)) as Hmax.
  { unfold decrypted_max_size. rewrite Hen. rewrite (wrap64_small (_ - 1 - 1 - _)) by (unfold_sizes; lia).
    rewrite (wrap64_small (_ + _ - 1)) by (unfold_sizes; lia).
    replace ((25 + ENCRYPTED_CHUNK_TOTAL + size tail - 1 - 1 - ENCRYPT_HEADER + ENCRYPTED_CHUNK_TOTAL - 1) / ENCRYPTED_CHUNK_TOTAL) with 2
      by (apply (Z.div_unique_pos _ _ _ (size tail - 2)); unfold_sizes; lia).
    rewrite (wrap64_small (2 * _)) by done. rewrite wrap64_small by (unfold_sizes; lia).
    rewrite (proj2 (Z.ltb_ge _ _)) by (unfold_sizes; lia). f_equal. unfold_sizes. lia. }
  unfold decrypt, decrypt_to_span. rewrite Hmax. cbn [from_option_or]. rewrite !bind_ret.
  change (front_is_S enc) with (@Ok bool true). rewrite !bind_ret, !bind_require by (done || by rewrite Z.ltb_irrefl).
  assert (sfirst ENCRYPT_HEADER (safter 1 enc) = header) as ->.
  { change (safter 1 enc) with (header +:+ c +:+ tail). by apply sfirst_app. }
  assert (safter (1 + ENCRYPT_HEADER) enc = c +:+ tail) as -> by (apply safter_app; rewrite size_char, Hh; done).
  rewrite Nat.add_comm. cbn [Nat.add pull_padding].
  rewrite bind_require by (apply negb_true_iff, Z.leb_gt; rewrite size_app; unfold_sizes; lia).
  rewrite (pull_pushed _ _ _ _ _ _ E); [|done|left; rewrite size_pad by done; lia].
  rewrite bind_ret, find_nonzero_pad, bind_require by done. unfold write_to.
  rewrite (proj2 (Z.leb_gt _ _)) by (change (size "") with 0; unfold_sizes; lia). done.
Qed.

(** ** The decryptor *)

(** A decryptor without a limit that has not failed *)
Record live (d : Decryptor) : Prop := {
  live_limit : limit d = None;
  live_failed : failed d = false;
  live_finished : finished d = false;
  live_header : header d = true → is_Some (st_data d);
  live_buf : size (buf d) < (if header d then ENCRYPTED_CHUNK_TOTAL else 1 + ENCRYPT_HEADER);
}.

Lemma output_run s d : limit d = None → output s d = (Ok tt, put_written (written d +:+ s) d).
Proof. intros Hl. unfold output. rewrite run_mget, run_guard, Hl. done. Qed.

(** What a chunk does when it does not overflow the output *)
Definition chunk_effect (c : bytes) (st : stream_state) (d : Decryptor) : Decryptor :=
  if hit_final d then put_failed true d
  else if size c <? ENCRYPT_CHUNK_OVERHEAD then put_failed true d
  else match stream_pull st c with
    | None => put_failed true d
    | Some (out, tag, st) =>
        let d := put_st_data (Some st) d in
        let d := if tag =? TAG_FINAL then put_hit_final true d else d in
        if depadded d then put_written (written d +:+ out) d
        else match find_nonzero out with
          | None => d
          | Some (c, rest) =>
              if (c =? "001")%char then put_written (written d +:+ rest) (put_depadded true d) else put_failed true d
          end
    end.

Lemma put_written_same d : put_written (written d) d = d.
Proof. by destruct d. Qed.

Lemma process_chunk_run c st d :
  limit d = None → st_data d = Some st → process_chunk c d = (Ok tt, chunk_effect c st d).
Proof.
  intros Hl Hst. unfold process_chunk, chunk_effect. rewrite run_mget. destruct (hit_final d); [done|].
  destruct (size c <? ENCRYPT_CHUNK_OVERHEAD); [done|]. rewrite Hst. destruct (stream_pull st c) as [[[out tag] st2]|]; [|done].
  rewrite run_modify, run_when. cbv zeta.
  set (d1 := if tag =? TAG_FINAL then put_hit_final true (put_st_data (Some st2) d) else put_st_data (Some st2) d).
  assert (∀ m : M Decryptor (), (if tag =? TAG_FINAL then (modify (put_hit_final true);; m) (put_st_data (Some st2) d)
    else m (put_st_data (Some st2) d)) = m d1) as Hm by (intros m; unfold d1; by destruct (tag =? TAG_FINAL)).
  rewrite Hm. assert (limit d1 = None ∧ depadded d1 = depadded d ∧ written d1 = written d) as (Hl1 & Hd1 & Hw1) by (unfold d1; by destruct (tag =? TAG_FINAL)).
  rewrite Hd1. destruct (depadded d); cbn [negb]; [by apply output_run|].
  destruct (find_nonzero out) as [[x rest]|]; [|done]. destruct (x =? "001")%char; [|done]. cbn [negb].
  rewrite run_modify. destruct (Z.eqb_spec (size rest) 0) as [Hz|Hz]; cbn [negb when].
  - apply size_nil in Hz as ->. rewrite string_app_empty_r. change (written d1) with (written (put_depadded true d1)).
    by rewrite put_written_same.
  - by rewrite output_run.
Qed.

Lemma chunk_effect_fields c st d :
  let d' := chunk_effect c st d in
  buf d' = buf d ∧ header d' = header d ∧ limit d' = limit d ∧ finished d' = finished d ∧ dkey d' = dkey d ∧
  (is_Some (st_data d) → is_Some (st_data d')) ∧ (failed d = true → failed d' = true).
Proof.
  cbv zeta. unfold chunk_effect. destruct (hit_final d); [done|]. destruct (size c <? ENCRYPT_CHUNK_OVERHEAD); [done|].
  destruct (stream_pull st c) as [[[out tag] st2]|]; [|done]. cbv zeta.
  destruct (tag =? TAG_FINAL); cbn [depadded put_hit_final put_st_data];
    (destruct (depadded d); [by split_and!; eauto|]); destruct (find_nonzero out) as [[x r]|]; try destruct (x =? "001")%char; by split_and!; eauto.
Qed.

Lemma chunk_effect_buf b c st d : chunk_effect c st (put_buf b d) = put_buf b (chunk_effect c st d).
Proof.
  unfold chunk_effect. cbn [hit_final put_buf]. destruct (hit_final d); [done|]. destruct (size c <? ENCRYPT_CHUNK_OVERHEAD); [done|].
  destruct (stream_pull st c) as [[[out tag] st2]|]; [|done]. cbv zeta.
  destruct (tag =? TAG_FINAL); cbn [depadded put_hit_final put_st_data put_buf];
    (destruct (depadded d); [done|]); destruct (find_nonzero out) as [[x r]|]; try destruct (x =? "001")%char; done.
Qed.

(** ** Chunk by chunk *)

(** The loop over the chunks with the fuel it is given *)
Definition chunks (s : bytes) : M Decryptor (option bytes) :=
  process_chunks (Z.to_nat (size s / ENCRYPTED_CHUNK_TOTAL) + 1) s.

Lemma chunks_step s d :
  chunks s d = if ENCRYPTED_CHUNK_TOTAL <=? size s
               then (process_chunk (sfirst ENCRYPTED_CHUNK_TOTAL s);;
                     d ← mget;
                     if failed d then mret None else chunks (safter ENCRYPTED_CHUNK_TOTAL s)) d
               else (Ok (Some s), d).
Proof.
  unfold chunks at 1. rewrite Nat.add_comm. cbn [Nat.add process_chunks].
  destruct (Z.leb_spec ENCRYPTED_CHUNK_TOTAL (size s)) as [Hle|]; [|done].
  replace (Z.to_nat (size s / ENCRYPTED_CHUNK_TOTAL)) with (Z.to_nat (size (safter ENCRYPTED_CHUNK_TOTAL s) / ENCRYPTED_CHUNK_TOTAL) + 1)%nat; [done|].
  rewrite size_safter, Z.max_r by (done || lia).
  replace (size s / ENCRYPTED_CHUNK_TOTAL) with ((size s - ENCRYPTED_CHUNK_TOTAL + 1 * ENCRYPTED_CHUNK_TOTAL) / ENCRYPTED_CHUNK_TOTAL) by (f_equal; lia).
  rewrite Z.div_add by done. rewrite Z2Nat.inj_add; [done|apply Z.div_pos; [lia|done]|done].
Qed.

(** A decryptor that has its header, and nothing in its buffer *)
Record running (d : Decryptor) : Prop := {
  run_limit : limit d = None;
  run_failed : failed d = false;
  run_finished : finished d = false;
  run_header : header d = true;
  run_buf : buf d = "";
}.

Lemma put_buf_same d : buf d = "" → put_buf "" d = d.
Proof. destruct d. simpl. by intros ->. Qed.

Lemma chunk_running c st d :
  running d → failed (chunk_effect c st d) = false → running (chunk_effect c st d).
Proof.
  intros [H3 H4 H5 H6 H7] Hf. destruct (chunk_effect_fields c st d) as (Hb & Hh & Hl & Hfi & _).
  split; congruence.
Qed.

Lemma chunk_state c st d : st_data d = Some st → is_Some (st_data (chunk_effect c st d)).
Proof. intros E. destruct (chunk_effect_fields c st d) as (_ & _ & _ & _ & _ & Hs & _). apply Hs. by rewrite E. Qed.

(** One chunk of the loop *)
Lemma chunks_more s st d :
  running d → st_data d = Some st → ENCRYPTED_CHUNK_TOTAL ≤ size s →
  chunks s d = let d' := chunk_effect (sfirst ENCRYPTED_CHUNK_TOTAL s) st d in
    if failed d' then (Ok None, d') else chunks (safter ENCRYPTED_CHUNK_TOTAL s) d'.
Proof.
  intros Hd Hst Hs. rewrite chunks_step, (proj2 (Z.leb_le _ _) Hs), run_bind.
  rewrite (process_chunk_run _ st) by (done || apply Hd). rewrite run_mget. cbv zeta. by destruct (failed _).
Qed.

Lemma chunks_less s d : size s < ENCRYPTED_CHUNK_TOTAL → chunks s d = (Ok (Some s), d).
Proof. intros Hs. rewrite chunks_step. by rewrite (proj2 (Z.leb_gt _ _)). Qed.

(** Induction over the whole chunks of an input *)
Lemma chunks_ind (P : bytes → Prop) :
  (∀ s, size s < ENCRYPTED_CHUNK_TOTAL → P s) →
  (∀ s, ENCRYPTED_CHUNK_TOTAL ≤ size s → P (safter ENCRYPTED_CHUNK_TOTAL s) → P s) → ∀ s, P s.
Proof.
  intros Hless Hmore s. remember (Z.to_nat (size s)) as n eqn:Hn. revert s Hn.
  induction (lt_wf n) as [n _ IH]. intros s ->. destruct (Z.lt_ge_cases (size s) ENCRYPTED_CHUNK_TOTAL) as [Hs|Hs]; [by apply Hless|].
  apply Hmore; [done|]. eapply IH; [|done]. rewrite size_safter by done. unfold_sizes. lia.
Qed.

Lemma chunks_run s d :
  running d → is_Some (st_data d) →
  ∃ r d', chunks s d = (Ok r, d') ∧
    match r with
    | None => failed d' = true
    | Some rest => running d' ∧ is_Some (st_data d') ∧ size rest < ENCRYPTED_CHUNK_TOTAL
    end.
Proof.
  revert s d. apply (chunks_ind (λ s, ∀ d, running d → is_Some (st_data d) → _)); intros s Hs.
  - intros d Hd Hst. rewrite chunks_less by done. by exists (Some s), d.
  - intros IH d Hd [st Hst]. rewrite (chunks_more s st) by done. cbv zeta.
    destruct (failed (chunk_effect (sfirst ENCRYPTED_CHUNK_TOTAL s) st d)) eqn:Ef; [by eexists None, _|].
    apply IH; [by apply chunk_running|by apply chunk_state].
Qed.

Lemma sfirst_within n a b : n ≤ size a → sfirst n (a +:+ b) = sfirst n a.
Proof.
  intros Hn. unfold sfirst. assert (Z.to_nat n ≤ String.length a)%nat as Hl by (unfold size in Hn; lia). revert Hl. clear.
  generalize (Z.to_nat n). intros k. revert a. induction k as [|k IH]; intros a Hl; [done|].
  destruct a as [|x a]; cbn [String.length] in Hl; [lia|]. cbn [String.append stake]. by rewrite IH by lia.
Qed.
Lemma safter_within n a b : n ≤ size a → safter n (a +:+ b) = safter n a +:+ b.
Proof.
  intros Hn. unfold safter. assert (Z.to_nat n ≤ String.length a)%nat as Hl by (unfold size in Hn; lia). revert Hl. clear.
  generalize (Z.to_nat n). intros k. revert a. induction k as [|k IH]; intros a Hl; [done|].
  destruct a as [|x a]; cbn [String.length] in Hl; [lia|]. cbn [String.append sdrop]. by rewrite IH by lia.
Qed.

(** The loop stops where the input does, and goes on from there. *)
Lemma chunks_app a b d :
  running d → is_Some (st_data d) →
  chunks (a +:+ b) d = match chunks a d with
                       | (Ok (Some rest), d') => chunks (rest +:+ b) d'
                       | r => r
                       end.
Proof.
  revert a d. apply (chunks_ind (λ a, ∀ d, running d → is_Some (st_data d) → _)); intros a Ha.
  - intros d _ _. by rewrite (chunks_less a).
  - intros IH d Hd [st Hst]. rewrite (chunks_more a st) by done.
    rewrite (chunks_more (a +:+ b) st); [|done..|rewrite size_app; pose proof (size_nonneg b); lia]. cbv zeta.
    rewrite sfirst_within, safter_within by done.
    destruct (failed (chunk_effect (sfirst ENCRYPTED_CHUNK_TOTAL a) st d)) eqn:Ef; [done|].
    apply IH; [by apply chunk_running|by apply chunk_state].
Qed.

(** ** Pieces of input *)

(** What a decryptor with an empty buffer does with input *)
Definition tail_chunks (s : bytes) : M Decryptor bool :=
  r ← chunks s;
  match r with None => mret false | Some rest => modify (put_buf rest);; mret true end.

Definition absorb (s : bytes) : M Decryptor bool :=
  d ← mget;
  if header d then tail_chunks s
  else if 1 + ENCRYPT_HEADER <=? size s then
    process_header (sfirst (1 + ENCRYPT_HEADER) s);;
    d ← mget;
    if failed d then mret false else tail_chunks (safter (1 + ENCRYPT_HEADER) s)
  else modify (put_buf s);; mret true.

(** A decryptor that has nothing in its buffer *)
Definition empty_buf (d : Decryptor) : Prop := live d ∧ buf d = "".

Lemma empty_running d : empty_buf d → header d = true → running d ∧ is_Some (st_data d).
Proof. intros [[? ? ? Hst _] ?] Hh. split; [done|auto]. Qed.

Lemma running_live d rest :
  running d → is_Some (st_data d) → size rest < ENCRYPTED_CHUNK_TOTAL → live (put_buf rest d).
Proof. intros [? ? ? Hh ?] Hst Hr. split; cbn [limit failed finished header st_data buf put_buf]; rewrite ?Hh; auto. Qed.

Lemma tail_chunks_run s d :
  running d → is_Some (st_data d) →
  ∃ r d', tail_chunks s d = (Ok r, d') ∧ if (r : bool) then live d' else failed d' = true.
Proof.
  intros Hd Hst. unfold tail_chunks. rewrite run_bind. destruct (chunks_run s d Hd Hst) as ([rest|] & d' & -> & Hr).
  - destruct Hr as (? & ? & ?). exists true, (put_buf rest d'). split; [done|by apply running_live].
  - by exists false, d'.
Qed.

Lemma tail_chunks_eq s d :
  tail_chunks s d = match chunks s d with
                    | (Ok None, d') => (Ok false, d')
                    | (Ok (Some rest), d') => (Ok true, put_buf rest d')
                    | (Throw e, d') => (Throw e, d')
                    end.
Proof. unfold tail_chunks. rewrite run_bind. by destruct (chunks s d) as [[[rest|]|e] d']. Qed.

Lemma tail_chunks_app a b d :
  running d → is_Some (st_data d) →
  tail_chunks (a +:+ b) d = match tail_chunks a d with
                            | (Ok true, d') => tail_chunks (buf d' +:+ b) (put_buf "" d')
                            | r => r
                            end.
Proof.
  intros Hd Hst. rewrite (tail_chunks_eq a), (tail_chunks_eq (a +:+ b)), chunks_app by done.
  destruct (chunks_run a d Hd Hst) as ([rest|] & d' & -> & Hr); [|done]. destruct Hr as (Hd' & _ & _).
  cbv beta iota. change (put_buf "" (put_buf rest d')) with (put_buf "" d'). rewrite put_buf_same by apply Hd'.
  by rewrite tail_chunks_eq.
Qed.

(** The header leaves a running decryptor or a failed one. *)
Lemma process_header_run s d :
  empty_buf d → size s = 1 + ENCRYPT_HEADER →
  ∃ d', process_header s d = (Ok tt, d') ∧
    (failed d' = true ∧ front_is_S s = Ok false ∨
     front_is_S s = Ok true ∧ d' = put_header true (put_st_data (Some (init_pull (safter 1 s) (dkey d))) d) ∧ running d').
Proof.
  intros [[? ? ? _ _] Hb] Hs. destruct s as [|c s]; [done|]. unfold process_header. cbn [front_is_S].
  rewrite run_lift. destruct (c =? "S")%char; cbn [negb].
  - eexists. split; [done|]. right. split_and!; [done..|]. by split.
  - eexists. split; [done|]. by left.
Qed.

Lemma absorb_run s d :
  empty_buf d → ∃ r d', absorb s d = (Ok r, d') ∧ if (r : bool) then live d' else failed d' = true.
Proof.
  intros Hd. unfold absorb. rewrite run_mget. destruct (header d) eqn:Hh.
  - destruct (empty_running d Hd Hh). by apply tail_chunks_run.
  - destruct (Z.leb_spec (1 + ENCRYPT_HEADER) (size s)) as [Hs|Hs].
    + rewrite run_bind. destruct (process_header_run (sfirst (1 + ENCRYPT_HEADER) s) d Hd) as (d' & -> & Hd').
      { rewrite size_sfirst by done. lia. }
      rewrite run_mget. destruct Hd' as [[Hf _]|(_ & E & Hr)]; [rewrite Hf; by exists false, d'|].
      rewrite (run_failed _ Hr). apply tail_chunks_run; [done|]. by rewrite E.
    + exists true, (put_buf s d). split; [done|]. destruct Hd as [[? ? ? Hst _] _].
      split; cbn [limit failed finished header st_data buf put_buf]; [done..|]. by rewrite Hh.
Qed.

Lemma absorb_header d s : header d = true → absorb s d = tail_chunks s d.
Proof. intros Hh. unfold absorb. by rewrite run_mget, Hh. Qed.

Lemma absorb_app a b d :
  empty_buf d →
  absorb (a +:+ b) d = match absorb a d with
                       | (Ok true, d') => absorb (buf d' +:+ b) (put_buf "" d')
                       | r => r
                       end.
Proof.
  intros Hd.
  assert (∀ s d, running d → is_Some (st_data d) →
    tail_chunks (s +:+ b) d = match tail_chunks s d with (Ok true, d') => absorb (buf d' +:+ b) (put_buf "" d') | r => r end) as Htail.
  { intros s d0 Hd0 Hst0. rewrite tail_chunks_app, (tail_chunks_eq s) by done.
    destruct (chunks_run s d0 Hd0 Hst0) as ([rest|] & d' & -> & Hr); [|done]. destruct Hr as (Hd' & _ & _).
    symmetry. apply absorb_header. apply Hd'. }
  destruct (header d) eqn:Hh.
  { rewrite !absorb_header by done. destruct (empty_running d Hd Hh). by apply Htail. }
  unfold absorb at 1 2. rewrite !run_mget, Hh.
  destruct (Z.leb_spec (1 + ENCRYPT_HEADER) (size a)) as [Hs|Hs].
  - rewrite (proj2 (Z.leb_le (1 + ENCRYPT_HEADER) (size (a +:+ b)))) by (rewrite size_app; pose proof (size_nonneg b); lia).
    rewrite sfirst_within, safter_within, !run_bind by done.
    destruct (process_header_run (sfirst (1 + ENCRYPT_HEADER) a) d Hd) as (d' & -> & Hd'); [rewrite size_sfirst by done; lia|].
    rewrite !run_mget. destruct Hd' as [[-> _]|(_ & E & Hr)]; [done|]. rewrite (run_failed _ Hr). apply Htail; [done|]. by rewrite E.
  - change ((modify (put_buf a);; mret true) d) with (@Ok bool true, put_buf a d). cbv beta iota.
    change (put_buf "" (put_buf a d)) with (put_buf "" d). rewrite put_buf_same by apply Hd.
    unfold absorb. by rewrite run_mget, Hh.
Qed.

(** The last part of [update] *)
Lemma update_tail s d :
  buf d = "" → (∀ r d', chunks s d = (Ok r, d') → buf d' = "") →
  (r ← chunks s;
   match r with
   | None => mret false
   | Some rest => when (negb (size rest =? 0)) (modify (put_buf rest));; mret true
   end) d = tail_chunks s d.
Proof.
  intros Hb Hc. rewrite tail_chunks_eq, run_bind. destruct (chunks s d) as [[[rest|]|e] d'] eqn:E; [|done..].
  rewrite run_when. destruct (Z.eqb_spec (size rest) 0) as [Hz|]; [|done]. cbn [negb]. apply size_nil in Hz as ->.
  by rewrite put_buf_same by by eapply Hc.
Qed.

Lemma chunks_buf s d : running d → is_Some (st_data d) → ∀ r d', chunks s d = (Ok r, d') → buf d' = "".
Proof.
  revert s d. apply (chunks_ind (λ s, ∀ d, running d → is_Some (st_data d) → ∀ r d', chunks s d = (Ok r, d') → buf d' = ""));
    intros s Hs.
  - intros d Hd _ r d'. rewrite chunks_less by done. intros [= <- <-]. apply Hd.
  - intros IH d Hd [st Hst] r d'. rewrite (chunks_more s st) by done. cbv zeta.
    destruct (failed (chunk_effect (sfirst ENCRYPTED_CHUNK_TOTAL s) st d)) eqn:Ef.
    + intros [= <- <-]. destruct (chunk_effect_fields (sfirst ENCRYPTED_CHUNK_TOTAL s) st d) as (-> & _). apply Hd.
    + apply IH; [by apply chunk_running|by apply chunk_state].
Qed.

Lemma use_buf_empty x d : buf d = "" → use_buf x d = (Ok (inr x), d).
Proof. intros Hb. unfold use_buf. by rewrite run_mget, Hb. Qed.
Lemma use_header_known x d : header d = true → use_header x d = (Ok (inr x), d).
Proof. intros Hh. unfold use_header. by rewrite run_mget, Hh. Qed.

(** With an empty buffer [update] is [absorb]. *)
Lemma update_empty x d : empty_buf d → update x d = absorb x d.
Proof.
  intros Hd. pose proof Hd as [[Hl Hf Hfi Hst Hsz] Hb]. unfold update. rewrite run_mget, Hf, run_guard, Hfi. cbn [negb].
  rewrite run_bind, use_buf_empty by done. cbv beta iota. rewrite run_bind.
  unfold absorb. rewrite run_mget. destruct (header d) eqn:Hh.
  - rewrite use_header_known by done. cbv beta iota.
    destruct (empty_running d Hd Hh). apply update_tail; [done|]. by apply chunks_buf.
  - unfold use_header. rewrite run_mget, Hh. destruct (Z.leb_spec (1 + ENCRYPT_HEADER) (size x)) as [Hs|Hs]; [|done].
    rewrite !run_bind. destruct (process_header_run (sfirst (1 + ENCRYPT_HEADER) x) d Hd) as (d' & -> & Hd').
    { rewrite size_sfirst by done. lia. }
    rewrite !run_mget. destruct Hd' as [[Hf' _]|(_ & E & Hr)]; [by rewrite Hf'|]. rewrite (run_failed _ Hr).
    rewrite mret_run.
    cbv beta iota. apply update_tail; [apply Hr|]. apply chunks_buf; [done|by rewrite E].
Qed.

(** The size up to which the buffer is filled, and what is used for it *)
Definition target (d : Decryptor) : Z := if header d then ENCRYPTED_CHUNK_TOTAL else 1 + ENCRYPT_HEADER.
Definition use_filled (d : Decryptor) (filled : bytes) : M Decryptor () :=
  if header d then process_chunk filled else process_header filled.

Lemma empty_of_live d : live d → empty_buf (put_buf "" d).
Proof.
  intros [? ? ? Hst ?]. split; [|done]. split; cbn [limit failed finished header st_data buf put_buf]; [done..|].
  by destruct (header d).
Qed.

(** Using the filled buffer does not look at the buffer. *)
Lemma use_filled_run d filled :
  live d → size filled = target d →
  ∃ d1, use_filled d filled (put_buf filled d) = (Ok tt, put_buf filled d1) ∧ buf d1 = "" ∧
    absorb filled (put_buf "" d) = (Ok (negb (failed d1)), d1) ∧ (failed d1 = false → empty_buf d1).
Proof.
  intros Hd Hsz. pose proof (empty_of_live d Hd) as He. destruct Hd as [Hl Hf Hfi Hst Hb]. unfold use_filled, target in *.
  unfold absorb. rewrite run_mget. change (header (put_buf "" d)) with (header d). destruct (header d) eqn:Hh.
  - destruct (Hst eq_refl) as [st Est]. destruct (empty_running _ He Hh) as [Hr Hs]. set (d1 := chunk_effect filled st (put_buf "" d)).
    assert (buf d1 = "") as Hb1 by (unfold d1; by rewrite chunk_effect_buf).
    exists d1. split_and!; [|done|..].
    + rewrite (process_chunk_run filled st) by done. unfold d1. by rewrite !chunk_effect_buf.
    + rewrite tail_chunks_eq, (chunks_more filled st) by (done || lia). cbv zeta.
      rewrite sfirst_all, safter_all by lia. fold d1. destruct (failed d1); [done|].
      rewrite chunks_less by done. by rewrite put_buf_same.
    + intros Hf1. assert (running d1) as Hr1 by by apply chunk_running. split; [|done].
      rewrite <-(put_buf_same d1) by done. apply running_live; [done|by apply chunk_state|done].
  - destruct (process_header_run filled _ He Hsz) as (d1 & E & Hd1). rewrite Hsz, Z.leb_refl, sfirst_all, safter_all by lia.
    rewrite run_bind, E, run_mget. exists d1.
    assert (process_header filled (put_buf filled d) = (Ok tt, put_buf filled d1) ∧ buf d1 = "") as [-> Hb1].
    { destruct filled as [|c f]; [done|]. revert E. unfold process_header. cbn [front_is_S]. rewrite !run_lift.
      destruct (c =? "S")%char; cbn [negb]; intros [= <-]; done. }
    split_and!; [done|done|..].
    + destruct (failed d1) eqn:Ef; [done|]. destruct Hd1 as [[? _]|(_ & E1 & Hr)]; [congruence|].
      rewrite tail_chunks_eq, chunks_less by done. by rewrite put_buf_same.
    + intros Hf1. destruct Hd1 as [[? _]|(_ & E1 & Hr)]; [congruence|]. split; [|done].
      rewrite <-(put_buf_same d1) by done. apply running_live; [done|by rewrite E1|done].
Qed.

(** Filling the buffer is putting it in front of the input. *)
Lemma update_absorb x d : live d → update x d = absorb (buf d +:+ x) (put_buf "" d).
Proof.
  intros Hd. destruct (Z.eq_dec (size (buf d)) 0) as [Hz|Hz].
  { apply size_nil in Hz. rewrite Hz, put_buf_same by done. apply update_empty. split; done. }
  pose proof (empty_of_live d Hd) as He. pose proof Hd as [Hl Hf Hfi Hst Hsz]. fold (target d) in Hsz.
  pose proof (size_nonneg (buf d)) as Hb0. pose proof (size_nonneg x) as Hx0.
  set (steal := Z.min (target d - size (buf d)) (size x)).
  set (filled := buf d +:+ sfirst steal x). set (x' := safter steal x).
  assert (buf d +:+ x = filled +:+ x') as Esplit by (unfold filled, x'; by rewrite sapp_assoc, sfirst_safter).
  unfold update. rewrite run_mget, Hf, run_guard, Hfi. cbn [negb]. unfold use_buf. rewrite run_bind, run_mget.
  rewrite (proj2 (Z.eqb_neq _ _) Hz). fold (target d). fold steal. fold filled x'. rewrite run_modify.
  destruct (Z.eqb_spec (size filled) (target d)) as [Hfill|Hfill]; cbn [negb].
  - destruct (use_filled_run d filled Hd Hfill) as (d1 & E & Hb1 & Ha & He1).
    rewrite Esplit, absorb_app, Ha by done. fold (use_filled d filled). rewrite run_bind, E, run_modify, run_mget.
    change (put_buf "" (put_buf filled d1)) with (put_buf "" d1). rewrite put_buf_same by done.
    destruct (failed d1) eqn:Ef; [done|]. cbn [negb]. rewrite Hb1. change ("" +:+ x') with x'.
    rewrite <-(update_empty x' d1) by auto. destruct (He1 eq_refl) as [[? ? Hfi1 _ _] _].
    unfold update. rewrite run_mget, Ef, run_guard, Hfi1. cbn [negb]. by rewrite run_bind, use_buf_empty.
  - assert (sfirst steal x = x) as Ex.
    { apply sfirst_all. unfold filled in Hfill. rewrite size_app, size_sfirst in Hfill; unfold steal in *; lia. }
    unfold filled in *. rewrite Ex in *. clear filled.
    assert (size (buf d +:+ x) < target d) as Hlt.
    { rewrite size_app in *. pose proof (f_equal size Ex) as Hx. rewrite size_sfirst in Hx by (unfold steal; lia). unfold steal in Hx. lia. }
    unfold absorb. rewrite run_mget. change (header (put_buf "" d)) with (header d). unfold target in Hlt. destruct (header d).
    + by rewrite tail_chunks_eq, chunks_less.
    + by rewrite (proj2 (Z.leb_gt _ _)).
Qed.

(** ** Any way of cutting the input *)
Definition joined (l : list bytes) : bytes := foldr String.append "" l.

Lemma feed_failed l d : failed d = true → feed l d = (Ok tt, d).
Proof.
  intros Hf. induction l as [|x l IH]; [done|]. cbn [feed]. rewrite run_bind. unfold update. rewrite run_mget, Hf. exact IH.
Qed.

Lemma feed_run l d : live d → feed l d = (Ok tt, (absorb (buf d +:+ joined l) (put_buf "" d)).2).
Proof.
  revert d; induction l as [|x l IH]; intros d Hd; cbn [feed joined foldr].
  - rewrite string_app_empty_r. change (skip d) with (@Ok () tt, d). f_equal.
    pose proof (update_absorb "" d Hd) as E. rewrite string_app_empty_r in E. rewrite <-E. destruct Hd as [Hl Hf Hfi Hst Hsz].
    unfold update. rewrite run_mget, Hf, run_guard, Hfi. cbn [negb]. destruct (Z.eq_dec (size (buf d)) 0) as [Hz|Hz].
    + apply size_nil in Hz. rewrite run_bind, use_buf_empty by done. cbv beta iota. rewrite run_bind.
      destruct (header d) eqn:Hh; [rewrite use_header_known by done; done|]. unfold use_header. rewrite run_mget, Hh.
      change (1 + ENCRYPT_HEADER <=? size "") with false. cbv iota. rewrite run_modify, put_buf_same by done. done.
    + rewrite run_bind. unfold use_buf. rewrite run_mget, (proj2 (Z.eqb_neq _ _) Hz). fold (target d) in *.
      assert (sfirst (Z.min (target d - size (buf d)) (size "")) "" = "") as ->
        by (unfold sfirst; by destruct (Z.to_nat _)).
      rewrite string_app_empty_r, run_modify, (proj2 (Z.eqb_neq _ _)) by lia. cbn. by destruct d.
  - rewrite run_bind, update_absorb by done. fold (joined l). rewrite <-sapp_assoc, (absorb_app (buf d +:+ x) (joined l)) by by apply empty_of_live.
    destruct (absorb_run (buf d +:+ x) (put_buf "" d) (empty_of_live d Hd)) as ([] & d' & -> & Hd').
    + by apply IH.
    + by apply feed_failed.
Qed.

Lemma new_live key : live (new_decryptor key None).
Proof. by split. Qed.

(** Feeding pieces to a new decryptor and finishing *)
Definition stream_all (l : list bytes) (key : bytes) : result bool * Decryptor :=
  (feed l;; finalize) (new_decryptor key None).

Lemma stream_all_run l key :
  stream_all l key = finalize (absorb (joined l) (new_decryptor key None)).2.
Proof. unfold stream_all. rewrite run_bind, feed_run by apply new_live. done. Qed.

(** ** Finishing *)

(** What is left to do after the header *)
Definition drain (s : bytes) (d : Decryptor) : result bool * Decryptor := finalize (tail_chunks s d).2.

Definition finish (d : Decryptor) : result bool * Decryptor :=
  if failed d then (Ok false, d) else if hit_final d then (Ok true, d) else (Ok false, put_failed true d).

Lemma finalize_empty d : buf d = "" → finalize d = finish d.
Proof.
  intros Hb. unfold finalize, finish. rewrite run_mget. destruct (failed d) eqn:Hf; [done|].
  rewrite run_when, Hb. change (size "" =? 0) with true. cbn [negb]. rewrite run_mget, Hf. by destruct (hit_final d).
Qed.

Lemma drain_last s st d :
  running d → st_data d = Some st → 0 < size s ≤ ENCRYPTED_CHUNK_TOTAL → drain s d = finish (chunk_effect s st d).
Proof.
  intros Hd Hst Hs. pose proof (run_buf _ Hd) as Hb. unfold drain. rewrite tail_chunks_eq.
  assert (buf (chunk_effect s st d) = "") as Hb' by (destruct (chunk_effect_fields s st d) as (-> & _); done).
  destruct (Z.eq_dec (size s) ENCRYPTED_CHUNK_TOTAL) as [He|Hne].
  - rewrite (chunks_more s st) by (done || lia). cbv zeta. rewrite sfirst_all, safter_all by lia.
    destruct (failed (chunk_effect s st d)) eqn:Ef; [cbn [snd]; by apply finalize_empty|].
    rewrite chunks_less by done. cbn [snd]. rewrite put_buf_same by done. by apply finalize_empty.
  - rewrite chunks_less by lia. cbn [snd]. unfold finalize. rewrite run_mget. change (failed (put_buf s d)) with (failed d).
    rewrite (run_failed _ Hd), run_when. change (buf (put_buf s d)) with s. rewrite (proj2 (Z.eqb_neq (size s) 0)) by lia. cbn [negb].
    rewrite run_bind. assert ((process_chunk s;; modify (put_buf "")) (put_buf s d) = (Ok tt, chunk_effect s st d)) as ->.
    { rewrite run_bind, (process_chunk_run s st) by (done || apply Hd). rewrite chunk_effect_buf.
      change (modify (put_buf "") (put_buf s (chunk_effect s st d))) with (@Ok () tt, put_buf "" (chunk_effect s st d)).
      by rewrite put_buf_same. }
    rewrite run_mget. unfold finish. destruct (failed _); [done|]. by destruct (hit_final _).
Qed.

Lemma drain_more s st d :
  running d → st_data d = Some st → ENCRYPTED_CHUNK_TOTAL ≤ size s →
  drain s d = let d' := chunk_effect (sfirst ENCRYPTED_CHUNK_TOTAL s) st d in
    if failed d' then (Ok false, d') else drain (safter ENCRYPTED_CHUNK_TOTAL s) d'.
Proof.
  intros Hd Hst Hs. unfold drain. rewrite !tail_chunks_eq, (chunks_more s st) by done. cbv zeta.
  set (d' := chunk_effect _ st d).
  assert (buf d' = "") as Hb' by (destruct (chunk_effect_fields (sfirst ENCRYPTED_CHUNK_TOTAL s) st d) as (E & _); unfold d'; rewrite E; apply Hd).
  destruct (failed d') eqn:Ef; [|done]. cbn [snd]. rewrite finalize_empty by done. unfold finish. by rewrite Ef.
Qed.

(** After the final chunk nothing is accepted any more. *)
Lemma drain_after_final s d : running d → is_Some (st_data d) → hit_final d = true → 0 < size s → (drain s d).1 = Ok false.
Proof.
  intros Hd [st Hst] Hfin Hs.
  assert (∀ c, chunk_effect c st d = put_failed true d) as Hc by (intros c; unfold chunk_effect; by rewrite Hfin).
  destruct (Z.le_gt_cases (size s) ENCRYPTED_CHUNK_TOTAL).
  - rewrite (drain_last s st), Hc by done. done.
  - rewrite (drain_more s st), Hc by (done || lia). done.
Qed.

(** ** What was encrypted comes out *)

(** A running decryptor in a state of the stream *)
Record at_state (st : stream_state) (dp : bool) (d : Decryptor) : Prop := {
  at_running : running d;
  at_st : st_data d = Some st;
  at_depadded : depadded d = dp;
  at_final : hit_final d = false;
}.

Lemma effect_pushed st m t c st' d dp :
  stream_push st m t = (c, st') → 0 ≤ t < 256 → at_state st dp d →
  chunk_effect c st d =
    (let d := put_st_data (Some st') d in
     let d := if t =? TAG_FINAL then put_hit_final true d else d in
     if dp then put_written (written d +:+ m) d
     else match find_nonzero m with
       | None => d
       | Some (c, rest) => if (c =? "001")%char then put_written (written d +:+ rest) (put_depadded true d) else put_failed true d
       end).
Proof.
  intros E Ht [Hd Hst Hdp Hfin]. unfold chunk_effect. rewrite Hfin.
  pose proof (push_size _ _ _ _ _ E) as Hc. pose proof (size_nonneg m).
  rewrite (proj2 (Z.ltb_ge _ _)) by lia. pose proof (stream_roundtrip st m t Ht) as Hr. rewrite E in Hr. cbn [fst snd] in Hr.
  rewrite Hr. cbv zeta. destruct (t =? TAG_FINAL); cbn [depadded put_hit_final put_st_data]; by rewrite Hdp.
Qed.

Lemma drain_data st s e d :
  sealed st s e → at_state st true d → 1 ≤ size s →
  ∃ d', drain e d = (Ok true, d') ∧ written d' = written d +:+ s.
Proof.
  intros Hse. revert d. induction Hse as [st s Hs|st s c st' e Hs E Hse IH]; intros d Hd Hone.
  - destruct (stream_push st s TAG_FINAL) as [c st'] eqn:E. cbn [fst]. pose proof (push_size _ _ _ _ _ E) as Hc.
    rewrite (drain_last c st) by (apply Hd || (unfold_sizes; lia)).
    rewrite (effect_pushed _ _ _ _ _ _ _ E) by done. cbv zeta. change (TAG_FINAL =? TAG_FINAL) with true. cbv iota.
    unfold finish. cbn [failed put_written put_hit_final put_st_data]. rewrite (run_failed d) by apply Hd. by eexists.
  - pose proof (push_size _ _ _ _ _ E) as Hc. rewrite size_sfirst in Hc by done.
    assert (size c = ENCRYPTED_CHUNK_TOTAL) as HcT by (unfold_sizes; lia).
    rewrite (drain_more (c +:+ e) st) by (apply Hd || (rewrite size_app; pose proof (size_nonneg e); lia)). cbv zeta.
    rewrite sfirst_app, safter_app by done. rewrite (effect_pushed _ _ _ _ _ _ _ E) by done. cbv zeta.
    change (0 =? TAG_FINAL) with false. cbv iota. set (d1 := put_written _ _).
    assert (at_state st' true d1) as Hd1 by (destruct Hd as [[? ? ? ? ?] ? ? ?]; by split).
    rewrite (run_failed d1) by apply Hd1. destruct (IH d1 Hd1) as (d' & -> & Hw); [rewrite size_safter by done; lia|].
    exists d'. split; [done|]. rewrite Hw. unfold d1. cbn [written put_written put_st_data]. by rewrite sapp_assoc, sfirst_safter.
Qed.

Lemma drain_pad st p s e d :
  sealed st (pad p s) e → 1 ≤ p → at_state st false d →
  ∃ d', drain e d = (Ok true, d') ∧ written d' = written d +:+ s.
Proof.
  intros Hse. remember (pad p s) as x eqn:Ex. revert p s d Ex. induction Hse as [st x Hs|st x c st' e Hs E Hse IH]; intros p s d -> Hp Hd;
    pose proof (size_pad p s Hp) as Hsp; pose proof (size_nonneg s).
  - destruct (stream_push st (pad p s) TAG_FINAL) as [c st'] eqn:E. cbn [fst]. pose proof (push_size _ _ _ _ _ E) as Hc.
    rewrite (drain_last c st) by (apply Hd || (unfold_sizes; lia)).
    rewrite (effect_pushed _ _ _ _ _ _ _ E) by done. rewrite find_nonzero_pad. cbv zeta. change (TAG_FINAL =? TAG_FINAL) with true.
    change ("001" =? "001")%char with true. cbv iota.
    unfold finish. cbn [failed put_written put_hit_final put_st_data put_depadded]. rewrite (run_failed d) by apply Hd. by eexists.
  - pose proof (push_size _ _ _ _ _ E) as Hc. rewrite size_sfirst in Hc by done.
    assert (size c = ENCRYPTED_CHUNK_TOTAL) as HcT by (unfold_sizes; lia).
    rewrite (drain_more (c +:+ e) st) by (apply Hd || (rewrite size_app; pose proof (size_nonneg e); lia)). cbv zeta.
    rewrite sfirst_app, safter_app by done. rewrite (effect_pushed _ _ _ _ _ _ _ E) by done. cbv zeta.
    change (0 =? TAG_FINAL) with false. cbv iota. destruct (Z.lt_ge_cases ENCRYPT_CHUNK_SIZE p) as [Hlong|Hshort].
    + destruct (pad_long ENCRYPT_CHUNK_SIZE p s) as [Ef Ea]; [done|]. rewrite Ef, find_nonzero_zeros.
      set (d1 := put_st_data _ _). assert (at_state st' false d1) as Hd1 by (destruct Hd as [[? ? ? ? ?] ? ? ?]; by split).
      rewrite (run_failed d1) by apply Hd1. apply (IH (p - ENCRYPT_CHUNK_SIZE) s d1); [done|lia|done].
    + destruct (pad_short ENCRYPT_CHUNK_SIZE p s) as [Ef Ea]; [lia|]. rewrite Ef, find_nonzero_pad.
      change ("001" =? "001")%char with true. cbv iota. set (d1 := put_written _ _).
      assert (at_state st' true d1) as Hd1 by (destruct Hd as [[? ? ? ? ?] ? ? ?]; by split).
      rewrite (run_failed d1) by apply Hd1. rewrite Ea in Hse.
      destruct (drain_data _ _ _ d1 Hse Hd1) as (d' & -> & Hw); [rewrite size_safter; lia|].
      exists d'. split; [done|]. rewrite Hw. unfold d1. cbn [written put_written put_st_data put_depadded].
      by rewrite sapp_assoc, sfirst_safter.
Qed.

(** The header of an encryption *)
Lemma absorb_encryption hdr key e d :
  size hdr = ENCRYPT_HEADER → d = new_decryptor key None →
  ∃ d1, at_state (init_pull hdr key) false d1 ∧ written d1 = "" ∧
    absorb (String "S" hdr +:+ e) d = tail_chunks e d1.
Proof.
  intros Hh ->. assert (size (String "S" hdr) = 1 + ENCRYPT_HEADER) as H25 by (rewrite size_char, Hh; done).
  destruct (process_header_run (String "S" hdr) (new_decryptor key None)) as (d1 & E & Hd1); [by split; [apply new_live|]|done|].
  destruct Hd1 as [[_ ?]|(_ & E1 & Hr)]; [done|]. exists d1. split_and!.
  - subst d1. by split.
  - by subst d1.
  - unfold absorb. rewrite run_mget. change (header (new_decryptor key None)) with false. cbv iota.
    rewrite (proj2 (Z.leb_le _ _)) by (rewrite size_app, H25; pose proof (size_nonneg e); lia).
    rewrite sfirst_app, safter_app by done. rewrite run_bind, E, run_mget. by rewrite (run_failed _ Hr).
Qed.

Lemma stream_encryption data nonce_key enc l :
  size nonce_key = 56 → 1 ≤ encrypted_padding (size data) → encryption data nonce_key enc → joined l = enc →
  ∃ d', stream_all l (key_of nonce_key) = (Ok true, d') ∧ written d' = data.
Proof.
  intros Hnk Hp Henc Hl. rewrite stream_all_run, Hl.
  destruct (encryption_sealed _ _ _ Hnk Henc) as (header & e & -> & Hh & Hse).
  destruct (absorb_encryption header (key_of nonce_key) e _ Hh eq_refl) as (d1 & Hd1 & Hw & ->).
  destruct (drain_pad _ _ _ _ d1 Hse Hp Hd1) as (d' & E & Hw'). exists d'. split; [exact E|]. by rewrite Hw', Hw.
Qed.

(** ** A limit that is not reached does not matter *)
Definition limited (n : Z) (d : Decryptor) : Decryptor :=
  mkDecryptor (Some n) (written d) (buf d) (header d) (depadded d) (failed d) (finished d) (hit_final d) (dkey d) (st_data d).

Definition unlimited {A} (n : Z) (m : M Decryptor A) : Prop := ∀ d r d',
  limit d = None → m d = (Ok r, d') →
  limit d' = None ∧ size (written d) ≤ size (written d') ∧
  (size (written d') ≤ n → m (limited n d) = (Ok r, limited n d')).

Section limits.
Context (n : Z).

Lemma unlimited_ret {A} (a : A) : unlimited n (mret a).
Proof. intros d r d' Hl [= -> ->]. split_and!; done. Qed.
Lemma unlimited_throw {A} e : unlimited n (throw e : M Decryptor A).
Proof. intros d r d' _ [=]. Qed.
Lemma unlimited_modify f :
  (∀ d, limit (f d) = limit d ∧ written (f d) = written d ∧ f (limited n d) = limited n (f d)) → unlimited n (modify f).
Proof. intros Hf d r d' Hl [= <- <-]. destruct (Hf d) as (E1 & E2 & E3). split_and!; [congruence|by rewrite E2|]. intros _. unfold modify. by rewrite E3. Qed.
Lemma unlimited_read {A} (f : Decryptor → M Decryptor A) :
  (∀ d, f (limited n d) = f d) → (∀ d, unlimited n (f d)) → unlimited n (d ← mget; f d).
Proof.
  intros He Hf d r d' Hl. rewrite run_mget. intros E. destruct (Hf d d r d' Hl E) as (? & ? & Hn).
  split_and!; [done..|]. intros Hw. rewrite run_mget, He. auto.
Qed.
Lemma unlimited_bind {A B} (m : M Decryptor A) (f : A → M Decryptor B) :
  unlimited n m → (∀ a, unlimited n (f a)) → unlimited n (x ← m; f x).
Proof.
  intros Hm Hf d r d' Hl E. apply M_bind_Ok in E as (a & d1 & E1 & E2).
  destruct (Hm _ _ _ Hl E1) as (Hl1 & Hs1 & Hn1). destruct (Hf a _ _ _ Hl1 E2) as (Hl2 & Hs2 & Hn2).
  split_and!; [done|lia|]. intros Hw. rewrite run_bind, Hn1 by lia. auto.
Qed.
Lemma unlimited_output s : unlimited n (output s).
Proof.
  intros d r d' Hl. rewrite output_run by done. intros [= <- <-]. cbn [limit written put_written].
  rewrite size_app. pose proof (size_nonneg s). split_and!; [done|lia|]. intros Hw. unfold output.
  rewrite run_mget, run_guard. cbn [limit limited]. rewrite (proj2 (Z.leb_le _ _)) by done. done.
Qed.
End limits.

(** Splits a computation along its text. *)
Ltac unlimited_step :=
  lazymatch goal with
  | |- unlimited _ (mbind _ mget) => apply unlimited_read; [done|intros ?]
  | |- unlimited _ (mbind _ _) => apply unlimited_bind; [|intros ?]
  | |- unlimited _ (modify _) => apply unlimited_modify; done
  | |- unlimited _ (mret _) => apply unlimited_ret
  | |- unlimited _ skip => apply unlimited_ret
  | |- unlimited _ (throw _) => apply unlimited_throw
  | |- unlimited _ (output _) => apply unlimited_output
  | |- unlimited _ (when ?b _) => destruct b; cbn [when]
  | |- unlimited _ (guard_ ?b _) => destruct b; cbn [guard_]
  | |- unlimited _ (if ?b then _ else _) => destruct b
  | |- unlimited _ (match ?b with _ => _ end) => destruct b
  end.

Lemma unlimited_chunk n c : unlimited n (process_chunk c).
Proof. unfold process_chunk. repeat unlimited_step. Qed.
Lemma unlimited_header n s : unlimited n (process_header s).
Proof.
  unfold process_header. apply unlimited_bind; [|intros ?; repeat unlimited_step].
  intros d r d' Hl [= -> ->]. split_and!; done.
Qed.
Lemma unlimited_chunks n fuel s : unlimited n (process_chunks fuel s).
Proof.
  revert s; induction fuel as [|fuel IH]; intros s; cbn [process_chunks]; [apply unlimited_throw|].
  repeat unlimited_step; [apply unlimited_chunk|apply IH].
Qed.
Lemma unlimited_update n s : unlimited n (update s).
Proof.
  unfold update, use_buf, use_header. repeat (unlimited_step || apply unlimited_chunk || apply unlimited_header || apply unlimited_chunks).
Qed.
Lemma unlimited_feed n l : unlimited n (feed l).
Proof. induction l as [|s l IH]; cbn [feed]; repeat unlimited_step; [apply unlimited_update|apply IH]. Qed.
Lemma unlimited_finalize n : unlimited n finalize.
Proof. unfold finalize. repeat (unlimited_step || apply unlimited_chunk). Qed.

(** (streamed round trip).  The decryptor, fed an encryption in pieces of any
    size, accepts it and gives out exactly the data; and so do the functions
    that decrypt to a file, from a file to memory and from a file to a file. *)
Theorem stream_roundtrip_any_split (seed data enc key : bytes) (domain : Z) (allow_large : bool) (l : list bytes) :
  accepted seed data allow_large → size_ok (size data) →
  encrypt_to_vector seed data domain allow_large = Ok (enc, key) → joined l = enc →
  (∃ d, stream_all l key = (Ok true, d) ∧ written d = data) ∧
  decrypt_to_file enc key = Ok data ∧ decrypt_file_to_file enc key = Ok data ∧ decrypt_file_to_vector enc key = Ok data.
Proof.
  intros Ha Hok Henc Hl. pose proof (nonce_key_size seed data domain) as Hnk. pose proof (size_nonneg data).
  destruct (encryption_exists data (nonce_key_of seed data domain)) as [enc' He].
  rewrite (encrypt_vector_run _ _ _ _ _ Ha Hok He) in Henc. injection Henc as -> <-.
  pose proof (encryption_size _ _ _ Hnk Hok He) as Hsz. destruct Hok as [Hd Hodd].
  destruct (padding_chunks (size data) ltac:(lia) Hodd) as [Hp _].
  assert (decrypted_max_size (size enc) = Some (size data + encrypted_padding (size data) - 1)) as Hmax.
  { rewrite Hsz, encrypted_size_run by lia. apply decrypted_max_run. lia. }
  pose proof (λ l, stream_encryption data _ enc l Hnk ltac:(lia) He) as Hs.
  split; [by apply Hs|]. split_and!.
  - destruct (Hs [enc]) as (d & E & Hw); [apply string_app_empty_r|]. unfold stream_all in E. cbn [feed] in E.
    apply M_bind_Ok in E as ([] & d1 & E1 & E2). apply M_bind_Ok in E1 as (b & d2 & E1 & [= <-]).
    unfold decrypt_to_file, outcome_of. rewrite run_bind, E1, run_bind, E2, run_mget. by rewrite <-Hw.
  - destruct (Hs (read_pieces enc)) as (d & E & Hw); [apply read_pieces_concat|].
    unfold decrypt_file_to_file, outcome_of. rewrite Hmax. cbn [from_option_or]. rewrite bind_ret.
    unfold stream_all in E. apply M_bind_Ok in E as ([] & d1 & E1 & E2).
    rewrite run_bind, E1, run_bind, E2, run_mget. by rewrite <-Hw.
  - destruct (Hs (read_pieces enc)) as (d & E & Hw); [apply read_pieces_concat|].
    unfold decrypt_file_to_vector, decrypt_file, outcome_of. rewrite Hmax. cbn [from_option_or].
    rewrite !bind_ret, bind_require by apply Z.eqb_refl. set (n := size data + encrypted_padding (size data) - 1).
    change (new_decryptor (key_of (nonce_key_of seed data domain)) (Some n))
      with (limited n (new_decryptor (key_of (nonce_key_of seed data domain)) None)).
    unfold stream_all in E. apply M_bind_Ok in E as ([] & d1 & E1 & E2).
    destruct (unlimited_feed n (read_pieces enc) (new_decryptor (key_of (nonce_key_of seed data domain)) None) tt d1 eq_refl E1) as (Hl1 & _ & Hf). destruct (unlimited_finalize n _ _ _ Hl1 E2) as (_ & Hm & Hg).
    rewrite Hw in *. rewrite run_bind, Hf by (unfold n; lia). rewrite run_bind, Hg by (unfold n; lia). rewrite run_mget.
    cbn. by rewrite Hw.
Qed.

(** ** The decryptor and decryption in one go agree *)

(** What an accepted chunk was *)
Lemma effect_accepted st dp d c :
  at_state st dp d → failed (chunk_effect c st d) = false →
  ENCRYPT_CHUNK_OVERHEAD ≤ size c ∧
  ∃ m t st', stream_pull st c = Some (m, t, st') ∧
    let d' := chunk_effect c st d in
    st_data d' = Some st' ∧ hit_final d' = (t =? TAG_FINAL) ∧
    (if dp then depadded d' = true ∧ written d' = written d +:+ m
     else match find_nonzero m with
       | None => depadded d' = false ∧ written d' = written d
       | Some (x, r) => x = "001"%char ∧ depadded d' = true ∧ written d' = written d +:+ r
       end).
Proof.
  intros [Hd Hst Hdp Hfin]. unfold chunk_effect. rewrite Hfin.
  destruct (Z.ltb_spec (size c) ENCRYPT_CHUNK_OVERHEAD); [done|]. destruct (stream_pull st c) as [[[m t] st']|]; [|done].
  intros Hf. split; [done|]. exists m, t, st'. split; [done|]. cbv zeta in *. revert Hf.
  destruct (t =? TAG_FINAL); cbn [depadded put_hit_final put_st_data]; rewrite Hdp;
    (destruct dp; [done|]); destruct (find_nonzero m) as [[x r]|]; try done;
    destruct (Ascii.eqb_spec x "001"%char) as [->|]; done.
Qed.

Lemma finish_accepts d d' : finish d = (Ok true, d') → failed d = false ∧ hit_final d = true ∧ d' = d.
Proof. unfold finish. destruct (failed d); [done|]. destruct (hit_final d); [|done]. by intros [= <-]. Qed.

(** The last chunk is not empty, and all chunks have room for their tags. *)
Definition last_not_empty (z : Z) : Prop := z mod ENCRYPTED_CHUNK_TOTAL ≠ ENCRYPT_CHUNK_OVERHEAD.

Lemma last_not_empty_after s :
  ENCRYPTED_CHUNK_TOTAL ≤ size s → last_not_empty (size s) → last_not_empty (size (safter ENCRYPTED_CHUNK_TOTAL s)).
Proof.
  intros Hs Hl. unfold last_not_empty in *. rewrite size_safter, Z.max_r by (done || lia). rewrite <-(Z.mod_add _ 1) by done.
  by replace (size s - ENCRYPTED_CHUNK_TOTAL + 1 * ENCRYPTED_CHUNK_TOTAL) with (size s) by lia.
Qed.

(** An accepted input is a last chunk, or a chunk that is not final and more. *)
Lemma drain_cases st dp d d' s :
  at_state st dp d → drain s d = (Ok true, d') → last_not_empty (size s) →
  ENCRYPT_CHUNK_OVERHEAD < size s ∧
  ∃ d1, d1 = chunk_effect (sfirst ENCRYPTED_CHUNK_TOTAL s) st d ∧ failed d1 = false ∧
    (size s ≤ ENCRYPTED_CHUNK_TOTAL ∧ hit_final d1 = true ∧ d' = d1 ∨
     ENCRYPTED_CHUNK_TOTAL < size s ∧ hit_final d1 = false ∧ drain (safter ENCRYPTED_CHUNK_TOTAL s) d1 = (Ok true, d')).
Proof.
  intros Hat E Hne. pose proof Hat as [Hd Hst Hdp Hfin]. pose proof (size_nonneg s).
  destruct (Z.eq_dec (size s) 0) as [Hz|Hz].
  { apply size_nil in Hz as ->. unfold drain in E. rewrite tail_chunks_eq, chunks_less in E by done. cbn [snd] in E.
    rewrite put_buf_same, finalize_empty in E by apply Hd. apply finish_accepts in E as (_ & ? & _). congruence. }
  destruct (Z.le_gt_cases (size s) ENCRYPTED_CHUNK_TOTAL) as [Hle|Hgt].
  - rewrite (drain_last s st) in E by (done || lia). apply finish_accepts in E as (Hf & Hh & ->).
    destruct (effect_accepted st dp d s Hat Hf) as [H17 _]. split.
    { destruct (Z.eq_dec (size s) ENCRYPT_CHUNK_OVERHEAD) as [E|]; [|lia]. destruct Hne. rewrite E. done. }
    exists (chunk_effect s st d). rewrite sfirst_all by done. split_and!; [done..|]. by left.
  - split; [unfold_sizes; lia|]. rewrite (drain_more s st) in E by (done || lia). cbv zeta in E.
    exists (chunk_effect (sfirst ENCRYPTED_CHUNK_TOTAL s) st d). set (d1 := chunk_effect _ st d) in *. split; [done|].
    destruct (failed d1) eqn:Ef; [done|]. split; [done|right]. split; [done|]. split; [|done].
    destruct (hit_final d1) eqn:Eh; [|done]. pose proof (drain_after_final (safter ENCRYPTED_CHUNK_TOTAL s) d1) as Hbad.
    rewrite E in Hbad. exfalso. cut (@Ok bool true = Ok false); [done|]. apply Hbad; [by apply chunk_running|by apply chunk_state|done|].
    rewrite size_safter by done. lia.
Qed.

Lemma pull_chunk_some st s m t st' :
  ENCRYPT_CHUNK_OVERHEAD < size s → stream_pull st (sfirst ENCRYPTED_CHUNK_TOTAL s) = Some (m, t, st') →
  pull_chunk st s = Ok (m, t, st', safter ENCRYPTED_CHUNK_TOTAL s) ∧
  room s = size m + room (safter ENCRYPTED_CHUNK_TOTAL s) ∧
  enc_chunks (size s) = 1 + enc_chunks (size (safter ENCRYPTED_CHUNK_TOTAL s)).
Proof.
  intros Hs E. destruct (pull_chunk_cases st s Hs) as [Hp|(m' & t' & st2 & rest & Hp & E' & -> & Hm)].
  - exfalso. unfold pull_chunk in Hp. set (k := Z.min _ _ + _) in Hp.
    assert (sfirst k s = sfirst ENCRYPTED_CHUNK_TOTAL s) as Ek.
    { destruct (Z.le_gt_cases ENCRYPTED_CHUNK_TOTAL (size s)).
      - f_equal. unfold k. unfold_sizes. lia.
      - rewrite !sfirst_all; [done|unfold k; unfold_sizes; lia..]. }
    rewrite Ek, E in Hp. done.
  - rewrite E in E'. injection E' as <- <- <-. split; [done|]. by apply room_step.
Qed.

Lemma check_final_last t s : (t =? TAG_FINAL) = true → size s = 0 → check_final t s = Ok true.
Proof. intros Ht Hs. unfold check_final. by rewrite Ht, Hs. Qed.
Lemma check_final_more t s : (t =? TAG_FINAL) = false → 0 < size s → check_final t s = Ok false.
Proof. intros Ht Hs. unfold check_final. rewrite Ht. by rewrite (proj2 (Z.eqb_neq (size s) 0)) by lia. Qed.

Lemma drain_whole st dp d d' s : at_state st dp d → drain s d = (Ok true, d') → last_not_empty (size s) → whole (size s).
Proof.
  revert s st dp d. apply (chunks_ind (λ s, ∀ st dp d, at_state st dp d → drain s d = (Ok true, d') → last_not_empty (size s) → whole (size s)));
    intros s Hs.
  - intros st dp d Hat E Hne. destruct (drain_cases st dp d d' s Hat E Hne) as [H17 _]. right. rewrite Z.mod_small; [lia|].
    pose proof (size_nonneg s). lia.
  - intros IH st dp d Hat E Hne. destruct (drain_cases st dp d d' s Hat E Hne) as (_ & d1 & -> & Hf & [(Hle & _)|(Hgt & Hh & E1)]).
    + left. replace (size s) with ENCRYPTED_CHUNK_TOTAL by lia. done.
    + destruct (effect_accepted st dp d _ Hat Hf) as (_ & m & t & st' & _ & Est & _).
      assert (whole (size (safter ENCRYPTED_CHUNK_TOTAL s))) as Hw.
      { eapply (IH st' (depadded (chunk_effect (sfirst ENCRYPTED_CHUNK_TOTAL s) st d))); [|exact E1|by apply last_not_empty_after].
        split; [|done..]. apply chunk_running; [apply Hat|done]. }
      unfold whole in *. rewrite size_safter, Z.max_r in Hw by (done || lia). rewrite <-(Z.mod_add _ 1) in Hw by done.
      by replace (size s - ENCRYPTED_CHUNK_TOTAL + 1 * ENCRYPTED_CHUNK_TOTAL) with (size s) in Hw by lia.
Qed.

Lemma drain_pull_data s st d d' fuel out_size out :
  at_state st true d → drain s d = (Ok true, d') → last_not_empty (size s) →
  size out + room s ≤ out_size → enc_chunks (size s) < Z.of_nat fuel →
  ∃ x, written d' = written d +:+ x ∧ pull_data fuel out_size st s out = Ok (out +:+ x).
Proof.
  intros Hat E Hne. pose proof (drain_whole _ _ _ _ _ Hat E Hne) as Hw. revert s st d out Hat E Hne Hw.
  induction fuel as [|fuel IH]; intros s st d out Hat E Hne Hw Ho Hf.
  { pose proof (enc_chunks_spec (size s)). pose proof (size_nonneg s). unfold_sizes. lia. }
  destruct (drain_cases st true d d' s Hat E Hne) as (H17 & d1 & -> & Hfl & Hcase).
  destruct (effect_accepted st true d _ Hat Hfl) as (_ & m & t & st' & Hpull & Hst' & Hfin & Hdp & Hwr).
  destruct (pull_chunk_some st s m t st' H17 Hpull) as (Hpc & Hroom & Hch).
  apply whole_after in Hw. pose proof (room_whole _ Hw).
  cbn [pull_data]. rewrite bind_require by by apply negb_true_iff, Z.leb_gt. rewrite Hpc, bind_ret.
  rewrite write_to_run, bind_ret by lia. set (d1 := chunk_effect _ st d) in *.
  assert (size (safter ENCRYPTED_CHUNK_TOTAL s) = Z.max 0 (size s - ENCRYPTED_CHUNK_TOTAL)) as Hsz by by apply size_safter.
  destruct Hcase as [(Hle & Hh & ->)|(Hgt & Hh & E1)]; rewrite Hfin in Hh.
  - rewrite check_final_last, bind_ret by (done || lia). by exists m.
  - rewrite check_final_more, bind_ret by (done || lia).
    destruct (IH (safter ENCRYPTED_CHUNK_TOTAL s) st' d1 (out +:+ m)) as (x & Hx & ->); [|done|apply last_not_empty_after; (done || lia)|done|rewrite size_app; lia|lia|].
    { split; [apply chunk_running; [apply Hat|done]|done..|by rewrite Hfin]. }
    exists (m +:+ x). by rewrite Hx, Hwr, !sapp_assoc.
Qed.

Lemma drain_pull_padding s st d d' fuel out_size fuel' :
  at_state st false d → drain s d = (Ok true, d') → depadded d' = true → last_not_empty (size s) →
  room s ≤ out_size + 1 → enc_chunks (size s) < Z.of_nat fuel → (fuel ≤ fuel')%nat →
  ∃ x, written d' = written d +:+ x ∧
    ('(st, input, out, done) ← pull_padding fuel out_size st s;
     if (done : bool) then Ok out else pull_data fuel' out_size st input out) = Ok x.
Proof.
  intros Hat E Hdep Hne. pose proof (drain_whole _ _ _ _ _ Hat E Hne) as Hw. revert s st d Hat E Hne Hw.
  induction fuel as [|fuel IH]; intros s st d Hat E Hne Hw Ho Hf Hff.
  { pose proof (enc_chunks_spec (size s)). pose proof (size_nonneg s). unfold_sizes. lia. }
  destruct (drain_cases st false d d' s Hat E Hne) as (H17 & d1 & -> & Hfl & Hcase).
  destruct (effect_accepted st false d _ Hat Hfl) as (_ & m & t & st' & Hpull & Hst' & Hfin & Hwr).
  destruct (pull_chunk_some st s m t st' H17 Hpull) as (Hpc & Hroom & Hch).
  apply whole_after in Hw. pose proof (room_whole _ Hw). pose proof (size_nonneg m).
  cbn [pull_padding]. rewrite bind_require by by apply negb_true_iff, Z.leb_gt. rewrite Hpc, bind_ret.
  set (d1 := chunk_effect _ st d) in *.
  assert (size (safter ENCRYPTED_CHUNK_TOTAL s) = Z.max 0 (size s - ENCRYPTED_CHUNK_TOTAL)) as Hsz by by apply size_safter.
  assert (∀ dp, depadded d1 = dp → (t =? TAG_FINAL) = false → at_state st' dp d1) as Hat1.
  { intros dp Hdp Ht. split; [apply chunk_running; [apply Hat|done]|done..|congruence]. }
  destruct (find_nonzero m) as [[c r]|] eqn:Efn.
  - destruct Hwr as (-> & Hd1 & Hwr). apply find_nonzero_size in Efn. rewrite bind_require by done.
    rewrite write_to_run, bind_ret by (change (size "") with 0; lia).
    destruct Hcase as [(Hle & Hh & ->)|(Hgt & Hh & E1)]; rewrite Hfin in Hh.
    + rewrite check_final_last, bind_ret by (done || lia). by exists r.
    + rewrite check_final_more, !bind_ret by (done || lia).
      destruct (drain_pull_data (safter ENCRYPTED_CHUNK_TOTAL s) st' d1 d' fuel' out_size r) as (x & Hx & Ep);
        [by apply Hat1|done|apply last_not_empty_after; (done || lia)|lia|lia|].
      exists (r +:+ x). split; [by rewrite Hx, Hwr, sapp_assoc|exact Ep].
  - destruct Hwr as (Hd1 & Hwr). destruct Hcase as [(Hle & Hh & ->)|(Hgt & Hh & E1)]; [congruence|]. rewrite Hfin in Hh.
    destruct (IH (safter ENCRYPTED_CHUNK_TOTAL s) st' d1) as (x & Hx & Ep);
      [by apply Hat1|done|apply last_not_empty_after; (done || lia)|done|lia|lia|lia|].
    exists x. split; [by rewrite Hx, Hwr|exact Ep].
Qed.

Lemma decrypted_max_some z :
  17 < z - 25 → z < 2 ^ 63 → whole (z - 25) → last_not_empty (z - 25) →
  ∃ n, decrypted_max_size z = Some n.
Proof.
  intros Hz Hz63 Hw Hne. unfold decrypted_max_size.
  rewrite (wrap64_small (z - 1 - 1 - ENCRYPT_HEADER)) by (unfold_sizes; lia).
  rewrite (wrap64_small (z - 1 - 1 - ENCRYPT_HEADER + ENCRYPTED_CHUNK_TOTAL - 1)) by (unfold_sizes; lia).
  replace (z - 1 - 1 - ENCRYPT_HEADER) with (z - 26) by (unfold_sizes; lia). fold (enc_chunks (z - 26)).
  pose proof (enc_chunks_spec (z - 26)) as Hc. rewrite (wrap64_small (enc_chunks (z - 26) * ENCRYPT_CHUNK_OVERHEAD)) by (unfold_sizes; lia).
  assert (0 ≤ z - 26 - enc_chunks (z - 26) * ENCRYPT_CHUNK_OVERHEAD).
  { unfold whole, last_not_empty in *. unfold_sizes. Z.div_mod_to_equations. lia. }
  rewrite wrap64_small by (unfold_sizes; lia). rewrite (proj2 (Z.ltb_ge _ _)) by (unfold_sizes; lia). eauto.
Qed.

(** Accepted input starts with a header. *)
Lemma stream_accepts_header l key d :
  stream_all l key = (Ok true, d) →
  ∃ hdr e d1, joined l = String "S" hdr +:+ e ∧ size hdr = ENCRYPT_HEADER ∧
    at_state (init_pull hdr key) false d1 ∧ written d1 = "" ∧ drain e d1 = (Ok true, d).
Proof.
  rewrite stream_all_run. set (enc := joined l). intros E.
  destruct (Z.lt_ge_cases (size enc) (1 + ENCRYPT_HEADER)) as [Hlt|Hge].
  - exfalso. revert E. unfold absorb. rewrite run_mget. change (header (new_decryptor key None)) with false. cbv iota.
    rewrite (proj2 (Z.leb_gt _ _)) by done. rewrite run_modify. cbn [snd]. rewrite mret_run. cbn [snd].
    unfold finalize. rewrite run_mget. change (failed (put_buf enc (new_decryptor key None))) with false. cbv iota.
    rewrite run_when. change (buf (put_buf enc (new_decryptor key None))) with enc. destruct (size enc =? 0); cbn [negb].
    { rewrite run_mget. done. }
    rewrite !run_bind. unfold process_chunk. rewrite run_mget. cbn [hit_final put_buf new_decryptor st_data].
    by destruct (size enc <? ENCRYPT_CHUNK_OVERHEAD).
  - destruct enc as [|c rest] eqn:Eenc; [done|]. destruct (Ascii.eqb_spec c "S"%char) as [->|Hc].
    + rewrite <-(sfirst_safter ENCRYPT_HEADER rest) in E |- *. set (hdr := sfirst ENCRYPT_HEADER rest) in *. set (e := safter ENCRYPT_HEADER rest) in *.
      assert (size hdr = ENCRYPT_HEADER) as Hh.
      { unfold hdr. rewrite size_char in Hge. rewrite size_sfirst by done. lia. }
      destruct (absorb_encryption hdr key e _ Hh eq_refl) as (d1 & Hd1 & Hw & Ea).
      change (String "S" (hdr +:+ e)) with (String "S" hdr +:+ e) in *. rewrite Ea in E. by exists hdr, e, d1.
    + exfalso. revert E. unfold absorb. rewrite run_mget. change (header (new_decryptor key None)) with false. cbv iota.
      rewrite (proj2 (Z.leb_le _ _)) by done. rewrite run_bind.
      change (sfirst (1 + ENCRYPT_HEADER) (String c rest)) with (String c (stake 24 rest)).
      unfold process_header. cbn [front_is_S]. rewrite run_lift. destruct (Ascii.eqb_spec c "S"%char); [done|]. cbn [negb]. done.
Qed.

(** C13 (the two decryptions agree).  How the input is cut into pieces does not
    matter, for any input: the outcome, the output and the final state are the
    same.  And if the decryptor accepts an input in which the padding ends and
    the last chunk is not empty, decryption in one go returns the output it has
    written.  Without these two conditions it need not: a stream that ends
    within its padding is accepted in pieces and refused in one go
    ([padding_only_accepted]). *)
Theorem stream_agrees (l : list bytes) (key : bytes) :
  (∀ l', joined l' = joined l → stream_all l' key = stream_all l key) ∧
  (∀ d, stream_all l key = (Ok true, d) → depadded d = true →
     size (joined l) < 2 ^ 63 → last_not_empty (size (joined l) - 25) →
     decrypt (joined l) key = Ok (written d)).
Proof.
  split; [intros l' Hl; by rewrite !stream_all_run, Hl|]. intros d E Hdep H63 Hne.
  destruct (stream_accepts_header l key d E) as (hdr & e & d1 & Ej & Hh & Hd1 & Hw1 & Ed). rewrite Ej in *.
  assert (size (String "S" hdr +:+ e) = 25 + size e) as Hsz by (rewrite size_app, size_char, Hh; unfold ENCRYPT_HEADER; lia).
  rewrite Hsz in *. replace (25 + size e - 25) with (size e) in Hne by lia.
  destruct (drain_cases _ _ _ _ _ Hd1 Ed Hne) as [H17 _]. pose proof (drain_whole _ _ _ _ _ Hd1 Ed Hne) as Hwh.
  destruct (decrypted_max_some (25 + size e)) as [n Hn]; [unfold ENCRYPT_CHUNK_OVERHEAD in H17; lia|done|by replace (25 + size e - 25) with (size e) by lia..|].
  destruct (decrypted_max_inv (25 + size e) n ltac:(pose proof (size_nonneg e); lia) Hn) as [H26 En].
  set (fuel := (Z.to_nat ((25 + size e) / ENCRYPTED_CHUNK_TOTAL) + 2)%nat).
  destruct (drain_pull_padding e _ d1 d fuel n fuel Hd1 Ed Hdep Hne) as (x & Hx & Ep); [| |done|].
  { unfold room. pose proof (enc_chunks_spec (size e)). pose proof (enc_chunks_spec (25 + size e - 26)). unfold_sizes. lia. }
  { unfold fuel. assert (0 ≤ (25 + size e) / ENCRYPTED_CHUNK_TOTAL) by (apply Z.div_pos; [lia|done]).
    pose proof (enc_chunks_spec (size e)). pose proof (Z.mul_succ_div_gt (25 + size e) ENCRYPTED_CHUNK_TOTAL). unfold_sizes. lia. }
  rewrite Hx, Hw1. change ("" +:+ x) with x. rewrite <-Ep. unfold decrypt, decrypt_to_span. rewrite Hsz, Hn. cbn [from_option_or]. rewrite !bind_ret.
  change (front_is_S (String "S" hdr +:+ e)) with (@Ok bool true). rewrite !bind_ret, !bind_require by (done || by rewrite Z.ltb_irrefl).
  assert (sfirst ENCRYPT_HEADER (safter 1 (String "S" hdr +:+ e)) = hdr) as ->.
  { change (safter 1 (String "S" hdr +:+ e)) with (hdr +:+ e). by apply sfirst_app. }
  by rewrite (safter_app (1 + ENCRYPT_HEADER)) by (rewrite size_char, Hh; done).
Qed.
End stream.

(** ** Examples *)
Definition sample_attachment : bytes * bytes :=
  match encrypt_to_vector sample_seed "picture" 1 false with Ok p => p | Throw _ => ("", "") end.
Definition sample_enc : bytes := sample_attachment.1.
Definition sample_key : bytes := sample_attachment.2.

Lemma sample_encrypted : encrypt_to_vector sample_seed "picture" 1 false = Ok (sample_enc, sample_key).
Proof. vm_compute. reflexivity. Qed.
Lemma sample_enc_size : size sample_enc = 4096.
Proof. vm_compute. reflexivity. Qed.

Lemma decrypt_safe_witness :
  decrypt_to_span sample_enc sample_key 5000 = Throw runtime_error ∨
  ∃ data, decrypt_to_span sample_enc sample_key 5000 = Ok data ∧ size data ≤ 4053.
Proof.
  apply (decrypt_safe sample_enc sample_key 5000 4053); [rewrite sample_enc_size..|lia].
  - reflexivity.
  - right. vm_compute. discriminate.
  - vm_compute. reflexivity.
Defined.

Lemma stream_roundtrip_any_split_witness :
  ∃ d, stream_all [stake 10 sample_enc; sdrop 10 sample_enc] sample_key = (Ok true, d) ∧ written d = "picture".
Proof.
  destruct (stream_roundtrip_any_split sample_seed "picture" sample_enc sample_key 1 false [stake 10 sample_enc; sdrop 10 sample_enc])
    as [Hs _]; [..|exact Hs].
  - split; [vm_compute; discriminate|right; vm_compute; discriminate].
  - split; vm_compute; discriminate.
  - exact sample_encrypted.
  - unfold joined. cbn [foldr]. rewrite string_app_empty_r. apply stake_sdrop.
Defined.

Lemma stream_agrees_witness :
  stream_all [sample_enc] sample_key = stream_all [stake 10 sample_enc; sdrop 10 sample_enc] sample_key.
Proof.
  destruct (stream_agrees [stake 10 sample_enc; sdrop 10 sample_enc] sample_key) as [Hs _]. apply Hs.
  unfold joined. cbn [foldr]. rewrite !string_app_empty_r. symmetry. apply stake_sdrop.
Defined.

(** ** What the code does not intend *)

(** Decrypting with a wrong key throws, but not when it decrypts to a file: the
    results of [update] and [finalize] are ignored and an empty file is left. *)
Example wrong_key_to_file :
  decrypt sample_enc sample_seed = Throw runtime_error ∧
  decrypt_to_file sample_enc sample_seed = Ok "" ∧ decrypt_file_to_file sample_enc sample_seed = Ok "" ∧
  decrypt_file_to_vector sample_enc sample_seed = Ok "".
Proof. vm_compute. done. Qed.

(** Finishing before the header is complete uses a stream state that was never
    initialised. *)
Example finalize_before_header : (stream_all [zeros 20] sample_seed).1 = Throw undefined_behaviour.
Proof. vm_compute. reflexivity. Qed.

(** [finished] is never set: more data can be given after the end. *)
Example update_after_finalize :
  (stream_all [sample_enc] sample_key).1 = Ok true ∧
  (update "more" (stream_all [sample_enc] sample_key).2).1 = Ok true.
Proof. vm_compute. done. Qed.

(** A stream that ends in its padding is accepted piece by piece, not in one go. *)
Definition padding_only : bytes :=
  String "S" (zeros 24) +:+ (stream_push (init_pull (zeros 24) sample_seed) (zeros 5) TAG_FINAL).1.
Example padding_only_accepted :
  (stream_all [padding_only] sample_seed).1 = Ok true ∧ decrypt padding_only sample_seed = Throw runtime_error.
Proof. vm_compute. done. Qed.

(** Encrypting a file looks at neither the size of the seed nor that of the file. *)
Lemma encrypt_file_unchecked (seed content : bytes) (domain : Z) :
  encrypt_file_to_vector seed content domain false = encrypt_file_to_vector seed content domain true ∧
  encrypt_file_to_vector "" content domain false = Throw undefined_behaviour.
Proof. done. Qed.
