(* ===== verification/HopEncryption.v ===== *)
(** * Encryption of onion request layers

    [src/onionreq/hop_encryption.cpp] and [hop_encryption.hpp], the key types
    of [src/network/key_types.cpp] and the encryption types of
    [src/onionreq/builder.cpp]: one layer of an onion request or the reply to
    it, encrypted with a key that client and node compute by a Diffie-Hellman
    exchange. *)

From Stdlib Require Import ZArith String Ascii Lia.
From stdpp Require Import base option list strings numbers.
From S2P Require Import Prelude OrderedMap Bt Bencode Crypto Encrypt Text Ids MultiEncrypt.

(** ** The libraries

    [crypto_auth_hmacsha256] of libsodium (key, message) and the AES256-GCM of
    nettle: [gcm_aes256_encrypt] and [gcm_aes256_decrypt] under a key and an
    IV, each with the digest [gcm_aes256_digest] gives after it *)
Class Hmac := hmacsha256 : bytes → bytes → bytes.
Class AesGcm := {
  gcm_encrypt : bytes → bytes → bytes → bytes * bytes;
  gcm_decrypt : bytes → bytes → bytes → bytes * bytes;
}.
Definition GCM_IV_SIZE : Z := 12.
Definition GCM_DIGEST_SIZE : Z := 16.
Class AesGcmLaws `{AesGcm} := {
  gcm_roundtrip : ∀ k iv m, gcm_decrypt k iv (gcm_encrypt k iv m).1 = (m, (gcm_encrypt k iv m).2);
  gcm_size : ∀ k iv m, size (gcm_encrypt k iv m).1 = size m;
  gcm_digest_size : ∀ k iv m, size (gcm_encrypt k iv m).2 = GCM_DIGEST_SIZE;
}.

(** ** Encryption types *)
Inductive EncryptType := aes_gcm | xchacha20.

#[global] Instance EncryptType_eq_dec : EqDecision EncryptType.
Proof. solve_decision. Defined.

Definition enc_type_to_string (t : EncryptType) : bytes :=
  match t with xchacha20 => "xchacha20" | aes_gcm => "aes-gcm" end.

Definition parse_enc_type (enc_type : bytes) : result EncryptType :=
  if String.eqb enc_type "xchacha20" || String.eqb enc_type "xchacha20-poly1305" then Ok xchacha20
  else if String.eqb enc_type "aes-gcm" || String.eqb enc_type "gcm" then Ok aes_gcm
  else Throw runtime_error.

(** ** Keys *)
Section keys.
Context `{Oxenc, X25519}.

(** The keys are arrays of 32 bytes. *)
Definition null_key : bytes := zeros 32.

Definition load_from_hex (length : Z) (hex : bytes) : result bytes :=
  _ ← require (is_hex hex) runtime_error;
  _ ← require (size hex =? 2 * length) runtime_error;
  Ok (from_hex hex).

Definition load_from_bytes (length : Z) (b : bytes) : result bytes :=
  _ ← require (size b =? length) runtime_error; Ok b.

Definition maybe_from_hex (length : Z) (hex : bytes) : option bytes :=
  match load_from_hex length hex with Ok k => Some k | Throw _ => None end.

(** [parse_pubkey]: the form is chosen by the length, and the null key is
    returned for anything else *)
Definition parse_pubkey (pubkey_in : bytes) : result bytes :=
  let n := size pubkey_in in
  if n =? 32 then load_from_bytes 32 pubkey_in
  else if (n =? 64) && is_hex pubkey_in then Ok (from_hex pubkey_in)
  else if ((n =? 43) || ((n =? 44) && bool_decide (back pubkey_in = Some "="%char))) && is_base64 pubkey_in
  then Ok (from_base64 pubkey_in)
  else if (n =? 52) && is_base32z pubkey_in then Ok (from_base32z pubkey_in)
  else Ok null_key.

Definition parse_x25519_pubkey (pubkey_in : bytes) : result bytes := parse_pubkey pubkey_in.

Definition mnode_address (pk : bytes) : bytes := to_base32z pk +:+ ".mnode".

Definition compute_x25519_pubkey (ed25519_pk : bytes) : result bytes :=
  xpk ← from_option_or runtime_error (pk_to_curve25519 ed25519_pk);
  load_from_bytes 32 xpk.
End keys.

(** ** The cipher of one hop *)
Record HopEncryption := mkHopEncryption {
  private_key_ : bytes;
  public_key_ : bytes;
  server_ : bool;
}.

Section hop.
Context `{Hash, Aead, X25519, Hmac, AesGcm}.

Definition calculate_shared_secret (seckey pubkey : bytes) : result bytes :=
  from_option_or runtime_error (scalarmult_curve25519 seckey pubkey).

Definition salt : bytes := "LOKI".

Definition derive_symmetric_key (seckey pubkey : bytes) : result bytes :=
  key ← calculate_shared_secret seckey pubkey; Ok (hmacsha256 salt key).

Definition xchacha20_shared_key (local_pub local_sec remote_pub : bytes) (local_first : bool) : result bytes :=
  key ← from_option_or runtime_error (scalarmult_curve25519 local_sec remote_pub);
  Ok (generichash 32 "" (key +:+ (if local_first then local_pub else remote_pub)
                             +:+ (if local_first then remote_pub else local_pub))).

Definition response_long_enough (type : EncryptType) (response_size : Z) : bool :=
  match type with
  | xchacha20 => ABYTES <=? response_size
  | aes_gcm => GCM_IV_SIZE + GCM_DIGEST_SIZE <=? response_size
  end.

(** [rnd n] stands for the [n] bytes [randombytes_buf] writes. *)
Definition encrypt_aesgcm (e : HopEncryption) (rnd : Z → bytes) (plaintext pubKey : bytes) : result bytes :=
  key ← derive_symmetric_key (private_key_ e) pubKey;
  let iv := rnd GCM_IV_SIZE in
  let '(c, digest) := gcm_encrypt key iv plaintext in
  Ok (iv +:+ c +:+ digest).

Definition decrypt_aesgcm (e : HopEncryption) (ciphertext_ pubKey : bytes) : result bytes :=
  _ ← require (response_long_enough aes_gcm (size ciphertext_)) invalid_argument;
  key ← derive_symmetric_key (private_key_ e) pubKey;
  let iv := stake 12 ciphertext_ in
  let ciphertext := sdrop 12 ciphertext_ in
  let n := (String.length ciphertext - 16)%nat in
  let digest_in := sdrop n ciphertext in
  let '(plaintext, digest_out) := gcm_decrypt key iv (stake n ciphertext) in
  _ ← require (String.eqb digest_out digest_in) runtime_error;
  Ok plaintext.

Definition encrypt_xchacha20 (e : HopEncryption) (rnd : Z → bytes) (plaintext pubKey : bytes) : result bytes :=
  key ← xchacha20_shared_key (public_key_ e) (private_key_ e) pubKey (negb (server_ e));
  let nonce := rnd NPUBBYTES in
  Ok (nonce +:+ aead_encrypt key nonce plaintext).

(** [subspan] past the end of the input is undefined; a [resize] to a size
    that wrapped around throws [std::length_error]. *)
Definition decrypt_xchacha20 (e : HopEncryption) (ciphertext_ pubKey : bytes) : result bytes :=
  _ ← require (NPUBBYTES <=? size ciphertext_) undefined_behaviour;
  let nonce := stake 24 ciphertext_ in
  let ciphertext := sdrop 24 ciphertext_ in
  _ ← require (response_long_enough xchacha20 (size ciphertext_)) invalid_argument;
  key ← xchacha20_shared_key (public_key_ e) (private_key_ e) pubKey (negb (server_ e));
  _ ← require (ABYTES <=? size ciphertext) length_error;
  from_option_or runtime_error (aead_decrypt key nonce ciphertext).

Definition hop_encrypt (e : HopEncryption) (type : EncryptType) (rnd : Z → bytes) (plaintext pubkey : bytes) : result bytes :=
  match type with
  | xchacha20 => encrypt_xchacha20 e rnd plaintext pubkey
  | aes_gcm => encrypt_aesgcm e rnd plaintext pubkey
  end.

Definition hop_decrypt (e : HopEncryption) (type : EncryptType) (ciphertext pubkey : bytes) : result bytes :=
  match type with
  | xchacha20 => decrypt_xchacha20 e ciphertext pubkey
  | aes_gcm => decrypt_aesgcm e ciphertext pubkey
  end.
End hop.

(** ** Facts *)
Lemma stake_exact n a b : String.length a = n → stake n (a +:+ b) = a.
Proof. intros <-. apply stake_app. Qed.
Lemma sdrop_exact n a b : String.length a = n → sdrop n (a +:+ b) = b.
Proof. intros <-. apply sdrop_app. Qed.

Lemma parse_enc_type_to_string t : parse_enc_type (enc_type_to_string t) = Ok t.
Proof. by destruct t. Qed.

Section facts.
Context `{HashLaws, AeadLaws, X25519Laws, Hmac, AesGcmLaws, OxencLaws}.

Lemma parse_pubkey_hex k : size k = 32 → parse_pubkey (to_hex k) = Ok k.
Proof.
  intros Hk. unfold parse_pubkey. rewrite to_hex_digits, hex_digits_size, Hk. simpl.
  by rewrite is_hex_digits, from_hex_digits.
Qed.

(** The two ends of a layer: a client with the key pair of [a] and a server
    with that of [b] *)
Definition client_end (a : bytes) : HopEncryption := mkHopEncryption a (x25519_public a) false.
Definition server_end (b : bytes) : HopEncryption := mkHopEncryption b (x25519_public b) true.

(** Both sides have the key of the exchange. *)
Definition exchanged (a b : bytes) : Prop := is_Some (scalarmult_curve25519 a (x25519_public b)).

Lemma exchanged_sym a b : exchanged a b → exchanged b a.
Proof. unfold exchanged. by rewrite x25519_exchange. Qed.

Definition nonces_ok (rnd : Z → bytes) : Prop := ∀ n, size (rnd n) = Z.max 0 n.

Lemma hop_key_shared a b :
  xchacha20_shared_key (x25519_public a) a (x25519_public b) true =
  xchacha20_shared_key (x25519_public b) b (x25519_public a) false.
Proof. unfold xchacha20_shared_key. by rewrite x25519_exchange. Qed.

Lemma gcm_opens e e' rnd key m pk pk' :
  nonces_ok rnd → derive_symmetric_key (private_key_ e) pk = Ok key →
  derive_symmetric_key (private_key_ e') pk' = Ok key →
  ∃ c, encrypt_aesgcm e rnd m pk = Ok c ∧ decrypt_aesgcm e' c pk' = Ok m ∧ size c = size m + 28.
Proof.
  intros Hr Hk Hk'. unfold encrypt_aesgcm, decrypt_aesgcm. rewrite Hk, Hk'. cbn [mbind result_bind].
  pose proof (gcm_roundtrip key (rnd GCM_IV_SIZE) m) as Hd.
  pose proof (gcm_size key (rnd GCM_IV_SIZE) m) as Hs.
  pose proof (gcm_digest_size key (rnd GCM_IV_SIZE) m) as Ht.
  destruct (gcm_encrypt key (rnd GCM_IV_SIZE) m) as [c t]. cbn [fst snd] in *.
  pose proof (Hr GCM_IV_SIZE) as Hi. eexists. split; [done|].
  rewrite !size_app, Hi, Hs, Ht. unfold GCM_IV_SIZE, GCM_DIGEST_SIZE in *.
  pose proof (size_nonneg m). split; [|lia]. cbn [response_long_enough].
  unfold GCM_IV_SIZE, GCM_DIGEST_SIZE. rewrite (proj2 (Z.leb_le _ _)) by lia. cbn [require mbind result_bind].
  assert (String.length (rnd 12) = 12%nat) as Hl by (unfold size in Hi; lia).
  rewrite (stake_exact _ _ _ Hl), (sdrop_exact _ _ _ Hl), length_sapp.
  assert (String.length t = 16%nat) as Hlt by (unfold size in Ht; lia). rewrite Hlt, Nat.add_sub.
  by rewrite stake_app, sdrop_app, Hd, String.eqb_refl.
Qed.

Lemma xchacha_opens e e' rnd key m pk pk' :
  nonces_ok rnd →
  xchacha20_shared_key (public_key_ e) (private_key_ e) pk (negb (server_ e)) = Ok key →
  xchacha20_shared_key (public_key_ e') (private_key_ e') pk' (negb (server_ e')) = Ok key →
  ∃ c, encrypt_xchacha20 e rnd m pk = Ok c ∧ decrypt_xchacha20 e' c pk' = Ok m ∧ size c = size m + 40.
Proof.
  intros Hr Hk Hk'. unfold encrypt_xchacha20, decrypt_xchacha20. rewrite Hk, Hk'. cbn [mbind result_bind].
  eexists. split; [done|]. pose proof (Hr NPUBBYTES) as Hi. pose proof (size_nonneg m).
  rewrite !size_app, aead_size, Hi. unfold NPUBBYTES, ABYTES in *. split; [|lia].
  cbn [response_long_enough]. unfold ABYTES. rewrite (proj2 (Z.leb_le 24 _)) by lia. cbn [require mbind result_bind].
  rewrite (proj2 (Z.leb_le 16 (_ + _))) by lia. cbn [require mbind result_bind].
  assert (String.length (rnd 24) = 24%nat) as Hl by (unfold size in Hi; lia).
  rewrite (stake_exact _ _ _ Hl), (sdrop_exact _ _ _ Hl), aead_size. unfold ABYTES.
  rewrite (proj2 (Z.leb_le _ _)) by lia. cbn [require mbind result_bind]. by rewrite aead_roundtrip.
Qed.

Definition overhead (t : EncryptType) : Z := match t with xchacha20 => 40 | aes_gcm => 28 end.

(** What a client encrypts for a server the server decrypts, and back. *)
Lemma request_opens a b t rnd m :
  nonces_ok rnd → exchanged a b →
  ∃ c, hop_encrypt (client_end a) t rnd m (x25519_public b) = Ok c ∧
       hop_decrypt (server_end b) t c (x25519_public a) = Ok m ∧ size c = size m + overhead t.
Proof.
  intros Hr [k Hk]. destruct t; cbn [hop_encrypt hop_decrypt overhead].
  - apply (gcm_opens _ _ _ (hmacsha256 salt k)); [done|..]; unfold derive_symmetric_key, calculate_shared_secret; cbn [private_key_ client_end server_end].
    + by rewrite Hk.
    + by rewrite x25519_exchange, Hk.
  - eapply xchacha_opens; [done| |]; cbn [private_key_ public_key_ server_ negb client_end server_end].
    + unfold xchacha20_shared_key. by rewrite Hk.
    + unfold xchacha20_shared_key. by rewrite x25519_exchange, Hk.
Qed.

Lemma reply_opens a b t rnd m :
  nonces_ok rnd → exchanged a b →
  ∃ c, hop_encrypt (server_end b) t rnd m (x25519_public a) = Ok c ∧
       hop_decrypt (client_end a) t c (x25519_public b) = Ok m ∧ size c = size m + overhead t.
Proof.
  intros Hr [k Hk]. destruct t; cbn [hop_encrypt hop_decrypt overhead].
  - apply (gcm_opens _ _ _ (hmacsha256 salt k)); [done|..]; unfold derive_symmetric_key, calculate_shared_secret; cbn [private_key_ client_end server_end].
    + by rewrite x25519_exchange, Hk.
    + by rewrite Hk.
  - eapply xchacha_opens; [done| |]; cbn [private_key_ public_key_ server_ negb client_end server_end].
    + unfold xchacha20_shared_key. by rewrite x25519_exchange, Hk.
    + unfold xchacha20_shared_key. by rewrite Hk.
Qed.
End facts.

(** ** Concrete instances *)
#[global] Instance checksum_hmac : Hmac := λ key msg, generichash 32 key msg.
#[global] Instance checksum_gcm : AesGcm := {|
  gcm_encrypt k iv m := (m, tag k iv m);
  gcm_decrypt k iv c := (c, tag k iv c);
|}.
#[global] Instance checksum_gcm_laws : AesGcmLaws.
Proof. split; intros; simpl; [done..|]. unfold size, tag. by rewrite spread_length. Qed.
