(* ===== verification/OnionRequest.v ===== *)
(** * Onion requests

    [src/onionreq/builder.cpp] wraps a request in one layer of encryption for
    its destination and for each node on the way; [src/onionreq/parser.cpp]
    removes a layer and encrypts the reply; [src/onionreq/response_parser.cpp]
    reads the reply. *)

From Stdlib Require Import ZArith String Ascii Lia.
From stdpp Require Import base option list strings numbers.
From S2P Require Import Prelude OrderedMap Bt Bencode Crypto State Text Ids MultiEncrypt Wire Swarm MasterNode HopEncryption.

(** ** The libraries

    More of the JSON library: parsing and printing (which throws for text that
    is not UTF-8), objects (a [std::map]), [find], and the pairs that a loop
    over [begin()]..[end()] with [key()] and [value()] yields (none for null,
    an exception for values without keys) *)
Class JsonText `{JsonLib} := {
  json_parse : bytes → result json;
  json_dump : json → result bytes;
  json_string : bytes → json;
  json_int : Z → json;
  json_object : list (bytes * json) → json;
  json_find : json → bytes → option json;
  is_string : json → bool;
  is_number : json → bool;
  get_i16 : json → result Z;
  json_items : json → result (list (bytes * json));
}.

(** [bt_list_consumer] of the oxenc library, which reads a bencoded list one
    element at a time *)
Class BtListConsumer := {
  bt_list_consumer : Type;
  consume_list : bytes → result bt_list_consumer;
  is_finished : bt_list_consumer → bool;
  next_is_string : bt_list_consumer → bool;
  consume_string : bt_list_consumer → result (bytes * bt_list_consumer);
}.

(** ** Destinations *)
Record ServerDestination := mkServer {
  s_protocol : bytes;
  s_host : bytes;
  s_x25519_pubkey : bytes;
  s_port : option Z;
  s_headers : option (list (bytes * bytes));
  s_method : bytes;
}.

(** The contents of a remote address are not read. *)
Inductive network_destination :=
  | to_node (n : master_node)
  | to_server (s : ServerDestination)
  | to_address.

Section onion.
Context `{BtLib, Hash, Aead, X25519, Hmac, AesGcm, Oxenc, JsonText, BtListConsumer}.

(** ** The builder *)
Record Builder := mkBuilder {
  enc_type : EncryptType;
  is_v4_request : bool;
  final_hop_x25519_keypair : option (bytes * bytes);
  hops_ : list (bytes * bytes);
  endpoint_ : bytes;
  destination_x25519_public_key_ : option bytes;
  ed25519_public_key_ : option bytes;
  host_ : option bytes;
  protocol_ : option bytes;
  method_ : option bytes;
  port_ : option Z;
  headers_ : option (list (bytes * bytes));
}.

Definition pubkey_for_destination (destination : network_destination) : result bytes :=
  match destination with
  | to_node n => compute_x25519_pubkey (remote_pubkey n)
  | to_server s => Ok (s_x25519_pubkey s)
  | to_address => Throw runtime_error
  end.

Definition encode_size (s : Z) : bytes := le_write 4 s.

Definition put_enc_type t (b : Builder) : Builder :=
  mkBuilder t (is_v4_request b) (final_hop_x25519_keypair b) (hops_ b) (endpoint_ b) (destination_x25519_public_key_ b) (ed25519_public_key_ b) (host_ b) (protocol_ b) (method_ b) (port_ b) (headers_ b).
Definition put_v4 v (b : Builder) : Builder :=
  mkBuilder (enc_type b) v (final_hop_x25519_keypair b) (hops_ b) (endpoint_ b) (destination_x25519_public_key_ b) (ed25519_public_key_ b) (host_ b) (protocol_ b) (method_ b) (port_ b) (headers_ b).
Definition put_keypair k (b : Builder) : Builder :=
  mkBuilder (enc_type b) (is_v4_request b) k (hops_ b) (endpoint_ b) (destination_x25519_public_key_ b) (ed25519_public_key_ b) (host_ b) (protocol_ b) (method_ b) (port_ b) (headers_ b).
Definition put_hops l (b : Builder) : Builder :=
  mkBuilder (enc_type b) (is_v4_request b) (final_hop_x25519_keypair b) l (endpoint_ b) (destination_x25519_public_key_ b) (ed25519_public_key_ b) (host_ b) (protocol_ b) (method_ b) (port_ b) (headers_ b).
Definition put_ed25519 k (b : Builder) : Builder :=
  mkBuilder (enc_type b) (is_v4_request b) (final_hop_x25519_keypair b) (hops_ b) (endpoint_ b) (destination_x25519_public_key_ b) k (host_ b) (protocol_ b) (method_ b) (port_ b) (headers_ b).
Definition put_server h pr m po hs (b : Builder) : Builder :=
  mkBuilder (enc_type b) (is_v4_request b) (final_hop_x25519_keypair b) (hops_ b) (endpoint_ b) (destination_x25519_public_key_ b) (ed25519_public_key_ b) h pr m po hs.

(** The default constructor, used by the C API, leaves [is_v4_request] as it
    finds it: [garbage]. *)
Definition empty_builder (garbage : bool) (t : EncryptType) : Builder :=
  mkBuilder t garbage None [] "" None None None None None None None.

Definition set_enc_type (t : EncryptType) : M Builder () := modify (put_enc_type t).

(** The text before "://", if there is one *)
Definition bare_protocol (protocol : bytes) : bytes :=
  match find "://" protocol with Some pos => stake pos protocol | None => protocol end.

Definition or_kept {A} (new old : option A) : option A := match new with Some a => Some a | None => old end.

Definition set_destination (destination : network_destination) : M Builder () :=
  modify (put_ed25519 None);;
  match destination with
  | to_node n =>
      modify (put_v4 false);;
      pk ← lift (load_from_bytes 32 (remote_pubkey n));
      modify (put_ed25519 (Some pk))
  | to_server s =>
      modify (put_v4 true);;
      modify (λ b, put_server (Some (s_host s)) (Some (bare_protocol (s_protocol s))) (Some (s_method s))
                (or_kept (s_port s) (port_ b)) (or_kept (s_headers s) (headers_ b)) b)
  | to_address => throw invalid_argument
  end.

Definition add_hop (remote_key : bytes) : M Builder () :=
  ed ← lift (load_from_bytes 32 remote_key);
  x ← lift (compute_x25519_pubkey remote_key);
  modify (λ b, put_hops (hops_ b ++ [(ed, x)]) b).

(** The overload that takes both keys *)
Definition add_hop_keys (keys : bytes * bytes) : M Builder () := modify (λ b, put_hops (hops_ b ++ [keys]) b).

Definition is_server (destination : network_destination) : bool :=
  match destination with to_server _ => true | _ => false end.

Definition new_builder (destination : network_destination) (endpoint : bytes) (nodes : list master_node) (t : EncryptType) : result Builder :=
  pk ← pubkey_for_destination destination;
  let '(r, b) := (set_destination destination;; forM_ nodes (λ n, add_hop (remote_pubkey n)))
                   (mkBuilder t (is_server destination) None [] endpoint (Some pk) None None None None None None) in
  _ ← r; Ok b.

Definition make (destination : network_destination) (endpoint : bytes) (nodes : list master_node) (t : EncryptType) : result Builder :=
  new_builder destination endpoint nodes t.

(** ** The payload for the destination *)
Definition server_headers (headers : option (list (bytes * bytes))) (has_body : bool) : list (bytes * json) :=
  let headers_json := fold_left
    (λ (m : list (bytes * json)) (h : bytes * bytes),
       if String.eqb h.1 "User-Agent" then m else minsert h.1 (json_string h.2) m) (default [] headers) [] in
  if has_body && negb (bool_decide (is_Some (mfind "Content-Type" headers_json)))
  then minsert "Content-Type" (json_string "application/json") headers_json
  else headers_json.

Definition slashed (endpoint : bytes) : bytes :=
  match endpoint with
  | String c _ => if Ascii.eqb c "/" then endpoint else "/" +:+ endpoint
  | "" => ""
  end.

Definition nonempty (body : option bytes) : option bytes :=
  match body with Some "" => None | o => o end.

Definition _generate_payload (body : option bytes) (b : Builder) : result bytes :=
  match host_ b, protocol_ b, method_ b, destination_x25519_public_key_ b with
  | Some _, Some _, Some method, Some _ =>
      let headers_json := server_headers (headers_ b) (bool_decide (is_Some body)) in
      info ← json_dump (json_object [("endpoint", json_string (slashed (endpoint_ b)));
               ("headers", json_object headers_json); ("method", json_string method)]);
      let payload := info :: match nonempty body with Some t => [t] | None => [] end in
      Ok (bt_list_dump (BtStr <$> payload))
  | _, _, _, _ =>
      params_json ← match nonempty body with Some t => json_parse t | None => Ok (json_object []) end;
      json_dump (json_object [("method", json_string (endpoint_ b)); ("params", params_json)])
  end.

(** ** The layers

    The [i]-th call of [crypto_box_keypair] gives [keypair i] (public key,
    secret key), and what [randombytes_buf] writes in the encryption after it
    is [rnd i]. *)
Section build.
Context (keypair : nat → bytes * bytes) (rnd : nat → Z → bytes).

(** [[N][BLOB]{json}] *)
Definition framed (blob routing : bytes) : bytes := encode_size (size blob) +:+ blob +:+ routing.

Definition hop_route (destination A : bytes) (t : EncryptType) : json :=
  json_object [("destination", json_string (to_hex destination)); ("enc_type", json_string (enc_type_to_string t));
               ("ephemeral_key", json_string (to_hex A))].

Definition default_port_of (protocol : bytes) : Z := if String.eqb protocol "https" then 443 else 80.

Definition server_route (host protocol : bytes) (port : option Z) (A : bytes) (t : EncryptType) : json :=
  json_object [("enc_type", json_string (enc_type_to_string t)); ("ephemeral_key", json_string (to_hex A));
               ("host", json_string host); ("method", json_string "POST");
               ("port", json_int (default (default_port_of protocol) port));
               ("protocol", json_string protocol); ("target", json_string "/oxen/v4/lsrpc")].

(** The innermost layer and how the last hop is to pass it on *)
Definition final_layer (payload : bytes) (b : Builder) : result (json * bytes) :=
  let '(A, a) := keypair 0 in
  let e := mkHopEncryption a A false in
  match host_ b, protocol_ b, ed25519_public_key_ b, destination_x25519_public_key_ b with
  | Some host, Some protocol, _, Some pk =>
      blob ← hop_encrypt e (enc_type b) (rnd 0) payload pk;
      Ok (server_route host protocol (port_ b) A (enc_type b), blob)
  | _, _, Some ed, Some pk =>
      control_dump ← json_dump (json_object [("headers", json_string "")]);
      blob ← hop_encrypt e (enc_type b) (rnd 0) (framed payload control_dump) pk;
      Ok (hop_route ed A (enc_type b), blob)
  | _, _, _, _ => Throw runtime_error
  end.

(** One layer per hop, from the last hop to the first; [routing] is for the
    hop that comes next in this order. *)
Fixpoint build_hops (i : nat) (t : EncryptType) (A : bytes) (routing : json) (blob : bytes) (hops : list (bytes * bytes))
    : result (bytes * bytes) :=
  match hops with
  | [] => Ok (A, blob)
  | (ed, x) :: hops =>
      routing_dump ← json_dump routing;
      let '(A, a) := keypair (S i) in
      blob ← hop_encrypt (mkHopEncryption a A false) t (rnd (S i)) (framed blob routing_dump) x;
      build_hops (S i) t A (hop_route ed A t) blob hops
  end.

Definition build (payload : bytes) : M Builder bytes :=
  b ← mget;
  '(final_route, blob) ← lift (final_layer payload b);
  modify (put_keypair (Some (keypair 0)));;
  '(A, blob) ← lift (build_hops 0 (enc_type b) (keypair 0).1 final_route blob (rev (hops_ b)));
  wrapper_dump ← lift (json_dump (json_object [("enc_type", json_string (enc_type_to_string (enc_type b)));
                                               ("ephemeral_key", json_string (to_hex A))]));
  mret (framed blob wrapper_dump).

Definition generate_onion_blob (plaintext_body : option bytes) : M Builder bytes :=
  b ← mget;
  payload ← lift (_generate_payload plaintext_body b);
  build payload.
End build.

(** ** Removing a layer *)
Record OnionReqParser := mkParser {
  p_keys : bytes * bytes;
  p_enc : HopEncryption;
  p_enc_type : EncryptType;
  remote_pk : bytes;
  payload_ : bytes;
}.

Definition DEFAULT_MAX_SIZE : Z := 10485760.

Definition new_parser (x25519_pk x25519_sk req : bytes) (max_size : Z) : result OnionReqParser :=
  pk ← load_from_bytes 32 x25519_pk;
  sk ← load_from_bytes 32 x25519_sk;
  _ ← require (negb (size req <? 4)) invalid_argument;
  _ ← require (negb (max_size <? size req)) invalid_argument;
  let n := le_value (stake 4 req) in
  let req := sdrop 4 req in
  _ ← require (negb (size req <? n)) invalid_argument;
  let ciphertext := stake (Z.to_nat n) req in
  metadata ← json_parse (sdrop (Z.to_nat n) req);
  t ← match json_find metadata "enc_type" with
      | Some v => s ← get_string v; parse_enc_type s
      | None => Ok aes_gcm
      end;
  remote ← match json_find metadata "ephemeral_key" with
           | Some v => s ← get_string v; parse_x25519_pubkey s
           | None => Throw invalid_argument
           end;
  let enc := mkHopEncryption sk pk true in
  payload ← hop_decrypt enc t ciphertext remote;
  Ok (mkParser (pk, sk) enc t remote payload).

Definition payload (p : OnionReqParser) : bytes := payload_ p.
Definition remote_pubkey_of (p : OnionReqParser) : bytes := remote_pk p.
Definition move_payload : M OnionReqParser bytes :=
  ret ← gets payload_;
  modify (λ p, mkParser (p_keys p) (p_enc p) (p_enc_type p) (remote_pk p) "");;
  mret ret.

Definition encrypt_reply (p : OnionReqParser) (rnd : Z → bytes) (reply : bytes) : result bytes :=
  hop_encrypt (p_enc p) (p_enc_type p) rnd reply (remote_pk p).

(** ** Reading the reply *)
Record ResponseParser := mkResponseParser {
  r_destination : bytes;
  x25519_keypair_ : bytes * bytes;
  enc_type_ : EncryptType;
  v4_request_ : bool;
}.

Record DecryptedResponse := mkResponse {
  status_code : Z;
  headers : list (bytes * bytes);
  body : option bytes;
}.

Definition new_response_parser (b : Builder) : result ResponseParser :=
  dest ← from_option_or runtime_error (destination_x25519_public_key_ b);
  keypair ← from_option_or runtime_error (final_hop_x25519_keypair b);
  Ok (mkResponseParser dest keypair (enc_type b) (is_v4_request b)).

(** [try { r } catch (...) { h }] *)
Definition on_error {A} (r : result A) (h : exn → result A) : result A :=
  match r with Throw e => if catchable e then h e else r | _ => r end.

Definition decrypt_response (rp : ResponseParser) (ciphertext : bytes) : result bytes :=
  let d := mkHopEncryption (x25519_keypair_ rp).2 (x25519_keypair_ rp).1 false in
  on_error (hop_decrypt d (enc_type_ rp) ciphertext (r_destination rp)) (λ e,
    match enc_type_ rp with
    | xchacha20 =>
        on_error (hop_decrypt d aes_gcm ciphertext (r_destination rp)) (λ _, Throw runtime_error)
    | aes_gcm => Throw e
    end).

(** The pairs of a loop over a JSON value, whose values must be strings *)
Definition header_pairs (header_vals : json) : result (list (bytes * bytes)) :=
  items ← json_items header_vals;
  mapR (λ p : bytes * json, v ← get_string p.2; Ok (p.1, v)) items.

(** [j.contains(k) && j[k].is_number()], and the number *)
Definition number_field (j : json) (k : bytes) : result (option Z) :=
  if contains j k then
    v ← json_index j k;
    if is_number v then z ← get_i16 v; Ok (Some z) else Ok None
  else Ok None.
Definition string_field (j : json) (k : bytes) : result (option bytes) :=
  if contains j k then
    v ← json_index j k;
    if is_string v then s ← get_string v; Ok (Some s) else Ok None
  else Ok None.
Definition headers_field (j : json) : result (list (bytes * bytes)) :=
  if contains j "headers" then v ← json_index j "headers"; header_pairs v else Ok [].

Definition _decrypt_v3_response (rp : ResponseParser) (response : bytes) : result DecryptedResponse :=
  base64_iv_and_ciphertext ← on_error
    (response_json ← json_parse response;
     r ← string_field response_json "result";
     from_option_or runtime_error r) (λ _, Ok response);
  _ ← require (is_base64 base64_iv_and_ciphertext) runtime_error;
  result ← decrypt_response rp (from_base64 base64_iv_and_ciphertext);
  result_json ← json_parse result;
  code ← number_field result_json "status_code";
  status_code ← match code with
    | Some z => Ok z
    | None => code ← number_field result_json "status"; from_option_or runtime_error code
    end;
  headers ← headers_field result_json;
  text ← string_field result_json "body";
  body ← match text with Some s => Ok s | None => json_dump result_json end;
  Ok (mkResponse status_code headers (Some body)).

Definition _decrypt_v4_response (rp : ResponseParser) (response : bytes) : result DecryptedResponse :=
  result ← decrypt_response rp response;
  c ← consume_list result;
  _ ← require (negb (is_finished c || negb (next_is_string c))) runtime_error;
  '(response_info_string, c) ← consume_string c;
  response_info_json ← json_parse response_info_string;
  code ← number_field response_info_json "code";
  status_code ← from_option_or runtime_error code;
  headers ← headers_field response_info_json;
  if is_finished c then Ok (mkResponse status_code headers None) else
  '(body, _) ← consume_string c;
  Ok (mkResponse status_code headers (Some body)).

Definition decrypted_response (rp : ResponseParser) (encrypted_response : bytes) : result DecryptedResponse :=
  _ ← require (response_long_enough (enc_type_ rp) (size encrypted_response)) runtime_error;
  if v4_request_ rp then _decrypt_v4_response rp encrypted_response
  else _decrypt_v3_response rp encrypted_response.
End onion.
