(* ===== verification/OnionDelivery.v ===== *)
(** * Delivery of onion requests and their replies

    What [Builder] of [src/onionreq/builder.cpp] wraps, the nodes on the way
    and the destination unwrap with [OnionReqParser] of
    [src/onionreq/parser.cpp]; the reply of the destination comes back through
    [ResponseParser] of [src/onionreq/response_parser.cpp]. *)

From Stdlib Require Import ZArith String Ascii Lia.
From stdpp Require Import base option list strings numbers.
From S2P Require Import Prelude OrderedMap Bt Bencode Crypto Encrypt State Text Ids MultiEncrypt Wire Swarm MasterNode HopEncryption OnionRequest.

(** ** What is assumed of the libraries *)

(** JSON values made of ASCII text, ports and objects print, and parse back. *)
Definition ascii_text : bytes → bool := all_chars (λ c, code c <? 128).

Inductive json_made `{JsonText} : json → Prop :=
  | made_string s : ascii_text s = true → json_made (json_string s)
  | made_int z : 0 ≤ z ≤ u16_max → json_made (json_int z)
  | made_object m :
      msorted m = true → Forall (λ p : bytes * json, ascii_text p.1 = true) m →
      Forall (λ p : bytes * json, json_made p.2) m → json_made (json_object m).

Class JsonTextLaws `{JsonText} := {
  json_dump_parse : ∀ j, json_made j → ∃ t, json_dump j = Ok t ∧ json_parse t = Ok j;
  json_find_object : ∀ m k, json_find (json_object m) k = mfind k m;
  json_contains_object : ∀ m k, contains (json_object m) k = bool_decide (is_Some (mfind k m));
  json_index_object : ∀ m k v, mfind k m = Some v → json_index (json_object m) k = Ok v;
  json_items_object : ∀ m, json_items (json_object m) = Ok m;
  get_string_string : ∀ s, get_string (json_string s) = Ok s;
  is_string_string : ∀ s, is_string (json_string s) = true;
  is_number_int : ∀ z, is_number (json_int z) = true;
  get_i16_int : ∀ z, - 2 ^ 15 ≤ z < 2 ^ 15 → get_i16 (json_int z) = Ok z;
}.

(** A consumer yields the elements of a printed list of strings. *)
Class BtListConsumerLaws `{BtLib, BtListConsumer} := {
  yields : bt_list_consumer → list bytes → Prop;
  yields_list : ∀ l, ∃ c, consume_list (bt_list_dump (BtStr <$> l)) = Ok c ∧ yields c l;
  yields_nil : ∀ c, yields c [] → is_finished c = true;
  yields_cons : ∀ c s l, yields c (s :: l) →
    is_finished c = false ∧ next_is_string c = true ∧ ∃ c', consume_string c = Ok (s, c') ∧ yields c' l;
}.

Class Base64Laws `{Oxenc} := {
  is_base64_to : ∀ s, is_base64 (to_base64 s) = true;
  from_to_base64 : ∀ s, from_base64 (to_base64 s) = s;
  base64_ascii : ∀ s, ascii_text (to_base64 s) = true;
}.

(** Values of the fields of an object, one after the other *)
Ltac made_values := repeat first
  [ apply Forall_nil_2
  | apply Forall_cons_2; cbn [snd]; [first [apply made_int; unfold u16_max; lia | apply made_string; try done | idtac]|] ].

Lemma fmap_rev {A B} (f : A → B) l : f <$> rev l = rev (f <$> l).
Proof. induction l as [|a l IH]; [done|]. cbn [rev]. by rewrite fmap_app, IH. Qed.

Section delivery.
Context `{BtLib, HashLaws, AeadLaws, X25519Laws, Hmac, AesGcmLaws, OxencLaws}.
Context `{JsonTextLaws}.

(** ** One layer *)

(** Routing data for a layer whose ephemeral key is [A] *)
Definition routes_to (t : EncryptType) (A : bytes) (r : json) : Prop :=
  json_find r "enc_type" = Some (json_string (enc_type_to_string t)) ∧
  json_find r "ephemeral_key" = Some (json_string (to_hex A)).

Lemma framed_parts blob text :
  size blob < 2 ^ 32 →
  le_value (stake 4 (framed blob text)) = size blob ∧ sdrop 4 (framed blob text) = blob +:+ text.
Proof.
  intros Hb. unfold framed, encode_size. pose proof (size_nonneg blob).
  rewrite (stake_exact 4), (sdrop_exact 4) by apply le_write_length.
  rewrite le_value_write, Z.mod_small; [done|]. change (256 ^ Z.of_nat 4) with (2 ^ 32). lia.
Qed.

Lemma size_framed blob text : size (framed blob text) = 4 + size blob + size text.
Proof.
  unfold framed. rewrite !size_app. unfold encode_size, size at 1. rewrite le_write_length. lia.
Qed.

(** A request that names the key its blob was encrypted with is opened. *)
Lemma parser_opens max_size t A x blob text r m :
  max_size < 2 ^ 32 → size (framed blob text) ≤ max_size → size A = 32 → size x = 32 →
  json_parse text = Ok r → routes_to t A r →
  hop_decrypt (server_end x) t blob A = Ok m →
  new_parser (x25519_public x) x (framed blob text) max_size =
    Ok (mkParser (x25519_public x, x) (server_end x) t A m).
Proof.
  intros Hmax Hsize HA Hx Hr [Ht Hk] Hd. rewrite size_framed in Hsize.
  pose proof (size_nonneg blob). pose proof (size_nonneg text).
  destruct (framed_parts blob text) as [E1 E2]; [lia|].
  unfold new_parser, load_from_bytes. rewrite x25519_public_size, Hx, size_framed, E1, E2, size_app.
  cbn [Z.eqb require mbind result_bind Pos.eqb].
  destruct (Z.ltb_spec (4 + size blob + size text) 4); [lia|].
  destruct (Z.ltb_spec max_size (4 + size blob + size text)); [lia|].
  destruct (Z.ltb_spec (size blob + size text) (size blob)); [lia|]. cbn [negb require mbind result_bind].
  rewrite (stake_exact _ blob), (sdrop_exact _ blob) by (unfold size; lia). rewrite Hr. cbn [mbind result_bind].
  rewrite Ht, Hk, !get_string_string. cbn [mbind result_bind]. rewrite parse_enc_type_to_string. cbn [mbind result_bind].
  unfold parse_x25519_pubkey. rewrite parse_pubkey_hex by done. cbn [mbind result_bind].
  change (mkHopEncryption x (x25519_public x) true) with (server_end x). by rewrite Hd.
Qed.

(** ** The way of a request

    What a relay is told: the routing data after the blob of its payload *)
Definition instructions (data : bytes) : result json :=
  json_parse (sdrop (Z.to_nat (le_value (stake 4 data))) (sdrop 4 data)).

(** The request passes the relays with the secret keys [sks]: each removes a
    layer, reads where to send the rest, and hands it on; at the end are the
    instructions that were followed and what reaches the destination. *)
Fixpoint travel (max_size : Z) (sks : list bytes) (req : bytes) : result (list json * bytes) :=
  match sks with
  | [] => Ok ([], req)
  | x :: sks =>
      p ← new_parser (x25519_public x) x req max_size;
      route ← instructions (payload p);
      '(routes, inner) ← travel max_size sks (payload p);
      Ok (route :: routes, inner)
  end.

(** A blob encrypted with the key pair of [A] reaches the destination with
    secret key [d] through [sks]; it arrives as [m], encrypted with [A0]. *)
Definition delivers (max_size : Z) (t : EncryptType) (A blob : bytes) (sks : list bytes) (routes : list json)
    (d A0 m : bytes) : Prop :=
  ∀ text r, json_parse text = Ok r → routes_to t A r → size (framed blob text) ≤ max_size →
  ∃ inner, travel max_size sks (framed blob text) = Ok (routes, inner) ∧
    new_parser (x25519_public d) d inner max_size = Ok (mkParser (x25519_public d, d) (server_end d) t A0 m).

Lemma delivers_first max_size t A blob d m :
  max_size < 2 ^ 32 → size A = 32 → size d = 32 →
  hop_decrypt (server_end d) t blob A = Ok m →
  delivers max_size t A blob [] [] d A m.
Proof.
  intros Hmax HA Hx Hd text r Hr Hroute Hsize. exists (framed blob text). split; [done|].
  by eapply parser_opens.
Qed.

Lemma delivers_next max_size t A blob A' blob' x sks routes d A0 m routing text :
  max_size < 2 ^ 32 → size A' = 32 → size x = 32 →
  delivers max_size t A blob sks routes d A0 m →
  json_parse text = Ok routing → routes_to t A routing →
  hop_decrypt (server_end x) t blob' A' = Ok (framed blob text) → size (framed blob text) ≤ size blob' →
  delivers max_size t A' blob' (x :: sks) (routing :: routes) d A0 m.
Proof.
  intros Hmax HA Hx Hin Hp Hroute Hd Hle text' r' Hr' Hroute' Hsize.
  assert (size (framed blob text) ≤ max_size) as Hfit.
  { rewrite size_framed in Hsize. pose proof (size_nonneg text'). lia. }
  destruct (Hin _ _ Hp Hroute Hfit) as (inner & Ht & Hi). exists inner. split; [|done].
  cbn [travel]. rewrite (parser_opens max_size t A' x blob' text' r' (framed blob text)) by done.
  cbn [mbind result_bind payload payload_]. unfold instructions.
  rewrite size_framed in Hfit. pose proof (size_nonneg blob). pose proof (size_nonneg text).
  destruct (framed_parts blob text) as [E1 E2]; [lia|]. rewrite E1, E2.
  rewrite (sdrop_exact _ blob) by (unfold size; lia). rewrite Hp. cbn [mbind result_bind].
  by rewrite Ht.
Qed.

(** ** The layers of the builder *)
Section layers.
Context (keypair : nat → bytes * bytes) (rnd : nat → Z → bytes) (secret : nat → bytes).
(** The key pairs are key pairs and the random bytes as many as asked for. *)
Context (Hkeypair : ∀ i, keypair i = (x25519_public (secret i), secret i)) (Hrnd : ∀ i, nonces_ok (rnd i)).
Context (max_size : Z) (Hmax : max_size < 2 ^ 32) (t : EncryptType).

(** A relay: its Ed25519 public key and its X25519 secret key *)
Definition hop_keys (h : bytes * bytes) : bytes * bytes := (h.1, x25519_public h.2).

Fixpoint routes_seen (i : nat) (routing : json) (hops : list (bytes * bytes)) (routes : list json) : list json :=
  match hops with
  | [] => routes
  | h :: hops => routes_seen (S i) (hop_route h.1 (keypair (S i)).1 t) hops (routing :: routes)
  end.

Lemma hex_ascii k : ascii_text (to_hex k) = true.
Proof.
  rewrite to_hex_digits. apply (all_chars_impl hex_char); [|apply hex_digits_chars].
  intros c. unfold hex_char, is_digit, between. rewrite orb_true_iff, !andb_true_iff, !Z.leb_le, Z.ltb_lt.
  change (code "9") with 57. change (code "f") with 102. lia.
Qed.

Lemma made_text s : ascii_text s = true → json_made (json_string s).
Proof. apply made_string. Qed.

Lemma enc_type_ascii : ascii_text (enc_type_to_string t) = true.
Proof. by destruct t. Qed.

Lemma hop_route_ok ed A : json_made (hop_route ed A t) ∧ routes_to t A (hop_route ed A t).
Proof.
  split; [|split; unfold hop_route; by rewrite json_find_object].
  apply made_object; [done|by repeat constructor|].
  repeat constructor; simpl; auto using hex_ascii, enc_type_ascii.
Qed.

Lemma build_hops_delivers hops i routing blob sks routes d A0 m :
  json_made routing → routes_to t (keypair i).1 routing →
  delivers max_size t (keypair i).1 blob sks routes d A0 m →
  Forall (λ h, size h.2 = 32 ∧ ∀ j, exchanged (secret j) h.2) hops →
  ∃ A blob', build_hops keypair rnd i t (keypair i).1 routing blob (hop_keys <$> hops) = Ok (A, blob') ∧ size A = 32 ∧
    delivers max_size t A blob' (rev (hops.*2) ++ sks) (routes_seen i routing hops routes) d A0 m.
Proof.
  revert i routing blob sks routes. induction hops as [|[ed x] hops IH]; intros i routing blob sks routes Hm Hr Hin Hall.
  { exists (keypair i).1, blob. split_and!; [done| |done]. rewrite Hkeypair. apply x25519_public_size. }
  apply Forall_cons_1 in Hall as [[Hx Hex] Hall]. cbn [fmap list_fmap build_hops hop_keys fst snd].
  destruct (json_dump_parse routing Hm) as (text & Hd & Hp). rewrite Hd. cbn [mbind result_bind].
  rewrite (Hkeypair (S i)). change (mkHopEncryption (secret (S i)) (x25519_public (secret (S i))) false) with (client_end (secret (S i))).
  destruct (request_opens (secret (S i)) x t (rnd (S i)) (framed blob text) (Hrnd (S i)) (Hex (S i))) as (c & Hc & Ho & Hs).
  rewrite Hc. cbn [mbind result_bind].
  replace (x25519_public (secret (S i))) with (keypair (S i)).1 in * by by rewrite Hkeypair.
  destruct (IH (S i) (hop_route ed (keypair (S i)).1 t) c (x :: sks) (routing :: routes)) as (A & blob' & E & HA & Hdel).
  - apply hop_route_ok.
  - apply hop_route_ok.
  - eapply delivers_next; [done| |done|exact Hin|exact Hp|exact Hr|exact Ho|].
    + rewrite Hkeypair. apply x25519_public_size.
    + rewrite Hs. destruct t; simpl; lia.
  - exact Hall.
  - exists A, blob'. split_and!; [exact E|done|]. cbn [fmap list_fmap snd rev routes_seen fst]. by rewrite <-app_assoc.
Qed.

(** ** A request from end to end *)

(** The relay [n] has the X25519 secret key [x]. *)
Definition relay_of (n : master_node) (x : bytes) : Prop :=
  size (remote_pubkey n) = 32 ∧ pk_to_curve25519 (remote_pubkey n) = Some (x25519_public x) ∧ size x = 32.

Definition destination_of (dest : network_destination) (d : bytes) : Prop :=
  match dest with
  | to_node n => relay_of n d
  | to_server s =>
      s_x25519_pubkey s = x25519_public d ∧ size d = 32 ∧ ascii_text (s_host s) = true ∧
      ascii_text (bare_protocol (s_protocol s)) = true ∧ from_option u16 True (s_port s)
  | to_address => False
  end.

(** Where the last relay is told to send the request *)
Definition last_route (dest : network_destination) : json :=
  match dest with
  | to_node n => hop_route (remote_pubkey n) (keypair 0).1 t
  | to_server s => server_route (s_host s) (bare_protocol (s_protocol s)) (s_port s) (keypair 0).1 t
  | to_address => json_object []
  end.

(** What each relay is told: the next relay and the key it needs, and the
    destination at the end *)
Fixpoint told (dest : network_destination) (nodes : list master_node) : list json :=
  match nodes with
  | [] => []
  | _ :: rest =>
      match rest with
      | [] => last_route dest
      | n :: _ => hop_route (remote_pubkey n) (keypair (length rest)).1 t
      end :: told dest rest
  end.

(** What the destination gets: a server the message, a node the message with
    the note that it is the final hop *)
Definition arrives (dest : network_destination) (msg m : bytes) : Prop :=
  match dest with
  | to_server _ => m = msg
  | _ => ∃ control, m = framed msg control ∧ json_parse control = Ok (json_object [("headers", json_string "")])
  end.

Definition built (dest : network_destination) (endpoint : bytes) (hops : list (bytes * bytes)) (d : bytes) : Builder :=
  match dest with
  | to_server s => mkBuilder t true None hops endpoint (Some (x25519_public d)) None (Some (s_host s))
                     (Some (bare_protocol (s_protocol s))) (Some (s_method s)) (s_port s) (s_headers s)
  | to_node n => mkBuilder t false None hops endpoint (Some (x25519_public d)) (Some (remote_pubkey n)) None None None None None
  | to_address => empty_builder false t
  end.

Definition relay_hops (nodes : list master_node) (xs : list bytes) : list (bytes * bytes) := zip (remote_pubkey <$> nodes) xs.

Lemma compute_relay n x : relay_of n x → compute_x25519_pubkey (remote_pubkey n) = Ok (x25519_public x).
Proof.
  intros (Hn & Hp & _). unfold compute_x25519_pubkey, load_from_bytes. rewrite Hp. cbn [from_option_or mbind result_bind].
  by rewrite x25519_public_size.
Qed.

Lemma add_hop_run n x b :
  relay_of n x →
  add_hop (remote_pubkey n) b = (Ok tt, put_hops (hops_ b ++ [(remote_pubkey n, x25519_public x)]) b).
Proof.
  intros Hn. unfold add_hop. rewrite (compute_relay n x Hn). destruct Hn as (Hs & _).
  unfold load_from_bytes. by rewrite Hs.
Qed.

Lemma add_hops_run nodes xs b :
  Forall2 relay_of nodes xs →
  forM_ nodes (λ n, add_hop (remote_pubkey n)) b =
    (Ok tt, put_hops (hops_ b ++ (hop_keys <$> relay_hops nodes xs)) b).
Proof.
  intros Hall. revert b. induction Hall as [|n x nodes xs Hn Hall IH]; intros b.
  { simpl. rewrite app_nil_r. by destruct b. }
  cbn [forM_]. unfold mbind, M_bind at 1. rewrite (add_hop_run n x) by done. rewrite IH. unfold put_hops. cbn [hops_ enc_type is_v4_request final_hop_x25519_keypair endpoint_ destination_x25519_public_key_ ed25519_public_key_ host_ protocol_ method_ port_ headers_].
  by rewrite <-app_assoc.
Qed.

Lemma set_node_run n b :
  size (remote_pubkey n) = 32 →
  set_destination (to_node n) b = (Ok tt, put_ed25519 (Some (remote_pubkey n)) (put_v4 false (put_ed25519 None b))).
Proof. intros Hn. unfold set_destination, load_from_bytes. by rewrite Hn. Qed.

Lemma new_builder_run dest endpoint nodes xs d :
  destination_of dest d → Forall2 relay_of nodes xs →
  new_builder dest endpoint nodes t = Ok (built dest endpoint (hop_keys <$> relay_hops nodes xs) d).
Proof.
  intros Hd Hall. unfold new_builder. destruct dest as [n|s|]; [| |done]; cbn [pubkey_for_destination].
  - rewrite (compute_relay n d Hd). destruct Hd as (Hn & _). rewrite bind_ret. unfold mbind, M_bind.
    rewrite set_node_run, (add_hops_run _ xs) by done. done.
  - destruct Hd as (-> & _). rewrite bind_ret. unfold mbind, M_bind.
    change (set_destination (to_server s) ?b) with (@Ok () tt, (set_destination (to_server s) b).2).
    cbv beta iota. rewrite (add_hops_run _ xs) by done. unfold set_destination, put_hops, built. cbn. by destruct (s_port s), (s_headers s).
Qed.

(** The innermost layer *)
Lemma final_layer_run dest endpoint hops d msg :
  destination_of dest d → (∀ i, exchanged (secret i) d) →
  ∃ blob m, final_layer keypair rnd msg (built dest endpoint hops d) = Ok (last_route dest, blob) ∧
    arrives dest msg m ∧ size d = 32 ∧ hop_decrypt (server_end d) t blob (keypair 0).1 = Ok m.
Proof.
  intros Hd Hex. unfold final_layer. rewrite Hkeypair.
  change (mkHopEncryption (secret 0) (x25519_public (secret 0)) false) with (client_end (secret 0)).
  destruct dest as [n|s|]; [| |done]; cbn [built host_ protocol_ ed25519_public_key_ destination_x25519_public_key_ enc_type port_].
  - destruct (json_dump_parse (json_object [("headers", json_string "")])) as (control & Hc & Hp).
    { apply made_object; repeat constructor. }
    rewrite Hc, bind_ret. destruct (request_opens (secret 0) d t (rnd 0) (framed msg control) (Hrnd 0) (Hex 0%nat)) as (c & E & Ho & _).
    rewrite E, bind_ret. exists c, (framed msg control). destruct Hd as (_ & _ & Hd).
    split_and!; [|by exists control|done|done]. unfold last_route. by rewrite Hkeypair.
  - destruct (request_opens (secret 0) d t (rnd 0) msg (Hrnd 0) (Hex 0%nat)) as (c & E & Ho & _).
    rewrite E, bind_ret. exists c, msg. destruct Hd as (_ & Hd & _).
    split_and!; [|done..]. unfold last_route. by rewrite Hkeypair.
Qed.

Lemma last_route_ok dest d :
  destination_of dest d → json_made (last_route dest) ∧ routes_to t (keypair 0).1 (last_route dest).
Proof.
  intros Hd. destruct dest as [n|s|]; [apply hop_route_ok| |done]. destruct Hd as (_ & _ & Hh & Hp & Hport).
  split; [|split; unfold last_route, server_route; by rewrite json_find_object].
  apply made_object; [done|by repeat constructor|].
  repeat (constructor; [first [by apply made_text, hex_ascii | by apply made_text, enc_type_ascii | by apply made_text | apply made_int; simpl]|]); [|constructor].
  unfold default_port_of, u16, u16_max in *. destruct (s_port s); simpl in *; [done|]. destruct (String.eqb _ _); lia.
Qed.

(** The routes in the order of the way *)
Lemma routes_seen_snoc i r l h routes :
  routes_seen i r (l ++ [h]) routes =
    match rev l with [] => r | h' :: _ => hop_route h'.1 (keypair (i + length l)).1 t end :: routes_seen i r l routes.
Proof.
  revert i r routes. induction l as [|h' l IH]; intros i r routes; [done|].
  cbn [app routes_seen rev length]. rewrite IH, <-Nat.add_succ_comm. f_equal.
  destruct (rev l) as [|h'' l'] eqn:E; [|done]. apply (f_equal length) in E. rewrite length_rev in E.
  destruct l; [|done]. simpl. by rewrite Nat.add_0_r.
Qed.

Lemma routes_seen_told dest nodes xs :
  length nodes = length xs → routes_seen 0 (last_route dest) (rev (relay_hops nodes xs)) [] = told dest nodes.
Proof.
  unfold relay_hops. revert xs. induction nodes as [|n nodes IH]; intros [|x xs] Hl; try done.
  cbn [fmap list_fmap zip zip_with rev]. injection Hl as Hl. rewrite routes_seen_snoc, IH by done.
  cbn [told]. f_equal. destruct nodes as [|n' nodes], xs as [|x' xs]; try done.
  rewrite rev_involutive, length_rev, length_zip_with, length_fmap. cbn [fmap list_fmap zip zip_with fst length].
  do 3 f_equal. simpl in Hl. lia.
Qed.

Lemma relays_ok nodes xs :
  Forall2 relay_of nodes xs → (∀ i, Forall (exchanged (secret i)) xs) →
  Forall (λ h : bytes * bytes, size h.2 = 32 ∧ ∀ j, exchanged (secret j) h.2) (relay_hops nodes xs).
Proof.
  intros Hall. unfold relay_hops. induction Hall as [|n x nodes xs Hn Hall IH]; intros Hex; [constructor|].
  cbn [fmap list_fmap zip zip_with]. constructor.
  - split; [apply Hn|]. intros j. specialize (Hex j). by apply Forall_cons_1 in Hex as [? _].
  - apply IH. intros i. specialize (Hex i). by apply Forall_cons_1 in Hex as [_ ?].
Qed.

Lemma relay_secrets nodes xs : length nodes = length xs → (relay_hops nodes xs).*2 = xs.
Proof.
  unfold relay_hops. revert xs. induction nodes as [|n nodes IH]; intros [|x xs] Hl; try done.
  cbn [fmap list_fmap zip zip_with snd]. f_equal. apply IH. by injection Hl.
Qed.

Lemma build_run dest endpoint nodes xs d msg :
  destination_of dest d → Forall2 relay_of nodes xs → (∀ i, Forall (exchanged (secret i)) (d :: xs)) →
  let b := built dest endpoint (hop_keys <$> relay_hops nodes xs) d in
  ∃ req m, build keypair rnd msg b = (Ok req, put_keypair (Some (keypair 0)) b) ∧ arrives dest msg m ∧
    (size req ≤ max_size → ∃ inner, travel max_size xs req = Ok (told dest nodes, inner) ∧
       new_parser (x25519_public d) d inner max_size =
         Ok (mkParser (x25519_public d, d) (server_end d) t (keypair 0).1 m)).
Proof.
  intros Hd Hall Hex b. pose proof (Forall2_length Hall) as Hl.
  destruct (final_layer_run dest endpoint (hop_keys <$> relay_hops nodes xs) d msg Hd) as (blob & m & Ef & Ha & Hds & Ho).
  { intros i. specialize (Hex i). by apply Forall_cons_1 in Hex as [? _]. }
  destruct (last_route_ok dest d Hd) as [Hmade Hroute].
  destruct (build_hops_delivers (rev (relay_hops nodes xs)) 0 (last_route dest) blob [] [] d (keypair 0).1 m)
    as (A & blob' & Eb & HA & Hdel); [done|done| | |].
  { apply delivers_first; try done. rewrite Hkeypair. apply x25519_public_size. }
  { apply Forall_rev, relays_ok; [done|]. intros i. specialize (Hex i). by apply Forall_cons_1 in Hex as [_ ?]. }
  rewrite app_nil_r, routes_seen_told in Hdel by done.
  rewrite fmap_rev, rev_involutive, relay_secrets in Hdel by done.
  destruct (json_dump_parse (json_object [("enc_type", json_string (enc_type_to_string t)); ("ephemeral_key", json_string (to_hex A))]))
    as (w & Hw & Hp).
  { apply made_object; [done|by repeat constructor|]. repeat constructor; simpl; auto using hex_ascii, enc_type_ascii. }
  exists (framed blob' w), m. split_and!; [|done|].
  - assert (enc_type b = t ∧ hops_ b = hop_keys <$> relay_hops nodes xs) as [Et Eh] by (by destruct dest).
    subst b. unfold build, mbind, M_bind, mget, lift. rewrite Ef, Et, Eh. cbn [modify].
    rewrite <-fmap_rev, Eb, Hw. done.
  - intros Hsize. apply (Hdel w _ Hp); [|done]. split; by rewrite json_find_object.
Qed.

(** C29 (onion delivery).  An onion request is always built for a destination whose key is known,
    and reaches it: each relay on the way opens its layer with its own key and
    is told the next relay (or the destination) and the key it needs, and the
    destination opens what is left and finds the message. *)
Theorem onion_delivery dest endpoint nodes xs d msg :
  destination_of dest d → Forall2 relay_of nodes xs → (∀ i, Forall (exchanged (secret i)) (d :: xs)) →
  ∃ b req b', new_builder dest endpoint nodes t = Ok b ∧ build keypair rnd msg b = (Ok req, b') ∧
    (size req ≤ max_size → ∃ inner p, travel max_size xs req = Ok (told dest nodes, inner) ∧
       new_parser (x25519_public d) d inner max_size = Ok p ∧ arrives dest msg (payload p)).
Proof.
  intros Hd Hall Hex. rewrite (new_builder_run _ _ _ xs d) by done.
  destruct (build_run dest endpoint nodes xs d msg) as (req & m & E & Ha & Hdel); [done..|].
  eexists _, req, _. split_and!; [done|exact E|]. intros Hsize.
  destruct (Hdel Hsize) as (inner & Ht & Hp). eexists inner, _. by split_and!; [exact Ht|exact Hp|].
Qed.

(** ** The reply *)
Context `{!Base64Laws, !BtListConsumer, !BtListConsumerLaws}.

Definition json_headers (hs : list (bytes * bytes)) : list (bytes * json) := (λ h, (h.1, json_string h.2)) <$> hs.
Definition headers_ok (hs : list (bytes * bytes)) : Prop :=
  msorted hs = true ∧ Forall (λ h : bytes * bytes, ascii_text h.1 = true ∧ ascii_text h.2 = true) hs.

Lemma header_pairs_back hs : header_pairs (json_object (json_headers hs)) = Ok hs.
Proof.
  unfold header_pairs. rewrite json_items_object, bind_ret. unfold json_headers.
  induction hs as [|[k v] hs IH]; [done|]. cbn [fmap list_fmap mapR fst snd]. by rewrite get_string_string, bind_ret, bind_ret, IH.
Qed.

Lemma json_headers_made hs : headers_ok hs → json_made (json_object (json_headers hs)).
Proof.
  intros [Hs Ht]. unfold json_headers. apply made_object.
  - clear Ht. induction hs as [|[k v] hs IH]; [done|]. apply msorted_cons in Hs as [Hb Hs].
    cbn [fmap list_fmap]. apply msorted_cons. split; [|by apply IH]. apply Forall_fmap. by eapply Forall_impl.
  - apply Forall_fmap. eapply Forall_impl; [|exact Ht]. by intros h [? _].
  - apply Forall_fmap. eapply Forall_impl; [|exact Ht]. intros h [_ ?]. by apply made_text.
Qed.

(** What a server says about its reply, and the whole reply of a node *)
Definition response_info (code : Z) (hs : list (bytes * bytes)) : json :=
  json_object [("code", json_int code); ("headers", json_object (json_headers hs))].
Definition node_reply (code : Z) (hs : list (bytes * bytes)) (text : bytes) : json :=
  json_object [("body", json_string text); ("headers", json_object (json_headers hs)); ("status_code", json_int code)].

Lemma number_field_int m k z :
  mfind k m = Some (json_int z) → - 2 ^ 15 ≤ z < 2 ^ 15 → number_field (json_object m) k = Ok (Some z).
Proof.
  intros Hk Hz. unfold number_field. rewrite json_contains_object, Hk. rewrite (json_index_object _ _ _ Hk). simpl.
  by rewrite is_number_int, get_i16_int.
Qed.
Lemma string_field_string m k v :
  mfind k m = Some (json_string v) → string_field (json_object m) k = Ok (Some v).
Proof.
  intros Hk. unfold string_field. rewrite json_contains_object, Hk. rewrite (json_index_object _ _ _ Hk). simpl.
  by rewrite is_string_string, get_string_string.
Qed.
Lemma headers_field_back m hs :
  mfind "headers" m = Some (json_object (json_headers hs)) → headers_field (json_object m) = Ok hs.
Proof.
  intros Hk. unfold headers_field. rewrite json_contains_object, Hk, (json_index_object _ _ _ Hk). simpl.
  apply header_pairs_back.
Qed.

Lemma made_fields l :
  msorted l = true → forallb (λ p : bytes * json, ascii_text p.1) l = true → Forall (λ p : bytes * json, json_made p.2) l →
  json_made (json_object l).
Proof. intros ? Hk ?. apply made_object; [done| |done]. 
  clear -Hk. induction l as [|p l IH]; [constructor|]. apply andb_true_iff in Hk as [? ?]. constructor; auto.
Qed.

Lemma v4_read rp c code hs body info :
  0 ≤ code < 2 ^ 15 → headers_ok hs → json_dump (response_info code hs) = Ok info →
  decrypt_response rp c = Ok (bt_list_dump (BtStr <$> info :: option_list body)) →
  _decrypt_v4_response rp c = Ok (mkResponse code hs body).
Proof.
  intros Hc Hh Hi Hd. unfold _decrypt_v4_response. rewrite Hd, bind_ret.
  destruct (yields_list (info :: option_list body)) as (k & -> & Hy). rewrite bind_ret.
  destruct (yields_cons _ _ _ Hy) as (-> & -> & k' & -> & Hy'). cbn [orb negb require]. rewrite !bind_ret.
  destruct (json_dump_parse (response_info code hs)) as (info' & Hi' & Hp).
  { apply made_fields; [done..|]. made_values; by apply json_headers_made. }
  rewrite Hi in Hi'. injection Hi' as <-. rewrite Hp, bind_ret. unfold response_info.
  rewrite (number_field_int _ _ code), bind_ret by (done || lia). cbn [from_option_or]. rewrite bind_ret, (headers_field_back _ hs), bind_ret by done.
  destruct body as [b|]; cbn [option_list] in Hy'.
  - destruct (yields_cons _ _ _ Hy') as (-> & _ & k'' & -> & _). done.
  - by rewrite (yields_nil _ Hy').
Qed.

Lemma v3_read rp c code hs text reply response :
  0 ≤ code < 2 ^ 15 → headers_ok hs → ascii_text text = true → json_dump (node_reply code hs text) = Ok reply →
  json_dump (json_object [("result", json_string (to_base64 c))]) = Ok response →
  decrypt_response rp c = Ok reply →
  _decrypt_v3_response rp response = Ok (mkResponse code hs (Some text)).
Proof.
  intros Hc Hh Ht Hr Hw Hd. unfold _decrypt_v3_response.
  destruct (json_dump_parse (json_object [("result", json_string (to_base64 c))])) as (w & Hw' & Hp).
  { apply made_fields; [done..|]. made_values. apply base64_ascii. }
  rewrite Hw in Hw'. injection Hw' as <-. rewrite Hp, bind_ret, (string_field_string _ _ (to_base64 c)), bind_ret by done.
  cbn [from_option_or on_error]. rewrite bind_ret, is_base64_to, from_to_base64. cbn [require]. rewrite bind_ret, Hd, bind_ret.
  destruct (json_dump_parse (node_reply code hs text)) as (r & Hr' & Hp').
  { apply made_fields; [done..|]. made_values; by apply json_headers_made. }
  rewrite Hr in Hr'. injection Hr' as <-. rewrite Hp', bind_ret. unfold node_reply.
  rewrite (number_field_int _ "status_code" code), !bind_ret by (done || lia). rewrite (headers_field_back _ hs), bind_ret by done.
  by rewrite (string_field_string _ _ text).
Qed.

Lemma reply_read c d reply v4 :
  hop_decrypt (client_end (secret 0)) t c (x25519_public d) = Ok reply →
  decrypt_response (mkResponseParser (x25519_public d) (keypair 0) t v4) c = Ok reply.
Proof.
  intros Hc. unfold decrypt_response. cbn [enc_type_ r_destination x25519_keypair_]. rewrite Hkeypair. cbn [fst snd].
  change (mkHopEncryption (secret 0) (x25519_public (secret 0)) false) with (client_end (secret 0)). by rewrite Hc.
Qed.

(** C30 (onion reply).  The destination's reply comes back: whatever it encrypts with the keys
    of the request it opened, the client decrypts, and the response of a
    server (a bencoded list) or of a node (JSON in base64) is read with its
    status, headers and body. *)
Theorem onion_reply dest endpoint nodes xs d msg b b' req inner p reply rnd' :
  destination_of dest d → Forall2 relay_of nodes xs → (∀ i, Forall (exchanged (secret i)) (d :: xs)) →
  new_builder dest endpoint nodes t = Ok b → build keypair rnd msg b = (Ok req, b') → size req ≤ max_size →
  travel max_size xs req = Ok (told dest nodes, inner) → new_parser (x25519_public d) d inner max_size = Ok p →
  nonces_ok rnd' →
  ∃ c rp, encrypt_reply p rnd' reply = Ok c ∧ new_response_parser b' = Ok rp ∧ decrypt_response rp c = Ok reply ∧
    (∀ code hs, 0 ≤ code < 2 ^ 15 → headers_ok hs →
      if is_server dest
      then ∀ info body, json_dump (response_info code hs) = Ok info →
             reply = bt_list_dump (BtStr <$> info :: option_list body) →
             decrypted_response rp c = Ok (mkResponse code hs body)
      else ∀ text response, ascii_text text = true → json_dump (node_reply code hs text) = Ok reply →
             json_dump (json_object [("result", json_string (to_base64 c))]) = Ok response →
             response_long_enough t (size response) = true →
             decrypted_response rp response = Ok (mkResponse code hs (Some text))).
Proof.
  intros Hd Hall Hex Hb Hbuild Hsize Ht Hp Hr.
  rewrite (new_builder_run _ _ _ xs d) in Hb by done. injection Hb as <-.
  destruct (build_run dest endpoint nodes xs d msg) as (req' & m & E & _ & Hdel); [done..|].
  rewrite Hbuild in E. injection E as <- ->. destruct (Hdel Hsize) as (inner' & Ht' & Hp').
  rewrite Ht in Ht'. injection Ht' as <-. rewrite Hp in Hp'. injection Hp' as ->.
  destruct (reply_opens (secret 0) d t rnd' reply Hr) as (c & Ec & Eo & Hs).
  { specialize (Hex 0%nat). by apply Forall_cons_1 in Hex as [? _]. }
  exists c, (mkResponseParser (x25519_public d) (keypair 0) t (is_server dest)). pose proof (reply_read c d reply (is_server dest) Eo) as Ed.
  split_and!; [|by destruct dest|exact Ed|].
  - unfold encrypt_reply. cbn [p_enc p_enc_type remote_pk]. by rewrite Hkeypair.
  - intros code hs Hcode Hhs. pose proof (size_nonneg reply). destruct (is_server dest) eqn:Ev.
    + intros info body Hi ->. unfold decrypted_response. cbn [enc_type_ v4_request_]. 
      assert (response_long_enough t (size c) = true) as ->; [|by eapply v4_read].
      rewrite Hs. destruct t; cbn [response_long_enough overhead]; apply Z.leb_le; unfold ABYTES, GCM_IV_SIZE, GCM_DIGEST_SIZE; lia.
    + intros text response Htext Hreply Hresp Hlong. unfold decrypted_response. cbn [enc_type_ v4_request_].
      rewrite Hlong; cbn [require]; rewrite bind_ret. by eapply v3_read.
Qed.
End layers.
End delivery.
