(* ===== verification/OnionUse.v ===== *)
(** * Contents and limits of onion requests

    What a server reads out of the payload of [src/onionreq/builder.cpp], the
    cases the code does not handle, and concrete instances of the libraries. *)

From Stdlib Require Import ZArith String Ascii Lia.
From stdpp Require Import base option list strings numbers.
From S2P Require Import Prelude OrderedMap Bt Bencode Crypto Encrypt State Text Ids MultiEncrypt Wire Swarm MasterNode HopEncryption OnionRequest OnionDelivery.

Section contents.
Context `{BtLib, JsonTextLaws, BtListConsumer, !BtListConsumerLaws, X25519}.

(** ** Headers *)

(** The value of the last pair with the key [k] *)
Fixpoint header_value (k : bytes) (hs : list (bytes * bytes)) : option bytes :=
  match hs with
  | [] => None
  | (k', v) :: hs => match header_value k hs with
                     | Some v' => Some v'
                     | None => if String.eqb k' k then Some v else None
                     end
  end.

(** What is sent as the header [k]: never the user agent, and a content type
    whenever there is a body *)
Definition sent_header (hs : option (list (bytes * bytes))) (has_body : bool) (k : bytes) : option bytes :=
  if String.eqb k "User-Agent" then None else
  match header_value k (default [] hs) with
  | Some v => Some v
  | None => if has_body && String.eqb k "Content-Type" then Some "application/json" else None
  end.

Definition put_header (m : list (bytes * json)) (h : bytes * bytes) : list (bytes * json) :=
  if String.eqb h.1 "User-Agent" then m else minsert h.1 (json_string h.2) m.

Lemma put_headers_find hs m k :
  mfind k (fold_left put_header hs m) =
    if String.eqb k "User-Agent" then mfind k m else
    match header_value k hs with Some v => Some (json_string v) | None => mfind k m end.
Proof.
  revert m k; induction hs as [|[k' v] hs IH]; intros m k; cbn [fold_left header_value]; [by destruct (String.eqb _ _)|].
  rewrite IH. unfold put_header. cbn [fst snd]. destruct (String.eqb_spec k "User-Agent") as [->|Hk].
  - destruct (String.eqb_spec k' "User-Agent") as [->|Hk']; [done|]. by rewrite mfind_insert_ne.
  - destruct (header_value k hs) as [v'|]; [done|].
    destruct (String.eqb_spec k' "User-Agent") as [->|Hk'].
    + destruct (String.eqb_spec "User-Agent" k) as [<-|_]; [done|done].
    + destruct (String.eqb_spec k' k) as [->|Hne]; [by rewrite mfind_insert_eq|]. by rewrite mfind_insert_ne.
Qed.

Lemma server_headers_find hs has_body k :
  mfind k (server_headers hs has_body) = json_string <$> sent_header hs has_body k.
Proof.
  unfold server_headers, sent_header.
  change (λ (m : list (bytes * json)) (h : bytes * bytes), if String.eqb h.1 "User-Agent" then m else minsert h.1 (json_string h.2) m) with put_header.
  set (m := fold_left put_header (default [] hs) []).
  assert (∀ k, mfind k m = if String.eqb k "User-Agent" then None else json_string <$> header_value k (default [] hs)) as Hm.
  { intros k'. unfold m. rewrite put_headers_find. destruct (String.eqb _ _); [done|]. by destruct (header_value _ _). }
  rewrite (Hm "Content-Type"). destruct has_body; cbn [andb].
  2:{ rewrite Hm. destruct (String.eqb _ _); [done|]. by destruct (header_value k _). }
  destruct (String.eqb_spec k "Content-Type") as [->|Hk].
  - cbn. destruct (header_value "Content-Type" (default [] hs)) eqn:E; cbn; [by rewrite Hm; cbn; rewrite E|by rewrite mfind_insert_eq].
  - assert (mfind k m = json_string <$> (if String.eqb k "User-Agent" then None else
        match header_value k (default [] hs) with Some v => Some v | None => None end)) as E.
    { rewrite Hm. destruct (String.eqb _ _); [done|]. by destruct (header_value k _). }
    destruct (negb _); [rewrite mfind_insert_ne by done|]; exact E.
Qed.

Definition headers_ascii (hs : option (list (bytes * bytes))) : Prop :=
  Forall (λ h : bytes * bytes, ascii_text h.1 = true ∧ ascii_text h.2 = true) (default [] hs).

Definition fields_ok (m : list (bytes * json)) : Prop :=
  msorted m = true ∧ Forall (λ p : bytes * json, ascii_text p.1 = true) m ∧ Forall (λ p : bytes * json, json_made p.2) m.

Lemma Forall_minsert (P : bytes * json → Prop) k v m : P (k, v) → Forall P m → Forall P (minsert k v m).
Proof.
  intros Hv Hm. induction Hm as [|[k' v'] m Hp Hm IH]; cbn [minsert]; [by constructor|].
  destruct (kcmp k k'); by repeat constructor.
Qed.

Lemma fields_ok_insert k v m :
  ascii_text k = true → json_made v → fields_ok m → fields_ok (minsert k v m).
Proof.
  intros Hk Hv (Hs & Ha & Hm). split_and!; [by apply msorted_insert|by apply Forall_minsert|by apply Forall_minsert].
Qed.

Lemma put_headers_ok hs m :
  Forall (λ h : bytes * bytes, ascii_text h.1 = true ∧ ascii_text h.2 = true) hs → fields_ok m →
  fields_ok (fold_left put_header hs m).
Proof.
  intros Hall. revert m. induction Hall as [|[k v] hs [Hk Hv] Hall IH]; intros m Hm; [done|]. cbn [fold_left].
  apply IH. unfold put_header. cbn [fst snd]. destruct (String.eqb _ _); [done|].
  apply fields_ok_insert; [done|by apply made_string|done].
Qed.

Lemma server_headers_made hs has_body : headers_ascii hs → json_made (json_object (server_headers hs has_body)).
Proof.
  intros Hh. assert (fields_ok (server_headers hs has_body)) as (? & ? & ?); [|by apply made_object].
  unfold server_headers. set (m := fold_left _ _ _). assert (fields_ok m) as Hm by by apply put_headers_ok.
  destruct (_ && _); [|done]. apply fields_ok_insert; [done|by apply made_string|done].
Qed.

(** A server reads the payload: a list of the request information and, if
    there is a body, the body. *)
Definition reads_request (s : ServerDestination) (endpoint : bytes) (body : option bytes) (payload : bytes) : Prop :=
  ∃ c info fields hs, consume_list payload = Ok c ∧ yields c (info :: option_list (nonempty body)) ∧
    json_parse info = Ok (json_object fields) ∧
    mfind "method" fields = Some (json_string (s_method s)) ∧
    mfind "endpoint" fields = Some (json_string (slashed endpoint)) ∧
    mfind "headers" fields = Some (json_object hs) ∧
    ∀ k, mfind k hs = json_string <$> sent_header (s_headers s) (bool_decide (is_Some body)) k.

Lemma slashed_ascii e : ascii_text e = true → ascii_text (slashed e) = true.
Proof. unfold ascii_text, slashed. destruct e as [|c e]; [done|]. destruct (Ascii.eqb c "/"); [done|]. simpl. by intros ->. Qed.

Lemma server_payload t s endpoint hops d body :
  ascii_text endpoint = true → ascii_text (s_method s) = true → headers_ascii (s_headers s) →
  ∃ payload, _generate_payload body (built t (to_server s) endpoint hops d) = Ok payload ∧
    reads_request s endpoint body payload.
Proof.
  intros He Hm Hh. unfold _generate_payload. cbn [built host_ protocol_ method_ destination_x25519_public_key_ headers_ endpoint_].
  destruct (json_dump_parse (json_object [("endpoint", json_string (slashed endpoint));
      ("headers", json_object (server_headers (s_headers s) (bool_decide (is_Some body)))); ("method", json_string (s_method s))]))
    as (info & Hi & Hp).
  { apply made_fields; [done..|]. made_values; [by apply slashed_ascii|by apply server_headers_made]. }
  rewrite Hi, bind_ret. eexists. split; [done|].
  replace (match nonempty body with Some x => [x] | None => [] end) with (option_list (nonempty body)) by (by destruct (nonempty body)).
  destruct (yields_list (info :: option_list (nonempty body))) as (c & Hc & Hy).
  eexists c, info, _, _. split_and!; [exact Hc|exact Hy|exact Hp|done..|]. apply server_headers_find.
Qed.
End contents.

Section use.
Context `{BtLib, HashLaws, AeadLaws, X25519Laws, Hmac, AesGcmLaws, OxencLaws}.
Context `{JsonTextLaws, BtListConsumer, !BtListConsumerLaws}.

(** (server request).  A request to a server is always built and the server reads out of it
    the method, the endpoint with a leading slash, the headers (the last value
    of each, without a user agent, with a content type if there is a body) and
    the body; the relays on the way are told its host, port and protocol. *)
Theorem server_request_read (keypair : nat → bytes * bytes) rnd secret max_size t s endpoint nodes xs d body :
  (∀ i, keypair i = (x25519_public (secret i), secret i)) → (∀ i, nonces_ok (rnd i)) → max_size < 2 ^ 32 →
  destination_of (to_server s) d → Forall2 relay_of nodes xs → (∀ i, Forall (exchanged (secret i)) (d :: xs)) →
  ascii_text endpoint = true → ascii_text (s_method s) = true → headers_ascii (s_headers s) →
  ∃ b req b', new_builder (to_server s) endpoint nodes t = Ok b ∧ generate_onion_blob keypair rnd body b = (Ok req, b') ∧
    (size req ≤ max_size → ∃ inner p, travel max_size xs req = Ok (told keypair t (to_server s) nodes, inner) ∧
       new_parser (x25519_public d) d inner max_size = Ok p ∧ reads_request s endpoint body (payload p)).
Proof.
  intros Hk Hr Hmax Hd Hall Hex He Hm Hh. rewrite (new_builder_run t _ _ _ xs d) by done.
  destruct (server_payload t s endpoint (hop_keys <$> relay_hops nodes xs) d body He Hm Hh) as (msg & Hp & Hreads).
  destruct (build_run keypair rnd secret Hk Hr max_size Hmax t (to_server s) endpoint nodes xs d msg)
    as (req & m & E & Ha & Hdel); [done..|]. cbn [arrives] in Ha. subst m.
  eexists _, req, _. split_and!; [done| |].
  - unfold generate_onion_blob, mbind, M_bind, mget, lift. rewrite Hp. exact E.
  - intros Hsize. destruct (Hdel Hsize) as (inner & Ht & Hpars). eexists inner, _. by split_and!; [exact Ht|exact Hpars|].
Qed.

(** ** What goes wrong *)

(** A response of 16 to 23 bytes to a request encrypted with xchacha20 passes
    the check of its length, which forgets the nonce, and is then read past
    its end. *)
Lemma short_response_undefined rp response :
  enc_type_ rp = xchacha20 → v4_request_ rp = true → 16 ≤ size response < 24 →
  decrypted_response rp response = Throw undefined_behaviour.
Proof.
  intros Ht Hv Hs. unfold decrypted_response. rewrite Ht, Hv. cbn [response_long_enough]. unfold ABYTES.
  rewrite (proj2 (Z.leb_le 16 _)) by lia. cbn [require]. rewrite bind_ret. unfold _decrypt_v4_response, decrypt_response.
  rewrite Ht. cbn [hop_decrypt]. unfold decrypt_xchacha20. unfold NPUBBYTES at 1.
  destruct (Z.leb_spec 24 (size response)); [lia|done].
Qed.

(** With 24 to 39 bytes the size of the plaintext wraps around. *)
Lemma short_response_throws rp c :
  enc_type_ rp = xchacha20 → 24 ≤ size c < 40 → 
  (is_Some (scalarmult_curve25519 (x25519_keypair_ rp).2 (r_destination rp))) →
  hop_decrypt (mkHopEncryption (x25519_keypair_ rp).2 (x25519_keypair_ rp).1 false) xchacha20 c (r_destination rp) = Throw length_error.
Proof.
  intros Ht Hs [k Hk]. cbn [hop_decrypt]. unfold decrypt_xchacha20, NPUBBYTES, ABYTES. cbn [response_long_enough]. unfold ABYTES.
  rewrite (proj2 (Z.leb_le 24 _)) by lia. cbn [require]. rewrite bind_ret, (proj2 (Z.leb_le 16 (size c))) by lia. cbn [require]. rewrite bind_ret.
  unfold xchacha20_shared_key. cbn [private_key_]. rewrite Hk. cbn [from_option_or]. rewrite !bind_ret.
  destruct (Z.leb_spec 16 (size (sdrop 24 c))) as [Hle|]; [|done].
  unfold size in *. rewrite length_sdrop in Hle. lia.
Qed.

(** The operations of the C API on a builder *)
Inductive c_call :=
  | c_set_enc_type (t : EncryptType)
  | c_set_destination (dest : network_destination)
  | c_add_hop (keys : bytes * bytes).
Definition c_run (call : c_call) : M Builder () :=
  match call with
  | c_set_enc_type t => set_enc_type t
  | c_set_destination dest => set_destination dest
  | c_add_hop keys => add_hop_keys keys
  end.

(** Nothing the C API can do with a builder sets the destination's X25519 key:
    every attempt to build fails. *)
Lemma c_builder_never_builds garbage t calls keypair rnd msg :
  outcome_of (build keypair rnd msg) (state_after (forM_ calls c_run) (empty_builder garbage t)) = Throw runtime_error.
Proof.
  assert (∀ b, destination_x25519_public_key_ b = None →
               destination_x25519_public_key_ (state_after (forM_ calls c_run) b) = None) as Hkeep.
  { induction calls as [|call calls IH]; intros b Hb; [done|]. unfold state_after in *. cbn [forM_]. unfold mbind, M_bind.
    assert (destination_x25519_public_key_ (c_run call b).2 = None) as Hc.
    { destruct call as [t'|[n|s|]|keys]; [done| |done..]. cbn [c_run]. unfold set_destination, load_from_bytes.
      by destruct (size (remote_pubkey n) =? 32). }
    destruct (c_run call b) as [[[]|e] b']; cbn [snd] in *; auto. }
  specialize (Hkeep (empty_builder garbage t) eq_refl). destruct (state_after _ _) as [? ? ? ? ? x ed h p ? ? ?].
  cbn in Hkeep. subst x. unfold outcome_of, build, mbind, M_bind, mget, lift, final_layer. destruct (keypair 0%nat).
  by destruct h, p, ed.
Qed.

(** A builder that is given a node as its destination after a server still
    sends to the server. *)
Lemma retargeted_keeps_server t s endpoint hops d n keypair rnd msg :
  size (remote_pubkey n) = 32 →
  let b := state_after (set_destination (to_node n)) (built t (to_server s) endpoint hops d) in
  is_v4_request b = false ∧
  ∀ route blob, final_layer keypair rnd msg b = Ok (route, blob) →
    route = server_route (s_host s) (bare_protocol (s_protocol s)) (s_port s) (keypair 0%nat).1 t.
Proof.
  intros Hn b. subst b. unfold state_after. rewrite set_node_run by done. split; [done|]. intros route blob.
  unfold final_layer. destruct (keypair 0%nat) as [A a]. cbn -[hop_encrypt server_route]. by intros; inv_result.
Qed.
End use.

(** ** Concrete instances *)

(** JSON values in bencoded form *)
Fixpoint jvalue_to_bt (j : jvalue) : bt_value :=
  match j with
  | JString s => BtStr s
  | JInt z => BtInt z
  | JObject m => BtDict (map (λ p : bytes * jvalue, (p.1, jvalue_to_bt p.2)) m)
  | JNull => BtList []
  | JBool b => BtList [BtInt (if b then 1 else 0)]
  | JFloat z => BtList [BtStr "f"; BtInt z]
  | JArray l => BtList (BtStr "a" :: map jvalue_to_bt l)
  end.
Fixpoint jvalue_of_bt (v : bt_value) : jvalue :=
  match v with
  | BtStr s => JString s
  | BtInt z => JInt z
  | BtDict d => JObject (map (λ p : bytes * bt_value, (p.1, jvalue_of_bt p.2)) d)
  | BtList [BtInt z] => JBool (negb (z =? 0))
  | BtList [BtStr "f"; BtInt z] => JFloat z
  | BtList (BtStr "a" :: l) => JArray (map jvalue_of_bt l)
  | BtList _ => JNull
  end.

#[global] Instance plain_json_text : JsonText := {|
  json_parse t := l ← bt_load_list t; match l with [v] => Ok (jvalue_of_bt v) | _ => Throw json_error end;
  json_dump j := Ok (bt_list_dump [jvalue_to_bt j]);
  json_string := JString;
  json_int := JInt;
  json_object := JObject;
  json_find j k := match j with JObject m => mfind k m | _ => None end;
  is_string j := match j with JString _ => true | _ => false end;
  is_number j := match j with JInt _ | JFloat _ => true | _ => false end;
  get_i16 := jnumber (- 2 ^ 15) (2 ^ 15 - 1) (λ z, (z + 2 ^ 15) mod 2 ^ 16 - 2 ^ 15);
  json_items j := match j with JObject m => Ok m | JNull | JArray [] => Ok [] | _ => Throw json_error end;
|}.

Section json_made_ind.
Context `{JsonText} (P : json → Prop).
Context (HS : ∀ s, ascii_text s = true → P (json_string s)) (HI : ∀ z, 0 ≤ z ≤ u16_max → P (json_int z)).
Context (HO : ∀ m, msorted m = true → Forall (λ p : bytes * json, P p.2) m → P (json_object m)).
Fixpoint json_made_ind' j (Hj : json_made j) : P j :=
  match Hj with
  | made_string s Hs => HS s Hs
  | made_int z Hz => HI z Hz
  | made_object m Hs _ Hall => HO m Hs
      ((fix go m (Hm : Forall (λ p : bytes * json, json_made p.2) m) : Forall (λ p : bytes * json, P p.2) m :=
          match Hm with
          | List.Forall_nil _ => Forall_nil_2 _
          | List.Forall_cons _ p m Hp Hm => Forall_cons_2 _ p m (json_made_ind' _ Hp) (go m Hm)
          end) m Hall)
  end.
End json_made_ind.

Lemma msorted_map {A B} (f : A → B) (m : list (bytes * A)) :
  msorted (map (λ p, (p.1, f p.2)) m) = msorted m.
Proof.
  induction m as [|[k v] m IH]; [done|]. destruct m as [|[k' v'] m]; [done|].
  change (klt k k' && msorted (map (λ p, (p.1, f p.2)) ((k', v') :: m)) = klt k k' && msorted ((k', v') :: m)).
  by rewrite IH.
Qed.

Lemma made_bt j : json_made (H0 := plain_json_text) j → bt_canon (jvalue_to_bt j) = true ∧ jvalue_of_bt (jvalue_to_bt j) = j.
Proof.
  revert j. apply json_made_ind'; [done| |].
  - intros z Hz. split; [|done]. cbn. unfold in_uint64, u16_max, uint64_max in *. apply orb_true_iff. right.
    apply andb_true_iff. split; apply Z.leb_le; lia.
  - intros m Hs Hm. split.
    + change (msorted (map (λ p : bytes * jvalue, (p.1, jvalue_to_bt p.2)) m) &&
        forallb (λ p, bt_canon p.2) (map (λ p : bytes * jvalue, (p.1, jvalue_to_bt p.2)) m) = true).
      rewrite msorted_map. apply andb_true_iff. split; [exact Hs|].
      clear Hs. induction Hm as [|p m [Hp _] Hm IH]; [done|]. cbn [map forallb snd]. apply andb_true_iff. by split.
    + change (JObject (map (λ p : bytes * bt_value, (p.1, jvalue_of_bt p.2))
        (map (λ p : bytes * jvalue, (p.1, jvalue_to_bt p.2)) m)) = JObject m). f_equal. rewrite map_map.
      clear Hs. induction Hm as [|[k v] m [_ Hp] Hm IH]; [done|]. cbn [map fst snd] in *. by f_equal; [f_equal|].
Qed.

#[global] Instance plain_json_text_laws : JsonTextLaws.
Proof.
  split; try done.
  - intros j Hj. destruct (made_bt j Hj) as [Hc Hb]. eexists. split; [done|].
    cbn [json_parse plain_json_text]. rewrite <-(string_app_empty_r _), bt_load_list_dump by (cbn; by rewrite Hc).
    cbn. by rewrite Hb.
  - intros m k v Hk. cbn. by rewrite (Hk : mfind (V := jvalue) k m = Some v).
  - intros z Hz. cbn. f_equal. rewrite Z.mod_small; lia.
Qed.

#[global] Instance plain_consumer : BtListConsumer := {|
  bt_list_consumer := bt_list;
  consume_list := bt_load_list;
  is_finished l := match l with [] => true | _ => false end;
  next_is_string l := match l with BtStr _ :: _ => true | _ => false end;
  consume_string l := match l with BtStr s :: l => Ok (s, l) | _ => Throw bt_deserialize_invalid end;
|}.
#[global] Program Instance plain_consumer_laws : BtListConsumerLaws := {| yields c l := c = (BtStr <$> l) |}.
Next Obligation.
  intros l. exists (BtStr <$> l). split; [|done]. cbn [consume_list plain_consumer].
  rewrite <-(string_app_empty_r (bt_list_dump _)). apply bt_load_list_dump. cbn.
  induction l; [done|]. done.
Qed.
Next Obligation. by intros c ->. Qed.
Next Obligation. intros c s l ->. cbn. eauto. Qed.

(** Base64 replaced by hex *)
#[local] Instance hex_oxenc : Oxenc := {|
  is_hex := all_chars is_hex_char; to_hex := hex_digits; from_hex := unhex;
  is_base64 := all_chars is_hex_char; to_base64 := hex_digits; from_base64 := unhex;
  is_base32z _ := false; to_base32z s := s; from_base32z s := s;
|}.
#[local] Instance hex_oxenc_laws : OxencLaws.
Proof. destruct plain_oxenc_laws as [H1 H2 H3 H4]. split; [exact H1|exact H2|exact H3|exact H4]. Qed.
#[local] Instance hex_base64_laws : Base64Laws.
Proof. split; [apply (is_hex_digits (H := hex_oxenc))|apply (from_hex_digits (H := hex_oxenc))|apply (hex_ascii (H9 := hex_oxenc))]. Qed.

Definition sample_relay (c : ascii) : master_node := mkNode (String c (zeros 31)) 16909060 443 22020 (2, 8, 0) 5 0.
Definition relay_secret (c : ascii) : bytes := generichash 32 "sk" (String c (zeros 31)).
Definition sample_server : ServerDestination :=
  mkServer "https://" "example.org" (x25519_public (sample_priv "d")) None (Some [("User-Agent", "x"); ("A", "b")]) "GET".
Definition sample_secret (i : nat) : bytes := sample_priv (ascii_of_nat i).
Definition sample_keypair (i : nat) : bytes * bytes := (x25519_public (sample_secret i), sample_secret i).
Definition sample_rnd (i : nat) (n : Z) : bytes := zeros (Z.to_nat n).

Lemma sample_relay_of c : relay_of (sample_relay c) (relay_secret c).
Proof. split_and!; [done|done|by apply generichash_size]. Qed.
Lemma sample_rnd_ok i : nonces_ok (sample_rnd i).
Proof. intros n. unfold sample_rnd. rewrite zeros_size. lia. Qed.
Lemma sample_exchanged a b : exchanged a b.
Proof. by eexists. Qed.

Definition size_of_build (dest : network_destination) (t : EncryptType) (nodes : list master_node) (msg : bytes) : Z :=
  match new_builder dest "info" nodes t with
  | Ok b => match outcome_of (build sample_keypair sample_rnd msg) b with Ok req => size req | Throw _ => -1 end
  | Throw _ => -1
  end.

Lemma onion_delivery_witness : ∃ b req inner p,
  new_builder (to_server sample_server) "info" [sample_relay "a"; sample_relay "b"] xchacha20 = Ok b ∧
  outcome_of (build sample_keypair sample_rnd "hello") b = Ok req ∧
  travel DEFAULT_MAX_SIZE [relay_secret "a"; relay_secret "b"] req =
    Ok ([hop_route (remote_pubkey (sample_relay "b")) (sample_keypair 1).1 xchacha20;
         server_route "example.org" "https" None (sample_keypair 0).1 xchacha20], inner) ∧
  new_parser (x25519_public (sample_priv "d")) (sample_priv "d") inner DEFAULT_MAX_SIZE = Ok p ∧ payload p = "hello".
Proof.
  destruct (onion_delivery sample_keypair sample_rnd sample_secret (λ _, eq_refl) sample_rnd_ok DEFAULT_MAX_SIZE ltac:(done)
    xchacha20 (to_server sample_server) "info" [sample_relay "a"; sample_relay "b"] [relay_secret "a"; relay_secret "b"]
    (sample_priv "d") "hello") as (b & req & b' & Hb & Hr & Hdel).
  - by split_and!.
  - repeat constructor; apply sample_relay_of.
  - intros i. repeat constructor; apply sample_exchanged.
  - destruct Hdel as (inner & p & Ht & Hp & Ha).
    { assert (size_of_build (to_server sample_server) xchacha20 [sample_relay "a"; sample_relay "b"] "hello" = size req) as <-.
      { unfold size_of_build. rewrite Hb. unfold outcome_of. by rewrite Hr. }
      vm_compute. discriminate. }
    exists b, req, inner, p. unfold outcome_of. rewrite Hr. by split_and!.
Defined.

Lemma server_request_read_witness : ∃ b req inner p,
  new_builder (to_server sample_server) "info" [sample_relay "a"] aes_gcm = Ok b ∧
  outcome_of (generate_onion_blob sample_keypair sample_rnd (Some "{}")) b = Ok req ∧
  travel (2 ^ 30) [relay_secret "a"] req = Ok (told sample_keypair aes_gcm (to_server sample_server) [sample_relay "a"], inner) ∧
  new_parser (x25519_public (sample_priv "d")) (sample_priv "d") inner (2 ^ 30) = Ok p ∧
  reads_request sample_server "info" (Some "{}") (payload p).
Proof.
  destruct (server_request_read sample_keypair sample_rnd sample_secret (2 ^ 30) aes_gcm sample_server "info"
    [sample_relay "a"] [relay_secret "a"] (sample_priv "d") (Some "{}")) as (b & req & b' & Hb & Hr & Hdel).
  - done.
  - apply sample_rnd_ok.
  - done.
  - by split_and!.
  - repeat constructor; apply sample_relay_of.
  - intros i. repeat constructor; apply sample_exchanged.
  - done.
  - done.
  - repeat constructor.
  - destruct Hdel as (inner & p & Ht & Hp & Ha).
    { assert (match new_builder (to_server sample_server) "info" [sample_relay "a"] aes_gcm with
              | Ok b => match outcome_of (generate_onion_blob sample_keypair sample_rnd (Some "{}")) b with Ok req => size req | Throw _ => -1 end
              | Throw _ => -1 end = size req) as <-.
      { rewrite Hb. unfold outcome_of. by rewrite Hr. }
      vm_compute. discriminate. }
    exists b, req, inner, p. unfold outcome_of. rewrite Hr. by split_and!.
Defined.

(** A reply to a request sent directly to a server *)
Definition sample_info : bytes :=
  match json_dump (response_info 200 [("a", "b")]) with Ok t => t | Throw _ => "" end.
Definition sample_reply : bytes := bt_list_dump (BtStr <$> [sample_info; "body"]).
Definition sample_builder : Builder :=
  match new_builder (to_server sample_server) "info" [] xchacha20 with Ok b => b | Throw _ => empty_builder false xchacha20 end.
Definition sample_request : bytes * Builder :=
  let '(r, b') := build sample_keypair sample_rnd "hello" sample_builder in
  (match r with Ok req => req | Throw _ => "" end, b').

Lemma onion_reply_witness : ∃ p c rp,
  new_parser (x25519_public (sample_priv "d")) (sample_priv "d") sample_request.1 DEFAULT_MAX_SIZE = Ok p ∧
  encrypt_reply p (sample_rnd 0) sample_reply = Ok c ∧ new_response_parser sample_request.2 = Ok rp ∧
  decrypted_response rp c = Ok (mkResponse 200 [("a", "b")] (Some "body")).
Proof.
  destruct (new_parser (x25519_public (sample_priv "d")) (sample_priv "d") sample_request.1 DEFAULT_MAX_SIZE) as [p|e] eqn:Hp.
  2:{ exfalso. apply (f_equal is_ok) in Hp. vm_compute in Hp. discriminate Hp. }
  assert (new_builder (to_server sample_server) "info" [] xchacha20 = Ok sample_builder) as Hb by (vm_compute; reflexivity).
  assert (build sample_keypair sample_rnd "hello" sample_builder = (Ok sample_request.1, sample_request.2)) as Hbuild
    by (vm_compute; reflexivity).
  destruct (onion_reply sample_keypair sample_rnd sample_secret (λ _, eq_refl) sample_rnd_ok DEFAULT_MAX_SIZE ltac:(done)
    xchacha20 (to_server sample_server) "info" [] [] (sample_priv "d") "hello" sample_builder sample_request.2 sample_request.1
    sample_request.1 p sample_reply (sample_rnd 0)) as (c & rp & Hc & Hrp & _ & Hread).
  - by split_and!.
  - constructor.
  - intros i. repeat constructor. apply sample_exchanged.
  - exact Hb.
  - exact Hbuild.
  - vm_compute. discriminate.
  - done.
  - exact Hp.
  - apply sample_rnd_ok.
  - exists p, c, rp. split_and!; [done|exact Hc|exact Hrp|].
    assert (headers_ok [("a", "b")]) as Hh by (split; [reflexivity|repeat constructor]).
    specialize (Hread 200 [("a", "b")] ltac:(lia) Hh). cbn [is_server] in Hread.
    refine (Hread sample_info (Some "body") _ _); [unfold sample_info; reflexivity|reflexivity].
Defined.
