(* ===== verification/MessageEncrypt.v ===== *)
(** * Encryption of messages

    [src/bchat_encrypt.cpp] and [include/bchat/bchat_encrypt.hpp]: messages to
    one recipient (signed, then in a sealed box), messages to a group (signed,
    compressed, padded, encrypted with the group's key), and the plain uses of
    the cipher.  Messages between blinded ids are in [Blinding]. *)

From Stdlib Require Import ZArith String Ascii Lia.
From stdpp Require Import base option list strings numbers.
From S2P Require Import Prelude OrderedMap Bt Bencode Crypto Encrypt State Util ConfigMessage ConfigBase Text Ids MultiEncrypt.

(** ** libsodium's boxes

    [crypto_box_easy] (message, nonce, public key, secret key),
    [crypto_box_seed_keypair] (public key, secret key), [crypto_box_seal] with
    the random seed of its ephemeral key pair, [crypto_box_seal_open]
    (ciphertext, public key, secret key) *)
Class Box := {
  box_easy : bytes → bytes → bytes → bytes → option bytes;
  box_seed_keypair : bytes → bytes * bytes;
  box_seal : bytes → bytes → bytes → option bytes;
  box_seal_open : bytes → bytes → bytes → option bytes;
}.
Definition SEALBYTES : Z := 48.

(** A sealed box is, as documented, a box with the ephemeral public key before
    it and the hash of both public keys as nonce; the owner of the secret key
    opens it.  Public keys of secret keys are not refused. *)
Class BoxLaws `{Hash, X25519, Box} := {
  box_opens : ∀ seed m sk,
    let '(epk, esk) := box_seed_keypair seed in
    ∃ c, box_easy m (generichash 24 "" (epk +:+ x25519_public sk)) (x25519_public sk) esk = Some c ∧
         size (epk +:+ c) = size m + SEALBYTES ∧
         box_seal_open (epk +:+ c) (x25519_public sk) sk = Some m;
  seal_opens : ∀ seed m sk, ∃ c, box_seal seed m (x25519_public sk) = Some c ∧
    size c = size m + SEALBYTES ∧ box_seal_open c (x25519_public sk) sk = Some m;
  seal_open_size : ∀ c pk sk m, box_seal_open c pk sk = Some m → size c = size m + SEALBYTES;
}.

(** [crypto_pwhash] with Argon2 and [crypto_secretbox_open_easy] (ciphertext,
    nonce, key) *)
Class SecretBox := {
  pwhash : bytes → bytes → option bytes;
  secretbox_open : bytes → bytes → bytes → option bytes;
}.

(** A byte string with this first byte *)
Definition leads (c : ascii) (s : bytes) : bool :=
  match s with String d _ => Ascii.eqb c d | "" => false end.

Section encrypt.
Context `{BtLib, Hash, Aead, Zstd, X25519, Ed25519, SeedKeypair, Box, SecretBox, Oxenc}.

(** A 32-byte seed is extended to the 64-byte key, a 64-byte key kept. *)
Definition full_privkey (ed25519_privkey : bytes) : result bytes :=
  if size ed25519_privkey =? 32 then Ok (seed_keypair ed25519_privkey).2
  else if size ed25519_privkey =? 64 then Ok ed25519_privkey
  else Throw invalid_argument.

(** ** One recipient *)
Definition plain_pubkey (recipient_pubkey : bytes) : result bytes :=
  if (size recipient_pubkey =? 33) && leads "005" recipient_pubkey then Ok (sdrop 1 recipient_pubkey)
  else if size recipient_pubkey =? 32 then Ok recipient_pubkey
  else Throw invalid_argument.

Definition sign_for_recipient (ed25519_privkey recipient_pubkey message : bytes) : result bytes :=
  sk ← full_privkey ed25519_privkey;
  pk ← plain_pubkey recipient_pubkey;
  let signed_part := message +:+ sdrop 32 sk in
  sig ← from_option_or runtime_error (sign_detached sk (signed_part +:+ pk));
  Ok (signed_part +:+ sig).

(** The prefix was checked when signing. *)
Definition drop_prefix (recipient_pubkey : bytes) : bytes :=
  if size recipient_pubkey =? 33 then sdrop 1 recipient_pubkey else recipient_pubkey.

Definition encrypt_for_recipient (rnd ed25519_privkey recipient_pubkey message : bytes) : result bytes :=
  signed_msg ← sign_for_recipient ed25519_privkey recipient_pubkey message;
  from_option_or runtime_error (box_seal rnd signed_msg (drop_prefix recipient_pubkey)).

Definition BOX_HASHKEY : bytes := "BChatBoxEphemeralHashKey".

Definition encrypt_for_recipient_deterministic (ed25519_privkey recipient_pubkey message : bytes) : result bytes :=
  signed_msg ← sign_for_recipient ed25519_privkey recipient_pubkey message;
  let pk := drop_prefix recipient_pubkey in
  let seed := generichash 32 BOX_HASHKEY (stake 32 ed25519_privkey +:+ stake 32 pk +:+ message) in
  let '(eph_pk, eph_sk) := box_seed_keypair seed in
  let nonce := generichash 24 "" (eph_pk +:+ pk) in
  c ← from_option_or runtime_error (box_easy signed_msg nonce pk eph_sk);
  Ok (eph_pk +:+ c).

Definition decrypt_incoming_x (x25519_pubkey x25519_seckey ciphertext : bytes) : result (bytes * bytes) :=
  _ ← require (negb (size ciphertext <? SEALBYTES + 32 + 64)) runtime_error;
  let outer_size := size ciphertext - SEALBYTES in
  let msg_size := Z.to_nat (outer_size - 32 - 64) in
  buf ← from_option_or runtime_error (box_seal_open ciphertext x25519_pubkey x25519_seckey);
  let sender_ed_pk := stake 32 (sdrop msg_size buf) in
  let sig := stake 64 (sdrop (msg_size + 32) buf) in
  let signed := stake (String.length buf - 64) buf +:+ stake 32 x25519_pubkey in
  _ ← require (verify_detached sender_ed_pk signed sig) runtime_error;
  Ok (stake (String.length signed - 64) signed, sender_ed_pk).

Definition decrypt_incoming (ed25519_privkey ciphertext : bytes) : result (bytes * bytes) :=
  sk ← full_privkey ed25519_privkey;
  let x_sec := sk_to_curve25519 sk in
  decrypt_incoming_x (x25519_public x_sec) x_sec ciphertext.

(** The sender's id instead of its key *)
Definition with_bchat_id (r : result (bytes * bytes)) : result (bytes * bytes) :=
  '(buf, sender_ed_pk) ← r;
  sender_x_pk ← from_option_or runtime_error (pk_to_curve25519 sender_ed_pk);
  Ok (buf, "05" +:+ to_hex sender_x_pk).
Definition decrypt_incoming_bchat_id (ed25519_privkey ciphertext : bytes) : result (bytes * bytes) :=
  with_bchat_id (decrypt_incoming ed25519_privkey ciphertext).
Definition decrypt_incoming_bchat_id_x (x25519_pubkey x25519_seckey ciphertext : bytes) : result (bytes * bytes) :=
  with_bchat_id (decrypt_incoming_x x25519_pubkey x25519_seckey ciphertext).

(** ** Groups *)
Definition GROUPS_ENCRYPT_OVERHEAD : Z := NPUBBYTES + ABYTES.
Definition GROUPS_MAX_PLAINTEXT_MESSAGE_SIZE : Z := 1000000.

(** What is sent (the data or its compressed form) and whether it is
    compressed: only if that makes it smaller *)
Definition choose_form (plaintext : bytes) (compress : bool) : result (bytes * bool) :=
  if compress then
    _compressed ← zstd_compress plaintext 1 "";
    if size _compressed <? size plaintext then Ok (_compressed, true) else Ok (plaintext, false)
  else Ok (plaintext, false).

(** The result of [crypto_sign_ed25519_detached] is not checked: [garbage] is
    what the uninitialised signature holds if it fails. *)
Definition group_dict (garbage sk group_ed25519_pubkey plaintext : bytes) (compress : bool) : bt_dict :=
  let signature := default garbage (sign_detached sk (plaintext +:+ group_ed25519_pubkey)) in
  [("", BtInt 1); ("a", BtStr (sdrop 32 sk))] ++
  (if compress then [] else [("d", BtStr plaintext)]) ++
  [("s", BtStr signature)] ++
  (if compress then [("z", BtStr plaintext)] else []).

Definition group_pad (encoded : bytes) (padding : Z) : bytes :=
  let final_len := GROUPS_ENCRYPT_OVERHEAD + size encoded in
  if (1 <? padding) && negb (final_len mod padding =? 0)
  then encoded +:+ zeros (Z.to_nat (padding - final_len mod padding))
  else encoded.

Definition encrypt_for_group (garbage : bytes) (rnd : Z → bytes)
    (user_ed25519_privkey group_ed25519_pubkey group_enc_key plaintext : bytes) (compress : bool) (padding : Z) : result bytes :=
  _ ← require (negb (GROUPS_MAX_PLAINTEXT_MESSAGE_SIZE <? size plaintext)) runtime_error;
  sk ← full_privkey user_ed25519_privkey;
  _ ← require ((size group_enc_key =? 32) || (size group_enc_key =? 64)) invalid_argument;
  _ ← require (size group_ed25519_pubkey =? 32) invalid_argument;
  '(plaintext, compress) ← choose_form plaintext compress;
  let encoded := group_pad (bt_dump (group_dict garbage sk group_ed25519_pubkey plaintext compress)) padding in
  let nonce := rnd NPUBBYTES in
  Ok (nonce +:+ aead_encrypt (stake 32 group_enc_key) nonce encoded).

Record DecryptGroupMessage := mkDecrypted {
  index : Z;
  dg_bchat_id : bytes;
  dg_plaintext : bytes;
}.

(** The first key that opens the ciphertext, and its index *)
Fixpoint try_keys (keys : list bytes) (i : Z) (nonce ciphertext : bytes) : result (option (Z * bytes)) :=
  match keys with
  | [] => Ok None
  | key :: keys =>
      _ ← require ((size key =? 32) || (size key =? 64)) invalid_argument;
      match aead_decrypt (stake 32 key) nonce ciphertext with
      | Some plain => Ok (Some (i, plain))
      | None => try_keys keys (i + 1) nonce ciphertext
      end
  end.

(** Zero bytes at the end are dropped, unless there is nothing else. *)
Fixpoint drop_last_zeros (s : bytes) : bytes :=
  match s with
  | "" => ""
  | String c s =>
      let r := drop_last_zeros s in
      if String.eqb r "" && Ascii.eqb c "000" then "" else String c r
  end.
Definition strip_nulls (s : bytes) : bytes :=
  let r := drop_last_zeros s in if String.eqb r "" then s else r.

(** [if (dict.skip_until(key)) dict.consume...]: the value, if it is there,
    and what follows *)
Definition take_key (d : bt_dict) (key : bytes) : option bt_value * bt_dict :=
  match skip_until d key with
  | ((_, v) :: rest, true) => (Some v, rest)
  | (rest, _) => (None, rest)
  end.
(** A string that is required *)
Definition need_str (d : bt_dict) (key : bytes) : result (bytes * bt_dict) :=
  match take_key d key with
  | (Some v, d) => s ← bt_str v; Ok (s, d)
  | (None, _) => Throw runtime_error
  end.
(** A string that may be missing but not empty: [""] when missing *)
Definition data_str (d : bt_dict) (key : bytes) : result (bytes * bt_dict) :=
  match take_key d key with
  | (Some v, d) => s ← bt_str v; _ ← require (negb (size s =? 0)) runtime_error; Ok (s, d)
  | (None, d) => Ok ("", d)
  end.

Definition read_group_dict (group_ed25519_pubkey plain : bytes) : result (bytes * bytes) :=
  _ ← require (leads "d" plain && bool_decide (back plain = Some "e"%char)) runtime_error;
  _ ← bt_open plain;
  d ← bt_load plain;
  '(v, d) ← match take_key d "" with
            | (Some v, d) => Ok (v, d)
            | (None, _) => Throw runtime_error
            end;
  v ← bt_int32 v;
  _ ← require (v =? 1) runtime_error;
  '(ed_pk, d) ← need_str d "a";
  _ ← require (size ed_pk =? 32) runtime_error;
  x_pk ← from_option_or runtime_error (pk_to_curve25519 ed_pk);
  '(raw_data, d) ← data_str d "d";
  '(ed_sig, d) ← need_str d "s";
  _ ← require (size ed_sig =? 64) runtime_error;
  '(raw_data, compressed) ←
     match take_key d "z" with
     | (Some v, _) =>
         _ ← require (size raw_data =? 0) runtime_error;
         z ← bt_str v;
         _ ← require (negb (size z =? 0)) runtime_error;
         Ok (z, true)
     | (None, _) => _ ← require (negb (size raw_data =? 0)) runtime_error; Ok (raw_data, false)
     end;
  _ ← require (verify_detached ed_pk (raw_data +:+ group_ed25519_pubkey) ed_sig) runtime_error;
  data ← (if (compressed : bool) then from_option_or runtime_error (zstd_decompress raw_data GROUPS_MAX_PLAINTEXT_MESSAGE_SIZE)
          else Ok raw_data);
  Ok ("05" +:+ to_hex x_pk, data).

Definition decrypt_group_message (decrypt_ed25519_privkey_list : list bytes) (group_ed25519_pubkey ciphertext : bytes)
    : result DecryptGroupMessage :=
  _ ← require (negb (size ciphertext <? GROUPS_ENCRYPT_OVERHEAD)) runtime_error;
  _ ← require (size group_ed25519_pubkey =? 32) invalid_argument;
  opened ← try_keys decrypt_ed25519_privkey_list 0 (stake 24 ciphertext) (sdrop 24 ciphertext);
  '(i, plain) ← from_option_or runtime_error opened;
  '(id, data) ← read_group_dict group_ed25519_pubkey (strip_nulls plain);
  Ok (mkDecrypted i id data).

(** ** The Beldex name service *)
Definition decrypt_ons_response (lowercase_name ciphertext : bytes) (nonce : option bytes) : result bytes :=
  match nonce with
  | None =>
      _ ← require (negb (size ciphertext <? 16)) invalid_argument;
      key ← from_option_or runtime_error (pwhash lowercase_name (zeros 16));
      msg ← from_option_or runtime_error (secretbox_open ciphertext (zeros 24) key);
      Ok (to_hex msg)
  | Some nonce =>
      _ ← require (negb (size ciphertext <? ABYTES)) invalid_argument;
      _ ← require (size nonce =? NPUBBYTES) invalid_argument;
      let name_hash := generichash 32 "" lowercase_name in
      let key := generichash 32 name_hash lowercase_name in
      buf ← from_option_or runtime_error (aead_decrypt key nonce ciphertext);
      _ ← require (size buf =? 33) runtime_error;
      Ok (to_hex buf)
  end.

(** ** The plain cipher *)
Definition decrypt_push_notification (payload enc_key : bytes) : result bytes :=
  _ ← require (negb (size payload <? NPUBBYTES + ABYTES)) invalid_argument;
  _ ← require (size enc_key =? 32) invalid_argument;
  buf ← from_option_or runtime_error (aead_decrypt enc_key (stake 24 payload) (sdrop 24 payload));
  Ok (strip_nulls buf).

Definition msg_encrypt_xchacha20 (rnd : Z → bytes) (plaintext enc_key : bytes) : result bytes :=
  _ ← require (size enc_key =? 32) invalid_argument;
  let nonce := rnd NPUBBYTES in
  Ok (nonce +:+ aead_encrypt enc_key nonce plaintext).

Definition msg_decrypt_xchacha20 (ciphertext enc_key : bytes) : result bytes :=
  _ ← require (negb (size ciphertext <? NPUBBYTES + ABYTES)) invalid_argument;
  _ ← require (size enc_key =? 32) invalid_argument;
  from_option_or runtime_error (aead_decrypt enc_key (stake 24 ciphertext) (sdrop 24 ciphertext)).

(** ** Hashes: base64 without its padding *)
Fixpoint drop_last_equals (s : bytes) : bytes :=
  match s with
  | "" => ""
  | String c s =>
      let r := drop_last_equals s in
      if String.eqb r "" && Ascii.eqb c "=" then "" else String c r
  end.
Definition compute_hash_blake2b_b64 (parts : list bytes) : bytes :=
  drop_last_equals (to_base64 (generichash 32 "" (sconcat parts))).
End encrypt.
