(* ===== verification/MessageDelivery.v ===== *)
(** * Delivery of encrypted messages

    Messages encrypted by [src/bchat_encrypt.cpp] for a recipient or a group
    are read by them, and only messages with a valid signature are accepted;
    [Keys::encrypt_message] and [Keys::decrypt_message] of
    [src/config/groups/keys.cpp]. *)

From Stdlib Require Import ZArith String Ascii Lia.
From stdpp Require Import base option list strings numbers.
From S2P Require Import Prelude OrderedMap Bt Bencode Crypto Encrypt State Util ConfigMessage ConfigBase Text Ids MultiEncrypt GroupKeys GroupKeyDelivery HopEncryption MessageEncrypt.

(** ** Messages of a group's keys object *)
Section group_messages.
Context `{BtLib, Hash, Aead, Zstd, X25519, Ed25519, SeedKeypair, Oxenc}.

Definition keys_encrypt_message (garbage : bytes) (rnd : Z → bytes) (plaintext : bytes) (compress : bool) (padding : Z)
    (k : Keys) : result bytes :=
  pk ← from_option_or undefined_behaviour (k_sign_pk k);
  key ← group_enc_key k;
  encrypt_for_group garbage rnd (user_ed25519_sk k) pk key plaintext compress padding.

(** The first of the keys, tried one by one, with which the message is read;
    exceptions are swallowed. *)
Fixpoint decrypt_with (pk ciphertext : bytes) (keys : list bytes) : result (option DecryptGroupMessage) :=
  match keys with
  | [] => Ok None
  | key :: keys =>
      match decrypt_group_message [key] pk ciphertext with
      | Ok d => Ok (Some d)
      | Throw e => if catchable e then decrypt_with pk ciphertext keys else Throw e
      end
  end.

Definition keys_decrypt_message (ciphertext : bytes) (k : Keys) : result (bytes * bytes) :=
  pk ← from_option_or undefined_behaviour (k_sign_pk k);
  d ← decrypt_with pk ciphertext (option_list (pending_key k) ++ (ki_key <$> keys_ k));
  d ← from_option_or runtime_error d;
  Ok (dg_bchat_id d, dg_plaintext d).
End group_messages.

(** ** Bytes *)
Lemma drop_last_zeros_zeros n : drop_last_zeros (zeros n) = "".
Proof. induction n as [|n IH]; [done|]. cbn [zeros drop_last_zeros]. by rewrite IH. Qed.
Lemma drop_last_zeros_end s c n :
  c ≠ "000"%char → drop_last_zeros (s +:+ String c (zeros n)) = s +:+ String c "".
Proof.
  intros Hc. induction s as [|d s IH].
  - cbn [String.append drop_last_zeros]. rewrite drop_last_zeros_zeros. by destruct (Ascii.eqb_spec c "000").
  - change (String d s +:+ String c (zeros n)) with (String d (s +:+ String c (zeros n))).
    cbn [drop_last_zeros]. rewrite IH. by destruct s.
Qed.
Lemma strip_nulls_end s c n : c ≠ "000"%char → strip_nulls (s +:+ String c (zeros n)) = s +:+ String c "".
Proof. intros Hc. unfold strip_nulls. rewrite drop_last_zeros_end by done. by destruct s. Qed.

Lemma back_snoc s c : back (s +:+ String c "") = Some c.
Proof. induction s as [|d s IH]; [done|]. cbn [back String.append]. destruct s; [done|exact IH]. Qed.

Lemma parts_of (s : bytes) n m : size s = n + m → 0 ≤ n → 0 ≤ m → ∃ a b, s = a +:+ b ∧ size a = n ∧ size b = m.
Proof.
  intros Hs Hn Hm. exists (stake (Z.to_nat n) s), (sdrop (Z.to_nat n) s). split_and!; [by rewrite stake_sdrop|..].
  - unfold size in *. rewrite length_stake. lia.
  - unfold size in *. rewrite length_sdrop. lia.
Qed.

Lemma len_of s n : size s = n → String.length s = Z.to_nat n.
Proof. unfold size. lia. Qed.

Section delivery.
Context `{BtLaws, HashLaws, AeadLaws, ZstdLaws, X25519Laws, Ed25519, SeedKeypair, !SeedKeypairLaws, !KeypairLaws, Box, !BoxLaws, OxencLaws}.

(** The ways to give the key pair of a seed, and a recipient's public key *)
Definition privkey_of (seed key : bytes) : Prop := key = seed ∨ key = (seed_keypair seed).2.
Definition pubkey_of (pk given : bytes) : Prop := given = pk ∨ given = String "005" pk.

Lemma full_privkey_run seed key : size seed = 32 → privkey_of seed key → full_privkey key = Ok (seed_keypair seed).2.
Proof.
  intros Hs [->| ->]; unfold full_privkey; [by rewrite Hs|].
  destruct (seed_keypair_form seed) as [Hp Hk]. rewrite Hk, size_app, Hs, Hp. done.
Qed.

Lemma pubkey_of_run pk given : size pk = 32 → pubkey_of pk given → plain_pubkey given = Ok pk ∧ drop_prefix given = pk.
Proof.
  intros Hs [->| ->]; unfold plain_pubkey, drop_prefix.
  - by rewrite Hs.
  - assert (size (String "005" pk) = 33) as -> by (unfold size in *; cbn [String.length]; lia). by destruct pk.
Qed.

Lemma pk_of_sk seed : size seed = 32 → sdrop 32 (seed_keypair seed).2 = (seed_keypair seed).1.
Proof.
  intros Hs. destruct (seed_keypair_form seed) as [_ ->]. apply sdrop_exact. by apply len_of in Hs.
Qed.

(** ** One recipient *)
Lemma sign_run seed key rpk given msg :
  size seed = 32 → privkey_of seed key → size rpk = 32 → pubkey_of rpk given →
  ∃ sig, sign_for_recipient key given msg = Ok (msg +:+ (seed_keypair seed).1 +:+ sig) ∧ size sig = 64 ∧
    verify_detached (seed_keypair seed).1 (msg +:+ (seed_keypair seed).1 +:+ rpk) sig = true.
Proof.
  intros Hs Hk Hr Hg. unfold sign_for_recipient. rewrite (full_privkey_run seed key), bind_ret by done.
  destruct (pubkey_of_run rpk given Hr Hg) as [-> _]. rewrite bind_ret, pk_of_sk by done.
  destruct (keypair_sign seed ((msg +:+ (seed_keypair seed).1) +:+ rpk) Hs) as (sig & -> & Hsz & Hv).
  cbn [from_option_or]. rewrite bind_ret. exists sig. rewrite !append_assoc in *. done.
Qed.

(** What is in the sealed box is taken apart again. *)
Lemma incoming_run x c msg pk sig :
  box_seal_open c (x25519_public x) x = Some (msg +:+ pk +:+ sig) → size c = size (msg +:+ pk +:+ sig) + SEALBYTES →
  size pk = 32 → size sig = 64 →
  decrypt_incoming_x (x25519_public x) x c =
    if verify_detached pk (msg +:+ pk +:+ x25519_public x) sig then Ok (msg, pk) else Throw runtime_error.
Proof.
  intros Ho Hc Hp Hsig. unfold decrypt_incoming_x. rewrite Hc, !size_app, Hp, Hsig. pose proof (size_nonneg msg).
  unfold SEALBYTES. destruct (Z.ltb_spec (size msg + (32 + 64) + 48) (48 + 32 + 64)); [lia|]. cbn [negb require]. rewrite bind_ret, Ho.
  cbn [from_option_or]. rewrite bind_ret.
  replace (size msg + (32 + 64) + 48 - 48 - 32 - 64) with (size msg) by lia. apply len_of in Hp, Hsig.
  assert (Z.to_nat (size msg) = String.length msg) as -> by (unfold size; lia).
  rewrite sdrop_app, (stake_exact 32) by done.
  replace (sdrop (String.length msg + 32) (msg +:+ pk +:+ sig)) with sig.
  2:{ rewrite <-append_assoc. symmetry. apply sdrop_exact. rewrite length_sapp, Hp. done. }
  rewrite (stake_all 64 sig) by (rewrite Hsig; done).
  replace (stake (String.length (msg +:+ pk +:+ sig) - 64) (msg +:+ pk +:+ sig)) with (msg +:+ pk).
  2:{ rewrite <-append_assoc. symmetry. apply stake_exact. rewrite !length_sapp, Hsig. change (Z.to_nat 64) with 64%nat. lia. }
  pose proof (len_of _ _ (x25519_public_size x)) as Hx.
  rewrite (stake_all 32 (x25519_public x)) by (rewrite Hx; done). rewrite append_assoc.
  destruct (verify_detached _ _ _); [|done]. cbn [require]. rewrite bind_ret. do 2 f_equal.
  apply stake_exact. rewrite !length_sapp, Hp, Hx. change (Z.to_nat 32) with 32%nat. lia.
Qed.

Lemma own_x seed : size seed = 32 → sk_to_curve25519 (seed_keypair seed).2 = x_secret seed.
Proof. done. Qed.

(** What both ways of encrypting for a recipient amount to *)
Lemma received seed rseed rkey c msg sig :
  size seed = 32 → size rseed = 32 → privkey_of rseed rkey →
  size sig = 64 → verify_detached (seed_keypair seed).1 (msg +:+ (seed_keypair seed).1 +:+ x_public rseed) sig = true →
  size c = size (msg +:+ (seed_keypair seed).1 +:+ sig) + SEALBYTES →
  box_seal_open c (x_public rseed) (x_secret rseed) = Some (msg +:+ (seed_keypair seed).1 +:+ sig) →
  size c = size msg + 144 ∧ decrypt_incoming rkey c = Ok (msg, (seed_keypair seed).1) ∧
  decrypt_incoming_bchat_id rkey c = Ok (msg, "05" +:+ to_hex (x_public seed)).
Proof.
  intros Hs Hr Hrk Hsig Hv Hc Ho. destruct (seed_keypair_form seed) as [Hp _].
  assert (decrypt_incoming rkey c = Ok (msg, (seed_keypair seed).1)) as Hd.
  { unfold decrypt_incoming. rewrite (full_privkey_run rseed), bind_ret by done. rewrite own_x by done.
    rewrite (incoming_run _ _ msg (seed_keypair seed).1 sig) by done. unfold x_public in Hv. by rewrite Hv. }
  split_and!; [|exact Hd|].
  - rewrite Hc, !size_app, Hp, Hsig. unfold SEALBYTES. lia.
  - unfold decrypt_incoming_bchat_id, with_bchat_id. rewrite Hd, bind_ret, keypair_x by done. done.
Qed.

Lemma encrypt_run rnd seed key rseed rkey given msg :
  size seed = 32 → privkey_of seed key → size rseed = 32 → privkey_of rseed rkey → pubkey_of (x_public rseed) given →
  ∃ c, encrypt_for_recipient rnd key given msg = Ok c ∧ size c = size msg + 144 ∧
     decrypt_incoming rkey c = Ok (msg, (seed_keypair seed).1) ∧
     decrypt_incoming_bchat_id rkey c = Ok (msg, "05" +:+ to_hex (x_public seed)).
Proof.
  intros Hs Hk Hr Hrk Hg.
  destruct (sign_run seed key (x_public rseed) given msg) as (sig & Hsign & Hsz & Hv); [done..|apply x_public_size|done|].
  destruct (pubkey_of_run (x_public rseed) given) as [_ Hdrop]; [apply x_public_size|done|].
  destruct (seal_opens rnd (msg +:+ (seed_keypair seed).1 +:+ sig) (x_secret rseed)) as (c & Hc & Hcs & Ho).
  exists c. split; [|by eapply received]. unfold encrypt_for_recipient. rewrite Hsign, bind_ret, Hdrop.
  unfold x_public. by rewrite Hc.
Qed.

Lemma deterministic_run seed key rseed rkey given msg :
  size seed = 32 → privkey_of seed key → size rseed = 32 → privkey_of rseed rkey → pubkey_of (x_public rseed) given →
  ∃ c, encrypt_for_recipient_deterministic key given msg = Ok c ∧ size c = size msg + 144 ∧
     decrypt_incoming rkey c = Ok (msg, (seed_keypair seed).1) ∧
     decrypt_incoming_bchat_id rkey c = Ok (msg, "05" +:+ to_hex (x_public seed)).
Proof.
  intros Hs Hk Hr Hrk Hg.
  destruct (sign_run seed key (x_public rseed) given msg) as (sig & Hsign & Hsz & Hv); [done..|apply x_public_size|done|].
  destruct (pubkey_of_run (x_public rseed) given) as [_ Hdrop]; [apply x_public_size|done|].
  unfold encrypt_for_recipient_deterministic. rewrite Hsign, bind_ret, Hdrop.
  set (bseed := generichash 32 BOX_HASHKEY _).
  pose proof (box_opens bseed (msg +:+ (seed_keypair seed).1 +:+ sig) (x_secret rseed)) as Hb.
  destruct (box_seed_keypair bseed) as [epk esk]. destruct Hb as (c & Hc & Hcs & Ho).
  exists (epk +:+ c). split; [|by eapply received]. unfold x_public. by rewrite Hc.
Qed.

(** (messages to one recipient).  A message encrypted for a recipient, with
    random or deterministic keys, whichever forms the keys are given in, is
    decrypted by the recipient, who learns the sender's key and id. *)
Theorem message_roundtrip rnd seed key rseed rkey given msg :
  size seed = 32 → privkey_of seed key → size rseed = 32 → privkey_of rseed rkey → pubkey_of (x_public rseed) given →
  (∃ c, encrypt_for_recipient rnd key given msg = Ok c ∧ size c = size msg + 144 ∧
     decrypt_incoming rkey c = Ok (msg, (seed_keypair seed).1) ∧
     decrypt_incoming_bchat_id rkey c = Ok (msg, "05" +:+ to_hex (x_public seed))) ∧
  (∃ c, encrypt_for_recipient_deterministic key given msg = Ok c ∧ size c = size msg + 144 ∧
     decrypt_incoming rkey c = Ok (msg, (seed_keypair seed).1) ∧
     decrypt_incoming_bchat_id rkey c = Ok (msg, "05" +:+ to_hex (x_public seed))).
Proof. intros. split; [by apply (encrypt_run rnd seed key rseed)|by apply (deterministic_run seed key rseed)]. Qed.

(** (only signed messages).  A message is accepted only if it was in a sealed
    box for the recipient together with the sender's key and a signature by
    that key of the message, the sender and this recipient. *)
Theorem incoming_authentic x c msg pk :
  decrypt_incoming_x (x25519_public x) x c = Ok (msg, pk) →
  ∃ sig, box_seal_open c (x25519_public x) x = Some (msg +:+ pk +:+ sig) ∧ size pk = 32 ∧ size sig = 64 ∧
    verify_detached pk (msg +:+ pk +:+ x25519_public x) sig = true.
Proof.
  intros Hd. pose proof Hd as Hd'. unfold decrypt_incoming_x in Hd'. inv_result.
  destruct (box_seal_open c (x25519_public x) x) as [buf|] eqn:Ho; [|done].
  pose proof (seal_open_size _ _ _ _ Ho) as Hc. unfold SEALBYTES in *.
  apply negb_true_iff, Z.ltb_ge in E.
  destruct (parts_of buf (size buf - 96) 96) as (m & rest & -> & Hm & Hrest); [lia..|].
  destruct (parts_of rest 32 64) as (ed & sig & -> & Hed & Hsig); [lia..|].
  rewrite (incoming_run x c m ed sig) in Hd by done.
  destruct (verify_detached ed (m +:+ ed +:+ x25519_public x) sig) eqn:Hv; [|done]. injection Hd as -> ->. eauto.
Qed.

(** ** Groups *)
Lemma choose_form_run plaintext compress form z :
  choose_form plaintext compress = Ok (form, z) →
  (z = false ∧ form = plaintext) ∨ (z = true ∧ ZSTD_decompress form = Some plaintext).
Proof.
  unfold choose_form. destruct compress; [|by intros [= <- <-]; left].
  unfold zstd_compress. destruct (ZSTD_compress 1 plaintext) as [c|] eqn:E; [|done]. rewrite !bind_ret. cbn [String.append].
  destruct (size c <? size plaintext); intros [= <- <-]; [right|by left].
  split; [done|]. by eapply zstd_roundtrip.
Qed.

(** zstd compresses to a frame, which is never empty. *)
Definition compressible (plaintext : bytes) (compress : bool) : Prop :=
  compress = true → ∃ c, ZSTD_compress 1 plaintext = Ok c ∧ c ≠ "".

Lemma choose_form_total plaintext compress :
  plaintext ≠ "" → compressible plaintext compress → ∃ form z, choose_form plaintext compress = Ok (form, z) ∧ form ≠ "".
Proof.
  intros Hne Hc. unfold choose_form. destruct compress; [|eauto]. destruct Hc as (c & E & Hcne); [done|].
  unfold zstd_compress. rewrite E, !bind_ret. cbn [String.append]. destruct (_ <? _); eauto.
Qed.

Lemma bind_req {A} (b : bool) e (f : () → result A) : b = true → (x ← require b e; f x) = f tt.
Proof. by intros ->. Qed.
Lemma take_here key v rest : take_key ((key, v) :: rest) key = (Some v, rest).
Proof.
  unfold take_key. cbn [skip_until]. rewrite keqb_refl. destruct (klt key key) eqn:E; [|done].
  apply klt_spec in E. by apply klt_irrefl in E.
Qed.
Lemma need_str_here key v rest : need_str ((key, BtStr v) :: rest) key = Ok (v, rest).
Proof. unfold need_str. by rewrite take_here. Qed.
Lemma data_str_here key v rest : size v =? 0 = false → data_str ((key, BtStr v) :: rest) key = Ok (v, rest).
Proof. intros Hv. unfold data_str. rewrite take_here. cbn [bt_str]. by rewrite bind_ret, Hv. Qed.

Lemma data_str_missing key k v rest : klt k key = false → keqb k key = false → data_str ((k, v) :: rest) key = Ok ("", (k, v) :: rest).
Proof. intros Hlt Heq. unfold data_str, take_key. cbn [skip_until]. by rewrite Hlt, Heq. Qed.

Lemma group_dict_canon garbage sk gpk form z : bt_canon (BtDict (group_dict garbage sk gpk form z)) = true.
Proof. by destruct z. Qed.

Lemma read_group_run garbage seed gpk form z plaintext :
  size seed = 32 → form ≠ "" →
  (z = false ∧ form = plaintext) ∨ (z = true ∧ ZSTD_decompress form = Some plaintext) →
  size plaintext ≤ GROUPS_MAX_PLAINTEXT_MESSAGE_SIZE →
  read_group_dict gpk (bt_dump (group_dict garbage (seed_keypair seed).2 gpk form z)) =
    Ok ("05" +:+ to_hex (x_public seed), plaintext).
Proof.
  intros Hs Hne Hform Hmax. unfold read_group_dict.
  set (d := group_dict _ _ _ _ _). destruct (bt_dump_head d) as [r Hr].
  assert (leads "d" (bt_dump d) && bool_decide (back (bt_dump d) = Some "e"%char) = true) as ->.
  { apply andb_true_iff. split; [by rewrite Hr|]. apply bool_decide_eq_true. unfold bt_dump. apply back_snoc. }
  cbn [require]. rewrite bind_ret, bt_open_dump, bind_ret, bt_load_dump, bind_ret by apply group_dict_canon.
  destruct (keypair_sign seed (form +:+ gpk) Hs) as (sig & Hsig & Hsz & Hv).
  destruct (seed_keypair_form seed) as [Hp _].
  assert (size form =? 0 = false) as Hnz by (destruct form; [done|]; apply Z.eqb_neq; unfold size; cbn [String.length]; lia).
  unfold d, group_dict. rewrite Hsig, pk_of_sk by done. cbn [default].
  assert (bt_int32 (BtInt 1) = Ok 1) as Hint by (unfold bt_int32; by rewrite consume_int64_fits).
  destruct Hform as [[-> ->]|[-> Hz]]; cbn [app].
  - rewrite take_here, bind_ret, Hint, bind_ret, bind_req by done.
    rewrite need_str_here, bind_ret, bind_req by by rewrite Hp. rewrite keypair_x by done.
    cbn [from_option_or id]. rewrite bind_ret, data_str_here, bind_ret by done. rewrite need_str_here, bind_ret, bind_req by by rewrite Hsz.
    cbn [take_key skip_until]. rewrite bind_req by by rewrite Hnz. by rewrite bind_ret, bind_req.
  - rewrite take_here, bind_ret, Hint, bind_ret, bind_req by done.
    rewrite need_str_here, bind_ret, bind_req by by rewrite Hp. rewrite keypair_x by done.
    cbn [from_option_or id]. rewrite bind_ret, data_str_missing, bind_ret by done. rewrite need_str_here, bind_ret, bind_req by by rewrite Hsz.
    rewrite take_here, bind_req by done. cbn [bt_str]. rewrite bind_ret, bind_req by by rewrite Hnz.
    rewrite bind_ret, bind_req by done. unfold zstd_decompress. rewrite Hz.
    destruct (Z.ltb_spec GROUPS_MAX_PLAINTEXT_MESSAGE_SIZE (size plaintext)); [lia|]. by rewrite andb_false_r.
Qed.

Lemma group_pad_form d padding : ∃ n, group_pad (bt_dump d) padding = bt_body d +:+ String "e" (zeros n).
Proof.
  unfold group_pad, bt_dump. destruct (_ && _).
  - eexists. by rewrite append_assoc.
  - by exists 0%nat.
Qed.

Lemma group_pad_size s padding :
  1 < padding → (GROUPS_ENCRYPT_OVERHEAD + size (group_pad s padding)) mod padding = 0.
Proof.
  intros Hp. unfold group_pad. rewrite (proj2 (Z.ltb_lt 1 padding)) by done. cbn [andb].
  destruct (Z.eqb_spec ((GROUPS_ENCRYPT_OVERHEAD + size s) mod padding) 0) as [E|Hne]; [exact E|]. cbn [negb].
  set (n := GROUPS_ENCRYPT_OVERHEAD + size s) in *. pose proof (Z.mod_pos_bound n padding ltac:(lia)).
  rewrite size_app, zeros_size, Z2Nat.id by lia.
  replace (GROUPS_ENCRYPT_OVERHEAD + (size s + (padding - n mod padding))) with (n + (padding - n mod padding)) by lia.
  rewrite (Z.div_mod n padding) at 1 by lia.
  replace (padding * (n / padding) + n mod padding + (padding - n mod padding)) with ((n / padding + 1) * padding) by lia.
  apply Z.mod_mul. lia.
Qed.

(** What a group message is made of *)
Lemma group_encrypt_run garbage rnd seed key gpk gkey plaintext compress padding :
  size seed = 32 → privkey_of seed key → size gpk = 32 → size gkey = 32 ∨ size gkey = 64 → nonces_ok rnd →
  size plaintext ≤ GROUPS_MAX_PLAINTEXT_MESSAGE_SIZE → plaintext ≠ "" → compressible plaintext compress →
  ∃ nonce enc, encrypt_for_group garbage rnd key gpk gkey plaintext compress padding =
      Ok (nonce +:+ aead_encrypt (stake 32 gkey) nonce enc) ∧ size nonce = 24 ∧
    read_group_dict gpk (strip_nulls enc) = Ok ("05" +:+ to_hex (x_public seed), plaintext) ∧
    (1 < padding → (40 + size enc) mod padding = 0).
Proof.
  intros Hs Hk Hg Hgk Hr Hmax Hnz Hz. destruct (choose_form_total plaintext compress Hnz Hz) as (form & z & Hf & Hne).
  unfold encrypt_for_group.
  rewrite bind_req by (apply negb_true_iff, Z.ltb_ge; lia). rewrite (full_privkey_run seed), bind_ret by done.
  rewrite bind_req by (apply orb_true_iff; rewrite !Z.eqb_eq; done). rewrite bind_req by (by apply Z.eqb_eq).
  rewrite Hf, bind_ret. eexists (rnd NPUBBYTES), _. split; [reflexivity|].
  split_and!; [apply Hr| |intros Hp; exact (group_pad_size _ padding Hp)].
  destruct (group_pad_form (group_dict garbage (seed_keypair seed).2 gpk form z) padding) as [n ->].
  rewrite strip_nulls_end by done. apply read_group_run; [done..| |done]. by eapply choose_form_run.
Qed.

Lemma try_keys_found keys i key nonce c plain :
  keys !! i = Some key → Forall (λ k, size k = 32 ∨ size k = 64) keys →
  (∀ j k, (j < i)%nat → keys !! j = Some k → aead_decrypt (stake 32 k) nonce c = None) →
  aead_decrypt (stake 32 key) nonce c = Some plain →
  ∀ n, try_keys keys n nonce c = Ok (Some (n + Z.of_nat i, plain)).
Proof.
  intros Hi Hall Hno Hyes. revert i Hi Hno. induction keys as [|k keys IH]; intros [|i] Hi Hno n; try done;
    apply Forall_cons_1 in Hall as [Hk Hall]; cbn [try_keys]; rewrite bind_req by (apply orb_true_iff; rewrite !Z.eqb_eq; done).
  - injection Hi as ->. rewrite Hyes. by rewrite Z.add_0_r.
  - rewrite (Hno 0%nat k) by (done || lia). rewrite (IH Hall i Hi); [do 3 f_equal; lia|].
    intros j k' Hj. apply (Hno (S j)). lia.
Qed.

(** (group messages).  A message encrypted for a group, compressed or not, with
    any padding, is a multiple of the padding long, and a member who has the
    key reads it with the sender's id, provided no key before it opens it by
    accident. *)
Theorem group_message_roundtrip garbage rnd seed key gpk gkey plaintext compress padding keys i :
  size seed = 32 → privkey_of seed key → size gpk = 32 → nonces_ok rnd →
  size plaintext ≤ GROUPS_MAX_PLAINTEXT_MESSAGE_SIZE → plaintext ≠ "" → compressible plaintext compress →
  keys !! i = Some gkey → Forall (λ k, size k = 32 ∨ size k = 64) keys →
  ∃ c, encrypt_for_group garbage rnd key gpk gkey plaintext compress padding = Ok c ∧
    (1 < padding → size c mod padding = 0) ∧
    ((∀ j k, (j < i)%nat → keys !! j = Some k → aead_decrypt (stake 32 k) (stake 24 c) (sdrop 24 c) = None) →
     decrypt_group_message keys gpk c = Ok (mkDecrypted (Z.of_nat i) ("05" +:+ to_hex (x_public seed)) plaintext)).
Proof.
  intros Hs Hk Hg Hr Hmax Hnz Hz Hi Hall.
  assert (size gkey = 32 ∨ size gkey = 64) as Hgk by by eapply (Forall_lookup_1 _ _ _ _ Hall).
  destruct (group_encrypt_run garbage rnd seed key gpk gkey plaintext compress padding) as (nonce & enc & E & Hn & Hread & Hpad); [done..|].
  eexists. split; [exact E|]. rewrite size_app, aead_size, Hn. unfold ABYTES.
  split; [intros Hp; rewrite <-(Hpad Hp); f_equal; lia|].
  assert (String.length nonce = 24%nat) as Hl by by apply len_of in Hn.
  rewrite (stake_exact 24), (sdrop_exact 24) by done. intros Hno. unfold decrypt_group_message.
  rewrite (stake_exact 24), (sdrop_exact 24) by done. rewrite size_app, aead_size, Hn. pose proof (size_nonneg enc).
  rewrite bind_req by (apply negb_true_iff, Z.ltb_ge; unfold GROUPS_ENCRYPT_OVERHEAD, NPUBBYTES, ABYTES; lia).
  rewrite bind_req by (by apply Z.eqb_eq).
  rewrite (try_keys_found keys i gkey nonce _ enc) by (done || apply aead_roundtrip).
  rewrite bind_ret. cbn [from_option_or]. by rewrite bind_ret, Hread.
Qed.

(** C25 (the keys object's messages).  What one member encrypts with its keys
    object, every member whose object has the key reads, with the sender's id,
    wherever the key is among those it tries, provided that none of the other
    keys opens the message by accident. *)
Theorem group_keys_message_roundtrip garbage rnd seed k k' gpk gkey plaintext compress padding :
  size seed = 32 → privkey_of seed (user_ed25519_sk k) → k_sign_pk k = Some gpk → k_sign_pk k' = Some gpk → size gpk = 32 →
  group_enc_key k = Ok gkey → size gkey = 32 → gkey ∈ group_keys k' → Forall (λ key, size key = 32) (group_keys k') →
  nonces_ok rnd → size plaintext ≤ GROUPS_MAX_PLAINTEXT_MESSAGE_SIZE → plaintext ≠ "" → compressible plaintext compress →
  ∃ c, keys_encrypt_message garbage rnd plaintext compress padding k = Ok c ∧
    ((∀ key, key ∈ group_keys k' → key ≠ gkey → aead_decrypt key (stake 24 c) (sdrop 24 c) = None) →
     keys_decrypt_message c k' = Ok ("05" +:+ to_hex (x_public seed), plaintext)).
Proof.
  intros Hs Hk Hpk Hpk' Hg Hgk Hgs Hin Hall Hr Hmax Hnz Hz.
  destruct (group_encrypt_run garbage rnd seed (user_ed25519_sk k) gpk gkey plaintext compress padding)
    as (nonce & enc & E & Hn & Hread & _); [done|done|done|by left|done|done|done|done|].
  eexists. split; [unfold keys_encrypt_message; rewrite Hpk; cbn [from_option_or]; rewrite bind_ret, Hgk, bind_ret; exact E|].
  assert (String.length nonce = 24%nat) as Hl by by apply len_of in Hn.
  rewrite (stake_exact 24), (sdrop_exact 24) by done. intros Hno. unfold keys_decrypt_message. rewrite Hpk'. cbn [from_option_or]. rewrite bind_ret.
  set (c := nonce +:+ aead_encrypt (stake 32 gkey) nonce enc).
  assert (∀ key, size key = 32 → stake 32 key = key) as H32 by (intros key Hkey; apply stake_all; by rewrite (len_of _ _ Hkey)).
  assert (∀ key, size key = 32 → decrypt_group_message [key] gpk c =
    match aead_decrypt key nonce (aead_encrypt gkey nonce enc) with
    | Some plain => '(id, data) ← read_group_dict gpk (strip_nulls plain); Ok (mkDecrypted 0 id data)
    | None => Throw runtime_error end) as Hone.
  { intros key Hkey. unfold decrypt_group_message, c. rewrite (stake_exact 24), (sdrop_exact 24) by done. rewrite size_app, aead_size, Hn.
    pose proof (size_nonneg enc).
    rewrite bind_req by (apply negb_true_iff, Z.ltb_ge; unfold GROUPS_ENCRYPT_OVERHEAD, NPUBBYTES, ABYTES; lia).
    rewrite bind_req by (by apply Z.eqb_eq). cbn [try_keys]. rewrite Hkey, (H32 key Hkey), (H32 gkey Hgs). cbn [Z.eqb Pos.eqb orb require].
    rewrite bind_ret. by destruct (aead_decrypt key nonce _). }
  rewrite (H32 gkey Hgs) in Hno.
  assert (∀ keys, gkey ∈ keys → Forall (λ key, size key = 32) keys → (∀ key, key ∈ keys → key ∈ group_keys k') →
    decrypt_with gpk c keys = Ok (Some (mkDecrypted 0 ("05" +:+ to_hex (x_public seed)) plaintext))) as Hmain.
  { induction keys as [|key keys IH]; intros Hi Ha Hsub; [by apply not_elem_of_nil in Hi|].
    apply Forall_cons_1 in Ha as [Hkey Ha]. cbn [decrypt_with]. rewrite Hone by done.
    destruct (decide (key = gkey)) as [->|Hne]; [by rewrite aead_roundtrip, Hread|].
    rewrite (Hno key); [|apply Hsub; left|done]. apply elem_of_cons in Hi as [->|Hi]; [done|].
    cbn [catchable]. apply IH; [done..|]. intros key' Hkey'. apply Hsub. by right. }
  assert (∀ key, key ∈ option_list (pending_key k') ++ (ki_key <$> keys_ k') ↔ key ∈ group_keys k') as Hsame.
  { intros key. unfold pending_key, group_keys. rewrite !elem_of_app, fmap_reverse, elem_of_reverse. by destruct (is_pending k'). }
  rewrite Hmain; [done|by apply Hsame| |by intros key; apply Hsame].
  apply List.Forall_forall. intros key Hkey. apply (proj1 (List.Forall_forall _ _) Hall key).
  by apply list_elem_of_In, Hsame, list_elem_of_In.
Qed.

(** An empty message can be encrypted for a group but not decrypted. *)
Lemma empty_group_message garbage seed gpk :
  size seed = 32 → read_group_dict gpk (bt_dump (group_dict garbage (seed_keypair seed).2 gpk "" false)) = Throw runtime_error.
Proof.
  intros Hs. unfold read_group_dict. set (d := group_dict _ _ _ _ _). destruct (bt_dump_head d) as [r Hr].
  rewrite bind_req.
  2:{ apply andb_true_iff. split; [by rewrite Hr|]. apply bool_decide_eq_true. unfold bt_dump. apply back_snoc. }
  rewrite bt_open_dump, bind_ret, bt_load_dump, bind_ret by apply group_dict_canon.
  destruct (seed_keypair_form seed) as [Hp _]. unfold d, group_dict. rewrite pk_of_sk by done. cbn [app].
  assert (bt_int32 (BtInt 1) = Ok 1) as Hint by (unfold bt_int32; by rewrite consume_int64_fits).
  rewrite take_here, bind_ret, Hint, bind_ret, bind_req by done. rewrite need_str_here, bind_ret, bind_req by by rewrite Hp.
  by rewrite keypair_x.
Qed.

(** ** The plain cipher *)
Lemma plain_cipher_roundtrip rnd key m :
  nonces_ok rnd → size key = 32 →
  ∃ c, msg_encrypt_xchacha20 rnd m key = Ok c ∧ size c = size m + 40 ∧ msg_decrypt_xchacha20 c key = Ok m ∧
    decrypt_push_notification c key = Ok (strip_nulls m).
Proof.
  intros Hr Hk. unfold msg_encrypt_xchacha20, msg_decrypt_xchacha20, decrypt_push_notification.
  rewrite bind_req by by apply Z.eqb_eq. eexists. split; [done|].
  pose proof (Hr NPUBBYTES) as Hn. assert (String.length (rnd NPUBBYTES) = 24%nat) as Hl by by apply len_of in Hn.
  pose proof (size_nonneg m). rewrite !size_app, !aead_size, Hn. unfold NPUBBYTES at 1 3 4, ABYTES.
  split_and!; [lia|..]; rewrite !bind_req by first [by apply Z.eqb_eq | apply negb_true_iff, Z.ltb_ge; lia];
    rewrite (stake_exact 24), (sdrop_exact 24), aead_roundtrip by done; done.
Qed.
End delivery.

(** ** Concrete instances *)
#[global] Instance checksum_box : Box :=
  let keys seed := let sk := generichash 32 "box" seed in (x25519_public sk, sk) in
  let easy m nonce pk sk := k ← scalarmult_curve25519 sk pk; Some (aead_encrypt k nonce m) in {|
  box_easy := easy;
  box_seed_keypair := keys;
  box_seal seed m pk :=
    let '(epk, esk) := keys seed in
    c ← easy m (generichash 24 "" (epk +:+ pk)) pk esk; Some (epk +:+ c);
  box_seal_open c pk sk :=
    let epk := stake 32 c in
    if size c <? SEALBYTES then None else
    k ← scalarmult_curve25519 sk epk; aead_decrypt k (generichash 24 "" (epk +:+ pk)) (sdrop 32 c);
|}.

Lemma checksum_box_opens seed m sk :
  let '(epk, esk) := box_seed_keypair seed in
  ∃ c, box_easy m (generichash 24 "" (epk +:+ x25519_public sk)) (x25519_public sk) esk = Some c ∧
       size (epk +:+ c) = size m + SEALBYTES ∧ box_seal_open (epk +:+ c) (x25519_public sk) sk = Some m.
Proof.
  cbn [box_seed_keypair checksum_box]. set (esk := generichash 32 "box" seed). eexists. split; [reflexivity|].
  pose proof (x25519_public_size esk) as Hp. pose proof (len_of _ _ Hp) as Hl.
  rewrite size_app, aead_size, Hp. unfold SEALBYTES, ABYTES. split; [lia|].
  cbn [box_seal_open checksum_box]. rewrite size_app, aead_size, Hp. pose proof (size_nonneg m). unfold SEALBYTES, ABYTES.
  destruct (Z.ltb_spec (32 + (size m + 16)) 48); [lia|].
  rewrite (stake_exact 32), (sdrop_exact 32) by done.
  pose proof (x25519_exchange sk esk) as Hx. unfold mbind, option_bind. rewrite Hx. apply aead_roundtrip.
Qed.

#[global] Instance checksum_box_laws : BoxLaws.
Proof.
  split.
  - apply checksum_box_opens.
  - intros seed m sk. pose proof (checksum_box_opens seed m sk) as Hb. destruct (box_seed_keypair seed) as [epk esk] eqn:E.
    destruct Hb as (c & Hc & Hs & Ho). exists (epk +:+ c). split; [|done].
    change (box_seal seed m (x25519_public sk)) with (let '(epk, esk) := box_seed_keypair seed in
      c ← box_easy m (generichash 24 "" (epk +:+ x25519_public sk)) (x25519_public sk) esk; Some (epk +:+ c)).
    rewrite E. cbv beta iota. by rewrite Hc.
  - intros c pk sk m. cbn [box_seal_open checksum_box]. unfold SEALBYTES. destruct (Z.ltb_spec (size c) 48); [done|].
    cbn [scalarmult_curve25519 checksum_x25519 mbind option_bind aead_decrypt checksum_aead].
    destruct (Nat.ltb_spec (String.length (sdrop 32 c)) 16); [done|]. destruct (String.eqb _ _); [|done]. intros Hm. apply (inj Some) in Hm. subst m.
    unfold size in *. rewrite length_stake. rewrite !length_sdrop in *. lia.
Qed.

Definition zero_rnd (n : Z) : bytes := zeros (Z.to_nat n).
Lemma zero_rnd_ok : nonces_ok zero_rnd.
Proof. intros n. unfold zero_rnd. rewrite zeros_size. lia. Qed.
Definition seed_a : bytes := sample_priv "a".
Definition seed_b : bytes := sample_priv "b".

Lemma message_roundtrip_witness :
  ∃ c, encrypt_for_recipient_deterministic seed_a (String "005" (x_public seed_b)) "hello" = Ok c ∧
    decrypt_incoming_bchat_id (seed_keypair seed_b).2 c = Ok ("hello", "05" +:+ to_hex (x_public seed_a)).
Proof.
  destruct (message_roundtrip "" seed_a seed_a seed_b (seed_keypair seed_b).2 (String "005" (x_public seed_b)) "hello")
    as (_ & c & Hc & _ & _ & Hd); [reflexivity|by left|reflexivity|by right|by right|].
  exists c. split; [exact Hc|exact Hd].
Defined.

Lemma incoming_authentic_witness : ∃ c sig,
  encrypt_for_recipient "seed" seed_a (x_public seed_b) "hello" = Ok c ∧
  verify_detached (seed_keypair seed_a).1 ("hello" +:+ (seed_keypair seed_a).1 +:+ x25519_public (x_secret seed_b)) sig = true.
Proof.
  destruct (encrypt_for_recipient "seed" seed_a (x_public seed_b) "hello") as [c|e] eqn:E; [|vm_compute in E; discriminate E].
  destruct (incoming_authentic (x_secret seed_b) c "hello" (seed_keypair seed_a).1) as (sig & _ & _ & _ & Hv).
  - vm_compute in E. injection E as <-. vm_compute. reflexivity.
  - exists c, sig. split; [reflexivity|exact Hv].
Defined.

Lemma group_message_roundtrip_witness : ∃ c,
  encrypt_for_group "" zero_rnd seed_a (zeros 32) seed_b "hello" true 256 = Ok c ∧ size c mod 256 = 0 ∧
  decrypt_group_message [seed_a; seed_b] (zeros 32) c = Ok (mkDecrypted 1 ("05" +:+ to_hex (x_public seed_a)) "hello").
Proof.
  destruct (group_message_roundtrip "" zero_rnd seed_a seed_a (zeros 32) seed_b "hello" true 256 [seed_a; seed_b] 1)
    as (c & Hc & Hp & Hd);
    [reflexivity|by left|reflexivity|apply zero_rnd_ok|vm_compute; discriminate|done|by eexists|reflexivity|repeat constructor; by left|].
  exists c. split_and!; [exact Hc|by apply Hp|]. apply Hd. intros j k Hj Hk. destruct j as [|j]; [|lia]. injection Hk as <-.
  vm_compute in Hc. injection Hc as <-. vm_compute. reflexivity.
Defined.

Definition sample_sender : Keys :=
  put_user (seed_keypair seed_a).2 (put_keys [mkKey seed_b 1 0] (put_sig (Some (zeros 32)) None blank_keys)).
Definition sample_reader : Keys :=
  put_keys [mkKey seed_a 0 0; mkKey seed_b 1 1] (put_sig (Some (zeros 32)) None blank_keys).

Lemma group_keys_message_roundtrip_witness : ∃ c,
  keys_encrypt_message "" zero_rnd "hello" false 0 sample_sender = Ok c ∧
  keys_decrypt_message c sample_reader = Ok ("05" +:+ to_hex (x_public seed_a), "hello").
Proof.
  destruct (group_keys_message_roundtrip "" zero_rnd seed_a sample_sender sample_reader (zeros 32) seed_b "hello" false 0)
    as (c & Hc & Hd).
  - reflexivity.
  - by right.
  - reflexivity.
  - reflexivity.
  - reflexivity.
  - reflexivity.
  - reflexivity.
  - apply list_elem_of_In. simpl. by left.
  - repeat constructor.
  - apply zero_rnd_ok.
  - vm_compute. discriminate.
  - done.
  - done.
  - exists c. split; [exact Hc|]. apply Hd. intros key Hin Hne. apply list_elem_of_In in Hin. simpl in Hin.
    destruct Hin as [<-|[<-|[]]]; [done|]. vm_compute in Hc. injection Hc as <-. vm_compute. reflexivity.
Defined.
