(* ===== verification/Blinding.v ===== *)
(** * Blinded ids

    [src/blinding.cpp], the signatures and key conversion of
    [src/xed25519.cpp], the signing wrapper of [src/ed25519.cpp], and the
    messages between blinded ids of [src/bchat_encrypt.cpp]: users of a
    community are known by their public key multiplied with a factor that
    depends on the server (ids starting with 15) or on server and user (25). *)

From Stdlib Require Import ZArith String Ascii Lia.
From stdpp Require Import base option list strings numbers.
From S2P Require Import Prelude OrderedMap Bt Bencode Crypto Encrypt State Util ConfigMessage ConfigBase Text Ids MultiEncrypt Wire MessageEncrypt.

(** ** libsodium's curve

    [crypto_core_ed25519_scalar_*], [crypto_scalarmult_ed25519_noclamp] (scalar,
    point; refused for points outside the main subgroup),
    [crypto_scalarmult_ed25519_base_noclamp] and its clamping variant,
    [crypto_hash_sha512], and the field operations behind
    [xed25519::pubkey] *)
Class Ed25519Core := {
  scalar_reduce : bytes → bytes;
  scalar_mul : bytes → bytes → bytes;
  scalar_add : bytes → bytes → bytes;
  scalar_negate : bytes → bytes;
  scalarmult_noclamp : bytes → bytes → option bytes;
  base_noclamp : bytes → bytes;
  base_clamp : bytes → bytes;
  sha512 : bytes → bytes;
}.
Class Fe25519 := {
  fe25519 : Type;
  fe_1 : fe25519;
  fe_sub : fe25519 → fe25519 → fe25519;
  fe_add : fe25519 → fe25519 → fe25519;
  fe_invert : fe25519 → fe25519;
  fe_mul : fe25519 → fe25519 → fe25519;
  fe_frombytes : bytes → fe25519;
  fe_tobytes : fe25519 → bytes;
}.

(** ** Bits of bytes

    [s[n] = f(s[n])] *)
Fixpoint map_at (n : nat) (f : ascii → ascii) (s : bytes) : bytes :=
  match s, n with
  | String c s, O => String (f c) s
  | String c s, S n => String c (map_at n f s)
  | "", _ => ""
  end.
Definition clear_bit7 (c : ascii) : ascii := chr (Z.land (code c) 0x7f).
Definition flip_bit7 (c : ascii) : ascii := chr (Z.lxor (code c) 0x80).
Fixpoint byte_at (n : nat) (s : bytes) : Z :=
  match s, n with String c _, O => code c | String _ s, S n => byte_at n s | "", _ => 0 end.
(** The sign of a point is the top bit of its last byte. *)
Definition clear_sign (pk : bytes) : bytes := map_at 31 clear_bit7 pk.
Definition flip_sign (pk : bytes) : bytes := map_at 31 flip_bit7 pk.
Definition negative (pk : bytes) : bool := negb (Z.land (byte_at 31 pk) 0x80 =? 0).

Inductive Platform := android | desktop | ios.

Section blinding.
Context `{Hash, Aead, X25519, Ed25519, SeedKeypair, Oxenc, Ed25519Core, Fe25519}.

(** ** [xed25519.cpp] *)
Definition fe25519_montx_to_edy (u : fe25519) : fe25519 :=
  let um1 := fe_sub u fe_1 in
  let up1 := fe_invert (fe_add u fe_1) in
  fe_mul um1 up1.

Definition xed25519_pubkey (curve25519_pubkey : bytes) : bytes :=
  fe_tobytes (fe25519_montx_to_edy (fe_frombytes curve25519_pubkey)).

(** The hash has a personality, which [personal] stands for; [random] are the
    bytes of [randombytes_buf]. *)
Definition xed25519_compute_r (personal : bytes → bytes) (random a msg : bytes) : bytes :=
  scalar_reduce (personal (a +:+ msg +:+ random)).

Definition ed25519_hram (R A msg : bytes) : bytes := scalar_reduce (sha512 (R +:+ A +:+ msg)).

Definition xed25519_sign (personal : bytes → bytes) (random curve25519_privkey msg : bytes) : bytes :=
  let A := base_clamp curve25519_privkey in
  let a := if negative A then scalar_negate curve25519_privkey else curve25519_privkey in
  let A := clear_sign A in
  let r := xed25519_compute_r personal random a msg in
  let R := base_noclamp r in
  R +:+ scalar_add (scalar_mul (ed25519_hram R A msg) a) r.

Definition xed25519_verify (signature curve25519_pubkey msg : bytes) : bool :=
  verify_detached (xed25519_pubkey curve25519_pubkey) msg signature.

(** ** [ed25519::sign] *)
Definition ed25519_sign (ed25519_privkey msg : bytes) : result bytes :=
  sk ← full_privkey ed25519_privkey;
  from_option_or runtime_error (sign_detached sk msg).

(** ** Blinding factors *)
Definition blind15_factor (server_pk : bytes) : bytes := scalar_reduce (generichash 64 "" server_pk).

Definition blind25_factor (bchat_id server_pk : bytes) : bytes :=
  scalar_reduce (generichash 64 "" ((if size bchat_id =? 32 then String "005" bchat_id else bchat_id) +:+ server_pk)).

(** ** Ids from BChat ids *)
Definition unprefixed (bchat_id : bytes) : bytes := if size bchat_id =? 33 then sdrop 1 bchat_id else bchat_id.

Definition blind15_id_impl (bchat_id server_pk : bytes) : result bytes :=
  p ← from_option_or runtime_error (scalarmult_noclamp (blind15_factor server_pk) (xed25519_pubkey (unprefixed bchat_id)));
  Ok (String "021" p).

Definition blind25_id_impl (bchat_id server_pk : bytes) : result bytes :=
  p ← from_option_or runtime_error (scalarmult_noclamp (blind25_factor bchat_id server_pk) (xed25519_pubkey (unprefixed bchat_id)));
  Ok (String "037" p).

Definition blind15_id (bchat_id server_pk : bytes) : result bytes :=
  bchat_id ← (if size bchat_id =? 33 then _ ← require (leads "005" bchat_id) invalid_argument; Ok (sdrop 1 bchat_id)
              else _ ← require (size bchat_id =? 32) invalid_argument; Ok bchat_id);
  _ ← require (size server_pk =? 32) invalid_argument;
  blind15_id_impl bchat_id server_pk.

Definition blind25_id (bchat_id server_pk : bytes) : result bytes :=
  _ ← (if size bchat_id =? 33 then require (leads "005" bchat_id) invalid_argument
       else require (size bchat_id =? 32) invalid_argument);
  _ ← require (size server_pk =? 32) invalid_argument;
  blind25_id_impl bchat_id server_pk.

(** The checks of hex arguments *)
Definition hex_id (bchat_id : bytes) : result () :=
  _ ← require ((size bchat_id =? 66) && is_hex bchat_id) invalid_argument;
  require (leads "0" bchat_id && leads "5" (sdrop 1 bchat_id)) invalid_argument.
Definition hex_server_pk (server_pk : bytes) : result () :=
  require ((size server_pk =? 64) && is_hex server_pk) invalid_argument.

(** Both possible ids: the sign of the user's key is not known *)
Definition blind15_id_hex (bchat_id server_pk : bytes) : result (bytes * bytes) :=
  _ ← hex_id bchat_id;
  _ ← hex_server_pk server_pk;
  blinded ← blind15_id_impl (from_hex bchat_id) (from_hex server_pk);
  Ok (to_hex blinded, to_hex (map_at 32 flip_bit7 blinded)).

Definition blind25_id_hex (bchat_id server_pk : bytes) : result bytes :=
  _ ← hex_id bchat_id;
  _ ← hex_server_pk server_pk;
  blinded ← blind25_id_impl (from_hex bchat_id) (from_hex server_pk);
  Ok (to_hex blinded).

(** ** Ids from Ed25519 keys

    [bchat_id] is what the optional output points to; the second result what
    it holds afterwards. *)
Definition bchat_id_of (ed_pubkey : bytes) : result bytes :=
  x ← from_option_or runtime_error (pk_to_curve25519 ed_pubkey); Ok (String "005" x).

Definition blinded15_id_from_ed (ed_pubkey server_pk : bytes) (bchat_id : option bytes) : result (bytes * option bytes) :=
  _ ← require (size ed_pubkey =? 32) invalid_argument;
  _ ← require (size server_pk =? 32) invalid_argument;
  _ ← require (match bchat_id with Some s => size s =? 0 | None => true end) invalid_argument;
  bchat_id ← match bchat_id with Some _ => id ← bchat_id_of ed_pubkey; Ok (Some id) | None => Ok None end;
  p ← from_option_or runtime_error (scalarmult_noclamp (blind15_factor server_pk) ed_pubkey);
  Ok (String "021" p, bchat_id).

Definition blinded25_id_from_ed (ed_pubkey server_pk : bytes) (bchat_id : option bytes) : result (bytes * option bytes) :=
  _ ← require (size ed_pubkey =? 32) invalid_argument;
  _ ← require (size server_pk =? 32) invalid_argument;
  _ ← require (match bchat_id with Some s => (size s =? 0) || (size s =? 33) | None => true end) invalid_argument;
  id ← match bchat_id with
       | Some s => if size s =? 0 then bchat_id_of ed_pubkey else Ok s
       | None => bchat_id_of ed_pubkey
       end;
  let k := blind25_factor id server_pk in
  p ← from_option_or runtime_error (scalarmult_noclamp k (clear_sign ed_pubkey));
  Ok (String "037" p, match bchat_id with Some _ => Some id | None => None end).

(** ** Key pairs: public key, secret scalar, and the factor that was used *)
Definition blind15_key_pair (ed25519_sk server_pk : bytes) : result (bytes * bytes * bytes) :=
  sk ← full_privkey ed25519_sk;
  _ ← require (size server_pk =? 32) invalid_argument;
  let k := blind15_factor server_pk in
  let a := scalar_mul k (sk_to_curve25519 sk) in
  Ok (base_noclamp a, a, k).

Definition blind25_key_pair (ed25519_sk server_pk : bytes) : result (bytes * bytes * bytes) :=
  sk ← full_privkey ed25519_sk;
  _ ← require (size server_pk =? 32) invalid_argument;
  X ← from_option_or runtime_error (pk_to_curve25519 (sdrop 32 sk));
  let k := blind25_factor X server_pk in
  let k_prime := if negb (Z.land (byte_at 63 sk) 0x80 =? 0) then scalar_negate k else k in
  let a := scalar_mul k_prime (sk_to_curve25519 sk) in
  Ok (base_noclamp a, a, k_prime).

Definition version_blinding_hash_key_sig : bytes := "VersionCheckKey_sig".
Definition blind_version_key_pair (ed25519_sk : bytes) : result (bytes * bytes) :=
  _ ← require ((size ed25519_sk =? 32) || (size ed25519_sk =? 64)) invalid_argument;
  Ok (seed_keypair (generichash 32 version_blinding_hash_key_sig (stake 32 ed25519_sk))).

(** ** Signatures *)
Definition hash_key_seed : bytes := "SessCommBlind25_seed".
Definition hash_key_sig : bytes := "SessCommBlind25_sig".

Definition server_key (server_pk_in : bytes) : result bytes :=
  if size server_pk_in =? 32 then Ok server_pk_in
  else if (size server_pk_in =? 64) && is_hex server_pk_in then Ok (from_hex server_pk_in)
  else Throw invalid_argument.

Definition blind25_sign (ed25519_sk server_pk_in message : bytes) : result bytes :=
  sk ← full_privkey ed25519_sk;
  server_pk ← server_key server_pk_in;
  '(A, a, _) ← blind25_key_pair sk server_pk;
  let seedhash := generichash 32 hash_key_seed (stake 32 sk) in
  let r := scalar_reduce (generichash 64 hash_key_sig (seedhash +:+ A +:+ message)) in
  let sig_R := base_noclamp r in
  let hram := scalar_reduce (sha512 (sig_R +:+ A +:+ message)) in
  Ok (sig_R +:+ scalar_add (scalar_mul hram a) r).

Definition blind15_sign (ed25519_sk server_pk_in message : bytes) : result bytes :=
  sk ← full_privkey ed25519_sk;
  server_pk ← server_key server_pk_in;
  '(blind_15_pk, blind_15_sk, _) ← blind15_key_pair sk server_pk;
  let hrh := sha512 sk in
  let r := scalar_reduce (sha512 (sdrop 32 hrh +:+ blind_15_pk +:+ message)) in
  let sig_R := base_noclamp r in
  let hram := scalar_reduce (sha512 (sig_R +:+ blind_15_pk +:+ message)) in
  Ok (sig_R +:+ scalar_add (scalar_mul hram blind_15_sk) r).

Definition blind_version_sign_request (ed25519_sk : bytes) (timestamp : Z) (method path : bytes) (body : option bytes) : result bytes :=
  '(_, sk) ← blind_version_key_pair ed25519_sk;
  ed25519_sign sk (print_N (Z.to_N timestamp) +:+ method +:+ path +:+ default "" body).

Definition version_url (platform : Platform) : bytes :=
  match platform with
  | android => "/bchat_version?platform=android"
  | desktop => "/bchat_version?platform=desktop"
  | ios => "/bchat_version?platform=ios"
  end.

Definition blind_version_sign (ed25519_sk : bytes) (platform : Platform) (timestamp : Z) : result bytes :=
  '(_, sk) ← blind_version_key_pair ed25519_sk;
  ed25519_sign sk (print_N (Z.to_N timestamp) +:+ "GET" +:+ version_url platform).

(** [blinded_id[1]] and [blinded_id[0]] of a shorter text are undefined. *)
Definition bchat_id_matches_blinded_id (bchat_id blinded_id server_pk : bytes) : result bool :=
  _ ← hex_id bchat_id;
  match blinded_id with
  | String c0 (String c1 _) =>
      _ ← require (negb (negb (Ascii.eqb c1 "5") && (negb (Ascii.eqb c0 "1") || negb (Ascii.eqb c0 "2")))) invalid_argument;
      _ ← hex_server_pk server_pk;
      if Ascii.eqb c0 "1" then
        '(id1, id2) ← blind15_id_hex bchat_id server_pk;
        Ok (String.eqb blinded_id id1 || String.eqb blinded_id id2)
      else if Ascii.eqb c0 "2" then
        id ← blind25_id_hex bchat_id server_pk; Ok (String.eqb blinded_id id)
      else Throw invalid_argument
  | _ => Throw undefined_behaviour
  end.

(** ** Messages between blinded ids *)
Definition BLINDED_ENCRYPT_VERSION : ascii := "000".

Definition blinded_shared_secret (seed kA jB server_pk : bytes) (sending : bool) : result bytes :=
  _ ← require ((size seed =? 64) || (size seed =? 32)) invalid_argument;
  _ ← require (size server_pk =? 32) invalid_argument;
  _ ← require (size kA =? 33) invalid_argument;
  _ ← require (size jB =? 33) invalid_argument;
  '(_, k) ← (if leads "021" kA && leads "021" jB then blind15_key_pair seed server_pk
             else if leads "037" kA && leads "037" jB then blind25_key_pair seed server_pk
             else Throw invalid_argument);
  let blind25 := leads "037" kA in
  let kA := sdrop 1 kA in
  let jB := sdrop 1 jB in
  let a := sk_to_curve25519 seed in
  let ka := if blind25 then scalar_mul a k else a in
  shared_secret ← from_option_or runtime_error (scalarmult_noclamp ka jB);
  let sender := if sending then kA else jB in
  let recipient := if sending then jB else kA in
  Ok (generichash 32 "" (shared_secret +:+ sender +:+ recipient)).

Definition encrypt_for_blinded_recipient (rnd : Z → bytes) (ed25519_privkey server_pk recipient_blinded_id message : bytes) : result bytes :=
  _ ← require ((size ed25519_privkey =? 64) || (size ed25519_privkey =? 32)) invalid_argument;
  _ ← require (size server_pk =? 32) invalid_argument;
  _ ← require (size recipient_blinded_id =? 33) invalid_argument;
  '(A, _, _) ← (if leads "021" recipient_blinded_id then blind15_key_pair ed25519_privkey server_pk
                else if leads "037" recipient_blinded_id then blind25_key_pair ed25519_privkey server_pk
                else Throw invalid_argument);
  let blinded_id := stake 1 recipient_blinded_id +:+ A in
  enc_key ← blinded_shared_secret ed25519_privkey blinded_id recipient_blinded_id server_pk true;
  let pk := if size ed25519_privkey =? 64 then sdrop 32 ed25519_privkey else (seed_keypair ed25519_privkey).1 in
  let nonce := rnd NPUBBYTES in
  Ok (String BLINDED_ENCRYPT_VERSION (aead_encrypt enc_key nonce (message +:+ pk) +:+ nonce)).

(** The blinded id of a key, of the kind of [like] *)
Definition blinded_like (like ed_pubkey server_pk : bytes) (bchat_id : option bytes) : result (bytes * option bytes) :=
  if leads "037" like then blinded25_id_from_ed ed_pubkey server_pk bchat_id
  else blinded15_id_from_ed ed_pubkey server_pk bchat_id.

Definition decrypt_from_blinded_recipient (ed25519_privkey server_pk sender_id recipient_id ciphertext : bytes) : result (bytes * bytes) :=
  sk ← full_privkey ed25519_privkey;
  let ed_pk := sdrop 32 sk in
  _ ← require (negb (size ciphertext <? NPUBBYTES + 1 + ABYTES)) invalid_argument;
  _ ← require (negb (size recipient_id =? 0)) undefined_behaviour;
  '(blinded_id, _) ← blinded_like recipient_id ed_pk server_pk None;
  dec_key ← (if String.eqb sender_id blinded_id
             then blinded_shared_secret sk sender_id recipient_id server_pk true
             else blinded_shared_secret sk recipient_id sender_id server_pk false);
  _ ← require (leads BLINDED_ENCRYPT_VERSION ciphertext) invalid_argument;
  let msg_size := size ciphertext - ABYTES - 1 - NPUBBYTES in
  _ ← require (negb (msg_size <? 32)) invalid_argument;
  let len := Z.to_nat (msg_size + ABYTES) in
  let nonce := sdrop (1 + len) ciphertext in
  buf ← from_option_or invalid_argument (aead_decrypt dec_key nonce (stake len (sdrop 1 ciphertext)));
  let n := (String.length buf - 32)%nat in
  let sender_ed_pk := sdrop n buf in
  sender_x_pk ← from_option_or runtime_error (pk_to_curve25519 sender_ed_pk);
  '(extracted_sender, _) ← blinded_like recipient_id sender_ed_pk server_pk (Some "");
  let matched := String.eqb sender_id extracted_sender in
  let matched := if negb matched && leads "021" extracted_sender
                 then String.eqb sender_id (map_at 31 flip_bit7 extracted_sender) else matched in
  _ ← require matched runtime_error;
  Ok (stake n buf, "05" +:+ to_hex sender_x_pk).
End blinding.
