(* ===== verification/Curve25519.v ===== *)
(** * The curve

    What is assumed of libsodium's curve and of the arithmetic modulo
    2^255 - 19 behind it, the conversion of X25519 keys to Ed25519 keys of
    [src/xed25519.cpp], which inverts libsodium's conversion up to the sign,
    and a concrete small curve that satisfies the laws. *)

From Stdlib Require Import ZArith Zcong String Ascii Lia.
From stdpp Require Import base option list strings numbers.
From S2P Require Import Prelude OrderedMap Bt Bencode Crypto Encrypt State Util ConfigMessage ConfigBase Text Ids MultiEncrypt Wire GroupKeyDelivery HopEncryption MessageEncrypt MessageDelivery Blinding.

(** ** What is assumed of the field

    The elements stand for integers modulo [p25519], with the operations their
    names say; only an invertible element has an inverse.  Bytes are read in
    little-endian order without the top bit, and written reduced. *)
Definition p25519 : Z := 2 ^ 255 - 19.
Class Fe25519Laws `{Fe25519} := {
  fe_val : fe25519 → Z;
  fe_val_1 : fe_val fe_1 mod p25519 = 1;
  fe_val_sub : ∀ a b, fe_val (fe_sub a b) mod p25519 = (fe_val a - fe_val b) mod p25519;
  fe_val_add : ∀ a b, fe_val (fe_add a b) mod p25519 = (fe_val a + fe_val b) mod p25519;
  fe_val_mul : ∀ a b, fe_val (fe_mul a b) mod p25519 = (fe_val a * fe_val b) mod p25519;
  fe_val_invert : ∀ a, Z.gcd (fe_val a) p25519 = 1 → (fe_val (fe_invert a) * fe_val a) mod p25519 = 1;
  fe_val_frombytes : ∀ s, size s = 32 → fe_val (fe_frombytes s) mod p25519 = le_value (clear_sign s) mod p25519;
  fe_tobytes_val : ∀ a, fe_tobytes a = le_write 32 (fe_val a mod p25519);
}.

(** The coordinate a public key is: of an Ed25519 key [y], of an X25519 key [u] *)
Definition coordinate (pk : bytes) : Z := le_value (clear_sign pk).
(** The birational map between the curves: [u (1 - y) = 1 + y] *)
Definition same_point (u y : Z) : Prop := (u * (1 - y)) mod p25519 = (1 + y) mod p25519.

(** ** What is assumed of the curve

    Scalars have 32 bytes and multiply commutatively and associatively; a product with a multiple
    of the base point depends on the product of the scalars only; flipping the
    sign bit negates a point.  The public key of a seed is its secret scalar
    times the base point.  The X25519 key of a point has the coordinate of the
    birational map, and points are written with reduced coordinates.
    [schnorr_verifies] is the equation of Ed25519 signatures. *)
Class CurveLaws `{Hash, X25519, Ed25519, SeedKeypair, Ed25519Core} := {
  scalar_mul_comm : ∀ s t, scalar_mul s t = scalar_mul t s;
  scalar_mul_assoc : ∀ s t u, scalar_mul s (scalar_mul t u) = scalar_mul (scalar_mul s t) u;
  scalar_negate_mul : ∀ s t, scalar_mul (scalar_negate s) t = scalar_mul s (scalar_negate t);
  scalar_reduce_size : ∀ s, size (scalar_reduce s) = 32;
  base_size : ∀ s, size (base_noclamp s) = 32;
  noclamp_product : ∀ s t s' t', scalar_mul s t = scalar_mul s' t' →
    scalarmult_noclamp s (base_noclamp t) = scalarmult_noclamp s' (base_noclamp t');
  noclamp_base : ∀ s t p, scalarmult_noclamp s (base_noclamp t) = Some p → p = base_noclamp (scalar_mul s t);
  noclamp_flip : ∀ s t, scalarmult_noclamp s (flip_sign (base_noclamp t)) = scalarmult_noclamp (scalar_negate s) (base_noclamp t);
  noclamp_negate : ∀ s t, scalarmult_noclamp (scalar_negate s) (base_noclamp t) = flip_sign <$> scalarmult_noclamp s (base_noclamp t);
  base_negate : ∀ s, negative (base_noclamp s) = true → base_noclamp (scalar_negate s) = flip_sign (base_noclamp s);
  seed_scalar : ∀ seed, size seed = 32 → (seed_keypair seed).1 = base_noclamp (sk_to_curve25519 (seed_keypair seed).2);
  sk_to_curve25519_seed : ∀ sk, sk_to_curve25519 (stake 32 sk) = sk_to_curve25519 sk;
  base_clamped : ∀ sk, base_clamp (sk_to_curve25519 sk) = base_noclamp (sk_to_curve25519 sk);
  base_canonical : ∀ s, coordinate (base_noclamp s) < p25519;
  pk_to_curve25519_map : ∀ s x, pk_to_curve25519 (base_noclamp s) = Some x → same_point (coordinate x) (coordinate (base_noclamp s));
  schnorr_verifies : ∀ a r msg,
    let R := base_noclamp r in let A := base_noclamp a in
    verify_detached A msg (R +:+ scalar_add (scalar_mul (scalar_reduce (sha512 (R +:+ A +:+ msg))) a) r) = true;
}.

(** ** Sign bits *)
Ltac by_all_bytes c :=
  match goal with |- ?t = true => let f := eval pattern c in t in
    lazymatch f with ?g _ => apply (all_bytes_spec g) end end; vm_compute; reflexivity.

Lemma flip_flip_bit c : flip_bit7 (flip_bit7 c) = c.
Proof.
  assert (Ascii.eqb (flip_bit7 (flip_bit7 c)) c = true) as E by by_all_bytes c. by apply Ascii.eqb_eq in E.
Qed.
Lemma flip_bit_ne c : flip_bit7 c ≠ c.
Proof.
  assert (negb (Ascii.eqb (flip_bit7 c) c) = true) as E by by_all_bytes c. intros Hc. rewrite Hc, Ascii.eqb_refl in E. done.
Qed.
Lemma flip_next n p : String.length p = S (S n) → map_at n flip_bit7 p ≠ map_at (S n) flip_bit7 p.
Proof.
  revert p; induction n as [|n IH]; intros [|c p] Hl; [done| |done|].
  - destruct p as [|d p]; [done|]. intros E. injection E as E _. by destruct (flip_bit_ne c).
  - change (String c (map_at n flip_bit7 p) ≠ String c (map_at (S n) flip_bit7 p)). intros E. injection E as E.
    injection Hl as Hl. by destruct (IH p).
Qed.
Lemma clear_bit c : clear_bit7 c = if negb (Z.land (code c) 0x80 =? 0) then flip_bit7 c else c.
Proof.
  assert (Ascii.eqb (clear_bit7 c) (if negb (Z.land (code c) 0x80 =? 0) then flip_bit7 c else c) = true) as E by by_all_bytes c.
  by apply Ascii.eqb_eq in E.
Qed.

Lemma map_at_twice n f s : (∀ c, f (f c) = c) → map_at n f (map_at n f s) = s.
Proof. intros Hf. revert n; induction s as [|c s IH]; intros [|n]; cbn [map_at]; [done..|by rewrite Hf|by rewrite IH]. Qed.
Lemma flip_flip pk : flip_sign (flip_sign pk) = pk.
Proof. apply map_at_twice, flip_flip_bit. Qed.

Lemma clear_sign_flip pk : clear_sign pk = if negative pk then flip_sign pk else pk.
Proof.
  unfold clear_sign, flip_sign, negative. generalize 31%nat. induction pk as [|c pk IH]; intros [|n]; cbn [map_at byte_at].
  - done.
  - done.
  - rewrite clear_bit. by destruct (negb _).
  - rewrite IH. by destruct (negb _).
Qed.

Lemma byte_at_app n a b : String.length a = n → ∀ i, byte_at (n + i) (a +:+ b) = byte_at i b.
Proof. intros <- i. induction a as [|c a IH]; [done|exact IH]. Qed.

Lemma clear_clear pk : negative (clear_sign pk) = false.
Proof.
  unfold clear_sign, negative. generalize 31%nat. induction pk as [|c pk IH]; intros [|n]; cbn [map_at byte_at]; try done.
  assert (negb (negb (Z.land (code (clear_bit7 c)) 0x80 =? 0)) = true) as E by by_all_bytes c. by apply negb_true_iff in E.
Qed.

(** ** Numbers and their bytes *)
Lemma le_value_nonneg s : 0 ≤ le_value s.
Proof. induction s as [|c s IH]; cbn [le_value]; [done|]. pose proof (code_bound c). lia. Qed.
Lemma le_value_app a b : le_value (a +:+ b) = le_value a + 256 ^ size a * le_value b.
Proof.
  induction a as [|c a IH]; [cbn [String.append le_value]; change (256 ^ size "") with 1; lia|].
  cbn [String.append le_value]. rewrite IH, size_cons, Z.pow_succ_r by apply size_nonneg. lia.
Qed.
Lemma map_at_size n f s : size (map_at n f s) = size s.
Proof. unfold size. revert n; induction s as [|c s IH]; intros [|n]; cbn [map_at String.length]; [done..|]. specialize (IH n). lia. Qed.

Lemma le_write_value s : le_write (String.length s) (le_value s) = s.
Proof.
  induction s as [|c s IH]; [done|]. cbn [String.length le_write le_value]. pose proof (code_bound c) as Hc.
  rewrite (Z.add_comm (code c)), Z.mul_comm, Z.div_add_l, Z.div_small, Z.add_0_r, IH by lia. f_equal.
  rewrite <-(chr_code c) at 2. unfold chr. by rewrite Z.add_comm, Z.mod_add by lia.
Qed.

Lemma byte_at_value n s : byte_at n s = (le_value s / 256 ^ Z.of_nat n) mod 256.
Proof.
  revert n; induction s as [|c s IH]; intros n.
  { cbn [le_value]. rewrite Z.div_0_l by (apply Z.pow_nonzero; lia). by destruct n. }
  pose proof (code_bound c). destruct n as [|n]; cbn [byte_at le_value].
  - change (256 ^ Z.of_nat 0) with 1. rewrite Z.div_1_r. rewrite (Z.mul_comm 256), Z.mod_add, Z.mod_small by lia. done.
  - rewrite IH, Nat2Z.inj_succ, Z.pow_succ_r by lia. rewrite <-Z.div_div by lia.
    rewrite (Z.mul_comm 256), Z.div_add, (Z.div_small (code c)), Z.add_0_l by lia. done.
Qed.

Lemma clear_canonical s : 0 ≤ le_value s < p25519 → clear_sign s = s.
Proof.
  intros Hv. rewrite clear_sign_flip. unfold negative. rewrite byte_at_value.
  set (b := le_value s / 256 ^ Z.of_nat 31). assert (0 ≤ b < 128) as Hb.
  { unfold b. split; [apply Z.div_pos; lia|]. apply Z.div_lt_upper_bound; [lia|].
    change (256 ^ Z.of_nat 31 * 128) with (2 ^ 255). unfold p25519 in Hv. lia. }
  rewrite Z.mod_small by lia. assert (Z.land b 0x80 = 0) as ->; [|done].
  apply Z.bits_inj'. intros n Hn. rewrite Z.land_spec, Z.bits_0. change 0x80 with (2 ^ 7). rewrite Z.pow2_bits_eqb by lia.
  destruct (Z.eqb_spec 7 n) as [<-|]; [|by rewrite andb_false_r]. rewrite andb_true_r.
  rewrite Z.bits_above_log2; [done|lia|]. destruct (decide (b = 0)) as [->|]; [done|]. apply Z.log2_lt_pow2; lia.
Qed.

(** ** The conversion of keys *)
Lemma mod_diff a b : a mod p25519 = b mod p25519 ↔ ∃ k, a = b + k * p25519.
Proof.
  split.
  - intros E. exists (a / p25519 - b / p25519). pose proof (Z.div_mod a p25519 ltac:(done)). pose proof (Z.div_mod b p25519 ltac:(done)). lia.
  - intros [k ->]. by rewrite Z.mod_add.
Qed.

(** A coordinate [u] of a point is never -1, so that [u + 1] has an inverse. *)
Lemma succ_invertible u y : same_point u y → Z.gcd (u + 1) p25519 = 1.
Proof.
  intros [k Hk]%mod_diff. apply Z.bezout_1_gcd. exists (- ((p25519 - 1) / 2) * (1 - y)), (1 + k * ((p25519 - 1) / 2)).
  assert (p25519 = 1 + 2 * ((p25519 - 1) / 2)) as Hp by reflexivity. revert Hp Hk. generalize ((p25519 - 1) / 2) as m. generalize p25519 as p.
  intros p m Hp Hk. pose proof (f_equal (Z.mul m) Hk). lia.
Qed.

(** The inverse of the birational map *)
Lemma same_point_solve u y i um up :
  same_point u y → um mod p25519 = (u - 1) mod p25519 → up mod p25519 = (u + 1) mod p25519 → (i * up) mod p25519 = 1 mod p25519 →
  (um * i) mod p25519 = y mod p25519.
Proof.
  intros [k5 Hs]%mod_diff [k2 Hum]%mod_diff [k1 Hup]%mod_diff [k3 Hi]%mod_diff. apply mod_diff.
  assert (p25519 = 1 + 2 * ((p25519 - 1) / 2)) as Hp by reflexivity. revert Hs Hum Hup Hi Hp.
  generalize ((p25519 - 1) / 2) as m. generalize p25519 as p. intros p m Hs Hum Hup Hi Hp.
  set (M := k5 + k2 * (1 - y) + um * (1 - y) * (k3 - i * k1) - um * i * k5).
  assert (2 * (um * i) = 2 * y + M * p) as HM.
  { assert (i * (u + 1) = 1 + k3 * p - i * k1 * p) as E1 by (subst up; lia).
    assert ((u + 1) * (1 - y) = 2 + k5 * p) as E2 by lia.
    pose proof (f_equal (Z.mul (um * (1 - y))) E1) as E3. pose proof (f_equal (Z.mul (um * i)) E2) as E4.
    assert (um * (1 - y) = 2 * y + k5 * p + k2 * (1 - y) * p) as E5 by (rewrite Hum; lia).
    unfold M. clear -E3 E4 E5. lia. }
  exists (um * i - y - m * M). pose proof (f_equal (Z.mul m) HM) as HmM.
  assert (p * (um * i - y) = (um * i - y) + 2 * m * (um * i - y)) as Hexp by (rewrite Hp; ring). clear -HmM Hexp. lia.
Qed.

(** The inverse of the birational map exists for small coordinates. *)
Lemma small_coprime y : 2 ≤ y ≤ 2000 → Z.gcd (1 - y) p25519 = 1.
Proof.
  intros Hy. assert (forallb (λ y, Z.gcd (1 - y) p25519 =? 1) (seqZ 2 1999) = true) as E by (vm_compute; reflexivity).
  rewrite forallb_forall in E. apply Z.eqb_eq, E, list_elem_of_In, elem_of_seqZ. lia.
Qed.

Section conversion.
Context `{Fe25519, !Fe25519Laws}.

Lemma montx_to_edy u y e :
  same_point u y → fe_val e mod p25519 = u mod p25519 → fe_val (fe25519_montx_to_edy e) mod p25519 = y mod p25519.
Proof.
  intros Hs He. assert (fe_val (fe_add e fe_1) mod p25519 = (u + 1) mod p25519) as Hup.
  { rewrite fe_val_add, Z.add_mod, He, fe_val_1 by done. by rewrite (Z.add_mod u 1). }
  assert (fe_val (fe_sub e fe_1) mod p25519 = (u - 1) mod p25519) as Hum.
  { rewrite fe_val_sub, Zminus_mod, He, fe_val_1. by rewrite (Zminus_mod u 1). }
  unfold fe25519_montx_to_edy. rewrite fe_val_mul. apply (same_point_solve u y _ _ (fe_val (fe_add e fe_1))); [done..|].
  apply fe_val_invert. rewrite Z.gcd_comm, <-Z.gcd_mod, Hup, Z.gcd_mod, Z.gcd_comm by done. apply (succ_invertible u y Hs).
Qed.

(** [xed25519::pubkey] finds the point of an X25519 key, without its sign. *)
Lemma xed25519_pubkey_point x A :
  size x = 32 → size A = 32 → coordinate A < p25519 → same_point (coordinate x) (coordinate A) → xed25519_pubkey x = clear_sign A.
Proof.
  intros Hx HA Hc Hs. unfold xed25519_pubkey. rewrite fe_tobytes_val, (montx_to_edy _ _ _ Hs) by by apply fe_val_frombytes.
  assert (String.length (clear_sign A) = 32%nat) as Hl.
  { apply (len_of _ 32). unfold clear_sign. by rewrite map_at_size. }
  rewrite Z.mod_small; [|split; [apply le_value_nonneg|exact Hc]]. rewrite <-Hl. apply le_write_value.
Qed.
End conversion.

(** ** A concrete curve

    The field is the real one.  The points are the integers modulo an odd number;
    the coordinate of a point, up to its sign, is a small number other than 1, and
    the sign bit tells which half the point is in.  X25519 keys are
    computed by the birational map. *)
Definition L_ : Z := 1009.
Definition sc (s : bytes) : Z := le_value s mod L_.
Definition of_sc (z : Z) : bytes := le_write 32 (z mod L_).
Definition pt (v : Z) : bytes :=
  let w := v mod L_ in
  if 2 * w <=? L_ then le_write 31 (w + 2) +:+ String "000" "" else le_write 31 (L_ - w + 2) +:+ String (chr 128) "".
Definition un_pt (p : bytes) : Z :=
  let w := le_value (stake 31 p) - 2 in (if negative p then L_ - w else w) mod L_.

Lemma sc_of_sc z : sc (of_sc z) = z mod L_.
Proof.
  unfold sc, of_sc. rewrite le_value_write. pose proof (Z.mod_pos_bound z L_ ltac:(done)). unfold L_ in *.
  rewrite (Z.mod_small (z mod 1009) (256 ^ Z.of_nat 32)); [|change (256 ^ Z.of_nat 32) with (2 ^ 256); lia]. by rewrite Z.mod_mod.
Qed.

Lemma pt_parts v : ∃ x c, pt v = x +:+ String c "" ∧ String.length x = 31%nat ∧
  (0 ≤ le_value x - 2 ∧ 2 * (le_value x - 2) < L_) ∧
  ((c = "000"%char ∧ v mod L_ = le_value x - 2) ∨ (c = chr 128 ∧ v mod L_ = L_ - (le_value x - 2) ∧ 0 < le_value x - 2)).
Proof.
  unfold pt. pose proof (Z.mod_pos_bound v L_ ltac:(done)) as Hb. set (w := v mod L_) in *.
  assert (∀ z, 0 ≤ z < L_ + 2 → le_value (le_write 31 z) = z) as Hle.
  { intros z Hz. rewrite le_value_write. apply Z.mod_small. unfold L_ in *. change (256 ^ Z.of_nat 31) with (2 ^ 248). lia. }
  destruct (Z.leb_spec (2 * w) L_); eexists _, _; (split; [done|]); split_and!; try apply le_write_length; rewrite Hle by (unfold L_ in *; lia).
  - unfold L_ in *. lia.
  - unfold L_ in *. lia.
  - left. split; [done|lia].
  - unfold L_ in *. lia.
  - unfold L_ in *. lia.
  - right. split; [done|]. unfold L_ in *. lia.
Qed.

Lemma map_at_end n f x c : String.length x = n → map_at n f (x +:+ String c "") = x +:+ String (f c) "".
Proof. intros <-. induction x as [|d x IH]; [done|]. cbn [map_at String.append String.length]. by rewrite IH. Qed.
Lemma byte_at_end n x c : String.length x = n → byte_at n (x +:+ String c "") = code c.
Proof. intros Hx. rewrite <-(Nat.add_0_r n), byte_at_app by done. done. Qed.

Lemma pt_negative x c : String.length x = 31%nat → (c = "000"%char ∨ c = chr 128) → negative (x +:+ String c "") = bool_decide (c = chr 128).
Proof. intros Hx Hc. unfold negative. rewrite byte_at_end by done. by destruct Hc as [->| ->]. Qed.

Lemma un_pt_pt v : un_pt (pt v) = v mod L_.
Proof.
  destruct (pt_parts v) as (x & c & -> & Hx & Hb & Hc). unfold un_pt. rewrite (stake_exact 31), pt_negative by (done || by destruct Hc as [[-> _]|[-> _]]; auto).
  destruct Hc as [[-> E]|(-> & E & H0)].
  - rewrite bool_decide_eq_false_2 by done. rewrite E. apply Z.mod_small. unfold L_ in *. lia.
  - rewrite bool_decide_eq_true_2 by done. rewrite E. apply Z.mod_small. unfold L_ in *. lia.
Qed.

Lemma pt_size v : size (pt v) = 32.
Proof. destruct (pt_parts v) as (x & c & -> & Hx & _). rewrite size_app. unfold size. rewrite Hx. done. Qed.

Lemma pt_mod v w : v mod L_ = w mod L_ → pt v = pt w.
Proof. intros E. unfold pt. by rewrite E. Qed.


Lemma opp_mod v : (- v) mod L_ = (L_ - v mod L_) mod L_.
Proof.
  rewrite <-(Z.mod_add (- v) (v / L_ + 1) L_) by done. f_equal. pose proof (Z.div_mod v L_ ltac:(done)). lia.
Qed.

Lemma un_pt_flip v : un_pt (flip_sign (pt v)) = (- v) mod L_.
Proof.
  destruct (pt_parts v) as (x & c & -> & Hx & Hb & Hc). unfold flip_sign. rewrite map_at_end by done. unfold un_pt.
  rewrite (stake_exact 31), opp_mod by done. destruct Hc as [[-> E]|(-> & E & H0)]; rewrite E.
  - change (flip_bit7 "000") with (chr 128). rewrite pt_negative by auto. by rewrite bool_decide_eq_true_2.
  - change (flip_bit7 (chr 128)) with ("000"%char). rewrite pt_negative by auto. rewrite bool_decide_eq_false_2 by done. f_equal. lia.
Qed.

(** Negation flips the sign, except for 0. *)
Lemma pt_opp v : v mod L_ ≠ 0 → pt (- v) = flip_sign (pt v).
Proof.
  intros Hv. unfold pt at 1. rewrite opp_mod. pose proof (Z.mod_pos_bound v L_ ltac:(done)) as Hb.
  rewrite (Z.mod_small (L_ - v mod L_)) by lia. unfold pt, flip_sign. set (w := v mod L_) in *.
  destruct (Z.leb_spec (2 * w) L_), (Z.leb_spec (2 * (L_ - w)) L_); try (unfold L_ in *; lia); rewrite map_at_end by apply le_write_length.
  - by replace (L_ - (L_ - w)) with w by lia.
  - done.
Qed.

Lemma pt_clear v w : v mod L_ = w mod L_ ∨ v mod L_ = (- w) mod L_ → clear_sign (pt v) = clear_sign (pt w).
Proof.
  intros [E|E]; [by rewrite (pt_mod v w)|]. rewrite (pt_mod v (- w)) by done.
  destruct (decide (w mod L_ = 0)) as [E0|Hne].
  { f_equal. apply pt_mod. rewrite opp_mod, E0. done. }
  rewrite pt_opp by done. rewrite !clear_sign_flip, flip_flip.
  destruct (pt_parts w) as (x & c & -> & Hx & _ & Hc). unfold flip_sign. rewrite map_at_end by done.
  destruct Hc as [[-> _]|[-> _]].
  - change (flip_bit7 "000") with (chr 128). rewrite !pt_negative by auto. rewrite bool_decide_eq_true_2, bool_decide_eq_false_2 by done. done.
  - change (flip_bit7 (chr 128)) with ("000"%char). rewrite !pt_negative by auto.
    rewrite bool_decide_eq_false_2, bool_decide_eq_true_2 by done. done.
Qed.

Lemma un_pt_clear v : un_pt (clear_sign (pt v)) = v mod L_ ∨ un_pt (clear_sign (pt v)) = (- v) mod L_.
Proof. rewrite clear_sign_flip. destruct (negative (pt v)); [right; apply un_pt_flip|left; apply un_pt_pt]. Qed.

#[local] Instance toy_core : Ed25519Core := {|
  scalar_reduce h := of_sc (le_value h);
  scalar_mul s t := of_sc (sc s * sc t);
  scalar_add s t := of_sc (sc s + sc t);
  scalar_negate s := of_sc (- sc s);
  scalarmult_noclamp s p := if (sc s * un_pt p) mod L_ =? 0 then None else Some (pt (sc s * un_pt p));
  base_noclamp s := pt (sc s);
  base_clamp s := pt (sc s);
  sha512 m := generichash 64 "sha" m;
|}.
#[local] Instance toy_fe : Fe25519 := {|
  fe25519 := Z; fe_1 := 1;
  fe_sub a b := (a - b) mod p25519; fe_add a b := (a + b) mod p25519; fe_mul a b := (a * b) mod p25519;
  fe_invert a := Z.invmod a p25519;
  fe_frombytes s := le_value (clear_sign s); fe_tobytes a := le_write 32 (a mod p25519);
|}.
#[local] Instance toy_fe_laws : Fe25519Laws.
Proof.
  refine {| fe_val := λ a : @fe25519 toy_fe, a |}; intros; cbn [fe_1 fe_sub fe_add fe_mul fe_invert fe_frombytes fe_tobytes toy_fe];
    [done|by rewrite Z.mod_mod..| |done|done].
  by apply Z.invmod_coprime.
Defined.

(** The X25519 key of a point *)
Definition to_x (pk : bytes) : bytes :=
  let y := coordinate pk in le_write 32 (((1 + y) * Z.invmod (1 - y) p25519) mod p25519).
Definition toy_scalar (sk : bytes) : bytes := generichash 32 "sk" (stake 32 sk).
#[local] Instance toy_x25519 : X25519 := {|
  scalarmult_curve25519 a B := Some (to_x (pt (sc a * un_pt (xed25519_pubkey B))));
  x25519_public a := to_x (pt (sc a));
  sk_to_curve25519 := toy_scalar;
  pk_to_curve25519 pk := if size pk =? 32 then Some (to_x pk) else None;
|}.

Lemma to_x_size pk : size (to_x pk) = 32.
Proof. unfold size, to_x. by rewrite le_write_length. Qed.

Lemma pt_coordinate v : 2 ≤ coordinate (pt v) < 2 + L_.
Proof.
  unfold coordinate. rewrite clear_sign_flip. destruct (pt_parts v) as (x & c & -> & Hx & Hb & Hc).
  assert (∀ d, le_value (x +:+ String d "") = le_value x + 256 ^ 31 * code d) as Hle.
  { intros d. rewrite le_value_app. unfold size. rewrite Hx. cbn [le_value]. lia. }
  destruct Hc as [[-> _]|[-> _]]; rewrite pt_negative by auto.
  - rewrite bool_decide_eq_false_2, Hle by done. change (code "000") with 0. unfold L_ in *. lia.
  - rewrite bool_decide_eq_true_2 by done. unfold flip_sign. rewrite map_at_end, Hle by done. change (code (flip_bit7 (chr 128))) with 0. unfold L_ in *. lia.
Qed.

Lemma to_x_same v : same_point (coordinate (to_x (pt v))) (coordinate (pt v)).
Proof.
  pose proof (pt_coordinate v) as Hy. unfold to_x. set (y := coordinate (pt v)) in *. cbv zeta.
  set (u := ((1 + y) * Z.invmod (1 - y) p25519) mod p25519). pose proof (Z.mod_pos_bound ((1 + y) * Z.invmod (1 - y) p25519) p25519 ltac:(done)) as Hu. fold u in Hu.
  assert (le_value (le_write 32 u) = u) as Hle.
  { rewrite le_value_write. apply Z.mod_small. unfold p25519 in Hu. change (256 ^ Z.of_nat 32) with (2 ^ 256). lia. }
  unfold coordinate. rewrite clear_canonical by (by rewrite Hle). rewrite Hle. unfold same_point, u.
  rewrite Z.mul_mod_idemp_l, <-Z.mul_assoc, <-Z.mul_mod_idemp_r, Z.invmod_coprime, Z.mul_1_r by (done || (apply small_coprime; unfold L_ in *; lia)). done.
Qed.

Lemma xed_to_x v : xed25519_pubkey (to_x (pt v)) = clear_sign (pt v).
Proof.
  apply xed25519_pubkey_point; [apply to_x_size|apply pt_size| |apply to_x_same].
  pose proof (pt_coordinate v). unfold L_, p25519 in *. lia.
Qed.

Lemma to_x_clear v w : v mod L_ = w mod L_ ∨ v mod L_ = (- w) mod L_ → to_x (pt v) = to_x (pt w).
Proof. intros E. unfold to_x, coordinate. by rewrite (pt_clear v w). Qed.

#[local] Instance toy_keypair : SeedKeypair := λ seed, let pk := pt (sc (toy_scalar seed)) in (pk, seed +:+ pk).
Definition toy_hram (R A msg : bytes) : bytes := scalar_reduce (sha512 (R +:+ A +:+ msg)).
#[local] Instance toy_ed25519 : Ed25519 := {|
  sk_to_pk sk := sdrop 32 sk;
  sign_detached sk msg :=
    let a := toy_scalar sk in
    let r := generichash 32 "r" (a +:+ msg) in
    Some (pt (sc r) +:+ scalar_add (scalar_mul (toy_hram (pt (sc r)) (pt (sc a)) msg) a) r);
  verify_detached pk msg sig :=
    sc (sdrop 32 sig) =? (un_pt (stake 32 sig) + sc (toy_hram (stake 32 sig) pk msg) * un_pt pk) mod L_;
|}.

Lemma toy_verifies a r msg :
  verify_detached (pt (sc a)) msg (pt (sc r) +:+ scalar_add (scalar_mul (toy_hram (pt (sc r)) (pt (sc a)) msg) a) r) = true.
Proof.
  cbn [verify_detached toy_ed25519]. pose proof (len_of _ _ (pt_size (sc r))) as Hl.
  rewrite (stake_exact 32), (sdrop_exact 32) by done. cbn [scalar_add scalar_mul toy_core]. apply Z.eqb_eq.
  rewrite !sc_of_sc, !un_pt_pt. unfold sc at 3 6. rewrite !Z.mod_mod by done.
  rewrite Z.add_mod_idemp_l by done. f_equal. rewrite Z.add_comm. unfold sc. by rewrite Z.mod_mod.
Qed.

#[local] Instance toy_x25519_laws : X25519Laws.
Proof.
  split.
  - intros a b. cbn [scalarmult_curve25519 x25519_public toy_x25519]. f_equal. apply to_x_clear. rewrite !xed_to_x.
    assert (∀ x y, (sc x * un_pt (clear_sign (pt (sc y)))) mod L_ = (sc x * sc y) mod L_ ∨
                   (sc x * un_pt (clear_sign (pt (sc y)))) mod L_ = (- (sc x * sc y)) mod L_) as Hp.
    { intros x y. destruct (un_pt_clear (sc y)) as [-> | ->]; [left|right]; rewrite Z.mul_mod_idemp_r by done; [done|f_equal; lia]. }
    pose proof (Hp a b) as Hab. pose proof (Hp b a) as Hba. rewrite (Z.mul_comm (sc b) (sc a)) in Hba.
    rewrite (opp_mod (sc b * un_pt _)).
    destruct Hba as [-> | ->]; rewrite <-opp_mod.
    + exact Hab.
    + rewrite Z.opp_involutive. destruct Hab; auto.
  - intros a. apply to_x_size.
  - intros sk. by apply generichash_size.
  - intros pk x. cbn [pk_to_curve25519 toy_x25519]. destruct (Z.eqb_spec (size pk) 32); [|done]. intros [= <-]. apply to_x_size.
Qed.


#[local] Instance toy_keypair_form : SeedKeypairLaws.
Proof. intros seed. split; [apply pt_size|done]. Qed.

Lemma toy_scalar_sk seed : size seed = 32 → toy_scalar (seed_keypair seed).2 = toy_scalar seed.
Proof.
  intros Hs. unfold toy_scalar, seed_keypair, toy_keypair. cbn [snd]. apply len_of in Hs.
  rewrite (stake_exact 32), stake_all by (rewrite Hs; done). done.
Qed.

#[local] Instance toy_keypair_laws : KeypairLaws.
Proof.
  split; intros seed.
  - intros Hs. cbn [sk_to_pk toy_ed25519]. apply len_of in Hs. by apply (sdrop_exact 32).
  - intros msg Hs. eexists. split; [reflexivity|]. rewrite (toy_scalar_sk seed Hs). split.
    + rewrite size_app, pt_size. cbn [scalar_add toy_core]. unfold of_sc, size. by rewrite le_write_length.
    + apply toy_verifies.
  - intros Hs. cbn [pk_to_curve25519 x25519_public sk_to_curve25519 toy_x25519]. rewrite (toy_scalar_sk seed Hs).
    unfold seed_keypair, toy_keypair. cbn [fst]. by rewrite pt_size.
Qed.

#[local] Instance toy_curve_laws : CurveLaws.
Proof.
  assert (∀ s, sc s mod L_ = sc s) as Hsc by (intros s; unfold sc; by rewrite Z.mod_mod).
  split.
  - intros s t. cbn [scalar_mul toy_core]. by rewrite Z.mul_comm.
  - intros s t u. cbn [scalar_mul toy_core]. unfold of_sc. rewrite !sc_of_sc || idtac.
    fold (of_sc (sc t * sc u)) (of_sc (sc s * sc t)). rewrite !sc_of_sc, Z.mul_mod_idemp_r, Z.mul_mod_idemp_l by done. f_equal. f_equal. lia.
  - intros s t. cbn [scalar_mul scalar_negate toy_core]. unfold of_sc at 1 3. rewrite !sc_of_sc, Z.mul_mod_idemp_r, Z.mul_mod_idemp_l by done.
    f_equal. f_equal. lia.
  - intros s. cbn [scalar_reduce toy_core]. unfold of_sc, size. by rewrite le_write_length.
  - intros s. apply pt_size.
  - intros s t s' t' E. cbn [scalarmult_noclamp base_noclamp scalar_mul toy_core] in *. apply (f_equal sc) in E. rewrite !sc_of_sc in E.
    rewrite !un_pt_pt, !Hsc, E. by rewrite (pt_mod _ _ E).
  - intros s t p. cbn [scalarmult_noclamp base_noclamp scalar_mul toy_core]. rewrite un_pt_pt, Hsc. destruct (_ =? 0); [done|]. intros [= <-].
    apply pt_mod. by rewrite sc_of_sc, Z.mod_mod.
  - intros s t. cbn [scalarmult_noclamp base_noclamp scalar_negate toy_core]. rewrite un_pt_flip, un_pt_pt, sc_of_sc.
    assert ((sc s * ((- sc t) mod L_)) mod L_ = ((- sc s) mod L_ * (sc t mod L_)) mod L_) as E.
    { rewrite Z.mul_mod_idemp_r, <-Z.mul_mod by done. f_equal. lia. }
    rewrite E. by rewrite (pt_mod _ _ E).
  - intros s t. cbn [scalarmult_noclamp base_noclamp scalar_negate toy_core]. rewrite un_pt_pt, sc_of_sc, Hsc.
    assert (((- sc s) mod L_ * sc t) mod L_ = (- (sc s * sc t)) mod L_) as E by (rewrite Z.mul_mod_idemp_l by done; f_equal; lia).
    rewrite E, (pt_mod _ _ E). pose proof (Z.mod_pos_bound (sc s * sc t) L_ ltac:(done)).
    destruct (Z.eqb_spec ((sc s * sc t) mod L_) 0) as [E0|Hne].
    + rewrite opp_mod, E0. done.
    + rewrite pt_opp by done. destruct (Z.eqb_spec ((- (sc s * sc t)) mod L_) 0) as [E0|_]; [|done].
      rewrite opp_mod, Z.mod_small in E0 by lia. lia.
  - intros s Hn. cbn [base_noclamp scalar_negate toy_core]. rewrite (pt_mod (sc (of_sc (- sc s))) (- sc s)) by (rewrite sc_of_sc; by rewrite Z.mod_mod).
    apply pt_opp. intros E0. cbn [base_noclamp toy_core] in Hn. rewrite (pt_mod _ 0) in Hn by done. vm_compute in Hn. done.
  - intros seed Hs. cbn [base_noclamp sk_to_curve25519 toy_core toy_x25519]. by rewrite (toy_scalar_sk seed Hs).
  - intros sk. cbn [sk_to_curve25519 toy_x25519]. unfold toy_scalar. f_equal. apply stake_all. rewrite length_stake. lia.
  - done.
  - intros s. cbn [base_noclamp toy_core]. pose proof (pt_coordinate (sc s)). unfold L_, p25519 in *. lia.
  - intros s x. cbn [pk_to_curve25519 base_noclamp toy_x25519 toy_core]. rewrite pt_size. intros [= <-]. apply to_x_same.
  - intros a r msg. apply toy_verifies.
Qed.

