(* ===== verification/BlindedDelivery.v ===== *)
(** * Correctness of blinding

    The ids of [src/blinding.cpp] computed from a user's secret key, public
    key or BChat id are the same, signatures with blinded keys verify, and
    messages between blinded ids ([src/bchat_encrypt.cpp]) are delivered. *)

From Stdlib Require Import ZArith String Ascii Lia.
From stdpp Require Import base option list strings numbers.
From S2P Require Import Prelude OrderedMap Bt Bencode Crypto Encrypt State Util ConfigMessage ConfigBase Text Ids MultiEncrypt Wire GroupKeyDelivery HopEncryption MessageEncrypt MessageDelivery Blinding Curve25519.

Section blinded.
Context `{BtLaws, HashLaws, AeadLaws, X25519Laws, Ed25519, SeedKeypair, !SeedKeypairLaws, !KeypairLaws, OxencLaws}.
Context `{Ed25519Core, Fe25519, !Fe25519Laws, !CurveLaws}.

(** The conversions of a public key: [xed25519::pubkey] of the X25519 key of a
    point is the point, without its sign. *)
Lemma xed_pubkey_abs s x : pk_to_curve25519 (base_noclamp s) = Some x → xed25519_pubkey x = clear_sign (base_noclamp s).
Proof.
  intros Hx. apply xed25519_pubkey_point; [by apply (pk_to_curve25519_size _ _ Hx)|apply base_size|apply base_canonical|by apply pk_to_curve25519_map].
Qed.

Definition public_of (seed : bytes) : bytes := (seed_keypair seed).1.
Definition id_of_user (seed : bytes) : bytes := "05" +:+ to_hex (x_public seed).

(** The factor of a user at a server: for ids of both kinds, the kind given by
    the first byte *)
Definition factor (kind : bool) (seed server : bytes) : bytes :=
  if kind then
    let k := blind25_factor (x_public seed) server in
    if negative (public_of seed) then scalar_negate k else k
  else blind15_factor server.
Definition blinded_secret (kind : bool) (seed server : bytes) : bytes := scalar_mul (factor kind seed server) (x_secret seed).
Definition blinded_public (kind : bool) (seed server : bytes) : bytes := base_noclamp (blinded_secret kind seed server).
Definition first_byte (kind : bool) : ascii := if kind then "037" else "021".
Definition blinded_id (kind : bool) (seed server : bytes) : bytes := String (first_byte kind) (blinded_public kind seed server).

(** libsodium does not refuse to multiply the user's key with the factor. *)
Definition blindable (kind : bool) (seed server : bytes) : Prop :=
  is_Some (scalarmult_noclamp (factor kind seed server) (public_of seed)).

Lemma public_scalar seed : size seed = 32 → public_of seed = base_noclamp (x_secret seed).
Proof. apply seed_scalar. Qed.

Lemma sign_of_sk seed : size seed = 32 → negb (Z.land (byte_at 63 (seed_keypair seed).2) 0x80 =? 0) = negative (public_of seed).
Proof.
  intros Hs. destruct (seed_keypair_form seed) as [_ ->]. unfold negative, public_of.
  change 63%nat with (32 + 31)%nat. by rewrite byte_at_app by by apply len_of in Hs.
Qed.

Lemma blind15_pair seed key server :
  size seed = 32 → privkey_of seed key → size server = 32 →
  blind15_key_pair key server = Ok (blinded_public false seed server, blinded_secret false seed server, factor false seed server).
Proof.
  intros Hs Hk Hv. unfold blind15_key_pair. rewrite (full_privkey_run seed), bind_ret, bind_req by (done || by apply Z.eqb_eq).
  done.
Qed.

Lemma blind25_factor_prefixed x server : size x = 32 → blind25_factor (String "005" x) server = blind25_factor x server.
Proof.
  intros Hx. unfold blind25_factor. rewrite Hx.
  assert (size (String "005" x) =? 32 = false) as -> by (apply Z.eqb_neq; unfold size in *; cbn [String.length]; lia). done.
Qed.

Lemma blind25_pair seed key server :
  size seed = 32 → privkey_of seed key → size server = 32 →
  blind25_key_pair key server = Ok (blinded_public true seed server, blinded_secret true seed server, factor true seed server).
Proof.
  intros Hs Hk Hv. unfold blind25_key_pair. rewrite (full_privkey_run seed), bind_ret, bind_req by (done || by apply Z.eqb_eq).
  rewrite pk_of_sk, keypair_x by done. cbn [from_option_or]. by rewrite bind_ret, sign_of_sk.
Qed.

Lemma blindable_point kind seed server :
  size seed = 32 → blindable kind seed server →
  scalarmult_noclamp (factor kind seed server) (public_of seed) = Some (blinded_public kind seed server).
Proof.
  intros Hs [p Hp]. rewrite Hp. f_equal. rewrite public_scalar in Hp by done. by apply noclamp_base in Hp.
Qed.

Lemma noclamp_abs k seed :
  size seed = 32 →
  scalarmult_noclamp k (clear_sign (public_of seed)) =
    scalarmult_noclamp (if negative (public_of seed) then scalar_negate k else k) (public_of seed).
Proof.
  intros Hs. rewrite clear_sign_flip. destruct (negative (public_of seed)); [|done].
  rewrite (public_scalar seed Hs). apply noclamp_flip.
Qed.

Lemma bchat_id_of_user seed : size seed = 32 → bchat_id_of (public_of seed) = Ok (String "005" (x_public seed)).
Proof. intros Hs. unfold bchat_id_of, public_of. by rewrite keypair_x. Qed.

Lemma from_ed kind like seed server out :
  size seed = 32 → size server = 32 → blindable kind seed server → leads "037" like = kind → (out = None ∨ out = Some "") →
  ∃ out', blinded_like like (public_of seed) server out = Ok (blinded_id kind seed server, out') ∧ (out = None → out' = None).
Proof.
  intros Hs Hv Hb Hl Hout. unfold blinded_like. rewrite Hl. destruct (seed_keypair_form seed) as [Hp _].
  pose proof (blindable_point kind seed server Hs Hb) as Hpt. destruct kind.
  - unfold blinded25_id_from_ed. do 3 (rewrite bind_req; [|first [by apply Z.eqb_eq | by destruct Hout as [-> | ->]]]).
    rewrite bchat_id_of_user by done.
    replace (match out with Some s => if size s =? 0 then Ok (String "005" (x_public seed)) else Ok s
                          | None => Ok (String "005" (x_public seed)) end)
      with (Ok (String "005" (x_public seed))) by (by destruct Hout as [-> | ->]).
    rewrite bind_ret, blind25_factor_prefixed, noclamp_abs by (done || apply x_public_size).
    cbn [factor] in Hpt. rewrite Hpt. cbn [from_option_or]. rewrite bind_ret. eexists. split; [done|]. by intros ->.
  - unfold blinded15_id_from_ed. do 3 (rewrite bind_req; [|first [by apply Z.eqb_eq | by destruct Hout as [-> | ->]]]).
    rewrite bchat_id_of_user by done. cbn [factor] in Hpt.
    destruct Hout as [-> | ->]; rewrite !bind_ret, Hpt; cbn [from_option_or]; rewrite bind_ret; by eexists.
Qed.

(** The same id from the BChat id; for ids starting with 15 up to the sign *)
Lemma blind25_from_id seed server id :
  size seed = 32 → blindable true seed server → id = x_public seed ∨ id = String "005" (x_public seed) →
  blind25_id_impl id server = Ok (blinded_id true seed server).
Proof.
  intros Hs Hb Hid. unfold blind25_id_impl. pose proof (x_public_size seed) as Hx.
  assert (unprefixed id = x_public seed ∧ blind25_factor id server = blind25_factor (x_public seed) server) as [-> ->].
  { destruct Hid as [->| ->]; unfold unprefixed; [by rewrite Hx|]. split; [|by apply blind25_factor_prefixed].
    assert (size (String "005" (x_public seed)) =? 33 = true) as -> by (apply Z.eqb_eq; unfold size in *; cbn [String.length]; lia). done. }
  pose proof (keypair_x seed Hs) as Hk. fold (public_of seed) in Hk. rewrite public_scalar in Hk by done.
  rewrite (xed_pubkey_abs _ (x_public seed) Hk), <-public_scalar, noclamp_abs by done.
  pose proof (blindable_point true seed server Hs Hb) as Hpt. cbn [factor] in Hpt. by rewrite Hpt.
Qed.

Definition unsigned_public (seed server : bytes) : bytes :=
  let A := blinded_public false seed server in if negative (public_of seed) then flip_sign A else A.
Lemma blind15_from_id seed server :
  size seed = 32 → blindable false seed server →
  blind15_id_impl (x_public seed) server = Ok (String "021" (unsigned_public seed server)) ∧
  blind15_id_impl (String "005" (x_public seed)) server = Ok (String "021" (unsigned_public seed server)).
Proof.
  intros Hs Hb. unfold blind15_id_impl. pose proof (x_public_size seed) as Hx.
  assert (unprefixed (x_public seed) = x_public seed ∧ unprefixed (String "005" (x_public seed)) = x_public seed) as [-> ->].
  { unfold unprefixed. rewrite Hx.
    assert (size (String "005" (x_public seed)) =? 33 = true) as -> by (apply Z.eqb_eq; unfold size in *; cbn [String.length]; lia). done. }
  pose proof (keypair_x seed Hs) as Hk. fold (public_of seed) in Hk. rewrite public_scalar in Hk by done.
  rewrite (xed_pubkey_abs _ (x_public seed) Hk), <-public_scalar, noclamp_abs by done.
  pose proof (blindable_point false seed server Hs Hb) as Hpt. cbn [factor] in Hpt. unfold unsigned_public.
  destruct (negative (public_of seed)); [|by rewrite Hpt].
  rewrite (public_scalar seed Hs) in *. by rewrite noclamp_negate, Hpt.
Qed.

(** Hex forms *)
Lemma id_hex seed : id_of_user seed = hex_digits (String "005" (x_public seed)).
Proof. unfold id_of_user. by rewrite to_hex_digits. Qed.

Lemma hex_id_run seed : hex_id (id_of_user seed) = Ok tt.
Proof.
  unfold hex_id. rewrite id_hex, is_hex_digits, hex_digits_size. pose proof (x_public_size seed) as Hx.
  assert (size (String "005" (x_public seed)) = 33) as -> by (unfold size in *; cbn [String.length]; lia). done.
Qed.

Lemma hex_server_run server : size server = 32 → hex_server_pk (to_hex server) = Ok tt ∧ from_hex (to_hex server) = server.
Proof. intros Hv. unfold hex_server_pk. by rewrite to_hex_digits, is_hex_digits, from_hex_digits, hex_digits_size, Hv. Qed.

Lemma id_from_bchat_id kind seed server id :
  size seed = 32 → size server = 32 → blindable kind seed server → id = x_public seed ∨ id = String "005" (x_public seed) →
  (if kind then blind25_id id server else blind15_id id server) =
    Ok (String (first_byte kind) (if negb kind && negative (public_of seed) then flip_sign (blinded_public kind seed server)
                                  else blinded_public kind seed server)).
Proof.
  intros Hs Hv Hb Hid. pose proof (x_public_size seed) as Hx.
  assert (size (String "005" (x_public seed)) = 33) as Hx' by (unfold size in *; cbn [String.length]; lia).
  destruct kind.
  - unfold blind25_id. destruct Hid as [-> | ->]; [rewrite Hx|rewrite Hx']; cbn [Z.eqb Pos.eqb leads]; rewrite !bind_req by (done || by apply Z.eqb_eq);
      apply blind25_from_id; auto.
  - destruct (blind15_from_id seed server Hs Hb) as [E _]. unfold blind15_id.
    destruct Hid as [-> | ->]; [rewrite Hx|rewrite Hx']; cbn [Z.eqb Pos.eqb leads]; rewrite !bind_req by (done || by apply Z.eqb_eq); rewrite !bind_ret;
      rewrite bind_req by (by apply Z.eqb_eq); exact E.
Qed.

(** C26 (blinded ids).  The id of a user at a server is the same computed from the
    secret key, from the Ed25519 public key and from the BChat id with or without its
    prefix; an id starting with 15 computed from the BChat id, where the sign of the
    user's key is lost, has the other sign if that key is negative.  Its key
    pair is a key pair, and the BChat id is always recognised as matching it. *)
Theorem blinded_ids_agree kind seed key server :
  size seed = 32 → privkey_of seed key → size server = 32 → blindable kind seed server →
  ∃ A a k, (if kind then blind25_key_pair key server else blind15_key_pair key server) = Ok (A, a, k) ∧ A = base_noclamp a ∧
    (if kind then blinded25_id_from_ed (public_of seed) server None else blinded15_id_from_ed (public_of seed) server None) =
      Ok (String (first_byte kind) A, None) ∧
    (∀ id, id = x_public seed ∨ id = String "005" (x_public seed) →
      (if kind then blind25_id id server else blind15_id id server) =
        Ok (String (first_byte kind) (if negb kind && negative (public_of seed) then flip_sign A else A))) ∧
    bchat_id_matches_blinded_id (id_of_user seed) (to_hex (String (first_byte kind) A)) (to_hex server) = Ok true.
Proof.
  intros Hs Hk Hv Hb. exists (blinded_public kind seed server), (blinded_secret kind seed server), (factor kind seed server).
  destruct (hex_server_run server Hv) as [Hsv Hfs]. split_and!; [| done | | |].
  - destruct kind; [by apply blind25_pair|by apply blind15_pair].
  - destruct (from_ed kind (String (first_byte kind) "") seed server None) as (out' & E & Hout); [done..|by destruct kind|by left|].
    rewrite (Hout eq_refl) in E. unfold blinded_like in E. by destruct kind.
  - intros id Hid. by apply id_from_bchat_id.
  - unfold bchat_id_matches_blinded_id. rewrite hex_id_run, bind_ret, to_hex_digits.
    destruct kind; [set (p := blinded_public true seed server)|set (p := blinded_public false seed server)].
    + change (hex_digits (String (first_byte true) p)) with (String "2" (String "5" (hex_digits p))).
      cbv iota. rewrite bind_req by done. rewrite Hsv, bind_ret. change (Ascii.eqb "2" "1") with false. change (Ascii.eqb "2" "2") with true. cbv iota.
      unfold blind25_id_hex. rewrite hex_id_run, Hsv, !bind_ret, Hfs, id_hex, from_hex_digits.
      rewrite (blind25_from_id seed) by (done || by right). rewrite !bind_ret, to_hex_digits. by rewrite String.eqb_refl.
    + change (hex_digits (String (first_byte false) p)) with (String "1" (String "5" (hex_digits p))).
      cbv iota. rewrite bind_req by done. rewrite Hsv, bind_ret. change (Ascii.eqb "1" "1") with true. cbv iota.
      unfold blind15_id_hex. rewrite hex_id_run, Hsv, !bind_ret, Hfs, id_hex, from_hex_digits.
      destruct (blind15_from_id seed server Hs Hb) as [_ ->]. unfold unsigned_public. cbv zeta. fold p. rewrite !bind_ret, !to_hex_digits.
      change (String "1" (String "5" (hex_digits p))) with (hex_digits (String "021" p)). destruct (negative (public_of seed)).
      * change (map_at 32 flip_bit7 (String "021" (flip_sign p))) with (String "021" (flip_sign (flip_sign p))). rewrite flip_flip.
        by rewrite String.eqb_refl, orb_true_r.
      * by rewrite String.eqb_refl.
Qed.

(** ** Signatures *)
Definition server_given (server given : bytes) : Prop := given = server ∨ given = to_hex server.

Lemma server_key_run server given : size server = 32 → server_given server given → server_key given = Ok server.
Proof.
  intros Hv [->| ->]; unfold server_key; [by rewrite Hv|].
  by rewrite to_hex_digits, hex_digits_size, Hv, is_hex_digits, from_hex_digits.
Qed.

Lemma full_privkey_full seed : size seed = 32 → full_privkey (seed_keypair seed).2 = Ok (seed_keypair seed).2.
Proof. intros Hs. apply full_privkey_run; [done|by right]. Qed.

(** C27 (blinded signatures).  What a user signs with the blinded key of either
    kind verifies with the blinded public key, and what is signed with an
    X25519 key verifies with its public key. *)
Theorem blinded_signatures_verify (kind : bool) seed key server given personal random msg :
  size seed = 32 → privkey_of seed key → size server = 32 → server_given server given →
  (∃ sig, (if kind then blind25_sign key given msg else blind15_sign key given msg) = Ok sig ∧
     verify_detached (blinded_public kind seed server) msg sig = true) ∧
  xed25519_verify (xed25519_sign personal random (x_secret seed) msg) (x_public seed) msg = true.
Proof.
  intros Hs Hk Hv Hg. split.
  - destruct kind; [unfold blind25_sign|unfold blind15_sign]; rewrite (full_privkey_run seed), bind_ret by done;
      rewrite (server_key_run server), bind_ret by done.
    + rewrite (blind25_pair seed) by (done || by right). rewrite bind_ret. eexists. split; [done|]. apply schnorr_verifies.
    + rewrite (blind15_pair seed) by (done || by right). rewrite bind_ret. eexists. split; [done|]. apply schnorr_verifies.
  - unfold xed25519_verify, xed25519_sign, ed25519_hram. cbv zeta.
    rewrite !(base_clamped _ : base_clamp (x_secret seed) = base_noclamp (x_secret seed)).
    pose proof (keypair_x seed Hs) as Hx. fold (public_of seed) in Hx. rewrite public_scalar in Hx by done.
    rewrite (xed_pubkey_abs _ _ Hx : xed25519_pubkey (x_public seed) = clear_sign (base_noclamp (x_secret seed))).
    set (a := if negative (base_noclamp (x_secret seed)) then scalar_negate (x_secret seed) else x_secret seed).
    assert (clear_sign (base_noclamp (x_secret seed)) = base_noclamp a) as ->; [|apply schnorr_verifies].
    rewrite clear_sign_flip. unfold a. destruct (negative (base_noclamp (x_secret seed))) eqn:En; [|done]. by rewrite base_negate.
Qed.

(** ** Messages *)
Lemma blinded_public_size kind seed server : size (blinded_public kind seed server) = 32.
Proof. apply base_size. Qed.
Lemma blinded_id_size kind seed server : size (blinded_id kind seed server) = 33.
Proof. pose proof (blinded_public_size kind seed server). unfold blinded_id, size in *. cbn [String.length]. lia. Qed.

(** The secret both sides of a conversation compute *)
Definition own_scalar (kind : bool) (seed server : bytes) : bytes :=
  if kind then scalar_mul (x_secret seed) (factor kind seed server) else x_secret seed.
Definition conversation (kind : bool) (sender receiver server : bytes) : option bytes :=
  scalarmult_noclamp (own_scalar kind sender server) (blinded_public kind receiver server).

Lemma conversation_sym kind s r server : conversation kind s r server = conversation kind r s server.
Proof.
  unfold conversation, own_scalar, blinded_public, blinded_secret. apply noclamp_product. destruct kind; cbn [factor].
  - generalize (if negative (public_of s) then scalar_negate (blind25_factor (x_public s) server) else blind25_factor (x_public s) server) as ks.
    generalize (if negative (public_of r) then scalar_negate (blind25_factor (x_public r) server) else blind25_factor (x_public r) server) as kr.
    intros kr ks. rewrite (scalar_mul_comm kr), (scalar_mul_comm ks). apply scalar_mul_comm.
  - rewrite !scalar_mul_assoc, (scalar_mul_comm (x_secret s)), (scalar_mul_comm (x_secret r)).
    rewrite <-!scalar_mul_assoc. f_equal. apply scalar_mul_comm.
Qed.

Lemma own_x_any seed key : size seed = 32 → privkey_of seed key → sk_to_curve25519 key = x_secret seed.
Proof.
  intros Hs [->| ->]; [|done]. unfold x_secret. rewrite <-(sk_to_curve25519_seed (seed_keypair seed).2). f_equal.
  destruct (seed_keypair_form seed) as [_ ->]. symmetry. apply stake_exact. by apply len_of in Hs.
Qed.

Lemma privkey_size seed key : size seed = 32 → privkey_of seed key → (size key =? 64) || (size key =? 32) = true.
Proof.
  intros Hs [->| ->]; [by rewrite Hs|]. destruct (seed_keypair_form seed) as [Hp ->]. by rewrite size_app, Hs, Hp.
Qed.

Lemma shared_secret_run kind seed key server other sending z :
  size seed = 32 → privkey_of seed key → size server = 32 → size other = 32 →
  scalarmult_noclamp (own_scalar kind seed server) other = Some z →
  blinded_shared_secret key (blinded_id kind seed server) (String (first_byte kind) other) server sending =
    Ok (generichash 32 "" (z +:+ (if sending then blinded_public kind seed server else other) +:+
                             (if sending then other else blinded_public kind seed server))).
Proof.
  intros Hs Hk Hv Ho Hz. unfold blinded_shared_secret.
  rewrite bind_req by by apply (privkey_size seed). rewrite bind_req by by apply Z.eqb_eq.
  rewrite bind_req by (rewrite blinded_id_size; done).
  rewrite bind_req by (apply Z.eqb_eq; unfold size in *; cbn [String.length]; lia).
  rewrite (own_x_any seed) by done. unfold own_scalar in Hz.
  destruct kind; cbn [leads blinded_id first_byte]; cbn [Ascii.eqb Bool.eqb andb].
  - rewrite (blind25_pair seed), bind_ret by done. cbn [sdrop]. rewrite Hz. cbn [from_option_or]. rewrite bind_ret. by destruct sending.
  - rewrite (blind15_pair seed), bind_ret by done. cbn [sdrop]. rewrite Hz. cbn [from_option_or]. rewrite bind_ret. by destruct sending.
Qed.

Definition conversation_key (kind : bool) (s r server z : bytes) : bytes :=
  generichash 32 "" (z +:+ blinded_public kind s server +:+ blinded_public kind r server).
Definition sealed_message (key nonce msg pk : bytes) : bytes :=
  String BLINDED_ENCRYPT_VERSION (aead_encrypt key nonce (msg +:+ pk) +:+ nonce).

Lemma leads_kind kind p : leads "037" (String (first_byte kind) p) = kind.
Proof. by destruct kind. Qed.

(** Anyone who computes the key of the conversation reads the message. *)
Lemma blinded_read kind s r u ukey server z nonce msg :
  size s = 32 → size r = 32 → size u = 32 → privkey_of u ukey → size server = 32 → size nonce = 24 →
  blindable kind s server → blindable kind u server →
  (if String.eqb (blinded_id kind s server) (blinded_id kind u server)
   then blinded_shared_secret (seed_keypair u).2 (blinded_id kind s server) (blinded_id kind r server) server true
   else blinded_shared_secret (seed_keypair u).2 (blinded_id kind r server) (blinded_id kind s server) server false) =
    Ok (conversation_key kind s r server z) →
  decrypt_from_blinded_recipient ukey server (blinded_id kind s server) (blinded_id kind r server)
    (sealed_message (conversation_key kind s r server z) nonce msg (public_of s)) = Ok (msg, id_of_user s).
Proof.
  intros Hs Hr Hu Huk Hv Hn Hbs Hbu Hkey. unfold decrypt_from_blinded_recipient.
  rewrite (full_privkey_run u), bind_ret by done. rewrite pk_of_sk by done. fold (public_of u).
  set (K := conversation_key kind s r server z) in *. destruct (seed_keypair_form s) as [Hp _]. fold (public_of s) in Hp.
  assert (size (sealed_message K nonce msg (public_of s)) = 1 + (size msg + 32 + 16) + 24) as Hsz.
  { unfold sealed_message. change (String BLINDED_ENCRYPT_VERSION ?x) with (String BLINDED_ENCRYPT_VERSION "" +:+ x).
    rewrite !size_app, aead_size, size_app, Hp, Hn. unfold ABYTES. change (size (String BLINDED_ENCRYPT_VERSION "")) with 1. lia. }
  rewrite Hsz. pose proof (size_nonneg msg). unfold NPUBBYTES, ABYTES.
  rewrite bind_req by (apply negb_true_iff, Z.ltb_ge; lia). rewrite bind_req by (rewrite blinded_id_size; done).
  destruct (from_ed kind (blinded_id kind r server) u server None) as (o1 & -> & _); [done..|apply leads_kind|by left|]. rewrite bind_ret, Hkey, bind_ret.
  rewrite bind_req by done. rewrite bind_req by (apply negb_true_iff, Z.ltb_ge; lia).
  replace (1 + (size msg + 32 + 16) + 24 - 16 - 1 - 24 + 16) with (size msg + 48) by lia.
  assert (String.length (aead_encrypt K nonce (msg +:+ public_of s)) = Z.to_nat (size msg + 48)) as Hc.
  { pose proof (aead_size K nonce (msg +:+ public_of s)) as Ha. rewrite size_app, Hp in Ha. unfold ABYTES in Ha. apply len_of in Ha. rewrite Ha. f_equal. lia. }
  unfold sealed_message. cbn [sdrop Nat.add]. rewrite (sdrop_exact _ _ _ Hc), (stake_exact _ _ _ Hc), aead_roundtrip. cbn [from_option_or]. rewrite bind_ret.
  replace (String.length (msg +:+ public_of s) - 32)%nat with (String.length msg).
  2:{ rewrite length_sapp, (len_of _ _ Hp). change (Z.to_nat 32) with 32%nat. lia. }
  rewrite sdrop_app, stake_app. rewrite (keypair_x s Hs : pk_to_curve25519 (public_of s) = Some (x_public s)).
  cbn [from_option_or]. rewrite bind_ret.
  destruct (from_ed kind (blinded_id kind r server) s server (Some "")) as (o2 & -> & _); [done..|apply leads_kind|by right|].
  rewrite bind_ret, String.eqb_refl. cbn [negb andb require]. by rewrite bind_ret.
Qed.

(** C28 (messages between blinded ids).  A message encrypted for a blinded id, of
    either kind, is decrypted by its recipient and by its sender, who both
    learn the sender's BChat id. *)
Theorem blinded_message_roundtrip kind s skey r rkey server rnd msg :
  size s = 32 → privkey_of s skey → size r = 32 → privkey_of r rkey → size server = 32 → nonces_ok rnd →
  blindable kind s server → blindable kind r server → is_Some (conversation kind s r server) →
  ∃ c, encrypt_for_blinded_recipient rnd skey server (blinded_id kind r server) msg = Ok c ∧
    decrypt_from_blinded_recipient rkey server (blinded_id kind s server) (blinded_id kind r server) c = Ok (msg, id_of_user s) ∧
    decrypt_from_blinded_recipient skey server (blinded_id kind s server) (blinded_id kind r server) c = Ok (msg, id_of_user s).
Proof.
  intros Hs Hsk Hr Hrk Hv Hn Hbs Hbr [z Hz]. pose proof (Hn NPUBBYTES) as Hn24.
  pose proof (blinded_public_size kind s server) as Hps. pose proof (blinded_public_size kind r server) as Hpr.
  assert (∀ key, privkey_of s key → blinded_shared_secret key (blinded_id kind s server) (blinded_id kind r server) server true =
    Ok (conversation_key kind s r server z)) as Hsend by (intros key Hkey; by apply (shared_secret_run kind s key server _ true z)).
  assert (∀ key, privkey_of r key → blinded_shared_secret key (blinded_id kind r server) (blinded_id kind s server) server false =
    Ok (conversation_key kind s r server z)) as Hrecv.
  { intros key Hkey. rewrite conversation_sym in Hz. by apply (shared_secret_run kind r key server _ false z). }
  exists (sealed_message (conversation_key kind s r server z) (rnd NPUBBYTES) msg (public_of s)). split_and!.
  - unfold encrypt_for_blinded_recipient. rewrite bind_req by by apply (privkey_size s). rewrite bind_req by by apply Z.eqb_eq.
    rewrite bind_req by (rewrite blinded_id_size; done).
    replace (if leads "021" (blinded_id kind r server) then blind15_key_pair skey server
             else if leads "037" (blinded_id kind r server) then blind25_key_pair skey server else Throw invalid_argument)
      with (Ok (blinded_public kind s server, blinded_secret kind s server, factor kind s server)).
    2:{ destruct kind; cbn [leads blinded_id first_byte Ascii.eqb Bool.eqb]; symmetry; [by apply blind25_pair|by apply blind15_pair]. }
    rewrite bind_ret. change (stake 1 (blinded_id kind r server) +:+ blinded_public kind s server) with (blinded_id kind s server).
    rewrite (Hsend skey Hsk), bind_ret. unfold sealed_message.
    assert ((if size skey =? 64 then sdrop 32 skey else (seed_keypair skey).1) = public_of s) as ->; [|done].
    destruct Hsk as [->| ->]; [by rewrite Hs|]. destruct (seed_keypair_form s) as [Hp Hf].
    assert (size (seed_keypair s).2 =? 64 = true) as -> by (rewrite Hf, size_app, Hs, Hp; done). by apply pk_of_sk.
  - apply (blinded_read kind s r r); try done. destruct (String.eqb_spec (blinded_id kind s server) (blinded_id kind r server)) as [E|_]; [|by apply Hrecv; right].
    rewrite conversation_sym in Hz. unfold conversation in Hz. pose proof E as Epub. injection Epub as Epub. rewrite Epub in Hz.
    rewrite E. unfold conversation_key. rewrite Epub. by apply (shared_secret_run kind r _ server _ true z); [|right|..].
  - apply (blinded_read kind s r s); try done. rewrite String.eqb_refl. apply Hsend. by right.
Qed.

(** ** What goes wrong *)

(** The fallback for the other sign flips a bit of the wrong byte: the id has
    33 bytes, so its last byte, with the sign, is at index 32. *)
Lemma fallback_flips_wrong_byte kind seed server :
  map_at 31 flip_bit7 (blinded_id kind seed server) ≠ String (first_byte kind) (flip_sign (blinded_public kind seed server)).
Proof.
  pose proof (len_of _ _ (blinded_public_size kind seed server)) as Hp. unfold blinded_id.
  change (map_at 31 flip_bit7 (String (first_byte kind) ?p)) with (String (first_byte kind) (map_at 30 flip_bit7 p)).
  intros E. injection E as E. by apply (flip_next 30) in E.
Qed.

(** A blinded id of fewer than two characters is read past its end. *)
Lemma short_blinded_id_undefined seed c server : bchat_id_matches_blinded_id (id_of_user seed) (String c "") server = Throw undefined_behaviour.
Proof. unfold bchat_id_matches_blinded_id. by rewrite hex_id_run. Qed.
End blinded.

#[local] Existing Instances toy_core toy_fe toy_fe_laws toy_x25519 toy_keypair toy_ed25519 toy_x25519_laws toy_keypair_form toy_keypair_laws toy_curve_laws.

Definition sample_server_pk : bytes := sample_priv "s".

Lemma blinded_ids_agree_witness :
  (∃ A a k, blind25_key_pair seed_a sample_server_pk = Ok (A, a, k) ∧
    blind25_id (x_public seed_a) sample_server_pk = Ok (String "037" A) ∧
    bchat_id_matches_blinded_id (id_of_user seed_a) (to_hex (String "037" A)) (to_hex sample_server_pk) = Ok true) ∧
  ∃ A a k, blind15_key_pair seed_b sample_server_pk = Ok (A, a, k) ∧
    blind15_id (String "005" (x_public seed_b)) sample_server_pk =
      Ok (String "021" (if negative (public_of seed_b) then flip_sign A else A)).
Proof.
  split.
  - destruct (blinded_ids_agree true seed_a seed_a sample_server_pk) as (A & a & k & Hp & _ & _ & Hid & Hm).
    + reflexivity.
    + by left.
    + reflexivity.
    + eexists. vm_compute. reflexivity.
    + exists A, a, k. split_and!; [exact Hp|by apply Hid; left|exact Hm].
  - destruct (blinded_ids_agree false seed_b seed_b sample_server_pk) as (A & a & k & Hp & _ & _ & Hid & _).
    + reflexivity.
    + by left.
    + reflexivity.
    + eexists. vm_compute. reflexivity.
    + exists A, a, k. split_and!; [exact Hp|by apply Hid; right].
Defined.

Lemma blinded_signatures_verify_witness :
  ∃ sig, blind15_sign seed_a (to_hex sample_server_pk) "hello" = Ok sig ∧
    verify_detached (blinded_public false seed_a sample_server_pk) "hello" sig = true.
Proof.
  destruct (blinded_signatures_verify false seed_a seed_a sample_server_pk (to_hex sample_server_pk) (λ m, m) "r" "hello") as [H _].
  - reflexivity.
  - by left.
  - reflexivity.
  - by right.
  - exact H.
Defined.

Lemma blinded_message_roundtrip_witness :
  ∃ c, encrypt_for_blinded_recipient zero_rnd seed_a sample_server_pk (blinded_id false seed_b sample_server_pk) "hello" = Ok c ∧
    decrypt_from_blinded_recipient seed_b sample_server_pk (blinded_id false seed_a sample_server_pk)
      (blinded_id false seed_b sample_server_pk) c = Ok ("hello", id_of_user seed_a).
Proof.
  destruct (blinded_message_roundtrip false seed_a seed_a seed_b seed_b sample_server_pk zero_rnd "hello") as (c & Hc & Hd & _).
  - reflexivity.
  - by left.
  - reflexivity.
  - by left.
  - reflexivity.
  - apply zero_rnd_ok.
  - eexists. vm_compute. reflexivity.
  - eexists. vm_compute. reflexivity.
  - eexists. vm_compute. reflexivity.
  - exists c. split; [exact Hc|exact Hd].
Defined.
