(* ===== verification/Subaccount.v ===== *)
(** * Swarm subaccounts

    [src/config/groups/keys.cpp]: a group's messages are stored under the
    group's account, which only its admins can sign for.  An admin gives each
    member a signed permission for the member's key multiplied with a factor of
    the group; the member proves to the storage server that it has both. *)

From Stdlib Require Import ZArith String Ascii Lia.
From stdpp Require Import base option list strings numbers.
From S2P Require Import Prelude OrderedMap Bt Bencode Crypto Encrypt State Util ConfigMessage ConfigBase Text Ids MultiEncrypt Wire GroupKeys GroupKeyMessages GroupKeyDelivery HopEncryption MessageEncrypt MessageDelivery Blinding Curve25519 BlindedDelivery.

Definition SUBACC_FLAG_READ : Z := 1.
Definition SUBACC_FLAG_WRITE : Z := 2.
Definition SUBACC_FLAG_DEL : Z := 4.
Definition SUBACC_FLAG_ANY_PREFIX : Z := 8.

Definition subacc_flags (write del : bool) : Z :=
  Z.lor (Z.lor SUBACC_FLAG_READ (if write then SUBACC_FLAG_WRITE else 0)) (if del then SUBACC_FLAG_DEL else 0).

Record swarm_auth := mkAuth {
  subaccount : bytes;
  subaccount_sig : bytes;
  signature : bytes;
}.

Section subaccounts.
Context `{Hash, X25519, Ed25519, SeedKeypair, Oxenc, Ed25519Core, Fe25519}.

(** [_sign_pk->data()] of an empty optional is undefined; the callers have
    checked that it is set. *)
Definition subaccount_blind_factor (bchat_xpk : bytes) (k : Keys) : result bytes :=
  mask ← keys_seed_hash "BChatGroupSubaccountMask" k;
  sign_pk ← from_option_or undefined_behaviour (k_sign_pk k);
  Ok (scalar_reduce (generichash 64 mask (String "005" bchat_xpk +:+ String "003" sign_pk))).

(** The first four bytes: network prefix, flags and two reserved bytes *)
Definition subacc_prefix (write del : bool) : bytes :=
  String "003" (String (chr (subacc_flags write del)) (String "000" (String "000" ""))).

(** The signature is written over zeros, the result of signing not checked. *)
Definition swarm_make_subaccount (bchat_id : bytes) (write del : bool) (g : Keys) : result bytes :=
  _ ← require (admin g) logic_error;
  X ← bchat_id_pk bchat_id "05";
  k ← subaccount_blind_factor X g;
  let T := xed25519_pubkey X in
  kT ← from_option_or runtime_error (scalarmult_noclamp k T);
  let prefix := subacc_prefix write del in
  let sig := default (zeros 64) (sign_detached (default "" (k_sign_sk g)) (prefix +:+ kT)) in
  Ok (prefix +:+ k +:+ sig).

Definition swarm_subaccount_token (bchat_id : bytes) (write del : bool) (g : Keys) : result bytes :=
  _ ← require (admin g) logic_error;
  X ← bchat_id_pk bchat_id "05";
  k ← subaccount_blind_factor X g;
  let T := xed25519_pubkey X in
  kT ← from_option_or runtime_error (scalarmult_noclamp k T);
  Ok (subacc_prefix write del +:+ kT).

Definition seed_hash_key_sub : bytes := "SubaccountSeed".
Definition r_hash_key : bytes := "SubaccountSig".

Definition swarm_subaccount_sign (msg sign_val : bytes) (binary : bool) (g : Keys) : result swarm_auth :=
  _ ← require (size sign_val =? 100) logic_error;
  _ ← require (is_some (k_sign_pk g)) logic_error;
  let k := stake 32 (sdrop 4 sign_val) in
  let T := sk_to_pk (user_ed25519_sk g) in
  let neg := negative T in
  let T := clear_sign T in
  kT ← from_option_or runtime_error (scalarmult_noclamp k T);
  let token := stake 4 sign_val +:+ kT in
  let sub_sig := sdrop 36 sign_val in
  let s := sk_to_curve25519 (user_ed25519_sk g) in
  let t := if neg then scalar_negate s else s in
  let kt := scalar_mul k t in
  let hseed := generichash 32 seed_hash_key_sub (stake 32 (user_ed25519_sk g)) in
  let r := scalar_reduce (generichash 64 r_hash_key (hseed +:+ kT +:+ msg)) in
  let R := base_noclamp r in
  let S := scalar_reduce (sha512 (R +:+ kT +:+ msg)) in
  let sig := R +:+ scalar_add (scalar_mul S kt) r in
  Ok (if binary then mkAuth token sub_sig sig else mkAuth (to_base64 token) (to_base64 sub_sig) (to_base64 sig)).

Definition has_flag (flags flag : Z) : bool := negb (Z.land flags flag =? 0).

Definition swarm_verify_subaccount_for (group_id user_ed_sk sign_val : bytes) (write del : bool) : result bool :=
  group_pk ← bchat_id_pk group_id "03";
  if negb (size sign_val =? 100) then Ok false else
  let flags := byte_at 1 sign_val in
  if negb (byte_at 0 sign_val =? 3) && negb (has_flag flags SUBACC_FLAG_ANY_PREFIX) then Ok false else
  if negb (has_flag flags SUBACC_FLAG_READ) then Ok false else
  if write && negb (has_flag flags SUBACC_FLAG_WRITE) then Ok false else
  if del && negb (has_flag flags SUBACC_FLAG_DEL) then Ok false else
  let k := stake 32 (sdrop 4 sign_val) in
  let sig := sdrop 36 sign_val in
  let T := clear_sign (sk_to_pk user_ed_sk) in
  kT ← from_option_or runtime_error (scalarmult_noclamp k T);
  Ok (verify_detached group_pk (stake 4 sign_val +:+ kT) sig).

Definition swarm_verify_subaccount (sign_val : bytes) (write del : bool) (g : Keys) : result bool :=
  match k_sign_pk g with
  | None => Ok false
  | Some pk => swarm_verify_subaccount_for ("03" +:+ to_hex pk) (user_ed25519_sk g) sign_val write del
  end.
End subaccounts.

(** ** Correctness *)
Section permissions.
Context `{BtLaws, HashLaws, AeadLaws, X25519Laws, Ed25519, SeedKeypair, !SeedKeypairLaws, !KeypairLaws, OxencLaws}.
Context `{Ed25519Core, Fe25519, !Fe25519Laws, !CurveLaws}.

(** A user's object for the group made from [gseed] *)
Definition user_of (gseed useed : bytes) (g : Keys) : Prop :=
  k_sign_pk g = Some (public_of gseed) ∧ user_ed25519_sk g = (seed_keypair useed).2.

Lemma prefixed_pk c p x :
  hex_digits (String c "") = p → size x = 32 → bchat_id_pk (p +:+ to_hex x) p = Ok x.
Proof.
  intros <- Hx. rewrite to_hex_digits. change (hex_digits (String c "") +:+ hex_digits x) with (hex_digits (String c x)).
  unfold bchat_id_pk, check_bchat_id. rewrite bind_req.
  - f_equal. apply (from_hex_digits x).
  - apply valid_id_spec. rewrite !hex_digits_size, is_hex_digits. split_and!; [|done|by exists (hex_digits x)].
    unfold size in *. cbn [String.length]. lia.
Qed.

(** The factor of a user in a group, and the user's key pair with it *)
Definition group_factor (gseed useed : bytes) : bytes :=
  scalar_reduce (generichash 64 (generichash 32 "BChatGroupSubaccountMask" (stake 32 (seed_keypair gseed).2))
    (String "005" (x_public useed) +:+ String "003" (public_of gseed))).
Definition abs_secret (useed : bytes) : bytes :=
  if negative (public_of useed) then scalar_negate (x_secret useed) else x_secret useed.
Definition sub_secret (gseed useed : bytes) : bytes := scalar_mul (group_factor gseed useed) (abs_secret useed).
Definition sub_public (gseed useed : bytes) : bytes := base_noclamp (sub_secret gseed useed).

(** libsodium does not refuse the product. *)
Definition admissible (gseed useed : bytes) : Prop :=
  is_Some (scalarmult_noclamp (group_factor gseed useed) (clear_sign (public_of useed))).

Lemma factor_run gseed useed g :
  admin_of gseed g → subaccount_blind_factor (x_public useed) g = Ok (group_factor gseed useed).
Proof. intros ([Hpk _] & Hsk & _). unfold subaccount_blind_factor, keys_seed_hash. by rewrite Hsk, Hpk. Qed.

Lemma sub_point gseed useed :
  size useed = 32 → admissible gseed useed →
  scalarmult_noclamp (group_factor gseed useed) (clear_sign (public_of useed)) = Some (sub_public gseed useed).
Proof.
  intros Hs [p Hp]. rewrite Hp. f_equal. rewrite noclamp_abs, (public_scalar useed) in Hp by done. apply noclamp_base in Hp.
  rewrite Hp. unfold sub_public, sub_secret, abs_secret. rewrite (public_scalar useed) by done.
  destruct (negative _); [by rewrite scalar_negate_mul|done].
Qed.

Lemma user_abs useed : size useed = 32 → xed25519_pubkey (x_public useed) = clear_sign (public_of useed).
Proof.
  intros Hs. pose proof (keypair_x useed Hs) as Hk. fold (public_of useed) in Hk. rewrite public_scalar in Hk |- * by done.
  apply (xed_pubkey_abs _ _ Hk).
Qed.

Lemma subacc_prefix_flags write del w d rest :
  let p := subacc_prefix write del +:+ rest in
  byte_at 0 p = 3 ∧ has_flag (byte_at 1 p) SUBACC_FLAG_READ = true ∧
  has_flag (byte_at 1 p) SUBACC_FLAG_WRITE = write ∧ has_flag (byte_at 1 p) SUBACC_FLAG_DEL = del ∧
  (w && negb write || d && negb del) = negb ((negb w || write) && (negb d || del)).
Proof. by destruct write, del, w, d. Qed.

(** The parts of what the admin hands out *)
Lemma sign_val_parts write del gseed useed sig :
  size sig = 64 →
  let v := subacc_prefix write del +:+ group_factor gseed useed +:+ sig in
  size v = 100 ∧ stake 4 v = subacc_prefix write del ∧ stake 32 (sdrop 4 v) = group_factor gseed useed ∧ sdrop 36 v = sig.
Proof.
  intros Hsig. cbv zeta. assert (size (group_factor gseed useed) = 32) as Hf by apply scalar_reduce_size.
  pose proof (len_of _ _ Hf) as Hl. split_and!.
  - rewrite !size_app, Hsig, Hf. done.
  - by apply (stake_exact 4).
  - rewrite (sdrop_exact 4) by done. by apply stake_exact.
  - rewrite <-append_assoc. apply sdrop_exact. by rewrite length_sapp, Hl.
Qed.

Lemma verify_run gseed useed g write del sig w d :
  size useed = 32 → user_of gseed useed g → admissible gseed useed → size sig = 64 →
  verify_detached (public_of gseed) (subacc_prefix write del +:+ sub_public gseed useed) sig = true →
  swarm_verify_subaccount (subacc_prefix write del +:+ group_factor gseed useed +:+ sig) w d g =
    Ok ((negb w || write) && (negb d || del)).
Proof.
  intros Hu [Hpk Hsk] Ha Hsig Hv. unfold swarm_verify_subaccount, swarm_verify_subaccount_for. rewrite Hpk, Hsk.
  rewrite (prefixed_pk "003"), bind_ret by (done || apply seed_keypair_form).
  destruct (subacc_prefix_flags write del w d (group_factor gseed useed +:+ sig)) as (-> & -> & -> & -> & Hwd).
  destruct (sign_val_parts write del gseed useed sig Hsig) as (-> & -> & -> & ->).
  rewrite keypair_pk by done. fold (public_of useed). rewrite sub_point by done. cbn [Z.eqb Pos.eqb negb andb from_option_or].
  rewrite bind_ret, Hv. by destruct w, d, write, del.
Qed.

Lemma sign_run_sub gseed useed g write del sig msg :
  size useed = 32 → user_of gseed useed g → admissible gseed useed → size sig = 64 →
  ∃ s, verify_detached (sub_public gseed useed) msg s = true ∧
  ∀ binary, swarm_subaccount_sign msg (subacc_prefix write del +:+ group_factor gseed useed +:+ sig) binary g =
    let enc := λ x, if (binary : bool) then x else to_base64 x in
    Ok (mkAuth (enc (subacc_prefix write del +:+ sub_public gseed useed)) (enc sig) (enc s)).
Proof.
  intros Hu [Hpk Hsk] Ha Hsig. unfold swarm_subaccount_sign.
  destruct (sign_val_parts write del gseed useed sig Hsig) as (-> & -> & -> & ->). rewrite Hpk, Hsk, keypair_pk by done.
  fold (public_of useed). rewrite sub_point by done. eexists. split; [apply schnorr_verifies|].
  intros binary. rewrite !bind_req by done. cbn [from_option_or]. rewrite bind_ret. by destruct binary.
Qed.

(** C21 (swarm subaccounts).  What an admin of a group makes for a user has 100
    bytes; the user's object finds it to allow exactly what the admin allowed,
    and signs any request with it so that the storage server finds the admin's
    signature on the token and the user's signature on the request valid.  The
    token is the one the admin can compute, for instance to revoke it. *)
Theorem subaccount_permissions gseed useed adm g write del :
  size gseed = 32 → size useed = 32 → admin_of gseed adm → user_of gseed useed g → admissible gseed useed →
  ∃ sign_val token sub_sig, size sign_val = 100 ∧ size token = 36 ∧
    swarm_make_subaccount (id_of_user useed) write del adm = Ok sign_val ∧
    swarm_subaccount_token (id_of_user useed) write del adm = Ok token ∧
    (∀ w d, swarm_verify_subaccount sign_val w d g = Ok ((negb w || write) && (negb d || del))) ∧
    verify_detached (public_of gseed) token sub_sig = true ∧
    (∀ msg, ∃ sig, swarm_subaccount_sign msg sign_val true g = Ok (mkAuth token sub_sig sig) ∧
       verify_detached (sdrop 4 token) msg sig = true ∧
       swarm_subaccount_sign msg sign_val false g = Ok (mkAuth (to_base64 token) (to_base64 sub_sig) (to_base64 sig))).
Proof.
  intros Hg Hu Hadm Hus Ha.
  destruct (keypair_sign gseed (subacc_prefix write del +:+ sub_public gseed useed) Hg) as (sig & Hsign & Hsz & Hv).
  exists (subacc_prefix write del +:+ group_factor gseed useed +:+ sig), (subacc_prefix write del +:+ sub_public gseed useed), sig.
  split_and!; [by apply sign_val_parts| | | | |done|].
  - rewrite size_app. unfold sub_public. by rewrite base_size.
  - unfold swarm_make_subaccount, id_of_user. rewrite (admin_of_admin gseed adm Hadm), bind_req by done.
    rewrite (prefixed_pk "005"), bind_ret, (factor_run gseed) by (done || apply x_public_size). rewrite bind_ret, user_abs, sub_point by done.
    cbn [from_option_or]. destruct Hadm as (_ & -> & _). rewrite bind_ret. cbn [from_option id]. by rewrite Hsign.
  - unfold swarm_subaccount_token, id_of_user. rewrite (admin_of_admin gseed adm Hadm), bind_req by done.
    rewrite (prefixed_pk "005"), bind_ret, (factor_run gseed) by (done || apply x_public_size). by rewrite bind_ret, user_abs, sub_point.
  - intros w d. by apply verify_run.
  - intros msg. destruct (sign_run_sub gseed useed g write del sig msg) as (s & Hvs & Hs); [done..|].
    exists s. split_and!; [by rewrite Hs|done|by rewrite Hs].
Qed.
End permissions.

(** ** A group and a member *)
#[local] Existing Instances toy_core toy_fe toy_fe_laws toy_x25519 toy_keypair toy_ed25519 toy_x25519_laws toy_keypair_form toy_keypair_laws toy_curve_laws.

Definition sub_admin : Keys :=
  let '(pk, sk) := seed_keypair seed_a in put_callables (pk_verifier pk) (sk_signer sk) (put_sig (Some pk) (Some sk) blank_keys).
Definition sub_member : Keys :=
  put_user (seed_keypair seed_b).2 (put_sig (Some (seed_keypair seed_a).1) None blank_keys).

Lemma subaccount_permissions_witness :
  ∃ v, swarm_make_subaccount (id_of_user seed_b) true false sub_admin = Ok v ∧
    swarm_verify_subaccount v true false sub_member = Ok true ∧ swarm_verify_subaccount v true true sub_member = Ok false.
Proof.
  destruct (subaccount_permissions seed_a seed_b sub_admin sub_member true false) as (v & token & s & _ & _ & Hm & _ & Hv & _).
  - reflexivity.
  - reflexivity.
  - repeat split.
  - repeat split.
  - eexists. vm_compute. reflexivity.
  - exists v. split_and!; [exact Hm|apply Hv|apply Hv].
Defined.
