(* ===== verification/LocalSettings.v ===== *)
(** * Settings of one device

    [src/config/local.cpp] and [include/bchat/config/local.hpp]: a config that
    is dumped like the others but never pushed.  It keeps what notifications
    show, sounds, themes, and switches the client names itself. *)

From Stdlib Require Import ZArith String Ascii Lia.
From stdpp Require Import base option list strings numbers.
From S2P Require Import Prelude OrderedMap Bt Bencode Crypto ConfigData ConfigMessage State Util ConfigBase ConfigState ConfigFields Records GroupInfo.

Inductive notify_content := content_defaulted | name_and_preview | name_no_preview | no_name_no_preview.
Inductive theme := theme_defaulted | classic_dark | classic_light | ocean_dark | ocean_light.
Inductive theme_primary_color := color_defaulted | green | blue | yellow | pink | purple | orange | red.

(** The enumerators in the order of their values, [static_cast] to [int], and
    the checked conversion back: the default for any other value *)
Definition all_contents := [content_defaulted; name_and_preview; name_no_preview; no_name_no_preview].
Definition all_themes := [theme_defaulted; classic_dark; classic_light; ocean_dark; ocean_light].
Definition all_colors := [color_defaulted; green; blue; yellow; pink; purple; orange; red].

Definition content_int (c : notify_content) : Z :=
  match c with content_defaulted => 0 | name_and_preview => 1 | name_no_preview => 2 | no_name_no_preview => 3 end.
Definition theme_int (t : theme) : Z :=
  match t with theme_defaulted => 0 | classic_dark => 1 | classic_light => 2 | ocean_dark => 3 | ocean_light => 4 end.
Definition color_int (c : theme_primary_color) : Z :=
  match c with
  | color_defaulted => 0 | green => 1 | blue => 2 | yellow => 3 | pink => 4 | purple => 5 | orange => 6 | red => 7
  end.

Definition enum_of {A} (l : list A) (def : A) (z : Z) : A :=
  if (0 <=? z) && (z <? Z.of_nat (length l)) then default def (l !! Z.to_nat z) else def.

(** [data["settings"][key]] *)
Definition setting (key : bytes) : path := sub (root "settings") key.

(** ** What the object reports *)
Definition get_notification_content (d : dict) : notify_content :=
  enum_of all_contents content_defaulted (to_int32 (integer_or (root "notify_content") d 0)).
Definition get_ios_notification_sound (d : dict) : Z := integer_or (root "notify_sound") d 0.
Definition get_theme (d : dict) : theme := enum_of all_themes theme_defaulted (to_int32 (integer_or (root "theme") d 0)).
Definition get_theme_primary_color (d : dict) : theme_primary_color :=
  enum_of all_colors color_defaulted (to_int32 (integer_or (root "theme_primary_color") d 0)).

(** [key.c_str()]: the key up to its first zero byte *)
Fixpoint c_str (s : bytes) : bytes :=
  match s with "" => "" | String c s => if Ascii.eqb c "000" then "" else String c (c_str s) end.

Definition get_setting (key : bytes) (d : dict) : option bool :=
  match field_dict (root "settings") d with
  | None => None
  | Some settings_dict => (λ z, negb (z =? 0)) <$> maybe_int settings_dict (c_str key)
  end.
Definition size_settings (d : dict) : nat :=
  match field_dict (root "settings") d with Some s => length s | None => 0 end.

(** ** The constructor *)
Definition local_kind : Kind := mkKind false 2 "Local" (Some 1) 5.
Definition new_local `{BtLib, Hash, Aead, Zstd, Ed25519, ProtoWrap} (now : Z) (ed25519_secretkey : bytes) (dumped : option bytes)
    : M ConfigBase () :=
  init local_kind now dumped None None;;
  load_key ed25519_secretkey.

Section local.
Context `{BtLib, Hash}.

(** ** The setters *)
Definition set_notification_content (value : notify_content) : M ConfigBase () :=
  set_positive_int (root "notify_content") (content_int value).
Definition set_ios_notification_sound (value : Z) : M ConfigBase () := set_positive_int (root "notify_sound") value.
Definition set_theme (value : theme) : M ConfigBase () := set_positive_int (root "theme") (theme_int value).
Definition set_theme_primary_color (value : theme_primary_color) : M ConfigBase () :=
  set_positive_int (root "theme_primary_color") (color_int value).
Definition set_setting (key : bytes) (enabled : option bool) : M ConfigBase () :=
  match enabled with Some e => set_flag (setting key) e | None => erase_field (setting key) end.

(** Never pushed *)
Definition local_needs_push (b : ConfigBase) : bool := false.
Definition local_push : M ConfigBase (Z * list bytes * list bytes) := mret (0, [], []).

(** ** The abstract settings *)
Inductive local_op :=
  | SetContent (c : notify_content) | SetSound (z : Z) | SetTheme (t : theme) | SetColor (c : theme_primary_color)
  | SetSetting (key : bytes) (enabled : option bool).

Definition run_local (o : local_op) : M ConfigBase () :=
  match o with
  | SetContent c => set_notification_content c
  | SetSound z => set_ios_notification_sound z
  | SetTheme t => set_theme t
  | SetColor c => set_theme_primary_color c
  | SetSetting key e => set_setting key e
  end.

(** Arguments are values of their types; keys have no zero bytes. *)
Definition local_typed (o : local_op) : bool :=
  match o with
  | SetSound z => in_int64 z
  | SetSetting key _ => keqb (c_str key) key
  | _ => true
  end.

Record local_view := mkLocal {
  lv_content : notify_content;
  lv_sound : Z;
  lv_theme : theme;
  lv_color : theme_primary_color;
  lv_setting : bytes → option bool;
}.
#[export] Instance local_view_equiv : Equiv local_view := λ v w,
  lv_content v = lv_content w ∧ lv_sound v = lv_sound w ∧ lv_theme v = lv_theme w ∧ lv_color v = lv_color w ∧
  ∀ key, lv_setting v key = lv_setting w key.
#[export] Instance local_view_equivalence : Equivalence (≡@{local_view}).
Proof.
  split.
  - intros v. by repeat split.
  - intros v w (? & ? & ? & ? & Hs). repeat split; auto.
  - intros v w x (? & ? & ? & ? & Hs) (? & ? & ? & ? & Hs'). repeat split; [congruence..|]. intros key. by rewrite Hs.
Qed.

(** Turning a switch off is the same as clearing it. *)
Definition apply_local (o : local_op) (v : local_view) : local_view :=
  match o with
  | SetContent c => mkLocal c (lv_sound v) (lv_theme v) (lv_color v) (lv_setting v)
  | SetSound z => mkLocal (lv_content v) (Z.max 0 z) (lv_theme v) (lv_color v) (lv_setting v)
  | SetTheme t => mkLocal (lv_content v) (lv_sound v) t (lv_color v) (lv_setting v)
  | SetColor c => mkLocal (lv_content v) (lv_sound v) (lv_theme v) c (lv_setting v)
  | SetSetting key e =>
      mkLocal (lv_content v) (lv_sound v) (lv_theme v) (lv_color v)
        (λ k, if keqb k key then match e with Some true => Some true | _ => None end else lv_setting v k)
  end.
#[export] Instance apply_local_proper o : Proper ((≡) ==> (≡)) (apply_local o).
Proof. intros v w (? & ? & ? & ? & Hs). destruct o; repeat split; try done. intros k. cbn. by destruct (keqb k key). Qed.

(** What a client that asks for keys without zero bytes sees *)
Definition local_view_of (d : dict) : local_view :=
  mkLocal (get_notification_content d) (get_ios_notification_sound d) (get_theme d) (get_theme_primary_color d)
    (λ key, if keqb (c_str key) key then get_setting key d else None).

(** ** One setter *)
Definition op_field (o : local_op) : path * option dict_value :=
  match o with
  | SetContent c => (root "notify_content", positive_value (content_int c))
  | SetSound z => (root "notify_sound", positive_value z)
  | SetTheme t => (root "theme", positive_value (theme_int t))
  | SetColor c => (root "theme_primary_color", positive_value (color_int c))
  | SetSetting key e => (setting key, flag_value (match e with Some true => true | _ => false end))
  end.

Lemma run_local_edits o d :
  dict_ok d = true → local_typed o = true → edits d (run_local o) (put_opt (op_field o).1 (op_field o).2 d).
Proof.
  intros Hd Ht. destruct o as [c|z|t|c|key [[]|]]; cbn [run_local op_field fst snd].
  - apply edits_positive; [done|by destruct c].
  - by apply edits_positive.
  - apply edits_positive; [done|by destruct t].
  - apply edits_positive; [done|by destruct c].
  - by apply edits_flag.
  - by apply edits_flag.
  - by apply edits_erase.
Qed.

Lemma get_setting_path key d :
  keqb (c_str key) key = true →
  get_setting key d = (λ z, negb (z =? 0)) <$> field_integer (setting key) d.
Proof.
  intros Hk. apply keqb_spec in Hk. unfold get_setting, field_dict, field_integer, get_clean, maybe_int, maybe_scalar. rewrite Hk.
  cbn [root setting sub fst snd app find_path]. unfold sub_dict. destruct (mfind "settings" d) as [[s| |]|]; [|done..].
  by destruct (mfind key s) as [[|[]|]|].
Qed.

Lemma field_integer_other p q o d :
  independent q.1 q.2 p.1 p.2 = true → field_integer p (put_opt q o d) = field_integer p d.
Proof. intros Hi. unfold field_integer. by rewrite get_put_other. Qed.

Lemma integer_put_same p z d : integer_or p (put_opt p (positive_value z) d) 0 = Z.max 0 z.
Proof.
  unfold integer_or, field_integer. rewrite get_put_same. unfold positive_value. destruct (Z.ltb_spec 0 z); cbn; lia.
Qed.

Lemma setting_independent k1 k2 : keqb k1 k2 = false → independent (setting k1).1 (setting k1).2 (setting k2).1 (setting k2).2 = true.
Proof. intros Hk. cbn. by rewrite Hk. Qed.

Ltac other_fields :=
  unfold integer_or; repeat rewrite field_integer_other by reflexivity; try done;
  let k := fresh in let E := fresh in intros k; destruct (keqb (c_str k) k) eqn:E; [|done];
  rewrite !get_setting_path by done; by rewrite field_integer_other by reflexivity.

(** A setter is seen as the abstract operation says. *)
Lemma local_put o d :
  local_typed o = true → local_view_of (put_opt (op_field o).1 (op_field o).2 d) ≡ apply_local o (local_view_of d).
Proof.
  intros Ht. destruct o as [c|z|t|c|key e]; cbn [op_field fst snd apply_local]; unfold local_view_of; split_and!;
    cbn [lv_content lv_sound lv_theme lv_color lv_setting];
    unfold get_notification_content, get_ios_notification_sound, get_theme, get_theme_primary_color; rewrite ?integer_put_same;
    try by other_fields.
  - by destruct c.
  - by destruct t.
  - by destruct c.
  - intros k. cbn [local_typed] in Ht. destruct (keqb k key) eqn:E.
    + apply keqb_spec in E as ->. rewrite Ht, get_setting_path by done. unfold field_integer. rewrite get_put_same.
      by destruct e as [[]|].
    + destruct (keqb (c_str k) k) eqn:Ek; [|done]. rewrite !get_setting_path by done.
      rewrite field_integer_other; [done|]. apply setting_independent. by rewrite keqb_sym.
Qed.

Lemma local_step o b :
  writable b → local_typed o = true →
  writable (run_local o b).2 ∧ local_view_of (data_of (run_local o b).2) ≡ apply_local o (local_view_of (data_of b)).
Proof.
  intros Hb Ht. destruct (run_local_edits o (data_of b) (writable_data _ Hb) Ht b Hb eq_refl) as (a & b' & -> & Hw & E & _).
  cbn [snd]. split; [done|]. rewrite E. by apply local_put.
Qed.

(** (local settings).  Any sequence of setter calls leaves an object that can
    still be written, and what it reports is what the abstract settings say
    after the same calls: each call changes its own setting only, a sound below
    zero counts as zero, and a switch turned off is gone, like a cleared one.
    Nothing of it is ever pushed. *)
Theorem local_refines_settings ops b :
  writable b → forallb local_typed ops = true →
  let b' := fold_left (λ b o, (run_local o b).2) ops b in
  writable b' ∧ local_view_of (data_of b') ≡ fold_left (λ v o, apply_local o v) ops (local_view_of (data_of b)) ∧
  local_needs_push b' = false ∧ local_push b' = (Ok (0, [], []), b').
Proof.
  intros Hb Hops. cbv zeta. split_and!; [| |done|done].
  - revert b Hb; induction ops as [|o ops IH]; intros b Hb; [done|]. cbn [forallb fold_left] in *.
    apply andb_true_iff in Hops as [Ho Hops]. apply IH; [done|]. by apply local_step.
  - enough (∀ v, local_view_of (data_of b) ≡ v →
      local_view_of (data_of (fold_left (λ b o, (run_local o b).2) ops b)) ≡ fold_left (λ v o, apply_local o v) ops v) as Hv by by apply Hv.
    revert b Hb; induction ops as [|o ops IH]; intros b Hb v Hv; [done|]. cbn [forallb fold_left] in *.
    apply andb_true_iff in Hops as [Ho Hops]. destruct (local_step o b Hb Ho) as [Hw Hs]. apply IH; [done..|]. by rewrite Hs, Hv.
Qed.

(** A switch that was explicitly disabled reads as if it had never been set. *)
Lemma disabled_reads_unset key b :
  writable b → keqb (c_str key) key = true → get_setting key (data_of (set_setting key (Some false) b).2) = None.
Proof.
  intros Hb Hk. destruct (local_step (SetSetting key (Some false)) b Hb Hk) as [_ (_ & _ & _ & _ & Hs)].
  specialize (Hs key). cbn [local_view_of lv_setting apply_local] in Hs. by rewrite Hk, keqb_refl in Hs.
Qed.
End local.

Definition sample_local_ops : list local_op :=
  [SetTheme ocean_dark; SetSetting "a" (Some true); SetSound 3; SetSetting "b" (Some false); SetContent name_no_preview; SetTheme theme_defaulted].

Lemma local_refines_settings_witness :
  let d := data_of (fold_left (λ b o, (run_local o b).2) sample_local_ops new_config) in
  get_setting "a" d = Some true ∧ get_setting "b" d = None ∧ get_ios_notification_sound d = 3 ∧
  get_notification_content d = name_no_preview ∧ get_theme d = theme_defaulted.
Proof.
  destruct (local_refines_settings sample_local_ops new_config) as (_ & (Hc & Hs & Ht & _ & Hk) & _); [exact writable_new|reflexivity|].
  split_and!; [exact (Hk "a")|exact (Hk "b")|exact Hs|exact Hc|exact Ht].
Defined.
