(* ===== verification/Protocol.v ===== *)
(** * The message protocol

    [src/bchat_protocol.cpp]: what a client sends is a protobuf [Content].  For
    a user it is padded, encrypted and put in an envelope in a websocket
    message; for a group it is put in an envelope, which is encrypted; for a
    community it is padded, and for a user of a community also encrypted for
    the blinded id.  Envelope or content carry a signature of the sender's
    rotating Pro key, and the content the proof that the key belongs to a
    subscriber. *)

From Stdlib Require Import ZArith String Ascii Lia.
From stdpp Require Import base option list strings numbers.
From S2P Require Import Prelude OrderedMap Bt Bencode Crypto Encrypt State Util ConfigMessage ConfigBase Text Ids MultiEncrypt Wire UserProfile MessageEncrypt Blinding.

(** ** Protobuf messages

    The fields of [proto/BChatProtos.proto] and [WebSocketResources.proto] the
    code uses; an optional field that is missing is [None].  [ct_rest] stands
    for the other fields of a [Content]. *)
Record ProtoProof := mkProtoProof {
  pp_version : option Z;
  pp_genIndexHash : option bytes;
  pp_rotatingPublicKey : option bytes;
  pp_expiryUnixTs : option Z;
  pp_sig : option bytes;
}.
Record ProtoPro := mkProtoPro {
  pm_proof : option ProtoProof;
  pm_profileBitset : option Z;
  pm_msgBitset : option Z;
}.
Record SharedConfigMessage := mkShared {
  sc_kind : Z;
  sc_seqno : Z;
  sc_data : bytes;
}.
Record Content := mkContent {
  ct_sharedConfigMessage : option SharedConfigMessage;
  ct_sigTimestamp : option Z;
  ct_proMessage : option ProtoPro;
  ct_proSigForCommunityMessageOnly : option bytes;
  ct_rest : bytes;
}.
Definition with_pro_sig (sig : option bytes) (c : Content) : Content :=
  mkContent (ct_sharedConfigMessage c) (ct_sigTimestamp c) (ct_proMessage c) sig (ct_rest c).

Record ProtoEnvelope := mkProtoEnvelope {
  pe_type : Z;
  pe_source : option bytes;
  pe_sourceDevice : option Z;
  pe_timestamp : option Z;
  pe_content : option bytes;
  pe_serverTimestamp : option Z;
  pe_proSig : option bytes;
}.
Definition BCHAT_MESSAGE : Z := 6.
Definition CLOSED_GROUP_MESSAGE : Z := 7.

Record WebSocketRequestMessage := mkWsRequest {
  rq_verb : option bytes;
  rq_path : option bytes;
  rq_body : option bytes;
  rq_requestId : option Z;
}.
Record WebSocketMessage := mkWs {
  ws_type : option Z;
  ws_request : option WebSocketRequestMessage;
}.
Definition WS_REQUEST : Z := 1.

(** The generated [SerializeAsString] and [ParseFromArray] *)
Class Protobuf := {
  serialize_content : Content → bytes;
  parse_content : bytes → option Content;
  serialize_envelope : ProtoEnvelope → bytes;
  parse_envelope : bytes → option ProtoEnvelope;
  serialize_ws : WebSocketMessage → bytes;
  parse_ws : bytes → option WebSocketMessage;
}.

(** simdutf's validation: the text of the error, if there is one *)
Class Validate := {
  utf8_error : bytes → option bytes;
  utf16_error : list Z → option bytes;
  count_utf8 : bytes → Z;
}.

(** BLAKE2b of 32 bytes with a personality *)
Class PersonalHash := personal_hash : bytes → bytes → bytes.

(** The conversion of a [uint64_t] to [int64_t] *)
Definition to_int64 (z : Z) : Z := (z + 2 ^ 63) mod 2 ^ 64 - 2 ^ 63.

(** ** Feature bits *)
Definition bitset_set (feature : nat) (data : Z) : Z := Z.lor data (Z.shiftl 1 (Z.of_nat feature)).
Definition bitset_unset (feature : nat) (data : Z) : Z := Z.ldiff data (Z.shiftl 1 (Z.of_nat feature)).
Definition bitset_is_set (feature : nat) (data : Z) : bool := negb (Z.land data (Z.shiftl 1 (Z.of_nat feature)) =? 0).

Definition FEATURES_10K_CHARACTER_LIMIT : nat := 0.
Definition PRO_STANDARD_CHARACTER_LIMIT : Z := 2000.
Definition PRO_HIGHER_CHARACTER_LIMIT : Z := 10000.

Inductive ProFeaturesForMsgStatus := Success | UTFDecodingError | ExceedsCharacterLimit.
Record ProFeaturesForMsg := mkFeatures {
  pf_status : ProFeaturesForMsgStatus;
  pf_error : bytes;
  pf_bitset : Z;
  pf_codepoint_count : Z;
}.

Inductive ProStatus := InvalidProBackendSig | InvalidUserSig | Valid | Expired.
#[global] Instance ProStatus_eq_dec : EqDecision ProStatus.
Proof. solve_decision. Defined.

Inductive DestinationType := SyncOr1o1 | Group | CommunityInbox | Community.
Record Destination := mkDestination {
  dst_type : DestinationType;
  dst_pro_rotating_ed25519_privkey : bytes;
  dst_sent_timestamp_ms : Z;
  dst_recipient_pubkey : bytes;
  dst_community_inbox_server_pubkey : bytes;
  dst_group_ed25519_pubkey : bytes;
  dst_group_enc_key : bytes;
}.

Definition FLAGS_SOURCE : Z := 1.
Definition FLAGS_SOURCE_DEVICE : Z := 2.
Definition FLAGS_SERVER_TIMESTAMP : Z := 4.
Definition FLAGS_PRO_SIG : Z := 8.
Definition FLAGS_TIMESTAMP : Z := 16.

Record Envelope := mkEnvelope {
  env_flags : Z;
  env_timestamp : Z;
  env_source : bytes;
  env_source_device : Z;
  env_server_timestamp : Z;
  env_pro_sig : bytes;
}.
(** [Envelope{}] *)
Definition empty_envelope : Envelope := mkEnvelope 0 0 (zeros 33) 0 0 (zeros 64).

Record DecodedPro := mkDecodedPro {
  dp_status : ProStatus;
  dp_proof : ProProof;
  dp_msg_bitset : Z;
  dp_profile_bitset : Z;
}.
Record DecodedEnvelope := mkDecodedEnvelope {
  de_envelope : Envelope;
  de_content_plaintext : bytes;
  de_sender_ed25519_pubkey : bytes;
  de_sender_x25519_pubkey : bytes;
  de_pro : option DecodedPro;
}.
Record DecodedCommunityMessage := mkDecodedCommunity {
  dc_envelope : option Envelope;
  dc_content_plaintext : bytes;
  dc_pro_sig : option bytes;
  dc_pro : option DecodedPro;
}.
Record DecodeEnvelopeKey := mkDecodeKey {
  dk_group_ed25519_pubkey : option bytes;
  dk_decrypt_keys : list bytes;
}.

(** ** Padding *)
Definition MSG_PADDING : Z := 160.
Definition PADDING_TERMINATING_BYTE : ascii := "128".

Definition pad_message (payload : bytes) : bytes :=
  let padded_content_size := size payload + 1 in
  let bytes_for_padding := to_uint8 (MSG_PADDING - padded_content_size mod MSG_PADDING) in
  payload +:+ String PADDING_TERMINATING_BYTE (zeros (Z.to_nat bytes_for_padding)).

(** The loop of [unpad_message]: the size without padding *)
Fixpoint unpad_loop (payload : bytes) (size_without_padding : nat) : nat :=
  match size_without_padding with
  | O => O
  | S n =>
      match String.get n payload with
      | None => S n
      | Some ch =>
          if negb (Ascii.eqb ch "000") && negb (Ascii.eqb ch PADDING_TERMINATING_BYTE) then S n
          else if Ascii.eqb ch PADDING_TERMINATING_BYTE then n
          else unpad_loop payload n
      end
  end.
Definition unpad_message (payload : bytes) : bytes := stake (unpad_loop payload (String.length payload)) payload.

Section protocol.
Context `{BtLib, Hash, Aead, Zstd, X25519, Ed25519, SeedKeypair, Box, SecretBox, Oxenc, Ed25519Core, Fe25519, Protobuf, PersonalHash}.

(** ** Pro proofs *)
Definition BUILD_PROOF_HASH_PERSONALISATION : bytes := "ProProof________".

Definition proof_hash (p : ProProof) : bytes :=
  personal_hash BUILD_PROOF_HASH_PERSONALISATION
    (String (chr (proof_version p)) "" +:+ proof_gen_index_hash p +:+ proof_rotating_pubkey p +:+ le_write 8 (proof_expiry_unix_ts p)).

Definition verify_signature (verify_pubkey : bytes) (p : ProProof) : result bool :=
  _ ← require (size verify_pubkey =? 32) invalid_argument;
  Ok (verify_detached verify_pubkey (proof_hash p) (proof_sig p)).

Definition verify_message (sig msg : bytes) (p : ProProof) : result bool :=
  _ ← require (size sig =? 64) invalid_argument;
  Ok (verify_detached (proof_rotating_pubkey p) msg sig).

Definition is_active (unix_ts : Z) (p : ProProof) : bool := unix_ts <=? proof_expiry_unix_ts p.

Definition proof_status (verify_pubkey : bytes) (unix_ts : Z) (signed_msg : option (bytes * bytes)) (p : ProProof) : result ProStatus :=
  backend ← verify_signature verify_pubkey p;
  let res := if (backend : bool) then Valid else InvalidProBackendSig in
  res ← match signed_msg with
        | Some (sig, msg) =>
            if decide (res = Valid) then
              ok ← verify_message sig msg p; Ok (if (ok : bool) then res else InvalidUserSig)
            else Ok res
        | None => Ok res
        end;
  Ok (if decide (res = Valid) then if is_active unix_ts p then res else Expired else res).

(** ** Sending

    The random values of one call: the seed of the sealed box's keys, the seed
    of the throw-away Pro key, the nonces, and what an uninitialised signature
    holds *)
Context (rnd_box dummy_seed garbage : bytes) (rnd : Z → bytes).

(** The rotating key in its 64-byte form; [""] if there is none *)
Definition pro_privkey (key : bytes) : result bytes :=
  if size key =? 0 then Ok "" else
  if size key =? 32 then Ok (seed_keypair key).2
  else if size key =? 64 then Ok key else Throw runtime_error.

(** The signature is written over zeros, the result of signing not checked. *)
Definition pro_signature (pro_sk content : bytes) : bytes :=
  let sk := if size pro_sk =? 0 then (seed_keypair dummy_seed).2 else pro_sk in
  default (zeros 64) (sign_detached sk content).

Definition new_envelope (type : Z) (timestamp : Z) (pro_sk content : bytes) : ProtoEnvelope :=
  mkProtoEnvelope type None (Some 1) (Some (wrap64 timestamp)) (Some content) None (Some (pro_signature pro_sk content)).

(** For a community: signed if there is a key, and padded *)
Definition community_content (pro_sk plaintext : bytes) : result bytes :=
  if size pro_sk =? 0 then Ok (pad_message plaintext) else
  content_w_sig ← from_option_or runtime_error (parse_content plaintext);
  _ ← require (negb (is_some (ct_proSigForCommunityMessageOnly content_w_sig))) runtime_error;
  let pro_sig := default garbage (sign_detached pro_sk (pad_message plaintext)) in
  Ok (pad_message (serialize_content (with_pro_sig (Some pro_sig) content_w_sig))).

Definition encode_for_destination (plaintext ed25519_privkey : bytes) (dest : Destination) : result bytes :=
  pro_sk ← pro_privkey (dst_pro_rotating_ed25519_privkey dest);
  match dst_type dest with
  | Group =>
      _ ← require (leads "003" (dst_group_ed25519_pubkey dest)) runtime_error;
      let envelope := new_envelope CLOSED_GROUP_MESSAGE (dst_sent_timestamp_ms dest) pro_sk plaintext in
      let group_pk := if size (dst_group_ed25519_pubkey dest) =? 33 then sdrop 1 (dst_group_ed25519_pubkey dest)
                      else dst_group_ed25519_pubkey dest in
      encrypt_for_group garbage rnd ed25519_privkey group_pk (dst_group_enc_key dest) (serialize_envelope envelope) true 256
  | SyncOr1o1 =>
      content ← encrypt_for_recipient rnd_box ed25519_privkey (dst_recipient_pubkey dest) (pad_message plaintext);
      let envelope := new_envelope BCHAT_MESSAGE (dst_sent_timestamp_ms dest) pro_sk content in
      let req_msg := mkWsRequest (Some "") (Some "") (Some (serialize_envelope envelope)) (Some 0) in
      Ok (serialize_ws (mkWs (Some WS_REQUEST) (Some req_msg)))
  | Community => community_content pro_sk plaintext
  | CommunityInbox =>
      content ← community_content pro_sk plaintext;
      encrypt_for_blinded_recipient rnd ed25519_privkey (dst_community_inbox_server_pubkey dest) (dst_recipient_pubkey dest) content
  end.

(** The members of [Destination] the callers leave alone are zero. *)
Definition encode_for_1o1 (plaintext ed25519_privkey : bytes) (sent_timestamp : Z) (recipient_pubkey : bytes)
    (pro_rotating_ed25519_privkey : option bytes) : result bytes :=
  encode_for_destination plaintext ed25519_privkey
    (mkDestination SyncOr1o1 (default "" pro_rotating_ed25519_privkey) sent_timestamp recipient_pubkey (zeros 32) (zeros 33) (zeros 32)).
Definition encode_for_community_inbox (plaintext ed25519_privkey : bytes) (sent_timestamp : Z) (recipient_pubkey community_pubkey : bytes)
    (pro_rotating_ed25519_privkey : option bytes) : result bytes :=
  encode_for_destination plaintext ed25519_privkey
    (mkDestination CommunityInbox (default "" pro_rotating_ed25519_privkey) sent_timestamp recipient_pubkey community_pubkey (zeros 33) (zeros 32)).
Definition encode_for_community (plaintext : bytes) (pro_rotating_ed25519_privkey : option bytes) : result bytes :=
  encode_for_destination plaintext ""
    (mkDestination Community (default "" pro_rotating_ed25519_privkey) 0 (zeros 33) (zeros 32) (zeros 33) (zeros 32)).
Definition encode_for_group (plaintext ed25519_privkey : bytes) (sent_timestamp : Z) (group_ed25519_pubkey group_enc_key : bytes)
    (pro_rotating_ed25519_privkey : option bytes) : result bytes :=
  encode_for_destination plaintext ed25519_privkey
    (mkDestination Group (default "" pro_rotating_ed25519_privkey) sent_timestamp (zeros 33) (zeros 32) group_ed25519_pubkey group_enc_key).

(** ** Receiving *)

(** A field that sets a member and its flag if it is there *)
Definition take_field {A} (o : option A) (flag : Z) (set : A → Envelope → Envelope) (e : Envelope) : Envelope :=
  match o with
  | None => e
  | Some a =>
      let e := set a e in
      mkEnvelope (Z.lor (env_flags e) flag) (env_timestamp e) (env_source e) (env_source_device e) (env_server_timestamp e) (env_pro_sig e)
  end.
Definition set_env_timestamp (t : Z) (e : Envelope) : Envelope :=
  mkEnvelope (env_flags e) (to_int64 t) (env_source e) (env_source_device e) (env_server_timestamp e) (env_pro_sig e).
Definition set_env_source (s : bytes) (e : Envelope) : Envelope :=
  mkEnvelope (env_flags e) (env_timestamp e) s (env_source_device e) (env_server_timestamp e) (env_pro_sig e).
Definition set_env_device (d : Z) (e : Envelope) : Envelope :=
  mkEnvelope (env_flags e) (env_timestamp e) (env_source e) d (env_server_timestamp e) (env_pro_sig e).
Definition set_env_server_timestamp (t : Z) (e : Envelope) : Envelope :=
  mkEnvelope (env_flags e) (env_timestamp e) (env_source e) (env_source_device e) t (env_pro_sig e).
Definition set_env_pro_sig (s : bytes) (e : Envelope) : Envelope :=
  mkEnvelope (env_flags e) (env_timestamp e) (env_source e) (env_source_device e) (env_server_timestamp e) s.

(** The proof of a Pro message; its version stays 0, which is what is required *)
Definition read_proof (pro_msg : ProtoPro) : result ProProof :=
  p ← from_option_or runtime_error (pm_proof pro_msg);
  match pp_version p, pp_genIndexHash p, pp_rotatingPublicKey p, pp_expiryUnixTs p, pp_sig p with
  | Some version, Some gen_index_hash, Some rotating_pubkey, Some expiry, Some sig =>
      _ ← require ((version =? 0) && (size gen_index_hash =? 32) && (size rotating_pubkey =? 32) && (size sig =? 64)) runtime_error;
      Ok (mkProof 0 gen_index_hash rotating_pubkey (to_int64 expiry) sig)
  | _, _, _, _, _ => Throw runtime_error
  end.

Definition decoded_pro (backend_pubkey : bytes) (unix_ts : Z) (sig msg : bytes) (pro_msg : ProtoPro) : result DecodedPro :=
  proof ← read_proof pro_msg;
  status ← proof_status backend_pubkey unix_ts (Some (sig, msg)) proof;
  Ok (mkDecodedPro status proof (default 0 (pm_msgBitset pro_msg)) (default 0 (pm_profileBitset pro_msg))).

(** The first key that decrypts the content *)
Fixpoint try_incoming (keys : list bytes) (content : bytes) : option (bytes * bytes) :=
  match keys with
  | [] => None
  | key :: keys => match decrypt_incoming key content with Ok r => Some r | Throw _ => try_incoming keys content end
  end.

(** The envelope's bytes, and the sender's X25519 key if it is known already *)
Definition open_payload (keys : DecodeEnvelopeKey) (payload : bytes) : result (bytes * bytes) :=
  match dk_group_ed25519_pubkey keys with
  | Some group_pk =>
      m ← decrypt_group_message (dk_decrypt_keys keys) group_pk payload;
      _ ← require (size (dg_bchat_id m) =? 66) runtime_error;
      Ok (dg_plaintext m, from_hex (sdrop 2 (dg_bchat_id m)))
  | None =>
      ws_msg ← from_option_or runtime_error (parse_ws payload);
      request ← from_option_or runtime_error (ws_request ws_msg);
      body ← from_option_or runtime_error (rq_body request);
      Ok (body, zeros 32)
  end.

Definition read_source (source : option bytes) (e : Envelope) : result Envelope :=
  match source with
  | None => Ok e
  | Some s =>
      _ ← require ((size s =? 0) || (size s =? 66)) runtime_error;
      Ok (if size s =? 0 then e else take_field (Some (from_hex s)) FLAGS_SOURCE set_env_source e)
  end.

(** Content, sender's Ed25519 key and sender's X25519 key *)
Definition open_content (keys : DecodeEnvelopeKey) (content sender_x : bytes) : result (bytes * bytes * bytes) :=
  match dk_group_ed25519_pubkey keys with
  | Some _ => Ok (content, zeros 32, sender_x)
  | None =>
      '(plain, ed) ← from_option_or runtime_error (try_incoming (dk_decrypt_keys keys) content);
      x ← from_option_or runtime_error (pk_to_curve25519 ed);
      Ok (unpad_message plain, ed, x)
  end.

Definition decode_envelope (keys : DecodeEnvelopeKey) (envelope_payload pro_backend_pubkey : bytes) : result DecodedEnvelope :=
  '(plaintext, sender_x) ← open_payload keys envelope_payload;
  envelope ← from_option_or runtime_error (parse_envelope plaintext);
  let e := take_field (pe_timestamp envelope) FLAGS_TIMESTAMP set_env_timestamp empty_envelope in
  e ← read_source (pe_source envelope) e;
  let e := take_field (pe_sourceDevice envelope) FLAGS_SOURCE_DEVICE set_env_device e in
  let e := take_field (pe_serverTimestamp envelope) FLAGS_SERVER_TIMESTAMP set_env_server_timestamp e in
  env_content ← from_option_or runtime_error (pe_content envelope);
  '(plain, ed, x) ← open_content keys env_content sender_x;
  content ← from_option_or runtime_error (parse_content plain);
  match pe_proSig envelope with
  | None => Ok (mkDecodedEnvelope e plain ed x None)
  | Some pro_sig =>
      _ ← require (size pro_sig =? 64) runtime_error;
      match ct_proMessage content with
      | None => Ok (mkDecodedEnvelope (set_env_pro_sig pro_sig e) plain ed x None)
      | Some pro_msg =>
          let ts := default 0 (ct_sigTimestamp content) in
          _ ← require (negb (ts =? 0)) runtime_error;
          let e := take_field (Some pro_sig) FLAGS_PRO_SIG set_env_pro_sig e in
          pro ← decoded_pro pro_backend_pubkey (to_int64 ts) pro_sig env_content pro_msg;
          Ok (mkDecodedEnvelope e plain ed x (Some pro))
      end
  end.

(** An envelope of a community message: its source is not in hex here, and its
    timestamp is not read. *)
Definition community_envelope (envelope : ProtoEnvelope) : result Envelope :=
  e ← match pe_source envelope with
      | None => Ok empty_envelope
      | Some s => _ ← require (size s =? 33) runtime_error; Ok (take_field (Some s) FLAGS_SOURCE set_env_source empty_envelope)
      end;
  let e := take_field (pe_sourceDevice envelope) FLAGS_SOURCE_DEVICE set_env_device e in
  let e := take_field (pe_serverTimestamp envelope) FLAGS_SERVER_TIMESTAMP set_env_server_timestamp e in
  Ok (take_field (pe_proSig envelope) FLAGS_PRO_SIG (λ _ e, e) e).

Definition decode_for_community (payload : bytes) (unix_ts : Z) (pro_backend_pubkey : bytes) : result DecodedCommunityMessage :=
  '(envelope, padded, env_sig) ←
     match parse_envelope payload with
     | Some pb => e ← community_envelope pb; Ok (Some e, default "" (pe_content pb), pe_proSig pb)
     | None => Ok (None, payload, None)
     end;
  let plain := unpad_message padded in
  content ← from_option_or runtime_error (parse_content plain);
  pro_sig ← match ct_proSigForCommunityMessageOnly content with
            | Some s => _ ← require (negb (is_some env_sig)) runtime_error; Ok (Some s)
            | None => Ok env_sig
            end;
  _ ← require (match pro_sig with Some s => size s =? 64 | None => true end) runtime_error;
  let envelope := match pro_sig with Some s => set_env_pro_sig s <$> envelope | None => envelope end in
  match pro_sig, ct_proMessage content with
  | Some sig, Some pro_msg =>
      let signed := match envelope with
                    | Some _ => padded
                    | None => pad_message (serialize_content (with_pro_sig None content))
                    end in
      pro ← decoded_pro pro_backend_pubkey unix_ts sig signed pro_msg;
      Ok (mkDecodedCommunity envelope plain pro_sig (Some pro))
  | _, _ => Ok (mkDecodedCommunity envelope plain pro_sig None)
  end.
End protocol.

(** ** Features of a message, by its number of code points *)
Section features.
Context `{Validate, Simdutf}.

Definition features_for (error : option bytes) (codepoint_count : Z) : ProFeaturesForMsg :=
  match error with
  | Some e => mkFeatures UTFDecodingError e 0 0
  | None =>
      if PRO_STANDARD_CHARACTER_LIMIT <? codepoint_count then
        if codepoint_count <=? PRO_HIGHER_CHARACTER_LIMIT
        then mkFeatures Success "" (bitset_set FEATURES_10K_CHARACTER_LIMIT 0) codepoint_count
        else mkFeatures ExceedsCharacterLimit "Message exceeds the maximum character limit allowed" 0 codepoint_count
      else mkFeatures Success "" 0 codepoint_count
  end.
Definition pro_features_for_utf8 (utf : bytes) : ProFeaturesForMsg := features_for (utf8_error utf) (count_utf8 utf).
Definition pro_features_for_utf16 (utf : list Z) : ProFeaturesForMsg := features_for (utf16_error utf) (Z.of_nat (count_utf16 utf)).
End features.
