(* ===== verification/ProtocolDelivery.v ===== *)
(** * Correctness of the message protocol

    What [src/bchat_protocol.cpp] encodes for a user, a group or a community it
    decodes again, with the sender and the standing of the sender's Pro
    subscription; and what it accepts is signed. *)

From Stdlib Require Import ZArith String Ascii Lia.
From stdpp Require Import base option list strings numbers countable.
From S2P Require Import Prelude OrderedMap Bt Bencode Crypto Encrypt State Util ConfigMessage ConfigBase Text Ids MultiEncrypt Wire UserProfile GroupKeyDelivery HopEncryption MessageEncrypt MessageDelivery Blinding Curve25519 BlindedDelivery Protocol.

(** ** What is assumed of protobuf

    A message whose required fields are set and whose integers fit their types
    parses as what was serialized, and is not empty; a [Content] that was
    parsed parses as it is after its signature was set or cleared, and so does
    one made of a config message. *)
Definition in_uint64 (z : Z) : bool := (0 <=? z) && (z <? 2 ^ 64).
Definition in_uint32 (z : Z) : bool := (0 <=? z) && (z <? 2 ^ 32).
Definition opt_all (f : Z → bool) (o : option Z) : bool := match o with Some z => f z | None => true end.
Definition envelope_ok (e : ProtoEnvelope) : bool :=
  ((pe_type e =? BCHAT_MESSAGE) || (pe_type e =? CLOSED_GROUP_MESSAGE)) && is_some (pe_timestamp e) &&
  opt_all in_uint64 (pe_timestamp e) && opt_all in_uint64 (pe_serverTimestamp e) && opt_all in_uint32 (pe_sourceDevice e).
Definition ws_ok (w : WebSocketMessage) : bool :=
  opt_all (λ t, (0 <=? t) && (t <=? 2)) (ws_type w) &&
  match ws_request w with Some r => opt_all in_uint64 (rq_requestId r) | None => true end.

Class ProtobufLaws `{Protobuf} := {
  content_again : ∀ s c sig, parse_content s = Some c →
    parse_content (serialize_content (with_pro_sig sig c)) = Some (with_pro_sig sig c);
  shared_again : ∀ kind seqno data, 1 ≤ kind ≤ 4 → in_int64 seqno = true →
    let c := mkContent (Some (mkShared kind seqno data)) None None None "" in parse_content (serialize_content c) = Some c;
  envelope_again : ∀ e, envelope_ok e = true → parse_envelope (serialize_envelope e) = Some e;
  envelope_nonempty : ∀ e, envelope_ok e = true → serialize_envelope e ≠ "";
  ws_again : ∀ w, ws_ok w = true → parse_ws (serialize_ws w) = Some w;
}.

(** ** Padding *)
Lemma pad_zeros n : 1 ≤ MSG_PADDING - n mod MSG_PADDING ≤ 160.
Proof. unfold MSG_PADDING. pose proof (Z.mod_pos_bound n 160 ltac:(lia)). lia. Qed.

Lemma pad_form s : ∃ n, pad_message s = s +:+ String PADDING_TERMINATING_BYTE (zeros n) ∧ (size s + 1 + Z.of_nat n) mod 160 = 0 ∧ (1 ≤ n ≤ 160)%nat.
Proof.
  unfold pad_message, to_uint8. pose proof (pad_zeros (size s + 1)) as Hb. rewrite Z.mod_small by lia.
  eexists. split; [reflexivity|]. unfold MSG_PADDING in *. split; [|lia]. rewrite Z2Nat.id by lia.
  rewrite (Z.div_mod (size s + 1) 160) at 1 by lia.
  replace (160 * ((size s + 1) / 160) + (size s + 1) mod 160 + (160 - (size s + 1) mod 160)) with (((size s + 1) / 160 + 1) * 160) by lia.
  apply Z.mod_mul. lia.
Qed.

Lemma get_zeros n i : (i < n)%nat → String.get i (zeros n) = Some "000"%char.
Proof. revert i; induction n as [|n IH]; intros [|i] Hi; [lia..|done|]. cbn. apply IH. lia. Qed.

Lemma unpad_zeros s m n :
  (m ≤ n)%nat → unpad_loop (s +:+ String PADDING_TERMINATING_BYTE (zeros n)) (String.length s + 1 + m) = String.length s.
Proof.
  induction m as [|m IH]; intros Hm.
  - rewrite Nat.add_0_r, Nat.add_1_r. cbn [unpad_loop]. rewrite get_app, Nat.ltb_irrefl, Nat.sub_diag. done.
  - rewrite Nat.add_succ_r. cbn [unpad_loop]. rewrite get_app. destruct (Nat.ltb_spec (String.length s + 1 + m) (String.length s)); [lia|].
    replace (String.length s + 1 + m - String.length s)%nat with (S m) by lia. cbn [String.get]. rewrite get_zeros by lia. cbn. apply IH. lia.
Qed.

(** Padding is undone, whatever the message ends with; padded messages are
    multiples of 160 bytes, of which at least two are padding. *)
Lemma unpad_pad s : unpad_message (pad_message s) = s ∧ size (pad_message s) mod 160 = 0 ∧ size s + 2 ≤ size (pad_message s) ≤ size s + 161.
Proof.
  destruct (pad_form s) as (n & -> & Hmod & Hn).
  assert (size (s +:+ String PADDING_TERMINATING_BYTE (zeros n)) = size s + 1 + Z.of_nat n) as Hs.
  { rewrite size_app. change (String PADDING_TERMINATING_BYTE (zeros n)) with (String PADDING_TERMINATING_BYTE "" +:+ zeros n).
    rewrite size_app, zeros_size. change (size (String PADDING_TERMINATING_BYTE "")) with 1. lia. }
  rewrite Hs. split_and!; [|done|lia..]. unfold unpad_message.
  assert (String.length (s +:+ String PADDING_TERMINATING_BYTE (zeros n)) = (String.length s + 1 + n)%nat) as ->.
  { unfold size in Hs. lia. }
  rewrite unpad_zeros by done. apply stake_app.
Qed.

Lemma to_int64_id z : 0 ≤ z < 2 ^ 63 → to_int64 z = z.
Proof. intros Hz. unfold to_int64. rewrite Z.mod_small; lia. Qed.

Section delivery.
Context `{BtLaws, HashLaws, AeadLaws, ZstdLaws, X25519Laws, Ed25519, SeedKeypair, !SeedKeypairLaws, !KeypairLaws, Box, !BoxLaws, SecretBox, OxencLaws}.
Context `{Ed25519Core, Fe25519, Protobuf, !ProtobufLaws, PersonalHash}.
Context (rnd_box dummy_seed garbage : bytes) (rnd : Z → bytes).

(** ** The Pro subscription

    [pro]: the seed of the sender's rotating key, if there is one; [given]: how
    it is passed *)
Definition pro_given (pro given : option bytes) : Prop :=
  match pro, given with
  | Some seed, Some key => size seed = 32 ∧ privkey_of seed key
  | None, None => True
  | _, _ => False
  end.

(** A Pro message in the content has a well-formed proof for the key that
    signs, and a time at which it counts. *)
Definition pro_fits (pro : option bytes) (c : Content) : Prop :=
  match ct_proMessage c with
  | None => True
  | Some m => ∃ seed p, pro = Some seed ∧ read_proof m = Ok p ∧ proof_rotating_pubkey p = (seed_keypair seed).1 ∧
      default 0 (ct_sigTimestamp c) ≠ 0
  end.

(** What the recipient is told: the backend's signature decides, and the time *)
Definition standing (backend : bytes) (unix_ts : Z) (p : ProProof) : ProStatus :=
  if verify_detached backend (proof_hash p) (proof_sig p) then if unix_ts <=? proof_expiry_unix_ts p then Valid else Expired
  else InvalidProBackendSig.
Definition pro_shown (backend : bytes) (unix_ts : Z) (c : Content) : option DecodedPro :=
  match ct_proMessage c with
  | None => None
  | Some m =>
      match read_proof m with
      | Ok p => Some (mkDecodedPro (standing backend unix_ts p) p (default 0 (pm_msgBitset m)) (default 0 (pm_profileBitset m)))
      | Throw _ => None
      end
  end.

Lemma status_run backend ts sig msg p :
  size backend = 32 → size sig = 64 → verify_detached (proof_rotating_pubkey p) msg sig = true →
  proof_status backend ts (Some (sig, msg)) p = Ok (standing backend ts p).
Proof.
  intros Hb Hs Hv. unfold proof_status, verify_signature, verify_message, standing, is_active. rewrite Hb, Hs, Hv.
  cbn [Z.eqb Pos.eqb require]. rewrite !bind_ret. destruct (verify_detached backend _ _); cbn; by destruct (_ <=? _).
Qed.

(** The key that signs, and what it makes of a content *)
Lemma pro_key_run pro given :
  pro_given pro given → ∃ sk, pro_privkey (default "" given) = Ok sk ∧
    match pro with Some seed => sk = (seed_keypair seed).2 ∧ size sk = 64 ∧ size seed = 32 | None => sk = "" end.
Proof.
  intros Hp. destruct pro as [seed|], given as [key|]; try done; [|by eexists].
  destruct Hp as [Hs Hk]. destruct (seed_keypair_form seed) as [Hpk Hsk].
  assert (size (seed_keypair seed).2 = 64) as H64 by (rewrite Hsk, size_app, Hs, Hpk; done).
  exists (seed_keypair seed).2. split; [|done]. unfold pro_privkey. cbn [from_option id].
  destruct Hk as [-> | ->]; [by rewrite Hs|by rewrite H64].
Qed.

Lemma signature_run pro given sk content :
  size dummy_seed = 32 → pro_given pro given → pro_privkey (default "" given) = Ok sk →
  size (pro_signature dummy_seed sk content) = 64 ∧
  ∀ seed, pro = Some seed → verify_detached (seed_keypair seed).1 content (pro_signature dummy_seed sk content) = true.
Proof.
  intros Hd Hp Hk. destruct (pro_key_run pro given Hp) as (sk' & Hk' & Hsk). rewrite Hk in Hk'. injection Hk' as <-.
  unfold pro_signature. destruct pro as [seed|].
  - destruct Hsk as (-> & H64 & Hs). rewrite H64. cbn [Z.eqb Pos.eqb].
    destruct (keypair_sign seed content Hs) as (sig & -> & Hsz & Hv). split; [done|]. by intros ? [= <-].
  - subst sk. change (size "" =? 0) with true. cbv iota. destruct (keypair_sign dummy_seed content Hd) as (sig & -> & Hsz & _). done.
Qed.

(** ** Users and groups *)

(** Reading an envelope that was made for sending, once payload and content are
    opened *)
Lemma decode_run keys payload backend type ts pro given sk content plain ed x x0 c :
  size dummy_seed = 32 → size backend = 32 → type = BCHAT_MESSAGE ∨ type = CLOSED_GROUP_MESSAGE → 0 ≤ ts < 2 ^ 63 →
  pro_given pro given → pro_privkey (default "" given) = Ok sk →
  open_payload keys payload = Ok (serialize_envelope (new_envelope dummy_seed type ts sk content), x0) →
  open_content keys content x0 = Ok (plain, ed, x) → parse_content plain = Some c → pro_fits pro c →
  ∃ e, decode_envelope keys payload backend =
      Ok (mkDecodedEnvelope e plain ed x (pro_shown backend (to_int64 (default 0 (ct_sigTimestamp c))) c)) ∧
    env_timestamp e = ts ∧ env_source_device e = 1 ∧ bitset_is_set 3 (env_flags e) = is_some (ct_proMessage c).
Proof.
  intros Hd Hb Ht Hts Hp Hk Hopen Hcont Hc Hfit. unfold decode_envelope. rewrite Hopen, bind_ret.
  destruct (signature_run pro given sk content Hd Hp Hk) as [Hsz Hver].
  rewrite envelope_again.
  2:{ unfold envelope_ok, new_envelope. cbn [pe_type pe_timestamp pe_serverTimestamp pe_sourceDevice is_some opt_all].
      rewrite wrap64_small by lia. unfold in_uint64. destruct (Z.leb_spec 0 ts), (Z.ltb_spec ts (2 ^ 64)); try lia. by destruct Ht as [-> | ->]. }
  cbn [from_option_or]. rewrite bind_ret. unfold new_envelope.
  cbn [pe_timestamp pe_source pe_sourceDevice pe_serverTimestamp pe_content pe_proSig read_source from_option_or].
  rewrite !bind_ret, Hcont, bind_ret, Hc. cbn [from_option_or]. rewrite bind_ret, Hsz. cbn [Z.eqb Pos.eqb require]. rewrite bind_ret.
  rewrite wrap64_small by lia. unfold pro_fits in Hfit. unfold pro_shown. destruct (ct_proMessage c) as [m|].
  - destruct Hfit as (seed & p & -> & Hr & Hrot & Hnz). rewrite bind_req by (apply negb_true_iff, Z.eqb_neq; done).
    unfold decoded_pro. rewrite Hr, bind_ret, (status_run backend) by (done || (rewrite Hrot; by apply Hver)). rewrite !bind_ret.
    eexists. split; [reflexivity|]. split; [by apply to_int64_id|done].
  - eexists. split; [reflexivity|]. split; [by apply to_int64_id|done].
Qed.

(** C18 (messages to users).  A content sent to a user, with or without a Pro key,
    is decoded by the user as what was sent, by whom and when, with the
    standing of the subscription it shows. *)
Theorem user_delivery seed key rseed rkey more pro given plaintext c ts backend :
  size dummy_seed = 32 → size backend = 32 → size seed = 32 → privkey_of seed key → size rseed = 32 → privkey_of rseed rkey →
  0 ≤ ts < 2 ^ 63 → pro_given pro given → parse_content plaintext = Some c → pro_fits pro c →
  ∃ payload e, encode_for_1o1 rnd_box dummy_seed garbage rnd plaintext key ts (String "005" (x_public rseed)) given = Ok payload ∧
    decode_envelope (mkDecodeKey None (rkey :: more)) payload backend =
      Ok (mkDecodedEnvelope e plaintext (seed_keypair seed).1 (x_public seed)
            (pro_shown backend (to_int64 (default 0 (ct_sigTimestamp c))) c)) ∧
    env_timestamp e = ts ∧ env_source_device e = 1 ∧ bitset_is_set 3 (env_flags e) = is_some (ct_proMessage c).
Proof.
  intros Hd Hb Hs Hk Hr Hrk Hts Hp Hc Hfit. destruct (pro_key_run pro given Hp) as (sk & Hsk & _).
  destruct (encrypt_run rnd_box seed key rseed rkey (String "005" (x_public rseed)) (pad_message plaintext)) as (ct & Hct & _ & Hdec & _); [done..|by right|].
  unfold encode_for_1o1, encode_for_destination. cbn [dst_pro_rotating_ed25519_privkey dst_type dst_recipient_pubkey dst_sent_timestamp_ms].
  rewrite Hsk, bind_ret, Hct, bind_ret. eexists.
  set (w := mkWs _ _).
  edestruct (decode_run (mkDecodeKey None (rkey :: more)) (serialize_ws w) backend BCHAT_MESSAGE ts pro given sk ct plaintext) as (e & He & Hrest);
    [done..|by left|done|done|exact Hsk| | |exact Hc|exact Hfit|].
  - unfold open_payload. cbn [dk_group_ed25519_pubkey]. rewrite ws_again by done. done.
  - unfold open_content. cbn [dk_group_ed25519_pubkey dk_decrypt_keys try_incoming]. rewrite Hdec. cbn [from_option_or]. rewrite bind_ret.
    rewrite keypair_x by done. cbn [from_option_or]. rewrite bind_ret. destruct (unpad_pad plaintext) as [-> _]. reflexivity.
  - exists e. split; [reflexivity|]. split; [exact He|exact Hrest].
Qed.

(** C19 (messages to groups).  A content sent to a group is decoded by every
    member with the group's key as what was sent, by whom and when, with the
    standing of the subscription it shows. *)
Theorem group_delivery seed key gpk gkey more pro given plaintext c ts backend sk :
  size dummy_seed = 32 → size backend = 32 → size seed = 32 → privkey_of seed key → size gpk = 32 → size gkey = 32 → nonces_ok rnd →
  Forall (λ k, size k = 32 ∨ size k = 64) more →
  0 ≤ ts < 2 ^ 63 → pro_given pro given → pro_privkey (default "" given) = Ok sk → parse_content plaintext = Some c → pro_fits pro c →
  (let s := serialize_envelope (new_envelope dummy_seed CLOSED_GROUP_MESSAGE ts sk plaintext) in
   size s ≤ GROUPS_MAX_PLAINTEXT_MESSAGE_SIZE ∧ compressible s true) →
  ∃ payload e, encode_for_group rnd_box dummy_seed garbage rnd plaintext key ts (String "003" gpk) gkey given = Ok payload ∧
    size payload mod 256 = 0 ∧
    decode_envelope (mkDecodeKey (Some gpk) (gkey :: more)) payload backend =
      Ok (mkDecodedEnvelope e plaintext (zeros 32) (x_public seed)
            (pro_shown backend (to_int64 (default 0 (ct_sigTimestamp c))) c)) ∧
    env_timestamp e = ts ∧ env_source_device e = 1 ∧ bitset_is_set 3 (env_flags e) = is_some (ct_proMessage c).
Proof.
  intros Hd Hb Hs Hk Hg Hgk Hn Hmore Hts Hp Hsk Hc Hfit [Hmax Hz].
  set (env := new_envelope dummy_seed CLOSED_GROUP_MESSAGE ts sk plaintext) in *.
  assert (envelope_ok env = true) as Hok.
  { unfold envelope_ok, env, new_envelope. cbn [pe_type pe_timestamp pe_serverTimestamp pe_sourceDevice is_some opt_all].
    rewrite wrap64_small by lia. unfold in_uint64. by destruct (Z.leb_spec 0 ts), (Z.ltb_spec ts (2 ^ 64)); try lia. }
  destruct (group_message_roundtrip garbage rnd seed key gpk gkey (serialize_envelope env) true 256 (gkey :: more) 0)
    as (payload & Hpay & Hpad & Hdec); [done..|by apply envelope_nonempty|done|done|constructor; [by left|done]|].
  unfold encode_for_group, encode_for_destination.
  cbn [dst_pro_rotating_ed25519_privkey dst_type dst_group_ed25519_pubkey dst_sent_timestamp_ms dst_group_enc_key].
  rewrite Hsk, bind_ret, bind_req by done.
  assert (size (String "003" gpk) =? 33 = true) as -> by (apply Z.eqb_eq; unfold size in *; cbn [String.length]; lia).
  change (sdrop 1 (String "003" gpk)) with gpk. fold env. rewrite Hpay. exists payload.
  edestruct (decode_run (mkDecodeKey (Some gpk) (gkey :: more)) payload backend CLOSED_GROUP_MESSAGE ts pro given sk plaintext plaintext (zeros 32) (x_public seed))
    as (e & He & Hrest); [done..|by right|done|done|done| | |exact Hc|exact Hfit|].
  - unfold open_payload. cbn [dk_group_ed25519_pubkey dk_decrypt_keys]. rewrite Hdec by lia. rewrite bind_ret. cbn [dg_bchat_id dg_plaintext].
    rewrite to_hex_digits. pose proof (x_public_size seed) as Hx.
    assert (size ("05" +:+ hex_digits (x_public seed)) =? 66 = true) as ->.
    { apply Z.eqb_eq. rewrite size_app, hex_digits_size, Hx. done. }
    cbn [require]. rewrite bind_ret. change (sdrop 2 ("05" +:+ ?h)) with h. rewrite from_hex_digits. reflexivity.
  - reflexivity.
  - exists e. split; [done|]. split; [by apply Hpad|]. split; [exact He|exact Hrest].
Qed.

(** ** Communities *)

(** C20 (community messages).  A content sent to a community is padded, by 2 to
    161 bytes, to a multiple of 160, with the signature of the Pro key over the
    padded content added to it if there is one; everyone reads it as what was sent.  If there is a Pro key, the content that the client passes is assumed to be
    byte for byte what protobuf serializes it as; then the subscription is shown to
    be valid or expired at the time of reading.  To a user of a community the
    same bytes are sent, encrypted for the blinded id. *)
Theorem community_delivery pro given plaintext c now backend :
  size backend = 32 → pro_given pro given → parse_content plaintext = Some c →
  ct_proSigForCommunityMessageOnly c = None → (is_some pro = true → plaintext = serialize_content c ∧ pro_fits pro c) →
  ∃ payload sig plain, encode_for_community rnd_box dummy_seed garbage rnd plaintext given = Ok payload ∧
    match pro, sig with
    | Some seed, Some sig => verify_detached (seed_keypair seed).1 (pad_message plaintext) sig = true
    | None, None => plain = plaintext
    | _, _ => False
    end ∧
    parse_content plain = Some (with_pro_sig sig c) ∧
    unpad_message payload = plain ∧ size payload mod 160 = 0 ∧ size plain + 2 ≤ size payload ≤ size plain + 161 ∧
    (∀ key ts recipient server, encode_for_community_inbox rnd_box dummy_seed garbage rnd plaintext key ts recipient server given =
       encrypt_for_blinded_recipient rnd key server recipient payload) ∧
    (parse_envelope payload = None →
     decode_for_community payload now backend =
       Ok (mkDecodedCommunity None plain sig (if is_some pro then pro_shown backend now c else None))).
Proof.
  intros Hb Hp Hc Hnone Hpro. destruct (pro_key_run pro given Hp) as (sk & Hsk & Hform).
  assert (with_pro_sig None c = c) as Hclear by (destruct c; cbn in *; by subst).
  unfold encode_for_community, encode_for_community_inbox, encode_for_destination.
  cbn [dst_pro_rotating_ed25519_privkey dst_type dst_community_inbox_server_pubkey dst_recipient_pubkey].
  setoid_rewrite Hsk. setoid_rewrite bind_ret. unfold community_content. destruct pro as [seed|].
  - destruct Hform as (-> & H64 & Hs). destruct (Hpro eq_refl) as [Hcanon Hfit].
    destruct (keypair_sign seed (pad_message plaintext) Hs) as (sig & Hsig & Hsz & Hv).
    rewrite H64. cbn [Z.eqb Pos.eqb]. rewrite Hc. cbn [from_option_or]. rewrite bind_ret, Hnone, Hsig. cbn [is_some negb require from_option id]. rewrite !bind_ret.
    set (s := serialize_content (with_pro_sig (Some sig) c)). destruct (unpad_pad s) as (Hunpad & Hmod & Hbound).
    pose proof (content_again plaintext c (Some sig) Hc) as Hs'. fold s in Hs'.
    exists (pad_message s), (Some sig), s. split_and!; [done|exact Hv|exact Hs'|exact Hunpad|exact Hmod|apply Hbound|apply Hbound|done|]. intros Henv.
    unfold decode_for_community. rewrite Henv, bind_ret, Hunpad, Hs'. cbn [from_option_or]. rewrite bind_ret.
    change (ct_proSigForCommunityMessageOnly (with_pro_sig (Some sig) c)) with (Some sig). cbn [is_some negb require]. rewrite !bind_ret, Hsz. cbn [Z.eqb Pos.eqb require]. rewrite bind_ret. cbn [ct_proMessage].
    change (ct_proMessage (with_pro_sig (Some sig) c)) with (ct_proMessage c).
    unfold pro_shown. unfold pro_fits in Hfit. destruct (ct_proMessage c) as [m|]; [|done].
    destruct Hfit as (seed' & p & [= <-] & Hr & Hrot & _). unfold decoded_pro. rewrite Hr, bind_ret. cbn [fmap option_fmap option_map].
    change (with_pro_sig None (with_pro_sig (Some sig) c)) with (with_pro_sig None c). rewrite Hclear, <-Hcanon.
    by rewrite (status_run backend) by (done || by rewrite Hrot).
  - subst sk. change (size "" =? 0) with true. cbv iota. destruct (unpad_pad plaintext) as (Hunpad & Hmod & Hbound).
    exists (pad_message plaintext), None, plaintext. rewrite Hclear. split_and!; [done|done|exact Hc|exact Hunpad|exact Hmod|apply Hbound|apply Hbound|done|].
    intros Henv. unfold decode_for_community. rewrite Henv, bind_ret, Hunpad, Hc. cbn [from_option_or]. by rewrite bind_ret, Hnone.
Qed.

(** ** What is accepted is signed *)
Lemma status_valid backend ts sig msg p :
  proof_status backend ts (Some (sig, msg)) p = Ok Valid →
  verify_detached backend (proof_hash p) (proof_sig p) = true ∧ verify_detached (proof_rotating_pubkey p) msg sig = true ∧
  ts ≤ proof_expiry_unix_ts p.
Proof.
  unfold proof_status, verify_signature, verify_message, is_active. intros Hst. inv_result.
  destruct (verify_detached backend _ _); cbn beta iota in *.
  - rewrite decide_True in E0 by done. inv_result. destruct (verify_detached (proof_rotating_pubkey p) _ _).
    + rewrite decide_True in Hst by done. destruct (Z.leb_spec ts (proof_expiry_unix_ts p)); done.
    + by rewrite decide_False in Hst.
  - rewrite decide_False in E0 by done. inv_result. by rewrite decide_False in Hst.
Qed.

(** A sealed content of the sender [ed], opened with one of the keys *)
Definition sealed_by (keys : list bytes) (ed content msg : bytes) : Prop :=
  ∃ key sk sig, key ∈ keys ∧ full_privkey key = Ok sk ∧
    let x := sk_to_curve25519 sk in
    box_seal_open content (x25519_public x) x = Some (msg +:+ ed +:+ sig) ∧
    verify_detached ed (msg +:+ ed +:+ x25519_public x) sig = true.

Lemma try_incoming_sealed keys content msg ed :
  try_incoming keys content = Some (msg, ed) → sealed_by keys ed content msg.
Proof.
  induction keys as [|key keys IH]; [done|]. cbn [try_incoming]. destruct (decrypt_incoming key content) as [r|e] eqn:E.
  - intros [= ->]. unfold decrypt_incoming in E. inv_result.
    match goal with Hi : decrypt_incoming_x _ _ _ = _ |- _ => apply incoming_authentic in Hi as (sig & Ho & _ & _ & Hv) end.
    exists key. eexists _, sig. split_and!; [by left|done|split; [exact Ho|exact Hv]].
  - intros Hr. destruct (IH Hr) as (k & sk & sig & Hk & Hrest). exists k, sk, sig. split; [by right|done].
Qed.

(** What has been read of a dictionary is in it. *)
Lemma skip_until_sub (d : bt_dict) key d' found :
  skip_until d key = (d', found) → (∀ p, p ∈ d' → p ∈ d) ∧ (found = true → ∃ w r, d' = (key, w) :: r).
Proof.
  induction d as [|[k w] d IH]; cbn [skip_until]; [intros [= <- <-]; naive_solver|]. destruct (klt k key).
  - intros E. destruct (IH E) as [Hsub Hhd]. split; [intros p Hp; right; auto|done].
  - intros [= <- <-]. split; [done|]. intros ->%keqb_spec. eauto.
Qed.

Lemma take_key_in (d : bt_dict) key v rest : take_key d key = (Some v, rest) → (key, v) ∈ d ∧ ∀ p, p ∈ rest → p ∈ d.
Proof.
  unfold take_key. destruct (skip_until d key) as [d' found] eqn:E. apply skip_until_sub in E as [Hsub Hhd]. intros Ht.
  destruct found; [|by destruct d' as [|[]]].
  destruct (Hhd eq_refl) as (w & r & ->). injection Ht as -> ->. split; [apply Hsub; left|]. intros p Hp. apply Hsub. by right.
Qed.

Lemma take_key_sub (d : bt_dict) key o rest p : take_key d key = (o, rest) → p ∈ rest → p ∈ d.
Proof.
  destruct o as [v|]; [intros Ht; apply (take_key_in _ _ _ _ Ht)|]. unfold take_key.
  destruct (skip_until d key) as [d' found] eqn:E. apply skip_until_sub in E as [Hsub _]. intros Ht Hp. apply Hsub.
  destruct d' as [|[? ?] ?], found; simplify_eq; exact Hp.
Qed.

Lemma need_str_in (d : bt_dict) key s rest : need_str d key = Ok (s, rest) → (key, BtStr s) ∈ d ∧ ∀ p, p ∈ rest → p ∈ d.
Proof.
  unfold need_str. destruct (take_key d key) as [[v|] r] eqn:E; [|done]. apply take_key_in in E as [Hin Hsub].
  intros Hr. inv_result. destruct v; cbn [bt_str] in *; simplify_eq. by split.
Qed.

Lemma data_str_in (d : bt_dict) key s rest :
  data_str d key = Ok (s, rest) → (s = "" ∨ (key, BtStr s) ∈ d) ∧ ∀ p, p ∈ rest → p ∈ d.
Proof.
  unfold data_str. destruct (take_key d key) as [[v|] r] eqn:E.
  - apply take_key_in in E as [Hin Hsub]. intros Hr. inv_result. destruct v; cbn [bt_str] in *; simplify_eq. split; [by right|done].
  - intros [= <- <-]. split; [by left|]. intros p. by apply (take_key_sub _ _ _ _ _ E).
Qed.

Lemma try_keys_in keys i nonce c j plain :
  try_keys keys i nonce c = Ok (Some (j, plain)) → ∃ key, key ∈ keys ∧ aead_decrypt (stake 32 key) nonce c = Some plain.
Proof.
  revert i; induction keys as [|key keys IH]; intros i; cbn [try_keys]; [done|]. intros Hr. inv_result.
  destruct (aead_decrypt _ _ _) as [plain'|] eqn:Ed.
  - injection Hr as _ ->. exists key. split; [left|done].
  - destruct (IH _ Hr) as (k & Hk & Hd). exists k. split; [by right|done].
Qed.

(** What arrived, [payload], opens with one of the group's keys to a dictionary
    whose author, the member with X25519 key [x], signed its data together with
    the group's key; [env] is that data, decompressed if it came compressed. *)
Definition signed_envelope (keys : list bytes) (gpk payload env x : bytes) : Prop :=
  ∃ key plain d ed raw sig,
    key ∈ keys ∧ aead_decrypt (stake 32 key) (stake 24 payload) (sdrop 24 payload) = Some plain ∧
    bt_load (strip_nulls plain) = Ok d ∧ ("a", BtStr ed) ∈ d ∧ ("s", BtStr sig) ∈ d ∧
    verify_detached ed (raw +:+ gpk) sig = true ∧ pk_to_curve25519 ed = Some x ∧
    ((("d", BtStr raw) ∈ d ∧ env = raw) ∨
     (("z", BtStr raw) ∈ d ∧ zstd_decompress raw GROUPS_MAX_PLAINTEXT_MESSAGE_SIZE = Some env)).

Lemma group_read_signed gpk plain id data :
  read_group_dict gpk plain = Ok (id, data) →
  ∃ x d ed raw sig, id = "05" +:+ to_hex x ∧ bt_load plain = Ok d ∧ ("a", BtStr ed) ∈ d ∧ ("s", BtStr sig) ∈ d ∧
    verify_detached ed (raw +:+ gpk) sig = true ∧ pk_to_curve25519 ed = Some x ∧
    ((("d", BtStr raw) ∈ d ∧ data = raw) ∨
     (("z", BtStr raw) ∈ d ∧ zstd_decompress raw GROUPS_MAX_PLAINTEXT_MESSAGE_SIZE = Some data)).
Proof.
  unfold read_group_dict. intros Hr. inv_result. destruct (take_key _ "") as [[v|] d1] eqn:Ev; [|done].
  apply take_key_in in Ev as [_ Hs1].
  repeat (inv_result; match goal with Hr : (let '(_, _) := ?p in _) = Ok _ |- _ => destruct p eqn:? end); inv_result.
  repeat match goal with
  | Hr : need_str _ _ = Ok _ |- _ => apply need_str_in in Hr as [? ?]
  | Hr : data_str _ _ = Ok _ |- _ => apply data_str_in in Hr as [? ?]
  end.
  match goal with Hx : from_option_or _ (pk_to_curve25519 ?ed) = Ok ?x |- _ =>
    exists x; destruct (pk_to_curve25519 ed) as [x'|] eqn:Hpk; [injection Hx as ->|done] end.
  match goal with Hz : take_key _ "z" = (?o, _) |- _ => rename Hz into Ez; destruct o as [v'|]; [apply take_key_in in Ez as [Hz _]|clear Ez] end; inv_result.
  - destruct v'; cbn [bt_str] in *; simplify_eq. destruct (zstd_decompress _ _) eqn:Hz; [|done]. cbn [from_option_or] in *. simplify_eq.
    do 4 eexists. split_and!; [done|eassumption|eauto 8..|eassumption|eassumption|right; eauto 8].
  - match goal with Hd : ?s = "" ∨ _ |- _ => destruct Hd as [->|Hd]; [done|] end.
    do 4 eexists. split_and!; [done|eassumption|eauto 8..|eassumption|eassumption|left; eauto 8].
Qed.

Lemma group_opened keys gpk payload m :
  decrypt_group_message keys gpk payload = Ok m → ∃ x, dg_bchat_id m = "05" +:+ to_hex x ∧ signed_envelope keys gpk payload (dg_plaintext m) x.
Proof.
  unfold decrypt_group_message. intros Hm. inv_result. destruct a1 as [[j plain]|]; [|done].
  match goal with Ht : try_keys _ _ _ _ = _ |- _ => apply try_keys_in in Ht as (key & Hk & Hd) end. cbn [from_option_or] in *. inv_pairs.
  match goal with Hr : read_group_dict _ _ = _ |- _ => apply group_read_signed in Hr as (x & d & ed & raw & sig & -> & Hrest) end.
  exists x. split; [done|]. exists key. exists plain, d, ed, raw, sig. split; [done|]. split; [exact Hd|exact Hrest].
Qed.

Lemma opened_signed keys payload env content x0 plain ed x :
  open_payload keys payload = Ok (env, x0) → open_content keys content x0 = Ok (plain, ed, x) →
  match dk_group_ed25519_pubkey keys with
  | None => (∃ ws request, parse_ws payload = Some ws ∧ ws_request ws = Some request ∧ rq_body request = Some env) ∧
      ∃ msg, sealed_by (dk_decrypt_keys keys) ed content msg ∧ plain = unpad_message msg ∧ pk_to_curve25519 ed = Some x
  | Some gpk => signed_envelope (dk_decrypt_keys keys) gpk payload env x ∧ content = plain
  end.
Proof.
  unfold open_payload, open_content. destruct (dk_group_ed25519_pubkey keys) as [gpk|]; intros Ho Hc; inv_pairs.
  - simplify_eq. split; [|done]. match goal with Hm : decrypt_group_message _ _ _ = _ |- _ => apply group_opened in Hm as (x & -> & Hsig) end.
    change ("05" +:+ to_hex x) with (String "0" (String "5" (to_hex x))). cbv iota. change (sdrop 2 (String "0" (String "5" ?h))) with h. by rewrite to_hex_digits, from_hex_digits.
  - split.
    + destruct (parse_ws payload) as [ws|]; [|done]. cbn [from_option_or] in *. inv_result.
      destruct (ws_request _) as [rq|] eqn:Hrq; [|done]. cbn [from_option_or] in *. inv_result.
      destruct (rq_body _) eqn:Hbody; [|done]. cbn [from_option_or] in *. inv_result. eauto 6.
    + destruct (try_incoming _ _) as [[msg ed']|] eqn:Ht; [|done]. apply try_incoming_sealed in Ht.
      destruct (pk_to_curve25519 ed) eqn:Hx; [|done]. cbn [from_option_or] in *. inv_result. simplify_eq. eauto.
Qed.

(** C17 (accepted messages are signed).  Whatever arrives, if it is decoded then an
    envelope was found in it.  For a user, the envelope's content was sealed
    for one of the keys together with the sender's signature over what is
    returned, the recipient's key and the sender's.  For a group, the bytes of
    the envelope are the data, or the compressed data, of a dictionary
    encrypted with one of the group's keys, and the member who is returned as
    the sender signed these data with the group's key; the content is the
    envelope's.  A subscription is shown as valid only if the backend signed
    the proof, the key in the proof made the envelope's signature over the
    envelope's content as it arrived, and the proof had not expired when the
    content was made. *)
Theorem decoded_authentic keys payload backend d :
  decode_envelope keys payload backend = Ok d →
  ∃ env envelope content c,
    parse_envelope env = Some envelope ∧ pe_content envelope = Some content ∧ parse_content (de_content_plaintext d) = Some c ∧
    match dk_group_ed25519_pubkey keys with
    | None => (∃ ws request, parse_ws payload = Some ws ∧ ws_request ws = Some request ∧ rq_body request = Some env) ∧
        ∃ msg, sealed_by (dk_decrypt_keys keys) (de_sender_ed25519_pubkey d) content msg ∧
        de_content_plaintext d = unpad_message msg ∧
        pk_to_curve25519 (de_sender_ed25519_pubkey d) = Some (de_sender_x25519_pubkey d)
    | Some gpk => signed_envelope (dk_decrypt_keys keys) gpk payload env (de_sender_x25519_pubkey d) ∧ content = de_content_plaintext d
    end ∧
    ∀ p, de_pro d = Some p → dp_status p = Valid →
      pe_proSig envelope = Some (env_pro_sig (de_envelope d)) ∧
      verify_detached backend (proof_hash (dp_proof p)) (proof_sig (dp_proof p)) = true ∧
      verify_detached (proof_rotating_pubkey (dp_proof p)) content (env_pro_sig (de_envelope d)) = true ∧
      to_int64 (default 0 (ct_sigTimestamp c)) ≤ proof_expiry_unix_ts (dp_proof p).
Proof.
  unfold decode_envelope. intros Hd. inv_pairs.
  match goal with Hp : open_payload _ _ = Ok (?env, _), He : from_option_or _ (parse_envelope ?env) = Ok ?e,
                  Hc : from_option_or _ (pe_content ?e) = Ok ?content, Ho : open_content _ ?content _ = Ok (?plain, _, _),
                  Hcont : from_option_or _ (parse_content ?plain) = Ok ?c |- _ =>
    pose proof (opened_signed _ _ _ _ _ _ _ _ Hp Ho) as Hsigned; exists env, e, content, c;
    destruct (parse_envelope env) as [e'|] eqn:Henv; [|done]; injection He as ->;
    destruct (pe_content e) as [content'|] eqn:Hce; [|done]; injection Hc as ->;
    destruct (parse_content plain) as [c'|] eqn:Hpc; [|done]; injection Hcont as ->
  end.
  destruct (pe_proSig _) as [sig|] eqn:Hps; inv_result; [|by split_and!].
  destruct (ct_proMessage _) as [m|]; inv_result; [|by split_and!]. cbn. split_and!; [done..|]. intros p [= <-] Hst.
  unfold decoded_pro in *. inv_result. cbn in Hst |- *. subst. split; [done|]. by apply status_valid.
Qed.
End delivery.

(** ** A concrete protobuf

    Fields are written one after the other: numbers in binary up to a dot,
    strings after their length, optional fields after a mark. *)
Class Codec (A : Type) := {
  put : A → bytes;
  get : bytes → option (A * bytes);
  get_put : ∀ a rest, get (put a +:+ rest) = Some (a, rest);
}.

Fixpoint write_binary (p : positive) : bytes :=
  match p with xH => "." | xO p => String "0" (write_binary p) | xI p => String "1" (write_binary p) end.
Fixpoint read_binary (s : bytes) : option (positive * bytes) :=
  match s with
  | "" => None
  | String c s =>
      if Ascii.eqb c "." then Some (xH, s)
      else if Ascii.eqb c "0" then '(p, r) ← read_binary s; Some (xO p, r)
      else if Ascii.eqb c "1" then '(p, r) ← read_binary s; Some (xI p, r) else None
  end.
Lemma read_write_binary p rest : read_binary (write_binary p +:+ rest) = Some (p, rest).
Proof. induction p as [p IH|p IH|]; cbn; [by rewrite IH..|done]. Qed.

#[global] Instance number_codec {A} `{Countable A} : Codec A | 10.
Proof.
  refine {| put a := write_binary (countable.encode a);
            get s := '(p, r) ← read_binary s; a ← countable.decode p; Some (a, r) |}.
  intros a rest. rewrite read_write_binary. cbn. by rewrite decode_encode.
Defined.
#[global] Instance bytes_codec : Codec bytes.
Proof.
  refine {| put s := put (String.length s) +:+ s;
            get s := '(n, r) ← get (A:=nat) s; Some (stake n r, sdrop n r) |}.
  intros s rest. rewrite append_assoc, get_put. cbn. by rewrite stake_app, sdrop_app.
Defined.
#[global] Instance option_codec {A} `{Codec A} : Codec (option A).
Proof.
  refine {| put o := match o with None => "-" | Some a => "+" +:+ put a end;
            get s := match s with
                     | String c r => if Ascii.eqb c "-" then Some (None, r) else '(a, r) ← get r; Some (Some a, r)
                     | "" => None
                     end |}.
  intros [a|] rest; cbn; [by rewrite get_put|done].
Defined.
#[global] Instance pair_codec {A B} `{Codec A, Codec B} : Codec (A * B).
Proof.
  refine {| put p := put p.1 +:+ put p.2;
            get s := '(a, r) ← get s; '(b, r) ← get r; Some ((a, b), r) |}.
  intros [a b] rest. cbn. rewrite append_assoc, get_put. cbn. by rewrite get_put.
Defined.
Definition iso_codec {A B} `{Codec B} (f : A → B) (g : B → A) (gf : ∀ a, g (f a) = a) : Codec A.
Proof.
  refine {| put a := put (f a); get s := '(b, r) ← get s; Some (g b, r) |}.
  intros a rest. rewrite get_put. cbn. by rewrite gf.
Defined.

#[global] Instance proof_codec : Codec ProtoProof.
Proof.
  by refine (iso_codec (λ p, (pp_version p, pp_genIndexHash p, pp_rotatingPublicKey p, pp_expiryUnixTs p, pp_sig p))
    (λ '(a, b, c, d, e), mkProtoProof a b c d e) _); intros [].
Defined.
#[global] Instance pro_codec : Codec ProtoPro.
Proof.
  by refine (iso_codec (λ p, (pm_proof p, pm_profileBitset p, pm_msgBitset p)) (λ '(a, b, c), mkProtoPro a b c) _); intros [].
Defined.
#[global] Instance shared_codec : Codec SharedConfigMessage.
Proof. by refine (iso_codec (λ p, (sc_kind p, sc_seqno p, sc_data p)) (λ '(a, b, c), mkShared a b c) _); intros []. Defined.
#[global] Instance content_codec : Codec Content.
Proof.
  by refine (iso_codec (λ p, (ct_sharedConfigMessage p, ct_sigTimestamp p, ct_proMessage p, ct_proSigForCommunityMessageOnly p, ct_rest p))
    (λ '(a, b, c, d, e), mkContent a b c d e) _); intros [].
Defined.
#[global] Instance envelope_codec : Codec ProtoEnvelope.
Proof.
  by refine (iso_codec (λ p, (pe_type p, pe_source p, pe_sourceDevice p, pe_timestamp p, pe_content p, pe_serverTimestamp p, pe_proSig p))
    (λ '(a, b, c, d, e, f, g), mkProtoEnvelope a b c d e f g) _); intros [].
Defined.
#[global] Instance request_codec : Codec WebSocketRequestMessage.
Proof.
  by refine (iso_codec (λ p, (rq_verb p, rq_path p, rq_body p, rq_requestId p)) (λ '(a, b, c, d), mkWsRequest a b c d) _); intros [].
Defined.
#[global] Instance ws_codec : Codec WebSocketMessage.
Proof. by refine (iso_codec (λ p, (ws_type p, ws_request p)) (λ '(a, b), mkWs a b) _); intros []. Defined.

(** A message is a tag and its fields, with nothing after them; blanks before
    it are skipped. *)
Definition write_message {A} `{Codec A} (tag : ascii) (a : A) : bytes := String tag (put a).
Fixpoint read_message {A} `{Codec A} (tag : ascii) (s : bytes) : option A :=
  match s with
  | "" => None
  | String c s =>
      if Ascii.eqb c " " then read_message tag s
      else if Ascii.eqb c tag then '(a, rest) ← get s; if String.eqb rest "" then Some a else None else None
  end.
Lemma read_write_message {A} `{Codec A} tag (a : A) : Ascii.eqb tag " " = false → read_message tag (write_message tag a) = Some a.
Proof.
  intros Ht. cbn. rewrite Ht, Ascii.eqb_refl. rewrite <-(string_app_empty_r (put a)), get_put. done.
Qed.

#[global] Instance plain_protobuf : Protobuf := {|
  serialize_content := write_message "c"; parse_content := read_message "c";
  serialize_envelope := write_message "e"; parse_envelope := read_message "e";
  serialize_ws := write_message "w"; parse_ws := read_message "w";
|}.
#[global] Instance plain_protobuf_laws : ProtobufLaws.
Proof. split; intros; try by apply read_write_message. done. Qed.
#[global] Instance keyed_hash : PersonalHash := λ personality m, generichash 32 personality m.
#[local] Existing Instances toy_core toy_fe.

(** A sender with a subscription, whose rotating key is that of [seed_r] *)
Definition seed_r : bytes := sample_priv "r".
Definition backend_seed : bytes := sample_priv "z".
Definition unsigned_proof : ProProof := mkProof 0 (zeros 32) (seed_keypair seed_r).1 1700000000000 "".
Definition sample_proof_sig : bytes := default "" (sign_detached (seed_keypair backend_seed).2 (proof_hash unsigned_proof)).
Definition sample_content (ts : Z) : Content :=
  mkContent None (Some ts)
    (Some (mkProtoPro (Some (mkProtoProof (Some 0) (Some (zeros 32)) (Some (seed_keypair seed_r).1) (Some 1700000000000) (Some sample_proof_sig)))
      (Some 1) None)) None "hello".
Definition sample_text (ts : Z) : bytes := serialize_content (sample_content ts).

Lemma sample_fits ts : ts ≠ 0 → pro_fits (Some seed_r) (sample_content ts).
Proof. intros Hts. unfold pro_fits. cbn [ct_proMessage sample_content]. eexists seed_r, _. split_and!; [done|vm_compute; reflexivity|done|done]. Qed.

Lemma user_delivery_witness : ∃ payload d,
  encode_for_1o1 "" seed_a "" zero_rnd (sample_text 1600000000000) seed_a 5 (String "005" (x_public seed_b)) (Some seed_r) = Ok payload ∧
  decode_envelope (mkDecodeKey None [seed_b]) payload (seed_keypair backend_seed).1 = Ok d ∧
  de_content_plaintext d = sample_text 1600000000000 ∧ dp_status <$> de_pro d = Some Valid.
Proof.
  destruct (user_delivery "" seed_a "" zero_rnd seed_a seed_a seed_b seed_b [] (Some seed_r) (Some seed_r) (sample_text 1600000000000)
    (sample_content 1600000000000) 5 (seed_keypair backend_seed).1) as (payload & e & He & Hd & _).
  - reflexivity.
  - reflexivity.
  - reflexivity.
  - by left.
  - reflexivity.
  - by left.
  - lia.
  - split; [reflexivity|by left].
  - by apply read_write_message.
  - by apply sample_fits.
  - exists payload. eexists. split_and!; [exact He|exact Hd|reflexivity|vm_compute; reflexivity].
Defined.

Definition plain_content : Content := mkContent None None None None "hello".

Lemma group_delivery_witness : ∃ payload d,
  encode_for_group "" seed_a "" zero_rnd (sample_text 1600000000000) seed_a 5 (String "003" (zeros 32)) seed_b (Some seed_r) = Ok payload ∧
  decode_envelope (mkDecodeKey (Some (zeros 32)) [seed_b]) payload (seed_keypair backend_seed).1 = Ok d ∧
  de_content_plaintext d = sample_text 1600000000000 ∧ de_sender_x25519_pubkey d = x_public seed_a ∧ dp_status <$> de_pro d = Some Valid.
Proof.
  destruct (group_delivery "" seed_a "" zero_rnd seed_a seed_a (zeros 32) seed_b [] (Some seed_r) (Some seed_r) (sample_text 1600000000000)
    (sample_content 1600000000000) 5 (seed_keypair backend_seed).1 (seed_keypair seed_r).2) as (payload & e & He & _ & Hd & _).
  - reflexivity.
  - reflexivity.
  - reflexivity.
  - by left.
  - reflexivity.
  - reflexivity.
  - apply zero_rnd_ok.
  - constructor.
  - lia.
  - split; [reflexivity|by left].
  - reflexivity.
  - by apply read_write_message.
  - by apply sample_fits.
  - split; [vm_compute; discriminate|]. intros _. by eexists.
  - exists payload. eexists. split_and!; [exact He|exact Hd|reflexivity|reflexivity|vm_compute; reflexivity].
Defined.

Lemma community_delivery_witness : ∃ payload d,
  encode_for_community "" seed_a "" zero_rnd (sample_text 1600000000000) (Some seed_r) = Ok payload ∧
  decode_for_community payload 1800000000000 (seed_keypair backend_seed).1 = Ok d ∧ dp_status <$> dc_pro d = Some Expired.
Proof.
  destruct (community_delivery "" seed_a "" zero_rnd (Some seed_r) (Some seed_r) (sample_text 1600000000000) (sample_content 1600000000000)
    1800000000000 (seed_keypair backend_seed).1) as (payload & sig & plain & He & _ & _ & _ & _ & _ & _ & Hd).
  - reflexivity.
  - split; [reflexivity|by left].
  - by apply read_write_message.
  - reflexivity.
  - intros _. split; [reflexivity|by apply sample_fits].
  - exists payload. eexists. split_and!; [exact He|apply Hd|vm_compute; reflexivity].
    vm_compute in He. injection He as <-. vm_compute. reflexivity.
Defined.

Lemma decoded_authentic_witness :
  let backend := (seed_keypair backend_seed).1 in
  let text := sample_text 1600000000000 in
  (∃ payload d, encode_for_1o1 "" seed_a "" zero_rnd text seed_a 5 (x_public seed_b) (Some seed_r) = Ok payload ∧
     decode_envelope (mkDecodeKey None [seed_b]) payload backend = Ok d ∧
     ∃ content msg, verify_detached (seed_keypair seed_r).1 content (env_pro_sig (de_envelope d)) = true ∧
       sealed_by [seed_b] (seed_keypair seed_a).1 content msg ∧ unpad_message msg = text) ∧
  ∃ payload d, encode_for_group "" seed_a "" zero_rnd text seed_a 5 (String "003" (zeros 32)) seed_b (Some seed_r) = Ok payload ∧
    decode_envelope (mkDecodeKey (Some (zeros 32)) [seed_b]) payload backend = Ok d ∧
    ∃ env, signed_envelope [seed_b] (zeros 32) payload env (x_public seed_a).
Proof.
  cbv zeta. split.
  - destruct (encode_for_1o1 "" seed_a "" zero_rnd (sample_text 1600000000000) seed_a 5 (x_public seed_b) (Some seed_r)) as [payload|x] eqn:Ep;
      [|vm_compute in Ep; discriminate Ep].
    destruct (decode_envelope (mkDecodeKey None [seed_b]) payload (seed_keypair backend_seed).1) as [d|x] eqn:E.
    + destruct (decoded_authentic (mkDecodeKey None [seed_b]) payload (seed_keypair backend_seed).1 d E) as (env & e & content & c & _ & _ & _ & (_ & msg & Hseal & Hplain & _) & Hp).
      exists payload, d. split; [done|]. split; [exact E|]. exists content, msg. vm_compute in Ep. injection Ep as <-. vm_compute in E. injection E as <-.
      destruct (Hp _ eq_refl eq_refl) as (_ & _ & Hv & _). split_and!; [exact Hv|exact Hseal|]. rewrite <-Hplain. vm_compute. reflexivity.
    + exfalso. vm_compute in Ep. injection Ep as <-. vm_compute in E. discriminate E.
  - destruct (encode_for_group "" seed_a "" zero_rnd (sample_text 1600000000000) seed_a 5 (String "003" (zeros 32)) seed_b (Some seed_r)) as [payload|x] eqn:Ep;
      [|vm_compute in Ep; discriminate Ep].
    destruct (decode_envelope (mkDecodeKey (Some (zeros 32)) [seed_b]) payload (seed_keypair backend_seed).1) as [d|x] eqn:E.
    + destruct (decoded_authentic (mkDecodeKey (Some (zeros 32)) [seed_b]) payload (seed_keypair backend_seed).1 d E) as (env & e & content & c & _ & _ & _ & (Hsig & _) & _).
      exists payload, d. split; [done|]. split; [exact E|]. exists env. vm_compute in Ep. injection Ep as <-. vm_compute in E. injection E as <-. exact Hsig.
    + exfalso. vm_compute in Ep. injection Ep as <-. vm_compute in E. discriminate E.
Defined.

(** ** What goes wrong *)

(** The Pro signature of a community message is made over the bytes the client
    passed, but checked over what protobuf serializes the parsed content as: a
    content that another implementation of protobuf wrote differently is
    refused. *)
Lemma reserialized_not_verified :
  let text := String " " (sample_text 1600000000000) in
  parse_content text = Some (sample_content 1600000000000) ∧
  (payload ← encode_for_community "" seed_a "" zero_rnd text (Some seed_r);
   d ← decode_for_community payload 1600000000000 (seed_keypair backend_seed).1;
   Ok (dp_status <$> dc_pro d)) = Ok (Some InvalidUserSig).
Proof. split; vm_compute; reflexivity. Qed.

(** An envelope without a signature around a content with one: the code asserts
    that the envelope has the signature, and where assertions are off it checks
    the content's signature over the content that contains it. *)
Lemma inner_signature_asserted :
  let c := sample_content 1600000000000 in
  let sig := default "" (sign_detached (seed_keypair seed_r).2 (pad_message (serialize_content c))) in
  let inner := pad_message (serialize_content (with_pro_sig (Some sig) c)) in
  let payload := serialize_envelope (mkProtoEnvelope BCHAT_MESSAGE None None (Some 5) (Some inner) None None) in
  (d ← decode_for_community payload 1600000000000 (seed_keypair backend_seed).1;
   Ok ((λ e, bitset_is_set 3 (env_flags e)) <$> dc_envelope d, dp_status <$> dc_pro d)) = Ok (Some false, Some InvalidUserSig).
Proof. vm_compute. reflexivity. Qed.

(** The source of an envelope is read as hex when it is for a user or group and
    as raw bytes when it is for a community. *)
Lemma source_forms :
  let env s := serialize_envelope (mkProtoEnvelope BCHAT_MESSAGE (Some s) None (Some 5) (Some (serialize_content plain_content)) None None) in
  let hex := "05" +:+ to_hex (zeros 32) in
  is_ok (read_source (Some hex) empty_envelope) = true ∧ is_ok (decode_for_community (env hex) 0 (zeros 32)) = false.
Proof. split; vm_compute; reflexivity. Qed.
