(* ===== verification/Protos.v ===== *)
(** * Config messages in protobuf

    [src/config/protos.cpp]: for older clients a pushed config is wrapped like
    a message of the user to themself.  The wrapping is what the config object
    of ConfigBase takes as the class [ProtoWrap]. *)

From Stdlib Require Import ZArith String Ascii Lia.
From stdpp Require Import base option list strings numbers.
From S2P Require Import Prelude OrderedMap Bt Bencode Crypto Encrypt State Util ConfigMessage ConfigBase ConfigSync Text Ids MultiEncrypt Wire GroupKeyDelivery HopEncryption MessageEncrypt MessageDelivery Blinding Protocol ProtocolDelivery.

Section wrapping.
Context `{Hash, X25519, Ed25519, SeedKeypair, Box, Protobuf}.

(** The namespaces of user profile, contacts, conversations and groups are 2 to
    5, the kinds of messages 1 to 4. *)
Definition encode_namespace (t : Z) : result Z :=
  if t =? 2 then Ok 1 else if t =? 3 then Ok 2 else if t =? 4 then Ok 3 else if t =? 5 then Ok 4 else Throw invalid_argument.

(** [data] of the given sequence number, an [int64_t] *)
Definition code_wrap_config (ed25519_sk data : bytes) (seqno t : Z) : result bytes :=
  sk ← full_privkey ed25519_sk;
  my_xpk ← from_option_or invalid_argument (pk_to_curve25519 (sdrop 32 sk));
  _ ← require (t <=? 5) invalid_argument;
  kind ← encode_namespace t;
  let shared_conf := serialize_content (mkContent (Some (mkShared kind (to_int64 seqno) data)) None None None "") in
  enc_shared_conf ← encrypt_for_recipient_deterministic sk my_xpk (shared_conf +:+ String "128" "");
  let envelope := mkProtoEnvelope BCHAT_MESSAGE None None (Some 1) (Some enc_shared_conf) None None in
  let webreq := mkWsRequest (Some "") (Some "") (Some (serialize_envelope envelope)) (Some 0) in
  Ok (serialize_ws (mkWs (Some WS_REQUEST) (Some webreq))).

(** The content up to the last byte that is not zero, which has to be 0x80 *)
Definition drop_config_padding (content : bytes) : result bytes :=
  match back content with
  | None => Throw runtime_error
  | Some ch =>
      _ ← require (Ascii.eqb ch "000" || Ascii.eqb ch "128") runtime_error;
      let kept := drop_last_zeros content in
      _ ← require (bool_decide (back kept = Some "128"%char)) runtime_error;
      Ok (stake (String.length kept - 1) kept)
  end.

Definition code_unwrap_config (ed25519_sk data : bytes) (ns : Z) : result bytes :=
  sk ← full_privkey ed25519_sk;
  let ed25519_pk := sdrop 32 sk in
  req ← from_option_or runtime_error (parse_ws data);
  _ ← require (default 0 (ws_type req) =? WS_REQUEST) runtime_error;
  let body := match ws_request req with Some r => default "" (rq_body r) | None => "" end in
  envelope ← from_option_or runtime_error (parse_envelope body);
  '(content, sender) ← decrypt_incoming sk (default "" (pe_content envelope));
  _ ← require (String.eqb sender ed25519_pk) runtime_error;
  content ← drop_config_padding content;
  config ← from_option_or runtime_error (parse_content content);
  shconf ← from_option_or runtime_error (ct_sharedConfigMessage config);
  kind ← encode_namespace ns;
  _ ← require (sc_kind shconf =? kind) runtime_error;
  Ok (sc_data shconf).

#[global] Instance code_protos : ProtoWrap := {| wrap_config := code_wrap_config; unwrap_config := code_unwrap_config |}.
End wrapping.

Section wrapped.
Context `{BtLaws, HashLaws, AeadLaws, ZstdLaws, X25519Laws, Ed25519, SeedKeypair, !SeedKeypairLaws, !KeypairLaws, Box, !BoxLaws, SecretBox, OxencLaws}.
Context `{Protobuf, !ProtobufLaws}.

Lemma drop_padding_run s : drop_config_padding (s +:+ String "128" "") = Ok s.
Proof.
  unfold drop_config_padding. rewrite back_snoc. cbn [require Ascii.eqb Bool.eqb orb]. rewrite bind_ret.
  pose proof (drop_last_zeros_end s "128" 0 ltac:(done)) as Hd. cbn [zeros] in Hd. rewrite Hd, back_snoc, bool_decide_eq_true_2 by done.
  cbn [require]. rewrite bind_ret. f_equal. apply stake_exact. rewrite length_sapp. cbn [String.length]. lia.
Qed.

Lemma to_int64_range z : in_int64 (to_int64 z) = true.
Proof.
  unfold in_int64, to_int64, int64_min, int64_max. pose proof (Z.mod_pos_bound (z + 2 ^ 63) (2 ^ 64) ltac:(lia)).
  apply andb_true_iff. rewrite !Z.leb_le. lia.
Qed.

(** For each of the four kinds of config of a user, a config
    is wrapped, and the user's other devices unwrap it. *)
Lemma config_wrapped_run seed key data seqno ns :
  size seed = 32 → privkey_of seed key → 2 ≤ ns ≤ 5 →
  ∃ w, code_wrap_config key data seqno ns = Ok w ∧ ∀ key', privkey_of seed key' → code_unwrap_config key' w ns = Ok data.
Proof.
  intros Hs Hk Hns. unfold code_wrap_config. rewrite (full_privkey_run seed), bind_ret, pk_of_sk, keypair_x by done.
  cbn [from_option_or]. rewrite bind_ret, bind_req by lia. fold (x_secret seed) (x_public seed).
  assert (∃ kind, encode_namespace ns = Ok kind ∧ 1 ≤ kind ≤ 4) as (kind & Hkind & Hrange).
  { unfold encode_namespace. repeat case_match; try (eexists; split; [done|lia]). lia. }
  rewrite Hkind, bind_ret. set (c := serialize_content _ +:+ _).
  destruct (deterministic_run seed (seed_keypair seed).2 seed (seed_keypair seed).2 (x_public seed) c)
    as (enc & -> & _ & Hdec & _); [done|by right|done|by right|by left|].
  rewrite bind_ret. eexists. split; [reflexivity|]. intros key' Hk'. unfold code_unwrap_config.
  rewrite (full_privkey_run seed), bind_ret, ws_again by done. cbn [from_option_or]. rewrite bind_ret. cbn [ws_type ws_request rq_body from_option id].
  rewrite bind_req, envelope_again by done. cbn [from_option_or]. rewrite bind_ret. cbn [pe_content from_option id].
  rewrite Hdec, bind_ret, pk_of_sk, bind_req by (done || by apply String.eqb_eq).
  unfold c. rewrite drop_padding_run, bind_ret, shared_again by (done || apply to_int64_range). cbn [from_option_or]. rewrite bind_ret.
  cbn [ct_sharedConfigMessage from_option_or]. rewrite bind_ret, Hkind, bind_ret. cbn [sc_kind sc_data]. by rewrite Z.eqb_refl.
Qed.

(** What ConfigSync asks of the wrapping of a kind of config holds of this
    code, as long as no encrypted config happens to parse as a websocket
    message. *)
Lemma code_protos_ok kind seed :
  size seed = 32 → 2 ≤ storage_namespace kind ≤ 5 →
  (∀ m c, encrypt m seed (encryption_domain kind) = Ok c → parse_ws c = None) →
  proto_ok (H4 := code_protos) kind seed.
Proof.
  intros Hs Hns Hsealed. split.
  - intros msg s w Hw. destruct (config_wrapped_run seed seed msg s (storage_namespace kind)) as (w' & Hw' & Hu); [done|by left|done|].
    cbn [wrap_config code_protos] in Hw. rewrite Hw in Hw'. injection Hw' as <-. by apply Hu; left.
  - intros m c Hc. exists runtime_error. cbn [unwrap_config code_protos]. unfold code_unwrap_config.
    rewrite (full_privkey_run seed), bind_ret by (done || by left). by rewrite (Hsealed m c Hc).
Qed.
End wrapped.

(** ** A device and itself *)
Lemma code_protos_example :
  (w ← code_wrap_config seed_a "config" 7 3; code_unwrap_config (seed_keypair seed_a).2 w 3) = Ok "config" ∧
  (w ← code_wrap_config seed_a "config" 7 3; code_unwrap_config seed_a w 4) = Throw runtime_error ∧
  code_wrap_config seed_a "config" 7 11 = Throw invalid_argument.
Proof. split_and!; vm_compute; reflexivity. Qed.
