(* ===== verification/ProBackend.v ===== *)
(** * Requests to and responses of the Pro backend

    [src/pro_backend.cpp]: the JSON requests that register a payment, ask for a
    proof, for the list of revoked proofs and for the payments of a user, and
    that report a refund request; each is signed with the user's keys.  The
    responses are parsed leniently: what is wrong is collected in a list of
    errors beside the fields that could be read. *)

From Stdlib Require Import ZArith String Ascii Lia.
From stdpp Require Import base option list strings numbers.
From S2P Require Import Prelude OrderedMap Bt Bencode Crypto Encrypt State Util ConfigMessage ConfigBase Text Ids MultiEncrypt Wire UserProfile MessageEncrypt Protocol.

(** ** JSON

    The values of the [nlohmann::json] library.  Of a floating point number
    only its integral part matters here.  Objects are ordered maps. *)
Inductive jvalue :=
  | JNull
  | JBool (b : bool)
  | JInt (z : Z)
  | JFloat (integral : Z)
  | JString (s : bytes)
  | JArray (l : list jvalue)
  | JObject (m : list (bytes * jvalue)).

(** [json::parse], [None] when it throws, and [json::dump], which throws when a
    string is not UTF-8 *)
Class JsonValues := {
  jparse : bytes → option jvalue;
  jdump : jvalue → result bytes;
}.

(** [find]: what is not an object has no members. *)
Definition jfind (j : jvalue) (key : bytes) : option jvalue :=
  match j with JObject m => mfind key m | _ => None end.

(** ** Errors: one constructor for each of the messages that are written *)
Inductive perr :=
  | InvalidJson
  | KeyMissing (key : bytes)
  | KeyNot (key : bytes) (v : jvalue) (type : bytes)
  | ErrorNotString (index : nat) (v : jvalue)
  | HexSize (key hex : bytes) (capacity : Z)
  | NotHex (key hex : bytes)
  | FromBackend (text : bytes)
  | ItemNotObject (index : nat) (v : jvalue)
  | OutOfBounds (what : bytes) (z : Z).

(** The errors collected so far are the state. *)
Abbreviation P := (M (list perr)).
Definition push_back (e : perr) : P () := modify (λ errors, errors ++ [e]).
Definition has_errors : P bool := gets (λ errors, negb (length errors =? 0)%nat).

(** A type [json_require] is used at: its name, its test, the conversion of
    what passes the test, and its zero *)
Record json_type (A : Type) := mkJsonType {
  jt_name : bytes;
  jt_is : jvalue → bool;
  jt_get : jvalue → result A;
  jt_zero : A;
}.
Arguments mkJsonType {A}. Arguments jt_name {A}. Arguments jt_is {A}. Arguments jt_get {A}. Arguments jt_zero {A}.

(** An unsigned type of [w] bits: an integer is reduced to the width; the
    conversion of a floating point number is defined only in range. *)
Definition uint (w : Z) : json_type Z :=
  mkJsonType "a number" (λ v, match v with JInt _ | JFloat _ => true | _ => false end)
    (λ v, match v with
          | JInt z => Ok (z mod 2 ^ w)
          | JFloat t => if (0 <=? t) && (t <? 2 ^ w) then Ok t else Throw undefined_behaviour
          | _ => Throw json_error
          end) 0.
Definition text : json_type bytes :=
  mkJsonType "a string" (λ v, match v with JString _ => true | _ => false end)
    (λ v, match v with JString s => Ok s | _ => Throw json_error end) "".
Definition boolean : json_type bool :=
  mkJsonType "a boolean" (λ v, match v with JBool _ => true | _ => false end)
    (λ v, match v with JBool b => Ok b | _ => Throw json_error end) false.
Definition array_t : json_type (list jvalue) :=
  mkJsonType "an array" (λ v, match v with JArray _ => true | _ => false end)
    (λ v, match v with JArray l => Ok l | _ => Throw json_error end) [].
(** An object is passed on as a value again. *)
Definition object_t : json_type jvalue :=
  mkJsonType "an object" (λ v, match v with JObject _ => true | _ => false end)
    (λ v, match v with JObject _ => Ok v | _ => Throw json_error end) (JObject []).

Definition json_require {A} (T : json_type A) (j : jvalue) (key : bytes) : P A :=
  match jfind j key with
  | None => push_back (KeyMissing key);; mret (jt_zero T)
  | Some v => if jt_is T v then lift (jt_get T v) else push_back (KeyNot key v (jt_name T));; mret (jt_zero T)
  end.

(** The errors the backend reports, up to the first that is not a string *)
Fixpoint push_errors (index : nat) (l : list jvalue) : P () :=
  match l with
  | [] => skip
  | JString s :: l => push_back (FromBackend s);; push_errors (S index) l
  | v :: _ => push_back (ErrorNotString index v)
  end.
Definition parse_json_response_errors (j : jvalue) : P () :=
  array ← json_require array_t j "errors"; push_errors 0 array.

Definition drop_0x (hex : bytes) : bytes :=
  if String.prefix "0X" hex || String.prefix "0x" hex then sdrop 2 hex else hex.

(** ** Enumerations *)
Inductive PaymentProvider := PROVIDER_NIL | GOOGLE_PLAY_STORE | IOS_APP_STORE | RANGEPROOF | PROVIDER_COUNT.
Inductive PaymentStatus := STATUS_NIL | UNREDEEMED | REDEEMED | STATUS_EXPIRED | REFUNDED | STATUS_COUNT.
Inductive Plan := PLAN_NIL | ONE_MONTH | THREE_MONTHS | TWELVE_MONTHS | PLAN_COUNT.
Inductive UserProStatus := NEVER_BEEN_PRO | ACTIVE | USER_EXPIRED | USER_COUNT.
Inductive ErrorReport := REPORT_SUCCESS | REPORT_GENERIC_ERROR | REPORT_COUNT.

Definition all_providers : list PaymentProvider := [PROVIDER_NIL; GOOGLE_PLAY_STORE; IOS_APP_STORE; RANGEPROOF; PROVIDER_COUNT].
Definition all_statuses : list PaymentStatus := [STATUS_NIL; UNREDEEMED; REDEEMED; STATUS_EXPIRED; REFUNDED; STATUS_COUNT].
Definition all_plans : list Plan := [PLAN_NIL; ONE_MONTH; THREE_MONTHS; TWELVE_MONTHS; PLAN_COUNT].
Definition all_user_statuses : list UserProStatus := [NEVER_BEEN_PRO; ACTIVE; USER_EXPIRED; USER_COUNT].
Definition all_reports : list ErrorReport := [REPORT_SUCCESS; REPORT_GENERIC_ERROR; REPORT_COUNT].

Definition provider_int (p : PaymentProvider) : Z :=
  match p with PROVIDER_NIL => 0 | GOOGLE_PLAY_STORE => 1 | IOS_APP_STORE => 2 | RANGEPROOF => 3 | PROVIDER_COUNT => 4 end.

(** [static_cast] to an enumeration, which has to have the value *)
Definition enum_cast {A} (l : list A) (z : Z) : P A :=
  match l !! Z.to_nat z with Some a => mret a | None => throw undefined_behaviour end.

Definition BACKEND_STATUS_SUCCESS : Z := 0.
Definition BACKEND_STATUS_GENERIC_ERROR : Z := 1.

(** ** What is known about payment providers *)
Record ProviderMetadata := mkMetadata {
  md_device : bytes; md_store : bytes; md_platform : bytes; md_platform_account : bytes;
  md_refund_platform_url : bytes; md_refund_support_url : bytes; md_refund_status_url : bytes;
  md_update_subscription_url : bytes; md_cancel_subscription_url : bytes;
}.
Definition PAYMENT_PROVIDER_METADATA : list ProviderMetadata :=
  [ mkMetadata "" "" "" "" "" "" "" "" "";
    mkMetadata "Android" "Google Play Store" "Google" "Google account"
      "https://support.google.com/googleplay/workflow/9813244?" "https://getbchat.org/android-refund" "https://getbchat.org/android-refund"
      "https://play.google.com/store/account/subscriptions?package=io.beldex.bchat"
      "https://play.google.com/store/account/subscriptions?package=io.beldex.bchat";
    mkMetadata "iOS" "Apple App Store" "Apple" "Apple account"
      "https://support.apple.com/118223" "https://support.apple.com/118223" "https://support.apple.com/118224"
      "https://apps.apple.com/account/subscriptions" "https://account.apple.com/account/manage/section/subscriptions";
    mkMetadata "" "" "" "" "" "" "" "" "" ].

(** ** Responses *)
Record Response (A : Type) := mkResponse { r_status : Z; r_errors : list perr; r_body : A }.
Arguments mkResponse {A}. Arguments r_status {A}. Arguments r_errors {A}. Arguments r_body {A}.

Record ProRevocationItem := mkRevocation { ri_gen_index_hash : bytes; ri_expiry_unix_ts : Z }.
Record Revocations := mkRevocations { rv_ticket : Z; rv_items : list ProRevocationItem }.

Record ProPaymentItem := mkItem {
  pi_status : PaymentStatus;
  pi_plan : Plan;
  pi_payment_provider : PaymentProvider;
  (** the index of the entry of the table the pointer points to *)
  pi_payment_provider_metadata : nat;
  pi_auto_renewing : bool;
  pi_unredeemed_unix_ts : Z;
  pi_redeemed_unix_ts : Z;
  pi_expiry_unix_ts : Z;
  pi_grace_period_duration_ms : Z;
  pi_platform_refund_expiry_unix_ts : Z;
  pi_revoked_unix_ts : Z;
  pi_refund_requested_unix_ts : Z;
  pi_google_payment_token : bytes;
  pi_google_order_id : bytes;
  pi_apple_original_tx_id : bytes;
  pi_apple_tx_id : bytes;
  pi_apple_web_line_order_id : bytes;
  pi_rangeproof_order_id : bytes;
}.

Record ProDetails := mkDetails {
  pd_items : list ProPaymentItem;
  pd_user_status : UserProStatus;
  pd_error_report : ErrorReport;
  pd_auto_renewing : bool;
  pd_expiry_unix_ts : Z;
  pd_grace_period_duration : Z;
  pd_refund_requested_unix_ts : Z;
  pd_payments_total : Z;
}.
Record RefundSet := mkRefundSet { rs_version : Z; rs_updated : bool }.

Section backend.
Context `{JsonValues, Oxenc}.

(** The destination keeps its zeros when there is an error. *)
Definition json_require_fixed_bytes_from_hex (j : jvalue) (key : bytes) (dest_size : nat) : P bytes :=
  hex ← json_require text j key;
  let hex := drop_0x hex in
  let hex_avail := Z.of_nat dest_size * 2 in
  if negb (size hex =? hex_avail) then push_back (HexSize key hex hex_avail);; mret (zeros dest_size)
  else if is_hex hex then mret (from_hex hex)
  else push_back (NotHex key hex);; mret (zeros dest_size).

Definition json_parse (json : bytes) : P jvalue :=
  match jparse json with Some j => mret j | None => push_back InvalidJson;; mret JNull end.

(** What the four [parse] functions begin with; [payload] reads the rest. *)
Definition parse_backend_response {A} (zero : A) (payload : jvalue → P A) (json : bytes) : P (Z * A) :=
  j ← json_parse json;
  status ← json_require (uint 8) j "status";
  bad ← has_errors;
  if (bad : bool) then mret (BACKEND_STATUS_GENERIC_ERROR, zero)
  else if negb (status =? BACKEND_STATUS_SUCCESS) then parse_json_response_errors j;; mret (status, zero)
  else
    result_obj ← json_require object_t j "result";
    bad ← has_errors;
    if (bad : bool) then mret (status, zero)
    else a ← payload result_obj; mret (status, a).

(** The struct with its errors, from no errors *)
Definition finish_parse {A} (m : P (Z * A)) : result (Response A) :=
  match m [] with
  | (Ok (status, a), errors) => Ok (mkResponse status errors a)
  | (Throw e, _) => Throw e
  end.

Definition zero_proof : ProProof := mkProof 0 (zeros 32) (zeros 32) 0 (zeros 64).
Definition proof_payload (obj : jvalue) : P ProProof :=
  version ← json_require (uint 8) obj "version";
  expiry_unix_ts_ms ← json_require (uint 64) obj "expiry_unix_ts_ms";
  gen_index_hash ← json_require_fixed_bytes_from_hex obj "gen_index_hash" 32;
  rotating_pubkey ← json_require_fixed_bytes_from_hex obj "rotating_pkey" 32;
  sig ← json_require_fixed_bytes_from_hex obj "sig" 64;
  mret (mkProof version gen_index_hash rotating_pubkey (to_int64 expiry_unix_ts_ms) sig).
Definition parse_proof_response (json : bytes) : result (Response ProProof) :=
  finish_parse (parse_backend_response zero_proof proof_payload json).

Definition revocation_item (obj : jvalue) : P ProRevocationItem :=
  expiry_unix_ts ← json_require (uint 64) obj "expiry_unix_ts_ms";
  gen_index_hash ← json_require_fixed_bytes_from_hex obj "gen_index_hash" 32;
  mret (mkRevocation gen_index_hash (to_int64 expiry_unix_ts)).

(** The loop over an array of items; it stops at the first that has errors, or
    at once if there were some before. *)
Fixpoint parse_items {A} (item : jvalue → P A) (index : nat) (l : list jvalue) (items : list A) : P (list A) :=
  match l with
  | [] => mret items
  | JObject m :: l =>
      a ← item (JObject m);
      bad ← has_errors;
      if (bad : bool) then mret items else parse_items item (S index) l (items ++ [a])
  | v :: _ => push_back (ItemNotObject index v);; mret items
  end.

Definition revocations_payload (obj : jvalue) : P Revocations :=
  ticket ← json_require (uint 32) obj "ticket";
  array ← json_require array_t obj "items";
  items ← parse_items revocation_item 0 array [];
  mret (mkRevocations ticket items).
Definition parse_revocations (json : bytes) : result (Response Revocations) :=
  finish_parse (parse_backend_response (mkRevocations 0 []) revocations_payload json).

(** An enumerator strictly between the first and the last, else an error and
    the first *)
Definition between_nil_and_count {A} (what : bytes) (l : list A) (nil : A) (z : Z) : P A :=
  if (0 <? z) && (z <? Z.of_nat (length l) - 1) then enum_cast l z
  else push_back (OutOfBounds what z);; mret nil.

(** The identifiers of a payment: Google's token and order, Apple's three, and
    that of Rangeproof *)
Definition payment_ids (obj : jvalue) (provider : PaymentProvider) : P (bytes * bytes * bytes * bytes * bytes * bytes) :=
  match provider with
  | PROVIDER_NIL | PROVIDER_COUNT => mret ("", "", "", "", "", "")
  | GOOGLE_PLAY_STORE =>
      token ← json_require text obj "google_payment_token";
      order ← json_require text obj "google_order_id";
      mret (token, order, "", "", "", "")
  | IOS_APP_STORE =>
      original ← json_require text obj "apple_original_tx_id";
      tx ← json_require text obj "apple_tx_id";
      web ← json_require text obj "apple_web_line_order_id";
      mret ("", "", original, tx, web, "")
  | RANGEPROOF =>
      order ← json_require text obj "rangeproof_order_id";
      mret ("", "", "", "", "", order)
  end.

Definition payment_item (obj : jvalue) : P ProPaymentItem :=
  status ← json_require (uint 64) obj "status";
  plan ← json_require (uint 64) obj "plan";
  payment_provider ← json_require (uint 32) obj "payment_provider";
  auto_renewing ← json_require boolean obj "auto_renewing";
  unredeemed_ts ← json_require (uint 64) obj "unredeemed_unix_ts_ms";
  redeemed_ts ← json_require (uint 64) obj "redeemed_unix_ts_ms";
  expiry_ts ← json_require (uint 64) obj "expiry_unix_ts_ms";
  grace ← json_require (uint 64) obj "grace_period_duration_ms";
  platform_refund_expiry_ts ← json_require (uint 64) obj "platform_refund_expiry_unix_ts_ms";
  revoked_ts ← json_require (uint 64) obj "revoked_unix_ts_ms";
  refund_requested_ts ← json_require (uint 64) obj "refund_requested_unix_ts_ms";
  status ← between_nil_and_count "status" all_statuses STATUS_NIL status;
  plan ← between_nil_and_count "plan" all_plans PLAN_NIL plan;
  provider ← between_nil_and_count "payment provider" all_providers PROVIDER_NIL payment_provider;
  let metadata := match provider with PROVIDER_NIL => 0%nat | _ => Z.to_nat payment_provider end in
  '(token, google_order, original, tx, web, rangeproof_order) ← payment_ids obj provider;
  mret (mkItem status plan provider metadata auto_renewing (to_int64 unredeemed_ts) (to_int64 redeemed_ts) (to_int64 expiry_ts)
          (to_int64 grace) (to_int64 platform_refund_expiry_ts) (to_int64 revoked_ts) (to_int64 refund_requested_ts)
          token google_order original tx web rangeproof_order).

Definition zero_details : ProDetails := mkDetails [] NEVER_BEEN_PRO REPORT_SUCCESS false 0 0 0 0.
(** Without a status or report in range the rest is not read; the message about
    the report shows the status. *)
Definition details_payload (obj : jvalue) : P ProDetails :=
  user_status ← json_require (uint 32) obj "status";
  if 3 <=? user_status then push_back (OutOfBounds "user pro status" user_status);; mret zero_details else
  user_status' ← enum_cast all_user_statuses user_status;
  error_report ← json_require (uint 32) obj "error_report";
  if 2 <=? error_report then
    push_back (OutOfBounds "error report" user_status);; mret (mkDetails [] user_status' REPORT_SUCCESS false 0 0 0 0)
  else
  error_report ← enum_cast all_reports error_report;
  auto_renewing ← json_require boolean obj "auto_renewing";
  payments_total ← json_require (uint 32) obj "payments_total";
  expiry_unix_ts_ms ← json_require (uint 64) obj "expiry_unix_ts_ms";
  grace_period_duration_ms ← json_require (uint 64) obj "grace_period_duration_ms";
  refund_requested_unix_ts_ms ← json_require (uint 64) obj "refund_requested_unix_ts_ms";
  array ← json_require array_t obj "items";
  items ← parse_items payment_item 0 array [];
  mret (mkDetails items user_status' error_report auto_renewing (to_int64 expiry_unix_ts_ms) (to_int64 grace_period_duration_ms)
          (to_int64 refund_requested_unix_ts_ms) payments_total).
Definition parse_details (json : bytes) : result (Response ProDetails) :=
  finish_parse (parse_backend_response zero_details details_payload json).

Definition refund_payload (obj : jvalue) : P RefundSet :=
  version ← json_require (uint 8) obj "version";
  updated ← json_require boolean obj "updated";
  mret (mkRefundSet version updated).
Definition parse_refund (json : bytes) : result (Response RefundSet) :=
  finish_parse (parse_backend_response (mkRefundSet 0 false) refund_payload json).
End backend.

(** ** Requests *)
Record UserTransaction := mkTx { tx_provider : PaymentProvider; tx_payment_id : bytes; tx_order_id : bytes }.
Record MasterRotatingSignatures := mkSigs { master_sig : bytes; rotating_sig : bytes }.
Record AddProPaymentRequest := mkAdd {
  add_version : Z; add_master_pkey : bytes; add_rotating_pkey : bytes; add_payment_tx : UserTransaction;
  add_master_sig : bytes; add_rotating_sig : bytes;
}.
Record GenerateProProofRequest := mkGenerate {
  gen_version : Z; gen_master_pkey : bytes; gen_rotating_pkey : bytes; gen_unix_ts : Z;
  gen_master_sig : bytes; gen_rotating_sig : bytes;
}.
Record GetProRevocationsRequest := mkGetRevocations { gr_version : Z; gr_ticket : Z }.
Record GetProDetailsRequest := mkGetDetails {
  gd_version : Z; gd_master_pkey : bytes; gd_master_sig : bytes; gd_unix_ts : Z; gd_count : Z;
}.
Record SetPaymentRefundRequestedRequest := mkSetRefund {
  sr_version : Z; sr_master_pkey : bytes; sr_master_sig : bytes; sr_unix_ts : Z; sr_refund_requested_unix_ts : Z;
  sr_payment_tx : UserTransaction;
}.

Definition GENERATE_PROOF_PERSONALISATION : bytes := "ProGenerateProof".
Definition ADD_PRO_PAYMENT_PERSONALISATION : bytes := "ProAddPayment___".
Definition SET_PAYMENT_REFUND_PERSONALISATION : bytes := "ProSetRefundReq_".
Definition GET_PRO_DETAILS_PERSONALISATION : bytes := "ProGetProDetReq_".

(** [j[key] = value] on an object, one after the other *)
Definition jobject (fields : list (bytes * jvalue)) : jvalue :=
  JObject (foldl (λ m kv, minsert kv.1 kv.2 m) [] fields).

Section requests.
Context `{JsonValues, Oxenc, PersonalHash, SeedKeypair, Ed25519}.

(** [assert(false)] for Rangeproof: without assertions its identifiers are left
    out. *)
Definition payment_tx_json (tx : UserTransaction) : jvalue :=
  jobject (("provider", JInt (provider_int (tx_provider tx))) ::
    match tx_provider tx with
    | PROVIDER_NIL | PROVIDER_COUNT | RANGEPROOF => []
    | GOOGLE_PLAY_STORE => [("google_payment_token", JString (tx_payment_id tx)); ("google_order_id", JString (tx_order_id tx))]
    | IOS_APP_STORE => [("apple_tx_id", JString (tx_payment_id tx))]
    end).

Definition add_json (r : AddProPaymentRequest) : jvalue :=
  jobject [("version", JInt (add_version r)); ("master_pkey", JString (to_hex (add_master_pkey r)));
    ("rotating_pkey", JString (to_hex (add_rotating_pkey r))); ("payment_tx", payment_tx_json (add_payment_tx r));
    ("master_sig", JString (to_hex (add_master_sig r))); ("rotating_sig", JString (to_hex (add_rotating_sig r)))].
Definition generate_json (r : GenerateProProofRequest) : jvalue :=
  jobject [("version", JInt (gen_version r)); ("master_pkey", JString (to_hex (gen_master_pkey r)));
    ("rotating_pkey", JString (to_hex (gen_rotating_pkey r))); ("unix_ts_ms", JInt (gen_unix_ts r));
    ("master_sig", JString (to_hex (gen_master_sig r))); ("rotating_sig", JString (to_hex (gen_rotating_sig r)))].
Definition revocations_json (r : GetProRevocationsRequest) : jvalue :=
  jobject [("version", JInt (gr_version r)); ("ticket", JInt (gr_ticket r))].
Definition details_json (r : GetProDetailsRequest) : jvalue :=
  jobject [("version", JInt (gd_version r)); ("master_pkey", JString (to_hex (gd_master_pkey r)));
    ("master_sig", JString (to_hex (gd_master_sig r))); ("unix_ts_ms", JInt (gd_unix_ts r)); ("count", JInt (gd_count r))].
Definition refund_json (r : SetPaymentRefundRequestedRequest) : jvalue :=
  jobject [("version", JInt (sr_version r)); ("master_pkey", JString (to_hex (sr_master_pkey r)));
    ("unix_ts_ms", JInt (sr_unix_ts r)); ("refund_requested_unix_ts_ms", JInt (sr_refund_requested_unix_ts r));
    ("payment_tx", payment_tx_json (sr_payment_tx r)); ("master_sig", JString (to_hex (sr_master_sig r)))].

(** The hashes that are signed *)
Definition byte_of (z : Z) : bytes := String (chr z) "".
Definition payment_hash (version : Z) (master_pk rotating_pk : bytes) (provider : PaymentProvider) (payment_id order_id : bytes) : bytes :=
  personal_hash ADD_PRO_PAYMENT_PERSONALISATION
    (byte_of version +:+ master_pk +:+ rotating_pk +:+ byte_of (provider_int provider) +:+ payment_id +:+ order_id).
Definition generate_hash (version : Z) (master_pk rotating_pk : bytes) (unix_ts : Z) : bytes :=
  personal_hash GENERATE_PROOF_PERSONALISATION (byte_of version +:+ master_pk +:+ rotating_pk +:+ le_write 8 unix_ts).
Definition details_hash (version : Z) (master_pk : bytes) (unix_ts count : Z) : bytes :=
  personal_hash GET_PRO_DETAILS_PERSONALISATION (byte_of version +:+ master_pk +:+ le_write 8 unix_ts +:+ le_write 4 count).
Definition refund_hash (version : Z) (master_pk : bytes) (unix_ts refund_requested : Z) (provider : PaymentProvider) (payment_id order_id : bytes) : bytes :=
  personal_hash SET_PAYMENT_REFUND_PERSONALISATION
    (byte_of version +:+ master_pk +:+ le_write 8 unix_ts +:+ le_write 8 refund_requested +:+
     byte_of (provider_int provider) +:+ payment_id +:+ order_id).

(** The signature is written over zeros; whether signing worked is not checked. *)
Definition sign_hash (sk hash : bytes) : bytes := default (zeros 64) (sign_detached sk hash).

Definition add_build_sigs (version : Z) (master_privkey rotating_privkey : bytes) (provider : PaymentProvider)
    (payment_id order_id : bytes) : result MasterRotatingSignatures :=
  master ← full_privkey master_privkey;
  rotating ← full_privkey rotating_privkey;
  _ ← require (match provider with GOOGLE_PLAY_STORE => negb (size order_id =? 0) | _ => size order_id =? 0 end) invalid_argument;
  let hash := payment_hash version (sdrop 32 master) (sdrop 32 rotating) provider payment_id order_id in
  Ok (mkSigs (sign_hash master hash) (sign_hash rotating hash)).

Definition add_build_to_json (version : Z) (master_privkey rotating_privkey : bytes) (provider : PaymentProvider)
    (payment_id order_id : bytes) : result bytes :=
  master ← full_privkey master_privkey;
  rotating ← full_privkey rotating_privkey;
  sigs ← add_build_sigs version master rotating provider payment_id order_id;
  jdump (add_json (mkAdd version (sdrop 32 master) (sdrop 32 rotating) (mkTx provider payment_id order_id)
                     (master_sig sigs) (rotating_sig sigs))).

(** The version that is hashed is always 0. *)
Definition generate_build_sigs (request_version : Z) (master_privkey rotating_privkey : bytes) (unix_ts : Z) : result MasterRotatingSignatures :=
  master ← full_privkey master_privkey;
  rotating ← full_privkey rotating_privkey;
  let version := 0 in
  let hash := generate_hash version (sdrop 32 master) (sdrop 32 rotating) unix_ts in
  Ok (mkSigs (sign_hash master hash) (sign_hash rotating hash)).

Definition generate_build_to_json (request_version : Z) (master_privkey rotating_privkey : bytes) (unix_ts : Z) : result bytes :=
  master ← full_privkey master_privkey;
  rotating ← full_privkey rotating_privkey;
  sigs ← generate_build_sigs request_version master rotating unix_ts;
  jdump (generate_json (mkGenerate request_version (sdrop 32 master) (sdrop 32 rotating) unix_ts (master_sig sigs) (rotating_sig sigs))).

Definition revocations_to_json (r : GetProRevocationsRequest) : result bytes := jdump (revocations_json r).

Definition details_build_sig (version : Z) (master_privkey : bytes) (unix_ts count : Z) : result bytes :=
  master ← full_privkey master_privkey;
  Ok (sign_hash master (details_hash version (sdrop 32 master) unix_ts count)).

Definition details_build_to_json (version : Z) (master_privkey : bytes) (unix_ts count : Z) : result bytes :=
  master ← full_privkey master_privkey;
  sig ← details_build_sig version master unix_ts count;
  jdump (details_json (mkGetDetails version (sdrop 32 master) sig unix_ts count)).

Definition refund_build_sig (version : Z) (master_privkey : bytes) (unix_ts refund_requested : Z) (provider : PaymentProvider)
    (payment_id order_id : bytes) : result bytes :=
  master ← full_privkey master_privkey;
  Ok (sign_hash master (refund_hash version (sdrop 32 master) unix_ts refund_requested provider payment_id order_id)).

(** The public key is copied from behind the first 32 bytes of the key as it was
    passed: a seed has nothing there. *)
Definition refund_build_to_json (version : Z) (master_privkey : bytes) (unix_ts refund_requested : Z) (provider : PaymentProvider)
    (payment_id order_id : bytes) : result bytes :=
  sig ← refund_build_sig version master_privkey unix_ts refund_requested provider payment_id order_id;
  _ ← require (64 <=? size master_privkey) undefined_behaviour;
  jdump (refund_json (mkSetRefund version (sdrop 32 master_privkey) sig unix_ts refund_requested (mkTx provider payment_id order_id))).
End requests.
