(* ===== verification/ProBackendUse.v ===== *)
(** * Correctness of the Pro backend's requests and responses

    Requests to the backend carry signatures that can be checked against what
    they say; a proof the backend issues is read as it was issued and is valid;
    responses are always parsed, and what is reported without errors is what
    the response says. *)

From Stdlib Require Import ZArith String Ascii Lia.
From stdpp Require Import base option list strings numbers.
From S2P Require Import Prelude OrderedMap Bt Bencode Crypto Encrypt State Util ConfigMessage ConfigBase Text Ids MultiEncrypt Wire UserProfile GroupKeyDelivery HopEncryption MessageEncrypt MessageDelivery Blinding Curve25519 BlindedDelivery Protocol ProtocolDelivery ProBackend.

(** ** What a request says

    Its fields, read from the JSON alone *)
Definition jint (j : jvalue) (key : bytes) : option Z :=
  match jfind j key with Some (JInt z) => Some z | _ => None end.
Definition jtext (j : jvalue) (key : bytes) : option bytes :=
  match jfind j key with Some (JString s) => Some s | _ => None end.

Section requests.
Context `{JsonValues, OxencLaws, PersonalHash, X25519, Ed25519, SeedKeypair, !SeedKeypairLaws, !KeypairLaws}.

Definition jhex (j : jvalue) (key : bytes) : option bytes :=
  s ← jtext j key; if is_hex s then Some (from_hex s) else None.
(** A payment by one of the stores: its provider and its identifiers *)
Definition jtx (j : jvalue) : option UserTransaction :=
  tx ← jfind j "payment_tx"; provider ← jint tx "provider";
  if provider =? 1 then
    token ← jtext tx "google_payment_token"; order ← jtext tx "google_order_id"; Some (mkTx GOOGLE_PLAY_STORE token order)
  else if provider =? 2 then id ← jtext tx "apple_tx_id"; Some (mkTx IOS_APP_STORE id "")
  else None.

(** The signatures in a request are of the keys in it, over what it says:
    for a payment, over the one given, which may or may not be in the request;
    for a proof, with the version given in place of that of the request. *)
Definition add_signed_for (tx : UserTransaction) (j : jvalue) : option bool :=
  v ← jint j "version"; m ← jhex j "master_pkey"; r ← jhex j "rotating_pkey";
  ms ← jhex j "master_sig"; rs ← jhex j "rotating_sig";
  let h := payment_hash v m r (tx_provider tx) (tx_payment_id tx) (tx_order_id tx) in
  Some (verify_detached m h ms && verify_detached r h rs).
Definition add_signed (j : jvalue) : option bool := tx ← jtx j; add_signed_for tx j.
Definition generate_signed_as (v : Z) (j : jvalue) : option bool :=
  m ← jhex j "master_pkey"; r ← jhex j "rotating_pkey"; ts ← jint j "unix_ts_ms";
  ms ← jhex j "master_sig"; rs ← jhex j "rotating_sig";
  let h := generate_hash v m r ts in Some (verify_detached m h ms && verify_detached r h rs).
Definition generate_signed (j : jvalue) : option bool := v ← jint j "version"; generate_signed_as v j.
Definition details_signed (j : jvalue) : option bool :=
  v ← jint j "version"; m ← jhex j "master_pkey"; ts ← jint j "unix_ts_ms"; n ← jint j "count"; ms ← jhex j "master_sig";
  Some (verify_detached m (details_hash v m ts n) ms).
Definition refund_signed_for (tx : UserTransaction) (j : jvalue) : option bool :=
  v ← jint j "version"; m ← jhex j "master_pkey"; ts ← jint j "unix_ts_ms"; rts ← jint j "refund_requested_unix_ts_ms";
  ms ← jhex j "master_sig";
  Some (verify_detached m (refund_hash v m ts rts (tx_provider tx) (tx_payment_id tx) (tx_order_id tx)) ms).
Definition refund_signed (j : jvalue) : option bool := tx ← jtx j; refund_signed_for tx j.

(** The order a request is made with: Google's store has one, no other does. *)
Definition order_fits (provider : PaymentProvider) (order_id : bytes) : Prop :=
  match provider with GOOGLE_PLAY_STORE => order_id ≠ "" | _ => order_id = "" end.
(** A payment with the identifiers its store has *)
Definition tx_fits (provider : PaymentProvider) (order_id : bytes) : Prop :=
  match provider with GOOGLE_PLAY_STORE => order_id ≠ "" | IOS_APP_STORE => order_id = "" | _ => False end.

Lemma jhex_field j key s : jfind j key = Some (JString (to_hex s)) → jhex j key = Some s.
Proof. intros Hj. unfold jhex, jtext. rewrite Hj. simpl. by rewrite to_hex_digits, is_hex_digits, from_hex_digits. Qed.
Lemma jint_field j key z : jfind j key = Some (JInt z) → jint j key = Some z.
Proof. intros Hj. unfold jint. by rewrite Hj. Qed.

Lemma full_key seed key : size seed = 32 → privkey_of seed key →
  full_privkey key = Ok (seed_keypair seed).2 ∧ full_privkey (seed_keypair seed).2 = Ok (seed_keypair seed).2 ∧
  sdrop 32 (seed_keypair seed).2 = (seed_keypair seed).1.
Proof.
  intros Hs Hk. destruct (seed_keypair_form seed) as [Hpk Hsk]. split_and!.
  - by apply full_privkey_run.
  - apply full_privkey_run; [done|by right].
  - rewrite Hsk. replace 32%nat with (String.length seed) by (unfold size in Hs; lia). apply sdrop_app.
Qed.

Lemma sign_hash_verifies seed h : size seed = 32 → verify_detached (seed_keypair seed).1 h (sign_hash (seed_keypair seed).2 h) = true.
Proof. intros Hs. unfold sign_hash. by destruct (keypair_sign seed h Hs) as (sig & -> & _ & Hv). Qed.

Lemma tx_order provider order : tx_fits provider order → order_fits provider order.
Proof. by destruct provider. Qed.

Lemma rangeproof_unnamed id order j :
  jfind j "payment_tx" = Some (payment_tx_json (mkTx RANGEPROOF id order)) → jtx j = None.
Proof. intros Hj. unfold jtx. by rewrite Hj. Qed.

Lemma tx_again provider id order j : tx_fits provider order → jfind j "payment_tx" = Some (payment_tx_json (mkTx provider id order)) →
  jtx j = Some (mkTx provider id order).
Proof. intros Hf Hj. unfold jtx. rewrite Hj. destruct provider; simpl in Hf; try done; by subst. Qed.

Lemma add_run mseed mkey rseed rkey version provider id order :
  size mseed = 32 → privkey_of mseed mkey → size rseed = 32 → privkey_of rseed rkey → order_fits provider order →
  let m := (seed_keypair mseed).1 in let r := (seed_keypair rseed).1 in
  let h := payment_hash version m r provider id order in
  add_build_to_json version mkey rkey provider id order =
    jdump (add_json (mkAdd version m r (mkTx provider id order) (sign_hash (seed_keypair mseed).2 h) (sign_hash (seed_keypair rseed).2 h))).
Proof.
  intros Hm Hmk Hr Hrk Htx m r h. destruct (full_key mseed mkey Hm Hmk) as (Em & Em' & Dm), (full_key rseed rkey Hr Hrk) as (Er & Er' & Dr).
  unfold add_build_to_json, add_build_sigs. rewrite Em, bind_ret, Er, bind_ret, Em', bind_ret, Er', bind_ret, Dm, Dr.
  rewrite bind_req; [done|]. destruct provider; simpl in Htx; subst; try done. by destruct order.
Qed.

(** Any other order is refused. *)
Lemma add_refused mseed mkey rseed rkey version provider id order :
  size mseed = 32 → privkey_of mseed mkey → size rseed = 32 → privkey_of rseed rkey → ¬ order_fits provider order →
  add_build_to_json version mkey rkey provider id order = Throw invalid_argument.
Proof.
  intros Hm Hmk Hr Hrk Htx. destruct (full_key mseed mkey Hm Hmk) as (Em & Em' & _), (full_key rseed rkey Hr Hrk) as (Er & Er' & _).
  unfold add_build_to_json, add_build_sigs. rewrite Em, bind_ret, Er, bind_ret, Em', bind_ret, Er', bind_ret.
  assert ((match provider with GOOGLE_PLAY_STORE => negb (size order =? 0) | _ => size order =? 0 end) = false) as ->; [|done].
  apply not_true_iff_false. intros He. apply Htx. destruct provider; simpl in *; destruct order; done.
Qed.

Lemma generate_run mseed mkey rseed rkey version ts :
  size mseed = 32 → privkey_of mseed mkey → size rseed = 32 → privkey_of rseed rkey →
  let m := (seed_keypair mseed).1 in let r := (seed_keypair rseed).1 in
  let h := generate_hash 0 m r ts in
  generate_build_to_json version mkey rkey ts =
    jdump (generate_json (mkGenerate version m r ts (sign_hash (seed_keypair mseed).2 h) (sign_hash (seed_keypair rseed).2 h))).
Proof.
  intros Hm Hmk Hr Hrk m r h. destruct (full_key mseed mkey Hm Hmk) as (Em & Em' & Dm), (full_key rseed rkey Hr Hrk) as (Er & Er' & Dr).
  unfold generate_build_to_json, generate_build_sigs. by rewrite Em, bind_ret, Er, bind_ret, Em', bind_ret, Er', bind_ret, Dm, Dr.
Qed.

Lemma details_run mseed mkey version ts n :
  size mseed = 32 → privkey_of mseed mkey → let m := (seed_keypair mseed).1 in
  details_build_to_json version mkey ts n =
    jdump (details_json (mkGetDetails version m (sign_hash (seed_keypair mseed).2 (details_hash version m ts n)) ts n)).
Proof.
  intros Hm Hmk m. destruct (full_key mseed mkey Hm Hmk) as (Em & Em' & Dm).
  unfold details_build_to_json, details_build_sig. by rewrite Em, bind_ret, Em', bind_ret, Dm.
Qed.

(** From a full key, as which the public key is behind the seed *)
Lemma refund_run mseed version ts ts' provider id order :
  size mseed = 32 → let m := (seed_keypair mseed).1 in
  refund_build_to_json version (seed_keypair mseed).2 ts ts' provider id order =
    jdump (refund_json (mkSetRefund version m (sign_hash (seed_keypair mseed).2 (refund_hash version m ts ts' provider id order)) ts ts'
      (mkTx provider id order))).
Proof.
  intros Hm m. destruct (full_key mseed _ Hm (or_intror eq_refl)) as (_ & Em & Dm). destruct (seed_keypair_form mseed) as [Hpk Hsk].
  unfold refund_build_to_json, refund_build_sig. rewrite Em, !bind_ret, bind_req; [by rewrite Dm|].
  apply Z.leb_le. rewrite Hsk, size_app, Hm, Hpk. lia.
Qed.

(** A refund request made from a seed reads past the end of the seed. *)
Lemma seed_refund_undefined seed version ts ts' provider id order : size seed = 32 →
  refund_build_to_json version seed ts ts' provider id order = Throw undefined_behaviour.
Proof. intros Hs. unfold refund_build_to_json, refund_build_sig, full_privkey. rewrite Hs. reflexivity. Qed.

(** C23 (requests to the Pro backend).  Whichever form the user's keys are passed
    in, a request carries the public keys and their signatures, and they verify.
    The request that registers a payment is signed for the payment, which it
    names if it is of one of the two stores and does not name if it is by
    Rangeproof; it is made for Google's store only with an order, and for the
    others only without. The request for a proof is signed as one of version 0,
    so over all it says exactly when that is its version. The request for the
    payments is signed over all it says. The report of a refund is signed over
    all it says when the key is passed in full; from the seed, which is
    accepted elsewhere, it is undefined behaviour. *)
Theorem requests_signed mseed mkey rseed rkey version provider id order ts ts' n :
  size mseed = 32 → privkey_of mseed mkey → size rseed = 32 → privkey_of rseed rkey →
  let tx := mkTx provider id order in
  (order_fits provider order →
   ∃ j, add_build_to_json version mkey rkey provider id order = jdump j ∧ add_signed_for tx j = Some true ∧
        jhex j "master_pkey" = Some (seed_keypair mseed).1 ∧ jhex j "rotating_pkey" = Some (seed_keypair rseed).1 ∧
        jint j "version" = Some version ∧
        (tx_fits provider order → jtx j = Some tx ∧ add_signed j = Some true) ∧ (provider = RANGEPROOF → jtx j = None)) ∧
  (¬ order_fits provider order → add_build_to_json version mkey rkey provider id order = Throw invalid_argument) ∧
  (∃ j, generate_build_to_json version mkey rkey ts = jdump j ∧ generate_signed_as 0 j = Some true ∧
        jhex j "master_pkey" = Some (seed_keypair mseed).1 ∧ jhex j "rotating_pkey" = Some (seed_keypair rseed).1 ∧
        jint j "unix_ts_ms" = Some ts ∧ jint j "version" = Some version ∧ (version = 0 → generate_signed j = Some true)) ∧
  (∃ j, details_build_to_json version mkey ts n = jdump j ∧ details_signed j = Some true ∧
        jhex j "master_pkey" = Some (seed_keypair mseed).1 ∧ jint j "version" = Some version ∧
        jint j "unix_ts_ms" = Some ts ∧ jint j "count" = Some n) ∧
  (∃ j, refund_build_to_json version (seed_keypair mseed).2 ts ts' provider id order = jdump j ∧ refund_signed_for tx j = Some true ∧
        jhex j "master_pkey" = Some (seed_keypair mseed).1 ∧ jint j "version" = Some version ∧ jint j "unix_ts_ms" = Some ts ∧
        jint j "refund_requested_unix_ts_ms" = Some ts' ∧
        (tx_fits provider order → jtx j = Some tx ∧ refund_signed j = Some true)) ∧
  refund_build_to_json version mseed ts ts' provider id order = Throw undefined_behaviour.
Proof.
  intros Hm Hmk Hr Hrk tx. split_and!.
  - intros Ho. eexists. split; [exact (add_run mseed mkey rseed rkey version provider id order Hm Hmk Hr Hrk Ho)|].
    match goal with |- add_signed_for _ ?j = _ ∧ _ => assert (add_signed_for tx j = Some true) as Hs end.
    { unfold add_signed_for. rewrite (jint_field _ "version" version) by done. erewrite !jhex_field by done. simpl.
      by rewrite !sign_hash_verifies. }
    split_and!; [done|by apply jhex_field..|by apply jint_field| |].
    + intros Htx. unfold add_signed. rewrite (tx_again provider id order) by done. by split.
    + intros ->. by apply (rangeproof_unnamed id order).
  - by apply (add_refused mseed mkey rseed rkey).
  - eexists. split; [exact (generate_run mseed mkey rseed rkey version ts Hm Hmk Hr Hrk)|].
    match goal with |- generate_signed_as _ ?j = _ ∧ _ => assert (generate_signed_as 0 j = Some true) as Hs end.
    { unfold generate_signed_as. rewrite (jint_field _ "unix_ts_ms" ts) by done. erewrite !jhex_field by done. simpl.
      by rewrite !sign_hash_verifies. }
    split_and!; [done|by apply jhex_field..|by apply jint_field|by apply jint_field|].
    intros ->. unfold generate_signed. by rewrite (jint_field _ "version" 0) by done.
  - eexists. split; [exact (details_run mseed mkey version ts n Hm Hmk)|]. unfold details_signed.
    rewrite (jint_field _ "version" version), (jint_field _ "unix_ts_ms" ts), (jint_field _ "count" n) by done.
    erewrite !jhex_field by done. simpl. by rewrite sign_hash_verifies.
  - eexists. split; [exact (refund_run mseed version ts ts' provider id order Hm)|].
    match goal with |- refund_signed_for _ ?j = _ ∧ _ => assert (refund_signed_for tx j = Some true) as Hs end.
    { unfold refund_signed_for. rewrite (jint_field _ "version" version), (jint_field _ "unix_ts_ms" ts), (jint_field _ "refund_requested_unix_ts_ms" ts') by done.
      erewrite !jhex_field by done. simpl. by rewrite sign_hash_verifies. }
    split_and!; [done|by apply jhex_field|by apply jint_field..|].
    intros Htx. unfold refund_signed. rewrite (tx_again provider id order) by done. by split.
  - by apply seed_refund_undefined.
Qed.
End requests.

(** ** Reading a response

    [clean m Q]: [m] only adds errors, and its result satisfies [Q] if there are
    none after it. *)
Definition clean {A} (m : P A) (Q : A → Prop) : Prop :=
  ∀ errors a errors', m errors = (Ok a, errors') → ∃ new, errors' = errors ++ new ∧ (errors' = [] → Q a).

(** The value [json_require] gives without an error *)
Definition reads {A} (T : json_type A) (j : jvalue) (key : bytes) (a : A) : Prop :=
  ∃ v, jfind j key = Some v ∧ jt_is T v = true ∧ jt_get T v = Ok a.
Definition reads_time (j : jvalue) (key : bytes) (t : Z) : Prop := ∃ z, reads (uint 64) j key z ∧ t = to_int64 z.

Lemma clean_ret {A} (a : A) (Q : A → Prop) : Q a → clean (mret a) Q.
Proof. intros Ha errors a' errors' [= <- <-]. exists []. by rewrite app_nil_r. Qed.

Lemma clean_error {A} e (a : A) (Q : A → Prop) : clean (push_back e;; mret a) Q.
Proof. intros errors a' errors' [= <- <-]. exists [e]. split; [done|]. by intros [_ ?]%app_nil. Qed.

Lemma clean_bind {A B} (m : P A) (f : A → P B) (Q : A → Prop) (R : B → Prop) :
  clean m Q → (∀ a, clean (f a) (λ b, Q a → R b)) → clean (x ← m; f x) R.
Proof.
  intros Hm Hf errors b errors' (a & errors1 & Ea & Eb)%M_bind_Ok.
  destruct (Hm _ _ _ Ea) as (n1 & -> & H1), (Hf _ _ _ _ Eb) as (n2 & -> & H2).
  exists (n1 ++ n2). rewrite app_assoc. split; [done|]. intros He. apply H2; [done|]. apply H1. by apply app_nil in He as [? _].
Qed.

Lemma clean_weaken {A} (m : P A) (Q R : A → Prop) : clean m Q → (∀ a, Q a → R a) → clean m R.
Proof. intros Hm HQ errors a errors' E. destruct (Hm _ _ _ E) as (new & -> & Hn). eauto. Qed.

Lemma clean_require {A} (T : json_type A) j key : clean (json_require T j key) (reads T j key).
Proof.
  unfold json_require. destruct (jfind j key) as [v|] eqn:Ev; [|apply clean_error].
  destruct (jt_is T v) eqn:Et; [|apply clean_error].
  intros errors a errors' E. unfold lift in E. injection E as Eg <-. exists []. rewrite app_nil_r. split; [done|]. intros _. by exists v.
Qed.

Lemma clean_cast {A} (l : list A) z : clean (enum_cast l z) (λ a, l !! Z.to_nat z = Some a).
Proof. unfold enum_cast. destruct (l !! Z.to_nat z) eqn:E; [by apply clean_ret|]. intros errors a errors' [=]. Qed.

Lemma clean_between {A} what (l : list A) nil z :
  clean (between_nil_and_count what l nil z) (λ a, 0 < z < Z.of_nat (length l) - 1 ∧ l !! Z.to_nat z = Some a).
Proof.
  unfold between_nil_and_count. destruct (Z.ltb_spec 0 z), (Z.ltb_spec z (Z.of_nat (length l) - 1)); try apply clean_error.
  eapply clean_weaken; [apply clean_cast|]. auto.
Qed.

Create HintDb clean discriminated.
#[export] Hint Resolve clean_ret clean_error clean_require clean_cast clean_between : clean.

(** Through a sequence of steps, the facts each establishes as hypotheses *)
Ltac clean_steps := repeat (eapply clean_bind; [solve [eauto with clean]|intros ?]).

(** What an item reported without errors says *)
Definition item_ids (j : jvalue) (it : ProPaymentItem) : Prop :=
  match pi_payment_provider it with
  | GOOGLE_PLAY_STORE => reads text j "google_payment_token" (pi_google_payment_token it) ∧ reads text j "google_order_id" (pi_google_order_id it)
  | IOS_APP_STORE => reads text j "apple_original_tx_id" (pi_apple_original_tx_id it) ∧ reads text j "apple_tx_id" (pi_apple_tx_id it) ∧
      reads text j "apple_web_line_order_id" (pi_apple_web_line_order_id it)
  | RANGEPROOF => reads text j "rangeproof_order_id" (pi_rangeproof_order_id it)
  | _ => False
  end.
Definition enumerator {A} (w : Z) (l : list A) (j : jvalue) (key : bytes) (a : A) : Prop :=
  ∃ z, reads (uint w) j key z ∧ 0 < z < Z.of_nat (length l) - 1 ∧ l !! Z.to_nat z = Some a.
Definition item_of (j : jvalue) (it : ProPaymentItem) : Prop :=
  enumerator 64 all_statuses j "status" (pi_status it) ∧ enumerator 64 all_plans j "plan" (pi_plan it) ∧
  enumerator 32 all_providers j "payment_provider" (pi_payment_provider it) ∧
  Z.of_nat (pi_payment_provider_metadata it) = provider_int (pi_payment_provider it) ∧
  reads boolean j "auto_renewing" (pi_auto_renewing it) ∧
  reads_time j "unredeemed_unix_ts_ms" (pi_unredeemed_unix_ts it) ∧ reads_time j "redeemed_unix_ts_ms" (pi_redeemed_unix_ts it) ∧
  reads_time j "expiry_unix_ts_ms" (pi_expiry_unix_ts it) ∧ reads_time j "grace_period_duration_ms" (pi_grace_period_duration_ms it) ∧
  reads_time j "platform_refund_expiry_unix_ts_ms" (pi_platform_refund_expiry_unix_ts it) ∧
  reads_time j "revoked_unix_ts_ms" (pi_revoked_unix_ts it) ∧
  reads_time j "refund_requested_unix_ts_ms" (pi_refund_requested_unix_ts it) ∧
  item_ids j it.

Lemma clean_ids j provider :
  clean (payment_ids j provider) (λ '(token, order, original, tx, web, rorder),
    match provider with
    | GOOGLE_PLAY_STORE => reads text j "google_payment_token" token ∧ reads text j "google_order_id" order
    | IOS_APP_STORE => reads text j "apple_original_tx_id" original ∧ reads text j "apple_tx_id" tx ∧ reads text j "apple_web_line_order_id" web
    | RANGEPROOF => reads text j "rangeproof_order_id" rorder
    | _ => True
    end).
Proof. destruct provider; cbn [payment_ids]; clean_steps; apply clean_ret; auto. Qed.

Lemma provider_at z p : 0 < z < Z.of_nat (length all_providers) - 1 → all_providers !! Z.to_nat z = Some p →
  z = provider_int p ∧ p ≠ PROVIDER_NIL ∧ p ≠ PROVIDER_COUNT.
Proof.
  intros Hz Hp. simpl in Hz. assert (z = 1 ∨ z = 2 ∨ z = 3) as [-> | [-> | ->]] by lia; vm_compute in Hp; by injection Hp as <-.
Qed.

Lemma clean_item j : clean (payment_item j) (item_of j).
Proof.
  unfold payment_item. clean_steps. eapply clean_bind; [apply clean_ids|].
  intros [[[[[token order] original] tx] web] rorder]. apply clean_ret.
  intros Hids (Hr3 & Hl3) (Hr2 & Hl2) (Hr1 & Hl1) ? ? ? ? ? ? ? ? ? ? ?.
  destruct (provider_at _ _ Hr3 Hl3) as (Hz & Hnil & Hcount).
  unfold item_of, enumerator, reads_time, item_ids; cbn [pi_status pi_plan pi_payment_provider pi_payment_provider_metadata pi_auto_renewing
    pi_unredeemed_unix_ts pi_redeemed_unix_ts pi_expiry_unix_ts pi_grace_period_duration_ms pi_platform_refund_expiry_unix_ts
    pi_revoked_unix_ts pi_refund_requested_unix_ts pi_google_payment_token pi_google_order_id pi_apple_original_tx_id pi_apple_tx_id
    pi_apple_web_line_order_id pi_rangeproof_order_id].
  split_and!; eauto; [|by destruct a12]. rewrite <- Hz. destruct a12; try done; rewrite Z2Nat.id by lia; done.
Qed.

(** The items that are kept all say what their elements say, also when there
    are errors; without errors there is one for each element. *)
Lemma items_run {A} (item : jvalue → P A) (Q : jvalue → A → Prop) :
  (∀ j, clean (item j) (Q j)) →
  ∀ l index items errors r errors', parse_items item index l items errors = (Ok r, errors') →
  ∃ more new, r = items ++ more ∧ errors' = errors ++ new ∧ Forall2 Q (take (length more) l) more ∧
    (errors' = [] → length more = length l).
Proof.
  intros Hitem. induction l as [|v l IH]; intros index items errors r errors' E.
  { injection E as <- <-. exists [], []. rewrite !app_nil_r. by split_and!. }
  destruct v as [| | | | |l'|m].
  7:{ apply M_bind_Ok in E as (a & e1 & Ea & E). apply M_bind_Ok in E as (bad & e2 & Eb & E). injection Eb as Eb ->.
      destruct (Hitem _ _ _ _ Ea) as (n1 & -> & Hq). destruct bad.
      - injection E as <- <-. exists [], n1. rewrite app_nil_r. split_and!; [done..|]. intros He. by rewrite He in Eb.
      - destruct (errors ++ n1) as [|e es] eqn:En; [|discriminate Eb]. pose proof En as [-> ->]%app_nil.
        apply IH in E as (more & new & -> & -> & HF & Hlen). exists (a :: more), new. rewrite <- app_assoc. split_and!; [done..| |].
        + cbn [length take]. constructor; [by apply Hq|done].
        + intros He. cbn [length]. by rewrite Hlen. }
  all: injection E as <- <-; eexists [], [_]; rewrite app_nil_r; (split_and!; [done..|]); intros []%app_nil; done.
Qed.

(** What a response without errors says *)
Definition details_of (obj : jvalue) (d : ProDetails) : Prop :=
  (∃ z, reads (uint 32) obj "status" z ∧ z < 3 ∧ all_user_statuses !! Z.to_nat z = Some (pd_user_status d)) ∧
  (∃ z, reads (uint 32) obj "error_report" z ∧ z < 2 ∧ all_reports !! Z.to_nat z = Some (pd_error_report d)) ∧
  reads boolean obj "auto_renewing" (pd_auto_renewing d) ∧ reads (uint 32) obj "payments_total" (pd_payments_total d) ∧
  reads_time obj "expiry_unix_ts_ms" (pd_expiry_unix_ts d) ∧ reads_time obj "grace_period_duration_ms" (pd_grace_period_duration d) ∧
  reads_time obj "refund_requested_unix_ts_ms" (pd_refund_requested_unix_ts d) ∧
  ∃ l, reads array_t obj "items" l ∧ Forall2 item_of l (pd_items d).

Lemma clean_items l : clean (parse_items payment_item 0 l []) (Forall2 item_of l).
Proof.
  intros errors r errors' E. destruct (items_run payment_item item_of clean_item _ _ _ _ _ _ E) as (more & new & -> & -> & HF & Hlen).
  exists new. split; [done|]. intros He. rewrite Hlen, take_ge in HF by (done || lia). done.
Qed.

Lemma clean_details obj : clean (details_payload obj) (details_of obj).
Proof.
  unfold details_payload. eapply clean_bind; [apply clean_require|]. intros us.
  destruct (Z.leb_spec 3 us); [apply clean_error|]. clean_steps. destruct (Z.leb_spec 2 a0); [apply clean_error|].
  clean_steps. eapply clean_bind; [apply clean_items|]. intros items. apply clean_ret. intros. unfold details_of, reads_time. cbn.
  split_and!; eauto.
Qed.

(** ** Every response is parsed

    The only step the standard leaves undefined is the conversion of a floating
    point number out of range.  [fl]: there may be floating point numbers. *)
Fixpoint no_floats (j : jvalue) : bool :=
  match j with
  | JFloat _ => false
  | JArray l => forallb no_floats l
  | JObject m => forallb (λ kv, no_floats kv.2) m
  | _ => true
  end.
Definition plain_json (fl : bool) (j : jvalue) : Prop := fl = true ∨ no_floats j = true.

(** [m] ends, with a result that satisfies [U] whatever the errors; or it is
    undefined, which takes a floating point number. *)
Definition runs (fl : bool) {A} (m : P A) (U : A → Prop) : Prop :=
  ∀ errors, match (m errors).1 with Ok a => U a | Throw e => fl = true ∧ e = undefined_behaviour end.

Section runs.
Context (fl : bool).
#[local] Abbreviation runs := (runs fl).
#[local] Abbreviation plain_json := (plain_json fl).

Lemma runs_ret {A} (a : A) (U : A → Prop) : U a → runs (mret a) U.
Proof. by intros Ha errors. Qed.
Lemma runs_error {A} e (a : A) (U : A → Prop) : U a → runs (push_back e;; mret a) U.
Proof. by intros Ha errors. Qed.
Lemma runs_bind {A B} (m : P A) (f : A → P B) (U : A → Prop) (V : B → Prop) :
  runs m U → (∀ a, U a → runs (f a) V) → runs (x ← m; f x) V.
Proof.
  intros Hm Hf errors. specialize (Hm errors). unfold mbind, M_bind. destruct (m errors) as [[a|e] errors']; [by apply Hf|done].
Qed.
Lemma runs_errors : runs has_errors (λ _, True).
Proof. by intros errors. Qed.

Lemma member_plain j key v : plain_json j → jfind j key = Some v → plain_json v.
Proof.
  intros [Hf|Hj] Ev; [by left|]. right. destruct j as [| | | | | |m]; try done. simpl in Ev, Hj.
  apply mfind_Some_In in Ev. rewrite forallb_forall in Hj. apply (Hj (key, v)). by apply list_elem_of_In.
Qed.

Lemma runs_uint w j key : 0 ≤ w → plain_json j → runs (json_require (uint w) j key) (λ z, 0 ≤ z < 2 ^ w).
Proof.
  intros Hw Hj. assert (0 < 2 ^ w) as Hp by (by apply Z.pow_pos_nonneg). unfold json_require.
  destruct (jfind j key) as [v|] eqn:Ev; [|apply runs_error; cbn; lia].
  pose proof (member_plain j key v Hj Ev) as Hv. destruct v; try (apply runs_error; cbn; lia).
  - intros errors. cbn. by apply Z.mod_pos_bound.
  - intros errors. cbn. destruct (Z.leb_spec 0 integral), (Z.ltb_spec integral (2 ^ w)); cbn; destruct Hv; try done; lia.
Qed.
Lemma runs_text j key : runs (json_require text j key) (λ _, True).
Proof. unfold json_require. destruct (jfind j key) as [v|]; [|by apply runs_error]. by destruct v. Qed.
Lemma runs_boolean j key : runs (json_require boolean j key) (λ _, True).
Proof. unfold json_require. destruct (jfind j key) as [v|]; [|by apply runs_error]. by destruct v. Qed.
Lemma runs_array j key : plain_json j → runs (json_require array_t j key) (Forall plain_json).
Proof.
  intros Hj. unfold json_require. destruct (jfind j key) as [v|] eqn:Ev; [|apply runs_error; constructor].
  pose proof (member_plain j key v Hj Ev) as Hv. destruct v; try (apply runs_error; constructor).
  intros errors. cbn. destruct Hv as [Hf|Hl]; [apply Forall_forall; by left|].
  simpl in Hl. rewrite forallb_forall in Hl. apply Forall_forall. intros v Hin. right. by apply Hl.
Qed.
Lemma runs_object j key : plain_json j → runs (json_require object_t j key) plain_json.
Proof.
  intros Hj. unfold json_require. destruct (jfind j key) as [v|] eqn:Ev; [|by apply runs_error; right].
  pose proof (member_plain j key v Hj Ev) as Hv. destruct v; try (by apply runs_error; right). by intros errors.
Qed.
Lemma runs_hex `{Oxenc} j key n : runs (json_require_fixed_bytes_from_hex j key n) (λ _, True).
Proof.
  eapply runs_bind; [apply runs_text|]. intros hex _. cbv zeta. destruct (negb _); [by apply runs_error|]. destruct (is_hex _); [by apply runs_ret|by apply runs_error].
Qed.
Lemma runs_cast {A} (l : list A) z : (Z.to_nat z < length l)%nat → runs (enum_cast l z) (λ a, l !! Z.to_nat z = Some a).
Proof.
  intros Hz. unfold enum_cast. destruct (lookup_lt_is_Some_2 l (Z.to_nat z) Hz) as [a ->]. by apply runs_ret.
Qed.
Lemma runs_between {A} what (l : list A) nil z : runs (between_nil_and_count what l nil z) (λ _, True).
Proof.
  unfold between_nil_and_count. destruct (Z.ltb_spec 0 z), (Z.ltb_spec z (Z.of_nat (length l) - 1)); try by apply runs_error.
  intros errors. pose proof (runs_cast l z ltac:(lia) errors) as Hr. cbn in *. by destruct (enum_cast l z errors) as [[?|?] ?].
Qed.
Lemma runs_reported index l : runs (push_errors index l) (λ _, True).
Proof.
  revert index. induction l as [|v l IH]; intros index; [by apply runs_ret|]. destruct v; try by intros errors.
  eapply (runs_bind _ _ (λ _, True)); [by intros errors|]. intros _ _. apply IH.
Qed.
End runs.

Create HintDb runs discriminated.
#[export] Hint Resolve runs_ret runs_error runs_errors runs_text runs_boolean runs_array runs_object runs_hex runs_between : runs.
#[export] Hint Extern 1 (runs _ (json_require (uint _) _ _) _) => apply runs_uint; [lia|] : runs.
Ltac runs_steps := repeat (eapply runs_bind; [solve [eauto with runs]|intros ? ?]).

(** The items that are reported are, in order, what the first elements of the
    response's list say, each in full. *)
Definition listed (obj : jvalue) (items : list ProPaymentItem) : Prop :=
  items = [] ∨ ∃ l, reads array_t obj "items" l ∧ Forall2 item_of (take (length items) l) items.

Section responses.
Context `{JsonValues, OxencLaws}.

Lemma runs_items fl {A} (item : jvalue → P A) l index items :
  (∀ j, plain_json fl j → runs fl (item j) (λ _, True)) → Forall (plain_json fl) l →
  runs fl (parse_items item index l items) (λ _, True).
Proof.
  intros Hitem Hl. revert index items. induction Hl as [|v l Hv Hl IH]; intros index items; [by apply runs_ret|].
  destruct v; try by apply runs_error.
  cbn [parse_items]. eapply runs_bind; [by apply Hitem|]. intros a _. runs_steps. case_match; [by apply runs_ret|apply IH].
Qed.

Lemma runs_payment fl j : plain_json fl j → runs fl (payment_item j) (λ _, True).
Proof.
  intros Hj. unfold payment_item. runs_steps.
  eapply (runs_bind _ _ _ (λ _, True)); [|intros [[[[[? ?] ?] ?] ?] ?] _; by apply runs_ret].
  match goal with |- runs _ (payment_ids _ ?p) _ => destruct p end; cbn [payment_ids]; runs_steps; by apply runs_ret.
Qed.

Lemma runs_revocations fl j : plain_json fl j → runs fl (revocations_payload j) (λ _, True).
Proof.
  intros Hj. unfold revocations_payload. runs_steps. eapply runs_bind; [|intros ? _; by apply runs_ret].
  apply (runs_items fl); [|done]. intros v Hv. unfold revocation_item. runs_steps. by apply runs_ret.
Qed.

Definition details_enums (d : ProDetails) : Prop := pd_user_status d ≠ USER_COUNT ∧ pd_error_report d ≠ REPORT_COUNT.
Lemma runs_details fl j : plain_json fl j → runs fl (details_payload j) details_enums.
Proof.
  intros Hj. unfold details_payload. eapply runs_bind; [apply runs_uint; [lia|done]|]. intros us Hus. cbn beta in Hus.
  destruct (Z.leb_spec 3 us); [by apply runs_error|].
  eapply runs_bind; [apply runs_cast; simpl; lia|]. intros st Hst.
  assert (st ≠ USER_COUNT) as Hne.
  { assert (us = 0 ∨ us = 1 ∨ us = 2) as [-> | [-> | ->]] by lia; vm_compute in Hst; by injection Hst as <-. }
  eapply runs_bind; [apply runs_uint; [lia|done]|]. intros er Her. cbn beta in Her. destruct (Z.leb_spec 2 er); [by apply runs_error|].
  eapply runs_bind; [apply runs_cast; simpl; lia|]. intros rep Hrep.
  assert (rep ≠ REPORT_COUNT) as Hne'.
  { assert (er = 0 ∨ er = 1) as [-> | ->] by lia; vm_compute in Hrep; by injection Hrep as <-. }
  runs_steps. eapply runs_bind; [apply (runs_items fl); [apply runs_payment|done]|]. intros items _. by apply runs_ret.
Qed.

Lemma runs_response fl {A} (zero : A) payload json U :
  (∀ j, jparse json = Some j → plain_json fl j) → U zero → (∀ j, plain_json fl j → runs fl (payload j) U) →
  runs fl (parse_backend_response zero payload json) (λ r, U r.2).
Proof.
  intros Hj Hz Hp. unfold parse_backend_response. eapply (runs_bind _ _ _ (plain_json fl)).
  { unfold json_parse. destruct (jparse json) as [j|]; [by apply runs_ret, Hj|by apply runs_error; right]. }
  intros j Hpl. runs_steps. case_match; [by apply runs_ret|]. destruct (negb _).
  { eapply (runs_bind _ _ _ (λ _, True)); [|intros _ _; by apply runs_ret].
    unfold parse_json_response_errors. runs_steps. apply runs_reported. }
  runs_steps. case_match; [by apply runs_ret|]. eapply runs_bind; [by apply Hp|]. intros b Hb. by apply runs_ret.
Qed.

Lemma runs_finished fl {A} (m : P (Z * A)) U : runs fl m (λ r, U r.2) →
  match finish_parse m with Ok r => U (r_body r) | Throw e => fl = true ∧ e = undefined_behaviour end.
Proof. intros Hm. specialize (Hm []). unfold finish_parse. by destruct (m []) as [[[st a]|e] errors]. Qed.

Lemma parsed_ok {A} (zero : A) payload json :
  (∀ j, jparse json = Some j → no_floats j = true) → (∀ j, plain_json false j → runs false (payload j) (λ _, True)) →
  is_ok (finish_parse (parse_backend_response zero payload json)) = true.
Proof.
  intros Hj Hp. pose proof (runs_finished false (parse_backend_response zero payload json) (λ _, True)) as Hr.
  destruct (finish_parse _); [done|]. destruct Hr as [? _]; [|done]. apply (runs_response false zero payload json (λ _, True)); [|done..]. intros j Ej. right. by apply Hj.
Qed.

(** (every response is parsed).  Whatever the backend, or someone in its place,
    sends, be it JSON or not, parsing returns a response, with errors in it if
    need be, as long as there are no floating point numbers; and never throws. *)
Theorem responses_parsed json :
  (∀ j, jparse json = Some j → no_floats j = true) →
  is_ok (parse_proof_response json) = true ∧ is_ok (parse_revocations json) = true ∧
  is_ok (parse_details json) = true ∧ is_ok (parse_refund json) = true.
Proof.
  intros Hj. split_and!; apply parsed_ok; try done; intros j Hpl.
  - unfold proof_payload. runs_steps. by apply runs_ret.
  - by apply runs_revocations.
  - intros errors. pose proof (runs_details false j Hpl errors) as Hr. by destruct ((details_payload j errors).1).
  - unfold refund_payload. runs_steps. by apply runs_ret.
Qed.

(** How a response comes about: nothing was read, or the payload of a success *)
Lemma response_cases {A} (zero : A) payload json r :
  finish_parse (parse_backend_response zero payload json) = Ok r →
  (r_body r = zero ∧ (r_status r ≠ 0 ∨ r_errors r ≠ [])) ∨
  ∃ j obj, jparse json = Some j ∧ reads (uint 8) j "status" 0 ∧ reads object_t j "result" obj ∧
    r_status r = 0 ∧ payload obj [] = (Ok (r_body r), r_errors r).
Proof.
  unfold finish_parse. destruct (parse_backend_response zero payload json []) as [[[st a]|e] errors'] eqn:E; [|done]. intros [= <-]. cbn.
  unfold parse_backend_response, json_parse in E. destruct (jparse json) as [j|]; [|injection E as <- <- _; by left; split; [|left]].
  rewrite run_ret in E. apply M_bind_Ok in E as (status & e1 & Es & E). apply M_bind_Ok in E as (bad & e2 & Eb & E). injection Eb as Eb ->.
  destruct (clean_require _ _ _ _ _ _ Es) as (n1 & -> & Hst). destruct bad; [injection E as <- <- _; by left; split; [|left]|].
  destruct n1; [|discriminate Eb]. destruct (Z.eqb_spec status BACKEND_STATUS_SUCCESS) as [Hz | Hne]; cbn [negb] in E; [subst status|].
  2:{ apply M_bind_Ok in E as (u & e3 & _ & E). injection E as <- <- _. left. split; [done|by left]. }
  apply M_bind_Ok in E as (obj & e3 & Eo & E). apply M_bind_Ok in E as (bad & e2 & Eb' & E). injection Eb' as Eb' ->.
  destruct (clean_require _ _ _ _ _ _ Eo) as (n2 & -> & Ho). destruct bad.
  { injection E as <- <- <-. left. split; [done|]. right. by destruct n2. }
  destruct n2; [|discriminate Eb']. apply M_bind_Ok in E as (a' & e3 & Ea & E). injection E as <- <- <-.
  right. exists j, obj. split_and!; auto.
Qed.

Lemma required_array j key errors l errors' :
  json_require array_t j key errors = (Ok l, errors') → l = [] ∨ reads array_t j key l.
Proof.
  unfold json_require. destruct (jfind j key) as [v|] eqn:Ev; [|intros [= <- _]; by left].
  destruct (jt_is array_t v) eqn:Et; [|intros [= <- _]; by left]. unfold lift. intros [= Eg _]. right. by exists v.
Qed.

Lemma kept_listed obj errors d errors' : details_payload obj errors = (Ok d, errors') → listed obj (pd_items d).
Proof.
  intros E. unfold details_payload in E. apply M_bind_Ok in E as (us & e1 & _ & E). destruct (_ <=? us); [injection E as <- _; by left|].
  apply M_bind_Ok in E as (st & e2 & _ & E). apply M_bind_Ok in E as (er & e3 & _ & E). destruct (_ <=? er); [injection E as <- _; by left|].
  do 6 (apply M_bind_Ok in E as (? & ? & _ & E)). apply M_bind_Ok in E as (l & e5 & El & E).
  apply M_bind_Ok in E as (items & e4 & Ei & E). injection E as <- _. cbn [pd_items].
  destruct (items_run payment_item item_of clean_item _ _ _ _ _ _ Ei) as (more & new & -> & _ & HF & _). cbn [app].
  apply required_array in El as [->|Hl]; [|right; by exists l].
  left. rewrite take_nil in HF. by apply Forall2_nil_inv_l in HF.
Qed.

(** C24 (the payments of a user).  Of a response with payments the status of the
    user, the report, and the status, plan and provider of every payment are
    values of their types. The payments reported are the first ones of the list
    in the response's result, in its order, and every field of each is what its
    element of the list says, also when there are errors further on; and if
    there are no errors after a success, the response is the JSON it was parsed
    from, with all its payments. *)
Theorem details_checked json r :
  parse_details json = Ok r →
  details_enums (r_body r) ∧
  (pd_items (r_body r) ≠ [] →
   ∃ j obj l, jparse json = Some j ∧ reads object_t j "result" obj ∧ reads array_t obj "items" l ∧
     Forall2 item_of (take (length (pd_items (r_body r))) l) (pd_items (r_body r))) ∧
  (r_status r = 0 → r_errors r = [] →
   ∃ j obj, jparse json = Some j ∧ reads object_t j "result" obj ∧ details_of obj (r_body r)).
Proof.
  unfold parse_details. intros Hr. destruct (response_cases _ _ _ _ Hr) as [(-> & Hbad) | (j & obj & Hj & _ & Ho & Hst & Hp)].
  { split_and!; [done..|]. intros Hs He. by destruct Hbad. }
  split_and!.
  - pose proof (runs_details true obj (or_introl eq_refl) []) as Hd. by rewrite Hp in Hd.
  - intros Hne. destruct (kept_listed _ _ _ _ Hp) as [?|(l & Hl & HF)]; [done|]. by exists j, obj, l.
  - intros _ He. destruct (clean_details obj _ _ _ Hp) as (new & _ & Hd). exists j, obj. auto.
Qed.

(** ** Proofs *)

(** How bytes may be written *)
Definition hex_written (x s : bytes) : Prop := x = to_hex s ∨ x = "0x" +:+ to_hex s ∨ x = "0X" +:+ to_hex s.
Definition proof_written (obj : jvalue) (p : ProProof) : Prop :=
  jfind obj "version" = Some (JInt (proof_version p)) ∧ jfind obj "expiry_unix_ts_ms" = Some (JInt (proof_expiry_unix_ts p)) ∧
  ∃ g r s, jfind obj "gen_index_hash" = Some (JString g) ∧ hex_written g (proof_gen_index_hash p) ∧
    jfind obj "rotating_pkey" = Some (JString r) ∧ hex_written r (proof_rotating_pubkey p) ∧
    jfind obj "sig" = Some (JString s) ∧ hex_written s (proof_sig p).
Definition proof_sizes (p : ProProof) : Prop :=
  0 ≤ proof_version p < 256 ∧ 0 ≤ proof_expiry_unix_ts p < 2 ^ 63 ∧ size (proof_gen_index_hash p) = 32 ∧
  size (proof_rotating_pubkey p) = 32 ∧ size (proof_sig p) = 64.

Lemma digits_no_0x s : drop_0x (hex_digits s) = hex_digits s.
Proof.
  assert (Forall (λ n, hex_digit n ≠ "x"%char ∧ hex_digit n ≠ "X"%char) (seqZ 0 16)) as Hall by (repeat constructor; by vm_compute).
  rewrite Forall_forall in Hall. unfold drop_0x. destruct s as [|c s]; [done|]. cbn [hex_digits].
  destruct (Hall (code c mod 16)) as [Hx HX]; [apply list_elem_of_In, elem_of_seqZ; pose proof (Z.mod_pos_bound (code c) 16); lia|].
  cbn [String.prefix]. repeat case_match; try done; congruence.
Qed.

Lemma hex_run {B} obj key x s n (f : bytes → P B) errors : jfind obj key = Some (JString x) → hex_written x s → size s = Z.of_nat n →
  (b ← json_require_fixed_bytes_from_hex obj key n; f b) errors = f s errors.
Proof.
  intros Hf Hx Hs. rewrite run_bind. unfold json_require_fixed_bytes_from_hex, json_require. rewrite Hf. cbn [jt_is text jt_get]. rewrite run_lift.
  assert (drop_0x x = hex_digits s) as ->.
  { destruct Hx as [-> | [-> | ->]]; rewrite to_hex_digits; [apply digits_no_0x|unfold drop_0x; by destruct (hex_digits s)..]. }
  cbv zeta. rewrite hex_digits_size, Hs, Z.mul_comm, Z.eqb_refl. cbn [negb]. by rewrite is_hex_digits, from_hex_digits.
Qed.

Lemma run_require {A B} (T : json_type A) j key a (f : A → P B) errors : reads T j key a → (x ← json_require T j key; f x) errors = f a errors.
Proof. intros (v & Hf & Ht & Hg). unfold json_require. by rewrite Hf, Ht, run_lift, Hg. Qed.
Lemma reads_uint w j key z : jfind j key = Some (JInt z) → 0 ≤ z < 2 ^ w → reads (uint w) j key z.
Proof. intros Hf Hz. exists (JInt z). split_and!; [done..|]. cbn. by rewrite Z.mod_small. Qed.

(** C22 (issued proofs).  A proof the backend issues, its bytes in hex in any of the
    usual ways, is read as it is, without errors; and if the backend signed it,
    it is valid until it expires. *)
Theorem issued_proof_valid `{PersonalHash, X25519, Ed25519, SeedKeypair, !SeedKeypairLaws, !KeypairLaws} json j obj p bseed now :
  jparse json = Some j → jfind j "status" = Some (JInt 0) → jfind j "result" = Some obj → (∃ m, obj = JObject m) →
  proof_written obj p → proof_sizes p →
  size bseed = 32 → proof_sig p = sign_hash (seed_keypair bseed).2 (proof_hash p) →
  parse_proof_response json = Ok (mkResponse 0 [] p) ∧
  proof_status (seed_keypair bseed).1 now None p = Ok (if now <=? proof_expiry_unix_ts p then Valid else Expired).
Proof.
  intros Hj Hst Hres [m Hm] (Hv & He & g & r & s & Hg & Hg' & Hr & Hr' & Hs & Hs') (Bv & Be & Sg & Sr & Ss) Hb Hsig. split.
  - unfold parse_proof_response, finish_parse, parse_backend_response, json_parse. rewrite Hj, run_ret.
    rewrite (run_require _ _ _ 0) by (by apply reads_uint). unfold has_errors. rewrite run_gets.
    cbn [length Nat.eqb negb Z.eqb BACKEND_STATUS_SUCCESS].
    rewrite (run_require _ _ _ obj) by (exists obj; by subst obj). rewrite run_gets. cbn [length Nat.eqb negb].
    rewrite run_bind. unfold proof_payload. rewrite (run_require _ _ _ (proof_version p)) by (by apply reads_uint).
    rewrite (run_require _ _ _ (proof_expiry_unix_ts p)) by (apply reads_uint; [done|lia]).
    rewrite (hex_run _ _ g (proof_gen_index_hash p)), (hex_run _ _ r (proof_rotating_pubkey p)), (hex_run _ _ s (proof_sig p)) by done.
    cbn. rewrite to_int64_id by done. by destruct p.
  - unfold proof_status, verify_signature, is_active. destruct (seed_keypair_form bseed) as [Hpk _].
    rewrite Hpk. cbn [Z.eqb Pos.eqb require]. rewrite !bind_ret, Hsig, sign_hash_verifies by done. cbn. by destruct (_ <=? _).
Qed.
End responses.

(** ** A concrete JSON library

    A letter says what a value is; the elements of arrays and objects follow,
    each after a comma. *)
Fixpoint jwrite (j : jvalue) : bytes :=
  match j with
  | JNull => "N"
  | JBool b => if b then "T" else "F"
  | JInt z => "I" +:+ put z
  | JFloat z => "D" +:+ put z
  | JString s => "S" +:+ put s
  | JArray l => "A" +:+ foldr (λ v rest, "," +:+ jwrite v +:+ rest) "]" l
  | JObject m => "O" +:+ foldr (λ kv rest, "," +:+ put kv.1 +:+ jwrite kv.2 +:+ rest) "]" m
  end.

Section jread_list.
Context {A : Type} (item : bytes → option (A * bytes)).
Fixpoint jread_list (fuel : nat) (s : bytes) : option (list A * bytes) :=
  match fuel, s with
  | S fuel, String c s =>
      if Ascii.eqb c "," then '(a, s) ← item s; '(l, s) ← jread_list fuel s; Some (a :: l, s) else Some ([], s)
  | _, _ => None
  end.
End jread_list.

Fixpoint jread (fuel : nat) (s : bytes) : option (jvalue * bytes) :=
  match fuel, s with
  | S fuel, String c s =>
      if Ascii.eqb c "N" then Some (JNull, s) else if Ascii.eqb c "T" then Some (JBool true, s)
      else if Ascii.eqb c "F" then Some (JBool false, s)
      else if Ascii.eqb c "I" then '(z, s) ← get s; Some (JInt z, s)
      else if Ascii.eqb c "D" then '(z, s) ← get s; Some (JFloat z, s)
      else if Ascii.eqb c "S" then '(t, s) ← get s; Some (JString t, s)
      else if Ascii.eqb c "A" then '(l, s) ← jread_list (jread fuel) fuel s; Some (JArray l, s)
      else '(m, s) ← jread_list (λ s, '(k, s) ← get s; '(v, s) ← jread fuel s; Some ((k, v), s)) fuel s; Some (JObject m, s)
  | _, _ => None
  end.
#[global] Instance plain_values : JsonValues := {|
  jparse s := fst <$> jread (String.length s) s;
  jdump j := Ok (jwrite j);
|}.
#[local] Existing Instances toy_core toy_fe.

Definition sample_issued : ProProof := mkProof 0 (zeros 32) (seed_keypair seed_r).1 1700000000000 sample_proof_sig.
Definition sample_result : jvalue :=
  jobject [("version", JInt 0); ("expiry_unix_ts_ms", JInt 1700000000000); ("gen_index_hash", JString ("0x" +:+ to_hex (zeros 32)));
    ("rotating_pkey", JString (to_hex (seed_keypair seed_r).1)); ("sig", JString (to_hex sample_proof_sig))].
Definition sample_response (status : Z) (result : jvalue) : jvalue := jobject [("status", JInt status); ("result", result)].

Lemma requests_signed_witness :
  (∃ j, add_build_to_json 0 seed_a (seed_keypair seed_r).2 GOOGLE_PLAY_STORE "token" "order" = jdump j ∧ add_signed j = Some true) ∧
  (∃ j, generate_build_to_json 0 seed_a (seed_keypair seed_r).2 5 = jdump j ∧ generate_signed j = Some true).
Proof.
  destruct (requests_signed seed_a seed_a seed_r (seed_keypair seed_r).2 0 GOOGLE_PLAY_STORE "token" "order" 5 6 7)
    as (Hadd & _ & (j' & Hj' & _ & _ & _ & _ & _ & Hs') & _).
  - reflexivity.
  - by left.
  - reflexivity.
  - by right.
  - destruct Hadd as (j & Hj & _ & _ & _ & _ & Hs & _); [done|]. split.
    + exists j. split; [exact Hj|]. by apply Hs.
    + exists j'. split; [exact Hj'|]. by apply Hs'.
Defined.

Lemma issued_proof_valid_witness :
  parse_proof_response (jwrite (sample_response 0 sample_result)) = Ok (mkResponse 0 [] sample_issued) ∧
  proof_status (seed_keypair backend_seed).1 1600000000000 None sample_issued = Ok Valid.
Proof.
  destruct (issued_proof_valid (jwrite (sample_response 0 sample_result)) (sample_response 0 sample_result) sample_result sample_issued
    backend_seed 1600000000000) as [H1 H2].
  - vm_compute. reflexivity.
  - reflexivity.
  - reflexivity.
  - by eexists.
  - split_and!; [reflexivity..|]. exists ("0x" +:+ to_hex (zeros 32)), (to_hex (seed_keypair seed_r).1), (to_hex sample_proof_sig).
    split_and!; [reflexivity|by right; left|reflexivity|by left|reflexivity|by left].
  - split_and!; vm_compute; (reflexivity || discriminate).
  - reflexivity.
  - vm_compute. reflexivity.
  - split; [exact H1|exact H2].
Defined.

Lemma responses_parsed_witness :
  is_ok (parse_details (jwrite (jobject [("status", JInt 0); ("result", JArray [JInt 5])]))) = true.
Proof.
  destruct (responses_parsed (jwrite (jobject [("status", JInt 0); ("result", JArray [JInt 5])]))) as (_ & _ & Hd & _); [|exact Hd].
  intros j Hj. vm_compute in Hj. injection Hj as <-. reflexivity.
Defined.

(** A response with one payment in each store *)
Definition sample_payment (provider : Z) (ids : list (bytes * jvalue)) : jvalue :=
  jobject ([("status", JInt 2); ("plan", JInt 1); ("payment_provider", JInt provider); ("auto_renewing", JBool true);
    ("unredeemed_unix_ts_ms", JInt 1); ("redeemed_unix_ts_ms", JInt 2); ("expiry_unix_ts_ms", JInt 3); ("grace_period_duration_ms", JInt 4);
    ("platform_refund_expiry_unix_ts_ms", JInt 5); ("revoked_unix_ts_ms", JInt 6); ("refund_requested_unix_ts_ms", JInt 7)] ++ ids).
Definition sample_details : jvalue :=
  jobject [("status", JInt 1); ("error_report", JInt 0); ("auto_renewing", JBool true); ("payments_total", JInt 2);
    ("expiry_unix_ts_ms", JInt 9); ("grace_period_duration_ms", JInt 8); ("refund_requested_unix_ts_ms", JInt 0);
    ("items", JArray [sample_payment 1 [("google_payment_token", JString "t"); ("google_order_id", JString "o")];
                      sample_payment 2 [("apple_original_tx_id", JString "a"); ("apple_tx_id", JString "b"); ("apple_web_line_order_id", JString "c")]])].

(** The second of two payments lacks its times: the first is reported. *)
Definition cut_details : jvalue :=
  jobject [("status", JInt 1); ("error_report", JInt 0); ("auto_renewing", JBool true); ("payments_total", JInt 2);
    ("expiry_unix_ts_ms", JInt 5); ("grace_period_duration_ms", JInt 6); ("refund_requested_unix_ts_ms", JInt 0);
    ("items", JArray [sample_payment 1 [("google_payment_token", JString "t"); ("google_order_id", JString "o")];
                      jobject [("status", JInt 1); ("plan", JInt 1); ("payment_provider", JInt 1)]])].

Lemma details_checked_witness :
  (∃ r, parse_details (jwrite (sample_response 0 sample_details)) = Ok r ∧ length (pd_items (r_body r)) = 2%nat ∧
    ∃ obj l, reads array_t obj "items" l ∧ Forall2 item_of (take 2 l) (pd_items (r_body r))) ∧
  (∃ r, parse_details (jwrite (sample_response 0 cut_details)) = Ok r ∧ length (pd_items (r_body r)) = 1%nat ∧ r_errors r ≠ []).
Proof.
  split.
  - destruct (parse_details (jwrite (sample_response 0 sample_details))) as [r|x] eqn:E; [|exfalso; vm_compute in E; discriminate E].
    destruct (details_checked _ _ E) as (_ & Hj & _). exists r. split; [done|].
    assert (length (pd_items (r_body r)) = 2%nat) as Hlen by (vm_compute in E; injection E as <-; reflexivity).
    split; [exact Hlen|]. rewrite Hlen in Hj. destruct Hj as (j & obj & l & _ & _ & Hl & HF); [by destruct (pd_items _)|].
    by exists obj, l.
  - eexists. split; [vm_compute; reflexivity|]. split; [reflexivity|discriminate].
Defined.

(** ** What goes wrong *)

(** The version of a request for a proof is sent but not signed: a 0 is. *)
Lemma version_not_signed : ∃ j, generate_build_to_json 1 seed_a seed_r 5 = jdump j ∧ generate_signed j = Some false.
Proof.
  eexists. split; [apply (generate_run seed_a seed_a seed_r seed_r); (reflexivity || by left)|]. vm_compute. reflexivity.
Qed.

(** A payment by Rangeproof is signed for, but not named in the request. *)
Lemma rangeproof_not_named : is_ok (add_build_to_json 0 seed_a seed_r RANGEPROOF "id" "") = true ∧
  jfind (payment_tx_json (mkTx RANGEPROOF "id" "")) "provider" = Some (JInt 3) ∧
  payment_tx_json (mkTx RANGEPROOF "id" "") = payment_tx_json (mkTx RANGEPROOF "" "").
Proof. split_and!; vm_compute; reflexivity. Qed.

(** A status of 256 is taken for a success, *)
Lemma status_wraps :
  parse_proof_response (jwrite (sample_response 256 sample_result)) = Ok (mkResponse 0 [] sample_issued).
Proof. vm_compute. reflexivity. Qed.

(** a success stays a success when the rest cannot be read, *)
Lemma success_with_errors :
  parse_refund (jwrite (jobject [("status", JInt 0)])) = Ok (mkResponse 0 [KeyMissing "result"] (mkRefundSet 0 false)).
Proof. vm_compute. reflexivity. Qed.

(** a number out of the range of an integer has no defined value, *)
Lemma float_status_undefined : parse_refund (jwrite (jobject [("status", JFloat (-1))])) = Throw undefined_behaviour.
Proof. vm_compute. reflexivity. Qed.

(** and a report out of range is complained about with the user's status. *)
Lemma report_message_shows_status :
  r_errors <$> parse_details (jwrite (sample_response 0 (jobject [("status", JInt 1); ("error_report", JInt 77)]))) =
  Ok [OutOfBounds "error report" 1].
Proof. vm_compute. reflexivity. Qed.
